(* ===== verification/_CoqProject ===== *)
-Q . S2P
Prelude.v
UdpProto.v
UdpCrypto.v
UdpTransport.v
NetId.v
Transfer.v
OrderBook.v
Handoff.v
SessionRoutes.v
Float32.v
CellId.v
Topology.v
Replication.v
Rendezvous.v
HostRegistry.v
GatewayRegistry.v
Services.v
ControlPlane.v
ControlFence.v
ControlAssign.v
ControlTopology.v
ControlIdentity.v
ControlSession.v
CellTransfer.v
CellTransferSafety.v
CellTransferCommit.v
CellTransferSessions.v
VirtualConn.v
VirtualConnSafety.v
Gateway.v
MeshRouting.v
ReceiptFlow.v
GatewaySession.v
PlayerManager.v
PlayerLifecycle.v
HostCell.v
TransferExec.v
TransferHost.v
TransferAuthority.v
TransferDemo.v
TransferRollback.v
TransferSplit.v
TransferConserve.v
LoopQueue.v
LoopQueueSafety.v
GameLoop.v
Rebalance.v
RebalanceSafety.v
Partition.v
PartitionSafety.v
UdpHandshake.v
UdpServer.v
UdpServerSafety.v
UdpSessions.v
MeshFrame.v
Commands.v
CommandDispatch.v
CommandWire.v
CommandRoute.v
FloatOrder.v
Pathfinding.v
PathfindingSafety.v
Quantize.v
QuantizeCodec.v
ClientReplication.v
ReplicationTxn.v
FrameBuild.v
ReplicationClient.v
ReplicationLink.v
ReplicationAgreement.v
ReplicationServe.v
ReplicationSession.v
