(* ===== verification/Prelude.v ===== *)
(** * A verification development for mmokit

    mmokit (src/) is a server-authoritative multiplayer game framework in Go.  A
    coordinator partitions the world into quadtree cells and assigns them to hosts;
    each host runs the authoritative simulation of its cells; gateways terminate the
    client connections and forward traffic to the host that owns the player's cell;
    entities cross cell borders by a handoff between cells, and whole cells are split,
    merged or moved while the game runs.  The development models the parts of the
    framework that decide who is authoritative for what, and the formats that carry
    those decisions, and proves what they promise to each other.

    ** The parts of the program and where they are modelled

    Shared: [Prelude] (machine integers, bytes, Go slices and errors), [Float32]
    (the binary32 operations the cell geometry uses), [FloatOrder] (what rounding keeps of
    the order of binary32 numbers, from the Standard Library's SpecFloat).

    Clients and transport (pkg/net, pkg/replication):
    - [UdpProto]: pkg/net/udpproto/proto.go, the packet envelope.
    - [UdpCrypto]: pkg/net/udpcrypto/udpcrypto.go, sealing and the replay window;
      the key derivation and the AEAD are parameters with their documented laws.
    - [UdpTransport]: pkg/net/udp_transport.go, limits.go, send_result.go, the session
      above it: reliable and unreliable channels, retransmission, bounded queues.
    - [UdpHandshake]: udp_cookie.go and udp_keys.go, the stateless handshake cookie (with
      HMAC-SHA256 written out) and the registry of session keys.
    - [UdpServer]: udp_server.go and the connection table of server.go, the listener as
      steps of its reader, its tickers and the goroutines that close connections; its
      theorems are in [UdpServerSafety] and [UdpSessions].
    - [Replication]: pkg/replication, the frame format, the tiers and the per-viewer
      baselines.
    - [Quantize]: pkg/quantize/delta.go and wireformat.go, the deltas of snapshots and the
      body of a frame; the theorems are in [QuantizeCodec].
    - [ClientReplication]: pkg/system/replication.go, what every viewer is sent each tick,
      the transaction that stages it and its acknowledgement; the world, the grid, the
      replicators and the frame writer are the record [Env].  [ReplicationTxn] and
      [FrameBuild] say what committing a transaction and building a frame do,
      [ReplicationClient] has the reference client of lossy_link_test.go,
      [ReplicationLink] joins them by a network, and [ReplicationAgreement] (the
      invariant), [ReplicationServe] (a tick keeps it) and [ReplicationSession] (the
      theorem) show that they agree.

    Identity and entities (pkg/universe, cell side):
    - [NetId]: net_id_alloc.go and netid_index.go.
    - [Transfer]: transfer.go, the form in which an entity travels.
    - [MeshFrame]: mesh_frame_codec.go and message.go, the messages between cells and the
      protobuf frame that carries one to another host.
    - [Handoff]: handoff_driver.go, handoff_ack.go and the parts of cell.go and
      stage.go they drive, a two-cell protocol over an unreliable network.
    - [PlayerManager], [PlayerLifecycle]: pkg/engine/player_manager.go, the sessions of
      a cell and their state machine.
    - [HostCell]: stage.go, cell.go and engine.go, a cell with the component values, the
      sessions and the virtual connections a transfer moves.
    - [TransferExec] (the jobs on a cell's loop) and [TransferHost] (the operations on a
      host's process): cell_transfer_executor.go.  Their theorems are in
      [TransferAuthority] (who holds a network id), [TransferRollback] (an aborted
      merge), [TransferSplit] (the payloads of a split) and [TransferConserve] (a
      migration from end to end); [TransferDemo] has the concrete parameters the
      witnesses run on.
    - [LoopQueue]: pkg/engine/run_on_loop.go and the drain of loop.go, the bounded queue
      through which other goroutines put jobs on a cell's loop; its theorems are in
      [LoopQueueSafety].
    - [GameLoop]: pkg/engine/loop.go and engine.go, the tick schedule, the removal batch
      of a tick and the systems that are live, and the cluster tick grid of
      pkg/universe.

    The coordinator (pkg/universe, pkg/service):
    - [CellId], [Topology]: cell_id.go, topology.go, the quadtree grid.
    - [Rendezvous]: rendezvous.go, with SHA-256 written out.
    - [HostRegistry], [GatewayRegistry], [Services], [SessionRoutes]: the four tables
      (host_registry.go, gateway_registry.go, pkg/service, session_routes.go).
    - [ControlPlane]: mesh_control_server.go, registration_admission.go,
      coord_assignment.go, control_plane.go and the session index of coordinator.go
      over one state [Coord].  Its theorems are in [ControlFence] (interleaved
      streams), [ControlAssign] (assignment and liveness), [ControlTopology] (the
      ownership callback), [ControlIdentity] (who may change what), [ControlSession].
    - [CellTransfer]: cell_transfer.go, cell_transfer_commit.go, commit_plan.go and the
      commit builders.  Its theorems are in [CellTransferSafety] (the request
      machine), [CellTransferCommit] (ownership), [CellTransferSessions] (sessions).
    - [Rebalance] and [Partition]: rebalance.go, partition.go and partition_monitor.go,
      the two monitors that ask for a migration, a split or a merge; their theorems are
      in [RebalanceSafety] and [PartitionSafety].

    Client traffic between gateways and hosts (pkg/universe):
    - [VirtualConn]: virtual_conn_manager.go, the sessions a host keeps for the players
      behind remote gateways; its theorems are in [VirtualConnSafety].
    - [Gateway]: gateway.go, spawn_resolver.go, mesh_gateway_client.go and
      typed_op_frame.go, the standalone gateway.
    - [MeshRouting]: the client-traffic arms of routeInboundFrame (host_network.go)
      and replication_receipt.go, on both sides.  [ReceiptFlow] composes the two
      sides over an arbitrary network; [GatewaySession] composes them with
      [ControlPlane]: login, migration, logout, reconnection.

    Operator commands (pkg/cmdsys, pkg/universe):
    - [Commands]: rbac.go, grants.go and parser.go, who may run a command and how a line
      becomes its arguments.
    - [CommandDispatch]: dispatcher.go and coerce.go, from a call to its targets, between
      two audit records, over handlers, a transport and a resolver that are parameters.
    - [CommandWire]: cmdsys_transport.go, that transport (the table of requests in flight
      as interleaved goroutines) and the receiving host; [CommandRoute]:
      cmdsys_resolver.go, that resolver over the tables of [ControlPlane].

    Path finding (pkg/pathfinding):
    - [Pathfinding]: astar.go, navgrid.go and smooth.go, in the binary32 arithmetic of the
      code; [PathfindingSafety] has the invariant of the search and the theorems.

    [Prelude] and the tables know nothing of each other; [ControlPlane] composes the
    tables, the topology and the rendezvous as meshControlServer and assignmentEngine
    do, and [CellTransfer] composes [ControlPlane] as the commit plans do.

    ** Conventions

    A w-bit integer is a [Z] with its wrap-around written out ([u32], [i64], ...), a
    byte is a [Z] in the transport files and an [ascii] in names; a Go map is a [gmap],
    and where the code ranges over one the order of the iteration is an argument,
    which the theorems quantify over.  A mutex makes a critical section one step; where
    the code releases it in between (admission and registration, the swap of a stream and
    the order to its old handler to stop, teardown, the look-ups and the assignment of a
    cell that reports ready, the orchestrator's commit goroutine, the two halves of a login
    around the spawn request, the two of closing a UDP session) so does the model, as
    separate steps of a relation whose interleavings the theorems quantify over.  Clock readings are arguments.
    Panics and errors are values ([option], [result]).  Log lines and metrics are left
    out.  A message to another process is appended to an outbox.  A job handed to a
    cell's game loop is one step; whether the loop runs it before the deadline is an
    argument.  What a game registers (guards, actions, hooks, component codecs) is a
    class, with the laws a theorem needs as hypotheses: [TransferSplit.CalmGame] asks
    that lifecycle functions only mark entities for removal, as the framework's own do.
    [HostCell.Game] is the game's registry of replicated components with the hook that
    runs on an arriving entity.

    ** What the theorems show

    - Authority: an entity that crosses out of one of two cells is never without an owner
      ([Handoff.no_zero_authority]; crossings in both directions can lose it,
      [Handoff.handback_loses_authority]), a handoff acknowledged by a cell that does not
      itself wait to give the entity up is completed ([Handoff.promise_commits]; otherwise
      see [Handoff.armed_promise_is_lost]), stale answers change nothing ([Handoff.accept_fence]),
      and inputs keep their order ([Handoff.forwarded_inputs_in_order]).  A migrated cell
      arrives with exactly the entities it had, with the components the destination's
      registry makes of theirs ([TransferConserve.migration_conserves_entities]), the payloads of a split
      partition the cell ([TransferSplit.split_partitions_entities]) and an aborted merge
      gives the survivor back its own authority
      ([TransferRollback.aborted_merge_restores_survivor]).
    - Messages between cells: what is sent to another host arrives with its payload
      ([MeshFrame.mesh_frame_roundtrip]), and whatever frame comes in, a handler never gets
      a message without the payload its type promises ([MeshFrame.decoded_well_typed]).
    - The game loop: what a caller of the queue is told is what happened
      ([LoopQueueSafety.run_on_loop_truthful]), the jobs run in the order they were
      accepted, no caller waits for ever once the loop has stopped; ticks are scheduled
      to the nearest grid point ([GameLoop.schedule_nearest]) and an entity's removal is
      announced once ([GameLoop.removals_announced_once]).
    - The monitors: the cell a host gives away is its heaviest
      ([RebalanceSafety.heaviest_cell_exact]), a migration they ask for is justified by
      the loads in the passes that sample them ([RebalanceSafety.migration_justified]; a
      pass skipped meanwhile may have seen less, [RebalanceSafety.skipped_dip_unseen]), a split or merge
      is asked for when it is due ([PartitionSafety.monitor_asks_when_due]).
    - Ownership of cells: one current stream per host in every interleaving, whose
      predecessors are told to stop or about to be ([ControlFence.streams_fenced]), dead
      hosts are found and their cells reassigned to the reachable hosts chosen
      ([ControlAssign.liveness_pass_exact], [ControlAssign.reassign_complete]), a cell
      reported ready goes to one owner unless two reports race
      ([ControlAssign.cell_ready_single_owner], [ControlAssign.ready_race_two_owners]),
      a transfer settles once, for a reason, by its deadline (three theorems of
      [CellTransferSafety]) and its commit is exactly its mutation
      when the snapshot it was planned on still holds
      ([CellTransferCommit.commit_refines_mutation]).
    - Sessions: the indexes of a cell's sessions agree, save for names a connection has
      dropped ([PlayerLifecycle.sessions_indexed]); the login rules agree, epochs fence stale notices
      ([SessionRoutes.tokens_fence]) and every change of cell takes the clients along
      ([CellTransferSessions.commit_moves_sessions], [ControlSession.migration_moves_session]),
      to the gateway's route and the new host's queue
      ([GatewaySession.migration_switches_traffic]); a connection has one identity
      for as long as it lasts ([GatewaySession.one_connection_one_identity]); a host's session maps stay
      inverse and bounded, its input queues are FIFOs, and a receipt means the frame
      reached the client's transport (three theorems of [VirtualConnSafety],
      [ReceiptFlow.receipt_means_enqueued]).
    - The listener: its session tables agree in every interleaving
      ([UdpServerSafety.session_tables_consistent]), a packet reaches only the session
      bound to its source address ([UdpServerSafety.packet_moves_bound_session]), an
      identity is announced only for a verified handshake
      ([UdpSessions.session_provenance]), and a client that follows the protocol gets its
      session and is heard ([UdpSessions.handshake_completes]).
    - Transport: no replay, exactly-once delivery on the reliable channel, bounded
      queues, codecs that round-trip and decoders that never read past their input.
    - Replication: a delta says exactly what changed ([QuantizeCodec.delta_exact]), a frame
      is read back field by field ([QuantizeCodec.frame_roundtrip]), and over a link that
      loses, delays, duplicates and reorders the client holds what the server takes as its
      baseline ([ReplicationSession.lossy_link_agreement]), for a session whose sequence
      numbers stay below 2^31 and whose entities keep the layout of their network id.
    - Commands: an unauthorised call does nothing and learns nothing
      ([CommandDispatch.unauthorised_learns_nothing]), grants decide as they say
      ([Commands.capability_check_exact]), every call is accounted for in the audit
      ([CommandDispatch.invoke_accounted]), arguments bind exactly and with the right
      shape ([Commands.named_args_exact], [Commands.bound_args_typed]), a request sent to
      another process is answered once ([CommandWire.answered_once]) and for handlers
      that do not ask where the caller is it makes no difference whether a target is local
      or remote ([CommandWire.colocated_matches_remote],
      [CommandWire.source_reader_differs]).
    - Path finding: the search ends with a legal walk exactly when there is one
      ([PathfindingSafety.astar_correct]) and smoothing keeps it passable
      ([PathfindingSafety.smoothed_path]).
    - Markets (pkg/orderbook, [OrderBook]): the books stay sorted and uncrossed and each
      operation equals its specification.

    Where the code does not do what it means to, a closed theorem shows a run: for
    example [ControlFence.teardown_removes_successor],
    [ControlAssign.grant_counter_wraps], [GatewaySession.failed_assignment_locks_user_out],
    [GatewaySession.late_switch_wins], [GatewaySession.late_login_leaves_ghost],
    [PlayerLifecycle.dropped_name_revives_session], [Handoff.handback_loses_authority],
    [ControlAssign.ready_race_two_owners], [CellTransferCommit.merge_counts_duplicates],
    [CellTransferCommit.overlapping_migrations_duplicate],
    [OrderBook.instant_buy_overspends], [UdpCrypto.seal_counter_wraps],
    [TransferSplit.split_across_ticks_loses_player] and
    [TransferSplit.abort_destroys_player], [LoopQueueSafety.submit_reports_failed_job],
    [RebalanceSafety.heavy_cell_ping_pongs], [UdpSessions.replayed_confirm_reuses_nonces],
    [UdpSessions.closed_while_promoted_leaks], [MeshFrame.reserved_action_hijacked],
    [Commands.empty_argument_shifts], [CommandWire.cancel_stops_nothing] and
    [QuantizeCodec.long_snapshot_misread].

    ** Bounds and fuel

    Loops of the code are structural recursions on the list they range over, or take a
    fuel that a theorem shows sufficient: matching spends one resting order per round
    ([OrderBook]), the baseline ring is bounded by its capacity ([Replication]), the
    replay window by its 64 bits, a search of a path by the scores, which only ever get
    smaller and saturate below 2^25 ([PathfindingSafety.search_answers]), the square roots of SHA-256's constants are closed
    terms.  Counters are kept at their width; theorems that need them not to wrap say so
    (network-id grants up to 429, transfer request ids below 2^64, packet counters below
    2^64), and closed theorems show what happens at the wrap where it is reachable.

    ** Not modelled

    Sockets, TLS, gRPC, HTTP, SQL and WebAssembly (the code only calls libraries);
    reflection-driven codecs over game types and the ECS storage (ark, third party);
    floating-point motion and narrow-phase geometry; the operator console's own
    commands and the admin dashboard (formatting over operations modelled here); generated code and the clients
    in other languages.  Within modelled files: the steps of a commit that act on cells
    living in the coordinator's own process, the commit log, the drain of a host that
    leaves gracefully, and the acknowledgement waits of remote host operations; in
    HostCell the border frames, and the forward extrapolation of a promoted entity,
    whose motion is a parameter.  The components Ghost and Dormant are left out of the cell
    (the framework filters on them and nothing under src/pkg adds one; [ClientReplication]
    asks its world for the second); in ClientReplication the callbacks that are told the
    tick alone; in LoopQueue an
    engine without a queue (the synchronous fallback of single-threaded tests) and a nil
    job; in Partition the rewiring of neighbours that are already local to the process.
    Go may fuse a multiplication and an addition on some architectures; the models of
    floating-point code round after each operation, as on amd64. *)

From stdpp Require Export base gmap list strings numbers sorting.
From Stdlib Require Export ZArith Lia.
#[export] Set Default Goal Selector "!".

Open Scope Z_scope.

(** ** Machine integers

    A w-bit Go integer is a [Z] kept in its range by an explicit wrap-around:
    [uN z] is the conversion to [uintN], [iN z] the conversion to [intN]. *)

Definition u8 (z : Z) : Z := z mod 2 ^ 8.
Definition u16 (z : Z) : Z := z mod 2 ^ 16.
Definition u32 (z : Z) : Z := z mod 2 ^ 32.
Definition u64 (z : Z) : Z := z mod 2 ^ 64.
Definition i32 (z : Z) : Z := (z + 2 ^ 31) mod 2 ^ 32 - 2 ^ 31.
Definition i64 (z : Z) : Z := (z + 2 ^ 63) mod 2 ^ 64 - 2 ^ 63.

Definition in_u8 (z : Z) : Prop := 0 <= z < 2 ^ 8.
Definition in_u16 (z : Z) : Prop := 0 <= z < 2 ^ 16.
Definition in_u32 (z : Z) : Prop := 0 <= z < 2 ^ 32.
Definition in_u64 (z : Z) : Prop := 0 <= z < 2 ^ 64.
Definition in_i32 (z : Z) : Prop := - 2 ^ 31 <= z < 2 ^ 31.
Definition in_i64 (z : Z) : Prop := - 2 ^ 63 <= z < 2 ^ 63.

(** [go_int] unfolds the wrap-arounds and range predicates and calls [lia],
    which knows [mod] by a literal. *)
Ltac unfold_int :=
  unfold in_u8, in_u16, in_u32, in_u64, in_i32, in_i64,
         u8, u16, u32, u64, i32, i64 in *;
  change (2 ^ 8) with 256 in *;
  change (2 ^ 16) with 65536 in *;
  change (2 ^ 31) with 2147483648 in *;
  change (2 ^ 32) with 4294967296 in *;
  change (2 ^ 63) with 9223372036854775808 in *;
  change (2 ^ 64) with 18446744073709551616 in *.

Ltac go_int := unfold_int; Z.div_mod_to_equations; lia.

Create HintDb go_range discriminated.

Section Ranges.
Lemma u8_range z : in_u8 (u8 z). Proof. go_int. Qed.
Lemma u16_range z : in_u16 (u16 z). Proof. go_int. Qed.
Lemma u32_range z : in_u32 (u32 z). Proof. go_int. Qed.
Lemma u64_range z : in_u64 (u64 z). Proof. go_int. Qed.
Lemma i32_range z : in_i32 (i32 z). Proof. go_int. Qed.
Lemma i64_range z : in_i64 (i64 z). Proof. go_int. Qed.

Lemma u8_id z : in_u8 z -> u8 z = z. Proof. apply Z.mod_small. Qed.
Lemma u16_id z : in_u16 z -> u16 z = z. Proof. apply Z.mod_small. Qed.
Lemma u32_id z : in_u32 z -> u32 z = z. Proof. apply Z.mod_small. Qed.
Lemma u64_id z : in_u64 z -> u64 z = z. Proof. apply Z.mod_small. Qed.
Lemma i32_id z : in_i32 z -> i32 z = z. Proof. intros. go_int. Qed.
Lemma i64_id z : in_i64 z -> i64 z = z. Proof. intros. go_int. Qed.
End Ranges.
#[export] Hint Resolve u8_range u16_range u32_range u64_range i32_range i64_range
  : go_range.
#[export] Hint Resolve u8_id u16_id u32_id u64_id i32_id i64_id : go_range.

(** ** Fallible code

    A Go function that returns [(T, error)] is modelled by [result E T]. *)

Inductive result (E A : Type) : Type :=
| Ok (a : A)
| Err (e : E).
Arguments Ok {E A} _.
Arguments Err {E A} _.

Definition rbind {E A B} (m : result E A) (k : A -> result E B) : result E B :=
  match m with Ok a => k a | Err e => Err e end.

Declare Scope go_scope.
Delimit Scope go_scope with go.
Notation "'let!' x := m 'in' k" := (rbind m (fun x => k))
  (at level 10, x name, m at level 100, k at level 200) : go_scope.
Notation "'guard' b 'else' e 'in' k" := (if b then k else Err e)
  (at level 10, b at level 100, e at level 100, k at level 200) : go_scope.
Open Scope go_scope.

(** ** Bytes and fixed-width integers on the wire

    Bytes are [Z] in [0, 256); [le_bytes n z] is what
    [binary.LittleEndian.PutUintN] writes, [le_val] what [UintN] reads. *)

Abbreviation bytes := (list Z).

Definition is_byte (b : Z) : Prop := 0 <= b < 256.

Fixpoint le_bytes (n : nat) (z : Z) : bytes :=
  match n with
  | O => []
  | S n => z mod 256 :: le_bytes n (z / 256)
  end.

Fixpoint le_val (l : bytes) : Z :=
  match l with
  | [] => 0
  | b :: l => b + 256 * le_val l
  end.

Definition be_bytes (n : nat) (z : Z) : bytes := rev (le_bytes n z).
Definition be_val (l : bytes) : Z := le_val (rev l).

(** [slice a b l] is Go's [l[a:b]]; every use below is guarded by a length
    test, as in the source. *)
Definition slice {A} (a b : nat) (l : list A) : list A := take (b - a) (drop a l).

Section Bytes.
Lemma length_le_bytes n z : length (le_bytes n z) = n.
Proof. revert z; induction n; simpl; auto. Qed.

Lemma length_be_bytes n z : length (be_bytes n z) = n.
Proof. unfold be_bytes. rewrite length_rev. apply length_le_bytes. Qed.

Lemma le_bytes_is_byte n z : Forall is_byte (le_bytes n z).
Proof.
  revert z; induction n; intros z; simpl; constructor; auto.
  apply Z.mod_pos_bound. lia.
Qed.

Lemma be_bytes_is_byte n z : Forall is_byte (be_bytes n z).
Proof. apply Forall_rev, le_bytes_is_byte. Qed.

Lemma le_val_bytes n z : le_val (le_bytes n z) = z mod 256 ^ Z.of_nat n.
Proof.
  revert z; induction n as [|n IH]; intros z; simpl le_bytes; simpl le_val.
  - change (256 ^ Z.of_nat 0) with 1. by rewrite Z.mod_1_r.
  - rewrite IH, Nat2Z.inj_succ, Z.pow_succ_r by lia.
    assert (0 < 256 ^ Z.of_nat n) by (apply Z.pow_pos_nonneg; lia).
    rewrite Z.rem_mul_r by lia. lia.
Qed.

Lemma be_val_bytes n z : be_val (be_bytes n z) = z mod 256 ^ Z.of_nat n.
Proof. unfold be_val, be_bytes. rewrite rev_involutive. apply le_val_bytes. Qed.

Lemma le_val_range l : Forall is_byte l -> 0 <= le_val l < 256 ^ Z.of_nat (length l).
Proof.
  induction 1 as [|b l Hb _ IH]; simpl length.
  - simpl. change (256 ^ Z.of_nat 0) with 1. lia.
  - rewrite Nat2Z.inj_succ, Z.pow_succ_r by lia. simpl le_val.
    unfold is_byte in Hb. lia.
Qed.

Lemma le_bytes_val l : Forall is_byte l -> le_bytes (length l) (le_val l) = l.
Proof.
  induction 1 as [|b l Hb _ IH]; simpl; [done|].
  unfold is_byte in Hb. f_equal.
  - Z.div_mod_to_equations; lia.
  - replace ((b + 256 * le_val l) / 256) with (le_val l); [done|].
    Z.div_mod_to_equations; lia.
Qed.

Lemma le_u16 z : in_u16 z -> le_val (le_bytes 2 z) = z.
Proof. rewrite le_val_bytes. apply Z.mod_small. Qed.
Lemma le_u32 z : in_u32 z -> le_val (le_bytes 4 z) = z.
Proof. rewrite le_val_bytes. apply Z.mod_small. Qed.
Lemma le_u64 z : in_u64 z -> le_val (le_bytes 8 z) = z.
Proof. rewrite le_val_bytes. apply Z.mod_small. Qed.
Lemma be_u64 z : in_u64 z -> be_val (be_bytes 8 z) = z.
Proof. rewrite be_val_bytes. apply Z.mod_small. Qed.

(** The slice of a concatenation, found by walking the segments. *)
Lemma slice_app_skip {A} (l1 l2 : list A) a b :
  (length l1 <= a)%nat ->
  slice a b (l1 ++ l2) = slice (a - length l1) (b - length l1) l2.
Proof.
  intros. unfold slice. rewrite drop_app_ge by lia.
  f_equal. lia.
Qed.

Lemma slice_app_here {A} (l1 l2 : list A) n :
  length l1 = n -> slice 0 n (l1 ++ l2) = l1.
Proof. intros <-. unfold slice. rewrite drop_0, Nat.sub_0_r. apply take_app_length. Qed.

Lemma slice_all {A} (l : list A) n : length l = n -> slice 0 n l = l.
Proof. intros <-. unfold slice. rewrite drop_0, Nat.sub_0_r. by rewrite firstn_all. Qed.

Lemma le_bytes_of_slice a b n (d : bytes) :
  Forall is_byte d -> (b - a = n)%nat -> (b <= length d)%nat -> le_bytes n (le_val (slice a b d)) = slice a b d.
Proof.
  intros Hd Hn Hb. assert (length (slice a b d) = n) as <-.
  { unfold slice. rewrite length_take, length_drop. lia. }
  apply le_bytes_val. unfold slice. by apply Forall_take, Forall_drop.
Qed.

Lemma slice_join {A} a b c (d : list A) : (a <= b <= c)%nat -> slice a b d ++ slice b c d = slice a c d.
Proof.
  intros H. unfold slice. replace (c - a)%nat with ((b - a) + (c - b))%nat by lia.
  rewrite <- (take_take_drop (drop a d)), drop_drop. by replace (a + (b - a))%nat with b by lia.
Qed.

Lemma le_val_slice_range (d : bytes) : Forall is_byte d -> forall a b, (b <= length d)%nat ->
  0 <= le_val (slice a b d) < 256 ^ Z.of_nat (b - a).
Proof.
  intros Hd a b Hb. replace (b - a)%nat with (length (slice a b d)).
  - apply le_val_range. unfold slice. by apply Forall_take, Forall_drop.
  - unfold slice. rewrite length_take, length_drop. lia.
Qed.
End Bytes.

Create Rewrite HintDb go_len.
#[export] Hint Rewrite @length_app length_le_bytes length_be_bytes : go_len.
#[export] Hint Rewrite @length_replicate @length_take @length_drop : go_len.

(** [go_slices] evaluates every [slice] of a literal concatenation: segments
    in front of the slice are skipped, the segment it names is returned. *)
Ltac len_tac := autorewrite with go_len; simpl; lia.
Ltac go_slices :=
  repeat first
    [ rewrite slice_app_here by len_tac
    | rewrite slice_all by len_tac
    | rewrite slice_app_skip by len_tac; autorewrite with go_len; simpl Nat.sub ].
