(* ===== verification/UdpProto.v ===== *)
(** * The UDP packet envelope (pkg/net/udpproto/proto.go)

    Encoders and decoders of the seven packet types, the token and salt
    derivations and the 16-bit sequence comparison.  A packet is a list of
    bytes; a decoder returns the fields, the header slice used as additional
    authenticated data and the sealed body, or one of the package's errors. *)

From S2P Require Import Prelude.

(** ** Constants *)

Definition TypeUnreliable : Z := 0x00.
Definition TypeReliable : Z := 0x01.
Definition TypeACK : Z := 0x02.
Definition TypeConnReq : Z := 0x03.
Definition TypeConnAccept : Z := 0x04.
Definition TypeDisconnect : Z := 0x05.
Definition TypeConnConfirm : Z := 0x06.

Definition Version : Z := 0x02.
Definition ProtocolID : Z := 0x47414D45.

Definition HeaderPrefixSize : nat := 2.
Definition CounterSize : nat := 8.
Definition TagSize : nat := 16.
Definition CookieSize : nat := 16.
Definition UnreliableHeaderSize : nat := HeaderPrefixSize + 4 + CounterSize.
Definition ReliableHeaderSize : nat := HeaderPrefixSize + 4 + 2 + CounterSize.
Definition ACKHeaderSize : nat := HeaderPrefixSize + 4 + CounterSize.
Definition DisconnectHeaderSize : nat := HeaderPrefixSize + 4 + CounterSize.
Definition ACKBodySize : nat := 2 + 4.
Definition ConnReqSize : nat := HeaderPrefixSize + 4 + 8.
Definition ConnAcceptSize : nat := HeaderPrefixSize + 4 + 8 + 8 + CookieSize.
Definition ConnConfirmSize : nat := HeaderPrefixSize + 8 + 8 + 8 + CookieSize.

Inductive ProtoError :=
| ErrTooShort
| ErrBadType
| ErrBadProtocolID
| ErrBadVersion.

(** ** Derivations from the salts *)

Definition MakeToken (clientSalt serverSalt : Z) : Z :=
  let combined := Z.lxor clientSalt serverSalt in
  Z.lxor (u32 combined) (u32 (Z.shiftr combined 32)).

Definition SessionSalt (clientSalt serverSalt : Z) : bytes :=
  be_bytes 8 clientSalt ++ be_bytes 8 serverSalt.

(** ** The prefix every packet carries *)

Definition byte_at (i : nat) (data : bytes) : Z := default 0 (data !! i).

Definition checkPrefix (data : bytes) (want : Z) : option ProtoError :=
  if (length data <? HeaderPrefixSize)%nat then Some ErrTooShort
  else if negb (byte_at 0 data =? want) then Some ErrBadType
  else if negb (byte_at 1 data =? Version) then Some ErrBadVersion
  else None.

(** [checked data want k] is the Go idiom
    [if err := checkPrefix(data, want); err != nil { return err }; k]. *)
Definition checked {A} (data : bytes) (want : Z) (k : result ProtoError A)
  : result ProtoError A :=
  match checkPrefix data want with Some e => Err e | None => k end.

(** [copy(buf[a:a+n], src)] into a zeroed buffer. *)
Definition copy_into (n : nat) (src : bytes) : bytes :=
  take n src ++ replicate (n - length src) 0.

(** ** Handshake packets *)

Definition EncodeConnReq (clientSalt : Z) : bytes :=
  [TypeConnReq; Version] ++ le_bytes 4 ProtocolID ++ le_bytes 8 clientSalt.

Definition DecodeConnReq (data : bytes) : result ProtoError Z :=
  checked data TypeConnReq
    (if (length data <? ConnReqSize)%nat then Err ErrTooShort
     else if negb (le_val (slice 2 6 data) =? ProtocolID) then Err ErrBadProtocolID
     else Ok (le_val (slice 6 14 data))).

Definition EncodeConnAccept (clientSalt serverSalt : Z) (cookie : bytes) : bytes :=
  [TypeConnAccept; Version] ++ le_bytes 4 ProtocolID ++ le_bytes 8 clientSalt
    ++ le_bytes 8 serverSalt ++ copy_into CookieSize cookie.

Definition DecodeConnAccept (data : bytes) : result ProtoError (Z * Z * bytes) :=
  checked data TypeConnAccept
    (if (length data <? ConnAcceptSize)%nat then Err ErrTooShort
     else if negb (le_val (slice 2 6 data) =? ProtocolID) then Err ErrBadProtocolID
     else Ok (le_val (slice 6 14 data), le_val (slice 14 22 data), slice 22 38 data)).

Definition EncodeConnConfirm (keyID clientSalt serverSalt : Z) (cookie : bytes) : bytes :=
  [TypeConnConfirm; Version] ++ le_bytes 8 keyID ++ le_bytes 8 clientSalt
    ++ le_bytes 8 serverSalt ++ copy_into CookieSize cookie.

Definition DecodeConnConfirm (data : bytes) : result ProtoError (Z * Z * Z * bytes) :=
  checked data TypeConnConfirm
    (if (length data <? ConnConfirmSize)%nat then Err ErrTooShort
     else Ok (le_val (slice 2 10 data), le_val (slice 10 18 data),
              le_val (slice 18 26 data), slice 26 42 data)).

(** ** Data packets *)

Definition EncodeUnreliableHeader (token counter : Z) : bytes :=
  [TypeUnreliable; Version] ++ le_bytes 4 token ++ be_bytes 8 counter.

Definition DecodeUnreliable (data : bytes) : result ProtoError (Z * Z * bytes * bytes) :=
  checked data TypeUnreliable
    (if (length data <? UnreliableHeaderSize + TagSize)%nat then Err ErrTooShort
     else Ok (le_val (slice 2 6 data), be_val (slice 6 14 data),
              take UnreliableHeaderSize data, drop UnreliableHeaderSize data)).

Definition EncodeReliableHeader (token seq counter : Z) : bytes :=
  [TypeReliable; Version] ++ le_bytes 4 token ++ le_bytes 2 seq ++ be_bytes 8 counter.

Definition DecodeReliable (data : bytes) : result ProtoError (Z * Z * Z * bytes * bytes) :=
  checked data TypeReliable
    (if (length data <? ReliableHeaderSize + TagSize)%nat then Err ErrTooShort
     else Ok (le_val (slice 2 6 data), le_val (slice 6 8 data), be_val (slice 8 16 data),
              take ReliableHeaderSize data, drop ReliableHeaderSize data)).

Definition EncodeACKHeader (token counter : Z) : bytes :=
  [TypeACK; Version] ++ le_bytes 4 token ++ be_bytes 8 counter.

Definition EncodeACKBody (ackSeq ackBits : Z) : bytes :=
  le_bytes 2 ackSeq ++ le_bytes 4 ackBits.

Definition DecodeACKBody (body : bytes) : result ProtoError (Z * Z) :=
  if (length body <? ACKBodySize)%nat then Err ErrTooShort
  else Ok (le_val (slice 0 2 body), le_val (slice 2 6 body)).

Definition DecodeACK (data : bytes) : result ProtoError (Z * Z * bytes * bytes) :=
  checked data TypeACK
    (if (length data <? ACKHeaderSize + TagSize)%nat then Err ErrTooShort
     else Ok (le_val (slice 2 6 data), be_val (slice 6 14 data),
              take ACKHeaderSize data, drop ACKHeaderSize data)).

Definition EncodeDisconnectHeader (token counter : Z) : bytes :=
  [TypeDisconnect; Version] ++ le_bytes 4 token ++ be_bytes 8 counter.

Definition DecodeDisconnect (data : bytes) : result ProtoError (Z * Z * bytes * bytes) :=
  checked data TypeDisconnect
    (if (length data <? DisconnectHeaderSize + TagSize)%nat then Err ErrTooShort
     else Ok (le_val (slice 2 6 data), be_val (slice 6 14 data),
              take DisconnectHeaderSize data, drop DisconnectHeaderSize data)).

(** ** Sequence comparison *)

Definition SeqGreaterThan (s1 s2 : Z) : bool :=
  ((s2 <? s1) && (u16 (s1 - s2) <=? 32768)) || ((s1 <? s2) && (32768 <? u16 (s2 - s1))).

(** * Properties *)

Lemma checked_here {A} want rest (k : result ProtoError A) :
  checked ([want; Version] ++ rest) want k = k.
Proof. unfold checked, checkPrefix. simpl. by rewrite Z.eqb_refl. Qed.

Lemma checked_Ok {A} data want (k : result ProtoError A) (a : A) :
  checked data want k = Ok a ->
  k = Ok a /\ exists rest, data = [want; Version] ++ rest.
Proof.
  unfold checked, checkPrefix, byte_at. destruct data as [|x [|y rest]]; simpl; try done.
  destruct (x =? want) eqn:Hx; simpl; [|done].
  destruct (y =? Version) eqn:Hy; simpl; [|done].
  apply Z.eqb_eq in Hx, Hy. subst. eauto.
Qed.

Lemma copy_into_full n src : length src = n -> copy_into n src = src.
Proof.
  intros <-. unfold copy_into. rewrite Nat.sub_diag, firstn_all. apply app_nil_r.
Qed.

Lemma length_copy_into n src : length (copy_into n src) = n.
Proof. unfold copy_into. len_tac. Qed.
#[export] Hint Rewrite length_copy_into : go_len.
#[export] Hint Rewrite le_u16 le_u32 le_u64 be_u64 using assumption : go_len.

(** [go_decode] runs a decoder on a literal concatenation: it discharges the
    length guard and evaluates the slices. *)
Ltac go_decode :=
  rewrite ?checked_here;
  repeat (rewrite (proj2 (Nat.ltb_ge _ _)) by (unfold_sizes; len_tac));
  go_slices; autorewrite with go_len; try done
with unfold_sizes :=
  unfold UnreliableHeaderSize, ReliableHeaderSize, ACKHeaderSize, DisconnectHeaderSize,
    ACKBodySize, ConnReqSize, ConnAcceptSize, ConnConfirmSize, HeaderPrefixSize,
    CounterSize, TagSize, CookieSize in *.

(** The three handshake packets survive a round trip: whatever 64-bit
    salts, key id and 16-byte cookie are encoded, the matching decoder returns
    exactly them and no error. *)
Theorem handshake_roundtrip (keyID clientSalt serverSalt : Z) (cookie : bytes) :
  in_u64 keyID -> in_u64 clientSalt -> in_u64 serverSalt ->
  length cookie = CookieSize ->
  DecodeConnReq (EncodeConnReq clientSalt) = Ok clientSalt /\
  DecodeConnAccept (EncodeConnAccept clientSalt serverSalt cookie)
    = Ok (clientSalt, serverSalt, cookie) /\
  DecodeConnConfirm (EncodeConnConfirm keyID clientSalt serverSalt cookie)
    = Ok (keyID, clientSalt, serverSalt, cookie).
Proof.
  intros Hk Hc Hs Hck.
  unfold DecodeConnReq, EncodeConnReq, DecodeConnAccept, EncodeConnAccept,
    DecodeConnConfirm, EncodeConnConfirm.
  rewrite (copy_into_full CookieSize cookie) by done.
  split_and!; unfold_sizes; go_decode.
Qed.

(** Header sizes are what the constants say. *)
Lemma length_headers token seq counter :
  length (EncodeUnreliableHeader token counter) = UnreliableHeaderSize /\
  length (EncodeReliableHeader token seq counter) = ReliableHeaderSize /\
  length (EncodeACKHeader token counter) = ACKHeaderSize /\
  length (EncodeDisconnectHeader token counter) = DisconnectHeaderSize.
Proof.
  unfold EncodeUnreliableHeader, EncodeReliableHeader, EncodeACKHeader,
    EncodeDisconnectHeader.
  split_and!; unfold_sizes; len_tac.
Qed.

(** Every data packet survives a round trip: a header followed by a sealed
    body of at least one tag decodes to the encoded token, sequence and
    counter, and splits into exactly that header (the additional authenticated
    data) and that body. *)
Theorem data_roundtrip (token seq counter : Z) (sealed : bytes) :
  in_u32 token -> in_u16 seq -> in_u64 counter -> (TagSize <= length sealed)%nat ->
  DecodeUnreliable (EncodeUnreliableHeader token counter ++ sealed)
    = Ok (token, counter, EncodeUnreliableHeader token counter, sealed) /\
  DecodeReliable (EncodeReliableHeader token seq counter ++ sealed)
    = Ok (token, seq, counter, EncodeReliableHeader token seq counter, sealed) /\
  DecodeACK (EncodeACKHeader token counter ++ sealed)
    = Ok (token, counter, EncodeACKHeader token counter, sealed) /\
  DecodeDisconnect (EncodeDisconnectHeader token counter ++ sealed)
    = Ok (token, counter, EncodeDisconnectHeader token counter, sealed).
Proof.
  intros Ht Hq Hc Hl.
  destruct (length_headers token seq counter) as (Hu & Hr & Ha & Hd).
  unfold DecodeUnreliable, DecodeReliable, DecodeACK, DecodeDisconnect.
  rewrite !take_app_length', !drop_app_length' by done.
  unfold EncodeUnreliableHeader, EncodeReliableHeader, EncodeACKHeader,
    EncodeDisconnectHeader.
  rewrite <- !app_assoc.
  split_and!; unfold_sizes; go_decode.
Qed.

(** A byte list of known length is the little-endian image of its value. *)
Lemma le_bytes_slice n l :
  Forall is_byte l -> length l = n -> le_bytes n (le_val l) = l.
Proof. intros H <-. by apply le_bytes_val. Qed.

Lemma be_bytes_slice n l :
  Forall is_byte l -> length l = n -> be_bytes n (be_val l) = l.
Proof.
  intros H <-. unfold be_bytes, be_val.
  rewrite <- (length_rev l), le_bytes_val by (by apply Forall_rev).
  apply rev_involutive.
Qed.

Lemma slice_length {A} a b (l : list A) :
  (a <= b <= length l)%nat -> length (slice a b l) = (b - a)%nat.
Proof. intros. unfold slice. rewrite length_take, length_drop. lia. Qed.

Lemma slice_bytes a b l : Forall is_byte l -> Forall is_byte (slice a b l).
Proof. intros. unfold slice. by apply Forall_take, Forall_drop. Qed.

Lemma slice_split {A} a b c (l : list A) :
  (a <= b <= c)%nat -> slice a b l ++ slice b c l = slice a c l.
Proof.
  intros. unfold slice.
  replace (drop b l) with (drop (b - a) (drop a l)).
  2:{ rewrite drop_drop. f_equal. lia. }
  rewrite take_take_drop. f_equal. lia.
Qed.

(** The AEAD covers what the server acts on.  When a reliable packet
    decodes, the returned additional authenticated data is the canonical header
    of exactly the token, sequence and counter returned, and header and sealed
    body together are the whole datagram: no field the caller reads, and no
    byte of the datagram, escapes authentication. *)
Theorem reliable_aad_canonical (data aad sealed : bytes) (token seq counter : Z) :
  Forall is_byte data ->
  DecodeReliable data = Ok (token, seq, counter, aad, sealed) ->
  aad = EncodeReliableHeader token seq counter /\ data = aad ++ sealed /\
  (TagSize <= length sealed)%nat.
Proof.
  intros Hb [Hd [rest ->]]%checked_Ok.
  destruct (Nat.ltb_spec (length ([TypeReliable; Version] ++ rest))
              (ReliableHeaderSize + TagSize)) as [|Hlen]; [done|].
  injection Hd as <- <- <- <- <-.
  split_and!.
  - unfold EncodeReliableHeader.
    rewrite !le_bytes_slice, be_bytes_slice by
      (first [by apply slice_bytes
             | rewrite slice_length; unfold_sizes; simpl in *; lia]).
    change (take ReliableHeaderSize (?a ++ ?b)) with (slice 0 16 (a ++ b)).
    rewrite slice_split, slice_split by lia. done.
  - exact (eq_sym (take_drop ReliableHeaderSize _)).
  - unfold_sizes. simpl in *. rewrite length_drop. lia.
Qed.

(** [SeqGreaterThan] is serial-number arithmetic: on distinct 16-bit
    sequences exactly one of the two is greater, none is greater than itself,
    and for two messages fewer than 2^15 apart the comparison of their wrapped
    sequences agrees with the order in which they were sent. *)
Theorem seq_greater_serial (n1 n2 : Z) :
  SeqGreaterThan (u16 n1) (u16 n1) = false /\
  (u16 n1 <> u16 n2 ->
   SeqGreaterThan (u16 n1) (u16 n2) = negb (SeqGreaterThan (u16 n2) (u16 n1))) /\
  (Z.abs (n1 - n2) < 32768 -> SeqGreaterThan (u16 n1) (u16 n2) = (n2 <? n1)).
Proof.
  unfold SeqGreaterThan. split_and!.
  - rewrite Z.ltb_irrefl. done.
  - intros. unfold_int. Z.div_mod_to_equations; lia.
  - intros. unfold_int. Z.div_mod_to_equations; lia.
Qed.

(** ** Witnesses *)

Definition sample_cookie : bytes := replicate 16 7.

(** [in_range] discharges a range hypothesis at a literal. *)
Ltac in_range := vm_compute; intuition congruence.

Lemma handshake_roundtrip_witness :
  DecodeConnReq (EncodeConnReq 0x1122334455667788) = Ok 0x1122334455667788.
Proof.
  apply (handshake_roundtrip 9 0x1122334455667788 5 sample_cookie);
    [in_range|in_range|in_range|reflexivity].
Defined.

Lemma data_roundtrip_witness :
  DecodeReliable (EncodeReliableHeader 0xCAFE 513 77 ++ replicate 20 1)
  = Ok (0xCAFE, 513, 77, EncodeReliableHeader 0xCAFE 513 77, replicate 20 1).
Proof.
  apply (data_roundtrip 0xCAFE 513 77 (replicate 20 1));
    [in_range|in_range|in_range|vm_compute; lia].
Defined.

Lemma reliable_aad_canonical_witness :
  EncodeReliableHeader 1 2 3 = EncodeReliableHeader 1 2 3 /\
  (TagSize <= length (replicate 16 9))%nat.
Proof.
  destruct (reliable_aad_canonical (EncodeReliableHeader 1 2 3 ++ replicate 16 9)
              (EncodeReliableHeader 1 2 3) (replicate 16 9) 1 2 3) as (Ha & _ & Hl).
  - repeat constructor; vm_compute; intuition congruence.
  - vm_compute. reflexivity.
  - split; [exact Ha | exact Hl].
Defined.

Lemma seq_greater_serial_witness : SeqGreaterThan (u16 65540) (u16 65530) = true.
Proof. apply (seq_greater_serial 65540 65530). lia. Defined.
