(* ===== verification/UdpCrypto.v ===== *)
(** * Packet protection for UDP sessions (pkg/net/udpcrypto/udpcrypto.go)

    A session's directional keys, its send counter and its receive replay
    window.  The AEAD (ChaCha20-Poly1305) and the key derivation (HKDF) are
    library code: they are the parameters of [Section Session], with their
    documented laws as hypotheses of the theorems that need them. *)

From S2P Require Import Prelude.

Definition KeySize : nat := 32.
Definition NonceSize : nat := 12.
Definition WireCounterSize : nat := 8.
Definition ReplayWindowSize : Z := 64.
Definition maxCounter : Z := 2 ^ 64 - 1 - 1024.

Definition labelC2S : string := "mmokit/udp/v1 client-to-server".
Definition labelS2C : string := "mmokit/udp/v1 server-to-client".

Inductive CryptoError :=
| ErrReplay
| ErrAuthentication
| ErrCounterExhausted
| ErrZeroCounter
| ErrDerive
| ErrAEAD.

Inductive Role := RoleClient | RoleServer.

(** ** The replay window *)

Record replayWindow := mkWindow { highest : Z; bitmap : Z }.

Definition window_check (w : replayWindow) (ctr : Z) : bool :=
  if highest w <? ctr then true
  else
    let diff := u64 (highest w - ctr) in
    if ReplayWindowSize <=? diff then false
    else Z.land (bitmap w) (u64 (Z.shiftl 1 diff)) =? 0.

Definition window_commit (w : replayWindow) (ctr : Z) : replayWindow :=
  if highest w <? ctr then
    let shift := u64 (ctr - highest w) in
    let bm := if ReplayWindowSize <=? shift then 0 else u64 (Z.shiftl (bitmap w) shift) in
    mkWindow ctr (Z.lor bm 1)
  else
    let diff := u64 (highest w - ctr) in
    if diff <? ReplayWindowSize
    then mkWindow (highest w) (Z.lor (bitmap w) (u64 (Z.shiftl 1 diff)))
    else w.

(** The nonce of a counter: four zero bytes, then the counter big-endian. *)
Definition nonceFor (ctr : Z) : bytes :=
  replicate (NonceSize - WireCounterSize) 0 ++ be_bytes WireCounterSize ctr.

(** ** Sessions *)

Record Session := mkSession {
  sendKey : bytes;
  recvKey : bytes;
  sendCtr : Z;
  win : replayWindow;
  accepted : Z;
  replayed : Z;
  failed : Z
}.

Section Session.
(** [hkdf_key secret salt label n] is [hkdf.Key(sha256.New, ...)]; [None] is its
    error.  [aead_seal]/[aead_open key nonce text aad] are the AEAD's [Seal] and
    [Open] appended to an empty destination. *)
Context (hkdf_key : bytes -> bytes -> string -> nat -> option bytes).
Context (aead_seal : bytes -> bytes -> bytes -> bytes -> bytes).
Context (aead_open : bytes -> bytes -> bytes -> bytes -> option bytes).

Definition deriveKey (master salt : bytes) (label : string) : result CryptoError bytes :=
  match hkdf_key master salt label KeySize with
  | Some k => Ok k
  | None => Err ErrDerive
  end.

(** [chacha20poly1305.New] rejects a key of the wrong length. *)
Definition newAEAD (key : bytes) : result CryptoError bytes :=
  if (length key =? KeySize)%nat then Ok key else Err ErrAEAD.

Definition NewSession (master : bytes) (role : Role) (salt : bytes)
  : result CryptoError Session :=
  let! c2s := deriveKey master salt labelC2S in
  let! s2c := deriveKey master salt labelS2C in
  let keys := match role with RoleServer => (s2c, c2s) | RoleClient => (c2s, s2c) end in
  let! sendAEAD := newAEAD keys.1 in
  let! recvAEAD := newAEAD keys.2 in
  Ok (mkSession sendAEAD recvAEAD 0 (mkWindow 0 0) 0 0 0).

Definition with_sendCtr (s : Session) (ctr : Z) : Session :=
  mkSession (sendKey s) (recvKey s) ctr (win s) (accepted s) (replayed s) (failed s).

Definition Seal (s : Session) (dst plaintext aad : bytes)
  : Session * result CryptoError (Z * bytes) :=
  let ctr := u64 (sendCtr s + 1) in
  let s := with_sendCtr s ctr in
  if maxCounter <? ctr then (s, Err ErrCounterExhausted)
  else (s, Ok (ctr, dst ++ aead_seal (sendKey s) (nonceFor ctr) plaintext aad)).

Definition SealWithHeader (s : Session) (plaintext : bytes) (buildHeader : Z -> bytes)
  : Session * result CryptoError (bytes * bytes) :=
  let ctr := u64 (sendCtr s + 1) in
  let s := with_sendCtr s ctr in
  if maxCounter <? ctr then (s, Err ErrCounterExhausted)
  else
    let hdr := buildHeader ctr in
    (s, Ok (hdr, aead_seal (sendKey s) (nonceFor ctr) plaintext hdr)).

Definition bump_replayed (s : Session) : Session :=
  mkSession (sendKey s) (recvKey s) (sendCtr s) (win s) (accepted s)
    (u64 (replayed s + 1)) (failed s).

Definition bump_failed (s : Session) : Session :=
  mkSession (sendKey s) (recvKey s) (sendCtr s) (win s) (accepted s)
    (replayed s) (u64 (failed s + 1)).

Definition commit_accepted (s : Session) (ctr : Z) : Session :=
  mkSession (sendKey s) (recvKey s) (sendCtr s) (window_commit (win s) ctr)
    (u64 (accepted s + 1)) (replayed s) (failed s).

Definition Open (s : Session) (dst : bytes) (ctr : Z) (ciphertext aad : bytes)
  : Session * result CryptoError bytes :=
  if ctr =? 0 then (bump_replayed s, Err ErrZeroCounter)
  else if negb (window_check (win s) ctr) then (bump_replayed s, Err ErrReplay)
  else
    match aead_open (recvKey s) (nonceFor ctr) ciphertext aad with
    | None => (bump_failed s, Err ErrAuthentication)
    | Some out => (commit_accepted s ctr, Ok (dst ++ out))
    end.

Definition Stats (s : Session) : Z * Z * Z := (accepted s, replayed s, failed s).

Definition SendCounter (s : Session) : Z := sendCtr s.

(** ** Runs

    [open_all s ps] opens the packets [ps] in order and returns the counters
    of those that were accepted; [seal_all s ps] seals the texts [ps] in order
    and returns the counters the successful calls handed out. *)

Fixpoint open_all (s : Session) (ps : list (Z * bytes * bytes)) : Session * list Z :=
  match ps with
  | [] => (s, [])
  | (ctr, ct, aad) :: ps =>
      match Open s [] ctr ct aad with
      | (s', Ok _) => let '(s'', l) := open_all s' ps in (s'', ctr :: l)
      | (s', Err _) => open_all s' ps
      end
  end.

Fixpoint seal_all (s : Session) (ps : list (bytes * bytes)) : Session * list Z :=
  match ps with
  | [] => (s, [])
  | (pt, aad) :: ps =>
      match Seal s [] pt aad with
      | (s', Ok (ctr, _)) => let '(s'', l) := seal_all s' ps in (s'', ctr :: l)
      | (s', Err _) => seal_all s' ps
      end
  end.
End Session.

(** * Properties *)

(** ** Bits of 64-bit words *)

Lemma testbit_one_shl d n : 0 <= d < 64 ->
  Z.testbit (u64 (Z.shiftl 1 d)) n = (n =? d).
Proof.
  intros. unfold u64.
  rewrite Z.shiftl_1_l, Z.mod_small.
  2:{ split; [apply Z.pow_nonneg; lia | apply Z.pow_lt_mono_r; lia]. }
  rewrite Z.pow2_bits_eqb by lia. apply Z.eqb_sym.
Qed.

Lemma testbit_one d : Z.testbit 1 d = (d =? 0).
Proof. apply (testbit_one_shl 0 d). lia. Qed.

Lemma testbit_shl64 b s n : 0 <= n < 64 -> 0 <= s ->
  Z.testbit (u64 (Z.shiftl b s)) n = (s <=? n) && Z.testbit b (n - s).
Proof.
  intros. unfold u64. rewrite Z.mod_pow2_bits_low by lia.
  rewrite Z.shiftl_spec by lia.
  destruct (Z.leb_spec s n); [done|]. by rewrite Z.testbit_neg_r by lia.
Qed.

Lemma land_bit_zero b d : 0 <= d < 64 ->
  (Z.land b (u64 (Z.shiftl 1 d)) =? 0) = negb (Z.testbit b d).
Proof.
  intros Hd. apply eq_true_iff_eq. rewrite Z.eqb_eq, negb_true_iff. split; intros H.
  - apply (f_equal (fun z => Z.testbit z d)) in H.
    rewrite Z.land_spec, testbit_one_shl, Z.eqb_refl, andb_true_r, Z.bits_0 in H by done.
    done.
  - apply Z.bits_inj'. intros n Hn.
    rewrite Z.land_spec, testbit_one_shl, Z.bits_0 by done.
    destruct (Z.eqb_spec n d) as [->|]; [by rewrite H | by rewrite andb_false_r].
Qed.

(** ** What the window stands for

    [window_repr w S]: the window [w] remembers exactly the accepted counters
    [S] within 64 of the highest one. *)
Record window_repr (w : replayWindow) (S : gset Z) : Prop := {
  wr_range : 0 <= highest w < 2 ^ 64;
  wr_below : forall c, c ∈ S -> 1 <= c <= highest w;
  wr_bits : forall d, 0 <= d < 64 -> (Z.testbit (bitmap w) d = true <-> highest w - d ∈ S)
}.

Lemma window_repr_empty : window_repr (mkWindow 0 0) ∅.
Proof.
  constructor; simpl; [lia|set_solver|].
  intros d Hd. rewrite Z.bits_0. set_solver.
Qed.

Lemma u64_diff a b : 0 <= b <= a -> a < 2 ^ 64 -> u64 (a - b) = a - b.
Proof. intros. apply Z.mod_small. lia. Qed.

Lemma window_check_spec w S c : window_repr w S -> 1 <= c < 2 ^ 64 ->
  (window_check w c = true) <-> ((c ∉ S) /\ highest w - c < 64).
Proof.
  intros [Hr Hb Hbits] Hc. unfold window_check, ReplayWindowSize.
  destruct (Z.ltb_spec (highest w) c).
  - split; [|done]. intros _. split; [|lia]. intros Hin. apply Hb in Hin. lia.
  - rewrite u64_diff by lia.
    destruct (Z.leb_spec 64 (highest w - c)); [split; [done|lia]|].
    rewrite land_bit_zero, negb_true_iff by lia.
    specialize (Hbits (highest w - c)).
    replace (highest w - (highest w - c)) with c in Hbits by lia.
    destruct (Z.testbit _ _) eqn:E.
    + split; [done|]. intros [Hn _]. exfalso. apply Hn, Hbits; [lia|done].
    + split; [|done]. intros _. split; [|lia].
      intros Hin. apply Hbits in Hin; [congruence|lia].
Qed.

Lemma window_commit_repr w S c : window_repr w S -> 1 <= c < 2 ^ 64 ->
  window_check w c = true -> window_repr (window_commit w c) ({[c]} ∪ S).
Proof.
  intros HR Hc Hck. pose proof (proj1 (window_check_spec w S c HR Hc) Hck) as [HnS Hnear].
  destruct HR as [Hr Hb Hbits]. unfold window_commit, ReplayWindowSize.
  destruct (Z.ltb_spec (highest w) c) as [Hlt|Hge].
  - rewrite u64_diff by lia. constructor; simpl; [lia| |].
    + intros x [->%elem_of_singleton|Hx]%elem_of_union; [lia|]. apply Hb in Hx. lia.
    + intros d Hd. rewrite Z.lor_spec, orb_true_iff, elem_of_union, elem_of_singleton.
      rewrite testbit_one, Z.eqb_eq.
      destruct (Z.leb_spec 64 (c - highest w)).
      * rewrite Z.bits_0. split; [intros [|]; [done|left; lia]|].
        intros [|Hx]; [right; lia|]. apply Hb in Hx. lia.
      * rewrite testbit_shl64, andb_true_iff, Z.leb_le by lia.
        split.
        -- intros [[Hle Ht]| ->]; [right|left; lia].
           apply Hbits in Ht; [|lia]. by replace (c - d) with (highest w - (d - (c - highest w))) by lia.
        -- intros [|Hx]; [right; lia|left].
           pose proof (Hb _ Hx). split; [lia|]. apply Hbits; [lia|].
           by replace (highest w - (d - (c - highest w))) with (c - d) by lia.
  - rewrite u64_diff by lia. destruct (Z.ltb_spec (highest w - c) 64); [|lia].
    constructor; simpl; [done| |].
    + intros x [->%elem_of_singleton|Hx]%elem_of_union; [lia|]. by apply Hb.
    + intros d Hd. rewrite Z.lor_spec, orb_true_iff, elem_of_union, elem_of_singleton.
      rewrite testbit_one_shl, Z.eqb_eq by lia. rewrite Hbits by done.
      split; [intros [|]; [by right|left; lia] | intros [|]; [right; lia|by left]].
Qed.

Section SessionFacts.
Context (aead_open : bytes -> bytes -> bytes -> bytes -> option bytes).
Let Open := Open aead_open.
Let open_all := open_all aead_open.

Lemma Open_cases s dst ctr ct aad :
  (exists out, (window_check (win s) ctr = true) /\ ctr <> 0 /\
     aead_open (recvKey s) (nonceFor ctr) ct aad = Some out /\
     Open s dst ctr ct aad = (commit_accepted s ctr, Ok (dst ++ out))) \/
  (exists s' e, Open s dst ctr ct aad = (s', Err e) /\ win s' = win s).
Proof.
  unfold Open, UdpCrypto.Open. destruct (Z.eqb_spec ctr 0); [right; eauto|].
  destruct (window_check (win s) ctr) eqn:E; simpl; [|right; eauto].
  destruct (aead_open _ _ _ _) as [out|] eqn:Ho; [left; eauto 10|right; eauto].
Qed.

Lemma open_all_fresh ps : forall s S,
  window_repr (win s) S -> Forall (fun p => in_u64 p.1.1) ps ->
  NoDup (open_all s ps).2 /\ forall c, c ∈ (open_all s ps).2 -> c ∉ S.
Proof.
  induction ps as [|[[c ct] aad] ps IH]; intros s S HR Hps; simpl.
  { split; [constructor|]. intros c Hc. by apply elem_of_nil in Hc. }
  apply Forall_cons in Hps as [Hc Hps]. simpl in Hc.
  destruct (Open_cases s [] c ct aad) as [(out & Hck & Hz & _ & HO)|(s' & e & HO & Hw)];
    unfold Open in HO; rewrite HO.
  - assert (1 <= c < 2 ^ 64) as Hrange by (unfold in_u64 in Hc; lia).
    specialize (IH (commit_accepted s c) ({[c]} ∪ S)) as [Hnd Hfresh].
    { simpl. by apply window_commit_repr. } { done. }
    unfold open_all in *. destruct (UdpCrypto.open_all _ _ ps) as [s'' l]. simpl in *.
    split.
    + constructor; [|done]. intros Hin. apply Hfresh in Hin. set_solver.
    + intros x [->|Hx]%elem_of_cons; [|apply Hfresh in Hx; set_solver].
      by apply (window_check_spec _ _ _ HR Hrange).
  - apply IH; [|done]. by rewrite Hw.
Qed.
End SessionFacts.

(** No counter is ever accepted twice.  Whatever packets arrive, in whatever
    order, forged or genuine, duplicated or delayed, the counters for which a
    fresh session's [Open] succeeds are pairwise distinct. *)
Theorem no_replay (aead_open : bytes -> bytes -> bytes -> bytes -> option bytes)
    (sk rk : bytes) (ctr : Z) (packets : list (Z * bytes * bytes)) :
  Forall (fun p => in_u64 p.1.1) packets ->
  NoDup (open_all aead_open (mkSession sk rk ctr (mkWindow 0 0) 0 0 0) packets).2.
Proof.
  intros H. refine (proj1 (open_all_fresh aead_open packets _ ∅ _ H)).
  apply window_repr_empty.
Qed.

(** The window moves only on authenticated packets and never rejects a
    genuine one it could prove unseen.  With [S] the counters accepted so far, a
    packet is accepted exactly when its counter is non-zero, not in [S], less
    than 64 behind the highest accepted one, and its tag verifies; then the
    window represents [S] plus that counter, and in every other case the window
    is unchanged. *)
Theorem open_refines_set (aead_open : bytes -> bytes -> bytes -> bytes -> option bytes)
    (s : Session) (S : gset Z) (dst ct aad : bytes) (ctr : Z) :
  window_repr (win s) S -> in_u64 ctr ->
  let '(s', r) := Open aead_open s dst ctr ct aad in
  (forall out, r = Ok (dst ++ out) -> window_repr (win s') ({[ctr]} ∪ S)) /\
  (forall e, r = Err e -> win s' = win s) /\
  ((exists out, r = Ok out) <->
     ctr <> 0 /\ ctr ∉ S /\ highest (win s) - ctr < 64 /\
     is_Some (aead_open (recvKey s) (nonceFor ctr) ct aad)).
Proof.
  intros HR Hc. unfold in_u64 in Hc. unfold Open.
  destruct (Z.eqb_spec ctr 0) as [->|Hz].
  { split_and!; [done..|]. split; [by intros []|lia]. }
  assert (1 <= ctr < 2 ^ 64) as Hr by lia.
  pose proof (window_check_spec _ _ _ HR Hr) as Hspec.
  destruct (window_check (win s) ctr) eqn:Hck; simpl.
  2:{ split_and!; [done..|]. split; [by intros []|].
      intros (_ & ? & ? & _). exfalso. by assert (false = true) by (by apply Hspec). }
  destruct Hspec as [Hspec _]. destruct (Hspec eq_refl).
  destruct (aead_open _ _ _ _) as [out|] eqn:Ho.
  - split_and!; [intros; by apply window_commit_repr|done|].
    split; [intros _; split_and!; eauto|eauto].
  - split_and!; [done..|]. split; [by intros []|]. intros (_ & _ & _ & []). done.
Qed.

(** ** Nonces *)

Lemma nonceFor_inj c1 c2 : in_u64 c1 -> in_u64 c2 -> nonceFor c1 = nonceFor c2 -> c1 = c2.
Proof.
  intros H1 H2 H. unfold nonceFor in H. apply app_inv_head in H.
  apply (f_equal be_val) in H. unfold WireCounterSize in H. by rewrite !be_u64 in H.
Qed.

Lemma seal_all_counters aead_seal ps : forall s,
  0 <= sendCtr s -> sendCtr s + Z.of_nat (length ps) < 2 ^ 64 ->
  NoDup (seal_all aead_seal s ps).2 /\
  forall c, c ∈ (seal_all aead_seal s ps).2 -> sendCtr s < c <= maxCounter.
Proof.
  induction ps as [|[pt aad] ps IH]; intros s H0 Hlt; simpl.
  { split; [constructor|]. intros c Hc. by apply elem_of_nil in Hc. }
  simpl length in Hlt. unfold Seal.
  assert (Hc : u64 (sendCtr s + 1) = sendCtr s + 1) by (apply Z.mod_small; lia).
  rewrite Hc. specialize (IH (with_sendCtr s (sendCtr s + 1))) as [Hnd Hgt];
    [simpl; lia..|]. simpl in Hgt.
  destruct (Z.ltb_spec maxCounter (sendCtr s + 1)).
  { split; [done|]. intros c Hin. apply Hgt in Hin. lia. }
  destruct (seal_all _ _ ps) as [s'' l]. simpl in *. split.
  - constructor; [|done]. intros Hin. apply Hgt in Hin. lia.
  - intros c [->|Hin]%elem_of_cons; [lia|]. apply Hgt in Hin. lia.
Qed.

(** A fresh session never reuses a nonce: over any run of fewer than 2^64
    calls, the nonces of the packets [Seal] emits are pairwise distinct. *)
Theorem seal_nonces_unique (aead_seal : bytes -> bytes -> bytes -> bytes -> bytes)
    (sk rk : bytes) (w : replayWindow) (texts : list (bytes * bytes)) :
  Z.of_nat (length texts) < 2 ^ 64 ->
  NoDup (nonceFor <$> (seal_all aead_seal (mkSession sk rk 0 w 0 0 0) texts).2).
Proof.
  intros Hlen. destruct (seal_all_counters aead_seal texts (mkSession sk rk 0 w 0 0 0)) as [Hnd Hr];
    [simpl; lia..|].
  apply NoDup_fmap_2_strong; [|done].
  intros a b Ha%Hr Hb%Hr. simpl in *. unfold maxCounter in *.
  apply nonceFor_inj; unfold in_u64; lia.
Qed.

(** The headroom below the ceiling of the counter is finite: [Seal] keeps
    incrementing after it has started to fail, so 1025 calls after the first
    [ErrCounterExhausted] the counter has wrapped and [Seal] succeeds again,
    with counter 0. *)
Theorem seal_counter_wraps aead_seal sk rk w dst pt aad :
  (Seal aead_seal (mkSession sk rk maxCounter w 0 0 0) dst pt aad).2
    = Err ErrCounterExhausted /\
  (Seal aead_seal (mkSession sk rk (maxCounter + 1024) w 0 0 0) dst pt aad).2
    = Ok (0, dst ++ aead_seal sk (nonceFor 0) pt aad).
Proof. split; reflexivity. Qed.

(** ** The two ends of a session *)

Lemma peers_share_keys hkdf_key master salt c s :
  NewSession hkdf_key master RoleClient salt = Ok c ->
  NewSession hkdf_key master RoleServer salt = Ok s ->
  sendKey c = recvKey s /\ sendKey s = recvKey c.
Proof.
  unfold NewSession, rbind, newAEAD.
  destruct (deriveKey hkdf_key master salt labelC2S) as [k1|]; [|done].
  destruct (deriveKey hkdf_key master salt labelS2C) as [k2|]; [|done]. simpl.
  destruct (length k1 =? KeySize)%nat, (length k2 =? KeySize)%nat; try done.
  by intros [= <-] [= <-].
Qed.

(** The link from a sender to a receiver: same key, and the receiver has
    accepted nothing beyond what the sender has emitted. *)
Record link (c s : Session) : Prop := {
  link_key : sendKey c = recvKey s;
  link_ctr : 0 <= highest (win s) <= sendCtr c
}.

(** What one peer seals the other opens.  For two sessions made from the
    same master key and salt (either direction), and any later pair of states
    in which the receiver has seen nothing the sender has not sent, a packet
    the sender seals opens to its plaintext under the same header, unless the
    send counter is exhausted; the relation between the two is preserved
    whether the packet is delivered or lost. *)
Theorem peer_roundtrip
    (hkdf_key : bytes -> bytes -> string -> nat -> option bytes)
    (aead_seal : bytes -> bytes -> bytes -> bytes -> bytes)
    (aead_open : bytes -> bytes -> bytes -> bytes -> option bytes)
    (aead_correct : forall k n p a, aead_open k n (aead_seal k n p a) a = Some p) :
  (forall master salt c s,
     NewSession hkdf_key master RoleClient salt = Ok c ->
     NewSession hkdf_key master RoleServer salt = Ok s -> link c s /\ link s c) /\
  (forall c s plaintext aad c' ctr ct,
     link c s -> sendCtr c < maxCounter ->
     Seal aead_seal c [] plaintext aad = (c', Ok (ctr, ct)) ->
     link c' s /\
     exists s', Open aead_open s [] ctr ct aad = (s', Ok plaintext) /\ link c' s').
Proof.
  split.
  - intros master salt c s Hc Hs.
    destruct (peers_share_keys _ _ _ _ _ Hc Hs) as [H1 H2].
    assert (forall r x, NewSession hkdf_key master r salt = Ok x ->
              highest (win x) = 0 /\ sendCtr x = 0) as Hz.
    { unfold NewSession, rbind, newAEAD. intros r x.
      destruct (deriveKey _ _ _ _); [|done]. destruct (deriveKey _ _ _ _); [|done].
      repeat case_match; try done; by intros [= <-]. }
    destruct (Hz _ _ Hc), (Hz _ _ Hs). split; constructor; done || lia.
  - intros c s p a c' ctr ct [Hk Hctr] Hmax. unfold Seal. simpl.
    assert (u64 (sendCtr c + 1) = sendCtr c + 1) as -> by
      (apply Z.mod_small; unfold maxCounter in *; lia).
    destruct (Z.ltb_spec maxCounter (sendCtr c + 1)); [done|].
    intros [= <- <- <-]. split; [constructor; simpl; [done|lia]|].
    unfold Open, window_check. simpl.
    destruct (Z.eqb_spec (sendCtr c + 1) 0); [lia|].
    destruct (Z.ltb_spec (highest (win s)) (sendCtr c + 1)) as [Hlt|]; [|lia].
    simpl. rewrite <- Hk, aead_correct. eexists; split; [done|].
    constructor; simpl; [done|]. unfold window_commit.
    destruct (Z.ltb_spec (highest (win s)) (sendCtr c + 1)); simpl; lia.
Qed.

(** ** Witnesses

    The parameters at a concrete instance: a "cipher" that appends a tag made
    of the key, the nonce and the header lengths, and the identity derivation. *)

Definition toy_seal (k n p a : bytes) : bytes := p ++ k ++ n ++ a.
Definition toy_open (k n c a : bytes) : option bytes :=
  let tag := k ++ n ++ a in
  if decide (drop (length c - length tag) c = tag)
  then Some (take (length c - length tag) c) else None.

Lemma toy_correct k n p a : toy_open k n (toy_seal k n p a) a = Some p.
Proof.
  unfold toy_open, toy_seal. rewrite length_app, Nat.add_sub.
  rewrite drop_app_length', take_app_length' by done.
  rewrite decide_True by done. done.
Qed.

Definition toy_session : Session := mkSession [1] [1] 0 (mkWindow 0 0) 0 0 0.
Definition toy_packet (ctr : Z) : Z * bytes * bytes :=
  (ctr, toy_seal [1] (nonceFor ctr) [42] [], []).

Lemma no_replay_witness :
  (open_all toy_open toy_session (toy_packet <$> [5; 5; 3; 4; 3; 90; 5; 90; 6])).2
    = [5; 3; 4; 90] /\
  NoDup (open_all toy_open toy_session (toy_packet <$> [5; 5; 3; 4; 3; 90; 5; 90; 6])).2.
Proof.
  split; [vm_compute; reflexivity|].
  apply (no_replay toy_open). repeat constructor; vm_compute; congruence.
Defined.

Lemma open_refines_set_witness :
  exists out, (Open toy_open toy_session [] 7 (toy_packet 7).1.2 []).2 = Ok out.
Proof.
  pose proof (open_refines_set toy_open toy_session ∅ [] (toy_packet 7).1.2 [] 7) as H.
  destruct (Open _ _ _ _ _ _) as [s' r]. apply H; [apply window_repr_empty|split; lia|].
  split_and!; [lia|set_solver|vm_compute; reflexivity|vm_compute; eauto].
Defined.

Lemma seal_nonces_unique_witness :
  NoDup (nonceFor <$> (seal_all toy_seal toy_session [([], []); ([], []); ([], [])]).2).
Proof. apply (seal_nonces_unique toy_seal). vm_compute. reflexivity. Defined.

Lemma peer_roundtrip_witness :
  exists s', Open toy_open toy_session [] 1 (toy_seal [1] (nonceFor 1) [8; 9] [3]) [3]
    = (s', Ok [8; 9]) /\ link (with_sendCtr toy_session 1) s'.
Proof.
  destruct (peer_roundtrip (fun _ _ _ _ => None) toy_seal toy_open toy_correct) as [_ H].
  refine (proj2 (H toy_session toy_session [8; 9] [3] _ 1 _ _ _ _)).
  - constructor; simpl; [reflexivity|lia].
  - vm_compute. reflexivity.
  - reflexivity.
Defined.
