(* ===== verification/UdpTransport.v ===== *)
(** * The UDP transport (pkg/net/udp_transport.go, limits.go, send_result.go)

    One session of the UDP server: outbound reliability (a 256-slot retransmit
    ring), inbound reliability (a 33-wide receive window that drives the ACKs),
    the two bounded inbound queues, and the periodic maintenance pass.  The
    source guards each group of fields by its own mutex ([sendMu], [recvMu],
    [inMu]); the groups are the sub-records below.  The AEAD and the socket are
    parameters: [net_write pkt] is the outcome of writing [pkt], and the packets
    actually handed to the socket accumulate in [wire]. *)

From S2P Require Import Prelude UdpProto UdpCrypto.

Definition reliableBufSize : Z := 256.
(** Durations are nanoseconds, as [time.Duration]. *)
Definition retransmitInterval : Z := 100 * 1000000.
Definition reliableTimeout : Z := 5 * 1000000000.
Definition keepaliveInterval : Z := 1 * 1000000000.
Definition connectionTimeout : Z := 10 * 1000000000.

Definition ChannelEvent : Z := 0x00.
Definition ChannelOperation : Z := 0x01.

(** ** Send results (send_result.go) *)

Inductive SendDisposition :=
| SendFailed
| SendQueued
| SendBackpressure
| SendClosed
| SendNoRoute
| SendIndeterminate.

Inductive DeliveryClass :=
| DeliveryBestEffort
| DeliveryOrdered
| DeliveryReliableOrdered.

Record SendResult := mkSendResult {
  Disposition : SendDisposition;
  Delivery : DeliveryClass
}.

#[export] Instance SendDisposition_eq_dec : EqDecision SendDisposition.
Proof. solve_decision. Defined.

Definition Queued (r : SendResult) : bool := bool_decide (Disposition r = SendQueued).

Definition delivery_rank (d : DeliveryClass) : Z :=
  match d with
  | DeliveryBestEffort => 0
  | DeliveryOrdered => 1
  | DeliveryReliableOrdered => 2
  end.

Definition Supports (r : SendResult) (required : DeliveryClass) : bool :=
  Queued r && (delivery_rank required <=? delivery_rank (Delivery r)).

Definition queuedSend (d : DeliveryClass) : SendResult := mkSendResult SendQueued d.
Definition sent (d : SendDisposition) : SendResult := mkSendResult d DeliveryBestEffort.

(** ** Ingress limits (limits.go) *)

Record WireLimits := mkLimits {
  MaxFrameBytes : Z;
  MaxInputQueueDepth : Z;
  MaxOpQueueDepth : Z;
  MaxFramesPerDrain : Z;
  MaxStringBytes : Z;
  MaxSliceElems : Z;
  MaxBytesFieldLen : Z;
  MaxDepth : Z;
  MaxTotalAllocBytes : Z;
  RejectByteFields : bool
}.

Definition DefaultWireLimits : WireLimits :=
  mkLimits 32768 256 64 64 8192 4096 (2 ^ 20) 16 (2 ^ 20) false.

Definition or_default (v d : Z) : Z := if v <=? 0 then d else v.

Definition Normalized (l : WireLimits) : WireLimits :=
  let d := DefaultWireLimits in
  mkLimits
    (or_default (MaxFrameBytes l) (MaxFrameBytes d))
    (or_default (MaxInputQueueDepth l) (MaxInputQueueDepth d))
    (or_default (MaxOpQueueDepth l) (MaxOpQueueDepth d))
    (or_default (MaxFramesPerDrain l) (MaxFramesPerDrain d))
    (or_default (MaxStringBytes l) (MaxStringBytes d))
    (or_default (MaxSliceElems l) (MaxSliceElems d))
    (or_default (MaxBytesFieldLen l) (MaxBytesFieldLen d))
    (or_default (MaxDepth l) (MaxDepth d))
    (or_default (MaxTotalAllocBytes l) (MaxTotalAllocBytes d))
    (RejectByteFields l).

(** [splitDrain] (conn.go): at most [budget] frames off the front. *)
Definition splitDrain {A} (queue : list A) (budget : Z) : list A * list A :=
  if (length queue =? 0)%nat then ([], queue)
  else if Z.of_nat (length queue) <=? budget then (queue, [])
  else (take (Z.to_nat budget) queue, drop (Z.to_nat budget) queue).

(** ** State *)

Record reliableEntry := mkEntry {
  re_seq : Z;
  re_payload : bytes;
  re_firstSentAt : Z;
  re_lastSentAt : Z;
  re_acked : bool;
  re_used : bool
}.

Definition zeroEntry : reliableEntry := mkEntry 0 [] 0 0 false false.

(** Outbound reliability, under [sendMu]. *)
Record SendHalf := mkSend { sendSeq : Z; sendBuf : list reliableEntry }.

(** Inbound reliability tracking, under [recvMu]. *)
Record RecvHalf := mkRecv { recvInit : bool; recvSeq : Z; recvBits : Z; ackDirty : bool }.

(** Inbound queues, under [inMu]. *)
Record Queues := mkQueues { inbound : list bytes; opInbound : list bytes }.

Record Drops := mkDrops {
  inboundDrops : Z;
  opInboundDrops : Z;
  oversizeDrops : Z;
  unknownChannelDrops : Z;
  authFailures : Z;
  replayDrops : Z
}.

(** [netip.AddrPort]: the 16-byte form of the address, whether it is an IPv4
    address (a v4 address and its 4-in-6 spelling are different values), the
    port. *)
Record AddrPort := mkAddr { ap_is4 : bool; ap_as16 : bytes; ap_port : Z }.

#[export] Instance AddrPort_eq_dec : EqDecision AddrPort.
Proof. solve_decision. Defined.

Record UDPTransport := mkTransport {
  addr : AddrPort;
  token : Z;
  clientSalt : Z;
  serverSalt : Z;
  crypto : Session;
  snd_half : SendHalf;
  rcv_half : RecvHalf;
  queues : Queues;
  limits : WireLimits;
  drops : Drops;
  lastRecvTick : Z;
  lastSendTick : Z;
  closed : bool;
  bytesSent : Z;
  bytesRecv : Z;
  wire : list bytes
}.

(** Field updates. *)
Definition set_crypto (t : UDPTransport) (v : Session) : UDPTransport :=
  mkTransport (addr t) (token t) (clientSalt t) (serverSalt t) v (snd_half t) (rcv_half t) (queues t) (limits t) (drops t)
    (lastRecvTick t) (lastSendTick t) (closed t) (bytesSent t) (bytesRecv t) (wire t).
Definition set_send (t : UDPTransport) (v : SendHalf) : UDPTransport :=
  mkTransport (addr t) (token t) (clientSalt t) (serverSalt t) (crypto t) v (rcv_half t) (queues t) (limits t) (drops t)
    (lastRecvTick t) (lastSendTick t) (closed t) (bytesSent t) (bytesRecv t) (wire t).
Definition set_recv (t : UDPTransport) (v : RecvHalf) : UDPTransport :=
  mkTransport (addr t) (token t) (clientSalt t) (serverSalt t) (crypto t) (snd_half t) v (queues t) (limits t) (drops t)
    (lastRecvTick t) (lastSendTick t) (closed t) (bytesSent t) (bytesRecv t) (wire t).
Definition set_queues (t : UDPTransport) (v : Queues) : UDPTransport :=
  mkTransport (addr t) (token t) (clientSalt t) (serverSalt t) (crypto t) (snd_half t) (rcv_half t) v (limits t) (drops t)
    (lastRecvTick t) (lastSendTick t) (closed t) (bytesSent t) (bytesRecv t) (wire t).
Definition set_drops (t : UDPTransport) (v : Drops) : UDPTransport :=
  mkTransport (addr t) (token t) (clientSalt t) (serverSalt t) (crypto t) (snd_half t) (rcv_half t) (queues t) (limits t) v
    (lastRecvTick t) (lastSendTick t) (closed t) (bytesSent t) (bytesRecv t) (wire t).
Definition set_closed (t : UDPTransport) : UDPTransport :=
  mkTransport (addr t) (token t) (clientSalt t) (serverSalt t) (crypto t) (snd_half t) (rcv_half t) (queues t) (limits t) (drops t)
    (lastRecvTick t) (lastSendTick t) true (bytesSent t) (bytesRecv t) (wire t).
(** A received, authenticated payload: liveness stamp and byte count. *)
Definition note_received (t : UDPTransport) (stamp len : Z) : UDPTransport :=
  mkTransport (addr t) (token t) (clientSalt t) (serverSalt t) (crypto t) (snd_half t) (rcv_half t) (queues t) (limits t) (drops t)
    (Z.max (lastRecvTick t) stamp) (lastSendTick t) (closed t) (bytesSent t)
    (u64 (bytesRecv t + len)) (wire t).
(** A datagram handed to the socket. *)
Definition note_sent (t : UDPTransport) (stamp : Z) (pkt : bytes) : UDPTransport :=
  mkTransport (addr t) (token t) (clientSalt t) (serverSalt t) (crypto t) (snd_half t) (rcv_half t) (queues t) (limits t) (drops t)
    (lastRecvTick t) stamp (closed t) (u64 (bytesSent t + Z.of_nat (length pkt)))
    (bytesRecv t) (wire t ++ [pkt]).
Definition push_wire (t : UDPTransport) (pkt : bytes) : UDPTransport :=
  mkTransport (addr t) (token t) (clientSalt t) (serverSalt t) (crypto t) (snd_half t) (rcv_half t) (queues t) (limits t) (drops t)
    (lastRecvTick t) (lastSendTick t) (closed t) (bytesSent t) (bytesRecv t) (wire t ++ [pkt]).

Inductive DropReason :=
| DropEvent
| DropOp
| DropOversize
| DropUnknownChannel
| DropAuth
| DropReplay.

(** [noteInboundDrop]: the counter; the metric and the throttled log line have
    no effect on the session. *)
Definition noteInboundDrop (t : UDPTransport) (r : DropReason) : UDPTransport :=
  let d := drops t in
  set_drops t
    match r with
    | DropEvent => mkDrops (u64 (inboundDrops d + 1)) (opInboundDrops d) (oversizeDrops d)
                     (unknownChannelDrops d) (authFailures d) (replayDrops d)
    | DropOp => mkDrops (inboundDrops d) (u64 (opInboundDrops d + 1)) (oversizeDrops d)
                  (unknownChannelDrops d) (authFailures d) (replayDrops d)
    | DropOversize => mkDrops (inboundDrops d) (opInboundDrops d) (u64 (oversizeDrops d + 1))
                        (unknownChannelDrops d) (authFailures d) (replayDrops d)
    | DropUnknownChannel => mkDrops (inboundDrops d) (opInboundDrops d) (oversizeDrops d)
                              (u64 (unknownChannelDrops d + 1)) (authFailures d) (replayDrops d)
    | DropAuth => mkDrops (inboundDrops d) (opInboundDrops d) (oversizeDrops d)
                    (unknownChannelDrops d) (u64 (authFailures d + 1)) (replayDrops d)
    | DropReplay => mkDrops (inboundDrops d) (opInboundDrops d) (oversizeDrops d)
                      (unknownChannelDrops d) (authFailures d) (u64 (replayDrops d + 1))
    end.

(** ** Queues *)

Definition lim (t : UDPTransport) : WireLimits :=
  if MaxFrameBytes (limits t) <=? 0 then DefaultWireLimits else limits t.

Definition appendInbound (t : UDPTransport) (body : bytes) (l : WireLimits) : UDPTransport :=
  if MaxInputQueueDepth l <=? Z.of_nat (length (inbound (queues t)))
  then noteInboundDrop t DropEvent
  else set_queues t (mkQueues (inbound (queues t) ++ [body]) (opInbound (queues t))).

Definition appendOp (t : UDPTransport) (body : bytes) (l : WireLimits) : UDPTransport :=
  if MaxOpQueueDepth l <=? Z.of_nat (length (opInbound (queues t)))
  then noteInboundDrop t DropOp
  else set_queues t (mkQueues (inbound (queues t)) (opInbound (queues t) ++ [body])).

(** Called on non-empty payloads only; the empty case is unreachable. *)
Definition routePayload (t : UDPTransport) (payload : bytes) : UDPTransport :=
  let l := lim t in
  if MaxFrameBytes l <? Z.of_nat (length payload) then noteInboundDrop t DropOversize
  else
    match payload with
    | [] => t
    | ch :: body =>
        if ch =? ChannelEvent then appendInbound t body l
        else if ch =? ChannelOperation then appendOp t body l
        else noteInboundDrop t DropUnknownChannel
    end.

Definition InjectInput (t : UDPTransport) (data : bytes) : UDPTransport :=
  appendInbound t data (lim t).

Definition DrainInput (t : UDPTransport) : UDPTransport * list bytes :=
  let '(msgs, rest) := splitDrain (inbound (queues t)) (MaxFramesPerDrain (lim t)) in
  match msgs with
  | [] => (t, [])
  | _ => (set_queues t (mkQueues rest (opInbound (queues t))), msgs)
  end.

Definition DrainOpInput (t : UDPTransport) : UDPTransport * list bytes :=
  let '(msgs, rest) := splitDrain (opInbound (queues t)) (MaxFramesPerDrain (lim t)) in
  match msgs with
  | [] => (t, [])
  | _ => (set_queues t (mkQueues (inbound (queues t)) rest), msgs)
  end.

(** ** The reliability windows *)

(** The receive-tracking block of [handleReliable]: the new window and whether
    the payload is delivered. *)
Definition trackReliable (r : RecvHalf) (seq : Z) : RecvHalf * bool :=
  if negb (recvInit r) then (mkRecv true seq 0 true, true)
  else if SeqGreaterThan seq (recvSeq r) then
    let diff := u16 (seq - recvSeq r) in
    let bits := if diff <=? 32
                then Z.lor (u32 (Z.shiftl (recvBits r) diff)) (u32 (Z.shiftl 1 (diff - 1)))
                else 0 in
    (mkRecv true seq bits true, true)
  else
    let diff := u16 (recvSeq r - seq) in
    if (0 <? diff) && (diff <=? 32) then
      let bit := u32 (Z.shiftl 1 (diff - 1)) in
      if Z.land (recvBits r) bit =? 0
      then (mkRecv (recvInit r) (recvSeq r) (Z.lor (recvBits r) bit) true, true)
      else (mkRecv (recvInit r) (recvSeq r) (recvBits r) true, false)
    else (mkRecv (recvInit r) (recvSeq r) (recvBits r) true, false).

Definition takePendingACK (r : RecvHalf) : RecvHalf * option (Z * Z) :=
  if negb (ackDirty r) then (r, None)
  else (mkRecv (recvInit r) (recvSeq r) (recvBits r) false, Some (recvSeq r, recvBits r)).

Definition slot_of (seq : Z) : nat := Z.to_nat (seq mod reliableBufSize).

Definition entry_at (buf : list reliableEntry) (i : nat) : reliableEntry :=
  default zeroEntry (buf !! i).

Definition markAcked (s : SendHalf) (seq : Z) : SendHalf :=
  let idx := slot_of seq in
  let entry := entry_at (sendBuf s) idx in
  if re_used entry && (re_seq entry =? seq)
  then mkSend (sendSeq s) (<[idx := zeroEntry]> (sendBuf s))
  else s.

(** The loop of [handleACK] over the 32 bits, after the highest sequence. *)
Definition ackBit (ackSeq ackBits : Z) (s : SendHalf) (i : Z) : SendHalf :=
  if Z.land ackBits (u32 (Z.shiftl 1 i)) =? 0 then s
  else markAcked s (u16 (ackSeq - u16 i - 1)).

Definition markAckedAll (s : SendHalf) (ackSeq ackBits : Z) : SendHalf :=
  foldl (ackBit ackSeq ackBits) (markAcked s ackSeq) (seqZ 0 32).

(** ** The session, over a cipher and a socket *)

Inductive WriteOutcome := WriteOK | WriteError | WriteShort.

Section Transport.
Context (aead_seal : bytes -> bytes -> bytes -> bytes -> bytes).
Context (aead_open : bytes -> bytes -> bytes -> bytes -> option bytes).
(** The socket: the outcome of [WriteToUDPAddrPort] for a datagram.  Every
    datagram carries a fresh counter, so a function of the datagram is as
    general as an outcome per call. *)
Context (net_write : bytes -> WriteOutcome).

(** [newUDPTransport]; starting the ticker goroutine is the caller's [now]. *)
Definition newUDPTransport (ap : AddrPort) (tok cs ss : Z) (l : WireLimits) (sess : Session)
    (now : Z) : UDPTransport :=
  mkTransport ap tok cs ss sess
    (mkSend 0 (replicate (Z.to_nat reliableBufSize) zeroEntry))
    (mkRecv false 0 0 false) (mkQueues [] []) (Normalized l)
    (mkDrops 0 0 0 0 0 0) now now false 0 0 [].

Definition sendRaw (t : UDPTransport) (now : Z) (data : bytes) : UDPTransport * SendResult :=
  if closed t then (t, sent SendClosed)
  else
    match net_write data with
    | WriteError => (t, sent SendFailed)
    | WriteShort => (t, sent SendFailed)
    | WriteOK => (note_sent t now data, queuedSend DeliveryBestEffort)
    end.

Definition sealSend (t : UDPTransport) (now : Z) (body : bytes) (buildHeader : Z -> bytes)
  : UDPTransport * SendResult :=
  let '(c, r) := SealWithHeader aead_seal (crypto t) body buildHeader in
  let t := set_crypto t c in
  match r with
  | Err _ => (t, sent SendFailed)
  | Ok (hdr, sealed) => sendRaw t now (hdr ++ sealed)
  end.

Definition openInbound (t : UDPTransport) (counter : Z) (aad sealed : bytes)
  : UDPTransport * option bytes :=
  let '(c, r) := Open aead_open (crypto t) [] counter sealed aad in
  let t := set_crypto t c in
  match r with
  | Ok body => (t, Some body)
  | Err ErrReplay | Err ErrZeroCounter => (noteInboundDrop t DropReplay, None)
  | Err _ => (noteInboundDrop t DropAuth, None)
  end.

Definition SendReliable (t : UDPTransport) (now : Z) (data : bytes)
  : UDPTransport * SendResult :=
  if closed t then (t, sent SendClosed)
  else
    let s := snd_half t in
    let seq := sendSeq s in
    let idx := slot_of seq in
    let entry := entry_at (sendBuf s) idx in
    if re_used entry && negb (re_acked entry) then (t, sent SendBackpressure)
    else
      let t := set_send t (mkSend (u16 (seq + 1))
                 (<[idx := mkEntry seq data now now false true]> (sendBuf s))) in
      let '(t, result) := sealSend t now data (EncodeReliableHeader (token t) seq) in
      if Queued result then (t, result)
      else (set_send t (mkSend (sendSeq (snd_half t))
                          (<[idx := zeroEntry]> (sendBuf (snd_half t)))), result).

Definition SendUnreliable (t : UDPTransport) (now : Z) (data : bytes)
  : UDPTransport * SendResult :=
  sealSend t now data (EncodeUnreliableHeader (token t)).

Definition handleUnreliable (t : UDPTransport) (now counter : Z) (aad sealed : bytes)
  : UDPTransport :=
  match openInbound t counter aad sealed with
  | (t, None) => t
  | (t, Some payload) =>
      let t := note_received t now (Z.of_nat (length payload)) in
      if (length payload =? 0)%nat then t else routePayload t payload
  end.

Definition handleReliable (t : UDPTransport) (now seq counter : Z) (aad sealed : bytes)
  : UDPTransport :=
  match openInbound t counter aad sealed with
  | (t, None) => t
  | (t, Some payload) =>
      let t := note_received t now (Z.of_nat (length payload)) in
      let '(r, deliver) := trackReliable (rcv_half t) seq in
      let t := set_recv t r in
      if deliver && (0 <? length payload)%nat then routePayload t payload else t
  end.

(** The ACK path stamps liveness but does not count the bytes. *)
Definition handleACK (t : UDPTransport) (now counter : Z) (aad sealed : bytes)
  : UDPTransport :=
  match openInbound t counter aad sealed with
  | (t, None) => t
  | (t, Some body) =>
      match DecodeACKBody body with
      | Err _ => t
      | Ok (ackSeq, ackBits) =>
          let t := note_received t now 0 in
          set_send t (markAckedAll (snd_half t) ackSeq ackBits)
      end
  end.

Definition sendACK (t : UDPTransport) (now : Z) : UDPTransport :=
  match takePendingACK (rcv_half t) with
  | (_, None) => t
  | (r, Some (ackSeq, ackBits)) =>
      let t := set_recv t r in
      let '(t, result) := sealSend t now (EncodeACKBody ackSeq ackBits)
                            (EncodeACKHeader (token t)) in
      if negb (Queued result) && negb (bool_decide (Disposition result = SendClosed))
      then let r := rcv_half t in
           set_recv t (mkRecv (recvInit r) (recvSeq r) (recvBits r) true)
      else t
  end.

(** [Close], without the server's map cleanup, which is [forgetTransport] of
    the server.  The disconnect is written directly: [sendRaw] refuses once
    [closed] is set. *)
Definition Close (t : UDPTransport) : UDPTransport :=
  if closed t then t
  else
    let t := set_closed t in
    let t := set_send t (mkSend (sendSeq (snd_half t))
                           (replicate (length (sendBuf (snd_half t))) zeroEntry)) in
    let '(c, r) := SealWithHeader aead_seal (crypto t) [] (EncodeDisconnectHeader (token t)) in
    let t := set_crypto t c in
    match r with
    | Err _ => t
    | Ok (hdr, sealed) =>
        match net_write (hdr ++ sealed) with
        | WriteOK => push_wire t (hdr ++ sealed)
        | _ => t
        end
    end.

(** The retransmission loop of [maintenanceTick], slot by slot; [None] is the
    early exit on a message older than [reliableTimeout]. *)
Definition retransmitSlot (t : UDPTransport) (now : Z) (i : nat) : option UDPTransport :=
  let entry := entry_at (sendBuf (snd_half t)) i in
  if negb (re_used entry) || re_acked entry then Some t
  else if reliableTimeout <? now - re_firstSentAt entry then None
  else if retransmitInterval <=? now - re_lastSentAt entry then
    let '(t, _) := sealSend t now (re_payload entry)
                     (EncodeReliableHeader (token t) (re_seq entry)) in
    Some (set_send t (mkSend (sendSeq (snd_half t))
            (<[i := mkEntry (re_seq entry) (re_payload entry) (re_firstSentAt entry)
                      now (re_acked entry) (re_used entry)]> (sendBuf (snd_half t)))))
  else Some t.

Fixpoint retransmitAll (t : UDPTransport) (now : Z) (slots : list nat) : UDPTransport * bool :=
  match slots with
  | [] => (t, true)
  | i :: slots =>
      match retransmitSlot t now i with
      | None => (t, false)
      | Some t => retransmitAll t now slots
      end
  end.

(** [maintenanceTick]; the boolean is its result, [false] meaning that the
    session was removed, which closes it. *)
Definition maintenanceTick (t : UDPTransport) (now : Z) : UDPTransport * bool :=
  if connectionTimeout <? now - lastRecvTick t then (Close t, false)
  else
    let '(t, alive) := retransmitAll t now (seq 0 (Z.to_nat reliableBufSize)) in
    if negb alive then (Close t, false)
    else
      let t := sendACK t now in
      let t := if keepaliveInterval <? now - lastSendTick t
               then fst (sealSend t now [] (EncodeUnreliableHeader (token t)))
               else t in
      (t, true).
End Transport.

(** * Properties *)

(** ** The receive window

    Reliable messages are numbered [0, 1, 2, ...] by the sender; the wire
    carries [u16 n].  [recv_repr r hi S]: the window has received exactly the
    messages [S] among the 33 newest, [hi] being the highest. *)
Record recv_repr (r : RecvHalf) (hi : Z) (S : gset Z) : Prop := {
  rr_init : recvInit r = true;
  rr_seq : recvSeq r = u16 hi;
  rr_top : hi ∈ S;
  rr_below : forall n, n ∈ S -> n <= hi;
  rr_bits : forall d, 0 <= d < 32 -> (Z.testbit (recvBits r) d = true <-> hi - 1 - d ∈ S)
}.

Lemma testbit_one_shl32 d n : 0 <= d < 32 ->
  Z.testbit (u32 (Z.shiftl 1 d)) n = (n =? d).
Proof.
  intros. unfold u32. rewrite Z.shiftl_1_l, Z.mod_small.
  2:{ split; [apply Z.pow_nonneg; lia | apply Z.pow_lt_mono_r; lia]. }
  rewrite Z.pow2_bits_eqb by lia. apply Z.eqb_sym.
Qed.

Lemma testbit_shl32 b s n : 0 <= n < 32 -> 0 <= s ->
  Z.testbit (u32 (Z.shiftl b s)) n = (s <=? n) && Z.testbit b (n - s).
Proof.
  intros. unfold u32. rewrite Z.mod_pow2_bits_low by lia.
  rewrite Z.shiftl_spec by lia.
  destruct (Z.leb_spec s n); [done|]. by rewrite Z.testbit_neg_r by lia.
Qed.

Lemma land_bit32_zero b d : 0 <= d < 32 ->
  (Z.land b (u32 (Z.shiftl 1 d)) =? 0) = negb (Z.testbit b d).
Proof.
  intros Hd. rewrite <- (land_bit_zero b d) by lia. do 3 f_equal.
  unfold u32, u64. rewrite !Z.mod_small; [done|..];
    rewrite Z.shiftl_1_l; (split; [apply Z.pow_nonneg; lia | apply Z.pow_lt_mono_r; lia]).
Qed.

Lemma u16_diff a b : 0 <= a - b < 65536 -> u16 (u16 a - u16 b) = a - b.
Proof. intros. unfold_int. Z.div_mod_to_equations; lia. Qed.

Lemma seq_gt_true n hi : Z.abs (n - hi) < 32768 -> hi < n ->
  SeqGreaterThan (u16 n) (u16 hi) = true.
Proof. intros. unfold SeqGreaterThan. unfold_int. Z.div_mod_to_equations; lia. Qed.

Lemma seq_gt_false n hi : Z.abs (n - hi) < 32768 -> n <= hi ->
  SeqGreaterThan (u16 n) (u16 hi) = false.
Proof. intros. unfold SeqGreaterThan. unfold_int. Z.div_mod_to_equations; lia. Qed.

Lemma track_newer r hi S n : recv_repr r hi S -> hi < n < hi + 32768 ->
  (trackReliable r (u16 n)).2 = true /\
  recv_repr (trackReliable r (u16 n)).1 n ({[n]} ∪ S).
Proof.
  intros [Hi Hs Ht Hb Hbits] Hn. unfold trackReliable.
  rewrite Hi, Hs, seq_gt_true, u16_diff by lia. simpl. split; [done|].
  constructor; simpl; [done|done|set_solver|..].
  { intros x [->%elem_of_singleton|Hx]%elem_of_union; [lia|]. apply Hb in Hx. lia. }
  intros d Hd. rewrite elem_of_union, elem_of_singleton.
  destruct (Z.leb_spec (n - hi) 32).
  - rewrite Z.lor_spec, orb_true_iff, testbit_one_shl32, Z.eqb_eq by lia.
    rewrite testbit_shl32, andb_true_iff, Z.leb_le by lia.
    split.
    + intros [[Hle Hx]|Hd']; right.
      * apply Hbits in Hx; [|lia].
        by replace (n - 1 - d) with (hi - 1 - (d - (n - hi))) by lia.
      * by replace (n - 1 - d) with hi by lia.
    + intros [|Hx]; [lia|]. pose proof (Hb _ Hx) as Hle.
      destruct (Z.eq_dec d (n - hi - 1)); [by right|left].
      split; [lia|]. apply Hbits; [lia|].
      by replace (hi - 1 - (d - (n - hi))) with (n - 1 - d) by lia.
  - rewrite Z.bits_0. split; [done|]. intros [|Hx]; [lia|]. apply Hb in Hx. lia.
Qed.

Lemma track_older r hi S n : recv_repr r hi S -> hi - 32768 < n <= hi ->
  let deliver := bool_decide (n ∉ S /\ hi - n <= 32) in
  (trackReliable r (u16 n)).2 = deliver /\
  recv_repr (trackReliable r (u16 n)).1 hi (if deliver then {[n]} ∪ S else S).
Proof.
  intros HR Hn. pose proof HR as [Hi Hs Ht Hb Hbits]. unfold trackReliable.
  rewrite Hi, Hs, seq_gt_false, u16_diff by lia. simpl.
  destruct (Z.ltb_spec 0 (hi - n)); [destruct (Z.leb_spec (hi - n) 32)|]; simpl.
  - specialize (Hbits (hi - n - 1)) as Hbit.
    replace (hi - 1 - (hi - n - 1)) with n in Hbit by lia.
    rewrite land_bit32_zero by lia. destruct (Z.testbit _ _) eqn:E; simpl.
    + rewrite bool_decide_eq_false_2 by (intros [Hx _]; apply Hx, Hbit; [lia|done]).
      split; [done|]. by constructor.
    + assert (n ∉ S) by (intros Hx; apply Hbit in Hx; [congruence|lia]).
      rewrite bool_decide_eq_true_2 by done. split; [done|].
      constructor; simpl; [done|done|set_solver|..].
      * intros x [->%elem_of_singleton|Hx]%elem_of_union; [lia|by apply Hb].
      * intros d Hd. rewrite Z.lor_spec, orb_true_iff, testbit_one_shl32, Z.eqb_eq by lia.
        rewrite Hbits, elem_of_union, elem_of_singleton by lia.
        split; [intros [|]; [by right|left; lia] | intros [|]; [right; lia|by left]].
  - rewrite bool_decide_eq_false_2 by lia. split; [done|]. by constructor.
  - assert (n = hi) as -> by lia.
    rewrite bool_decide_eq_false_2 by (intros [Hx _]; done).
    split; [done|]. by constructor.
Qed.

(** Reliable messages are delivered at most once, and at once when they can
    be.  Whatever order the sequence numbers arrive in, as long as a message is
    less than 2^15 away from the highest one seen, the receive window delivers it
    exactly when it has not been delivered before and is at most 32 behind the
    highest, and the 16-bit sequence and the bitmap keep representing the set of
    delivered messages. *)
Theorem reliable_exactly_once (r : RecvHalf) (hi : Z) (S : gset Z) (n : Z) :
  recv_repr r hi S -> Z.abs (n - hi) < 32768 ->
  let deliver := bool_decide (n ∉ S /\ hi - n <= 32) in
  (trackReliable r (u16 n)).2 = deliver /\
  recv_repr (trackReliable r (u16 n)).1 (Z.max hi n) (if deliver then {[n]} ∪ S else S).
Proof.
  intros HR Hn. destruct (Z.le_gt_cases n hi).
  - rewrite Z.max_l by lia. by apply track_older; [|lia].
  - rewrite Z.max_r by lia. destruct (track_newer r hi S n) as [Hd Hr]; [done|lia|].
    destruct HR as [_ _ _ Hb _].
    rewrite bool_decide_eq_true_2 by (split; [intros Hx%Hb; lia|lia]). done.
Qed.

Lemma first_reliable r n : recvInit r = false ->
  (trackReliable r (u16 n)).2 = true /\ recv_repr (trackReliable r (u16 n)).1 n {[n]}.
Proof.
  intros Hi. unfold trackReliable. rewrite Hi. simpl. split; [done|].
  constructor; simpl; [done|done|set_solver|set_solver by lia|].
  intros d Hd. rewrite Z.bits_0, elem_of_singleton. split; [done|lia].
Qed.

(** A message that more than 32 later ones have overtaken is discarded when it
    finally arrives, and no ACK generated from then on names it, although the
    sender's ring keeps up to 256 messages outstanding. *)
Lemma late_reliable_lost r hi S n : recv_repr r hi S -> n ∉ S -> 32 < hi - n < 32768 ->
  (trackReliable r (u16 n)).2 = false /\ recv_repr (trackReliable r (u16 n)).1 hi S.
Proof.
  intros HR HnS Hn. pose proof (track_older r hi S n HR) as H.
  rewrite bool_decide_eq_false_2 in H by lia. apply H. lia.
Qed.

(** ** Acknowledgements *)

(** The messages an ACK with highest [hi] and bitmap [bits] names. *)
Definition acked_index (hi bits n : Z) : Prop :=
  n = hi \/ exists i, 0 <= i < 32 /\ Z.testbit bits i = true /\ n = hi - 1 - i.

Lemma ack_names_received r hi S r' ackSeq ackBits n :
  recv_repr r hi S -> takePendingACK r = (r', Some (ackSeq, ackBits)) ->
  ackSeq = u16 hi /\ (acked_index hi ackBits n -> n ∈ S) /\
  (n ∈ S -> hi - n <= 32 -> acked_index hi ackBits n).
Proof.
  intros [Hi Hs Ht Hb Hbits]. unfold takePendingACK. destruct (ackDirty r); [|done].
  simpl. intros [= _ <- <-]. split_and!; [done|..].
  - intros [->|(i & Hi' & Hbit & ->)]; [done|]. by apply Hbits.
  - intros Hn Hle. pose proof (Hb _ Hn).
    destruct (Z.eq_dec n hi) as [->|]; [by left|right].
    exists (hi - n - 1). split_and!; [lia|lia|apply Hbits; [lia|]|lia].
    by replace (hi - 1 - (hi - n - 1)) with n by lia.
Qed.

Lemma markAcked_entry s seq i :
  entry_at (sendBuf (markAcked s seq)) i = entry_at (sendBuf s) i \/
  (re_used (entry_at (sendBuf s) i) = true /\ re_seq (entry_at (sendBuf s) i) = seq).
Proof.
  unfold markAcked. destruct (re_used _ && _) eqn:E; [|by left]. simpl.
  apply andb_true_iff in E as [Hu Hq]. apply Z.eqb_eq in Hq.
  destruct (decide (i = slot_of seq)) as [->|]; [by right|left].
  unfold entry_at. by rewrite list_lookup_insert_ne.
Qed.

Lemma seqZ_bits k : Forall (fun j => 0 <= j < k) (seqZ 0 k).
Proof. apply Forall_forall. intros j. rewrite elem_of_seqZ. lia. Qed.

Lemma ackBit_fold_entry ackSeq bits i l : forall s,
  Forall (fun j => 0 <= j < 32) l ->
  entry_at (sendBuf (foldl (ackBit ackSeq bits) s l)) i = entry_at (sendBuf s) i \/
  (re_used (entry_at (sendBuf s) i) = true /\
   exists j, 0 <= j < 32 /\ Z.testbit bits j = true /\
     re_seq (entry_at (sendBuf s) i) = u16 (ackSeq - u16 j - 1)).
Proof.
  induction l as [|j l IH]; intros s Hl; simpl; [by left|].
  apply Forall_cons in Hl as [Hj Hl]. specialize (IH (ackBit ackSeq bits s j) Hl).
  unfold ackBit in IH at 2 3 4 5. unfold ackBit at 2.
  rewrite land_bit32_zero in * by done.
  destruct (Z.testbit bits j) eqn:Hbit; simpl in *; [|done].
  destruct (markAcked_entry s (u16 (ackSeq - u16 j - 1)) i) as [He|[Hu Hq]].
  - by rewrite He in IH.
  - right. eauto.
Qed.

Lemma markAckedAll_entry s ackSeq bits i :
  entry_at (sendBuf (markAckedAll s ackSeq bits)) i = entry_at (sendBuf s) i \/
  (re_used (entry_at (sendBuf s) i) = true /\
   (re_seq (entry_at (sendBuf s) i) = ackSeq \/
    exists j, 0 <= j < 32 /\ Z.testbit bits j = true /\
     re_seq (entry_at (sendBuf s) i) = u16 (ackSeq - u16 j - 1))).
Proof.
  unfold markAckedAll. generalize (seqZ 0 32) (seqZ_bits 32). intros l Hl.
  destruct (markAcked_entry s ackSeq i) as [He|[Hu Hq]]; [|right; eauto].
  destruct (ackBit_fold_entry ackSeq bits i l (markAcked s ackSeq) Hl) as [Hf|[Hu Hq]].
  - left. congruence.
  - rewrite He in *. right. eauto.
Qed.

Lemma u16_near n hi : Z.abs (n - hi) < 32768 ->
  forall m, u16 n = u16 m -> hi - 33 <= m <= hi -> n = m.
Proof. intros. unfold_int. Z.div_mod_to_equations; lia. Qed.

Lemma u16_ack_index hi j : 0 <= j < 32 -> u16 (u16 hi - u16 j - 1) = u16 (hi - 1 - j).
Proof. intros. unfold_int. Z.div_mod_to_equations; lia. Qed.

(** An acknowledgement never retires a message the peer did not receive.
    When the ACK the receiver would send now is applied to the sender's ring, a
    slot changes only if it held a message of which the receiver has a copy,
    provided the outstanding messages are the last 2^15 ones ([n] numbers the
    message in the slot). *)
Theorem ack_retires_only_received (r r' : RecvHalf) (hi : Z) (S : gset Z)
    (s : SendHalf) (ackSeq ackBits : Z) (i : nat) (n : Z) :
  recv_repr r hi S -> takePendingACK r = (r', Some (ackSeq, ackBits)) ->
  re_seq (entry_at (sendBuf s) i) = u16 n -> Z.abs (n - hi) < 32768 ->
  entry_at (sendBuf (markAckedAll s ackSeq ackBits)) i <> entry_at (sendBuf s) i ->
  re_used (entry_at (sendBuf s) i) = true /\ n ∈ S.
Proof.
  intros HR Htake Hseq Hn Hchg.
  destruct (ack_names_received r hi S r' ackSeq ackBits n HR Htake) as (-> & Hin & _).
  pose proof (u16_near n hi Hn) as Hinj.
  destruct (markAckedAll_entry s (u16 hi) ackBits i) as [|[Hu [Hq|(j & Hj & Hbit & Hq)]]];
    [done|..]; (split; [done|]; apply Hin).
  - left. apply Hinj; [congruence|lia].
  - right. exists j. split_and!; [lia|lia|done|]. apply Hinj; [|lia].
    rewrite <- Hseq, Hq. by apply u16_ack_index.
Qed.

(** ** The invariant of a session *)

(** Slot [i] of the ring, when in use, holds a 16-bit sequence of that slot. *)
Definition slot_ok (i : nat) (e : reliableEntry) : Prop :=
  re_used e = true -> slot_of (re_seq e) = i /\ in_u16 (re_seq e).

Record transport_ok (t : UDPTransport) : Prop := {
  tk_limits : 0 < MaxFrameBytes (limits t) /\ 0 < MaxInputQueueDepth (limits t) /\
              0 < MaxOpQueueDepth (limits t) /\ 0 < MaxFramesPerDrain (limits t);
  tk_in : Z.of_nat (length (inbound (queues t))) <= MaxInputQueueDepth (limits t);
  tk_op : Z.of_nat (length (opInbound (queues t))) <= MaxOpQueueDepth (limits t);
  tk_seq : in_u16 (sendSeq (snd_half t));
  tk_len : length (sendBuf (snd_half t)) = 256%nat;
  tk_slots : forall i, (i < 256)%nat -> slot_ok i (entry_at (sendBuf (snd_half t)) i)
}.

(** Two states that agree on what the invariant reads. *)
Record same_core (t t' : UDPTransport) : Prop := {
  sc_limits : limits t' = limits t;
  sc_queues : queues t' = queues t;
  sc_send : snd_half t' = snd_half t;
  sc_token : token t' = token t
}.

#[export] Instance same_core_refl : Reflexive same_core.
Proof. by constructor. Qed.
#[export] Instance same_core_trans : Transitive same_core.
Proof. intros a b c [] []. constructor; congruence. Qed.

Lemma transport_ok_core t t' : same_core t t' -> transport_ok t -> transport_ok t'.
Proof. intros [H1 H2 H3 _] []. constructor; rewrite ?H1, ?H2, ?H3; done. Qed.

Lemma slot_of_lt seq : (slot_of seq < 256)%nat.
Proof.
  unfold slot_of, reliableBufSize.
  pose proof (Z.mod_pos_bound seq 256 ltac:(lia)). lia.
Qed.

Lemma entry_at_insert buf i j e : length buf = 256%nat -> (i < 256)%nat ->
  entry_at (<[i := e]> buf) j = if decide (i = j) then e else entry_at buf j.
Proof.
  intros Hl Hi. unfold entry_at. case_decide as Hd.
  - subst. rewrite list_lookup_insert_eq by lia. done.
  - by rewrite list_lookup_insert_ne.
Qed.

(** Writing a well-placed (or empty) entry keeps the invariant. *)
Lemma transport_ok_write t i e q : transport_ok t -> (i < 256)%nat -> in_u16 q -> slot_ok i e ->
  transport_ok (set_send t (mkSend q (<[i := e]> (sendBuf (snd_half t))))).
Proof.
  intros [] Hi Hq He. constructor; simpl; rewrite ?length_insert; try done.
  intros j Hj. rewrite entry_at_insert by done. case_decide; [by subst|auto].
Qed.

Lemma zeroEntry_ok i : slot_ok i zeroEntry.
Proof. done. Qed.

Lemma markAcked_ok t seq : transport_ok t -> transport_ok (set_send t (markAcked (snd_half t) seq)).
Proof.
  intros Hok. unfold markAcked. destruct (_ && _).
  - apply transport_ok_write; [done|apply slot_of_lt|by apply tk_seq|apply zeroEntry_ok].
  - by apply (transport_ok_core t).
Qed.

Lemma markAckedAll_ok t a b : transport_ok t ->
  transport_ok (set_send t (markAckedAll (snd_half t) a b)).
Proof.
  intros Hok. unfold markAckedAll. generalize (seqZ 0 32). intros l.
  assert (forall s, transport_ok (set_send t s) ->
            transport_ok (set_send t (foldl (ackBit a b) s l))) as H.
  { induction l as [|j l IH]; intros s Hs; simpl; [done|]. apply IH.
    unfold ackBit. case_match; [done|]. by apply (markAcked_ok (set_send t s)). }
  by apply H, markAcked_ok.
Qed.

Lemma appendInbound_ok t body : transport_ok t ->
  transport_ok (appendInbound t body (limits t)).
Proof.
  intros Hok. unfold appendInbound. destruct (Z.leb_spec (MaxInputQueueDepth (limits t))
    (Z.of_nat (length (inbound (queues t))))).
  - by apply (transport_ok_core t).
  - destruct Hok. constructor; simpl; try done. rewrite length_app. simpl. lia.
Qed.

Lemma appendOp_ok t body : transport_ok t -> transport_ok (appendOp t body (limits t)).
Proof.
  intros Hok. unfold appendOp. destruct (Z.leb_spec (MaxOpQueueDepth (limits t))
    (Z.of_nat (length (opInbound (queues t))))).
  - by apply (transport_ok_core t).
  - destruct Hok. constructor; simpl; try done. rewrite length_app. simpl. lia.
Qed.

Lemma lim_ok t : transport_ok t -> lim t = limits t.
Proof. intros []. unfold lim. destruct (Z.leb_spec (MaxFrameBytes (limits t)) 0); lia || done. Qed.

Lemma routePayload_ok t p : transport_ok t -> transport_ok (routePayload t p).
Proof.
  intros Hok. unfold routePayload. rewrite lim_ok by done.
  repeat case_match; try done;
    first [by apply appendInbound_ok | by apply appendOp_ok | by apply (transport_ok_core t)].
Qed.

Section TransportFacts.
Context (aead_seal : bytes -> bytes -> bytes -> bytes -> bytes).
Context (aead_open : bytes -> bytes -> bytes -> bytes -> option bytes).
Context (net_write : bytes -> WriteOutcome).

Lemma sealSend_core t now body h : same_core t (sealSend aead_seal net_write t now body h).1.
Proof. unfold sealSend, SealWithHeader, sendRaw. repeat (case_match; simplify_eq/=); done. Qed.

Lemma openInbound_core t ctr aad sealed : same_core t (openInbound aead_open t ctr aad sealed).1.
Proof. unfold openInbound. repeat (case_match; simplify_eq/=); done. Qed.

Lemma SendReliable_ok t now data : transport_ok t ->
  transport_ok (SendReliable aead_seal net_write t now data).1.
Proof.
  intros Hok. unfold SendReliable. case_match; [done|]. case_match; [done|].
  set (t1 := set_send t _).
  assert (transport_ok t1) as H1.
  { apply transport_ok_write; [done|apply slot_of_lt|apply u16_range|].
    intros _. split; [done|]. by apply tk_seq. }
  pose proof (sealSend_core t1 now data (EncodeReliableHeader (token t1) (sendSeq (snd_half t)))) as Hc.
  destruct (sealSend _ _ _ _ _ _) as [t2 res]. simpl in Hc.
  pose proof (transport_ok_core _ _ Hc H1). case_match; [done|]. simpl.
  apply transport_ok_write; [done|apply slot_of_lt|by apply tk_seq|apply zeroEntry_ok].
Qed.

Lemma Close_ok t : transport_ok t -> transport_ok (Close aead_seal net_write t).
Proof.
  intros Hok. unfold Close. case_match; [done|].
  set (t1 := set_send (set_closed t) _).
  assert (transport_ok t1) as H1.
  { destruct Hok. constructor; simpl; try done.
    - by rewrite length_replicate.
    - intros i Hi. unfold entry_at. rewrite lookup_replicate_2 by lia. done. }
  destruct (SealWithHeader _ _ _ _) as [c r]. simpl.
  repeat case_match; by apply (transport_ok_core t1).
Qed.

Lemma retransmitAll_ok now l : forall t, transport_ok t -> (forall i, i ∈ l -> (i < 256)%nat) ->
  transport_ok (retransmitAll aead_seal net_write t now l).1.
Proof.
  induction l as [|i l IH]; intros t Hok Hl; simpl; [done|].
  destruct (retransmitSlot _ _ t now i) as [t'|] eqn:E; [|done].
  apply IH; [|intros j Hj; apply Hl; by right].
  unfold retransmitSlot in E. repeat case_match; simplify_eq; try done.
  assert (same_core t u) as Hc.
  { etrans; [apply (sealSend_core t now (re_payload (entry_at (sendBuf (snd_half t)) i))
      (EncodeReliableHeader (token t) (re_seq (entry_at (sendBuf (snd_half t)) i))))|].
    match goal with H : sealSend _ _ _ _ _ _ = _ |- _ => rewrite H end. done. }
  assert (i < 256)%nat by (apply Hl; left).
  apply transport_ok_write; [by eapply transport_ok_core|done| |].
  - rewrite (sc_send _ _ Hc). by apply tk_seq.
  - by apply (tk_slots t Hok i).
Qed.

Lemma sendACK_core t now : same_core t (sendACK aead_seal net_write t now).
Proof.
  unfold sendACK. destruct (takePendingACK _) as [r [[a b]|]]; [|done].
  pose proof (sealSend_core (set_recv t r) now (EncodeACKBody a b) (EncodeACKHeader (token (set_recv t r)))) as Hc.
  destruct (sealSend _ _ _ _ _ _) as [t2 res]. simpl in *.
  destruct Hc. case_match; by constructor.
Qed.

(** One step of a session: any operation, at any time, on any input. *)
Inductive tstep : UDPTransport -> UDPTransport -> Prop :=
| step_send_reliable t now data :
    tstep t (SendReliable aead_seal net_write t now data).1
| step_send_unreliable t now data :
    tstep t (SendUnreliable aead_seal net_write t now data).1
| step_unreliable t now ctr aad sealed :
    tstep t (handleUnreliable aead_open t now ctr aad sealed)
| step_reliable t now q ctr aad sealed :
    tstep t (handleReliable aead_open t now q ctr aad sealed)
| step_ack t now ctr aad sealed :
    tstep t (handleACK aead_open t now ctr aad sealed)
| step_inject t data : tstep t (InjectInput t data)
| step_drain t : tstep t (DrainInput t).1
| step_drain_op t : tstep t (DrainOpInput t).1
| step_close t : tstep t (Close aead_seal net_write t)
| step_maintenance t now : tstep t (maintenanceTick aead_seal net_write t now).1.

Lemma splitDrain_spec {A} (q : list A) b : 0 < b ->
  (splitDrain q b).1 ++ (splitDrain q b).2 = q /\ Z.of_nat (length (splitDrain q b).1) <= b /\
  (length (splitDrain q b).2 <= length q)%nat /\ ((splitDrain q b).1 = [] -> q = []).
Proof.
  intros Hb. unfold splitDrain. destruct (Nat.eqb_spec (length q) 0) as [H0|H0]; simpl.
  { split_and!; try done; [lia|]. by apply nil_length_inv in H0. }
  destruct (Z.leb_spec (Z.of_nat (length q)) b); simpl.
  - rewrite app_nil_r. split_and!; [done|lia|lia|done].
  - rewrite take_drop, length_take, length_drop. split_and!; [done|lia|lia|].
    intros Hn. apply (f_equal length) in Hn. rewrite length_take in Hn. simpl in Hn. lia.
Qed.

Lemma tstep_ok t t' : tstep t t' -> transport_ok t -> transport_ok t'.
Proof.
  intros Hs Hok. destruct Hs.
  - by apply SendReliable_ok.
  - by eapply transport_ok_core; [apply sealSend_core|].
  - unfold handleUnreliable. pose proof (openInbound_core t ctr aad sealed) as Hc.
    destruct (openInbound _ _ _ _ _) as [t1 [p|]]; simpl in *;
      [|by eapply transport_ok_core].
    assert (transport_ok (note_received t1 now (Z.of_nat (length p))))
      by (eapply transport_ok_core; [|done]; destruct Hc; by constructor).
    case_match; [done|by apply routePayload_ok].
  - unfold handleReliable. pose proof (openInbound_core t ctr aad sealed) as Hc.
    destruct (openInbound _ _ _ _ _) as [t1 [p|]]; simpl in *;
      [|by eapply transport_ok_core].
    destruct (trackReliable _ _) as [r d].
    match goal with |- context [set_recv ?a r] => assert (transport_ok (set_recv a r))
      by (eapply transport_ok_core; [|done]; destruct Hc; by constructor) end.
    case_match; [by apply routePayload_ok|done].
  - unfold handleACK. pose proof (openInbound_core t ctr aad sealed) as Hc.
    destruct (openInbound _ _ _ _ _) as [t1 [p|]]; simpl in *;
      [|by eapply transport_ok_core].
    destruct (DecodeACKBody p) as [[a b]|]; [|by eapply transport_ok_core].
    apply (markAckedAll_ok (note_received t1 now 0)).
    eapply transport_ok_core; [|done]. destruct Hc; by constructor.
  - unfold InjectInput. rewrite lim_ok by done. by apply appendInbound_ok.
  - unfold DrainInput. rewrite lim_ok by done.
    pose proof (splitDrain_spec (inbound (queues t)) (MaxFramesPerDrain (limits t))) as Hd.
    destruct (splitDrain _ _) as [m r]. destruct Hok. simpl in Hd.
    destruct Hd as (_ & _ & Hl & _); [lia|]. destruct m; simpl; constructor; simpl; try done; lia.
  - unfold DrainOpInput. rewrite lim_ok by done.
    pose proof (splitDrain_spec (opInbound (queues t)) (MaxFramesPerDrain (limits t))) as Hd.
    destruct (splitDrain _ _) as [m r]. destruct Hok. simpl in Hd.
    destruct Hd as (_ & _ & Hl & _); [lia|]. destruct m; simpl; constructor; simpl; try done; lia.
  - by apply Close_ok.
  - unfold maintenanceTick. case_match; [by apply Close_ok|].
    pose proof (retransmitAll_ok now (seq 0 256) t Hok) as Hr.
    change (Z.to_nat reliableBufSize) with 256%nat.
    destruct (retransmitAll _ _ _ _ _) as [t1 alive].
    assert (transport_ok t1) as H1.
    { apply Hr. intros i Hi. apply elem_of_seq in Hi. lia. }
    case_match; [by apply Close_ok|].
    assert (transport_ok (sendACK aead_seal net_write t1 now)) as H2
      by (eapply transport_ok_core; [apply sendACK_core|done]).
    case_match; [by eapply transport_ok_core; [apply sealSend_core|]|done].
Qed.
End TransportFacts.

Lemma entry_at_replicate n i : entry_at (replicate n zeroEntry) i = zeroEntry.
Proof.
  unfold entry_at. destruct (_ !! _) as [e|] eqn:E; [|done].
  by apply lookup_replicate in E as [-> _].
Qed.

Lemma newUDPTransport_ok ap tok cs ss l sess now :
  transport_ok (newUDPTransport ap tok cs ss l sess now).
Proof.
  unfold newUDPTransport. constructor;
    cbn [limits queues snd_half inbound opInbound sendSeq sendBuf];
    unfold Normalized, or_default; cbn -[replicate].
  - repeat case_match; lia.
  - case_match; lia.
  - case_match; lia.
  - split; lia.
  - by rewrite length_replicate.
  - intros i Hi. by rewrite entry_at_replicate.
Qed.

(** A session's queues and ring stay within bounds for ever.  After any
    sequence of operations on a new session - sends, drains, injected input,
    arbitrary datagrams, maintenance passes, closing - the event and operation
    queues are no longer than the configured depths, and every slot of the
    256-slot retransmit ring that is in use holds a sequence number of that
    slot. *)
Theorem session_bounded
    (aead_seal : bytes -> bytes -> bytes -> bytes -> bytes)
    (aead_open : bytes -> bytes -> bytes -> bytes -> option bytes)
    (net_write : bytes -> WriteOutcome)
    (ap : AddrPort) (tok cs ss : Z) (l : WireLimits) (sess : Session) (now : Z)
    (t : UDPTransport) :
  rtc (tstep aead_seal aead_open net_write) (newUDPTransport ap tok cs ss l sess now) t ->
  transport_ok t.
Proof.
  intros Hr. pose proof (newUDPTransport_ok ap tok cs ss l sess now) as H0.
  induction Hr as [t|t1 t2 t3 Hs _ IH]; [done|]. by eapply IH, tstep_ok.
Qed.

(** An unauthenticated datagram has no effect.  When the cipher rejects a
    packet, or its counter is a replay, the unreliable, reliable and ACK handlers
    leave the queues, both reliability windows, the liveness stamp and the byte
    counter exactly as they were; only the failure statistics move. *)
Theorem unauthenticated_no_effect
    (aead_open : bytes -> bytes -> bytes -> bytes -> option bytes)
    (t : UDPTransport) (now seq counter : Z) (aad sealed : bytes) (t' : UDPTransport) :
  (openInbound aead_open t counter aad sealed).2 = None ->
  t' = handleUnreliable aead_open t now counter aad sealed \/
  t' = handleReliable aead_open t now seq counter aad sealed \/
  t' = handleACK aead_open t now counter aad sealed ->
  queues t' = queues t /\ snd_half t' = snd_half t /\ rcv_half t' = rcv_half t /\
  lastRecvTick t' = lastRecvTick t /\ bytesRecv t' = bytesRecv t /\
  win (crypto t') = win (crypto t).
Proof.
  intros Hn Ht'.
  assert (t' = (openInbound aead_open t counter aad sealed).1) as ->.
  { unfold handleUnreliable, handleReliable, handleACK in Ht'.
    destruct (openInbound _ _ _ _ _) as [t1 [p|]]; [done|].
    destruct Ht' as [->|[->| ->]]; done. }
  clear Ht'. unfold openInbound in *.
  pose proof (Open_cases aead_open (crypto t) [] counter sealed aad) as Hc.
  destruct (Open _ _ _ _ _ _) as [c [out|e]]; [done|].
  destruct Hc as [(?&_&_&_&?)|(s' & e' & [= <- <-] & Hw)]; [done|].
  destruct e; simpl; done.
Qed.

(** [SendReliable] never overwrites an unacknowledged message and a
    rejected send leaves nothing to retransmit.  If the ring slot of the next
    sequence is still outstanding the call returns backpressure and changes
    nothing; otherwise, when the datagram was handed to the socket the slot holds
    exactly this payload under its sequence, and when it was not the slot is
    empty; the other slots are untouched. *)
Theorem send_reliable_spec
    (aead_seal : bytes -> bytes -> bytes -> bytes -> bytes)
    (net_write : bytes -> WriteOutcome) (t : UDPTransport) (now : Z) (data : bytes) :
  transport_ok t -> closed t = false ->
  let '(t', res) := SendReliable aead_seal net_write t now data in
  let idx := slot_of (sendSeq (snd_half t)) in
  let old := entry_at (sendBuf (snd_half t)) in
  let new := entry_at (sendBuf (snd_half t')) in
  if re_used (old idx) && negb (re_acked (old idx))
  then t' = t /\ res = sent SendBackpressure
  else (if Queued res
        then new idx = mkEntry (sendSeq (snd_half t)) data now now false true
        else new idx = zeroEntry) /\
       sendSeq (snd_half t') = u16 (sendSeq (snd_half t) + 1) /\
       forall j, (j < 256)%nat -> j <> idx -> new j = old j.
Proof.
  intros Hok Hcl. unfold SendReliable. rewrite Hcl.
  destruct (re_used _ && _) eqn:Hfull; [by rewrite ?Hfull|].
  set (t1 := set_send t _).
  pose proof (sealSend_core aead_seal net_write t1 now data
                (EncodeReliableHeader (token t1) (sendSeq (snd_half t)))) as [_ _ Hsend _].
  destruct (sealSend _ _ _ _ _ _) as [t2 res]. simpl in Hsend.
  pose proof (slot_of_lt (sendSeq (snd_half t))) as Hlt.
  pose proof (tk_len _ Hok) as Hlen.
  destruct (Queued res) eqn:Hq; simpl; rewrite ?Hfull, ?Hq, Hsend; simpl.
  - rewrite entry_at_insert, decide_True by done. split_and!; [done..|].
    intros j _ Hj. rewrite entry_at_insert, decide_False by done. done.
  - rewrite list_insert_insert_eq.
    rewrite entry_at_insert, decide_True by done. split_and!; [done..|].
    intros j _ Hj. rewrite entry_at_insert, decide_False by done. done.
Qed.

(** ** Witnesses *)

Definition all_ok (_ : bytes) : WriteOutcome := WriteOK.
Definition toy_transport : UDPTransport :=
  newUDPTransport (mkAddr true (replicate 16 0) 9000) 77 1 2 DefaultWireLimits toy_session 0.

(** The window after receiving messages 10, 12 and 13 (11 is missing). *)
Definition sample_window : RecvHalf :=
  (trackReliable (trackReliable (trackReliable (mkRecv false 0 0 false) 10).1 12).1 13).1.

Lemma sample_window_repr : recv_repr sample_window 13 ({[13]} ∪ ({[12]} ∪ {[10]})).
Proof.
  destruct (first_reliable (mkRecv false 0 0 false) 10 eq_refl) as [_ H1].
  destruct (track_newer _ 10 _ 12 H1) as [_ H2]; [lia|].
  destruct (track_newer _ 12 _ 13 H2) as [_ H3]; [lia|]. exact H3.
Qed.

Lemma reliable_exactly_once_witness :
  (trackReliable sample_window (u16 11)).2 = true /\
  (trackReliable sample_window (u16 12)).2 = false.
Proof.
  pose proof sample_window_repr as HR. split.
  - refine (eq_trans (proj1 (reliable_exactly_once _ _ _ 11 HR _)) _); [lia|].
    apply bool_decide_eq_true_2. split; [set_solver by lia|lia].
  - refine (eq_trans (proj1 (reliable_exactly_once _ _ _ 12 HR _)) _); [lia|].
    apply bool_decide_eq_false_2. set_solver.
Defined.

(** A ring with messages 11 and 12 outstanding. *)
Definition sample_ring : SendHalf :=
  mkSend 13 (<[12%nat := mkEntry 12 [1] 0 0 false true]>
    (<[11%nat := mkEntry 11 [1] 0 0 false true]> (replicate 256 zeroEntry))).

Lemma ack_retires_only_received_witness :
  re_used (entry_at (sendBuf (markAckedAll sample_ring 13 5)) 11) = true /\
  re_used (entry_at (sendBuf sample_ring) 12) = true /\
  12 ∈ ({[13]} ∪ ({[12]} ∪ {[10]}) : gset Z).
Proof.
  split; [vm_compute; reflexivity|].
  apply (ack_retires_only_received sample_window (takePendingACK sample_window).1 13
           ({[13]} ∪ ({[12]} ∪ {[10]})) sample_ring 13 5 12 12).
  - exact sample_window_repr.
  - vm_compute. reflexivity.
  - vm_compute. reflexivity.
  - lia.
  - vm_compute. congruence.
Defined.

Lemma session_bounded_witness :
  transport_ok (SendReliable toy_seal all_ok toy_transport 5 [1; 2]).1.
Proof.
  apply (session_bounded toy_seal toy_open all_ok (mkAddr true (replicate 16 0) 9000)
           77 1 2 DefaultWireLimits toy_session 0).
  apply rtc_once. constructor.
Defined.

Lemma unauthenticated_no_effect_witness :
  queues (handleReliable toy_open toy_transport 9 3 1 [] [0]) = queues toy_transport.
Proof.
  eapply (unauthenticated_no_effect toy_open toy_transport 9 3 1 [] [0]).
  - vm_compute. reflexivity.
  - right. left. reflexivity.
Defined.

Lemma send_reliable_spec_witness :
  entry_at (sendBuf (snd_half (SendReliable toy_seal all_ok toy_transport 5 [1; 2]).1)) 0
  = mkEntry 0 [1; 2] 5 5 false true.
Proof.
  pose proof (send_reliable_spec toy_seal all_ok toy_transport 5 [1; 2]
                (newUDPTransport_ok _ _ _ _ _ _ _) eq_refl) as H.
  vm_compute in H. exact (proj1 H).
Defined.
