(* ===== verification/NetId.v ===== *)
(** * Network identities (pkg/universe/netid_index.go, net_id_alloc.go)

    [netIDIndex] maps every network id to one (entity, presence) slot of a cell;
    [NetIDAllocator] hands out disjoint id ranges to cells.  ECS entity handles
    come from the ark library: they are a parameter with decidable equality. *)

From S2P Require Import Prelude.

(** ** The presence index *)

Inductive EntityPresence := PresenceNone | PresenceLive | PresenceReplica.

Inductive TransitionAction :=
| ActionInstalled
| ActionUpdated
| ActionRejected
| ActionDuplicate.

#[export] Instance EntityPresence_eq_dec : EqDecision EntityPresence.
Proof. solve_decision. Defined.
#[export] Instance TransitionAction_eq_dec : EqDecision TransitionAction.
Proof. solve_decision. Defined.

Record netIDSlot (Entity : Type) := mkSlot { slot_entity : Entity; slot_presence : EntityPresence }.
Arguments mkSlot {Entity} _ _.
Arguments slot_entity {Entity} _.
Arguments slot_presence {Entity} _.

Record TransitionResult (Entity : Type) := mkTransition {
  Action : TransitionAction;
  PrevEntity : option Entity
}.
Arguments mkTransition {Entity} _ _.
Arguments Action {Entity} _.
Arguments PrevEntity {Entity} _.

Section Index.
Context {Entity : Type} `{EqDecision Entity}.

Abbreviation netIDIndex := (gmap Z (netIDSlot Entity)).

Definition newNetIDIndex : netIDIndex := ∅.

(** [None] stands for the zero [TransitionResult.PrevEntity]. *)
Definition Lookup (idx : netIDIndex) (netID : Z) : option Entity * EntityPresence * bool :=
  match idx !! netID with
  | None => (None, PresenceNone, false)
  | Some s => (Some (slot_entity s), slot_presence s, true)
  end.

Definition Enter (idx : netIDIndex) (netID : Z) (entity : Entity) (to : EntityPresence)
  : netIDIndex * TransitionResult Entity :=
  match idx !! netID with
  | None => (<[netID := mkSlot entity to]> idx, mkTransition ActionInstalled None)
  | Some cur =>
      match slot_presence cur with
      | PresenceLive =>
          if decide (to = PresenceLive)
          then (idx, mkTransition ActionDuplicate (Some (slot_entity cur)))
          else (idx, mkTransition ActionRejected None)
      | PresenceReplica =>
          if decide (to = PresenceReplica)
          then (<[netID := mkSlot entity PresenceReplica]> idx, mkTransition ActionUpdated None)
          else (idx, mkTransition ActionRejected None)
      | PresenceNone => (idx, mkTransition ActionRejected None)
      end
  end.

Definition ExitEntity (idx : netIDIndex) (netID : Z) (entity : Entity) : netIDIndex * bool :=
  match idx !! netID with
  | None => (idx, false)
  | Some cur =>
      if decide (slot_entity cur = entity) then (delete netID idx, true) else (idx, false)
  end.

Definition Demote (idx : netIDIndex) (netID : Z) (entity : Entity)
  : netIDIndex * TransitionResult Entity :=
  match idx !! netID with
  | None => (idx, mkTransition ActionRejected None)
  | Some cur =>
      if decide (slot_presence cur = PresenceLive)
      then (<[netID := mkSlot entity PresenceReplica]> idx,
            mkTransition ActionUpdated (Some (slot_entity cur)))
      else (idx, mkTransition ActionRejected None)
  end.

Definition Promote (idx : netIDIndex) (netID : Z) (entity : Entity)
  : netIDIndex * TransitionResult Entity :=
  match idx !! netID with
  | None => (idx, mkTransition ActionRejected None)
  | Some cur =>
      if decide (slot_presence cur = PresenceReplica)
      then (<[netID := mkSlot entity PresenceLive]> idx,
            mkTransition ActionUpdated (Some (slot_entity cur)))
      else (idx, mkTransition ActionRejected None)
  end.

(** The presence of an id in a cell. *)
Definition presence (idx : netIDIndex) (netID : Z) : EntityPresence :=
  match idx !! netID with Some s => slot_presence s | None => PresenceNone end.

Inductive IndexOp :=
| OpEnter (netID : Z) (e : Entity) (to : EntityPresence)
| OpExit (netID : Z) (e : Entity)
| OpDemote (netID : Z) (e : Entity)
| OpPromote (netID : Z) (e : Entity).

Definition apply_op (idx : netIDIndex) (op : IndexOp) : netIDIndex :=
  match op with
  | OpEnter n e p => (Enter idx n e p).1
  | OpExit n e => (ExitEntity idx n e).1
  | OpDemote n e => (Demote idx n e).1
  | OpPromote n e => (Promote idx n e).1
  end.
End Index.
Arguments IndexOp : clear implicits.

(** ** The range allocator *)

Record NetIDAllocator := mkAlloc { next : Z; size : Z; freeList : list Z }.

Definition NewNetIDAllocator (startBase rangeSize : Z) : NetIDAllocator :=
  mkAlloc startBase rangeSize [].

(** [None] is the panic on exhaustion. *)
Definition Allocate (a : NetIDAllocator) : option (NetIDAllocator * Z) :=
  match last (freeList a) with
  | Some base =>
      Some (mkAlloc (next a) (size a) (take (length (freeList a) - 1) (freeList a)), base)
  | None =>
      let base := next a in
      if (0 <? size a) && ((2 ^ 32 - 1) - size a <? base) then None
      else Some (mkAlloc (u32 (next a + size a)) (size a) (freeList a), base)
  end.

Definition Release (a : NetIDAllocator) (base : Z) : NetIDAllocator :=
  mkAlloc (next a) (size a) (freeList a ++ [base]).

Definition SetBase (a : NetIDAllocator) (base : Z) : NetIDAllocator :=
  if next a <? base then mkAlloc base (size a) (freeList a) else a.

(** The allocator together with the ranges currently held by cells: a cell
    releases only a range it holds, and once. *)
Inductive alloc_step : NetIDAllocator * list Z -> NetIDAllocator * list Z -> Prop :=
| step_allocate a a' base held :
    Allocate a = Some (a', base) -> alloc_step (a, held) (a', base :: held)
| step_release a l1 base l2 :
    alloc_step (a, l1 ++ base :: l2) (Release a base, l1 ++ l2)
| step_setbase a base held :
    in_u32 base -> alloc_step (a, held) (SetBase a base, held).

(** * Properties *)

Section IndexFacts.
Context {Entity : Type} `{EqDecision Entity}.
Implicit Types (idx : gmap Z (netIDSlot Entity)) (op : IndexOp Entity).

Definition op_target op : Z :=
  match op with OpEnter n _ _ | OpExit n _ | OpDemote n _ | OpPromote n _ => n end.

Lemma apply_op_other idx op n : n <> op_target op -> apply_op idx op !! n = idx !! n.
Proof.
  intros Hn. destruct op as [m e p|m e|m e|m e]; simpl in *;
    unfold Enter, ExitEntity, Demote, Promote;
    repeat case_match; simplify_map_eq; done.
Qed.

(** Authority changes hands only through the sanctioned transitions.  For
    every operation on the index and every id: a Live slot keeps its presence
    and its entity unless the operation is a Demote of that id or an Exit by the
    very entity that holds the slot, and a Replica slot becomes Live only by a
    Promote of that id - in particular a stray border frame (Enter Replica) cannot
    downgrade a live entity, nor can a duplicate spawn (Enter Live, then Exit of
    the duplicate's own entity) evict the original. *)
Theorem authority_transitions idx op (netID : Z) (s : netIDSlot Entity) :
  idx !! netID = Some s ->
  (slot_presence s = PresenceLive ->
     apply_op idx op !! netID = Some s \/
     (exists e, op = OpDemote netID e /\
        apply_op idx op !! netID = Some (mkSlot e PresenceReplica)) \/
     (op = OpExit netID (slot_entity s) /\ apply_op idx op !! netID = None)) /\
  (slot_presence s = PresenceReplica ->
     presence (apply_op idx op) netID = PresenceLive -> exists e, op = OpPromote netID e).
Proof.
  intros Hs.
  destruct (decide (netID = op_target op)) as [Ht|Ht].
  2:{ unfold presence. rewrite apply_op_other by done. rewrite Hs.
      split; [by left|intros ->; done]. }
  unfold presence. destruct op as [m e p|m e|m e|m e]; simpl in *; subst m;
    unfold Enter, ExitEntity, Demote, Promote; rewrite Hs;
    (split; [intros Hp|intros Hp Hl]); rewrite ?Hp in *; simpl in *;
    repeat (case_decide || case_match); simplify_map_eq; try congruence; eauto.
Qed.
End IndexFacts.

(** ** Ranges *)

Definition range_disjoint (size b1 b2 : Z) : Prop := b1 + size <= b2 \/ b2 + size <= b1.

(** Held and free ranges are pairwise disjoint and lie below [next], and the
    arithmetic never wraps. *)
Record alloc_ok (st : NetIDAllocator * list Z) : Prop := {
  ao_size : 0 < size st.1;
  ao_next : 0 <= next st.1 < 2 ^ 32;
  ao_below : Forall (fun b => 0 <= b /\ b + size st.1 <= next st.1) (st.2 ++ freeList st.1);
  ao_disjoint : ForallOrdPairs (range_disjoint (size st.1)) (st.2 ++ freeList st.1)
}.

Lemma range_disjoint_sym n b1 b2 : range_disjoint n b1 b2 -> range_disjoint n b2 b1.
Proof. unfold range_disjoint. lia. Qed.

Lemma FOP_perm n l1 l2 : l1 ≡ₚ l2 ->
  ForallOrdPairs (range_disjoint n) l1 -> ForallOrdPairs (range_disjoint n) l2.
Proof.
  induction 1 as [|x l1 l2 HP IH|x y l|l1 l2 l3 _ IH1 _ IH2]; intros H; auto.
  - inversion H as [|? ? Hx Hl]; subst. constructor; auto. by rewrite <- HP.
  - inversion H as [|? ? Hy Hl]; subst. inversion Hl as [|? ? Hx Hl']; subst.
    apply Forall_cons in Hy as [Hyx Hy].
    constructor; [|by constructor]. constructor; [by apply range_disjoint_sym|done].
Qed.

Lemma alloc_ok_perm a h1 h2 a' :
  size a' = size a -> next a' = next a -> h2 ++ freeList a' ≡ₚ h1 ++ freeList a ->
  alloc_ok (a, h1) -> alloc_ok (a', h2).
Proof.
  intros Hs Hn HP [H1 H2 H3 H4]; simpl in *. constructor; simpl; rewrite ?Hs, ?Hn; try done.
  - by rewrite HP.
  - by apply (FOP_perm _ (h1 ++ freeList a)).
Qed.

Lemma last_split {A} (l : list A) x : last l = Some x -> l = take (length l - 1) l ++ [x].
Proof.
  intros H. apply last_Some in H as [l' ->]. rewrite length_app. simpl.
  replace (length l' + 1 - 1)%nat with (length l') by lia. by rewrite take_app_length.
Qed.

Lemma alloc_step_ok st st' : alloc_step st st' -> alloc_ok st -> alloc_ok st'.
Proof.
  intros Hs Hok. destruct Hs as [a a' base held Ha|a l1 base l2|a base held Hb].
  - unfold Allocate in Ha. destruct (last (freeList a)) as [b|] eqn:Hl.
    + simplify_eq. apply (alloc_ok_perm a held); simpl; try done.
      etrans; [apply Permutation_cons_append|]. rewrite <- app_assoc.
      by rewrite <- (last_split _ _ Hl).
    + apply last_None in Hl. destruct Hok as [H1 H2 H3 H4]; simpl in *.
      destruct (_ && _) eqn:E; simplify_eq. apply andb_false_iff in E.
      assert (next a + size a < 2 ^ 32) as Hlt by (destruct E; lia).
      assert (u32 (next a + size a) = next a + size a) as Hu by (apply Z.mod_small; lia).
      rewrite Hl, app_nil_r in H3, H4.
      constructor; simpl; rewrite ?Hu, ?Hl, ?app_nil_r; try lia.
      * constructor; [lia|]. eapply Forall_impl; [exact H3|]. simpl. lia.
      * constructor; [|done]. eapply Forall_impl; [exact H3|].
        simpl. unfold range_disjoint. lia.
  - apply (alloc_ok_perm a (l1 ++ base :: l2)); simpl; [done|done| |done].
    rewrite <- !app_assoc. apply Permutation_app_head. simpl.
    rewrite app_assoc. symmetry. apply Permutation_cons_append.
  - unfold SetBase. case_match eqn:E; [|done].
    destruct Hok as [H1 H2 H3 H4]; simpl in *. unfold in_u32 in Hb.
    constructor; simpl; try done. eapply Forall_impl; [exact H3|]. simpl. lia.
Qed.

(** No two cells ever share a network id.  From a fresh allocator, after
    any interleaving of allocations, releases of held ranges and coordinator
    grants (SetBase, in any order, stale ones included), the ranges held by
    cells are pairwise disjoint, and disjoint from every range waiting for
    reuse. *)
Theorem held_ranges_disjoint (startBase rangeSize : Z) (a : NetIDAllocator) (held : list Z) :
  in_u32 startBase -> 0 < rangeSize < 2 ^ 32 ->
  rtc alloc_step (NewNetIDAllocator startBase rangeSize, []) (a, held) ->
  size a = rangeSize /\ ForallOrdPairs (range_disjoint rangeSize) (held ++ freeList a).
Proof.
  intros Hs Hr Hrtc.
  assert (alloc_ok (NewNetIDAllocator startBase rangeSize, [])) as H0.
  { constructor; simpl; [lia|done|constructor|constructor]. }
  remember (NewNetIDAllocator startBase rangeSize, []) as st0 eqn:E0.
  remember (a, held) as st1 eqn:E1.
  assert (alloc_ok st1 /\ size st1.1 = size st0.1) as [Hok Hsz].
  { clear E0 E1. induction Hrtc as [|x y z Hxy _ IH]; [done|].
    destruct IH as [Hok Hsz]; [by eapply alloc_step_ok|]. split; [done|]. rewrite Hsz.
    destruct Hxy as [? ? ? ? Ha| |]; simpl; [|done|unfold SetBase; by case_match].
    unfold Allocate in Ha. repeat case_match; simplify_eq; done. }
  subst. simpl in *. split; [done|]. rewrite <- Hsz. apply (ao_disjoint _ Hok).
Qed.

(** ** Witnesses *)

Lemma authority_transitions_witness :
  apply_op (<[7 := mkSlot 70 PresenceLive]> ∅) (OpEnter 7 71 PresenceReplica) !! 7
    = Some (mkSlot 70 PresenceLive).
Proof.
  destruct (authority_transitions (<[7 := mkSlot 70 PresenceLive]> ∅)
              (OpEnter 7 71 PresenceReplica) 7 (mkSlot 70 PresenceLive)) as [H _].
  - vm_compute. reflexivity.
  - destruct (H eq_refl) as [Hk|[(e & Hd & _)|[Hx _]]]; [exact Hk|discriminate|discriminate].
Defined.

Lemma held_ranges_disjoint_witness :
  ForallOrdPairs (range_disjoint 100) ([1100; 1000] ++ []).
Proof.
  apply (held_ranges_disjoint 1000 100 (mkAlloc 1200 100 []) [1100; 1000]);
    [vm_compute; intuition congruence|lia|].
  eapply rtc_l; [apply step_allocate; reflexivity|].
  eapply rtc_l; [apply step_allocate; reflexivity|]. apply rtc_refl.
Defined.
