(* ===== verification/Transfer.v ===== *)
(** * The entity transfer codec (pkg/universe/transfer.go)

    [MarshalTransferFrame] writes an entity for another cell,
    [UnmarshalTransferFrame] reads it back and [PeekTransferPlayer] reads only
    the session prefix.  The reader takes peer-supplied bytes, so a read past
    the end of the buffer is a value of its own ([Panic]) and never a default.

    A [float32] is the 32-bit pattern [math.Float32bits] gives for it; a string
    and a [uuid.UUID] are their bytes.  The source's running offset into [data]
    is the list of bytes not yet read, so [len(data)-off] is its length. *)

From S2P Require Import Prelude.

(** ** Data *)

Record Rotation := mkRotation { RotX : Z; RotY : Z; RotZ : Z; RotW : Z }.

Record Collider := mkCollider {
  Radius : Z; Width : Z; Height : Z; Depth : Z; Layer : Z; Shape : Z
}.

Record ComponentSlice := mkComponent { ID : Z; Data : bytes }.

Record TransferFrame := mkFrame {
  NetworkID : Z;
  Epoch : Z;
  StreamGeneration : Z;
  EntityType : Z;
  ConnID : Z;
  GatewayID : bytes;
  GatewayConnID : Z;
  Username : bytes;
  UserID : bytes;
  PosX : Z; PosY : Z; PosZ : Z;
  VelX : Z; VelY : Z; VelZ : Z;
  FRotation : Rotation;
  FCollider : Collider;
  CellX : Z;
  CellY : Z;
  DebugFlags : Z;
  Components : list ComponentSlice
}.

Definition ShapeSphere : Z := 0.
Definition ShapeCount : Z := 3.
Definition Valid (k : Z) : bool := k <? ShapeCount.
Definition validShape (b : Z) : Z := if Valid b then b else ShapeSphere.

(** ** Writing *)

Inductive MarshalError :=
| ErrGatewayIDTooLong | ErrUsernameTooLong | ErrTooManyComponents | ErrComponentTooLong.

Definition headerSize : nat := 111.

Definition marshal_component (c : ComponentSlice) : bytes :=
  le_bytes 2 (ID c) ++ le_bytes 2 (Z.of_nat (length (Data c))) ++ Data c.

(** The session prefix, up to the username and the user id. *)
Definition marshal_session (f : TransferFrame) : bytes :=
  le_bytes 4 (NetworkID f) ++ le_bytes 4 (Epoch f) ++ le_bytes 4 (StreamGeneration f) ++
  le_bytes 1 (EntityType f) ++ le_bytes 4 (ConnID f) ++
  le_bytes 1 (Z.of_nat (length (GatewayID f))) ++ GatewayID f ++
  le_bytes 4 (GatewayConnID f) ++
  le_bytes 1 (Z.of_nat (length (Username f))) ++ Username f ++ UserID f.

Definition marshal_body (f : TransferFrame) : bytes :=
  le_bytes 4 (PosX f) ++ le_bytes 4 (PosY f) ++ le_bytes 4 (PosZ f) ++
  le_bytes 4 (VelX f) ++ le_bytes 4 (VelY f) ++ le_bytes 4 (VelZ f) ++
  le_bytes 4 (RotX (FRotation f)) ++ le_bytes 4 (RotY (FRotation f)) ++
  le_bytes 4 (RotZ (FRotation f)) ++ le_bytes 4 (RotW (FRotation f)) ++
  le_bytes 4 (Radius (FCollider f)) ++ le_bytes 4 (Width (FCollider f)) ++
  le_bytes 4 (Height (FCollider f)) ++ le_bytes 4 (Depth (FCollider f)) ++
  le_bytes 1 (Layer (FCollider f)) ++ le_bytes 1 (Shape (FCollider f)) ++
  le_bytes 4 (u32 (CellX f)) ++ le_bytes 4 (u32 (CellY f)) ++
  le_bytes 4 (DebugFlags f) ++ le_bytes 2 (Z.of_nat (length (Components f))).

Definition MarshalTransferFrame (f : TransferFrame) : result MarshalError bytes :=
  guard (length (GatewayID f) <=? 255)%nat else ErrGatewayIDTooLong in
  guard (length (Username f) <=? 255)%nat else ErrUsernameTooLong in
  guard Z.of_nat (length (Components f)) <=? 65535 else ErrTooManyComponents in
  guard forallb (fun c => Z.of_nat (length (Data c)) <=? 65535) (Components f)
    else ErrComponentTooLong in
  Ok (marshal_session f ++ marshal_body f ++ concat (marshal_component <$> Components f)).

(** The buffer the source allocates before writing. *)
Definition marshal_size (f : TransferFrame) : nat :=
  headerSize + length (Username f) + length (GatewayID f) +
  sum_list ((fun c => 4 + length (Data c))%nat <$> Components f).

(** ** Reading *)

Inductive UnmarshalError :=
| ErrHeader | ErrTruncatedGatewayID | ErrTruncatedUsername | ErrComponentCount
| ErrTruncatedComponentHeader | ErrTruncatedComponentData.

Inductive outcome (A : Type) :=
| Done (a : A) (rest : bytes)
| Fail (e : UnmarshalError)
| Panic.
Arguments Done {A} _ _.
Arguments Fail {A} _.
Arguments Panic {A}.

Definition parser (A : Type) := bytes -> outcome A.

Definition pret {A} (a : A) : parser A := fun d => Done a d.

Definition pbind {A B} (p : parser A) (k : A -> parser B) : parser B := fun d =>
  match p d with
  | Done a r => k a r
  | Fail e => Fail e
  | Panic => Panic
  end.

Declare Scope parser_scope.
Delimit Scope parser_scope with parser.
Notation "x <-- p ;; k" := (pbind p (fun x => k))
  (at level 100, p at next level, right associativity) : parser_scope.
Open Scope parser_scope.

(** [data[off:off+n]]: out of range is a panic. *)
Definition rd_bytes (n : nat) : parser bytes := fun d =>
  if (n <=? length d)%nat then Done (take n d) (drop n d) else Panic.

Definition rd_uint (n : nat) : parser Z := bs <-- rd_bytes n;; pret (le_val bs).
Definition rd_u8 : parser Z := rd_uint 1.
Definition rd_u16 : parser Z := rd_uint 2.
Definition rd_u32 : parser Z := rd_uint 4.

(** [if off+n > len(data) { return nil, e }]. *)
Definition need (n : nat) (e : UnmarshalError) : parser unit := fun d =>
  if (length d <? n)%nat then Fail e else Done tt d.

Definition remaining : parser nat := fun d => Done (length d) d.
Definition pfail {A} (e : UnmarshalError) : parser A := fun _ => Fail e.

Definition postUsernameSize : nat := 88.

Fixpoint rd_components (count : nat) : parser (list ComponentSlice) :=
  match count with
  | O => pret []
  | S count =>
      _ <-- need 4 ErrTruncatedComponentHeader;;
      id <-- rd_u16;;
      dlen <-- rd_u16;;
      _ <-- need (Z.to_nat dlen) ErrTruncatedComponentData;;
      dat <-- rd_bytes (Z.to_nat dlen);;
      cs <-- rd_components count;;
      pret (mkComponent id dat :: cs)
  end.

Definition rd_rotation : parser Rotation :=
  x <-- rd_u32;; y <-- rd_u32;; z <-- rd_u32;; w <-- rd_u32;; pret (mkRotation x y z w).

Definition rd_collider : parser Collider :=
  r <-- rd_u32;; w <-- rd_u32;; h <-- rd_u32;; d <-- rd_u32;;
  layer <-- rd_u8;; shape <-- rd_u8;;
  pret (mkCollider r w h d layer (validShape shape)).

Definition unmarshal : parser TransferFrame :=
  _ <-- need headerSize ErrHeader;;
  netID <-- rd_u32;; epoch <-- rd_u32;; gen <-- rd_u32;;
  etype <-- rd_u8;;
  conn <-- rd_u32;;
  gwIDLen <-- rd_u8;;
  _ <-- need (Z.to_nat gwIDLen + 4 + 1) ErrTruncatedGatewayID;;
  gwID <-- rd_bytes (Z.to_nat gwIDLen);;
  gwConn <-- rd_u32;;
  nameLen <-- rd_u8;;
  _ <-- need (Z.to_nat nameLen + postUsernameSize) ErrTruncatedUsername;;
  name <-- rd_bytes (Z.to_nat nameLen);;
  uid <-- rd_bytes 16;;
  px <-- rd_u32;; py <-- rd_u32;; pz <-- rd_u32;;
  vx <-- rd_u32;; vy <-- rd_u32;; vz <-- rd_u32;;
  rot <-- rd_rotation;;
  col <-- rd_collider;;
  cx <-- rd_u32;; cy <-- rd_u32;;
  flags <-- rd_u32;;
  count <-- rd_u16;;
  left <-- remaining;;
  if Z.of_nat left / 4 <? count then pfail ErrComponentCount else
  cs <-- rd_components (Z.to_nat count);;
  pret (mkFrame netID epoch gen etype conn gwID gwConn name uid
          px py pz vx vy vz rot col (i32 cx) (i32 cy) flags cs).

Definition UnmarshalTransferFrame (data : bytes) : outcome TransferFrame := unmarshal data.

(** What [PeekTransferPlayer] returns; [noPlayer] is its tuple of zero values. *)
Record TransferPlayer := mkPlayer {
  srcConnID : Z; pStreamGeneration : Z; gatewayID : bytes; gatewayConnID : Z;
  username : bytes; userID : bytes
}.

Definition uuidNil : bytes := replicate 16 0.
Definition noPlayer : TransferPlayer := mkPlayer 0 0 [] 0 [] uuidNil.

(** The early returns of the source are successes here, so the checks are plain
    conditionals on what is left. *)
Definition peek : parser TransferPlayer :=
  left0 <-- remaining;;
  if (left0 <? 8 + 4 + 1 + 4 + 1 + 4 + 1)%nat then pret noPlayer else
  _ <-- rd_bytes 8;;
  gen <-- rd_u32;;
  _ <-- rd_bytes 1;;
  conn <-- rd_u32;;
  if conn =? 0 then pret noPlayer else
  gwIDLen <-- rd_u8;;
  left1 <-- remaining;;
  if (left1 <? Z.to_nat gwIDLen + 4 + 1)%nat
  then pret (mkPlayer conn gen [] 0 [] uuidNil) else
  gwID <-- rd_bytes (Z.to_nat gwIDLen);;
  gwConn <-- rd_u32;;
  nameLen <-- rd_u8;;
  left2 <-- remaining;;
  if (left2 <? Z.to_nat nameLen + 16)%nat
  then pret (mkPlayer conn gen gwID gwConn [] uuidNil) else
  name <-- rd_bytes (Z.to_nat nameLen);;
  uid <-- rd_bytes 16;;
  pret (mkPlayer conn gen gwID gwConn name uid).

(** [None] is a panic. *)
Definition PeekTransferPlayer (data : bytes) : option TransferPlayer :=
  match peek data with Done p _ => Some p | _ => None end.

(** The values the Go types admit, and the session view of a frame. *)
Definition component_ok (c : ComponentSlice) : Prop :=
  in_u16 (ID c) /\ Forall is_byte (Data c) /\ Z.of_nat (length (Data c)) <= 65535.

Definition rotation_ok (r : Rotation) : Prop :=
  in_u32 (RotX r) /\ in_u32 (RotY r) /\ in_u32 (RotZ r) /\ in_u32 (RotW r).

Definition collider_ok (c : Collider) : Prop :=
  in_u32 (Radius c) /\ in_u32 (Width c) /\ in_u32 (Height c) /\ in_u32 (Depth c) /\
  in_u8 (Layer c) /\ 0 <= Shape c < ShapeCount.

Definition session_ok (f : TransferFrame) : Prop :=
  in_u32 (NetworkID f) /\ in_u32 (Epoch f) /\ in_u32 (StreamGeneration f) /\
  in_u8 (EntityType f) /\ in_u32 (ConnID f) /\
  (length (GatewayID f) <= 255)%nat /\ in_u32 (GatewayConnID f) /\
  (length (Username f) <= 255)%nat /\ length (UserID f) = 16%nat.

Definition body_ok (f : TransferFrame) : Prop :=
  in_u32 (PosX f) /\ in_u32 (PosY f) /\ in_u32 (PosZ f) /\
  in_u32 (VelX f) /\ in_u32 (VelY f) /\ in_u32 (VelZ f) /\
  rotation_ok (FRotation f) /\ collider_ok (FCollider f) /\
  in_i32 (CellX f) /\ in_i32 (CellY f) /\ in_u32 (DebugFlags f).

Definition frame_ok (f : TransferFrame) : Prop :=
  session_ok f /\ body_ok f /\
  Z.of_nat (length (Components f)) <= 65535 /\ Forall component_ok (Components f).

Definition player_of (f : TransferFrame) : TransferPlayer :=
  if ConnID f =? 0 then noPlayer
  else mkPlayer (ConnID f) (StreamGeneration f) (GatewayID f) (GatewayConnID f)
         (Username f) (UserID f).

(** ** Lemmas on the reader *)

Section Reader.
Lemma pbind_done {A B} (p : parser A) (k : A -> parser B) d a r :
  p d = Done a r -> pbind p k d = k a r.
Proof. unfold pbind. by intros ->. Qed.

Lemma pbind_inv {A B} (p : parser A) (k : A -> parser B) d b r :
  pbind p k d = Done b r -> exists a r', p d = Done a r' /\ k a r' = Done b r.
Proof. unfold pbind. destruct (p d); naive_solver. Qed.

Lemma rd_bytes_app l r n : length l = n -> rd_bytes n (l ++ r) = Done l r.
Proof.
  intros <-. unfold rd_bytes. rewrite length_app.
  destruct (Nat.leb_spec (length l) (length l + length r)); [|lia].
  by rewrite take_app_length, drop_app_length.
Qed.

Lemma rd_uint_app n z r :
  0 <= z < 256 ^ Z.of_nat n -> rd_uint n (le_bytes n z ++ r) = Done z r.
Proof.
  intros. unfold rd_uint. erewrite pbind_done by (apply rd_bytes_app, length_le_bytes).
  unfold pret. by rewrite le_val_bytes, Z.mod_small.
Qed.

Lemma need_ok n e d : (n <= length d)%nat -> need n e d = Done tt d.
Proof. intros. unfold need. by destruct (Nat.ltb_spec (length d) n); [lia|]. Qed.

Lemma need_done n e d u r : need n e d = Done u r -> r = d /\ (n <= length d)%nat.
Proof. unfold need. destruct (Nat.ltb_spec (length d) n); naive_solver. Qed.

Lemma rd_bytes_done n d l r :
  rd_bytes n d = Done l r -> d = l ++ r /\ length l = n.
Proof.
  unfold rd_bytes. destruct (Nat.leb_spec n (length d)); intros [= <- <-].
  rewrite take_drop, length_take. split; [done|lia].
Qed.

Lemma rd_uint_done n d z r :
  rd_uint n d = Done z r -> exists l, d = l ++ r /\ length l = n /\ z = le_val l.
Proof.
  unfold rd_uint. intros (l & r' & H & [= <- <-])%pbind_inv.
  apply rd_bytes_done in H as [-> ?]. eauto.
Qed.
End Reader.

(** [wp p Q d]: from [d] the reader does not panic and, when it succeeds, its
    value and the bytes left satisfy [Q]. *)
Definition wp {A} (p : parser A) (Q : A -> bytes -> Prop) (d : bytes) : Prop :=
  match p d with Done a r => Q a r | Fail _ => True | Panic => False end.

Section Wp.
Lemma wp_bind {A B} (p : parser A) (k : A -> parser B) Q d :
  wp p (fun a r => wp (k a) Q r) d -> wp (pbind p k) Q d.
Proof. unfold wp, pbind. by destruct (p d). Qed.

Lemma wp_rd_bytes n Q d :
  Forall is_byte d -> (n <= length d)%nat ->
  (forall l r, length l = n -> Forall is_byte l -> Forall is_byte r ->
     (length r + n = length d)%nat -> Q l r) ->
  wp (rd_bytes n) Q d.
Proof.
  intros Hd Hn HQ. unfold wp, rd_bytes.
  destruct (Nat.leb_spec n (length d)); [|lia].
  apply HQ; [rewrite length_take; lia | by apply Forall_take | by apply Forall_drop
            | rewrite length_drop; lia].
Qed.

Lemma wp_rd_uint n Q d :
  Forall is_byte d -> (n <= length d)%nat ->
  (forall z r, 0 <= z < 256 ^ Z.of_nat n -> Forall is_byte r ->
     (length r + n = length d)%nat -> Q z r) ->
  wp (rd_uint n) Q d.
Proof.
  intros Hd Hn HQ. unfold rd_uint. apply wp_bind, wp_rd_bytes; [done..|].
  intros l r <- Hl Hr Hlen. unfold wp, pret. apply HQ; [by apply le_val_range | done..].
Qed.

Lemma wp_need n e Q d : ((n <= length d)%nat -> Q tt d) -> wp (need n e) Q d.
Proof. unfold wp, need. intros. destruct (Nat.ltb_spec (length d) n); auto. Qed.

Lemma wp_remaining Q d : Q (length d) d -> wp remaining Q d.
Proof. done. Qed.

Lemma wp_pret {A} (a : A) (Q : A -> bytes -> Prop) d : Q a d -> wp (pret a) Q d.
Proof. done. Qed.

Lemma wp_mono {A} (p : parser A) (Q Q' : A -> bytes -> Prop) d :
  wp p Q d -> (forall a r, Q a r -> Q' a r) -> wp p Q' d.
Proof. unfold wp. destruct (p d); auto. Qed.
End Wp.

(** [rd_step] runs one read backwards through [wp]; [rd_app] runs one read on a
    buffer that starts with what it reads. *)
Ltac rd_step :=
  lazymatch goal with
  | |- wp (pbind _ _) _ _ => apply wp_bind
  | |- wp (need _ _) _ _ => apply wp_need; intro
  | |- wp (rd_uint _) _ _ => apply wp_rd_uint; [done | lia | intros ? ? ? ? ?]
  | |- wp (rd_bytes _) _ _ => apply wp_rd_bytes; [done | lia | intros ? ? ? ? ? ?]
  | |- wp remaining _ _ => apply wp_remaining
  | |- wp (pret _) _ _ => apply wp_pret
  end.
Ltac rd_app :=
  rewrite <- ?app_assoc;
  first
    [ erewrite pbind_done by (apply need_ok; len_tac)
    | erewrite pbind_done by (apply rd_uint_app; unfold_int; simpl; lia)
    | erewrite pbind_done by (apply rd_bytes_app; len_tac) ].

Section Codec.
Lemma length_component c : length (marshal_component c) = (4 + length (Data c))%nat.
Proof. unfold marshal_component. autorewrite with go_len. lia. Qed.

Lemma concat_components_length cs :
  (4 * length cs <= length (concat (marshal_component <$> cs)))%nat.
Proof.
  induction cs as [|c cs IH]; [done|].
  rewrite fmap_cons. cbn [concat length]. rewrite length_app, length_component. lia.
Qed.

Lemma marshal_ok f buf :
  MarshalTransferFrame f = Ok buf ->
  buf = marshal_session f ++ marshal_body f ++ concat (marshal_component <$> Components f) /\
  (length (GatewayID f) <= 255)%nat /\ (length (Username f) <= 255)%nat /\
  Z.of_nat (length (Components f)) <= 65535.
Proof.
  unfold MarshalTransferFrame.
  destruct (Nat.leb_spec (length (GatewayID f)) 255); [|done].
  destruct (Nat.leb_spec (length (Username f)) 255); [|done].
  destruct (Z.leb_spec (Z.of_nat (length (Components f))) 65535); [|done].
  destruct forallb; [|done]. intros Heq. split_and!; [congruence | done..].
Qed.

(** The buffer is exactly as long as the source allocates it. *)
Lemma marshal_length f buf :
  length (UserID f) = 16%nat ->
  MarshalTransferFrame f = Ok buf -> length buf = marshal_size f.
Proof.
  intros Hu (-> & _)%marshal_ok.
  unfold marshal_size, headerSize, marshal_session, marshal_body.
  autorewrite with go_len. rewrite Hu.
  assert (Hc : forall cs, length (concat (marshal_component <$> cs)) =
            sum_list ((fun c => 4 + length (Data c))%nat <$> cs)).
  { induction cs as [|c cs IH]; [done|].
    rewrite !fmap_cons. cbn [concat]. rewrite length_app, length_component, IH. simpl. lia. }
  rewrite Hc. lia.
Qed.

Lemma u16_of_nat n : Z.of_nat n <= 65535 -> in_u16 (Z.of_nat n).
Proof. unfold_int. lia. Qed.
Lemma u8_of_nat n : (n <= 255)%nat -> 0 <= Z.of_nat n < 256 ^ Z.of_nat 1.
Proof. change (256 ^ Z.of_nat 1) with 256. lia. Qed.
Lemma i32_u32 z : in_i32 z -> i32 (u32 z) = z.
Proof. intros. go_int. Qed.

Lemma rd_components_app cs r :
  Forall component_ok cs ->
  rd_components (length cs) (concat (marshal_component <$> cs) ++ r) = Done cs r.
Proof.
  induction 1 as [|c cs (Hid & _ & Hlen) _ IH]; [done|].
  cbn [length rd_components fmap list_fmap concat].
  pose proof (u16_of_nat _ Hlen) as Hl. unfold marshal_component.
  unfold rd_u16. do 3 rd_app. rewrite Nat2Z.id. do 2 rd_app.
  erewrite pbind_done by apply IH. unfold pret. by destruct c.
Qed.

Lemma rd_rotation_app r rest :
  rotation_ok r ->
  rd_rotation (le_bytes 4 (RotX r) ++ le_bytes 4 (RotY r) ++ le_bytes 4 (RotZ r) ++
               le_bytes 4 (RotW r) ++ rest) = Done r rest.
Proof.
  intros (? & ? & ? & ?). unfold rd_rotation, rd_u32. do 4 rd_app. by destruct r.
Qed.

Lemma rd_collider_app c rest :
  collider_ok c ->
  rd_collider (le_bytes 4 (Radius c) ++ le_bytes 4 (Width c) ++ le_bytes 4 (Height c) ++
               le_bytes 4 (Depth c) ++ le_bytes 1 (Layer c) ++ le_bytes 1 (Shape c) ++ rest)
  = Done c rest.
Proof.
  intros (? & ? & ? & ? & ? & Hs). unfold rd_collider, rd_u32, rd_u8, ShapeCount in *.
  do 6 rd_app. unfold pret, validShape, Valid, ShapeCount.
  destruct (Z.ltb_spec (Shape c) 3); [|lia]. by destruct c.
Qed.
End Codec.

(** ** The theorems *)

Section Theorems.
Lemma unmarshal_marshal f r :
  frame_ok f ->
  unmarshal (marshal_session f ++ marshal_body f ++
             concat (marshal_component <$> Components f) ++ r) = Done f r.
Proof.
  intros ((? & ? & ? & ? & ? & Hgw & ? & Hun & Huid) & (? & ? & ? & ? & ? & ? & Hr & Hc & Hcx & Hcy & ?) & Hn & Hcs).
  pose proof (u8_of_nat _ Hgw) as Hgw8. pose proof (u8_of_nat _ Hun) as Hun8.
  pose proof (u16_of_nat _ Hn) as Hn16.
  pose proof (u32_range (CellX f)). pose proof (u32_range (CellY f)).
  pose proof (concat_components_length (Components f)) as Hcc.
  unfold unmarshal, marshal_session, marshal_body, rd_u32, rd_u16, rd_u8, headerSize, postUsernameSize.
  do 7 rd_app. rewrite Nat2Z.id. do 4 rd_app. rewrite Nat2Z.id. do 9 rd_app.
  erewrite pbind_done by (by apply rd_rotation_app).
  erewrite pbind_done by (by apply rd_collider_app).
  do 4 rd_app. erewrite pbind_done by reflexivity.
  destruct (Z.ltb_spec (Z.of_nat (length (concat (marshal_component <$> Components f) ++ r)) / 4)
              (Z.of_nat (length (Components f)))) as [Hlt|_].
  { rewrite length_app in Hlt. exfalso. Z.div_mod_to_equations; lia. }
  rewrite Nat2Z.id. erewrite pbind_done by (by apply rd_components_app).
  unfold pret. rewrite !i32_u32 by done. by destruct f.
Qed.

Lemma marshal_total f :
  frame_ok f ->
  MarshalTransferFrame f =
    Ok (marshal_session f ++ marshal_body f ++ concat (marshal_component <$> Components f)).
Proof.
  intros ((_ & _ & _ & _ & _ & Hgw & _ & Hun & _) & _ & Hn & Hcs). unfold MarshalTransferFrame.
  destruct (Nat.leb_spec (length (GatewayID f)) 255); [|lia].
  destruct (Nat.leb_spec (length (Username f)) 255); [|lia].
  destruct (Z.leb_spec (Z.of_nat (length (Components f))) 65535); [|lia].
  replace (forallb _ (Components f)) with true; [done|].
  symmetry. apply List.forallb_forall. intros c Hc%list_elem_of_In.
  apply Z.leb_le, (proj1 (Forall_forall _ _) Hcs c Hc).
Qed.

Lemma wp_components n d :
  Forall is_byte d ->
  wp (rd_components n) (fun cs _ => length cs = n /\ Forall component_ok cs) d.
Proof.
  revert d. induction n as [|n IH]; intros d Hd; cbn [rd_components].
  - apply wp_pret. by split.
  - unfold rd_u16. do 10 rd_step.
    apply wp_bind. eapply wp_mono; [by apply IH|]. intros cs r' [<- Hcs].
    apply wp_pret. split; [done|]. constructor; [|done]. unfold component_ok, in_u16; simpl.
    change (256 ^ Z.of_nat 2) with (2 ^ 16) in *.
    split; [done|split; [done|lia]].
Qed.

Lemma wp_rotation d (Q : Rotation -> bytes -> Prop) :
  Forall is_byte d -> (16 <= length d)%nat ->
  (forall c r, rotation_ok c -> Forall is_byte r -> (length r + 16 = length d)%nat -> Q c r) ->
  wp rd_rotation Q d.
Proof.
  intros Hd Hn HQ. unfold rd_rotation, rd_u32. do 9 rd_step.
  apply HQ; [by split_and! | done | lia].
Qed.

Lemma validShape_ok b : 0 <= b -> 0 <= validShape b < ShapeCount.
Proof. unfold validShape, Valid, ShapeCount, ShapeSphere. destruct (Z.ltb_spec b 3); lia. Qed.

Lemma wp_collider d (Q : Collider -> bytes -> Prop) :
  Forall is_byte d -> (18 <= length d)%nat ->
  (forall c r, collider_ok c -> Forall is_byte r -> (length r + 18 = length d)%nat -> Q c r) ->
  wp rd_collider Q d.
Proof.
  intros Hd Hn HQ. unfold rd_collider, rd_u32, rd_u8. do 13 rd_step.
  apply HQ; [|done|lia]. unfold collider_ok; simpl. split_and!; try done.
  all: by apply validShape_ok; lia.
Qed.

Lemma wp_unmarshal d : Forall is_byte d -> wp unmarshal (fun f _ => frame_ok f) d.
Proof.
  intros Hd. unfold unmarshal, rd_u32, rd_u16, rd_u8, headerSize, postUsernameSize.
  do 40 rd_step.
  apply wp_bind, wp_rotation; [done|lia|]. intros rot rr Hrot ? ?.
  apply wp_bind, wp_collider; [done|lia|]. intros col rc Hcol ? ?.
  do 10 rd_step.
  match goal with |- wp (if ?b then _ else _) _ _ => destruct b end; [done|].
  apply wp_bind. eapply wp_mono; [by apply wp_components|]. intros cs r' [Hlen Hcs].
  apply wp_pret.
  change (256 ^ Z.of_nat 1) with (2 ^ 8) in *. change (256 ^ Z.of_nat 2) with (2 ^ 16) in *.
  change (256 ^ Z.of_nat 4) with (2 ^ 32) in *.
  split; [|split; [|split]]; [| |simpl; rewrite Hlen; lia|done].
  - unfold session_ok; simpl. split_and!; try done; lia.
  - unfold body_ok; simpl. split_and!; try done; apply i32_range.
Qed.

Lemma peek_marshal_prefix conn gen gwID gwConn name uid a b r :
  length a = 8%nat -> length b = 1%nat ->
  in_u32 conn -> in_u32 gen -> in_u32 gwConn ->
  (length gwID <= 255)%nat -> (length name <= 255)%nat -> length uid = 16%nat ->
  peek (a ++ le_bytes 4 gen ++ b ++ le_bytes 4 conn ++
        le_bytes 1 (Z.of_nat (length gwID)) ++ gwID ++ le_bytes 4 gwConn ++
        le_bytes 1 (Z.of_nat (length name)) ++ name ++ uid ++ r)
  = if conn =? 0
    then Done noPlayer (le_bytes 1 (Z.of_nat (length gwID)) ++ gwID ++ le_bytes 4 gwConn ++
                        le_bytes 1 (Z.of_nat (length name)) ++ name ++ uid ++ r)
    else Done (mkPlayer conn gen gwID gwConn name uid) r.
Proof.
  intros Ha Hb Hconn Hgen Hgc Hg Hn Hu. unfold peek, rd_u32, rd_u8.
  pose proof (u8_of_nat _ Hg). pose proof (u8_of_nat _ Hn).
  erewrite pbind_done by reflexivity.
  destruct (Nat.ltb_spec (length (a ++ le_bytes 4 gen ++ b ++ le_bytes 4 conn ++
        le_bytes 1 (Z.of_nat (length gwID)) ++ gwID ++ le_bytes 4 gwConn ++
        le_bytes 1 (Z.of_nat (length name)) ++ name ++ uid ++ r)) (8 + 4 + 1 + 4 + 1 + 4 + 1))
    as [Hlt|_]; [exfalso; revert Hlt; autorewrite with go_len; lia|].
  do 4 rd_app. destruct (conn =? 0); [done|]. rd_app. rewrite !Nat2Z.id.
  erewrite pbind_done by reflexivity.
  rewrite (proj2 (Nat.ltb_ge _ _)) by len_tac. do 3 rd_app. rewrite !Nat2Z.id.
  erewrite pbind_done by reflexivity.
  rewrite (proj2 (Nat.ltb_ge _ _)) by len_tac. by do 2 rd_app.
Qed.

Lemma peek_marshal f r :
  session_ok f ->
  match peek (marshal_session f ++ r) with Done p _ => p = player_of f | _ => False end.
Proof.
  intros (? & ? & ? & ? & ? & ? & ? & ? & ?). unfold marshal_session.
  rewrite <- !app_assoc, (app_assoc (le_bytes 4 (NetworkID f))).
  rewrite peek_marshal_prefix by (done || len_tac).
  unfold player_of. by destruct (ConnID f =? 0).
Qed.

(** A successful read of the prefix names the bytes it consumed: the buffer is
    the session prefix of the decoded frame followed by the rest. *)
Lemma le_bytes_of_val l n : Forall is_byte l -> length l = n -> le_bytes n (le_val l) = l.
Proof. intros ? <-. by apply le_bytes_val. Qed.

Lemma unmarshal_prefix d f r :
  Forall is_byte d -> unmarshal d = Done f r ->
  exists tail, d = marshal_session f ++ tail.
Proof.
  intros Hd Hu. unfold unmarshal in Hu.
  apply pbind_inv in Hu as (_ & ? & [-> _]%need_done & Hu).
  do 6 (apply pbind_inv in Hu as (? & ? & (? & -> & ? & ->)%rd_uint_done & Hu)).
  apply pbind_inv in Hu as (_ & ? & [-> _]%need_done & Hu).
  apply pbind_inv in Hu as (? & ? & (-> & ?)%rd_bytes_done & Hu).
  do 2 (apply pbind_inv in Hu as (? & ? & (? & -> & ? & ->)%rd_uint_done & Hu)).
  apply pbind_inv in Hu as (_ & ? & [-> _]%need_done & Hu).
  do 2 (apply pbind_inv in Hu as (? & ? & (-> & ?)%rd_bytes_done & Hu)).
  do 6 (apply pbind_inv in Hu as (? & ? & _ & Hu)).
  do 2 (apply pbind_inv in Hu as (? & ? & _ & Hu)).
  do 5 (apply pbind_inv in Hu as (? & ? & _ & Hu)).
  match goal with H : (if ?b then _ else _) _ = _ |- _ => destruct b; [done|] end.
  apply pbind_inv in Hu as (? & ? & _ & Hu). unfold pret in Hu.
  rewrite !Forall_app in Hd. destruct_and! Hd.
  injection Hu as <- _. unfold marshal_session. cbn [NetworkID Epoch StreamGeneration EntityType
    ConnID GatewayID GatewayConnID Username UserID].
  repeat match goal with H : length ?l = Z.to_nat (le_val ?k) |- _ =>
    assert (Z.of_nat (length l) = le_val k) as ->
      by (pose proof (le_val_range k ltac:(done)); lia); clear H end.
  rewrite !le_bytes_of_val by done. eexists. rewrite <- !app_assoc. reflexivity.
Qed.
End Theorems.

Section Peek.
Lemma wp_peek d : Forall is_byte d -> wp peek (fun _ _ => True) d.
Proof.
  intros Hd. unfold peek, rd_u32, rd_u8. do 2 rd_step.
  match goal with |- wp (if (?a <? ?b)%nat then _ else _) _ _ => destruct (Nat.ltb_spec a b) end; [done|].
  do 8 rd_step.
  match goal with |- wp (if ?b then _ else _) _ _ => destruct b end; [done|].
  do 4 rd_step.
  match goal with |- wp (if (?a <? ?b)%nat then _ else _) _ _ => destruct (Nat.ltb_spec a b) end; [done|].
  do 8 rd_step.
  match goal with |- wp (if (?a <? ?b)%nat then _ else _) _ _ => destruct (Nat.ltb_spec a b) end; [done|].
  by do 5 rd_step.
Qed.

(** The prefix reader has no error return: it yields zero values instead. *)
Definition nofail {A} (p : parser A) : Prop := forall d e, p d <> Fail e.

Lemma nofail_bind {A B} (p : parser A) (k : A -> parser B) :
  nofail p -> (forall a, nofail (k a)) -> nofail (pbind p k).
Proof. intros Hp Hk d e. unfold pbind. destruct (p d) eqn:E; [apply Hk | by edestruct Hp | done]. Qed.

Lemma nofail_rd_bytes n : nofail (rd_bytes n).
Proof. intros d e. unfold rd_bytes. by case_match. Qed.

Lemma nofail_pret {A} (a : A) : nofail (pret a).
Proof. done. Qed.

Lemma nofail_remaining : nofail remaining.
Proof. done. Qed.

Lemma nofail_peek : nofail peek.
Proof.
  unfold peek, rd_u32, rd_u8, rd_uint.
  repeat first [ apply nofail_pret | apply nofail_remaining | apply nofail_rd_bytes
               | apply nofail_bind; intros | case_match ].
Qed.
End Peek.

(** Encoding then decoding an entity gives it back: every frame whose fields
    are in their Go ranges is marshalled into a buffer of exactly the size the
    source allocates, and reading that buffer, whatever follows it, returns the
    same frame and stops where the frame ends. *)
Theorem transfer_roundtrip f :
  frame_ok f ->
  exists buf, MarshalTransferFrame f = Ok buf /\ length buf = marshal_size f /\
    forall r, UnmarshalTransferFrame (buf ++ r) = Done f r.
Proof.
  intros Hf. eexists. split; [by apply marshal_total|]. split.
  - apply marshal_length; [apply Hf|]. by apply marshal_total.
  - intros r. unfold UnmarshalTransferFrame. rewrite <- !app_assoc. by apply unmarshal_marshal.
Qed.

(** A player frame with one game component, used to exercise the theorems. *)
Definition sample_frame : TransferFrame :=
  mkFrame 7 3 2 1 9 [103; 119] 42 [98; 111; 98] (replicate 16 5)
    1 2 3 4 5 6 (mkRotation 0 0 0 1065353216) (mkCollider 1 2 3 4 1 2)
    (-3) 4 8 [mkComponent 300 [1; 2; 3]].

Lemma sample_frame_ok : frame_ok sample_frame.
Proof.
  unfold frame_ok, session_ok, body_ok, rotation_ok, collider_ok, ShapeCount. unfold_int. simpl.
  split_and!; try lia. repeat constructor; unfold_int; simpl; unfold is_byte; lia.
Qed.

Lemma transfer_roundtrip_witness :
  exists buf, MarshalTransferFrame sample_frame = Ok buf /\
    length buf = marshal_size sample_frame /\
    forall r, UnmarshalTransferFrame (buf ++ r) = Done sample_frame r.
Proof.
  apply (transfer_roundtrip sample_frame). exact sample_frame_ok.
Defined.

(** Decoding peer-supplied bytes never reads out of bounds, whatever the
    bytes are, and what it accepts is a frame with every field in range, a shape
    this build implements and no more than 65535 components. *)
Theorem unmarshal_safe d :
  Forall is_byte d ->
  UnmarshalTransferFrame d <> Panic /\
  forall f r, UnmarshalTransferFrame d = Done f r -> frame_ok f.
Proof.
  intros Hd%wp_unmarshal. unfold UnmarshalTransferFrame. unfold wp in Hd.
  destruct (unmarshal d); naive_solver.
Qed.

Lemma unmarshal_safe_witness :
  UnmarshalTransferFrame (replicate 300 255) <> Panic /\
  forall f r, UnmarshalTransferFrame (replicate 300 255) = Done f r -> frame_ok f.
Proof.
  apply (unmarshal_safe (replicate 300 255)). apply Forall_replicate. unfold is_byte. lia.
Defined.

(** The fast path that reads only the session prefix never panics, and on
    every buffer the full decoder accepts it returns the session fields of the
    decoded frame (the zero values for a frame without a connection). *)
Theorem peek_agrees_with_unmarshal d :
  Forall is_byte d ->
  is_Some (PeekTransferPlayer d) /\
  forall f r, UnmarshalTransferFrame d = Done f r -> PeekTransferPlayer d = Some (player_of f).
Proof.
  intros Hd. unfold PeekTransferPlayer. split.
  - pose proof (wp_peek d Hd) as Hp. unfold wp in Hp.
    destruct (peek d) eqn:E; [eauto | by edestruct nofail_peek | done].
  - intros f r Hu. pose proof (wp_unmarshal d Hd) as Hw. unfold wp in Hw.
    unfold UnmarshalTransferFrame in Hu. rewrite Hu in Hw.
    destruct (unmarshal_prefix d f r Hd Hu) as [tail ->].
    pose proof (peek_marshal f tail (proj1 Hw)) as Hp.
    destruct (peek (marshal_session f ++ tail)); [by subst|done..].
Qed.

Definition sample_bytes : bytes :=
  match MarshalTransferFrame sample_frame with Ok b => b | Err _ => [] end.

Lemma peek_agrees_with_unmarshal_witness :
  is_Some (PeekTransferPlayer sample_bytes) /\
  forall f r, UnmarshalTransferFrame sample_bytes = Done f r ->
    PeekTransferPlayer sample_bytes = Some (player_of f).
Proof.
  apply (peek_agrees_with_unmarshal sample_bytes).
  vm_compute. repeat constructor; intros; discriminate.
Defined.
