(* ===== verification/OrderBook.v ===== *)
(** * The order matching engine (pkg/orderbook)

    A [Service] keeps, per (location, item), a book of resting sell and buy
    orders, and an index of every resting order by id.  Books and index hold
    pointers to the same [Order] objects and a match decrements the quantity in
    place, so orders live in a heap addressed by location; the clock readings of
    [time.Now().Unix()] are arguments. *)

From S2P Require Import Prelude.

(** ** Data (types.go, config.go) *)

Inductive OrderSide := SideSell | SideBuy.
#[export] Instance OrderSide_eq_dec : EqDecision OrderSide.
Proof. solve_decision. Defined.

Record Order := mkOrder {
  ID : Z; Side : OrderSide; Owner : string; LocationID : Z; ItemID : Z;
  Price : Z; Quantity : Z; OrigQty : Z; CreatedAt : Z; ExpiresAt : Z
}.
#[export] Instance Order_eq_dec : EqDecision Order.
Proof. solve_decision. Defined.

Record PriceLevel := mkLevel { lvl_Price : Z; lvl_Quantity : Z; lvl_Count : Z }.

Record OrderBookView := mkView {
  view_ItemID : Z; SellLevels : list PriceLevel; BuyLevels : list PriceLevel
}.

(** The pair (LocationID, ItemID). *)
Definition BookKey : Type := Z * Z.

#[export] Instance BookKey_eq_dec : EqDecision BookKey := prod_eq_dec.
#[export] Instance BookKey_countable : Countable BookKey := prod_countable.

(** [TaxPct] is the bit pattern of the float64; the service never reads it. *)
Record Config := mkConfig { TaxPct : Z; OrderExpiry : Z; MinPrice : Z; MaxOrders : Z }.

Definition DefaultConfig : Config := mkConfig 0x3F947AE147AE147B 604800 1 50.

Record MatchEvent := mkMatch {
  BuyOrderID : Z; SellOrderID : Z; BuyerID : string; SellerID : string;
  m_ItemID : Z; m_LocationID : Z; m_Quantity : Z; m_Price : Z
}.

(** A pointer to an order. *)
Abbreviation ptr := Z.

Record OrderBook := mkBook { Sells : list ptr; Buys : list ptr }.

Record Service := mkService {
  heap : gmap ptr Order;
  nextPtr : ptr;
  books : gmap BookKey OrderBook;
  orders : gmap Z ptr;
  cfg : Config;
  nextID : Z
}.

Inductive OrderError :=
| ErrBelowMinimum | ErrQuantity | ErrMaxOrders | ErrNotFound | ErrWrongPlayer.

(** Every pointer of the program points to an order; the default is never read. *)
Definition nilOrder : Order := mkOrder 0 SideSell "" 0 0 0 0 0 0 0.
Definition deref (h : gmap ptr Order) (l : ptr) : Order := default nilOrder (h !! l).

Definition set_qty (o : Order) (q : Z) : Order :=
  mkOrder (ID o) (Side o) (Owner o) (LocationID o) (ItemID o) (Price o) q (OrigQty o)
          (CreatedAt o) (ExpiresAt o).

Definition key_of (o : Order) : BookKey := (LocationID o, ItemID o).

(** ** The book (book.go) *)

(** Go's [sort.Search]: the loop halves [i, j) until it is empty; [fuel] bounds
    the number of halvings, [n] is always enough. *)
Fixpoint search_loop (fuel : nat) (f : nat -> bool) (i j : nat) : nat :=
  match fuel with
  | O => i
  | S fuel =>
      if (i <? j)%nat then
        let h := ((i + j) / 2)%nat in
        if f h then search_loop fuel f i h else search_loop fuel f (S h) j
      else i
  end.

Definition search (n : nat) (f : nat -> bool) : nat := search_loop n f 0 n.

Definition insert_at {A} (i : nat) (x : A) (l : list A) : list A := take i l ++ x :: drop i l.

(** The predicates passed to [sort.Search]: does [p] come after the new [o]? *)
Definition after_sell (o p : Order) : bool :=
  if Price p =? Price o then CreatedAt o <? CreatedAt p else Price o <? Price p.
Definition after_buy (o p : Order) : bool :=
  if Price p =? Price o then CreatedAt o <? CreatedAt p else Price p <? Price o.

Definition InsertSell (h : gmap ptr Order) (ob : OrderBook) (o : ptr) : OrderBook :=
  let i := search (length (Sells ob))
             (fun i => after_sell (deref h o) (deref h (nth i (Sells ob) 0))) in
  mkBook (insert_at i o (Sells ob)) (Buys ob).

Definition InsertBuy (h : gmap ptr Order) (ob : OrderBook) (o : ptr) : OrderBook :=
  let i := search (length (Buys ob))
             (fun i => after_buy (deref h o) (deref h (nth i (Buys ob) 0))) in
  mkBook (Sells ob) (insert_at i o (Buys ob)).

Fixpoint remove_first (h : gmap ptr Order) (orderID : Z) (l : list ptr)
  : option (ptr * list ptr) :=
  match l with
  | [] => None
  | p :: l =>
      if ID (deref h p) =? orderID then Some (p, l)
      else match remove_first h orderID l with
           | Some (q, l') => Some (q, p :: l')
           | None => None
           end
  end.

Definition RemoveOrder (h : gmap ptr Order) (ob : OrderBook) (orderID : Z)
  : OrderBook * option ptr :=
  match remove_first h orderID (Sells ob) with
  | Some (p, l) => (mkBook l (Buys ob), Some p)
  | None =>
      match remove_first h orderID (Buys ob) with
      | Some (p, l) => (mkBook (Sells ob) l, Some p)
      | None => (ob, None)
      end
  end.

(** The loop of [aggregateLevels] after its first statement. *)
Fixpoint aggregate_loop (h : gmap ptr Order) (maxLevels : Z) (l : list ptr)
  (levels : list PriceLevel) (cur : PriceLevel) : list PriceLevel :=
  match l with
  | [] => levels ++ [cur]
  | p :: l =>
      let o := deref h p in
      let bump c := mkLevel (lvl_Price c) (i32 (lvl_Quantity c + Quantity o)) (lvl_Count c + 1) in
      if negb (Price o =? lvl_Price cur) then
        let levels := levels ++ [cur] in
        if (0 <? maxLevels) && (maxLevels <=? Z.of_nat (length levels)) then levels
        else aggregate_loop h maxLevels l levels (bump (mkLevel (Price o) 0 0))
      else aggregate_loop h maxLevels l levels (bump cur)
  end.

Definition aggregateLevels (h : gmap ptr Order) (l : list ptr) (maxLevels : Z) : list PriceLevel :=
  match l with
  | [] => []
  | p :: _ => aggregate_loop h maxLevels l [] (mkLevel (Price (deref h p)) 0 0)
  end.

Definition AggregateSells (h : gmap ptr Order) (ob : OrderBook) (maxLevels : Z) :=
  aggregateLevels h (Sells ob) maxLevels.
Definition AggregateBuys (h : gmap ptr Order) (ob : OrderBook) (maxLevels : Z) :=
  aggregateLevels h (Buys ob) maxLevels.

(** ** The service (service.go) *)

Definition NewService (c : Config) : Service := mkService ∅ 1 ∅ ∅ c 1.

Definition SetNextID (s : Service) (id : Z) : Service :=
  mkService (heap s) (nextPtr s) (books s) (orders s) (cfg s) id.

Definition NextID (s : Service) : Z := nextID s.

Definition allocID (s : Service) : Service * Z :=
  (SetNextID s (u64 (nextID s + 1)), nextID s).

Definition AllocID (s : Service) : Service * Z := allocID s.

Definition emptyBook : OrderBook := mkBook [] [].

Definition set_book (s : Service) (k : BookKey) (ob : OrderBook) : Service :=
  mkService (heap s) (nextPtr s) (<[k := ob]> (books s)) (orders s) (cfg s) (nextID s).

Definition set_orders (s : Service) (m : gmap Z ptr) : Service :=
  mkService (heap s) (nextPtr s) (books s) m (cfg s) (nextID s).

Definition GetBook (s : Service) (locationID itemID : Z) : Service * OrderBook :=
  match books s !! (locationID, itemID) with
  | Some ob => (s, ob)
  | None => (set_book s (locationID, itemID) emptyBook, emptyBook)
  end.

Definition PlayerOrders (s : Service) (playerID : string) : list ptr :=
  filter (fun p => Owner (deref (heap s) p) = playerID) ((map_to_list (orders s)).*2).

Definition OrderCount (s : Service) (playerID : string) : Z :=
  Z.of_nat (length (PlayerOrders s playerID)).

Definition GetOrder (s : Service) (orderID : Z) : option ptr := orders s !! orderID.

(** What a matching loop carries: the heap and index it mutates, the side of
    the book already walked ([ob.Buys[:i]], reversed order of visit kept), what
    is left to fill and the events so far. *)
Record MatchState := mkMS {
  ms_heap : gmap ptr Order;
  ms_orders : gmap Z ptr;
  ms_kept : list ptr;
  ms_remaining : Z;
  ms_cost : Z;
  ms_matches : list MatchEvent
}.

(** One fill of [tradeQty] against the order at [ob[i]] whose tail is [rest]:
    the event, the two decrements, and removal or [i++]. *)
Definition fill (event : Order -> Z -> MatchEvent) (st : MatchState) (p : ptr) (tradeQty cost : Z)
  : MatchState :=
  let o := deref (ms_heap st) p in
  let o' := set_qty o (i32 (Quantity o - tradeQty)) in
  let h' := <[p := o']> (ms_heap st) in
  let rem' := i32 (ms_remaining st - tradeQty) in
  let ms' := ms_matches st ++ [event o tradeQty] in
  if Quantity o' <=? 0
  then mkMS h' (delete (ID o) (ms_orders st)) (ms_kept st) rem' cost ms'
  else mkMS h' (ms_orders st) (ms_kept st ++ [p]) rem' cost ms'.

(** The loop [for i < len(side) && remaining > 0]; [rest] is [side[i:]], [stop]
    the price test that breaks.  The result's second component is the side after
    the loop. *)
Fixpoint match_loop (stop : Order -> bool) (event : Order -> Z -> MatchEvent)
  (st : MatchState) (rest : list ptr) : MatchState * list ptr :=
  match rest with
  | [] => (st, ms_kept st)
  | p :: tail =>
      if 0 <? ms_remaining st then
        let o := deref (ms_heap st) p in
        if stop o then (st, ms_kept st ++ rest)
        else
          let tradeQty := if Quantity o <? ms_remaining st then Quantity o else ms_remaining st in
          match_loop stop event (fill event st p tradeQty (ms_cost st)) tail
      else (st, ms_kept st ++ rest)
  end.

Definition match_start (s : Service) (qty : Z) : MatchState :=
  mkMS (heap s) (orders s) [] qty 0 [].

(** The events of an incoming sell (against buys) and of an incoming buy. *)
Definition sell_event (sellerID : string) (locationID itemID : Z) (buy : Order) (q : Z) : MatchEvent :=
  mkMatch (ID buy) 0 (Owner buy) sellerID itemID locationID q (Price buy).
Definition buy_event (buyerID : string) (locationID itemID : Z) (sell : Order) (q : Z) : MatchEvent :=
  mkMatch 0 (ID sell) buyerID (Owner sell) itemID locationID q (Price sell).

(** Write back a matching loop that walked the buys (resp. sells) of [ob]. *)
Definition commit_buys (s : Service) (k : BookKey) (ob : OrderBook) (r : MatchState * list ptr) : Service :=
  mkService (ms_heap r.1) (nextPtr s) (<[k := mkBook (Sells ob) r.2]> (books s))
            (ms_orders r.1) (cfg s) (nextID s).
Definition commit_sells (s : Service) (k : BookKey) (ob : OrderBook) (r : MatchState * list ptr) : Service :=
  mkService (ms_heap r.1) (nextPtr s) (<[k := mkBook r.2 (Buys ob)]> (books s))
            (ms_orders r.1) (cfg s) (nextID s).

(** [&Order{...}]: a fresh heap cell. *)
Definition new_order (s : Service) (o : Order) : Service * ptr :=
  (mkService (<[nextPtr s := o]> (heap s)) (nextPtr s + 1) (books s) (orders s) (cfg s) (nextID s),
   nextPtr s).

(** The resting part of the two Place functions, and the two insertions. *)
Definition rest_order (s : Service) (side : OrderSide) (owner : string) (k : BookKey)
  (price remaining qty now now' : Z) : Service * option ptr :=
  if 0 <? remaining then
    let '(s, id) := allocID s in
    let '(s, p) := new_order s (mkOrder id side owner k.1 k.2 price remaining qty now
                                  (i64 (now' + OrderExpiry (cfg s)))) in
    let '(s, ob) := GetBook s k.1 k.2 in
    let ob := match side with
              | SideSell => InsertSell (heap s) ob p
              | SideBuy => InsertBuy (heap s) ob p
              end in
    (set_orders (set_book s k ob) (<[id := p]> (orders s)), Some p)
  else (s, None).

Definition PlaceSellOrder (now now' : Z) (s : Service) (sellerID : string)
  (locationID itemID price qty : Z)
  : result OrderError (Service * list MatchEvent * option ptr) :=
  if price <? MinPrice (cfg s) then Err ErrBelowMinimum else
  if qty <=? 0 then Err ErrQuantity else
  if MaxOrders (cfg s) <=? OrderCount s sellerID then Err ErrMaxOrders else
  let '(s, ob) := GetBook s locationID itemID in
  let r := match_loop (fun buy => Price buy <? price) (sell_event sellerID locationID itemID)
             (match_start s qty) (Buys ob) in
  let s := commit_buys s (locationID, itemID) ob r in
  let '(s, resting) := rest_order s SideSell sellerID (locationID, itemID) price
                         (ms_remaining r.1) qty now now' in
  Ok (s, ms_matches r.1, resting).

Definition PlaceBuyOrder (now now' : Z) (s : Service) (buyerID : string)
  (locationID itemID price qty : Z)
  : result OrderError (Service * list MatchEvent * option ptr) :=
  if price <? MinPrice (cfg s) then Err ErrBelowMinimum else
  if qty <=? 0 then Err ErrQuantity else
  if MaxOrders (cfg s) <=? OrderCount s buyerID then Err ErrMaxOrders else
  let '(s, ob) := GetBook s locationID itemID in
  let r := match_loop (fun sell => price <? Price sell) (buy_event buyerID locationID itemID)
             (match_start s qty) (Sells ob) in
  let s := commit_sells s (locationID, itemID) ob r in
  let '(s, resting) := rest_order s SideBuy buyerID (locationID, itemID) price
                         (ms_remaining r.1) qty now now' in
  Ok (s, ms_matches r.1, resting).

Definition InstantSell (s : Service) (sellerID : string) (locationID itemID qty : Z)
  : result OrderError (Service * list MatchEvent) :=
  if qty <=? 0 then Err ErrQuantity else
  let '(s, ob) := GetBook s locationID itemID in
  let r := match_loop (fun _ => false) (sell_event sellerID locationID itemID)
             (match_start s qty) (Buys ob) in
  Ok (commit_buys s (locationID, itemID) ob r, ms_matches r.1).

(** The budget test of [InstantBuy]: the quantity to trade and the running cost
    after it, or [None] for [break].  The division truncates; the price it
    divides by is positive in every book whose minimum price is. *)
Definition budget (maxCost totalCost price tradeQty : Z) : option (Z * Z) :=
  if 0 <? maxCost then
    let tradeCost := i64 (price * tradeQty) in
    if maxCost <? i64 (totalCost + tradeCost) then
      let affordable := i64 (maxCost - totalCost) in
      if affordable <=? 0 then None else
      let tradeQty := i32 (Z.quot affordable price) in
      if tradeQty <=? 0 then None else
      Some (tradeQty, i64 (totalCost + i64 (price * tradeQty)))
    else Some (tradeQty, i64 (totalCost + tradeCost))
  else Some (tradeQty, totalCost).

Fixpoint instant_buy_loop (maxCost : Z) (event : Order -> Z -> MatchEvent)
  (st : MatchState) (rest : list ptr) : MatchState * list ptr :=
  match rest with
  | [] => (st, ms_kept st)
  | p :: tail =>
      if 0 <? ms_remaining st then
        let o := deref (ms_heap st) p in
        let tradeQty := if Quantity o <? ms_remaining st then Quantity o else ms_remaining st in
        match budget maxCost (ms_cost st) (Price o) tradeQty with
        | None => (st, ms_kept st ++ rest)
        | Some (tradeQty, cost) =>
            instant_buy_loop maxCost event (fill event st p tradeQty cost) tail
        end
      else (st, ms_kept st ++ rest)
  end.

Definition InstantBuy (s : Service) (buyerID : string) (locationID itemID qty maxCost : Z)
  : result OrderError (Service * list MatchEvent) :=
  if qty <=? 0 then Err ErrQuantity else
  let '(s, ob) := GetBook s locationID itemID in
  let r := instant_buy_loop maxCost (buy_event buyerID locationID itemID)
             (match_start s qty) (Sells ob) in
  Ok (commit_sells s (locationID, itemID) ob r, ms_matches r.1).

(** Take an order out of its book and out of the index. *)
Definition remove_order (s : Service) (id : Z) (o : Order) : Service :=
  let s := match books s !! key_of o with
           | Some ob => set_book s (key_of o) (RemoveOrder (heap s) ob id).1
           | None => s
           end in
  set_orders s (delete id (orders s)).

Definition CancelOrder (s : Service) (playerID : string) (orderID : Z)
  : result OrderError (Service * ptr) :=
  match orders s !! orderID with
  | None => Err ErrNotFound
  | Some p =>
      let o := deref (heap s) p in
      if negb (String.eqb (Owner o) playerID) then Err ErrWrongPlayer
      else Ok (remove_order s orderID o, p)
  end.

Definition expired (now : Z) (o : Order) : bool := (0 <? ExpiresAt o) && (ExpiresAt o <=? now).

(** One iteration of the loop over the index. *)
Definition expire_step (now : Z) (acc : Service * list ptr) (e : Z * ptr) : Service * list ptr :=
  let o := deref (heap acc.1) e.2 in
  if expired now o then (remove_order acc.1 e.1 o, acc.2 ++ [e.2]) else acc.

(** The source ranges over the index in an unspecified order: [l] is that order. *)
Definition ExpireOrders_in (l : list (Z * ptr)) (now : Z) (s : Service) : Service * list ptr :=
  foldl (expire_step now) (s, []) l.
Definition ExpireOrders (now : Z) (s : Service) : Service * list ptr :=
  ExpireOrders_in (map_to_list (orders s)) now s.

Definition Browse (s : Service) (locationID itemID : Z) : Service * OrderBookView :=
  let '(s, ob) := GetBook s locationID itemID in
  (s, mkView itemID (AggregateSells (heap s) ob 20) (AggregateBuys (heap s) ob 20)).

Definition InsertLoadedOrder (s : Service) (order : Order) : Service :=
  let '(s, p) := new_order s order in
  let s := set_orders s (<[ID order := p]> (orders s)) in
  let '(s, ob) := GetBook s (LocationID order) (ItemID order) in
  let ob := match Side order with
            | SideSell => InsertSell (heap s) ob p
            | SideBuy => InsertBuy (heap s) ob p
            end in
  set_book s (key_of order) ob.

(** ** The specification *)

(** The two sides of a book, handled alike. *)
Definition side_list (sd : OrderSide) (ob : OrderBook) : list ptr :=
  match sd with SideSell => Sells ob | SideBuy => Buys ob end.
Definition set_side (sd : OrderSide) (ob : OrderBook) (l : list ptr) : OrderBook :=
  match sd with SideSell => mkBook l (Buys ob) | SideBuy => mkBook (Sells ob) l end.
Definition after (sd : OrderSide) : Order -> Order -> bool :=
  match sd with SideSell => after_sell | SideBuy => after_buy end.
Definition Insert (sd : OrderSide) (h : gmap ptr Order) (ob : OrderBook) (p : ptr) : OrderBook :=
  match sd with SideSell => InsertSell h ob p | SideBuy => InsertBuy h ob p end.

(** [q] may stand behind [p]: its price is no better and, at equal prices, it is
    no older. *)
Definition before (sd : OrderSide) (h : gmap ptr Order) (p q : ptr) : Prop :=
  after sd (deref h q) (deref h p) = false.

Definition in_qty (q : Z) : Prop := 0 < q < 2 ^ 31.
Definition in_price (q : Z) : Prop := 0 < q < 2 ^ 63.

(** A pointer listed on side [sd] of book [k]. *)
Definition listed (h : gmap ptr Order) (om : gmap Z ptr) (k : BookKey) (sd : OrderSide) (p : ptr) : Prop :=
  exists o, h !! p = Some o /\ key_of o = k /\ Side o = sd /\ om !! ID o = Some p /\
    in_qty (Quantity o) /\ in_price (Price o).

Record wf (s : Service) : Prop := mkWf {
  wf_heap : forall p o, heap s !! p = Some o -> p < nextPtr s;
  wf_index : forall id p, orders s !! id = Some p ->
    exists o ob, heap s !! p = Some o /\ ID o = id /\
      books s !! key_of o = Some ob /\ p ∈ side_list (Side o) ob;
  wf_listed : forall k ob sd p, books s !! k = Some ob -> p ∈ side_list sd ob ->
    listed (heap s) (orders s) k sd p;
  wf_sorted : forall k ob sd, books s !! k = Some ob ->
    StronglySorted (before sd (heap s)) (side_list sd ob);
  wf_nodup : forall k ob sd, books s !! k = Some ob -> NoDup (side_list sd ob);
  wf_id : forall id p, orders s !! id = Some p -> 0 <= id < nextID s;
  wf_cfg : 0 < MinPrice (cfg s) /\ 0 <= nextID s
}.

(** No resting buy would pay what a resting sell of the same book asks. *)
Definition uncrossed (s : Service) : Prop :=
  forall k ob b a, books s !! k = Some ob -> b ∈ Buys ob -> a ∈ Sells ob ->
    Price (deref (heap s) b) < Price (deref (heap s) a).

Definition sum_Z (l : list Z) : Z := foldr Z.add 0 l.
Definition traded (ms : list MatchEvent) : Z := sum_Z (m_Quantity <$> ms).
Definition spent (ms : list MatchEvent) : Z := sum_Z ((fun m => m_Price m * m_Quantity m) <$> ms).
Definition volume (h : gmap ptr Order) (l : list ptr) : Z :=
  sum_Z ((fun p => Quantity (deref h p)) <$> l).

(** Matching by the book, with no heap and unbounded integers: fill the orders
    in the order they stand until the quantity is used up or [stop] holds. *)
Fixpoint ref_match (stop : Order -> bool) (qty : Z) (l : list Order)
  : list (Order * Z) * list Order * Z :=
  match l with
  | [] => ([], [], qty)
  | o :: t =>
      if (qty <=? 0) || stop o then ([], l, qty)
      else
        let q := Z.min qty (Quantity o) in
        let '(fs, t', more) := ref_match stop (qty - q) t in
        ((o, q) :: fs, if Quantity o =? q then t' else set_qty o (Quantity o - q) :: t', more)
  end.

(** The operations that change a running service, as one step.  [InsertLoadedOrder] and
    [SetNextID] are not among them: they fill the service at start-up, before it serves,
    and match nothing. *)
Inductive op_step : Service -> Service -> Prop :=
| op_sell now now' s sellerID loc item price qty s' ms r :
    qty < 2 ^ 31 -> price < 2 ^ 63 -> nextID s + 1 < 2 ^ 64 ->
    PlaceSellOrder now now' s sellerID loc item price qty = Ok (s', ms, r) -> op_step s s'
| op_buy now now' s buyerID loc item price qty s' ms r :
    qty < 2 ^ 31 -> price < 2 ^ 63 -> nextID s + 1 < 2 ^ 64 ->
    PlaceBuyOrder now now' s buyerID loc item price qty = Ok (s', ms, r) -> op_step s s'
| op_instant_sell s sellerID loc item qty s' ms :
    qty < 2 ^ 31 -> InstantSell s sellerID loc item qty = Ok (s', ms) -> op_step s s'
| op_instant_buy s buyerID loc item qty maxCost s' ms :
    qty < 2 ^ 31 -> in_i64 maxCost ->
    InstantBuy s buyerID loc item qty maxCost = Ok (s', ms) -> op_step s s'
| op_cancel s playerID id s' p :
    CancelOrder s playerID id = Ok (s', p) -> op_step s s'
| op_expire now s : op_step s (ExpireOrders now s).1
| op_browse s loc item : op_step s (Browse s loc item).1
| op_alloc s : nextID s + 1 < 2 ^ 64 -> op_step s (AllocID s).1.

(** ** Binary search and insertion *)

Section Search.
Context (f : nat -> bool).

Lemma search_loop_spec fuel i j n :
  (forall a b, a <= b < n -> f a = true -> f b = true)%nat ->
  (j <= n)%nat -> (i <= j)%nat -> (j - i <= fuel)%nat ->
  (forall a, a < i -> f a = false)%nat -> (forall a, j <= a < n -> f a = true)%nat ->
  let r := search_loop fuel f i j in
  (r <= n)%nat /\ (forall a, a < r -> f a = false)%nat /\ (forall a, r <= a < n -> f a = true)%nat.
Proof.
  intros Hm. revert i j. induction fuel as [|fuel IH]; intros i j Hj Hij Hf Hlo Hhi;
    cbn [search_loop]; cbv zeta.
  - replace j with i in Hhi by lia. split; [lia|done].
  - destruct (Nat.ltb_spec i j).
    + assert (i <= (i + j) / 2 < j)%nat.
      { split; [apply Nat.div_le_lower_bound; lia | apply Nat.Div0.div_lt_upper_bound; lia]. }
      destruct (f ((i + j) / 2)%nat) eqn:E; apply IH; try lia; try done.
      * intros a Ha. eapply Hm; [|exact E]. lia.
      * intros a Ha. destruct (f a) eqn:Ea; [|done].
        rewrite <- E. symmetry. eapply Hm; [|exact Ea]. lia.
    + replace j with i in Hhi by lia. split; [lia|done].
Qed.

Lemma search_spec n :
  (forall a b, a <= b < n -> f a = true -> f b = true)%nat ->
  let r := search n f in
  (r <= n)%nat /\ (forall a, a < r -> f a = false)%nat /\ (forall a, r <= a < n -> f a = true)%nat.
Proof. intros Hm. apply search_loop_spec; auto; lia. Qed.
End Search.

Section Insertion.
Context {A : Type} (R : A -> A -> Prop).

Lemma insert_at_perm i x (l : list A) : insert_at i x l ≡ₚ x :: l.
Proof. unfold insert_at. rewrite <- Permutation_middle. by rewrite take_drop. Qed.

Lemma StronglySorted_app_2 l1 l2 :
  StronglySorted R l1 -> StronglySorted R l2 ->
  (forall x y, x ∈ l1 -> y ∈ l2 -> R x y) -> StronglySorted R (l1 ++ l2).
Proof.
  induction 1 as [|x l1 Hs IH Hx]; intros H2 Hc; simpl; [done|]. constructor.
  - apply IH; [done|]. intros. apply Hc; [by constructor|done].
  - apply Forall_app. split; [done|]. apply Forall_forall. intros y Hy.
    apply Hc; [constructor|done].
Qed.

Lemma StronglySorted_app_1 l1 l2 :
  StronglySorted R (l1 ++ l2) ->
  StronglySorted R l1 /\ StronglySorted R l2 /\ (forall x y, x ∈ l1 -> y ∈ l2 -> R x y).
Proof.
  induction l1 as [|x l1 IH]; simpl; intros H.
  - split_and!; [constructor|done|]. intros ? ? []%not_elem_of_nil.
  - inversion H as [|? ? Hs Hf]; subst. apply IH in Hs as (? & ? & Hc).
    apply Forall_app in Hf as [Hf1 Hf2]. split_and!; [by constructor|done|].
    intros y z [->|Hy]%elem_of_cons Hz; [|by apply Hc].
    by eapply Forall_forall in Hf2.
Qed.

Lemma StronglySorted_sublist l1 l2 :
  l1 `sublist_of` l2 -> StronglySorted R l2 -> StronglySorted R l1.
Proof.
  induction 1 as [|x l1 l2 Hs IH|x l1 l2 Hs IH]; intros H; [done| |];
    inversion H; subst; [|auto].
  constructor; [auto|]. apply Forall_forall. intros y Hy.
  eapply Forall_forall; [done|]. by eapply elem_of_sublist.
Qed.

Lemma insert_at_sorted i x (l : list A) :
  (i <= length l)%nat -> StronglySorted R l ->
  (forall y, y ∈ take i l -> R y x) -> (forall y, y ∈ drop i l -> R x y) ->
  StronglySorted R (insert_at i x l).
Proof.
  intros Hi Hs Hl Hr. unfold insert_at. rewrite <- (take_drop i l) in Hs.
  apply StronglySorted_app_1 in Hs as (H1 & H2 & Hc).
  apply StronglySorted_app_2; [done| |].
  - constructor; [done|]. by apply Forall_forall.
  - intros y z Hy [->|Hz]%elem_of_cons; auto.
Qed.
End Insertion.

Lemma StronglySorted_ext {A} (R R' : A -> A -> Prop) l :
  (forall x y, R x y -> R' x y) -> StronglySorted R l -> StronglySorted R' l.
Proof.
  intros HR. induction 1 as [|x l Hs IH Hx]; constructor; [done|].
  eapply Forall_impl; [exact Hx|]. auto.
Qed.

(** ** Insertion into a side is stable insertion *)

Section SideOrder.
Context (sd : OrderSide).

(** An order that comes after [o] is followed only by orders that come after [o]. *)
Lemma after_mono o p q : after sd o p = true -> after sd q p = false -> after sd o q = true.
Proof.
  destruct sd; simpl; unfold after_sell, after_buy;
    repeat match goal with |- context [?a =? ?b] => destruct (Z.eqb_spec a b) end; lia.
Qed.

Lemma after_asym o p : after sd o p = true -> after sd p o = false.
Proof.
  destruct sd; simpl; unfold after_sell, after_buy;
    repeat match goal with |- context [?a =? ?b] => destruct (Z.eqb_spec a b) end; lia.
Qed.
End SideOrder.

Section InsertSide.
Context (sd : OrderSide) (h : gmap ptr Order) (ob : OrderBook) (p : ptr).

Let test (i : nat) : bool := after sd (deref h p) (deref h (nth i (side_list sd ob) 0)).
Let pos : nat := search (length (side_list sd ob)) test.

Lemma Insert_eq : Insert sd h ob p = set_side sd ob (insert_at pos p (side_list sd ob)).
Proof. by destruct sd. Qed.

Hypothesis Hsorted : StronglySorted (before sd h) (side_list sd ob).

Lemma sorted_nth l a b :
  StronglySorted (before sd h) l -> (a < b < length l)%nat -> before sd h (nth a l 0) (nth b l 0).
Proof.
  intros Hs. revert a b. induction Hs as [|x l Hs IH Hx]; simpl; intros a b Hab; [lia|].
  destruct b as [|b]; [lia|]. destruct a as [|a].
  - eapply Forall_forall; [exact Hx|]. apply list_elem_of_In, nth_In. lia.
  - apply IH. lia.
Qed.

Lemma pos_spec :
  (pos <= length (side_list sd ob))%nat /\
  (forall a, a < pos -> test a = false)%nat /\
  (forall a, pos <= a < length (side_list sd ob) -> test a = true)%nat.
Proof.
  apply search_spec. intros a b Hab Ha. unfold test in *.
  destruct (decide (a = b)) as [->|]; [done|].
  eapply after_mono; [exact Ha|]. apply sorted_nth; [done|lia].
Qed.

Lemma elem_of_take_nth (l : list ptr) i x :
  x ∈ take i l -> exists a, (a < i)%nat /\ (a < length l)%nat /\ nth a l 0 = x.
Proof.
  intros (a & Ha)%list_elem_of_lookup. apply lookup_take_Some in Ha as [Ha ?].
  exists a. pose proof (lookup_lt_Some _ _ _ Ha). by rewrite (nth_lookup_Some l a 0 x).
Qed.

Lemma elem_of_drop_nth (l : list ptr) i x :
  x ∈ drop i l -> exists a, (i <= a < length l)%nat /\ nth a l 0 = x.
Proof.
  intros (a & Ha)%list_elem_of_lookup. rewrite lookup_drop in Ha.
  exists (i + a)%nat. pose proof (lookup_lt_Some _ _ _ Ha).
  rewrite (nth_lookup_Some l (i + a) 0 x) by done. split; [lia|done].
Qed.

Lemma Insert_sorted :
  StronglySorted (before sd h) (side_list sd (Insert sd h ob p)).
Proof.
  rewrite Insert_eq. destruct pos_spec as (Hle & Hlo & Hhi).
  replace (side_list sd (set_side sd ob (insert_at pos p (side_list sd ob))))
    with (insert_at pos p (side_list sd ob)) by (by destruct sd).
  apply insert_at_sorted; [done..| |].
  - intros y (a & Ha & _ & <-)%elem_of_take_nth. by apply Hlo.
  - intros y (a & Ha & <-)%elem_of_drop_nth. unfold before. apply after_asym. by apply Hhi.
Qed.
End InsertSide.

(** ** Matching

    Both loops walk one side and, at each order, either stop or fill a positive
    quantity that neither exceeds the order nor what is left to trade. *)

Inductive walk (event : Order -> Z -> MatchEvent) :
  MatchState -> list ptr -> MatchState -> list ptr -> Prop :=
| walk_stop st rest : walk event st rest st (ms_kept st ++ rest)
| walk_fill st p tail q cost st' l' :
    0 < q -> q <= Quantity (deref (ms_heap st) p) -> q <= ms_remaining st ->
    walk event (fill event st p q cost) tail st' l' ->
    walk event st (p :: tail) st' l'.

(** The fields a match never writes. *)
Definition stat (o : Order) : Order := set_qty o 0.

(** What holds of a walk over side [sd] of book [k] that started from heap [h0],
    index [om0] and side [l0]. *)
Record WI (h0 : gmap ptr Order) (om0 : gmap Z ptr) (l0 : list ptr) (k : BookKey) (sd : OrderSide)
  (st : MatchState) (l : list ptr) : Prop := mkWI {
  wi_rem : 0 <= ms_remaining st < 2 ^ 31;
  wi_sub : l `sublist_of` l0;
  wi_nodup : NoDup l;
  wi_listed : forall p, p ∈ l -> listed (ms_heap st) (ms_orders st) k sd p;
  wi_stat : forall p, stat <$> ms_heap st !! p = stat <$> h0 !! p;
  wi_frame : forall p, p ∉ l0 -> ms_heap st !! p = h0 !! p;
  wi_orders : forall id p, ms_orders st !! id = Some p ->
    om0 !! id = Some p /\ (p ∈ l0 -> p ∈ l);
  wi_orders_frame : forall id p, om0 !! id = Some p -> p ∉ l0 -> ms_orders st !! id = Some p
}.

Section Walk.
Context (event : Order -> Z -> MatchEvent).
Context (h0 : gmap ptr Order) (om0 : gmap Z ptr) (l0 : list ptr) (k : BookKey) (sd : OrderSide).
Abbreviation WI := (WI h0 om0 l0 k sd).
Hypothesis Hom0 : forall id p o, om0 !! id = Some p -> h0 !! p = Some o -> ID o = id.

Lemma deref_lookup (h : gmap ptr Order) p o : h !! p = Some o -> deref h p = o.
Proof. unfold deref. by intros ->. Qed.

Lemma stat_set_qty o q : stat (set_qty o q) = stat o.
Proof. done. Qed.

Lemma i32_small q r : 0 < q -> q <= r < 2 ^ 31 -> i32 (r - q) = r - q.
Proof. intros. apply i32_id. unfold_int. lia. Qed.

(** The heap after a fill. *)
Lemma fill_heap st p q cost o :
  ms_heap st !! p = Some o -> 0 < q <= Quantity o -> in_qty (Quantity o) ->
  ms_heap (fill event st p q cost) = <[p := set_qty o (Quantity o - q)]> (ms_heap st).
Proof.
  intros Hp Hq [_ Hub]. unfold fill. rewrite (deref_lookup _ _ _ Hp), i32_small by lia.
  by case_match.
Qed.

Lemma fill_remaining st p q cost :
  0 < q -> q <= ms_remaining st < 2 ^ 31 ->
  ms_remaining (fill event st p q cost) = ms_remaining st - q.
Proof. intros. unfold fill. case_match; simpl; apply i32_small; lia. Qed.

Lemma fill_matches st p q cost :
  ms_matches (fill event st p q cost) = ms_matches st ++ [event (deref (ms_heap st) p) q].
Proof. unfold fill. by case_match. Qed.

Lemma fill_cost st p q cost : ms_cost (fill event st p q cost) = cost.
Proof. unfold fill. by case_match. Qed.

(** An order is dropped from side and index exactly when it is used up. *)
Lemma fill_kept st p q cost o :
  ms_heap st !! p = Some o -> 0 < q <= Quantity o -> in_qty (Quantity o) ->
  (q = Quantity o /\ ms_kept (fill event st p q cost) = ms_kept st /\
     ms_orders (fill event st p q cost) = delete (ID o) (ms_orders st)) \/
  (q < Quantity o /\ ms_kept (fill event st p q cost) = ms_kept st ++ [p] /\
     ms_orders (fill event st p q cost) = ms_orders st).
Proof.
  intros Hp Hq [_ Hub]. unfold fill. rewrite (deref_lookup _ _ _ Hp), i32_small by lia.
  cbn [Quantity set_qty ID]. destruct (Z.leb_spec (Quantity o - q) 0); simpl; [left|right]; split_and!; lia || done.
Qed.

Lemma listed_insert_ne h om p o' x :
  x <> p -> listed h om k sd x -> listed (<[p := o']> h) om k sd x.
Proof. intros Hne (o & ? & ?). exists o. by rewrite lookup_insert_ne by done. Qed.

Lemma WI_fill st p tail q cost :
  0 < q -> q <= Quantity (deref (ms_heap st) p) -> q <= ms_remaining st ->
  WI st (ms_kept st ++ p :: tail) ->
  WI (fill event st p q cost) (ms_kept (fill event st p q cost) ++ tail).
Proof.
  intros Hq0 Hq1 Hq2 [Hrem Hsub Hnd Hl Hstat Hfr Ho Hof].
  assert (Hin : p ∈ ms_kept st ++ p :: tail) by set_solver.
  destruct (Hl p Hin) as (o & Hp & Hk & Hsd & Hid & Hqty & Hprice).
  rewrite (deref_lookup _ _ _ Hp) in Hq1.
  pose proof (fill_heap st p q cost o Hp (conj Hq0 Hq1) Hqty) as Hh.
  pose proof (fill_kept st p q cost o Hp (conj Hq0 Hq1) Hqty) as Hcases.
  assert (Hpl0 : p ∈ l0) by (by eapply elem_of_sublist).
  assert (Hnp : p ∉ ms_kept st ++ tail).
  { rewrite <- Permutation_middle in Hnd. by apply NoDup_cons in Hnd as [? _]. }
  constructor.
  - rewrite fill_remaining by lia. lia.
  - destruct Hcases as [(_ & -> & _)|(_ & -> & _)].
    + etrans; [|exact Hsub]. apply sublist_app; [done|]. by apply sublist_cons.
    + by rewrite <- app_assoc.
  - destruct Hcases as [(_ & -> & _)|(_ & -> & _)].
    + rewrite <- Permutation_middle in Hnd. by apply NoDup_cons in Hnd as [_ ?].
    + by rewrite <- app_assoc.
  - rewrite Hh. intros x Hx. destruct Hcases as [(-> & Hke & Hoe)|(Hlt & Hke & Hoe)];
      rewrite Hke in Hx; rewrite Hoe.
    + assert (Hxp : x <> p) by set_solver.
      destruct (Hl x) as (o' & Hx' & ? & ? & Hid' & ? & ?); [set_solver|].
      exists o'. rewrite lookup_insert_ne by done. split_and!; try done.
      rewrite lookup_delete_ne; [done|]. congruence.
    + destruct (decide (x = p)) as [->|Hne].
      * exists (set_qty o (Quantity o - q)). rewrite lookup_insert, decide_True by done.
        unfold in_qty in *. simpl. split_and!; try done; lia.
      * apply listed_insert_ne; [done|]. apply Hl. set_solver.
  - intros x. rewrite Hh. destruct (decide (x = p)) as [->|Hne].
    + rewrite lookup_insert, decide_True, <- Hstat, Hp by done. done.
    + by rewrite lookup_insert_ne.
  - intros x Hx. rewrite Hh. rewrite lookup_insert_ne by set_solver. auto.
  - intros id x. destruct Hcases as [(-> & -> & ->)|(_ & -> & ->)].
    + intros [Hne Hx]%lookup_delete_Some. apply Ho in Hx as [? Hx]. split; [done|].
      intros Hx0. specialize (Hx Hx0). enough (x <> p) by set_solver. intros ->.
      specialize (Hstat p). rewrite Hp in Hstat.
      destruct (h0 !! p) as [o0|] eqn:Ep; [|done]. apply Hne.
      rewrite <- (Hom0 id p o0) by done. injection Hstat. congruence.
    + intros Hx. apply Ho in Hx as [? Hx]. split; [done|]. set_solver.
  - intros id x Hx Hx0. destruct Hcases as [(-> & _ & ->)|(_ & _ & ->)]; [|auto].
    rewrite lookup_delete_ne; [auto|]. intros Heq. apply Hof in Hx; [|done].
    congruence.
Qed.

Lemma WI_walk st rest st' l' :
  walk event st rest st' l' ->
  WI st (ms_kept st ++ rest) -> WI st' l'.
Proof.
  induction 1 as [|st p tail q cost st' l' ? ? ? _ IH]; intros HW; [done|].
  by apply IH, WI_fill.
Qed.

Lemma match_loop_walk stop st rest :
  WI st (ms_kept st ++ rest) ->
  walk event st rest (match_loop stop event st rest).1 (match_loop stop event st rest).2.
Proof.
  revert st. induction rest as [|p tail IH]; intros st HW; cbn [match_loop].
  - rewrite <- (app_nil_r (ms_kept st)) at 2. constructor.
  - destruct (Z.ltb_spec 0 (ms_remaining st)) as [Hr|]; [|constructor].
    destruct (stop _); [constructor|].
    destruct (wi_listed _ _ _ _ _ _ _ HW p) as (o & Hp & _ & _ & _ & Hq & _); [set_solver|].
    unfold in_qty in Hq. rewrite (deref_lookup _ _ _ Hp).
    set (q := if Quantity o <? ms_remaining st then _ else _).
    assert (0 < q /\ q <= Quantity o /\ q <= ms_remaining st) as (H1 & H2 & H3).
    { unfold q. destruct (Z.ltb_spec (Quantity o) (ms_remaining st)); lia. }
    assert (q <= Quantity (deref (ms_heap st) p)) by (by rewrite (deref_lookup _ _ _ Hp)).
    econstructor; [done..|]. by apply IH, WI_fill.
Qed.
End Walk.

Section Budget.
(** The wrap-around cannot make the affordable quantity exceed the order's: a
    cost that overflows is larger than any budget. *)
Lemma affordable_le maxCost total X :
  0 < maxCost -> in_i64 maxCost -> in_i64 total -> 0 <= X ->
  maxCost < i64 (total + i64 X) -> 0 < i64 (maxCost - total) -> i64 (maxCost - total) <= X.
Proof. intros. go_int. Qed.

Lemma quot_le a price tq : 0 < a -> 0 < price -> a <= price * tq -> 0 <= Z.quot a price <= tq.
Proof.
  intros. rewrite Z.quot_div_nonneg by lia. split; [apply Z.div_pos; lia|].
  apply Z.div_le_upper_bound; lia.
Qed.

Lemma budget_qty maxCost total price tq q c :
  in_i64 maxCost -> in_i64 total -> in_price price -> 0 < tq < 2 ^ 31 ->
  budget maxCost total price tq = Some (q, c) -> 0 < q <= tq /\ in_i64 c.
Proof.
  intros Hm Ht Hp Htq. unfold budget.
  destruct (Z.ltb_spec 0 maxCost) as [Hm0|]; [|intros [= <- <-]; by split; [lia|]].
  destruct (Z.ltb_spec maxCost (i64 (total + i64 (price * tq)))) as [Hov|].
  2:{ intros [= <- <-]. split; [lia|apply i64_range]. }
  destruct (Z.leb_spec (i64 (maxCost - total)) 0) as [|Ha]; [done|].
  destruct (Z.leb_spec (i32 (Z.quot (i64 (maxCost - total)) price)) 0); [done|].
  intros [= <- <-]. split; [|apply i64_range].
  unfold in_price in Hp.
  pose proof (affordable_le maxCost total (price * tq) Hm0 Hm Ht ltac:(nia) Hov Ha) as Hle.
  destruct (quot_le _ price tq Ha ltac:(lia) Hle).
  rewrite i32_id in * by (unfold_int; lia). lia.
Qed.

(** With no overflow the running cost is exact and stays within the budget. *)
Lemma budget_cost maxCost total price tq q c :
  0 < maxCost < 2 ^ 62 -> 0 <= total <= maxCost -> 0 < price -> 0 < tq < 2 ^ 31 ->
  price * tq < 2 ^ 62 ->
  budget maxCost total price tq = Some (q, c) ->
  c = total + price * q /\ c <= maxCost.
Proof.
  intros Hm Ht Hp Htq Hno. unfold budget.
  destruct (Z.ltb_spec 0 maxCost) as [Hm0|]; [|lia].
  assert (0 <= price * tq) by nia.
  change (2 ^ 62) with 4611686018427387904 in *.
  rewrite (i64_id (price * tq)), (i64_id (total + price * tq)), (i64_id (maxCost - total))
    by (unfold_int; lia).
  destruct (Z.ltb_spec maxCost (total + price * tq)) as [Hov|].
  2:{ intros [= <- <-]. lia. }
  destruct (Z.leb_spec (maxCost - total) 0) as [|Ha]; [done|].
  destruct (quot_le (maxCost - total) price tq Ha Hp ltac:(lia)).
  rewrite i32_id by (unfold_int; lia).
  destruct (Z.leb_spec (Z.quot (maxCost - total) price) 0); [done|].
  intros [= <- <-]. set (q := Z.quot (maxCost - total) price) in *.
  assert (0 <= price * q <= maxCost - total).
  { unfold q. rewrite Z.quot_div_nonneg by lia. split; [|apply Z.mul_div_le; lia].
    apply Z.mul_nonneg_nonneg; [lia|]. apply Z.div_pos; lia. }
  rewrite (i64_id (price * q)), (i64_id (total + price * q)) by (unfold_int; lia). lia.
Qed.
End Budget.

Section InstantBuyLoop.
Context (event : Order -> Z -> MatchEvent).
Context (h0 : gmap ptr Order) (om0 : gmap Z ptr) (l0 : list ptr) (k : BookKey) (sd : OrderSide).
Hypothesis Hom0 : forall id p o, om0 !! id = Some p -> h0 !! p = Some o -> ID o = id.

Lemma instant_buy_loop_walk maxCost st rest :
  in_i64 maxCost -> in_i64 (ms_cost st) ->
  WI h0 om0 l0 k sd st (ms_kept st ++ rest) ->
  walk event st rest (instant_buy_loop maxCost event st rest).1
                     (instant_buy_loop maxCost event st rest).2.
Proof.
  intros Hm. revert st. induction rest as [|p tail IH]; intros st Hc HW; cbn [instant_buy_loop].
  - rewrite <- (app_nil_r (ms_kept st)) at 2. constructor.
  - destruct (Z.ltb_spec 0 (ms_remaining st)) as [Hr|]; [|constructor].
    destruct (wi_listed _ _ _ _ _ _ _ HW p) as (o & Hp & _ & _ & _ & Hq & Hpr); [set_solver|].
    unfold in_qty in Hq. rewrite (deref_lookup _ _ _ Hp).
    set (tq := if Quantity o <? ms_remaining st then _ else _).
    assert (0 < tq /\ tq <= Quantity o /\ tq <= ms_remaining st) as (H1 & H2 & H3).
    { unfold tq. destruct (Z.ltb_spec (Quantity o) (ms_remaining st)); lia. }
    clearbody tq. assert (0 < tq < 2 ^ 31) as Htq by lia.
    destruct (budget maxCost (ms_cost st) (Price o) tq) as [[q cost]|] eqn:Eb; [|constructor].
    destruct (budget_qty _ _ _ _ _ _ Hm Hc Hpr Htq Eb) as [Hq' Hcost].
    assert (q <= Quantity (deref (ms_heap st) p)) by (rewrite (deref_lookup _ _ _ Hp); lia).
    apply (walk_fill event st p tail q cost); [lia|done|lia|]. apply IH; [by rewrite fill_cost|].
    apply WI_fill; done || lia.
Qed.
End InstantBuyLoop.

(** ** The service invariant *)

Definition commit (sd : OrderSide) (s : Service) (k : BookKey) (ob : OrderBook)
  (r : MatchState * list ptr) : Service :=
  mkService (ms_heap r.1) (nextPtr s) (<[k := set_side sd ob r.2]> (books s))
            (ms_orders r.1) (cfg s) (nextID s).

Section Invariant.
Lemma after_stat sd o o' p p' : stat o = stat o' -> stat p = stat p' -> after sd o p = after sd o' p'.
Proof. destruct o, o', p, p'. intros [=] [=]. subst. by destruct sd. Qed.

Lemma stat_before sd h h0 p q :
  (forall x, stat <$> h !! x = stat <$> h0 !! x) -> before sd h0 p q -> before sd h p q.
Proof.
  intros Hs. unfold before.
  assert (Hd : forall x, stat (deref h x) = stat (deref h0 x)).
  { intros x. specialize (Hs x). unfold deref. destruct (h !! x), (h0 !! x); simpl in *; congruence. }
  by rewrite (after_stat sd _ _ _ _ (Hd q) (Hd p)).
Qed.

Lemma stat_price h h0 x :
  (forall x, stat <$> h !! x = stat <$> h0 !! x) -> Price (deref h x) = Price (deref h0 x).
Proof.
  intros Hs. specialize (Hs x). unfold deref.
  destruct (h !! x) as [[]|], (h0 !! x) as [[]|]; try done. by injection Hs.
Qed.

Lemma side_set_same sd ob l : side_list sd (set_side sd ob l) = l.
Proof. by destruct sd. Qed.
Lemma side_set_other sd sd' ob l : sd <> sd' -> side_list sd (set_side sd' ob l) = side_list sd ob.
Proof. by destruct sd, sd'. Qed.

Lemma WI_start s k ob sd qty :
  wf s -> books s !! k = Some ob -> 0 < qty < 2 ^ 31 ->
  WI (heap s) (orders s) (side_list sd ob) k sd (match_start s qty) (side_list sd ob).
Proof.
  intros Hwf Hk Hq. constructor; simpl; try done; [lia| |].
  - by eapply wf_nodup.
  - intros p Hp. by eapply wf_listed.
Qed.

Lemma wf_ids s : wf s -> forall id p o,
  orders s !! id = Some p -> heap s !! p = Some o -> ID o = id.
Proof.
  intros Hwf id p o Ho Hp. destruct (wf_index s Hwf id p Ho) as (o' & ? & ? & ? & _). congruence.
Qed.

(** A pointer is on one side of one book only. *)
Lemma listed_unique h om k sd k' sd' p : listed h om k sd p -> listed h om k' sd' p -> k = k' /\ sd = sd'.
Proof. intros (o & ? & <- & <- & _) (o' & ? & <- & <- & _). by simplify_eq. Qed.

Lemma listed_frame h om h' om' k sd p :
  (forall o, h !! p = Some o -> h' !! p = Some o) ->
  (forall id, om !! id = Some p -> om' !! id = Some p) ->
  listed h om k sd p -> listed h' om' k sd p.
Proof. intros Hh Ho (o & ? & ? & ? & ? & ?). exists o. eauto 10. Qed.

(** A listed pointer of another side, or of another book, is outside the walk. *)
Lemma listed_outside s k ob sd k' ob' sd' p :
  wf s -> books s !! k = Some ob -> books s !! k' = Some ob' -> p ∈ side_list sd' ob' ->
  k' <> k \/ sd' <> sd -> p ∉ side_list sd ob.
Proof.
  intros Hwf Hk Hk' Hp Hne Hin.
  destruct (listed_unique _ _ _ _ _ _ _ (wf_listed s Hwf _ _ _ _ Hk' Hp)
              (wf_listed s Hwf _ _ _ _ Hk Hin)). naive_solver.
Qed.

(** The sides of the books after one side of one book was replaced. *)
Lemma set_side_cases (bs : gmap BookKey OrderBook) k ob sd l k' ob' sd' :
  bs !! k = Some ob -> <[k := set_side sd ob l]> bs !! k' = Some ob' ->
  (k' = k /\ sd' = sd /\ side_list sd' ob' = l) \/
  (exists ob0, bs !! k' = Some ob0 /\ side_list sd' ob' = side_list sd' ob0 /\
     (k' <> k \/ sd' <> sd)).
Proof.
  intros Hk. destruct (decide (k' = k)) as [->|Hne].
  - rewrite lookup_insert, decide_True by done. intros [= <-].
    destruct (decide (sd' = sd)) as [->|Hne]; [left|right].
    + by rewrite side_set_same.
    + exists ob. rewrite side_set_other by done. auto.
  - rewrite lookup_insert_ne by done. right. exists ob'. auto.
Qed.

Lemma commit_index s k ob sd st' l' id p :
  wf s -> books s !! k = Some ob ->
  WI (heap s) (orders s) (side_list sd ob) k sd st' l' ->
  ms_orders st' !! id = Some p ->
  exists o ob0, ms_heap st' !! p = Some o /\ ID o = id /\
    <[k := set_side sd ob l']> (books s) !! key_of o = Some ob0 /\ p ∈ side_list (Side o) ob0.
Proof.
  intros Hwf Hk [_ Hsub Hnd Hl Hstat Hfr Ho Hof] Hid. destruct (Ho _ _ Hid) as [Hid0 Hin].
  destruct (wf_index s Hwf id p Hid0) as (o & ob0 & Hp & Hido & Hob0 & Hp0).
  destruct (decide (p ∈ side_list sd ob)) as [Hp1|Hp1].
  - destruct (Hl p (Hin Hp1)) as (o' & Hp' & Hk' & Hsd' & _).
    exists o', (set_side sd ob l'). rewrite Hk', Hsd', lookup_insert, decide_True, side_set_same by done.
    split_and!; [done| |done|auto]. specialize (Hstat p). rewrite Hp, Hp' in Hstat.
    injection Hstat. congruence.
  - exists o. rewrite Hfr by done. destruct (decide (key_of o = k)) as [Heq|Hne].
    + exists (set_side sd ob l'). rewrite Heq, lookup_insert, decide_True by done.
      split_and!; try done. assert (ob0 = ob) as -> by congruence.
      destruct (decide (Side o = sd)) as [Hs|Hs]; [by subst sd|]. by rewrite side_set_other.
    + exists ob0. by rewrite lookup_insert_ne by done.
Qed.

Lemma commit_wf s k ob sd st' l' :
  wf s -> books s !! k = Some ob ->
  WI (heap s) (orders s) (side_list sd ob) k sd st' l' ->
  wf (commit sd s k ob (st', l')).
Proof.
  intros Hwf Hk HW. pose proof HW as [_ Hsub Hnd Hl Hstat Hfr Ho Hof].
  constructor; simpl.
  - intros p o Hp. specialize (Hstat p). rewrite Hp in Hstat.
    destruct (heap s !! p) eqn:E; [|done]. by eapply wf_heap.
  - intros id p Hid. by eapply commit_index.
  - intros k' ob' sd' p Hk' Hp.
    destruct (set_side_cases _ _ _ _ _ _ _ sd' Hk Hk') as [(-> & -> & Hs)|(ob0 & Hob0 & Hs & Hne)].
    + apply Hl. by rewrite <- Hs.
    + rewrite Hs in Hp. pose proof (listed_outside _ _ _ _ _ _ _ _ Hwf Hk Hob0 Hp Hne).
      eapply listed_frame; [| |by eapply wf_listed].
      * intros o Ho'. by rewrite Hfr.
      * intros id Hid. by apply Hof.
  - intros k' ob' sd' Hk'.
    destruct (set_side_cases _ _ _ _ _ _ _ sd' Hk Hk') as [(-> & -> & Hs)|(ob0 & Hob0 & Hs & _)];
      rewrite Hs; (eapply StronglySorted_ext; [intros x y; by apply stat_before|]).
    + eapply StronglySorted_sublist; [exact Hsub|]. by eapply wf_sorted.
    + by eapply wf_sorted.
  - intros k' ob' sd' Hk'.
    destruct (set_side_cases _ _ _ _ _ _ _ sd' Hk Hk') as [(-> & -> & Hs)|(ob0 & Hob0 & Hs & _)];
      rewrite Hs; [done|]. by eapply wf_nodup.
  - intros id p Hid. eapply wf_id; [done|]. by apply Ho.
  - apply Hwf.
Qed.
End Invariant.

Section Operations.
Lemma StronglySorted_ext_in {A} (R R' : A -> A -> Prop) l :
  (forall x y, x ∈ l -> y ∈ l -> R x y -> R' x y) -> StronglySorted R l -> StronglySorted R' l.
Proof.
  induction l as [|a l IH]; intros HR Hs; [constructor|].
  inversion Hs as [|? ? Hs' Hf]; subst. constructor.
  - apply IH; [|done]. intros. apply HR; set_solver.
  - apply Forall_forall. intros y Hy. apply HR; [set_solver..|]. by eapply Forall_forall in Hf.
Qed.

Lemma GetBook_wf s loc item :
  wf s ->
  let s' := (GetBook s loc item).1 in
  wf s' /\ books s' !! (loc, item) = Some (GetBook s loc item).2 /\
  heap s' = heap s /\ orders s' = orders s /\ nextPtr s' = nextPtr s /\
  nextID s' = nextID s /\ cfg s' = cfg s.
Proof.
  intros Hwf. unfold GetBook. destruct (books s !! (loc, item)) as [ob|] eqn:E; [done|].
  simpl. rewrite lookup_insert, decide_True by done. split; [|done].
  assert (Hnew : forall k ob, <[(loc, item) := emptyBook]> (books s) !! k = Some ob ->
            ob = emptyBook \/ books s !! k = Some ob).
  { intros k ob [[_ <-]|[_ ?]]%lookup_insert_Some; auto. }
  constructor; simpl.
  - apply Hwf.
  - intros id p Hid. destruct (wf_index s Hwf id p Hid) as (o & ob & ? & ? & Hk & ?).
    exists o, ob. rewrite lookup_insert_ne; [done|]. intros Heq. rewrite <- Heq in Hk. pose proof (eq_trans (eq_sym E) Hk). done.
  - intros k ob sd p Hk Hp. apply Hnew in Hk as [->|Hk]; [by destruct sd; apply not_elem_of_nil in Hp|].
    by eapply wf_listed.
  - intros k ob sd Hk. apply Hnew in Hk as [->|Hk]; [by destruct sd; constructor|]. by eapply wf_sorted.
  - intros k ob sd Hk. apply Hnew in Hk as [->|Hk]; [by destruct sd; constructor|]. by eapply wf_nodup.
  - apply Hwf.
  - apply Hwf.
Qed.

(** A new order [o] put into its book and into the index. *)
Definition add_order (s : Service) (o : Order) (ob : OrderBook) (nid : Z) : Service :=
  let h := <[nextPtr s := o]> (heap s) in
  mkService h (nextPtr s + 1) (<[key_of o := Insert (Side o) h ob (nextPtr s)]> (books s))
            (<[ID o := nextPtr s]> (orders s)) (cfg s) nid.

Lemma Insert_elem sd h ob p : side_list sd (Insert sd h ob p) ≡ₚ p :: side_list sd ob.
Proof. rewrite Insert_eq, side_set_same. apply insert_at_perm. Qed.

Lemma fresh_ptr s : wf s -> heap s !! nextPtr s = None.
Proof. intros Hwf. destruct (heap s !! nextPtr s) eqn:E; [|done]. apply (wf_heap s Hwf) in E. lia. Qed.

Lemma listed_fresh s k ob sd p : wf s -> books s !! k = Some ob -> p ∈ side_list sd ob -> p <> nextPtr s.
Proof.
  intros Hwf Hk Hp ->. destruct (wf_listed s Hwf _ _ _ _ Hk Hp) as (o & Ho & _).
  by rewrite fresh_ptr in Ho.
Qed.

(** Adding an order keeps what was listed listed. *)
Lemma listed_add s o k ob sd p :
  wf s -> orders s !! ID o = None -> books s !! k = Some ob -> p ∈ side_list sd ob ->
  listed (<[nextPtr s := o]> (heap s)) (<[ID o := nextPtr s]> (orders s)) k sd p.
Proof.
  intros Hwf Hid Hk Hp. pose proof (listed_fresh _ _ _ _ _ Hwf Hk Hp).
  eapply listed_frame; [| |by eapply wf_listed].
  - intros o' ?. by rewrite lookup_insert_ne.
  - intros id ?. rewrite lookup_insert_ne; [done|]. congruence.
Qed.

(** ... and sorted. *)
Lemma sorted_add s o k ob sd :
  wf s -> books s !! k = Some ob ->
  StronglySorted (before sd (<[nextPtr s := o]> (heap s))) (side_list sd ob).
Proof.
  intros Hwf Hk. eapply StronglySorted_ext_in; [|by eapply wf_sorted].
  intros x y Hx Hy. pose proof (listed_fresh _ _ _ _ _ Hwf Hk Hx).
  pose proof (listed_fresh _ _ _ _ _ Hwf Hk Hy).
  unfold before, deref. by rewrite !lookup_insert_ne.
Qed.

Lemma add_order_wf s o ob nid :
  wf s -> books s !! key_of o = Some ob -> orders s !! ID o = None ->
  in_qty (Quantity o) -> in_price (Price o) -> 0 <= ID o < nid -> nextID s <= nid ->
  wf (add_order s o ob nid).
Proof.
  intros Hwf Hk Hid Hq Hp Hn Hnid. unfold add_order.
  assert (Hlist : forall sd x, x ∈ side_list sd ob -> x ∈ side_list sd (Insert (Side o) (<[nextPtr s:=o]> (heap s)) ob (nextPtr s))).
  { intros sd x Hx. destruct (decide (sd = Side o)) as [->|Hne]; [rewrite Insert_elem; set_solver|].
    by rewrite Insert_eq, side_set_other. }
  pose proof Hk as Hk'. constructor; simpl.
  - intros p o' [[<- _]|[_ Ho']]%lookup_insert_Some; [lia|]. apply (wf_heap s Hwf) in Ho'. lia.
  - intros id p [[<- <-]|[Hne Hx]]%lookup_insert_Some.
    + exists o. eexists. rewrite !lookup_insert, !decide_True by done. split_and!; [done..|].
      rewrite Insert_elem. set_solver.
    + destruct (wf_index s Hwf id p Hx) as (o' & ob' & Ho' & ? & Hob' & Hin). exists o'.
      rewrite lookup_insert_ne by (pose proof (fresh_ptr s Hwf); congruence).
      destruct (decide (key_of o' = key_of o)) as [Heq|Hne'].
      * eexists. rewrite Heq, lookup_insert, decide_True by done. split_and!; [done..|].
        apply Hlist. congruence.
      * exists ob'. by rewrite lookup_insert_ne by done.
  - intros k ob' sd p Hob' Hin. rewrite Insert_eq in Hob'.
    destruct (set_side_cases _ _ _ _ _ _ _ sd Hk Hob') as [(-> & -> & Hs)|(ob0 & Hob0 & Hs & _)];
      rewrite Hs in Hin.
    + rewrite insert_at_perm in Hin. apply elem_of_cons in Hin as [->|Hin]; [|by eapply listed_add].
      exists o. rewrite !lookup_insert, !decide_True by done. done.
    + by eapply listed_add.
  - intros k ob' sd Hob'. rewrite Insert_eq in Hob'.
    destruct (set_side_cases _ _ _ _ _ _ _ sd Hk Hob') as [(-> & -> & Hs)|(ob0 & Hob0 & Hs & _)];
      [|rewrite Hs; by eapply sorted_add].
    rewrite Hs. pose proof (Insert_sorted (Side o) _ ob (nextPtr s) (sorted_add s o _ _ (Side o) Hwf Hk)) as Hi.
    by rewrite Insert_eq, side_set_same in Hi.
  - intros k ob' sd Hob'. rewrite Insert_eq in Hob'.
    destruct (set_side_cases _ _ _ _ _ _ _ sd Hk Hob') as [(-> & -> & Hs)|(ob0 & Hob0 & Hs & _)];
      rewrite Hs; [|by eapply wf_nodup].
    rewrite insert_at_perm. constructor; [|by eapply wf_nodup].
    intros Hin. by eapply listed_fresh.
  - intros id p [[<- <-]|[Hne Hx]]%lookup_insert_Some; [done|]. apply (wf_id s Hwf) in Hx. lia.
  - split; [apply Hwf|lia].
Qed.
End Operations.

Section Removal.
Lemma remove_first_spec h id p l :
  (forall x, x ∈ l -> (ID (deref h x) = id <-> x = p)) ->
  ((p ∉ l) /\ remove_first h id l = None) \/
  (exists l1 l2, l = l1 ++ p :: l2 /\ remove_first h id l = Some (p, l1 ++ l2)).
Proof.
  induction l as [|x l IH]; intros Hx; simpl; [left; split; [set_solver|done]|].
  destruct (Z.eqb_spec (ID (deref h x)) id) as [He|Hne].
  - apply Hx in He as ->; [|set_solver]. right. by exists [], l.
  - assert (x <> p) by (intros ->; apply Hne, Hx; set_solver).
    destruct IH as [[Hn ->]|(l1 & l2 & -> & ->)]; [intros; apply Hx; set_solver| |].
    + left. split; [set_solver|done].
    + right. by exists (x :: l1), l2.
Qed.

(** Removing an indexed order is a walk that uses it up without trading. *)
Lemma remove_order_spec s id p :
  wf s -> orders s !! id = Some p ->
  let o := deref (heap s) p in
  exists ob l1 l2,
    heap s !! p = Some o /\ ID o = id /\ books s !! key_of o = Some ob /\
    side_list (Side o) ob = l1 ++ p :: l2 /\
    remove_order s id o =
      commit (Side o) s (key_of o) ob (mkMS (heap s) (delete id (orders s)) [] 0 0 [], l1 ++ l2) /\
    WI (heap s) (orders s) (l1 ++ p :: l2) (key_of o) (Side o)
       (mkMS (heap s) (delete id (orders s)) [] 0 0 []) (l1 ++ l2).
Proof.
  intros Hwf Hid. destruct (wf_index s Hwf id p Hid) as (o & ob & Hp & Hido & Hob & Hin).
  rewrite (deref_lookup _ _ _ Hp). cbv zeta.
  assert (Hx : forall sd x, x ∈ side_list sd ob -> (ID (deref (heap s) x) = id <-> x = p)).
  { intros sd x Hx. destruct (wf_listed s Hwf _ _ _ _ Hob Hx) as (o' & Ho' & _ & _ & Hxo & _).
    rewrite (deref_lookup _ _ _ Ho'). split; [congruence|]. intros ->. congruence. }
  pose proof (wf_nodup s Hwf _ _ (Side o) Hob) as Hnd.
  destruct (remove_first_spec (heap s) id p (side_list (Side o) ob) (Hx (Side o))) as [[? _]|(l1 & l2 & Hl & Hrm)]; [done|].
  exists ob, l1, l2. split_and!; try done.
  - unfold remove_order. rewrite Hob. unfold RemoveOrder, commit, set_orders, set_book. simpl.
    destruct (Side o) eqn:Es; simpl in *; [by rewrite Hrm|].
    destruct (remove_first_spec (heap s) id p (Sells ob) (Hx SideSell)) as [[_ ->]|(m1 & m2 & Hm & _)]; [by rewrite Hrm|].
    exfalso. eapply (listed_outside s (key_of o) ob SideBuy (key_of o) ob SideSell p Hwf Hob Hob); simpl.
    + rewrite Hm. set_solver.
    + by right.
    + done.
  - rewrite Hl in Hnd. rewrite <- Permutation_middle in Hnd. apply NoDup_cons in Hnd as [Hp1 Hnd].
    constructor; simpl; try done; [by apply sublist_app, sublist_cons| | |].
    + intros x Hxin. eapply (listed_frame (heap s) (orders s)); [done| |].
      * intros id' Hid'. rewrite lookup_delete_ne; [done|]. intros <-. set_solver.
      * eapply wf_listed; [done..|]. rewrite Hl. set_solver.
    + intros id' x [Hne Hx']%lookup_delete_Some. split; [done|]. intros Hxin.
      enough (x <> p) by set_solver. intros ->. pose proof (wf_ids s Hwf _ _ _ Hx' Hp). congruence.
    + intros id' x Hx' Hnot. rewrite lookup_delete_ne; [done|]. intros <-. set_solver.
Qed.

Lemma remove_order_wf s id p :
  wf s -> orders s !! id = Some p -> wf (remove_order s id (deref (heap s) p)).
Proof.
  intros Hwf Hid. destruct (remove_order_spec s id p Hwf Hid) as (ob & l1 & l2 & _ & _ & Hk & Hl & -> & HW).
  apply commit_wf; [done..|]. by rewrite Hl.
Qed.

Lemma remove_order_fields s id o :
  heap (remove_order s id o) = heap s /\ orders (remove_order s id o) = delete id (orders s) /\
  nextID (remove_order s id o) = nextID s.
Proof. unfold remove_order. by destruct (books s !! key_of o). Qed.

(** The fold of [ExpireOrders] over any enumeration of the index. *)
Lemma expire_fold now l s acc :
  wf s -> NoDup l.*1 -> (forall e, e ∈ l -> orders s !! e.1 = Some e.2) ->
  let r := foldl (expire_step now) (s, acc) l in
  let gone := filter (fun e => expired now (deref (heap s) e.2) = true) l in
  wf r.1 /\ heap r.1 = heap s /\ nextID r.1 = nextID s /\
  r.2 = acc ++ gone.*2 /\
  (forall id p, orders r.1 !! id = Some p <-> orders s !! id = Some p /\ id ∉ gone.*1).
Proof.
  revert s acc. induction l as [|[id p] l IH]; intros s acc Hwf Hnd Hl; simpl.
  - rewrite app_nil_r. split_and!; try done. intros. split; [|by intros [? _]].
    intros ?. split; [done|]. apply not_elem_of_nil.
  - rewrite fmap_cons in Hnd. apply NoDup_cons in Hnd as [Hid Hnd].
    assert (Hp : orders s !! id = Some p) by (apply (Hl (id, p)); set_solver).
    unfold expire_step at 2 4 6 8 10; cbn [fst snd].
    destruct (remove_order_fields s id (deref (heap s) p)) as (Hh & Ho & Hni).
    destruct (expired now (deref (heap s) p)) eqn:Ee.
    + destruct (IH (remove_order s id (deref (heap s) p)) (acc ++ [p])) as (H1 & H2 & H3 & H4 & H5);
        [by apply remove_order_wf|done| |].
      { intros e He. rewrite Ho, lookup_delete_ne; [apply Hl; set_solver|].
        intros Heq. apply Hid. cbn [fst]. rewrite Heq. by apply list_elem_of_fmap_2. }
      rewrite H2, H3, H4, Hh. rewrite filter_cons_True by done. cbn [fmap list_fmap fst snd].
      split_and!; [done..|by rewrite <- app_assoc|]. rewrite Hh, Ho in H5.
      intros id' p'. rewrite H5, lookup_delete_Some, not_elem_of_cons. naive_solver.
    + destruct (IH s acc) as (H1 & H2 & H3 & H4 & H5); [done..|intros; apply Hl; set_solver|].
      rewrite filter_cons_False by (cbn; congruence). done.
Qed.
End Removal.

Section Volumes.
Lemma sum_Z_app l1 l2 : sum_Z (l1 ++ l2) = sum_Z l1 + sum_Z l2.
Proof. unfold sum_Z. induction l1; simpl in *; lia. Qed.

Lemma volume_app h l1 l2 : volume h (l1 ++ l2) = volume h l1 + volume h l2.
Proof. unfold volume. by rewrite fmap_app, sum_Z_app. Qed.

Lemma volume_cons h p l : volume h (p :: l) = Quantity (deref h p) + volume h l.
Proof. done. Qed.

Lemma traded_app l1 l2 : traded (l1 ++ l2) = traded l1 + traded l2.
Proof. unfold traded. by rewrite fmap_app, sum_Z_app. Qed.

Lemma traded_one m : traded [m] = m_Quantity m.
Proof. unfold traded. simpl. lia. Qed.

Lemma deref_insert h p o : deref (<[p := o]> h) p = o.
Proof. unfold deref. by rewrite lookup_insert, decide_True. Qed.

Lemma deref_insert_ne h p o x : x <> p -> deref (<[p := o]> h) x = deref h x.
Proof. intros. unfold deref. by rewrite lookup_insert_ne. Qed.

Lemma fmap_deref_insert {B} (f : Order -> B) h p o (l : list ptr) :
  p ∉ l -> (fun x => f (deref (<[p := o]> h) x)) <$> l = (fun x => f (deref h x)) <$> l.
Proof.
  intros Hp. apply list_fmap_ext. intros i x Hx. rewrite deref_insert_ne; [done|].
  intros ->. apply Hp. by eapply list_elem_of_lookup_2.
Qed.

Lemma volume_insert h p o l : p ∉ l -> volume (<[p := o]> h) l = volume h l.
Proof. intros. unfold volume. by rewrite fmap_deref_insert. Qed.

(** What the walk knows of the order it stands at. *)
Lemma WI_here h0 om0 l0 k sd st p tail :
  WI h0 om0 l0 k sd st (ms_kept st ++ p :: tail) ->
  exists o, ms_heap st !! p = Some o /\ in_qty (Quantity o) /\ in_price (Price o) /\
    (p ∉ ms_kept st) /\ (p ∉ tail).
Proof.
  intros [_ _ Hnd Hl _ _ _ _]. destruct (Hl p) as (o & ? & _ & _ & _ & ? & ?); [set_solver|].
  exists o. rewrite <- Permutation_middle in Hnd. apply NoDup_cons in Hnd as [Hn _].
  split_and!; try done; set_solver.
Qed.
End Volumes.

Section Conservation.
Context (event : Order -> Z -> MatchEvent).
Hypothesis event_qty : forall o q, m_Quantity (event o q) = q.
Context (h0 : gmap ptr Order) (om0 : gmap Z ptr) (l0 : list ptr) (k : BookKey) (sd : OrderSide).
Hypothesis Hom0 : forall id p o, om0 !! id = Some p -> h0 !! p = Some o -> ID o = id.
Abbreviation WI := (WI h0 om0 l0 k sd).

Lemma fill_volume st p tail q cost :
  0 < q -> q <= Quantity (deref (ms_heap st) p) -> WI st (ms_kept st ++ p :: tail) ->
  volume (ms_heap (fill event st p q cost)) (ms_kept (fill event st p q cost) ++ tail) =
  volume (ms_heap st) (ms_kept st ++ p :: tail) - q.
Proof.
  intros Hq Hq1 HW. destruct (WI_here _ _ _ _ _ _ _ _ HW) as (o & Hp & Hqty & _ & Hn1 & Hn2).
  pose proof (deref_lookup _ _ _ Hp) as Hd. rewrite Hd in Hq1.
  rewrite (fill_heap event st p q cost o Hp (conj Hq Hq1) Hqty).
  destruct (fill_kept event st p q cost o Hp (conj Hq Hq1) Hqty) as [(-> & -> & _)|(_ & -> & _)];
    rewrite !volume_app, !volume_cons, !volume_insert, ?Hd, ?deref_insert by set_solver;
    change (volume _ []) with 0; simpl; lia.
Qed.

Lemma walk_conserves st rest st' l' :
  walk event st rest st' l' -> WI st (ms_kept st ++ rest) ->
  ms_remaining st' + traded (ms_matches st') = ms_remaining st + traded (ms_matches st) /\
  volume (ms_heap st') l' + traded (ms_matches st') =
    volume (ms_heap st) (ms_kept st ++ rest) + traded (ms_matches st).
Proof.
  induction 1 as [|st p tail q cost st' l' ? ? ? _ IH]; intros HW; [done|].
  pose proof (wi_rem _ _ _ _ _ _ _ HW).
  destruct IH as [IH1 IH2]; [by apply WI_fill|]. rewrite IH1, IH2.
  rewrite fill_remaining, fill_volume, fill_matches, traded_app, traded_one, event_qty
    by (done || lia). lia.
Qed.

(** The loop is [ref_match] on the orders its side points to. *)
Lemma match_loop_ref stop st rest :
  WI st (ms_kept st ++ rest) ->
  let r := match_loop stop event st rest in
  let f := ref_match stop (ms_remaining st) (deref (ms_heap st) <$> rest) in
  ms_matches r.1 = ms_matches st ++ (uncurry event <$> f.1.1) /\
  deref (ms_heap r.1) <$> r.2 = (deref (ms_heap st) <$> ms_kept st) ++ f.1.2 /\
  ms_remaining r.1 = f.2.
Proof.
  revert st. induction rest as [|p tail IH]; intros st HW.
  { simpl. by rewrite !app_nil_r. }
  rewrite fmap_cons. cbn [match_loop ref_match].
  destruct (Z.leb_spec (ms_remaining st) 0) as [Hr|Hr], (Z.ltb_spec 0 (ms_remaining st)); try lia.
  { simpl. rewrite !app_nil_r, fmap_app. done. }
  destruct (WI_here _ _ _ _ _ _ _ _ HW) as (o & Hp & Hqty & _ & Hn1 & Hn2).
  pose proof (deref_lookup _ _ _ Hp) as Hd. rewrite Hd. cbn [orb].
  destruct (stop o); [simpl; rewrite !app_nil_r, fmap_app; simpl; by rewrite Hd|].
  pose proof (wi_rem _ _ _ _ _ _ _ HW) as Hrem. unfold in_qty in Hqty.
  set (q := if Quantity o <? ms_remaining st then _ else _).
  assert (Hq : q = Z.min (ms_remaining st) (Quantity o)).
  { unfold q. destruct (Z.ltb_spec (Quantity o) (ms_remaining st)); lia. }
  clearbody q. rewrite <- Hq.
  assert (Hq2 : 0 < q <= Quantity o) by lia.
  destruct (IH (fill event st p q (ms_cost st))) as (H1 & H2 & H3).
  { apply WI_fill; try done; rewrite ?Hd; lia. }
  rewrite fill_remaining, (fill_heap event st p q _ o) in * by (done || lia).
  assert (Ht : deref (<[p := set_qty o (Quantity o - q)]> (ms_heap st)) <$> tail = deref (ms_heap st) <$> tail)
    by (by apply (fmap_deref_insert id)).
  assert (Hk : deref (<[p := set_qty o (Quantity o - q)]> (ms_heap st)) <$> ms_kept st = deref (ms_heap st) <$> ms_kept st)
    by (by apply (fmap_deref_insert id)).
  rewrite Ht in *.
  destruct (ref_match stop (ms_remaining st - q) (deref (ms_heap st) <$> tail)) as [[fs t'] more] eqn:Er.
  cbn [fst snd] in *. rewrite H1, H2, H3, fill_matches, Hd, <- app_assoc. split; [done|]. split; [|done].
  destruct (fill_kept event st p q (ms_cost st) o Hp Hq2 Hqty) as [(Heq & -> & _)|(Hlt & -> & _)].
  - rewrite Hk. by destruct (Z.eqb_spec (Quantity o) q); [|lia].
  - destruct (Z.eqb_spec (Quantity o) q); [lia|].
    rewrite fmap_app, Hk, <- app_assoc. simpl. by rewrite deref_insert.
Qed.
End Conservation.

Section Uncrossed.
Context (event : Order -> Z -> MatchEvent).
Context (h0 : gmap ptr Order) (om0 : gmap Z ptr) (l0 : list ptr) (k : BookKey) (sd : OrderSide).
Hypothesis Hom0 : forall id p o, om0 !! id = Some p -> h0 !! p = Some o -> ID o = id.
Context (stop : Order -> bool).
Hypothesis stop_mono : forall o o', after sd o' o = false -> stop o = true -> stop o' = true.

Lemma match_loop_zero st rest : ms_remaining st = 0 -> (match_loop stop event st rest).1 = st.
Proof. intros H. destruct rest; simpl; [done|]. by rewrite H. Qed.

(** When quantity is left over, everything still on the side stops the match. *)
Lemma match_loop_exhausted st rest :
  WI h0 om0 l0 k sd st (ms_kept st ++ rest) -> ms_kept st = [] ->
  StronglySorted (before sd (ms_heap st)) rest ->
  let r := match_loop stop event st rest in
  0 < ms_remaining r.1 -> forall p, p ∈ r.2 -> stop (deref (ms_heap r.1) p) = true.
Proof.
  revert st. induction rest as [|p tail IH]; intros st HW Hk Hs; cbn [match_loop]; cbv zeta.
  { intros _ x. simpl. rewrite Hk. by intros []%not_elem_of_nil. }
  destruct (Z.ltb_spec 0 (ms_remaining st)) as [Hr|Hr]; [|simpl; lia].
  destruct (WI_here _ _ _ _ _ _ _ _ HW) as (o & Hp & Hqty & _ & _ & Hn2).
  pose proof (deref_lookup _ _ _ Hp) as Hd. rewrite Hd.
  inversion Hs as [|? ? Hs' Hf]; subst.
  destruct (stop (deref (ms_heap st) p)) eqn:Est.
  { intros _ x. simpl. rewrite Hk. intros [->|Hx]%elem_of_cons; [done|].
    eapply stop_mono; [|exact Est]. by eapply Forall_forall in Hf. }
  pose proof (wi_rem _ _ _ _ _ _ _ HW) as Hrem. unfold in_qty in Hqty.
  set (o := deref (ms_heap st) p) in *.
  set (q := if Quantity o <? ms_remaining st then _ else _).
  assert (Hq : q = Z.min (ms_remaining st) (Quantity o)).
  { unfold q. destruct (Z.ltb_spec (Quantity o) (ms_remaining st)); lia. }
  clearbody q. assert (Hq2 : 0 < q <= Quantity o) by lia.
  destruct (fill_kept event st p q (ms_cost st) o Hp Hq2 Hqty) as [(Heq & Hk' & _)|(Hlt & _ & _)].
  - apply IH; [apply WI_fill; [done|lia|fold o; lia|lia|done] | congruence |].
    rewrite (fill_heap event st p q _ o) by done.
    eapply StronglySorted_ext_in; [|exact Hs']. intros x y Hx Hy.
    unfold before. rewrite !deref_insert_ne by (intros ->; done). done.
  - rewrite match_loop_zero; rewrite fill_remaining by lia; lia.
Qed.
End Uncrossed.

Section UncrossedOps.
Lemma commit_uncrossed s k ob sd st' l' :
  uncrossed s -> books s !! k = Some ob ->
  WI (heap s) (orders s) (side_list sd ob) k sd st' l' ->
  uncrossed (commit sd s k ob (st', l')).
Proof.
  intros Hu Hk HW k' ob' b a Hk' Hb Ha. simpl in *.
  pose proof (wi_stat _ _ _ _ _ _ _ HW) as Hstat. rewrite !(stat_price _ _ _ Hstat).
  assert (Hin : forall sd' x, x ∈ side_list sd' ob' ->
            exists ob0, books s !! k' = Some ob0 /\ x ∈ side_list sd' ob0).
  { intros sd' x Hx.
    destruct (set_side_cases _ _ _ _ _ _ _ sd' Hk Hk') as [(-> & -> & Hs)|(ob0 & Hob0 & Hs & _)];
      rewrite Hs in Hx; [|eauto]. exists ob. split; [done|].
    eapply elem_of_sublist; [exact Hx|]. apply HW. }
  destruct (Hin SideBuy b Hb) as (ob0 & ? & ?), (Hin SideSell a Ha) as (ob1 & ? & ?).
  simplify_eq. by eapply Hu.
Qed.

(** The new order must not cross the opposite side. *)
Definition fits (h : gmap ptr Order) (o : Order) (ob : OrderBook) : Prop :=
  match Side o with
  | SideSell => forall b, b ∈ Buys ob -> Price (deref h b) < Price o
  | SideBuy => forall a, a ∈ Sells ob -> Price o < Price (deref h a)
  end.

Lemma add_uncrossed s o ob nid :
  wf s -> uncrossed s -> books s !! key_of o = Some ob -> fits (heap s) o ob ->
  uncrossed (add_order s o ob nid).
Proof.
  intros Hwf Hu Hk Hfit k' ob' b a Hk' Hb Ha. simpl in *. rewrite Insert_eq in Hk'.
  assert (Hold : forall k0 ob0 sd x, books s !! k0 = Some ob0 -> x ∈ side_list sd ob0 ->
            deref (<[nextPtr s := o]> (heap s)) x = deref (heap s) x).
  { intros. apply deref_insert_ne. by eapply listed_fresh. }
  assert (Hin : forall sd' x, x ∈ side_list sd' ob' ->
            (x = nextPtr s /\ k' = key_of o /\ sd' = Side o) \/
            exists ob0, books s !! k' = Some ob0 /\ x ∈ side_list sd' ob0).
  { intros sd' x Hx.
    destruct (set_side_cases _ _ _ _ _ _ _ sd' Hk Hk') as [(-> & -> & Hs)|(ob0 & Hob0 & Hs & _)];
      rewrite Hs in Hx; [|eauto]. rewrite insert_at_perm in Hx.
    apply elem_of_cons in Hx as [->|Hx]; eauto. }
  unfold fits in Hfit.
  destruct (Hin SideBuy b Hb) as [(Hb0 & Hk0 & Hs)|(ob0 & ? & ?)],
           (Hin SideSell a Ha) as [(Ha0 & Hk1 & Hs')|(ob1 & ? & ?)]; try congruence; subst; simplify_eq.
  - rewrite <- Hs in Hfit. rewrite deref_insert, (Hold _ _ SideSell a) by done. by apply Hfit.
  - rewrite <- Hs' in Hfit. rewrite deref_insert, (Hold _ _ SideBuy b) by done. by apply Hfit.
  - rewrite (Hold _ _ SideSell a), (Hold _ _ SideBuy b) by done. by eapply Hu.
Qed.

Lemma GetBook_uncrossed s loc item : uncrossed s -> uncrossed (GetBook s loc item).1.
Proof.
  intros Hu. unfold GetBook. destruct (books s !! (loc, item)) eqn:E; [done|].
  intros k ob b a Hk Hb Ha. simpl in *.
  apply lookup_insert_Some in Hk as [[_ <-]|[_ ?]]; [|by eapply Hu].
  by apply not_elem_of_nil in Hb.
Qed.

Lemma rest_order_eq s side owner k price rem qty now now' ob :
  0 < rem -> nextID s + 1 < 2 ^ 64 -> 0 <= nextID s -> books s !! k = Some ob ->
  let o := mkOrder (nextID s) side owner k.1 k.2 price rem qty now (i64 (now' + OrderExpiry (cfg s))) in
  rest_order s side owner k price rem qty now now' =
    (add_order s o ob (nextID s + 1), Some (nextPtr s)).
Proof.
  intros Hr Hn H0 Hk. unfold rest_order. rewrite (proj2 (Z.ltb_lt 0 rem) Hr).
  unfold allocID, new_order, SetNextID, GetBook; simpl. destruct k as [loc item]. simpl in *. rewrite Hk.
  unfold set_orders, set_book, add_order, key_of; simpl. rewrite u64_id by (unfold_int; lia).
  by destruct side.
Qed.
End UncrossedOps.

Section Steps.
Lemma sell_event_qty sellerID loc item o q : m_Quantity (sell_event sellerID loc item o q) = q.
Proof. done. Qed.
Lemma buy_event_qty buyerID loc item o q : m_Quantity (buy_event buyerID loc item o q) = q.
Proof. done. Qed.

(** A limit order of side [sd] at [price] stops at the first resting order of the
    opposite side that does not meet the price. *)
Definition opposite (sd : OrderSide) : OrderSide :=
  match sd with SideSell => SideBuy | SideBuy => SideSell end.
Definition limit (sd : OrderSide) (price : Z) (o : Order) : bool :=
  match sd with SideSell => Price o <? price | SideBuy => price <? Price o end.

Lemma limit_mono sd price o o' :
  after (opposite sd) o' o = false -> limit sd price o = true -> limit sd price o' = true.
Proof.
  destruct sd; simpl; unfold after_sell, after_buy;
    repeat match goal with |- context [?a =? ?b] => destruct (Z.eqb_spec a b) end; lia.
Qed.

(** The common body of the two Place functions after their guards. *)
Definition place (sd : OrderSide) (event : Order -> Z -> MatchEvent) (now now' : Z) (s : Service)
  (owner : string) (k : BookKey) (price qty : Z) : Service * list MatchEvent * option ptr :=
  let sb := GetBook s k.1 k.2 in
  let r := match_loop (limit sd price) event (match_start sb.1 qty) (side_list (opposite sd) sb.2) in
  let s2 := commit (opposite sd) sb.1 k sb.2 r in
  let rr := rest_order s2 sd owner k price (ms_remaining r.1) qty now now' in
  (rr.1, ms_matches r.1, rr.2).

Lemma PlaceSellOrder_place now now' s sellerID loc item price qty x :
  PlaceSellOrder now now' s sellerID loc item price qty = Ok x ->
  MinPrice (cfg s) <= price /\ 0 < qty /\
  x = place SideSell (sell_event sellerID loc item) now now' s sellerID (loc, item) price qty.
Proof.
  unfold PlaceSellOrder, place. destruct (Z.ltb_spec price (MinPrice (cfg s))); [done|].
  destruct (Z.leb_spec qty 0); [done|]. case_match; [done|]. cbn [fst snd].
  destruct (GetBook s loc item) as [s1 ob]. cbn [fst snd side_list opposite].
  destruct (rest_order _ _ _ _ _ _ _ _ _) eqn:E. intros [= <-].
  by split_and!.
Qed.

Lemma PlaceBuyOrder_place now now' s buyerID loc item price qty x :
  PlaceBuyOrder now now' s buyerID loc item price qty = Ok x ->
  MinPrice (cfg s) <= price /\ 0 < qty /\
  x = place SideBuy (buy_event buyerID loc item) now now' s buyerID (loc, item) price qty.
Proof.
  unfold PlaceBuyOrder, place. destruct (Z.ltb_spec price (MinPrice (cfg s))); [done|].
  destruct (Z.leb_spec qty 0); [done|]. case_match; [done|]. cbn [fst snd].
  destruct (GetBook s loc item) as [s1 ob]. cbn [fst snd side_list opposite].
  destruct (rest_order _ _ _ _ _ _ _ _ _) eqn:E. intros [= <-].
  by split_and!.
Qed.
End Steps.

Lemma place_book s k :
  wf s ->
  let s1 := (GetBook s k.1 k.2).1 in
  wf s1 /\ books s1 !! k = Some (GetBook s k.1 k.2).2 /\ heap s1 = heap s /\
  orders s1 = orders s /\ nextPtr s1 = nextPtr s /\ nextID s1 = nextID s /\ cfg s1 = cfg s.
Proof. destruct k as [loc item]. apply (GetBook_wf s loc item). Qed.

Section Place.
Context (sd : OrderSide) (event : Order -> Z -> MatchEvent).
Context (now now' : Z) (s : Service) (owner : string) (k : BookKey) (price qty : Z).
Hypothesis Hwf : wf s.
Hypothesis Hqty : 0 < qty < 2 ^ 31.
Hypothesis Hprice : in_price price.
Hypothesis Hnext : nextID s + 1 < 2 ^ 64.
Let Hpos : 0 <= nextID s := proj2 (wf_cfg s Hwf).

Let s1 : Service := (GetBook s k.1 k.2).1.
Let ob : OrderBook := (GetBook s k.1 k.2).2.
Let r : MatchState * list ptr :=
  match_loop (limit sd price) event (match_start s1 qty) (side_list (opposite sd) ob).

Lemma place_book' :
  wf s1 /\ books s1 !! k = Some ob /\ heap s1 = heap s /\ orders s1 = orders s /\
  nextPtr s1 = nextPtr s /\ nextID s1 = nextID s /\ cfg s1 = cfg s.
Proof. apply (place_book s k Hwf). Qed.

Lemma place_WI : WI (heap s1) (orders s1) (side_list (opposite sd) ob) k (opposite sd) r.1 r.2.
Proof.
  destruct place_book' as (Hwf1 & Hk & _). eapply WI_walk; [by apply wf_ids| |].
  - eapply match_loop_walk; [by apply wf_ids|]. by apply WI_start.
  - by apply WI_start.
Qed.

(** Either nothing is left and the match is the whole effect, or the rest is
    added to the own side of a book whose other side it does not cross. *)
Lemma place_cases :
  (ms_remaining r.1 = 0 /\
   place sd event now now' s owner k price qty =
     (commit (opposite sd) s1 k ob r, ms_matches r.1, None)) \/
  (let o := mkOrder (nextID s) sd owner k.1 k.2 price (ms_remaining r.1) qty now
              (i64 (now' + OrderExpiry (cfg s))) in
   let s2 := commit (opposite sd) s1 k ob r in
   in_qty (ms_remaining r.1) /\
   fits (heap s2) o (set_side (opposite sd) ob r.2) /\
   place sd event now now' s owner k price qty =
     (add_order s2 o (set_side (opposite sd) ob r.2) (nextID s + 1), ms_matches r.1, Some (nextPtr s))).
Proof.
  pose proof place_WI as HW. pose proof (wi_rem _ _ _ _ _ _ _ HW) as Hrem.
  destruct place_book' as (Hwf1 & Hk & _ & _ & Hnp & Hni & Hcfg).
  unfold place. fold s1 ob r. cbv zeta.
  destruct (decide (ms_remaining r.1 = 0)) as [H0|H0].
  - left. split; [done|]. unfold rest_order. by rewrite H0.
  - right. assert (Hr : 0 < ms_remaining r.1) by lia.
    split; [unfold in_qty; lia|]. split.
    + pose proof (match_loop_exhausted event (heap s1) (orders s1) (side_list (opposite sd) ob) k (opposite sd)
        (wf_ids s1 Hwf1) (limit sd price) (limit_mono sd price) (match_start s1 qty)
        (side_list (opposite sd) ob)) as Hex.
      cbv zeta in Hex. fold r in Hex. specialize (Hex ltac:(by apply WI_start) eq_refl
        (wf_sorted s1 Hwf1 _ _ _ Hk) Hr).
      unfold fits. destruct sd; simpl in *; intros x Hx; specialize (Hex x Hx); unfold limit in Hex; lia.
    + erewrite rest_order_eq; simpl; rewrite ?Hni, ?Hnp, ?Hcfg; try done.
      rewrite lookup_insert, decide_True by done. done.
Qed.

Lemma place_inv :
  wf (place sd event now now' s owner k price qty).1.1 /\
  (uncrossed s -> uncrossed (place sd event now now' s owner k price qty).1.1).
Proof.
  pose proof place_WI as HW. destruct place_book' as (Hwf1 & Hk & _ & Ho1 & Hnp & Hni & Hcfg).
  assert (Hc : wf (commit (opposite sd) s1 k ob r)).
  { destruct r as [st l]. by apply commit_wf. }
  assert (Hu : uncrossed s -> uncrossed (commit (opposite sd) s1 k ob r)).
  { intros Hu. destruct r as [st l]. apply commit_uncrossed; try done. by apply GetBook_uncrossed. }
  destruct place_cases as [[_ ->]|(Hq & Hfit & ->)]; [by split|]. cbn [fst].
  assert (Hbk : books (commit (opposite sd) s1 k ob r) !! k = Some (set_side (opposite sd) ob r.2)).
  { simpl. by rewrite lookup_insert, decide_True. }
  destruct k as [loc item] eqn:Ek. split.
  - apply add_order_wf; try done; simpl; [|lia|lia].
    destruct (ms_orders r.1 !! nextID s) as [p|] eqn:E; [|done].
    apply (wi_orders _ _ _ _ _ _ _ HW) in E as [E _]. rewrite Ho1 in E.
    apply (wf_id s Hwf) in E. lia.
  - intros HU. apply add_uncrossed; try done. by apply Hu.
Qed.
End Place.

Section Instant.
Context (s : Service) (k : BookKey) (qty : Z).
Hypothesis Hwf : wf s.
Hypothesis Hqty : 0 < qty < 2 ^ 31.

Lemma instant_sell_WI event :
  let sb := GetBook s k.1 k.2 in
  let r := match_loop (fun _ => false) event (match_start sb.1 qty) (Buys sb.2) in
  WI (heap sb.1) (orders sb.1) (Buys sb.2) k SideBuy r.1 r.2.
Proof.
  destruct (place_book s k Hwf) as (Hwf1 & Hk & _). cbv zeta.
  pose proof (WI_start _ _ _ SideBuy qty Hwf1 Hk Hqty) as HW.
  eapply WI_walk; [by apply wf_ids| |exact HW]. eapply match_loop_walk; [by apply wf_ids|exact HW].
Qed.

Lemma instant_buy_WI event maxCost :
  in_i64 maxCost ->
  let sb := GetBook s k.1 k.2 in
  let r := instant_buy_loop maxCost event (match_start sb.1 qty) (Sells sb.2) in
  WI (heap sb.1) (orders sb.1) (Sells sb.2) k SideSell r.1 r.2.
Proof.
  intros Hm. destruct (place_book s k Hwf) as (Hwf1 & Hk & _). cbv zeta.
  pose proof (WI_start _ _ _ SideSell qty Hwf1 Hk Hqty) as HW.
  eapply WI_walk; [by apply wf_ids| |exact HW].
  eapply instant_buy_loop_walk; [by apply wf_ids|done|unfold_int; simpl; lia|exact HW].
Qed.
End Instant.

Section StepInvariant.
Lemma commit_inv s k sd st l :
  wf s -> uncrossed s ->
  let sb := GetBook s k.1 k.2 in
  WI (heap sb.1) (orders sb.1) (side_list sd sb.2) k sd st l ->
  wf (commit sd sb.1 k sb.2 (st, l)) /\ uncrossed (commit sd sb.1 k sb.2 (st, l)).
Proof.
  intros Hwf Hu sb HW. destruct (place_book s k Hwf) as (Hwf1 & Hk & _).
  split; [by apply commit_wf|]. apply commit_uncrossed; [by apply GetBook_uncrossed|done..].
Qed.

Lemma remove_order_uncrossed s id p :
  wf s -> orders s !! id = Some p -> uncrossed s -> uncrossed (remove_order s id (deref (heap s) p)).
Proof.
  intros Hwf Hid Hu.
  destruct (remove_order_spec s id p Hwf Hid) as (ob & l1 & l2 & _ & _ & Hk & Hl & -> & HW).
  apply commit_uncrossed; [done..|]. by rewrite Hl.
Qed.

Lemma expire_uncrossed now l s acc :
  wf s -> NoDup l.*1 -> (forall e, e ∈ l -> orders s !! e.1 = Some e.2) -> uncrossed s ->
  uncrossed (foldl (expire_step now) (s, acc) l).1.
Proof.
  revert s acc. induction l as [|[id p] l IH]; intros s acc Hwf Hnd Hl Hu; [done|].
  rewrite fmap_cons in Hnd. apply NoDup_cons in Hnd as [Hid Hnd].
  assert (Hp : orders s !! id = Some p) by (apply (Hl (id, p)); set_solver).
  cbn [foldl]. unfold expire_step at 2; cbn [fst snd]. case_match; [|apply IH; set_solver].
  apply IH; [by apply remove_order_wf|done| |by apply remove_order_uncrossed].
  destruct (remove_order_fields s id (deref (heap s) p)) as (_ & -> & _).
  intros e He. rewrite lookup_delete_ne; [apply Hl; set_solver|].
  intros Heq. apply Hid. cbn [fst]. rewrite Heq. by apply list_elem_of_fmap_2.
Qed.

Lemma index_enum s :
  NoDup (map_to_list (orders s)).*1 /\
  forall e, e ∈ map_to_list (orders s) -> orders s !! e.1 = Some e.2.
Proof.
  split; [apply NoDup_fst_map_to_list|]. intros [id p] He. by apply elem_of_map_to_list.
Qed.

Lemma op_step_inv s s' : op_step s s' -> wf s /\ uncrossed s -> wf s' /\ uncrossed s'.
Proof.
  intros Hstep [Hwf Hu]. pose proof (wf_cfg s Hwf) as [Hmin Hn0].
  destruct Hstep as [now now' s sellerID loc item price qty s' ms r Hq Hp Hn H
                    |now now' s buyerID loc item price qty s' ms r Hq Hp Hn H
                    |s sellerID loc item qty s' ms Hq H
                    |s buyerID loc item qty maxCost s' ms Hq Hm H
                    |s playerID id s' p H|now s|s loc item|s Hn].
  - apply PlaceSellOrder_place in H as (Hmp & Hq0 & Hx).
    destruct (place_inv SideSell (sell_event sellerID loc item) now now' s sellerID (loc, item) price qty)
      as [H1 H2]; [done|done|unfold in_price; lia|done|]. rewrite <- Hx in H1, H2. auto.
  - apply PlaceBuyOrder_place in H as (Hmp & Hq0 & Hx).
    destruct (place_inv SideBuy (buy_event buyerID loc item) now now' s buyerID (loc, item) price qty)
      as [H1 H2]; [done|done|unfold in_price; lia|done|]. rewrite <- Hx in H1, H2. auto.
  - unfold InstantSell in H. destruct (Z.leb_spec qty 0); [done|].
    pose proof (instant_sell_WI s (loc, item) qty Hwf (conj H0 Hq) (sell_event sellerID loc item)) as HW.
    pose proof (commit_inv s (loc, item) SideBuy _ _ Hwf Hu HW) as Hc.
    cbn [fst snd] in *. destruct (GetBook s loc item). by injection H as <- _.
  - unfold InstantBuy in H. destruct (Z.leb_spec qty 0); [done|].
    pose proof (instant_buy_WI s (loc, item) qty Hwf (conj H0 Hq) (buy_event buyerID loc item) maxCost Hm) as HW.
    pose proof (commit_inv s (loc, item) SideSell _ _ Hwf Hu HW) as Hc.
    cbn [fst snd] in *. destruct (GetBook s loc item). by injection H as <- _.
  - unfold CancelOrder in H. destruct (orders s !! id) as [q|] eqn:E; [|done].
    case_match; [done|]. injection H as <- <-.
    split; [by apply remove_order_wf|by apply remove_order_uncrossed].
  - destruct (index_enum s) as [Hnd Hin]. split; [|by apply expire_uncrossed].
    by apply (expire_fold now (map_to_list (orders s)) s []).
  - unfold Browse. pose proof (GetBook_wf s loc item Hwf) as [H1 _].
    pose proof (GetBook_uncrossed s loc item Hu) as H2. by destruct (GetBook s loc item).
  - split; [|exact Hu]. simpl. constructor; simpl; try apply Hwf; rewrite u64_id by (unfold_int; lia).
    + intros id p Hid. apply (wf_id s Hwf) in Hid. lia.
    + lia.
Qed.
End StepInvariant.

(** ** The theorems *)

(** What placing a limit order of [sd] at [price] for [qty] does to book [k]: the
    opposite side is matched as [ref_match] says, the events report its fills in
    order, and what is left rests on the own side as one new order. *)
Definition placed (sd : OrderSide) (event : Order -> Z -> MatchEvent) (now now' : Z) (s : Service)
  (owner : string) (k : BookKey) (price qty : Z)
  (s' : Service) (ms : list MatchEvent) (resting : option ptr) : Prop :=
  let ob := (GetBook s k.1 k.2).2 in
  let f := ref_match (limit sd price) qty (deref (heap s) <$> side_list (opposite sd) ob) in
  exists ob', books s' !! k = Some ob' /\
    ms = uncurry event <$> f.1.1 /\ traded ms + f.2 = qty /\
    deref (heap s') <$> side_list (opposite sd) ob' = f.1.2 /\
    match resting with
    | None => f.2 = 0 /\ side_list sd ob' = side_list sd ob
    | Some p =>
        in_qty f.2 /\ side_list sd ob' ≡ₚ p :: side_list sd ob /\
        deref (heap s') p = mkOrder (nextID s) sd owner k.1 k.2 price f.2 qty now
                              (i64 (now' + OrderExpiry (cfg s)))
    end.

Section PlaceSpec.
Context (sd : OrderSide) (event : Order -> Z -> MatchEvent).
Hypothesis event_qty : forall o q, m_Quantity (event o q) = q.

Lemma opposite_ne : sd <> opposite sd.
Proof. by destruct sd. Qed.

Lemma place_spec now now' s owner k price qty :
  wf s -> 0 < qty < 2 ^ 31 -> in_price price -> nextID s + 1 < 2 ^ 64 ->
  let r := place sd event now now' s owner k price qty in
  placed sd event now now' s owner k price qty r.1.1 r.1.2 r.2.
Proof.
  intros Hwf Hq Hp Hn. cbv zeta. destruct (place_book s k Hwf) as (Hwf1 & Hk & Hh & _ & Hnp & _).
  set (s1 := (GetBook s k.1 k.2).1) in *. set (ob := (GetBook s k.1 k.2).2) in *.
  pose proof (WI_start _ _ _ (opposite sd) qty Hwf1 Hk Hq) as HW0.
  pose proof (place_WI sd event s k price qty Hwf Hq) as HW.
  pose proof (match_loop_ref event _ _ _ _ _ (wf_ids s1 Hwf1) (limit sd price) _ _ HW0) as (Hm & Hl & Hr).
  destruct (walk_conserves event event_qty _ _ _ _ _ (wf_ids s1 Hwf1) _ _ _ _
    (match_loop_walk event _ _ _ _ _ (wf_ids s1 Hwf1) (limit sd price) _ _ HW0) HW0) as [Hcons _].
  pose proof (place_cases sd event now now' s owner k price qty Hwf Hq Hn) as Hcases.
  fold s1 ob in HW, Hm, Hl, Hr, Hcases.
  set (r := match_loop _ _ _ _) in *. unfold placed. fold ob. cbv zeta. rewrite <- Hh.
  cbn [ms_heap ms_kept ms_remaining match_start fmap list_fmap app ms_matches] in Hm, Hl, Hr, Hcons.
  set (f := ref_match _ _ _) in *. change (traded []) with 0 in Hcons.
  destruct Hcases as [[H0 ->]|(Hqr & _ & ->)]; cbn [fst snd].
  - exists (set_side (opposite sd) ob r.2). simpl.
    rewrite lookup_insert, decide_True, side_set_same, (side_set_other _ _ _ _ opposite_ne) by done.
    split_and!; try done; lia.
  - assert (Hkey : (k.1, k.2) = k) by (by destruct k). eexists.
    unfold add_order, key_of. cbn [books heap LocationID ItemID Side ID]. rewrite Hkey.
    rewrite lookup_insert, decide_True by done. split; [reflexivity|].
    split; [done|]. split; [lia|]. rewrite Insert_eq.
    change (nextPtr (commit (opposite sd) s1 k ob r)) with (nextPtr s1).
    rewrite side_set_other by (simpl; intros ?; by apply opposite_ne).
    rewrite side_set_same. split; [|split; [by rewrite <- Hr|]].
    + rewrite <- Hl. apply (fmap_deref_insert id). intros Hin.
      destruct (wi_listed _ _ _ _ _ _ _ HW _ Hin) as (o & Ho & _).
      pose proof (wi_stat _ _ _ _ _ _ _ HW (nextPtr s1)) as Hst. rewrite Ho in Hst.
      by rewrite (fresh_ptr s1 Hwf1) in Hst.
    + rewrite side_set_same, insert_at_perm, (side_set_other _ _ _ _ opposite_ne).
      split; [by rewrite Hnp|]. rewrite <- Hnp, deref_insert. by rewrite Hr.
Qed.
End PlaceSpec.

Section InstantBuySpec.
Context (event : Order -> Z -> MatchEvent).
Hypothesis event_qty : forall o q, m_Quantity (event o q) = q.
Hypothesis event_price : forall o q, m_Price (event o q) = Price o.
Context (h0 : gmap ptr Order) (om0 : gmap Z ptr) (l0 : list ptr) (k : BookKey) (sd : OrderSide).
Hypothesis Hom0 : forall id p o, om0 !! id = Some p -> h0 !! p = Some o -> ID o = id.

Lemma spent_app l1 l2 : spent (l1 ++ l2) = spent l1 + spent l2.
Proof. unfold spent. by rewrite fmap_app, sum_Z_app. Qed.

(** While no single fill and no running total can overflow, the running cost is
    what the events add up to. *)
Lemma instant_buy_loop_cost maxCost st rest :
  0 < maxCost < 2 ^ 62 ->
  WI h0 om0 l0 k sd st (ms_kept st ++ rest) ->
  (forall p, p ∈ rest -> Price (deref (ms_heap st) p) * Quantity (deref (ms_heap st) p) < 2 ^ 62) ->
  ms_cost st = spent (ms_matches st) -> 0 <= ms_cost st <= maxCost ->
  let r := instant_buy_loop maxCost event st rest in
  spent (ms_matches r.1) <= maxCost.
Proof.
  intros Hm. revert st. induction rest as [|p tail IH]; intros st HW Hno Hc Hb;
    cbn [instant_buy_loop]; cbv zeta; [simpl; lia|].
  destruct (Z.ltb_spec 0 (ms_remaining st)) as [Hr|]; [|simpl; lia].
  destruct (WI_here _ _ _ _ _ _ _ _ HW) as (o & Hp & Hqty & Hpr & _ & Hn2).
  pose proof (deref_lookup _ _ _ Hp) as Hd. pose proof (Hno p ltac:(set_solver)) as Hnp.
  rewrite Hd in *. unfold in_qty, in_price in *.
  set (tq := if Quantity o <? ms_remaining st then _ else _).
  assert (Htq : 0 < tq /\ tq <= Quantity o /\ tq <= ms_remaining st).
  { unfold tq. destruct (Z.ltb_spec (Quantity o) (ms_remaining st)); lia. }
  clearbody tq. destruct (budget maxCost (ms_cost st) (Price o) tq) as [[q cost]|] eqn:Eb; [|simpl; lia].
  change (2 ^ 62) with 4611686018427387904 in *.
  assert (Price o * tq < 4611686018427387904) by nia.
  destruct (budget_cost maxCost (ms_cost st) (Price o) tq q cost) as [Hcost Hle]; [lia..|done|].
  destruct (budget_qty maxCost (ms_cost st) (Price o) tq q cost) as [Hq' _];
    [unfold_int; lia | unfold_int; lia | unfold in_price; lia | lia | done |].
  apply IH.
  - apply WI_fill; [done|lia|rewrite Hd; lia|lia|done].
  - intros x Hx. rewrite (fill_heap event st p q cost o) by (done || lia).
    rewrite deref_insert_ne by (intros ->; done). apply Hno. set_solver.
  - rewrite fill_cost, fill_matches, spent_app, Hd. unfold spent at 2. simpl.
    rewrite event_qty, event_price. lia.
  - rewrite fill_cost. assert (0 <= Price o * q) by nia. lia.
Qed.
End InstantBuySpec.

Section Demo.
Lemma NewService_wf c : 0 < MinPrice c -> wf (NewService c) /\ uncrossed (NewService c).
Proof.
  intros. split.
  - constructor; cbn [heap orders books nextID cfg NewService]; try lia; intros *;
      rewrite lookup_empty; done.
  - intros k ob b a. cbn [books NewService]. by rewrite lookup_empty.
Qed.

(** Two bids at 10 and 12 for item 7 at location 1. *)
Definition demo_bid (s : Service) (owner : string) (price qty : Z) : Service :=
  match PlaceBuyOrder 100 100 s owner 1 7 price qty with Ok (s', _, _) => s' | Err _ => s end.
Definition demo_bids : Service := demo_bid (demo_bid (NewService DefaultConfig) "ann" 10 5) "bob" 12 3.

Lemma demo_bid_inv s owner price qty :
  qty < 2 ^ 31 -> price < 2 ^ 63 -> nextID s + 1 < 2 ^ 64 ->
  wf s /\ uncrossed s -> wf (demo_bid s owner price qty) /\ uncrossed (demo_bid s owner price qty).
Proof.
  intros ? ? ? Hinv. unfold demo_bid.
  destruct (PlaceBuyOrder _ _ _ _ _ _ _ _) as [[[s' ms] r]|e] eqn:E; [|done].
  eapply op_step_inv; [|exact Hinv]. by eapply op_buy.
Qed.

Lemma demo_bids_inv : wf demo_bids /\ uncrossed demo_bids.
Proof. do 2 (apply demo_bid_inv; [lia | lia | vm_compute; done |]). by apply NewService_wf. Qed.
End Demo.

(** C39: over any sequence of placing, instant trading, cancelling, expiring and
    browsing, from any well-formed uncrossed service, the books stay well formed
    (each order in exactly one side of its own book and in the index, each side
    sorted by price and age, every quantity positive) and no book is ever
    crossed: every resting bid is below every resting ask. *)
Theorem books_stay_uncrossed s s' :
  wf s -> uncrossed s -> rtc op_step s s' -> wf s' /\ uncrossed s'.
Proof.
  intros Hwf Hu Hr. induction Hr as [|s s1 s' Hs _ IH]; [done|].
  destruct (op_step_inv s s1 Hs); auto.
Qed.

Lemma books_stay_uncrossed_witness :
  wf demo_bids /\ uncrossed demo_bids.
Proof.
  apply (books_stay_uncrossed (demo_bid (NewService DefaultConfig) "ann" 10 5)).
  - apply demo_bid_inv; [lia | lia | vm_compute; done | by apply NewService_wf].
  - apply demo_bid_inv; [lia | lia | vm_compute; done | by apply NewService_wf].
  - apply rtc_once. unfold demo_bids, demo_bid at 1.
    eapply (op_buy 100 100 _ "bob" 1 7 12 3); [lia | lia | vm_compute; done | vm_compute; reflexivity].
Defined.

(** A sell order fills the resting bids exactly as the reference matcher says:
    best price first, oldest first, never below the limit price, the last one
    partially if it is larger than what is left; the traded quantities and the
    resting remainder add up to the order, the remainder rests as one new order
    on the sell side, and nothing rests when it is filled. *)
Theorem place_sell_order_spec now now' s sellerID loc item price qty s' ms resting :
  wf s -> qty < 2 ^ 31 -> price < 2 ^ 63 -> nextID s + 1 < 2 ^ 64 ->
  PlaceSellOrder now now' s sellerID loc item price qty = Ok (s', ms, resting) ->
  placed SideSell (sell_event sellerID loc item) now now' s sellerID (loc, item) price qty s' ms resting.
Proof.
  intros Hwf Hq Hp Hn (Hmin & Hq0 & Hx)%PlaceSellOrder_place. pose proof (proj1 (wf_cfg s Hwf)).
  pose proof (place_spec SideSell (sell_event sellerID loc item) (fun _ _ => eq_refl) now now' s sellerID
    (loc, item) price qty Hwf (conj Hq0 Hq) ltac:(unfold in_price; lia) Hn) as Hs.
  by rewrite <- Hx in Hs.
Qed.

Definition demo_sell : Service * list MatchEvent * option ptr :=
  match PlaceSellOrder 200 200 demo_bids "eve" 1 7 11 4 with Ok x => x | Err _ => (demo_bids, [], None) end.

Lemma place_sell_order_spec_witness :
  placed SideSell (sell_event "eve" 1 7) 200 200 demo_bids "eve" (1, 7) 11 4
    demo_sell.1.1 [mkMatch 2 0 "bob" "eve" 7 1 3 12] (Some 3).
Proof.
  apply (place_sell_order_spec 200 200 demo_bids "eve" 1 7 11 4);
    [apply demo_bids_inv | lia | lia | vm_compute; done | vm_compute; reflexivity].
Defined.

(** The mirror image for buy orders: a buy order fills the resting asks
    cheapest and oldest first, never above its limit price, and rests the
    remainder on the buy side. *)
Theorem place_buy_order_spec now now' s buyerID loc item price qty s' ms resting :
  wf s -> qty < 2 ^ 31 -> price < 2 ^ 63 -> nextID s + 1 < 2 ^ 64 ->
  PlaceBuyOrder now now' s buyerID loc item price qty = Ok (s', ms, resting) ->
  placed SideBuy (buy_event buyerID loc item) now now' s buyerID (loc, item) price qty s' ms resting.
Proof.
  intros Hwf Hq Hp Hn (Hmin & Hq0 & Hx)%PlaceBuyOrder_place. pose proof (proj1 (wf_cfg s Hwf)).
  pose proof (place_spec SideBuy (buy_event buyerID loc item) (fun _ _ => eq_refl) now now' s buyerID
    (loc, item) price qty Hwf (conj Hq0 Hq) ltac:(unfold in_price; lia) Hn) as Hs.
  by rewrite <- Hx in Hs.
Qed.

(** The book after the sell: one ask of 1 at 11, one bid of 5 at 10. *)
Definition demo_book : Service := demo_sell.1.1.

Lemma demo_book_inv : wf demo_book /\ uncrossed demo_book.
Proof.
  eapply op_step_inv; [|exact demo_bids_inv].
  eapply (op_sell 200 200 _ "eve" 1 7 11 4); [lia | lia | vm_compute; done | vm_compute; reflexivity].
Qed.

Definition demo_buy : Service * list MatchEvent * option ptr :=
  match PlaceBuyOrder 300 300 demo_book "cat" 1 7 13 2 with Ok x => x | Err _ => (demo_book, [], None) end.

Lemma place_buy_order_spec_witness :
  placed SideBuy (buy_event "cat" 1 7) 300 300 demo_book "cat" (1, 7) 13 2
    demo_buy.1.1 [mkMatch 0 3 "cat" "eve" 7 1 1 11] (Some 4).
Proof.
  apply (place_buy_order_spec 300 300 demo_book "cat" 1 7 13 2);
    [apply demo_book_inv | lia | lia | vm_compute; done | vm_compute; reflexivity].
Defined.

(** An instant buy with a budget never spends more than the budget, as long as
    no price times quantity in the book (nor the budget) reaches 2^62. *)
Theorem instant_buy_within_budget s buyerID loc item qty maxCost s' ms :
  wf s -> qty < 2 ^ 31 -> 0 < maxCost < 2 ^ 62 ->
  (forall p, p ∈ Sells (GetBook s loc item).2 ->
     Price (deref (heap s) p) * Quantity (deref (heap s) p) < 2 ^ 62) ->
  InstantBuy s buyerID loc item qty maxCost = Ok (s', ms) ->
  spent ms <= maxCost.
Proof.
  intros Hwf Hq Hm Hno. unfold InstantBuy. destruct (Z.leb_spec qty 0); [done|].
  destruct (place_book s (loc, item) Hwf) as (Hwf1 & Hk & Hh & _). cbn [fst snd] in *.
  destruct (GetBook s loc item) as [s1 ob]. cbn [fst snd] in *. intros [= <- <-].
  pose proof (WI_start s1 (loc, item) ob SideSell qty Hwf1 Hk ltac:(lia)) as HW.
  eapply (instant_buy_loop_cost (buy_event buyerID loc item) (fun _ _ => eq_refl) (fun _ _ => eq_refl));
    try exact HW; try done.
  - by apply wf_ids.
  - cbn [ms_heap match_start]. by rewrite Hh.
  - simpl. lia.
Qed.

Lemma instant_buy_within_budget_witness :
  match InstantBuy demo_book "dan" 1 7 5 30 with Ok (_, ms) => spent ms <= 30 | Err _ => False end.
Proof.
  destruct (InstantBuy demo_book "dan" 1 7 5 30) as [[s' ms]|] eqn:E; [|by vm_compute in E].
  apply (instant_buy_within_budget demo_book "dan" 1 7 5 30 s');
    [apply demo_book_inv | lia | lia | | exact E].
  intros p Hp. assert (Hl : Sells (GetBook demo_book 1 7).2 = [3]) by (by vm_compute).
  rewrite Hl in Hp. apply list_elem_of_singleton in Hp as ->. by vm_compute.
Defined.

(** C39: without that bound the budget is not kept: one ask of 4 units at 2^62 each costs
    2^64, which wraps to 0 and passes a budget of 100. *)
Definition demo_overflow : Service :=
  InsertLoadedOrder (NewService DefaultConfig) (mkOrder 1 SideSell "eve" 1 7 (2 ^ 62) 4 4 0 0).

Theorem instant_buy_overspends :
  match InstantBuy demo_overflow "dan" 1 7 4 100 with
  | Ok (_, ms) => spent ms = 2 ^ 64
  | Err _ => False
  end.
Proof. by vm_compute. Qed.

(** Expiry removes exactly the orders whose expiry time has come, in whatever
    order the index is walked: it returns each of them once, every other order
    stays with its quantity, and the books stay well formed. *)
Theorem expire_orders_exact now s l :
  wf s -> l ≡ₚ map_to_list (orders s) ->
  let r := ExpireOrders_in l now s in
  wf r.1 /\ heap r.1 = heap s /\
  (forall id p, orders r.1 !! id = Some p <->
     orders s !! id = Some p /\ expired now (deref (heap s) p) = false) /\
  NoDup r.2 /\
  (forall p, p ∈ r.2 <-> exists id, orders s !! id = Some p /\ expired now (deref (heap s) p) = true).
Proof.
  intros Hwf Hl. cbv zeta. unfold ExpireOrders_in. destruct (index_enum s) as [Hnd Hin].
  assert (Hin' : forall e, e ∈ l <-> orders s !! e.1 = Some e.2).
  { intros [id p]. rewrite Hl. apply elem_of_map_to_list. }
  rewrite <- Hl in Hnd.
  destruct (expire_fold now l s [] Hwf Hnd) as (H1 & H2 & _ & H4 & H5); [by intros; apply Hin'|].
  set (gone := filter _ l) in *. rewrite H4. cbn [app].
  assert (Hg : forall e, e ∈ gone <-> orders s !! e.1 = Some e.2 /\ expired now (deref (heap s) e.2) = true).
  { intros e. unfold gone. rewrite list_elem_of_filter, Hin'. tauto. }
  split_and!; [done|done| | |].
  - intros id p. rewrite H5. split; intros [Hp He]; (split; [done|]).
    + destruct (expired now (deref (heap s) p)) eqn:Ex; [|done].
      destruct He. apply (list_elem_of_fmap_2' fst gone (id, p)); [by apply Hg|done].
    + intros ([id' p'] & Heq & [Ho Hx]%Hg)%list_elem_of_fmap_1. simpl in *. congruence.
  - apply NoDup_fmap_2_strong; [|by eapply NoDup_filter, NoDup_fmap_1].
    intros [i p] [j q] [Hi _]%Hg [Hj _]%Hg. simpl in *. intros <-.
    destruct (wf_index s Hwf i p Hi) as (o & _ & Ho & Hio & _).
    pose proof (wf_ids s Hwf j p o Hj Ho). congruence.
  - intros p. rewrite list_elem_of_fmap. split.
    + intros ([id q] & -> & Hq%Hg). by exists id.
    + intros (id & Hid). exists (id, p). split; [done|]. by apply Hg.
Qed.

Lemma expire_orders_exact_witness :
  let r := ExpireOrders_in (map_to_list (orders demo_book)) 1000000 demo_book in
  wf r.1 /\ heap r.1 = heap demo_book /\
  (forall id p, orders r.1 !! id = Some p <->
     orders demo_book !! id = Some p /\ expired 1000000 (deref (heap demo_book) p) = false) /\
  NoDup r.2 /\
  (forall p, p ∈ r.2 <->
     exists id, orders demo_book !! id = Some p /\ expired 1000000 (deref (heap demo_book) p) = true).
Proof.
  apply (expire_orders_exact 1000000 demo_book (map_to_list (orders demo_book)));
    [apply demo_book_inv | done].
Defined.

(** Cancelling succeeds only for the owner of a resting order; it hands back
    that very order, takes it out of its side of its book and out of the index,
    and changes nothing else. *)
Theorem cancel_order_spec s playerID id :
  wf s ->
  match CancelOrder s playerID id with
  | Ok (s', p) =>
      orders s !! id = Some p /\ Owner (deref (heap s) p) = playerID /\ wf s' /\
      heap s' = heap s /\ orders s' = delete id (orders s) /\
      let o := deref (heap s) p in
      exists ob l1 l2, books s !! key_of o = Some ob /\ side_list (Side o) ob = l1 ++ p :: l2 /\
        books s' = <[key_of o := set_side (Side o) ob (l1 ++ l2)]> (books s)
  | Err ErrNotFound => orders s !! id = None
  | Err ErrWrongPlayer => exists p, orders s !! id = Some p /\ Owner (deref (heap s) p) <> playerID
  | Err _ => False
  end.
Proof.
  intros Hwf. unfold CancelOrder. destruct (orders s !! id) as [p|] eqn:E; [|done].
  destruct (String.eqb_spec (Owner (deref (heap s) p)) playerID) as [Ho|Ho]; cbn [negb]; [|eauto].
  destruct (remove_order_spec s id p Hwf E) as (ob & l1 & l2 & _ & _ & Hk & Hl & Heq & _).
  pose proof (remove_order_wf s id p Hwf E).
  destruct (remove_order_fields s id (deref (heap s) p)) as (? & ? & _).
  split_and!; try done. exists ob, l1, l2. rewrite Heq. done.
Qed.

Lemma cancel_order_spec_witness :
  match CancelOrder demo_book "ann" 1 with
  | Ok (s', p) => p = 1 /\ orders s' = delete 1 (orders demo_book)
  | Err _ => False
  end.
Proof.
  pose proof (cancel_order_spec demo_book "ann" 1 (proj1 demo_book_inv)) as H.
  destruct (CancelOrder demo_book "ann" 1) as [[s' p]|] eqn:E; [|by vm_compute in E].
  destruct H as (Hp & _ & _ & _ & Ho & _). split; [|done].
  assert (Hq : orders demo_book !! 1 = Some 1) by (by vm_compute). congruence.
Defined.
