(* ===== verification/Handoff.v ===== *)
(** * Hard-cut entity handoff between cells
      (pkg/universe/handoff_driver.go, handoff_ack.go, cell.go, stage.go)

    A [Cell] is a [Stage] (its ECS world and network id index), a source-side
    [HandoffDriver] and the destination-side queue of promotes.  Operations are
    state-passing functions that also return the messages they send.  What the
    environment decides (whether a message can be enqueued, the frames drained
    from a connection, the component values of an entity) are arguments; blobs
    are produced and read with the codec of Transfer.v.

    Of an ECS row the model keeps the NetworkID and Replica components, which
    decide authority; motion and game components travel only inside the blob. *)

From S2P Require Import Prelude NetId Transfer.

(** ** Wire payloads (message.go, handoff_ack.go) *)

Record HandoffPayload := mkHandoff {
  hp_NetID : Z; hp_Epoch : Z; hp_CommitTick : Z; hp_TransferBlob : bytes; hp_ConnID : Z
}.

Record HandoffAckPayload := mkAck { ha_NetID : Z; ha_Epoch : Z; ha_CommitTick : Z }.

Definition handoffAckPayloadSize : nat := 12.

Definition encodeHandoffAck (a : HandoffAckPayload) : bytes :=
  le_bytes 4 (ha_Epoch a) ++ le_bytes 8 (ha_CommitTick a).

Definition decodeHandoffAck (netID : Z) (payload : bytes) : option HandoffAckPayload :=
  if negb (Nat.eqb (length payload) handoffAckPayloadSize) then None
  else Some (mkAck netID (le_val (slice 0 4 payload)) (le_val (slice 4 12 payload))).

(** ** The stage (stage.go) *)

(** An ECS entity handle and a mesh cell id. *)
Abbreviation Entity := Z.
Abbreviation MeshCellID := string.

Record NetComp := mkNet { net_ID : Z; net_Epoch : Z }.
Record Replica := mkReplica {
  SourceCellID : string; SourceNetID : Z; TTL : Z; ProducedAtMs : Z
}.
Record Ent := mkEnt { e_net : NetComp; e_replica : option Replica }.

Record CrossingEvent := mkCrossing {
  ev_Entity : Entity; ev_NetID : Z; ev_ConnID : Z; ev_Username : string;
  ev_DestCellID : MeshCellID; ev_BypassCooldown : bool
}.

Record Stage := mkStage {
  cellID : MeshCellID;
  netIDIdx : gmap Z (netIDSlot Entity);
  world : gmap Entity Ent;
  nextEntity : Entity;
  replicaNetIDs : gmap Z Entity;
  borderLastSeen : gmap MeshCellID (gset Z);
  highestSeenEpoch : gmap Z Z;
  handoffAccepted : gmap Z Z;
  crossingQueue : list CrossingEvent;
  drainingForMerge : bool;
  strictNetIDIndex : bool
}.

Definition set_idx (st : Stage) (x : gmap Z (netIDSlot Entity)) : Stage :=
  mkStage (cellID st) x (world st) (nextEntity st) (replicaNetIDs st) (borderLastSeen st)
    (highestSeenEpoch st) (handoffAccepted st) (crossingQueue st) (drainingForMerge st)
    (strictNetIDIndex st).
Definition set_world (st : Stage) (x : gmap Entity Ent) : Stage :=
  mkStage (cellID st) (netIDIdx st) x (nextEntity st) (replicaNetIDs st) (borderLastSeen
    st) (highestSeenEpoch st) (handoffAccepted st) (crossingQueue st) (drainingForMerge
    st) (strictNetIDIndex st).
Definition set_next (st : Stage) (x : Entity) : Stage :=
  mkStage (cellID st) (netIDIdx st) (world st) x (replicaNetIDs st) (borderLastSeen st)
    (highestSeenEpoch st) (handoffAccepted st) (crossingQueue st) (drainingForMerge st)
    (strictNetIDIndex st).
Definition set_replicas (st : Stage) (x : gmap Z Entity) : Stage :=
  mkStage (cellID st) (netIDIdx st) (world st) (nextEntity st) x (borderLastSeen st)
    (highestSeenEpoch st) (handoffAccepted st) (crossingQueue st) (drainingForMerge st)
    (strictNetIDIndex st).
Definition set_seen (st : Stage) (x : gmap MeshCellID (gset Z)) : Stage :=
  mkStage (cellID st) (netIDIdx st) (world st) (nextEntity st) (replicaNetIDs st) x
    (highestSeenEpoch st) (handoffAccepted st) (crossingQueue st) (drainingForMerge st)
    (strictNetIDIndex st).
Definition set_highest (st : Stage) (x : gmap Z Z) : Stage :=
  mkStage (cellID st) (netIDIdx st) (world st) (nextEntity st) (replicaNetIDs st)
    (borderLastSeen st) x (handoffAccepted st) (crossingQueue st) (drainingForMerge st)
    (strictNetIDIndex st).
Definition set_accepted (st : Stage) (x : gmap Z Z) : Stage :=
  mkStage (cellID st) (netIDIdx st) (world st) (nextEntity st) (replicaNetIDs st)
    (borderLastSeen st) (highestSeenEpoch st) x (crossingQueue st) (drainingForMerge st)
    (strictNetIDIndex st).
Definition set_crossings (st : Stage) (x : list CrossingEvent) : Stage :=
  mkStage (cellID st) (netIDIdx st) (world st) (nextEntity st) (replicaNetIDs st)
    (borderLastSeen st) (highestSeenEpoch st) (handoffAccepted st) x (drainingForMerge st)
    (strictNetIDIndex st).

Definition LookupNetID (st : Stage) (netID : Z) := Lookup (netIDIdx st) netID.

(** [serialUint32After]: RFC 1982 order on 32-bit serials. *)
Definition serialUint32After (candidate current : Z) : bool :=
  let delta := u32 (candidate - current) in negb (delta =? 0) && (delta <? 2 ^ 31).

Definition handoffAlreadyAccepted (st : Stage) (netID epoch : Z) : bool :=
  match handoffAccepted st !! netID with
  | None => false
  | Some stored => negb (serialUint32After epoch stored)
  end.

Definition markHandoffAccepted (st : Stage) (netID epoch : Z) : Stage :=
  match handoffAccepted st !! netID with
  | Some stored =>
      if negb (serialUint32After epoch stored) then st
      else set_accepted st (<[netID := epoch]> (handoffAccepted st))
  | None => set_accepted st (<[netID := epoch]> (handoffAccepted st))
  end.

Definition forgetHandoffAccepted (st : Stage) (netID : Z) : Stage :=
  set_accepted st (delete netID (handoffAccepted st)).

Definition QueueCrossing (st : Stage) (evt : CrossingEvent) : Stage :=
  set_crossings st (crossingQueue st ++ [evt]).

Definition DrainCrossingQueue (st : Stage) : Stage * list CrossingEvent :=
  (set_crossings st [], crossingQueue st).

Definition forgetBorderNetID (st : Stage) (netID : Z) : Stage :=
  set_seen st ((fun seen => seen ∖ {[netID]}) <$> borderLastSeen st).

(** A row under a fresh handle. *)
Definition new_entity (st : Stage) (row : Ent) : Stage * Entity :=
  (set_next (set_world st (<[nextEntity st := row]> (world st))) (nextEntity st + 1), nextEntity st).

Definition cleanupEntityRemoval (st : Stage) (entity : Entity) : Stage :=
  match world st !! entity with
  | None => st
  | Some ent =>
      let st :=
        match e_replica ent with
        | Some rep =>
            let netID := SourceNetID rep in
            if bool_decide (replicaNetIDs st !! netID = Some entity)
            then forgetBorderNetID (set_replicas st (delete netID (replicaNetIDs st))) netID
            else st
        | None => st
        end in
      set_idx st (ExitEntity (netIDIdx st) (net_ID (e_net ent)) entity).1
  end.

(** [engine.RemoveEntityNowWithPolicy] with the local-only policy. *)
Definition RemoveEntityNow (st : Stage) (entity : Entity) : Stage :=
  match world st !! entity with
  | None => st
  | Some _ => let st := cleanupEntityRemoval st entity in set_world st (delete entity (world st))
  end.

Definition RemoveReplicaByNetID (st : Stage) (netID : Z) : Stage :=
  let st :=
    match replicaNetIDs st !! netID with
    | Some e =>
        match world st !! e with
        | Some _ => RemoveEntityNow st e
        | None =>
            let st := set_replicas st (delete netID (replicaNetIDs st)) in
            set_idx st (ExitEntity (netIDIdx st) netID e).1
        end
    | None =>
        match netIDIdx st !! netID with
        | Some (mkSlot e PresenceReplica) =>
            match world st !! e with
            | Some _ => RemoveEntityNow st e
            | None => set_idx st (ExitEntity (netIDIdx st) netID e).1
            end
        | _ => st
        end
    end in
  forgetBorderNetID st netID.

(** [nowMs] is the cluster clock's reading. *)
Definition DemoteLiveToReplica (nowMs : Z) (st : Stage) (netID : Z) (newSourceCellID : string)
  : Stage * bool :=
  match netIDIdx st !! netID with
  | Some (mkSlot ent PresenceLive) =>
      match world st !! ent with
      | None => (st, false)
      | Some row =>
          let row' := mkEnt (e_net row) (Some (mkReplica newSourceCellID netID 30 nowMs)) in
          let st := set_world st (<[ent := row']> (world st)) in
          let '(i, res) := Demote (netIDIdx st) netID ent in
          if decide (Action res = ActionUpdated) then
            let st := set_idx st i in
            let st := set_replicas st (<[netID := ent]> (replicaNetIDs st)) in
            (forgetHandoffAccepted st netID, true)
          else (st, false)
      end
  | _ => (st, false)
  end.

Definition PromoteReplicaToLive (st : Stage) (netID newEpoch : Z) : Stage * bool :=
  match netIDIdx st !! netID with
  | Some (mkSlot ent PresenceReplica) =>
      match world st !! ent with
      | None => (st, false)
      | Some row =>
          let row' := mkEnt (mkNet (net_ID (e_net row)) newEpoch) None in
          let st := set_world st (<[ent := row']> (world st)) in
          let st := set_replicas st (delete netID (replicaNetIDs st)) in
          let st := forgetBorderNetID st netID in
          let '(i, res) := Promote (netIDIdx st) netID ent in
          if decide (Action res = ActionUpdated) then (set_idx st i, true) else (st, false)
      end
  | _ => (st, false)
  end.

Inductive SpawnError := ErrDecode | ErrDuplicateLive | ErrConflict.

(** The identity-bearing part of [SpawnFromTransferCore]: a fresh row for the
    decoded frame, entered into the index; a refused entry removes the row again
    when the index is strict. *)
Definition SpawnFromTransferCore (st : Stage) (data : bytes) (presence : EntityPresence)
  : Stage * result SpawnError Entity :=
  match UnmarshalTransferFrame data with
  | Done frame _ =>
      let '(st, entity) := new_entity st (mkEnt (mkNet (NetworkID frame) (Epoch frame)) None) in
      if NetworkID frame =? 0 then (st, Ok entity)
      else
        let '(i, res) := Enter (netIDIdx st) (NetworkID frame) entity presence in
        let st := set_idx st i in
        match Action res with
        | ActionInstalled | ActionUpdated => (st, Ok entity)
        | ActionDuplicate =>
            if strictNetIDIndex st then (RemoveEntityNow st entity, Err ErrDuplicateLive)
            else (st, Ok entity)
        | ActionRejected =>
            if strictNetIDIndex st then (RemoveEntityNow st entity, Err ErrConflict)
            else (st, Ok entity)
        end
  | Fail _ | Panic => (st, Err ErrDecode)
  end.

Definition set_epoch (st : Stage) (e : Entity) (epoch : Z) : Stage :=
  match world st !! e with
  | Some row => set_world st (<[e := mkEnt (mkNet (net_ID (e_net row)) epoch) (e_replica row)]> (world st))
  | None => st
  end.

Definition SpawnLiveFromTransfer (st : Stage) (netID epoch : Z) (blob : bytes)
  : Stage * result SpawnError Entity :=
  match SpawnFromTransferCore st blob PresenceLive with
  | (st, Ok ent) => (set_epoch st ent epoch, Ok ent)
  | (st, Err e) => (st, Err e)
  end.

(** The identity-bearing part of [upsertBorderReplica]: the two stale-epoch
    fences, the Live fence, refresh of an existing replica, creation of a new one. *)
Definition stale (epoch prev : Z) : bool := negb (epoch =? prev) && negb (serialUint32After epoch prev).

Definition replica_row (st : Stage) (netID : Z) : option (Entity * Ent) :=
  match replicaNetIDs st !! netID with
  | Some e => match world st !! e with Some row => Some (e, row) | None => None end
  | None => None
  end.

(** The update branch: the epoch only moves forward, the row stays a replica. *)
Definition refreshReplica (st : Stage) (e : Entity) (row : Ent) (epoch : Z)
  (sourceCellID : string) (producedAtMs : Z) : Stage :=
  let old := net_Epoch (e_net row) in
  let epoch' := if serialUint32After epoch old then epoch else old in
  let rep' := match e_replica row with
              | Some rep => Some (mkReplica sourceCellID (SourceNetID rep) 30 producedAtMs)
              | None => None
              end in
  set_world st (<[e := mkEnt (mkNet (net_ID (e_net row)) epoch') rep']> (world st)).

(** The creation branch. *)
Definition createReplica (st : Stage) (netID epoch : Z) (sourceCellID : string)
  (producedAtMs : Z) : Stage :=
  let '(st, e) := new_entity st (mkEnt (mkNet netID epoch)
                    (Some (mkReplica sourceCellID netID 30 producedAtMs))) in
  let st := set_replicas st (<[netID := e]> (replicaNetIDs st)) in
  let '(i, res) := Enter (netIDIdx st) netID e PresenceReplica in
  let st := set_idx st i in
  if decide (Action res = ActionRejected)
  then (if strictNetIDIndex st then RemoveEntityNow st e else st)
  else st.

Definition upsertBorderReplica (st : Stage) (netID epoch : Z) (sourceCellID : string)
  (producedAtMs : Z) : Stage :=
  if match replica_row st netID with
     | Some (_, row) => stale epoch (net_Epoch (e_net row))
     | None => false
     end then st
  else if match highestSeenEpoch st !! netID with
          | Some prev => stale epoch prev
          | None => false
          end then st
  else
    let st := set_highest st (<[netID := epoch]> (highestSeenEpoch st)) in
    if decide (presence (netIDIdx st) netID = PresenceLive) then st
    else
      match replica_row st netID with
      | Some (e, row) => refreshReplica st e row epoch sourceCellID producedAtMs
      | None => createReplica st netID epoch sourceCellID producedAtMs
      end.

(** ** The source side (handoff_driver.go) *)

Definition HandoffLeadTicks : Z := 2.
Definition HandoffCooldownTicks : Z := 20.
Definition HandoffInputForwardTicks : Z := 20.
Definition HandoffAcceptRetryTicks : Z := 4.
Definition HandoffAcceptWarnAttempts : Z := 5.

Record pendingDemote := mkDemote { pd_netID : Z; pd_destCellID : MeshCellID; pd_connID : Z }.

Record inflightHandoff := mkInflight {
  if_destCellID : MeshCellID; if_connID : Z; if_epoch : Z; if_commitTick : Z;
  if_payload : HandoffPayload; if_attempts : Z; if_nextRetryTick : Z; if_warned : bool
}.

Record pendingInputForward := mkForward {
  fw_destCellID : MeshCellID; fw_expiresTick : Z; fw_backlog : list bytes
}.

Record HandoffDriver := mkDriver {
  inflight : gmap Z inflightHandoff;
  pendingDemotes : gmap Z (list pendingDemote);
  lastHandoff : gmap Z (gmap MeshCellID Z);
  inputForwards : gmap Z pendingInputForward
}.

Definition NewHandoffDriver : HandoffDriver := mkDriver ∅ ∅ ∅ ∅.

Definition set_inflight (hd : HandoffDriver) (m : gmap Z inflightHandoff) : HandoffDriver :=
  mkDriver m (pendingDemotes hd) (lastHandoff hd) (inputForwards hd).
Definition set_demotes (hd : HandoffDriver) (m : gmap Z (list pendingDemote)) : HandoffDriver :=
  mkDriver (inflight hd) m (lastHandoff hd) (inputForwards hd).
Definition set_last (hd : HandoffDriver) (m : gmap Z (gmap MeshCellID Z)) : HandoffDriver :=
  mkDriver (inflight hd) (pendingDemotes hd) m (inputForwards hd).
Definition set_forwards (hd : HandoffDriver) (m : gmap Z pendingInputForward) : HandoffDriver :=
  mkDriver (inflight hd) (pendingDemotes hd) (lastHandoff hd) m.

(** What an operation emits. *)
Inductive Effect :=
| EffHandoff (dest : MeshCellID) (p : HandoffPayload)
| EffAck (dest : MeshCellID) (a : HandoffAckPayload)
| EffForwardInput (dest : MeshCellID) (connID : Z) (frame : bytes)
| EffPlayerTransfer (connID : Z) (dest : MeshCellID)
| EffSessionTransferred (connID : Z)
| EffRegisterSession (p : TransferPlayer).

Definition CancelPendingDemotesTo (hd : HandoffDriver) (destCellIDs : gset MeshCellID)
  : HandoffDriver * Z :=
  if decide (destCellIDs = ∅) then (hd, 0)
  else
    let keep (d : pendingDemote) : bool := bool_decide (pd_destCellID d ∉ destCellIDs) in
    let inflight' := filter (fun e => if_destCellID e.2 ∉ destCellIDs) (inflight hd) in
    let demotes' := omap (fun l => match filter (fun d => keep d = true) l with
                                   | [] => None
                                   | kept => Some kept
                                   end) (pendingDemotes hd) in
    let total := fun m : gmap Z (list pendingDemote) =>
      map_fold (fun _ l n => n + Z.of_nat (length l)) 0 m in
    (set_demotes (set_inflight hd inflight') demotes',
     Z.of_nat (length (map_to_list (inflight hd))) - Z.of_nat (length (map_to_list inflight')) +
     total (pendingDemotes hd) - total demotes').

Definition hasHandoffInFlight (hd : HandoffDriver) (netID : Z) : bool :=
  bool_decide (is_Some (inflight hd !! netID)) ||
  existsb (fun e => existsb (fun d => pd_netID d =? netID) e.2) (map_to_list (pendingDemotes hd)).

Definition OnHandoffAccepted (hd : HandoffDriver) (netID epoch commitTick : Z) (from : MeshCellID)
  : HandoffDriver :=
  match inflight hd !! netID with
  | None => hd
  | Some h =>
      if negb (if_epoch h =? epoch) || negb (if_commitTick h =? commitTick) ||
         negb (String.eqb (if_destCellID h) from)
      then hd
      else
        let hd := set_inflight hd (delete netID (inflight hd)) in
        let queued := default [] (pendingDemotes hd !! if_commitTick h) in
        let hd := set_demotes hd (<[if_commitTick h :=
                    queued ++ [mkDemote netID (if_destCellID h) (if_connID h)]]> (pendingDemotes hd)) in
        set_last hd (<[netID := <[if_destCellID h := if_commitTick h]>
                                  (default ∅ (lastHandoff hd !! netID))]> (lastHandoff hd))
  end.

(** Drop the cooldown record of (netID, dest). *)
Definition dropCooldown (hd : HandoffDriver) (netID : Z) (dest : MeshCellID) : HandoffDriver :=
  match lastHandoff hd !! netID with
  | None => hd
  | Some dst =>
      let dst := delete dest dst in
      set_last hd (if decide (dst = ∅) then delete netID (lastHandoff hd)
                   else <[netID := dst]> (lastHandoff hd))
  end.

Definition bumpAttempt (now : Z) (h : inflightHandoff) : inflightHandoff :=
  let attempts := if_attempts h + 1 in
  mkInflight (if_destCellID h) (if_connID h) (if_epoch h) (if_commitTick h) (if_payload h)
    attempts (u64 (now + HandoffAcceptRetryTicks))
    (if (HandoffAcceptWarnAttempts <=? attempts) && negb (if_warned h) then true else if_warned h).

(** One due entry of [retryInflight]; [send] is what [SendHandoff] answers.  The
    accumulated list holds the ids whose entity is no longer Live. *)
Definition retryOne (send : MeshCellID -> HandoffPayload -> bool) (now : Z) (st : Stage)
  (acc : HandoffDriver * list Effect * list Z) (e : Z * inflightHandoff)
  : HandoffDriver * list Effect * list Z :=
  let '(hd, effs, dead) := acc in
  let '(netID, h) := e in
  if decide (presence (netIDIdx st) netID = PresenceLive) then
    if send (if_destCellID h) (if_payload h) then
      let hd := match inflight hd !! netID with
                | Some cur => set_inflight hd (<[netID := bumpAttempt now cur]> (inflight hd))
                | None => hd
                end in
      (hd, effs ++ [EffHandoff (if_destCellID h) (if_payload h)], dead)
    else (dropCooldown (set_inflight hd (delete netID (inflight hd))) netID (if_destCellID h), effs, dead)
  else (hd, effs, dead ++ [netID]).

Definition retryInflight (send : MeshCellID -> HandoffPayload -> bool) (now : Z) (st : Stage)
  (hd : HandoffDriver) : HandoffDriver * list Effect :=
  let due := filter (fun e => ~ (now < if_nextRetryTick e.2)) (map_to_list (inflight hd)) in
  let '(hd, effs, dead) := foldl (retryOne send now st) (hd, [], []) due in
  (set_inflight hd (foldr delete (inflight hd) dead), effs).

(** [fresh] is what [DrainInput] returns, [room] how many frames the destination
    path accepts before it refuses one. *)
Definition forwardConnectionInputs (fresh : list bytes) (room : nat) (connID : Z)
  (route : pendingInputForward) : pendingInputForward * list Effect :=
  let backlog := fw_backlog route ++ fresh in
  let sent := Nat.min room (length backlog) in
  (mkForward (fw_destCellID route) (fw_expiresTick route) (drop sent backlog),
   EffForwardInput (fw_destCellID route) connID <$> take sent backlog).

Definition forwardPendingInputs (fresh : Z -> list bytes) (room : Z -> nat) (now : Z)
  (hd : HandoffDriver) : HandoffDriver * list Effect :=
  let step (acc : gmap Z pendingInputForward * list Effect) (e : Z * pendingInputForward) :=
    let '(connID, route) := e in
    let '(route', effs) := forwardConnectionInputs (fresh connID) (room connID) connID route in
    (if (fw_expiresTick route' <=? now) && bool_decide (fw_backlog route' = [])
     then delete connID acc.1 else <[connID := route']> acc.1, acc.2 ++ effs) in
  let r := foldl step (inputForwards hd, []) (map_to_list (inputForwards hd)) in
  (set_forwards hd r.1, r.2).

Record pendingPromote := mkPromote {
  pp_netID : Z; pp_epoch : Z; pp_transferBlob : bytes; pp_connID : Z; pp_fromCellID : MeshCellID
}.

Record Cell := mkCell {
  stage : Stage;
  driver : HandoffDriver;
  pendingPromotes : gmap Z (list pendingPromote)
}.

Definition set_stage (c : Cell) (st : Stage) : Cell := mkCell st (driver c) (pendingPromotes c).
Definition set_driver (c : Cell) (hd : HandoffDriver) : Cell := mkCell (stage c) hd (pendingPromotes c).

(** What the rest of the process answers during one tick. *)
Record TickEnv := mkEnv {
  env_now : Z;
  env_clockMs : Z;
  env_send_retry : MeshCellID -> HandoffPayload -> bool;
  env_send : MeshCellID -> HandoffPayload -> bool;
  env_frame : Entity -> TransferFrame;
  env_pending_inputs : Z -> list bytes;
  env_pending_room : Z -> nat;
  env_commit_inputs : Z -> list bytes;
  env_commit_room : Z -> nat;
  env_forwarding : MeshCellID -> bool;
  env_has_session : Z -> bool
}.

(** A due demote: authority leaves, then the player's session follows. *)
Definition commitDemote (env : TickEnv) (acc : Cell * list Effect) (d : pendingDemote)
  : Cell * list Effect :=
  let '(c, effs) := acc in
  let c := set_stage c (DemoteLiveToReplica (env_clockMs env) (stage c) (pd_netID d) (pd_destCellID d)).1 in
  if pd_connID d =? 0 then (c, effs)
  else
    let effs := effs ++ [EffPlayerTransfer (pd_connID d) (pd_destCellID d)] in
    let '(c, effs) :=
      if env_forwarding env (pd_destCellID d) then
        let route := mkForward (pd_destCellID d) (u64 (env_now env + HandoffInputForwardTicks)) [] in
        let '(route, fe) := forwardConnectionInputs (env_commit_inputs env (pd_connID d))
                              (env_commit_room env (pd_connID d)) (pd_connID d) route in
        (set_driver c (set_forwards (driver c) (<[pd_connID d := route]> (inputForwards (driver c)))),
         effs ++ fe)
      else (c, effs) in
    (c, if env_has_session env (pd_connID d) then effs ++ [EffSessionTransferred (pd_connID d)] else effs).

Definition inCooldown (hd : HandoffDriver) (evt : CrossingEvent) (now : Z) : bool :=
  negb (ev_BypassCooldown evt) &&
  match lastHandoff hd !! ev_NetID evt with
  | Some dst =>
      match dst !! ev_DestCellID evt with
      | Some last => now <? u64 (last + HandoffCooldownTicks)
      | None => false
      end
  | None => false
  end.

(** The frame sent for an entity: the identity fields come from the row, the
    stream generation of a player is advanced, the rest is the component values. *)
Definition handoffFrame (f : TransferFrame) (id : NetComp) : TransferFrame :=
  mkFrame (net_ID id) (net_Epoch id)
    (if ConnID f =? 0 then StreamGeneration f else u32 (StreamGeneration f + 1))
    (EntityType f) (ConnID f) (GatewayID f) (GatewayConnID f) (Username f) (UserID f)
    (PosX f) (PosY f) (PosZ f) (VelX f) (VelY f) (VelZ f) (FRotation f) (FCollider f)
    (CellX f) (CellY f) (DebugFlags f) (Components f).

Definition handleCrossing (env : TickEnv) (acc : Cell * list Effect) (evt : CrossingEvent)
  : Cell * list Effect :=
  let '(c, effs) := acc in
  let st := stage c in let hd := driver c in let now := env_now env in
  match world st !! ev_Entity evt with
  | None => acc
  | Some row =>
      if negb (bool_decide (presence (netIDIdx st) (ev_NetID evt) = PresenceLive)) then acc
      else if hasHandoffInFlight hd (ev_NetID evt) then acc
      else if inCooldown hd evt now then acc
      else
        let oldEpoch := net_Epoch (e_net row) in
        let newEpoch := u32 (oldEpoch + 1) in
        let st' := set_epoch st (ev_Entity evt) newEpoch in
        match MarshalTransferFrame
                (handoffFrame (env_frame env (ev_Entity evt)) (mkNet (net_ID (e_net row)) newEpoch)) with
        | Err _ => (set_stage c (set_epoch st' (ev_Entity evt) oldEpoch), effs)
        | Ok data =>
            let commitTick := u64 (now + HandoffLeadTicks) in
            let payload := mkHandoff (ev_NetID evt) newEpoch commitTick data (ev_ConnID evt) in
            let entry := mkInflight (ev_DestCellID evt) (ev_ConnID evt) newEpoch commitTick payload 1
                           (u64 (now + HandoffAcceptRetryTicks)) false in
            if env_send env (ev_DestCellID evt) payload
            then (mkCell st' (set_inflight hd (<[ev_NetID evt := entry]> (inflight hd))) (pendingPromotes c),
                  effs ++ [EffHandoff (ev_DestCellID evt) payload])
            else (mkCell (set_epoch st' (ev_Entity evt) oldEpoch)
                    (set_inflight hd (delete (ev_NetID evt) (<[ev_NetID evt := entry]> (inflight hd))))
                    (pendingPromotes c), effs)
        end
  end.

(** [HandoffDriver.Tick]. *)
Definition Tick (env : TickEnv) (c : Cell) : Cell * list Effect :=
  let now := env_now env in
  let '(hd, effs0) := forwardPendingInputs (env_pending_inputs env) (env_pending_room env) now (driver c) in
  let c := set_driver c hd in
  if drainingForMerge (stage c) then (set_stage c (DrainCrossingQueue (stage c)).1, effs0)
  else
    let '(hd, effs1) := retryInflight (env_send_retry env) now (stage c) (driver c) in
    let due := filter (fun e => e.1 <= now) (pendingDemotes hd) in
    let hd := set_demotes hd (filter (fun e => ~ e.1 <= now) (pendingDemotes hd)) in
    let '(c, effs2) := foldl (commitDemote env) (set_driver c hd, []) (concat (map_to_list due).*2) in
    let '(st, events) := DrainCrossingQueue (stage c) in
    let '(c, effs3) := foldl (handleCrossing env) (set_stage c st, []) events in
    (c, effs0 ++ effs1 ++ effs2 ++ effs3).

(** ** The destination side (cell.go) *)

(** The [MsgHandoff] arm of [Cell.processMessage].  [hasBridge] and [ackOk] are
    the presence of a bridge and the answer of [SendHandoffAccepted]. *)
Definition onMsgHandoff (hasBridge ackOk : bool) (c : Cell) (from : MeshCellID) (h : HandoffPayload)
  : Cell * list Effect :=
  let ack := mkAck (hp_NetID h) (hp_Epoch h) (hp_CommitTick h) in
  if negb hasBridge then (c, [])
  else if handoffAlreadyAccepted (stage c) (hp_NetID h) (hp_Epoch h) then
    (c, if ackOk then [EffAck from ack] else [])
  else if negb ackOk then (c, [])
  else
    let c := set_stage c (markHandoffAccepted (stage c) (hp_NetID h) (hp_Epoch h)) in
    match PeekTransferPlayer (hp_TransferBlob h) with
    | None => (c, [EffAck from ack])
    | Some player =>
        let promote := mkPromote (hp_NetID h) (hp_Epoch h) (hp_TransferBlob h) (hp_ConnID h) from in
        let queued := default [] (pendingPromotes c !! hp_CommitTick h) in
        (mkCell (stage c) (driver c) (<[hp_CommitTick h := queued ++ [promote]]> (pendingPromotes c)),
         EffAck from ack :: if srcConnID player =? 0 then [] else [EffRegisterSession player])
    end.

(** The [MsgHandoffAccepted] arm. *)
Definition onMsgHandoffAccepted (c : Cell) (from : MeshCellID) (a : HandoffAckPayload) : Cell :=
  set_driver c (OnHandoffAccepted (driver c) (ha_NetID a) (ha_Epoch a) (ha_CommitTick a) from).

(** One due promote: replace the border replica by a Live row spawned from the
    blob. *)
Definition commitPromote (st : Stage) (p : pendingPromote) : Stage :=
  match pp_transferBlob p with
  | [] => st
  | _ =>
      let st := if decide (presence (netIDIdx st) (pp_netID p) = PresenceReplica)
                then RemoveReplicaByNetID st (pp_netID p) else st in
      (SpawnLiveFromTransfer st (pp_netID p) (pp_epoch p) (pp_transferBlob p)).1
  end.

Definition drainPendingPromotes (now : Z) (c : Cell) : Cell :=
  let due := filter (fun e => e.1 <= now) (pendingPromotes c) in
  mkCell (foldl commitPromote (stage c) (concat (map_to_list due).*2)) (driver c)
    (filter (fun e => ~ e.1 <= now) (pendingPromotes c)).

(** [cellBridge.PostSystems], less the border push and the replica expiry that
    follow: promotes first, then the driver. *)
Definition PostSystems (env : TickEnv) (c : Cell) : Cell * list Effect :=
  Tick env (drainPendingPromotes (env_now env) c).

(** ** Stage invariant *)

Record stage_ok (st : Stage) : Prop := mkStageOk {
  so_idx : forall n e p, netIDIdx st !! n = Some (mkSlot e p) ->
    exists row, world st !! e = Some row /\ net_ID (e_net row) = n /\
      match p with
      | PresenceNone => False
      | PresenceLive => e_replica row = None
      | PresenceReplica =>
          replicaNetIDs st !! n = Some e /\ exists rep, e_replica row = Some rep /\ SourceNetID rep = n
      end;
  so_rep : forall n e, replicaNetIDs st !! n = Some e ->
    netIDIdx st !! n = Some (mkSlot e PresenceReplica);
  so_next : forall e row, world st !! e = Some row -> e < nextEntity st
}.

Definition live (n : Z) (st : Stage) : Prop := presence (netIDIdx st) n = PresenceLive.

(** What no operation of a stage but its crossing queue undoes: handles are not
    reused, a row keeps its network id, acceptance marks are set only by the
    handoff handler. *)
Record evolves (st st' : Stage) : Prop := mkEvolves {
  ev_ok : stage_ok st -> stage_ok st';
  ev_next : nextEntity st <= nextEntity st';
  ev_row : forall e row', e < nextEntity st -> world st' !! e = Some row' ->
    exists row, world st !! e = Some row /\ net_ID (e_net row) = net_ID (e_net row');
  ev_queue : crossingQueue st' = crossingQueue st;
  ev_accepted : forall n, is_Some (handoffAccepted st' !! n) -> is_Some (handoffAccepted st !! n)
}.

Section Evolution.
#[export] Instance evolves_preorder : PreOrder evolves.
Proof.
  split.
  - intros st. constructor; try done; try lia. eauto.
  - intros s1 s2 s3 [] []. constructor; [auto|lia| |congruence|auto].
    intros e row3 He H3. destruct (ev_row1 e row3) as (row2 & H2 & ?); [lia|done|].
    destruct (ev_row0 e row2) as (row1 & H1 & ?); [done..|]. exists row1. split; [done|congruence].
Qed.

Lemma live_slot n st : live n st <-> exists e, netIDIdx st !! n = Some (mkSlot e PresenceLive).
Proof.
  unfold live, presence. destruct (netIDIdx st !! n) as [[e p]|] eqn:E; simpl.
  - split; [intros ->; eauto|]. by intros (? & [= -> ->]).
  - split; [done|]. by intros (? & ?).
Qed.

Lemma exit_some (i : gmap Z (netIDSlot Entity)) m e n s :
  (ExitEntity i m e).1 !! n = Some s -> i !! n = Some s /\ (n = m -> slot_entity s <> e).
Proof.
  unfold ExitEntity. destruct (i !! m) as [[e' p]|] eqn:E; simpl.
  - destruct (decide (e' = e)) as [->|Hne]; simpl.
    + intros [? ?]%lookup_delete_Some. naive_solver.
    + intros Hn. split; [done|]. intros ->. assert (s = mkSlot e' p) as -> by congruence. done.
  - intros Hn. split; [done|]. intros ->. congruence.
Qed.

Lemma exit_keep (i : gmap Z (netIDSlot Entity)) m e n s :
  i !! n = Some s -> (n = m -> slot_entity s <> e) -> (ExitEntity i m e).1 !! n = Some s.
Proof.
  intros Hn Hne. unfold ExitEntity. destruct (i !! m) as [[e' p]|] eqn:E; simpl; [|done].
  destruct (decide (e' = e)) as [->|]; simpl; [|done].
  rewrite lookup_delete_ne; [done|]. intros ->. assert (s = mkSlot e p) as -> by congruence.
  by apply Hne.
Qed.

Lemma exit_live i m e n st st' :
  netIDIdx st' = (ExitEntity i m e).1 -> netIDIdx st = i ->
  live n st -> (forall e', i !! n = Some (mkSlot e' PresenceLive) -> n = m -> e' <> e) -> live n st'.
Proof.
  intros H' H. rewrite !live_slot, H', H. intros (e' & He') Hne. exists e'. apply exit_keep; auto.
Qed.
End Evolution.

(** Removing the row of a border replica. *)
Section RemoveEntity.
Context (st : Stage) (e : Entity) (row : Ent).
Hypothesis Hrow : world st !! e = Some row.
Let m : Z := net_ID (e_net row).

Lemma remove_fields :
  netIDIdx (RemoveEntityNow st e) = (ExitEntity (netIDIdx st) m e).1 /\
  world (RemoveEntityNow st e) = delete e (world st) /\
  nextEntity (RemoveEntityNow st e) = nextEntity st /\
  crossingQueue (RemoveEntityNow st e) = crossingQueue st /\
  handoffAccepted (RemoveEntityNow st e) = handoffAccepted st /\
  strictNetIDIndex (RemoveEntityNow st e) = strictNetIDIndex st /\
  replicaNetIDs (RemoveEntityNow st e) =
    match e_replica row with
    | Some rep => if bool_decide (replicaNetIDs st !! SourceNetID rep = Some e)
                  then delete (SourceNetID rep) (replicaNetIDs st) else replicaNetIDs st
    | None => replicaNetIDs st
    end.
Proof.
  unfold RemoveEntityNow, cleanupEntityRemoval. rewrite Hrow. unfold m.
  destruct (e_replica row) as [rep|]; [case_bool_decide|]; done.
Qed.

(** A tracked replica pointing at [e] is untracked with it. *)
Lemma remove_tracked n e' :
  stage_ok st -> replicaNetIDs (RemoveEntityNow st e) !! n = Some e' ->
  replicaNetIDs st !! n = Some e' /\ e' <> e.
Proof.
  intros Hok. destruct remove_fields as (_ & _ & _ & _ & _ & _ & ->).
  assert (Hown : replicaNetIDs st !! n = Some e -> exists rep, e_replica row = Some rep /\ SourceNetID rep = n).
  { intros Hn. apply (so_rep st Hok) in Hn. destruct (so_idx st Hok _ _ _ Hn) as (row' & Hr & _ & _ & Hrep).
    by assert (row' = row) as -> by congruence. }
  destruct (e_replica row) as [rep|] eqn:Er.
  - case_bool_decide as Hb.
    + intros [Hne Hn]%lookup_delete_Some. split; [done|]. intros ->.
      destruct (Hown Hn) as (? & ? & ?). naive_solver.
    + intros Hn. split; [done|]. intros ->. destruct (Hown Hn) as (? & ? & ?). naive_solver.
  - intros Hn. split; [done|]. intros ->. by destruct (Hown Hn) as (? & ? & ?).
Qed.

Lemma remove_ok : stage_ok st -> stage_ok (RemoveEntityNow st e).
Proof.
  intros Hok. destruct remove_fields as (Hi & Hw & Hn & _ & _ & _ & Hr). constructor; rewrite ?Hi, ?Hw, ?Hn.
  - intros n e' p [Hin Hne]%exit_some. simpl in Hne.
    destruct (so_idx st Hok n e' p Hin) as (row' & Hr' & Hid & Hp).
    assert (e' <> e).
    { intros ->. apply Hne; [|done]. assert (row' = row) as -> by congruence. by unfold m. }
    exists row'. rewrite lookup_delete_ne by done. split_and!; [done..|].
    destruct p; try done. destruct Hp as (Hrn & Hrep). split; [|done]. rewrite Hr.
    destruct (e_replica row) as [rep|]; [|done]. case_bool_decide; [|done].
    rewrite lookup_delete_ne; [done|]. congruence.
  - intros n e' (Hn' & Hne)%(remove_tracked n e' Hok). rewrite ?Hi. apply exit_keep.
    + by apply so_rep.
    + by intros ->.
  - intros e' row' [_ ?]%lookup_delete_Some. by eapply so_next.
Qed.

Lemma remove_evolves : evolves st (RemoveEntityNow st e).
Proof.
  destruct remove_fields as (_ & Hw & Hn & Hq & Ha & _). constructor; rewrite ?Hw, ?Hn, ?Hq, ?Ha; try done.
  - apply remove_ok.
  - intros e' row' _ [_ ?]%lookup_delete_Some. eauto.
Qed.
End RemoveEntity.

Section StageOps.
Lemma evolves_same st st' :
  netIDIdx st' = netIDIdx st -> world st' = world st -> nextEntity st' = nextEntity st ->
  replicaNetIDs st' = replicaNetIDs st -> crossingQueue st' = crossingQueue st ->
  (forall n, is_Some (handoffAccepted st' !! n) -> is_Some (handoffAccepted st !! n)) ->
  evolves st st'.
Proof.
  intros Hi Hw Hn Hr Hq Ha. constructor; try done; rewrite ?Hn, ?Hw; [|done|eauto].
  intros [H1 H2 H3]. constructor; rewrite ?Hi, ?Hw, ?Hn, ?Hr; auto.
Qed.

Lemma forget_evolves st n : evolves st (forgetBorderNetID st n).
Proof. by apply evolves_same. Qed.

Lemma removeReplica_spec st n :
  stage_ok st ->
  let st' := RemoveReplicaByNetID st n in
  evolves st st' /\ (forall k, live k st -> live k st') /\
  (forall k s, k <> n -> netIDIdx st' !! k = Some s <-> netIDIdx st !! k = Some s) /\
  (forall e, netIDIdx st' !! n <> Some (mkSlot e PresenceReplica)).
Proof.
  intros Hok. unfold RemoveReplicaByNetID. destruct (replicaNetIDs st !! n) as [e|] eqn:Er.
  - pose proof (so_rep st Hok _ _ Er) as Hi.
    destruct (so_idx st Hok _ _ _ Hi) as (row & Hrow & Hid & _). rewrite Hrow.
    destruct (remove_fields st e row Hrow) as (Hidx & _).
    assert (Hdel : netIDIdx (RemoveEntityNow st e) = delete n (netIDIdx st)).
    { rewrite Hidx, Hid. unfold ExitEntity. rewrite Hi. simpl. by rewrite decide_True. }
    split_and!.
    + etrans; [by eapply remove_evolves|apply forget_evolves].
    + intros k. rewrite !live_slot. simpl. rewrite Hdel. intros (e' & Hk).
      exists e'. rewrite lookup_delete_ne; [done|]. congruence.
    + intros k s Hne. simpl. by rewrite Hdel, lookup_delete_ne.
    + intros e'. simpl. by rewrite Hdel, lookup_delete, decide_True.
  - assert (Hnr : forall e, netIDIdx st !! n <> Some (mkSlot e PresenceReplica)).
    { intros e He. destruct (so_idx st Hok _ _ _ He) as (row & _ & _ & Hr & _). congruence. }
    destruct (netIDIdx st !! n) as [[e []]|] eqn:Ei; try (by edestruct Hnr);
      (split_and!; [apply forget_evolves|done|done|]); simpl; rewrite Ei; done.
Qed.

Lemma new_entity_evolves st row : evolves st (new_entity st row).1.
Proof.
  constructor; simpl; try done; [|lia|].
  - intros [H1 H2 H3]. constructor; simpl; try done.
    + intros n e p Hi. destruct (H1 n e p Hi) as (r & Hr & ?). exists r.
      rewrite lookup_insert_ne; [done|]. apply H3 in Hr. lia.
    + intros e r [[<- <-]|[_ Hr]]%lookup_insert_Some; [lia|]. apply H3 in Hr. lia.
  - intros e r He [[<- _]|[_ Hr]]%lookup_insert_Some; [lia|]. eauto.
Qed.

(** Entering a Live row whose handle is not in the index. *)
Lemma enter_live_evolves st n e row :
  world st !! e = Some row -> net_ID (e_net row) = n -> e_replica row = None ->
  let r := Enter (netIDIdx st) n e PresenceLive in
  evolves st (set_idx st r.1) /\ (forall k, live k st -> live k (set_idx st r.1)) /\
  (netIDIdx st !! n = None -> Action r.2 = ActionInstalled /\ live n (set_idx st r.1)).
Proof.
  intros Hrow Hid Hnr. unfold Enter. destruct (netIDIdx st !! n) as [[e0 p0]|] eqn:Ei.
  - assert (Hsame : netIDIdx (set_idx st (netIDIdx st)) = netIDIdx st) by done.
    destruct p0; simpl; rewrite ?decide_False by done; simpl;
      (split_and!; [by apply evolves_same|done|done]).
  - simpl. split_and!.
    + constructor; simpl; try done; [|eauto]. intros [H1 H2 H3]. constructor; simpl; try done.
      * intros k e' p [[<- [= <- <-]]|[Hne Hk]]%lookup_insert_Some; [by exists row|]. by apply H1.
      * intros k e' Hk. pose proof (H2 _ _ Hk). rewrite lookup_insert_ne; [done|]. congruence.
    + intros k. rewrite !live_slot. simpl. intros (e' & Hk). exists e'.
      rewrite lookup_insert_ne; [done|]. congruence.
    + intros _. split; [done|]. rewrite live_slot. exists e. simpl.
      by rewrite lookup_insert, decide_True.
Qed.

(** Removing a row that is not the Live holder of its id leaves every Live slot. *)
Lemma remove_live st e row k :
  world st !! e = Some row -> netIDIdx st !! net_ID (e_net row) <> Some (mkSlot e PresenceLive) ->
  live k st -> live k (RemoveEntityNow st e).
Proof.
  intros Hrow Hne. destruct (remove_fields st e row Hrow) as (Hi & _).
  intros Hl. eapply exit_live; [exact Hi|done|done|]. intros e' He' -> ->. done.
Qed.
End StageOps.

Section Spawn.
Lemma set_epoch_evolves st e epoch :
  evolves st (set_epoch st e epoch) /\ netIDIdx (set_epoch st e epoch) = netIDIdx st.
Proof.
  unfold set_epoch. destruct (world st !! e) as [row|] eqn:E; [|done]. split; [|done].
  constructor; simpl; try done.
  - intros [H1 H2 H3]. constructor; simpl; try done.
    + intros n e' p Hi. destruct (H1 n e' p Hi) as (r & Hr & Hid & Hp).
      destruct (decide (e' = e)) as [->|].
      * assert (r = row) as -> by congruence. eexists. rewrite lookup_insert, decide_True by done.
        split; [done|]. by split.
      * exists r. by rewrite lookup_insert_ne.
    + intros e' r [[<- _]|[_ Hr]]%lookup_insert_Some; eauto.
  - intros e' r _ [[<- <-]|[_ Hr]]%lookup_insert_Some; [by exists row|eauto].
Qed.

Lemma fresh_not_indexed st n p : stage_ok st -> netIDIdx st !! n <> Some (mkSlot (nextEntity st) p).
Proof.
  intros Hok Hi. destruct (so_idx st Hok _ _ _ Hi) as (row & Hrow & _).
  apply (so_next st Hok) in Hrow. lia.
Qed.

Lemma spawn_spec st data :
  stage_ok st ->
  let st' := (SpawnFromTransferCore st data PresenceLive).1 in
  evolves st st' /\ (forall k, live k st -> live k st') /\
  (forall f r, UnmarshalTransferFrame data = Done f r -> NetworkID f <> 0 ->
     netIDIdx st !! NetworkID f = None -> live (NetworkID f) st').
Proof.
  intros Hok. unfold SpawnFromTransferCore.
  destruct (UnmarshalTransferFrame data) as [f rest|e|] eqn:Eu; [|by split_and!..].
  set (row := mkEnt (mkNet (NetworkID f) (Epoch f)) None).
  pose proof (new_entity_evolves st row) as Hev0.
  assert (Hl0 : forall k, live k st -> live k (new_entity st row).1) by done.
  unfold new_entity in *. cbn [fst snd] in Hev0, Hl0.
  set (st0 := set_next _ _) in *. set (e := nextEntity st).
  destruct (Z.eqb_spec (NetworkID f) 0) as [Hz|Hz].
  { split_and!; [done|done|]. intros f' r' [= <- <-]. done. }
  assert (Hrow : world st0 !! e = Some row) by (simpl; by rewrite lookup_insert, decide_True).
  pose proof (enter_live_evolves st0 (NetworkID f) e row Hrow eq_refl eq_refl) as (Hev & Hlive & Hinst).
  destruct (Enter (netIDIdx st0) (NetworkID f) e PresenceLive) as [i res] eqn:Ee.
  cbn [fst snd] in Hev, Hlive, Hinst.
  assert (Hgoal : evolves st (set_idx st0 i) /\ (forall k, live k st -> live k (set_idx st0 i))).
  { split; [by etrans|auto]. }
  assert (Hinst' : forall f' r', Done f rest = Done f' r' -> NetworkID f' <> 0 ->
            netIDIdx st !! NetworkID f' = None -> Action res = ActionInstalled /\ live (NetworkID f') (set_idx st0 i)).
  { intros f' r' [= <- <-] _ Hn. auto. }
  assert (Hrem : Action res <> ActionInstalled -> Action res <> ActionUpdated ->
    evolves st (RemoveEntityNow (set_idx st0 i) e) /\
    (forall k, live k st -> live k (RemoveEntityNow (set_idx st0 i) e))).
  { intros Hn1 Hn2. split; [etrans; [apply Hgoal|]; by eapply remove_evolves|].
    intros k Hk. eapply remove_live; [exact Hrow| |by apply Hgoal]. simpl.
    assert (i = netIDIdx st) as ->.
    { unfold Enter in Ee. change (netIDIdx st0) with (netIDIdx st) in Ee.
      destruct (netIDIdx st !! NetworkID f) as [[? []]|]; simpl in Ee; injection Ee as <- <-; done. }
    by apply fresh_not_indexed. }
  destruct (Action res) eqn:Ea; simpl.
  - split; [apply Hgoal|]. split; [apply Hgoal|]. intros f' r' H1 H2 H3. by apply (Hinst' f' r').
  - split; [apply Hgoal|]. split; [apply Hgoal|]. intros f' r' H1 H2 H3. by apply (Hinst' f' r').
  - destruct (strictNetIDIndex st); simpl;
      (split; [try apply Hrem; apply Hgoal || done|]); (split; [try apply Hrem; apply Hgoal || done|]);
      intros f' r' H1 H2 H3; by destruct (Hinst' f' r' H1 H2 H3).
  - destruct (strictNetIDIndex st); simpl;
      (split; [try apply Hrem; apply Hgoal || done|]); (split; [try apply Hrem; apply Hgoal || done|]);
      intros f' r' H1 H2 H3; by destruct (Hinst' f' r' H1 H2 H3).
Qed.

Lemma spawnLive_spec st netID epoch blob :
  stage_ok st ->
  let st' := (SpawnLiveFromTransfer st netID epoch blob).1 in
  evolves st st' /\ (forall k, live k st -> live k st') /\
  (forall f r, UnmarshalTransferFrame blob = Done f r -> NetworkID f <> 0 ->
     netIDIdx st !! NetworkID f = None -> live (NetworkID f) st').
Proof.
  intros Hok. destruct (spawn_spec st blob Hok) as (H1 & H2 & H3). unfold SpawnLiveFromTransfer.
  destruct (SpawnFromTransferCore st blob PresenceLive) as [st1 [e|err]]; simpl in *; [|done].
  destruct (set_epoch_evolves st1 e epoch) as [He Hi]. split; [by etrans|].
  unfold live in *. rewrite Hi. done.
Qed.
End Spawn.

(** A blob the source side produces for network id [n]. *)
Definition good (n : Z) (blob : bytes) : Prop :=
  exists f, frame_ok f /\ MarshalTransferFrame f = Ok blob /\ NetworkID f = n.

Section Promote.
Lemma good_decode n blob :
  good n blob -> exists f, UnmarshalTransferFrame blob = Done f [] /\ NetworkID f = n.
Proof.
  intros (f & Hf & Hm & Hn). exists f. split; [|done].
  destruct (marshal_ok _ _ Hm) as (-> & _). unfold UnmarshalTransferFrame.
  pose proof (unmarshal_marshal f [] Hf) as Hu. by rewrite app_nil_r in Hu.
Qed.

Lemma good_nonempty n blob : good n blob -> blob <> [].
Proof. intros (f & Hu & _)%good_decode ->. by vm_compute in Hu. Qed.

Lemma good_peek n blob : good n blob -> is_Some (PeekTransferPlayer blob).
Proof.
  intros (f & Hf & Hm & Hn). destruct (marshal_ok _ _ Hm) as (-> & _). unfold PeekTransferPlayer.
  pose proof (peek_marshal f (marshal_body f ++ concat (marshal_component <$> Components f)) (proj1 Hf)) as Hp.
  destruct (peek _); [eauto|done..].
Qed.

Lemma slot_cases st n :
  stage_ok st ->
  netIDIdx st !! n = None \/ live n st \/ exists e, netIDIdx st !! n = Some (mkSlot e PresenceReplica).
Proof.
  intros Hok. destruct (netIDIdx st !! n) as [[e p]|] eqn:E; [right|by left].
  destruct p; [|left; apply live_slot; eauto|eauto].
  by destruct (so_idx st Hok _ _ _ E) as (? & _ & _ & []).
Qed.

Lemma commitPromote_spec st p :
  stage_ok st ->
  let st' := commitPromote st p in
  evolves st st' /\ (forall k, live k st -> live k st') /\
  (good (pp_netID p) (pp_transferBlob p) -> pp_netID p <> 0 -> live (pp_netID p) st').
Proof.
  intros Hok. unfold commitPromote.
  destruct (pp_transferBlob p) as [|b bs] eqn:Eb; [split_and!; [done..|]; by intros ?%good_nonempty|].
  rewrite <- Eb in *. cbv zeta. set (n := pp_netID p).
  set (st1 := if decide _ then _ else _).
  assert (H1 : evolves st st1 /\ (forall k, live k st -> live k st1) /\
    (netIDIdx st1 !! n = None \/ live n st1)).
  { unfold st1. destruct (decide (presence (netIDIdx st) n = PresenceReplica)) as [Hp|Hp].
    - destruct (removeReplica_spec st n Hok) as (He & Hl & _ & Hr). split_and!; [done..|].
      destruct (slot_cases _ n (ev_ok _ _ He Hok)) as [?|[?|[e ?]]]; auto. by edestruct Hr.
    - split_and!; [done..|]. destruct (slot_cases _ n Hok) as [?|[?|[e He]]]; auto.
      unfold presence in Hp. by rewrite He in Hp. }
  destruct H1 as (He & Hl & Hn). clearbody st1.
  destruct (spawnLive_spec st1 n (pp_epoch p) (pp_transferBlob p) (ev_ok _ _ He Hok)) as (He' & Hl' & Hs).
  split_and!; [by etrans|auto|].
  intros (f & Hu & Hf)%good_decode H0. destruct Hn as [Hn|Hn]; [|auto].
  rewrite <- Hf in *. by apply (Hs f []).
Qed.

Lemma promotes_spec ps st :
  stage_ok st ->
  let st' := foldl commitPromote st ps in
  evolves st st' /\ (forall k, live k st -> live k st') /\
  (forall p, p ∈ ps -> good (pp_netID p) (pp_transferBlob p) -> pp_netID p <> 0 -> live (pp_netID p) st').
Proof.
  revert st. induction ps as [|p ps IH]; intros st Hok; simpl.
  { split_and!; [done..|]. by intros p []%not_elem_of_nil. }
  destruct (commitPromote_spec st p Hok) as (He & Hl & Hg).
  destruct (IH (commitPromote st p) (ev_ok _ _ He Hok)) as (He' & Hl' & Hg').
  split_and!; [by etrans|auto|]. intros q [->|Hq]%elem_of_cons ? ?; auto.
Qed.

Lemma demote_spec nowMs st n src :
  stage_ok st ->
  let st' := (DemoteLiveToReplica nowMs st n src).1 in
  evolves st st' /\ (forall k, k <> n -> live k st -> live k st').
Proof.
  intros Hok. unfold DemoteLiveToReplica.
  destruct (netIDIdx st !! n) as [[e []]|] eqn:Ei; try done.
  destruct (so_idx st Hok _ _ _ Ei) as (row & Hrow & Hid & Hnr). rewrite Hrow.
  unfold Demote. cbn [netIDIdx set_world]. rewrite Ei. cbn [slot_presence].
  rewrite (decide_True (P := PresenceLive = PresenceLive)) by done. cbn [Action fst snd].
  rewrite decide_True by done. simpl. split.
  - constructor; simpl; [|lia| |done|].
    + intros [H1 H2 H3]. constructor; simpl.
      * intros k e' p [[<- [= <- <-]]|[Hne Hk]]%lookup_insert_Some.
        -- eexists. rewrite !lookup_insert, !decide_True by done. split_and!; try done. simpl. eauto.
        -- destruct (H1 k e' p Hk) as (r & Hr & Hrid & Hp).
           assert (e' <> e) by (intros ->; congruence).
           exists r. rewrite !lookup_insert_ne by done. by split_and!.
      * intros k e' [[<- <-]|[Hne Hk]]%lookup_insert_Some; [by rewrite lookup_insert, decide_True|].
        rewrite lookup_insert_ne by done. auto.
      * intros e' r [[<- _]|[_ Hr]]%lookup_insert_Some; eauto.
    + intros e' r _ [[<- <-]|[_ Hr]]%lookup_insert_Some; eauto.
    + intros k [x Hx]. apply lookup_delete_Some in Hx as [_ Hx]. by exists x.
  - intros k Hne. rewrite !live_slot. simpl. intros (e' & He'). exists e'. by rewrite lookup_insert_ne.
Qed.
End Promote.

(** ** Authority over one network id *)

(** A crossing event names a row and the network id that row carries. *)
Definition evt_ok (st : Stage) (evt : CrossingEvent) : Prop :=
  ev_Entity evt < nextEntity st /\
  forall row, world st !! ev_Entity evt = Some row -> net_ID (e_net row) = ev_NetID evt.

(** A cell all of whose crossings of [n] lead to a cell satisfying [Q]. *)
Record cell_inv (n : Z) (Q : MeshCellID -> Prop) (c : Cell) : Prop := mkCellInv {
  ci_stage : stage_ok (stage c);
  ci_queue : forall evt, evt ∈ crossingQueue (stage c) ->
    evt_ok (stage c) evt /\ (ev_NetID evt = n -> Q (ev_DestCellID evt));
  ci_inflight : forall k h, inflight (driver c) !! k = Some h ->
    hp_NetID (if_payload h) = k /\
    (k = n -> Q (if_destCellID h) /\ good n (hp_TransferBlob (if_payload h)))
}.

(** A demote of [n] toward a cell satisfying [D] is armed. *)
Definition armed_to (n : Z) (D : MeshCellID -> Prop) (hd : HandoffDriver) : Prop :=
  exists ct l d, pendingDemotes hd !! ct = Some l /\ d ∈ l /\ pd_netID d = n /\ D (pd_destCellID d).
Definition armed (n : Z) (hd : HandoffDriver) : Prop := armed_to n (fun _ => True) hd.

(** The cell holds authority over [n], or has accepted it for a coming tick. *)
Definition promised (n : Z) (c : Cell) : Prop :=
  exists ct l p, pendingPromotes c !! ct = Some l /\ p ∈ l /\ pp_netID p = n /\
    good n (pp_transferBlob p).
Definition holds (n : Z) (c : Cell) : Prop := live n (stage c) \/ promised n c.

(** The messages of a tick: handoffs of [n] go where [Q] allows, with a readable
    blob, and a tick acknowledges nothing. *)
Definition eff_ok (n : Z) (Q : MeshCellID -> Prop) (effs : list Effect) : Prop :=
  (forall d p, EffHandoff d p ∈ effs -> hp_NetID p = n -> Q d /\ good n (hp_TransferBlob p)) /\
  (forall d a, EffAck d a ∉ effs).

(** [m'] has only entries of [m], up to the retry bookkeeping. *)
Definition inflight_le (m m' : gmap Z inflightHandoff) : Prop :=
  forall k h', m' !! k = Some h' -> exists h, m !! k = Some h /\
    if_destCellID h = if_destCellID h' /\ if_payload h = if_payload h' /\
    if_epoch h = if_epoch h' /\ if_commitTick h = if_commitTick h'.

Section Driver.
#[export] Instance inflight_le_preorder : PreOrder inflight_le.
Proof.
  split; [intros m k h; eauto 10|].
  intros m1 m2 m3 H1 H2 k h3 Hk. destruct (H2 k h3 Hk) as (h2 & Hk2 & ? & ? & ? & ?).
  destruct (H1 k h2 Hk2) as (h1 & ? & ? & ? & ? & ?). exists h1. split_and!; congruence.
Qed.

Lemma inflight_le_delete m k : inflight_le m (delete k m).
Proof. intros k' h [_ ?]%lookup_delete_Some. eauto 10. Qed.

Lemma inflight_le_deletes m ks : inflight_le m (foldr delete m ks).
Proof. induction ks as [|k ks IH]; simpl; [done|]. etrans; [exact IH|apply inflight_le_delete]. Qed.

Lemma forwardPending_fields fresh room now hd :
  let r := forwardPendingInputs fresh room now hd in
  inflight r.1 = inflight hd /\ pendingDemotes r.1 = pendingDemotes hd /\
  forall e, e ∈ r.2 -> exists d c f, e = EffForwardInput d c f.
Proof.
  unfold forwardPendingInputs. cbn [fst snd inflight pendingDemotes set_forwards].
  split; [done|]. split; [done|].
  set (step := fun acc e => _). generalize (inputForwards hd) at 2. intros m.
  assert (H : forall l acc, (forall e, e ∈ acc.2 -> exists d c f, e = EffForwardInput d c f) ->
    forall e, e ∈ (foldl step acc l).2 -> exists d c f, e = EffForwardInput d c f).
  { induction l as [|[k r] l IH]; intros acc Hacc; [done|]. simpl. apply IH.
    unfold step, forwardConnectionInputs. simpl. intros e [He|He]%elem_of_app; [auto|].
    apply list_elem_of_fmap in He as (f & -> & _). eauto. }
  apply H. by intros e []%not_elem_of_nil.
Qed.

Lemma dropCooldown_fields hd k d :
  inflight (dropCooldown hd k d) = inflight hd /\ pendingDemotes (dropCooldown hd k d) = pendingDemotes hd.
Proof. unfold dropCooldown. by destruct (lastHandoff hd !! k). Qed.

Lemma retryOne_spec send now st hd effs dead k h m :
  inflight_le m (inflight hd) -> m !! k = Some h ->
  (forall e, e ∈ effs -> exists k' h', m !! k' = Some h' /\ e = EffHandoff (if_destCellID h') (if_payload h')) ->
  let r := retryOne send now st (hd, effs, dead) (k, h) in
  inflight_le m (inflight r.1.1) /\ pendingDemotes r.1.1 = pendingDemotes hd /\
  (forall e, e ∈ r.1.2 -> exists k' h', m !! k' = Some h' /\ e = EffHandoff (if_destCellID h') (if_payload h')).
Proof.
  intros Hm Hk He. unfold retryOne. destruct (decide _); [|done].
  destruct (send (if_destCellID h) (if_payload h)); simpl.
  - split_and!.
    + destruct (inflight hd !! k) as [cur|] eqn:Ec; [|done]. simpl.
      intros k' h' [[<- <-]|[_ ?]]%lookup_insert_Some; [|auto]. by apply (Hm k cur).
    + by destruct (inflight hd !! k).
    + intros x [?| ->%list_elem_of_singleton]%elem_of_app; eauto.
  - destruct (dropCooldown_fields (set_inflight hd (delete k (inflight hd))) k (if_destCellID h)) as [-> ->].
    split_and!; [|done|done]. simpl. etrans; [exact Hm|apply inflight_le_delete].
Qed.

Lemma retryInflight_spec send now st hd :
  let r := retryInflight send now st hd in
  inflight_le (inflight hd) (inflight r.1) /\ pendingDemotes r.1 = pendingDemotes hd /\
  (forall e, e ∈ r.2 -> exists k h, inflight hd !! k = Some h /\ e = EffHandoff (if_destCellID h) (if_payload h)).
Proof.
  unfold retryInflight. set (due := filter _ _).
  assert (Hdue : forall e, e ∈ due -> inflight hd !! e.1 = Some e.2).
  { intros [k h] [_ ?]%list_elem_of_filter. by apply elem_of_map_to_list. }
  assert (H : forall l acc, (forall e, e ∈ l -> inflight hd !! e.1 = Some e.2) ->
    inflight_le (inflight hd) (inflight acc.1.1) -> pendingDemotes acc.1.1 = pendingDemotes hd ->
    (forall e, e ∈ acc.1.2 -> exists k h, inflight hd !! k = Some h /\ e = EffHandoff (if_destCellID h) (if_payload h)) ->
    let r := foldl (retryOne send now st) acc l in
    inflight_le (inflight hd) (inflight r.1.1) /\ pendingDemotes r.1.1 = pendingDemotes hd /\
    (forall e, e ∈ r.1.2 -> exists k h, inflight hd !! k = Some h /\ e = EffHandoff (if_destCellID h) (if_payload h))).
  { induction l as [|[k h] l IH]; intros [[hd' effs'] dead'] Hl H1 H2 H3; cbn [foldl]; [done|].
    destruct (retryOne_spec send now st hd' effs' dead' k h (inflight hd) H1) as (G1 & G2 & G3);
      [apply (Hl (k, h)); set_solver|done|].
    apply IH; [intros; apply Hl; set_solver|done|by rewrite G2|done]. }
  specialize (H due (hd, [], []) Hdue (reflexivity _) eq_refl).
  destruct (foldl (retryOne send now st) (hd, [], []) due) as [[hd' effs'] dead'].
  destruct H as (H1 & H2 & H3); [by intros e []%not_elem_of_nil|]. simpl in *.
  split_and!; [|done|done]. etrans; [exact H1|apply inflight_le_deletes].
Qed.
End Driver.

Section TickSteps.
Context (n : Z) (Q : MeshCellID -> Prop).

Lemma eff_ok_app e1 e2 : eff_ok n Q e1 -> eff_ok n Q e2 -> eff_ok n Q (e1 ++ e2).
Proof.
  intros [H1 H2] [H3 H4]. split.
  - intros d p [?|?]%elem_of_app; auto.
  - intros d a [?|?]%elem_of_app; naive_solver.
Qed.

Lemma eff_ok_other effs :
  (forall e, e ∈ effs -> match e with EffHandoff _ _ | EffAck _ _ => False | _ => True end) ->
  eff_ok n Q effs.
Proof. intros H. split; [intros d p Hin|intros d a Hin]; by apply H in Hin. Qed.

(** One due demote touches the stage, the forwarding table and the session. *)
Lemma commitDemote_spec env c effs d :
  stage_ok (stage c) -> eff_ok n Q effs ->
  let r := commitDemote env (c, effs) d in
  evolves (stage c) (stage r.1) /\ (pd_netID d <> n -> live n (stage c) -> live n (stage r.1)) /\
  inflight (driver r.1) = inflight (driver c) /\ pendingDemotes (driver r.1) = pendingDemotes (driver c) /\
  pendingPromotes r.1 = pendingPromotes c /\ eff_ok n Q r.2.
Proof.
  intros Hok He. unfold commitDemote.
  destruct (demote_spec (env_clockMs env) (stage c) (pd_netID d) (pd_destCellID d) Hok) as [Hev Hl].
  set (st' := (DemoteLiveToReplica _ _ _ _).1) in *.
  assert (Hlive : pd_netID d <> n -> live n (stage c) -> live n st') by (intros; by apply Hl).
  destruct (pd_connID d =? 0); [done|]. unfold forwardConnectionInputs.
  assert (Hx : forall b : bool, eff_ok n Q (if b then [EffSessionTransferred (pd_connID d)] else [])).
  { intros b. apply eff_ok_other. intros e. by destruct b; [intros ->%list_elem_of_singleton|intros []%not_elem_of_nil]. }
  assert (He1 : eff_ok n Q (effs ++ [EffPlayerTransfer (pd_connID d) (pd_destCellID d)])).
  { apply eff_ok_app; [done|]. apply eff_ok_other. by intros e ->%list_elem_of_singleton. }
  assert (Hif : forall (b : bool) l, eff_ok n Q l ->
    eff_ok n Q (if b then l ++ [EffSessionTransferred (pd_connID d)] else l)).
  { intros [] l Hl'; [apply eff_ok_app; [done|]|done]. by apply (Hx true). }
  destruct (env_forwarding env (pd_destCellID d)); simpl; split_and!; try done; apply Hif; [|done].
  apply eff_ok_app; [done|]. apply eff_ok_other.
  intros e He'. apply list_elem_of_fmap in He' as (f & -> & _). done.
Qed.

Lemma commitDemotes_spec env ds c effs :
  stage_ok (stage c) -> eff_ok n Q effs ->
  let r := foldl (commitDemote env) (c, effs) ds in
  evolves (stage c) (stage r.1) /\
  (Forall (fun d => pd_netID d <> n) ds -> live n (stage c) -> live n (stage r.1)) /\
  inflight (driver r.1) = inflight (driver c) /\ pendingDemotes (driver r.1) = pendingDemotes (driver c) /\
  pendingPromotes r.1 = pendingPromotes c /\ eff_ok n Q r.2.
Proof.
  revert c effs. induction ds as [|d ds IH]; intros c effs Hok He; cbn [foldl]; [done|].
  destruct (commitDemote_spec env c effs d Hok He) as (H1 & H2 & H3 & H4 & H5 & H6).
  destruct (commitDemote env (c, effs) d) as [c1 effs1]. cbn [fst snd] in *.
  destruct (IH c1 effs1 (ev_ok _ _ H1 Hok) H6) as (G1 & G2 & G3 & G4 & G5 & G6).
  split_and!; [by etrans| |congruence|congruence|congruence|done].
  intros [Hd Hds]%Forall_cons Hlive. auto.
Qed.

Lemma handoffFrame_ok f id :
  frame_ok f -> in_u32 (net_ID id) -> in_u32 (net_Epoch id) -> frame_ok (handoffFrame f id).
Proof.
  intros ((_ & _ & Hg & Hs) & Hb & Hc) H1 H2. split; [|done].
  destruct Hs as (? & ? & ? & ? & ? & ?). unfold session_ok; simpl.
  split_and!; try done; try apply H1; try apply H2; destruct (ConnID f =? 0); try apply Hg; apply u32_range.
Qed.

(** A crossing leaves authority alone and adds at most its own handoff. *)
Lemma handleCrossing_spec env c effs evt :
  in_u32 n -> (forall e, frame_ok (env_frame env e)) ->
  cell_inv n Q c -> evt_ok (stage c) evt -> (ev_NetID evt = n -> Q (ev_DestCellID evt)) ->
  eff_ok n Q effs ->
  let r := handleCrossing env (c, effs) evt in
  cell_inv n Q r.1 /\ evolves (stage c) (stage r.1) /\ (live n (stage c) -> live n (stage r.1)) /\
  pendingDemotes (driver r.1) = pendingDemotes (driver c) /\
  pendingPromotes r.1 = pendingPromotes c /\ eff_ok n Q r.2.
Proof.
  intros Hn Hfr HI Hev HQ He. unfold handleCrossing.
  destruct (world (stage c) !! ev_Entity evt) as [row|] eqn:Hrow; [|done].
  destruct (negb (bool_decide _)); [done|]. destruct (hasHandoffInFlight _ _); [done|].
  destruct (inCooldown _ _ _); [done|]. destruct HI as [Hok Hq Hin].
  set (ne := u32 (net_Epoch (e_net row) + 1)). set (st' := set_epoch (stage c) (ev_Entity evt) ne).
  destruct (set_epoch_evolves (stage c) (ev_Entity evt) ne) as [He1 Hi1]. fold st' in He1, Hi1.
  destruct (set_epoch_evolves st' (ev_Entity evt) (net_Epoch (e_net row))) as [He2 Hi2].
  set (st'' := set_epoch st' (ev_Entity evt) (net_Epoch (e_net row))) in *.
  assert (Hq' : forall s, evolves (stage c) s -> forall evt', evt' ∈ crossingQueue s ->
            evt_ok s evt' /\ (ev_NetID evt' = n -> Q (ev_DestCellID evt'))).
  { intros s Hs evt'. rewrite (ev_queue _ _ Hs). intros Hin'. destruct (Hq evt' Hin') as [[Hlt Hid] ?].
    split; [|done]. split; [pose proof (ev_next _ _ Hs); lia|].
    intros r Hr. destruct (ev_row _ _ Hs _ _ Hlt Hr) as (r0 & Hr0 & <-). auto. }
  assert (Hl : forall s, netIDIdx s = netIDIdx (stage c) -> live n (stage c) -> live n s)
    by (intros s Hs; unfold live; by rewrite Hs).
  destruct (MarshalTransferFrame _) as [data|] eqn:Em; simpl.
  2:{ split_and!; [constructor; [by apply (ev_ok _ _ He2), (ev_ok _ _ He1)|apply Hq'; by etrans|done]
                  |by etrans|apply Hl; congruence|done..]. }
  set (p := mkHandoff _ _ _ _ _). set (entry := mkInflight _ _ _ _ _ _ _ _).
  assert (Hgood : ev_NetID evt = n -> good n data).
  { intros Hen. eexists. split; [|split; [exact Em|]].
    - apply handoffFrame_ok; [done| |apply u32_range]. simpl.
      by rewrite (proj2 Hev row Hrow), Hen.
    - simpl. by rewrite (proj2 Hev row Hrow). }
  destruct (env_send env (ev_DestCellID evt) p); simpl.
  - split_and!; [constructor; [by apply (ev_ok _ _ He1)|by apply Hq'|]|done|apply Hl; congruence|done|done|].
    + simpl. intros k h [[<- <-]|[_ Hk]]%lookup_insert_Some; [|auto]. split; [done|]. intros Hk. simpl. auto.
    + apply eff_ok_app; [done|]. split.
      * intros d q [= -> ->]%list_elem_of_singleton Hk. simpl in *. auto.
      * by intros d a ?%list_elem_of_singleton.
  - split_and!; [constructor; [by apply (ev_ok _ _ He2), (ev_ok _ _ He1)|apply Hq'; by etrans|]
                |by etrans|apply Hl; congruence|done..].
    simpl. intros k h [Hne [[? _]|[_ Hk]]%lookup_insert_Some]%lookup_delete_Some; [done|auto].
Qed.

Lemma handleCrossings_spec env evts c effs :
  in_u32 n -> (forall e, frame_ok (env_frame env e)) ->
  cell_inv n Q c ->
  (forall evt, evt ∈ evts -> evt_ok (stage c) evt /\ (ev_NetID evt = n -> Q (ev_DestCellID evt))) ->
  eff_ok n Q effs ->
  let r := foldl (handleCrossing env) (c, effs) evts in
  cell_inv n Q r.1 /\ evolves (stage c) (stage r.1) /\ (live n (stage c) -> live n (stage r.1)) /\
  pendingDemotes (driver r.1) = pendingDemotes (driver c) /\
  pendingPromotes r.1 = pendingPromotes c /\ eff_ok n Q r.2.
Proof.
  intros Hn Hfr. revert c effs. induction evts as [|evt evts IH]; intros c effs HI Hev He; cbn [foldl]; [done|].
  destruct (Hev evt) as [H1 H2]; [set_solver|].
  destruct (handleCrossing_spec env c effs evt Hn Hfr HI H1 H2 He) as (G1 & G2 & G3 & G4 & G5 & G6).
  destruct (handleCrossing env (c, effs) evt) as [c1 effs1]. cbn [fst snd] in *.
  destruct (IH c1 effs1 G1) as (K1 & K2 & K3 & K4 & K5 & K6); [|done|].
  - intros evt' Hin. destruct (Hev evt') as [[Hlt Hid] ?]; [set_solver|]. split; [|done].
    split; [pose proof (ev_next _ _ G2); lia|].
    intros r Hr. destruct (ev_row _ _ G2 _ _ Hlt Hr) as (r0 & Hr0 & <-). auto.
  - split_and!; [done|by etrans|auto|congruence|congruence|done].
Qed.
End TickSteps.

Section Ticks.
Context (n : Z) (Q : MeshCellID -> Prop).
Hypothesis Hn : in_u32 n.
Hypothesis Hn0 : n <> 0.

Abbreviation accepted c := (is_Some (handoffAccepted (stage c) !! n)).

Lemma set_crossings_ok st q : stage_ok st -> stage_ok (set_crossings st q).
Proof. intros [H1 H2 H3]. by constructor. Qed.

(** Moving a cell along a stage evolution and a driver that only loses entries. *)
Lemma cell_inv_move c st hd pp :
  cell_inv n Q c -> evolves (stage c) st -> inflight_le (inflight (driver c)) (inflight hd) ->
  cell_inv n Q (mkCell st hd pp).
Proof.
  intros [Hok Hq Hin] Hev Hle. constructor; simpl.
  - by apply (ev_ok _ _ Hev).
  - intros evt. rewrite (ev_queue _ _ Hev). intros Hevt. destruct (Hq evt Hevt) as [[Hlt Hid] ?].
    split; [|done]. split; [pose proof (ev_next _ _ Hev); lia|].
    intros r Hr. destruct (ev_row _ _ Hev _ _ Hlt Hr) as (r0 & Hr0 & <-). auto.
  - intros k h Hk. destruct (Hle k h Hk) as (h0 & Hk0 & <- & <- & _). by apply Hin.
Qed.

Lemma cell_inv_drain c :
  cell_inv n Q c -> cell_inv n Q (set_stage c (DrainCrossingQueue (stage c)).1).
Proof.
  intros [Hok Hq Hin]. constructor; simpl; [by apply set_crossings_ok| |done].
  by intros evt []%not_elem_of_nil.
Qed.

Lemma armed_filter (P : Z * list pendingDemote -> Prop) `{!forall x, Decision (P x)} D hd hd' :
  pendingDemotes hd' = filter P (pendingDemotes hd) -> armed_to n D hd' -> armed_to n D hd.
Proof.
  intros He (ct & l & d & Hl & ? & ? & ?). rewrite He in Hl.
  apply map_lookup_filter_Some in Hl as [Hl _]. by exists ct, l, d.
Qed.

Lemma due_demote hd (P : Z * list pendingDemote -> Prop) `{!forall x, Decision (P x)} :
  ~ armed n hd ->
  Forall (fun d => pd_netID d <> n) (concat (map_to_list (filter P (pendingDemotes hd))).*2).
Proof.
  intros Hna. apply Forall_forall. intros d Hd Hdn. apply Hna.
  apply list_elem_of_In, in_concat in Hd as (l & Hl%list_elem_of_In & Hd%list_elem_of_In).
  apply list_elem_of_fmap in Hl as ([ct l'] & -> & Hl).
  apply elem_of_map_to_list, map_lookup_filter_Some in Hl as [Hl _]. by exists ct, l', d.
Qed.

Lemma Tick_spec env c :
  (forall e, frame_ok (env_frame env e)) -> cell_inv n Q c ->
  let r := Tick env c in
  cell_inv n Q r.1 /\ eff_ok n Q r.2 /\ pendingPromotes r.1 = pendingPromotes c /\
  (forall D, armed_to n D (driver r.1) -> armed_to n D (driver c)) /\
  (~ armed n (driver c) -> live n (stage c) -> live n (stage r.1)) /\
  (accepted r.1 -> accepted c).
Proof.
  intros Hfr HI. unfold Tick.
  destruct (forwardPending_fields (env_pending_inputs env) (env_pending_room env) (env_now env) (driver c))
    as (F1 & F2 & F3).
  destruct (forwardPendingInputs _ _ _ _) as [hd0 effs0]. cbn [fst snd] in *.
  assert (HI0 : cell_inv n Q (set_driver c hd0)) by (apply (cell_inv_move c); [done..|by rewrite F1]).
  assert (E0 : eff_ok n Q effs0).
  { apply eff_ok_other. intros e He. by destruct (F3 e He) as (? & ? & ? & ->). }
  assert (A0 : forall D, armed_to n D hd0 -> armed_to n D (driver c)) by (unfold armed_to; by rewrite F2).
  cbn [stage driver pendingPromotes set_driver] in *.
  destruct (drainingForMerge (stage c)).
  { split_and!; try done. by apply (cell_inv_drain _ HI0). }
  destruct (retryInflight_spec (env_send_retry env) (env_now env) (stage c) hd0) as (R1 & R2 & R3).
  destruct (retryInflight _ _ _ _) as [hd1 effs1]. cbn [fst snd] in *.
  set (due := filter (fun e => e.1 <= env_now env) (pendingDemotes hd1)).
  set (hd2 := set_demotes hd1 _).
  set (c2 := set_driver _ hd2).
  assert (HI2 : cell_inv n Q c2) by (by apply (cell_inv_move _ _ _ _ HI0)).
  assert (E1 : eff_ok n Q effs1).
  { split; [intros d p Hin Hp|intros d a Hin]; destruct (R3 _ Hin) as (k & h & Hk & [=]); subst.
    destruct (ci_inflight _ _ _ HI0 k h Hk) as [Hkn Hq]. apply Hq. simpl in *. congruence. }
  assert (A2 : forall D, armed_to n D hd2 -> armed_to n D (driver c)).
  { intros D Ha. apply A0. unfold armed_to. rewrite <- R2.
    by apply (armed_filter (fun e => ~ e.1 <= env_now env) D hd1 hd2). }
  assert (D2 : ~ armed n (driver c) -> Forall (fun d => pd_netID d <> n) (concat (map_to_list due).*2)).
  { intros Hna. apply due_demote. intros Ha. apply Hna, A0. unfold armed_to. by rewrite <- R2. }
  destruct (commitDemotes_spec n Q env (concat (map_to_list due).*2) c2 []) as (C1 & C2 & C3 & C4 & C5 & C6);
    [apply HI2|by apply eff_ok_other; intros e []%not_elem_of_nil|].
  destruct (foldl (commitDemote env) _ _) as [c3 effs2]. cbn [fst snd] in *.
  assert (HI3 : cell_inv n Q c3).
  { destruct c3 as [st3 d3 p3]. apply (cell_inv_move c2); [done..|]. simpl in C3. by rewrite C3. }
  unfold DrainCrossingQueue.
  destruct (handleCrossings_spec n Q env (crossingQueue (stage c3)) (set_stage c3 (set_crossings (stage c3) [])) [])
    as (H1 & H2 & H3 & H4 & H5 & H6); [done|done|by apply cell_inv_drain| | |].
  { intros evt Hevt. by apply (ci_queue _ _ _ HI3). }
  { by apply eff_ok_other; intros e []%not_elem_of_nil. }
  destruct (foldl (handleCrossing env) _ _) as [c4 effs3]. cbn [fst snd] in *.
  change (pendingPromotes c4 = pendingPromotes c3) in H5.
  change (pendingPromotes c3 = pendingPromotes c) in C5.
  split_and!; [done| |congruence| | |].
  - by repeat apply eff_ok_app.
  - simpl in *. intros D. unfold armed_to at 1. rewrite H4, C4. apply A2.
  - intros Hna Hl. apply H3. simpl. apply C2; auto.
  - intros Hacc. apply (ev_accepted _ _ H2), (ev_accepted _ _ C1) in Hacc. done.
Qed.

Lemma promised_mark c st hd : promised n c -> promised n (mkCell st hd (pendingPromotes c)).
Proof. done. Qed.

Lemma drain_spec now c :
  cell_inv n Q c ->
  let c' := drainPendingPromotes now c in
  cell_inv n Q c' /\ driver c' = driver c /\ (holds n c -> holds n c') /\ (accepted c' -> accepted c) /\
  (live n (stage c) -> live n (stage c')) /\
  (forall ct l p, ct <= now -> pendingPromotes c !! ct = Some l -> p ∈ l -> pp_netID p = n ->
     good n (pp_transferBlob p) -> live n (stage c')).
Proof.
  intros HI. unfold drainPendingPromotes. set (due := filter _ (pendingPromotes c)).
  destruct (promotes_spec (concat (map_to_list due).*2) (stage c) (ci_stage _ _ _ HI)) as (He & Hl & Hg).
  assert (Hdue : forall ct l p, ct <= now -> pendingPromotes c !! ct = Some l -> p ∈ l -> pp_netID p = n ->
            good n (pp_transferBlob p) -> live n (foldl commitPromote (stage c) (concat (map_to_list due).*2))).
  { intros ct l p Hct Hl' Hp Hpn Hgood. rewrite <- Hpn. apply Hg; [|by rewrite Hpn|by rewrite Hpn].
    apply list_elem_of_In, in_concat. exists l. split; [|by apply list_elem_of_In].
    apply list_elem_of_In. apply list_elem_of_fmap. exists (ct, l). split; [done|].
    apply elem_of_map_to_list, map_lookup_filter_Some. by split. }
  split_and!; [by apply (cell_inv_move c)|done| | |simpl; auto|done].
  - intros [Hlive|(ct & l & p & Hl' & Hp & Hpn & Hgood)]; [left; simpl; auto|].
    destruct (decide (ct <= now)); [left; simpl; by eapply Hdue|].
    right. exists ct, l, p. split_and!; try done. simpl. by apply map_lookup_filter_Some.
  - apply (ev_accepted _ _ He).
Qed.

Lemma PostSystems_spec env c :
  (forall e, frame_ok (env_frame env e)) -> cell_inv n Q c ->
  let r := PostSystems env c in
  cell_inv n Q r.1 /\ eff_ok n Q r.2 /\
  (forall D, armed_to n D (driver r.1) -> armed_to n D (driver c)) /\
  (~ armed n (driver c) -> holds n c -> holds n r.1) /\
  (accepted r.1 -> accepted c).
Proof.
  intros Hfr HI. unfold PostSystems. destruct (drain_spec (env_now env) c HI) as (D1 & D2 & D3 & D4 & _).
  destruct (Tick_spec env _ Hfr D1) as (T1 & T2 & T3 & T4 & T5 & T6). rewrite D2 in *.
  split_and!; [done|done|done| |auto].
  intros Hna [Hl|Hp]%D3; [left; auto|]. right. unfold promised. by rewrite T3.
Qed.
End Ticks.

(** ** The cluster as a step relation

    Cells exchange messages through a network that never forgets one: a message
    may be delivered any number of times, at any time, in any order, or never. *)

Inductive Msg :=
| MHandoff (from to : MeshCellID) (p : HandoffPayload)
| MHandoffAccepted (from to : MeshCellID) (a : HandoffAckPayload).

Definition wire (from : MeshCellID) (e : Effect) : list Msg :=
  match e with
  | EffHandoff d p => [MHandoff from d p]
  | EffAck d a => [MHandoffAccepted from d a]
  | _ => []
  end.

Record Cluster := mkCluster { cells : gmap MeshCellID Cell; net : list Msg }.

(** What a cell does on its own; a crossing of [n] leads where [Q] allows. *)
Inductive local_step (n : Z) (Q : MeshCellID -> Prop) : Cell -> Cell * list Effect -> Prop :=
| ls_tick c env : (forall e, frame_ok (env_frame env e)) -> local_step n Q c (PostSystems env c)
| ls_crossing c evt : evt_ok (stage c) evt -> (ev_NetID evt = n -> Q (ev_DestCellID evt)) ->
    local_step n Q c (set_stage c (QueueCrossing (stage c) evt), [])
| ls_border c netID epoch src ms :
    local_step n Q c (set_stage c (upsertBorderReplica (stage c) netID epoch src ms), [])
| ls_unborder c netID : local_step n Q c (set_stage c (RemoveReplicaByNetID (stage c) netID), [])
| ls_cancel c dests : local_step n Q c (set_driver c (CancelPendingDemotesTo (driver c) dests).1, []).

(** One step of a cluster in which a crossing of [n] out of [x] leads to [d] only where
    [Q x d]; the code itself has no restriction, [Q] true everywhere. *)
Inductive cluster_step (n : Z) (Q : MeshCellID -> MeshCellID -> Prop) : Cluster -> Cluster -> Prop :=
| cs_local s x c r :
    cells s !! x = Some c -> local_step n (Q x) c r ->
    cluster_step n Q s (mkCluster (<[x := r.1]> (cells s)) (net s ++ (r.2 ≫= wire x)))
| cs_handoff s x c from p hasBridge ackOk :
    cells s !! x = Some c -> MHandoff from x p ∈ net s ->
    let r := onMsgHandoff hasBridge ackOk c from p in
    cluster_step n Q s (mkCluster (<[x := r.1]> (cells s)) (net s ++ (r.2 ≫= wire x)))
| cs_accepted s x c from ack :
    cells s !! x = Some c -> MHandoffAccepted from x ack ∈ net s ->
    cluster_step n Q s (mkCluster (<[x := onMsgHandoffAccepted c from ack]> (cells s)) (net s)).

(** [n] crosses out of cell [a] only: every other cell keeps it once it has it. *)
Definition exits (a x : MeshCellID) (d : MeshCellID) : Prop := x = a /\ d <> a.

(** [n] starts Live on [a] with nothing in flight. *)
Definition starts (n : Z) (a : MeshCellID) (s : Cluster) : Prop :=
  net s = [] /\
  (exists c, cells s !! a = Some c /\ live n (stage c)) /\
  forall x c, cells s !! x = Some c ->
    stage_ok (stage c) /\ crossingQueue (stage c) = [] /\ driver c = NewHandoffDriver /\
    (x <> a -> handoffAccepted (stage c) !! n = None).

Record cluster_inv (n : Z) (a : MeshCellID) (s : Cluster) : Prop := mkClusterInv {
  cl_cell : forall x c, cells s !! x = Some c -> cell_inv n (exits a x) c;
  cl_quiet : forall x c, cells s !! x = Some c -> x <> a -> ~ armed n (driver c);
  cl_accepted : forall x c, cells s !! x = Some c -> x <> a ->
    is_Some (handoffAccepted (stage c) !! n) -> holds n c;
  cl_armed : forall c d, cells s !! a = Some c -> armed_to n (eq d) (driver c) ->
    d <> a /\ exists cd, cells s !! d = Some cd /\ holds n cd;
  cl_handoffs : forall from to p, MHandoff from to p ∈ net s -> hp_NetID p = n ->
    to <> a /\ good n (hp_TransferBlob p);
  cl_acks : forall from to k, MHandoffAccepted from to k ∈ net s -> ha_NetID k = n ->
    from <> a /\ exists cf, cells s !! from = Some cf /\ holds n cf;
  cl_held : exists x c, cells s !! x = Some c /\ holds n c
}.

Section LocalSteps.
Context (n : Z) (Q : MeshCellID -> Prop).
Hypothesis Hn : in_u32 n.
Hypothesis Hn0 : n <> 0.

Lemma refresh_evolves st e row epoch src ms :
  world st !! e = Some row -> (exists rep, e_replica row = Some rep) ->
  evolves st (refreshReplica st e row epoch src ms).
Proof.
  intros Hrow [rep Hrep]. unfold refreshReplica. rewrite Hrep. constructor; simpl; try done.
  - intros [H1 H2 H3]. constructor; simpl; try done.
    + intros k e' p Hi. destruct (H1 k e' p Hi) as (r & Hr & Hid & Hp).
      destruct (decide (e' = e)) as [->|].
      * assert (r = row) as -> by congruence. eexists. rewrite lookup_insert, decide_True by done.
        split; [done|]. split; [done|]. destruct p; [done|congruence|].
        destruct Hp as (? & rep' & Hr' & ?). split; [done|]. eexists. split; [done|]. simpl. congruence.
      * exists r. by rewrite lookup_insert_ne.
    + intros e' r [[<- _]|[_ Hr]]%lookup_insert_Some; eauto.
  - intros e' r _ [[<- <-]|[_ Hr]]%lookup_insert_Some; [by exists row|eauto].
Qed.

Lemma create_spec st k epoch src ms :
  stage_ok st -> netIDIdx st !! k = None ->
  evolves st (createReplica st k epoch src ms) /\
  (forall j, live j st -> live j (createReplica st k epoch src ms)).
Proof.
  intros Hok Hk. unfold createReplica, new_entity. unfold Enter. cbn [netIDIdx set_replicas set_next set_world].
  rewrite Hk. cbn [Action]. rewrite decide_False by done. split.
  - constructor; simpl; try done; [|lia|].
    + intros [H1 H2 H3]. constructor; simpl.
      * intros j e p [[<- [= <- <-]]|[Hne Hj]]%lookup_insert_Some.
        -- eexists. rewrite !lookup_insert, !decide_True by done. split_and!; try done. simpl. eauto.
        -- destruct (H1 j e p Hj) as (r & Hr & Hid & Hp). exists r.
           rewrite !lookup_insert_ne by (try done; apply H3 in Hr; lia). by split_and!.
      * intros j e [[<- <-]|[Hne Hj]]%lookup_insert_Some; [by rewrite lookup_insert, decide_True|].
        rewrite lookup_insert_ne by done. auto.
      * intros e r [[<- _]|[_ Hr]]%lookup_insert_Some; [lia|]. apply H3 in Hr. lia.
    + intros e r He [[<- _]|[_ Hr]]%lookup_insert_Some; [lia|]. eauto.
  - intros j. rewrite !live_slot. simpl. intros (e & He). exists e.
    rewrite lookup_insert_ne; [done|]. congruence.
Qed.

Lemma replica_row_some st k e row :
  stage_ok st -> replica_row st k = Some (e, row) ->
  world st !! e = Some row /\ exists rep, e_replica row = Some rep.
Proof.
  intros Hok. unfold replica_row. destruct (replicaNetIDs st !! k) as [e'|] eqn:Er; [|done].
  destruct (world st !! e') as [row'|] eqn:Ew; [|done]. intros [= -> ->].
  destruct (so_idx st Hok _ _ _ (so_rep st Hok _ _ Er)) as (r & Hr & _ & _ & rep & ? & _).
  assert (r = row) as -> by congruence. eauto.
Qed.

Lemma replica_row_none st k :
  stage_ok st -> replica_row st k = None -> presence (netIDIdx st) k <> PresenceLive ->
  netIDIdx st !! k = None.
Proof.
  intros Hok Hr Hl. destruct (slot_cases st k Hok) as [?|[?|[e He]]]; [done..|].
  destruct (so_idx st Hok _ _ _ He) as (row & Hrow & _ & Hre & _).
  unfold replica_row in Hr. by rewrite Hre, Hrow in Hr.
Qed.

Lemma upsert_spec st netID epoch src ms :
  stage_ok st ->
  let st' := upsertBorderReplica st netID epoch src ms in
  evolves st st' /\ (forall k, live k st -> live k st').
Proof.
  intros Hok. unfold upsertBorderReplica.
  match goal with |- context [if ?b then st else _] => destruct b; [done|] end.
  match goal with |- context [if ?b then st else _] => destruct b; [done|] end.
  set (st1 := set_highest st _). assert (He1 : evolves st st1) by (by apply evolves_same).
  pose proof (ev_ok _ _ He1 Hok) as Hok1. cbv zeta.
  destruct (decide _) as [|Hnl]; [done|].
  destruct (replica_row st1 netID) as [[e row]|] eqn:Er.
  - destruct (replica_row_some _ _ _ _ Hok1 Er) as [Hw Hr].
    split; [etrans; [exact He1|by apply refresh_evolves]|done].
  - pose proof (replica_row_none _ _ Hok1 Er Hnl) as Hi.
    destruct (create_spec st1 netID epoch src ms Hok1 Hi) as [He2 Hl2].
    split; [by etrans|]. intros k Hk. by apply Hl2.
Qed.

Lemma cancel_fields hd dests :
  inflight_le (inflight hd) (inflight (CancelPendingDemotesTo hd dests).1) /\
  forall D, armed_to n D (CancelPendingDemotesTo hd dests).1 -> armed_to n D hd.
Proof.
  unfold CancelPendingDemotesTo. destruct (decide (dests = ∅)); [done|]. simpl. split.
  - intros k h [Hk _]%map_lookup_filter_Some. eauto 10.
  - intros D (ct & l & d & Hl & Hd & ? & ?). simpl in Hl. rewrite lookup_omap in Hl.
    destruct (pendingDemotes hd !! ct) as [l0|] eqn:E; simpl in Hl; [|done].
    exists ct, l0, d. split_and!; try done.
    destruct (filter _ l0) as [|x xs] eqn:Ef; [done|]. injection Hl as <-.
    rewrite <- Ef in Hd. by apply list_elem_of_filter in Hd as [_ ?].
Qed.

(** A cell on its own loses authority only by a demote that was armed before. *)
Lemma local_spec c r :
  local_step n Q c r -> cell_inv n Q c ->
  cell_inv n Q r.1 /\ eff_ok n Q r.2 /\
  (forall D, armed_to n D (driver r.1) -> armed_to n D (driver c)) /\
  (~ armed n (driver c) -> holds n c -> holds n r.1) /\
  (is_Some (handoffAccepted (stage r.1) !! n) -> is_Some (handoffAccepted (stage c) !! n)).
Proof.
  assert (Hnil : eff_ok n Q []) by (by apply eff_ok_other; intros e []%not_elem_of_nil).
  assert (Hst : forall st, cell_inv n Q c -> evolves (stage c) st -> (live n (stage c) -> live n st) ->
    cell_inv n Q (set_stage c st) /\ eff_ok n Q [] /\
    (forall D, armed_to n D (driver (set_stage c st)) -> armed_to n D (driver c)) /\
    (~ armed n (driver c) -> holds n c -> holds n (set_stage c st)) /\
    (is_Some (handoffAccepted st !! n) -> is_Some (handoffAccepted (stage c) !! n))).
  { intros st HI He Hl. split_and!; try done; [by apply (cell_inv_move n Q c)| |apply (ev_accepted _ _ He)].
    intros _ [?|?]; [left; simpl; auto|by right]. }
  destruct 1 as [c env Hfr|c evt Hev HQ|c netID epoch src ms|c netID|c dests]; intros HI; cbn [fst snd].
  - by apply PostSystems_spec.
  - split_and!; try done. destruct HI as [H1 H2 H3]. constructor; simpl; [by apply set_crossings_ok| |done].
    intros evt' [?| ->%list_elem_of_singleton]%elem_of_app; [by apply H2|by split].
  - destruct (upsert_spec (stage c) netID epoch src ms (ci_stage _ _ _ HI)) as [He Hl]. apply Hst; auto.
  - destruct (removeReplica_spec (stage c) netID (ci_stage _ _ _ HI)) as (He & Hl & _). apply Hst; auto.
  - destruct (cancel_fields (driver c) dests) as [Hle Ha]. split_and!; try done.
    by apply (cell_inv_move n Q c).
Qed.

Lemma mark_fields st k epoch :
  let st' := markHandoffAccepted st k epoch in
  (stage_ok st -> stage_ok st') /\ netIDIdx st' = netIDIdx st /\ world st' = world st /\
  nextEntity st' = nextEntity st /\ crossingQueue st' = crossingQueue st /\
  (k <> n -> handoffAccepted st' !! n = handoffAccepted st !! n).
Proof.
  assert (H : forall m, stage_ok st -> stage_ok (set_accepted st m)) by (intros m [H1 H2 H3]; by constructor).
  unfold markHandoffAccepted. repeat case_match; split_and!; auto; intros; simpl; by rewrite lookup_insert_ne.
Qed.

Lemma cell_inv_mark c k epoch pp :
  cell_inv n Q c -> cell_inv n Q (mkCell (markHandoffAccepted (stage c) k epoch) (driver c) pp).
Proof.
  intros [H1 H2 H3]. destruct (mark_fields (stage c) k epoch) as (Hok & _ & Hw & Hx & Hq & _).
  constructor; simpl; [auto| |done]. intros evt. rewrite Hq. unfold evt_ok. rewrite Hw, Hx. apply H2.
Qed.

Lemma promised_queue c st hd ct x :
  promised n c ->
  promised n (mkCell st hd (<[ct := default [] (pendingPromotes c !! ct) ++ [x]]> (pendingPromotes c))).
Proof.
  intros (ct' & l & y & Hl & Hy & ? & ?). destruct (decide (ct' = ct)) as [->|Hne].
  - exists ct, (l ++ [x]), y. simpl. rewrite lookup_insert, decide_True, Hl by done. simpl.
    split_and!; try done. set_solver.
  - exists ct', l, y. simpl. by rewrite lookup_insert_ne.
Qed.

(** Accepting a handoff queues its promote. *)
Lemma onMsgHandoff_spec hasBridge ackOk c from p :
  cell_inv n Q c -> (hp_NetID p = n -> good n (hp_TransferBlob p)) ->
  let r := onMsgHandoff hasBridge ackOk c from p in
  cell_inv n Q r.1 /\ driver r.1 = driver c /\ (holds n c -> holds n r.1) /\
  ((is_Some (handoffAccepted (stage c) !! n) -> holds n c) ->
     is_Some (handoffAccepted (stage r.1) !! n) -> holds n r.1) /\
  (forall d q, EffHandoff d q ∉ r.2) /\
  (forall d k, EffAck d k ∈ r.2 -> ha_NetID k = n -> hp_NetID p = n /\
     ((is_Some (handoffAccepted (stage c) !! n) -> holds n c) -> holds n r.1)).
Proof.
  intros HI Hgood. unfold onMsgHandoff. destruct hasBridge; simpl.
  2:{ split_and!; try done; by intros ? ? ?%not_elem_of_nil. }
  destruct (handoffAlreadyAccepted (stage c) (hp_NetID p) (hp_Epoch p)) eqn:Eacc.
  { split_and!; try done.
    - intros d q. destruct ackOk; [by intros ?%list_elem_of_singleton|apply not_elem_of_nil].
    - intros d k. destruct ackOk; [|by intros ?%not_elem_of_nil].
      intros [= -> ->]%list_elem_of_singleton Hk. simpl in Hk. split; [done|]. intros Ha. apply Ha.
      unfold handoffAlreadyAccepted in Eacc. rewrite Hk in Eacc.
      destruct (handoffAccepted (stage c) !! n); [eauto|done]. }
  destruct ackOk; simpl.
  2:{ split_and!; try done; by intros ? ? ?%not_elem_of_nil. }
  pose proof (cell_inv_mark c (hp_NetID p) (hp_Epoch p)) as Hmark.
  destruct (mark_fields (stage c) (hp_NetID p) (hp_Epoch p)) as (_ & Hi & _ & _ & _ & Hacc).
  set (st1 := markHandoffAccepted (stage c) (hp_NetID p) (hp_Epoch p)) in *.
  assert (Hlive : live n (stage c) -> live n st1) by (unfold live; by rewrite Hi).
  destruct (PeekTransferPlayer (hp_TransferBlob p)) as [player|] eqn:Ep; cbn [fst snd].
  - assert (Hnew : hp_NetID p = n -> forall hd, holds n (mkCell st1 hd
      (<[hp_CommitTick p := default [] (pendingPromotes c !! hp_CommitTick p) ++
         [mkPromote (hp_NetID p) (hp_Epoch p) (hp_TransferBlob p) (hp_ConnID p) from]]> (pendingPromotes c)))).
    { intros Hp hd. right. do 3 eexists. simpl. rewrite lookup_insert, decide_True by done.
      split; [done|]. split; [apply elem_of_app; right; apply list_elem_of_singleton; reflexivity|].
      split; [done|]. by apply Hgood. }
    split_and!; [by apply Hmark|done| | | |].
    + intros [?|?]; [left; simpl; auto|right; by apply promised_queue].
    + intros Ha Hs. destruct (decide (hp_NetID p = n)) as [Hp|Hp]; [by apply Hnew|].
      simpl in Hs. rewrite Hacc in Hs by done.
      destruct (Ha Hs) as [?|?]; [left; simpl; auto|right; by apply promised_queue].
    + intros d q Hin. apply elem_of_cons in Hin as [|Hin]; [done|].
      destruct (srcConnID player =? 0); [by apply not_elem_of_nil in Hin|by apply list_elem_of_singleton in Hin].
    + intros d k Hin Hk. apply elem_of_cons in Hin as [[= -> ->]|Hin].
      * split; [done|]. intros _. by apply Hnew.
      * destruct (srcConnID player =? 0); [by apply not_elem_of_nil in Hin|by apply list_elem_of_singleton in Hin].
  - assert (Hpn : hp_NetID p <> n).
    { intros Hp. destruct (good_peek n _ (Hgood Hp)) as [? Hx]. congruence. }
    split_and!; [by apply Hmark|done| | | |].
    + intros [?|?]; [left; simpl; auto|by right].
    + intros Ha Hs. simpl in Hs. rewrite Hacc in Hs by done.
      destruct (Ha Hs) as [?|?]; [left; simpl; auto|by right].
    + by intros d q ?%list_elem_of_singleton.
    + by intros d k [= -> ->]%list_elem_of_singleton Hk.
Qed.
End LocalSteps.

(** The pending half of [hasHandoffInFlight] decides [armed]. *)
Lemma hasHandoffInFlight_spec hd k :
  hasHandoffInFlight hd k = true <-> is_Some (inflight hd !! k) \/ armed k hd.
Proof.
  unfold hasHandoffInFlight. rewrite orb_true_iff, bool_decide_eq_true.
  apply or_iff_compat_l. rewrite existsb_exists. split.
  - intros ([ct l] & Hct%list_elem_of_In%elem_of_map_to_list & Hl).
    apply existsb_exists in Hl as (d & Hd%list_elem_of_In & Hdn%Z.eqb_eq). by exists ct, l, d.
  - intros (ct & l & d & Hct & Hd & Hdn & _).
    exists (ct, l). split; [by apply list_elem_of_In, elem_of_map_to_list|].
    apply existsb_exists. exists d. split; [by apply list_elem_of_In|]. by apply Z.eqb_eq.
Qed.

Lemma armed_dec k hd : armed k hd \/ ~ armed k hd.
Proof.
  destruct (hasHandoffInFlight (mkDriver ∅ (pendingDemotes hd) ∅ ∅) k) eqn:E.
  - apply hasHandoffInFlight_spec in E as [[? ?]|E]; [done|by left].
  - right. intros Ha. apply not_true_iff_false in E. apply E, hasHandoffInFlight_spec. by right.
Qed.

Section ClusterInv.
Context (n : Z) (a : MeshCellID).
Hypothesis Hn : in_u32 n.
Hypothesis Hn0 : n <> 0.

Lemma accepted_spec Q c from k :
  cell_inv n Q c ->
  let c' := onMsgHandoffAccepted c from k in
  cell_inv n Q c' /\ stage c' = stage c /\ pendingPromotes c' = pendingPromotes c /\
  (forall D, armed_to n D (driver c') -> armed_to n D (driver c) \/ (ha_NetID k = n /\ D from /\ Q from)).
Proof.
  intros HI. unfold onMsgHandoffAccepted, OnHandoffAccepted. cbn [stage pendingPromotes set_driver].
  destruct (inflight (driver c) !! ha_NetID k) as [h|] eqn:Eh.
  2:{ split_and!; [by destruct c|done|done|auto]. }
  destruct (negb (if_epoch h =? ha_Epoch k) || negb (if_commitTick h =? ha_CommitTick k)); cbn [orb].
  { split_and!; [by destruct c|done|done|auto]. }
  destruct (String.eqb_spec (if_destCellID h) from) as [Hd|Hd]; cbn [negb].
  2:{ split_and!; [by destruct c|done|done|auto]. }
  split_and!; [|done|done|].
  - apply (cell_inv_move n Q c); [done..|]. simpl. apply inflight_le_delete.
  - intros D (ct & l & d & Hl & Hin & Hdn & HD). simpl in Hl.
    apply lookup_insert_Some in Hl as [[<- <-]|[_ Hl]]; [|left; by exists ct, l, d].
    apply elem_of_app in Hin as [Hin| ->%list_elem_of_singleton].
    + left. destruct (pendingDemotes (driver c) !! if_commitTick h) as [l0|] eqn:E; simpl in Hin;
        [by exists (if_commitTick h), l0, d|by apply not_elem_of_nil in Hin].
    + right. simpl in Hdn, HD. rewrite Hd in HD. split_and!; [done|done|].
      destruct (ci_inflight _ _ _ HI _ _ Eh) as [_ HQ]. rewrite <- Hd. by apply HQ.
Qed.

Lemma starts_inv s : starts n a s -> cluster_inv n a s.
Proof.
  intros (Hnet & (ca & Hca & Hl) & Hc). constructor.
  - intros x c Hx. destruct (Hc x c Hx) as (H1 & H2 & H3 & _). constructor; [done| |].
    + rewrite H2. by intros ? ?%not_elem_of_nil.
    + rewrite H3. intros k h. simpl. by rewrite lookup_empty.
  - intros x c Hx _ (ct & l & d & Hd & _). destruct (Hc x c Hx) as (_ & _ & H3 & _).
    rewrite H3 in Hd. simpl in Hd. by rewrite lookup_empty in Hd.
  - intros x c Hx Hne [y Hy]. destruct (Hc x c Hx) as (_ & _ & _ & H4). rewrite H4 in Hy; done.
  - intros c d Hx (ct & l & e & Hd & _). destruct (Hc a c Hx) as (_ & _ & H3 & _).
    rewrite H3 in Hd. simpl in Hd. by rewrite lookup_empty in Hd.
  - rewrite Hnet. by intros ? ? ? ?%not_elem_of_nil.
  - rewrite Hnet. by intros ? ? ? ?%not_elem_of_nil.
  - exists a, ca. split; [done|by left].
Qed.

(** A cell that keeps holding [n] keeps every promise made about it. *)
Lemma held_update (cs : gmap MeshCellID Cell) x c c' d :
  cs !! x = Some c -> (holds n c -> holds n c') ->
  (exists cd, cs !! d = Some cd /\ holds n cd) ->
  exists cd, <[x := c']> cs !! d = Some cd /\ holds n cd.
Proof.
  intros Hx Hh (cd & Hd & Hold). destruct (decide (d = x)) as [->|Hne].
  - exists c'. rewrite lookup_insert, decide_True by done. split; [done|]. apply Hh. congruence.
  - exists cd. by rewrite lookup_insert_ne.
Qed.

Lemma held_update_ne (cs : gmap MeshCellID Cell) x c' d :
  d <> x -> (exists cd, cs !! d = Some cd /\ holds n cd) ->
  exists cd, <[x := c']> cs !! d = Some cd /\ holds n cd.
Proof. intros Hne (cd & Hd & Hold). exists cd. by rewrite lookup_insert_ne. Qed.

(** The invariant survives any step of cell [x] to [c'] whose messages respect
    the invariant, provided authority is lost only at [a] and only when armed. *)
Lemma cluster_inv_update s x c c' ms :
  cluster_inv n a s -> cells s !! x = Some c ->
  cell_inv n (exits a x) c' ->
  (x <> a -> ~ armed n (driver c')) ->
  (x <> a -> (is_Some (handoffAccepted (stage c) !! n) -> holds n c) ->
     is_Some (handoffAccepted (stage c') !! n) -> holds n c') ->
  (~ armed n (driver c) -> holds n c -> holds n c') ->
  (x = a -> forall d, armed_to n (eq d) (driver c') -> armed_to n (eq d) (driver c) \/
     (d <> a /\ exists cd, cells s !! d = Some cd /\ holds n cd)) ->
  (forall from to p, MHandoff from to p ∈ ms -> hp_NetID p = n -> to <> a /\ good n (hp_TransferBlob p)) ->
  (forall from to k, MHandoffAccepted from to k ∈ ms -> ha_NetID k = n ->
     from = x /\ x <> a /\ ((is_Some (handoffAccepted (stage c) !! n) -> holds n c) -> holds n c')) ->
  cluster_inv n a (mkCluster (<[x := c']> (cells s)) (net s ++ ms)).
Proof.
  intros HI Hx Hc' Hq' Hacc' Hh' Ha' Hm1 Hm2.
  assert (Hkeep : x <> a -> holds n c -> holds n c') by (intros; apply Hh'; [by eapply cl_quiet|done]).
  assert (Hother : forall d, d <> a -> (exists cd, cells s !! d = Some cd /\ holds n cd) ->
            exists cd, <[x := c']> (cells s) !! d = Some cd /\ holds n cd).
  { intros d Hd He. destruct (decide (x = a)) as [->|Hxa]; [by apply held_update_ne|].
    eapply held_update; [exact Hx|by apply Hkeep|done]. }
  constructor; simpl.
  - intros y cy [[<- <-]|[_ Hy]]%lookup_insert_Some; [done|]. by apply HI.
  - intros y cy [[<- <-]|[_ Hy]]%lookup_insert_Some Hya; [auto|]. by eapply cl_quiet.
  - intros y cy [[<- <-]|[_ Hy]]%lookup_insert_Some Hya; [|by eapply cl_accepted].
    intros Hs. apply Hacc'; [done| |done]. by eapply cl_accepted.
  - intros cy d [[-> <-]|[_ Hy]]%lookup_insert_Some Harm.
    + destruct (Ha' eq_refl d Harm) as [Harm'|[Hd He]]; [|auto].
      destruct (cl_armed _ _ _ HI c d Hx Harm') as [Hd He]. auto.
    + destruct (cl_armed _ _ _ HI cy d Hy Harm) as [Hd He]. auto.
  - intros from to p [Hp|Hp]%elem_of_app; [by eapply cl_handoffs|eauto].
  - intros from to k [Hp|Hp]%elem_of_app Hk.
    + destruct (cl_acks _ _ _ HI _ _ _ Hp Hk). auto.
    + destruct (Hm2 _ _ _ Hp Hk) as (-> & Hxa & Hh). split; [done|].
      exists c'. rewrite lookup_insert, decide_True by done. split; [done|]. apply Hh. by eapply cl_accepted.
  - destruct (decide (x = a)) as [->|Hxa].
    + destruct (cl_held _ _ _ HI) as (y & cy & Hy & Hhy). destruct (decide (y = a)) as [->|Hya].
      2:{ exists y. apply held_update_ne; [done|]. by exists cy. }
      assert (cy = c) as -> by congruence.
      destruct (armed_dec n (driver c)) as [(ct & l & d & Hct & Hd & Hdn & _)|Hna].
      * destruct (cl_armed _ _ _ HI c (pd_destCellID d) Hx) as [Hda He]; [by exists ct, l, d|].
        exists (pd_destCellID d). auto.
      * exists a, c'. rewrite lookup_insert, decide_True by done. auto.
    + destruct (cl_held _ _ _ HI) as (y & Hy). exists y. destruct (decide (y = a)) as [->|Hya].
      * apply held_update_ne; [done|exact Hy].
      * by apply Hother.
Qed.
End ClusterInv.

Section ClusterSteps.
Context (n : Z) (a : MeshCellID).
Hypothesis Hn : in_u32 n.
Hypothesis Hn0 : n <> 0.

Lemma elem_of_wire x effs m :
  m ∈ (effs ≫= wire x) ->
  (exists d p, m = MHandoff x d p /\ EffHandoff d p ∈ effs) \/
  (exists d k, m = MHandoffAccepted x d k /\ EffAck d k ∈ effs).
Proof.
  intros (e & Hm & He)%list_elem_of_bind. destruct e; simpl in Hm;
    try (by apply not_elem_of_nil in Hm); apply list_elem_of_singleton in Hm as ->; eauto.
Qed.

Lemma armed_any D hd : armed_to n D hd -> armed n hd.
Proof. intros (ct & l & d & ? & ? & ? & _). by exists ct, l, d. Qed.

Lemma cluster_step_inv s s' : cluster_step n (exits a) s s' -> cluster_inv n a s -> cluster_inv n a s'.
Proof.
  destruct 1 as [s x c r Hx Hls|s x c from p hb ao Hx Hm r|s x c from k Hx Hm]; intros HI.
  - destruct (local_spec n (exits a x) Hn Hn0 c r Hls (cl_cell _ _ _ HI x c Hx)) as (H1 & H2 & H3 & H4 & H5).
    eapply cluster_inv_update; try done.
    + intros Hxa Harm. apply (cl_quiet _ _ _ HI x c Hx Hxa). by apply H3.
    + intros Hxa Hold Hs. apply H4; [by eapply cl_quiet|]. auto.
    + intros -> d Harm. left. by apply H3.
    + intros from to p [(d & q & [= -> -> ->] & Hin)|(d & k & [=] & _)]%elem_of_wire Hp.
      destruct (proj1 H2 _ _ Hin Hp) as [[_ ?] ?]. done.
    + intros from to k [(d & q & [=] & _)|(d & k' & [= -> -> ->] & Hin)]%elem_of_wire Hk.
      by apply (proj2 H2) in Hin.
  - assert (Hgood : hp_NetID p = n -> good n (hp_TransferBlob p)).
    { intros Hp. by destruct (cl_handoffs _ _ _ HI _ _ _ Hm Hp). }
    destruct (onMsgHandoff_spec n (exits a x) Hn Hn0 hb ao c from p (cl_cell _ _ _ HI x c Hx) Hgood)
      as (H1 & H2 & H3 & H4 & H5 & H6).
    eapply cluster_inv_update; try done.
    + intros Hxa. unfold r. rewrite H2. by eapply cl_quiet.
    + intros -> d. unfold r. rewrite H2. by left.
    + intros from' to q [(d & q' & [= -> -> ->] & Hin)|(d & k & [=] & _)]%elem_of_wire Hp.
      by apply H5 in Hin.
    + intros from' to k [(d & q & [=] & _)|(d & k' & [= -> -> ->] & Hin)]%elem_of_wire Hk.
      destruct (H6 _ _ Hin Hk) as [Hpn Hh]. split_and!; [done| |done].
      intros ->. by destruct (cl_handoffs _ _ _ HI _ _ _ Hm Hpn).
  - destruct (accepted_spec n (exits a x) c from k (cl_cell _ _ _ HI x c Hx)) as (H1 & H2 & H3 & H4).
    rewrite <- (app_nil_r (net s)).
    assert (Hh : holds n c -> holds n (onMsgHandoffAccepted c from k)).
    { unfold holds, promised. by rewrite H2, H3. }
    eapply cluster_inv_update; try done.
    + intros Hxa Harm. apply H4 in Harm as [Harm|(_ & _ & Hxa' & _)]; [by eapply cl_quiet|done].
    + intros -> d Harm. apply H4 in Harm as [Harm|(Hk & -> & _)]; [by left|right].
      by apply (cl_acks _ _ _ HI _ _ _ Hm).
    + by intros ? ? ? ?%not_elem_of_nil.
    + by intros ? ? ? ?%not_elem_of_nil.
Qed.

Lemma reachable_inv s s' : starts n a s -> rtc (cluster_step n (exits a)) s s' -> cluster_inv n a s'.
Proof.
  intros Hs Hr. apply (starts_inv n a) in Hs; [|done..]. induction Hr as [|s1 s2 s3 Hs1 _ IH]; [done|].
  apply IH. by eapply cluster_step_inv.
Qed.
End ClusterSteps.

(** A handoff is either awaiting its acknowledgement or armed, never both. *)
Definition exclusive (hd : HandoffDriver) : Prop :=
  forall k, is_Some (inflight hd !! k) -> ~ armed k hd.

Section Exclusive.
Lemma exclusive_le hd hd' :
  inflight_le (inflight hd) (inflight hd') -> (forall k, armed k hd' -> armed k hd) ->
  exclusive hd -> exclusive hd'.
Proof. intros Hle Ha He k [h Hk] Harm. destruct (Hle k h Hk) as (h0 & Hk0 & _). apply (He k); eauto. Qed.

Lemma exclusive_accept hd k epoch ct from : exclusive hd -> exclusive (OnHandoffAccepted hd k epoch ct from).
Proof.
  intros He. unfold OnHandoffAccepted. destruct (inflight hd !! k) as [h|] eqn:Eh; [|done].
  case_match; [done|]. intros j [h' Hj] (ct' & l & d & Hl & Hd & Hdn & _). simpl in Hj, Hl.
  apply lookup_delete_Some in Hj as [Hne Hj]. apply (He j); [by exists h'|].
  apply lookup_insert_Some in Hl as [[<- <-]|[_ Hl]]; [|by exists ct', l, d].
  apply elem_of_app in Hd as [Hd| ->%list_elem_of_singleton]; [|by simpl in Hdn].
  destruct (pendingDemotes hd !! if_commitTick h) as [l0|] eqn:E; simpl in Hd;
    [by exists (if_commitTick h), l0, d|by apply not_elem_of_nil in Hd].
Qed.

Lemma exclusive_crossing env c effs evt :
  exclusive (driver c) -> exclusive (driver (handleCrossing env (c, effs) evt).1).
Proof.
  intros He. unfold handleCrossing.
  destruct (world (stage c) !! ev_Entity evt) as [row|]; [|done].
  destruct (negb (bool_decide _)); [done|].
  destruct (hasHandoffInFlight (driver c) (ev_NetID evt)) eqn:Eh; [done|].
  destruct (inCooldown _ _ _); [done|]. destruct (MarshalTransferFrame _); simpl; [|done].
  assert (Hna : ~ armed (ev_NetID evt) (driver c)).
  { intros Ha. apply not_true_iff_false in Eh. apply Eh, hasHandoffInFlight_spec. by right. }
  case_match; simpl; intros k [h Hk] Harm; simpl in Hk.
  - apply lookup_insert_Some in Hk as [[<- _]|[_ Hk]]; [done|]. apply (He k); [by exists h|done].
  - apply lookup_delete_Some in Hk as [Hne Hk]. rewrite lookup_insert_ne in Hk by done.
    apply (He k); [by exists h|done].
Qed.

Lemma exclusive_commits env ds acc :
  exclusive (driver acc.1) -> exclusive (driver (foldl (commitDemote env) acc ds).1).
Proof.
  revert acc. induction ds as [|d ds IH]; intros [c effs] He; cbn [foldl]; [done|]. apply IH.
  unfold commitDemote, forwardConnectionInputs. repeat case_match; simplify_eq; done.
Qed.

Lemma exclusive_crossings env evts acc :
  exclusive (driver acc.1) -> exclusive (driver (foldl (handleCrossing env) acc evts).1).
Proof.
  revert acc. induction evts as [|evt evts IH]; intros [c effs] He; cbn [foldl]; [done|].
  apply IH. by apply exclusive_crossing.
Qed.

Lemma exclusive_tick env c : exclusive (driver c) -> exclusive (driver (Tick env c).1).
Proof.
  intros He. unfold Tick.
  destruct (forwardPending_fields (env_pending_inputs env) (env_pending_room env) (env_now env) (driver c))
    as (F1 & F2 & _).
  destruct (forwardPendingInputs _ _ _ _) as [hd0 effs0]. cbn [fst snd] in *.
  assert (H0 : exclusive hd0) by (unfold exclusive, armed, armed_to; rewrite F1, F2; exact He).
  cbn [stage driver set_driver]. destruct (drainingForMerge (stage c)); [done|].
  destruct (retryInflight_spec (env_send_retry env) (env_now env) (stage c) hd0) as (R1 & R2 & _).
  destruct (retryInflight _ _ _ _) as [hd1 effs1]. cbn [fst snd] in *.
  set (hd2 := set_demotes hd1 _). set (due := concat _).
  assert (H2 : exclusive hd2).
  { apply (exclusive_le hd0); [done| |done]. intros k Ha. unfold armed, armed_to. rewrite <- R2.
    by apply (armed_filter k (fun e => ~ e.1 <= env_now env) (fun _ => True) hd1 hd2). }
  pose proof (exclusive_commits env due (set_driver (set_driver c hd0) hd2, []) H2) as H3.
  destruct (foldl (commitDemote env) _ _) as [c3 effs2]. cbn [fst] in H3. unfold DrainCrossingQueue.
  pose proof (exclusive_crossings env (crossingQueue (stage c3)) (set_stage c3 (set_crossings (stage c3) []), []) H3) as H4.
  by destruct (foldl (handleCrossing env) _ _).
Qed.
End Exclusive.

(** ** The theorems *)

(** Two cells, entity 7 Live on the first as row 1. *)
Definition demo_stage (id : MeshCellID) : Stage :=
  mkStage id ∅ ∅ 1 ∅ ∅ ∅ ∅ [] false true.
Definition demo_stage_a : Stage :=
  mkStage "a" {[7 := mkSlot 1 PresenceLive]} {[1 := mkEnt (mkNet 7 3) None]} 2 ∅ ∅ ∅ ∅ [] false true.
Definition demo_a : Cell := mkCell demo_stage_a NewHandoffDriver ∅.
Definition demo_b : Cell := mkCell (demo_stage "b") NewHandoffDriver ∅.
Definition demo_cluster : Cluster :=
  mkCluster (<["a" := demo_a]> (<["b" := demo_b]> ∅)) [].
Definition demo_env (now : Z) : TickEnv :=
  mkEnv now 0 (fun _ _ => true) (fun _ _ => true) (fun _ => sample_frame)
    (fun _ => []) (fun _ => 0%nat) (fun _ => []) (fun _ => 0%nat) (fun _ => false) (fun _ => false).
Definition demo_event : CrossingEvent := mkCrossing 1 7 0 "" "b" false.

Section Demo.
Lemma demo_stage_ok id : stage_ok (demo_stage id).
Proof. constructor; simpl; intros *; by rewrite lookup_empty. Qed.

Lemma demo_stage_a_ok : stage_ok demo_stage_a.
Proof.
  constructor; simpl.
  - intros n e p [<- [= <- <-]]%lookup_singleton_Some. eexists. by rewrite lookup_singleton, decide_True.
  - intros n e. by rewrite lookup_empty.
  - intros e row [<- _]%lookup_singleton_Some. lia.
Qed.

Lemma demo_starts : starts 7 "a" demo_cluster.
Proof.
  split; [done|]. split.
  - exists demo_a. split; [done|]. apply live_slot. by exists 1.
  - intros x c Hc. simpl in Hc.
    apply lookup_insert_Some in Hc as [[<- <-]|[_ [[<- <-]|[_ Hx]]%lookup_insert_Some]].
    + split_and!; try done. apply demo_stage_a_ok.
    + split_and!; first [apply demo_stage_a_ok | done].
    + split_and!; first [apply demo_stage_ok | done].
Qed.
End Demo.

(** The cluster after the crossing, after the source's tick at 100, and after the
    handoff reached the destination, which promises to commit it. *)
Definition demo_crossed : Cluster :=
  mkCluster (<["a" := set_stage demo_a (QueueCrossing demo_stage_a demo_event)]> (cells demo_cluster)) [].
Definition demo_sent : Cell * list Effect :=
  PostSystems (demo_env 100) (set_stage demo_a (QueueCrossing demo_stage_a demo_event)).
Definition demo_inflight : Cluster :=
  mkCluster (<["a" := demo_sent.1]> (cells demo_crossed)) (demo_sent.2 ≫= wire "a").
Definition demo_payload : HandoffPayload :=
  match demo_sent.2 with EffHandoff _ p :: _ => p | _ => mkHandoff 0 0 0 [] 0 end.
Definition demo_accepted : Cell * list Effect := onMsgHandoff true true demo_b "a" demo_payload.
Definition demo_promised : Cluster :=
  mkCluster (<["b" := demo_accepted.1]> (cells demo_inflight))
    (net demo_inflight ++ (demo_accepted.2 ≫= wire "b")).

(** C1: handing an entity off from one cell never leaves it without an authority.  The
    entity starts Live on cell [a] and crosses out of [a] only, any number of times and to
    any cells ([exits a]: no cell it reached hands it back or on).  Then, however messages
    are lost, duplicated, delayed and reordered, however the cells tick, cancel, replicate
    borders and hand other entities around, at every moment some cell is Live for the entity
    or has accepted it with a readable blob for a coming tick; and whenever the source has
    armed its demote, the very cell the demote (and the player's session) is directed at is
    such a cell.  Without the restriction to one source cell it is false:
    [handback_loses_authority]. *)
Theorem no_zero_authority n a s s' :
  in_u32 n -> n <> 0 -> starts n a s -> rtc (cluster_step n (exits a)) s s' ->
  (exists x c, cells s' !! x = Some c /\ holds n c) /\
  (forall c d, cells s' !! a = Some c -> armed_to n (eq d) (driver c) ->
     d <> a /\ exists cd, cells s' !! d = Some cd /\ holds n cd).
Proof.
  intros Hn Hn0 Hs Hr. pose proof (reachable_inv n a Hn Hn0 s s' Hs Hr) as HI.
  split; [apply HI|]. intros c d. apply HI.
Qed.

Lemma no_zero_authority_witness :
  (exists x c, cells demo_promised !! x = Some c /\ holds 7 c) /\
  (forall c d, cells demo_promised !! "a" = Some c -> armed_to 7 (eq d) (driver c) ->
     d <> "a" /\ exists cd, cells demo_promised !! d = Some cd /\ holds 7 cd).
Proof.
  apply (no_zero_authority 7 "a" demo_cluster); [by unfold_int | done | apply demo_starts |].
  eapply rtc_l; [|eapply rtc_l; [|eapply rtc_l; [|apply rtc_refl]]].
  - apply (cs_local 7 (exits "a") demo_cluster "a" demo_a
             (set_stage demo_a (QueueCrossing demo_stage_a demo_event), [])); [done|].
    apply ls_crossing; [|by intros _].
    split; [simpl; lia|]. simpl. by intros row [_ <-]%lookup_singleton_Some.
  - apply (cs_local 7 (exits "a") demo_crossed "a" (set_stage demo_a (QueueCrossing demo_stage_a demo_event)) demo_sent);
      [by vm_compute|]. apply ls_tick. intros e. apply sample_frame_ok.
  - apply (cs_handoff 7 (exits "a") demo_inflight "b" demo_b "a" demo_payload true true); [by vm_compute|].
    vm_compute. by constructor.
Defined.

(** *** A late acknowledgement and a hand-back

    Entity 7 crosses from [a] to [b] at tick 100; the acknowledgement is held up and [b]
    commits at 102, so both cells are Live.  The entity crosses back at 103; [a], still Live,
    accepts it for tick 105 and acknowledges.  Then the first acknowledgement arrives: [a]
    arms its demote, and at tick 105 the promised row is refused as a duplicate of the Live
    one, which the demote then takes away, while [b] demotes as well. *)
Definition tick_cell (x : MeshCellID) (now : Z) (s : Cluster) : Cluster :=
  match cells s !! x with
  | Some c => let r := PostSystems (demo_env now) c in
      mkCluster (<[x := r.1]> (cells s)) (net s ++ (r.2 ≫= wire x))
  | None => s
  end.

Definition cross_cell (x : MeshCellID) (evt : CrossingEvent) (s : Cluster) : Cluster :=
  match cells s !! x with
  | Some c => mkCluster (<[x := set_stage c (QueueCrossing (stage c) evt)]> (cells s)) (net s ++ [])
  | None => s
  end.

(** Message [i] of everything ever sent is delivered. *)
Definition deliver (i : nat) (s : Cluster) : Cluster :=
  match net s !! i with
  | Some (MHandoff from x p) =>
      match cells s !! x with
      | Some c => let r := onMsgHandoff true true c from p in
          mkCluster (<[x := r.1]> (cells s)) (net s ++ (r.2 ≫= wire x))
      | None => s
      end
  | Some (MHandoffAccepted from x ack) =>
      match cells s !! x with
      | Some c => mkCluster (<[x := onMsgHandoffAccepted c from ack]> (cells s)) (net s)
      | None => s
      end
  | None => s
  end.

Definition anywhere (x d : MeshCellID) : Prop := True.

Lemma tick_cell_step x now s : is_Some (cells s !! x) -> cluster_step 7 anywhere s (tick_cell x now s).
Proof.
  intros [c E]. unfold tick_cell. rewrite E. apply (cs_local _ _ s x c); [done|]. apply ls_tick. intros e. apply sample_frame_ok.
Qed.

Lemma cross_cell_step x evt s c : cells s !! x = Some c -> evt_ok (stage c) evt ->
  cluster_step 7 anywhere s (cross_cell x evt s).
Proof. intros E He. unfold cross_cell. rewrite E. apply (cs_local 7 anywhere s x c (_, []) E). by apply ls_crossing. Qed.

Lemma deliver_step i s : (match net s !! i with
    | Some (MHandoff _ x _ | MHandoffAccepted _ x _) => is_Some (cells s !! x) | None => False end) ->
  cluster_step 7 anywhere s (deliver i s).
Proof.
  unfold deliver. destruct (net s !! i) as [[from x p|from x k]|] eqn:Em; [| |done]; intros [c E]; rewrite E;
    apply list_elem_of_lookup_2 in Em; [by eapply (cs_handoff _ _ s x c from p true true)|by eapply cs_accepted].
Qed.

Definition handback_event : CrossingEvent := mkCrossing 1 7 0 "" "a" false.

(** The states: crossed and sent, accepted and committed by [b], handed back and accepted
    by [a], both acknowledgements delivered. *)
Definition hb_sent : Cluster := tick_cell "a" 100 (cross_cell "a" demo_event demo_cluster).
Definition hb_dual : Cluster := tick_cell "b" 102 (deliver 0 hb_sent).
Definition hb_back : Cluster := deliver 2 (tick_cell "b" 103 (cross_cell "b" handback_event hb_dual)).
Definition hb_armed : Cluster := deliver 3 (deliver 1 hb_back).
Definition hb_lost : Cluster := tick_cell "b" 105 (tick_cell "a" 105 hb_armed).

Ltac tick_at := apply tick_cell_step; vm_compute; by eexists.
Ltac deliver_at i := apply (deliver_step i); vm_compute; by eexists.

Lemma hb_reach_sent : rtc (cluster_step 7 anywhere) demo_cluster hb_sent.
Proof.
  eapply rtc_l; [|eapply rtc_l; [|apply rtc_refl]].
  - apply (cross_cell_step "a" demo_event demo_cluster demo_a); [done|]. split; [simpl; lia|].
    simpl. by intros row [_ <-]%lookup_singleton_Some.
  - tick_at.
Qed.

Lemma hb_reach_dual : rtc (cluster_step 7 anywhere) demo_cluster hb_dual.
Proof. eapply rtc_r; [eapply rtc_r; [apply hb_reach_sent|deliver_at 0%nat]|tick_at]. Qed.

Definition hb_b : Cell := default demo_b (cells hb_dual !! "b").

Lemma hb_reachable : rtc (cluster_step 7 anywhere) demo_cluster hb_armed.
Proof.
  assert (evt_ok (stage hb_b) handback_event) as He.
  { split; [vm_compute; reflexivity|]. vm_compute. by intros row [= <-]. }
  eapply rtc_r; [|deliver_at 3%nat]. eapply rtc_r; [|deliver_at 1%nat]. eapply rtc_r; [|deliver_at 2%nat].
  eapply rtc_r; [|tick_at]. eapply rtc_r; [apply hb_reach_dual|].
  apply (cross_cell_step "b" handback_event hb_dual hb_b); [vm_compute; reflexivity|done].
Qed.

(** One acknowledgement late and one crossing back: no cell is Live for the entity, and
    none has accepted it. *)
Theorem handback_loses_authority :
  starts 7 "a" demo_cluster /\ rtc (cluster_step 7 anywhere) demo_cluster hb_lost /\
  (exists c, cells hb_lost !! "a" = Some c /\ presence (netIDIdx (stage c)) 7 = PresenceReplica /\ pendingPromotes c = ∅) /\
  (exists c, cells hb_lost !! "b" = Some c /\ presence (netIDIdx (stage c)) 7 = PresenceReplica /\ pendingPromotes c = ∅) /\
  length (map_to_list (cells hb_lost)) = 2%nat.
Proof.
  split; [apply demo_starts|]. split.
  { unfold hb_lost. eapply rtc_r; [eapply rtc_r; [apply hb_reachable|]|]; tick_at. }
  split; [eexists; split; [vm_compute; reflexivity|vm_compute; split; reflexivity]|].
  split; [eexists; split; [vm_compute; reflexivity|vm_compute; split; reflexivity]|]. vm_compute. reflexivity.
Qed.

(** The same run from [a]'s side: it has the entity promised for tick 105 and its demote
    armed, and after the tick at 105 it is not Live. *)
Theorem armed_promise_is_lost :
  exists c l p, cells hb_armed !! "a" = Some c /\ armed 7 (driver c) /\
    pendingPromotes c !! 105 = Some l /\ p ∈ l /\ pp_netID p = 7 /\
    ~ live 7 (stage (PostSystems (demo_env 105) c).1).
Proof.
  eexists _, _, _. split; [vm_compute; reflexivity|]. split.
  { exists 102. eexists _, _. split; [vm_compute; reflexivity|]. split; [by left|]. done. }
  split; [vm_compute; reflexivity|]. split; [by left|]. split; [reflexivity|]. vm_compute. discriminate.
Qed.

(** C2: an accepted handoff commits: a cell that holds a promise for the entity, with a
    readable blob, whose commit tick has come, and that has no demote of the entity armed,
    is Live for the entity after its next tick, whatever else that tick does.  With a demote
    armed it is false: [armed_promise_is_lost]. *)
Theorem promise_commits n Q env c ct l p :
  in_u32 n -> n <> 0 -> cell_inv n Q c -> (forall e, frame_ok (env_frame env e)) ->
  ~ armed n (driver c) ->
  pendingPromotes c !! ct = Some l -> p ∈ l -> pp_netID p = n -> good n (pp_transferBlob p) ->
  ct <= env_now env ->
  live n (stage (PostSystems env c).1).
Proof.
  intros Hn Hn0 HI Hfr Hna Hl Hp Hpn Hg Hct. unfold PostSystems.
  destruct (drain_spec n Q Hn0 (env_now env) c HI) as (D1 & D2 & _ & _ & _ & D6).
  destruct (Tick_spec n Q Hn Hn0 env _ Hfr D1) as (_ & _ & _ & _ & T5 & _).
  apply T5; [by rewrite D2|]. by eapply D6.
Qed.

Lemma promise_commits_witness : live 7 (stage (PostSystems (demo_env 102) demo_accepted.1).1).
Proof.
  assert (Hb : cell_inv 7 (fun _ => True) demo_b).
  { constructor; simpl; [apply demo_stage_ok|by intros ? ?%not_elem_of_nil|].
    intros k h. by rewrite lookup_empty. }
  assert (Hg : good 7 (hp_TransferBlob demo_payload)).
  { exists (handoffFrame sample_frame (mkNet 7 4)). split; [|by vm_compute].
    apply handoffFrame_ok; [apply sample_frame_ok|by unfold_int|by unfold_int]. }
  eapply (promise_commits 7 (fun _ => True) (demo_env 102) demo_accepted.1 102 _
            (mkPromote 7 4 (hp_TransferBlob demo_payload) 0 "a")).
  - by unfold_int.
  - done.
  - by apply onMsgHandoff_spec.
  - intros e. apply sample_frame_ok.
  - intros (ct & l & d & Hl & _). by vm_compute in Hl.
  - vm_compute. reflexivity.
  - vm_compute. by constructor.
  - done.
  - exact Hg.
  - done.
Defined.

(** C3: an acknowledgement arms a demote only if it matches the handoff in flight
    in network id, epoch, commit tick and answering cell; anything else changes
    nothing.  A match moves the entry from in flight to exactly one demote for the
    commit tick and records the cooldown; a second copy of it is ignored. *)
Theorem accept_fence hd n epoch ct from :
  let hd' := OnHandoffAccepted hd n epoch ct from in
  match inflight hd !! n with
  | Some h =>
      if bool_decide (if_epoch h = epoch /\ if_commitTick h = ct /\ if_destCellID h = from)
      then inflight hd' = delete n (inflight hd) /\
           pendingDemotes hd' = <[ct := default [] (pendingDemotes hd !! ct) ++
                                         [mkDemote n from (if_connID h)]]> (pendingDemotes hd) /\
           (lastHandoff hd' !! n ≫= lookup from) = Some ct /\
           OnHandoffAccepted hd' n epoch ct from = hd'
      else hd' = hd
  | None => hd' = hd
  end.
Proof.
  intros hd'. destruct (inflight hd !! n) as [h|] eqn:Eh; [|unfold hd', OnHandoffAccepted; by rewrite Eh].
  case_bool_decide as Hb.
  - destruct Hb as (<- & <- & <-).
    assert (H : inflight hd' = delete n (inflight hd) /\
      pendingDemotes hd' = <[if_commitTick h := default [] (pendingDemotes hd !! if_commitTick h) ++
                              [mkDemote n (if_destCellID h) (if_connID h)]]> (pendingDemotes hd) /\
      (lastHandoff hd' !! n ≫= lookup (if_destCellID h)) = Some (if_commitTick h)).
    { unfold hd', OnHandoffAccepted. rewrite Eh, !Z.eqb_refl, String.eqb_refl. simpl.
      rewrite lookup_insert, decide_True by done. simpl. by rewrite lookup_insert, decide_True. }
    destruct H as (H1 & H2 & H3). split_and!; try done. clearbody hd'.
    unfold OnHandoffAccepted. by rewrite H1, lookup_delete, decide_True.
  - unfold hd', OnHandoffAccepted. rewrite Eh.
    destruct (Z.eqb_spec (if_epoch h) epoch), (Z.eqb_spec (if_commitTick h) ct),
      (String.eqb_spec (if_destCellID h) from); simpl; try done. by destruct Hb.
Qed.

(** The acknowledgement tail decodes to what was encoded, and a tail of any
    other length is refused. *)
Theorem handoff_ack_roundtrip a l :
  in_u32 (ha_Epoch a) -> in_u64 (ha_CommitTick a) ->
  decodeHandoffAck (ha_NetID a) (encodeHandoffAck a) = Some a /\
  (length l <> handoffAckPayloadSize -> decodeHandoffAck (ha_NetID a) l = None).
Proof.
  intros He Hc. unfold decodeHandoffAck, encodeHandoffAck. split.
  - autorewrite with go_len. simpl negb. cbn iota. go_slices.
    rewrite le_u32, le_u64 by done. by destruct a.
  - intros Hl. by destruct (Nat.eqb_spec (length l) handoffAckPayloadSize).
Qed.

Lemma handoff_ack_roundtrip_witness :
  decodeHandoffAck 9 (encodeHandoffAck (mkAck 9 4 102)) = Some (mkAck 9 4 102) /\
  (length [1; 2; 3] <> handoffAckPayloadSize -> decodeHandoffAck 9 [1; 2; 3] = None).
Proof. apply (handoff_ack_roundtrip (mkAck 9 4 102) [1; 2; 3]); by unfold_int. Defined.

(** Any number of forwarding passes of one connection. *)
Fixpoint forward_passes (connID : Z) (passes : list (list bytes * nat)) (route : pendingInputForward)
  : pendingInputForward * list Effect :=
  match passes with
  | [] => (route, [])
  | (fresh, room) :: passes =>
      let '(route, e1) := forwardConnectionInputs fresh room connID route in
      let '(route, e2) := forward_passes connID passes route in
      (route, e1 ++ e2)
  end.

(** Forwarded input is neither lost, repeated nor reordered: over any number of
    passes, however much the path accepts each time, the frames sent followed by
    the frames still queued are the frames queued at first followed by the frames
    drained, in order, all to the same cell and connection. *)
Theorem forwarded_inputs_in_order connID passes route :
  let r := forward_passes connID passes route in
  exists sent, r.2 = (EffForwardInput (fw_destCellID route) connID <$> sent) /\
    sent ++ fw_backlog r.1 = fw_backlog route ++ concat passes.*1 /\
    fw_destCellID r.1 = fw_destCellID route.
Proof.
  revert route. induction passes as [|[fresh room] passes IH]; intros route; cbn [forward_passes].
  - exists []. simpl. by rewrite app_nil_r.
  - unfold forwardConnectionInputs. set (backlog := fw_backlog route ++ fresh).
    set (k := Nat.min room (length backlog)).
    destruct (IH (mkForward (fw_destCellID route) (fw_expiresTick route) (drop k backlog)))
      as (sent & H1 & H2 & H3). cbn [fw_backlog fw_destCellID] in *.
    destruct (forward_passes connID passes _) as [r e2]. cbn [fst snd] in *.
    exists (take k backlog ++ sent). split_and!; [by rewrite H1, fmap_app| |done].
    rewrite <- app_assoc, H2, app_assoc, take_drop. unfold backlog. by rewrite <- app_assoc.
Qed.

(** The driver of one cell, as its loop and the orchestrator drive it. *)
Inductive driver_step : Cell -> Cell -> Prop :=
| ds_tick env c : driver_step c (PostSystems env c).1
| ds_accepted c from k : driver_step c (onMsgHandoffAccepted c from k)
| ds_cancel c dests : driver_step c (set_driver c (CancelPendingDemotesTo (driver c) dests).1)
| ds_queue c evt : driver_step c (set_stage c (QueueCrossing (stage c) evt)).

(** C7: an entity is never handed to two cells at once: from a fresh driver, under
    any interleaving of ticks, acknowledgements, cancellations and new crossings,
    an entity with a handoff in flight has no demote armed, so a second crossing
    (to whatever cell) is dropped until the first one is settled. *)
Theorem handoffs_exclusive c c' :
  driver c = NewHandoffDriver -> rtc driver_step c c' ->
  forall n, is_Some (inflight (driver c') !! n) ->
    ~ armed n (driver c') /\
    forall env effs evt, ev_NetID evt = n -> handleCrossing env (c', effs) evt = (c', effs).
Proof.
  intros Hc Hr.
  assert (He : exclusive (driver c)) by (rewrite Hc; intros k [h Hk]; simpl in Hk; by rewrite lookup_empty in Hk).
  clear Hc. assert (He' : exclusive (driver c')).
  { induction Hr as [|c1 c2 c3 Hs _ IH]; [done|]. apply IH. destruct Hs as [env c|c from k|c dests|c evt].
    - by apply (exclusive_tick env (drainPendingPromotes (env_now env) c)).
    - by apply exclusive_accept.
    - destruct (cancel_fields 0 (driver c) dests) as [Hle _].
      apply (exclusive_le (driver c)); [done| |done]. intros k. by apply cancel_fields.
    - done. }
  intros n Hn. split; [by apply He'|]. intros env effs evt Hev. unfold handleCrossing.
  destruct (world (stage c') !! ev_Entity evt); [|done]. destruct (negb (bool_decide _)); [done|].
  rewrite Hev. by rewrite (proj2 (hasHandoffInFlight_spec (driver c') n)) by (by left).
Qed.

Lemma handoffs_exclusive_witness :
  ~ armed 7 (driver demo_sent.1) /\
  forall env effs evt, ev_NetID evt = 7 -> handleCrossing env (demo_sent.1, effs) evt = (demo_sent.1, effs).
Proof.
  apply (handoffs_exclusive demo_a demo_sent.1).
  - done.
  - eapply rtc_l; [apply (ds_queue demo_a demo_event)|]. eapply rtc_l; [|apply rtc_refl].
    apply (ds_tick (demo_env 100)).
  - vm_compute. by eexists.
Defined.
