(* ===== verification/SessionRoutes.v ===== *)
(** * Session routing table (pkg/universe/session_routes.go)

    [sessionRoutes] is the coordinator's map from a client connection
    (gateway, connection id) to the cell and host that own its session, with a
    fencing epoch per route.  A Go [range] over a map visits the entries in an
    unspecified order: every loop takes that order as an argument, and the
    theorems hold for each order.  The lock makes one method one step. *)

From S2P Require Import Prelude.

Record SessionKey := mkSessionKey { sk_GatewayID : string; sk_ConnID : Z }.

#[export] Instance SessionKey_eq_dec : EqDecision SessionKey.
Proof. solve_decision. Defined.
#[export] Program Instance SessionKey_countable : Countable SessionKey :=
  inj_countable' (fun k => (sk_GatewayID k, sk_ConnID k))
                 (fun p => mkSessionKey p.1 p.2) _.
Next Obligation. by intros []. Qed.

Record SessionRoute := mkSessionRoute {
  sr_Key : SessionKey;
  sr_Username : string;
  sr_HostID : string;
  sr_CellID : string;
  sr_Epoch : Z
}.

Abbreviation sessionRoutes := (gmap SessionKey SessionRoute).

Definition newSessionRoutes : sessionRoutes := ∅.

Definition Set_ (r : sessionRoutes) (route : SessionRoute) : sessionRoutes :=
  <[sr_Key route := route]> r.

Definition with_cell (v : SessionRoute) (newCell : string) : SessionRoute :=
  mkSessionRoute (sr_Key v) (sr_Username v) (sr_HostID v) newCell (sr_Epoch v).

Definition UpdateCell (r : sessionRoutes) (key : SessionKey) (newCell : string)
  : sessionRoutes * bool :=
  match r !! key with
  | None => (r, false)
  | Some v => (<[key := with_cell v newCell]> r, true)
  end.

(** The epoch is a [uint64]: [route.Epoch++] wraps. *)
Definition AdvanceCellFrom (r : sessionRoutes) (key : SessionKey) (newCell : string) (floor : Z)
  : sessionRoutes * Z :=
  match r !! key with
  | Some route =>
      let e := if floor >? sr_Epoch route then floor else sr_Epoch route in
      let e := u64 (e + 1) in
      (<[key := mkSessionRoute (sr_Key route) (sr_Username route) (sr_HostID route) newCell e]> r, e)
  | None =>
      let epoch := if negb (floor =? 0) then u64 (floor + 1) else 1 in
      (<[key := mkSessionRoute key "" "" newCell epoch]> r, epoch)
  end.

Definition AdvanceCell (r : sessionRoutes) (key : SessionKey) (newCell : string)
  : sessionRoutes * Z :=
  AdvanceCellFrom r key newCell 0.

Definition Get (r : sessionRoutes) (key : SessionKey) : option SessionRoute := r !! key.

(** [ForEach]: the routes the callback sees, until it returns false.  [order]
    is the order of the map iteration. *)
Fixpoint ForEach (r : sessionRoutes) (order : list SessionKey) (fn : SessionRoute -> bool)
  : list SessionRoute :=
  match order with
  | [] => []
  | k :: order =>
      match r !! k with
      | None => ForEach r order fn
      | Some v => if fn v then v :: ForEach r order fn else [v]
      end
  end.

Definition Len (r : sessionRoutes) : nat := size r.

Definition Remove (r : sessionRoutes) (key : SessionKey) : sessionRoutes := delete key r.

Definition Migrate (r : sessionRoutes) (key : SessionKey) (newHost newCell : string)
  : sessionRoutes * option Z :=
  match r !! key with
  | None => (r, None)
  | Some v =>
      let e := u64 (sr_Epoch v + 1) in
      (<[key := mkSessionRoute (sr_Key v) (sr_Username v) newHost newCell e]> r, Some e)
  end.

(** ** The loops

    [range_loop] is [for k, v := range r.routes]: the body sees the current
    entry of each key and may rewrite or delete it and append to the result. *)
Fixpoint range_loop {O} (body : SessionKey -> SessionRoute -> option (option SessionRoute * O))
  (order : list SessionKey) (r : sessionRoutes) (out : list O) : sessionRoutes * list O :=
  match order with
  | [] => (r, out)
  | k :: order =>
      match r !! k with
      | None => range_loop body order r out
      | Some v =>
          match body k v with
          | None => range_loop body order r out
          | Some (None, o) => range_loop body order (delete k r) (out ++ [o])
          | Some (Some v', o) => range_loop body order (<[k := v']> r) (out ++ [o])
          end
      end
  end.

(** [n] counts the deletions. *)
Definition RemoveByGateway (order : list SessionKey) (r : sessionRoutes) (gatewayID : string)
  : sessionRoutes * nat :=
  let '(r', out) := range_loop (fun k _ =>
    if decide (sk_GatewayID k = gatewayID) then Some (None, tt) else None) order r [] in
  (r', length out).

Definition RemoveByHost (order : list SessionKey) (r : sessionRoutes) (hostID : string)
  : sessionRoutes * nat :=
  let '(r', out) := range_loop (fun _ v =>
    if decide (sr_HostID v = hostID) then Some (None, tt) else None) order r [] in
  (r', length out).

Definition remapCell (order : list SessionKey) (r : sessionRoutes) (pred : string -> bool)
  (newCellID : string) : sessionRoutes * list SessionKey :=
  range_loop (fun k v =>
    if pred (sr_CellID v) then Some (Some (with_cell v newCellID), k) else None) order r [].

Definition remapCellPerRoute (order : list SessionKey) (r : sessionRoutes)
  (decide_ : SessionRoute -> option string) : sessionRoutes * list SessionKey :=
  range_loop (fun k v =>
    match decide_ v with
    | Some newCell => Some (Some (with_cell v newCell), k)
    | None => None
    end) order r [].

(** A [remapResult] is the pair (Key, Epoch). *)
Definition bump_host (v : SessionRoute) (newHost newCell : string) : SessionRoute :=
  mkSessionRoute (sr_Key v) (sr_Username v) newHost newCell (u64 (sr_Epoch v + 1)).

Definition remapHostCell (order : list SessionKey) (r : sessionRoutes) (pred : string -> bool)
  (newHost newCell : string) : sessionRoutes * list (SessionKey * Z) :=
  range_loop (fun k v =>
    if pred (sr_CellID v)
    then Some (Some (bump_host v newHost newCell), (k, u64 (sr_Epoch v + 1)))
    else None) order r [].

(** An iteration order of [r]: every key once. *)
Definition range_order (r : sessionRoutes) (order : list SessionKey) : Prop :=
  NoDup order /\ forall k, k ∈ order <-> is_Some (r !! k).

Lemma range_order_exists r : range_order r (map_to_list r).*1.
Proof.
  split; [apply NoDup_fst_map_to_list|]. intros k. split.
  - intros ([k' v] & -> & Hin)%list_elem_of_fmap_1.
    apply elem_of_map_to_list in Hin. by exists v.
  - intros [v Hv]. apply (list_elem_of_fmap_2' fst _ (k, v)); [|done].
    by apply elem_of_map_to_list.
Qed.

(** ** What a loop computes

    With distinct keys every entry is rewritten by [body] exactly once, from
    its value before the loop. *)
Section Loop.
Context {O : Type} (body : SessionKey -> SessionRoute -> option (option SessionRoute * O)).

Definition entry_after (k : SessionKey) (ov : option SessionRoute) : option SessionRoute :=
  match ov with
  | None => None
  | Some v => match body k v with None => Some v | Some (ov', _) => ov' end
  end.

Definition entry_out (r : sessionRoutes) (k : SessionKey) : list O :=
  match r !! k with
  | None => []
  | Some v => match body k v with None => [] | Some (_, o) => [o] end
  end.

Lemma flat_map_ext_in {A B} (f g : A -> list B) (l : list A) :
  (forall x, x ∈ l -> f x = g x) -> flat_map f l = flat_map g l.
Proof.
  induction l as [|x l IH]; intros Hfg; simpl; [done|].
  rewrite (Hfg x), IH; [done| |by left]. intros y Hy. apply Hfg. by right.
Qed.

Lemma range_loop_spec order r out :
  NoDup order ->
  (forall k, (range_loop body order r out).1 !! k
             = if decide (k ∈ order) then entry_after k (r !! k) else r !! k)
  /\ (range_loop body order r out).2 = out ++ flat_map (entry_out r) order.
Proof.
  intros Hnd. revert r out. induction Hnd as [|k0 order Hk0 Hnd IH]; intros r out.
  { split; [|by rewrite app_nil_r]. intros k.
    rewrite decide_False; [done|]. intros Hin. by apply elem_of_nil in Hin. }
  assert (forall r' o, (forall k, k <> k0 -> r' !! k = r !! k) ->
    r' !! k0 = entry_after k0 (r !! k0) -> o = entry_out r k0 ->
    (forall k, (range_loop body order r' (out ++ o)).1 !! k
             = if decide (k ∈ k0 :: order) then entry_after k (r !! k) else r !! k)
    /\ (range_loop body order r' (out ++ o)).2
       = out ++ flat_map (entry_out r) (k0 :: order)) as Hstep.
  { intros r' o Hne Heq ->. destruct (IH r' (out ++ entry_out r k0)) as [H1 H2]. split.
    - intros k. rewrite H1. destruct (decide (k = k0)) as [-> |Hk].
      + rewrite decide_False by done. rewrite decide_True by (by left). done.
      + rewrite (Hne k Hk). destruct (decide (k ∈ order)).
        * by rewrite decide_True by (by right).
        * rewrite decide_False; [done|]. rewrite elem_of_cons. naive_solver.
    - rewrite H2, <- app_assoc. simpl. do 2 f_equal.
      apply flat_map_ext_in. intros k Hk. unfold entry_out. rewrite Hne; [done|].
      by intros ->. }
  unfold entry_after, entry_out in Hstep. simpl range_loop.
  destruct (r !! k0) as [v|] eqn:E.
  - destruct (body k0 v) as [[[v'|] o]|] eqn:B.
    + apply Hstep; [|by rewrite lookup_insert, decide_True|done].
      intros k Hk. by rewrite lookup_insert_ne by congruence.
    + apply Hstep; [|by rewrite lookup_delete, decide_True|done].
      intros k Hk. by rewrite lookup_delete_ne by congruence.
    + specialize (Hstep r []). rewrite app_nil_r in Hstep. by apply Hstep.
  - specialize (Hstep r []). rewrite app_nil_r in Hstep. by apply Hstep.
Qed.

Lemma range_loop_lookup order r k :
  range_order r order ->
  (range_loop body order r []).1 !! k = entry_after k (r !! k).
Proof.
  intros [Hnd Hin]. rewrite (proj1 (range_loop_spec order r [] Hnd)).
  destruct (decide (k ∈ order)) as [|Hk]; [done|].
  rewrite Hin in Hk. apply eq_None_not_Some in Hk. by rewrite Hk.
Qed.

Lemma range_loop_out order r o :
  range_order r order ->
  o ∈ (range_loop body order r []).2 <->
  exists k v ov, r !! k = Some v /\ body k v = Some (ov, o).
Proof.
  intros [Hnd Hin]. rewrite (proj2 (range_loop_spec order r [] Hnd)). simpl.
  rewrite list_elem_of_In, in_flat_map. unfold entry_out. split.
  - intros (k & _ & Ho). destruct (r !! k) as [v|] eqn:E; [|by destruct Ho].
    destruct (body k v) as [[ov o']|] eqn:B; [|by destruct Ho].
    destruct Ho as [-> |[]]. by exists k, v, ov.
  - intros (k & v & ov & E & B). exists k. split.
    + apply list_elem_of_In, Hin. by exists v.
    + rewrite E, B. by left.
Qed.
End Loop.

Lemma range_loop_delete_size (body : SessionKey -> SessionRoute -> option (option SessionRoute * unit))
  order r out :
  (forall k v ov o, body k v = Some (ov, o) -> ov = None) ->
  (length (range_loop body order r out).2 + size (range_loop body order r out).1
   = length out + size r)%nat.
Proof.
  intros Hbody. revert r out. induction order as [|k order IH]; intros r out; simpl; [done|].
  destruct (r !! k) as [v|] eqn:E; [|apply IH].
  destruct (body k v) as [[ov o]|] eqn:B; [|apply IH].
  rewrite (Hbody _ _ _ _ B), IH, length_app, map_size_delete_Some by done.
  assert (size r <> 0%nat) as Hs; [|simpl; lia].
  intros Hs. apply map_size_empty_inv in Hs. subst. by rewrite lookup_empty in E.
Qed.

(** A deleting loop is a filter, and its result counts what it deleted. *)
Lemma delete_loop_spec (drop : SessionKey -> SessionRoute -> Prop)
  `{forall k v, Decision (drop k v)} order r :
  range_order r order ->
  let res := range_loop (fun k v => if decide (drop k v) then Some (None, tt) else None)
               order r [] in
  res.1 = filter (fun kv => ~ drop kv.1 kv.2) r /\ length res.2 = (size r - size res.1)%nat.
Proof.
  intros Ho res. split.
  - apply map_eq. intros k. unfold res.
    rewrite range_loop_lookup by done. rewrite map_lookup_filter. unfold entry_after.
    destruct (r !! k) as [v|]; [|done]. simpl.
    destruct (decide (drop k v)); case_guard; simpl; naive_solver.
  - pose proof (range_loop_delete_size
      (fun k v => if decide (drop k v) then Some (None, tt) else None) order r []) as Hs.
    fold res in Hs. simpl in Hs.
    assert (length res.2 + size res.1 = size r)%nat as <-; [|lia].
    apply Hs. intros k v ov o. case_decide; naive_solver.
Qed.

Lemma delete_loop_count (drop : SessionKey -> SessionRoute -> Prop)
  {H : forall k v, Decision (drop k v)} order r :
  range_order r order ->
  (let '(r', out) := range_loop (fun k v => if decide (drop k v) then Some (None, tt) else None)
     order r [] in (r', length out))
  = (filter (fun kv => ~ drop kv.1 kv.2) r,
     size r - size (filter (fun kv => ~ drop kv.1 kv.2) r))%nat.
Proof.
  intros Ho. destruct (delete_loop_spec drop order r Ho) as [H1 H2].
  rewrite H1 in H2. destruct (range_loop _ order r []). simpl in *.
  by rewrite H1, H2.
Qed.

(** ** Operations as steps

    One method call, with the iteration order where it loops.  [run_op] gives
    the table after the call and the fencing tokens it returned. *)

Inductive RouteOp :=
| OpSet (route : SessionRoute)
| OpUpdateCell (key : SessionKey) (newCell : string)
| OpAdvanceCellFrom (key : SessionKey) (newCell : string) (floor : Z)
| OpRemove (key : SessionKey)
| OpMigrate (key : SessionKey) (newHost newCell : string)
| OpRemoveByGateway (order : list SessionKey) (gatewayID : string)
| OpRemoveByHost (order : list SessionKey) (hostID : string)
| OpRemapCell (order : list SessionKey) (pred : string -> bool) (newCellID : string)
| OpRemapCellPerRoute (order : list SessionKey) (decide_ : SessionRoute -> option string)
| OpRemapHostCell (order : list SessionKey) (pred : string -> bool) (newHost newCell : string).

Definition run_op (r : sessionRoutes) (o : RouteOp) : sessionRoutes * list (SessionKey * Z) :=
  match o with
  | OpSet route => (Set_ r route, [])
  | OpUpdateCell key c => ((UpdateCell r key c).1, [])
  | OpAdvanceCellFrom key c floor =>
      let '(r', e) := AdvanceCellFrom r key c floor in (r', [(key, e)])
  | OpRemove key => (Remove r key, [])
  | OpMigrate key h c =>
      let '(r', oe) := Migrate r key h c in
      (r', match oe with Some e => [(key, e)] | None => [] end)
  | OpRemoveByGateway ord g => ((RemoveByGateway ord r g).1, [])
  | OpRemoveByHost ord h => ((RemoveByHost ord r h).1, [])
  | OpRemapCell ord pred c => ((remapCell ord r pred c).1, [])
  | OpRemapCellPerRoute ord d => ((remapCellPerRoute ord r d).1, [])
  | OpRemapHostCell ord pred h c => remapHostCell ord r pred h c
  end.

Fixpoint run_ops (r : sessionRoutes) (ops : list RouteOp) : sessionRoutes * list (SessionKey * Z) :=
  match ops with
  | [] => (r, [])
  | o :: ops =>
      let '(r1, t1) := run_op r o in
      let '(r2, t2) := run_ops r1 ops in (r2, t1 ++ t2)
  end.

(** A loop's order is an iteration order of the table it runs on. *)
Definition op_order_ok (r : sessionRoutes) (o : RouteOp) : Prop :=
  match o with
  | OpRemoveByGateway ord _ | OpRemoveByHost ord _ | OpRemapCell ord _ _
  | OpRemapCellPerRoute ord _ | OpRemapHostCell ord _ _ _ => range_order r ord
  | _ => True
  end.

Fixpoint orders_ok (r : sessionRoutes) (ops : list RouteOp) : Prop :=
  match ops with
  | [] => True
  | o :: ops => op_order_ok r o /\ orders_ok (run_op r o).1 ops
  end.

(** The calls that may end the life of [k]'s route: replacing or removing it. *)
Definition keeps (k : SessionKey) (o : RouteOp) : Prop :=
  match o with
  | OpSet route => sr_Key route <> k
  | OpRemove key => key <> k
  | OpRemoveByGateway _ _ | OpRemoveByHost _ _ => False
  | _ => True
  end.

Definition floor_of (o : RouteOp) : Z :=
  match o with OpAdvanceCellFrom _ _ floor => floor | _ => 0 end.

Definition tokens_for (k : SessionKey) (ts : list (SessionKey * Z)) : list Z :=
  (filter (fun t => t.1 = k) ts).*2.

Lemma tokens_for_app k a b : tokens_for k (a ++ b) = tokens_for k a ++ tokens_for k b.
Proof. unfold tokens_for. by rewrite filter_app, fmap_app. Qed.

(** ** One step on one route

    While the route stays, its owner moves by three rules: untouched, cell
    rewritten under the same epoch, or a new token that becomes the epoch. *)
Inductive route_step (v : SessionRoute) (B : Z) : SessionRoute -> list Z -> Prop :=
| rs_same c : route_step v B (with_cell v c) []
| rs_bump h c e :
    sr_Epoch v < e <= B ->
    route_step v B (mkSessionRoute (sr_Key v) (sr_Username v) h c e) [e].

Lemma route_step_refl v B : route_step v B v [].
Proof. destruct v. apply (rs_same (mkSessionRoute _ _ _ _ _)). Qed.

Lemma filter_other_key k k' (e : Z) : k' <> k -> tokens_for k [(k', e)] = [].
Proof. intros Hk. unfold tokens_for. by rewrite filter_cons_False. Qed.

Lemma tokens_own k (e : Z) : tokens_for k [(k, e)] = [e].
Proof. unfold tokens_for. by rewrite filter_cons_True. Qed.

(** The token [remapHostCell] returns for one key, if any. *)
Definition remap_out (pred : string -> bool) (r : sessionRoutes) (k : SessionKey)
  : list (SessionKey * Z) :=
  match r !! k with
  | None => []
  | Some v => if pred (sr_CellID v) then [(k, u64 (sr_Epoch v + 1))] else []
  end.

Lemma remap_out_other pred r k k' : k' <> k -> tokens_for k (remap_out pred r k') = [].
Proof.
  intros Hk. unfold remap_out. destruct (r !! k') as [v|]; [|done].
  destruct (pred (sr_CellID v)); [|done]. by apply filter_other_key.
Qed.

Lemma remap_out_absent pred r k l :
  k ∉ l -> tokens_for k (flat_map (remap_out pred r) l) = [].
Proof.
  induction l as [|k' l IH]; [done|]. intros [Hk Hl]%not_elem_of_cons. simpl.
  by rewrite tokens_for_app, remap_out_other, IH.
Qed.

Lemma remap_tokens pred (r : sessionRoutes) order k :
  NoDup order -> k ∈ order ->
  tokens_for k (flat_map (remap_out pred r) order) = (remap_out pred r k).*2.
Proof.
  induction 1 as [|k0 order Hk0 _ IH]; intros Hk; [by apply elem_of_nil in Hk|].
  simpl. rewrite tokens_for_app. apply elem_of_cons in Hk as [<- |Hk].
  - rewrite remap_out_absent, app_nil_r by done. unfold remap_out.
    destruct (r !! k) as [v|]; [|done]. destruct (pred (sr_CellID v)); [|done].
    apply tokens_own.
  - rewrite (IH Hk), remap_out_other; [done|]. by intros ->.
Qed.

Lemma run_op_route_step r o k v B :
  op_order_ok r o -> keeps k o -> r !! k = Some v ->
  0 <= sr_Epoch v < B -> floor_of o < B -> B < 2 ^ 64 ->
  exists v', (run_op r o).1 !! k = Some v' /\
    route_step v B v' (tokens_for k (run_op r o).2).
Proof.
  intros Hord Hk Hv He Hf HB.
  assert (u64 (sr_Epoch v + 1) = sr_Epoch v + 1) as Hu by (apply u64_id; unfold_int; lia).
  destruct o as [route|key c|key c floor|key|key h c| | |ord pred c|ord d|ord pred h c];
    simpl in Hord, Hk, Hf |- *; try done.
  - exists v. split; [|apply route_step_refl].
    unfold Set_. by rewrite lookup_insert_ne.
  - unfold UpdateCell. destruct (decide (key = k)) as [-> |Hne].
    + rewrite Hv. simpl. eexists. rewrite lookup_insert, decide_True by done.
      split; [done|apply rs_same].
    + exists v. split; [|apply route_step_refl].
      destruct (r !! key); simpl; [|done]. by rewrite lookup_insert_ne.
  - unfold AdvanceCellFrom. destruct (decide (key = k)) as [-> |Hne].
    + rewrite Hv. simpl. rewrite tokens_own, lookup_insert, decide_True by done.
      eexists; split; [done|]. apply rs_bump.
      destruct (Z.gtb_spec floor (sr_Epoch v)); rewrite u64_id by (unfold_int; lia); lia.
    + exists v. destruct (r !! key); simpl; rewrite filter_other_key, lookup_insert_ne by done;
        (split; [done|apply route_step_refl]).
  - exists v. unfold Remove. rewrite lookup_delete_ne by done. split; [done|apply route_step_refl].
  - unfold Migrate. destruct (decide (key = k)) as [-> |Hne].
    + rewrite Hv. simpl. rewrite tokens_own, lookup_insert, decide_True, Hu by done.
      eexists; split; [done|]. apply rs_bump. lia.
    + exists v. destruct (r !! key); simpl; rewrite ?filter_other_key, ?lookup_insert_ne by done;
        (split; [done|apply route_step_refl]).
  - unfold remapCell. rewrite range_loop_lookup, Hv by done. simpl.
    destruct (pred _); eexists; (split; [done|]); [apply rs_same|apply route_step_refl].
  - unfold remapCellPerRoute. rewrite range_loop_lookup, Hv by done. simpl.
    destruct (d v); eexists; (split; [done|]); [apply rs_same|apply route_step_refl].
  - unfold remapHostCell. rewrite range_loop_lookup, Hv by done.
    rewrite (proj2 (range_loop_spec _ ord r [] (proj1 Hord))). simpl.
    rewrite (flat_map_ext_in _ (remap_out pred r)).
    2: { intros k' _. unfold entry_out, remap_out. destruct (r !! k') as [v'|]; [|done].
         by destruct (pred (sr_CellID v')). }
    destruct Hord as [Hnd Hin]. rewrite remap_tokens by (done || (apply Hin; by exists v)).
    unfold remap_out. rewrite Hv.
    destruct (pred (sr_CellID v)); [|eexists; split; [done|apply route_step_refl]].
    eexists; split; [done|]. rewrite Hu. unfold bump_host. rewrite Hu. apply rs_bump. lia.
Qed.

Lemma last_cons_default {A} (x : A) l d : List.last (x :: l) d = List.last l x.
Proof.
  revert x d. induction l as [|y l IH]; intros x d; [done|].
  change (List.last (y :: l) d = List.last (y :: l) x). by rewrite !IH.
Qed.

(** The chain of tokens of one route, starting from an epoch. *)
Lemma tokens_chain k ops : forall r v B,
  orders_ok r ops -> Forall (keeps k) ops -> r !! k = Some v ->
  0 <= sr_Epoch v <= B -> Forall (fun o => floor_of o <= B) ops ->
  B + Z.of_nat (length ops) < 2 ^ 64 ->
  exists v', (run_ops r ops).1 !! k = Some v' /\
    StronglySorted Z.lt (sr_Epoch v :: tokens_for k (run_ops r ops).2) /\
    List.last (tokens_for k (run_ops r ops).2) (sr_Epoch v) = sr_Epoch v' /\
    (sr_HostID v' <> sr_HostID v -> tokens_for k (run_ops r ops).2 <> []) /\
    sr_Key v' = sr_Key v /\ sr_Username v' = sr_Username v.
Proof.
  induction ops as [|o ops IH]; intros r v B Hord Hk Hv He Hf HB.
  { exists v. simpl. repeat split; try done. apply SSorted_cons; constructor. }
  destruct Hord as [Ho Hord]. apply Forall_cons in Hk as [Hko Hk].
  apply Forall_cons in Hf as [Hfo Hf]. simpl length in HB.
  destruct (run_op_route_step r o k v (B + 1)) as (v1 & Hv1 & Hstep); [done..|lia|lia|lia|].
  assert (0 <= sr_Epoch v1 <= B + 1 /\ sr_Key v1 = sr_Key v /\ sr_Username v1 = sr_Username v)
    as (He1 & HK & HU) by (destruct Hstep; simpl; repeat split; lia).
  destruct (IH (run_op r o).1 v1 (B + 1)) as (v' & Hv' & Hsort & Hlast & Hhost & HK' & HU');
    [done..|eapply Forall_impl; [done|simpl; lia]|lia|].
  simpl. destruct (run_op r o) as [r1 t1]. simpl in *. destruct (run_ops r1 ops) as [r2 t2].
  simpl in *. rewrite tokens_for_app.
  exists v'. split; [done|].
  destruct Hstep as [c|h c e Hlt]; simpl in *.
  - repeat split; [done..|congruence|congruence].
  - repeat split; [|rewrite <- Hlast; apply (last_cons_default e)|done|congruence|congruence].
    apply SSorted_cons; [done|]. apply StronglySorted_inv in Hsort as [_ Hall].
    constructor; [lia|]. eapply Forall_impl; [done|]. simpl. lia.
Qed.

(** ** Properties *)

(** The epoch of a session route is a fencing token.  Over any sequence of
    table operations that neither replaces nor removes the route of a session
    (and below the 64-bit limit), the tokens issued for that session by
    Migrate, AdvanceCell(From) and remapHostCell are strictly increasing and
    all above the epoch at the start, the route's epoch is always the last
    token issued, the host never changes without a token, and the key and user
    name never change, whatever order the map iterations take. *)
Theorem tokens_fence r ops k v B :
  orders_ok r ops -> Forall (keeps k) ops -> r !! k = Some v ->
  0 <= sr_Epoch v <= B -> Forall (fun o => floor_of o <= B) ops ->
  B + Z.of_nat (length ops) < 2 ^ 64 ->
  exists v', (run_ops r ops).1 !! k = Some v' /\
    StronglySorted Z.lt (sr_Epoch v :: tokens_for k (run_ops r ops).2) /\
    List.last (tokens_for k (run_ops r ops).2) (sr_Epoch v) = sr_Epoch v' /\
    (sr_HostID v' <> sr_HostID v -> tokens_for k (run_ops r ops).2 <> []) /\
    sr_Key v' = sr_Key v /\ sr_Username v' = sr_Username v.
Proof. apply tokens_chain. Qed.

(** Crash clean-up is exact.  RemoveByHost and RemoveByGateway leave
    precisely the routes of other hosts, respectively other gateways, unchanged,
    and return how many routes they deleted, in every iteration order. *)
Theorem crash_cleanup_exact order r name :
  range_order r order ->
  RemoveByHost order r name
  = (filter (fun kv => sr_HostID kv.2 <> name) r,
     size r - size (filter (fun kv => sr_HostID kv.2 <> name) r))%nat /\
  RemoveByGateway order r name
  = (filter (fun kv => sk_GatewayID kv.1 <> name) r,
     size r - size (filter (fun kv => sk_GatewayID kv.1 <> name) r))%nat.
Proof.
  intros Ho. split.
  - exact (delete_loop_count (fun _ v => sr_HostID v = name)
      (H := fun _ v => decide (sr_HostID v = name)) order r Ho).
  - exact (delete_loop_count (fun k _ => sk_GatewayID k = name)
      (H := fun k _ => decide (sk_GatewayID k = name)) order r Ho).
Qed.

(** A cell migration moves exactly the sessions of that cell.  After
    remapHostCell every route whose cell matches is on the new host and cell
    with the next epoch and is reported once with that epoch; every other route
    is untouched and not reported. *)
Theorem remap_host_cell_exact order r pred h c k :
  range_order r order ->
  (remapHostCell order r pred h c).1 !! k
  = (fun v => if pred (sr_CellID v) then bump_host v h c else v) <$> r !! k
  /\ tokens_for k (remapHostCell order r pred h c).2 = (remap_out pred r k).*2.
Proof.
  intros Ho. unfold remapHostCell. rewrite range_loop_lookup by done. split.
  { unfold entry_after. destruct (r !! k) as [v|]; [|done]. simpl.
    by destruct (pred (sr_CellID v)). }
  destruct Ho as [Hnd Hin]. rewrite (proj2 (range_loop_spec _ order r [] Hnd)). simpl.
  rewrite (flat_map_ext_in _ (remap_out pred r)).
  2: { intros k' _. unfold entry_out, remap_out. destruct (r !! k') as [v'|]; [|done].
       by destruct (pred (sr_CellID v')). }
  destruct (decide (k ∈ order)) as [Hk|Hk]; [by apply remap_tokens|].
  rewrite remap_out_absent by done. rewrite Hin in Hk. apply eq_None_not_Some in Hk.
  unfold remap_out. by rewrite Hk.
Qed.

(** ** Witnesses *)

Definition wk (n : Z) : SessionKey := mkSessionKey "gw" n.
Definition wroutes : sessionRoutes :=
  Set_ (Set_ newSessionRoutes (mkSessionRoute (wk 1) "ann" "h1" "c1" 5))
       (mkSessionRoute (wk 2) "bob" "h2" "c2" 7).
Definition worder : list SessionKey := (map_to_list wroutes).*1.
Definition wops : list RouteOp :=
  [OpMigrate (wk 1) "h2" "c2"; OpUpdateCell (wk 1) "c3"; OpAdvanceCellFrom (wk 1) "c4" 40].

Lemma tokens_fence_witness :
  exists v', (run_ops wroutes wops).1 !! wk 1 = Some v' /\
    StronglySorted Z.lt (5 :: tokens_for (wk 1) (run_ops wroutes wops).2) /\
    List.last (tokens_for (wk 1) (run_ops wroutes wops).2) 5 = sr_Epoch v' /\
    (sr_HostID v' <> "h1"%string -> tokens_for (wk 1) (run_ops wroutes wops).2 <> []) /\
    sr_Key v' = wk 1 /\ sr_Username v' = "ann"%string.
Proof.
  apply (tokens_fence wroutes wops (wk 1) (mkSessionRoute (wk 1) "ann" "h1" "c1" 5) 50).
  - repeat split.
  - repeat constructor.
  - reflexivity.
  - simpl. lia.
  - repeat constructor; simpl; lia.
  - vm_compute. reflexivity.
Defined.

Lemma crash_cleanup_exact_witness :
  RemoveByHost worder wroutes "h1"
  = (filter (fun kv => sr_HostID kv.2 <> "h1"%string) wroutes,
     size wroutes - size (filter (fun kv => sr_HostID kv.2 <> "h1"%string) wroutes))%nat /\
  RemoveByGateway worder wroutes "h1"
  = (filter (fun kv => sk_GatewayID kv.1 <> "h1"%string) wroutes,
     size wroutes - size (filter (fun kv => sk_GatewayID kv.1 <> "h1"%string) wroutes))%nat.
Proof. apply (crash_cleanup_exact worder wroutes "h1"), range_order_exists. Defined.

Lemma remap_host_cell_exact_witness :
  (remapHostCell worder wroutes (String.eqb "c2") "h9" "c9").1 !! wk 2
  = (fun v => if String.eqb "c2" (sr_CellID v) then bump_host v "h9" "c9" else v) <$> wroutes !! wk 2
  /\ tokens_for (wk 2) (remapHostCell worder wroutes (String.eqb "c2") "h9" "c9").2
     = (remap_out (String.eqb "c2") wroutes (wk 2)).*2.
Proof. apply remap_host_cell_exact, range_order_exists. Defined.

Example routes_run :
  (run_ops wroutes wops).2 = [(wk 1, 6); (wk 1, 41)] /\
  (remapHostCell worder wroutes (String.eqb "c2") "h9" "c9").2 = [(wk 2, 8)] /\
  (RemoveByHost worder wroutes "h1").2 = 1%nat.
Proof. vm_compute. repeat split. Qed.
