(* ===== verification/Float32.v ===== *)
(** * Single-precision arithmetic

    Go's [float32]: IEEE 754 binary32 with round-to-nearest-even, as the
    Standard Library's executable specification of floating point gives it
    (24 bits of precision, exponents below 128).  An assignment rounds to
    [float32], so no two operations of the code modelled here may be fused. *)

From S2P Require Import Prelude.
From Stdlib Require Export SpecFloat.

Definition f32 : Type := spec_float.

Definition f32_add : f32 -> f32 -> f32 := SFadd 24 128.
Definition f32_sub : f32 -> f32 -> f32 := SFsub 24 128.
Definition f32_mul : f32 -> f32 -> f32 := SFmul 24 128.
Definition f32_div : f32 -> f32 -> f32 := SFdiv 24 128.
Definition f32_le : f32 -> f32 -> bool := SFleb.
Definition f32_lt : f32 -> f32 -> bool := SFltb.

(** [float32(n)] for an integer [n]. *)
Definition f32_of_int (n : Z) : f32 := binary_normalize 24 128 n 0 false.

Definition f32_zero : f32 := S754_zero false.

Definition is_nan (x : f32) : bool := match x with S754_nan => true | _ => false end.
Definition is_fin (x : f32) : bool :=
  match x with S754_zero _ | S754_finite _ _ _ => true | _ => false end.

(** Not positive and not NaN: what [x <= 0] tests. *)
Definition nonpos (x : f32) : bool :=
  match x with
  | S754_zero _ => true
  | S754_finite s _ _ | S754_infinity s => s
  | S754_nan => false
  end.

Lemma f32_le_zero x : f32_le x f32_zero = nonpos x.
Proof. by destruct x as [s|s| |s m e]; try destruct s. Qed.

(** ** Comparison *)

Lemma f32_lt_nonpos x y : f32_lt x y = true -> nonpos y = true -> nonpos x = true.
Proof.
  unfold f32_lt, SFltb.
  destruct x as [s|s| |s m e], y as [s'|s'| |s' m' e']; simpl; try done;
    try destruct s; try destruct s'; simpl; try done; by destruct (Z.compare e e').
Qed.

Lemma f32_not_lt_nonpos x y :
  is_nan x = false -> is_nan y = false ->
  f32_lt x y = false -> nonpos x = true -> nonpos y = true.
Proof.
  unfold f32_lt, SFltb.
  destruct x as [s|s| |s m e], y as [s'|s'| |s' m' e']; simpl; try done;
    try destruct s; try destruct s'; simpl; try done; by destruct (Z.compare e e').
Qed.

(** ** Rounding never invents a NaN *)

Lemma shr_1_nonneg r : 0 <= shr_m r -> 0 <= shr_m (shr_1 r).
Proof. destruct r as [m r s]. destruct m as [|[p|p|]|[p|p|]]; simpl; lia. Qed.

Lemma iter_shr_nonneg p : forall r, 0 <= shr_m r -> 0 <= shr_m (iter_pos shr_1 p r).
Proof. induction p; intros r Hr; simpl; auto using shr_1_nonneg. Qed.

Section Rounding.
Context (prec emax : Z).

Lemma shr_fexp_nonneg m e l : 0 <= m -> 0 <= shr_m (shr_fexp prec emax m e l).1.
Proof.
  intros Hm. unfold shr_fexp, shr.
  assert (0 <= shr_m (shr_record_of_loc m l)) by (destruct l as [|[]]; simpl; lia).
  destruct (_ - _); simpl; auto using iter_shr_nonneg.
Qed.

(** A number of sign [s], in particular not NaN. *)
Definition sign_is (s : bool) (x : spec_float) : Prop :=
  match x with S754_zero t | S754_infinity t | S754_finite t _ _ => t = s | S754_nan => False end.

Lemma sign_not_nan s x : sign_is s x -> is_nan x = false.
Proof. by destruct x. Qed.

Lemma round_aux_sign s m e l : 0 <= m -> sign_is s (binary_round_aux prec emax s m e l).
Proof.
  intros Hm. unfold binary_round_aux.
  pose proof (shr_fexp_nonneg m e l Hm) as H1.
  destruct (shr_fexp prec emax m e l) as [r1 e1]. simpl in H1.
  set (m2 := round_nearest_even _ _).
  assert (0 <= m2) as Hm2.
  { unfold m2, round_nearest_even. destruct (loc_of_shr_record r1) as [|[]]; try lia.
    destruct (Z.even _); lia. }
  pose proof (shr_fexp_nonneg m2 e1 loc_Exact Hm2) as H2.
  destruct (shr_fexp prec emax m2 e1 loc_Exact) as [r2 e2]. simpl in H2.
  destruct (shr_m r2); [done| |lia]. by destruct (_ <=? _).
Qed.

Lemma normalize_sign m e : 0 <= m -> sign_is false (binary_normalize prec emax m e false).
Proof.
  intros Hm. unfold binary_normalize, binary_round.
  destruct m as [|p|p]; [done| |lia]; destruct (shl_align _ _ _); by apply round_aux_sign.
Qed.

Lemma SFmul_sign x m e : sign_is false x -> sign_is false (SFmul prec emax x (S754_finite false m e)).
Proof.
  destruct x as [s|s| |s m' e']; simpl; try done; intros ->; try done. by apply round_aux_sign.
Qed.

Lemma SFadd_sign x y : sign_is false x -> sign_is false y -> sign_is false (SFadd prec emax x y).
Proof.
  destruct x as [s|s| |s m e], y as [s'|s'| |s' m' e']; simpl; try done; intros -> ->; try done.
  apply normalize_sign. simpl. lia.
Qed.

Lemma normalize_not_nan m e s : is_nan (binary_normalize prec emax m e s) = false.
Proof.
  unfold binary_normalize, binary_round.
  destruct m as [|p|p]; [done| |]; destruct (shl_align _ _ _); eapply sign_not_nan, round_aux_sign; lia.
Qed.

End Rounding.

Lemma f32_sub_not_nan x y :
  is_fin x = true -> is_fin y = true -> is_nan (f32_sub x y) = false.
Proof.
  destruct x as [s|s| |s m e], y as [s'|s'| |s' m' e']; try done; intros _ _; simpl.
  - by destruct s, s'.
  - apply normalize_not_nan.
Qed.

(** ** A strict weak order

    [SFltb] orders the floats that are not NaN, at any precision: by class and
    sign, then exponent, then mantissa. *)

Definition fkey (x : spec_float) : Z * Z * Z :=
  match x with
  | S754_nan => (0, 0, 0)
  | S754_infinity true => (-2, 0, 0)
  | S754_finite true m e => (-1, - e, - Z.pos m)
  | S754_zero _ => (0, 0, 0)
  | S754_finite false m e => (1, e, Z.pos m)
  | S754_infinity false => (2, 0, 0)
  end.

Definition key_lt (a b : Z * Z * Z) : Prop :=
  a.1.1 < b.1.1 \/ (a.1.1 = b.1.1 /\ (a.1.2 < b.1.2 \/ (a.1.2 = b.1.2 /\ a.2 < b.2))).

Lemma SFltb_key x y : is_nan x = false -> is_nan y = false ->
  SFltb x y = true <-> key_lt (fkey x) (fkey y).
Proof.
  unfold SFltb, key_lt.
  destruct x as [[]|[]| |[] m e], y as [[]|[]| |[] m' e']; simpl; try done; intros _ _;
    try (split; [done|lia]); try (split; [lia|done]);
    change (Pos.compare_cont Eq m m') with (Pos.compare m m');
    destruct (Z.compare_spec e e'); simpl; try (destruct (Pos.compare_spec m m')); simpl;
    split; try done; lia.
Qed.

(** ** [math.Float32frombits] *)

Definition f32_of_bits (b : Z) : f32 :=
  let s := Z.testbit b 31 in
  let e := Z.shiftr b 23 mod 256 in
  let m := b mod 2 ^ 23 in
  if e =? 255 then (if m =? 0 then S754_infinity s else S754_nan)
  else if e =? 0 then match m with Zpos p => S754_finite s p (-149) | _ => S754_zero s end
  else match m + 2 ^ 23 with Zpos p => S754_finite s p (e - 150) | _ => S754_nan end.

(** ** [math.Float32bits], with the one NaN the arithmetic here produces *)
Definition f32_to_bits (x : f32) : Z :=
  let sign (s : bool) := if s then 2 ^ 31 else 0 in
  match x with
  | S754_zero s => sign s
  | S754_infinity s => sign s + Z.shiftl 255 23
  | S754_nan => Z.shiftl 255 23 + 2 ^ 22
  | S754_finite s m e =>
      if Zpos m <? 2 ^ 23 then sign s + Zpos m
      else sign s + Z.shiftl (e + 150) 23 + (Zpos m - 2 ^ 23)
  end.

(** ** Go's [float64]: 53 bits of precision, exponents below 1024 *)

Definition f64 : Type := spec_float.
Definition f64_add : f64 -> f64 -> f64 := SFadd 53 1024.
Definition f64_sub : f64 -> f64 -> f64 := SFsub 53 1024.
Definition f64_mul : f64 -> f64 -> f64 := SFmul 53 1024.
Definition f64_div : f64 -> f64 -> f64 := SFdiv 53 1024.
Definition f64_lt : f64 -> f64 -> bool := SFltb.
Definition f64_le : f64 -> f64 -> bool := SFleb.
Definition f64_eq : f64 -> f64 -> bool := SFeqb.
Definition f64_of_int (n : Z) : f64 := binary_normalize 53 1024 n 0 false.
