(* ===== verification/CellId.v ===== *)
(** * Cell identifiers (pkg/universe/cell_id.go)

    A cell of the quadtree world is (X, Y, Depth) with 32-bit coordinates and an
    8-bit depth.  The file has its tree operations, its world-space bounds in
    [float32], adjacency, and the two string forms with their parser.  Strings
    are lists of code points; [Sscanf] is modelled for the verbs the parser
    uses: literal code points and [%d] into an [int32] or a [uint8]. *)

From S2P Require Import Prelude Float32.

Record CellID := mkCellID { X : Z; Y : Z; Depth : Z }.

#[export] Instance CellID_eq_dec : EqDecision CellID.
Proof. solve_decision. Defined.
#[export] Program Instance CellID_countable : Countable CellID :=
  inj_countable' (fun c => (X c, Y c, Depth c)) (fun p => mkCellID p.1.1 p.1.2 p.2) _.
Next Obligation. by intros []. Qed.

(** The values of the Go struct. *)
Definition valid_cell (c : CellID) : Prop :=
  in_i32 (X c) /\ in_i32 (Y c) /\ in_u8 (Depth c).

(** ** Geometry *)

Definition Size (c : CellID) (baseCellSize : f32) : f32 :=
  f32_div baseCellSize (f32_of_int (u32 (Z.shiftl 1 (Depth c)))).

Definition WorldOrigin (c : CellID) (baseCellSize : f32) : f32 * f32 :=
  let size := Size c baseCellSize in
  (f32_mul (f32_of_int (X c)) size, f32_mul (f32_of_int (Y c)) size).

Definition WorldBounds (c : CellID) (baseCellSize : f32) : f32 * f32 * f32 * f32 :=
  let size := Size c baseCellSize in
  let minX := f32_mul (f32_of_int (X c)) size in
  let minY := f32_mul (f32_of_int (Y c)) size in
  let maxX := f32_add minX size in
  let maxY := f32_add minY size in
  (minX, minY, maxX, maxY).

Definition max32 (a b : f32) : f32 := if f32_lt b a then a else b.

Definition AreAdjacent (a b : CellID) (baseCellSize : f32) : bool :=
  if decide (a = b) then false
  else
    let '(aMinX, aMinY, aMaxX, aMaxY) := WorldBounds a baseCellSize in
    let '(bMinX, bMinY, bMaxX, bMaxY) := WorldBounds b baseCellSize in
    let gapX := max32 (f32_sub aMinX bMaxX) (f32_sub bMinX aMaxX) in
    let gapY := max32 (f32_sub aMinY bMaxY) (f32_sub bMinY aMaxY) in
    f32_le gapX f32_zero && f32_le gapY f32_zero.

Definition CellDirection (from to : CellID) (baseCellSize : f32) : Z * Z :=
  let '(aMinX, aMinY, aMaxX, aMaxY) := WorldBounds from baseCellSize in
  let '(bMinX, bMinY, bMaxX, bMaxY) := WorldBounds to baseCellSize in
  (if f32_le aMaxX bMinX then 1 else if f32_le bMaxX aMinX then -1 else 0,
   if f32_le aMaxY bMinY then 1 else if f32_le bMaxY aMinY then -1 else 0).

(** ** The quadtree *)

Definition FromCellCoordDepth0 (x y : Z) : CellID := mkCellID x y 0.

Definition Children (c : CellID) : list CellID :=
  let d := u8 (Depth c + 1) in
  let x2 := i32 (X c * 2) in
  let y2 := i32 (Y c * 2) in
  [mkCellID x2 y2 d; mkCellID (i32 (x2 + 1)) y2 d;
   mkCellID x2 (i32 (y2 + 1)) d; mkCellID (i32 (x2 + 1)) (i32 (y2 + 1)) d].

(** [None] is the panic on a depth-0 cell.  Go's integer division truncates. *)
Definition Parent (c : CellID) : option CellID :=
  if Depth c =? 0 then None
  else Some (mkCellID (Z.quot (X c) 2) (Z.quot (Y c) 2) (Depth c - 1)).

Definition Siblings (c : CellID) : option (list CellID) :=
  Children <$> Parent c.

Definition Neighbors (c : CellID) : list CellID :=
  [mkCellID (i32 (X c - 1)) (i32 (Y c - 1)) (Depth c);
   mkCellID (X c) (i32 (Y c - 1)) (Depth c);
   mkCellID (i32 (X c + 1)) (i32 (Y c - 1)) (Depth c);
   mkCellID (i32 (X c - 1)) (Y c) (Depth c);
   mkCellID (i32 (X c + 1)) (Y c) (Depth c);
   mkCellID (i32 (X c - 1)) (i32 (Y c + 1)) (Depth c);
   mkCellID (X c) (i32 (Y c + 1)) (Depth c);
   mkCellID (i32 (X c + 1)) (i32 (Y c + 1)) (Depth c)].

(** The loop [for root.Depth > 0 { root = root.Parent() }]; the depth is the
    measure. *)
Fixpoint root_loop (fuel : nat) (root : CellID) : CellID :=
  match fuel with
  | O => root
  | S fuel =>
      if Depth root >? 0
      then match Parent root with Some p => root_loop fuel p | None => root end
      else root
  end.

Definition root_of (c : CellID) : CellID := root_loop (Z.to_nat (Depth c)) c.

Definition LocalBounds (c : CellID) (baseCellSize : f32) : f32 * f32 * f32 * f32 :=
  if Depth c =? 0 then (f32_zero, f32_zero, baseCellSize, baseCellSize)
  else
    let '(wMinX, wMinY, wMaxX, wMaxY) := WorldBounds c baseCellSize in
    let root := root_of c in
    let rootOX := f32_mul (f32_of_int (X root)) baseCellSize in
    let rootOY := f32_mul (f32_of_int (Y root)) baseCellSize in
    (f32_sub wMinX rootOX, f32_sub wMinY rootOY, f32_sub wMaxX rootOX, f32_sub wMaxY rootOY).

(** ** String forms *)

Abbreviation runes := (list Z).

(** The decimal digits of a non-negative number below 10^fuel. *)
Fixpoint digits (fuel : nat) (n : Z) : runes :=
  match fuel with
  | O => []
  | S fuel => (if n <? 10 then [] else digits fuel (n / 10)) ++ [48 + n mod 10]
  end.

(** [%d]. *)
Definition fmt_d (n : Z) : runes :=
  if n <? 0 then 45 :: digits 20 (- n) else digits 20 n.

Definition str (s : string) : runes := map (fun a => Z.of_N (Ascii.N_of_ascii a)) (String.list_ascii_of_string s).

Definition String_ (c : CellID) : runes :=
  if Depth c =? 0 then fmt_d (X c) ++ str "_" ++ fmt_d (Y c)
  else str "d" ++ fmt_d (Depth c) ++ str "_" ++ fmt_d (X c) ++ str "_" ++ fmt_d (Y c).

Definition MeshID (c : CellID) : runes :=
  if Depth c =? 0 then str "cell_" ++ fmt_d (X c) ++ str "_" ++ fmt_d (Y c)
  else str "cell_d" ++ fmt_d (Depth c) ++ str "_" ++ fmt_d (X c) ++ str "_" ++ fmt_d (Y c).

(** ** Sscanf

    A scanner takes the rest of the input and fails or gives a value and what is
    left.  Input left at the end is not an error. *)

Definition is_digit (r : Z) : bool := (48 <=? r) && (r <=? 57).

Definition is_space (r : Z) : bool :=
  ((9 <=? r) && (r <=? 13)) || (r =? 32) || (r =? 133) || (r =? 160) || (r =? 5760)
  || ((8192 <=? r) && (r <=? 8202)) || ((8232 <=? r) && (r <=? 8233)) || (r =? 8239)
  || (r =? 8287) || (r =? 12288).

(** A newline is not white space for [Sscanf]. *)
Fixpoint skip_space (s : runes) : option runes :=
  match s with
  | [] => Some []
  | r :: s' =>
      if r =? 10 then None
      else if is_space r then skip_space s' else Some s
  end.

Fixpoint scan_digits (s : runes) : runes * runes :=
  match s with
  | r :: s' => if is_digit r then let '(d, rest) := scan_digits s' in (r :: d, rest) else ([], s)
  | [] => ([], [])
  end.

Definition dec_val (d : runes) : Z := fold_left (fun v r => v * 10 + (r - 48)) d 0.

Definition scan_number (s : runes) : option (Z * runes) :=
  match scan_digits s with
  | ([], _) => None
  | (d, rest) => Some (dec_val d, rest)
  end.

(** [%d] into an [int32]: an optional sign, at least one digit, in range. *)
Definition scan_int32 (s : runes) : option (Z * runes) :=
  match skip_space s with
  | None => None
  | Some s =>
      let '(sgn, s) := match s with
                       | 43 :: s' => (1, s')
                       | 45 :: s' => (-1, s')
                       | _ => (1, s)
                       end in
      match scan_number s with
      | None => None
      | Some (v, rest) =>
          let v := sgn * v in
          if (- 2 ^ 31 <=? v) && (v <? 2 ^ 31) then Some (v, rest) else None
      end
  end.

(** [%d] into a [uint8]: no sign. *)
Definition scan_uint8 (s : runes) : option (Z * runes) :=
  match skip_space s with
  | None => None
  | Some s =>
      match scan_number s with
      | None => None
      | Some (v, rest) => if v <? 2 ^ 8 then Some (v, rest) else None
      end
  end.

Fixpoint scan_lit (lit s : runes) : option runes :=
  match lit, s with
  | [], _ => Some s
  | l :: lit, r :: s => if l =? r then scan_lit lit s else None
  | _ :: _, [] => None
  end.

(** [<prefix>%d_%d] into X and Y. *)
Definition scan_xy (prefix s : runes) : option (Z * Z) :=
  s ← scan_lit prefix s;
  '(x, s) ← scan_int32 s;
  s ← scan_lit (str "_") s;
  '(y, _) ← scan_int32 s;
  Some (x, y).

(** [<prefix>%d_%d_%d] into Depth, X and Y. *)
Definition scan_dxy (prefix s : runes) : option CellID :=
  s ← scan_lit prefix s;
  '(d, s) ← scan_uint8 s;
  s ← scan_lit (str "_") s;
  '(x, s) ← scan_int32 s;
  s ← scan_lit (str "_") s;
  '(y, _) ← scan_int32 s;
  Some (mkCellID x y d).

(** The four formats in the order of the code.  A failed attempt may have
    written some fields of the result; the attempt that succeeds writes them
    all, so nothing of a failed one survives. *)
Definition ParseCellID (s : runes) : option CellID :=
  match scan_dxy (str "cell_d") s with
  | Some c => Some c
  | None =>
  match scan_xy (str "cell_") s with
  | Some (x, y) => Some (mkCellID x y 0)
  | None =>
  match scan_dxy (str "d") s with
  | Some c => Some c
  | None =>
  match scan_xy [] s with
  | Some (x, y) => Some (mkCellID x y 0)
  | None => None
  end end end end.

(** ** Printing and scanning numbers *)

Section Scan.
Lemma dec_val_snoc d r : dec_val (d ++ [r]) = dec_val d * 10 + (r - 48).
Proof. unfold dec_val. by rewrite fold_left_app. Qed.

Lemma digits_val fuel n : 0 <= n < 10 ^ Z.of_nat fuel -> dec_val (digits fuel n) = n.
Proof.
  revert n. induction fuel as [|fuel IH]; intros n Hn.
  { change (10 ^ Z.of_nat 0) with 1 in Hn. simpl. unfold dec_val; simpl. lia. }
  rewrite Nat2Z.inj_succ, Z.pow_succ_r in Hn by lia.
  pose proof (Z.div_mod n 10) as Hdm. pose proof (Z.mod_pos_bound n 10) as Hm.
  simpl digits. rewrite dec_val_snoc. destruct (Z.ltb_spec n 10).
  - change (dec_val []) with 0. rewrite Z.mod_small; lia.
  - rewrite IH; [lia|]. split; [apply Z.div_pos; lia|]. apply Z.div_lt_upper_bound; lia.
Qed.

Lemma digits_are_digits fuel n : 0 <= n -> Forall (fun r => is_digit r = true) (digits fuel n).
Proof.
  revert n. induction fuel as [|fuel IH]; intros n Hn; [constructor|].
  simpl. apply Forall_app. split.
  - destruct (n <? 10); [constructor|]. apply IH, Z.div_pos; lia.
  - constructor; [|constructor]. unfold is_digit.
    pose proof (Z.mod_pos_bound n 10). lia.
Qed.

Lemma digits_cons fuel n : exists r d, digits (S fuel) n = r :: d.
Proof. simpl. destruct (n <? 10); simpl; [eauto|]. destruct (digits fuel _); simpl; eauto. Qed.

(** What stops a number. *)
Definition no_digit (s : runes) : Prop :=
  match s with [] => True | r :: _ => is_digit r = false end.

Lemma scan_digits_app d s :
  Forall (fun r => is_digit r = true) d -> no_digit s -> scan_digits (d ++ s) = (d, s).
Proof.
  intros Hd Hs. induction Hd as [|r d Hr _ IH]; simpl.
  - destruct s as [|r s]; [done|]. simpl in *. by rewrite Hs.
  - by rewrite Hr, IH.
Qed.

Lemma scan_number_digits fuel n s :
  0 <= n < 10 ^ Z.of_nat (S fuel) -> no_digit s ->
  scan_number (digits (S fuel) n ++ s) = Some (n, s).
Proof.
  intros Hn Hs. unfold scan_number.
  rewrite scan_digits_app by (auto; apply digits_are_digits; lia).
  destruct (digits_cons fuel n) as (r & d & E). rewrite <- (digits_val (S fuel) n) at 2 by done.
  by rewrite E.
Qed.

Lemma digit_head fuel n s : 0 <= n ->
  exists r d, digits (S fuel) n ++ s = r :: d /\ is_digit r = true.
Proof.
  intros Hn. destruct (digits_cons fuel n) as (r & d & E).
  pose proof (digits_are_digits (S fuel) n Hn) as Hd. rewrite E in *.
  exists r, (d ++ s). split; [done|]. by inversion Hd.
Qed.

Lemma digit_bounds r : is_digit r = true -> 48 <= r <= 57.
Proof. unfold is_digit. lia. Qed.

Lemma skip_space_stop r s : 43 <= r <= 57 -> skip_space (r :: s) = Some (r :: s).
Proof.
  intros Hr. simpl. destruct (Z.eqb_spec r 10); [lia|].
  replace (is_space r) with false; [done|]. unfold is_space. lia.
Qed.

Lemma sign_of_digit r (s : runes) : 48 <= r <= 57 ->
  match r :: s with 43 :: s' => (1, s') | 45 :: s' => (-1, s') | _ => (1, r :: s) end = (1, r :: s).
Proof.
  intros Hr. assert (r ∈ seqZ 48 10) as Hin by (apply elem_of_seqZ; lia).
  vm_compute in Hin. repeat (apply elem_of_cons in Hin as [-> |Hin]; [done|]).
  by apply elem_of_nil in Hin.
Qed.

Lemma scan_uint8_fmt n s : in_u8 n -> no_digit s -> scan_uint8 (fmt_d n ++ s) = Some (n, s).
Proof.
  intros Hn Hs. unfold in_u8 in Hn. unfold fmt_d, scan_uint8.
  destruct (Z.ltb_spec n 0); [lia|].
  destruct (digit_head 19 n s) as (r & d & E & Hr); [lia|]. rewrite E.
  rewrite skip_space_stop by (apply digit_bounds in Hr; lia). rewrite <- E.
  rewrite scan_number_digits by (auto; lia). by destruct (Z.ltb_spec n (2 ^ 8)); [|lia].
Qed.

Lemma scan_int32_fmt n s : in_i32 n -> no_digit s -> scan_int32 (fmt_d n ++ s) = Some (n, s).
Proof.
  intros Hn Hs. unfold in_i32 in Hn. unfold fmt_d, scan_int32.
  destruct (Z.ltb_spec n 0).
  - rewrite <- app_comm_cons, skip_space_stop by lia.
    cbn beta iota zeta. rewrite scan_number_digits by (auto; lia).
    replace (-1 * - n) with n by lia.
    destruct (Z.leb_spec (- 2 ^ 31) n), (Z.ltb_spec n (2 ^ 31)); simpl; lia || done.
  - destruct (digit_head 19 n s) as (r & d & E & Hr); [lia|]. rewrite E.
    apply digit_bounds in Hr. rewrite skip_space_stop by lia.
    rewrite sign_of_digit by lia. rewrite <- E.
    rewrite scan_number_digits by (auto; lia). rewrite Z.mul_1_l.
    destruct (Z.leb_spec (- 2 ^ 31) n), (Z.ltb_spec n (2 ^ 31)); simpl; lia || done.
Qed.

Lemma scan_lit_app lit s : scan_lit lit (lit ++ s) = Some s.
Proof. induction lit as [|l lit IH]; simpl; [done|]. by rewrite Z.eqb_refl. Qed.

(** A printed number starts with a digit or a minus sign. *)
Lemma fmt_d_head n s : exists r d, fmt_d n ++ s = r :: d /\ 45 <= r <= 57.
Proof.
  unfold fmt_d. destruct (Z.ltb_spec n 0).
  - eexists _, _. split; [done|]. lia.
  - destruct (digit_head 19 n s) as (r & d & E & Hr); [lia|].
    exists r, d. split; [done|]. apply digit_bounds in Hr. lia.
Qed.

Lemma scan_xy_fmt p x y :
  in_i32 x -> in_i32 y -> scan_xy p (p ++ fmt_d x ++ str "_" ++ fmt_d y) = Some (x, y).
Proof.
  intros Hx Hy. unfold scan_xy. rewrite scan_lit_app. cbn [mbind option_bind].
  rewrite scan_int32_fmt by done. cbn [mbind option_bind].
  rewrite scan_lit_app. cbn [mbind option_bind].
  rewrite <- (app_nil_r (fmt_d y)), scan_int32_fmt by done. done.
Qed.

Lemma scan_dxy_fmt p d x y :
  in_u8 d -> in_i32 x -> in_i32 y ->
  scan_dxy p (p ++ fmt_d d ++ str "_" ++ fmt_d x ++ str "_" ++ fmt_d y) = Some (mkCellID x y d).
Proof.
  intros Hd Hx Hy. unfold scan_dxy. rewrite scan_lit_app. cbn [mbind option_bind].
  rewrite scan_uint8_fmt by done. cbn [mbind option_bind].
  rewrite scan_lit_app. cbn [mbind option_bind].
  rewrite scan_int32_fmt by done. cbn [mbind option_bind].
  rewrite scan_lit_app. cbn [mbind option_bind].
  rewrite <- (app_nil_r (fmt_d y)), scan_int32_fmt by done. done.
Qed.

(** A prefix whose next code point is a letter does not match a number. *)
Lemma scan_lit_number p l q n s : 57 < l -> scan_lit (p ++ l :: q) (p ++ fmt_d n ++ s) = None.
Proof.
  intros Hl. destruct (fmt_d_head n s) as (r & d & -> & Hr).
  induction p as [|a p IH]; simpl; [|by rewrite Z.eqb_refl].
  by destruct (Z.eqb_spec l r); [lia|].
Qed.

Lemma scan_dxy_letter p l q n s : 57 < l -> scan_dxy (p ++ l :: q) (p ++ fmt_d n ++ s) = None.
Proof. intros Hl. unfold scan_dxy. by rewrite scan_lit_number. Qed.

Lemma scan_xy_letter p l q n s : 57 < l -> scan_xy (p ++ l :: q) (p ++ fmt_d n ++ s) = None.
Proof. intros Hl. unfold scan_xy. by rewrite scan_lit_number. Qed.
End Scan.

(** Both string forms are invertible: ParseCellID is a left inverse of
    MeshID (the wire form) and of String (the display form) on every cell
    identifier, negative coordinates and every depth included. *)
Theorem cell_id_roundtrip c :
  valid_cell c -> ParseCellID (MeshID c) = Some c /\ ParseCellID (String_ c) = Some c.
Proof.
  destruct c as [x y d]. intros (Hx & Hy & Hd). unfold MeshID, String_, ParseCellID.
  cbn [X Y Depth] in *. destruct (Z.eqb_spec d 0) as [-> |Hne].
  - split.
    + rewrite (scan_dxy_letter (str "cell_") 100 [] _ _ eq_refl
        : scan_dxy (str "cell_d") (str "cell_" ++ fmt_d x ++ _) = None).
      by rewrite scan_xy_fmt.
    + rewrite (scan_dxy_letter [] 99 (str "ell_d") _ _ eq_refl
        : scan_dxy (str "cell_d") (fmt_d x ++ _) = None).
      rewrite (scan_xy_letter [] 99 (str "ell_") _ _ eq_refl
        : scan_xy (str "cell_") (fmt_d x ++ _) = None).
      rewrite (scan_dxy_letter [] 100 [] _ _ eq_refl
        : scan_dxy (str "d") (fmt_d x ++ _) = None).
      by rewrite (scan_xy_fmt [] x y Hx Hy : scan_xy [] (fmt_d x ++ _) = _).
  - split; by rewrite scan_dxy_fmt.
Qed.

Lemma cell_id_roundtrip_witness :
  ParseCellID (MeshID (mkCellID (-3) 17 2)) = Some (mkCellID (-3) 17 2) /\
  ParseCellID (String_ (mkCellID (-3) 17 2)) = Some (mkCellID (-3) 17 2).
Proof. apply (cell_id_roundtrip (mkCellID (-3) 17 2)). repeat split; simpl; lia. Defined.

Example parse_examples :
  MeshID (mkCellID (-3) 17 2) = str "cell_d2_-3_17" /\
  ParseCellID (str "cell_ 4_+5") = Some (mkCellID 4 5 0) /\
  ParseCellID (str "7_8_rest") = Some (mkCellID 7 8 0) /\
  ParseCellID (str "cell_d300_1_1") = None /\
  ParseCellID (str "cell_4") = None.
Proof. vm_compute. repeat split. Qed.

(** ** Parents and children *)

Section Tree.
Definition small_coords (c : CellID) : Prop :=
  - 2 ^ 30 <= X c < 2 ^ 30 /\ - 2 ^ 30 <= Y c < 2 ^ 30 /\ 0 <= Depth c < 255.

Lemma Children_small c : small_coords c ->
  Children c = [mkCellID (2 * X c) (2 * Y c) (Depth c + 1);
                mkCellID (2 * X c + 1) (2 * Y c) (Depth c + 1);
                mkCellID (2 * X c) (2 * Y c + 1) (Depth c + 1);
                mkCellID (2 * X c + 1) (2 * Y c + 1) (Depth c + 1)].
Proof.
  intros (Hx & Hy & Hd). unfold Children.
  change (2 ^ 30) with 1073741824 in *.
  rewrite !(i32_id (_ * 2)) by (unfold_int; lia).
  rewrite !(i32_id (_ + 1)) by (unfold_int; lia).
  rewrite u8_id by (unfold_int; lia).
  by rewrite !(Z.mul_comm _ 2).
Qed.

Lemma quot_even x : Z.quot (2 * x) 2 = x.
Proof. rewrite Z.mul_comm. apply Z.quot_mul. lia. Qed.

Lemma quot_odd x : Z.quot (2 * x + 1) 2 = if x <? 0 then x + 1 else x.
Proof. destruct (Z.ltb_spec x 0); Z.quot_rem_to_equations; lia. Qed.

Lemma Parent_child x y d : 0 <= d ->
  Parent (mkCellID x y (d + 1)) = Some (mkCellID (Z.quot x 2) (Z.quot y 2) d).
Proof.
  intros Hd. unfold Parent. simpl. destruct (Z.eqb_spec (d + 1) 0); [lia|].
  by replace (d + 1 - 1) with d by lia.
Qed.

Lemma Children_NoDup c : small_coords c -> NoDup (Children c).
Proof.
  intros Hc. rewrite Children_small by done.
  repeat (apply NoDup_cons; split; [rewrite ?elem_of_cons, elem_of_nil; intros Hin;
    repeat destruct Hin as [Hin|Hin]; try done; injection Hin; lia|]).
  apply NoDup_nil_2.
Qed.

Lemma child_of_parent c p : Parent c = Some p -> 0 <= X c -> 0 <= Y c ->
  valid_cell c -> small_coords p /\ c ∈ Children p.
Proof.
  destruct c as [x y d]. unfold Parent, valid_cell. simpl.
  destruct (Z.eqb_spec d 0) as [|Hd]; [done|]. intros [= <-] Hx Hy (Vx & Vy & Vd).
  assert (small_coords (mkCellID (Z.quot x 2) (Z.quot y 2) (d - 1))) as Hs.
  { unfold small_coords. simpl. unfold_int. change (2 ^ 30) with 1073741824.
    repeat split; try lia; Z.quot_rem_to_equations; lia. }
  split; [done|]. rewrite Children_small by done. cbn [X Y Depth].
  replace (d - 1 + 1) with d by lia. rewrite !elem_of_cons.
  assert (x = 2 * Z.quot x 2 \/ x = 2 * Z.quot x 2 + 1) as Ex by (Z.quot_rem_to_equations; lia).
  assert (y = 2 * Z.quot y 2 \/ y = 2 * Z.quot y 2 + 1) as Ey by (Z.quot_rem_to_equations; lia).
  revert Ex Ey. generalize (Z.quot x 2) (Z.quot y 2). intros qx qy [-> | ->] [-> | ->]; tauto.
Qed.

Lemma root_loop_spec n : forall c, 0 <= X c -> 0 <= Y c -> Depth c = Z.of_nat n ->
  root_loop n c = mkCellID (X c / 2 ^ Z.of_nat n) (Y c / 2 ^ Z.of_nat n) 0.
Proof.
  induction n as [|n IH]; intros [x y d] Hx Hy Hd; cbn [X Y Depth] in *.
  - rewrite !Z.div_1_r. simpl. by rewrite Hd.
  - simpl root_loop. destruct (Z.gtb_spec d 0); [|lia]. unfold Parent. cbn [X Y Depth].
    destruct (Z.eqb_spec d 0); [lia|]. rewrite !Z.quot_div_nonneg by lia.
    rewrite IH; cbn [X Y Depth]; [|apply Z.div_pos; lia|apply Z.div_pos; lia|lia].
    rewrite Nat2Z.inj_succ, Z.pow_succ_r by lia.
    by rewrite !Z.div_div by lia.
Qed.
End Tree.

(** Parent inverts Children exactly where coordinates are not negative.
    For a cell whose children are representable, the four children are distinct
    and all have that cell as parent if and only if both its coordinates are
    non-negative: the truncating division of Parent sends an odd child of a
    negative cell to the neighbouring cell.  A cell with non-negative
    coordinates is one of its own Siblings, and the ancestor loop reaches the
    depth-0 cell (X / 2^Depth, Y / 2^Depth). *)
Theorem parent_children c :
  small_coords c ->
  NoDup (Children c) /\
  (Forall (fun ch => Parent ch = Some c) (Children c) <-> 0 <= X c /\ 0 <= Y c) /\
  (forall d, valid_cell d -> 0 <= X d -> 0 <= Y d -> 0 < Depth d ->
     (exists l, Siblings d = Some l /\ d ∈ l) /\
     root_of d = mkCellID (X d / 2 ^ Depth d) (Y d / 2 ^ Depth d) 0).
Proof.
  intros Hc. split; [by apply Children_NoDup|]. split.
  - rewrite Children_small by done. destruct c as [x y d], Hc as (_ & _ & Hd); simpl in *.
    rewrite !Forall_cons, !Parent_child, !quot_even, !quot_odd by lia.
    destruct (Z.ltb_spec x 0), (Z.ltb_spec y 0); split;
      try (intros (_ & ? & ? & _); simplify_eq; lia); try lia.
    intros _. repeat split. by apply Forall_nil.
  - intros d Vd Hx Hy Hd. split.
    + assert (exists p, Parent d = Some p) as [p Hp].
      { unfold Parent. destruct (Z.eqb_spec (Depth d) 0); [lia|eauto]. }
      unfold Siblings. rewrite Hp. exists (Children p). split; [done|].
      by apply (child_of_parent d p).
    + unfold root_of. rewrite root_loop_spec by lia. by rewrite Z2Nat.id by lia.
Qed.

Lemma parent_children_witness :
  NoDup (Children (mkCellID (-1) 3 1)) /\
  (Forall (fun ch => Parent ch = Some (mkCellID (-1) 3 1)) (Children (mkCellID (-1) 3 1))
   <-> 0 <= -1 /\ 0 <= 3) /\
  (forall d, valid_cell d -> 0 <= X d -> 0 <= Y d -> 0 < Depth d ->
     (exists l, Siblings d = Some l /\ d ∈ l) /\
     root_of d = mkCellID (X d / 2 ^ Depth d) (Y d / 2 ^ Depth d) 0).
Proof. apply (parent_children (mkCellID (-1) 3 1)). repeat split; simpl; lia. Defined.

Example negative_child_parent :
  nth 1 (Children (mkCellID (-1) 3 1)) (mkCellID 0 0 0) = mkCellID (-1) 6 2 /\
  Parent (mkCellID (-1) 6 2) = Some (mkCellID 0 3 1).
Proof. vm_compute. repeat split. Qed.

(** ** Adjacency *)

(** The four bounds of the cell are finite. *)
Definition finite_bounds (base : f32) (c : CellID) : bool :=
  let '(x0, y0, x1, y1) := WorldBounds c base in
  is_fin x0 && is_fin y0 && is_fin x1 && is_fin y1.

Lemma max32_le_zero a b :
  is_nan a = false -> is_nan b = false ->
  f32_le (max32 a b) f32_zero = nonpos a && nonpos b.
Proof.
  intros Ha Hb. rewrite f32_le_zero. unfold max32. destruct (f32_lt b a) eqn:E.
  - destruct (nonpos a) eqn:Pa; [|done]. by rewrite (f32_lt_nonpos b a).
  - destruct (nonpos b) eqn:Pb; [|by rewrite andb_comm].
    by rewrite (f32_not_lt_nonpos b a).
Qed.

Lemma AreAdjacent_irrefl a base : AreAdjacent a a base = false.
Proof. unfold AreAdjacent. by rewrite decide_True. Qed.

(** Where the bounds are finite, adjacency is a symmetric relation. *)
Lemma AreAdjacent_sym a b base :
  finite_bounds base a = true -> finite_bounds base b = true ->
  AreAdjacent a b base = AreAdjacent b a base.
Proof.
  unfold finite_bounds, AreAdjacent.
  destruct (decide (a = b)) as [-> |Hne]; [by rewrite decide_True|].
  rewrite (decide_False (P := b = a)) by congruence.
  destruct (WorldBounds a base) as [[[ax0 ay0] ax1] ay1].
  destruct (WorldBounds b base) as [[[bx0 by0] bx1] by1].
  intros Ha Hb. apply andb_prop in Ha as [[[Ha0 Ha1]%andb_prop Ha2]%andb_prop Ha3].
  apply andb_prop in Hb as [[[Hb0 Hb1]%andb_prop Hb2]%andb_prop Hb3].
  rewrite !max32_le_zero by (by apply f32_sub_not_nan).
  by rewrite (andb_comm (nonpos (f32_sub bx0 ax1))), (andb_comm (nonpos (f32_sub by0 ay1))).
Qed.

Example adjacency_examples :
  let base := f32_of_int 100 in
  AreAdjacent (mkCellID 0 0 0) (mkCellID 1 1 0) base = true /\
  AreAdjacent (mkCellID 0 0 0) (mkCellID 2 0 0) base = false /\
  AreAdjacent (mkCellID 0 0 0) (mkCellID 2 0 1) base = true /\
  AreAdjacent (mkCellID 0 0 0) (mkCellID 3 0 1) base = false /\
  CellDirection (mkCellID 0 0 0) (mkCellID 1 (-1) 0) base = (1, -1).
Proof. vm_compute. repeat split. Qed.
