(* ===== verification/Topology.v ===== *)
(** * Cell topology (pkg/universe/topology.go)

    The coordinator's map from each cell to its adjacent cells, computed in full
    by ComputeTopology and maintained by UpdateAfterSplit, UpdateAfterMerge and
    RebuildNeighborsFor.  A [range] over a map takes its order as an argument.
    Neighbour lists are compared up to permutation ([topo_equiv]): their order is
    an iteration order.  The in-place filter [x[:0]] writes behind the index it
    reads, so it is the filtered list. *)

From S2P Require Import Prelude Float32 CellId.

Abbreviation Topology := (gmap CellID (list CellID)).

(** [t.Neighbors[c]]: the nil slice for a missing key. *)
Definition nbrs (t : Topology) (c : CellID) : list CellID := default [] (t !! c).

Definition adjs (base : f32) (a : CellID) (l : list CellID) : list CellID :=
  filter (fun b => AreAdjacent a b base = true) l.

Definition ComputeTopology (cells : list CellID) (base : f32) : Topology :=
  fold_left (fun neighbors a => <[a := adjs base a cells]> neighbors) cells ∅.

Definition UpdateAfterSplit (t : Topology) (parent : CellID) (children : list CellID) (base : f32)
  : Topology :=
  let oldNeighbors := nbrs t parent in
  let t := delete parent t in
  let t := fold_left (fun t child =>
    <[child := adjs base child children ++ adjs base child oldNeighbors]> t) children t in
  fold_left (fun t old =>
    <[old := filter (fun n => n <> parent) (nbrs t old)
             ++ filter (fun child => AreAdjacent old child base = true) children]> t)
    oldNeighbors t.

(** The collecting loop: the neighbours of the children outside [childSet],
    with the children deleted on the way. *)
Definition collect_external (childSet : gset CellID) (children : list CellID)
  (t : Topology) : gset CellID * Topology :=
  fold_left (fun '(ext, t) child =>
    (ext ∪ list_to_set (filter (fun n => n ∉ childSet) (nbrs t child)), delete child t))
    children (∅, t).

(** [ord1] and [ord2] are the orders of the two loops over the external
    neighbours. *)
Definition UpdateAfterMerge (ord1 ord2 : list CellID) (t : Topology) (children : list CellID)
  (parent : CellID) (base : f32) : Topology :=
  let childSet : gset CellID := list_to_set children in
  let '(_, t) := collect_external childSet children t in
  let t := <[parent := adjs base parent ord1]> t in
  fold_left (fun t n =>
    <[n := filter (fun nb => nb ∉ childSet) (nbrs t n) ++ [parent]]> t) ord2 t.

(** [affected] and the neighbours of its cells. *)
Definition frontier (t : Topology) (affected : list CellID) : gset CellID :=
  fold_left (fun f c => f ∪ {[c]} ∪ list_to_set (nbrs t c)) affected ∅.

(** [ord] is the order of the loop over the frontier, [allKeys] the snapshot of
    the keys.  On a nil map nothing changes, as in the early return. *)
Definition RebuildNeighborsFor (ord allKeys : list CellID) (t : Topology)
  (affected : list CellID) (base : f32) : Topology :=
  if decide (affected = []) then t
  else
    fold_left (fun t cell =>
      match t !! cell with
      | None => delete cell t
      | Some _ =>
          <[cell := filter (fun other => other <> cell /\ AreAdjacent cell other base = true) allKeys]> t
      end) ord t.

(** [ord] lists the set [s], each element once. *)
Definition lists (s : gset CellID) (ord : list CellID) : Prop :=
  NoDup ord /\ forall c, c ∈ ord <-> c ∈ s.

(** ** What a topology should be

    The row of cell [a] over the cell set [S]: each adjacent cell once. *)

Definition row_exact (base : f32) (S : gset CellID) (a : CellID) (l : list CellID) : Prop :=
  NoDup l /\ forall b, b ∈ l <-> b ∈ S /\ AreAdjacent a b base = true.

Definition exact (base : f32) (S : gset CellID) (t : Topology) : Prop :=
  dom t = S /\ forall a l, t !! a = Some l -> row_exact base S a l.

(** Equality of topologies up to the order within rows. *)
Definition topo_equiv (t t' : Topology) : Prop :=
  forall a, option_relation (≡ₚ) (fun _ => False) (fun _ => False) (t !! a) (t' !! a).

#[export] Instance topo_equiv_equivalence : Equivalence topo_equiv.
Proof.
  split.
  - intros t a. by destruct (t !! a); simpl.
  - intros t t' H a. specialize (H a). destruct (t !! a), (t' !! a); simpl in *; by try symmetry.
  - intros t1 t2 t3 H H' a. specialize (H a). specialize (H' a).
    destruct (t1 !! a), (t2 !! a), (t3 !! a); simpl in *; try done. by etransitivity.
Qed.

#[export] Instance row_exact_proper base S a : Proper ((≡ₚ) ==> iff) (row_exact base S a).
Proof. intros l l' E. unfold row_exact. by setoid_rewrite E. Qed.

#[export] Instance exact_proper base S : Proper (topo_equiv ==> iff) (exact base S).
Proof.
  assert (forall t t', topo_equiv t t' -> exact base S t -> exact base S t') as Himp.
  { intros t t' E [Hd Hr]. split.
    - rewrite <- Hd. apply set_eq. intros a. rewrite !elem_of_dom. specialize (E a).
      destruct (t !! a), (t' !! a); simpl in E; try done; split; intros [? ?]; eauto.
    - intros a l Hl. specialize (E a). rewrite Hl in E.
      destruct (t !! a) as [l0|] eqn:E0; simpl in E; [|done]. rewrite <- E. by apply Hr. }
  intros t t' E. split; apply Himp; [done|by symmetry].
Qed.

(** A cell set and its adjacency determine the topology. *)
Lemma exact_unique base S t t' : exact base S t -> exact base S t' -> topo_equiv t t'.
Proof.
  intros [Hd Hr] [Hd' Hr'] a.
  assert (is_Some (t !! a) <-> is_Some (t' !! a)) as Hs.
  { by rewrite <- !elem_of_dom, Hd, Hd'. }
  destruct (t !! a) as [l|] eqn:E, (t' !! a) as [l'|] eqn:E'; simpl; try done.
  - apply Hr in E as [H1 H2]. apply Hr' in E' as [H1' H2'].
    apply NoDup_Permutation; [done..|]. intros b. by rewrite H2, H2'.
  - destruct Hs as [Hs _]. destruct Hs as [? ?]; [eauto|done].
  - destruct Hs as [_ Hs]. destruct Hs as [? ?]; [eauto|done].
Qed.

Lemma elem_of_adjs base a b l : b ∈ adjs base a l <-> b ∈ l /\ AreAdjacent a b base = true.
Proof. unfold adjs. rewrite list_elem_of_filter. tauto. Qed.

Lemma adjs_NoDup base a l : NoDup l -> NoDup (adjs base a l).
Proof. apply NoDup_filter. Qed.

(** A loop of inserts whose value does not depend on the map. *)
Lemma fold_insert_lookup (f : CellID -> list CellID) l : forall (t : Topology) a,
  fold_left (fun t c => <[c := f c]> t) l t !! a
  = if decide (a ∈ l) then Some (f a) else t !! a.
Proof.
  induction l as [|c l IH]; intros t a; cbn [fold_left].
  { rewrite decide_False; [done|]. apply not_elem_of_nil. }
  rewrite IH. destruct (decide (a ∈ l)) as [|Hn].
  { by rewrite decide_True by (by right). }
  destruct (decide (a = c)) as [-> |Hne].
  - rewrite lookup_insert, decide_True by done. by rewrite decide_True by (by left).
  - rewrite lookup_insert_ne by congruence. rewrite decide_False; [done|].
    rewrite elem_of_cons. tauto.
Qed.

(** A loop over distinct cells that rewrites each cell's own row. *)
Lemma fold_update_lookup (g : CellID -> list CellID -> list CellID) l :
  NoDup l -> forall (t : Topology) a,
  fold_left (fun t c => <[c := g c (nbrs t c)]> t) l t !! a
  = if decide (a ∈ l) then Some (g a (nbrs t a)) else t !! a.
Proof.
  induction 1 as [|c l Hc _ IH]; intros t a; cbn [fold_left].
  { rewrite decide_False; [done|]. apply not_elem_of_nil. }
  rewrite IH. destruct (decide (a = c)) as [-> |Hne].
  - rewrite decide_False by done. rewrite lookup_insert, decide_True by done.
    by rewrite decide_True by (by left).
  - unfold nbrs. rewrite !lookup_insert_ne by congruence.
    destruct (decide (a ∈ l)) as [|Hn].
    + by rewrite decide_True by (by right).
    + rewrite decide_False; [done|]. rewrite elem_of_cons. tauto.
Qed.

Lemma compute_exact base cells : NoDup cells ->
  exact base (list_to_set cells) (ComputeTopology cells base).
Proof.
  intros Hnd. unfold ComputeTopology. split.
  - apply set_eq. intros a. rewrite elem_of_dom, fold_insert_lookup, elem_of_list_to_set.
    destruct (decide (a ∈ cells)); [by split; eauto|].
    rewrite lookup_empty. split; [by intros [? ?]|done].
  - intros a l. rewrite fold_insert_lookup. destruct (decide (a ∈ cells)).
    + intros [= <-]. split; [by apply adjs_NoDup|]. intros b.
      by rewrite elem_of_adjs, elem_of_list_to_set.
    + by rewrite lookup_empty.
Qed.

(** ** Splitting a cell *)

Definition all_finite (base : f32) (S : gset CellID) : Prop :=
  forall c, c ∈ S -> finite_bounds base c = true.

(** The geometry of a split: a cell adjacent to a child is adjacent to the
    parent. *)
Definition children_inside (base : f32) (S : gset CellID) (p : CellID) (cs : list CellID) : Prop :=
  forall ch b, ch ∈ cs -> b ∈ S -> b <> p ->
    AreAdjacent ch b base = true -> AreAdjacent p b base = true.

Section Split.
Context (base : f32) (S : gset CellID) (t : Topology) (p : CellID) (cs : list CellID).
Context (Hex : exact base S t) (Hp : p ∈ S) (Hnd : NoDup cs)
  (Hnew : forall c, c ∈ cs -> c ∉ S)
  (Hfin : all_finite base (S ∪ list_to_set cs))
  (Hin : children_inside base S p cs).

Let S' : gset CellID := (S ∖ {[p]}) ∪ list_to_set cs.

Lemma split_sym a b : a ∈ S ∪ list_to_set cs -> b ∈ S ∪ list_to_set cs ->
  AreAdjacent a b base = true -> AreAdjacent b a base = true.
Proof. intros Ha Hb. rewrite (AreAdjacent_sym a b); auto. Qed.

Lemma exact_row a : a ∈ S -> exists l, t !! a = Some l /\ nbrs t a = l /\ row_exact base S a l.
Proof.
  destruct Hex as [Hd Hr]. rewrite <- Hd at 1. rewrite elem_of_dom. intros [l Hl].
  exists l. unfold nbrs. rewrite Hl. split; [done|]. split; [done|]. by apply Hr.
Qed.

Lemma old_spec : NoDup (nbrs t p) /\ forall b, b ∈ nbrs t p <-> b ∈ S /\ AreAdjacent p b base = true.
Proof. destruct (exact_row p Hp) as (l & _ & -> & Hl). exact Hl. Qed.

Lemma split_lookup a :
  UpdateAfterSplit t p cs base !! a =
  if decide (a ∈ nbrs t p) then Some (filter (fun n => n <> p) (nbrs t a) ++ adjs base a cs)
  else if decide (a ∈ cs) then Some (adjs base a cs ++ adjs base a (nbrs t p))
  else if decide (a = p) then None else t !! a.
Proof.
  destruct old_spec as [Hond Hold]. unfold UpdateAfterSplit.
  rewrite (fold_update_lookup (fun old l => filter (fun n => n <> p) l ++ adjs base old cs))
    by done.
  pose proof (fold_insert_lookup (fun c => adjs base c cs ++ adjs base c (nbrs t p)) cs
    (delete p t)) as H2.
  cbv beta in H2. revert H2. set (t2 := fold_left _ cs (delete p t)). intros H2.
  destruct (decide (a ∈ nbrs t p)) as [Ha|Ha].
  - apply Hold in Ha as [HaS Hadj]. unfold nbrs at 1. rewrite H2.
    rewrite (decide_False (P := a ∈ cs)) by (intros H; by apply (Hnew a)).
    rewrite lookup_delete_ne; [done|]. intros ->. by rewrite AreAdjacent_irrefl in Hadj.
  - rewrite H2. destruct (decide (a ∈ cs)); [done|].
    destruct (decide (a = p)) as [-> |Hne]; [by rewrite lookup_delete, decide_True|].
    by rewrite lookup_delete_ne by congruence.
Qed.

Lemma elem_of_S' b : b ∈ S' <-> (b ∈ S /\ b <> p) \/ b ∈ cs.
Proof. unfold S'. rewrite elem_of_union, elem_of_difference, elem_of_singleton, elem_of_list_to_set. tauto. Qed.

Lemma split_row_old a : a ∈ nbrs t p ->
  row_exact base S' a (filter (fun n => n <> p) (nbrs t a) ++ adjs base a cs).
Proof.
  intros Ha. apply old_spec in Ha as [HaS _].
  destruct (exact_row a HaS) as (l & _ & -> & [Hl Hrow]). split.
  - apply NoDup_app. split; [by apply NoDup_filter|]. split; [|by apply adjs_NoDup].
    intros b [_ Hb]%list_elem_of_filter [Hb' _]%elem_of_adjs. apply Hrow in Hb as [Hb _].
    by apply (Hnew b).
  - intros b. rewrite elem_of_app, list_elem_of_filter, elem_of_adjs, elem_of_S', Hrow. tauto.
Qed.

Lemma split_row_child a : a ∈ cs ->
  row_exact base S' a (adjs base a cs ++ adjs base a (nbrs t p)).
Proof.
  intros Ha. destruct old_spec as [Hond Hold]. split.
  - apply NoDup_app. split; [by apply adjs_NoDup|]. split; [|by apply adjs_NoDup].
    intros b [Hb _]%elem_of_adjs [Hb' _]%elem_of_adjs. apply Hold in Hb' as [Hb' _].
    by apply (Hnew b).
  - intros b. rewrite elem_of_app, !elem_of_adjs, elem_of_S', Hold. split.
    + intros [?|[[? Hpb] ?]]; [tauto|]. split; [|done]. left. split; [done|].
      intros ->. by rewrite AreAdjacent_irrefl in Hpb.
    + intros [[[HbS Hbp]|Hb] Hab]; [|tauto]. right. split; [|done]. split; [done|].
      by apply (Hin a).
Qed.

Lemma split_row_far a l : a ∈ S -> a <> p -> a ∉ nbrs t p -> t !! a = Some l ->
  row_exact base S' a l.
Proof.
  intros HaS Hap Ha Hl. destruct old_spec as [_ Hold].
  destruct (proj2 Hex a l Hl) as [Hnl Hrow]. split; [done|].
  assert (forall b, b ∈ S ∪ list_to_set cs -> AreAdjacent a b base = true ->
            AreAdjacent b a base = true) as Hsym.
  { intros b Hb. apply split_sym; [|done]. apply elem_of_union. by left. }
  intros b. rewrite Hrow, elem_of_S'. split; intros [Hb Hab]; (split; [|done]).
  - left. split; [done|]. intros ->. apply Ha, Hold. split; [done|].
    apply Hsym; [apply elem_of_union; by left|done].
  - destruct Hb as [[Hb _]|Hb]; [done|]. destruct Ha. apply Hold. split; [done|].
    apply (Hin b); [done..|]. apply Hsym; [|done].
    apply elem_of_union. right. by apply elem_of_list_to_set.
Qed.

Lemma split_exact : exact base S' (UpdateAfterSplit t p cs base).
Proof.
  destruct old_spec as [_ Hold]. split.
  - apply set_eq. intros a. rewrite elem_of_dom, split_lookup, elem_of_S'.
    destruct (decide (a ∈ nbrs t p)) as [Ha|Ha].
    { apply Hold in Ha as [HaS Hadj]. split; [|by eauto]. intros _. left. split; [done|].
      intros ->. by rewrite AreAdjacent_irrefl in Hadj. }
    destruct (decide (a ∈ cs)); [split; eauto|].
    destruct (decide (a = p)) as [-> |Hne].
    + split; [by intros [? ?]|]. tauto.
    + rewrite <- elem_of_dom, (proj1 Hex). tauto.
  - intros a l. rewrite split_lookup. destruct (decide (a ∈ nbrs t p)) as [Ha|Ha].
    { intros [= <-]. by apply split_row_old. }
    destruct (decide (a ∈ cs)); [intros [= <-]; by apply split_row_child|].
    destruct (decide (a = p)); [done|]. intros Hl. apply split_row_far; [|done..].
    rewrite <- (proj1 Hex). by apply elem_of_dom_2 in Hl.
Qed.
End Split.

(** ** Merging four cells *)

(** The geometry of a merge: outside the children, the parent is adjacent to
    what some child is adjacent to. *)
Definition parent_covers (base : f32) (S : gset CellID) (p : CellID) (cs : list CellID) : Prop :=
  forall n, n ∈ S -> n ∉ cs ->
    (AreAdjacent p n base = true <-> exists ch, ch ∈ cs /\ AreAdjacent ch n base = true).

Lemma collect_external_spec (cset : gset CellID) cs : NoDup cs ->
  forall (ext : gset CellID) (t : Topology),
  let res := fold_left (fun '(ext, t) child =>
    (ext ∪ list_to_set (filter (fun n => n ∉ cset) (nbrs t child)), delete child t))
    cs (ext, t) in
  (forall n, n ∈ res.1 <-> n ∈ ext \/ exists ch, ch ∈ cs /\ n ∉ cset /\ n ∈ nbrs t ch) /\
  (forall a, res.2 !! a = if decide (a ∈ cs) then None else t !! a).
Proof.
  induction 1 as [|c cs Hc Hnd IH]; intros ext t; cbn [fold_left].
  - split.
    + intros n. split; [by left|]. intros [?|(ch & Hch & _)]; [done|by apply elem_of_nil in Hch].
    + intros a. rewrite decide_False; [done|]. apply not_elem_of_nil.
  - destruct (IH (ext ∪ list_to_set (filter (fun n => n ∉ cset) (nbrs t c))) (delete c t))
      as [H1 H2]. split.
    + intros n. rewrite H1, elem_of_union, elem_of_list_to_set, list_elem_of_filter.
      assert (forall ch, ch ∈ cs -> nbrs (delete c t) ch = nbrs t ch) as Hd.
      { intros ch Hch. unfold nbrs. rewrite lookup_delete_ne; [done|]. by intros ->. }
      split.
      * intros [[?|?]|(ch & Hch & Hn & Hin)]; [by left|right; exists c|right; exists ch].
        -- split; [by left|done].
        -- rewrite Hd in Hin by done. split; [by right|done].
      * intros [?|(ch & [-> |Hch]%elem_of_cons & Hn & Hin)]; [by left; left|by left; right|].
        right. exists ch. by rewrite Hd.
    + intros a. rewrite H2. destruct (decide (a ∈ cs)) as [|Hn].
      { by rewrite decide_True by (by right). }
      destruct (decide (a = c)) as [-> |Hne].
      * rewrite lookup_delete, decide_True by done. by rewrite decide_True by (by left).
      * rewrite lookup_delete_ne by congruence. rewrite decide_False; [done|].
        rewrite elem_of_cons. tauto.
Qed.

Section Merge.
Context (base : f32) (S : gset CellID) (t : Topology) (p : CellID) (cs ord1 ord2 : list CellID).
Context (Hex : exact base S t) (Hp : p ∉ S) (Hnd : NoDup cs)
  (Hsub : forall c, c ∈ cs -> c ∈ S)
  (Hfin : all_finite base (S ∪ {[p]}))
  (Hcov : parent_covers base S p cs)
  (Ho1 : lists (collect_external (list_to_set cs) cs t).1 ord1)
  (Ho2 : lists (collect_external (list_to_set cs) cs t).1 ord2).

Let M' : gset CellID := (S ∖ list_to_set cs) ∪ {[p]}.

Lemma merge_sym a b : a ∈ S ∪ {[p]} -> b ∈ S ∪ {[p]} ->
  AreAdjacent a b base = AreAdjacent b a base.
Proof. intros Ha Hb. apply AreAdjacent_sym; auto. Qed.

Lemma ext_spec n : n ∈ (collect_external (list_to_set cs) cs t).1 <->
  n ∈ S /\ n ∉ cs /\ AreAdjacent p n base = true.
Proof.
  destruct (collect_external_spec (list_to_set cs) cs Hnd ∅ t) as [H1 _].
  unfold collect_external. rewrite H1. split.
  - intros [H|(ch & Hch & Hn & Hin)]; [by apply elem_of_empty in H|].
    rewrite elem_of_list_to_set in Hn.
    destruct (exact_row base S t Hex ch (Hsub ch Hch)) as (l & _ & E & [_ Hrow]).
    rewrite E in Hin. apply Hrow in Hin as [HnS Hadj].
    split; [done|]. split; [done|]. apply Hcov; eauto.
  - intros (HnS & Hn & Hadj). right. apply Hcov in Hadj as (ch & Hch & Hadj); [|done..].
    exists ch. rewrite elem_of_list_to_set. split; [done|]. split; [done|].
    destruct (exact_row base S t Hex ch (Hsub ch Hch)) as (l & _ & -> & [_ Hrow]).
    by apply Hrow.
Qed.

Lemma elem_of_ord ord n : lists (collect_external (list_to_set cs) cs t).1 ord ->
  n ∈ ord <-> n ∈ S /\ n ∉ cs /\ AreAdjacent p n base = true.
Proof. intros [_ H]. by rewrite H, ext_spec. Qed.

Lemma merge_lookup a :
  UpdateAfterMerge ord1 ord2 t cs p base !! a =
  if decide (a ∈ ord2) then Some (filter (fun nb => nb ∉ (list_to_set cs : gset CellID)) (nbrs t a) ++ [p])
  else if decide (a = p) then Some (adjs base p ord1)
  else if decide (a ∈ cs) then None else t !! a.
Proof.
  destruct (collect_external_spec (list_to_set cs) cs Hnd ∅ t) as [_ H2].
  unfold UpdateAfterMerge, collect_external.
  destruct (fold_left _ cs (∅, t)) as [ext t1]. simpl in H2.
  rewrite (fold_update_lookup (fun n l => filter (fun nb => nb ∉ list_to_set cs) l ++ [p]))
    by apply Ho2.
  destruct (decide (a ∈ ord2)) as [Ha|Ha].
  - apply elem_of_ord in Ha as (HaS & Han & _); [|done]. unfold nbrs at 1.
    rewrite lookup_insert_ne by (by intros ->). rewrite H2, decide_False; done.
  - rewrite lookup_insert. destruct (decide (p = a)) as [<- |Hne].
    + by rewrite decide_True.
    + rewrite H2, (decide_False (P := a = p)) by congruence. done.
Qed.

Lemma elem_of_M' b : b ∈ M' <-> (b ∈ S /\ b ∉ cs) \/ b = p.
Proof.
  unfold M'. rewrite elem_of_union, elem_of_difference, elem_of_singleton, elem_of_list_to_set.
  tauto.
Qed.

Lemma merge_row_ext a : a ∈ ord2 ->
  row_exact base M' a (filter (fun nb => nb ∉ (list_to_set cs : gset CellID)) (nbrs t a) ++ [p]).
Proof.
  intros Ha. apply elem_of_ord in Ha as (HaS & Han & Hadj); [|done].
  destruct (exact_row base S t Hex a HaS) as (l & _ & -> & [Hl Hrow]). split.
  - apply NoDup_app. split; [by apply NoDup_filter|]. split; [|apply NoDup_singleton].
    intros b [_ Hb]%list_elem_of_filter ->%list_elem_of_singleton. by apply Hrow in Hb as [Hb _].
  - intros b. rewrite elem_of_app, list_elem_of_filter, elem_of_list_to_set,
      list_elem_of_singleton, elem_of_M', Hrow.
    assert (AreAdjacent a p base = true).
    { rewrite merge_sym; [done| |]; apply elem_of_union; [by left|right]. by apply elem_of_singleton. }
    split; [|tauto]. intros [?| ->]; tauto.
Qed.

Lemma merge_row_parent : row_exact base M' p (adjs base p ord1).
Proof.
  split; [apply adjs_NoDup, Ho1|]. intros b.
  rewrite elem_of_adjs, elem_of_M', (elem_of_ord ord1) by done.
  split; [tauto|]. intros [[?| ->] Hadj]; [tauto|]. by rewrite AreAdjacent_irrefl in Hadj.
Qed.

Lemma merge_row_far a l : a ∉ ord2 -> a ∉ cs -> t !! a = Some l -> row_exact base M' a l.
Proof.
  intros Ha Hac Hl. destruct (proj2 Hex a l Hl) as [Hnl Hrow].
  assert (a ∈ S) as HaS by (rewrite <- (proj1 Hex); by apply elem_of_dom_2 in Hl).
  assert (a ∈ S ∪ {[p]}) as HaU by (apply elem_of_union; by left).
  rewrite (elem_of_ord ord2) in Ha by done.
  split; [done|]. intros b. rewrite Hrow, elem_of_M'. split; intros [Hb Hab]; (split; [|done]).
  - left. split; [done|]. intros Hbc. destruct Ha. split; [done|]. split; [done|].
    apply Hcov; [done..|]. exists b. split; [done|]. rewrite merge_sym; [done| |done].
    apply elem_of_union. by left.
  - destruct Hb as [[? _]| ->]; [done|]. destruct Ha. split; [done|]. split; [done|].
    rewrite merge_sym; [done| |done]. apply elem_of_union. right. by apply elem_of_singleton.
Qed.

Lemma merge_exact : exact base M' (UpdateAfterMerge ord1 ord2 t cs p base).
Proof.
  split.
  - apply set_eq. intros a. rewrite elem_of_dom, merge_lookup, elem_of_M'.
    destruct (decide (a ∈ ord2)) as [Ha|Ha].
    { apply elem_of_ord in Ha as (HaS & Han & _); [|done]. split; [tauto|eauto]. }
    destruct (decide (a = p)) as [-> |Hne]; [split; eauto|].
    destruct (decide (a ∈ cs)) as [Hac|Hac].
    + split; [by intros [? ?]|]. tauto.
    + rewrite <- elem_of_dom, (proj1 Hex). tauto.
  - intros a l. rewrite merge_lookup. destruct (decide (a ∈ ord2)) as [Ha|Ha].
    { intros [= <-]. by apply merge_row_ext. }
    destruct (decide (a = p)) as [-> |Hne]; [intros [= <-]; apply merge_row_parent|].
    destruct (decide (a ∈ cs)); [done|]. by apply merge_row_far.
Qed.
End Merge.

(** ** Rebuilding rows *)

Lemma rebuild_lookup base keys ord : NoDup ord -> forall (t : Topology) a,
  fold_left (fun t cell =>
    match t !! cell with
    | None => delete cell t
    | Some _ =>
        <[cell := filter (fun other => other <> cell /\ AreAdjacent cell other base = true) keys]> t
    end) ord t !! a
  = if decide (a ∈ ord)
    then (fun _ => filter (fun other => other <> a /\ AreAdjacent a other base = true) keys) <$> t !! a
    else t !! a.
Proof.
  induction 1 as [|c ord Hc _ IH]; intros t a; cbn [fold_left].
  { rewrite decide_False; [done|]. apply not_elem_of_nil. }
  rewrite IH. destruct (decide (a = c)) as [-> |Hne].
  - rewrite decide_False by done. rewrite (decide_True (P := c ∈ c :: ord)) by (by left).
    destruct (t !! c) eqn:E; simpl; [by rewrite lookup_insert, decide_True|].
    by rewrite lookup_delete, decide_True.
  - assert (match t !! c with None => delete c t | Some _ =>
      <[c := filter (fun other => other <> c /\ AreAdjacent c other base = true) keys]> t end !! a
      = t !! a) as ->.
    { destruct (t !! c); [by rewrite lookup_insert_ne by congruence|].
      by rewrite lookup_delete_ne by congruence. }
    destruct (decide (a ∈ ord)); [by rewrite decide_True by (by right)|].
    rewrite decide_False; [done|]. rewrite elem_of_cons. tauto.
Qed.

Lemma rebuild_exact base S t affected ord keys :
  affected <> [] -> dom t = S -> lists (frontier t affected) ord -> lists S keys ->
  (forall a l, t !! a = Some l -> a ∉ frontier t affected -> row_exact base S a l) ->
  exact base S (RebuildNeighborsFor ord keys t affected base).
Proof.
  intros Hne Hd [Hnd Hord] [Hkd Hkeys] Hrows. unfold RebuildNeighborsFor.
  rewrite decide_False by done. split.
  - rewrite <- Hd. apply set_eq. intros a. rewrite !elem_of_dom, rebuild_lookup by done.
    destruct (decide (a ∈ ord)); [|done]. by rewrite fmap_is_Some.
  - intros a l. rewrite rebuild_lookup by done. destruct (decide (a ∈ ord)) as [Ha|Ha].
    + intros (l0 & _ & ->)%fmap_Some. split; [by apply NoDup_filter|].
      intros b. rewrite list_elem_of_filter, Hkeys. split; [tauto|].
      intros [Hb Hab]. split; [|done]. split; [|done].
      intros ->. by rewrite AreAdjacent_irrefl in Hab.
    + intros Hl. apply Hrows; [done|]. by rewrite <- Hord.
Qed.

(** ** Executable geometry checks *)

Definition check_split (base : f32) (cells : list CellID) (p : CellID) (cs : list CellID) : bool :=
  forallb (finite_bounds base) (cells ++ cs) &&
  forallb (fun ch => forallb (fun b =>
    bool_decide (b = p) || negb (AreAdjacent ch b base) || AreAdjacent p b base) cells) cs.

Definition check_merge (base : f32) (cells : list CellID) (p : CellID) (cs : list CellID) : bool :=
  forallb (finite_bounds base) (p :: cells) &&
  forallb (fun n => bool_decide (n ∈ cs) ||
    Bool.eqb (AreAdjacent p n base) (existsb (fun ch => AreAdjacent ch n base) cs)) cells.

Lemma check_split_sound base cells p cs : check_split base cells p cs = true ->
  all_finite base (list_to_set cells ∪ list_to_set cs) /\
  children_inside base (list_to_set cells) p cs.
Proof.
  intros [Hf Hc]%andb_prop. rewrite forallb_forall in Hf. rewrite forallb_forall in Hc. split.
  - intros c Hc'. apply Hf, list_elem_of_In. rewrite elem_of_app. set_solver.
  - intros ch b Hch Hb Hbp Hadj. apply list_elem_of_In, Hc in Hch.
    rewrite forallb_forall in Hch. apply elem_of_list_to_set, list_elem_of_In, Hch in Hb.
    rewrite Hadj in Hb. rewrite bool_decide_eq_false_2 in Hb by done. done.
Qed.

Lemma check_merge_sound base cells p cs : check_merge base cells p cs = true ->
  all_finite base (list_to_set cells ∪ {[p]}) /\
  parent_covers base (list_to_set cells) p cs.
Proof.
  intros [Hf Hc]%andb_prop. rewrite forallb_forall in Hf. rewrite forallb_forall in Hc. split.
  - intros c Hc'. apply Hf, list_elem_of_In. rewrite elem_of_cons. set_solver.
  - intros n Hn Hncs. apply elem_of_list_to_set, list_elem_of_In, Hc in Hn.
    rewrite bool_decide_eq_false_2 in Hn by done. apply eqb_prop in Hn. rewrite Hn.
    rewrite existsb_exists. split; intros (ch & Hch & Hadj); exists ch; split; try done;
      by apply list_elem_of_In.
Qed.

(** ** Properties *)

(** Splitting a cell incrementally gives the topology a full recomputation
    gives.  From any topology equivalent to ComputeTopology of the cells,
    replacing a cell by children that are new, distinct and inside it (a cell
    adjacent to a child is adjacent to the parent), with finite bounds, yields
    up to row order ComputeTopology of the new set of cells. *)
Theorem split_matches_recompute base cells cells' t p cs :
  NoDup cells -> NoDup cells' -> NoDup cs -> p ∈ cells ->
  (forall c, c ∈ cs -> c ∉ cells) ->
  (forall c, c ∈ cells' <-> (c ∈ cells /\ c <> p) \/ c ∈ cs) ->
  all_finite base (list_to_set cells ∪ list_to_set cs) ->
  children_inside base (list_to_set cells) p cs ->
  topo_equiv t (ComputeTopology cells base) ->
  topo_equiv (UpdateAfterSplit t p cs base) (ComputeTopology cells' base).
Proof.
  intros Hnd Hnd' Hcs Hp Hnew Hcells' Hfin Hin Ht.
  apply (exact_unique base (list_to_set cells')); [|by apply compute_exact].
  replace (list_to_set cells' : gset CellID)
    with ((list_to_set cells ∖ {[p]}) ∪ list_to_set cs : gset CellID).
  - apply split_exact; [by rewrite Ht; apply compute_exact|by apply elem_of_list_to_set|done| |done..].
    intros c. rewrite elem_of_list_to_set. apply Hnew.
  - apply set_eq. intros c.
    rewrite elem_of_union, elem_of_difference, elem_of_singleton, !elem_of_list_to_set, Hcells'.
    tauto.
Qed.

(** Merging cells incrementally gives the topology a full recomputation
    gives.  From any topology equivalent to ComputeTopology of the cells,
    replacing distinct cells of it by a new parent that is adjacent to exactly
    what they are adjacent to, with finite bounds, yields up to row order
    ComputeTopology of the new set of cells, for every iteration order of the
    two loops over the external neighbours. *)
Theorem merge_matches_recompute base cells cells' t p cs ord1 ord2 :
  NoDup cells -> NoDup cells' -> NoDup cs -> p ∉ cells ->
  (forall c, c ∈ cs -> c ∈ cells) ->
  (forall c, c ∈ cells' <-> (c ∈ cells /\ c ∉ cs) \/ c = p) ->
  all_finite base (list_to_set cells ∪ {[p]}) ->
  parent_covers base (list_to_set cells) p cs ->
  lists (collect_external (list_to_set cs) cs t).1 ord1 ->
  lists (collect_external (list_to_set cs) cs t).1 ord2 ->
  topo_equiv t (ComputeTopology cells base) ->
  topo_equiv (UpdateAfterMerge ord1 ord2 t cs p base) (ComputeTopology cells' base).
Proof.
  intros Hnd Hnd' Hcs Hp Hsub Hcells' Hfin Hcov Ho1 Ho2 Ht.
  apply (exact_unique base (list_to_set cells')); [|by apply compute_exact].
  replace (list_to_set cells' : gset CellID)
    with ((list_to_set cells ∖ list_to_set cs) ∪ {[p]} : gset CellID).
  - apply merge_exact; [by rewrite Ht; apply compute_exact|by rewrite elem_of_list_to_set|done|
      |done..].
    intros c. rewrite elem_of_list_to_set. apply Hsub.
  - apply set_eq. intros c.
    rewrite elem_of_union, elem_of_difference, elem_of_singleton, !elem_of_list_to_set, Hcells'.
    tauto.
Qed.

(** RebuildNeighborsFor repairs the rows it visits.  If every row outside
    the frontier (the affected cells and their recorded neighbours) is right for
    the present cells, then after the rebuild the topology is, up to row order,
    ComputeTopology of the present cells, whatever the rows of the frontier held
    before and whatever the iteration orders. *)
Theorem rebuild_matches_recompute base cells t affected ord keys :
  NoDup cells -> affected <> [] -> dom t = list_to_set cells ->
  lists (frontier t affected) ord -> lists (list_to_set cells) keys ->
  (forall a l, t !! a = Some l -> a ∉ frontier t affected ->
     row_exact base (list_to_set cells) a l) ->
  topo_equiv (RebuildNeighborsFor ord keys t affected base) (ComputeTopology cells base).
Proof.
  intros Hnd Hne Hd Hord Hkeys Hrows.
  apply (exact_unique base (list_to_set cells)); [by apply rebuild_exact|by apply compute_exact].
Qed.

(** ** Witnesses: a 2 x 2 grid of 100-unit cells, one of them split. *)

Definition wbase : f32 := f32_of_int 100.
Definition wcells : list CellID := [mkCellID 0 0 0; mkCellID 1 0 0; mkCellID 0 1 0; mkCellID 1 1 0].
Definition wparent : CellID := mkCellID 1 1 0.
Definition wchildren : list CellID := Children wparent.
Definition wsplit : list CellID := filter (fun c => c <> wparent) wcells ++ wchildren.
Definition wmerged : list CellID := filter (fun c => c ∉ wchildren) wsplit ++ [wparent].
Definition wtopo : Topology := ComputeTopology wsplit wbase.
Definition wext : list CellID :=
  elements (collect_external (list_to_set wchildren) wchildren wtopo).1.
Definition wfront : list CellID := elements (frontier wtopo [mkCellID 0 0 0]).

Lemma lists_elements (s : gset CellID) : lists s (elements s).
Proof. split; [apply NoDup_elements|]. intros c. apply elem_of_elements. Qed.

Ltac by_computation := refine (bool_decide_unpack _ _); vm_compute; exact I.

Lemma split_matches_recompute_witness :
  topo_equiv (UpdateAfterSplit (ComputeTopology wcells wbase) wparent wchildren wbase)
             (ComputeTopology wsplit wbase).
Proof.
  destruct (check_split_sound wbase wcells wparent wchildren) as [Hf Hi]; [by vm_compute|].
  apply (split_matches_recompute wbase wcells).
  - by_computation.
  - by_computation.
  - by_computation.
  - by_computation.
  - apply Forall_forall. by_computation.
  - intros c. unfold wsplit. rewrite elem_of_app, list_elem_of_filter. tauto.
  - exact Hf.
  - exact Hi.
  - reflexivity.
Defined.

Lemma merge_matches_recompute_witness :
  topo_equiv (UpdateAfterMerge wext wext wtopo wchildren wparent wbase)
             (ComputeTopology wmerged wbase).
Proof.
  destruct (check_merge_sound wbase wsplit wparent wchildren) as [Hf Hc]; [by vm_compute|].
  apply (merge_matches_recompute wbase wsplit).
  - by_computation.
  - by_computation.
  - by_computation.
  - by_computation.
  - apply Forall_forall. by_computation.
  - intros c. unfold wmerged. rewrite elem_of_app, list_elem_of_filter, list_elem_of_singleton. tauto.
  - exact Hf.
  - exact Hc.
  - apply lists_elements.
  - apply lists_elements.
  - reflexivity.
Defined.

Lemma rebuild_matches_recompute_witness :
  topo_equiv (RebuildNeighborsFor wfront wsplit wtopo [mkCellID 0 0 0] wbase)
             (ComputeTopology wsplit wbase).
Proof.
  destruct (compute_exact wbase wsplit) as [Hd Hr]; [by_computation|].
  apply (rebuild_matches_recompute wbase wsplit).
  - by_computation.
  - discriminate.
  - exact Hd.
  - apply lists_elements.
  - split; [by_computation|]. intros c. by rewrite elem_of_list_to_set.
  - intros a l Hl _. by apply Hr.
Defined.

Example topology_sizes :
  length (nbrs wtopo (mkCellID 0 0 0)) = 3%nat /\ length (nbrs wtopo (mkCellID 1 0 0)) = 4%nat /\
  length (nbrs wtopo (mkCellID 3 3 1)) = 3%nat.
Proof. vm_compute. repeat split. Qed.
