(* ===== verification/Replication.v ===== *)
(** * Replication primitives (pkg/replication)

    Tiers and viewers (viewer.go, tier.go), the dispatcher that builds a frame
    per viewer (dispatcher.go), the frame wire format (frame.go), priorities
    (priority.go) and the per-viewer baselines with their ring of sent
    snapshots (baseline.go).  Positions and weights are [float32]; a product
    and a sum are rounded separately, as on amd64. *)

From S2P Require Import Prelude Float32.

(** ** Viewers and tiers *)

Record ReplicationTier := mkTier {
  Radius : f32;
  UpdateDivisor : Z;
  BaseWeight : f32;
  PromoteRadius : f32;
  PromoteLookahead : Z
}.

Definition f32_half : f32 := S754_finite false 8388608 (-24).

Definition DefaultPromoteRadius (t : ReplicationTier) : f32 :=
  if f32_lt f32_zero (PromoteRadius t) then PromoteRadius t
  else f32_mul (Radius t) f32_half.

Definition DefaultPromoteLookahead (t : ReplicationTier) : Z :=
  if PromoteLookahead t >? 0 then PromoteLookahead t else 10.

Definition InsideRadius (t : ReplicationTier) (cx cy px py : f32) : bool :=
  let dx := f32_sub px cx in
  let dy := f32_sub py cy in
  f32_le (f32_add (f32_mul dx dx) (f32_mul dy dy)) (f32_mul (Radius t) (Radius t)).

Definition SkipThisTick (t : ReplicationTier) (tick : Z) : bool :=
  let d := UpdateDivisor t in
  if d <=? 1 then false else negb (tick mod u64 d =? 0).

(** ** Frames *)

Record NetID := mkNetID { nid_ID : Z; nid_Epoch : Z }.

Record FrameEntry := mkFrameEntry { fe_NetID : NetID; fe_Kind : Z; fe_DeltaBuf : bytes }.

Record Frame := mkFrame {
  ViewerID : Z;
  SenderNode : Z;
  Tick : Z;
  Entries : list FrameEntry
}.

Definition frameHeaderBytes : nat := 24.
Definition frameEntryFixedBytes : nat := 14.

Definition SizeEncoded (f : Frame) : nat :=
  fold_left (fun n e => n + (frameEntryFixedBytes + length (fe_DeltaBuf e)))%nat
    (Entries f) frameHeaderBytes.

Definition encode_entry (e : FrameEntry) : bytes :=
  le_bytes 4 (nid_ID (fe_NetID e)) ++ le_bytes 4 (nid_Epoch (fe_NetID e))
  ++ le_bytes 2 (fe_Kind e) ++ le_bytes 4 (u32 (Z.of_nat (length (fe_DeltaBuf e))))
  ++ fe_DeltaBuf e.

(** The writes fill the buffer of [SizeEncoded] bytes from left to right. *)
Definition Encode (f : Frame) : bytes :=
  le_bytes 8 (ViewerID f) ++ le_bytes 4 (SenderNode f) ++ le_bytes 8 (Tick f)
  ++ le_bytes 4 (u32 (Z.of_nat (length (Entries f))))
  ++ concat (map encode_entry (Entries f)).

Inductive FrameError :=
| ErrShortHeader
| ErrEntryCount
| ErrTruncatedEntry
| ErrTruncatedDelta.

(** The entry loop; [rest] is [data[pos:]]. *)
Fixpoint decode_entries (count : nat) (rest : bytes) (acc : list FrameEntry)
  : result FrameError (list FrameEntry) :=
  match count with
  | O => Ok acc
  | S count =>
      guard (frameEntryFixedBytes <=? length rest)%nat else ErrTruncatedEntry in
      let id := le_val (slice 0 4 rest) in
      let epoch := le_val (slice 4 8 rest) in
      let kind := le_val (slice 8 10 rest) in
      let dlen := le_val (slice 10 14 rest) in
      let rest := drop frameEntryFixedBytes rest in
      guard negb (dlen >? u32 (Z.of_nat (length rest))) else ErrTruncatedDelta in
      let n := Z.to_nat dlen in
      decode_entries count (drop n rest)
        (acc ++ [mkFrameEntry (mkNetID id epoch) kind (take n rest)])
  end.

Definition DecodeFrame (data : bytes) : result FrameError Frame :=
  guard (frameHeaderBytes <=? length data)%nat else ErrShortHeader in
  let viewer := le_val (slice 0 8 data) in
  let sender := le_val (slice 8 12 data) in
  let tick := le_val (slice 12 20 data) in
  let count := le_val (slice 20 24 data) in
  let rest := drop 24 data in
  guard negb (count * Z.of_nat frameEntryFixedBytes >? Z.of_nat (length rest))
    else ErrEntryCount in
  let! entries := decode_entries (Z.to_nat count) rest [] in
  Ok (mkFrame viewer sender tick entries).

(** ** The dispatcher *)

(** [er_Build] is the caller's closure: [None] is the nil closure.  It appends
    to the empty scratch slice, so only the bytes it returns matter. *)
Record EntityRef := mkEntityRef {
  er_NetID : NetID;
  er_Kind : Z;
  er_X : f32;
  er_Y : f32;
  er_Build : option bytes
}.

(** What [Walk] asks of a viewer. *)
Class Viewer (V : Type) := {
  viewer_ID : V -> Z;
  viewer_Position : V -> f32 * f32;
  viewer_Tier : V -> Z -> ReplicationTier
}.

Definition Walk {V} `{Viewer V} (viewer : V) (tick : Z) (candidates : list EntityRef) : Frame :=
  let '(vx, vy) := viewer_Position viewer in
  fold_left (fun frame ref =>
    let tier := viewer_Tier viewer (er_Kind ref) in
    if negb (InsideRadius tier vx vy (er_X ref) (er_Y ref)) then frame
    else if SkipThisTick tier tick then frame
    else match er_Build ref with
         | None => frame
         | Some delta =>
             if (length delta =? 0)%nat then frame
             else mkFrame (ViewerID frame) (SenderNode frame) (Tick frame)
                    (Entries frame ++ [mkFrameEntry (er_NetID ref) (er_Kind ref) delta])
         end)
    candidates (mkFrame (viewer_ID viewer) 0 tick []).

(** ** Baselines *)

Inductive AckMode := AckReliable | AckExplicit.

Record SentSnapshot := mkSent { Seq : Z; Data : bytes }.

Definition empty_snapshot : SentSnapshot := mkSent 0 [].

(** [Acked] is [None] while the slice is nil. *)
Record EntityBaseline := mkBaseline {
  AuthorityEpoch : Z;
  HasAuthorityEpoch : bool;
  FullTailFramesRemaining : Z;
  Acked : option bytes;
  Ring : list SentSnapshot;
  RingHead : nat;
  RingLen : nat;
  InitialHash : Z;
  HasInitialHash : bool
}.

Definition with_ring (b : EntityBaseline) (acked : option bytes) (ring : list SentSnapshot)
  (head len : nat) : EntityBaseline :=
  mkBaseline (AuthorityEpoch b) (HasAuthorityEpoch b) (FullTailFramesRemaining b)
    acked ring head len (InitialHash b) (HasInitialHash b).

Definition PushSent (b : EntityBaseline) (seq : Z) (data : bytes) : EntityBaseline :=
  if (length (Ring b) =? 0)%nat then b
  else
    with_ring b (Acked b)
      (<[RingHead b := mkSent seq data]> (Ring b))
      ((RingHead b + 1) mod length (Ring b))%nat
      (if (RingLen b <? length (Ring b))%nat then RingLen b + 1 else RingLen b)%nat.

(** [int32(e.Seq-seq) <= 0]. *)
Definition at_or_before (seq : Z) (e : SentSnapshot) : bool :=
  i32 (u32 (Seq e - seq)) <=? 0.

Definition ring_start (b : EntityBaseline) : nat :=
  ((RingHead b + length (Ring b) - RingLen b) mod length (Ring b))%nat.

Definition ring_at (ring : list SentSnapshot) (start i : nat) : SentSnapshot :=
  nth ((start + i) mod length ring)%nat ring empty_snapshot.

(** The first loop of [AdvanceTo]: the newest entry at or before [seq]. *)
Definition best_loop (ring : list SentSnapshot) (start len : nat) (seq : Z)
  : option SentSnapshot :=
  fold_left (fun best i =>
    if at_or_before seq (ring_at ring start i) then Some (ring_at ring start i) else best)
    (List.seq 0 len) None.

(** The pruning loop: [todo] entries from index [i] on. *)
Fixpoint prune_loop (start : nat) (seq : Z) (todo i : nat) (ring : list SentSnapshot)
  : list SentSnapshot * nat :=
  match todo with
  | O => (ring, i)
  | S todo =>
      if at_or_before seq (ring_at ring start i)
      then prune_loop start seq todo (S i)
             (<[((start + i) mod length ring)%nat := empty_snapshot]> ring)
      else (ring, i)
  end.

Definition AdvanceTo (b : EntityBaseline) (seq : Z) : EntityBaseline :=
  if ((length (Ring b) =? 0) || (RingLen b =? 0))%nat then b
  else
    let start := ring_start b in
    match best_loop (Ring b) start (RingLen b) seq with
    | None => b
    | Some best =>
        let '(ring, pruned) := prune_loop start seq (RingLen b) 0 (Ring b) in
        let len := (RingLen b - pruned)%nat in
        with_ring b (Some (Data best)) ring ((start + pruned + len) mod length (Ring b))%nat len
    end.

Definition PruneSentThrough (b : EntityBaseline) (seq : Z) : EntityBaseline :=
  if ((length (Ring b) =? 0) || (RingLen b =? 0))%nat then b
  else
    let '(ring, pruned) := prune_loop (ring_start b) seq (RingLen b) 0 (Ring b) in
    with_ring b (Acked b) ring (RingHead b) (RingLen b - pruned)%nat.

Definition ClearSent (b : EntityBaseline) : EntityBaseline :=
  with_ring b (Acked b) (map (fun _ => empty_snapshot) (Ring b)) 0 0.

(** ** Priorities *)

Record EntityPriorityState := mkPriority {
  Accumulator : f32;
  LastSentTick : Z;
  UnchangedTicks : Z
}.

Definition zero_priority : EntityPriorityState := mkPriority f32_zero 0 0.

(** [None] is the nil pointer. *)
Definition AccumulatePriority (p : option EntityPriorityState) (tier : ReplicationTier)
  (distanceFactor : f32) : option EntityPriorityState :=
  (fun p => mkPriority (f32_add (Accumulator p) (f32_mul (BaseWeight tier) distanceFactor))
              (LastSentTick p) (UnchangedTicks p)) <$> p.

Definition ResetPriority (p : option EntityPriorityState) : option EntityPriorityState :=
  (fun p => mkPriority f32_zero (LastSentTick p) (UnchangedTicks p)) <$> p.

(** ** The baseline store of one viewer *)

Record BaselineStore := mkStore {
  mode : AckMode;
  baselines : gmap Z EntityBaseline;
  lastHash : gmap Z Z;
  priorities : gmap Z EntityPriorityState
}.

Definition NewBaselineStore (m : AckMode) : BaselineStore := mkStore m ∅ ∅ ∅.

Definition Mode (s : BaselineStore) : AckMode := mode s.

Definition Baseline (s : BaselineStore) (netID : Z) : option EntityBaseline := baselines s !! netID.

Definition fresh_baseline (ringDepth : Z) : EntityBaseline :=
  mkBaseline 0 false 0 None
    (if ringDepth >? 0 then replicate (Z.to_nat ringDepth) empty_snapshot else []) 0 0 0 false.

Definition GetOrCreateBaseline (s : BaselineStore) (netID ringDepth : Z)
  : BaselineStore * EntityBaseline :=
  match baselines s !! netID with
  | Some b => (s, b)
  | None =>
      let b := fresh_baseline ringDepth in
      (mkStore (mode s) (<[netID := b]> (baselines s)) (lastHash s) (priorities s), b)
  end.

Definition SetBaseline (s : BaselineStore) (netID : Z) (b : EntityBaseline) : BaselineStore :=
  mkStore (mode s) (<[netID := b]> (baselines s)) (lastHash s) (priorities s).

Definition DropBaseline (s : BaselineStore) (netID : Z) : BaselineStore :=
  mkStore (mode s) (delete netID (baselines s)) (delete netID (lastHash s))
    (delete netID (priorities s)).

Definition LastHash (s : BaselineStore) (netID : Z) : Z := default 0 (lastHash s !! netID).

Definition HasLastHash (s : BaselineStore) (netID : Z) : bool :=
  bool_decide (is_Some (lastHash s !! netID)).

Definition SetLastHash (s : BaselineStore) (netID hash : Z) : BaselineStore :=
  mkStore (mode s) (baselines s) (<[netID := hash]> (lastHash s)) (priorities s).

Definition Priority (s : BaselineStore) (netID : Z) : BaselineStore * EntityPriorityState :=
  match priorities s !! netID with
  | Some ps => (s, ps)
  | None => (mkStore (mode s) (baselines s) (lastHash s) (<[netID := zero_priority]> (priorities s)),
             zero_priority)
  end.

Definition ExistingPriority (s : BaselineStore) (netID : Z) : option EntityPriorityState :=
  priorities s !! netID.

(** ** The frame codec *)

Section FrameCodec.
Definition valid_entry (e : FrameEntry) : Prop :=
  in_u32 (nid_ID (fe_NetID e)) /\ in_u32 (nid_Epoch (fe_NetID e)) /\ in_u16 (fe_Kind e) /\
  Forall is_byte (fe_DeltaBuf e).

Definition valid_frame (f : Frame) : Prop :=
  in_u64 (ViewerID f) /\ in_u32 (SenderNode f) /\ in_u64 (Tick f) /\
  Forall valid_entry (Entries f).

Lemma length_encode_entry e : length (encode_entry e) = (14 + length (fe_DeltaBuf e))%nat.
Proof. unfold encode_entry. autorewrite with go_len. lia. Qed.

Lemma length_entries es :
  length (concat (map encode_entry es))
  = list_sum (map (fun e => 14 + length (fe_DeltaBuf e))%nat es).
Proof.
  induction es as [|e es IH]; [done|]. cbn [map concat].
  rewrite length_app, length_encode_entry, IH. done.
Qed.

Lemma SizeEncoded_sum f :
  SizeEncoded f = (24 + list_sum (map (fun e => 14 + length (fe_DeltaBuf e))%nat (Entries f)))%nat.
Proof.
  unfold SizeEncoded, frameHeaderBytes. generalize 24%nat. induction (Entries f) as [|e es IH];
    intros n; [simpl; lia|]. cbn [fold_left map]. rewrite IH.
  unfold frameEntryFixedBytes, list_sum. cbn [fold_right]. lia.
Qed.

Lemma length_Encode f : length (Encode f) = SizeEncoded f.
Proof.
  rewrite SizeEncoded_sum, <- length_entries. unfold Encode. autorewrite with go_len. lia.
Qed.

Lemma entries_count es : (14 * length es <= length (concat (map encode_entry es)))%nat.
Proof.
  induction es as [|e es IH]; [done|]. cbn [map concat length].
  rewrite length_app, length_encode_entry. lia.
Qed.

Lemma decode_entries_app es : forall r acc,
  Forall valid_entry es ->
  Z.of_nat (length (concat (map encode_entry es) ++ r)) < 2 ^ 32 ->
  decode_entries (length es) (concat (map encode_entry es) ++ r) acc = Ok (acc ++ es).
Proof.
  induction es as [|e es IH]; intros r acc Hv Hlen; [by rewrite app_nil_r|].
  apply Forall_cons in Hv as [(H1 & H2 & H3 & _) Hv].
  cbn [map concat] in *. rewrite <- app_assoc in *.
  set (tl := concat (map encode_entry es) ++ r) in *.
  rewrite length_app, length_encode_entry in Hlen.
  cbn [decode_entries length]. rewrite length_app, length_encode_entry.
  unfold frameEntryFixedBytes.
  rewrite (proj2 (Nat.leb_le 14 _)) by lia.
  assert (le_val (slice 10 14 (encode_entry e ++ tl)) = Z.of_nat (length (fe_DeltaBuf e))) as Hd.
  { unfold encode_entry. rewrite <- !app_assoc. go_slices.
    rewrite le_u32; rewrite u32_id; unfold_int; lia. }
  assert (drop 14 (encode_entry e ++ tl) = fe_DeltaBuf e ++ tl) as Hdrop.
  { unfold encode_entry. rewrite !app_assoc. rewrite <- !(app_assoc _ (fe_DeltaBuf e)).
    apply drop_app_length'. autorewrite with go_len. lia. }
  rewrite Hd, Hdrop, length_app, u32_id by (unfold_int; lia).
  destruct (Z.gtb_spec (Z.of_nat (length (fe_DeltaBuf e)))
    (Z.of_nat (length (fe_DeltaBuf e) + length tl))); [lia|]. simpl negb. cbv iota.
  rewrite Nat2Z.id, drop_app_length, take_app_length. unfold tl.
  rewrite IH by (done || (fold tl; lia)). rewrite <- app_assoc. do 2 f_equal.
  cbn [app]. f_equal. unfold encode_entry. rewrite <- !app_assoc. go_slices.
  rewrite !le_u32, le_u16 by done. by destruct e as [[? ?] ? ?].
Qed.

Lemma decode_entries_inv n : forall d acc l,
  Forall is_byte d -> decode_entries n d acc = Ok l ->
  exists es r, l = acc ++ es /\ length es = n /\ d = concat (map encode_entry es) ++ r /\
    Forall valid_entry es.
Proof.
  induction n as [|n IH]; intros d acc l Hd Hdec.
  { injection Hdec as <-. exists [], d. by rewrite app_nil_r. }
  cbn [decode_entries] in Hdec. unfold frameEntryFixedBytes in Hdec.
  destruct (Nat.leb_spec 14 (length d)) as [Hlen|]; [|done].
  set (dlen := le_val (slice 10 14 d)) in *.
  pose proof (le_val_slice_range d Hd) as Hr.
  pose proof (Hr 10%nat 14%nat Hlen) as Hdl. fold dlen in Hdl.
  destruct (Z.gtb_spec dlen (u32 (Z.of_nat (length (drop 14 d))))) as [|Hle]; [done|].
  simpl negb in Hdec. cbv iota in Hdec.
  assert (dlen <= Z.of_nat (length (drop 14 d))) as Hle'.
  { etransitivity; [exact Hle|]. apply Z.mod_le; unfold_int; lia. }
  apply IH in Hdec as (es & r & -> & Hes & Hrest & Hv); [|by apply Forall_drop, Forall_drop].
  set (e := mkFrameEntry (mkNetID (le_val (slice 0 4 d)) (le_val (slice 4 8 d)))
              (le_val (slice 8 10 d)) (take (Z.to_nat dlen) (drop 14 d))).
  assert (length (fe_DeltaBuf e) = Z.to_nat dlen) as He.
  { unfold e. simpl fe_DeltaBuf. rewrite length_take. lia. }
  exists (e :: es), r. split; [by rewrite <- app_assoc|]. split; [simpl; lia|]. split.
  - cbn [map concat]. rewrite <- app_assoc, <- Hrest. unfold encode_entry. rewrite He.
    rewrite Z2Nat.id by lia. unfold e, dlen. cbn [nid_ID nid_Epoch fe_NetID fe_Kind fe_DeltaBuf].
    rewrite u32_id by (change (256 ^ Z.of_nat (14 - 10)) with (2 ^ 32) in Hdl; exact Hdl).
    rewrite !le_bytes_of_slice by (done || lia). fold dlen. rewrite <- !app_assoc, take_drop.
    rewrite (app_assoc (slice 8 10 d)), slice_join by lia.
    rewrite (app_assoc (slice 4 8 d)), slice_join by lia.
    rewrite (app_assoc (slice 0 4 d)), slice_join by lia.
    unfold slice. by rewrite drop_0, Nat.sub_0_r, take_drop.
  - constructor; [|done]. unfold valid_entry, e. cbn [nid_ID nid_Epoch fe_NetID fe_Kind fe_DeltaBuf].
    pose proof (Hr 0%nat 4%nat). pose proof (Hr 4%nat 8%nat). pose proof (Hr 8%nat 10%nat).
    change (256 ^ Z.of_nat (4 - 0)) with (2 ^ 32) in *.
    change (256 ^ Z.of_nat (8 - 4)) with (2 ^ 32) in *.
    change (256 ^ Z.of_nat (10 - 8)) with (2 ^ 16) in *.
    unfold in_u32, in_u16. repeat split; try lia. by apply Forall_take, Forall_drop.
Qed.
End FrameCodec.

Lemma DecodeFrame_Encode f r :
  valid_frame f -> Z.of_nat (length (Encode f ++ r)) < 2 ^ 32 ->
  DecodeFrame (Encode f ++ r) = Ok f.
Proof.
  intros (H1 & H2 & H3 & Hes) Hlen. unfold DecodeFrame, frameHeaderBytes, frameEntryFixedBytes.
  assert (24 <= length (Encode f ++ r))%nat as Hl.
  { unfold Encode. autorewrite with go_len. lia. }
  rewrite (proj2 (Nat.leb_le _ _) Hl).
  assert (drop 24 (Encode f ++ r) = concat (map encode_entry (Entries f)) ++ r) as Hdrop.
  { unfold Encode. rewrite !app_assoc, <- (app_assoc _ (concat _)).
    apply drop_app_length'. autorewrite with go_len. lia. }
  pose proof (entries_count (Entries f)) as Hc.
  assert (Z.of_nat (length (concat (map encode_entry (Entries f)) ++ r)) < 2 ^ 32) as Hlen'.
  { rewrite <- Hdrop, length_drop. lia. }
  assert (le_val (slice 20 24 (Encode f ++ r)) = Z.of_nat (length (Entries f))) as Hcount.
  { unfold Encode. rewrite <- !app_assoc. go_slices.
    rewrite length_app in Hlen'.
    rewrite le_u32; rewrite u32_id; unfold_int; lia. }
  rewrite Hcount, Hdrop. rewrite length_app.
  destruct (Z.gtb_spec (Z.of_nat (length (Entries f)) * Z.of_nat 14)
    (Z.of_nat (length (concat (map encode_entry (Entries f))) + length r))); [lia|].
  simpl negb. cbv iota. rewrite Nat2Z.id, decode_entries_app by done.
  cbn [rbind app]. unfold Encode. rewrite <- !app_assoc. go_slices.
  rewrite !le_u64, le_u32 by done. by destruct f.
Qed.

Lemma DecodeFrame_inv d f :
  Forall is_byte d -> DecodeFrame d = Ok f -> valid_frame f /\ exists r, d = Encode f ++ r.
Proof.
  intros Hd. unfold DecodeFrame, frameHeaderBytes, frameEntryFixedBytes.
  destruct (Nat.leb_spec 24 (length d)) as [Hlen|]; [|done].
  destruct (_ >? _); [done|]. simpl negb. cbv iota.
  destruct (decode_entries _ _ _) as [es|] eqn:E; [|done]. intros [= <-].
  apply decode_entries_inv in E as (es' & r & -> & Hn & Hrest & Hv); [|by apply Forall_drop].
  rewrite (app_nil_l es').
  pose proof (le_val_slice_range d Hd) as Hr.
  pose proof (Hr 0%nat 8%nat). pose proof (Hr 8%nat 12%nat). pose proof (Hr 12%nat 20%nat).
  pose proof (Hr 20%nat 24%nat Hlen) as Hc.
  change (256 ^ Z.of_nat (8 - 0)) with (2 ^ 64) in *.
  change (256 ^ Z.of_nat (12 - 8)) with (2 ^ 32) in *.
  change (256 ^ Z.of_nat (20 - 12)) with (2 ^ 64) in *.
  change (256 ^ Z.of_nat (24 - 20)) with (2 ^ 32) in *. split.
  - unfold valid_frame, in_u64, in_u32. cbn [ViewerID SenderNode Tick Entries].
    repeat split; try lia. done.
  - exists r. unfold Encode. cbn [ViewerID SenderNode Tick Entries].
    rewrite Hn, Z2Nat.id, u32_id by (unfold in_u32; lia).
    rewrite !le_bytes_of_slice by (done || lia). rewrite <- !app_assoc, <- Hrest.
    rewrite (app_assoc (slice 12 20 d)), slice_join by lia.
    rewrite (app_assoc (slice 8 12 d)), slice_join by lia.
    rewrite (app_assoc (slice 0 8 d)), slice_join by lia.
    unfold slice. by rewrite drop_0, Nat.sub_0_r, take_drop.
Qed.

(** The frame codec is exact.  A byte string below 4 GiB decodes to a frame
    if and only if it is that frame's encoding, followed by anything: every
    frame with fields in range survives the round trip, and nothing else is
    ever accepted (truncated headers, entry counts and payloads are errors). *)
Theorem frame_codec_exact d f :
  Forall is_byte d -> Z.of_nat (length d) < 2 ^ 32 ->
  DecodeFrame d = Ok f <-> valid_frame f /\ exists r, d = Encode f ++ r.
Proof.
  intros Hd Hlen. split; [by apply DecodeFrame_inv|].
  intros [Hf [r ->]]. by apply DecodeFrame_Encode.
Qed.

Definition wframe : Frame := mkFrame 7 3 900 [mkFrameEntry (mkNetID 5 2) 11 [1; 2; 3];
                                              mkFrameEntry (mkNetID 6 1) 12 []].

Lemma frame_codec_exact_witness :
  DecodeFrame (Encode wframe ++ [9]) = Ok wframe
  <-> valid_frame wframe /\ exists r, Encode wframe ++ [9] = Encode wframe ++ r.
Proof.
  apply frame_codec_exact.
  - vm_compute. repeat constructor; by unfold is_byte.
  - vm_compute. reflexivity.
Defined.

(** ** The dispatcher's selection *)

(** The entry a candidate contributes, if any. *)
Definition entry_for {V} `{Viewer V} (viewer : V) (tick : Z) (ref : EntityRef) : option FrameEntry :=
  let tier := viewer_Tier viewer (er_Kind ref) in
  let '(vx, vy) := viewer_Position viewer in
  if InsideRadius tier vx vy (er_X ref) (er_Y ref) && negb (SkipThisTick tier tick)
  then match er_Build ref with
       | Some ((_ :: _) as delta) => Some (mkFrameEntry (er_NetID ref) (er_Kind ref) delta)
       | _ => None
       end
  else None.

(** Walk sends exactly the eligible candidates.  The frame it builds holds,
    in candidate order, one entry for each candidate inside its tier radius, due
    this tick and with a non-empty delta, and nothing else; it is stamped with
    the viewer and the tick. *)
Theorem walk_selects {V} `{Viewer V} (viewer : V) tick candidates :
  Walk viewer tick candidates
  = mkFrame (viewer_ID viewer) 0 tick (omap (entry_for viewer tick) candidates).
Proof.
  unfold Walk, entry_for. destruct (viewer_Position viewer) as [vx vy].
  set (step := fun (frame : Frame) (ref : EntityRef) => _).
  set (pick := fun (ref : EntityRef) => _).
  enough (forall acc, fold_left step candidates (mkFrame (viewer_ID viewer) 0 tick acc)
    = mkFrame (viewer_ID viewer) 0 tick (acc ++ omap pick candidates)) as Hfold by apply Hfold.
  induction candidates as [|ref cs IH]; intros acc; simpl; [by rewrite app_nil_r|].
  unfold step at 2, pick at 1.
  destruct (InsideRadius _ vx vy _ _); simpl; [|apply IH].
  destruct (SkipThisTick _ tick); simpl; [apply IH|].
  destruct (er_Build ref) as [[|b delta]|]; simpl; [apply IH| |apply IH].
  rewrite IH. by rewrite <- app_assoc.
Qed.

(** ** The ring is a bounded queue

    Abstractly a baseline holds the acknowledged snapshot and a queue of at most
    n sent snapshots, oldest first. *)

Record queue := mkQueue { q_acked : option bytes; q_sent : list SentSnapshot }.

Fixpoint drop_before (seq : Z) (q : list SentSnapshot) : list SentSnapshot :=
  match q with
  | e :: q' => if at_or_before seq e then drop_before seq q' else q
  | [] => []
  end.

Definition q_push (n : nat) (q : queue) (e : SentSnapshot) : queue :=
  let sent := q_sent q ++ [e] in
  mkQueue (q_acked q) (drop (length sent - n) sent).

Definition q_advance (seq : Z) (q : queue) : queue :=
  match last (filter (fun e => at_or_before seq e = true) (q_sent q)) with
  | Some e => mkQueue (Some (Data e)) (drop_before seq (q_sent q))
  | None => q
  end.

Definition q_prune (seq : Z) (q : queue) : queue := mkQueue (q_acked q) (drop_before seq (q_sent q)).

Definition q_clear (q : queue) : queue := mkQueue (q_acked q) [].

Definition ring_wf (b : EntityBaseline) : Prop :=
  (RingLen b <= length (Ring b))%nat /\ (RingHead b < Nat.max 1 (length (Ring b)))%nat.

Definition ring_view (b : EntityBaseline) : list SentSnapshot :=
  map (ring_at (Ring b) (ring_start b)) (List.seq 0 (RingLen b)).

Definition abs (b : EntityBaseline) : queue := mkQueue (Acked b) (ring_view b).

Section RingIndex.
Lemma mod_wrap a n : (0 < n)%nat -> (a < 2 * n)%nat ->
  (a mod n = if a <? n then a else a - n)%nat.
Proof.
  intros Hn Ha. destruct (Nat.ltb_spec a n); [by apply Nat.mod_small|].
  symmetry. apply (Nat.mod_unique a n 1); lia.
Qed.

Lemma nth_insert_ne (l : list SentSnapshot) i j x d : i <> j -> nth i (<[j := x]> l) d = nth i l d.
Proof. intros Hij. by rewrite !nth_lookup, list_lookup_insert_ne by done. Qed.

Lemma nth_insert_eq (l : list SentSnapshot) i x d : (i < length l)%nat -> nth i (<[i := x]> l) d = x.
Proof. intros Hi. rewrite nth_lookup, list_lookup_insert_eq by done. done. Qed.

Lemma map_seq_ext (f g : nat -> SentSnapshot) a k :
  (forall i, (a <= i < a + k)%nat -> f i = g i) -> map f (List.seq a k) = map g (List.seq a k).
Proof. intros H. apply map_ext_in. intros i Hi. apply in_seq in Hi. apply H. lia. Qed.
End RingIndex.

(** [idx_cases] decides the index arithmetic of a ring of positive length. *)
Ltac idx_cases :=
  repeat match goal with
  | |- context [Nat.modulo ?a ?n] => rewrite (mod_wrap a n) by lia
  | |- context [Nat.ltb ?a ?b] => destruct (Nat.ltb_spec a b)
  end; try lia.

Lemma push_refines b seq data :
  ring_wf b -> (0 < length (Ring b))%nat ->
  ring_wf (PushSent b seq data) /\
  abs (PushSent b seq data) = q_push (length (Ring b)) (abs b) (mkSent seq data).
Proof.
  intros [Hlen Hhead] Hn. unfold PushSent.
  rewrite (proj2 (Nat.eqb_neq (length (Ring b)) 0)) by lia.
  set (n := length (Ring b)) in *. set (h := RingHead b) in *. set (k := RingLen b) in *.
  rewrite Nat.max_r in Hhead by lia.
  split.
  { unfold ring_wf, with_ring. simpl. rewrite length_insert. fold n.
    pose proof (Nat.mod_upper_bound (h + 1) n). destruct (Nat.ltb_spec k n); lia. }
  unfold abs, q_push. f_equal. cbn [q_sent].
  unfold ring_view, ring_start, with_ring. cbn [Ring RingHead RingLen].
  rewrite length_insert. fold n h k.
  rewrite length_app, length_map, length_seq. cbn [length].
  destruct (Nat.ltb_spec k n) as [Hk|Hk].
  - replace (k + 1 - n)%nat with 0%nat by lia. rewrite drop_0.
    replace (k + 1)%nat with (S k) by lia. rewrite seq_S, map_app, Nat.add_0_l. f_equal.
    + apply map_seq_ext. intros i Hi. unfold ring_at. rewrite length_insert. fold n.
      rewrite nth_insert_ne by idx_cases. f_equal. idx_cases.
    + simpl. f_equal. unfold ring_at. rewrite length_insert. fold n.
      replace ((_ + k) mod n)%nat with h by idx_cases. apply nth_insert_eq. done.
  - replace k with n in * by lia. replace (n + 1 - n)%nat with 1%nat by lia.
    destruct n as [|m] eqn:En; [lia|]. rewrite seq_S, map_app at 1. rewrite Nat.add_0_l.
    rewrite <- cons_seq. cbn [map app drop skipn]. rewrite drop_0. rewrite <- seq_shift, map_map.
    f_equal.
    + apply map_seq_ext. intros i Hi. unfold ring_at. rewrite length_insert.
      fold n. rewrite En. rewrite nth_insert_ne by idx_cases. f_equal. idx_cases.
    + simpl map. f_equal. unfold ring_at. rewrite length_insert. fold n. rewrite En.
      replace ((_ + m) mod S m)%nat with h by idx_cases. apply nth_insert_eq. lia.
Qed.

Lemma prune_loop_spec start seq n : (start < n)%nat -> forall todo i ring ring' p,
  length ring = n -> (i + todo <= n)%nat ->
  prune_loop start seq todo i ring = (ring', p) ->
  (i <= p <= i + todo)%nat /\ length ring' = n /\
  map (ring_at ring' start) (List.seq p (i + todo - p))
  = drop_before seq (map (ring_at ring start) (List.seq i todo)).
Proof.
  intros Hstart. induction todo as [|todo IH]; intros i ring ring' p Hlen Hi Hrun.
  { injection Hrun as <- <-. replace (i + 0 - i)%nat with 0%nat by lia. simpl.
    repeat split; lia || done. }
  simpl in Hrun. rewrite <- cons_seq. cbn [map drop_before].
  destruct (at_or_before seq (ring_at ring start i)).
  - apply IH in Hrun as (Hp & Hlen' & Hview); [|by rewrite length_insert|lia].
    split; [lia|]. split; [done|].
    replace (i + S todo - p)%nat with (S i + todo - p)%nat by lia. rewrite Hview. f_equal.
    apply map_seq_ext. intros j Hj. unfold ring_at. rewrite length_insert, Hlen.
    apply nth_insert_ne. idx_cases.
  - injection Hrun as <- <-. split; [lia|]. split; [done|].
    replace (i + S todo - i)%nat with (S todo) by lia. by rewrite <- cons_seq.
Qed.

Lemma shift_view ring start start' p len n :
  length ring = n -> (start < n)%nat -> (start' < n)%nat -> (p + len <= n)%nat ->
  ((start + p) mod n = start' mod n)%nat ->
  map (ring_at ring start') (List.seq 0 len) = map (ring_at ring start) (List.seq p len).
Proof.
  intros Hlen Hs Hs' Hp Heq. replace p with (p + 0)%nat at 2 by lia.
  rewrite <- (Nat.add_0_r p). generalize 0%nat. intros a. revert a.
  induction len as [|len IH]; intros a; [done|].
  rewrite <- !cons_seq. cbn [map]. f_equal.
  - unfold ring_at. rewrite Hlen. f_equal.
    rewrite <- (Nat.Div0.add_mod_idemp_l start' a), <- Heq, Nat.Div0.add_mod_idemp_l.
    f_equal. lia.
  - replace (S (p + a)) with (p + S a)%nat by lia. rewrite <- IH by lia. done.
Qed.

Lemma fold_last_filter seq (l : list SentSnapshot) : forall acc,
  fold_left (fun best e => if at_or_before seq e then Some e else best) l acc
  = match last (filter (fun e => at_or_before seq e = true) l) with
    | Some e => Some e
    | None => acc
    end.
Proof.
  induction l as [|e l IH]; intros acc; [done|]. cbn [fold_left]. rewrite IH.
  destruct (at_or_before seq e) eqn:E.
  - rewrite filter_cons_True, last_cons by done. by destruct (last _).
  - rewrite filter_cons_False by (by rewrite E). done.
Qed.

Lemma best_loop_spec ring start k seq :
  best_loop ring start k seq
  = last (filter (fun e => at_or_before seq e = true) (map (ring_at ring start) (List.seq 0 k))).
Proof.
  transitivity (fold_left (fun best e => if at_or_before seq e then Some e else best)
    (map (ring_at ring start) (List.seq 0 k)) None).
  - unfold best_loop. generalize (@None SentSnapshot).
    induction (List.seq 0 k) as [|i l IH]; intros acc; [done|]. apply IH.
  - rewrite fold_last_filter. by destruct (last _).
Qed.

Lemma start_lt b : (0 < length (Ring b))%nat -> (ring_start b < length (Ring b))%nat.
Proof. intros Hn. apply Nat.mod_upper_bound. lia. Qed.

Lemma advance_refines b seq : ring_wf b ->
  ring_wf (AdvanceTo b seq) /\ length (Ring (AdvanceTo b seq)) = length (Ring b) /\
  abs (AdvanceTo b seq) = q_advance seq (abs b).
Proof.
  intros [Hlen Hhead]. unfold AdvanceTo.
  destruct (Nat.eqb_spec (length (Ring b)) 0) as [Hn|Hn]; simpl orb.
  { split; [done|]. split; [done|]. unfold q_advance, abs, ring_view. cbn [q_sent].
    replace (RingLen b) with 0%nat by lia. done. }
  destruct (Nat.eqb_spec (RingLen b) 0) as [Hk|Hk].
  { split; [done|]. split; [done|]. unfold q_advance, abs, ring_view. cbn [q_sent].
    by rewrite Hk. }
  rewrite best_loop_spec. change (map _ _) with (ring_view b).
  unfold q_advance. cbn [q_sent abs].
  destruct (last _) as [best|]; [|done].
  pose proof (start_lt b) as Hs. destruct (prune_loop _ _ _ _ _) as [ring' p] eqn:E.
  apply (prune_loop_spec _ _ (length (Ring b))) in E as (Hp & Hl & Hv); [|lia..].
  rewrite Nat.add_0_l in *. set (n := length (Ring b)) in *.
  rewrite Nat.max_r in Hhead by lia. split; [|split; [done|]].
  - unfold ring_wf, with_ring. simpl. rewrite Hl.
    pose proof (Nat.mod_upper_bound (ring_start b + p + (RingLen b - p)) n). lia.
  - unfold abs, with_ring, ring_view at 1, ring_start. cbn [Acked Ring RingHead RingLen]. f_equal.
    rewrite Hl. etransitivity; [apply (shift_view ring' (ring_start b) _ p _ n)|exact Hv].
    + done.
    + lia.
    + apply Nat.mod_upper_bound. lia.
    + lia.
    + rewrite Nat.Div0.mod_mod. unfold ring_start. fold n. idx_cases.
Qed.

Lemma prune_refines b seq : ring_wf b ->
  ring_wf (PruneSentThrough b seq) /\ length (Ring (PruneSentThrough b seq)) = length (Ring b) /\
  abs (PruneSentThrough b seq) = q_prune seq (abs b).
Proof.
  intros [Hlen Hhead]. unfold PruneSentThrough.
  destruct (Nat.eqb_spec (length (Ring b)) 0) as [Hn|Hn]; simpl orb.
  { split; [done|]. split; [done|]. unfold q_prune, abs, ring_view. cbn [q_sent].
    replace (RingLen b) with 0%nat by lia. done. }
  destruct (Nat.eqb_spec (RingLen b) 0) as [Hk|Hk].
  { split; [done|]. split; [done|]. unfold q_prune, abs, ring_view. cbn [q_sent].
    by rewrite Hk. }
  pose proof (start_lt b) as Hs. destruct (prune_loop _ _ _ _ _) as [ring' p] eqn:E.
  apply (prune_loop_spec _ _ (length (Ring b))) in E as (Hp & Hl & Hv); [|lia..].
  rewrite Nat.add_0_l in *. set (n := length (Ring b)) in *.
  rewrite Nat.max_r in Hhead by lia. split; [|split; [done|]].
  - unfold ring_wf, with_ring. simpl. rewrite Hl. lia.
  - unfold abs, q_prune, with_ring. cbn [q_acked q_sent]. f_equal.
    unfold ring_view at 1, ring_start. cbn [Ring RingHead RingLen]. rewrite Hl.
    etransitivity; [apply (shift_view ring' (ring_start b) _ p _ n)|exact Hv].
    + done.
    + lia.
    + apply Nat.mod_upper_bound. lia.
    + lia.
    + rewrite Nat.Div0.mod_mod. unfold ring_start. fold n. idx_cases.
Qed.

(** ** A baseline run refines a queue run *)

Inductive RingOp :=
| OpPush (seq : Z) (data : bytes)
| OpAdvance (seq : Z)
| OpPrune (seq : Z)
| OpClear.

Definition ring_op (b : EntityBaseline) (o : RingOp) : EntityBaseline :=
  match o with
  | OpPush seq data => PushSent b seq data
  | OpAdvance seq => AdvanceTo b seq
  | OpPrune seq => PruneSentThrough b seq
  | OpClear => ClearSent b
  end.

Definition q_op (n : nat) (q : queue) (o : RingOp) : queue :=
  match o with
  | OpPush seq data => q_push n q (mkSent seq data)
  | OpAdvance seq => q_advance seq q
  | OpPrune seq => q_prune seq q
  | OpClear => q_clear q
  end.

Lemma ring_op_refines b o : ring_wf b -> (0 < length (Ring b))%nat ->
  ring_wf (ring_op b o) /\ length (Ring (ring_op b o)) = length (Ring b) /\
  abs (ring_op b o) = q_op (length (Ring b)) (abs b) o.
Proof.
  intros Hwf Hn. destruct o as [seq data|seq|seq|]; simpl.
  - destruct (push_refines b seq data Hwf Hn) as [H1 H2]. split; [done|]. split; [|done].
    unfold PushSent. destruct (_ =? _)%nat; [done|]. apply length_insert.
  - by apply advance_refines.
  - by apply prune_refines.
  - unfold ring_wf, ClearSent, with_ring. simpl. rewrite length_map. split; [lia|]. done.
Qed.

Lemma fresh_baseline_wf d : ring_wf (fresh_baseline d).
Proof. unfold ring_wf, fresh_baseline. simpl. lia. Qed.

(** A baseline's ring buffer is a bounded queue.  Whatever sequence of
    PushSent, AdvanceTo, PruneSentThrough and ClearSent runs on a fresh baseline
    of positive ring depth, the acknowledged snapshot and the retained snapshots
    (oldest first, read through the circular indices) are those of the abstract
    queue of that depth: a push drops the oldest when full, an acknowledgement
    promotes the newest snapshot at or before it in serial order and forgets
    what it covers, and no index ever leaves the buffer. *)
Theorem ring_refines_queue depth ops :
  0 < depth ->
  abs (fold_left ring_op ops (fresh_baseline depth))
  = fold_left (q_op (Z.to_nat depth)) ops (mkQueue None [])
  /\ ring_wf (fold_left ring_op ops (fresh_baseline depth)).
Proof.
  intros Hd.
  assert (length (Ring (fresh_baseline depth)) = Z.to_nat depth) as Hlen.
  { unfold fresh_baseline. simpl. destruct (Z.gtb_spec depth 0); [|lia]. apply length_replicate. }
  assert (abs (fresh_baseline depth) = mkQueue None []) as <- by done.
  generalize (fresh_baseline_wf depth), Hlen. generalize (fresh_baseline depth).
  induction ops as [|o ops IH]; intros b Hwf Hb; [done|]. cbn [fold_left].
  destruct (ring_op_refines b o) as (Hwf' & Hlen' & Habs); [done|lia|].
  rewrite Hb in Habs. rewrite <- Habs. apply IH; [done|lia].
Qed.

Definition wring_ops : list RingOp :=
  [OpPush 4294967295 [1]; OpPush 0 [2]; OpPush 1 [3]; OpPush 2 [4]; OpAdvance 0; OpPush 3 [5]].

Lemma ring_refines_queue_witness :
  abs (fold_left ring_op wring_ops (fresh_baseline 3))
  = fold_left (q_op 3) wring_ops (mkQueue None [])
  /\ ring_wf (fold_left ring_op wring_ops (fresh_baseline 3)).
Proof. apply (ring_refines_queue 3 wring_ops). lia. Defined.

Example ring_run :
  abs (fold_left ring_op wring_ops (fresh_baseline 3))
  = mkQueue (Some [2]) [mkSent 1 [3]; mkSent 2 [4]; mkSent 3 [5]].
Proof. vm_compute. reflexivity. Qed.
