(* ===== verification/Rendezvous.v ===== *)
(** * Rendezvous assignment of cells to hosts (pkg/universe/rendezvous.go)

    Highest-random-weight hashing: a cell goes to the host with the greatest
    score, the first eight bytes of SHA-256 of host, zero byte, cell.  SHA-256
    is written out (FIPS 180-4) so that scores evaluate.  The locality-biased
    variant ranks by a [float64] score with a 15% bonus for hosts that own a
    neighbour of the cell; a product and a sum are rounded separately. *)

From S2P Require Import Prelude Float32.

(** ** SHA-256 *)

Module Sha256.

Definition rotr (n x : Z) : Z := Z.lor (Z.shiftr x n) (u32 (Z.shiftl x (32 - n))).
Definition ch (x y z : Z) : Z := Z.lxor (Z.land x y) (Z.land (2 ^ 32 - 1 - x) z).
Definition maj (x y z : Z) : Z := Z.lxor (Z.lxor (Z.land x y) (Z.land x z)) (Z.land y z).
Definition bsig0 (x : Z) : Z := Z.lxor (Z.lxor (rotr 2 x) (rotr 13 x)) (rotr 22 x).
Definition bsig1 (x : Z) : Z := Z.lxor (Z.lxor (rotr 6 x) (rotr 11 x)) (rotr 25 x).
Definition ssig0 (x : Z) : Z := Z.lxor (Z.lxor (rotr 7 x) (rotr 18 x)) (Z.shiftr x 3).
Definition ssig1 (x : Z) : Z := Z.lxor (Z.lxor (rotr 17 x) (rotr 19 x)) (Z.shiftr x 10).

(** The constants as the standard defines them: the first 32 bits of the
    fractional parts of the cube roots of the first 64 primes, and of the square
    roots of the first eight.  The words are spot-checked against the published
    table below. *)
Definition primes (n : nat) : list Z :=
  take n (filter (fun p => forallb (fun d => negb (p mod Z.of_nat d =? 0))
                             (seq 2 (Z.to_nat p - 2)) = true) (map Z.of_nat (seq 2 400))).

(** The integer cube root, by bisection between 0 and [2^bits]. *)
Fixpoint icbrt (bits : nat) (lo n : Z) : Z :=
  match bits with
  | O => lo
  | S b => let mid := lo + 2 ^ Z.of_nat b in
           icbrt b (if mid * mid * mid <=? n then mid else lo) n
  end.

Definition K : list Z := Eval vm_compute in map (fun p => u32 (icbrt 40 0 (p * 2 ^ 96))) (primes 64).

Definition H0 : list Z := Eval vm_compute in map (fun p => u32 (Z.sqrt (p * 2 ^ 64))) (primes 8).

Example constants_published :
  (length K, nth 0 K 0, nth 17 K 0, nth 40 K 0, nth 63 K 0)
    = (64%nat, 0x428a2f98, 0xefbe4786, 0xa2bfe8a1, 0xc67178f2) /\
  (length H0, nth 0 H0 0, nth 5 H0 0) = (8%nat, 0x6a09e667, 0x9b05688c).
Proof. split; vm_compute; reflexivity. Qed.

Definition at_ (l : list Z) (i : nat) : Z := nth i l 0.

(** The message schedule, newest word first. *)
Fixpoint schedule (n : nat) (w : list Z) : list Z :=
  match n with
  | O => w
  | S n => schedule n
      (u32 (ssig1 (at_ w 1) + at_ w 6 + ssig0 (at_ w 14) + at_ w 15) :: w)
  end.

Definition round (s : list Z) (kw : Z * Z) : list Z :=
  match s with
  | [a; b; c; d; e; f; g; h] =>
      let t1 := u32 (h + bsig1 e + ch e f g + kw.1 + kw.2) in
      let t2 := u32 (bsig0 a + maj a b c) in
      [u32 (t1 + t2); a; b; c; u32 (d + t1); e; f; g]
  | _ => s
  end.

Fixpoint words (n : nat) (l : bytes) : list Z :=
  match n with
  | O => []
  | S n => be_val (take 4 l) :: words n (drop 4 l)
  end.

Definition block (s : list Z) (b : bytes) : list Z :=
  let w := rev (schedule 48 (rev (words 16 b))) in
  zip_with (fun x y => u32 (x + y)) s (fold_left round (zip K w) s).

(** Padding to a multiple of 64 bytes. *)
Definition pad (m : bytes) : bytes :=
  let n := length m in
  m ++ [128] ++ replicate ((119 - n mod 64) mod 64) 0 ++ be_bytes 8 (8 * Z.of_nat n).

Fixpoint blocks (n : nat) (s : list Z) (m : bytes) : list Z :=
  match n with
  | O => s
  | S n => blocks n (block s (take 64 m)) (drop 64 m)
  end.

Definition sum (m : bytes) : bytes :=
  let p := pad m in
  flat_map (be_bytes 4) (blocks (length p / 64) H0 p).

End Sha256.

Definition string_bytes (s : string) : bytes :=
  map (fun a => Z.of_N (Ascii.N_of_ascii a)) (String.list_ascii_of_string s).

Example sha256_abc :
  be_val (Sha256.sum (string_bytes "abc"))
  = 0xba7816bf8f01cfea414140de5dae2223b00361a396177a9cb410ff61f20015ad.
Proof. vm_compute. reflexivity. Qed.

Example sha256_two_blocks :
  be_val (Sha256.sum (string_bytes "abcdbcdecdefdefgefghfghighijhijkijkljklmklmnlmnomnopnopq"))
  = 0x248d6a61d20638b8e5c026930c3e6039a33ce45964ff2167f6ecedd419db06c1.
Proof. vm_compute. reflexivity. Qed.

(** ** Scores *)

Definition hrwScore (cellID hostID : string) : Z :=
  be_val (take 8 (Sha256.sum (string_bytes hostID ++ [0] ++ string_bytes cellID))).

(** The selection loop: [bestHost == ""] is the first iteration. *)
Definition pick_loop {S} (score : string -> S) (better : S -> S -> bool) (zero : S)
  (hosts : list string) : string * S :=
  fold_left (fun '(bestHost, bestScore) h =>
    let score := score h in
    if String.eqb bestHost "" || better score bestScore then (h, score)
    else (bestHost, bestScore)) hosts (""%string, zero).

Definition AssignCellToHost (cellID : string) (hosts : list string) : string :=
  match hosts with
  | [] => ""%string
  | _ => (pick_loop (hrwScore cellID) (fun a b => a >? b) 0 hosts).1
  end.

Definition AssignCellsAcrossHosts (cellIDs hostIDs : list string) : gmap string string :=
  fold_left (fun out cid => <[cid := AssignCellToHost cid hostIDs]> out) cellIDs ∅.

(** ** Locality *)

Definition f64_of_uint64 (n : Z) : spec_float := binary_normalize 53 1024 n 0 false.

(** The [float64] nearest to 0.15. *)
Definition localityBonus : spec_float := S754_finite false 5404319552844595 (-55).

Definition assignCellToHostWithLocality (cellID : string) (hosts : list string)
  (neighborsOf : string -> list string) (cellOwner : string -> string) : string :=
  match hosts with
  | [] => ""%string
  | _ =>
      let bonusHosts := filter (fun owner => owner <> ""%string)
                          (map cellOwner (neighborsOf cellID)) in
      (pick_loop (fun h =>
          let score := f64_of_uint64 (hrwScore cellID h) in
          if decide (h ∈ bonusHosts)
          then SFadd 53 1024 score (SFmul 53 1024 score localityBonus) else score)
        (fun a b => SFltb b a) (S754_zero false) hosts).1
  end.

(** [None] is the nil callback. *)
Definition AssignCellsAcrossHostsWithLocality (cellIDs hostIDs : list string)
  (neighborsOf : option (string -> list string)) (cellOwner : option (string -> string))
  : gmap string string :=
  match neighborsOf, cellOwner with
  | Some nf, Some ow =>
      fold_left (fun out cid =>
        <[cid := assignCellToHostWithLocality cid hostIDs nf ow]> out) cellIDs ∅
  | _, _ => AssignCellsAcrossHosts cellIDs hostIDs
  end.

(** ** What the loop selects

    The first host of greatest key, for scores compared through a key in a
    total order. *)

Section Pick.
Context {S : Type} (score : string -> S) (better : S -> S -> bool) (zero : S).
Context (key : string -> Z * Z * Z).
Context (Hkey : forall a b, better (score a) (score b) = true <-> key_lt (key b) (key a)).

Definition first_max (hosts : list string) (w : string) : Prop :=
  exists l1 l2, hosts = l1 ++ w :: l2 /\
    (forall h, h ∈ l1 -> key_lt (key h) (key w)) /\
    (forall h, h ∈ l2 -> ~ key_lt (key w) (key h)).

Lemma key_lt_trans a b c : key_lt a b -> key_lt b c -> key_lt a c.
Proof. unfold key_lt. lia. Qed.

Lemma key_lt_le_trans a b c : key_lt a b -> ~ key_lt c b -> key_lt a c.
Proof. unfold key_lt. lia. Qed.

Lemma pick_loop_first_max hosts :
  hosts <> [] -> Forall (fun h => h <> ""%string) hosts ->
  exists w, pick_loop score better zero hosts = (w, score w) /\ first_max hosts w /\
    w <> ""%string.
Proof.
  induction hosts as [|h hosts IH] using rev_ind; [done|]. intros _ Hne.
  apply Forall_app in Hne as [Hne Hh]. apply Forall_cons in Hh as [Hh _].
  unfold pick_loop in *. rewrite fold_left_app. simpl.
  destruct (decide (hosts = [])) as [-> |Hhosts].
  { simpl. exists h. split; [done|]. split; [|done]. exists [], []. split; [done|].
    split; intros x Hx; by apply elem_of_nil in Hx. }
  destruct (IH Hhosts Hne) as (w & -> & (l1 & l2 & -> & H1 & H2) & Hw).
  rewrite (proj2 (String.eqb_neq w "")) by done. simpl orb.
  destruct (better (score h) (score w)) eqn:E.
  - exists h. split; [done|]. split; [|done]. apply Hkey in E.
    exists (l1 ++ w :: l2), []. split; [done|]. split.
    + intros x [Hx|[-> |Hx]%elem_of_cons]%elem_of_app; [|done|].
      * eapply key_lt_trans; [by apply H1|done].
      * unfold key_lt in *. specialize (H2 x Hx). lia.
    + intros x Hx. by apply elem_of_nil in Hx.
  - exists w. split; [done|]. split; [|done]. exists l1, (l2 ++ [h]).
    split; [by rewrite <- app_assoc|]. split; [done|].
    intros x [Hx| ->%list_elem_of_singleton]%elem_of_app; [by apply H2|].
    intros Hlt. apply Hkey in Hlt. congruence.
Qed.

Lemma first_max_elem hosts w : first_max hosts w -> w ∈ hosts.
Proof. intros (l1 & l2 & -> & _). rewrite elem_of_app. right. by left. Qed.

Lemma first_max_greatest hosts w h : first_max hosts w -> h ∈ hosts -> ~ key_lt (key w) (key h).
Proof.
  intros (l1 & l2 & -> & H1 & H2) [Hh|[-> |Hh]%elem_of_cons]%elem_of_app.
  - specialize (H1 h Hh). unfold key_lt in *. lia.
  - unfold key_lt. lia.
  - by apply H2.
Qed.

Lemma first_max_unique hosts w w' : first_max hosts w -> first_max hosts w' -> w = w'.
Proof.
  intros (l1 & l2 & -> & H1 & H2) (m1 & m2 & E & M1 & M2).
  apply app_eq_inv in E as [(k & E1 & E2)|(k & E1 & E2)];
    destruct k as [|y k]; injection E2 as -> E2; try done; exfalso.
  - apply (M2 w); [|apply H1]; subst; rewrite elem_of_app; right; by left.
  - apply (H2 w'); [|apply M1]; subst; rewrite elem_of_app; right; by left.
Qed.

Lemma first_max_filter hosts w x :
  first_max hosts w -> w <> x -> first_max (filter (fun h => h <> x) hosts) w.
Proof.
  intros (l1 & l2 & -> & H1 & H2) Hne.
  exists (filter (fun h => h <> x) l1), (filter (fun h => h <> x) l2).
  rewrite filter_app, filter_cons_True by done. split; [done|].
  split; intros h [_ Hh]%list_elem_of_filter; auto.
Qed.

Lemma pick_stable hosts x :
  Forall (fun h => h <> ""%string) hosts -> hosts <> [] ->
  (pick_loop score better zero hosts).1 <> x ->
  (pick_loop score better zero (filter (fun h => h <> x) hosts)).1
  = (pick_loop score better zero hosts).1.
Proof.
  intros Hne Hnil Hx. destruct (pick_loop_first_max hosts Hnil Hne) as (w & E & Hw & _).
  rewrite E in *. simpl in *. pose proof (first_max_filter _ _ x Hw Hx) as Hw'.
  destruct (pick_loop_first_max (filter (fun h => h <> x) hosts)) as (w' & E' & Hm & _).
  - intros En. apply first_max_elem in Hw'. rewrite En in Hw'. by apply elem_of_nil in Hw'.
  - apply Forall_forall. intros h [_ Hh]%list_elem_of_filter.
    by apply (proj1 (Forall_forall _ _) Hne).
  - rewrite E'. simpl. by apply (first_max_unique _ _ _ Hm).
Qed.

Lemma pick_greatest hosts :
  Forall (fun h => h <> ""%string) hosts -> hosts <> [] ->
  (pick_loop score better zero hosts).1 ∈ hosts /\
  forall h, h ∈ hosts -> better (score h) (score (pick_loop score better zero hosts).1) = false.
Proof.
  intros Hne Hnil. destruct (pick_loop_first_max hosts Hnil Hne) as (w & -> & Hw & _). simpl.
  split; [by apply first_max_elem|]. intros h Hh. apply not_true_is_false.
  rewrite Hkey. by apply (first_max_greatest hosts).
Qed.
End Pick.

Lemma filter_absent (x : string) (l : list string) : x ∉ l -> filter (fun h => h <> x) l = l.
Proof.
  induction l as [|h l IH]; [done|]. intros [Hne Hx]%not_elem_of_cons.
  by rewrite filter_cons_True, IH by congruence.
Qed.

(** ** Keys of the two scores *)

Lemma take_be_val_nonneg n (l : bytes) : Forall is_byte l -> 0 <= be_val (take n l).
Proof.
  intros Hl. unfold be_val.
  pose proof (le_val_range (rev (take n l))) as Hr.
  destruct Hr as [Hr _]; [|done]. by apply Forall_rev, Forall_take.
Qed.

Lemma hrwScore_nonneg c h : 0 <= hrwScore c h.
Proof.
  apply take_be_val_nonneg. unfold Sha256.sum.
  induction (Sha256.blocks _ _ _) as [|w ws IH]; [constructor|].
  cbn [flat_map]. apply Forall_app. split; [apply be_bytes_is_byte|done].
Qed.

Lemma hrw_key c a b :
  (hrwScore c a >? hrwScore c b) = true <-> key_lt (0, 0, hrwScore c b) (0, 0, hrwScore c a).
Proof. unfold key_lt. simpl. rewrite Z.gtb_lt. lia. Qed.

Definition locality_score (cellID : string) (bonusHosts : list string) (h : string) : spec_float :=
  let score := f64_of_uint64 (hrwScore cellID h) in
  if decide (h ∈ bonusHosts)
  then SFadd 53 1024 score (SFmul 53 1024 score localityBonus) else score.

Lemma locality_score_sign c bonus h : sign_is false (locality_score c bonus h).
Proof.
  unfold locality_score. assert (sign_is false (f64_of_uint64 (hrwScore c h))) as Hs.
  { apply normalize_sign, hrwScore_nonneg. }
  destruct (decide _); [|done]. apply SFadd_sign; [done|]. by apply SFmul_sign.
Qed.

Lemma locality_key c bonus a b :
  SFltb (locality_score c bonus b) (locality_score c bonus a) = true
  <-> key_lt (fkey (locality_score c bonus b)) (fkey (locality_score c bonus a)).
Proof. apply SFltb_key; eapply sign_not_nan, locality_score_sign. Qed.

Definition bonus_of (cellID : string) (nf : string -> list string) (ow : string -> string)
  : list string :=
  filter (fun owner => owner <> ""%string) (map ow (nf cellID)).

Lemma AssignCellToHost_elem c hosts :
  hosts <> [] -> Forall (fun h => h <> ""%string) hosts -> AssignCellToHost c hosts ∈ hosts.
Proof.
  intros Hnil Hne. replace (AssignCellToHost c hosts)
    with (pick_loop (hrwScore c) (fun a b => a >? b) 0 hosts).1 by (by destruct hosts).
  by destruct (pick_greatest _ (fun a b => a >? b) 0 _ (hrw_key c) hosts Hne Hnil).
Qed.

(** ** Properties *)

(** Rendezvous assignment moves as little as it can.  For a non-empty
    roster of non-empty host names, the chosen host is on the roster and no host
    of the roster scores higher; when another host leaves, the cell stays where
    it is; when a host joins, the cell stays or moves to the new host. *)
Theorem rendezvous_stable c hosts x :
  hosts <> [] -> Forall (fun h => h <> ""%string) hosts ->
  (AssignCellToHost c hosts ∈ hosts /\
   forall h, h ∈ hosts -> hrwScore c h <= hrwScore c (AssignCellToHost c hosts)) /\
  (AssignCellToHost c hosts <> x ->
   AssignCellToHost c (filter (fun h => h <> x) hosts) = AssignCellToHost c hosts) /\
  (x <> ""%string -> x ∉ hosts ->
   AssignCellToHost c (hosts ++ [x]) = x \/
   AssignCellToHost c (hosts ++ [x]) = AssignCellToHost c hosts).
Proof.
  intros Hnil Hne.
  assert (forall hs, AssignCellToHost c hs
    = (pick_loop (hrwScore c) (fun a b => a >? b) 0 hs).1) as Heq by (by intros [|? ?]).
  rewrite !Heq. split; [|split].
  - destruct (pick_greatest _ (fun a b => a >? b) 0 _ (hrw_key c) hosts Hne Hnil) as [H1 H2].
    split; [done|]. intros h Hh. specialize (H2 h Hh). cbv beta in H2.
    rewrite Z.gtb_ltb in H2. by apply Z.ltb_ge in H2.
  - by apply (pick_stable _ (fun a b => a >? b) 0 _ (hrw_key c)).
  - intros Hx Hxin. destruct (decide ((pick_loop (hrwScore c) (fun a b => a >? b) 0 (hosts ++ [x])).1 = x))
      as [|Hneq]; [by left|]. right.
    rewrite <- (pick_stable _ (fun a b => a >? b) 0 _ (hrw_key c) (hosts ++ [x]) x); [|..|done].
    + rewrite filter_app, filter_cons_False, app_nil_r by tauto.
      by rewrite filter_absent.
    + apply Forall_app. by rewrite Forall_singleton.
    + by destruct hosts.
Qed.

(** The locality bias keeps both guarantees.  The biased choice is on the
    roster and no host beats its [float64] score, and a host that leaves without
    being the choice changes nothing, whatever the neighbour geometry and the
    current ownership. *)
Theorem locality_stable c hosts nf ow x :
  hosts <> [] -> Forall (fun h => h <> ""%string) hosts ->
  (assignCellToHostWithLocality c hosts nf ow ∈ hosts /\
   forall h, h ∈ hosts ->
     SFltb (locality_score c (bonus_of c nf ow) (assignCellToHostWithLocality c hosts nf ow))
           (locality_score c (bonus_of c nf ow) h) = false) /\
  (assignCellToHostWithLocality c hosts nf ow <> x ->
   assignCellToHostWithLocality c (filter (fun h => h <> x) hosts) nf ow
   = assignCellToHostWithLocality c hosts nf ow).
Proof.
  intros Hnil Hne.
  assert (forall hs, assignCellToHostWithLocality c hs nf ow
    = (pick_loop (locality_score c (bonus_of c nf ow)) (fun a b => SFltb b a)
         (S754_zero false) hs).1) as Heq by (by intros [|? ?]).
  rewrite !Heq. pose proof (locality_key c (bonus_of c nf ow)) as Hk. split.
  - apply (pick_greatest _ (fun a b => SFltb b a) _ _ Hk hosts Hne Hnil).
  - by apply (pick_stable _ (fun a b => SFltb b a) _ _ Hk).
Qed.

Definition whosts : list string := ["host-0"; "host-1"; "host-2"]%string.

Lemma rendezvous_stable_witness :
  (AssignCellToHost "cell_0_0" whosts ∈ whosts /\
   forall h, h ∈ whosts -> hrwScore "cell_0_0" h <= hrwScore "cell_0_0" (AssignCellToHost "cell_0_0" whosts)) /\
  (AssignCellToHost "cell_0_0" whosts <> "host-9"%string ->
   AssignCellToHost "cell_0_0" (filter (fun h => h <> "host-9"%string) whosts)
   = AssignCellToHost "cell_0_0" whosts) /\
  ("host-9"%string <> ""%string -> "host-9"%string ∉ whosts ->
   AssignCellToHost "cell_0_0" (whosts ++ ["host-9"%string]) = "host-9"%string \/
   AssignCellToHost "cell_0_0" (whosts ++ ["host-9"%string]) = AssignCellToHost "cell_0_0" whosts).
Proof. apply rendezvous_stable; [discriminate|]. repeat constructor; discriminate. Defined.

Lemma locality_stable_witness :
  let nf := fun _ : string => ["n1"; "n2"]%string in
  let ow := fun n : string => if String.eqb n "n1" then "host-2"%string else ""%string in
  (assignCellToHostWithLocality "cell_0_0" whosts nf ow ∈ whosts /\
   forall h, h ∈ whosts ->
     SFltb (locality_score "cell_0_0" (bonus_of "cell_0_0" nf ow)
              (assignCellToHostWithLocality "cell_0_0" whosts nf ow))
           (locality_score "cell_0_0" (bonus_of "cell_0_0" nf ow) h) = false) /\
  (assignCellToHostWithLocality "cell_0_0" whosts nf ow <> "host-1"%string ->
   assignCellToHostWithLocality "cell_0_0" (filter (fun h => h <> "host-1"%string) whosts) nf ow
   = assignCellToHostWithLocality "cell_0_0" whosts nf ow).
Proof. intros nf ow. apply locality_stable; [discriminate|]. repeat constructor; discriminate. Defined.
