(* ===== verification/HostRegistry.v ===== *)
(** * Host registry (pkg/universe/host_registry.go)

    The coordinator's view of every registered host: its state, last heartbeat
    and owned cells.  Each method holds the registry
    lock, so each is one step.  [time.Now()] is an argument, in nanoseconds.  A
    [range] over a map takes its order as an argument. *)

From S2P Require Import Prelude.

Inductive RemoteHostState :=
| RemoteHostUnknown
| RemoteHostRegistered
| RemoteHostLive
| RemoteHostDead
| RemoteHostLeaving.

#[export] Instance RemoteHostState_eq_dec : EqDecision RemoteHostState.
Proof. solve_decision. Defined.

Record RemoteHost := mkRemoteHost {
  ID : string;
  GrpcAddr : string;
  RegisteredAt : Z;
  LastHeartbeat : Z;
  State : RemoteHostState;
  OwnedCells : gset string;
  Local : bool;
  HasPlayerDB : bool;
  ServiceOnly : bool
}.

Abbreviation HostRegistry := (gmap string RemoteHost).

Definition NewHostRegistry : HostRegistry := ∅.

Definition with_state (h : RemoteHost) (s : RemoteHostState) : RemoteHost :=
  mkRemoteHost (ID h) (GrpcAddr h) (RegisteredAt h) (LastHeartbeat h) s (OwnedCells h)
    (Local h) (HasPlayerDB h) (ServiceOnly h).

Definition with_cells (h : RemoteHost) (cells : gset string) : RemoteHost :=
  mkRemoteHost (ID h) (GrpcAddr h) (RegisteredAt h) (LastHeartbeat h) (State h) cells
    (Local h) (HasPlayerDB h) (ServiceOnly h).

Definition Register (now : Z) (r : HostRegistry) (hostID grpcAddr : string)
  (hasPlayerDB serviceOnly : bool) : HostRegistry :=
  <[hostID := mkRemoteHost hostID grpcAddr now now RemoteHostRegistered ∅ false
                hasPlayerDB serviceOnly]> r.

Definition RegisterLocal (now : Z) (r : HostRegistry) (hostID grpcAddr : string)
  (ownedCells : list string) (hasPlayerDB : bool) : HostRegistry :=
  <[hostID := mkRemoteHost hostID grpcAddr now now RemoteHostLive (list_to_set ownedCells) true
                hasPlayerDB false]> r.

Definition Touch (now : Z) (r : HostRegistry) (hostID : string) : HostRegistry :=
  match r !! hostID with
  | None => r
  | Some h =>
      <[hostID := mkRemoteHost (ID h) (GrpcAddr h) (RegisteredAt h) now
                    (if decide (State h = RemoteHostRegistered) then RemoteHostLive else State h)
                    (OwnedCells h) (Local h) (HasPlayerDB h) (ServiceOnly h)]> r
  end.

Definition MarkDead (r : HostRegistry) (hostID : string) : HostRegistry :=
  match r !! hostID with
  | Some h => <[hostID := with_state h RemoteHostDead]> r
  | None => r
  end.

Definition MarkLeaving (r : HostRegistry) (hostID : string) : HostRegistry :=
  match r !! hostID with
  | Some h => <[hostID := with_state h RemoteHostLeaving]> r
  | None => r
  end.

Definition Remove (r : HostRegistry) (hostID : string) : HostRegistry := delete hostID r.

(** [Get] returns a deep copy, which is the value itself. *)
Definition Get (r : HostRegistry) (hostID : string) : option RemoteHost := r !! hostID.

Definition LiveHosts (order : list string) (r : HostRegistry) : list RemoteHost :=
  omap (fun k => r !! k) order.

Definition cellBearingHosts (order : list string) (r : HostRegistry) : list RemoteHost :=
  filter (fun h => ServiceOnly h = false) (LiveHosts order r).

(** The error result is the unknown host. *)
Definition AssignCell (r : HostRegistry) (hostID cellID : string) : option HostRegistry :=
  match r !! hostID with
  | None => None
  | Some h => Some (<[hostID := with_cells h ({[cellID]} ∪ OwnedCells h)]> r)
  end.

Definition ReleaseCell (r : HostRegistry) (hostID cellID : string) : HostRegistry :=
  match r !! hostID with
  | Some h => <[hostID := with_cells h (OwnedCells h ∖ {[cellID]})]> r
  | None => r
  end.

(** The first owner in iteration order, or the empty string. *)
Fixpoint HostForCell (order : list string) (r : HostRegistry) (cellID : string) : string :=
  match order with
  | [] => ""
  | k :: order =>
      match r !! k with
      | Some h => if decide (cellID ∈ OwnedCells h) then k else HostForCell order r cellID
      | None => HostForCell order r cellID
      end
  end.

Definition SetHasPlayerDB (r : HostRegistry) (hostID : string) (b : bool) : HostRegistry :=
  match r !! hostID with
  | Some h => <[hostID := mkRemoteHost (ID h) (GrpcAddr h) (RegisteredAt h) (LastHeartbeat h)
                            (State h) (OwnedCells h) (Local h) b (ServiceOnly h)]> r
  | None => r
  end.

Definition owns (r : HostRegistry) (hostID cellID : string) : Prop :=
  exists h, r !! hostID = Some h /\ cellID ∈ OwnedCells h.

(** The map orders: every key once. *)
Definition order_of (r : HostRegistry) (order : list string) : Prop :=
  NoDup order /\ forall k, k ∈ order <-> is_Some (r !! k).

Section HostForCell.
Lemma HostForCell_owner r cellID order k :
  HostForCell order r cellID = k -> k <> ""%string -> owns r k cellID /\ k ∈ order.
Proof.
  induction order as [|k0 order IH]; simpl; [by intros <-|]. intros Hk Hne.
  destruct (r !! k0) as [h|] eqn:E; [destruct (decide _) as [Hin|_]|].
  - subst. split; [by exists h|by left].
  - destruct (IH Hk Hne). split; [done|by right].
  - destruct (IH Hk Hne). split; [done|by right].
Qed.

Lemma HostForCell_none r cellID order :
  (forall k, k ∈ order -> k <> ""%string) ->
  HostForCell order r cellID = ""%string -> forall k, k ∈ order -> ~ owns r k cellID.
Proof.
  induction order as [|k0 order IH]; simpl; intros Hne Hk k Hin; [by apply elem_of_nil in Hin|].
  assert (k0 <> ""%string) by (apply Hne; by left).
  assert (forall k, k ∈ order -> k <> ""%string) as Hne' by (intros; apply Hne; by right).
  apply elem_of_cons in Hin as [-> |Hin].
  - intros (h & E & Hc). rewrite E in Hk. by rewrite decide_True in Hk.
  - destruct (r !! k0) as [h0|]; [destruct (decide _); [done|]|]; by apply IH.
Qed.
End HostForCell.

(** ** Ownership *)

Lemma owns_AssignCell r hostID cellID r' k x :
  AssignCell r hostID cellID = Some r' ->
  owns r' k x <-> owns r k x \/ (k = hostID /\ x = cellID).
Proof.
  unfold AssignCell, owns. destruct (r !! hostID) as [h|] eqn:E; [|done]. intros [= <-].
  rewrite lookup_insert. destruct (decide (hostID = k)) as [<-|]; [|naive_solver].
  rewrite E. split.
  - intros (h' & [= <-] & Hx). simpl in Hx. apply elem_of_union in Hx as [->%elem_of_singleton|Hx]; eauto.
  - intros [(h' & [= <-] & Hx)|[_ ->]]; eexists; (split; [done|]); simpl; set_solver.
Qed.

Lemma owns_ReleaseCell r hostID cellID k x :
  owns (ReleaseCell r hostID cellID) k x <-> owns r k x /\ ~ (k = hostID /\ x = cellID).
Proof.
  unfold ReleaseCell, owns. destruct (r !! hostID) as [h|] eqn:E.
  - rewrite lookup_insert. destruct (decide (hostID = k)) as [<-|]; [|naive_solver].
    rewrite E. split.
    + intros (h' & [= <-] & Hx). simpl in Hx. set_solver.
    + intros [(h' & [= <-] & Hx) Hne]. eexists. split; [done|]. simpl. set_solver.
  - split; [|naive_solver]. intros (h' & E' & Hx). split; [eauto|]. intros [-> _]. congruence.
Qed.

Lemma AssignCell_dom r hostID cellID r' k :
  AssignCell r hostID cellID = Some r' -> is_Some (r' !! k) <-> is_Some (r !! k).
Proof.
  unfold AssignCell. destruct (r !! hostID) eqn:E; [|done]. intros [= <-].
  rewrite lookup_insert. case_decide; [|done]. subst. by rewrite E.
Qed.

Lemma ReleaseCell_dom r hostID cellID k :
  is_Some (ReleaseCell r hostID cellID !! k) <-> is_Some (r !! k).
Proof.
  unfold ReleaseCell. destruct (r !! hostID) eqn:E; [|done].
  rewrite lookup_insert. case_decide; [|done]. subst. by rewrite E.
Qed.

(** Moving cells does not touch a host's state, heartbeat or identity. *)
Definition life (h : RemoteHost) := (ID h, State h, LastHeartbeat h, Local h, ServiceOnly h).

Lemma AssignCell_life r hostID cellID r' k :
  AssignCell r hostID cellID = Some r' -> life <$> r' !! k = life <$> r !! k.
Proof.
  unfold AssignCell. destruct (r !! hostID) eqn:E; [|done]. intros [= <-].
  rewrite lookup_insert. case_decide; [|done]. subst. by rewrite E.
Qed.

Lemma ReleaseCell_life r hostID cellID k :
  life <$> ReleaseCell r hostID cellID !! k = life <$> r !! k.
Proof.
  unfold ReleaseCell. destruct (r !! hostID) eqn:E; [|done].
  rewrite lookup_insert. case_decide; [|done]. subst. by rewrite E.
Qed.
