(* ===== verification/GatewayRegistry.v ===== *)
(** * Gateway registry (pkg/universe/gateway_registry.go)

    The coordinator's view of every registered gateway and the sessions it
    terminates, in the same style as the host registry. *)

From S2P Require Import Prelude SessionRoutes.

Inductive RemoteGatewayState :=
| RemoteGatewayUnknown
| RemoteGatewayRegistered
| RemoteGatewayLive
| RemoteGatewayDead
| RemoteGatewayLeaving.

#[export] Instance RemoteGatewayState_eq_dec : EqDecision RemoteGatewayState.
Proof. solve_decision. Defined.

Record RemoteGateway := mkRemoteGateway {
  ID : string;
  WSAddr : string;
  GRPCAddr : string;
  RegisteredAt : Z;
  LastHeartbeat : Z;
  State : RemoteGatewayState;
  Local : bool;
  Sessions : gset SessionKey
}.

Abbreviation GatewayRegistry := (gmap string RemoteGateway).

Definition NewGatewayRegistry : GatewayRegistry := ∅.

Definition with_state (g : RemoteGateway) (s : RemoteGatewayState) : RemoteGateway :=
  mkRemoteGateway (ID g) (WSAddr g) (GRPCAddr g) (RegisteredAt g) (LastHeartbeat g) s (Local g)
    (Sessions g).

Definition with_sessions (g : RemoteGateway) (s : gset SessionKey) : RemoteGateway :=
  mkRemoteGateway (ID g) (WSAddr g) (GRPCAddr g) (RegisteredAt g) (LastHeartbeat g) (State g)
    (Local g) s.

Definition Register (now : Z) (r : GatewayRegistry) (gatewayID wsAddr grpcAddr : string)
  : GatewayRegistry :=
  <[gatewayID := mkRemoteGateway gatewayID wsAddr grpcAddr now now RemoteGatewayRegistered false ∅]> r.

Definition RegisterLocal (now : Z) (r : GatewayRegistry) (gatewayID grpcAddr : string)
  : GatewayRegistry :=
  <[gatewayID := mkRemoteGateway gatewayID "" grpcAddr now now RemoteGatewayLive true ∅]> r.

Definition Touch (now : Z) (r : GatewayRegistry) (gatewayID : string) : GatewayRegistry :=
  match r !! gatewayID with
  | None => r
  | Some g =>
      <[gatewayID := mkRemoteGateway (ID g) (WSAddr g) (GRPCAddr g) (RegisteredAt g) now
          (if decide (State g = RemoteGatewayRegistered) then RemoteGatewayLive else State g)
          (Local g) (Sessions g)]> r
  end.

Definition MarkDead (r : GatewayRegistry) (gatewayID : string) : GatewayRegistry :=
  match r !! gatewayID with
  | Some g => <[gatewayID := with_state g RemoteGatewayDead]> r
  | None => r
  end.

Definition MarkLeaving (r : GatewayRegistry) (gatewayID : string) : GatewayRegistry :=
  match r !! gatewayID with
  | Some g => <[gatewayID := with_state g RemoteGatewayLeaving]> r
  | None => r
  end.

Definition AddSession (r : GatewayRegistry) (gatewayID : string) (key : SessionKey)
  : GatewayRegistry :=
  match r !! gatewayID with
  | None => r
  | Some g => <[gatewayID := with_sessions g ({[key]} ∪ Sessions g)]> r
  end.

Definition RemoveSession (r : GatewayRegistry) (gatewayID : string) (key : SessionKey)
  : GatewayRegistry :=
  match r !! gatewayID with
  | None => r
  | Some g => <[gatewayID := with_sessions g (Sessions g ∖ {[key]})]> r
  end.

Definition Remove (r : GatewayRegistry) (gatewayID : string) : GatewayRegistry :=
  delete gatewayID r.

Definition Get (r : GatewayRegistry) (gatewayID : string) : option RemoteGateway := r !! gatewayID.

Definition LiveGateways (order : list string) (r : GatewayRegistry) : list RemoteGateway :=
  omap (fun k => r !! k) order.
