(* ===== verification/Services.v ===== *)
(** * Service roster and routing (pkg/service/registry_coord.go, router.go,
      pkg/universe/service_event_router.go)

    [CoordRegistry] is the coordinator's roster of service instances; its
    snapshot travels in every PeerList, and each gateway rebuilds its
    [RoutingIndex] from it.  [serviceEventRouter] is the subscription table of
    the service event bus.  Op codes are [uint32]; the iteration order of a map
    is an argument where it can matter. *)

From S2P Require Import Prelude.

(** Go compares strings bytewise. *)
Definition str_le (a b : string) : Prop := String.leb a b = true.
#[export] Instance str_le_dec : RelDecision str_le.
Proof. intros a b. unfold Decision, str_le. destruct (String.leb a b); [by left|by right]. Defined.

Definition sort_strings : list string -> list string := merge_sort str_le.

(** ** The coordinator's roster *)

Record CoordInstance := mkInstance {
  Kind : string;
  InstanceID : string;
  HostID : string;
  OpCodes : list Z;
  JoinedAt : Z
}.

Record CoordRegistry := mkCoordRegistry {
  instances : gmap string CoordInstance;
  byKind : gmap string (list string);
  opToKind : gmap Z string;
  epoch : Z
}.

Definition NewCoordRegistry : CoordRegistry := mkCoordRegistry ∅ ∅ ∅ 0.

Inductive RegisterError :=
| ErrDuplicateInstance
| ErrOpCodesDiffer
| ErrOpCodeClaimed.

Definition sameCodeSet (a b : list Z) : bool :=
  if negb (length a =? length b)%nat then false
  else forallb (fun c => bool_decide (c ∈ a)) b.

(** [r.instances[existingIDs[0]].OpCodes], nil for a missing entry. *)
Definition codes_of (r : CoordRegistry) (id : string) : list Z :=
  match instances r !! id with Some i => OpCodes i | None => [] end.

Definition claim_codes (codes : list Z) (kind : string) (m : gmap Z string) : gmap Z string :=
  fold_left (fun m c => <[c := kind]> m) codes m.

Definition admissible (r : CoordRegistry) (inst : CoordInstance) : result RegisterError unit :=
  if decide (is_Some (instances r !! InstanceID inst)) then Err ErrDuplicateInstance
  else
    match default [] (byKind r !! Kind inst) with
    | id0 :: _ =>
        if sameCodeSet (codes_of r id0) (OpCodes inst) then Ok tt else Err ErrOpCodesDiffer
    | [] =>
        if existsb (fun code => match opToKind r !! code with
                                | Some owner => negb (String.eqb owner (Kind inst))
                                | None => false
                                end) (OpCodes inst)
        then Err ErrOpCodeClaimed else Ok tt
    end.

Definition Register (r : CoordRegistry) (inst : CoordInstance) : result RegisterError CoordRegistry :=
  let! _ := admissible r inst in
  Ok (mkCoordRegistry
        (<[InstanceID inst := inst]> (instances r))
        (<[Kind inst := sort_strings (default [] (byKind r !! Kind inst) ++ [InstanceID inst])]>
           (byKind r))
        (claim_codes (OpCodes inst) (Kind inst) (opToKind r))
        (u64 (epoch r + 1))).

Definition release_codes (codes : list Z) (m : gmap Z string) : gmap Z string :=
  fold_left (fun m c => delete c m) codes m.

Definition Unregister (r : CoordRegistry) (instanceID : string) : CoordRegistry :=
  match instances r !! instanceID with
  | None => r
  | Some inst =>
      let out := filter (fun id => id <> instanceID) (default [] (byKind r !! Kind inst)) in
      if (length out =? 0)%nat
      then mkCoordRegistry (delete instanceID (instances r)) (delete (Kind inst) (byKind r))
             (release_codes (OpCodes inst) (opToKind r)) (u64 (epoch r + 1))
      else mkCoordRegistry (delete instanceID (instances r)) (<[Kind inst := out]> (byKind r))
             (opToKind r) (u64 (epoch r + 1))
  end.

(** The ids are collected first; [order] is the order of that iteration. *)
Definition UnregisterByHost (order : list string) (r : CoordRegistry) (hostID : string)
  : CoordRegistry :=
  let ids := filter (fun id => match instances r !! id with
                               | Some i => String.eqb (HostID i) hostID
                               | None => false
                               end = true) order in
  fold_left Unregister ids r.

Definition inst_le (a b : CoordInstance) : Prop :=
  if decide (Kind a = Kind b) then str_le (InstanceID a) (InstanceID b)
  else str_le (Kind a) (Kind b).
#[export] Instance inst_le_dec : RelDecision inst_le.
Proof. intros a b. unfold inst_le. destruct (decide _); apply _. Defined.

Definition Snapshot (r : CoordRegistry) : list CoordInstance :=
  merge_sort inst_le (map snd (map_to_list (instances r))).

Definition Epoch (r : CoordRegistry) : Z := epoch r.

Definition LookupByOpCode (r : CoordRegistry) (opCode : Z) : string :=
  default ""%string (opToKind r !! opCode).

Definition InstancesOfKind (r : CoordRegistry) (kind : string) : list CoordInstance :=
  omap (fun id => instances r !! id) (default [] (byKind r !! kind)).

Definition Kinds (r : CoordRegistry) : list string :=
  sort_strings (map fst (map_to_list (byKind r))).

(** ** The gateway's index *)

Record InstanceRoute := mkRoute { ir_InstanceID : string; ir_HostID : string }.

Record RoutingIndex := mkIndex {
  ri_opToKind : gmap Z string;
  ri_instances : gmap string (list InstanceRoute)
}.

Definition NewRoutingIndex : RoutingIndex := mkIndex ∅ ∅.

Inductive ApplyError := ErrTwoKinds (code : Z) (k1 k2 : string).

Fixpoint apply_codes (kind : string) (codes : list Z) (op : gmap Z string)
  : result ApplyError (gmap Z string) :=
  match codes with
  | [] => Ok op
  | code :: codes =>
      match op !! code with
      | Some owner =>
          if String.eqb owner kind then apply_codes kind codes (<[code := kind]> op)
          else Err (ErrTwoKinds code owner kind)
      | None => apply_codes kind codes (<[code := kind]> op)
      end
  end.

Fixpoint apply_records (records : list CoordInstance) (op : gmap Z string)
  (inst : gmap string (list InstanceRoute))
  : result ApplyError (gmap Z string * gmap string (list InstanceRoute)) :=
  match records with
  | [] => Ok (op, inst)
  | rec :: records =>
      let! op := apply_codes (Kind rec) (OpCodes rec) op in
      apply_records records op
        (<[Kind rec := default [] (inst !! Kind rec)
                       ++ [mkRoute (InstanceID rec) (HostID rec)]]> inst)
  end.

Definition route_le (a b : InstanceRoute) : Prop := str_le (ir_InstanceID a) (ir_InstanceID b).
#[export] Instance route_le_dec : RelDecision route_le.
Proof. intros a b. unfold route_le. apply _. Defined.

(** On an error the index keeps its old contents. *)
Definition Apply (r : RoutingIndex) (records : list CoordInstance) : result ApplyError RoutingIndex :=
  let! oi := apply_records records ∅ ∅ in
  Ok (mkIndex (fst oi) (merge_sort route_le <$> snd oi)).

Definition LookupKind (r : RoutingIndex) (opCode : Z) : string :=
  default ""%string (ri_opToKind r !! opCode).

(** [connID % uint32(len(insts))]. *)
Definition PickInstance (r : RoutingIndex) (kind : string) (connID : Z) : option InstanceRoute :=
  match default [] (ri_instances r !! kind) with
  | [] => None
  | insts => insts !! Z.to_nat (connID mod u32 (Z.of_nat (length insts)))
  end.

(** ** The event bus table *)

Abbreviation serviceEventRouter := (gmap string (gset string)).

Definition UpdateProcess (r : serviceEventRouter) (procID : string) (typeNames : list string)
  : serviceEventRouter :=
  match typeNames with
  | [] => delete procID r
  | _ => <[procID := list_to_set typeNames]> r
  end.

Definition RemoveProcess (r : serviceEventRouter) (procID : string) : serviceEventRouter :=
  delete procID r.

(** [Snapshot()[typeName]]: the processes subscribed to a type, sorted. *)
Definition SubscribersOf (r : serviceEventRouter) (typeName : string) : list string :=
  sort_strings (map fst (filter (fun kv : string * gset string => typeName ∈ kv.2)
                           (map_to_list r))).

(** ** The roster invariant *)

Record roster_wf (r : CoordRegistry) : Prop := mkRosterWf {
  wf_id : forall id i, instances r !! id = Some i -> InstanceID i = id;
  wf_nodup : forall k, NoDup (default [] (byKind r !! k));
  wf_kind : forall k id, id ∈ default [] (byKind r !! k) <->
              exists i, instances r !! id = Some i /\ Kind i = k;
  wf_codes : forall id i c, instances r !! id = Some i -> c ∈ OpCodes i ->
               opToKind r !! c = Some (Kind i)
}.

Section Codes.
Lemma claim_codes_lookup codes kind m c :
  claim_codes codes kind m !! c = if decide (c ∈ codes) then Some kind else m !! c.
Proof.
  revert m. unfold claim_codes. induction codes as [|c0 codes IH]; intros m; cbn [fold_left].
  { rewrite decide_False; [done|]. apply not_elem_of_nil. }
  rewrite IH. destruct (decide (c ∈ codes)) as [|Hn].
  { by rewrite decide_True by (by right). }
  destruct (decide (c = c0)) as [-> |Hne].
  - rewrite lookup_insert, decide_True by done. by rewrite decide_True by (by left).
  - rewrite lookup_insert_ne by congruence. rewrite decide_False; [done|].
    rewrite elem_of_cons. tauto.
Qed.

Lemma release_codes_lookup codes m c : c ∉ codes -> release_codes codes m !! c = m !! c.
Proof.
  revert m. unfold release_codes. induction codes as [|c0 codes IH]; intros m Hc; [done|].
  apply not_elem_of_cons in Hc as [Hne Hc]. cbn [fold_left].
  rewrite IH by done. by rewrite lookup_delete_ne by congruence.
Qed.

Lemma sameCodeSet_sub a b c : sameCodeSet a b = true -> c ∈ b -> c ∈ a.
Proof.
  unfold sameCodeSet. destruct (negb _); [done|]. intros Hf Hc.
  rewrite forallb_forall in Hf. apply list_elem_of_In, Hf in Hc.
  by apply bool_decide_eq_true in Hc.
Qed.
End Codes.

Lemma new_roster_wf : roster_wf NewCoordRegistry.
Proof.
  split; unfold NewCoordRegistry; cbn [instances byKind opToKind].
  - intros id i Hi. by apply lookup_empty_Some in Hi.
  - intros k. rewrite lookup_empty. apply NoDup_nil_2.
  - intros k id. rewrite lookup_empty. split; [intros H; by apply elem_of_nil in H|].
    intros (i & Hi & _). by apply lookup_empty_Some in Hi.
  - intros id i c Hi. by apply lookup_empty_Some in Hi.
Qed.

(** A code of an admissible instance is free or already its kind's. *)
Lemma admissible_codes r inst c k :
  roster_wf r -> admissible r inst = Ok tt -> c ∈ OpCodes inst ->
  opToKind r !! c = Some k -> k = Kind inst.
Proof.
  intros Hwf Hadm Hc Hk. unfold admissible in Hadm.
  destruct (decide _); [done|].
  destruct (default [] (byKind r !! Kind inst)) as [|id0 ids] eqn:El.
  - destruct (existsb _ _) eqn:Ex; [done|].
    destruct (String.eqb_spec k (Kind inst)) as [|Hne]; [done|]. exfalso.
    rewrite (proj2 (existsb_exists _ _)) in Ex; [done|]. exists c.
    split; [by apply list_elem_of_In|]. rewrite Hk. by apply negb_true_iff, String.eqb_neq.
  - destruct (sameCodeSet _ _) eqn:Es; [|done].
    assert (id0 ∈ default [] (byKind r !! Kind inst)) as Hin by (rewrite El; by left).
    apply (wf_kind r Hwf) in Hin as (i & Hi & Hki).
    apply (sameCodeSet_sub _ _ c) in Es; [|done]. unfold codes_of in Es. rewrite Hi in Es.
    pose proof (wf_codes r Hwf id0 i c Hi Es). congruence.
Qed.

Lemma register_wf r inst r' : roster_wf r -> Register r inst = Ok r' -> roster_wf r'.
Proof.
  intros Hwf. unfold Register. destruct (admissible r inst) as [[]|] eqn:Hadm; [|done].
  intros [= <-].
  assert (instances r !! InstanceID inst = None) as Hfresh.
  { unfold admissible in Hadm. destruct (decide _) as [|Hn]; [done|]. by apply eq_None_not_Some. }
  assert (forall k, default [] (<[Kind inst := sort_strings
      (default [] (byKind r !! Kind inst) ++ [InstanceID inst])]> (byKind r) !! k)
    ≡ₚ default [] (byKind r !! k) ++ (if decide (k = Kind inst) then [InstanceID inst] else []))
    as Hperm.
  { intros k. destruct (decide (k = Kind inst)) as [-> |Hne].
    - rewrite lookup_insert, decide_True by done. apply merge_sort_Permutation.
    - by rewrite lookup_insert_ne, app_nil_r by congruence. }
  split; cbn [instances byKind opToKind].
  - intros id i. rewrite lookup_insert. destruct (decide _) as [<- |]; [by intros [= <-]|].
    apply (wf_id r Hwf).
  - intros k. rewrite Hperm. apply NoDup_app. split; [apply (wf_nodup r Hwf)|]. split.
    + intros id Hid. destruct (decide _); [|apply not_elem_of_nil].
      rewrite list_elem_of_singleton. intros ->.
      apply (wf_kind r Hwf) in Hid as (i & Hi & _). congruence.
    + destruct (decide _); [apply NoDup_singleton|apply NoDup_nil_2].
  - intros k id. rewrite Hperm, elem_of_app, (wf_kind r Hwf). split.
    + intros [(i & Hi & Hk)|Hid].
      * exists i. rewrite lookup_insert_ne; [done|]. intros <-. congruence.
      * destruct (decide _) as [-> |]; [|by apply elem_of_nil in Hid].
        apply list_elem_of_singleton in Hid as ->. exists inst.
        by rewrite lookup_insert, decide_True.
    + intros (i & Hi & Hk). rewrite lookup_insert in Hi. destruct (decide _) as [<- |Hne].
      * injection Hi as <-. right. rewrite decide_True by done. by left.
      * left. by exists i.
  - intros id i c Hi Hc. rewrite claim_codes_lookup. rewrite lookup_insert in Hi.
    destruct (decide (InstanceID inst = id)) as [<- |Hne].
    + injection Hi as <-. by rewrite decide_True.
    + pose proof (wf_codes r Hwf id i c Hi Hc) as Ho. destruct (decide _); [|done].
      f_equal. symmetry. by eapply admissible_codes.
Qed.

Lemma unregister_wf r id0 : roster_wf r -> roster_wf (Unregister r id0).
Proof.
  intros Hwf. unfold Unregister. destruct (instances r !! id0) as [inst|] eqn:E0; [|done].
  set (out := filter _ _).
  assert (forall id, id ∈ out <-> exists i, delete id0 (instances r) !! id = Some i /\ Kind i = Kind inst)
    as Hout.
  { intros id. unfold out. rewrite list_elem_of_filter, (wf_kind r Hwf). split.
    - intros [Hne (i & Hi & Hk)]. exists i. by rewrite lookup_delete_ne by congruence.
    - intros (i & Hi & Hk). apply lookup_delete_Some in Hi as [Hne Hi]. split; [congruence|by exists i]. }
  assert (NoDup out) as Hndo by apply NoDup_filter, (wf_nodup r Hwf).
  assert (forall k id, k <> Kind inst -> id ∈ default [] (byKind r !! k) <->
    exists i, delete id0 (instances r) !! id = Some i /\ Kind i = k) as Hother.
  { intros k id Hk. rewrite (wf_kind r Hwf). split.
    - intros (i & Hi & Hki). exists i. rewrite lookup_delete_ne; [done|]. intros <-. congruence.
    - intros (i & [_ Hi]%lookup_delete_Some & Hki). by exists i. }
  destruct (Nat.eqb_spec (length out) 0) as [Hlen|Hlen]; split; cbn [instances byKind opToKind];
    try (intros id i [_ Hi]%lookup_delete_Some; by apply (wf_id r Hwf)).
  - intros k. destruct (decide (k = Kind inst)) as [-> |Hne].
    + rewrite lookup_delete, decide_True by done. apply NoDup_nil_2.
    + rewrite lookup_delete_ne by congruence. apply (wf_nodup r Hwf).
  - intros k id. destruct (decide (k = Kind inst)) as [-> |Hne].
    + rewrite lookup_delete, decide_True by done. rewrite <- Hout.
      apply nil_length_inv in Hlen. by rewrite Hlen.
    + rewrite lookup_delete_ne by congruence. by apply Hother.
  - intros id i c Hd Hc. pose proof Hd as [Hne Hi]%lookup_delete_Some.
    pose proof (wf_codes r Hwf id i c Hi Hc) as Ho.
    rewrite release_codes_lookup; [done|]. intros Hc0.
    pose proof (wf_codes r Hwf id0 inst c E0 Hc0) as Ho0. rewrite Ho in Ho0. injection Ho0 as Hk.
    assert (id ∈ out) as Hin by (apply Hout; by exists i).
    apply nil_length_inv in Hlen. rewrite Hlen in Hin. by apply elem_of_nil in Hin.
  - intros k. rewrite lookup_insert. destruct (decide _); [done|apply (wf_nodup r Hwf)].
  - intros k id. rewrite lookup_insert. destruct (decide (Kind inst = k)) as [<- |Hne];
      [apply Hout|]. apply Hother. congruence.
  - intros id i c [_ Hi]%lookup_delete_Some. by apply (wf_codes r Hwf id).
Qed.

(** ** A roster run *)

Inductive RosterOp :=
| OpRegister (inst : CoordInstance)
| OpUnregister (instanceID : string)
| OpUnregisterByHost (order : list string) (hostID : string).

(** A refused registration leaves the roster as it is. *)
Definition roster_op (r : CoordRegistry) (o : RosterOp) : CoordRegistry :=
  match o with
  | OpRegister inst => match Register r inst with Ok r' => r' | Err _ => r end
  | OpUnregister id => Unregister r id
  | OpUnregisterByHost order h => UnregisterByHost order r h
  end.

Lemma roster_op_wf r o : roster_wf r -> roster_wf (roster_op r o).
Proof.
  intros Hwf. destruct o as [inst|id|order h]; simpl.
  - destruct (Register r inst) eqn:E; [|done]. by eapply register_wf.
  - by apply unregister_wf.
  - unfold UnregisterByHost. revert Hwf. generalize (filter (fun id =>
      match instances r !! id with Some i => String.eqb (HostID i) h | None => false end = true) order).
    intros ids. revert r. induction ids as [|id ids IH]; intros r Hwf; [done|].
    by apply IH, unregister_wf.
Qed.

Lemma roster_run_wf ops r : roster_wf r -> roster_wf (fold_left roster_op ops r).
Proof. revert r. induction ops as [|o ops IH]; intros r Hwf; [done|]. by apply IH, roster_op_wf. Qed.

(** ** The index built from a snapshot *)

Section Index.
Context (owner : gmap Z string).

(** Codes that all have their owner in [owner] never conflict. *)
Lemma apply_codes_ok kind codes : forall op,
  (forall c, c ∈ codes -> owner !! c = Some kind) ->
  (forall c k, op !! c = Some k -> owner !! c = Some k) ->
  exists op', apply_codes kind codes op = Ok op' /\
    (forall c k, op' !! c = Some k <-> op !! c = Some k \/ (c ∈ codes /\ k = kind)) /\
    (forall c k, op' !! c = Some k -> owner !! c = Some k).
Proof.
  induction codes as [|c0 codes IH]; intros op Hc Hop.
  { exists op. split; [done|]. split; [|done]. intros c k. split; [by left|].
    intros [?|[H _]]; [done|by apply elem_of_nil in H]. }
  assert (owner !! c0 = Some kind) as H0 by (apply Hc; by left).
  assert (forall c, c ∈ codes -> owner !! c = Some kind) as Hc' by (intros; apply Hc; by right).
  destruct (IH (<[c0 := kind]> op)) as (op' & E & Hl & Ho); [done| |].
  { intros c k. rewrite lookup_insert. destruct (decide _) as [<- |]; [by intros [= <-]|apply Hop]. }
  exists op'. split; [|split; [|done]].
  - simpl. destruct (op !! c0) as [k0|] eqn:E0; [|done].
    apply Hop in E0. rewrite H0 in E0. injection E0 as <-. by rewrite String.eqb_refl.
  - intros c k. rewrite Hl, elem_of_cons, lookup_insert.
    destruct (decide (c0 = c)) as [<- |Hne].
    + split; [intros [[= <-]|[? ->]]; tauto|]. intros [Hop0|[_ ->]]; [|by left].
      apply Hop in Hop0. rewrite H0 in Hop0. by left.
    + split; [tauto|]. intros [?|[[-> |?] ?]]; tauto.
Qed.

Lemma apply_records_ok recs : forall op inst,
  (forall rec c, rec ∈ recs -> c ∈ OpCodes rec -> owner !! c = Some (Kind rec)) ->
  (forall c k, op !! c = Some k -> owner !! c = Some k) ->
  exists op' inst', apply_records recs op inst = Ok (op', inst') /\
    (forall c k, op' !! c = Some k <->
       op !! c = Some k \/ exists rec, rec ∈ recs /\ Kind rec = k /\ c ∈ OpCodes rec) /\
    (forall k, default [] (inst' !! k)
       = default [] (inst !! k)
         ++ map (fun rec => mkRoute (InstanceID rec) (HostID rec)) (filter (fun rec => Kind rec = k) recs)).
Proof.
  induction recs as [|rec recs IH]; intros op inst Hrec Hop.
  { exists op, inst. split; [done|]. split; [|intros k; by rewrite app_nil_r].
    intros c k. split; [by left|]. intros [?|(rec & H & _)]; [done|by apply elem_of_nil in H]. }
  destruct (apply_codes_ok (Kind rec) (OpCodes rec) op) as (op1 & E1 & Hl1 & Ho1);
    [intros; apply Hrec; [by left|done]|done|].
  destruct (IH op1 (<[Kind rec := default [] (inst !! Kind rec)
    ++ [mkRoute (InstanceID rec) (HostID rec)]]> inst)) as (op' & inst' & E & Hl & Hi);
    [intros rec' c' ?; apply Hrec; by right|done|].
  exists op', inst'. split; [simpl; rewrite E1; exact E|]. split.
  - intros c k. rewrite Hl, Hl1. split.
    + intros [[?|[? ->]]|(rec' & ? & ? & ?)]; [by left|right; exists rec|right; exists rec'];
        (split; [|done]); [by left|by right].
    + intros [?|(rec' & [-> |Hin]%elem_of_cons & Hk & Hc)]; [by left; left|left; right; done|].
      right. by exists rec'.
  - intros k. rewrite Hi, lookup_insert. destruct (decide (Kind rec = k)) as [<- |Hne].
    + rewrite filter_cons_True by done. simpl. by rewrite <- app_assoc.
    + by rewrite filter_cons_False by done.
Qed.
End Index.

Lemma elem_of_Snapshot r i :
  i ∈ Snapshot r <-> exists id, instances r !! id = Some i.
Proof.
  unfold Snapshot. rewrite merge_sort_Permutation. rewrite list_elem_of_In, in_map_iff. split.
  - intros ([id i'] & <- & Hin). exists id. apply elem_of_map_to_list. by apply list_elem_of_In.
  - intros [id Hi]. exists (id, i). split; [done|]. by apply list_elem_of_In, elem_of_map_to_list.
Qed.

Lemma length_Snapshot r : length (Snapshot r) = size (instances r).
Proof. unfold Snapshot. rewrite merge_sort_Permutation, length_map. apply length_map_to_list. Qed.

Lemma lookup_mod (l : list InstanceRoute) conn :
  l <> [] -> Z.of_nat (length l) < 2 ^ 32 ->
  exists rt, l !! Z.to_nat (conn mod u32 (Z.of_nat (length l))) = Some rt /\ rt ∈ l.
Proof.
  intros Hne Hlen. assert (0 < Z.of_nat (length l)) by (destruct l; simpl; done || lia).
  rewrite u32_id by (unfold_int; lia). pose proof (Z.mod_pos_bound conn (Z.of_nat (length l))).
  destruct (lookup_lt_is_Some_2 l (Z.to_nat (conn mod Z.of_nat (length l)))) as [rt Hrt]; [lia|].
  exists rt. split; [done|]. by eapply list_elem_of_lookup_2.
Qed.

(** The routes of a kind are the live instances of that kind. *)
Lemma snapshot_routes r k l : roster_wf r ->
  l ≡ₚ map (fun rec => mkRoute (InstanceID rec) (HostID rec))
         (filter (fun rec => Kind rec = k) (Snapshot r)) ->
  (length l <= size (instances r))%nat /\
  forall rt, rt ∈ l <-> exists i, instances r !! ir_InstanceID rt = Some i /\ Kind i = k /\
                               HostID i = ir_HostID rt.
Proof.
  intros Hwf Hl. split.
  { rewrite Hl, length_map, <- length_Snapshot. apply length_filter. }
  intros rt. rewrite Hl, list_elem_of_In, in_map_iff. split.
  - intros (i & <- & [Hk [id Hi]%elem_of_Snapshot]%list_elem_of_In%list_elem_of_filter).
    exists i. simpl. rewrite (wf_id r Hwf id i Hi). done.
  - intros (i & Hi & Hk & Hh). exists i. split.
    + rewrite (wf_id r Hwf _ i Hi), Hh. by destruct rt.
    + apply list_elem_of_In, list_elem_of_filter. split; [done|]. apply elem_of_Snapshot. eauto.
Qed.

(** ** Properties *)

(** What the coordinator admits, every gateway can route.  After any
    sequence of registrations (refused ones included), leaves and host crashes,
    the PeerList snapshot always applies: no op code is claimed by two kinds;
    the gateway then maps an op code to a kind exactly when a live instance of
    that kind declares it, and picks, for a kind and a connection, a live
    instance of that kind on its host, failing exactly when none is live. *)
Theorem snapshot_always_routes ops idx0 :
  let r := fold_left roster_op ops NewCoordRegistry in
  Z.of_nat (size (instances r)) < 2 ^ 32 ->
  exists idx, Apply idx0 (Snapshot r) = Ok idx /\
    (forall code k, ri_opToKind idx !! code = Some k <->
       exists id i, instances r !! id = Some i /\ Kind i = k /\ code ∈ OpCodes i) /\
    (forall k conn, 0 <= conn ->
       match PickInstance idx k conn with
       | Some rt => exists i, instances r !! ir_InstanceID rt = Some i /\ Kind i = k /\
                              HostID i = ir_HostID rt
       | None => forall id i, instances r !! id = Some i -> Kind i <> k
       end).
Proof.
  intros r Hsize. assert (roster_wf r) as Hwf by apply roster_run_wf, new_roster_wf.
  destruct (apply_records_ok (opToKind r) (Snapshot r) ∅ ∅) as (op & inst & E & Hop & Hinst).
  { intros rec c [id Hi]%elem_of_Snapshot Hc. by apply (wf_codes r Hwf id). }
  { intros c k Hk. by apply lookup_empty_Some in Hk. }
  exists (mkIndex op (merge_sort route_le <$> inst)). unfold Apply. rewrite E. split; [done|].
  cbn [ri_opToKind]. split.
  - intros code k. rewrite Hop. setoid_rewrite elem_of_Snapshot. split.
    + intros [Hk|(i & [id Hi] & ? & ?)]; [by apply lookup_empty_Some in Hk|]. by exists id, i.
    + intros (id & i & Hi & ? & ?). right. exists i. split; [by exists id|done].
  - intros k conn Hconn. unfold PickInstance. cbn [ri_instances]. rewrite lookup_fmap.
    specialize (Hinst k). rewrite lookup_empty in Hinst. simpl in Hinst.
    set (l := default [] (merge_sort route_le <$> inst !! k)).
    destruct (snapshot_routes r k l Hwf) as [Hlen Hmem].
    { rewrite <- Hinst. unfold l. destruct (inst !! k); simpl; [apply merge_sort_Permutation|done]. }
    destruct l as [|rt0 l'].
    + intros id i Hi Hk. apply (not_elem_of_nil (mkRoute (InstanceID i) (HostID i))).
      apply Hmem. simpl. rewrite (wf_id r Hwf id i Hi). by exists i.
    + destruct (lookup_mod (rt0 :: l') conn) as (rt & -> & Hin); [done|lia|]. by apply Hmem.
Qed.

Definition wsvc (k id h : string) (codes : list Z) : CoordInstance := mkInstance k id h codes 0.
Definition wroster_ops : list RosterOp :=
  [OpRegister (wsvc "chat" "chat-1" "h1" [10; 11]); OpRegister (wsvc "auth" "auth-1" "h2" [20]);
   OpRegister (wsvc "chat" "chat-2" "h2" [11; 10]); OpRegister (wsvc "evil" "evil-1" "h3" [20]);
   OpUnregister "chat-1"].

Lemma snapshot_always_routes_witness :
  exists idx, Apply NewRoutingIndex (Snapshot (fold_left roster_op wroster_ops NewCoordRegistry)) = Ok idx /\
    (forall code k, ri_opToKind idx !! code = Some k <->
       exists id i, instances (fold_left roster_op wroster_ops NewCoordRegistry) !! id = Some i /\
         Kind i = k /\ code ∈ OpCodes i) /\
    (forall k conn, 0 <= conn ->
       match PickInstance idx k conn with
       | Some rt => exists i, instances (fold_left roster_op wroster_ops NewCoordRegistry)
                      !! ir_InstanceID rt = Some i /\ Kind i = k /\ HostID i = ir_HostID rt
       | None => forall id i, instances (fold_left roster_op wroster_ops NewCoordRegistry) !! id = Some i ->
                   Kind i <> k
       end).
Proof. apply (snapshot_always_routes wroster_ops NewRoutingIndex). vm_compute. reflexivity. Defined.

(** An op code can stay claimed by a kind with no instance.  sameCodeSet
    compares lengths and inclusion one way, so a second instance that repeats a
    code is accepted; when it is the last to leave, only the codes it repeated
    are released, and every later kind that needs the other code is refused. *)
Theorem op_code_claim_leaks :
  let r := fold_left roster_op
    [OpRegister (wsvc "chat" "chat-1" "h1" [10; 11]); OpRegister (wsvc "chat" "chat-2" "h1" [10; 10]);
     OpUnregister "chat-1"; OpUnregister "chat-2"]%string NewCoordRegistry in
  instances r = ∅ /\ LookupByOpCode r 11 = "chat"%string /\
  Register r (wsvc "mail" "mail-1" "h1" [11]) = Err ErrOpCodeClaimed.
Proof. vm_compute. repeat split. Qed.
