(* ===== verification/ControlPlane.v ===== *)
(** * The coordinator's control plane (pkg/universe/mesh_control_server.go,
      registration_admission.go, coord_assignment.go, control_plane.go, and the
      session index of coordinator.go)

    Hosts and gateways hold one control stream each.  The coordinator admits or
    refuses a registration, handles the messages of a stream, tears a stream
    down, watches heartbeats, and assigns cells to hosts.  One state, [Coord],
    holds the registries, the stream tables, the session routes, the service
    roster, the player index and the assignment engine.

    A control stream is a pointer: the address is the number it was allocated
    with, which is also its generation.  What a handler sends is appended to
    [outbox] with the stream it went to; a call into a component modelled
    elsewhere or not at all is recorded as an [OCall].  [Env] is what a step
    reads from outside: the clock, whether a stream accepts a send, and the
    orders in which Go iterates over its maps. *)

From S2P Require Import Prelude Float32 CellId Topology NetId SessionRoutes Rendezvous.
From S2P Require Import HostRegistry GatewayRegistry Services.

(** ** Messages *)

Record PeerList := mkPeerList {
  pl_Hosts : list (string * string * bool);
  pl_Cells : list (string * string);
  pl_Gateways : list (string * string);
  pl_Services : list CoordInstance;
  pl_EventRouting : serviceEventRouter
}.

Inductive CoordMsg :=
| MsgRegisterAck
| MsgCoordTimeSync
| MsgPeerList (pl : PeerList)
| MsgNetIDRangeGrant (host : string) (start count : Z)
| MsgCellAssign (cell : string)
| MsgCellRelease (cell : string)
| MsgCellRename (from to : string)
| MsgCellsDrained (host : string)
| MsgUpstreamSwitch (gateway : string) (conn : Z) (host cell : string) (epoch : Z)
| MsgSessionRegister (gateway : string) (conn epoch : Z) (cell : string)
| MsgSpawnResolved (req : Z) (x y : f32) (reconnect : option (string * string)) (rejected : bool).

(** Calls into components outside this file. *)
Inductive Call :=
| CallCommitLog (kind step host : string)
| CallApplyMetrics (host : string) (cells : list string)
| CallDropMetrics (host : string)
| CallLogBatch (host : string)
| CallAdminTopic (topic : string)
| CallTransferReady (req : Z) (cell host : string) (ok : bool)
| CallCompleteOp (req : Z) (ok : bool)
| CallCommandResponse (req : Z)
| CallGracefulLeave (host : string)
| CallResolveSpawn (gateway : string) (req : Z)
| CallReconcilePeers
| CallUpstreamSwitch (conn : Z) (host cell : string) (epoch : Z)
| CallRebalance
| CallPrimeCooldown (cell : string)
| CallClearCooldown (cell : string)
| CallTopologyChanged.

Inductive Out :=
| OSend (stream : nat) (m : CoordMsg)
| OCall (c : Call).

(** ** State *)

Record PlayerLocation := mkLoc { pl_HostID : string; pl_CellID : string; pl_Active : bool }.

Record activeUser := mkActiveUser {
  au_UserID : Z;
  au_Username : string;
  au_GatewayID : string;
  au_ConnID : Z;
  au_HostID : string;
  au_CellID : string
}.

Record Coord := mkCoord {
  hosts : gmap string RemoteHost;
  gateways : gmap string RemoteGateway;
  streams : gmap string nat;
  gatewayStreams : gmap string nat;
  killed : gset nat;
  streamSeq : nat;
  services : CoordRegistry;
  eventRouter : serviceEventRouter;
  routes : sessionRoutes;
  players : gmap string PlayerLocation;
  activeUsers : gmap Z activeUser;
  userIDByConn : gmap Z Z;
  cellToHost : gmap string string;
  topology : Topology;
  netIDAlloc : NetIDAllocator;
  nextNetIDStart : Z;
  firstRegistered : bool;
  settled : bool;
  settleDeadline : Z;
  outbox : list Out
}.

Definition upd_hosts (c : Coord) (x : gmap string RemoteHost) : Coord :=
  mkCoord x (gateways c) (streams c) (gatewayStreams c) (killed c) (streamSeq c) (services c)
    (eventRouter c) (routes c) (players c) (activeUsers c) (userIDByConn c) (cellToHost c)
    (topology c) (netIDAlloc c) (nextNetIDStart c) (firstRegistered c) (settled c)
    (settleDeadline c) (outbox c).
Definition upd_gateways (c : Coord) (x : gmap string RemoteGateway) : Coord :=
  mkCoord (hosts c) x (streams c) (gatewayStreams c) (killed c) (streamSeq c) (services c)
    (eventRouter c) (routes c) (players c) (activeUsers c) (userIDByConn c) (cellToHost c)
    (topology c) (netIDAlloc c) (nextNetIDStart c) (firstRegistered c) (settled c)
    (settleDeadline c) (outbox c).
Definition upd_streams (c : Coord) (s g : gmap string nat) (k : gset nat) (n : nat) : Coord :=
  mkCoord (hosts c) (gateways c) s g k n (services c)
    (eventRouter c) (routes c) (players c) (activeUsers c) (userIDByConn c) (cellToHost c)
    (topology c) (netIDAlloc c) (nextNetIDStart c) (firstRegistered c) (settled c)
    (settleDeadline c) (outbox c).
Definition upd_services (c : Coord) (s : CoordRegistry) (e : serviceEventRouter) : Coord :=
  mkCoord (hosts c) (gateways c) (streams c) (gatewayStreams c) (killed c) (streamSeq c) s
    e (routes c) (players c) (activeUsers c) (userIDByConn c) (cellToHost c)
    (topology c) (netIDAlloc c) (nextNetIDStart c) (firstRegistered c) (settled c)
    (settleDeadline c) (outbox c).
Definition upd_routes (c : Coord) (r : sessionRoutes) : Coord :=
  mkCoord (hosts c) (gateways c) (streams c) (gatewayStreams c) (killed c) (streamSeq c)
    (services c) (eventRouter c) r (players c) (activeUsers c) (userIDByConn c) (cellToHost c)
    (topology c) (netIDAlloc c) (nextNetIDStart c) (firstRegistered c) (settled c)
    (settleDeadline c) (outbox c).
Definition upd_players (c : Coord) (p : gmap string PlayerLocation) (a : gmap Z activeUser)
  (u : gmap Z Z) : Coord :=
  mkCoord (hosts c) (gateways c) (streams c) (gatewayStreams c) (killed c) (streamSeq c)
    (services c) (eventRouter c) (routes c) p a u (cellToHost c)
    (topology c) (netIDAlloc c) (nextNetIDStart c) (firstRegistered c) (settled c)
    (settleDeadline c) (outbox c).
Definition upd_topology (c : Coord) (t : Topology) : Coord :=
  mkCoord (hosts c) (gateways c) (streams c) (gatewayStreams c) (killed c) (streamSeq c)
    (services c) (eventRouter c) (routes c) (players c) (activeUsers c) (userIDByConn c)
    (cellToHost c) t (netIDAlloc c) (nextNetIDStart c) (firstRegistered c) (settled c)
    (settleDeadline c) (outbox c).
Definition upd_netid (c : Coord) (a : NetIDAllocator) (n : Z) : Coord :=
  mkCoord (hosts c) (gateways c) (streams c) (gatewayStreams c) (killed c) (streamSeq c)
    (services c) (eventRouter c) (routes c) (players c) (activeUsers c) (userIDByConn c)
    (cellToHost c) (topology c) a n (firstRegistered c) (settled c)
    (settleDeadline c) (outbox c).
Definition upd_settle (c : Coord) (f s : bool) (d : Z) : Coord :=
  mkCoord (hosts c) (gateways c) (streams c) (gatewayStreams c) (killed c) (streamSeq c)
    (services c) (eventRouter c) (routes c) (players c) (activeUsers c) (userIDByConn c)
    (cellToHost c) (topology c) (netIDAlloc c) (nextNetIDStart c) f s d (outbox c).
Definition emit (c : Coord) (o : Out) : Coord :=
  mkCoord (hosts c) (gateways c) (streams c) (gatewayStreams c) (killed c) (streamSeq c)
    (services c) (eventRouter c) (routes c) (players c) (activeUsers c) (userIDByConn c)
    (cellToHost c) (topology c) (netIDAlloc c) (nextNetIDStart c) (firstRegistered c) (settled c)
    (settleDeadline c) (outbox c ++ [o]).

Record Env := mkEnv {
  now : Z;
  net : nat -> bool;
  horder : list string;
  hfc_order : string -> list string;
  gorder : list string;
  iorder : list string;
  rorder : list SessionKey;
  aorder : list string;
  corder : gset string -> list string
}.

(** The process configuration the handlers read. *)
Record Config := mkConfig {
  SettleWindow : Z;
  CellSize : f32;
  CellsX : Z;
  CellsY : Z;
  SchemaFingerprint : Z;
  embeddedGateway : option string
}.

Definition deadThreshold : Z := 3 * 10 ^ 9.
Definition gatewayDeadThreshold : Z := 5 * 10 ^ 9.
Definition netIDRangeSize : Z := 10000000.

(** ** Sending *)

(** A host without a control stream is reached through the gateway stream of
    the same id.  The result is whether [Send] succeeded. *)
Definition sendCoordMessageToHost (env : Env) (c : Coord) (hostID : string) (m : CoordMsg)
  : Coord * bool :=
  match (match streams c !! hostID with Some p => Some p | None => gatewayStreams c !! hostID end) with
  | None => (c, false)
  | Some p => if net env p then (emit c (OSend p m), true) else (c, false)
  end.

Definition sendCoordMessageToGateway (env : Env) (c : Coord) (gatewayID : string) (m : CoordMsg)
  : Coord * bool :=
  match gatewayStreams c !! gatewayID with
  | None => (c, false)
  | Some p => if net env p then (emit c (OSend p m), true) else (c, false)
  end.

(** ** Streams *)

Definition killClosed (c : Coord) (p : nat) : bool := bool_decide (p ∈ killed c).

Definition closeKill (c : Coord) (p : nat) : Coord :=
  upd_streams c (streams c) (gatewayStreams c) ({[p]} ∪ killed c) (streamSeq c).

(** Registering a stream is two steps: the swap under the server lock, and, once it is
    released, the closing of the predecessor's kill channel. *)
Definition swapHostStream (c : Coord) (hostID : string) : Coord * nat * option nat :=
  let self := (streamSeq c + 1)%nat in
  (upd_streams c (<[hostID := self]> (streams c)) (gatewayStreams c) (killed c) self, self, streams c !! hostID).

Definition swapGatewayStream (c : Coord) (gatewayID : string) : Coord * nat * option nat :=
  let self := (streamSeq c + 1)%nat in
  (upd_streams c (streams c) (<[gatewayID := self]> (gatewayStreams c)) (killed c) self, self, gatewayStreams c !! gatewayID).

Definition closeOld (c : Coord) (old : option nat) : Coord :=
  match old with Some o => closeKill c o | None => c end.

(** The two without interruption. *)
Definition registerHostStream (c : Coord) (hostID : string) : Coord * nat :=
  let '(c, self, old) := swapHostStream c hostID in (closeOld c old, self).

Definition registerGatewayStream (c : Coord) (gatewayID : string) : Coord * nat :=
  let '(c, self, old) := swapGatewayStream c gatewayID in (closeOld c old, self).

Definition releaseHostStream (c : Coord) (hostID : string) (self : nat) : Coord * bool :=
  if decide (streams c !! hostID = Some self)
  then (upd_streams c (delete hostID (streams c)) (gatewayStreams c) (killed c) (streamSeq c), true)
  else (c, false).

Definition releaseGatewayStream (c : Coord) (gatewayID : string) (self : nat) : Coord * bool :=
  if decide (gatewayStreams c !! gatewayID = Some self)
  then (upd_streams c (streams c) (delete gatewayID (gatewayStreams c)) (killed c) (streamSeq c), true)
  else (c, false).

Definition cancelStream (c : Coord) (hostID : string) : Coord * bool :=
  match streams c !! hostID with
  | None => (c, false)
  | Some p => (closeKill c p, true)
  end.

Definition cancelGatewayStream (c : Coord) (gatewayID : string) : Coord * bool :=
  match gatewayStreams c !! gatewayID with
  | None => (c, false)
  | Some p => (closeKill c p, true)
  end.

(** ** Admission *)

Inductive AdmitError :=
| ErrLocalID
| ErrOtherLiveStream
| ErrDefended
| ErrFingerprintMissing
| ErrFingerprintMismatch.

Definition live_stream (c : Coord) (o : option nat) : bool :=
  match o with Some p => negb (killClosed c p) | None => false end.

Definition admitHostRegistration (env : Env) (c : Coord) (hostID : string)
  : result AdmitError unit :=
  let h := HostRegistry.Get (hosts c) hostID in
  if (match h with Some h => HostRegistry.Local h | None => false end) then Err ErrLocalID
  else if live_stream c (gatewayStreams c !! hostID) then Err ErrOtherLiveStream
  else if live_stream c (streams c !! hostID) &&
          (match h with
           | Some h => bool_decide (HostRegistry.State h <> RemoteHostDead)
                       && (now env - HostRegistry.LastHeartbeat h <=? deadThreshold)
           | None => false
           end) then Err ErrDefended
  else Ok tt.

Definition admitGatewayRegistration (env : Env) (c : Coord) (gatewayID : string)
  : result AdmitError unit :=
  let g := GatewayRegistry.Get (gateways c) gatewayID in
  if (match g with Some g => GatewayRegistry.Local g | None => false end) then Err ErrLocalID
  else if live_stream c (streams c !! gatewayID) then Err ErrOtherLiveStream
  else if live_stream c (gatewayStreams c !! gatewayID) &&
          (match g with
           | Some g => now env - GatewayRegistry.LastHeartbeat g <=? gatewayDeadThreshold
           | None => false
           end) then Err ErrDefended
  else Ok tt.

Definition admitSchemaFingerprint (cfg : Config) (peer : Z) : result AdmitError unit :=
  let self := SchemaFingerprint cfg in
  if self =? peer then Ok tt
  else if peer =? 0 then Err ErrFingerprintMissing
  else if self =? 0 then Err ErrFingerprintMissing
  else Err ErrFingerprintMismatch.

(** On a mismatch the caller drops the message. *)
Definition bindIdentity (streamID claimed : string) : bool := String.eqb claimed streamID.

(** ** Ownership and topology (control_plane.go) *)

Definition of_runes (r : list Z) : string :=
  String.string_of_list_ascii (map (fun z => Ascii.ascii_of_N (Z.to_N z)) r).

Definition OwnerOf (env : Env) (c : Coord) (cellKey : string) : option string :=
  let h := HostForCell (hfc_order env cellKey) (hosts c) cellKey in
  if negb (String.eqb h "") then Some h else cellToHost c !! cellKey.

(** Registry ownership first, then the map; a cell is yielded once. *)
Definition AllOwnedCells (env : Env) (c : Coord) : list (string * string) :=
  let reg := flat_map (fun h => map (fun cell => (cell, HostRegistry.ID h))
                                  (corder env (OwnedCells h))) (LiveHosts (horder env) (hosts c)) in
  let reg := fold_left (fun acc kv => if decide (kv.1 ∈ acc.*1) then acc else acc ++ [kv]) reg [] in
  reg ++ filter (fun kv => kv.1 ∉ reg.*1) (map_to_list (cellToHost c)).

Definition CellsOwnedBy (env : Env) (c : Coord) (hostID : string) : list string :=
  map fst (filter (fun kv => kv.2 = hostID) (AllOwnedCells env c)).

Definition topo_keys (t : Topology) : list CellID := (map_to_list t).*1.

Definition rebuildTopologyForCell (cfg : Config) (env : Env) (c : Coord) (cellKey : string) : Coord :=
  match ParseCellID (str cellKey) with
  | None => c
  | Some cid =>
      let t := match OwnerOf env c cellKey with
               | None => delete cid (topology c)
               | Some _ => match topology c !! cid with
                           | Some _ => topology c
                           | None => <[cid := []]> (topology c)
                           end
               end in
      upd_topology c
        (RebuildNeighborsFor (elements (frontier t [cid])) (topo_keys t) t [cid] (CellSize cfg))
  end.

(** [AssignCell] and [ReleaseCell] with the ownership callback, which runs after
    the registry lock is released. *)
Definition assign_cell (cfg : Config) (env : Env) (c : Coord) (hostID cellID : string) : Coord * bool :=
  match AssignCell (hosts c) hostID cellID with
  | None => (c, false)
  | Some r => (rebuildTopologyForCell cfg env (upd_hosts c r) cellID, true)
  end.

Definition release_cell (cfg : Config) (env : Env) (c : Coord) (hostID cellID : string) : Coord :=
  rebuildTopologyForCell cfg env (upd_hosts c (ReleaseCell (hosts c) hostID cellID)) cellID.

(** ** The assignment engine (coord_assignment.go) *)

(** [None] is the panic of an exhausted allocator. *)
Definition next_grant (c : Coord) : option (Coord * Z) :=
  if nextNetIDStart c =? 0
  then match Allocate (netIDAlloc c) with
       | None => None
       | Some (a, start) => Some (upd_netid c a (u32 (start + netIDRangeSize)), start)
       end
  else Some (upd_netid c (netIDAlloc c) (u32 (nextNetIDStart c + netIDRangeSize)), nextNetIDStart c).

Definition dispatchCellAssign (cfg : Config) (env : Env) (c : Coord) (hostID cellID : string)
  : option Coord :=
  match next_grant c with
  | None => None
  | Some (c, start) =>
      let '(c, ok) := sendCoordMessageToHost env c hostID
                        (MsgNetIDRangeGrant hostID start netIDRangeSize) in
      if negb ok then Some c
      else
        let '(c, ok) := sendCoordMessageToHost env c hostID (MsgCellAssign cellID) in
        if negb ok then Some c
        else Some (assign_cell cfg env c hostID cellID).1
  end.

Definition dispatchCellRelease (cfg : Config) (env : Env) (c : Coord) (hostID cellID : string) : Coord :=
  let '(c, ok) := sendCoordMessageToHost env c hostID (MsgCellRelease cellID) in
  if negb ok then c else release_cell cfg env c hostID cellID.

Definition host_listed (h : RemoteHost) : bool :=
  bool_decide (HostRegistry.State h = RemoteHostLive) ||
  bool_decide (HostRegistry.State h = RemoteHostRegistered).

Definition gateway_listed (g : RemoteGateway) : bool :=
  bool_decide (GatewayRegistry.State g = RemoteGatewayLive) ||
  bool_decide (GatewayRegistry.State g = RemoteGatewayRegistered).

Definition buildPeerList (env : Env) (c : Coord) : PeerList :=
  let live := LiveHosts (horder env) (hosts c) in
  mkPeerList
    (map (fun h => (HostRegistry.ID h, GrpcAddr h, HasPlayerDB h))
       (filter (fun h => host_listed h = true) live))
    (flat_map (fun h => map (fun cell => (cell, HostRegistry.ID h)) (corder env (OwnedCells h))) live)
    (map (fun g => (GatewayRegistry.ID g, GRPCAddr g))
       (filter (fun g => gateway_listed g = true /\ GRPCAddr g <> ""%string)
          (LiveGateways (gorder env) (gateways c))))
    (Services.Snapshot (services c))
    (eventRouter c).

Definition broadcastPeerList (env : Env) (c : Coord) : Coord :=
  let msg := MsgPeerList (buildPeerList env c) in
  let c' := fold_left (fun c h =>
      if host_listed h then (sendCoordMessageToHost env c (HostRegistry.ID h) msg).1 else c)
    (LiveHosts (horder env) (hosts c)) c in
  let c' := emit c' (OCall CallReconcilePeers) in
  fold_left (fun c g =>
      if gateway_listed g then (sendCoordMessageToGateway env c (GatewayRegistry.ID g) msg).1 else c)
    (LiveGateways (gorder env) (gateways c)) c'.

(** Loops whose body may panic: [None] once one has. *)
Fixpoint foldM {A} (f : Coord -> A -> option Coord) (l : list A) (c : Coord) : option Coord :=
  match l with
  | [] => Some c
  | x :: l => match f c x with Some c => foldM f l c | None => None end
  end.

Definition live_ids (env : Env) (c : Coord) : list string :=
  map HostRegistry.ID (filter (fun h => HostRegistry.State h = RemoteHostLive)
                         (cellBearingHosts (horder env) (hosts c))).

Definition reassignOrphanedCells (cfg : Config) (env : Env) (c : Coord) (dead : RemoteHost)
  : option Coord :=
  let liveIDs := live_ids env c in
  match liveIDs with
  | [] => Some c
  | _ =>
      c ← foldM (fun c cellID =>
            let newHost := AssignCellToHost cellID liveIDs in
            dispatchCellAssign cfg env (release_cell cfg env c (HostRegistry.ID dead) cellID)
              newHost cellID)
          (corder env (OwnedCells dead)) c;
      Some (broadcastPeerList env c)
  end.

(** [go e.rebalance()] is recorded as a call: it runs as a step of its own. *)
Definition onHostRegistered (cfg : Config) (env : Env) (c : Coord) : Coord :=
  let first := firstRegistered c in
  let c := upd_settle c true (settled c) (now env + SettleWindow cfg) in
  if first && settled c then emit c (OCall CallRebalance) else c.

Definition grid_cells (cfg : Config) : list string :=
  flat_map (fun sy => map (fun sx => of_runes (MeshID (mkCellID (Z.of_nat sx) (Z.of_nat sy) 0)))
                        (seq 0 (Z.to_nat (CellsX cfg)))) (seq 0 (Z.to_nat (CellsY cfg))).

Definition enumerateCells (cfg : Config) (env : Env) (c : Coord) : list string :=
  match (AllOwnedCells env c).*1 with
  | [] => grid_cells cfg
  | cells => cells
  end.

Definition neighborsOf (cellID : string) : list string :=
  match ParseCellID (str cellID) with
  | None => []
  | Some cid => map (fun n => of_runes (MeshID n)) (CellId.Neighbors cid)
  end.

Definition rebalance (cfg : Config) (env : Env) (c : Coord) : option Coord :=
  let liveIDs := map HostRegistry.ID (filter (fun h => host_listed h = true)
                   (cellBearingHosts (horder env) (hosts c))) in
  match liveIDs with
  | [] => Some c
  | _ =>
      let owned := AllOwnedCells env c in
      let cellOwner := fun cell => default ""%string ((list_to_map owned : gmap string string) !! cell) in
      let assignments := AssignCellsAcrossHostsWithLocality (enumerateCells cfg env c) liveIDs
                           (Some neighborsOf) (Some cellOwner) in
      c ← foldM (fun c cellID =>
            match assignments !! cellID with
            | None => Some c
            | Some hostID =>
                let existing := HostForCell (hfc_order env cellID) (hosts c) cellID in
                if String.eqb existing hostID then Some c
                else
                  let c := if negb (String.eqb existing "")
                           then dispatchCellRelease cfg env c existing cellID else c in
                  dispatchCellAssign cfg env c hostID cellID
            end) (aorder env) c;
      Some (broadcastPeerList env c)
  end.

(** One tick of the settle loop. *)
Definition settle_tick (cfg : Config) (env : Env) (c : Coord) : option Coord :=
  if negb (firstRegistered c) || settled c then Some c
  else if now env <? settleDeadline c then Some c
  else rebalance cfg env (upd_settle c (firstRegistered c) true (settleDeadline c)).

Definition drop_services (env : Env) (c : Coord) (id : string) : Coord :=
  upd_services c (UnregisterByHost (iorder env) (services c) id) (RemoveProcess (eventRouter c) id).

(** The hosts are copies taken at the start of the pass. *)
Definition checkLiveness (cfg : Config) (env : Env) (c : Coord) : option Coord :=
  foldM (fun c host =>
    if negb (bool_decide (HostRegistry.State host = RemoteHostLive)) then Some c
    else if HostRegistry.Local host then Some c
    else if now env - HostRegistry.LastHeartbeat host <=? deadThreshold then Some c
    else
      let c := upd_hosts c (HostRegistry.MarkDead (hosts c) (HostRegistry.ID host)) in
      let c := (cancelStream c (HostRegistry.ID host)).1 in
      let c := drop_services env c (HostRegistry.ID host) in
      let c := emit c (OCall (CallDropMetrics (HostRegistry.ID host))) in
      reassignOrphanedCells cfg env c host)
    (LiveHosts (horder env) (hosts c)) c.

Definition checkGatewayLiveness (env : Env) (c : Coord) : Coord :=
  fold_left (fun c gw =>
    if negb (bool_decide (GatewayRegistry.State gw = RemoteGatewayLive)) then c
    else if GatewayRegistry.Local gw then c
    else if now env - GatewayRegistry.LastHeartbeat gw <=? gatewayDeadThreshold then c
    else
      let c := upd_gateways c (GatewayRegistry.MarkDead (gateways c) (GatewayRegistry.ID gw)) in
      let c := upd_routes c (RemoveByGateway (rorder env) (routes c) (GatewayRegistry.ID gw)).1 in
      broadcastPeerList env (drop_services env c (GatewayRegistry.ID gw)))
    (LiveGateways (gorder env) (gateways c)) c.

(** ** The session index (coordinator.go) *)

Definition set_player (c : Coord) (username host cell : string) (active : bool) : Coord :=
  upd_players c (<[username := mkLoc host cell active]> (players c)) (activeUsers c) (userIDByConn c).

Definition notifySessionActive (c : Coord) (username hostID cellID : string) : Coord :=
  set_player c username hostID cellID true.

Definition notifySessionDisconnected (c : Coord) (username hostID cellID : string) : Coord :=
  set_player c username hostID cellID false.

(** Every user record of that name goes, with its connection entry. *)
Definition notifySessionRemoved (c : Coord) (username : string) : Coord :=
  let gone := filter (fun kv => au_Username kv.2 = username) (map_to_list (activeUsers c)) in
  upd_players c (delete username (players c))
    (fold_left (fun m kv => delete kv.1 m) gone (activeUsers c))
    (fold_left (fun m kv => delete (au_ConnID kv.2) m) gone (userIDByConn c)).

(** The nil UUID is 0. *)
Definition registerAuthenticatedSession (c : Coord) (userID : Z) (username gatewayID : string)
  (connID : Z) (hostID cellID : string) : Coord :=
  if userID =? 0 then c
  else upd_players c (players c)
         (<[userID := mkActiveUser userID username gatewayID connID hostID cellID]> (activeUsers c))
         (<[connID := userID]> (userIDByConn c)).

Definition touchActiveUser (c : Coord) (userID : Z) (username gatewayID : string)
  (gatewayConnID : Z) (hostID cellID : string) : Coord :=
  if userID =? 0 then c
  else
    match activeUsers c !! userID with
    | Some au =>
        upd_players c (players c)
          (<[userID := mkActiveUser (au_UserID au) (au_Username au) (au_GatewayID au) (au_ConnID au)
                         hostID cellID]> (activeUsers c)) (userIDByConn c)
    | None =>
        upd_players c (players c)
          (<[userID := mkActiveUser userID username gatewayID gatewayConnID hostID cellID]>
             (activeUsers c))
          (if negb (gatewayConnID =? 0) then <[gatewayConnID := userID]> (userIDByConn c)
           else userIDByConn c)
    end.

Definition activeUserLocked (c : Coord) (userID : Z) : option PlayerLocation :=
  match activeUsers c !! userID with
  | None => None
  | Some au =>
      match players c !! au_Username au with
      | Some loc => Some loc
      | None => Some (mkLoc (au_HostID au) (au_CellID au) true)
      end
  end.

Definition IsUserSessionActive (c : Coord) (userID : Z) : bool :=
  if userID =? 0 then false
  else match activeUserLocked c userID with Some loc => pl_Active loc | None => false end.

Definition ActiveUserHost (c : Coord) (username : string) : string :=
  match players c !! username with
  | Some loc => if pl_Active loc then pl_HostID loc else ""%string
  | None => ""%string
  end.

(** What [applyResolveSpawnReconnect] writes into the response: the reconnect
    target and the rejection. *)
Definition applyResolveSpawnReconnect (env : Env) (c : Coord) (userID : Z)
  : option (string * string) * bool :=
  match activeUserLocked c userID with
  | None => (None, false)
  | Some loc =>
      if pl_Active loc then (None, true)
      else if String.eqb (pl_CellID loc) "" then (None, false)
      else match OwnerOf env c (pl_CellID loc) with
           | None => (None, false)
           | Some h => if String.eqb h "" then (None, false) else (Some (h, pl_CellID loc), false)
           end
  end.

(** The coordinator has no connection manager of its own: a session on a host
    without an in-process network goes through the control stream. *)
Definition dispatchSessionRegister (env : Env) (c : Coord) (hostID : string) (key : SessionKey)
  (epoch : Z) (cellID : string) : Coord :=
  (sendCoordMessageToHost env c hostID
     (MsgSessionRegister (sk_GatewayID key) (sk_ConnID key) epoch cellID)).1.

Definition dispatchUpstreamSwitch (cfg : Config) (env : Env) (c : Coord) (key : SessionKey)
  (destHost destCell : string) (newEpoch : Z) : Coord :=
  if decide (embeddedGateway cfg = Some (sk_GatewayID key))
  then emit c (OCall (CallUpstreamSwitch (sk_ConnID key) destHost destCell newEpoch))
  else (sendCoordMessageToGateway env c (sk_GatewayID key)
          (MsgUpstreamSwitch (sk_GatewayID key) (sk_ConnID key) destHost destCell newEpoch)).1.

Definition notifyPlayerMigrated (cfg : Config) (env : Env) (c : Coord) (gatewayID : string)
  (connID : Z) (destHost destCell : string) : Coord :=
  let key := mkSessionKey gatewayID connID in
  let username := match SessionRoutes.Get (routes c) key with
                  | Some r => sr_Username r
                  | None => ""%string
                  end in
  let '(r, oe) := Migrate (routes c) key destHost destCell in
  match oe with
  | None => c
  | Some newEpoch =>
      let c := upd_routes c r in
      let c := if negb (String.eqb username "") then notifySessionActive c username destHost destCell
               else c in
      let c := dispatchSessionRegister env c destHost key newEpoch destCell in
      dispatchUpstreamSwitch cfg env c key destHost destCell newEpoch
  end.

(** ** Handlers *)

Section Handlers.
(** Third-party code: [uuid.Parse], and the game's spawn resolver. *)
Context (uuid_parse : string -> option Z) (resolver : string -> Z -> f32 * f32).
Context (cfg : Config).

Inductive HostMessage :=
| HMCellReady (host cell : string)
| HMCellStopped (host cell : string)
| HMHeartbeat (host : string) (metrics : list string)
| HMLogBatch
| HMAdminTopicEvent (topic : string)
| HMPlayerMigrated (gateway : string) (conn : Z) (from to cell : string)
| HMCellTransferReady (host : string) (req : Z) (cell : string) (ok : bool)
| HMHostOpAck (req : Z) (ok : bool)
| HMGracefulLeave (host : string)
| HMCommandResponse (req : Z)
| HMServiceAnnounce (host kind instance : string) (ops : list Z)
| HMServiceLeave (instance : string)
| HMServiceEventSubscribe (types : list string)
| HMSessionAnnounce (gateway : string) (conn : Z) (username host cell userID : string)
| HMResolveSpawn (req : Z) (username userID : string)
| HMOther.

Definition service_announce (env : Env) (c : Coord) (id host kind instance : string) (ops : list Z)
  : Coord :=
  if bindIdentity id host
  then match Services.Register (services c) (mkInstance kind instance id ops (now env)) with
       | Err _ => c
       | Ok s => broadcastPeerList env (upd_services c s (eventRouter c))
       end
  else c.

Definition service_leave (env : Env) (c : Coord) (instance : string) : Coord :=
  broadcastPeerList env (upd_services c (Unregister (services c) instance) (eventRouter c)).

Definition service_subscribe (env : Env) (c : Coord) (id : string) (types : list string) : Coord :=
  broadcastPeerList env (upd_services c (services c) (UpdateProcess (eventRouter c) id types)).

(** Ownership arbitration: a live other owner keeps the cell.  The registry is asked who
    owns it, asked again whether that host is dead, and then told, each under its own lock:
    the three steps are separate definitions, which may run in three different states. *)
Definition cell_ready_scan (env : Env) (c : Coord) (cell : string) : string :=
  HostForCell (hfc_order env cell) (hosts c) cell.

Definition cell_ready_refused (c : Coord) (hostID cur : string) : bool :=
  negb (String.eqb cur "") && negb (String.eqb cur hostID) &&
  match HostRegistry.Get (hosts c) cur with
  | Some h => bool_decide (HostRegistry.State h <> RemoteHostDead)
  | None => false
  end.

Definition cell_ready_act (env : Env) (c : Coord) (hostID cell : string) (refused : bool) : Coord :=
  if refused then dispatchCellRelease cfg env c hostID cell else (assign_cell cfg env c hostID cell).1.

(** The three without interruption. *)
Definition on_cell_ready (env : Env) (c : Coord) (hostID cell : string) : Coord :=
  cell_ready_act env c hostID cell (cell_ready_refused c hostID (cell_ready_scan env c cell)).

(** One message of a host's stream. *)
Definition handleHostMessage (env : Env) (c : Coord) (hostID : string) (m : HostMessage) : Coord :=
  match m with
  | HMCellReady host cell => if bindIdentity hostID host then on_cell_ready env c hostID cell else c
  | HMCellStopped host cell =>
      if bindIdentity hostID host then release_cell cfg env c hostID cell else c
  | HMHeartbeat host metrics =>
      if bindIdentity hostID host
      then emit (upd_hosts c (HostRegistry.Touch (now env) (hosts c) hostID))
             (OCall (CallApplyMetrics hostID metrics))
      else c
  | HMLogBatch => emit c (OCall (CallLogBatch hostID))
  | HMAdminTopicEvent topic => emit c (OCall (CallAdminTopic topic))
  | HMPlayerMigrated gateway conn from to cell =>
      if bindIdentity hostID from then notifyPlayerMigrated cfg env c gateway conn to cell else c
  | HMCellTransferReady host req cell ok =>
      if bindIdentity hostID host then emit c (OCall (CallTransferReady req cell hostID ok)) else c
  | HMHostOpAck req ok => emit c (OCall (CallCompleteOp req ok))
  | HMGracefulLeave host =>
      if bindIdentity hostID host then emit c (OCall (CallGracefulLeave hostID)) else c
  | HMCommandResponse req => emit c (OCall (CallCommandResponse req))
  | HMServiceAnnounce host kind instance ops => service_announce env c hostID host kind instance ops
  | HMServiceLeave instance => service_leave env c instance
  | HMServiceEventSubscribe types => service_subscribe env c hostID types
  | HMSessionAnnounce _ _ _ _ _ _ | HMResolveSpawn _ _ _ | HMOther => c
  end.

(** The part of [handleHostControl] between the stream swap and the receive
    loop; [false] is the failed [RegisterAck], on which the handler returns. *)
Definition hostRegisterRest (env : Env) (c : Coord) (hostID grpcAddr : string)
  (hasPlayerDB serviceOnly : bool) : Coord * bool :=
  let c := upd_hosts c (HostRegistry.Register (now env) (hosts c) hostID grpcAddr
                          hasPlayerDB serviceOnly) in
  let c := emit c (OCall (CallCommitLog "host-join" "registered" hostID)) in
  let '(c, ok) := sendCoordMessageToHost env c hostID MsgRegisterAck in
  if negb ok then (c, false)
  else
    let c := (sendCoordMessageToHost env c hostID MsgCoordTimeSync).1 in
    let c := onHostRegistered cfg env c in
    ((sendCoordMessageToHost env c hostID (MsgPeerList (buildPeerList env c))).1, true).

(** The part of [handleHostControl] before the receive loop, run without
    interruption.  An error closes the stream; the deferred teardown is installed
    only once registration has been acknowledged, so on the failure of that send
    the stream record stays. *)
Definition handleHostRegister (env : Env) (c : Coord) (hostID grpcAddr : string)
  (hasPlayerDB serviceOnly : bool) (fingerprint : Z) : Coord * result AdmitError (nat * bool) :=
  match admitHostRegistration env c hostID with
  | Err e => (c, Err e)
  | Ok _ =>
      match admitSchemaFingerprint cfg fingerprint with
      | Err e => (c, Err e)
      | Ok _ =>
          let '(c, self) := registerHostStream c hostID in
          let '(c, ok) := hostRegisterRest env c hostID grpcAddr hasPlayerDB serviceOnly in
          (c, Ok (self, ok))
      end
  end.

(** The deferred teardown of a host stream, in the two parts between which the
    server lock is released: the pointer-identity gate, and the rest. *)
Definition hostTeardownBody (env : Env) (c : Coord) (hostID : string) : option Coord :=
  match HostRegistry.Get (hosts c) hostID with
  | None => Some c
  | Some host =>
      if decide (OwnedCells host = ∅)
      then
        let c := upd_hosts c (HostRegistry.MarkLeaving (hosts c) hostID) in
        let c := upd_hosts c (HostRegistry.Remove (hosts c) hostID) in
        let c := broadcastPeerList env (drop_services env c hostID) in
        Some (emit c (OCall (CallCommitLog "host-leave" "removed" hostID)))
      else
        let c := upd_hosts c (HostRegistry.MarkDead (hosts c) hostID) in
        let c := broadcastPeerList env (drop_services env c hostID) in
        let c := emit c (OCall (CallCommitLog "host-leave" "marked-dead" hostID)) in
        reassignOrphanedCells cfg env c host
  end.

Definition hostTeardown (env : Env) (c : Coord) (hostID : string) (self : nat) : option Coord :=
  let '(c, ok) := releaseHostStream c hostID self in
  if ok then hostTeardownBody env c hostID else Some c.

(** The registry sweep and reply of [handleGracefulLeave], after [drainHost]. *)
Definition gracefulLeaveFinish (env : Env) (c : Coord) (leavingID : string) : Coord :=
  let c := match HostRegistry.Get (hosts c) leavingID with
           | None => c
           | Some host => fold_left (fun c cell => release_cell cfg env c leavingID cell)
                            (corder env (OwnedCells host)) c
           end in
  (sendCoordMessageToHost env c leavingID (MsgCellsDrained leavingID)).1.

(** ** Gateways *)

Definition on_session_announce (env : Env) (c : Coord) (gatewayID : string) (conn : Z)
  (username host cell userID : string) : Coord :=
  let key := mkSessionKey gatewayID conn in
  if String.eqb host ""
  then
    let c := upd_routes c (SessionRoutes.Remove (routes c) key) in
    let c := upd_gateways c (RemoveSession (gateways c) gatewayID key) in
    if negb (String.eqb username "")
    then match players c !! username with
         | Some loc => notifySessionDisconnected c username (pl_HostID loc) (pl_CellID loc)
         | None => c
         end
    else c
  else
    let c := upd_routes c (Set_ (routes c) (mkSessionRoute key username host cell 1)) in
    let c := upd_gateways c (AddSession (gateways c) gatewayID key) in
    let c := if negb (String.eqb username "") then notifySessionActive c username host cell else c in
    match (if String.eqb userID "" then None else uuid_parse userID) with
    | Some uid =>
        if uid =? 0 then c
        else registerAuthenticatedSession c uid username gatewayID conn host cell
    | None => c
    end.

Definition handleGatewayMessage (env : Env) (c : Coord) (gatewayID : string) (m : HostMessage) : Coord :=
  match m with
  | HMHeartbeat _ _ => upd_gateways c (GatewayRegistry.Touch (now env) (gateways c) gatewayID)
  | HMSessionAnnounce gateway conn username host cell userID =>
      if bindIdentity gatewayID gateway
      then on_session_announce env c gatewayID conn username host cell userID else c
  | HMResolveSpawn req _ _ => emit c (OCall (CallResolveSpawn gatewayID req))
  | HMServiceAnnounce host kind instance ops => service_announce env c gatewayID host kind instance ops
  | HMServiceLeave instance => service_leave env c instance
  | HMServiceEventSubscribe types => service_subscribe env c gatewayID types
  | HMCommandResponse req => emit c (OCall (CallCommandResponse req))
  | _ => c
  end.

Definition gatewayRegisterRest (env : Env) (c : Coord) (gatewayID wsAddr grpcAddr : string)
  : Coord * bool :=
  let c := upd_gateways c (GatewayRegistry.Register (now env) (gateways c) gatewayID
                             wsAddr grpcAddr) in
  let '(c, ok) := sendCoordMessageToGateway env c gatewayID MsgRegisterAck in
  if negb ok then (c, false)
  else
    let c := (sendCoordMessageToGateway env c gatewayID (MsgPeerList (buildPeerList env c))).1 in
    (broadcastPeerList env c, true).

Definition handleGatewayRegister (env : Env) (c : Coord) (gatewayID wsAddr grpcAddr : string)
  (fingerprint : Z) : Coord * result AdmitError (nat * bool) :=
  match admitGatewayRegistration env c gatewayID with
  | Err e => (c, Err e)
  | Ok _ =>
      match admitSchemaFingerprint cfg fingerprint with
      | Err e => (c, Err e)
      | Ok _ =>
          let '(c, self) := registerGatewayStream c gatewayID in
          let '(c, ok) := gatewayRegisterRest env c gatewayID wsAddr grpcAddr in
          (c, Ok (self, ok))
      end
  end.

Definition gatewayTeardownBody (env : Env) (c : Coord) (gatewayID : string) : Coord :=
  match GatewayRegistry.Get (gateways c) gatewayID with
  | None => c
  | Some gw =>
      if decide (Sessions gw = ∅)
      then
        let c := upd_gateways c (GatewayRegistry.MarkLeaving (gateways c) gatewayID) in
        let c := upd_gateways c (GatewayRegistry.Remove (gateways c) gatewayID) in
        broadcastPeerList env (drop_services env c gatewayID)
      else
        let c := upd_gateways c (GatewayRegistry.MarkDead (gateways c) gatewayID) in
        let c := upd_routes c (RemoveByGateway (rorder env) (routes c) gatewayID).1 in
        broadcastPeerList env (drop_services env c gatewayID)
  end.

Definition gatewayTeardown (env : Env) (c : Coord) (gatewayID : string) (self : nat) : Coord :=
  let '(c, ok) := releaseGatewayStream c gatewayID self in
  if ok then gatewayTeardownBody env c gatewayID else c.

Definition handleInboundResolveSpawn (env : Env) (c : Coord) (gatewayID : string) (req : Z)
  (username userID : string) : Coord :=
  let uid := if String.eqb userID "" then 0 else default 0 (uuid_parse userID) in
  let '(x, y) := resolver username uid in
  let '(reconnect, rejected) :=
    if negb (uid =? 0) then applyResolveSpawnReconnect env c uid else (None, false) in
  (sendCoordMessageToGateway env c gatewayID (MsgSpawnResolved req x y reconnect rejected)).1.
End Handlers.
