(* ===== verification/ControlFence.v ===== *)
(** * Fencing of control streams (pkg/universe/mesh_control_server.go,
      registration_admission.go)

    The interleaving of control-stream handlers.  A handler runs admission, swaps
    itself into the stream table, closes its predecessor's kill channel, registers,
    receives messages, and on its way out
    releases its stream and tears its registration down; the server lock is free
    between any two of these, so each is a step of its own, and the liveness
    watchers, the settle loop, the console's cancel and every other handler run in
    between.  [Handler] is the program counter of one stream handler. *)

From S2P Require Import Prelude Float32 CellId Topology NetId SessionRoutes Rendezvous.
From S2P Require Import HostRegistry GatewayRegistry Services ControlPlane.

(** The stream tables of the control server. *)
Definition stab (c : Coord) := (streams c, gatewayStreams c, killed c, streamSeq c).

(** ** Operations that leave the stream tables alone *)

Lemma stab_emit c o : stab (emit c o) = stab c.
Proof. done. Qed.
Lemma stab_hosts c x : stab (upd_hosts c x) = stab c.
Proof. done. Qed.
Lemma stab_gateways c x : stab (upd_gateways c x) = stab c.
Proof. done. Qed.
Lemma stab_services c x y : stab (upd_services c x y) = stab c.
Proof. done. Qed.
Lemma stab_routes c x : stab (upd_routes c x) = stab c.
Proof. done. Qed.
Lemma stab_players c x y z : stab (upd_players c x y z) = stab c.
Proof. done. Qed.
Lemma stab_topology c x : stab (upd_topology c x) = stab c.
Proof. done. Qed.
Lemma stab_netid c x y : stab (upd_netid c x y) = stab c.
Proof. done. Qed.
Lemma stab_settle c x y z : stab (upd_settle c x y z) = stab c.
Proof. done. Qed.
#[export] Hint Rewrite stab_emit stab_hosts stab_gateways stab_services stab_routes stab_players
  stab_topology stab_netid stab_settle : stab.

Ltac stab := autorewrite with stab; try done.

Lemma stab_send_host env c h m : stab (sendCoordMessageToHost env c h m).1 = stab c.
Proof. unfold sendCoordMessageToHost. repeat case_match; simpl; stab. Qed.
Lemma stab_send_gateway env c h m : stab (sendCoordMessageToGateway env c h m).1 = stab c.
Proof. unfold sendCoordMessageToGateway. repeat case_match; simpl; stab. Qed.
#[export] Hint Rewrite stab_send_host stab_send_gateway : stab.

Lemma stab_fold {A} (f : Coord -> A -> Coord) l c :
  (forall c x, stab (f c x) = stab c) -> stab (fold_left f l c) = stab c.
Proof. intros H. revert c. induction l as [|x l IH]; intros c; simpl; [done|]. by rewrite IH, H. Qed.

Lemma stab_foldM {A} (f : Coord -> A -> option Coord) l c c' :
  (forall c x c', f c x = Some c' -> stab c' = stab c) -> foldM f l c = Some c' -> stab c' = stab c.
Proof.
  intros H. revert c. induction l as [|x l IH]; intros c Hf; simpl in Hf; [by simplify_eq|].
  destruct (f c x) as [c1|] eqn:E; [|done]. by rewrite (IH _ Hf), (H _ _ _ E).
Qed.

Lemma stab_broadcast env c : stab (broadcastPeerList env c) = stab c.
Proof.
  unfold broadcastPeerList. rewrite !stab_fold; [stab; rewrite stab_fold; [done|]|];
    intros; case_match; stab.
Qed.
Lemma stab_rebuild cfg env c cell : stab (rebuildTopologyForCell cfg env c cell) = stab c.
Proof. unfold rebuildTopologyForCell. case_match; stab. Qed.
#[export] Hint Rewrite stab_broadcast stab_rebuild : stab.

Lemma stab_release_cell cfg env c h cell : stab (release_cell cfg env c h cell) = stab c.
Proof. unfold release_cell. stab. Qed.
Lemma stab_assign_cell cfg env c h cell : stab (assign_cell cfg env c h cell).1 = stab c.
Proof. unfold assign_cell. case_match; simpl; stab. Qed.
#[export] Hint Rewrite stab_release_cell stab_assign_cell : stab.

Lemma send_pair env c h m c' ok :
  sendCoordMessageToHost env c h m = (c', ok) -> stab c' = stab c.
Proof. intros H. by rewrite <- (stab_send_host env c h m), H. Qed.

Lemma stab_dispatch_release cfg env c h cell : stab (dispatchCellRelease cfg env c h cell) = stab c.
Proof.
  unfold dispatchCellRelease. destruct (sendCoordMessageToHost _ _ _ _) as [c1 ok] eqn:E.
  apply send_pair in E. destruct ok; simpl; stab.
Qed.
#[export] Hint Rewrite stab_dispatch_release : stab.

Lemma stab_next_grant c c' s : next_grant c = Some (c', s) -> stab c' = stab c.
Proof. unfold next_grant. intros. repeat case_match; simplify_eq; stab. Qed.

Lemma stab_dispatch_assign cfg env c h cell c' :
  dispatchCellAssign cfg env c h cell = Some c' -> stab c' = stab c.
Proof.
  unfold dispatchCellAssign. destruct (next_grant c) as [[c1 start]|] eqn:E1; [|done].
  apply stab_next_grant in E1.
  destruct (sendCoordMessageToHost env c1 _ _) as [c2 ok2] eqn:E2. apply send_pair in E2.
  destruct ok2; simpl; [|by intros [= <-]; congruence].
  destruct (sendCoordMessageToHost env c2 _ _) as [c3 ok3] eqn:E3. apply send_pair in E3.
  destruct ok3; simpl; intros [= <-]; stab; congruence.
Qed.

Lemma stab_reassign cfg env c dead c' :
  reassignOrphanedCells cfg env c dead = Some c' -> stab c' = stab c.
Proof.
  unfold reassignOrphanedCells. destruct (live_ids env c) eqn:El; [by intros [= <-]|].
  destruct (foldM _ _ _) as [c1|] eqn:E; [|done]. simpl. intros [= <-]. stab.
  eapply stab_foldM; [|exact E]. intros c2 x c3 H. cbv beta in H.
  apply stab_dispatch_assign in H. rewrite H. stab.
Qed.

Lemma stab_rebalance cfg env c c' : rebalance cfg env c = Some c' -> stab c' = stab c.
Proof.
  unfold rebalance. case_match eqn:El; [by intros [= <-]|].
  destruct (foldM _ _ _) as [c1|] eqn:E; [|done]. simpl. intros [= <-]. stab.
  eapply stab_foldM; [|exact E]. intros c2 x c3 H.
  cbv beta in H. repeat case_match; simplify_eq; try done;
    match goal with H : dispatchCellAssign _ _ _ _ _ = _ |- _ => apply stab_dispatch_assign in H; rewrite H end;
    stab.
Qed.

Lemma stab_settle_tick cfg env c c' : settle_tick cfg env c = Some c' -> stab c' = stab c.
Proof.
  unfold settle_tick. repeat case_match; intros Hr; simplify_eq; try done.
  by rewrite (stab_rebalance _ _ _ _ Hr).
Qed.

Lemma stab_gateway_liveness env c : stab (checkGatewayLiveness env c) = stab c.
Proof. apply stab_fold. intros. unfold drop_services. repeat case_match; stab. Qed.

Lemma stab_on_registered cfg env c : stab (onHostRegistered cfg env c) = stab c.
Proof. unfold onHostRegistered. case_match; stab. Qed.
#[export] Hint Rewrite stab_on_registered stab_gateway_liveness : stab.

Lemma stab_migrated cfg env c g conn dh dc : stab (notifyPlayerMigrated cfg env c g conn dh dc) = stab c.
Proof.
  unfold notifyPlayerMigrated. destruct (Migrate _ _ _ _) as [r [e|]]; [|done].
  unfold dispatchUpstreamSwitch, dispatchSessionRegister, notifySessionActive, set_player.
  repeat case_match; stab.
Qed.
#[export] Hint Rewrite stab_migrated : stab.

Lemma stab_host_message cfg env c h m : stab (handleHostMessage cfg env c h m) = stab c.
Proof.
  unfold handleHostMessage, on_cell_ready, cell_ready_act, service_announce, service_leave, service_subscribe.
  repeat case_match; stab.
Qed.

Lemma stab_gateway_message up env c g m : stab (handleGatewayMessage up env c g m) = stab c.
Proof.
  unfold handleGatewayMessage, on_session_announce, service_announce, service_leave, service_subscribe,
    registerAuthenticatedSession, notifySessionDisconnected, notifySessionActive, set_player.
  repeat case_match; stab.
Qed.

Lemma stab_host_rest cfg env c h a p s : stab (hostRegisterRest cfg env c h a p s).1 = stab c.
Proof.
  unfold hostRegisterRest. destruct (sendCoordMessageToHost _ _ _ _) as [c1 ok] eqn:E.
  apply send_pair in E. destruct ok; simpl; stab.
Qed.

Lemma stab_gateway_rest env c g w a : stab (gatewayRegisterRest env c g w a).1 = stab c.
Proof.
  unfold gatewayRegisterRest. destruct (sendCoordMessageToGateway _ _ _ _) as [c1 ok] eqn:E.
  assert (stab c1 = stab c) by (by rewrite <- (stab_send_gateway env _ g MsgRegisterAck), E || 
    (match type of E with sendCoordMessageToGateway ?e ?c0 ?g0 ?m0 = _ =>
       pose proof (stab_send_gateway e c0 g0 m0) as H; rewrite E in H; exact H end)).
  destruct ok; simpl; stab.
Qed.

Lemma stab_host_body cfg env c h c' : hostTeardownBody cfg env c h = Some c' -> stab c' = stab c.
Proof.
  unfold hostTeardownBody, drop_services. repeat case_match; intros Hr; simplify_eq; stab.
  apply stab_reassign in Hr. rewrite Hr. stab.
Qed.

Lemma stab_gateway_body env c g : stab (gatewayTeardownBody env c g) = stab c.
Proof. unfold gatewayTeardownBody, drop_services. repeat case_match; stab. Qed.

Lemma stab_leave cfg env c h : stab (gracefulLeaveFinish cfg env c h) = stab c.
Proof. unfold gracefulLeaveFinish. stab. case_match; [|done]. apply stab_fold. intros; stab. Qed.

(** ** Handlers and their interleaving *)

Inductive Kind := KHost | KGateway.

#[export] Instance Kind_eq_dec : EqDecision Kind.
Proof. solve_decision. Defined.

(** Where a handler is: admitted, in the stream table with its predecessor still to be
    told to stop, in the table, receiving, or past the release of its stream with the
    rest of its teardown to come. *)
Inductive Phase :=
| PastAdmission
| Swapping (p : nat) (old : option nat)
| Swapped (p : nat)
| Running (p : nat)
| Releasing (p : nat).

Record Handler := mkHandler { h_kind : Kind; h_id : string; h_phase : Phase }.

Record RegArgs := mkRegArgs {
  ra_addr : string; ra_ws : string; ra_db : bool; ra_service : bool; ra_fingerprint : Z
}.

Section Interleaving.
Context (uuid_parse : string -> option Z) (cfg : Config).

(** The host and the gateway handler, side by side. *)
Definition table (k : Kind) (c : Coord) : gmap string nat :=
  match k with KHost => streams c | KGateway => gatewayStreams c end.

Definition k_admit (k : Kind) : Env -> Coord -> string -> result AdmitError unit :=
  match k with KHost => admitHostRegistration | KGateway => admitGatewayRegistration end.

Definition k_swap (k : Kind) : Coord -> string -> Coord * nat * option nat :=
  match k with KHost => swapHostStream | KGateway => swapGatewayStream end.

Definition k_rest (k : Kind) (env : Env) (c : Coord) (id : string) (a : RegArgs) : Coord * bool :=
  match k with
  | KHost => hostRegisterRest cfg env c id (ra_addr a) (ra_db a) (ra_service a)
  | KGateway => gatewayRegisterRest env c id (ra_ws a) (ra_addr a)
  end.

Definition k_message (k : Kind) (env : Env) (c : Coord) (id : string) (m : HostMessage) : Coord :=
  match k with
  | KHost => handleHostMessage cfg env c id m
  | KGateway => handleGatewayMessage uuid_parse env c id m
  end.

Definition k_release (k : Kind) : Coord -> string -> nat -> Coord * bool :=
  match k with KHost => releaseHostStream | KGateway => releaseGatewayStream end.

Definition k_body (k : Kind) (env : Env) (c : Coord) (id : string) : option Coord :=
  match k with
  | KHost => hostTeardownBody cfg env c id
  | KGateway => Some (gatewayTeardownBody env c id)
  end.

Definition k_cancel (k : Kind) (c : Coord) (id : string) : Coord :=
  match k with KHost => (cancelStream c id).1 | KGateway => (cancelGatewayStream c id).1 end.

(** What runs beside the handlers: the watchers, the settle loop, the rebalance
    and graceful-leave goroutines, and the console's cancel. *)
Inductive background : Coord -> Coord -> Prop :=
| bg_liveness env c c' : checkLiveness cfg env c = Some c' -> background c c'
| bg_gateway_liveness env c : background c (checkGatewayLiveness env c)
| bg_settle env c c' : settle_tick cfg env c = Some c' -> background c c'
| bg_rebalance env c c' : rebalance cfg env c = Some c' -> background c c'
| bg_leave env c id : background c (gracefulLeaveFinish cfg env c id)
| bg_cancel k c id : background c (k_cancel k c id).

(** A handler that finds its kill channel closed and one whose [Recv] fails leave
    the loop the same way; [select] may still take a pending message first. *)
Inductive cstep : Coord * gmap nat Handler -> Coord * gmap nat Handler -> Prop :=
| cs_admit env k id fp t c H :
    H !! t = None -> k_admit k env c id = Ok tt -> admitSchemaFingerprint cfg fp = Ok tt ->
    cstep (c, H) (c, <[t := mkHandler k id PastAdmission]> H)
| cs_swap k id t c c' p old H :
    H !! t = Some (mkHandler k id PastAdmission) -> k_swap k c id = (c', p, old) ->
    cstep (c, H) (c', <[t := mkHandler k id (Swapping p old)]> H)
| cs_close k id t c p old H :
    H !! t = Some (mkHandler k id (Swapping p old)) ->
    cstep (c, H) (closeOld c old, <[t := mkHandler k id (Swapped p)]> H)
| cs_register env k id a t c c' p H :
    H !! t = Some (mkHandler k id (Swapped p)) -> k_rest k env c id a = (c', true) ->
    cstep (c, H) (c', <[t := mkHandler k id (Running p)]> H)
| cs_register_failed env k id a t c c' p H :
    H !! t = Some (mkHandler k id (Swapped p)) -> k_rest k env c id a = (c', false) ->
    cstep (c, H) (c', delete t H)
| cs_message env k id m t c p H :
    H !! t = Some (mkHandler k id (Running p)) ->
    cstep (c, H) (k_message k env c id m, H)
| cs_release k id t c c' p H :
    H !! t = Some (mkHandler k id (Running p)) -> k_release k c id p = (c', true) ->
    cstep (c, H) (c', <[t := mkHandler k id (Releasing p)]> H)
| cs_superseded k id t c c' p H :
    H !! t = Some (mkHandler k id (Running p)) -> k_release k c id p = (c', false) ->
    cstep (c, H) (c', delete t H)
| cs_teardown env k id t c c' p H :
    H !! t = Some (mkHandler k id (Releasing p)) -> k_body k env c id = Some c' ->
    cstep (c, H) (c', delete t H)
| cs_background c c' H : background c c' -> cstep (c, H) (c', H).

(** ** The invariant *)

Definition holds (h : Handler) (p : nat) : Prop :=
  match h_phase h with Swapping q _ | Swapped q | Running q => q = p | _ => False end.

(** The handler [t] is about to close the kill channel of [p]. *)
Definition closing (H : gmap nat Handler) (t : nat) (k : Kind) (id : string) (p : nat) : Prop :=
  exists q, H !! t = Some (mkHandler k id (Swapping q (Some p))).

(** [p] has been told to stop, or its successor is about to tell it. *)
Definition doomed (s : Coord * gmap nat Handler) (k : Kind) (id : string) (p : nat) : Prop :=
  p ∈ killed s.1 \/ exists t, closing s.2 t k id p.

Record fenced (s : Coord * gmap nat Handler) : Prop := {
  f_bound : forall k i p, table k s.1 !! i = Some p -> (p <= streamSeq s.1)%nat;
  f_inj : forall k i k' i' p, table k s.1 !! i = Some p -> table k' s.1 !! i' = Some p ->
    k = k' /\ i = i';
  f_killed : forall p, p ∈ killed s.1 -> (p <= streamSeq s.1)%nat;
  f_held : forall t h p, s.2 !! t = Some h -> holds h p ->
    (p <= streamSeq s.1)%nat /\
    (table (h_kind h) s.1 !! h_id h = Some p \/
     (doomed s (h_kind h) (h_id h) p /\ forall k i, table k s.1 !! i <> Some p));
  f_closing : forall t k i p, closing s.2 t k i p -> (p <= streamSeq s.1)%nat;
  f_uniq : forall t t' h h' p, s.2 !! t = Some h -> s.2 !! t' = Some h' ->
    holds h p -> holds h' p -> t = t'
}.

Lemma fenced_stab c c' H : stab c' = stab c -> fenced (c, H) -> fenced (c', H).
Proof.
  unfold stab. intros E [H1 H2 H3 H4 H6 H5]. injection E as E1 E2 E3 E4.
  assert (forall k, table k c' = table k c) as Et by (by intros []; simpl).
  constructor; simpl in *.
  - intros k i p. rewrite Et, E4. apply H1.
  - intros k i k' i' p. rewrite !Et. apply H2.
  - intros p. rewrite E3, E4. apply H3.
  - intros t h p Ht Hh. unfold doomed in *. simpl in *. rewrite Et, E3, E4.
    destruct (H4 t h p Ht Hh) as [Hb [Hc|[Hk Hn]]].
    + split; [done|by left].
    + split; [done|right]. split; [done|]. intros k i. rewrite Et. apply Hn.
  - intros t k i p. rewrite E4. apply H6.
  - exact H5.
Qed.

(** A handler that is not between its swap and its close moves on. *)
Definition not_closing (H : gmap nat Handler) (t : nat) : Prop := forall k i p, ~ closing H t k i p.

Lemma closing_insert H t h t' k i p : closing H t' k i p -> not_closing H t -> closing (<[t := h]> H) t' k i p.
Proof.
  intros [q E] Hn. exists q. rewrite lookup_insert_ne; [done|]. intros ->. destruct (Hn k i p). by exists q.
Qed.

Lemma closing_inserted H t h t' k i p : closing (<[t := h]> H) t' k i p ->
  (t' = t /\ exists q, h = mkHandler k i (Swapping q (Some p))) \/ closing H t' k i p.
Proof.
  intros [q E]. rewrite lookup_insert in E. case_decide as Ht; [left|right; by exists q]. simplify_eq. eauto.
Qed.

Lemma doomed_insert c H t h k i p : doomed (c, H) k i p -> not_closing H t -> doomed (c, <[t := h]> H) k i p.
Proof. intros [Hk|[t' Hc]] Hn; [by left|]. right. exists t'. by apply closing_insert. Qed.

Lemma fenced_phase c H t h : not_closing H t -> (forall q o, h_phase h <> Swapping q o) ->
  (forall p, holds h p -> exists h', H !! t = Some h' /\ holds h' p /\
     h_kind h' = h_kind h /\ h_id h' = h_id h) ->
  fenced (c, H) -> fenced (c, <[t := h]> H).
Proof.
  intros Hnc Hns Hh [H1 H2 H3 H4 H6 H5]. constructor; simpl in *; try done.
  - assert (forall t' h' p, H !! t' = Some h' -> holds h' p -> (p <= streamSeq c)%nat /\
      (table (h_kind h') c !! h_id h' = Some p \/
       doomed (c, <[t := h]> H) (h_kind h') (h_id h') p /\ forall k i, table k c !! i <> Some p)) as Hl.
    { intros t' h' p E Hp. destruct (H4 t' h' p E Hp) as [Hb [Hc|[Hd Hn]]]; split; auto. right. split; [by apply doomed_insert|done]. }
    intros t' h' p Ht Hp. rewrite lookup_insert in Ht. destruct (decide (t = t')) as [<-|]; [|eauto].
    simplify_eq. destruct (Hh p Hp) as (h0 & E & Hp0 & Hk & Hi).
    specialize (Hl t h0 p E Hp0). by rewrite Hk, Hi in Hl.
  - intros t' k i p [[_ [q ->]]|Hc]%closing_inserted; [by destruct (Hns q (Some p))|eauto].
  - assert (forall t0 h0 p, <[t := h]> H !! t0 = Some h0 -> holds h0 p ->
              exists h1, H !! t0 = Some h1 /\ holds h1 p) as Hl.
    { intros t0 h0 p E Hp. rewrite lookup_insert in E. destruct (decide (t = t0)) as [<-|]; [|eauto].
      simplify_eq. destruct (Hh p Hp) as (h1 & E1 & Hp1 & _). eauto. }
    intros t1 t2 h1 h2 p E1 E2 P1 P2.
    destruct (Hl _ _ _ E1 P1) as (h1' & E1' & P1'), (Hl _ _ _ E2 P2) as (h2' & E2' & P2').
    by eapply H5.
Qed.

Lemma fenced_delete c H t : not_closing H t -> fenced (c, H) -> fenced (c, delete t H).
Proof.
  intros Hnc [H1 H2 H3 H4 H6 H5]. constructor; simpl in *; try done.
  - intros t' h p E Hp. apply lookup_delete_Some in E as [_ E]. destruct (H4 t' h p E Hp) as [Hb [Hc|[Hd Hn]]]; split; auto.
    right. split; [|done]. destruct Hd as [Hd|[t1 [q E1]]]; [by left|]. right. exists t1, q. simpl in *. rewrite lookup_delete_ne; [done|].
    intros ->. destruct (Hnc (h_kind h) (h_id h) p). by exists q.
  - intros t' k i p [q E]. apply lookup_delete_Some in E as [_ E]. apply (H6 t' k i p). by exists q.
  - intros t1 t2 h1 h2 p E1 E2. apply lookup_delete_Some in E1 as [_ E1], E2 as [_ E2]. eauto.
Qed.

Lemma not_closing_at H t h : H !! t = Some h -> (forall q o, h_phase h <> Swapping q o) -> not_closing H t.
Proof. intros E Hn k i p [q E']. rewrite E in E'. injection E' as ->. by destruct (Hn q (Some p)). Qed.

(** What a swap does to the tables. *)
Lemma swap_spec k c id c' p old : k_swap k c id = (c', p, old) ->
  p = S (streamSeq c) /\ streamSeq c' = p /\ old = table k c !! id /\ killed c' = killed c /\
  (forall k' i, table k' c' !! i = if decide (k' = k /\ i = id) then Some p else table k' c !! i).
Proof using. clear uuid_parse cfg.
  destruct k; simpl; unfold swapHostStream, swapGatewayStream; intros E;
    injection E as Ec Ep Eo; subst p c' old; rewrite Nat.add_1_r; do 4 (split; [done|]);
    intros k' i; destruct k'; simpl; rewrite ?lookup_insert; repeat case_decide; naive_solver.
Qed.

Lemma fenced_swap k id t c c' p old H :
  H !! t = Some (mkHandler k id PastAdmission) -> k_swap k c id = (c', p, old) ->
  fenced (c, H) -> fenced (c', <[t := mkHandler k id (Swapping p old)]> H).
Proof.
  intros Ht Es [H1 H2 H3 H4 H6 H5]. apply swap_spec in Es as (-> & Eseq & Eo & Ek & Et).
  assert (not_closing H t) as Hnc by (by eapply not_closing_at).
  set (h0 := mkHandler k id _). simpl in *.
  assert (forall k' i q, doomed (c, H) k' i q -> doomed (c', <[t := h0]> H) k' i q) as Hdoom.
  { intros k' i q Hd. apply (doomed_insert c' H t h0); [|done]. destruct Hd as [Hd|Hd]; [left; simpl in *; by rewrite Ek|by right]. }
  constructor; simpl; rewrite ?Eseq, ?Ek.
  - intros k' i p. rewrite Et. case_decide; [intros [= <-]; lia|]. intros E. specialize (H1 _ _ _ E). lia.
  - intros k1 i1 k2 i2 p. rewrite !Et. repeat case_decide; intros E1 E2; simplify_eq.
    + naive_solver.
    + specialize (H1 _ _ _ E2). lia.
    + specialize (H1 _ _ _ E1). lia.
    + eauto.
  - intros p Hk. specialize (H3 _ Hk). lia.
  - intros t' h q E Hq. rewrite lookup_insert in E. destruct (decide (t = t')) as [<-|Hne].
    + simplify_eq. unfold holds in Hq. simpl in *. subst q. split; [lia|left]. rewrite Et. by rewrite decide_True.
    + destruct (H4 t' h q E Hq) as [Hb Hc]. split; [lia|].
      rewrite Et. destruct (decide (h_kind h = k /\ h_id h = id)) as [[<- <-]|Hd].
      * right. destruct Hc as [Hc|[Hc Hn]].
        -- split; [right; exists t; exists (S (streamSeq c)); simpl; rewrite lookup_insert, decide_True by done; unfold h0; by rewrite Eo, Hc|].
           intros k' i. rewrite Et.
           case_decide as Hd; [intros [= <-]; lia|]. intros E'. destruct (H2 _ _ _ _ _ Hc E'); naive_solver.
        -- split; [by apply Hdoom|]. intros k' i. rewrite Et.
           case_decide; [intros [= <-]; lia|apply Hn].
      * destruct Hc as [Hc|[Hc Hn]]; [by left|right]. split; [by apply Hdoom|].
        intros k' i. rewrite Et. case_decide; [intros [= <-]; lia|apply Hn].
  - intros t' k' i q [[_ [q' [= _ _ _ ->]]]|Hc]%closing_inserted; [|specialize (H6 _ _ _ _ Hc); lia].
    symmetry in Eo. specialize (H1 _ _ _ Eo). lia.
  - assert (forall t0 h q, <[t := h0]> H !! t0 = Some h ->
              holds h q -> (t0 = t /\ q = S (streamSeq c)) \/ (H !! t0 = Some h /\ (q <= streamSeq c)%nat))
      as Hl.
    { intros t0 h q E Hq. rewrite lookup_insert in E. destruct (decide (t = t0)) as [<-|Hne].
      - simplify_eq. unfold holds in Hq. simpl in Hq. by left.
      - right. split; [done|]. by destruct (H4 t0 h q E Hq). }
    intros t1 t2 h1 h2 q E1 E2 P1 P2.
    destruct (Hl _ _ _ E1 P1) as [[-> ->]|[E1' B1]], (Hl _ _ _ E2 P2) as [[-> Q]|[E2' B2]];
      try done; try lia. by eapply H5.
Qed.

Lemma release_spec k c id p c' b : k_release k c id p = (c', b) ->
  if b then table k c !! id = Some p /\ killed c' = killed c /\ streamSeq c' = streamSeq c /\
       (forall k' i, table k' c' !! i = if decide (k' = k /\ i = id) then None else table k' c !! i)
  else c' = c /\ table k c !! id <> Some p.
Proof using. clear uuid_parse cfg.
  destruct k; simpl; unfold releaseHostStream, releaseGatewayStream; case_decide as Hd;
    intros [= <- <-]; try done; (split; [done|]); (split; [done|]); (split; [done|]);
    intros k' i; destruct k'; simpl; rewrite ?lookup_delete; repeat case_decide; naive_solver.
Qed.

Lemma fenced_release k id t c c' p H :
  H !! t = Some (mkHandler k id (Running p)) -> k_release k c id p = (c', true) ->
  fenced (c, H) -> fenced (c', <[t := mkHandler k id (Releasing p)]> H).
Proof.
  intros Ht Es [H1 H2 H3 H4 H6 H5]. apply release_spec in Es as (Eold & Ek & Eseq & Et).
  assert (not_closing H t) as Hnc by (by eapply not_closing_at). set (h0 := mkHandler k id _).
  assert (forall k' i q, doomed (c, H) k' i q -> doomed (c', <[t := h0]> H) k' i q) as Hdoom.
  { intros k' i q Hd. apply (doomed_insert c' H t h0); [|done]. destruct Hd as [Hd|Hd]; [left; simpl in *; by rewrite Ek|by right]. }
  simpl in *. constructor; simpl; rewrite ?Eseq, ?Ek.
  - intros k' i q. rewrite Et. case_decide; [done|]. apply H1.
  - intros k1 i1 k2 i2 q. rewrite !Et. repeat case_decide; try done. apply H2.
  - exact H3.
  - intros t' h q E Hq. rewrite lookup_insert in E. destruct (decide (t = t')) as [<-|Hne].
    { simplify_eq. by destruct Hq. }
    destruct (H4 t' h q E Hq) as [Hb Hc]. split; [done|]. rewrite Et.
    destruct Hc as [Hc|[Hc Hn]].
    + destruct (decide (h_kind h = k /\ h_id h = id)) as [[<- <-]|Hd]; [|by left].
      assert (q = p) as -> by congruence. destruct Hne. by apply (H5 _ _ _ _ p Ht E).
    + right. split; [by apply Hdoom|]. intros k' i. rewrite Et. case_decide; [done|apply Hn].
  - intros t' k' i q [[_ [q' [=]]]|Hc]%closing_inserted. by eapply H6.
  - intros t1 t2 h1 h2 q E1 E2 P1 P2. rewrite lookup_insert in E1, E2.
    destruct (decide (t = t1)) as [<-|]; [simplify_eq; by destruct P1|].
    destruct (decide (t = t2)) as [<-|]; [simplify_eq; by destruct P2|]. by eapply H5.
Qed.

(** Closing a kill channel. *)
Lemma fenced_kill c H p : (p <= streamSeq c)%nat -> fenced (c, H) -> fenced (closeKill c p, H).
Proof.
  intros Hp [H1 H2 H3 H4 H6 H5]. simpl in *. constructor; simpl; try done.
  - intros q. set_solver.
  - intros t h q E Hq. destruct (H4 t h q E Hq) as [Hb [Hc|[Hk Hn]]]; (split; [done|]).
    + by left.
    + right. split; [|exact Hn]. destruct Hk as [Hk|Hk]; [left|by right]. simpl in *. set_solver.
Qed.

Lemma fenced_close k id t c p old H : H !! t = Some (mkHandler k id (Swapping p old)) ->
  fenced (c, H) -> fenced (closeOld c old, <[t := mkHandler k id (Swapped p)]> H).
Proof.
  intros Ht Hf.
  assert (fenced (closeOld c old, H)) as [H1 H2 H3 H4 H6 H5].
  { destruct old as [o|]; [|done]. apply fenced_kill; [|done]. apply (f_closing _ Hf t k id). by exists p. }
  simpl in *. set (h0 := mkHandler k id (Swapped p)). constructor; simpl; try done.
  - assert (forall t' h' q, H !! t' = Some h' -> holds h' q -> (q <= streamSeq (closeOld c old))%nat /\
      (table (h_kind h') (closeOld c old) !! h_id h' = Some q \/
       doomed (closeOld c old, <[t := h0]> H) (h_kind h') (h_id h') q /\ forall k i, table k (closeOld c old) !! i <> Some q)) as Hl.
    { intros t' h' q E Hq. destruct (H4 t' h' q E Hq) as [Hb [Hc|[Hd Hn]]]; split; auto. right. split; [|done].
      destruct Hd as [Hd|[t1 [q1 E1]]]; [by left|]. simpl in E1. destruct (decide (t1 = t)) as [->|Hne].
      - rewrite Ht in E1. injection E1 as <- <- <- ->. left. simpl. set_solver.
      - right. exists t1, q1. simpl. by rewrite lookup_insert_ne. }
    intros t' h q E Hq. rewrite lookup_insert in E. destruct (decide (t = t')) as [<-|]; [|eauto].
    simplify_eq. exact (Hl t _ q Ht Hq).
  - intros t' k' i q [[_ [q' [=]]]|Hc]%closing_inserted. by eapply H6.
  - assert (forall t0 h q, <[t := h0]> H !! t0 = Some h -> holds h q -> exists h1, H !! t0 = Some h1 /\ holds h1 q) as Hl.
    { intros t0 h q E Hq. rewrite lookup_insert in E. destruct (decide (t = t0)) as [<-|]; [|eauto]. simplify_eq. eauto. }
    intros t1 t2 h1 h2 q E1 E2 P1 P2.
    destruct (Hl _ _ _ E1 P1) as (h1' & E1' & P1'), (Hl _ _ _ E2 P2) as (h2' & E2' & P2'). by eapply H5.
Qed.

Lemma fenced_cancel k c id H : fenced (c, H) -> fenced (k_cancel k c id, H).
Proof.
  intros Hf. pose proof (f_bound _ Hf) as Hb. simpl in Hb.
  destruct k; simpl; unfold cancelStream, cancelGatewayStream; destruct (_ !! id) eqn:E; simpl;
    try done; apply fenced_kill; try done; [by apply (Hb KHost id)|by apply (Hb KGateway id)].
Qed.

Lemma fenced_liveness env c c' H :
  checkLiveness cfg env c = Some c' -> fenced (c, H) -> fenced (c', H).
Proof.
  unfold checkLiveness. generalize (LiveHosts (horder env) (hosts c)). intros l.
  revert c. induction l as [|h l IH]; intros c E Hf; simpl in E; [by simplify_eq|].
  destruct (negb _); [by apply (IH c)|]. destruct (HostRegistry.Local h); [by apply (IH c)|].
  destruct (_ <=? _); [by apply (IH c)|].
  destruct (reassignOrphanedCells _ _ _ _) as [c1|] eqn:Er; [|done]. apply (IH c1 E).
  apply stab_reassign in Er. apply (fenced_stab _ _ _ Er).
  apply (fenced_stab (cancelStream (upd_hosts c (HostRegistry.MarkDead (hosts c) (HostRegistry.ID h)))
                        (HostRegistry.ID h)).1); [done|].
  apply (fenced_cancel KHost). by apply (fenced_stab c).
Qed.

Lemma fenced_background c c' H : background c c' -> fenced (c, H) -> fenced (c', H).
Proof.
  intros [env c1 c2 E|env c1|env c1 c2 E|env c1 c2 E|env c1 id|k c1 id] Hf.
  - by eapply fenced_liveness.
  - eapply fenced_stab; [apply stab_gateway_liveness|done].
  - eapply fenced_stab; [by eapply stab_settle_tick|done].
  - eapply fenced_stab; [by eapply stab_rebalance|done].
  - eapply fenced_stab; [apply stab_leave|done].
  - by apply fenced_cancel.
Qed.

Lemma stab_rest k env c id a c' b : k_rest k env c id a = (c', b) -> stab c' = stab c.
Proof.
  intros E. destruct k; simpl in E.
  - pose proof (stab_host_rest cfg env c id (ra_addr a) (ra_db a) (ra_service a)) as Hs.
    by rewrite E in Hs.
  - pose proof (stab_gateway_rest env c id (ra_ws a) (ra_addr a)) as Hs. by rewrite E in Hs.
Qed.

Lemma stab_message k env c id m : stab (k_message k env c id m) = stab c.
Proof. destruct k; [apply stab_host_message|apply stab_gateway_message]. Qed.

Lemma stab_body k env c id c' : k_body k env c id = Some c' -> stab c' = stab c.
Proof. destruct k; simpl; [apply stab_host_body|intros [= <-]; apply stab_gateway_body]. Qed.

Lemma fenced_step s s' : cstep s s' -> fenced s -> fenced s'.
Proof.
  intros [env k id fp t c H Ht _ _|k id t c c' p old H Ht E|k id t c p old H Ht|env k id a t c c' p H Ht E
         |env k id a t c c' p H Ht E|env k id m t c p H Ht|k id t c c' p H Ht E
         |k id t c c' p H Ht E|env k id t c c' p H Ht E|c c' H E] Hf.
  - apply fenced_phase; [|done|by intros p Hp|done]. intros k' i p [q E]. by rewrite Ht in E.
  - by eapply fenced_swap.
  - by apply (fenced_close k id t).
  - apply fenced_phase; [by eapply not_closing_at|done| |eapply fenced_stab; [by eapply stab_rest|done]].
    intros q Hq. eexists. by split_and!.
  - apply fenced_delete; [by eapply not_closing_at|]. eapply fenced_stab; [by eapply stab_rest|done].
  - eapply fenced_stab; [apply stab_message|done].
  - by eapply fenced_release.
  - apply release_spec in E as [-> _]. apply fenced_delete; [by eapply not_closing_at|done].
  - apply fenced_delete; [by eapply not_closing_at|]. eapply fenced_stab; [by eapply stab_body|done].
  - by eapply fenced_background.
Qed.

Definition init_streams (c : Coord) : Prop :=
  streams c = ∅ /\ gatewayStreams c = ∅ /\ killed c = ∅.

Lemma fenced_init c : init_streams c -> fenced (c, ∅).
Proof.
  intros (E1 & E2 & E3). assert (forall k, table k c = ∅) as Et by (by intros []).
  constructor; simpl.
  - intros k i p. by rewrite Et, lookup_empty.
  - intros k i k' i' p. by rewrite Et, lookup_empty.
  - rewrite E3. set_solver.
  - intros t h p E. by rewrite lookup_empty in E.
  - intros t k i p [q E]. by rewrite lookup_empty in E.
  - intros t t' h h' p E. by rewrite lookup_empty in E.
Qed.

Lemma fenced_reachable c0 s : init_streams c0 -> rtc cstep (c0, ∅) s -> fenced s.
Proof.
  intros Hi Hr. apply fenced_init in Hi. revert Hi. remember (c0, ∅) as s0 eqn:E0. clear E0.
  induction Hr; eauto using fenced_step.
Qed.

(** C4: control streams are fenced.  In every state the coordinator can reach, under
    any interleaving of registrations, messages, kills, watchers and teardowns, where a
    registration swaps itself into the stream table and closes its predecessor's kill
    channel in two steps: a receiving handler that the table does not record has been told
    to stop, or the handler that replaced it is at the very next step, which tells it; and
    its teardown changes nothing at all, so that a stale handler can never tear down the
    stream of the process that replaced it; and of the receiving handlers of one id and kind
    at most one has not been told to stop nor is about to be. *)
Theorem streams_fenced (c0 c : Coord) (H : gmap nat Handler) (t : nat) (k : Kind) (id : string) (p : nat) :
  init_streams c0 -> rtc cstep (c0, ∅) (c, H) ->
  H !! t = Some (mkHandler k id (Running p)) ->
  (~ doomed (c, H) k id p -> table k c !! id = Some p) /\
  (table k c !! id <> Some p ->
     k_release k c id p = (c, false) /\
     (p ∈ killed c \/
      exists t' q, H !! t' = Some (mkHandler k id (Swapping q (Some p))) /\
        cstep (c, H) (closeKill c p, <[t' := mkHandler k id (Swapped q)]> H))) /\
  (forall t' p', H !! t' = Some (mkHandler k id (Running p')) ->
     ~ doomed (c, H) k id p -> ~ doomed (c, H) k id p' -> t' = t).
Proof.
  intros Hi Hr Ht. destruct (fenced_reachable _ _ Hi Hr) as [H1 H2 H3 H4 H6 H5]; simpl in *.
  assert (forall t' p', H !! t' = Some (mkHandler k id (Running p')) -> ~ doomed (c, H) k id p' ->
            table k c !! id = Some p') as Hcur.
  { intros t' p' E Hk. by destruct (H4 _ _ p' E) as [_ [Hc|[Hc _]]]. }
  split; [by eapply Hcur|]. split.
  - intros Hne. destruct (H4 _ _ p Ht) as [_ [Hc|[Hc _]]]; [done|done|]. split.
    { destruct k; simpl in *; unfold releaseHostStream, releaseGatewayStream; by rewrite decide_False. }
    destruct Hc as [Hc|(t' & q & E)]; [by left|right]. exists t', q. split; [done|]. exact (cs_close _ _ _ _ _ (Some p) _ E).
  - intros t' p' E Hk Hk'. pose proof (Hcur _ _ Ht Hk). pose proof (Hcur _ _ E Hk').
    assert (p' = p) as -> by congruence. by eapply H5; [exact E|exact Ht| |].
Qed.

(** ** Schedules, executable *)

Inductive Action :=
| AAdmit (env : Env) (k : Kind) (id : string) (fp : Z) (t : nat)
| ASwap (t : nat)
| AClose (t : nat)
| ARegister (env : Env) (a : RegArgs) (t : nat)
| AMessage (env : Env) (m : HostMessage) (t : nat)
| ARelease (t : nat)
| ATeardown (env : Env) (t : nat)
| ALiveness (env : Env)
| ACancel (k : Kind) (id : string).

Definition exec1 (s : Coord * gmap nat Handler) (a : Action) : option (Coord * gmap nat Handler) :=
  let '(c, H) := s in
  match a with
  | AAdmit env k id fp t =>
      match H !! t, k_admit k env c id, admitSchemaFingerprint cfg fp with
      | None, Ok tt, Ok tt => Some (c, <[t := mkHandler k id PastAdmission]> H)
      | _, _, _ => None
      end
  | ASwap t =>
      match H !! t with
      | Some (mkHandler k id PastAdmission) =>
          let '(c', p, old) := k_swap k c id in Some (c', <[t := mkHandler k id (Swapping p old)]> H)
      | _ => None
      end
  | AClose t =>
      match H !! t with
      | Some (mkHandler k id (Swapping p old)) => Some (closeOld c old, <[t := mkHandler k id (Swapped p)]> H)
      | _ => None
      end
  | ARegister env a t =>
      match H !! t with
      | Some (mkHandler k id (Swapped p)) =>
          let '(c', ok) := k_rest k env c id a in
          Some (c', if ok : bool then <[t := mkHandler k id (Running p)]> H else delete t H)
      | _ => None
      end
  | AMessage env m t =>
      match H !! t with
      | Some (mkHandler k id (Running p)) => Some (k_message k env c id m, H)
      | _ => None
      end
  | ARelease t =>
      match H !! t with
      | Some (mkHandler k id (Running p)) =>
          let '(c', ok) := k_release k c id p in
          Some (c', if ok : bool then <[t := mkHandler k id (Releasing p)]> H else delete t H)
      | _ => None
      end
  | ATeardown env t =>
      match H !! t with
      | Some (mkHandler k id (Releasing p)) =>
          match k_body k env c id with Some c' => Some (c', delete t H) | None => None end
      | _ => None
      end
  | ALiveness env => match checkLiveness cfg env c with Some c' => Some (c', H) | None => None end
  | ACancel k id => Some (k_cancel k c id, H)
  end.

Fixpoint exec (l : list Action) (s : Coord * gmap nat Handler) : option (Coord * gmap nat Handler) :=
  match l with
  | [] => Some s
  | a :: l => match exec1 s a with Some s' => exec l s' | None => None end
  end.

Lemma exec1_sound s a s' : exec1 s a = Some s' -> cstep s s'.
Proof.
  destruct s as [c H], a; simpl; intros E.
  - repeat case_match; simplify_eq. by eapply cs_admit.
  - repeat case_match; simplify_eq. by eapply cs_swap.
  - repeat case_match; simplify_eq. by eapply cs_close.
  - repeat case_match; simplify_eq; [by eapply cs_register|by eapply cs_register_failed].
  - repeat case_match; simplify_eq. by eapply cs_message.
  - repeat case_match; simplify_eq; [by eapply cs_release|by eapply cs_superseded].
  - repeat case_match; simplify_eq. by eapply cs_teardown.
  - repeat case_match; simplify_eq. by eapply cs_background, bg_liveness.
  - simplify_eq. by apply cs_background, bg_cancel.
Qed.

Lemma exec_sound l s s' : exec l s = Some s' -> rtc cstep s s'.
Proof.
  revert s. induction l as [|a l IH]; intros s E; simpl in E; [simplify_eq; apply rtc_refl|].
  destruct (exec1 s a) as [s1|] eqn:E1; [|done].
  eapply rtc_l; [by eapply exec1_sound|by apply IH].
Qed.
End Interleaving.

(** ** A concrete coordinator *)

Definition coord0 : Coord :=
  mkCoord ∅ ∅ ∅ ∅ ∅ 0 NewCoordRegistry ∅ newSessionRoutes ∅ ∅ ∅ ∅ ∅
    (NewNetIDAllocator 0 netIDRangeSize) 0 false false 0 [].

Definition cfg0 : Config := mkConfig (10 * 10 ^ 9) (f32_of_int 500) 2 2 7 None.

(** Every send succeeds; the map orders list the ids used below. *)
Definition env_at (time : Z) : Env :=
  mkEnv time (fun _ => true) ["a"; "b"; "h"]%string (fun _ => ["a"; "b"; "h"]%string) ["g"]%string [] [] []
    (fun s => elements s).

Definition args0 : RegArgs := mkRegArgs "addr" "ws" false false 7.

(** The host's stream closes; between the release of its stream record and the
    rest of the teardown the host reconnects. *)
Definition race_schedule : list Action :=
  [AAdmit (env_at 0) KHost "h" 7 0; ASwap 0; AClose 0; ARegister (env_at 0) args0 0; ARelease 0;
   AAdmit (env_at 5) KHost "h" 7 1; ASwap 1; AClose 1; ARegister (env_at 5) args0 1; ATeardown (env_at 6) 0].

(** Two hosts of one id are admitted before either has swapped itself in. *)
Definition admission_schedule : list Action :=
  [AAdmit (env_at 0) KHost "h" 7 0; AAdmit (env_at 0) KHost "h" 7 1; ASwap 0; AClose 0; ARegister (env_at 0) args0 0;
   AMessage (env_at 5) (HMHeartbeat "h" []) 0; ASwap 1; AClose 1].

(** The same, where the second has swapped itself in but not yet told the first to stop. *)
Definition overtaking_schedule : list Action :=
  [AAdmit (env_at 0) KHost "h" 7 0; AAdmit (env_at 0) KHost "h" 7 1; ASwap 0; AClose 0; ARegister (env_at 0) args0 0;
   ASwap 1].

(** The pointer gate fences the stream record but not the registration: the server
    lock is released between [releaseHostStream] and the registry calls behind
    it, so a host that reconnects in between is removed from the registry by its
    predecessor's teardown.  Its handler keeps receiving on a live, recorded
    stream, its heartbeats touch nothing, and it is never assigned a cell. *)
Theorem teardown_removes_successor :
  exists c H, rtc (cstep (fun _ => None) cfg0) (coord0, ∅) (c, H) /\
    H !! 1%nat = Some (mkHandler KHost "h" (Running 2)) /\ (2%nat ∉ killed c) /\
    streams c !! "h"%string = Some 2%nat /\ hosts c !! "h"%string = None /\
    forall env metrics,
      hosts (handleHostMessage cfg0 env c "h" (HMHeartbeat "h" metrics)) !! "h"%string = None.
Proof.
  destruct (exec (fun _ => None) cfg0 race_schedule (coord0, ∅)) as [[c H]|] eqn:E; [|by vm_compute in E].
  exists c, H. split; [by eapply exec_sound|].
  vm_compute in E. injection E as <- <-. repeat split; try reflexivity.
  apply not_elem_of_empty.
Qed.

(** Admission and the stream swap are two critical sections: a second process with
    the id of a host that is heartbeating evicts it, which admission exists to
    prevent, when both pass admission first. *)
Theorem admission_is_not_atomic :
  exists c H, rtc (cstep (fun _ => None) cfg0) (coord0, ∅) (c, H) /\
    H !! 0%nat = Some (mkHandler KHost "h" (Running 1)) /\ 1%nat ∈ killed c /\
    (exists h, hosts c !! "h"%string = Some h /\ HostRegistry.State h = RemoteHostLive /\
       HostRegistry.LastHeartbeat h = 5) /\
    streams c !! "h"%string = Some 2%nat.
Proof.
  destruct (exec (fun _ => None) cfg0 admission_schedule (coord0, ∅)) as [[c H]|] eqn:E;
    [|by vm_compute in E].
  assert (killClosed c 1 = true) as Hk%bool_decide_eq_true_1
    by (vm_compute in E; injection E as <- <-; reflexivity).
  exists c, H. split; [by eapply exec_sound|]. split; [|split; [exact Hk|]];
    vm_compute in E; injection E as <- <-; [reflexivity|].
  split; [|reflexivity]. eexists. repeat split; reflexivity.
Qed.

Lemma streams_fenced_witness :
  exists (c : Coord) (H : gmap nat Handler), H !! 0%nat = Some (mkHandler KHost "h" (Running 1)) /\
    1%nat ∉ killed c /\ k_release KHost c "h" 1 = (c, false) /\
    (1%nat ∈ killed c \/
     exists t' q, H !! t' = Some (mkHandler KHost "h" (Swapping q (Some 1%nat))) /\
       cstep (fun _ => None) cfg0 (c, H) (closeKill c 1, <[t' := mkHandler KHost "h" (Swapped q)]> H)).
Proof.
  destruct (exec (fun _ => None) cfg0 overtaking_schedule (coord0, ∅)) as [[c H]|] eqn:E;
    [|by vm_compute in E].
  exists c, H.
  pose proof (exec_sound _ _ _ _ _ E) as Hr.
  assert (H !! 0%nat = Some (mkHandler KHost "h" (Running 1))) as Ht.
  { vm_compute in E. injection E as <- <-. reflexivity. }
  assert (table KHost c !! "h"%string <> Some 1%nat) as Hs.
  { vm_compute in E. injection E as <- <-. vm_compute. discriminate. }
  assert (killClosed c 1 = false) as Hk%bool_decide_eq_false_1 by (vm_compute in E; injection E as <- <-; reflexivity).
  split; [exact Ht|]. split; [exact Hk|].
  apply (streams_fenced (fun _ => None) cfg0 coord0 c H 0 KHost "h" 1); [done|exact Hr|exact Ht|exact Hs].
Defined.
