(* ===== verification/ControlAssign.v ===== *)
(** * Registration, liveness and cell assignment (pkg/universe/coord_assignment.go,
      mesh_control_server.go, registration_admission.go)

    What the control plane's operations do to the host registry: who is admitted,
    who is declared dead, where orphaned cells go, and which network ids a host
    is granted. *)

From S2P Require Import Prelude Float32 CellId Topology NetId SessionRoutes Rendezvous.
From S2P Require Import HostRegistry GatewayRegistry Services ControlPlane ControlFence.

(** ** Operations that leave the registry alone *)

Lemma hosts_emit c o : hosts (emit c o) = hosts c.
Proof. done. Qed.
Lemma hosts_send_host env c h m : hosts (sendCoordMessageToHost env c h m).1 = hosts c.
Proof. unfold sendCoordMessageToHost. repeat case_match; done. Qed.
Lemma hosts_send_gateway env c h m : hosts (sendCoordMessageToGateway env c h m).1 = hosts c.
Proof. unfold sendCoordMessageToGateway. repeat case_match; done. Qed.
Lemma hosts_rebuild cfg env c cell : hosts (rebuildTopologyForCell cfg env c cell) = hosts c.
Proof. unfold rebuildTopologyForCell. case_match; done. Qed.
#[export] Hint Rewrite hosts_emit hosts_send_host hosts_send_gateway hosts_rebuild : hosts.

Lemma hosts_fold {A} (f : Coord -> A -> Coord) l c :
  (forall c x, hosts (f c x) = hosts c) -> hosts (fold_left f l c) = hosts c.
Proof. intros H. revert c. induction l as [|x l IH]; intros c; simpl; [done|]. by rewrite IH, H. Qed.

Lemma hosts_broadcast env c : hosts (broadcastPeerList env c) = hosts c.
Proof.
  unfold broadcastPeerList. rewrite hosts_fold; [rewrite hosts_emit, hosts_fold; [done|]|];
    intros; case_match; autorewrite with hosts; done.
Qed.
Lemma hosts_on_registered cfg env c : hosts (onHostRegistered cfg env c) = hosts c.
Proof. unfold onHostRegistered. case_match; done. Qed.
#[export] Hint Rewrite hosts_broadcast hosts_on_registered : hosts.

(** ** Sends that succeed *)

(** The host has a stream, its own or the gateway's of that id, that accepts. *)
Definition reachable (env : Env) (c : Coord) (id : string) : Prop :=
  exists p, (match streams c !! id with Some p => Some p | None => gatewayStreams c !! id end) = Some p
            /\ net env p = true.

Lemma reachable_stab env c c' id : stab c' = stab c -> reachable env c id -> reachable env c' id.
Proof. unfold stab, reachable. intros [= -> -> _ _]. done. Qed.

Lemma send_reachable env c id m : reachable env c id ->
  exists p, sendCoordMessageToHost env c id m = (emit c (OSend p m), true).
Proof.
  intros (p & E & Hn). exists p. unfold sendCoordMessageToHost.
  destruct (streams c !! id); [simplify_eq; by rewrite Hn|]. rewrite E. by rewrite Hn.
Qed.

(** ** Network-id grants *)

Lemma next_grant_pos c :
  0 < nextNetIDStart c -> nextNetIDStart c + netIDRangeSize < 2 ^ 32 ->
  next_grant c = Some (upd_netid c (netIDAlloc c) (nextNetIDStart c + netIDRangeSize), nextNetIDStart c).
Proof.
  intros H1 H2. unfold next_grant. destruct (Z.eqb_spec (nextNetIDStart c) 0); [lia|].
  unfold u32. rewrite Z.mod_small; [done|]. unfold netIDRangeSize in *. lia.
Qed.

Lemma dispatch_assign_ok cfg env c id cell :
  reachable env c id -> is_Some (hosts c !! id) ->
  0 < nextNetIDStart c -> nextNetIDStart c + netIDRangeSize < 2 ^ 32 ->
  exists c' r, dispatchCellAssign cfg env c id cell = Some c' /\
    AssignCell (hosts c) id cell = Some r /\ hosts c' = r /\
    nextNetIDStart c' = nextNetIDStart c + netIDRangeSize.
Proof.
  intros Hr [h Hh] Hn Hb. unfold dispatchCellAssign. rewrite next_grant_pos by done.
  set (c1 := upd_netid _ _ _).
  destruct (send_reachable env c1 id (MsgNetIDRangeGrant id (nextNetIDStart c) netIDRangeSize))
    as [p Hp]; [by apply (reachable_stab env c)|].
  rewrite Hp. cbn [negb].
  destruct (send_reachable env (emit c1 (OSend p (MsgNetIDRangeGrant id (nextNetIDStart c) netIDRangeSize)))
              id (MsgCellAssign cell)) as [p' Hp']; [by apply (reachable_stab env c)|].
  rewrite Hp'. cbn [negb]. unfold assign_cell, AssignCell. cbn [hosts emit c1 upd_netid].
  unfold c1. cbn [hosts emit upd_netid]. rewrite Hh. cbn [fst].
  eexists _, _. split; [done|]. split; [done|]. rewrite hosts_rebuild. split; [done|].
  unfold rebuildTopologyForCell. by case_match.
Qed.

(** ** Orphaned cells *)

Lemma hosts_release_cell cfg env c id cell :
  hosts (release_cell cfg env c id cell) = ReleaseCell (hosts c) id cell.
Proof. unfold release_cell. by rewrite hosts_rebuild. Qed.

Lemma next_release_cell cfg env c id cell :
  nextNetIDStart (release_cell cfg env c id cell) = nextNetIDStart c.
Proof. unfold release_cell, rebuildTopologyForCell. by case_match. Qed.

Section Reassign.
Context (cfg : Config) (env : Env) (dead : RemoteHost) (live : list string).
Context (Hnil : live <> []) (Hne : Forall (fun h => h <> ""%string) live).
Context (Hdead : HostRegistry.ID dead ∉ live).

Let reassign_one (c : Coord) (cellID : string) : option Coord :=
  dispatchCellAssign cfg env (release_cell cfg env c (HostRegistry.ID dead) cellID)
    (AssignCellToHost cellID live) cellID.

Definition moved (cells : list string) (r r' : gmap string RemoteHost) : Prop :=
  forall k x, owns r' k x <->
    (x ∈ cells /\ k = AssignCellToHost x live) \/
    (owns r k x /\ ~ (x ∈ cells /\ k = HostRegistry.ID dead)).

Lemma reassign_loop cells c :
  (forall k, k ∈ live -> reachable env c k /\ is_Some (hosts c !! k)) ->
  0 < nextNetIDStart c -> nextNetIDStart c + netIDRangeSize * Z.of_nat (length cells) < 2 ^ 32 ->
  exists c', foldM reassign_one cells c = Some c' /\ moved cells (hosts c) (hosts c').
Proof.
  revert c. induction cells as [|x cells IH]; intros c Hlive Hn Hb.
  { exists c. split; [done|]. intros k y. rewrite elem_of_nil. tauto. }
  cbn [foldM length] in *. unfold reassign_one at 1.
  set (c1 := release_cell cfg env c (HostRegistry.ID dead) x).
  pose proof (AssignCellToHost_elem x live Hnil Hne) as Hin.
  destruct (Hlive _ Hin) as [Hreach Hsome].
  assert (hosts c1 = ReleaseCell (hosts c) (HostRegistry.ID dead) x) as Eh
    by apply hosts_release_cell.
  assert (nextNetIDStart c1 = nextNetIDStart c) as En by apply next_release_cell.
  assert (stab c1 = stab c) as Es by apply stab_release_cell.
  unfold netIDRangeSize in *.
  destruct (dispatch_assign_ok cfg env c1 (AssignCellToHost x live) x) as (c2 & r & Ed & Er & E2 & E2n).
  { by apply (reachable_stab env c). }
  { rewrite Eh. by apply ReleaseCell_dom. }
  { lia. }
  { unfold netIDRangeSize. lia. }
  rewrite Ed. destruct (IH c2) as (c' & Ef & Hm).
  { intros k Hk. destruct (Hlive k Hk) as [H1 H2]. split.
    - apply (reachable_stab env c); [|done]. by rewrite (stab_dispatch_assign _ _ _ _ _ _ Ed).
    - rewrite E2. apply (AssignCell_dom _ _ _ _ k Er). rewrite Eh. by apply ReleaseCell_dom. }
  { unfold netIDRangeSize in *. lia. }
  { unfold netIDRangeSize in *. lia. }
  exists c'. split; [exact Ef|]. intros k y. rewrite (Hm k y), E2, (owns_AssignCell _ _ _ _ k y Er), Eh.
  rewrite owns_ReleaseCell, elem_of_cons.
  assert (AssignCellToHost x live <> HostRegistry.ID dead) by (intros E; by rewrite E in Hin).
  destruct (decide (y = x)) as [->|Hyx]; [|tauto].
  destruct (decide (k = HostRegistry.ID dead)) as [->|Hkd];
    destruct (decide (x ∈ cells)); intuition congruence.
Qed.
End Reassign.

(** C13: a dead host's cells all find a home.  When the hosts that can bear cells are
    reachable and grants remain, reassigning a dead host's cells succeeds, and
    afterwards the registry says exactly this: each orphaned cell is owned by its
    rendezvous choice among the live hosts, the dead host owns none of them, and
    every other ownership is as before. *)
Theorem reassign_complete (cfg : Config) (env : Env) (c : Coord) (dead : RemoteHost) :
  (forall x, x ∈ corder env (OwnedCells dead) <-> x ∈ OwnedCells dead) ->
  live_ids env c <> [] -> Forall (fun h => h <> ""%string) (live_ids env c) ->
  HostRegistry.ID dead ∉ live_ids env c ->
  (forall k, k ∈ live_ids env c -> reachable env c k /\ is_Some (hosts c !! k)) ->
  0 < nextNetIDStart c ->
  nextNetIDStart c + netIDRangeSize * Z.of_nat (length (corder env (OwnedCells dead))) < 2 ^ 32 ->
  exists c', reassignOrphanedCells cfg env c dead = Some c' /\
    forall k x, owns (hosts c') k x <->
      (x ∈ OwnedCells dead /\ k = AssignCellToHost x (live_ids env c)) \/
      (owns (hosts c) k x /\ ~ (x ∈ OwnedCells dead /\ k = HostRegistry.ID dead)).
Proof.
  intros Hord Hnil Hne Hdead Hlive Hn Hb.
  destruct (reassign_loop cfg env dead _ Hnil Hne Hdead _ c Hlive Hn Hb) as (c' & Ef & Hm).
  exists (broadcastPeerList env c'). split.
  - unfold reassignOrphanedCells. cbv zeta. destruct (live_ids env c) eqn:El; [done|].
    rewrite Ef. done.
  - intros k x. rewrite hosts_broadcast, (Hm k x), !Hord. done.
Qed.

(** ** Liveness *)

Lemma hosts_send_pair env c h m c' ok : sendCoordMessageToHost env c h m = (c', ok) -> hosts c' = hosts c.
Proof. intros E. by rewrite <- (hosts_send_host env c h m), E. Qed.

Lemma life_dispatch_assign cfg env c id cell c' k :
  dispatchCellAssign cfg env c id cell = Some c' -> life <$> hosts c' !! k = life <$> hosts c !! k.
Proof.
  unfold dispatchCellAssign. destruct (next_grant c) as [[c3 start]|] eqn:Eg; [|done].
  assert (hosts c3 = hosts c) as <- by (unfold next_grant in Eg; repeat case_match; by simplify_eq).
  destruct (sendCoordMessageToHost env c3 _ _) as [c4 ok4] eqn:E4. apply hosts_send_pair in E4 as <-.
  destruct ok4; simpl; [|by intros [= <-]].
  destruct (sendCoordMessageToHost env c4 _ _) as [c5 ok5] eqn:E5. apply hosts_send_pair in E5 as <-.
  destruct ok5; simpl; [|by intros [= <-]].
  intros [= <-]. unfold assign_cell. destruct (AssignCell _ _ _) as [r|] eqn:Ea; simpl; [|done].
  rewrite hosts_rebuild. simpl. by rewrite (AssignCell_life _ _ _ _ _ Ea).
Qed.

Lemma life_reassign cfg env c dead c' k :
  reassignOrphanedCells cfg env c dead = Some c' -> life <$> hosts c' !! k = life <$> hosts c !! k.
Proof.
  unfold reassignOrphanedCells. cbv zeta. destruct (live_ids env c) as [|h0 hs] eqn:El; [by intros [= <-]|].
  destruct (foldM _ _ _) as [c1|] eqn:E; [|done]. simpl. intros [= <-]. rewrite hosts_broadcast.
  clear El. revert c E. induction (corder env (OwnedCells dead)) as [|x l IH]; intros c E; simpl in E;
    [by simplify_eq|].
  destruct (dispatchCellAssign _ _ _ _ _) as [c2|] eqn:Ed; [|done].
  rewrite (IH _ E), (life_dispatch_assign _ _ _ _ _ _ _ Ed), hosts_release_cell.
  apply ReleaseCell_life.
Qed.

(** The hosts the pass declares dead. *)
Definition stale (env : Env) (h : RemoteHost) : bool :=
  bool_decide (HostRegistry.State h = RemoteHostLive) && negb (HostRegistry.Local h)
  && (deadThreshold <? now env - HostRegistry.LastHeartbeat h).

Definition keyed (r : gmap string RemoteHost) : Prop := forall k h, r !! k = Some h -> HostRegistry.ID h = k.

Definition dead_life (l : string * RemoteHostState * Z * bool * bool) :=
  let '(id, _, hb, loc, svc) := l in (id, RemoteHostDead, hb, loc, svc).

Lemma MarkDead_life r id k :
  life <$> HostRegistry.MarkDead r id !! k
  = if decide (k = id) then dead_life <$> (life <$> r !! k) else life <$> r !! k.
Proof.
  unfold HostRegistry.MarkDead. destruct (r !! id) eqn:E.
  - rewrite lookup_insert. repeat case_decide; subst; try done. by rewrite E.
  - case_decide; [subst; by rewrite E|done].
Qed.

Definition hit (env : Env) (l : list RemoteHost) (k : string) : bool :=
  existsb (fun h => bool_decide (HostRegistry.ID h = k) && stale env h) l.

Lemma liveness_loop cfg env l c c' :
  foldM (fun c host =>
    if negb (bool_decide (HostRegistry.State host = RemoteHostLive)) then Some c
    else if HostRegistry.Local host then Some c
    else if now env - HostRegistry.LastHeartbeat host <=? deadThreshold then Some c
    else
      let c := upd_hosts c (HostRegistry.MarkDead (hosts c) (HostRegistry.ID host)) in
      let c := (cancelStream c (HostRegistry.ID host)).1 in
      let c := drop_services env c (HostRegistry.ID host) in
      let c := emit c (OCall (CallDropMetrics (HostRegistry.ID host))) in
      reassignOrphanedCells cfg env c host) l c = Some c' ->
  (forall k, life <$> hosts c' !! k
     = if hit env l k then dead_life <$> (life <$> hosts c !! k) else life <$> hosts c !! k) /\
  streams c' = streams c /\ killed c ⊆ killed c' /\
  (forall k p, hit env l k = true -> streams c !! k = Some p -> p ∈ killed c').
Proof.
  revert c. induction l as [|h l IH]; intros c E; [simpl in E; by simplify_eq|].
  cbn [foldM] in E. unfold hit in *. cbn [existsb].
  destruct (stale env h) eqn:Es; unfold stale in Es.
  2:{ setoid_rewrite andb_false_r. cbn [orb]. apply IH.
      destruct (bool_decide (HostRegistry.State h = RemoteHostLive)); [|exact E].
      destruct (HostRegistry.Local h); [exact E|]. cbn [negb andb] in *.
      apply Z.ltb_ge, Z.leb_le in Es. by rewrite Es in E. }
  setoid_rewrite andb_true_r.
  apply andb_true_iff in Es as [[Es1 Es2]%andb_true_iff Es3].
  rewrite Es1 in E. apply negb_true_iff in Es2. rewrite Es2 in E. cbn [negb] in E.
  apply Z.ltb_lt in Es3. rewrite (proj2 (Z.leb_gt _ _) Es3) in E. cbv zeta in E.
  destruct (reassignOrphanedCells _ _ _ _) as [c1|] eqn:Er; [|done].
  destruct (IH c1 E) as (Hl & Hs & Hk & Hx). clear IH.
  pose proof (stab_reassign _ _ _ _ _ Er) as Hst.
  set (ck := cancelStream (upd_hosts c (HostRegistry.MarkDead (hosts c) (HostRegistry.ID h)))
               (HostRegistry.ID h)) in *.
  assert (hosts ck.1 = HostRegistry.MarkDead (hosts c) (HostRegistry.ID h)) as Eh
    by (unfold ck, cancelStream; by case_match).
  assert (streams ck.1 = streams c /\ killed c ⊆ killed ck.1 /\
          forall p, streams c !! HostRegistry.ID h = Some p -> p ∈ killed ck.1) as (K1 & K2 & K3).
  { unfold ck, cancelStream. cbn [streams upd_hosts]. destruct (streams c !! _) as [q|]; simpl;
      (split; [done|]); (split; [set_solver|]); intros p; [intros [= <-]; set_solver|done]. }
  injection Hst as T1 _ T3 _. simpl in T1, T3. split; [|split; [congruence|split; [set_solver|]]].
  - intros k. rewrite Hl, (life_reassign _ _ _ _ _ k Er). simpl. rewrite Eh, MarkDead_life.
    destruct (decide (k = HostRegistry.ID h)) as [->|Hne].
    + rewrite bool_decide_eq_true_2 by done. cbn [orb]. destruct (existsb _ l); [|done].
      by destruct (life <$> _) as [[[[[? ?] ?] ?] ?]|].
    + rewrite bool_decide_eq_false_2 by congruence. done.
  - intros k p [Hb%bool_decide_eq_true_1|Hb]%orb_true_iff Hp.
    + subst k. apply Hk. rewrite T3. by apply K3.
    + apply (Hx k p Hb). congruence.
Qed.

(** C20: one pass of the liveness watcher.  It marks dead exactly the remote hosts
    that were live and have been silent for more than the threshold - whatever
    happens to their cells on the way, and whichever sends fail - and closes the
    kill channel of each one's stream, so that admission lets the host back in. *)
Theorem liveness_pass_exact (cfg : Config) (env : Env) (c c' : Coord) :
  keyed (hosts c) -> (forall k, k ∈ horder env <-> is_Some (hosts c !! k)) ->
  checkLiveness cfg env c = Some c' ->
  forall k h, hosts c !! k = Some h ->
    life <$> hosts c' !! k = Some (if stale env h then dead_life (life h) else life h) /\
    (stale env h = true -> live_stream c' (streams c' !! k) = false).
Proof.
  intros Hkey Hord E k h Hh. apply liveness_loop in E as (Hl & Hs & _ & Hx).
  assert (hit env (LiveHosts (horder env) (hosts c)) k = stale env h) as Ehit.
  { destruct (stale env h) eqn:Es.
    - apply existsb_exists. exists h. split.
      + apply list_elem_of_In, list_elem_of_omap. exists k. split; [apply Hord; eauto|done].
      + rewrite Es, andb_true_r. apply bool_decide_eq_true_2. by apply Hkey.
    - apply not_true_is_false. intros (h' & Hin & Hb)%existsb_exists.
      apply list_elem_of_In, list_elem_of_omap in Hin as (k' & _ & Ek').
      apply andb_true_iff in Hb as [Hb%bool_decide_eq_true_1 Hst].
      rewrite (Hkey _ _ Ek') in Hb. subst k'. congruence. }
  rewrite Hl, Ehit, Hh. split; [by destruct (stale env h)|].
  intros Es. rewrite Hs. destruct (streams c !! k) as [p|] eqn:Ep; [|done]. simpl.
  unfold killClosed. rewrite bool_decide_eq_true_2; [done|]. apply (Hx k p); congruence.
Qed.

(** ** Registration *)

(** The grounds on which a host registration is refused. *)
Inductive refused (cfg : Config) (env : Env) (c : Coord) (id : string) (fp : Z) : Prop :=
| ref_local h : hosts c !! id = Some h -> HostRegistry.Local h = true -> refused cfg env c id fp
| ref_gateway p : gatewayStreams c !! id = Some p -> p ∉ killed c -> refused cfg env c id fp
| ref_defended p h : streams c !! id = Some p -> p ∉ killed c -> hosts c !! id = Some h ->
    HostRegistry.State h <> RemoteHostDead -> now env - HostRegistry.LastHeartbeat h <= deadThreshold ->
    refused cfg env c id fp
| ref_protocol : fp <> SchemaFingerprint cfg -> refused cfg env c id fp.

Lemma live_stream_true c o : live_stream c o = true <-> exists p, o = Some p /\ p ∉ killed c.
Proof.
  destruct o as [p|]; simpl; [|naive_solver]. unfold killClosed. rewrite negb_true_iff, bool_decide_eq_false.
  naive_solver.
Qed.

Lemma admit_host_spec env c id :
  admitHostRegistration env c id = Ok tt \/
  (exists e, admitHostRegistration env c id = Err e) /\
  ((exists h, hosts c !! id = Some h /\ HostRegistry.Local h = true) \/
   live_stream c (gatewayStreams c !! id) = true \/
   (live_stream c (streams c !! id) = true /\ exists h, hosts c !! id = Some h /\
      HostRegistry.State h <> RemoteHostDead /\ now env - HostRegistry.LastHeartbeat h <= deadThreshold)).
Proof.
  unfold admitHostRegistration, HostRegistry.Get. cbv zeta.
  destruct (hosts c !! id) as [h|]; [destruct (HostRegistry.Local h) eqn:El|].
  - right. eauto 6.
  - destruct (live_stream c (gatewayStreams c !! id)) eqn:Eg; [right; eauto|].
    destruct (_ && _) eqn:E; [right; split; [eauto|]|by left].
    right; right. apply andb_true_iff in E as [E1 [E2%bool_decide_eq_true_1 E3%Z.leb_le]%andb_true_iff].
    eauto.
  - destruct (live_stream c (gatewayStreams c !! id)) eqn:Eg; [right; eauto|].
    rewrite andb_false_r. by left.
Qed.

Lemma admit_host_ok env c id :
  admitHostRegistration env c id = Ok tt ->
  (forall h, hosts c !! id = Some h -> HostRegistry.Local h = false) /\
  live_stream c (gatewayStreams c !! id) = false /\
  (live_stream c (streams c !! id) = true -> forall h, hosts c !! id = Some h ->
     HostRegistry.State h = RemoteHostDead \/ deadThreshold < now env - HostRegistry.LastHeartbeat h).
Proof.
  unfold admitHostRegistration, HostRegistry.Get. cbv zeta. intros E.
  destruct (hosts c !! id) as [h|]; [destruct (HostRegistry.Local h) eqn:El; [done|]|];
    (destruct (live_stream c (gatewayStreams c !! id)) eqn:Eg; [done|]);
    (split; [by intros h' [= <-] || done|split; [done|]]); intros Es; [|done].
  intros h' [= <-]. rewrite Es in E. cbn [andb] in E.
  destruct (bool_decide (HostRegistry.State h <> RemoteHostDead)) eqn:Ed; cbn [andb] in E.
  - destruct (Z.leb_spec (now env - HostRegistry.LastHeartbeat h) deadThreshold); [done|by right].
  - apply bool_decide_eq_false_1, dec_stable in Ed. by left.
Qed.

Lemma fingerprint_ok cfg fp : admitSchemaFingerprint cfg fp = Ok tt <-> fp = SchemaFingerprint cfg.
Proof.
  unfold admitSchemaFingerprint. destruct (Z.eqb_spec (SchemaFingerprint cfg) fp); [naive_solver|].
  repeat case_match; naive_solver.
Qed.

Lemma hosts_register_stream c id : hosts (registerHostStream c id).1 = hosts c.
Proof. unfold registerHostStream, swapHostStream, closeOld. by case_match. Qed.

Lemma register_spec c id c' p : registerHostStream c id = (c', p) ->
  p = S (streamSeq c) /\ streams c' !! id = Some p /\ (forall q, q ∈ killed c' <-> q ∈ killed c \/ streams c !! id = Some q).
Proof.
  unfold registerHostStream, swapHostStream, closeOld. intros [= <- <-]. split; [lia|].
  destruct (streams c !! id) eqn:E; simpl; (split; [rewrite lookup_insert_eq; f_equal; lia|set_solver]).
Qed.

Lemma hosts_register_rest cfg env c id addr db svc c' b :
  hostRegisterRest cfg env c id addr db svc = (c', b) ->
  hosts c' = HostRegistry.Register (now env) (hosts c) id addr db svc.
Proof.
  unfold hostRegisterRest. destruct (sendCoordMessageToHost _ _ _ _) as [c1 ok] eqn:E.
  apply hosts_send_pair in E. destruct ok; cbn [negb]; intros [= <- <-]; autorewrite with hosts; by rewrite E.
Qed.

(** C8: the outcome of a host registration.  It is refused exactly when the id is
    the coordinator's own, when an un-killed gateway stream holds the id, when
    the host of that id is still defended - un-killed stream, not dead, heard of
    within the threshold - or when the protocols differ; a refusal changes
    nothing.  Otherwise the newcomer's stream is the recorded one and is not
    killed, the stream it replaced is, and its registry entry is fresh: its own
    address, no cells, heartbeat now. *)
Theorem registration_outcome (cfg : Config) (env : Env) (c c' : Coord) (id addr : string)
  (db svc : bool) (fp : Z) (r : result AdmitError (nat * bool)) :
  (forall p, p ∈ killed c \/ streams c !! id = Some p -> (p <= streamSeq c)%nat) ->
  handleHostRegister cfg env c id addr db svc fp = (c', r) ->
  (refused cfg env c id fp /\ (exists e, r = Err e) /\ c' = c) \/
  (~ refused cfg env c id fp /\ exists p ok, r = Ok (p, ok) /\
     streams c' !! id = Some p /\ (p ∉ killed c') /\
     (forall q, streams c !! id = Some q -> q ∈ killed c') /\
     hosts c' !! id = Some (mkRemoteHost id addr (now env) (now env) RemoteHostRegistered ∅ false db svc) /\
     forall k, k <> id -> hosts c' !! k = hosts c !! k).
Proof.
  intros Hb. unfold handleHostRegister.
  destruct (admit_host_spec env c id) as [Ea|[[e Ea] Hr]]; rewrite Ea.
  2:{ intros [= <- <-]. left. split; [|eauto].
      destruct Hr as [(h & Hh & Hl)|[(p & Hp & Hk)%live_stream_true|
                      [(p & Hp & Hk)%live_stream_true (h & Hh & H1 & H2)]]].
      - by eapply ref_local.
      - by eapply ref_gateway.
      - by eapply ref_defended. }
  destruct (admitSchemaFingerprint cfg fp) as [[]|e] eqn:Ef.
  2:{ intros [= <- <-]. left. split; [|eauto]. apply ref_protocol. intros E.
    by apply fingerprint_ok in E; rewrite E in Ef. }
  destruct (registerHostStream c id) as [c1 p] eqn:Es.
  destruct (hostRegisterRest cfg env c1 id addr db svc) as [c2 ok] eqn:Er. intros [= <- <-]. right.
  apply admit_host_ok in Ea as (A1 & A2 & A3). apply fingerprint_ok in Ef.
  pose proof (hosts_register_stream c id) as Eh. rewrite Es in Eh. simpl in Eh.
  pose proof (stab_host_rest cfg env c1 id addr db svc) as Hst. rewrite Er in Hst.
  injection Hst as T1 _ T3 _. apply register_spec in Es as (-> & Et & Ek).
  apply hosts_register_rest in Er. simpl in T1, T3. split.
  - intros [h Hh Hl|q Hq Hk|q h Hq Hk Hh H1 H2|Hf]; [|..|by apply Hf].
    + by rewrite (A1 _ Hh) in Hl.
    + by rewrite (proj2 (live_stream_true c _)) in A2 by eauto.
    + destruct (A3 (proj2 (live_stream_true c _) (ex_intro _ q (conj Hq Hk))) h Hh); [done|lia].
  - exists (S (streamSeq c)), ok. split; [done|]. rewrite T1, T3, Er, Eh. split; [done|]. split.
    { rewrite Ek. intros Hk%Hb. lia. }
    split; [intros q Hq; rewrite Ek; by right|].
    unfold HostRegistry.Register. split; [by rewrite lookup_insert, decide_True|].
    intros k Hk. by rewrite lookup_insert, decide_False.
Qed.

(** ** Grants across the cluster *)

(** A host's handling of [NetIDRangeGrant] (mesh_control_client.go), and the
    allocation of a new cell's base ([createNode], coordinator.go). *)
Definition onNetIDRangeGrant (a : NetIDAllocator) (start : Z) : NetIDAllocator := SetBase a start.

Definition createNode_base (a : NetIDAllocator) : option (NetIDAllocator * Z) := Allocate a.

(** Assigning one cell to [host]: the grant, and the cell created under it. *)
Definition assign_with_grant (s : Coord * gmap string NetIDAllocator) (host : string)
  : option (Coord * gmap string NetIDAllocator * Z) :=
  let '(c, allocs) := s in
  match next_grant c with
  | None => None
  | Some (c, start) =>
      let a := default (NewNetIDAllocator 0 netIDRangeSize) (allocs !! host) in
      match createNode_base (onNetIDRangeGrant a start) with
      | None => None
      | Some (a, base) => Some (c, <[host := a]> allocs, base)
      end
  end.

Fixpoint assign_all (hs : list string) (s : Coord * gmap string NetIDAllocator)
  : option (Coord * gmap string NetIDAllocator * list Z) :=
  match hs with
  | [] => Some (s, [])
  | h :: hs =>
      match assign_with_grant s h with
      | None => None
      | Some (s, base) =>
          match assign_all hs s with Some (s, bases) => Some (s, base :: bases) | None => None end
      end
  end.

(** [n] grants issued so far. *)
Record granted (n : Z) (s : Coord * gmap string NetIDAllocator) : Prop := {
  g_next : nextNetIDStart s.1 = n * netIDRangeSize;
  g_first : n = 0 -> netIDAlloc s.1 = NewNetIDAllocator 0 netIDRangeSize;
  g_hosts : forall h a, s.2 !! h = Some a ->
    size a = netIDRangeSize /\ freeList a = [] /\ 0 <= next a <= n * netIDRangeSize
}.

Lemma next_grant_nth n c allocs : 0 <= n <= 428 -> granted n (c, allocs) ->
  exists c', next_grant c = Some (c', n * netIDRangeSize) /\
    nextNetIDStart c' = (n + 1) * netIDRangeSize.
Proof.
  intros Hn [Hx Hf _]. simpl in *. unfold next_grant. rewrite Hx.
  destruct (Z.eqb_spec (n * netIDRangeSize) 0) as [E|E]; unfold netIDRangeSize in *.
  - assert (n = 0) as -> by lia. rewrite Hf by done. eexists. by split.
  - eexists. split; [done|]. simpl. unfold u32. rewrite Z.mod_small; lia.
Qed.

Lemma assign_with_grant_nth n s h : 0 <= n <= 428 -> granted n s ->
  exists s', assign_with_grant s h = Some (s', n * netIDRangeSize) /\ granted (n + 1) s'.
Proof.
  destruct s as [c allocs]. intros Hn Hg.
  destruct (next_grant_nth n c allocs Hn Hg) as (c' & E & Hnx).
  unfold assign_with_grant. rewrite E. destruct Hg as [_ _ Hh]. simpl in Hh.
  set (a := default _ _).
  assert (size a = netIDRangeSize /\ freeList a = [] /\ 0 <= next a <= n * netIDRangeSize) as (A1 & A2 & A3).
  { unfold a. destruct (allocs !! h) as [a0|] eqn:Ea; simpl; [by apply (Hh h)|].
    unfold netIDRangeSize in *. split; [done|split; [done|lia]]. }
  assert (onNetIDRangeGrant a (n * netIDRangeSize)
          = mkAlloc (n * netIDRangeSize) netIDRangeSize []) as ->.
  { unfold onNetIDRangeGrant, SetBase. destruct a as [nx sz fl]. simpl in *. subst.
    destruct (Z.ltb_spec nx (n * netIDRangeSize)); [done|]. by replace nx with (n * netIDRangeSize) by lia. }
  unfold createNode_base, Allocate. cbn [last freeList size next].
  replace ((0 <? netIDRangeSize) && (2 ^ 32 - 1 - netIDRangeSize <? n * netIDRangeSize)) with false
    by (unfold netIDRangeSize; lia).
  eexists. split; [done|]. unfold u32. rewrite Z.mod_small by (unfold netIDRangeSize; lia).
  constructor; simpl; [done|lia|]. intros h' a'. rewrite lookup_insert. case_decide.
  - intros [= <-]. cbn [size next freeList]. unfold netIDRangeSize. repeat split; lia.
  - intros Ha'. destruct (Hh h' a' Ha') as (B1 & B2 & B3). unfold netIDRangeSize in *.
    split; [done|split; [done|lia]].
Qed.

Lemma assign_all_nth n hs s : 0 <= n -> n + Z.of_nat (length hs) <= 429 -> granted n s ->
  exists s', assign_all hs s
    = Some (s', map (fun i => (n + Z.of_nat i) * netIDRangeSize) (seq 0 (length hs))).
Proof.
  revert n s. induction hs as [|h hs IH]; intros n s Hn Hl Hg; [by exists s|].
  cbn [assign_all length] in *.
  destruct (assign_with_grant_nth n s h) as (s1 & E1 & Hg1); [lia|done|].
  rewrite E1. destruct (IH (n + 1) s1) as (s2 & E2); [lia|lia|done|].
  rewrite E2. exists s2. cbn [seq map]. rewrite <- seq_shift, map_map.
  replace ((n + Z.of_nat 0) * netIDRangeSize) with (n * netIDRangeSize) by lia.
  rewrite (map_ext (fun x => (n + Z.of_nat (S x)) * netIDRangeSize)
             (fun i => (n + 1 + Z.of_nat i) * netIDRangeSize)); [done|]. intros i. f_equal. lia.
Qed.

(** The grant stream never hands out an id twice, up to its capacity.  From a
    coordinator that has granted nothing, any sequence of up to 429 cell
    assignments to any hosts succeeds, and the i-th cell draws its ids from the
    i-th block of ten million: the blocks are pairwise disjoint across the whole
    cluster. *)
Theorem granted_ranges_exact (c : Coord) (hs : list string) :
  nextNetIDStart c = 0 -> netIDAlloc c = NewNetIDAllocator 0 netIDRangeSize ->
  (length hs <= 429)%nat ->
  exists s', assign_all hs (c, ∅) = Some (s', map (fun i => Z.of_nat i * netIDRangeSize) (seq 0 (length hs))) /\
  forall i j, (i < length hs)%nat -> (j < length hs)%nat -> i <> j ->
    range_disjoint netIDRangeSize (Z.of_nat i * netIDRangeSize) (Z.of_nat j * netIDRangeSize).
Proof.
  intros H0 H1 Hl. destruct (assign_all_nth 0 hs (c, ∅)) as (s' & E).
  - lia.
  - lia.
  - constructor; simpl; [done|done|]. intros h a. by rewrite lookup_empty.
  - exists s'. split.
    + rewrite E. f_equal.
    + intros i j Hi Hj Hne. unfold range_disjoint, netIDRangeSize. lia.
Qed.

(** A split or migration creates cells on a host without a grant
    (cell_transfer_executor.go): after one assignment each to two hosts, the next
    cell the first host creates takes the very range the second one was granted,
    and the next one the coordinator's own process creates takes it too. *)
Theorem ungranted_cells_collide :
  exists c allocs aa bb a2 c2,
    assign_all ["a"; "b"]%string (coord0, ∅) = Some (c, allocs, [0; netIDRangeSize]) /\
    allocs !! "a"%string = Some aa /\ allocs !! "b"%string = Some bb /\
    createNode_base aa = Some (a2, netIDRangeSize) /\
    createNode_base (netIDAlloc c) = Some (c2, netIDRangeSize).
Proof.
  eexists _, _, (mkAlloc netIDRangeSize netIDRangeSize []), (mkAlloc (2 * netIDRangeSize) netIDRangeSize []),
    _, _.
  split; [vm_compute; reflexivity|]. repeat split; vm_compute; reflexivity.
Qed.

(** The starts of the next [n] grants. *)
Fixpoint grants (n : nat) (c : Coord) : option (list Z) :=
  match n with
  | O => Some []
  | S n => match next_grant c with
           | None => None
           | Some (c, start) => cons start <$> grants n c
           end
  end.

(** The 431st grant wraps around [uint32] into the first range: the engine's
    counter has none of the allocator's exhaustion check. *)
Theorem grant_counter_wraps :
  exists l, grants 431 coord0 = Some l /\ head l = Some 0 /\ last l = Some 5032704 /\
    ~ range_disjoint netIDRangeSize 0 5032704.
Proof.
  assert ((fun l => (head l, last l)) <$> grants 431 coord0 = Some (Some 0, Some 5032704)) as E
    by (vm_compute; reflexivity).
  destruct (grants 431 coord0) as [l|]; [|discriminate]. exists l. injection E as E1 E2.
  split; [done|]. split; [done|]. split; [done|]. unfold range_disjoint, netIDRangeSize. lia.
Qed.

(** ** One owner per cell *)

Definition single_owner (r : gmap string RemoteHost) : Prop :=
  forall k1 k2 x, owns r k1 x -> owns r k2 x -> k1 = k2.

Lemma single_owner_mono r r' :
  (forall k x, owns r' k x -> owns r k x) -> single_owner r -> single_owner r'.
Proof. intros Hs Hr k1 k2 x H1 H2. apply (Hr k1 k2 x); auto. Qed.

Lemma hosts_dispatch_release cfg env c id cell k x :
  owns (hosts (dispatchCellRelease cfg env c id cell)) k x -> owns (hosts c) k x.
Proof.
  unfold dispatchCellRelease. destruct (sendCoordMessageToHost _ _ _ _) as [c1 ok] eqn:E.
  apply hosts_send_pair in E as <-. destruct ok; cbn [negb]; [|done].
  rewrite hosts_release_cell, owns_ReleaseCell. tauto.
Qed.

(** C17: a cell announcement makes no second owner.  A host's [CellReady] - genuine,
    stale or repeated - is decided by three separately locked registry calls: the scan for
    the owner in one state, the check that this owner is not dead in a second, and the
    assignment or the release in a third, with anything in between.  If the cell has the
    same owners at the assignment as at the scan, and its owner, if it has one, is not dead
    at the check, then every cell is left with at most one owner, and the current owner
    of a cell that is another host's keeps it and the announcer does not get it. *)
Theorem cell_ready_single_owner (cfg : Config) (env0 env2 : Env) (c0 c1 c2 : Coord) (id cell : string) :
  (forall k, k ∈ hfc_order env0 cell <-> is_Some (hosts c0 !! k)) -> hosts c0 !! ""%string = None ->
  single_owner (hosts c2) -> (forall k, owns (hosts c0) k cell <-> owns (hosts c2) k cell) ->
  (forall k, owns (hosts c0) k cell -> exists h, hosts c1 !! k = Some h /\ HostRegistry.State h <> RemoteHostDead) ->
  let c3 := cell_ready_act cfg env2 c2 id cell (cell_ready_refused c1 id (cell_ready_scan env0 c0 cell)) in
  single_owner (hosts c3) /\
  forall k, k <> id -> owns (hosts c2) k cell -> owns (hosts c3) k cell /\ ~ owns (hosts c3) id cell.
Proof.
  intros Hord Hempty Hone Hsame Hlive c3. subst c3.
  assert (forall k, k ∈ hfc_order env0 cell -> k <> ""%string) as Hne.
  { intros k Hk ->. apply Hord in Hk. rewrite Hempty in Hk. by destruct Hk. }
  unfold cell_ready_scan. set (cur := HostForCell (hfc_order env0 cell) (hosts c0) cell).
  assert (cur <> ""%string -> owns (hosts c0) cur cell) as Hown.
  { intros E. by apply (HostForCell_owner (hosts c0) cell _ cur eq_refl E). }
  assert (forall k, owns (hosts c2) k cell -> k = cur) as Hcur.
  { intros k Hk. destruct (decide (cur = ""%string)) as [E|E].
    - destruct (HostForCell_none (hosts c0) cell _ Hne E k).
      + apply Hsame in Hk. destruct Hk as (h & Hh & _). apply Hord. eauto.
      + by apply Hsame.
    - by apply (Hone k cur cell), Hsame, Hown. }
  assert (forall k, owns (hosts c2) k cell -> k <> ""%string) as Hnon.
  { intros k Hk ->. apply Hsame in Hk as (h & E & _). congruence. }
  unfold cell_ready_refused. destruct (decide (cur = ""%string \/ cur = id)) as [Hc|Hc].
  - replace (negb (cur =? "")%string && negb (cur =? id)%string) with false
      by (destruct Hc as [-> | ->]; rewrite String.eqb_refl; simpl; by rewrite ?andb_false_r).
    cbn [andb cell_ready_act].
    assert (forall k, owns (hosts c2) k cell -> k = id) as Hid.
    { intros k Hk. destruct Hc as [Hc|Hc]; [|by rewrite <- Hc; apply Hcur]. destruct (Hnon k Hk). by rewrite (Hcur k Hk). }
    unfold assign_cell. destruct (AssignCell (hosts c2) id cell) as [r|] eqn:Ea; simpl.
    + rewrite hosts_rebuild. simpl. split; [|intros k Hk Ho; by destruct Hk; apply Hid].
      intros k1 k2 x. rewrite !(owns_AssignCell _ _ _ _ _ _ Ea).
      intros [H1|[-> ->]] [H2|[-> E]]; subst; [by apply (Hone k1 k2 x)|by apply Hid|by symmetry; apply Hid|done].
    + split; [done|]. intros k Hk Ho. by destruct Hk; apply Hid.
  - assert (cur <> ""%string /\ cur <> id) as [Hc1 Hc2] by tauto.
    destruct (Hlive cur (Hown Hc1)) as (h & Hh & Hst). unfold HostRegistry.Get. rewrite Hh.
    rewrite (proj2 (String.eqb_neq _ _) Hc1), (proj2 (String.eqb_neq _ _) Hc2), bool_decide_eq_true_2 by done.
    cbn [andb negb cell_ready_act]. split.
    + eapply single_owner_mono; [|exact Hone]. intros k x. apply hosts_dispatch_release.
    + intros k Hk Ho. split.
      * unfold dispatchCellRelease. destruct (sendCoordMessageToHost _ _ _ _) as [c4 ok] eqn:E.
        apply hosts_send_pair in E. destruct ok; cbn [negb]; [|by rewrite E].
        rewrite hosts_release_cell, owns_ReleaseCell, E. split; [done|]. intros [-> _]. done.
      * intros Ho'%hosts_dispatch_release. apply Hk. by apply (Hone k id cell).
Qed.

(** A dead host is credited with its cells until they are reassigned, and
    [reassignOrphanedCells] does nothing while no live host remains.  [HostForCell]
    then finds the dead owner first, and two live hosts that announce the cell
    are both accepted. *)
Definition coord_orphan : Coord :=
  upd_hosts coord0
    (<["a" := mkRemoteHost "a" "" 0 0 RemoteHostDead {["cell_0_0"]} false false false]>
    (<["b" := mkRemoteHost "b" "" 0 0 RemoteHostLive ∅ false false false]>
    (<["h" := mkRemoteHost "h" "" 0 0 RemoteHostLive ∅ false false false]> ∅)))%string.

Definition live_owners (order : list string) (r : gmap string RemoteHost) (cell : string) : list string :=
  map HostRegistry.ID
    (filter (fun h => HostRegistry.State h = RemoteHostLive /\ cell ∈ OwnedCells h) (LiveHosts order r)).

Theorem dead_owner_admits_two :
  let step c id := handleHostMessage cfg0 (env_at 5) c id (HMCellReady id "cell_0_0") in
  live_owners ["a"; "b"; "h"]%string (hosts (step (step coord_orphan "b"%string) "h"%string)) "cell_0_0"
  = ["b"; "h"]%string.
Proof. vm_compute. reflexivity. Qed.

(** Nor is the decision atomic: two live hosts that announce a cell nobody owns are both
    accepted when both scans come before either assignment. *)
Definition coord_vacant : Coord :=
  upd_hosts coord0
    (<["b" := mkRemoteHost "b" "" 0 0 RemoteHostLive ∅ false false false]>
    (<["h" := mkRemoteHost "h" "" 0 0 RemoteHostLive ∅ false false false]> ∅))%string.

Theorem ready_race_two_owners :
  let scan := cell_ready_scan (env_at 5) coord_vacant "cell_0_0" in
  let step c id := cell_ready_act cfg0 (env_at 5) c id "cell_0_0" (cell_ready_refused coord_vacant id scan) in
  live_owners ["a"; "b"; "h"]%string (hosts (step (step coord_vacant "b"%string) "h"%string)) "cell_0_0"
  = ["b"; "h"]%string.
Proof. vm_compute. reflexivity. Qed.

(** Reassignment releases a cell before it assigns it, and the assignment is
    recorded only if the sends succeed: with a live in-process host, which has no
    control stream, the cell of a dead host ends with no owner at all. *)
Definition coord_local : Coord :=
  upd_hosts coord0
    (<["a" := mkRemoteHost "a" "" 0 0 RemoteHostDead {["cell_0_0"]} false false false]>
    (<["b" := mkRemoteHost "b" "" 0 0 RemoteHostLive ∅ true false false]> ∅))%string.

Definition owners (order : list string) (r : gmap string RemoteHost) (cell : string) : list string :=
  map HostRegistry.ID (filter (fun h => cell ∈ OwnedCells h) (LiveHosts order r)).

Theorem reassign_to_local_loses_cell :
  match hosts coord_local !! "a"%string with
  | None => False
  | Some dead =>
      owners ["a"; "b"]%string (hosts coord_local) "cell_0_0" = ["a"]%string /\
      (fun c => owners ["a"; "b"]%string (hosts c) "cell_0_0")
        <$> reassignOrphanedCells cfg0 (env_at 5) coord_local dead = Some []
  end.
Proof. vm_compute. split; reflexivity. Qed.

(** ** Witnesses *)

Lemma keyed_empty : keyed ∅.
Proof. intros k h. by rewrite lookup_empty. Qed.

Lemma keyed_insert r k h : keyed r -> HostRegistry.ID h = k -> keyed (<[k := h]> r).
Proof.
  intros Hr Hk k' h' E. rewrite lookup_insert in E. case_decide; [|by apply Hr].
  injection E as <-. congruence.
Qed.

Lemma listed_empty (k : string) : k ∈ @nil string <-> is_Some ((∅ : gmap string RemoteHost) !! k).
Proof. rewrite elem_of_nil, lookup_empty. split; [done|by intros [? ?]]. Qed.

Lemma listed_insert (r : gmap string RemoteHost) l k0 h :
  (forall k, k ∈ l <-> is_Some (r !! k)) ->
  forall k, k ∈ k0 :: l <-> is_Some (<[k0 := h]> r !! k).
Proof.
  intros Hl k. rewrite elem_of_cons, Hl, lookup_insert. case_decide; [|naive_solver].
  split; [by eexists|by left].
Qed.

(** Hosts a and b are connected; a owns two cells and has gone silent. *)
Definition coord_cluster : Coord :=
  upd_netid (upd_streams (upd_hosts coord0
    (<["a" := mkRemoteHost "a" "" 0 0 RemoteHostLive {["cell_0_0"; "cell_1_0"]} false false false]>
    (<["b" := mkRemoteHost "b" "" 0 (9 * 10 ^ 9) RemoteHostLive ∅ false false false]> ∅))%string)
    (<["a"%string := 1%nat]> (<["b"%string := 2%nat]> ∅)) ∅ ∅ 2) (netIDAlloc coord0) netIDRangeSize.

Definition host_a : RemoteHost :=
  mkRemoteHost "a" "" 0 0 RemoteHostDead {["cell_0_0"; "cell_1_0"]}%string false false false.

Definition cluster_env : Env :=
  mkEnv (10 * 10 ^ 9) (fun _ => true) ["a"; "b"]%string (fun _ => ["a"; "b"]%string) [] [] [] []
    (fun s => elements s).

Lemma live_after_death :
  live_ids cluster_env (upd_hosts coord_cluster (HostRegistry.MarkDead (hosts coord_cluster) "a"))
  = ["b"]%string.
Proof. vm_compute. reflexivity. Qed.

Lemma reassign_complete_witness :
  exists c', reassignOrphanedCells cfg0 cluster_env
      (upd_hosts coord_cluster (HostRegistry.MarkDead (hosts coord_cluster) "a")) host_a = Some c' /\
    owns (hosts c') "b" "cell_0_0" /\ ~ owns (hosts c') "a" "cell_0_0".
Proof.
  destruct (reassign_complete cfg0 cluster_env
    (upd_hosts coord_cluster (HostRegistry.MarkDead (hosts coord_cluster) "a")) host_a) as (c' & E & Ho).
  - intros x. apply elem_of_elements.
  - rewrite live_after_death. discriminate.
  - rewrite live_after_death. repeat constructor; discriminate.
  - rewrite live_after_death. intros [E|E]%elem_of_cons; [discriminate|by apply elem_of_nil in E].
  - rewrite live_after_death. intros k ->%list_elem_of_singleton.
    split; [exists 2%nat; by vm_compute|vm_compute; eauto].
  - vm_compute. reflexivity.
  - vm_compute. reflexivity.
  - exists c'. split; [exact E|]. rewrite !Ho, live_after_death. split.
    + left. split; [simpl; set_solver|vm_compute; reflexivity].
    + intros [[_ E2]|[_ Hn]]; [by vm_compute in E2|]. apply Hn. split; [simpl; set_solver|done].
Defined.

Lemma liveness_pass_exact_witness :
  exists c', checkLiveness cfg0 cluster_env coord_cluster = Some c' /\
    life <$> hosts c' !! "a"%string = Some ("a"%string, RemoteHostDead, 0, false, false) /\
    live_stream c' (streams c' !! "a"%string) = false.
Proof.
  destruct (checkLiveness cfg0 cluster_env coord_cluster) as [c'|] eqn:E; [|by vm_compute in E].
  exists c'. split; [done|].
  apply (liveness_pass_exact cfg0 cluster_env coord_cluster c') with
    (k := "a"%string)
    (h := mkRemoteHost "a" "" 0 0 RemoteHostLive {["cell_0_0"; "cell_1_0"]} false false false)
    in E as [E1 E2].
  - split; [rewrite E1; vm_compute; reflexivity|]. apply E2. vm_compute. reflexivity.
  - repeat (apply keyed_insert; [|reflexivity]). apply keyed_empty.
  - apply listed_insert, listed_insert, listed_empty.
  - vm_compute. reflexivity.
Defined.

Lemma registration_outcome_witness :
  handleHostRegister cfg0 (env_at (10 * 10 ^ 9)) coord_cluster "b" "new" false false 7
    = (coord_cluster, Err ErrDefended) /\
  refused cfg0 (env_at (10 * 10 ^ 9)) coord_cluster "b" 7.
Proof.
  assert (handleHostRegister cfg0 (env_at (10 * 10 ^ 9)) coord_cluster "b" "new" false false 7
    = (coord_cluster, Err ErrDefended)) as E by (vm_compute; reflexivity).
  split; [exact E|].
  destruct (registration_outcome cfg0 (env_at (10 * 10 ^ 9)) coord_cluster coord_cluster "b" "new"
              false false 7 (Err ErrDefended)) as [[H _]|[_ (p & ok & H & _)]].
  - intros p [H|H]; [by apply elem_of_empty in H|]. vm_compute in H. injection H as <-. simpl. lia.
  - exact E.
  - exact H.
  - discriminate.
Defined.

Lemma granted_ranges_exact_witness :
  exists s', assign_all ["a"; "b"; "a"]%string (coord0, ∅) = Some (s', [0; 10000000; 20000000]).
Proof.
  destruct (granted_ranges_exact coord0 ["a"; "b"; "a"]%string) as (s' & E & _);
    [reflexivity|reflexivity|simpl; lia|].
  exists s'. exact E.
Defined.

(** b announces a cell that live a owns; a sends a heartbeat before the check and b one
    before the answer, so that the three calls see three states. *)
Lemma owns_Touch t r k id x : owns (HostRegistry.Touch t r k) id x <-> owns r id x.
Proof.
  unfold HostRegistry.Touch. destruct (r !! k) as [h|] eqn:E; [|done]. unfold owns. rewrite lookup_insert.
  case_decide as Ek; [subst|done]. rewrite E. split; intros (h' & [= <-] & Hx); eauto.
Qed.

Definition later (t : Z) (c : Coord) (id : string) : Coord := upd_hosts c (HostRegistry.Touch t (hosts c) id).

Lemma cell_ready_single_owner_witness :
  let c1 := later 3 coord_cluster "a" in
  ~ owns (hosts (cell_ready_act cfg0 cluster_env (later 4 c1 "b") "b" "cell_0_0"
      (cell_ready_refused c1 "b" (cell_ready_scan cluster_env coord_cluster "cell_0_0")))) "b" "cell_0_0".
Proof.
  intros c1.
  assert (forall id x, owns (hosts (later 4 c1 "b")) id x <-> owns (hosts coord_cluster) id x) as Ho.
  { intros id x. unfold c1, later. simpl. by rewrite !owns_Touch. }
  assert (owns (hosts coord_cluster) "a" "cell_0_0") as Ha.
  { eexists. split; [reflexivity|]. simpl. set_solver. }
  assert (single_owner (hosts coord_cluster)) as Hone.
  { intros k1 k2 x (h1 & E1 & H1) (h2 & E2 & H2). simpl in E1, E2.
    rewrite !lookup_insert, lookup_empty in E1, E2.
    repeat case_decide; subst; try done; exfalso;
      (injection E1 as <-; simpl in H1; set_solver) || (injection E2 as <-; simpl in H2; set_solver). }
  apply (cell_ready_single_owner cfg0 cluster_env cluster_env coord_cluster c1 (later 4 c1 "b") "b" "cell_0_0") with (k := "a"%string).
  - apply listed_insert, listed_insert, listed_empty.
  - reflexivity.
  - intros k1 k2 x. rewrite !Ho. apply Hone.
  - intros k. by rewrite Ho.
  - intros k Hk. rewrite (Hone k "a"%string "cell_0_0"%string Hk Ha). eexists. split; [vm_compute; reflexivity|discriminate].
  - discriminate.
  - apply Ho. exact Ha.
Defined.
