(* ===== verification/ControlTopology.v ===== *)
(** * The coordinator's topology under ownership changes (pkg/universe/control_plane.go)

    What [rebuildTopologyForCell] does to the topology when a cell gains or loses
    its owner. *)

From S2P Require Import Prelude Float32 CellId Topology NetId SessionRoutes Rendezvous.
From S2P Require Import HostRegistry GatewayRegistry Services ControlPlane ControlFence ControlAssign.

(** The right row of a cell among the cells present. *)
Definition right_row (base : f32) (t : Topology) (cell : CellID) : list CellID :=
  filter (fun other => other <> cell /\ AreAdjacent cell other base = true) (topo_keys t).

Lemma topology_rebuild cfg env c cellKey cid :
  ParseCellID (str cellKey) = Some cid ->
  topology (rebuildTopologyForCell cfg env c cellKey)
  = let t := match OwnerOf env c cellKey with
             | None => delete cid (topology c)
             | Some _ => match topology c !! cid with
                         | Some _ => topology c
                         | None => <[cid := []]> (topology c)
                         end
             end in
    RebuildNeighborsFor (elements (frontier t [cid])) (topo_keys t) t [cid] (CellSize cfg).
Proof. intros E. unfold rebuildTopologyForCell. by rewrite E. Qed.

Lemma rebuild_elements t affected base a :
  affected <> [] ->
  RebuildNeighborsFor (elements (frontier t affected)) (topo_keys t) t affected base !! a
  = if decide (a ∈ frontier t affected) then (fun _ => right_row base t a) <$> t !! a else t !! a.
Proof.
  intros Hne. unfold RebuildNeighborsFor. rewrite decide_False by done.
  rewrite rebuild_lookup by apply NoDup_elements.
  destruct (decide (a ∈ elements _)) as [H|H], (decide (a ∈ frontier t affected)) as [H'|H'];
    rewrite elem_of_elements in H; done.
Qed.

Lemma frontier_one t cid a : a ∈ frontier t [cid] <-> a = cid \/ a ∈ nbrs t cid.
Proof. unfold frontier. simpl. set_solver. Qed.

Lemma nbrs_insert_nil t cid : t !! cid = None -> nbrs (<[cid := []]> t) cid = nbrs t cid.
Proof. intros E. unfold nbrs. by rewrite lookup_insert, decide_True, E. Qed.

(** Ownership decides presence.  After an ownership callback the cell is in the
    topology exactly when it has an owner.  With an owner its row is the adjacent
    cells among those present, the rows of the cells it already listed are
    recomputed the same way, and every other row is as it was; without one, every
    other row is as it was. *)
Theorem ownership_callback_row (cfg : Config) (env : Env) (c : Coord) (cellKey : string) (cid : CellID) :
  ParseCellID (str cellKey) = Some cid ->
  let t' := topology (rebuildTopologyForCell cfg env c cellKey) in
  match OwnerOf env c cellKey with
  | None => forall a, t' !! a = if decide (a = cid) then None else topology c !! a
  | Some _ =>
      let t := match topology c !! cid with Some _ => topology c | None => <[cid := []]> (topology c) end in
      t' !! cid = Some (right_row (CellSize cfg) t cid) /\
      forall a, a <> cid ->
        t' !! a = if decide (a ∈ nbrs (topology c) cid)
                  then (fun _ => right_row (CellSize cfg) t a) <$> topology c !! a
                  else topology c !! a
  end.
Proof.
  intros Hp. cbv zeta. rewrite (topology_rebuild _ _ _ _ _ Hp). cbv zeta.
  destruct (OwnerOf env c cellKey) as [h|].
  - set (t := match topology c !! cid with Some _ => _ | None => _ end).
    assert (is_Some (t !! cid)) as [row Hrow].
    { unfold t. destruct (topology c !! cid) eqn:E; [by eexists|].
      rewrite lookup_insert, decide_True by done. by eexists. }
    assert (nbrs t cid = nbrs (topology c) cid) as En.
    { unfold t. destruct (topology c !! cid) eqn:E; [done|]. by apply nbrs_insert_nil. }
    split.
    + rewrite rebuild_elements, decide_True, Hrow by (done || apply frontier_one; by left). done.
    + intros a Ha. assert (t !! a = topology c !! a) as Eo.
      { unfold t. destruct (topology c !! cid); [done|]. by rewrite lookup_insert, decide_False. }
      rewrite rebuild_elements, Eo by done.
      destruct (decide (a ∈ frontier t [cid])) as [H|H], (decide (a ∈ nbrs (topology c) cid)) as [H'|H'];
        rewrite frontier_one, En in H; naive_solver.
  - intros a. rewrite rebuild_elements, lookup_delete by done. unfold right_row.
    destruct (decide (a ∈ frontier (delete cid (topology c)) [cid])) as [H|H];
      rewrite frontier_one in H; unfold nbrs in H; rewrite lookup_delete, decide_True in H by done;
      simpl in H; repeat case_decide; subst; try done.
    + destruct H as [->|H]; [done|by apply elem_of_nil in H].
Qed.

(** ** The neighbours' rows *)

(** The frontier is read after the cell's own row has been emptied or deleted, so
    the rows of its neighbours are not among those recomputed.  Two adjacent cells
    assigned one after the other list each other on one side only; and a released
    cell stays in the rows that listed it. *)
Definition grid_pair : Coord :=
  let c := upd_hosts coord0
    (<["a"%string := mkRemoteHost "a" "" 0 0 RemoteHostLive ∅ false false false]> ∅) in
  let c := (assign_cell cfg0 (env_at 0) c "a" "cell_0_0").1 in
  (assign_cell cfg0 (env_at 0) c "a" "cell_1_0").1.

Definition cell00 : CellID := mkCellID 0 0 0.
Definition cell10 : CellID := mkCellID 1 0 0.

Theorem neighbour_rows_not_rebuilt :
  topology grid_pair !! cell10 = Some [cell00] /\ topology grid_pair !! cell00 = Some [] /\
  topology (release_cell cfg0 (env_at 0) grid_pair "a" "cell_0_0") !! cell00 = None /\
  topology (release_cell cfg0 (env_at 0) grid_pair "a" "cell_0_0") !! cell10 = Some [cell00].
Proof. repeat split; vm_compute; reflexivity. Qed.

Lemma ownership_callback_row_witness :
  topology (rebuildTopologyForCell cfg0 (env_at 0) grid_pair "cell_0_0") !! cell00
  = Some (right_row (CellSize cfg0) (topology grid_pair) cell00).
Proof.
  pose proof (ownership_callback_row cfg0 (env_at 0) grid_pair "cell_0_0" cell00) as H.
  assert (OwnerOf (env_at 0) grid_pair "cell_0_0" = Some "a"%string) as Eo by (vm_compute; reflexivity).
  assert (topology grid_pair !! cell00 = Some []) as Et by (vm_compute; reflexivity).
  rewrite Eo, Et in H. apply H. vm_compute. reflexivity.
Defined.
