(* ===== verification/ControlIdentity.v ===== *)
(** * Identity of control-stream messages (pkg/universe/mesh_control_server.go,
      registration_admission.go)

    A message acts under the identity its stream registered with, whatever ids its
    body carries: what the handlers can and cannot change for other processes. *)

From S2P Require Import Prelude Float32 CellId Topology NetId SessionRoutes Rendezvous.
From S2P Require Import HostRegistry GatewayRegistry Services ControlPlane ControlFence ControlAssign.

(** The per-process records of the coordinator. *)
Definition rosters (c : Coord) := (hosts c, gateways c, services c, eventRouter c).

Lemma rosters_emit c o : rosters (emit c o) = rosters c.
Proof. done. Qed.
Lemma rosters_routes c r : rosters (upd_routes c r) = rosters c.
Proof. done. Qed.
Lemma rosters_players c x y z : rosters (upd_players c x y z) = rosters c.
Proof. done. Qed.
Lemma rosters_topology c t : rosters (upd_topology c t) = rosters c.
Proof. done. Qed.
Lemma rosters_netid c a n : rosters (upd_netid c a n) = rosters c.
Proof. done. Qed.
#[export] Hint Rewrite rosters_emit rosters_routes rosters_players rosters_topology rosters_netid : rosters.

Ltac rosters := autorewrite with rosters; try done.

Lemma rosters_send_host env c h m : rosters (sendCoordMessageToHost env c h m).1 = rosters c.
Proof. unfold sendCoordMessageToHost. repeat case_match; simpl; rosters. Qed.
Lemma rosters_send_gateway env c h m : rosters (sendCoordMessageToGateway env c h m).1 = rosters c.
Proof. unfold sendCoordMessageToGateway. repeat case_match; simpl; rosters. Qed.
#[export] Hint Rewrite rosters_send_host rosters_send_gateway : rosters.

Lemma rosters_fold {A} (f : Coord -> A -> Coord) l c :
  (forall c x, rosters (f c x) = rosters c) -> rosters (fold_left f l c) = rosters c.
Proof. intros H. revert c. induction l as [|x l IH]; intros c; simpl; [done|]. by rewrite IH, H. Qed.

Lemma rosters_broadcast env c : rosters (broadcastPeerList env c) = rosters c.
Proof.
  unfold broadcastPeerList. rewrite !rosters_fold; [rosters; rewrite rosters_fold; [done|]|];
    intros; case_match; rosters.
Qed.
Lemma rosters_rebuild cfg env c cell : rosters (rebuildTopologyForCell cfg env c cell) = rosters c.
Proof. unfold rebuildTopologyForCell. case_match; rosters. Qed.
#[export] Hint Rewrite rosters_broadcast rosters_rebuild : rosters.

Lemma rosters_migrated cfg env c g conn dh dc :
  rosters (notifyPlayerMigrated cfg env c g conn dh dc) = rosters c.
Proof.
  unfold notifyPlayerMigrated. destruct (Migrate _ _ _ _) as [r [e|]]; [|done].
  unfold dispatchUpstreamSwitch, dispatchSessionRegister, notifySessionActive, set_player.
  repeat case_match; rosters.
Qed.
#[export] Hint Rewrite rosters_migrated : rosters.

(** ** What a process may do to the records of others *)

(** Every other process's host, gateway and subscription entries are as they were,
    and a service instance that is new is credited to the process itself. *)
Record acts_as (id : string) (c c' : Coord) : Prop := {
  aa_hosts : forall j, j <> id -> hosts c' !! j = hosts c !! j;
  aa_gateways : forall j, j <> id -> gateways c' !! j = gateways c !! j;
  aa_events : forall j, j <> id -> eventRouter c' !! j = eventRouter c !! j;
  aa_services : forall i x, instances (services c') !! i = Some x ->
    instances (services c) !! i = Some x \/ HostID x = id
}.

Lemma acts_as_rosters id c c1 c2 : rosters c2 = rosters c1 -> acts_as id c c1 -> acts_as id c c2.
Proof. intros [= E1 E2 E3 E4] [H1 H2 H3 H4]. constructor; rewrite ?E1, ?E2, ?E3, ?E4; done. Qed.

Lemma acts_as_same id c c' : rosters c' = rosters c -> acts_as id c c'.
Proof. intros E. eapply acts_as_rosters; [exact E|]. constructor; auto. Qed.

Lemma acts_as_hosts id c r :
  (forall j, j <> id -> r !! j = hosts c !! j) -> acts_as id c (upd_hosts c r).
Proof. intros H. constructor; simpl; auto. Qed.

Lemma acts_as_gateways id c r :
  (forall j, j <> id -> r !! j = gateways c !! j) -> acts_as id c (upd_gateways c r).
Proof. intros H. constructor; simpl; auto. Qed.

Lemma AssignCell_other r id cell r' j : AssignCell r id cell = Some r' -> j <> id -> r' !! j = r !! j.
Proof.
  unfold AssignCell. destruct (r !! id); [|done]. intros [= <-] Hj.
  by rewrite lookup_insert, decide_False.
Qed.

Lemma ReleaseCell_other r id cell j : j <> id -> ReleaseCell r id cell !! j = r !! j.
Proof.
  intros Hj. unfold ReleaseCell. destruct (r !! id); [|done]. by rewrite lookup_insert, decide_False.
Qed.

Lemma acts_as_release cfg env c id cell : acts_as id c (release_cell cfg env c id cell).
Proof.
  unfold release_cell. eapply acts_as_rosters; [apply rosters_rebuild|].
  apply acts_as_hosts. intros j. apply ReleaseCell_other.
Qed.

Lemma acts_as_cell_ready cfg env c id cell : acts_as id c (on_cell_ready cfg env c id cell).
Proof.
  unfold on_cell_ready, cell_ready_act. case_match.
  - unfold dispatchCellRelease. destruct (sendCoordMessageToHost _ _ _ _) as [c1 ok] eqn:E.
    assert (rosters c1 = rosters c) as Hr
      by (by rewrite <- (rosters_send_host env c id (MsgCellRelease cell)), E).
    destruct ok; cbn [negb]; [|by apply acts_as_same].
    destruct (acts_as_release cfg env c1 id cell) as [H1 H2 H3 H4].
    injection Hr as R1 R2 R3 R4. rewrite R1 in H1. rewrite R2 in H2. rewrite R4 in H3. rewrite R3 in H4.
    by constructor.
  - unfold assign_cell. destruct (AssignCell _ _ _) as [r|] eqn:Ea; simpl; [|by apply acts_as_same].
    eapply acts_as_rosters; [apply rosters_rebuild|]. apply acts_as_hosts.
    intros j. by apply (AssignCell_other _ _ cell).
Qed.

Lemma acts_as_announce env c id host kind inst ops : acts_as id c (service_announce env c id host kind inst ops).
Proof.
  unfold service_announce. destruct (bindIdentity _ _); [|by apply acts_as_same].
  unfold Services.Register. destruct (admissible _ _); simpl; [|by apply acts_as_same].
  eapply acts_as_rosters; [apply rosters_broadcast|]. constructor; simpl; auto.
  intros i x. rewrite lookup_insert. case_decide; [intros [= <-]; by right|by left].
Qed.

Lemma Unregister_sub r i0 i x :
  instances (Unregister r i0) !! i = Some x -> instances r !! i = Some x.
Proof.
  unfold Unregister. destruct (instances r !! i0); [|done].
  case_match; simpl; rewrite lookup_delete; case_decide; done.
Qed.

Lemma acts_as_leave env c id inst : acts_as id c (service_leave env c inst).
Proof.
  unfold service_leave. eapply acts_as_rosters; [apply rosters_broadcast|].
  constructor; simpl; auto. intros i x Hx. left. by eapply Unregister_sub.
Qed.

Lemma acts_as_subscribe env c id types : acts_as id c (service_subscribe env c id types).
Proof.
  unfold service_subscribe. eapply acts_as_rosters; [apply rosters_broadcast|].
  constructor; simpl; auto. intros j Hj. unfold UpdateProcess.
  case_match; rewrite ?lookup_delete, ?lookup_insert; by rewrite decide_False.
Qed.

Lemma acts_as_session up env c id conn u h cell uid :
  acts_as id c (on_session_announce up env c id conn u h cell uid).
Proof.
  unfold on_session_announce, registerAuthenticatedSession, notifySessionDisconnected, notifySessionActive,
    set_player.
  assert (forall r, (forall j, j <> id -> r !! j = gateways c !! j) ->
            forall c', rosters c' = (hosts c, r, services c, eventRouter c) -> acts_as id c c') as Hg.
  { intros r Hr c' E. eapply acts_as_rosters; [|by apply (acts_as_gateways id c r)]. exact E. }
  repeat case_match; (eapply Hg; [|reflexivity]); intros j Hj; simpl;
    unfold RemoveSession, AddSession; case_match; rewrite ?lookup_insert, ?decide_False; done.
Qed.

(** C40: a stream acts only as the process it registered.  Whatever ids a message's
    body claims, handling it on the stream of process [id] leaves every other
    process's host entry, gateway entry and event subscriptions as they were, and
    any service instance it adds is credited to [id]. *)
Theorem message_acts_as_sender (uuid_parse : string -> option Z) (cfg : Config) (env : Env)
  (c : Coord) (k : ControlFence.Kind) (id : string) (m : HostMessage) :
  acts_as id c (k_message uuid_parse cfg k env c id m).
Proof.
  destruct k, m; cbn [k_message handleHostMessage handleGatewayMessage];
    repeat match goal with |- context [bindIdentity ?a ?b] => destruct (bindIdentity a b) end;
    try (apply acts_as_same; rosters; done);
    try (apply acts_as_announce || apply acts_as_leave || apply acts_as_subscribe ||
         apply acts_as_release || apply acts_as_cell_ready || apply acts_as_session).
  - eapply acts_as_rosters; [apply rosters_emit|]. apply acts_as_hosts. intros j Hj. unfold HostRegistry.Touch. case_match; [|done].
    by rewrite lookup_insert, decide_False.
  - apply (acts_as_gateways id c). intros j Hj. unfold GatewayRegistry.Touch. case_match; [|done].
    by rewrite lookup_insert, decide_False.
Qed.

(** The leave message is not bound: its instance id is taken as it comes, so one
    host unregisters another's service. *)
Definition inst_auth : HostMessage := HMServiceAnnounce "a" "auth" "auth-1" [1; 2].

Theorem service_leave_is_unbound :
  let c1 := handleHostMessage cfg0 cluster_env coord_cluster "a" inst_auth in
  let c2 := handleHostMessage cfg0 cluster_env c1 "b" (HMServiceLeave "auth-1") in
  HostID <$> instances (services c1) !! "auth-1"%string = Some "a"%string /\
  instances (services c2) !! "auth-1"%string = None.
Proof. split; vm_compute; reflexivity. Qed.
