(* ===== verification/ControlSession.v ===== *)
(** * Sessions at the coordinator (pkg/universe/coordinator.go, mesh_control_server.go)

    The player index and the routing table under the gateways' announcements and
    the hosts' migration notices: who is online, where, and under which fencing
    epoch. *)

From S2P Require Import Prelude Float32 CellId Topology NetId SessionRoutes Rendezvous.
From S2P Require Import HostRegistry GatewayRegistry Services ControlPlane ControlFence ControlAssign.

(** A target a login may be sent back to: a cell and the host that owns it. *)
Definition rejoin_target (env : Env) (c : Coord) (target : option (string * string)) : Prop :=
  forall h cell, target = Some (h, cell) -> cell <> ""%string /\ OwnerOf env c cell = Some h /\ h <> ""%string.

(** The user plays: counted active, a second login is rejected, found by name, routed. *)
Record online (env : Env) (c : Coord) (uid : Z) (route : SessionRoute) : Prop := {
  on_active : IsUserSessionActive c uid = true;
  on_rejects : applyResolveSpawnReconnect env c uid = (None, true);
  on_found : ActiveUserHost c (sr_Username route) = sr_HostID route;
  on_routed : SessionRoutes.Get (routes c) (sr_Key route) = Some route
}.

(** The user's connection is gone and the cell keeps the session for a while: a new
    login goes back to that cell, on whichever host owns it by then. *)
Record in_grace (env : Env) (c : Coord) (uid : Z) (route : SessionRoute) : Prop := {
  gr_inactive : IsUserSessionActive c uid = false;
  gr_hidden : ActiveUserHost c (sr_Username route) = ""%string;
  gr_unrouted : SessionRoutes.Get (routes c) (sr_Key route) = None;
  gr_rejoins : forall h, OwnerOf env c (sr_CellID route) = Some h -> h <> ""%string ->
    applyResolveSpawnReconnect env c uid = (Some (h, sr_CellID route), false)
}.

(** The login guards agree.  The duplicate-login rejection sent to a gateway and
    the guard of the login operation decide alike, and a user is never both
    rejected and offered a session to rejoin. *)
Theorem login_guards_agree (env : Env) (c : Coord) (userID : Z) (target : option (string * string))
  (rejected : bool) :
  userID <> 0 -> applyResolveSpawnReconnect env c userID = (target, rejected) ->
  rejected = IsUserSessionActive c userID /\
  (rejected = true -> target = None) /\
  rejoin_target env c target.
Proof.
  intros Hu. unfold applyResolveSpawnReconnect, IsUserSessionActive, rejoin_target.
  destruct (Z.eqb_spec userID 0); [done|].
  destruct (activeUserLocked c userID) as [loc|]; [|by intros [= <- <-]].
  destruct (pl_Active loc); [by intros [= <- <-]|].
  destruct (String.eqb_spec (pl_CellID loc) ""); [by intros [= <- <-]|].
  destruct (OwnerOf env c (pl_CellID loc)) as [h|] eqn:Eo; [|by intros [= <- <-]].
  destruct (String.eqb_spec h ""); intros [= <- <-]; [done|].
  split; [done|]. split; [done|]. by intros h' cell' [= <- <-].
Qed.

Section Lifecycle.
Context (uuid_parse : string -> option Z).

(** C23: a session's life at the coordinator.  An announcement with a user id puts
    the user online: routed to the target under epoch 1, counted active, found by
    username, and a second login is rejected.  The gateway's tombstone ends the
    route and starts the grace period: no longer active, and a new login is sent
    back to the cell it left, on whichever host owns that cell by then. *)
Theorem session_lifecycle (env env' : Env) (c : Coord) (gw : string) (conn : Z)
  (username host cell userID : string) (uid : Z) :
  username <> ""%string -> host <> ""%string -> cell <> ""%string -> userID <> ""%string ->
  uuid_parse userID = Some uid -> uid <> 0 ->
  let c1 := handleGatewayMessage uuid_parse env c gw (HMSessionAnnounce gw conn username host cell userID) in
  let c2 := handleGatewayMessage uuid_parse env' c1 gw (HMSessionAnnounce gw conn username "" "" "") in
  let route := mkSessionRoute (mkSessionKey gw conn) username host cell 1 in
  online env c1 uid route /\ in_grace env' c2 uid route.
Proof.
  intros Hu Hh Hc Hid Hp Hz c1 c2 route.
  apply String.eqb_neq in Hu as Eu, Hh as Eh, Hc as Ec, Hid as Ei. apply Z.eqb_neq in Hz as Ez.
  assert (activeUsers c1 !! uid = Some (mkActiveUser uid username gw conn host cell) /\
          players c1 !! username = Some (mkLoc host cell true) /\
          routes c1 !! mkSessionKey gw conn
            = Some (mkSessionRoute (mkSessionKey gw conn) username host cell 1)) as (A1 & P1 & R1).
  { subst c1. cbn [handleGatewayMessage]. unfold bindIdentity. rewrite String.eqb_refl.
    unfold on_session_announce. rewrite Eh, Eu, Ei, Hp, Ez. cbn [negb].
    unfold registerAuthenticatedSession. rewrite Ez.
    unfold notifySessionActive, set_player, Set_.
    cbn [activeUsers players routes upd_players upd_routes upd_gateways sr_Key].
    rewrite !lookup_insert, !decide_True by done. done. }
  assert (activeUsers c2 = activeUsers c1 /\
          players c2 !! username = Some (mkLoc host cell false) /\
          routes c2 !! mkSessionKey gw conn = None) as (A2 & P2 & R2).
  { subst c2. cbn [handleGatewayMessage]. unfold bindIdentity. rewrite String.eqb_refl.
    unfold on_session_announce. rewrite Eu. cbn [negb String.eqb players upd_gateways upd_routes].
    rewrite P1. unfold notifySessionDisconnected, set_player, SessionRoutes.Remove.
    cbn [activeUsers players routes upd_players upd_routes upd_gateways pl_HostID pl_CellID].
    rewrite lookup_insert, lookup_delete, !decide_True by done. done. }
  clearbody c1 c2.
  split; constructor; unfold IsUserSessionActive, applyResolveSpawnReconnect, ActiveUserHost,
    SessionRoutes.Get, activeUserLocked; cbn [route sr_Key sr_Username sr_HostID sr_CellID];
    rewrite ?Ez, ?A2, ?A1; cbn [au_Username]; rewrite ?P1, ?P2, ?R1, ?R2; try done.
  cbn [pl_Active pl_CellID]. rewrite Ec. intros h -> Hne. by apply String.eqb_neq in Hne as ->.
Qed.
End Lifecycle.

(** ** Migration *)

(** The route after one migration: the same session, the destination, the next epoch. *)
Definition migrated (r : SessionRoute) (dest cell : string) : SessionRoute :=
  mkSessionRoute (sr_Key r) (sr_Username r) dest cell (u64 (sr_Epoch r + 1)).

Lemma outbox_send_host env c h m :
  reachable env c h -> exists p, (sendCoordMessageToHost env c h m).1 = emit c (OSend p m).
Proof. intros Hr. destruct (send_reachable env c h m Hr) as [p ->]. by exists p. Qed.

Lemma migration_effect (cfg : Config) (env : Env) (c : Coord) (gw dest cell : string) (conn : Z) :
  let key := mkSessionKey gw conn in
  let c' := notifyPlayerMigrated cfg env c gw conn dest cell in
  embeddedGateway cfg <> Some gw -> reachable env c dest ->
  (exists p, gatewayStreams c !! gw = Some p /\ net env p = true) ->
  match routes c !! key with
  | None => c' = c
  | Some r =>
      let e := u64 (sr_Epoch r + 1) in
      routes c' = <[key := migrated r dest cell]> (routes c) /\
      (sr_Username r <> ""%string ->
       players c' = <[sr_Username r := mkLoc dest cell true]> (players c)) /\
      exists p q, outbox c' = outbox c ++ [OSend p (MsgSessionRegister gw conn e cell);
                                           OSend q (MsgUpstreamSwitch gw conn dest cell e)]
  end.
Proof.
  intros key c' Hemb Hdest (q & Hq & Hnet). subst c'.
  unfold notifyPlayerMigrated, SessionRoutes.Get, Migrate. fold key.
  destruct (routes c !! key) as [r|] eqn:Er; [|done]. cbv zeta.
  set (e := u64 (sr_Epoch r + 1)).
  set (c1 := upd_routes c _).
  set (c2 := if negb (String.eqb (sr_Username r) "") then notifySessionActive c1 (sr_Username r) dest cell else c1).
  assert (stab c2 = stab c /\ routes c2 = routes c1 /\ outbox c2 = outbox c /\
          (sr_Username r <> ""%string -> players c2 = <[sr_Username r := mkLoc dest cell true]> (players c)))
    as (Hs & Hr & Ho & Hpl).
  { unfold c2. destruct (String.eqb_spec (sr_Username r) ""); cbn [negb]; repeat split; done. }
  clearbody c2. unfold dispatchSessionRegister. cbn [sk_GatewayID sk_ConnID key].
  destruct (outbox_send_host env c2 dest (MsgSessionRegister gw conn e cell)) as [p Ep];
    [by apply (reachable_stab env c)|].
  rewrite Ep. unfold dispatchUpstreamSwitch. rewrite decide_False by done. cbn [sk_GatewayID sk_ConnID key].
  unfold sendCoordMessageToGateway. cbn [gatewayStreams emit].
  injection Hs as _ Hg _ _. rewrite Hg, Hq, Hnet. cbn [fst routes players outbox emit].
  rewrite Hr. split; [done|]. split; [done|]. exists p, q. by rewrite Ho, <- app_assoc.
Qed.

(** C28: a migration notice moves route, player record, new owner and gateway as
    one.  When a host reports that a routed player moved, the route takes the
    destination and the next epoch, the player's record follows, the destination
    host is told to expect the session and the gateway to switch to it - all under
    that same epoch - and no other route or player changes.  For a session the
    table does not know, nothing happens at all. *)
Theorem migration_moves_session (cfg : Config) (env : Env) (c : Coord) (from gw dest cell : string) (conn : Z) :
  let key := mkSessionKey gw conn in
  let c' := handleHostMessage cfg env c from (HMPlayerMigrated gw conn from dest cell) in
  embeddedGateway cfg <> Some gw -> reachable env c dest ->
  (exists p, gatewayStreams c !! gw = Some p /\ net env p = true) ->
  match routes c !! key with
  | None => c' = c
  | Some r =>
      let e := u64 (sr_Epoch r + 1) in
      routes c' = <[key := migrated r dest cell]> (routes c) /\
      (sr_Username r <> ""%string ->
       players c' = <[sr_Username r := mkLoc dest cell true]> (players c)) /\
      exists p q, outbox c' = outbox c ++ [OSend p (MsgSessionRegister gw conn e cell);
                                           OSend q (MsgUpstreamSwitch gw conn dest cell e)]
  end.
Proof.
  intros key c'. subst c'. cbn [handleHostMessage]. unfold bindIdentity. rewrite String.eqb_refl.
  apply migration_effect.
Qed.

(** ** Witnesses *)

Definition one_uuid (s : string) : option Z := if String.eqb s "u-7" then Some 7 else None.

Lemma login_guards_agree_witness :
  let c := handleGatewayMessage one_uuid (env_at 0) coord0 "g"
             (HMSessionAnnounce "g" 3 "alice" "a" "cell_0_0" "u-7") in
  applyResolveSpawnReconnect (env_at 0) c 7 = (None, true) /\ true = IsUserSessionActive c 7.
Proof.
  intros c. assert (applyResolveSpawnReconnect (env_at 0) c 7 = (None, true)) as E by (vm_compute; reflexivity).
  split; [exact E|]. apply (login_guards_agree (env_at 0) c 7 None true); [lia|exact E].
Defined.

Lemma session_lifecycle_witness :
  let c1 := handleGatewayMessage one_uuid cluster_env coord_cluster "g"
              (HMSessionAnnounce "g" 3 "alice" "b" "cell_0_0" "u-7") in
  let c2 := handleGatewayMessage one_uuid cluster_env c1 "g" (HMSessionAnnounce "g" 3 "alice" "" "" "") in
  IsUserSessionActive c1 7 = true /\ applyResolveSpawnReconnect cluster_env c2 7 = (Some ("a", "cell_0_0"), false)%string.
Proof.
  intros c1 c2.
  destruct (session_lifecycle one_uuid cluster_env cluster_env coord_cluster "g" 3 "alice" "b" "cell_0_0" "u-7" 7
              ltac:(discriminate) ltac:(discriminate) ltac:(discriminate) ltac:(discriminate)
              eq_refl ltac:(discriminate)) as [[H1 _ _ _] [_ _ _ H2]].
  split; [exact H1|]. apply H2; [vm_compute; reflexivity|done].
Defined.

Definition coord_routed : Coord :=
  upd_routes (upd_streams coord_cluster (streams coord_cluster) (<["g"%string := 3%nat]> ∅) ∅ 3)
    (<[mkSessionKey "g" 3 := mkSessionRoute (mkSessionKey "g" 3) "alice" "a" "cell_0_0" 4]> ∅).

Lemma migration_moves_session_witness :
  exists p q,
    outbox (handleHostMessage cfg0 cluster_env coord_routed "a" (HMPlayerMigrated "g" 3 "a" "b" "cell_1_0"))
    = [OSend p (MsgSessionRegister "g" 3 5 "cell_1_0"); OSend q (MsgUpstreamSwitch "g" 3 "b" "cell_1_0" 5)].
Proof.
  destruct (migration_moves_session cfg0 cluster_env coord_routed "a" "g" "b" "cell_1_0" 3) as (_ & _ & p & q & E).
  - discriminate.
  - exists 2%nat. split; reflexivity.
  - exists 3%nat. split; reflexivity.
  - exists p, q. exact E.
Defined.
