(* ===== verification/CellTransfer.v ===== *)
(** * Cell transfers: the orchestrator and its commit plans
      (pkg/universe/cell_transfer.go, cell_transfer_commit.go, commit_plan.go,
      commit_builders_split.go, commit_builders_merge.go, commit_builders_migrate.go)

    A split, merge or migration of a cell is a request: the coordinator dispatches
    one command per piece of state to move, collects the [CellTransferReady]
    replies, and then either commits - the topology, the sessions, the registry and
    the old hosts change - or rolls back.  The model is the coordinator of a
    distributed deployment: it runs no cells and no host of its own, so the steps
    that touch local cells have none to touch, and every [hostProxy] is remote.
    The wait for a remote host's acknowledgement changes no state and is left out;
    so is the commit log.  The topology map exists: a cell is in transfer only after
    it has been assigned. *)

From S2P Require Import Prelude Float32 CellId Topology NetId SessionRoutes Rendezvous.
From S2P Require Import HostRegistry GatewayRegistry Services ControlPlane.

(** ** Requests *)

Inductive CellTransferKind :=
| CellTransferUnspecified
| CellTransferSplit
| CellTransferMerge
| CellTransferMigrate.

#[export] Instance CellTransferKind_eq_dec : EqDecision CellTransferKind.
Proof. solve_decision. Defined.

Record cellTransferCommand := mkCommand {
  cc_RequestID : Z;
  cc_Kind : CellTransferKind;
  cc_SrcCellID : string;
  cc_DestCellID : string;
  cc_SrcHostID : string;
  cc_DestHostID : string;
  cc_Quadrant : Z
}.

Record topologyMutation := mkMutation { mu_add : gmap string string; mu_remove : list string }.

Record CellTransferRequest := mkRequest {
  rq_ID : Z;
  rq_Kind : CellTransferKind;
  rq_SrcCell : CellID;
  rq_DestCells : list CellID;
  rq_commands : list cellTransferCommand;
  rq_ExpectedReady : Z;
  rq_receivedOK : gset string;
  rq_ackedCmd : list bool;
  rq_ackCount : Z;
  rq_Deadline : Z;
  rq_mutation : topologyMutation;
  rq_adoptedUsers : gmap string string
}.

Inductive BeginError :=
| ErrOrchestratorNoDispatcher
| ErrOrchestratorNoHosts
| ErrOrchestratorUnknownCell
| ErrOrchestratorUnknownHost
| ErrAlreadyOwned.

Inductive DispatcherCall :=
| DispatchAbort (requestID : Z) (hostID : string)
| DispatchCommit (requestID : Z) (hostID : string).

Inductive Outcome := Committed | RolledBack.

(** [committing] holds the requests whose commit goroutine has been started and
    [outcomes] those whose [Done] channel is closed, with their result; [calls] is
    what the dispatcher has been asked beyond the commands themselves. *)
Record cellTransferOrchestrator := mkOrchestrator {
  hasDispatcher : bool;
  timeout : Z;
  nextID : Z;
  inflight : gmap Z CellTransferRequest;
  committing : gmap Z CellTransferRequest;
  outcomes : gmap Z (CellTransferRequest * Outcome);
  calls : list DispatcherCall;
  commitCount : Z
}.

Definition upd_requests (o : cellTransferOrchestrator) (i c : gmap Z CellTransferRequest)
  : cellTransferOrchestrator :=
  mkOrchestrator (hasDispatcher o) (timeout o) (nextID o) i c (outcomes o) (calls o) (commitCount o).

Definition HasInflight (o : cellTransferOrchestrator) : bool := negb (bool_decide (inflight o = ∅)).

(** ** Beginning a transfer *)

Definition key_of (c : CellID) : string := of_runes (MeshID c).

Definition HostForCellID (env : Env) (c : Coord) (cell : string) : string :=
  default ""%string (OwnerOf env c cell).

Definition liveHostIDsLocked (env : Env) (c : Coord) : list string :=
  map HostRegistry.ID
    (filter (fun h => host_listed h = true) (cellBearingHosts (horder env) (hosts c))).

Definition no_request (id : Z) (k : CellTransferKind) (src : CellID) (dest : list CellID)
  (cmds : list cellTransferCommand) (deadline : Z) (mut : topologyMutation) : CellTransferRequest :=
  mkRequest id k src dest cmds (Z.of_nat (length cmds)) ∅ (replicate (length cmds) false) 0 deadline mut ∅.

Definition install (o : cellTransferOrchestrator) (req : CellTransferRequest) : cellTransferOrchestrator :=
  mkOrchestrator (hasDispatcher o) (timeout o) (rq_ID req) (<[rq_ID req := req]> (inflight o))
    (committing o) (outcomes o) (calls o) (commitCount o).

(** The commands are handed to the dispatcher after the lock is released; a
    dispatch that fails is an [OnReady] with [ok = false]. *)
Definition BeginSplit (env : Env) (c : Coord) (o : cellTransferOrchestrator) (parent : CellID)
  : result BeginError (cellTransferOrchestrator * CellTransferRequest) :=
  if negb (hasDispatcher o) then Err ErrOrchestratorNoDispatcher
  else
    let srcCellKey := key_of parent in
    let srcHost := HostForCellID env c srcCellKey in
    let liveIDs := liveHostIDsLocked env c in
    let ownership : gmap string string := list_to_map (AllOwnedCells env c) in
    match liveIDs with
    | [] => Err ErrOrchestratorNoHosts
    | _ =>
        if String.eqb srcHost "" then Err ErrOrchestratorUnknownCell
        else
          let children := CellId.Children parent in
          let childIDs := map key_of children in
          let cellOwner := fun cell => default ""%string (ownership !! cell) in
          let assignments :=
            AssignCellsAcrossHostsWithLocality childIDs liveIDs (Some neighborsOf) (Some cellOwner) in
          let reqID := u64 (nextID o + 1) in
          let dest := fun child => default ""%string (assignments !! child) in
          let cmds := imap (fun i child =>
            mkCommand reqID CellTransferSplit srcCellKey child srcHost (dest child) (Z.of_nat i)) childIDs in
          let mut := mkMutation (list_to_map (map (fun child => (child, dest child)) childIDs)) [srcCellKey] in
          let req := no_request reqID CellTransferSplit parent children cmds (now env + timeout o) mut in
          Ok (install o req, req)
    end.

Definition BeginMerge (env : Env) (c : Coord) (o : cellTransferOrchestrator) (parent : CellID)
  : result BeginError (cellTransferOrchestrator * CellTransferRequest) :=
  if negb (hasDispatcher o) then Err ErrOrchestratorNoDispatcher
  else
    let liveIDs := liveHostIDsLocked env c in
    let siblings := CellId.Children parent in
    let siblingKeys := map key_of siblings in
    let siblingHosts := map (HostForCellID env c) siblingKeys in
    match liveIDs with
    | [] => Err ErrOrchestratorNoHosts
    | _ =>
        if existsb (fun h => String.eqb h "") siblingHosts then Err ErrOrchestratorUnknownCell
        else
          let parentKey := key_of parent in
          let chosen := AssignCellToHost parentKey liveIDs in
          let '(survivorIdx, survivorHost) :=
            match list_find (fun h => h = chosen) siblingHosts with
            | Some (i, h) => (i, h)
            | None => (0%nat, nth 0 siblingHosts ""%string)
            end in
          let survivorKey := nth survivorIdx siblingKeys ""%string in
          let reqID := u64 (nextID o + 1) in
          let donors := filter (fun i => i <> survivorIdx) (seq 0 4) in
          let cmds := map (fun i =>
            mkCommand reqID CellTransferMerge (nth i siblingKeys ""%string) survivorKey
              (nth i siblingHosts ""%string) survivorHost 0) donors in
          let mut := mkMutation {[parentKey := survivorHost]} siblingKeys in
          let req := no_request reqID CellTransferMerge parent
                       (map (fun i => nth i siblings parent) donors) cmds (now env + timeout o) mut in
          Ok (install o req, req)
    end.

Definition BeginMigrate (env : Env) (c : Coord) (o : cellTransferOrchestrator) (cellID : CellID)
  (destHost : string) : result BeginError (cellTransferOrchestrator * CellTransferRequest) :=
  if negb (hasDispatcher o) then Err ErrOrchestratorNoDispatcher
  else
    let cellKey := key_of cellID in
    let srcHost := HostForCellID env c cellKey in
    let liveIDs := liveHostIDsLocked env c in
    if String.eqb srcHost "" then Err ErrOrchestratorUnknownCell
    else if negb (bool_decide (destHost ∈ liveIDs)) then Err ErrOrchestratorUnknownHost
    else if String.eqb srcHost destHost then Err ErrAlreadyOwned
    else
      let reqID := u64 (nextID o + 1) in
      let cmds := [mkCommand reqID CellTransferMigrate cellKey cellKey srcHost destHost 0] in
      let req := no_request reqID CellTransferMigrate cellID [cellID] cmds (now env + timeout o)
                   (mkMutation {[cellKey := destHost]} []) in
      Ok (install o req, req).

(** ** Replies, timeouts *)

Definition cellTransferRequestHosts (req : CellTransferRequest) (committed : bool) : gset string :=
  let add := fun (t : gset string) h => if String.eqb h "" then t else {[h]} ∪ t in
  fold_left (fun t cmd =>
      let t := add t (cc_SrcHostID cmd) in
      if committed then add t (cc_DestHostID cmd) else t)
    (rq_commands req) (rq_receivedOK req ∖ {[""%string]}).

(** [close(req.Done)]: [None] is the panic of closing it twice. *)
Definition settle (o : cellTransferOrchestrator) (req : CellTransferRequest) (out : Outcome)
  (cs : list DispatcherCall) : option cellTransferOrchestrator :=
  match outcomes o !! rq_ID req with
  | Some _ => None
  | None =>
      Some (mkOrchestrator (hasDispatcher o) (timeout o) (nextID o) (inflight o) (committing o)
              (<[rq_ID req := (req, out)]> (outcomes o)) (calls o ++ cs)
              (match out with Committed => commitCount o + 1 | RolledBack => commitCount o end))
  end.

Definition rollback (env : Env) (o : cellTransferOrchestrator) (req : CellTransferRequest)
  : option cellTransferOrchestrator :=
  let o := upd_requests o (delete (rq_ID req) (inflight o)) (committing o) in
  let cs := if hasDispatcher o
            then map (DispatchAbort (rq_ID req)) (corder env (cellTransferRequestHosts req false))
            else [] in
  settle o req RolledBack cs.

Definition matched (req : CellTransferRequest) (hostID destCellID : string) : option nat :=
  fst <$> list_find (fun p : bool * cellTransferCommand =>
            p.1 = false /\ cc_DestHostID p.2 = hostID /\ cc_DestCellID p.2 = destCellID)
           (zip (rq_ackedCmd req) (rq_commands req)).

Definition acknowledge (req : CellTransferRequest) (i : nat) (hostID destCellID : string)
  (adoptedUsers : list string) : CellTransferRequest :=
  mkRequest (rq_ID req) (rq_Kind req) (rq_SrcCell req) (rq_DestCells req) (rq_commands req)
    (rq_ExpectedReady req) ({[hostID]} ∪ rq_receivedOK req) (<[i := true]> (rq_ackedCmd req))
    (rq_ackCount req + 1) (rq_Deadline req) (rq_mutation req)
    (fold_left (fun m u => <[u := destCellID]> m) adoptedUsers (rq_adoptedUsers req)).

(** [go o.commit(req)] moves the request to [committing]. *)
Definition OnReady (env : Env) (o : cellTransferOrchestrator) (requestID : Z)
  (destCellID hostID : string) (ok : bool) (adoptedUsers : list string)
  : option cellTransferOrchestrator :=
  match inflight o !! requestID with
  | None => Some o
  | Some req =>
      if negb ok then rollback env (upd_requests o (delete requestID (inflight o)) (committing o)) req
      else
        match matched req hostID destCellID with
        | None => Some o
        | Some i =>
            let req := acknowledge req i hostID destCellID adoptedUsers in
            if rq_ackCount req <? rq_ExpectedReady req
            then Some (upd_requests o (<[requestID := req]> (inflight o)) (committing o))
            else Some (upd_requests o (delete requestID (inflight o))
                         (<[requestID := req]> (committing o)))
        end
  end.

(** [order] is the order of the scan over the in-flight map. *)
Definition scanTimeouts (env : Env) (order : list Z) (o : cellTransferOrchestrator)
  : option cellTransferOrchestrator :=
  let expired := filter (fun req => rq_Deadline req < now env) (omap (fun id => inflight o !! id) order) in
  let o := upd_requests o (fold_left (fun m req => delete (rq_ID req) m) expired (inflight o)) (committing o) in
  fold_left (fun oo req => match oo with Some o => rollback env o req | None => None end) expired (Some o).

(** ** The commit plans *)

Definition upd_cellToHost (c : Coord) (m : gmap string string) : Coord :=
  mkCoord (hosts c) (gateways c) (streams c) (gatewayStreams c) (killed c) (streamSeq c)
    (services c) (eventRouter c) (routes c) (players c) (activeUsers c) (userIDByConn c)
    m (topology c) (netIDAlloc c) (nextNetIDStart c) (firstRegistered c) (settled c)
    (settleDeadline c) (outbox c).

(** The commands' sources first; [cellToHostMap] for the mutated cells they do not
    cover. *)
Definition snapshotOwnershipLocked (env : Env) (c : Coord) (req : CellTransferRequest) : gmap string string :=
  let out := fold_left (fun m cmd =>
    if negb (String.eqb (cc_SrcCellID cmd) "") && negb (String.eqb (cc_SrcHostID cmd) "")
    then <[cc_SrcCellID cmd := cc_SrcHostID cmd]> m else m) (rq_commands req) (∅ : gmap string string) in
  let fallback := fun (m : gmap string string) k =>
    match m !! k with
    | Some _ => m
    | None => <[k := default ""%string (cellToHost c !! k)]> m
    end in
  let out := fold_left fallback (mu_remove (rq_mutation req)) out in
  fold_left fallback (corder env (dom (mu_add (rq_mutation req)))) out.

Definition flip_cellToHost (c : Coord) (mut : topologyMutation) : Coord :=
  upd_cellToHost c
    (mu_add mut ∪ fold_left (fun m k => delete k m) (mu_remove mut) (cellToHost c)).

Definition rebuild_all (cfg : Config) (t : Topology) (affected : list CellID) : Topology :=
  RebuildNeighborsFor (elements (frontier t affected)) (topo_keys t) t affected (CellSize cfg).

(** One session: [Migrate], the player index, and both notices under the new epoch. *)
Definition move_session (cfg : Config) (env : Env) (destHost destCell : string) (c : Coord)
  (t : SessionKey * string) : Coord :=
  let '(key, username) := t in
  match Migrate (routes c) key destHost destCell with
  | (_, None) => c
  | (r, Some newEpoch) =>
      let c := upd_routes c r in
      let c := if negb (String.eqb username "") then notifySessionActive c username destHost destCell else c in
      let c := dispatchSessionRegister env c destHost key newEpoch destCell in
      dispatchUpstreamSwitch cfg env c key destHost destCell newEpoch
  end.

Definition applyRegistryDelta (cfg : Config) (env : Env) (c : Coord) (mut : topologyMutation)
  (preOwnership : gmap string string) : Coord :=
  let c := fold_left (fun c cellID =>
    let prev := default ""%string (preOwnership !! cellID) in
    if negb (String.eqb prev "") then release_cell cfg env c prev cellID else c) (mu_remove mut) c in
  fold_left (fun c cellID =>
    let newOwner := default ""%string (mu_add mut !! cellID) in
    let prev := default ""%string (preOwnership !! cellID) in
    let c := if negb (String.eqb prev "") && negb (String.eqb prev newOwner)
             then release_cell cfg env c prev cellID else c in
    (assign_cell cfg env c newOwner cellID).1) (corder env (dom (mu_add mut))) c.

(** [remoteHostOps]: the message, without the wait for its acknowledgement. *)
Definition remote_ReleaseCell (env : Env) (c : Coord) (hostID cellKey : string) : Coord :=
  (sendCoordMessageToHost env c hostID (MsgCellRelease cellKey)).1.

Definition remote_RenameCell (env : Env) (c : Coord) (hostID from to : string) : Coord :=
  (sendCoordMessageToHost env c hostID (MsgCellRename from to)).1.

Definition PlanStep : Type := Coord -> Coord.

(** [ExecuteCommitPlan]: every step returns nil, so every step runs. *)
Definition ExecuteCommitPlan (steps : list PlanStep) (c : Coord) : Coord :=
  fold_left (fun c step => step c) steps c.

Section Plans.
Context (cfg : Config) (env : Env) (req : CellTransferRequest).

Let mut := rq_mutation req.
Let children := CellId.Children (rq_SrcCell req).

(** *** Split *)

Definition fallbackChildKey : string := nth 0 (map key_of children) ""%string.

Definition split_target (route : SessionRoute) : string * string :=
  let destCell := default fallbackChildKey (rq_adoptedUsers req !! sr_Username route) in
  let destHost := default ""%string (mu_add mut !! destCell) in
  (if String.eqb destHost "" then default ""%string (mu_add mut !! fallbackChildKey) else destHost, destCell).

Definition routes_where (c : Coord) (p : string -> bool) : list SessionRoute :=
  filter (fun route => p (sr_CellID route) = true) (ForEach (routes c) (rorder env) (fun _ => true)).

Definition stepSplitApplyCoordMutation (c : Coord) : Coord :=
  let c := flip_cellToHost c mut in
  upd_topology c (rebuild_all cfg
    (UpdateAfterSplit (topology c) (rq_SrcCell req) children (CellSize cfg)) children).

Definition stepSplitRemapSessions (c : Coord) : Coord :=
  fold_left (fun c route =>
    let '(destHost, destCell) := split_target route in
    move_session cfg env destHost destCell c (sr_Key route, sr_Username route))
    (routes_where c (fun cell => String.eqb cell (key_of (rq_SrcCell req)))) c.

Definition stepSplitReleaseParentHost (c : Coord) : Coord :=
  match rq_commands req with
  | [] => c
  | cmd :: _ => if String.eqb (cc_SrcHostID cmd) "" then c
                else remote_ReleaseCell env c (cc_SrcHostID cmd) (key_of (rq_SrcCell req))
  end.

Definition stepSplitPrimeCooldowns (c : Coord) : Coord :=
  emit (fold_left (fun c ch => emit c (OCall (CallPrimeCooldown (key_of ch)))) children c)
    (OCall CallTopologyChanged).

Definition stepRegistryDelta (pre : gmap string string) (c : Coord) : Coord :=
  applyRegistryDelta cfg env c mut pre.

(** The ownership snapshot is taken before the first step. *)
Definition buildSplitPlan (pre : gmap string string) : list PlanStep :=
  [stepSplitApplyCoordMutation; stepSplitRemapSessions; stepRegistryDelta pre;
   stepSplitReleaseParentHost; stepSplitPrimeCooldowns; broadcastPeerList env].

(** *** Merge *)

Definition survivorKey : string :=
  match rq_commands req with [] => ""%string | cmd :: _ => cc_DestCellID cmd end.

Definition parentKey : string := key_of (rq_SrcCell req).
Definition parentHost : string := default ""%string (mu_add mut !! parentKey).

Definition stepMergeApplyCoordMutation (c : Coord) : Coord :=
  let c := flip_cellToHost c mut in
  let ext := (collect_external (list_to_set children) children (topology c)).1 in
  upd_topology c (rebuild_all cfg
    (UpdateAfterMerge (elements ext) (elements ext) (topology c) children (rq_SrcCell req) (CellSize cfg))
    [rq_SrcCell req]).

Definition stepMergeRenameSurvivorHost (c : Coord) : Coord :=
  if negb (String.eqb survivorKey "") && negb (String.eqb survivorKey parentKey)
     && negb (String.eqb parentHost "")
  then remote_RenameCell env c parentHost survivorKey parentKey else c.

Definition merge_affected : list string :=
  (if String.eqb survivorKey "" then [] else [survivorKey]) ++
  map cc_SrcCellID (filter (fun cmd => cc_Kind cmd = CellTransferMerge /\ cc_SrcCellID cmd <> ""%string)
                      (rq_commands req)).

Definition stepMergeRemapSessions (c : Coord) : Coord :=
  fold_left (fun c route => move_session cfg env parentHost parentKey c (sr_Key route, sr_Username route))
    (routes_where c (fun cell => bool_decide (cell ∈ merge_affected))) c.

Definition stepMergeReleaseDonors (c : Coord) : Coord :=
  fold_left (fun c cmd =>
    if negb (bool_decide (cc_Kind cmd = CellTransferMerge)) || String.eqb (cc_SrcCellID cmd) ""
       || String.eqb (cc_SrcHostID cmd) "" then c
    else remote_ReleaseCell env c (cc_SrcHostID cmd) (cc_SrcCellID cmd)) (rq_commands req) c.

Definition stepMergePrimeCooldowns (c : Coord) : Coord :=
  let c := emit c (OCall (CallPrimeCooldown parentKey)) in
  emit (fold_left (fun c sib => emit c (OCall (CallClearCooldown (key_of sib)))) children c)
    (OCall CallTopologyChanged).

Definition buildMergePlan (pre : gmap string string) : list PlanStep :=
  [stepMergeApplyCoordMutation; stepMergeRenameSurvivorHost; stepMergeRemapSessions;
   stepRegistryDelta pre; stepMergeReleaseDonors; stepMergePrimeCooldowns; broadcastPeerList env].

(** *** Migrate *)

Definition destHost : string := default ""%string (mu_add mut !! parentKey).

Definition stepMigrateApplyCoordMutation (c : Coord) : Coord :=
  upd_cellToHost c (<[parentKey := destHost]> (cellToHost c)).

Definition stepMigrateRemapSessions (c : Coord) : Coord :=
  let '(r, remapped) :=
    remapHostCell (rorder env) (routes c) (fun cell => String.eqb cell parentKey) destHost parentKey in
  fold_left (fun c '(key, epoch) =>
    dispatchSessionRegister env (dispatchUpstreamSwitch cfg env c key destHost parentKey epoch)
      destHost key epoch parentKey) remapped (upd_routes c r).

Definition stepMigrateReleaseSrcHost (pre : gmap string string) (c : Coord) : Coord :=
  remote_ReleaseCell env c (default ""%string (pre !! parentKey)) parentKey.

Definition buildMigratePlan (pre : gmap string string) : list PlanStep :=
  [stepMigrateApplyCoordMutation; stepMigrateRemapSessions; stepRegistryDelta pre;
   stepMigrateReleaseSrcHost pre; broadcastPeerList env].

Definition applyCellTransferCommit (c : Coord) : Coord :=
  let pre := snapshotOwnershipLocked env c req in
  match rq_Kind req with
  | CellTransferSplit => ExecuteCommitPlan (buildSplitPlan pre) c
  | CellTransferMerge => ExecuteCommitPlan (buildMergePlan pre) c
  | CellTransferMigrate => ExecuteCommitPlan (buildMigratePlan pre) c
  | CellTransferUnspecified => flip_cellToHost c mut
  end.
End Plans.

(** The commit goroutine. *)
Definition commit (cfg : Config) (env : Env) (c : Coord) (o : cellTransferOrchestrator)
  (req : CellTransferRequest) : Coord * option cellTransferOrchestrator :=
  let c := applyCellTransferCommit cfg env req c in
  let o := upd_requests o (inflight o) (delete (rq_ID req) (committing o)) in
  let cs := if hasDispatcher o
            then map (DispatchCommit (rq_ID req)) (corder env (cellTransferRequestHosts req true))
            else [] in
  (c, settle o req Committed cs).
