(* ===== verification/CellTransferSafety.v ===== *)
(** * The orchestrator's state machine (pkg/universe/cell_transfer.go)

    Every request the orchestrator starts is in flight, committing or settled, and
    is settled once: [Done] is never closed twice, whatever replies, timeouts and
    commits interleave. *)

From S2P Require Import Prelude Float32 CellId Topology NetId SessionRoutes Rendezvous.
From S2P Require Import HostRegistry GatewayRegistry Services ControlPlane CellTransfer.

(** Go's [range] over a set visits its elements. *)
Definition ranges (env : Env) : Prop := forall (s : gset string) x, x ∈ corder env s <-> x ∈ s.

Definition ids_order (m : gmap Z CellTransferRequest) (order : list Z) : Prop :=
  NoDup order /\ forall id, id ∈ order <-> is_Some (m !! id).

Section Machine.
Context (cfg : Config).

(** A positive reply that arrived while its request was in flight: the request, the cell it
    names and the host whose stream it came on. *)
Record Reply := { rp_id : Z; rp_cell : string; rp_host : string }.

#[export] Instance Reply_eq_dec : EqDecision Reply.
Proof. solve_decision. Defined.

Definition heard (o : cellTransferOrchestrator) (id : Z) (cell host : string) (ok : bool) : list Reply :=
  if ok && bool_decide (is_Some (inflight o !! id)) then [Build_Reply id cell host] else [].

(** The request counter stays below [2^64].  A coordinator step in between may do
    anything: the orchestrator's own state is not reachable from it.  A step is labelled
    with the reply it hears. *)
Inductive tlstep : list Reply -> Coord * cellTransferOrchestrator -> Coord * cellTransferOrchestrator -> Prop :=
| t_split env c o parent o' req : nextID o + 1 < 2 ^ 64 ->
    BeginSplit env c o parent = Ok (o', req) -> tlstep [] (c, o) (c, o')
| t_merge env c o parent o' req : nextID o + 1 < 2 ^ 64 ->
    BeginMerge env c o parent = Ok (o', req) -> tlstep [] (c, o) (c, o')
| t_migrate env c o cell dest o' req : nextID o + 1 < 2 ^ 64 ->
    BeginMigrate env c o cell dest = Ok (o', req) -> tlstep [] (c, o) (c, o')
| t_ready env c o id cell host ok users o' : ranges env ->
    OnReady env o id cell host ok users = Some o' -> tlstep (heard o id cell host ok) (c, o) (c, o')
| t_scan env c o order o' : ranges env -> ids_order (inflight o) order ->
    scanTimeouts env order o = Some o' -> tlstep [] (c, o) (c, o')
| t_commit env c c' o o' id req : ranges env -> committing o !! id = Some req ->
    commit cfg env c o req = (c', Some o') -> tlstep [] (c, o) (c', o')
| t_coord c c' o : tlstep [] (c, o) (c', o).

Definition tstep (s s' : Coord * cellTransferOrchestrator) : Prop := exists l, tlstep l s s'.

(** A run, with the replies it heard. *)
Inductive trun : list Reply -> Coord * cellTransferOrchestrator -> Coord * cellTransferOrchestrator -> Prop :=
| trun_nil s : trun [] s s
| trun_snoc l l' s1 s2 s3 : trun l s1 s2 -> tlstep l' s2 s3 -> trun (l ++ l') s1 s3.

(** ** Well-formed requests *)

Definition acked (req : CellTransferRequest) : list cellTransferCommand :=
  map snd (filter (fun p => p.1 = true) (zip (rq_ackedCmd req) (rq_commands req))).

Record req_wf (req : CellTransferRequest) : Prop := {
  rw_len : length (rq_ackedCmd req) = length (rq_commands req);
  rw_exp : rq_ExpectedReady req = Z.of_nat (length (rq_commands req));
  rw_count : rq_ackCount req = Z.of_nat (length (acked req));
  rw_hosts : forall h, h ∈ rq_receivedOK req <-> exists cmd, cmd ∈ acked req /\ cc_DestHostID cmd = h
}.

Definition all_acked (req : CellTransferRequest) : Prop :=
  Forall (fun b => b = true) (rq_ackedCmd req).

(** For every host and cell, as many replies as there are acknowledged commands that were
    to put this cell on that host. *)
Definition answered (l : list Reply) (req : CellTransferRequest) : Prop :=
  forall cell host,
    (length (filter (fun cmd => cc_DestCellID cmd = cell /\ cc_DestHostID cmd = host) (acked req))
     <= length (filter (fun x => x = Build_Reply (rq_ID req) cell host) l))%nat.

(** The hosts a settled request has notified. *)
Definition notified (o : cellTransferOrchestrator) (id : Z) (req : CellTransferRequest) (out : Outcome) : Prop :=
  match out with
  | Committed => all_acked req /\
      forall cmd h, cmd ∈ rq_commands req -> h <> ""%string ->
        h = cc_SrcHostID cmd \/ h = cc_DestHostID cmd -> DispatchCommit id h ∈ calls o
  | RolledBack =>
      (forall cmd, cmd ∈ rq_commands req -> cc_SrcHostID cmd <> ""%string ->
         DispatchAbort id (cc_SrcHostID cmd) ∈ calls o) /\
      (forall cmd, cmd ∈ acked req -> cc_DestHostID cmd <> ""%string ->
         DispatchAbort id (cc_DestHostID cmd) ∈ calls o)
  end.

Record orch_ok (o : cellTransferOrchestrator) : Prop := {
  ok_disp : hasDispatcher o = true;
  ok_next : 0 <= nextID o < 2 ^ 64;
  ok_inflight : forall id req, inflight o !! id = Some req ->
    rq_ID req = id /\ 0 < id <= nextID o /\ req_wf req /\ rq_ackCount req < rq_ExpectedReady req;
  ok_committing : forall id req, committing o !! id = Some req ->
    rq_ID req = id /\ 0 < id <= nextID o /\ req_wf req /\ all_acked req;
  ok_outcomes : forall id req out, outcomes o !! id = Some (req, out) ->
    0 < id <= nextID o /\ rq_ID req = id /\ req_wf req /\ notified o id req out;
  ok_excl1 : forall id, is_Some (inflight o !! id) -> committing o !! id = None /\ outcomes o !! id = None;
  ok_excl2 : forall id, is_Some (committing o !! id) -> outcomes o !! id = None;
  ok_cover : forall id, 0 < id <= nextID o ->
    is_Some (inflight o !! id) \/ is_Some (committing o !! id) \/ is_Some (outcomes o !! id)
}.

(** ** Lemmas on requests *)

Definition add_host (t : gset string) (h : string) : gset string :=
  if String.eqb h "" then t else {[h]} ∪ t.

Lemma elem_of_add_host t h x : x ∈ add_host t h <-> x ∈ t \/ (x = h /\ h <> ""%string).
Proof. unfold add_host. destruct (String.eqb_spec h ""); set_solver. Qed.

Lemma elem_of_hosts req b h :
  h ∈ cellTransferRequestHosts req b <->
  h <> ""%string /\ (h ∈ rq_receivedOK req \/
    exists cmd, cmd ∈ rq_commands req /\ (h = cc_SrcHostID cmd \/ (b = true /\ h = cc_DestHostID cmd))).
Proof.
  change (cellTransferRequestHosts req b) with
    (fold_left (fun t cmd => let t := add_host t (cc_SrcHostID cmd) in
                 if b then add_host t (cc_DestHostID cmd) else t)
       (rq_commands req) (rq_receivedOK req ∖ {[""%string]})).
  assert (forall l (t : gset string),
    h ∈ fold_left (fun t cmd => let t := add_host t (cc_SrcHostID cmd) in
                     if b then add_host t (cc_DestHostID cmd) else t) l t
    <-> h ∈ t \/ (h <> ""%string /\ exists cmd, cmd ∈ l /\ (h = cc_SrcHostID cmd \/ (b = true /\ h = cc_DestHostID cmd))))
    as Hl.
  { induction l as [|cmd l IH]; intros t; cbn [fold_left].
    - split; [by left|]. intros [H|(_ & cmd & H & _)]; [done|by apply elem_of_nil in H].
    - rewrite IH. setoid_rewrite elem_of_cons.
      destruct b; rewrite ?elem_of_add_host; clear IH; naive_solver. }
  rewrite Hl. rewrite elem_of_difference, elem_of_singleton. tauto.
Qed.

Lemma matched_split req host cell i :
  matched req host cell = Some i ->
  exists l1 l2 cmd, zip (rq_ackedCmd req) (rq_commands req) = l1 ++ (false, cmd) :: l2 /\ length l1 = i /\
    cc_DestHostID cmd = host /\ cc_DestCellID cmd = cell.
Proof.
  unfold matched. intros H. apply fmap_Some in H as ([j p] & Hf & ->).
  apply list_find_Some in Hf as (Hp & (E1 & E2 & E3) & _). destruct p as [b cmd]. simpl in *. subst.
  apply list_elem_of_split_length in Hp as (l1 & l2 & E & ->). by exists l1, l2, cmd.
Qed.

Lemma zip_insert_l {A B} (l : list A) (k : list B) l1 x y l2 x' :
  zip l k = l1 ++ (x, y) :: l2 -> zip (<[length l1 := x']> l) k = l1 ++ (x', y) :: l2.
Proof.
  revert l k. induction l1 as [|p l1 IH]; intros [|a l] [|b k] E; simpl in *; try done; simplify_eq.
  - done.
  - f_equal. by apply IH.
Qed.

Lemma acked_acknowledge req host cell i users :
  matched req host cell = Some i ->
  exists l1 l2 cmd, acked req = l1 ++ l2 /\ acked (acknowledge req i host cell users) = l1 ++ cmd :: l2 /\
    cc_DestHostID cmd = host /\ cc_DestCellID cmd = cell.
Proof.
  intros H. apply matched_split in H as (l1 & l2 & cmd & E & Hl & Hh & Hd).
  unfold acked. cbn [rq_ackedCmd rq_commands acknowledge].
  rewrite <- Hl, (zip_insert_l _ _ _ _ _ _ true E), E, !filter_app, !map_app.
  rewrite filter_cons_False, filter_cons_True by done. cbn [map]. by eexists _, _, cmd.
Qed.

Lemma acknowledge_wf req host cell i users :
  matched req host cell = Some i -> req_wf req -> req_wf (acknowledge req i host cell users).
Proof.
  intros Hm [W1 W2 W3 W4]. destruct (acked_acknowledge req host cell i users Hm) as (l1 & l2 & cmd & E & E' & Hh & _).
  constructor; [|done|..].
  - cbn. by rewrite length_insert.
  - rewrite E'. cbn [rq_ackCount acknowledge]. rewrite W3, E, !length_app. simpl. lia.
  - intros h. cbn [rq_receivedOK acknowledge]. rewrite E', elem_of_union, elem_of_singleton, W4, E.
    setoid_rewrite elem_of_app. setoid_rewrite elem_of_cons. naive_solver.
Qed.

Lemma filter_full {A} (P : A -> Prop) `{forall x, Decision (P x)} (l : list A) :
  (length l <= length (filter P l))%nat -> Forall P l.
Proof.
  induction l as [|x l IH]; [by constructor|]. rewrite filter_cons. intros Hl.
  destruct (decide (P x)); simpl in Hl; [constructor; [done|apply IH; lia]|].
  pose proof (length_filter P l). lia.
Qed.

Lemma all_acked_full req : req_wf req -> rq_ExpectedReady req <= rq_ackCount req -> all_acked req.
Proof.
  intros [W1 W2 W3 _]. rewrite W2, W3. unfold acked, all_acked. rewrite length_map. intros Hle.
  assert (Forall (fun p : bool * cellTransferCommand => p.1 = true) (zip (rq_ackedCmd req) (rq_commands req))) as Hf.
  { apply (filter_full (fun p : bool * cellTransferCommand => p.1 = true)). rewrite length_zip. lia. }
  rewrite <- (fst_zip (rq_ackedCmd req) (rq_commands req)) by lia.
  by apply Forall_fmap.
Qed.

(** ** Preservation *)

(** Every [Begin] that succeeds installs a fresh request with at least one command. *)
Lemma begin_shape env c o o' req :
  (exists parent, BeginSplit env c o parent = Ok (o', req)) \/
  (exists parent, BeginMerge env c o parent = Ok (o', req)) \/
  (exists cell dest, BeginMigrate env c o cell dest = Ok (o', req)) ->
  hasDispatcher o = true /\ o' = install o req /\
  exists k s d cmds dl mut, cmds <> [] /\ req = no_request (u64 (nextID o + 1)) k s d cmds dl mut.
Proof.
  unfold BeginSplit, BeginMerge, BeginMigrate.
  intros [(p & E)|[(p & E)|(cell & dest & E)]]; (destruct (hasDispatcher o) eqn:Ed; [|done]); cbn [negb] in E;
    (split; [done|]).
  - destruct (liveHostIDsLocked env c); [done|]. destruct (String.eqb _ _); [done|].
    injection E as <- <-. split; [done|]. eexists _, _, _, _, _, _. split; [|reflexivity]. done.
  - destruct (liveHostIDsLocked env c) as [|h hs]; [done|]. destruct (existsb _ _); [done|].
    destruct (match list_find _ _ with Some _ => _ | None => _ end) as [idx sh].
    injection E as <- <-. split; [done|]. eexists _, _, _, _, _, _. split; [|reflexivity].
    destruct idx; [|done]. done.
  - destruct (String.eqb _ _); [done|]. destruct (negb _); [done|]. destruct (String.eqb _ _); [done|].
    injection E as <- <-. split; [done|]. eexists _, _, _, _, _, _. split; [|reflexivity]. done.
Qed.

Lemma no_request_wf id k s d cmds dl mut : req_wf (no_request id k s d cmds dl mut).
Proof.
  assert (acked (no_request id k s d cmds dl mut) = []) as Ea.
  { unfold acked. cbn [rq_ackedCmd rq_commands no_request]. induction cmds as [|cmd cmds IH]; [done|].
    cbn [length replicate zip_with]. by rewrite filter_cons_False. }
  constructor; [|done|..].
  - cbn. by rewrite length_replicate.
  - by rewrite Ea.
  - rewrite Ea. cbn. set_solver.
Qed.

Lemma notified_more o o' id req out :
  (forall x, x ∈ calls o -> x ∈ calls o') -> notified o id req out -> notified o' id req out.
Proof. unfold notified. destruct out; [intros H [? H']|intros H [H1 H2]]; split; eauto. Qed.

Lemma begin_ok env c o o' req :
  (exists parent, BeginSplit env c o parent = Ok (o', req)) \/
  (exists parent, BeginMerge env c o parent = Ok (o', req)) \/
  (exists cell dest, BeginMigrate env c o cell dest = Ok (o', req)) ->
  nextID o + 1 < 2 ^ 64 -> orch_ok o -> orch_ok o'.
Proof.
  intros Hb Hn Hok. destruct (begin_shape _ _ _ _ _ Hb) as (Hd & -> & k & s & d & cmds & dl & mut & Hne & ->).
  destruct Hok as [K1 K2 K3 K4 K5 K6 K7 K8]. set (id := u64 (nextID o + 1)).
  assert (id = nextID o + 1) as Hid by (unfold id, u64; rewrite Z.mod_small; lia).
  assert (forall m : gmap Z CellTransferRequest, (forall id req, m !! id = Some req -> id <= nextID o) -> m !! id = None)
    as Hfresh.
  { intros m Hm. destruct (m !! id) eqn:E; [|done]. apply Hm in E. lia. }
  assert (outcomes o !! id = None) as Hout.
  { destruct (outcomes o !! id) as [[? ?]|] eqn:E; [|done]. apply K5 in E. lia. }
  constructor; cbn; try done.
  - lia.
  - intros i r. rewrite lookup_insert. case_decide.
    + intros [= <-]. subst i. split; [done|]. split; [lia|]. split; [apply no_request_wf|].
      cbn. destruct cmds; [done|]. simpl. lia.
    + intros E. destruct (K3 _ _ E) as (A1 & A2 & A3). split; [done|]. split; [lia|done].
  - intros i r E. destruct (K4 _ _ E) as (A1 & A2 & A3). split; [done|]. split; [lia|done].
  - intros i r out E. destruct (K5 _ _ _ E) as (A2 & A3). split; [lia|exact A3].
  - intros i. rewrite lookup_insert. case_decide; [|apply K6]. intros _. subst i. split; [|done].
    apply Hfresh. intros i r E. apply K4 in E. lia.
  - intros i Hi. rewrite lookup_insert. case_decide; [eauto|]. apply K8. lia.
Qed.

(** Closing a request that is neither in flight nor committing nor settled. *)
Lemma settle_ok o req out cs :
  let id := rq_ID req in
  0 < id <= nextID o -> outcomes o !! id = None -> inflight o !! id = None -> committing o !! id = None ->
  hasDispatcher o = true -> 0 <= nextID o < 2 ^ 64 ->
  (forall i r, inflight o !! i = Some r -> rq_ID r = i /\ 0 < i <= nextID o /\ req_wf r /\ rq_ackCount r < rq_ExpectedReady r) ->
  (forall i r, committing o !! i = Some r -> rq_ID r = i /\ 0 < i <= nextID o /\ req_wf r /\ all_acked r) ->
  (forall i r out, outcomes o !! i = Some (r, out) ->
     0 < i <= nextID o /\ rq_ID r = i /\ req_wf r /\ notified o i r out) ->
  (forall i, is_Some (inflight o !! i) -> committing o !! i = None /\ outcomes o !! i = None) ->
  (forall i, is_Some (committing o !! i) -> outcomes o !! i = None) ->
  (forall i, 0 < i <= nextID o -> i = id \/
     is_Some (inflight o !! i) \/ is_Some (committing o !! i) \/ is_Some (outcomes o !! i)) ->
  req_wf req -> (forall o', calls o' = calls o ++ cs -> notified o' id req out) ->
  exists o', settle o req out cs = Some o' /\ orch_ok o' /\
    inflight o' = inflight o /\ committing o' = committing o /\
    outcomes o' = <[id := (req, out)]> (outcomes o).
Proof.
  intros id Hid Hout Hin Hcom Hd Hn K3 K4 K5 K6 K7 K8 Hwf Hnot. unfold settle. fold id. rewrite Hout.
  eexists. split; [done|]. split; [|done]. constructor; cbn; try done.
  - intros i r out'. rewrite lookup_insert. case_decide.
    + subst i. intros [= <- <-]. split; [lia|]. split; [done|]. split; [done|]. by apply Hnot.
    + intros E. destruct (K5 _ _ _ E) as (A1 & A2 & A3 & B). do 3 (split; [done|]). eapply notified_more; [|exact B].
      cbn. intros x Hx. apply elem_of_app. by left.
  - intros i Hi. rewrite lookup_insert. case_decide; [|by apply K6]. subst i. rewrite Hin in Hi. by destruct Hi.
  - intros i Hi. rewrite lookup_insert. case_decide; [|by apply K7]. subst i. rewrite Hcom in Hi. by destruct Hi.
  - intros i Hi. rewrite lookup_insert. case_decide; [eauto|].
    destruct (K8 i Hi) as [->|[Hx|[Hx|Hx]]]; [done|eauto..].
Qed.

(** Taking a request out of flight and rolling it back. *)
Lemma rollback_ok env o req :
  ranges env -> orch_ok o -> inflight o !! rq_ID req = Some req ->
  exists o', rollback env o req = Some o' /\ orch_ok o' /\
    inflight o' = delete (rq_ID req) (inflight o) /\ committing o' = committing o /\
    outcomes o' = <[rq_ID req := (req, RolledBack)]> (outcomes o).
Proof.
  intros Hr [K1 K2 K3 K4 K5 K6 K7 K8] Hin.
  destruct (K3 _ _ Hin) as (_ & Hid & Hwf & _). pose proof Hwf as [W1 W2 W3 W4]. destruct (K6 (rq_ID req) (ex_intro _ _ Hin)) as [Hc Ho].
  unfold rollback. set (o1 := upd_requests o _ _).
  destruct (settle_ok o1 req RolledBack
    (if hasDispatcher o1 then map (DispatchAbort (rq_ID req)) (corder env (cellTransferRequestHosts req false)) else []))
    as (o' & E & Hok & E1 & E2 & E3); try done.
  - cbn. by rewrite lookup_delete, decide_True.
  - cbn. intros i r. rewrite lookup_delete. case_decide; [done|apply K3].
  - cbn. intros i. rewrite lookup_delete. case_decide; [by intros [? ?]|apply K6].
  - cbn. intros i Hi. rewrite lookup_delete. case_decide; [by left|right; by apply K8].
  - cbn. rewrite K1. intros o' Ec. split.
    + intros cmd Hcmd Hne. rewrite Ec, elem_of_app. right. apply list_elem_of_fmap_2, Hr, elem_of_hosts.
      split; [done|]. right. eauto.
    + intros cmd Hcmd Hne. rewrite Ec, elem_of_app. right. apply list_elem_of_fmap_2, Hr, elem_of_hosts.
      split; [done|]. left. apply W4. eauto.
  - exists o'. done.
Qed.

Lemma rollback_inflight env o m req :
  rollback env (upd_requests o m (committing o)) req
  = (fun o' => upd_requests o' (delete (rq_ID req) m) (committing o')) <$> rollback env o req.
Proof. unfold rollback, settle. cbn. by destruct (outcomes o !! rq_ID req). Qed.

Lemma upd_requests_same o : upd_requests o (inflight o) (committing o) = o.
Proof. by destruct o. Qed.

Lemma fold_delete (l : list CellTransferRequest) (m : gmap Z CellTransferRequest) k :
  fold_left (fun m r => delete (rq_ID r) m) l (delete k m)
  = delete k (fold_left (fun m r => delete (rq_ID r) m) l m).
Proof.
  revert m. induction l as [|r l IH]; intros m; [done|]. cbn [fold_left]. by rewrite delete_delete, IH.
Qed.

(** The scan: the expired requests, all taken out of flight first, then rolled back
    one by one. *)
Lemma rollback_all env expired o :
  ranges env -> orch_ok o -> NoDup (map rq_ID expired) ->
  Forall (fun req => inflight o !! rq_ID req = Some req) expired ->
  let gone := fold_left (fun m req => delete (rq_ID req) m) expired (inflight o) in
  exists o', fold_left (fun oo req => match oo with Some o => rollback env o req | None => None end) expired
      (Some (upd_requests o gone (committing o))) = Some o' /\
    orch_ok o' /\ inflight o' = gone /\ committing o' = committing o /\
    (forall id, outcomes o' !! id
       = match list_find (fun req => rq_ID req = id) expired with
         | Some (_, req) => Some (req, RolledBack)
         | None => outcomes o !! id
         end).
Proof.
  intros Hr. revert o. induction expired as [|req expired IH]; intros o Hok Hnd Hin; cbn [fold_left map].
  { exists o. split; [by rewrite upd_requests_same|]. done. }
  apply NoDup_cons in Hnd as [Hni Hnd]. apply Forall_cons in Hin as [Hin Hins].
  destruct (rollback_ok env o req Hr Hok Hin) as (o1 & E & Hok1 & E1 & E2 & E3).
  destruct (IH o1 Hok1 Hnd) as (o' & Ef & Hok' & F1 & F2 & F3).
  { apply Forall_forall. intros r Hr'. rewrite E1, lookup_delete. case_decide as Hd.
    - destruct Hni. rewrite Hd. by apply list_elem_of_fmap_2.
    - by apply (proj1 (Forall_forall _ _) Hins). }
  exists o'. rewrite E1 in Ef, F1. rewrite E2 in Ef. split; [|split; [done|split; [done|split; [congruence|]]]].
  - rewrite fold_delete, rollback_inflight, E, <- fold_delete. cbn [fmap option_fmap option_map].
    rewrite fold_delete, delete_delete_eq, <- fold_delete, E2. exact Ef.
  - intros id. rewrite F3. cbn [list_find]. rewrite E3, lookup_insert.
    destruct (decide (rq_ID req = id)) as [Hd|Hd].
    + destruct (list_find _ expired) as [[j r]|] eqn:El.
      * apply list_find_Some in El as (El & Hid & _). destruct Hni. rewrite Hd, <- Hid.
        apply list_elem_of_fmap_2. by eapply list_elem_of_lookup_2.
      * done.
    + destruct (list_find _ expired) as [[j r]|]; done.
Qed.

Lemma onready_ok env o id cell host ok users :
  ranges env -> orch_ok o -> exists o', OnReady env o id cell host ok users = Some o' /\ orch_ok o'.
Proof.
  intros Hr Hok. unfold OnReady. destruct (inflight o !! id) as [req|] eqn:Ei; [|by exists o].
  pose proof Hok as [K1 K2 K3 K4 K5 K6 K7 K8].
  destruct (K3 _ _ Ei) as (Hid & Hb & Hwf & Hlt). destruct (K6 id (ex_intro _ _ Ei)) as [Hc Ho].
  destruct ok; cbn [negb].
  2:{ rewrite rollback_inflight. rewrite <- Hid in Ei.
      destruct (rollback_ok env o req Hr Hok Ei) as (o' & E & Hok' & E1 & E2 & E3). rewrite E.
      cbn [fmap option_fmap option_map]. eexists. split; [done|].
      rewrite <- Hid, delete_delete_eq, <- E1. by rewrite upd_requests_same. }
  destruct (matched req host cell) as [i|] eqn:Em; [|by exists o].
  pose proof (acknowledge_wf req host cell i users Em Hwf) as Hwf'.
  set (req' := acknowledge req i host cell users) in *. assert (rq_ID req' = id) as Hid' by done.
  destruct (Z.ltb_spec (rq_ackCount req') (rq_ExpectedReady req')) as [Hl|Hl];
    (eexists; split; [done|]); constructor; cbn; try done.
  - intros j r. rewrite lookup_insert. case_decide; [|apply K3]. intros [= <-]. subst j. done.
  - intros j Hj. apply K6. rewrite lookup_insert in Hj. case_decide; [subst j; eauto|done].
  - intros j Hj. rewrite lookup_insert. case_decide; [eauto|by apply K8].
  - intros j r. rewrite lookup_delete. case_decide; [done|apply K3].
  - intros j r. rewrite lookup_insert. case_decide; [|apply K4]. intros [= <-]. subst j.
    split; [done|]. split; [done|]. split; [done|]. by apply all_acked_full.
  - intros j Hj. rewrite lookup_delete in Hj. rewrite lookup_insert.
    case_decide; [by destruct Hj|by apply K6].
  - intros j Hj. rewrite lookup_insert in Hj. case_decide; [by subst j|by apply K7].
  - intros j Hj. rewrite lookup_delete, lookup_insert. case_decide; [right; left; eauto|by apply K8].
Qed.

Definition overdue (env : Env) (req : CellTransferRequest) : Prop := rq_Deadline req < now env.

#[export] Instance overdue_dec env req : Decision (overdue env req).
Proof. unfold overdue. apply _. Defined.

Lemma fold_delete_lookup (l : list CellTransferRequest) (m : gmap Z CellTransferRequest) id :
  fold_left (fun m r => delete (rq_ID r) m) l m !! id
  = if decide (id ∈ map rq_ID l) then None else m !! id.
Proof.
  revert m. induction l as [|r l IH]; intros m; cbn [fold_left map].
  - rewrite decide_False; [done|apply not_elem_of_nil].
  - rewrite IH, lookup_delete. destruct (decide (id ∈ map rq_ID l)) as [H|H].
    + rewrite decide_True; [done|by right].
    + destruct (decide (rq_ID r = id)) as [<-|Hne].
      * rewrite decide_True; [done|by left].
      * rewrite decide_False; [done|]. intros [?|?]%elem_of_cons; congruence.
Qed.

Lemma scan_ok env order o :
  ranges env -> ids_order (inflight o) order -> orch_ok o ->
  exists o', scanTimeouts env order o = Some o' /\ orch_ok o' /\
    (forall id req, inflight o !! id = Some req ->
       if decide (overdue env req)
       then outcomes o' !! id = Some (req, RolledBack) /\ inflight o' !! id = None
       else inflight o' !! id = Some req) /\
    (forall id x, outcomes o !! id = Some x -> outcomes o' !! id = Some x) /\ committing o' = committing o.
Proof.
  intros Hr [Hnd Hord] Hok. unfold scanTimeouts.
  set (reqs := omap (fun id => inflight o !! id) order).
  set (expired := filter _ reqs). pose proof Hok as [K1 K2 K3 K4 K5 K6 K7 K8].
  assert (forall r, r ∈ reqs <-> inflight o !! rq_ID r = Some r) as Hreqs.
  { intros r. unfold reqs. rewrite list_elem_of_omap. split.
    - intros (id & _ & E). by rewrite (proj1 (K3 _ _ E)).
    - intros E. exists (rq_ID r). split; [apply Hord; eauto|done]. }
  assert (NoDup (map rq_ID reqs)) as Hnd'.
  { unfold reqs. clear -Hnd K3. induction Hnd as [|id order Hni Hnd IH]; [constructor|]. simpl.
    destruct (inflight o !! id) as [r|] eqn:E; [|done]. cbn [map]. constructor; [|done].
    rewrite (proj1 (K3 _ _ E)). intros (r' & E' & (id' & Hin & El)%list_elem_of_omap)%list_elem_of_fmap_1.
    rewrite (proj1 (K3 _ _ El)) in E'. by subst id'. }
  assert (sublist (map rq_ID expired) (map rq_ID reqs)) as Hsub by apply fmap_sublist, sublist_filter.
  destruct (rollback_all env expired o Hr Hok) as (o' & E & Hok' & E1 & E2 & E3).
  { by eapply sublist_NoDup. }
  { apply Forall_forall. intros r [_ Hin]%list_elem_of_filter. by apply Hreqs. }
  exists o'. split; [exact E|]. split; [done|]. split; [|split; [|done]].
  - intros id req Hin. pose proof (proj1 (K3 _ _ Hin)) as Hid.
    rewrite E1, fold_delete_lookup. case_decide as Hov.
    + assert (req ∈ expired) as Hex.
      { apply list_elem_of_filter. split; [done|]. apply Hreqs. by rewrite Hid. }
      rewrite decide_True by (rewrite <- Hid; by apply list_elem_of_fmap_2). split; [|done]. rewrite E3.
      destruct (list_find _ expired) as [[j r]|] eqn:El.
      * apply list_find_Some in El as (El & Hr' & _). apply list_elem_of_lookup_2 in El.
        apply list_elem_of_filter in El as [_ El]. apply Hreqs in El. rewrite Hr', Hin in El. congruence.
      * apply list_find_None in El. apply (proj1 (Forall_forall _ _) El) in Hex. done.
    + rewrite decide_False; [done|]. intros (r & E' & [Hr1 Hr2]%list_elem_of_filter)%list_elem_of_fmap_1.
      apply Hreqs in Hr2. rewrite <- E', Hin in Hr2. injection Hr2 as <-. done.
  - intros id x Hx. rewrite E3. destruct (list_find _ expired) as [[j r]|] eqn:El; [|done].
    apply list_find_Some in El as (El & Hr' & _). apply list_elem_of_lookup_2 in El.
    apply list_elem_of_filter in El as [_ El]. apply Hreqs in El. rewrite Hr' in El.
    destruct (K6 id (ex_intro _ _ El)) as [_ Hn]. congruence.
Qed.

Lemma commit_ok env c o id req :
  ranges env -> orch_ok o -> committing o !! id = Some req ->
  exists o', (commit cfg env c o req).2 = Some o' /\ orch_ok o' /\
    outcomes o' = <[id := (req, Committed)]> (outcomes o).
Proof.
  intros Hr [K1 K2 K3 K4 K5 K6 K7 K8] Hc. destruct (K4 _ _ Hc) as (Hid & Hb & Hwf & Hall).
  assert (inflight o !! id = None) as Hin.
  { destruct (inflight o !! id) eqn:E; [|done]. destruct (K6 id (ex_intro _ _ E)). congruence. }
  unfold commit. cbn [snd]. subst id.
  destruct (settle_ok (upd_requests o (inflight o) (delete (rq_ID req) (committing o))) req Committed
    (if hasDispatcher o then map (DispatchCommit (rq_ID req)) (corder env (cellTransferRequestHosts req true)) else []))
    as (o' & E & Hok & E1 & E2 & E3); cbn; try done.
  - by apply K7.
  - by rewrite lookup_delete, decide_True.
  - intros i r. rewrite lookup_delete. case_decide; [done|apply K4].
  - intros i Hi. rewrite lookup_delete. case_decide; [|by apply K6]. by split; [|apply K6].
  - intros i. rewrite lookup_delete. case_decide; [by intros [? ?]|apply K7].
  - intros i Hi. rewrite lookup_delete. case_decide; [by left|right; by apply K8].
  - rewrite K1. intros o' Ec. split; [done|]. intros cmd h Hcmd Hne Hh. rewrite Ec, elem_of_app. right.
    apply list_elem_of_fmap_2, Hr, elem_of_hosts. split; [done|]. right. naive_solver.
  - exists o'. done.
Qed.

Lemma transfer_step_ok s s' : tstep s s' -> orch_ok s.2 -> orch_ok s'.2.
Proof.
  intros [l [env c o parent o' req Hn E|env c o parent o' req Hn E|env c o cell dest o' req Hn E
         |env c o id cell host ok users o' Hr E|env c o order o' Hr Ho E|env c c' o o' id req Hr Hc E|c c' o]] Hok;
    simpl in *.
  - eapply begin_ok; [left; eauto|done..].
  - eapply begin_ok; [right; left; eauto|done..].
  - eapply begin_ok; [right; right; eauto|done..].
  - destruct (onready_ok env o id cell host ok users Hr Hok) as (o1 & E1 & Hok1). congruence.
  - destruct (scan_ok env order o Hr Ho Hok) as (o1 & E1 & Hok1 & _). congruence.
  - destruct (commit_ok env c o id req Hr Hok Hc) as (o1 & E1 & Hok1 & _). rewrite E in E1. simpl in E1. congruence.
  - done.
Qed.

Definition fresh (o : cellTransferOrchestrator) : Prop :=
  hasDispatcher o = true /\ nextID o = 0 /\ inflight o = ∅ /\ committing o = ∅ /\ outcomes o = ∅.

Lemma reachable_ok c0 o0 s : fresh o0 -> rtc tstep (c0, o0) s -> orch_ok s.2.
Proof.
  intros (F1 & F2 & F3 & F4 & F5) Hr.
  assert (orch_ok (c0, o0).2) as H0.
  { constructor; simpl; rewrite ?F1, ?F2, ?F3, ?F4, ?F5; try done; try (intros; by rewrite lookup_empty in * );
      intros id Hi; try lia; rewrite lookup_empty in Hi; by destruct Hi. }
  remember (c0, o0) as s0 eqn:E0. clear E0. induction Hr; eauto using transfer_step_ok.
Qed.

(** C14: every transfer request ends, once.  In every state the orchestrator can reach,
    under any interleaving of new requests, replies (genuine, duplicated, negative
    or unknown), timeout scans and commits: each request issued so far is in
    exactly one of flight, commit or a final outcome; and no reply, scan or commit
    can panic by closing [Done] a second time. *)
Theorem requests_settle_once (c0 c : Coord) (o0 o : cellTransferOrchestrator) (env : Env) :
  fresh o0 -> rtc tstep (c0, o0) (c, o) -> ranges env ->
  (forall id, 0 < id <= nextID o ->
     (is_Some (inflight o !! id) /\ committing o !! id = None /\ outcomes o !! id = None) \/
     (inflight o !! id = None /\ is_Some (committing o !! id) /\ outcomes o !! id = None) \/
     (inflight o !! id = None /\ committing o !! id = None /\ is_Some (outcomes o !! id))) /\
  (forall id cell host ok users, OnReady env o id cell host ok users <> None) /\
  (forall order, ids_order (inflight o) order -> scanTimeouts env order o <> None) /\
  (forall id req, committing o !! id = Some req -> (commit cfg env c o req).2 <> None).
Proof.
  intros Hf Hr He. apply (reachable_ok _ _ _ Hf) in Hr as Hok. simpl in Hok. split; [|split; [|split]].
  - destruct Hok as [K1 K2 K3 K4 K5 K6 K7 K8]. intros id Hi.
    destruct (inflight o !! id) eqn:E1; [left; split; [eauto|apply K6; eauto]|right].
    destruct (committing o !! id) eqn:E2; [left; split; [done|split; [eauto|apply K7; eauto]]|right].
    split; [done|split; [done|]]. destruct (K8 id Hi) as [[? ?]|[[? ?]|?]]; [congruence..|done].
  - intros id cell host ok users. by destruct (onready_ok env o id cell host ok users He Hok) as (? & -> & _).
  - intros order Ho. by destruct (scan_ok env order o He Ho Hok) as (? & -> & _).
  - intros id req Hc. by destruct (commit_ok env c o id req He Hok Hc) as (? & -> & _).
Qed.

(** ** The replies behind the acknowledgements *)

Definition all_answered (l : list Reply) (o : cellTransferOrchestrator) : Prop :=
  forall id req, inflight o !! id = Some req \/ committing o !! id = Some req \/ (exists out, outcomes o !! id = Some (req, out)) ->
    answered l req.

Lemma answered_more l l' req : answered l req -> answered (l ++ l') req.
Proof.
  intros H cell host. rewrite filter_app, length_app.
  exact (Nat.le_trans _ _ _ (H cell host) (Nat.le_add_r _ _)).
Qed.

Lemma all_answered_more l l' o : all_answered l o -> all_answered (l ++ l') o.
Proof. intros H id req Hin. by apply answered_more, (H id). Qed.

Lemma acked_none id k s d cmds dl mut : acked (no_request id k s d cmds dl mut) = [].
Proof.
  unfold acked. cbn [rq_ackedCmd rq_commands no_request]. induction cmds as [|cmd cmds IH]; [done|].
  cbn [length replicate zip_with]. by rewrite filter_cons_False.
Qed.

Lemma all_answered_rollback l env o o' req :
  answered l req -> all_answered l o -> rollback env o req = Some o' -> all_answered l o'.
Proof.
  intros Hreq H. unfold rollback, settle. cbn [outcomes upd_requests]. destruct (outcomes o !! rq_ID req); [done|].
  intros [= <-] id r. cbn. intros [Hin|[Hin|[out Hin]]].
  - apply lookup_delete_Some in Hin as [_ Hin]. by apply (H id); left.
  - by apply (H id); right; left.
  - rewrite lookup_insert in Hin. case_decide; [by simplify_eq|]. apply (H id). right. right. by exists out.
Qed.

Lemma all_answered_requests l o i c :
  (forall id req, i !! id = Some req \/ c !! id = Some req -> answered l req) -> all_answered l o ->
  all_answered l (upd_requests o i c).
Proof. intros Hi H id r [Hin|[Hin|Hin]]; [eapply Hi; eauto|eapply Hi; eauto|]. apply (H id). by right; right. Qed.

Lemma all_answered_scan l env order o o' :
  all_answered l o -> scanTimeouts env order o = Some o' -> all_answered l o'.
Proof.
  intros H. unfold scanTimeouts. set (expired := filter _ _).
  assert (Forall (answered l) expired) as Hex.
  { apply Forall_forall. intros r [_ (id & _ & E)%list_elem_of_omap]%list_elem_of_filter. by apply (H id); left. }
  assert (forall l' (m : gmap Z CellTransferRequest) id r,
    fold_left (fun m req => delete (rq_ID req) m) l' m !! id = Some r -> m !! id = Some r) as Hsub.
  { intros l'. induction l' as [|x l' IH]; intros m id r E; [done|]. apply IH, lookup_delete_Some in E. tauto. }
  assert (all_answered l (upd_requests o (fold_left (fun m req => delete (rq_ID req) m) expired (inflight o)) (committing o))) as H1.
  { apply all_answered_requests; [|done]. intros id r [E|E]; [apply Hsub in E; by apply (H id); left|by apply (H id); right; left]. }
  revert H1. generalize (upd_requests o (fold_left (fun m req => delete (rq_ID req) m) expired (inflight o)) (committing o)).
  clear Hsub. induction Hex as [|r ex Hr Hex IH]; intros o1 H1 E; cbn [fold_left] in E; [by injection E as <-|].
  destruct (rollback env o1 r) as [o2|] eqn:E2.
  - apply (IH o2); [|done]. by apply (all_answered_rollback l env o1 o2 r).
  - exfalso. clear -E. induction ex; [done|by apply IHex].
Qed.

Lemma answered_acknowledge l req host cell i users : matched req host cell = Some i -> answered l req ->
  answered (l ++ [Build_Reply (rq_ID req) cell host]) (acknowledge req i host cell users).
Proof.
  intros Hm H cell' host'. destruct (acked_acknowledge req host cell i users Hm) as (l1 & l2 & cmd & E & -> & <- & <-).
  specialize (H cell' host'). rewrite E in H. cbn [rq_ID acknowledge].
  rewrite !filter_app, filter_cons, !length_app, filter_cons in *. rewrite filter_nil in *.
  destruct (decide (cc_DestCellID cmd = cell' /\ cc_DestHostID cmd = host')) as [[-> ->]|Hne].
  - rewrite decide_True by done. simpl. lia.
  - destruct (decide _); simpl; lia.
Qed.

Lemma answered_step l l' s s' : tlstep l' s s' -> orch_ok s.2 -> all_answered l s.2 -> all_answered (l ++ l') s'.2.
Proof.
  assert (forall env c o o' req,
    (exists parent, BeginSplit env c o parent = Ok (o', req)) \/
    (exists parent, BeginMerge env c o parent = Ok (o', req)) \/
    (exists cell dest, BeginMigrate env c o cell dest = Ok (o', req)) -> all_answered l o -> all_answered l o') as Hbegin.
  { intros env c o o' req Hb H. destruct (begin_shape _ _ _ _ _ Hb) as (_ & -> & k & s0 & d & cmds & dl & mut & _ & ->).
    intros id r [Hin|Hin]; [|apply (H id); by right]. cbn in Hin. rewrite lookup_insert in Hin.
    case_decide; [|apply (H id); by left]. injection Hin as <-. intros cell host. rewrite acked_none. simpl. lia. }
  intros Hs Hok H. apply (all_answered_more l l') in H as H'. destruct Hs; rewrite ?app_nil_r; simpl in *.
  - eapply Hbegin; [left; eauto|done].
  - eapply Hbegin; [right; left; eauto|done].
  - eapply Hbegin; [right; right; eauto|done].
  - match goal with E : OnReady _ _ _ _ _ _ _ = Some _ |- _ => rename E into Er end. unfold OnReady, heard in *.
    destruct (inflight o !! id) as [req|] eqn:Ei; [|by injection Er as <-].
    pose proof (proj1 (ok_inflight _ Hok _ _ Ei)) as Hid.
    destruct ok; cbn [negb andb] in *; [rewrite bool_decide_eq_true_2 in * by eauto|].
    2:{ eapply all_answered_rollback; [| |exact Er].
        - apply (H' id). by left.
        - apply all_answered_requests; [|done]. intros i r [E|E]; [apply lookup_delete_Some in E as [_ E]; apply (H' i); by left|].
          apply (H' i). by right; left. }
    destruct (matched req host cell) as [i|] eqn:Em; [|by injection Er as <-].
    assert (answered (l ++ [Build_Reply id cell host]) (acknowledge req i host cell users)) as Ha.
    { subst id. apply answered_acknowledge; [done|]. apply (H (rq_ID req)). by left. }
    destruct (_ <? _); injection Er as <-; (apply all_answered_requests; [|done]); intros j r0 [E|E].
    + rewrite lookup_insert in E. case_decide; [by injection E as <-|]. apply (H' j). by left.
    + apply (H' j). by right; left.
    + apply lookup_delete_Some in E as [_ E]. apply (H' j). by left.
    + rewrite lookup_insert in E. case_decide; [by injection E as <-|]. apply (H' j). by right; left.
  - by eapply all_answered_scan.
  - match goal with E : commit _ _ _ _ _ = _ |- _ => injection E as _ E; unfold settle in E; cbn [outcomes upd_requests] in E;
      destruct (outcomes o !! rq_ID req); [done|]; injection E as <- end.
    intros i r. cbn. intros [Hin|[Hin|[out Hin]]].
    + by apply (H i); left.
    + apply lookup_delete_Some in Hin as [_ Hin]. by apply (H i); right; left.
    + rewrite lookup_insert in Hin. case_decide; [injection Hin as <- <-; apply (H id); by right; left|].
      apply (H i). right. right. by exists out.
  - exact H.
Qed.

Lemma trun_ok l c0 o0 s : fresh o0 -> trun l (c0, o0) s -> orch_ok s.2 /\ all_answered l s.2.
Proof.
  intros Hf Hr. remember (c0, o0) as s0 eqn:E0. induction Hr as [s|l l' s1 s2 s3 Hr IH Hs]; subst.
  - split; [by eapply reachable_ok; [exact Hf|apply rtc_refl]|]. destruct Hf as (_ & _ & F3 & F4 & F5). intros id req. simpl.
    rewrite F3, F4, F5, !lookup_empty. by intros [?|[?|[? ?]]].
  - destruct (IH eq_refl) as [Hok H]. split; [eapply transfer_step_ok; [by eexists|done]|by eapply answered_step].
Qed.

(** The command list of a request all of whose commands are acknowledged. *)
Lemma all_acked_acked req : req_wf req -> all_acked req -> acked req = rq_commands req.
Proof.
  intros [Hl _ _ _] Ha. unfold acked, all_acked in *. revert Hl. generalize (rq_commands req). induction Ha as [|b bs -> Hbs IH]; intros [|cmd cmds] Hl; try done.
  cbn [zip_with]. rewrite filter_cons_True by done. cbn [map]. f_equal. apply IH. by injection Hl.
Qed.

(** C18: nothing commits early and nobody is left in the dark.  A request is committed
    only when every command it dispatched has been acknowledged: for each host and cell,
    at least as many positive replies naming that cell came on that host's stream, while
    the request was in flight, as there were commands to put this cell on that host (the
    three commands of a merge have one host and cell, and their replies are told apart by
    number alone).  Then every source and destination host has been sent the commit; a
    request rolled back has sent the abort to every source and to every destination that
    had acknowledged. *)
Theorem outcome_justified (l : list Reply) (c0 c : Coord) (o0 o : cellTransferOrchestrator) (id : Z)
  (req : CellTransferRequest) (out : Outcome) :
  fresh o0 -> trun l (c0, o0) (c, o) -> outcomes o !! id = Some (req, out) ->
  notified o id req out /\
  (out = Committed -> forall cell host,
     (length (filter (fun cmd => cc_DestCellID cmd = cell /\ cc_DestHostID cmd = host) (rq_commands req))
      <= length (filter (fun x => x = Build_Reply id cell host) l))%nat).
Proof.
  intros Hf Hr Ho. destruct (trun_ok _ _ _ _ Hf Hr) as [Hok Ha]. simpl in *.
  destruct (ok_outcomes _ Hok _ _ _ Ho) as (_ & Hid & Hwf & Hn). split; [done|]. intros -> cell host.
  destruct Hn as [Hall _]. specialize (Ha id req (or_intror (or_intror (ex_intro _ _ Ho))) cell host).
  by rewrite Hid, all_acked_acked in Ha.
Qed.

(** No request outlives its deadline.  A timeout scan rolls back exactly the
    requests in flight past their deadline, leaves the others in flight, and
    disturbs neither commits under way nor outcomes. *)
Theorem overdue_rolled_back (c0 c : Coord) (o0 o : cellTransferOrchestrator) (env : Env) (order : list Z) :
  fresh o0 -> rtc tstep (c0, o0) (c, o) -> ranges env -> ids_order (inflight o) order ->
  exists o', scanTimeouts env order o = Some o' /\
    (forall id req, inflight o !! id = Some req ->
       if decide (overdue env req)
       then outcomes o' !! id = Some (req, RolledBack) /\ inflight o' !! id = None
       else inflight o' !! id = Some req) /\
    (forall id x, outcomes o !! id = Some x -> outcomes o' !! id = Some x) /\ committing o' = committing o.
Proof.
  intros Hf Hr He Ho. apply (reachable_ok _ _ _ Hf) in Hr as Hok.
  destruct (scan_ok env order o He Ho Hok) as (o' & E & _ & H). by exists o'.
Qed.
End Machine.
