(* ===== verification/CellTransferCommit.v ===== *)
(** * What a commit does (pkg/universe/cell_transfer_commit.go, commit_builders_*.go)

    The effect of the three commit plans on cell ownership and on the sessions, read
    off the plans as wholes; and what goes wrong when the ownership the request
    recorded is not the ownership at commit time. *)

From S2P Require Import Prelude Float32 CellId Topology NetId SessionRoutes Rendezvous.
From S2P Require Import HostRegistry GatewayRegistry Services ControlPlane ControlFence ControlAssign.
From S2P Require Import ControlTopology CellTransfer CellTransferSafety.

(** ** Steps that leave ownership alone *)

Lemma hosts_flip c mut : hosts (flip_cellToHost c mut) = hosts c.
Proof. done. Qed.

Lemma hosts_move_session cfg env h cell c t : hosts (move_session cfg env h cell c t) = hosts c.
Proof.
  unfold move_session. destruct t as [key u]. destruct (Migrate _ _ _ _) as [r [e|]]; [|done].
  unfold dispatchUpstreamSwitch, dispatchSessionRegister, notifySessionActive, set_player.
  repeat case_match; autorewrite with hosts; done.
Qed.

Lemma hosts_remote_release env c h k : hosts (remote_ReleaseCell env c h k) = hosts c.
Proof. apply hosts_send_host. Qed.
Lemma hosts_remote_rename env c h a b : hosts (remote_RenameCell env c h a b) = hosts c.
Proof. apply hosts_send_host. Qed.
#[export] Hint Rewrite hosts_flip hosts_move_session hosts_remote_release hosts_remote_rename : hosts.

(** ** The registry delta *)

Lemma owns_release_cell cfg env c h x k y :
  owns (hosts (release_cell cfg env c h x)) k y <-> owns (hosts c) k y /\ ~ (k = h /\ y = x).
Proof. by rewrite hosts_release_cell, owns_ReleaseCell. Qed.

Lemma owns_assign_cell cfg env c h x k y :
  is_Some (hosts c !! h) ->
  owns (hosts (assign_cell cfg env c h x).1) k y <-> owns (hosts c) k y \/ (k = h /\ y = x).
Proof.
  intros [rh Hh]. unfold assign_cell. destruct (AssignCell (hosts c) h x) as [r|] eqn:E; simpl.
  - rewrite hosts_rebuild. simpl. by rewrite (owns_AssignCell _ _ _ _ k y E).
  - unfold AssignCell in E. by rewrite Hh in E.
Qed.

Lemma dom_release_cell cfg env c h x k :
  is_Some (hosts (release_cell cfg env c h x) !! k) <-> is_Some (hosts c !! k).
Proof. rewrite hosts_release_cell. apply ReleaseCell_dom. Qed.

Lemma dom_assign_cell cfg env c h x k :
  is_Some (hosts (assign_cell cfg env c h x).1 !! k) <-> is_Some (hosts c !! k).
Proof.
  unfold assign_cell. destruct (AssignCell _ _ _) as [r|] eqn:E; simpl; [|done].
  rewrite hosts_rebuild. simpl. by apply (AssignCell_dom _ _ _ _ k E).
Qed.

Section Delta.
Context (cfg : Config) (env : Env) (mut : topologyMutation) (pre : gmap string string).

Let prev (x : string) : string := default ""%string (pre !! x).

Lemma delta_removes l c :
  let c' := fold_left (fun c x => if negb (String.eqb (prev x) "") then release_cell cfg env c (prev x) x else c) l c in
  (forall k, is_Some (hosts c' !! k) <-> is_Some (hosts c !! k)) /\
  forall k x, owns (hosts c') k x <-> owns (hosts c) k x /\ ~ (x ∈ l /\ k = prev x /\ prev x <> ""%string).
Proof.
  revert c. induction l as [|y l IH]; intros c; cbn [fold_left].
  { split; [done|]. intros k x. rewrite elem_of_nil. tauto. }
  destruct (IH (if negb (String.eqb (prev y) "") then release_cell cfg env c (prev y) y else c)) as [I1 I2].
  split.
  - intros k. rewrite I1. destruct (String.eqb_spec (prev y) ""); [done|]. apply dom_release_cell.
  - intros k x. rewrite I2, elem_of_cons. destruct (String.eqb_spec (prev y) "") as [E|E]; cbn [negb].
    + destruct (decide (x = y)) as [->|]; [|tauto]. rewrite E. tauto.
    + rewrite owns_release_cell. destruct (decide (x = y)) as [->|Hxy]; [|tauto].
      destruct (decide (k = prev y)) as [->|]; tauto.
Qed.

Definition gets (x k : string) : Prop := default ""%string (mu_add mut !! x) = k.

Lemma delta_adds l c :
  (forall x, x ∈ l -> is_Some (hosts c !! default ""%string (mu_add mut !! x))) ->
  let c' := fold_left (fun c cellID =>
      let newOwner := default ""%string (mu_add mut !! cellID) in
      let c := if negb (String.eqb (prev cellID) "") && negb (String.eqb (prev cellID) newOwner)
               then release_cell cfg env c (prev cellID) cellID else c in
      (assign_cell cfg env c newOwner cellID).1) l c in
  forall k x, owns (hosts c') k x <->
    (x ∈ l /\ gets x k) \/ (owns (hosts c) k x /\ ~ (x ∈ l /\ k = prev x /\ prev x <> ""%string)).
Proof.
  revert c. induction l as [|y l IH]; intros c Hl; cbn [fold_left].
  { intros k x. rewrite elem_of_nil. tauto. }
  cbv zeta. set (new := default ""%string (mu_add mut !! y)).
  set (c1 := if _ && _ then release_cell cfg env c (prev y) y else c).
  assert (forall k, is_Some (hosts c1 !! k) <-> is_Some (hosts c !! k)) as D1.
  { intros k. unfold c1. destruct (_ && _); [apply dom_release_cell|done]. }
  assert (is_Some (hosts c1 !! new)) as Hnew by (apply D1, Hl; by left).
  intros k x. rewrite IH.
  2:{ intros z Hz. apply dom_assign_cell, D1, Hl. by right. }
  rewrite owns_assign_cell, elem_of_cons by done.
  assert (owns (hosts c1) k x <-> owns (hosts c) k x /\ ~ (x = y /\ k = prev y /\ prev y <> ""%string /\ prev y <> new))
    as ->.
  { unfold c1. destruct (String.eqb_spec (prev y) ""), (String.eqb_spec (prev y) new); cbn [negb andb];
      rewrite ?owns_release_cell; naive_solver. }
  unfold gets. destruct (decide (x = y)) as [->|Hxy]; [|tauto]. fold new.
  assert (forall P : Prop, (y = y \/ P) <-> True) as -> by tauto.
  assert (new = k <-> k = new) as -> by (split; congruence).
  destruct (decide (y ∈ l)), (decide (k = new)) as [Hkn|Hkn], (decide (k = prev y)) as [Hkp|Hkp],
    (decide (prev y = ""%string)); intuition congruence.
Qed.

Lemma delta_owns c :
  ranges env -> (forall x h, mu_add mut !! x = Some h -> is_Some (hosts c !! h)) ->
  (forall x, x ∈ mu_remove mut -> mu_add mut !! x = None) ->
  forall k x, owns (hosts (applyRegistryDelta cfg env c mut pre)) k x <->
    match mu_add mut !! x with
    | Some h => k = h \/ (owns (hosts c) k x /\ ~ (k = prev x /\ prev x <> ""%string))
    | None => owns (hosts c) k x /\ ~ (x ∈ mu_remove mut /\ k = prev x /\ prev x <> ""%string)
    end.
Proof.
  intros Hr Hknown Hdis k x.
  destruct (delta_removes (mu_remove mut) c) as [R1 R2]. cbv zeta in R1, R2.
  etrans; [apply (delta_adds (corder env (dom (mu_add mut)))
    (fold_left (fun c x => if negb (String.eqb (prev x) "") then release_cell cfg env c (prev x) x else c)
       (mu_remove mut) c))|].
  { intros y Hy. apply Hr, elem_of_dom in Hy as [h Hh]. rewrite Hh. apply R1. by apply (Hknown y). }
  rewrite R2, (Hr (dom (mu_add mut)) x), elem_of_dom. unfold gets.
  destruct (mu_add mut !! x) as [h|] eqn:E; simpl.
  - assert (x ∉ mu_remove mut) by (intros Hx; by rewrite Hdis in E).
    assert (is_Some (Some h)) by eauto. intuition congruence.
  - assert (~ is_Some (@None string)) by (by intros [? ?]). tauto.
Qed.
End Delta.

(** ** Ownership after a commit *)

Lemma hosts_fold_emit {A} (f : A -> Out) l c : hosts (fold_left (fun c x => emit c (f x)) l c) = hosts c.
Proof. apply hosts_fold. done. Qed.

Lemma hosts_split_sessions cfg env req c : hosts (stepSplitRemapSessions cfg env req c) = hosts c.
Proof.
  apply hosts_fold. intros c' r. destruct (split_target req r). by rewrite hosts_move_session.
Qed.
Lemma hosts_split_release env req c : hosts (stepSplitReleaseParentHost env req c) = hosts c.
Proof. unfold stepSplitReleaseParentHost. repeat case_match; autorewrite with hosts; done. Qed.
Lemma hosts_split_prime req c : hosts (stepSplitPrimeCooldowns req c) = hosts c.
Proof. unfold stepSplitPrimeCooldowns. rewrite hosts_emit. apply hosts_fold_emit. Qed.
Lemma hosts_merge_rename env req c : hosts (stepMergeRenameSurvivorHost env req c) = hosts c.
Proof. unfold stepMergeRenameSurvivorHost. case_match; autorewrite with hosts; done. Qed.
Lemma hosts_merge_sessions cfg env req c : hosts (stepMergeRemapSessions cfg env req c) = hosts c.
Proof. apply hosts_fold. intros. by rewrite hosts_move_session. Qed.
Lemma hosts_merge_donors env req c : hosts (stepMergeReleaseDonors env req c) = hosts c.
Proof. apply hosts_fold. intros. case_match; autorewrite with hosts; done. Qed.
Lemma hosts_merge_prime req c : hosts (stepMergePrimeCooldowns req c) = hosts c.
Proof. unfold stepMergePrimeCooldowns. rewrite hosts_emit, hosts_fold_emit. done. Qed.
Lemma hosts_migrate_sessions cfg env req c : hosts (stepMigrateRemapSessions cfg env req c) = hosts c.
Proof.
  unfold stepMigrateRemapSessions. destruct (remapHostCell _ _ _ _ _) as [r l].
  rewrite hosts_fold; [done|]. intros c' [k e]. unfold dispatchSessionRegister, dispatchUpstreamSwitch.
  case_match; autorewrite with hosts; done.
Qed.

(** Only the registry step of a plan touches ownership. *)
Lemma commit_hosts cfg env req c :
  rq_Kind req <> CellTransferUnspecified ->
  exists c1, hosts c1 = hosts c /\
    hosts (applyCellTransferCommit cfg env req c)
    = hosts (applyRegistryDelta cfg env c1 (rq_mutation req) (snapshotOwnershipLocked env c req)).
Proof.
  intros Hk. unfold applyCellTransferCommit, ExecuteCommitPlan. destruct (rq_Kind req); [done|..];
    unfold buildSplitPlan, buildMergePlan, buildMigratePlan; cbn [fold_left].
  - rewrite hosts_broadcast, hosts_split_prime, hosts_split_release. unfold stepRegistryDelta.
    eexists. split; [|done]. by rewrite hosts_split_sessions.
  - rewrite hosts_broadcast, hosts_merge_prime, hosts_merge_donors. unfold stepRegistryDelta.
    eexists. split; [|done]. by rewrite hosts_merge_sessions, hosts_merge_rename.
  - rewrite hosts_broadcast. unfold stepMigrateReleaseSrcHost. rewrite hosts_remote_release. unfold stepRegistryDelta.
    eexists. split; [|done]. by rewrite hosts_migrate_sessions.
Qed.

(** The recorded owners of the cells in transfer are the real ones: whoever owns one
    of them at commit time is the host in the snapshot. *)
Definition snapshot_accurate (env : Env) (c : Coord) (req : CellTransferRequest) : Prop :=
  forall x k, x ∈ mu_remove (rq_mutation req) \/ is_Some (mu_add (rq_mutation req) !! x) ->
    owns (hosts c) k x -> k <> ""%string /\ snapshotOwnershipLocked env c req !! x = Some k.

(** C21: a commit is exactly its topology mutation.  When the owners recorded for the
    cells in transfer are the real ones and the new owners are registered,
    committing a split, merge or migration leaves each cell of the mutation with
    its new owner and no other, each removed cell with none, and every other cell
    as it was; in particular one owner per cell stays one owner per cell. *)
Theorem commit_refines_mutation (cfg : Config) (env : Env) (req : CellTransferRequest) (c : Coord) :
  rq_Kind req <> CellTransferUnspecified -> ranges env -> snapshot_accurate env c req ->
  (forall x h, mu_add (rq_mutation req) !! x = Some h -> is_Some (hosts c !! h)) ->
  (forall x, x ∈ mu_remove (rq_mutation req) -> mu_add (rq_mutation req) !! x = None) ->
  let r' := hosts (applyCellTransferCommit cfg env req c) in
  (forall x k, owns r' k x <->
     match mu_add (rq_mutation req) !! x with
     | Some h => k = h
     | None => owns (hosts c) k x /\ x ∉ mu_remove (rq_mutation req)
     end) /\
  (single_owner (hosts c) -> single_owner r').
Proof.
  intros Hk Hr Hacc Hknown Hdis. cbv zeta.
  destruct (commit_hosts cfg env req c Hk) as (c1 & E1 & E2).
  assert (forall x k, owns (hosts (applyCellTransferCommit cfg env req c)) k x <->
     match mu_add (rq_mutation req) !! x with
     | Some h => k = h
     | None => owns (hosts c) k x /\ x ∉ mu_remove (rq_mutation req)
     end) as Hown.
  { intros x k. rewrite E2, delta_owns by (done || by rewrite E1). rewrite E1.
    destruct (mu_add (rq_mutation req) !! x) as [h|] eqn:Ea.
    - split; [|by left]. intros [->|[Ho Hn]]; [done|].
      destruct (Hacc x k) as [Hne Es]; [by right; rewrite Ea|done|]. destruct Hn. by rewrite Es.
    - split; [|tauto]. intros [Ho Hn]. split; [done|]. intros Hx.
      destruct (Hacc x k) as [Hne Es]; [by left|done|]. apply Hn. by rewrite Es. }
  split; [exact Hown|]. intros Hs k1 k2 x H1%Hown H2%Hown.
  destruct (mu_add (rq_mutation req) !! x); [congruence|]. by apply (Hs k1 k2 x); [apply H1|apply H2].
Qed.

(** ** When the recorded owners are not the real ones *)

Definition orch0 : cellTransferOrchestrator := mkOrchestrator true (10 * 10 ^ 9) 0 ∅ ∅ ∅ [] 0.

Definition live (id : string) (cells : gset string) : RemoteHost :=
  mkRemoteHost id "" 0 0 RemoteHostLive cells false false false.

Definition coord_three : Coord :=
  upd_hosts coord0
    (<["a" := live "a" {["cell_0_0"]}]> (<["b" := live "b" ∅]> (<["h" := live "h" ∅]> ∅)))%string.

Definition ids3 : list string := ["a"; "b"; "h"]%string.

(** Nothing stops a second transfer of a cell that is already in transfer.  Both
    requests record the same source; the second commit releases that source again
    and adds its own destination to the first one's. *)
Theorem overlapping_migrations_duplicate :
  match BeginMigrate (env_at 0) coord_three orch0 cell00 "b" with
  | Ok (o, req1) =>
      match BeginMigrate (env_at 0) coord_three o cell00 "h" with
      | Ok (_, req2) =>
          let c := applyCellTransferCommit cfg0 (env_at 0) req1 coord_three in
          owners ids3 (hosts c) "cell_0_0" = ["b"]%string /\
          owners ids3 (hosts (applyCellTransferCommit cfg0 (env_at 0) req2 c)) "cell_0_0" = ["b"; "h"]%string
      | Err _ => False
      end
  | Err _ => False
  end.
Proof. vm_compute. split; reflexivity. Qed.

(** A coordinator that did not perform the split itself - it restarted, and the hosts
    announced the children - has no [cellToHostMap] entry for the survivor, the one
    sibling no command names: after a merge the registry credits its host with both
    the survivor's old id and the parent. *)
Definition coord_children : Coord :=
  upd_hosts coord0 (<["a"%string := live "a" (list_to_set (map key_of (CellId.Children cell00)))]> ∅).

Theorem merge_leaves_survivor :
  match BeginMerge (env_at 0) coord_children orch0 cell00 with
  | Ok (_, req) =>
      let c := applyCellTransferCommit cfg0 (env_at 0) req coord_children in
      owners ids3 (hosts c) "cell_0_0" = ["a"]%string /\
      map (fun ch => owners ids3 (hosts c) (key_of ch)) (CellId.Children cell00) = [["a"]; []; []; []]%string
  | Err _ => False
  end.
Proof. vm_compute. split; reflexivity. Qed.

(** ** Witness *)

Definition coord_split : Coord :=
  upd_hosts coord0 (<["a" := live "a" {["cell_0_0"]}]> (<["b" := live "b" ∅]> ∅))%string.

Definition req_migrate : CellTransferRequest :=
  no_request 1 CellTransferMigrate cell00 [cell00]
    [mkCommand 1 CellTransferMigrate "cell_0_0" "cell_0_0" "a" "b" 0] (10 * 10 ^ 9)
    (mkMutation {["cell_0_0"%string := "b"%string]} []).

Lemma commit_refines_mutation_witness :
  (exists o, BeginMigrate (env_at 0) coord_split orch0 cell00 "b" = Ok (o, req_migrate)) /\
  let r' := hosts (applyCellTransferCommit cfg0 (env_at 0) req_migrate coord_split) in
  owns r' "b" "cell_0_0" /\ ~ owns r' "a" "cell_0_0".
Proof.
  split; [eexists; vm_compute; reflexivity|].
  destruct (commit_refines_mutation cfg0 (env_at 0) req_migrate coord_split) as [H _].
  - discriminate.
  - intros s x. apply elem_of_elements.
  - intros x k Hx Ho. cbn [req_migrate no_request rq_mutation mu_add mu_remove] in Hx.
    destruct Hx as [Hx|[h Hx]]; [by apply elem_of_nil in Hx|]. apply lookup_singleton_Some in Hx as [<- <-].
    destruct Ho as (rh & E & Hin). unfold coord_split, live in E. cbn [hosts upd_hosts] in E.
    rewrite !lookup_insert, lookup_empty in E. repeat case_decide; subst.
    + split; [discriminate|vm_compute; reflexivity].
    + injection E as <-. cbn [OwnedCells] in Hin. by apply elem_of_empty in Hin.
    + discriminate.
  - cbn [req_migrate no_request rq_mutation mu_add]. intros x h Hx. apply lookup_singleton_Some in Hx as [<- <-].
    vm_compute. eauto.
  - cbn. intros x Hx. by apply elem_of_nil in Hx.
  - split; [by apply H|]. intros Ha. apply H in Ha. vm_compute in Ha. discriminate.
Defined.

(** *** The state machine *)

Definition orch_migrating : cellTransferOrchestrator := install orch0 req_migrate.

Lemma reach_migrating : rtc (tstep cfg0) (coord_split, orch0) (coord_split, orch_migrating).
Proof.
  eapply rtc_l; [|apply rtc_refl]. exists [].
  eapply (t_migrate cfg0 (env_at 0) coord_split orch0 cell00 "b" orch_migrating req_migrate);
    vm_compute; reflexivity.
Qed.

Lemma env_ranges t : ranges (env_at t).
Proof. intros s x. apply elem_of_elements. Qed.

Lemma fresh_orch0 : fresh orch0.
Proof. done. Qed.

Lemma requests_settle_once_witness :
  committing orch_migrating !! 1 = None /\
  OnReady (env_at 5) orch_migrating 1 "cell_0_0" "b" true [] <> None.
Proof.
  destruct (requests_settle_once cfg0 coord_split coord_split orch0 orch_migrating (env_at 5)
              fresh_orch0 reach_migrating (env_ranges 5)) as (H1 & H2 & _).
  split; [|apply H2]. destruct (H1 1) as [(_ & H & _)|[(H & _)|(H & _)]]; [vm_compute; intuition congruence|exact H| |];
    vm_compute in H; discriminate.
Defined.

(** The migration run to its commit: begin, the destination's reply, the commit. *)
Definition orch_ready : cellTransferOrchestrator :=
  match OnReady (env_at 1) orch_migrating 1 "cell_0_0" "b" true [] with Some o => o | None => orch_migrating end.

Definition req_ready : CellTransferRequest := acknowledge req_migrate 0 "b" "cell_0_0" [].

Definition migrated : Coord * option cellTransferOrchestrator := commit cfg0 (env_at 2) coord_split orch_ready req_ready.

Definition orch_committed : cellTransferOrchestrator :=
  match migrated.2 with Some o => o | None => orch_ready end.

Lemma run_committed :
  trun cfg0 ([] ++ [] ++ [Build_Reply 1 "cell_0_0" "b"] ++ []) (coord_split, orch0) (migrated.1, orch_committed).
Proof.
  rewrite !(assoc app). eapply trun_snoc; [eapply trun_snoc; [eapply trun_snoc; [apply trun_nil|]|]|].
  - eapply (t_migrate cfg0 (env_at 0) coord_split orch0 cell00 "b" orch_migrating req_migrate); vm_compute; reflexivity.
  - eapply (t_ready cfg0 (env_at 1) coord_split orch_migrating 1 "cell_0_0" "b" true [] orch_ready);
      [apply env_ranges|vm_compute; reflexivity].
  - eapply (t_commit cfg0 (env_at 2) coord_split _ orch_ready orch_committed 1 req_ready);
      [apply env_ranges|vm_compute; reflexivity..].
Qed.

Lemma outcome_justified_witness :
  DispatchCommit 1 "a" ∈ calls orch_committed /\ DispatchCommit 1 "b" ∈ calls orch_committed.
Proof.
  destruct (outcome_justified cfg0 _ coord_split migrated.1 orch0 orch_committed 1 req_ready Committed
    fresh_orch0 run_committed ltac:(vm_compute; reflexivity)) as [[_ H] _].
  split; apply (H (mkCommand 1 CellTransferMigrate "cell_0_0" "cell_0_0" "a" "b" 0));
    first [by left|discriminate|by right|by left].
Defined.

(** The three commands of a merge are told apart by number alone: the reply of one donor,
    delivered three times, fills all three slots, although the comment of [OnReady] has a
    duplicate dropped. *)
Theorem merge_counts_duplicates :
  match BeginMerge (env_at 0) coord_children orch0 cell00 with
  | Ok (o, req) =>
      match rq_commands req with
      | cmd :: _ =>
          let reply o := mbind (fun o => OnReady (env_at 1) o (rq_ID req) (cc_DestCellID cmd) (cc_DestHostID cmd) true []) o in
          match reply (reply (reply (Some o))) with
          | Some o' => committing o' !! rq_ID req <> None /\ inflight o' !! rq_ID req = None
          | None => False
          end
      | [] => False
      end
  | Err _ => False
  end.
Proof. vm_compute. split; [discriminate|reflexivity]. Qed.

Lemma overdue_rolled_back_witness :
  exists o', scanTimeouts (env_at (30 * 10 ^ 9)) [1] orch_migrating = Some o' /\
    outcomes o' !! 1 = Some (req_migrate, RolledBack).
Proof.
  destruct (overdue_rolled_back cfg0 coord_split coord_split orch0 orch_migrating (env_at (30 * 10 ^ 9)) [1]
              fresh_orch0 reach_migrating (env_ranges _)) as (o' & E & H & _).
  - split; [apply NoDup_singleton|]. intros id. cbn [orch_migrating install inflight orch0 req_migrate no_request rq_ID].
    rewrite list_elem_of_singleton, lookup_insert, lookup_empty. case_decide; split; intros Hx; subst; eauto.
    + congruence.
    + by destruct Hx.
  - exists o'. split; [exact E|]. specialize (H 1 req_migrate eq_refl).
    rewrite decide_True in H by (vm_compute; reflexivity). apply H.
Defined.
