(* ===== verification/CellTransferSessions.v ===== *)
(** * Sessions across a commit (pkg/universe/commit_builders_*.go)

    Where the clients of a cell are routed once the cell has been split, merged or
    migrated. *)

From S2P Require Import Prelude Float32 CellId Topology NetId SessionRoutes Rendezvous.
From S2P Require Import HostRegistry GatewayRegistry Services ControlPlane ControlFence ControlAssign.
From S2P Require Import ControlTopology CellTransfer CellTransferSafety CellTransferCommit.

(** ** Steps that leave the routes alone *)

Lemma routes_emit c o : routes (emit c o) = routes c.
Proof. done. Qed.
Lemma routes_send_host env c h m : routes (sendCoordMessageToHost env c h m).1 = routes c.
Proof. unfold sendCoordMessageToHost. repeat case_match; done. Qed.
Lemma routes_send_gateway env c h m : routes (sendCoordMessageToGateway env c h m).1 = routes c.
Proof. unfold sendCoordMessageToGateway. repeat case_match; done. Qed.
Lemma routes_rebuild cfg env c cell : routes (rebuildTopologyForCell cfg env c cell) = routes c.
Proof. unfold rebuildTopologyForCell. case_match; done. Qed.
Create HintDb routes.
#[export] Hint Rewrite routes_emit routes_send_host routes_send_gateway routes_rebuild : routes.

Lemma routes_fold {A} (f : Coord -> A -> Coord) l c :
  (forall c x, routes (f c x) = routes c) -> routes (fold_left f l c) = routes c.
Proof. intros H. revert c. induction l as [|x l IH]; intros c; simpl; [done|]. by rewrite IH, H. Qed.

Lemma routes_broadcast env c : routes (broadcastPeerList env c) = routes c.
Proof.
  unfold broadcastPeerList. rewrite routes_fold; [rewrite routes_emit, routes_fold; [done|]|];
    intros; case_match; autorewrite with routes; done.
Qed.

Lemma routes_release_cell cfg env c h x : routes (release_cell cfg env c h x) = routes c.
Proof. unfold release_cell. by rewrite routes_rebuild. Qed.
Lemma routes_assign_cell cfg env c h x : routes (assign_cell cfg env c h x).1 = routes c.
Proof. unfold assign_cell. case_match; simpl; by rewrite ?routes_rebuild. Qed.
#[export] Hint Rewrite routes_broadcast routes_release_cell routes_assign_cell : routes.

Lemma routes_delta cfg env c mut pre : routes (applyRegistryDelta cfg env c mut pre) = routes c.
Proof.
  unfold applyRegistryDelta. cbv zeta. rewrite !routes_fold; [done|..];
    intros; autorewrite with routes; case_match; autorewrite with routes; done.
Qed.

Lemma routes_remote_release env c h k : routes (remote_ReleaseCell env c h k) = routes c.
Proof. apply routes_send_host. Qed.
#[export] Hint Rewrite routes_delta routes_remote_release : routes.

(** ** Moving a list of sessions *)

Lemma routes_move_session cfg env h cell c key u r :
  routes c !! key = Some r ->
  routes (move_session cfg env h cell c (key, u)) = <[key := bump_host r h cell]> (routes c).
Proof.
  intros E. unfold move_session, Migrate. rewrite E.
  unfold dispatchUpstreamSwitch, dispatchSessionRegister, notifySessionActive, set_player.
  repeat case_match; autorewrite with routes; done.
Qed.

Lemma routes_move_all cfg env (f : SessionRoute -> string * string) l c :
  NoDup (map sr_Key l) -> Forall (fun r => routes c !! sr_Key r = Some r) l ->
  forall key, routes (fold_left (fun c r => move_session cfg env (f r).1 (f r).2 c (sr_Key r, sr_Username r)) l c) !! key
    = match list_find (fun r => sr_Key r = key) l with
      | Some (_, r) => Some (bump_host r (f r).1 (f r).2)
      | None => routes c !! key
      end.
Proof.
  revert c. induction l as [|r l IH]; intros c Hnd Hl key; cbn [fold_left list_find]; [done|].
  apply NoDup_cons in Hnd as [Hni Hnd]. apply Forall_cons in Hl as [Hr Hl].
  pose proof (routes_move_session cfg env (f r).1 (f r).2 c (sr_Key r) (sr_Username r) r Hr) as Em.
  rewrite IH; [|done|].
  - rewrite Em, lookup_insert. destruct (decide (sr_Key r = key)) as [<-|Hk].
    + destruct (list_find _ l) as [[j r']|] eqn:El; [|done].
      apply list_find_Some in El as (El & Hk' & _). destruct Hni. rewrite <- Hk'.
      apply list_elem_of_fmap_2. by eapply list_elem_of_lookup_2.
    + by destruct (list_find _ l) as [[j r']|].
  - apply Forall_forall. intros r' Hr'. rewrite Em, lookup_insert_ne; [by apply (proj1 (Forall_forall _ _) Hl)|].
    intros E. destruct Hni. rewrite E. by apply list_elem_of_fmap_2.
Qed.

Definition keyed_routes (r : sessionRoutes) : Prop := forall k v, r !! k = Some v -> sr_Key v = k.

Lemma ForEach_all r order v :
  keyed_routes r -> v ∈ ForEach r order (fun _ => true) <-> sr_Key v ∈ order /\ r !! sr_Key v = Some v.
Proof.
  intros Hk. induction order as [|k order IH]; simpl.
  - rewrite !elem_of_nil. tauto.
  - rewrite elem_of_cons. destruct (r !! k) as [v0|] eqn:E; rewrite ?elem_of_cons, IH.
    + split; [|naive_solver]. intros [->|[H1 H2]]; [|tauto].
      pose proof (Hk _ _ E). subst k. split; [by left|done].
    + split; [tauto|]. intros [[<-|H] H2]; [congruence|done].
Qed.

Lemma ForEach_NoDup r order :
  keyed_routes r -> NoDup order -> NoDup (map sr_Key (ForEach r order (fun _ => true))).
Proof.
  intros Hk. induction 1 as [|k order Hni Hnd IH]; simpl; [constructor|].
  destruct (r !! k) as [v|] eqn:E; [|done]. cbn [map]. constructor; [|done].
  rewrite (Hk _ _ E). intros (v' & Ev & Hv)%list_elem_of_fmap_1. apply ForEach_all in Hv as [Hin _]; [|done].
  by rewrite <- Ev in Hin.
Qed.

Lemma routes_where_move cfg env (f : SessionRoute -> string * string) (p : string -> bool) c :
  keyed_routes (routes c) -> range_order (routes c) (rorder env) ->
  forall key, routes (fold_left (fun c r => move_session cfg env (f r).1 (f r).2 c (sr_Key r, sr_Username r))
                        (routes_where env c p) c) !! key
    = (fun r => if p (sr_CellID r) then bump_host r (f r).1 (f r).2 else r) <$> routes c !! key.
Proof.
  intros Hk [Hnd Hord] key. unfold routes_where.
  set (all := ForEach (routes c) (rorder env) (fun _ => true)).
  assert (forall v, v ∈ all <-> routes c !! sr_Key v = Some v) as Hall.
  { intros v. unfold all. rewrite ForEach_all by done. split; [tauto|]. intros E. split; [apply Hord; eauto|done]. }
  rewrite routes_move_all.
  - destruct (list_find _ _) as [[j v]|] eqn:El.
    + apply list_find_Some in El as (El & <- & _). apply list_elem_of_lookup_2, list_elem_of_filter in El as [Hp Hv].
      apply Hall in Hv. rewrite Hv. simpl. by rewrite Hp.
    + apply list_find_None in El. destruct (routes c !! key) as [v|] eqn:Ev; [|done]. simpl.
      destruct (p (sr_CellID v)) eqn:Ep; [|done]. pose proof (Hk _ _ Ev) as Hkey. exfalso.
      apply (proj1 (Forall_forall _ _) El v); [|done]. apply list_elem_of_filter. split; [done|].
      apply Hall. by rewrite Hkey.
  - eapply sublist_NoDup; [|apply fmap_sublist, sublist_filter]. by apply ForEach_NoDup.
  - apply Forall_forall. intros v [_ Hv]%list_elem_of_filter. by apply Hall.
Qed.

(** ** The three plans *)

Lemma routes_split_sessions cfg env req c key :
  keyed_routes (routes c) -> range_order (routes c) (rorder env) ->
  routes (stepSplitRemapSessions cfg env req c) !! key
  = (fun r => if String.eqb (sr_CellID r) (key_of (rq_SrcCell req))
              then bump_host r (split_target req r).1 (split_target req r).2 else r) <$> routes c !! key.
Proof.
  intros Hk Ho. etrans; [|exact (routes_where_move cfg env (split_target req)
    (fun cell => String.eqb cell (key_of (rq_SrcCell req))) c Hk Ho key)].
  reflexivity.
Qed.

Lemma routes_split_release env req c : routes (stepSplitReleaseParentHost env req c) = routes c.
Proof. unfold stepSplitReleaseParentHost. repeat case_match; autorewrite with routes; done. Qed.

Lemma routes_split_prime req c : routes (stepSplitPrimeCooldowns req c) = routes c.
Proof. unfold stepSplitPrimeCooldowns. by rewrite routes_emit, routes_fold. Qed.

Lemma routes_merge_rename cfg env req c :
  routes (stepMergeRenameSurvivorHost env req (stepMergeApplyCoordMutation cfg req c)) = routes c.
Proof.
  unfold stepMergeRenameSurvivorHost, remote_RenameCell. case_match; autorewrite with routes; done.
Qed.

Lemma routes_merge_sessions cfg env req c key :
  keyed_routes (routes c) -> range_order (routes c) (rorder env) ->
  routes (stepMergeRemapSessions cfg env req c) !! key
  = (fun r => if bool_decide (sr_CellID r ∈ merge_affected req)
              then bump_host r (parentHost req) (parentKey req) else r) <$> routes c !! key.
Proof.
  intros Hk Ho. exact (routes_where_move cfg env (fun _ => (parentHost req, parentKey req))
    (fun cell => bool_decide (cell ∈ merge_affected req)) c Hk Ho key).
Qed.

Lemma routes_merge_donors env req c : routes (stepMergeReleaseDonors env req c) = routes c.
Proof. apply routes_fold. intros. case_match; autorewrite with routes; done. Qed.

Lemma routes_merge_prime req c : routes (stepMergePrimeCooldowns req c) = routes c.
Proof. unfold stepMergePrimeCooldowns. by rewrite routes_emit, routes_fold. Qed.

Lemma routes_migrate_sessions cfg env req c key :
  range_order (routes c) (rorder env) ->
  routes (stepMigrateRemapSessions cfg env req c) !! key
  = (fun r => if String.eqb (sr_CellID r) (parentKey req)
              then bump_host r (destHost req) (parentKey req) else r) <$> routes c !! key.
Proof.
  intros Ho. unfold stepMigrateRemapSessions. destruct (remapHostCell _ _ _ _ _) as [r l] eqn:E.
  rewrite routes_fold.
  - simpl. apply (f_equal fst) in E. simpl in E. subst r. unfold remapHostCell.
    rewrite range_loop_lookup by done. unfold entry_after. destruct (routes c !! key) as [r|]; [|done]. simpl.
    by destruct (String.eqb _ _).
  - intros c' [k e]. unfold dispatchSessionRegister, dispatchUpstreamSwitch.
    case_match; autorewrite with routes; done.
Qed.

(** The cells a merge folds into the parent: the survivor and the donors it named. *)
Definition merged_away (req : CellTransferRequest) (cell : string) : bool :=
  negb (String.eqb cell "")
  && (String.eqb cell (survivorKey req)
      || existsb (fun cmd => bool_decide (cc_Kind cmd = CellTransferMerge) && String.eqb cell (cc_SrcCellID cmd))
           (rq_commands req)).

Lemma merge_affected_spec req cell : bool_decide (cell ∈ merge_affected req) = merged_away req cell.
Proof.
  apply Bool.eq_true_iff_eq. unfold merged_away, merge_affected.
  rewrite bool_decide_eq_true, elem_of_app, list_elem_of_fmap, andb_true_iff, negb_true_iff, String.eqb_neq,
    orb_true_iff, existsb_exists, String.eqb_eq.
  split.
  - intros [Hin|(cmd & -> & ((Hk & Hne) & Hin)%list_elem_of_filter)].
    + destruct (String.eqb_spec (survivorKey req) ""); [by apply elem_of_nil in Hin|].
      apply list_elem_of_singleton in Hin as ->. auto.
    + split; [done|]. right. exists cmd. rewrite String.eqb_refl, andb_true_r, bool_decide_eq_true.
      split; [by apply list_elem_of_In|done].
  - intros [Hne [->|(cmd & Hin & [Hk%bool_decide_eq_true ->%String.eqb_eq]%andb_true_iff)]].
    + left. apply String.eqb_neq in Hne. rewrite Hne. set_solver.
    + right. exists cmd. split; [done|].
      apply list_elem_of_filter, conj; [done|by apply list_elem_of_In].
Qed.

(** Where a committed request sends a session: host and cell, or nowhere. *)
Definition session_target (req : CellTransferRequest) (r : SessionRoute) : option (string * string) :=
  match rq_Kind req with
  | CellTransferSplit =>
      if String.eqb (sr_CellID r) (key_of (rq_SrcCell req)) then Some (split_target req r) else None
  | CellTransferMerge =>
      if merged_away req (sr_CellID r) then Some (parentHost req, parentKey req) else None
  | CellTransferMigrate =>
      if String.eqb (sr_CellID r) (parentKey req) then Some (destHost req, parentKey req) else None
  | CellTransferUnspecified => None
  end.

(** A commit takes every client along.  After a split, merge or migration each
    session of the cells in transfer is routed to the cell that took its player -
    the child that adopted it, the parent, or the same cell elsewhere - on that
    cell's host and under the next fencing epoch; every other session keeps its
    route and epoch, and none appears or disappears. *)
Theorem commit_moves_sessions (cfg : Config) (env : Env) (req : CellTransferRequest) (c : Coord) :
  rq_Kind req <> CellTransferUnspecified ->
  keyed_routes (routes c) -> range_order (routes c) (rorder env) ->
  forall key, routes (applyCellTransferCommit cfg env req c) !! key
    = (fun r => match session_target req r with
                | Some (h, cell) => bump_host r h cell
                | None => r
                end) <$> routes c !! key.
Proof.
  intros Hkind Hk Ho key. unfold applyCellTransferCommit, ExecuteCommitPlan, session_target.
  destruct (rq_Kind req) eqn:Ek; [done|..]; unfold buildSplitPlan, buildMergePlan, buildMigratePlan;
    cbn [fold_left]; rewrite routes_broadcast.
  - rewrite routes_split_prime, routes_split_release. unfold stepRegistryDelta.
    rewrite routes_delta, routes_split_sessions by done.
    change (routes (stepSplitApplyCoordMutation cfg req c)) with (routes c). destruct (routes c !! key) as [r|]; [|done].
    cbn [fmap option_fmap option_map].
    destruct (String.eqb (sr_CellID r) (key_of (rq_SrcCell req))); [by destruct (split_target req r)|done].
  - rewrite routes_merge_prime, routes_merge_donors. unfold stepRegistryDelta.
    rewrite routes_delta, routes_merge_sessions by (by rewrite routes_merge_rename).
    rewrite routes_merge_rename. destruct (routes c !! key) as [r|]; [|done]. simpl.
    rewrite merge_affected_spec. by destruct (merged_away _ _).
  - unfold stepMigrateReleaseSrcHost. rewrite routes_remote_release. unfold stepRegistryDelta.
    rewrite routes_delta, routes_migrate_sessions by done.
    change (routes (stepMigrateApplyCoordMutation req c)) with (routes c). destruct (routes c !! key) as [r|]; [|done]. simpl.
    by destruct (String.eqb _ _).
Qed.

(** ** Examples *)

(** Ann was adopted by the second child, bob by none; cat plays elsewhere. *)
Definition sess (n : Z) (user cell : string) : SessionRoute :=
  mkSessionRoute (mkSessionKey "g" n) user "a" cell 3.

Definition coord_clients : Coord :=
  upd_routes coord_split
    (Set_ (Set_ (Set_ newSessionRoutes (sess 1 "ann" "cell_0_0")) (sess 2 "bob" "cell_0_0"))
       (sess 3 "cat" "cell_9_9")).

Definition clients_env : Env :=
  mkEnv 0 (fun _ => true) ["a"; "b"; "h"]%string (fun _ => ids3) ["g"]%string []
    (map_to_list (routes coord_clients)).*1 [] (fun s => elements s).

Definition child (i : nat) : string := nth i (map key_of (CellId.Children cell00)) ""%string.

Definition req_split : CellTransferRequest :=
  mkRequest 1 CellTransferSplit cell00 (CellId.Children cell00)
    (map (fun i => mkCommand 1 CellTransferSplit "cell_0_0" (child i) "a" (if (i =? 1)%nat then "b" else "a") (Z.of_nat i))
       (seq 0 4)) 4 {["a"; "b"]}%string [true; true; true; true] 4 0
    (mkMutation (list_to_map (map (fun i => (child i, if (i =? 1)%nat then "b" else "a")%string) (seq 0 4))) ["cell_0_0"%string])
    {["ann"%string := child 1]}.

Definition where_is (c : Coord) (n : Z) : option (string * string * Z) :=
  (fun r => (sr_HostID r, sr_CellID r, sr_Epoch r)) <$> routes c !! mkSessionKey "g" n.

Lemma keyed_none : keyed_routes newSessionRoutes.
Proof. intros k v E. unfold newSessionRoutes in E. by rewrite lookup_empty in E. Qed.

Lemma keyed_Set r v : keyed_routes r -> keyed_routes (Set_ r v).
Proof.
  intros Hr k v' E. unfold Set_ in E. rewrite lookup_insert in E. case_decide; [|by apply Hr].
  injection E as <-. done.
Qed.

Lemma commit_moves_sessions_witness :
  routes (applyCellTransferCommit cfg0 clients_env req_split coord_clients) !! mkSessionKey "g" 1
    = Some (bump_host (sess 1 "ann" "cell_0_0") "b" (child 1)) /\
  map (where_is (applyCellTransferCommit cfg0 clients_env req_split coord_clients)) [1; 2; 3]
    = [Some ("b", child 1, 4); Some ("a", child 0, 4); Some ("a", "cell_9_9", 3)]%string.
Proof.
  split; [|vm_compute; reflexivity].
  etrans; [apply (commit_moves_sessions cfg0 clients_env req_split coord_clients)|].
  - discriminate.
  - repeat apply keyed_Set. apply keyed_none.
  - apply range_order_exists.
  - vm_compute. reflexivity.
Defined.

(** A migration does not touch the player index, although the split and merge steps do
    and say they mirror it: the player's commands are still dispatched to the host
    the cell has left. *)
Definition coord_player : Coord :=
  upd_players (upd_routes coord_split (Set_ newSessionRoutes (sess 1 "ann" "cell_0_0")))
    {["ann"%string := mkLoc "a" "cell_0_0" true]} ∅ ∅.

Theorem migration_leaves_player_index :
  let c := applyCellTransferCommit cfg0
             (mkEnv 0 (fun _ => true) ids3 (fun _ => ids3) [] [] [mkSessionKey "g" 1] [] (fun s => elements s))
             req_migrate coord_player in
  where_is c 1 = Some ("b", "cell_0_0", 4)%string /\ ActiveUserHost c "ann" = "a"%string.
Proof. vm_compute. split; reflexivity. Qed.
