(* ===== verification/VirtualConn.v ===== *)
(** * Virtual connections (pkg/universe/virtual_conn_manager.go)

    The host side of a client session.  A session is known on the mesh by its
    [SessionKey] and on this host by a local connection id; two maps hold the same
    session object, so the sessions live in a store and the maps hold pointers.
    Each session bounds its two input queues, and correlates replication frames
    with the gateway's receipts through opaque tokens.  Sending to the gateway peer
    is a parameter of each call: the error of [SendOrderedToGateway], or none. *)

From S2P Require Import Prelude UdpTransport SessionRoutes.

(** ** State *)

Definition maxPendingReplicationReceipts : Z := 256.
Definition maxQueuedReplicationReceipts : Z := 256.

Record pendingReplicationReceipt := mkPending {
  pr_scope : Z;
  pr_streamEpoch : Z;
  pr_seq : Z
}.

Record ReplicationReceipt := mkReceipt {
  re_ConnID : Z;
  re_Scope : Z;
  re_StreamEpoch : Z;
  re_Seq : Z;
  re_Result : SendResult
}.

(** What [inputMu] guards besides the two queues. *)
Record Correlation := mkCorr {
  replicationReceipts : list ReplicationReceipt;
  pendingReplication : gmap Z pendingReplicationReceipt;
  pendingTokens : list Z;
  pendingTokenNext : Z
}.

Record virtualSession := mkVSession {
  vs_key : SessionKey;
  vs_localID : Z;
  vs_username : string;
  vs_epoch : Z;
  vs_cellID : string;
  vs_input : list bytes;
  vs_opInput : list bytes;
  vs_corr : Correlation
}.

Record VirtualConnManager := mkVCM {
  hnHost : option string;
  nextLocal : Z;
  nextReplicationReceipt : Z;
  heap : gmap nat virtualSession;
  nextPtr : nat;
  byLocal : gmap Z nat;
  byKey : gmap SessionKey nat;
  vcmLimits : WireLimits;
  inputDrops : Z;
  opInputDrops : Z;
  oversizeDrops : Z
}.

Definition no_corr : Correlation := mkCorr [] ∅ [] 0.

Definition NewVirtualConnManager (hn : option string) : VirtualConnManager :=
  mkVCM hn 1 0 ∅ 0 ∅ ∅ DefaultWireLimits 0 0 0.

(** Functional updates. *)
Definition upd_session (v : VirtualConnManager) (p : nat) (s : virtualSession) : VirtualConnManager :=
  mkVCM (hnHost v) (nextLocal v) (nextReplicationReceipt v) (<[p := s]> (heap v)) (nextPtr v)
    (byLocal v) (byKey v) (vcmLimits v) (inputDrops v) (opInputDrops v) (oversizeDrops v).

Definition upd_drops (v : VirtualConnManager) (i o z : Z) : VirtualConnManager :=
  mkVCM (hnHost v) (nextLocal v) (nextReplicationReceipt v) (heap v) (nextPtr v)
    (byLocal v) (byKey v) (vcmLimits v) i o z.

Definition with_epoch (s : virtualSession) (epoch : Z) (c : Correlation) : virtualSession :=
  mkVSession (vs_key s) (vs_localID s) (vs_username s) epoch (vs_cellID s) (vs_input s) (vs_opInput s) c.

Definition with_owner (s : virtualSession) (cellID : string) : virtualSession :=
  mkVSession (vs_key s) (vs_localID s) (vs_username s) (vs_epoch s) cellID (vs_input s) (vs_opInput s) (vs_corr s).

Definition with_queues (s : virtualSession) (i o : list bytes) : virtualSession :=
  mkVSession (vs_key s) (vs_localID s) (vs_username s) (vs_epoch s) (vs_cellID s) i o (vs_corr s).

Definition with_corr (s : virtualSession) (c : Correlation) : virtualSession :=
  mkVSession (vs_key s) (vs_localID s) (vs_username s) (vs_epoch s) (vs_cellID s) (vs_input s) (vs_opInput s) c.

(** A read through one of the maps. *)
Definition session_local (v : VirtualConnManager) (localID : Z) : option (nat * virtualSession) :=
  match byLocal v !! localID with
  | Some p => pair p <$> heap v !! p
  | None => None
  end.

Definition session_key (v : VirtualConnManager) (key : SessionKey) : option (nat * virtualSession) :=
  match byKey v !! key with
  | Some p => pair p <$> heap v !! p
  | None => None
  end.

Definition SetWireLimits (v : VirtualConnManager) (l : WireLimits) : VirtualConnManager :=
  mkVCM (hnHost v) (nextLocal v) (nextReplicationReceipt v) (heap v) (nextPtr v)
    (byLocal v) (byKey v) (Normalized l) (inputDrops v) (opInputDrops v) (oversizeDrops v).

Definition wireLimits (v : VirtualConnManager) : WireLimits := Normalized (vcmLimits v).

(** ** Sessions *)

Definition RegisterSession (v : VirtualConnManager) (key : SessionKey) (username : string)
  (epoch : Z) (cellID : string) : VirtualConnManager * Z :=
  match session_key v key with
  | Some (p, existing) =>
      let existing := if vs_epoch existing <? epoch then with_epoch existing epoch no_corr else existing in
      (upd_session v p (with_owner existing cellID), vs_localID existing)
  | None =>
      let localID := nextLocal v in
      let sess := mkVSession key localID username epoch cellID [] [] no_corr in
      (mkVCM (hnHost v) (u32 (nextLocal v + 1)) (nextReplicationReceipt v)
         (<[nextPtr v := sess]> (heap v)) (S (nextPtr v))
         (<[localID := nextPtr v]> (byLocal v)) (<[key := nextPtr v]> (byKey v))
         (vcmLimits v) (inputDrops v) (opInputDrops v) (oversizeDrops v), localID)
  end.

(** The session object itself stays in the store: a caller that looked it up before
    the drop may still use it. *)
Definition DropSession (v : VirtualConnManager) (key : SessionKey)
  : VirtualConnManager * option (Z * string) :=
  match session_key v key with
  | None => (v, None)
  | Some (_, sess) =>
      (mkVCM (hnHost v) (nextLocal v) (nextReplicationReceipt v) (heap v) (nextPtr v)
         (delete (vs_localID sess) (byLocal v)) (delete key (byKey v))
         (vcmLimits v) (inputDrops v) (opInputDrops v) (oversizeDrops v),
       Some (vs_localID sess, vs_cellID sess))
  end.

Definition LookupByKey (v : VirtualConnManager) (key : SessionKey) : option Z :=
  (fun ps : nat * virtualSession => vs_localID ps.2) <$> session_key v key.

Definition LookupRouteByLocal (v : VirtualConnManager) (localID : Z) : option (SessionKey * Z) :=
  (fun ps : nat * virtualSession => (vs_key ps.2, vs_epoch ps.2)) <$> session_local v localID.

Definition LookupByLocal (v : VirtualConnManager) (localID : Z) : option SessionKey :=
  fst <$> LookupRouteByLocal v localID.

Definition ActiveConnIDs (v : VirtualConnManager) : list Z := (map_to_list (byLocal v)).*1.

(** ** Receipt correlation *)

Definition trackReplication (c : Correlation) (token scope streamEpoch seq : Z) : Correlation :=
  let p := mkPending scope streamEpoch seq in
  if Z.of_nat (length (pendingTokens c)) <? maxPendingReplicationReceipts
  then mkCorr (replicationReceipts c) (<[token := p]> (pendingReplication c))
         (pendingTokens c ++ [token]) (pendingTokenNext c)
  else
    let i := Z.to_nat (pendingTokenNext c) in
    let oldToken := nth i (pendingTokens c) 0 in
    mkCorr (replicationReceipts c) (<[token := p]> (delete oldToken (pendingReplication c)))
      (<[i := token]> (pendingTokens c))
      ((pendingTokenNext c + 1) mod maxPendingReplicationReceipts).

Definition discardPendingReplication (c : Correlation) (token : Z) : Correlation :=
  mkCorr (replicationReceipts c) (delete token (pendingReplication c)) (pendingTokens c) (pendingTokenNext c).

Definition take_receipt (c : Correlation) (token : Z) (receipt : ReplicationReceipt) : Correlation :=
  mkCorr
    (if maxQueuedReplicationReceipts <=? Z.of_nat (length (replicationReceipts c))
     then drop 1 (replicationReceipts c) ++ [receipt]
     else replicationReceipts c ++ [receipt])
    (delete token (pendingReplication c)) (pendingTokens c) (pendingTokenNext c).

Definition recordReplicationReceipt (v : VirtualConnManager) (localID epoch token : Z) (r : SendResult)
  : VirtualConnManager * bool :=
  match session_local v localID with
  | None => (v, false)
  | Some (p, sess) =>
      if negb (vs_epoch sess =? epoch) then (v, false)
      else
        match pendingReplication (vs_corr sess) !! token with
        | None => (v, false)
        | Some pending =>
            let receipt := mkReceipt localID (pr_scope pending) (pr_streamEpoch pending) (pr_seq pending) r in
            (upd_session v p (with_corr sess (take_receipt (vs_corr sess) token receipt)), true)
        end
  end.

Definition DrainReplicationReceipts (v : VirtualConnManager) (localID scope : Z)
  : VirtualConnManager * list ReplicationReceipt :=
  if scope =? 0 then (v, [])
  else
    match session_local v localID with
    | None => (v, [])
    | Some (p, sess) =>
        let c := vs_corr sess in
        let out := filter (fun r => re_Scope r = scope) (replicationReceipts c) in
        match out with
        | [] => (v, [])
        | _ =>
            let remaining := filter (fun r => re_Scope r <> scope) (replicationReceipts c) in
            (upd_session v p (with_corr sess
               (mkCorr remaining (pendingReplication c) (pendingTokens c) (pendingTokenNext c))), out)
        end
    end.

(** ** Outbound *)

Record ClientFrame := mkClientFrame {
  cf_GatewayID : string;
  cf_ConnID : Z;
  cf_Data : bytes;
  cf_Epoch : Z;
  cf_SourceHostID : string;
  cf_ReceiptToken : Z
}.

Inductive PeerError := errPeerNoRoute | errPeerBackpressure | errPeerIndeterminate | errPeerOther.

Definition meshSendFailure (e : PeerError) : SendResult :=
  sent (match e with
        | errPeerNoRoute => SendNoRoute
        | errPeerBackpressure => SendBackpressure
        | errPeerIndeterminate => SendIndeterminate
        | errPeerOther => SendFailed
        end).

Definition meshAcceptedResult : SendResult := queuedSend DeliveryBestEffort.
Definition meshTrackedAcceptedResult : SendResult := queuedSend DeliveryOrdered.

Definition trackedClientFrame (sourceHostID gatewayID : string) (connID epoch token : Z) (data : bytes)
  : ClientFrame := mkClientFrame gatewayID connID data epoch sourceHostID token.

(** [forwardToGateway]: both variants build the same frame and differ in how long
    they wait for the peer. *)
Definition forwardToGateway (v : VirtualConnManager) (localID : Z) (data : bytes) (err : option PeerError)
  : SendResult * option ClientFrame :=
  match session_local v localID with
  | None => (sent SendNoRoute, None)
  | Some (_, sess) =>
      match hnHost v with
      | None => (sent SendNoRoute, None)
      | Some _ =>
          let frame := mkClientFrame (sk_GatewayID (vs_key sess)) (sk_ConnID (vs_key sess)) data
                         (vs_epoch sess) "" 0 in
          match err with
          | Some e => (meshSendFailure e, None)
          | None => (meshAcceptedResult, Some frame)
          end
      end
  end.

(** [SendReplication] up to the send: the token is allocated and tracked under the
    read lock, and the frame built from the session as it was. *)
Definition beginReplication (v : VirtualConnManager) (localID scope streamEpoch seq : Z) (data : bytes)
  : VirtualConnManager * (SendResult + nat * Z * ClientFrame) :=
  if scope =? 0 then (v, inl (sent SendFailed))
  else
    match session_local v localID with
    | None => (v, inl (sent SendNoRoute))
    | Some (p, sess) =>
        match hnHost v with
        | None => (v, inl (sent SendNoRoute))
        | Some sourceHostID =>
            if String.eqb sourceHostID "" then (v, inl (sent SendNoRoute))
            else
              let token := u64 (nextReplicationReceipt v + 1) in
              let sess' := with_corr sess (trackReplication (vs_corr sess) token scope streamEpoch seq) in
              let v := mkVCM (hnHost v) (nextLocal v) token (<[p := sess']> (heap v)) (nextPtr v)
                         (byLocal v) (byKey v) (vcmLimits v) (inputDrops v) (opInputDrops v) (oversizeDrops v) in
              (v, inr (p, token,
                 trackedClientFrame sourceHostID (sk_GatewayID (vs_key sess)) (sk_ConnID (vs_key sess))
                   (vs_epoch sess) token data))
        end
    end.

(** The failed send discards through the session pointer taken before it. *)
Definition discardAt (v : VirtualConnManager) (p : nat) (token : Z) : VirtualConnManager :=
  match heap v !! p with
  | Some sess => upd_session v p (with_corr sess (discardPendingReplication (vs_corr sess) token))
  | None => v
  end.

Definition SendReplication (v : VirtualConnManager) (localID scope streamEpoch seq : Z) (data : bytes)
  (err : option PeerError) : VirtualConnManager * SendResult * option ClientFrame :=
  match beginReplication v localID scope streamEpoch seq data with
  | (v, inl r) => (v, r, None)
  | (v, inr (p, token, frame)) =>
      match err with
      | Some e => (discardAt v p token, meshSendFailure e, None)
      | None => (v, meshTrackedAcceptedResult, Some frame)
      end
  end.

(** ** Inbound *)

(** The queues of one session. *)
Definition enqueue (l : WireLimits) (s : virtualSession) (data : bytes) (channel : Z)
  : option virtualSession :=
  if channel =? ChannelOperation
  then if MaxOpQueueDepth l <=? Z.of_nat (length (vs_opInput s)) then None
       else Some (with_queues s (vs_input s) (vs_opInput s ++ [data]))
  else if MaxInputQueueDepth l <=? Z.of_nat (length (vs_input s)) then None
       else Some (with_queues s (vs_input s ++ [data]) (vs_opInput s)).

Definition appendChannel (v : VirtualConnManager) (localID : Z) (data : bytes) (channel : Z)
  : VirtualConnManager :=
  match session_local v localID with
  | None => v
  | Some (p, sess) =>
      let limits := wireLimits v in
      if MaxFrameBytes limits <? Z.of_nat (length data)
      then upd_drops v (inputDrops v) (opInputDrops v) (u64 (oversizeDrops v + 1))
      else
        match enqueue limits sess data channel with
        | Some sess => upd_session v p sess
        | None =>
            if channel =? ChannelOperation
            then upd_drops v (inputDrops v) (u64 (opInputDrops v + 1)) (oversizeDrops v)
            else upd_drops v (u64 (inputDrops v + 1)) (opInputDrops v) (oversizeDrops v)
        end
  end.

Definition InjectInput (v : VirtualConnManager) (localID : Z) (data : bytes) : VirtualConnManager :=
  appendChannel v localID data ChannelEvent.

Definition InjectChannelInputWithEpoch (v : VirtualConnManager) (localID : Z) (data : bytes)
  (epoch channel : Z) : VirtualConnManager :=
  if 0 <? epoch
  then match session_local v localID with
       | None => v
       | Some (_, sess) => if epoch <? vs_epoch sess then v else appendChannel v localID data channel
       end
  else appendChannel v localID data channel.

Definition InjectForwardedInputWithEpoch (v : VirtualConnManager) (localID : Z) (data : bytes)
  (sourceEpoch channel : Z) : VirtualConnManager * bool :=
  match session_local v localID with
  | None => (v, false)
  | Some (_, sess) =>
      let currentEpoch := vs_epoch sess in
      if negb (currentEpoch =? 0) && negb (sourceEpoch =? currentEpoch)
         && negb (u64 (sourceEpoch + 1) =? currentEpoch)
      then (v, false)
      else (appendChannel v localID data channel, true)
  end.

(** The drains take a prefix of at most the budget. *)
Definition drain_queue (budget : Z) (q : list bytes) : list bytes * list bytes :=
  if budget <? Z.of_nat (length q) then (take (Z.to_nat budget) q, drop (Z.to_nat budget) q) else (q, []).

Definition DrainInput (v : VirtualConnManager) (localID : Z) : VirtualConnManager * list bytes :=
  match session_local v localID with
  | None => (v, [])
  | Some (p, sess) =>
      let '(out, rest) := drain_queue (MaxFramesPerDrain (wireLimits v)) (vs_input sess) in
      (upd_session v p (with_queues sess rest (vs_opInput sess)), out)
  end.

Definition DrainOpInput (v : VirtualConnManager) (localID : Z) : VirtualConnManager * list bytes :=
  match session_local v localID with
  | None => (v, [])
  | Some (p, sess) =>
      let '(out, rest) := drain_queue (MaxFramesPerDrain (wireLimits v)) (vs_opInput sess) in
      (upd_session v p (with_queues sess (vs_input sess) rest), out)
  end.
