(* ===== verification/VirtualConnSafety.v ===== *)
(** * Virtual connections: theorems

    The operations of [VirtualConn] as one labelled machine: any operation, in any
    order, by any caller.  [SendReplication] is two of them, since the receipt of
    another frame, a registration or a drop may fall between the tracking of a token
    and the discard after a failed send.  Operations that allocate an id are taken
    only below the wrap of the counters (2^32 sessions, 2^64 tokens). *)

From S2P Require Import Prelude UdpTransport SessionRoutes VirtualConn.

(** ** The machine *)

Inductive VOp :=
| OpRegister (key : SessionKey) (username : string) (epoch : Z) (cell : string)
| OpDrop (key : SessionKey)
| OpBegin (id scope streamEpoch seq : Z) (data : bytes)
| OpDiscard (p : nat) (token : Z)
| OpReceipt (id epoch token : Z) (r : SendResult)
| OpDrainReceipts (id scope : Z)
| OpAppend (id : Z) (data : bytes) (channel : Z)
| OpInject (id : Z) (data : bytes) (epoch channel : Z)
| OpForward (id : Z) (data : bytes) (sourceEpoch channel : Z)
| OpDrainInput (id : Z)
| OpDrainOp (id : Z).

Inductive VEvent :=
| Sent (token id epoch scope streamEpoch seq : Z)
| Recorded (token id epoch : Z) (pr : pendingReplicationReceipt).

Definition vexec (v : VirtualConnManager) (op : VOp) : VirtualConnManager :=
  match op with
  | OpRegister key username epoch cell => (RegisterSession v key username epoch cell).1
  | OpDrop key => (DropSession v key).1
  | OpBegin id scope se seq data => (beginReplication v id scope se seq data).1
  | OpDiscard p token => discardAt v p token
  | OpReceipt id epoch token r => (recordReplicationReceipt v id epoch token r).1
  | OpDrainReceipts id scope => (DrainReplicationReceipts v id scope).1
  | OpAppend id data channel => appendChannel v id data channel
  | OpInject id data epoch channel => InjectChannelInputWithEpoch v id data epoch channel
  | OpForward id data epoch channel => (InjectForwardedInputWithEpoch v id data epoch channel).1
  | OpDrainInput id => (DrainInput v id).1
  | OpDrainOp id => (DrainOpInput v id).1
  end.

(** What a caller observes of correlation: the frame handed to the peer, and the
    receipt accepted. *)
Definition vevent (v : VirtualConnManager) (op : VOp) : list VEvent :=
  match op with
  | OpBegin id scope se seq data =>
      match (beginReplication v id scope se seq data).2 with
      | inr (_, token, frame) => [Sent token id (cf_Epoch frame) scope se seq]
      | inl _ => []
      end
  | OpReceipt id epoch token r =>
      if (recordReplicationReceipt v id epoch token r).2
      then match session_local v id with
           | Some (_, sess) =>
               match pendingReplication (vs_corr sess) !! token with
               | Some pr => [Recorded token id epoch pr]
               | None => []
               end
           | None => []
           end
      else []
  | _ => []
  end.

Definition below_wrap (v : VirtualConnManager) (op : VOp) : Prop :=
  match op with
  | OpRegister _ _ _ _ => nextLocal v + 1 < 2 ^ 32
  | OpBegin _ _ _ _ _ => nextReplicationReceipt v + 1 < 2 ^ 64
  | _ => True
  end.

(** The trace is newest first. *)
Inductive vruns (v0 : VirtualConnManager) : list VEvent -> VirtualConnManager -> Prop :=
| vruns_nil : vruns v0 [] v0
| vruns_step tr v op : vruns v0 tr v -> below_wrap v op ->
    vruns v0 (vevent v op ++ tr) (vexec v op).

(** ** Well-formed states *)

Record corr_ok (tokens : Z) (c : Correlation) : Prop := {
  co_receipts : Z.of_nat (length (replicationReceipts c)) <= maxQueuedReplicationReceipts;
  co_tokens : Z.of_nat (length (pendingTokens c)) <= maxPendingReplicationReceipts;
  co_next : 0 <= pendingTokenNext c < maxPendingReplicationReceipts;
  co_young : Forall (fun t => 0 < t <= tokens) (pendingTokens c);
  co_pending : forall t, is_Some (pendingReplication c !! t) -> t ∈ pendingTokens c
}.

Record sess_ok (v : VirtualConnManager) (s : virtualSession) : Prop := {
  so_corr : corr_ok (nextReplicationReceipt v) (vs_corr s);
  so_input : Z.of_nat (length (vs_input s)) <= MaxInputQueueDepth (wireLimits v);
  so_op : Z.of_nat (length (vs_opInput s)) <= MaxOpQueueDepth (wireLimits v)
}.

Record vcm_ok (v : VirtualConnManager) : Prop := {
  vk_local : 0 < nextLocal v < 2 ^ 32;
  vk_token : 0 <= nextReplicationReceipt v < 2 ^ 64;
  vk_heap : forall p s, heap v !! p = Some s ->
    (p < nextPtr v)%nat /\ 0 < vs_localID s < nextLocal v /\ sess_ok v s;
  vk_inj : forall p q s s', heap v !! p = Some s -> heap v !! q = Some s' ->
    vs_localID s = vs_localID s' -> p = q;
  vk_byLocal : forall id p, byLocal v !! id = Some p ->
    exists s, heap v !! p = Some s /\ vs_localID s = id /\ byKey v !! vs_key s = Some p;
  vk_byKey : forall key p, byKey v !! key = Some p ->
    exists s, heap v !! p = Some s /\ vs_key s = key /\ byLocal v !! vs_localID s = Some p
}.

(** A session updated in place: its key, its local id and the maps stay. *)
Definition same_identity (s s' : virtualSession) : Prop :=
  vs_key s' = vs_key s /\ vs_localID s' = vs_localID s.

Lemma sess_ok_ext v v' s : wireLimits v' = wireLimits v ->
  nextReplicationReceipt v <= nextReplicationReceipt v' -> sess_ok v s -> sess_ok v' s.
Proof.
  intros El Et [[? ? ? Hy ?] ? ?]. split; [|by rewrite El..]. split; [done..| |done].
  eapply Forall_impl; [exact Hy|]. simpl. lia.
Qed.

Lemma upd_session_ok v p s s' :
  vcm_ok v -> heap v !! p = Some s -> same_identity s s' -> sess_ok v s' -> vcm_ok (upd_session v p s').
Proof.
  intros [K1 K2 K3 K4 K5 K6] Hp [Ek El] Hs. split; simpl; [done|done|..].
  - intros q x [(-> & <-)|(Hne & Hq)]%lookup_insert_Some.
    + destruct (K3 _ _ Hp) as (? & ? & _). split; [done|]. split; [by rewrite El|]. by apply (sess_ok_ext v); [done|reflexivity|].
    + destruct (K3 _ _ Hq) as (? & ? & ?). split; [done|]. split; [done|]. by apply (sess_ok_ext v); [done|reflexivity|].
  - intros q r x y [(<- & <-)|(Hne & Hq)]%lookup_insert_Some [(<- & <-)|(Hne' & Hr)]%lookup_insert_Some E.
    + done.
    + rewrite El in E. exact (K4 _ _ _ _ Hp Hr E).
    + rewrite El in E. exact (K4 _ _ _ _ Hq Hp E).
    + exact (K4 _ _ _ _ Hq Hr E).
  - intros id q H. destruct (K5 _ _ H) as (x & Hx & Ex & Hk). destruct (decide (q = p)) as [->|Hne].
    + exists s'. rewrite lookup_insert_eq. simplify_eq. by rewrite El, Ek.
    + exists x. by rewrite lookup_insert_ne by done.
  - intros key q H. destruct (K6 _ _ H) as (x & Hx & Ex & Hk). destruct (decide (q = p)) as [->|Hne].
    + exists s'. rewrite lookup_insert_eq. simplify_eq. by rewrite El, Ek.
    + exists x. by rewrite lookup_insert_ne by done.
Qed.

Lemma upd_drops_ok v i o z : vcm_ok v -> vcm_ok (upd_drops v i o z).
Proof.
  intros [K1 K2 K3 K4 K5 K6]. split; simpl; [done|done| |done..].
  intros p s H. destruct (K3 _ _ H) as (? & ? & ?). split; [done|]. split; [done|].
  by apply (sess_ok_ext v); [done|reflexivity|].
Qed.

Lemma session_local_Some v id p s :
  session_local v id = Some (p, s) <-> byLocal v !! id = Some p /\ heap v !! p = Some s.
Proof.
  unfold session_local. destruct (byLocal v !! id) as [q|]; [|naive_solver].
  destruct (heap v !! q) eqn:E; simpl; naive_solver.
Qed.

Lemma session_key_Some v key p s :
  session_key v key = Some (p, s) <-> byKey v !! key = Some p /\ heap v !! p = Some s.
Proof.
  unfold session_key. destruct (byKey v !! key) as [q|]; [|naive_solver].
  destruct (heap v !! q) eqn:E; simpl; naive_solver.
Qed.

Lemma session_key_None v key : vcm_ok v -> session_key v key = None -> byKey v !! key = None.
Proof.
  intros Hv H. destruct (byKey v !! key) as [p|] eqn:E; [|done].
  destruct (vk_byKey _ Hv _ _ E) as (s & Hs & _). unfold session_key in H. by rewrite E, Hs in H.
Qed.

(** ** The correlation of one session *)

Lemma trackReplication_ok n c scope se seq : 0 <= n ->
  corr_ok n c -> corr_ok (n + 1) (trackReplication c (n + 1) scope se seq).
Proof.
  intros Hn [K1 K2 K3 K4 K5]. unfold trackReplication, maxPendingReplicationReceipts, maxQueuedReplicationReceipts in *.
  destruct (Z.ltb_spec (Z.of_nat (length (pendingTokens c))) 256).
  - split; simpl; [done| |done|..].
    + rewrite length_app. unfold maxPendingReplicationReceipts. simpl. lia.
    + apply Forall_app. split; [|constructor; [lia|constructor]]. eapply Forall_impl; [exact K4|]. simpl. lia.
    + intros t [x [(-> & _)|(_ & H')]%lookup_insert_Some]; apply elem_of_app; [right; by left|left; eauto].
  - assert (Hlen : (Z.to_nat (pendingTokenNext c) < length (pendingTokens c))%nat) by lia.
    split; simpl; [done|..].
    + rewrite length_insert. unfold maxPendingReplicationReceipts. lia.
    + unfold maxPendingReplicationReceipts. apply Z.mod_pos_bound. lia.
    + apply Forall_insert; [|lia]. eapply Forall_impl; [exact K4|]. simpl. lia.
    + intros t [x [(-> & _)|(_ & [Hne H']%lookup_delete_Some)]%lookup_insert_Some].
      * by apply list_elem_of_insert.
      * assert (Ht : t ∈ pendingTokens c) by eauto.
        apply list_elem_of_lookup in Ht as [j Hj]. apply list_elem_of_lookup. exists j.
        rewrite list_lookup_insert_ne; [done|]. intros E. apply Hne. subst j.
        by rewrite (nth_lookup_Some _ _ _ _ Hj).
Qed.

Lemma take_receipt_ok n c token r : corr_ok n c -> corr_ok n (take_receipt c token r).
Proof.
  intros [K1 K2 K3 K4 K5]. unfold take_receipt, maxQueuedReplicationReceipts, maxPendingReplicationReceipts in *.
  split; simpl; [|done..|].
  - destruct (Z.leb_spec 256 (Z.of_nat (length (replicationReceipts c)))); rewrite length_app, ?length_drop;
      unfold maxQueuedReplicationReceipts; simpl; lia.
  - intros t [x [_ H]%lookup_delete_Some]. eauto.
Qed.

Lemma discard_ok n c token : corr_ok n c -> corr_ok n (discardPendingReplication c token).
Proof. intros [K1 K2 K3 K4 K5]. split; simpl; [done..|]. intros t [x [_ H]%lookup_delete_Some]. eauto. Qed.

Lemma no_corr_ok n : corr_ok n no_corr.
Proof.
  unfold no_corr. split; simpl; [done|done|done|constructor|].
  intros t [x H]. by rewrite lookup_empty in H.
Qed.

Lemma with_corr_ok v s c : sess_ok v s -> corr_ok (nextReplicationReceipt v) c -> sess_ok v (with_corr s c).
Proof. intros [_ ? ?] Hc. by split. Qed.

Lemma drain_queue_spec budget q : drain_queue budget q = (take (Z.to_nat budget) q, drop (Z.to_nat budget) q).
Proof.
  unfold drain_queue. destruct (Z.ltb_spec budget (Z.of_nat (length q))); [done|].
  rewrite take_ge, drop_ge by lia. done.
Qed.

Lemma enqueue_ok v s data channel s' :
  sess_ok v s -> enqueue (wireLimits v) s data channel = Some s' -> same_identity s s' /\ sess_ok v s'.
Proof.
  intros [K1 K2 K3]. unfold enqueue. destruct (channel =? ChannelOperation).
  - destruct (Z.leb_spec (MaxOpQueueDepth (wireLimits v)) (Z.of_nat (length (vs_opInput s)))); [done|].
    intros [= <-]. split; [done|]. split; [done|done|]. unfold with_queues; cbn [vs_input vs_opInput]. rewrite length_app. cbn [length]. lia.
  - destruct (Z.leb_spec (MaxInputQueueDepth (wireLimits v)) (Z.of_nat (length (vs_input s)))); [done|].
    intros [= <-]. split; [done|]. split; [done| |done]. unfold with_queues; cbn [vs_input vs_opInput]. rewrite length_app. cbn [length]. lia.
Qed.

Lemma limits_pos v : 0 < MaxInputQueueDepth (wireLimits v) /\ 0 < MaxOpQueueDepth (wireLimits v) /\
  0 < MaxFramesPerDrain (wireLimits v).
Proof.
  unfold wireLimits, Normalized, or_default. simpl.
  destruct (Z.leb_spec (MaxInputQueueDepth (vcmLimits v)) 0), (Z.leb_spec (MaxOpQueueDepth (vcmLimits v)) 0),
    (Z.leb_spec (MaxFramesPerDrain (vcmLimits v)) 0); lia.
Qed.

(** ** Every operation keeps the state well-formed *)

Lemma session_ok v id p s : vcm_ok v -> session_local v id = Some (p, s) -> sess_ok v s.
Proof. intros Hv [_ H]%session_local_Some. by apply (vk_heap _ Hv) in H as (_ & _ & ?). Qed.

Lemma append_ok v id data channel : vcm_ok v -> vcm_ok (appendChannel v id data channel).
Proof.
  intros Hv. unfold appendChannel. destruct (session_local v id) as [[p s]|] eqn:E; [|done].
  destruct (_ <? _); [by apply upd_drops_ok|].
  destruct (enqueue _ _ _ _) as [s'|] eqn:En; [|destruct (_ =? _); by apply upd_drops_ok].
  apply enqueue_ok in En as [? ?]; [|by eapply session_ok].
  apply session_local_Some in E as [_ E]. by eapply upd_session_ok.
Qed.

Lemma RegisterSession_ok v key username epoch cell : vcm_ok v -> nextLocal v + 1 < 2 ^ 32 ->
  vcm_ok (RegisterSession v key username epoch cell).1.
Proof.
  intros Hv Hw. unfold RegisterSession. destruct (session_key v key) as [[p s]|] eqn:E.
  - apply session_key_Some in E as [_ E]. destruct (vk_heap _ Hv _ _ E) as (_ & _ & Hs).
    eapply upd_session_ok; [done|exact E|by destruct (_ <? _)|].
    destruct Hs. destruct (_ <? _); split; simpl; by try apply no_corr_ok.
  - apply session_key_None in E; [|done]. destruct Hv as [K1 K2 K3 K4 K5 K6].
    assert (Hf : heap v !! nextPtr v = None).
    { destruct (heap v !! nextPtr v) eqn:H; [|done]. apply K3 in H as [? _]. lia. }
    assert (Hu : u32 (nextLocal v + 1) = nextLocal v + 1) by (apply u32_id; unfold in_u32; lia).
    assert (Hnew : sess_ok v (mkVSession key (nextLocal v) username epoch cell [] [] no_corr)).
    { pose proof (limits_pos v) as (? & ? & _). split; [apply no_corr_ok|..]; cbn [vs_input vs_opInput length Z.of_nat]; lia. }
    split; cbn [RegisterSession fst nextLocal nextReplicationReceipt heap nextPtr byLocal byKey]; rewrite ?Hu.
    + lia.
    + done.
    + intros p s [(<- & <-)|(Hne & H)]%lookup_insert_Some.
      * split; [lia|]. split; [simpl; lia|]. by apply (sess_ok_ext v); [done|reflexivity|].
      * destruct (K3 _ _ H) as (? & ? & ?). split; [lia|]. split; [lia|].
        by apply (sess_ok_ext v); [done|reflexivity|].
    + intros p q x y [(<- & <-)|(Hne & Hp)]%lookup_insert_Some [(<- & <-)|(Hne' & Hq)]%lookup_insert_Some Eid;
        simpl in Eid.
      * done.
      * apply K3 in Hq as (_ & ? & _). lia.
      * apply K3 in Hp as (_ & ? & _). lia.
      * by eapply K4.
    + intros id p [(<- & <-)|(Hne & H)]%lookup_insert_Some.
      * eexists. rewrite lookup_insert_eq. split; [done|]. split; [done|]. by rewrite lookup_insert_eq.
      * destruct (K5 _ _ H) as (s & Hs & Es & Hk). exists s.
        rewrite lookup_insert_ne by congruence. split; [done|]. split; [done|].
        rewrite lookup_insert_ne by congruence. done.
    + intros k p [(<- & <-)|(Hne & H)]%lookup_insert_Some.
      * eexists. rewrite lookup_insert_eq. split; [done|]. split; [done|]. by rewrite lookup_insert_eq.
      * destruct (K6 _ _ H) as (s & Hs & Es & Hk). exists s.
        rewrite lookup_insert_ne by congruence. split; [done|]. split; [done|].
        rewrite lookup_insert_ne; [done|]. intros Eid. apply K3 in Hs as (_ & ? & _). lia.
Qed.

Lemma drop_ok v key : vcm_ok v -> vcm_ok (DropSession v key).1.
Proof.
  intros Hv. unfold DropSession. destruct (session_key v key) as [[p s]|] eqn:E; [|done].
  apply session_key_Some in E as [Ek Es]. destruct Hv as [K1 K2 K3 K4 K5 K6]. split; simpl; [done..| |done| |].
  - intros q x H. destruct (K3 _ _ H) as (? & ? & ?). split; [done|]. split; [done|].
    by apply (sess_ok_ext v); [done|reflexivity|].
  - intros id q [Hne H]%lookup_delete_Some. destruct (K5 _ _ H) as (x & Hx & Ex & Hk).
    exists x. split; [done|]. split; [done|]. rewrite lookup_delete_ne; [done|].
    intros ->. by simplify_eq.
  - intros k q [Hne H]%lookup_delete_Some. destruct (K6 _ _ H) as (x & Hx & Ex & Hl).
    exists x. split; [done|]. split; [done|]. rewrite lookup_delete_ne; [done|].
    intros Eid. destruct (K6 _ _ Ek) as (y & Hy & Ey & Hl'). simplify_eq. congruence.
Qed.

Lemma beginReplication_ok v id scope se seq data : vcm_ok v -> nextReplicationReceipt v + 1 < 2 ^ 64 ->
  vcm_ok (beginReplication v id scope se seq data).1.
Proof.
  intros Hv Hw. unfold beginReplication. destruct (scope =? 0); [done|].
  destruct (session_local v id) as [[p s]|] eqn:E; [|done].
  destruct (hnHost v) as [h|]; [|done]. destruct (String.eqb h ""); [done|].
  pose proof (session_ok _ _ _ _ Hv E) as Hs. apply session_local_Some in E as [_ E].
  pose proof (vk_token _ Hv) as Ht.
  assert (Hu : u64 (nextReplicationReceipt v + 1) = nextReplicationReceipt v + 1)
    by (apply u64_id; unfold in_u64; lia).
  simpl. rewrite Hu.
  set (v' := mkVCM (Some h) (nextLocal v) (nextReplicationReceipt v + 1) (heap v) (nextPtr v)
               (byLocal v) (byKey v) (vcmLimits v) (inputDrops v) (opInputDrops v) (oversizeDrops v)).
  assert (Hv' : vcm_ok v').
  { destruct Hv as [K1 K2 K3 K4 K5 K6]. split; simpl; [done|lia| |done..].
    intros q x H. destruct (K3 _ _ H) as (? & ? & ?). split; [done|]. split; [done|].
    apply (sess_ok_ext v); [done|simpl; lia|done]. }
  apply (upd_session_ok v' p s); [done|done|done|].
  apply with_corr_ok; [apply (sess_ok_ext v); [done|simpl; lia|done]|].
  apply trackReplication_ok; [lia|]. apply Hs.
Qed.

Lemma with_queues_ok v s i o : sess_ok v s ->
  (length i <= length (vs_input s))%nat -> (length o <= length (vs_opInput s))%nat ->
  sess_ok v (with_queues s i o).
Proof. intros [? ? ?] ? ?. split; [done|simpl vs_input; lia|simpl vs_opInput; lia]. Qed.

Lemma vexec_ok v op : vcm_ok v -> below_wrap v op -> vcm_ok (vexec v op).
Proof.
  intros Hv Hw. destruct op; simpl in *.
  - by apply RegisterSession_ok.
  - by apply drop_ok.
  - by apply beginReplication_ok.
  - unfold discardAt. destruct (heap v !! p) as [s|] eqn:E; [|done].
    eapply upd_session_ok; [done|exact E|done|]. destruct (vk_heap _ Hv _ _ E) as (_ & _ & Hs).
    apply with_corr_ok; [done|]. apply discard_ok, Hs.
  - unfold recordReplicationReceipt. destruct (session_local v id) as [[p s]|] eqn:E; [|done].
    destruct (negb _); [done|]. destruct (_ !! token) eqn:Et; [|done].
    pose proof (session_ok _ _ _ _ Hv E) as Hs. apply session_local_Some in E as [_ E].
    eapply upd_session_ok; [done|exact E|done|]. apply with_corr_ok; [done|]. apply take_receipt_ok, Hs.
  - unfold DrainReplicationReceipts. destruct (scope =? 0); [done|].
    destruct (session_local v id) as [[p s]|] eqn:E; [|done].
    destruct (filter _ _) eqn:Ef; [done|].
    pose proof (session_ok _ _ _ _ Hv E) as Hs. apply session_local_Some in E as [_ E].
    eapply upd_session_ok; [done|exact E|done|]. apply with_corr_ok; [done|]. destruct Hs as [[] _ _].
    split; simpl; [|done..].
    pose proof (length_filter (fun r => re_Scope r <> scope) (replicationReceipts (vs_corr s))). lia.
  - by apply append_ok.
  - unfold InjectChannelInputWithEpoch. destruct (0 <? epoch); [|by apply append_ok].
    destruct (session_local v id) as [[p s]|]; [|done]. destruct (_ <? _); [done|by apply append_ok].
  - unfold InjectForwardedInputWithEpoch. destruct (session_local v id) as [[p s]|]; [|done].
    destruct (_ && _); [done|by apply append_ok].
  - unfold DrainInput. destruct (session_local v id) as [[p s]|] eqn:E; [|done].
    rewrite drain_queue_spec. pose proof (session_ok _ _ _ _ Hv E) as Hs. apply session_local_Some in E as [_ E].
    eapply upd_session_ok; [done|exact E|done|]. apply with_queues_ok; [done|rewrite length_drop; lia|lia].
  - unfold DrainOpInput. destruct (session_local v id) as [[p s]|] eqn:E; [|done].
    rewrite drain_queue_spec. pose proof (session_ok _ _ _ _ Hv E) as Hs. apply session_local_Some in E as [_ E].
    eapply upd_session_ok; [done|exact E|done|]. apply with_queues_ok; [done|lia|rewrite length_drop; lia].
Qed.

(** ** Pending tokens *)

Definition pend (v : VirtualConnManager) (p : nat) (t id e : Z) (pr : pendingReplicationReceipt) : Prop :=
  exists s, heap v !! p = Some s /\ vs_localID s = id /\ vs_epoch s = e /\
    pendingReplication (vs_corr s) !! t = Some pr.

(** An update of one session that drops pending tokens only, and all of them when
    the epoch changes. *)
Lemma pend_upd v p s s' q t id e pr : heap v !! p = Some s -> vs_localID s' = vs_localID s ->
  (forall x, pendingReplication (vs_corr s') !! t = Some x ->
     vs_epoch s' = vs_epoch s /\ pendingReplication (vs_corr s) !! t = Some x) ->
  pend (upd_session v p s') q t id e pr -> pend v q t id e pr.
Proof.
  unfold pend. cbn [upd_session heap]. intros Hp El Hpd (x & [(<- & <-)|(Hne & Hq)]%lookup_insert_Some & Ei & Ee & Et); [|by exists x].
  destruct (Hpd _ Et) as [E1 E2]. exists s. split; [done|]. split; [congruence|]. split; [congruence|done].
Qed.

Lemma pend_append v id' data channel q t id e pr :
  pend (appendChannel v id' data channel) q t id e pr -> pend v q t id e pr.
Proof.
  unfold appendChannel. destruct (session_local v id') as [[p s]|] eqn:E; [|done].
  apply session_local_Some in E as [_ E].
  destruct (_ <? _); [done|]. destruct (enqueue _ _ _ _) as [s'|] eqn:En; [|by destruct (_ =? _)].
  unfold enqueue in En. intros H. eapply pend_upd; [exact E| | |exact H];
    destruct (_ =? _), (_ <=? _); simplify_eq; simpl; eauto.
Qed.

Lemma pend_shrinks v op q t id e pr : vcm_ok v ->
  match op with OpBegin _ _ _ _ _ => False | _ => True end ->
  pend (vexec v op) q t id e pr -> pend v q t id e pr.
Proof.
  intros Hv Hop. destruct op; simpl in *; try done.
  - unfold RegisterSession. destruct (session_key v key) as [[p s]|] eqn:E.
    + apply session_key_Some in E as [_ E]. apply (pend_upd _ _ s); [done|by destruct (_ <? _)|].
      intros x. destruct (_ <? _); simpl; [by rewrite lookup_empty|done].
    + unfold pend. cbn [fst heap]. intros (x & [(<- & <-)|(Hne & Hq)]%lookup_insert_Some & Ei & Ee & Et); [|by exists x].
      simpl in Et. by rewrite lookup_empty in Et.
  - unfold DropSession. by destruct (session_key v key) as [[p s]|].
  - unfold discardAt. destruct (heap v !! p) as [s|] eqn:E; [|done].
    apply (pend_upd _ _ s); [done|done|]. simpl. intros x [_ ?]%lookup_delete_Some. done.
  - unfold recordReplicationReceipt. destruct (session_local v id0) as [[p s]|] eqn:E; [|done].
    apply session_local_Some in E as [_ E]. destruct (negb _); [done|]. destruct (_ !! token); [|done].
    apply (pend_upd _ _ s); [done|done|]. simpl. intros x [_ ?]%lookup_delete_Some. done.
  - unfold DrainReplicationReceipts. destruct (scope =? 0); [done|].
    destruct (session_local v id0) as [[p s]|] eqn:E; [|done]. apply session_local_Some in E as [_ E].
    destruct (filter _ _); [done|]. by apply (pend_upd _ _ s).
  - apply pend_append.
  - unfold InjectChannelInputWithEpoch. destruct (0 <? epoch); [|apply pend_append].
    destruct (session_local v id0) as [[p s]|]; [|done]. destruct (_ <? _); [done|apply pend_append].
  - unfold InjectForwardedInputWithEpoch. destruct (session_local v id0) as [[p s]|]; [|done].
    destruct (_ && _); [done|apply pend_append].
  - unfold DrainInput. destruct (session_local v id0) as [[p s]|] eqn:E; [|done]. apply session_local_Some in E as [_ E].
    destruct (drain_queue _ _). by apply (pend_upd _ _ s).
  - unfold DrainOpInput. destruct (session_local v id0) as [[p s]|] eqn:E; [|done]. apply session_local_Some in E as [_ E].
    destruct (drain_queue _ _). by apply (pend_upd _ _ s).
Qed.

Lemma pend_begin v id0 scope se seq data q t id e pr :
  vcm_ok v -> nextReplicationReceipt v + 1 < 2 ^ 64 ->
  pend (beginReplication v id0 scope se seq data).1 q t id e pr ->
  pend v q t id e pr \/
  (vevent v (OpBegin id0 scope se seq data) = [Sent t id e scope se seq] /\ pr = mkPending scope se seq).
Proof.
  intros Hv Hw. simpl. unfold beginReplication. destruct (scope =? 0); [by left|].
  destruct (session_local v id0) as [[p s]|] eqn:E; [|by left].
  destruct (hnHost v) as [h|]; [|by left]. destruct (String.eqb h ""); [by left|]. simpl.
  apply session_local_Some in E as [El E]. destruct (vk_byLocal _ Hv _ _ El) as (y & Hy & Ey & _). simplify_eq.
  unfold pend. cbn [heap].
  intros (x & [(<- & <-)|(Hne & Hq)]%lookup_insert_Some & Ei & Ee & Et); [|left; by exists x].
  simpl in *. unfold trackReplication in Et. destruct (_ <? _); simpl in Et.
  - apply lookup_insert_Some in Et as [(<- & <-)|(_ & Et)]; [right; by subst|left; exists s; by subst].
  - apply lookup_insert_Some in Et as [(<- & <-)|(_ & [_ Et]%lookup_delete_Some)]; [right; by subst|left; exists s; by subst].
Qed.

(** ** Receipts *)

Fixpoint justified (tr : list VEvent) : Prop :=
  match tr with
  | [] => True
  | Sent t _ _ _ _ _ :: old =>
      (forall id e sc se sq, Sent t id e sc se sq ∉ old) /\ justified old
  | Recorded t id e pr :: old =>
      Sent t id e (pr_scope pr) (pr_streamEpoch pr) (pr_seq pr) ∈ old /\
      (forall id' e' pr', Recorded t id' e' pr' ∉ old) /\ justified old
  end.

Lemma sent_unique tr t id e sc se sq id' e' sc' se' sq' : justified tr ->
  Sent t id e sc se sq ∈ tr -> Sent t id' e' sc' se' sq' ∈ tr -> id = id' /\ e = e'.
Proof.
  induction tr as [|[] old IH]; intros Hj H H'; [by apply elem_of_nil in H| |].
  - destruct Hj as [Hn Hj]. apply elem_of_cons in H as [[=]|H], H' as [H'|H']; subst.
    + by simplify_eq.
    + by apply Hn in H'.
    + simplify_eq. by apply Hn in H.
    + by eapply IH.
  - destruct Hj as (_ & _ & Hj). apply elem_of_cons in H as [[=]|H], H' as [[=]|H']. by eapply IH.
Qed.

Record trace_ok (v : VirtualConnManager) (tr : list VEvent) : Prop := {
  tr_vcm : vcm_ok v;
  tr_just : justified tr;
  tr_sent : forall t id e sc se sq, Sent t id e sc se sq ∈ tr -> t <= nextReplicationReceipt v;
  tr_rec : forall t id e pr, Recorded t id e pr ∈ tr -> t <= nextReplicationReceipt v;
  tr_pend : forall p t id e pr, pend v p t id e pr ->
    Sent t id e (pr_scope pr) (pr_streamEpoch pr) (pr_seq pr) ∈ tr /\
    (forall id' e' pr', Recorded t id' e' pr' ∉ tr)
}.

Lemma token_begin v id scope se seq data : nextReplicationReceipt v + 1 < 2 ^ 64 -> 0 <= nextReplicationReceipt v ->
  match vevent v (OpBegin id scope se seq data) with
  | [] => (beginReplication v id scope se seq data).1 = v
  | ev => exists e, ev = [Sent (nextReplicationReceipt v + 1) id e scope se seq] /\
      nextReplicationReceipt (beginReplication v id scope se seq data).1 = nextReplicationReceipt v + 1
  end.
Proof.
  intros Hw H0. simpl. unfold beginReplication. destruct (scope =? 0); [done|].
  destruct (session_local v id) as [[p s]|]; [|done]. destruct (hnHost v) as [h|]; [|done].
  destruct (String.eqb h ""); [done|]. simpl. rewrite (u64_id (nextReplicationReceipt v + 1)) by (unfold in_u64; lia).
  eauto.
Qed.

Lemma receipt_events v id e t r :
  vevent v (OpReceipt id e t r) = [] \/
  exists p s pr, session_local v id = Some (p, s) /\ vs_epoch s = e /\
    pendingReplication (vs_corr s) !! t = Some pr /\
    vevent v (OpReceipt id e t r) = [Recorded t id e pr] /\
    pendingReplication (vs_corr (default s (heap (vexec v (OpReceipt id e t r)) !! p))) !! t = None.
Proof.
  simpl. unfold recordReplicationReceipt. destruct (session_local v id) as [[p s]|] eqn:E; [|by left].
  destruct (Z.eqb_spec (vs_epoch s) e); [|by left]. simpl.
  destruct (pendingReplication (vs_corr s) !! t) as [pr|] eqn:Ep; [|by left]. right.
  exists p, s, pr. simpl. rewrite Ep, lookup_insert_eq. simpl. by rewrite lookup_delete_eq.
Qed.

Lemma nextRR_other v op : match op with OpBegin _ _ _ _ _ => False | _ => True end ->
  nextReplicationReceipt (vexec v op) = nextReplicationReceipt v.
Proof.
  assert (Ha : forall id d ch, nextReplicationReceipt (appendChannel v id d ch) = nextReplicationReceipt v).
  { intros id d ch. unfold appendChannel. destruct (session_local v id) as [[p s]|]; [|done].
    destruct (_ <? _); [done|]. destruct (enqueue _ _ _ _); [done|]. by destruct (_ =? _). }
  destruct op; simpl; intros; try done; try apply Ha.
  - unfold RegisterSession. by destruct (session_key v key) as [[p s]|].
  - unfold DropSession. by destruct (session_key v key) as [[p s]|].
  - unfold discardAt. by destruct (heap v !! p).
  - unfold recordReplicationReceipt. destruct (session_local v id) as [[p s]|]; [|done].
    destruct (negb _); [done|]. by destruct (_ !! token).
  - unfold DrainReplicationReceipts. destruct (scope =? 0); [done|].
    destruct (session_local v id) as [[p s]|]; [|done]. by destruct (filter _ _).
  - unfold InjectChannelInputWithEpoch. destruct (0 <? epoch); [|apply Ha].
    destruct (session_local v id) as [[p s]|]; [|done]. destruct (_ <? _); [done|apply Ha].
  - unfold InjectForwardedInputWithEpoch. destruct (session_local v id) as [[p s]|]; [|done].
    destruct (_ && _); [done|apply Ha].
  - unfold DrainInput. destruct (session_local v id) as [[p s]|]; [|done]. by destruct (drain_queue _ _).
  - unfold DrainOpInput. destruct (session_local v id) as [[p s]|]; [|done]. by destruct (drain_queue _ _).
Qed.

Lemma trace_step v tr op : trace_ok v tr -> below_wrap v op -> trace_ok (vexec v op) (vevent v op ++ tr).
Proof.
  intros [Hv Hj Hs Hr Hp] Hw. pose proof (vexec_ok v op Hv Hw) as Hv'.
  assert (match op with OpBegin _ _ _ _ _ => True | _ => False end \/
          match op with OpBegin _ _ _ _ _ => False | _ => True end) as [Hb|Hb] by (destruct op; auto).
  - destruct op as [| |id scope se seq data| | | | | | | |]; try done. simpl in Hw. clear Hb.
    pose proof (token_begin v id scope se seq data Hw ltac:(apply Hv)) as Ht.
    pose proof (fun q t i e pr => pend_begin v id scope se seq data q t i e pr Hv Hw) as Hpb.
    change (vexec v (OpBegin id scope se seq data)) with (beginReplication v id scope se seq data).1 in *.
    destruct (vevent v (OpBegin id scope se seq data)) as [|ev rest] eqn:Ee.
    { rewrite Ht in *. by split. }
    destruct Ht as (e & [= -> ->] & En). simpl. split; [done|..].
    + split; [|done]. intros i' e' sc se' sq H. apply Hs in H. lia.
    + intros t i' e' sc se' sq [[= -> _ _ _ _ _]|H]%elem_of_cons; [lia|]. apply Hs in H. lia.
    + intros t i' e' pr [?|H]%elem_of_cons; [done|]. apply Hr in H. lia.
    + intros p t i' e' pr H. apply Hpb in H as [H|[[= <- <- <-] ->]].
      * destruct (Hp _ _ _ _ _ H) as [H1 H2]. split; [by right|].
        intros a b c [?|Hc]%elem_of_cons; [done|]. by eapply H2.
      * split; [by left|]. intros a b c [?|Hc]%elem_of_cons; [done|]. apply Hr in Hc. lia.
  - assert (Hsh : forall q t i e pr, pend (vexec v op) q t i e pr -> pend v q t i e pr).
    { intros. by eapply pend_shrinks. }
    pose proof (nextRR_other v op Hb) as En.
    destruct op as [| |? ? ? ? ?| |id e t r| | | | | |]; try done;
      try (split; [done|done|by rewrite En..|]; intros q t' i' e' pr H; exact (Hp _ _ _ _ _ (Hsh _ _ _ _ _ H))).
    destruct (receipt_events v id e t r) as [E|(p & s & pr & Eloc & Eep & Epd & E & Egone)].
    { rewrite E. split; [done|done|by rewrite En..|]. intros q t' i' e' pr H. exact (Hp _ _ _ _ _ (Hsh _ _ _ _ _ H)). }
    rewrite E. apply session_local_Some in Eloc as [Eid Eheap].
    destruct (vk_byLocal _ Hv _ _ Eid) as (y & Hy & Ey & _).
    rewrite Eheap in Hy. injection Hy as <-. subst id e.
    assert (Hpe : pend v p t (vs_localID s) (vs_epoch s) pr) by (by exists s).
    destruct (Hp _ _ _ _ _ Hpe) as [H1 H2]. simpl app. split; [done|by split| | |].
    + rewrite En. intros t' i' e' sc se sq [?|H]%elem_of_cons; [done|]. by eapply Hs.
    + rewrite En. intros t' i' e' pr' [[= -> _ _ _]|H]%elem_of_cons; [by eapply Hs|by eapply Hr].
    + intros q t' i' e' pr' H. pose proof H as H'. apply Hsh in H. destruct (Hp _ _ _ _ _ H) as [H3 H4].
      split; [by right|]. intros a b c [[= -> -> -> ->]|Hc]%elem_of_cons; [|by eapply H4].
      destruct (sent_unique _ _ _ _ _ _ _ _ _ _ _ _ Hj H1 H3) as [<- <-].
      destruct H as (x & Hx & Ex & _ & _). assert (q = p) as -> by (by eapply (vk_inj _ Hv)).
      destruct H' as (z & Hz & _ & _ & Et). rewrite Hz in Egone. simpl in Egone. congruence.
Qed.

Lemma vruns_ok hn tr v : vruns (NewVirtualConnManager hn) tr v -> trace_ok v tr.
Proof.
  induction 1 as [|tr v op _ IH Hw]; [|by apply trace_step].
  split; simpl; [|done|by intros ???????%elem_of_nil|by intros ?????%elem_of_nil|].
  - split; simpl; [lia|lia|intros p s|intros p q s s'|intros id p|intros key p]; by rewrite lookup_empty.
  - intros p t id e pr (s & Hs & _). simpl in Hs. by rewrite lookup_empty in Hs.
Qed.

(** ** The input queue of one session *)

Definition input_queue (v : VirtualConnManager) (id : Z) : list bytes :=
  match session_local v id with Some (_, s) => vs_input s | None => [] end.

Definition current_epoch (v : VirtualConnManager) (id : Z) : Z :=
  match session_local v id with Some (_, s) => vs_epoch s | None => 0 end.

Definition room (v : VirtualConnManager) (id : Z) (data : bytes) (channel : Z) : bool :=
  negb (channel =? ChannelOperation)
  && (Z.of_nat (length data) <=? MaxFrameBytes (wireLimits v))
  && (Z.of_nat (length (input_queue v id)) <? MaxInputQueueDepth (wireLimits v)).

(** The frames an operation admits to the event queue of session [id]. *)
Definition admits (v : VirtualConnManager) (id : Z) (op : VOp) : list bytes :=
  let cur := current_epoch v id in
  match op with
  | OpAppend i data ch => if (i =? id) && room v id data ch then [data] else []
  | OpInject i data e ch =>
      if (i =? id) && ((e <=? 0) || (cur <=? e)) && room v id data ch then [data] else []
  | OpForward i data e ch =>
      if (i =? id) && ((cur =? 0) || (e =? cur) || (u64 (e + 1) =? cur)) && room v id data ch
      then [data] else []
  | _ => []
  end.

Definition delivers (v : VirtualConnManager) (id : Z) (op : VOp) : list bytes :=
  match op with
  | OpDrainInput i => if i =? id then (DrainInput v i).2 else []
  | _ => []
  end.

Fixpoint run_inputs (v : VirtualConnManager) (id : Z) (ops : list VOp) : VirtualConnManager * list bytes * list bytes :=
  match ops with
  | [] => (v, [], [])
  | op :: ops =>
      let '(v', a, d) := run_inputs (vexec v op) id ops in
      (v', admits v id op ++ a, delivers v id op ++ d)
  end.

Fixpoint runs_below_wrap (v : VirtualConnManager) (ops : list VOp) : Prop :=
  match ops with
  | [] => True
  | op :: ops => below_wrap v op /\ runs_below_wrap (vexec v op) ops
  end.

Definition input_kept (v v' : VirtualConnManager) (p : nat) (s : virtualSession) (id : Z) (a d : list bytes) : Prop :=
  exists s', session_local v' id = Some (p, s') /\ vs_key s' = vs_key s /\ d ++ vs_input s' = vs_input s ++ a.

Lemma input_kept_same v p s id : session_local v id = Some (p, s) -> input_kept v v p s id [] [].
Proof. intros H. exists s. by rewrite app_nil_r. Qed.

(** Updating any session in place. *)
Lemma input_kept_upd v p s id q s0 s1 a d : vcm_ok v -> session_local v id = Some (p, s) ->
  heap v !! q = Some s0 -> same_identity s0 s1 ->
  (q = p -> d ++ vs_input s1 = vs_input s0 ++ a) -> (q <> p -> a = [] /\ d = []) ->
  input_kept v (upd_session v q s1) p s id a d.
Proof.
  intros Hv [El Eh]%session_local_Some Hq [Ek Ei] H1 H2. unfold input_kept.
  destruct (decide (q = p)) as [->|Hne].
  - simplify_eq. exists s1. rewrite session_local_Some. simpl. rewrite lookup_insert_eq. auto.
  - destruct (H2 Hne) as [-> ->]. exists s. rewrite session_local_Some. simpl.
    rewrite lookup_insert_ne by done. by rewrite app_nil_r.
Qed.

Lemma room_split v id p s data channel : session_local v id = Some (p, s) ->
  room v id data channel =
    negb (channel =? ChannelOperation) && negb (MaxFrameBytes (wireLimits v) <? Z.of_nat (length data))
    && negb (MaxInputQueueDepth (wireLimits v) <=? Z.of_nat (length (vs_input s))).
Proof.
  intros E. unfold room, input_queue. rewrite E. f_equal; [f_equal|]; [apply Z.leb_antisym|].
  rewrite Z.ltb_antisym. done.
Qed.

Lemma append_kept v p s id i data channel : vcm_ok v -> session_local v id = Some (p, s) ->
  input_kept v (appendChannel v i data channel) p s id
    (if (i =? id) && room v id data channel then [data] else []) [].
Proof.
  intros Hv Es. unfold appendChannel. destruct (session_local v i) as [[q s0]|] eqn:E.
  - assert (Hpq : q = p <-> i = id).
    { apply session_local_Some in E as [E _], Es as [Es _].
      destruct (vk_byLocal _ Hv _ _ E) as (x & Hx & Ex & _), (vk_byLocal _ Hv _ _ Es) as (y & Hy & Ey & _).
      split; intros ->; congruence. }
    rewrite (room_split _ _ _ _ _ _ Es). destruct (Z.eqb_spec i id) as [->|Hne].
    + rewrite Es in E. injection E as <- <-. simpl.
      destruct (_ <? _); [rewrite andb_false_r; exact (input_kept_same _ _ _ _ Es)|]. unfold enqueue.
      pose proof Es as [_ Eh]%session_local_Some.
      destruct (channel =? ChannelOperation); simpl.
      * destruct (_ <=? _); [by exists s; rewrite app_nil_r|].
        eapply input_kept_upd; [done|done|exact Eh|done| |done]. intros _. simpl. by rewrite app_nil_r.
      * destruct (_ <=? _); [by exists s; rewrite app_nil_r|].
        eapply input_kept_upd; [done|done|exact Eh|done|done|done].
    + simpl. assert (Hq : q <> p) by tauto. apply session_local_Some in E as [_ E].
      destruct (_ <? _); [by exists s; rewrite app_nil_r|].
      destruct (enqueue _ _ _ _) as [s1|] eqn:En.
      * apply enqueue_ok in En as [? _]; [|by apply (vk_heap _ Hv) in E as (_ & _ & ?)].
        by eapply input_kept_upd.
      * destruct (_ =? _); by exists s; rewrite app_nil_r.
  - destruct (Z.eqb_spec i id) as [->|Hne]; [congruence|]. by apply input_kept_same.
Qed.

Lemma vexec_input v p s id op : vcm_ok v -> below_wrap v op -> session_local v id = Some (p, s) ->
  (forall key, op = OpDrop key -> key <> vs_key s) ->
  input_kept v (vexec v op) p s id (admits v id op) (delivers v id op).
Proof.
  intros Hv Hw Es Hd. pose proof Es as [Eid Eheap]%session_local_Some.
  assert (Hcur : current_epoch v id = vs_epoch s) by (unfold current_epoch; by rewrite Es).
  destruct op; simpl in *; rewrite ?Hcur.
  - unfold RegisterSession. destruct (session_key v key) as [[q s0]|] eqn:E.
    + apply session_key_Some in E as [_ E].
      eapply input_kept_upd; [done|done|exact E|by destruct (_ <? _)| |done].
      intros ->. rewrite app_nil_r. by destruct (_ <? _).
    + exists s. rewrite session_local_Some. simpl.
      destruct (vk_heap _ Hv _ _ Eheap) as (? & ? & _).
      destruct (vk_byLocal _ Hv _ _ Eid) as (y & Hy & Ey & _). simplify_eq.
      rewrite !lookup_insert_ne by lia. by rewrite app_nil_r.
  - unfold DropSession. destruct (session_key v key) as [[q s0]|] eqn:E; [|by apply input_kept_same].
    apply session_key_Some in E as [Ek E]. exists s. rewrite session_local_Some. simpl.
    rewrite app_nil_r. split; [|done]. split; [|done]. rewrite lookup_delete_ne; [done|].
    intros Ei. apply (Hd key eq_refl). destruct (vk_byKey _ Hv _ _ Ek) as (y & Hy & Ey & Hl).
    rewrite E in Hy. injection Hy as <-. rewrite Ei, Eid in Hl. injection Hl as <-. congruence.
  - unfold beginReplication. destruct (scope =? 0); [by apply input_kept_same|].
    destruct (session_local v id0) as [[q s0]|] eqn:E; [|by apply input_kept_same].
    destruct (hnHost v) as [h|]; [|by apply input_kept_same].
    destruct (String.eqb h ""); [by apply input_kept_same|]. apply session_local_Some in E as [_ E].
    unfold input_kept. cbn [fst]. destruct (decide (q = p)) as [->|Hne].
    + simplify_eq. eexists. rewrite session_local_Some. simpl. rewrite lookup_insert_eq. by rewrite app_nil_r.
    + exists s. rewrite session_local_Some. simpl. rewrite lookup_insert_ne by done. by rewrite app_nil_r.
  - unfold discardAt. destruct (heap v !! p0) as [s0|] eqn:E; [|by apply input_kept_same].
    eapply input_kept_upd; [done|done|exact E|done| |done]. intros _. by rewrite app_nil_r.
  - unfold recordReplicationReceipt. destruct (session_local v id0) as [[q s0]|] eqn:E; [|by apply input_kept_same].
    destruct (negb _); [by apply input_kept_same|]. destruct (_ !! token); [|by apply input_kept_same].
    apply session_local_Some in E as [_ E].
    eapply input_kept_upd; [done|done|exact E|done| |done]. intros _. by rewrite app_nil_r.
  - unfold DrainReplicationReceipts. destruct (scope =? 0); [by apply input_kept_same|].
    destruct (session_local v id0) as [[q s0]|] eqn:E; [|by apply input_kept_same].
    destruct (filter _ _); [by apply input_kept_same|]. apply session_local_Some in E as [_ E].
    eapply input_kept_upd; [done|done|exact E|done| |done]. intros _. by rewrite app_nil_r.
  - by apply append_kept.
  - unfold InjectChannelInputWithEpoch. destruct (Z.ltb_spec 0 epoch) as [H0|H0].
    + assert (epoch <=? 0 = false) as -> by lia. cbn [orb].
      destruct (Z.eqb_spec id0 id) as [->|Hne].
      * rewrite Es. rewrite Z.ltb_antisym. destruct (vs_epoch s <=? epoch); simpl; [|by apply input_kept_same].
        pose proof (append_kept v p s id id data channel Hv Es) as H. by rewrite Z.eqb_refl in H.
      * simpl. destruct (session_local v id0) as [[q s0]|] eqn:E; [|by apply input_kept_same].
        destruct (_ <? _); [by apply input_kept_same|].
        pose proof (append_kept v p s id id0 data channel Hv Es) as H.
        by rewrite (proj2 (Z.eqb_neq id0 id) Hne) in H.
    + assert (epoch <=? 0 = true) as -> by lia. cbn [orb]. rewrite andb_true_r. by apply append_kept.
  - unfold InjectForwardedInputWithEpoch. destruct (Z.eqb_spec id0 id) as [->|Hne].
    + rewrite Es. rewrite <- !negb_orb. simpl.
      destruct ((vs_epoch s =? 0) || (sourceEpoch =? vs_epoch s) || (u64 (sourceEpoch + 1) =? vs_epoch s));
        simpl; [|by apply input_kept_same].
      pose proof (append_kept v p s id id data channel Hv Es) as H. by rewrite Z.eqb_refl in H.
    + simpl. destruct (session_local v id0) as [[q s0]|] eqn:E; [|by apply input_kept_same].
      destruct (_ && _); [by apply input_kept_same|].
      pose proof (append_kept v p s id id0 data channel Hv Es) as H.
      by rewrite (proj2 (Z.eqb_neq id0 id) Hne) in H.
  - unfold DrainInput. destruct (session_local v id0) as [[q s0]|] eqn:E.
    + rewrite drain_queue_spec. pose proof E as [E1 E2]%session_local_Some. cbn [fst snd].
      destruct (Z.eqb_spec id0 id) as [->|Hne].
      * rewrite Es in E. simplify_eq.
        eapply input_kept_upd; [done|done|exact Eheap|done| |done].
        intros _. cbn [with_queues vs_input]. by rewrite take_drop, app_nil_r.
      * eapply input_kept_upd; [done|done|exact E2|done| |done]. intros ->.
        destruct (vk_byLocal _ Hv _ _ E1) as (x & Hx & Ex & _), (vk_byLocal _ Hv _ _ Eid) as (y & Hy & Ey & _).
        congruence.
    + destruct (_ =? _); by apply input_kept_same.
  - unfold DrainOpInput. destruct (session_local v id0) as [[q s0]|] eqn:E; [|by apply input_kept_same].
    destruct (drain_queue _ _). apply session_local_Some in E as [_ E].
    eapply input_kept_upd; [done|done|exact E|done| |done]. intros _. by rewrite app_nil_r.
Qed.

(** ** Theorems *)

Lemma justified_suffix new old : justified (new ++ old) -> justified old.
Proof. induction new as [|[] new IH]; simpl; [done|intros [_ ?]; auto|intros (_ & _ & ?); auto]. Qed.

Lemma pending_bound n c : corr_ok n c -> Z.of_nat (size (pendingReplication c)) <= maxPendingReplicationReceipts.
Proof.
  intros [_ K2 _ _ K5]. rewrite <- length_map_to_list, <- (length_fmap fst).
  assert (H : (map_to_list (pendingReplication c)).*1 ⊆+ pendingTokens c).
  { apply NoDup_submseteq; [apply NoDup_fst_map_to_list|]. intros t ([t' x] & -> & H)%list_elem_of_fmap.
    apply elem_of_map_to_list in H. simpl. eauto. }
  apply submseteq_length in H. lia.
Qed.

(** The session tables of a host stay well-formed.  After any operations the two
    maps are inverse to each other, so a local id means one gateway connection and
    back, and everything a remote peer can grow is bounded: the two input queues by
    the configured limits, the uncollected receipts and the pending tokens by 256
    each. *)
Theorem sessions_well_formed (hn : option string) (tr : list VEvent) (v : VirtualConnManager) :
  vruns (NewVirtualConnManager hn) tr v ->
  (forall key id, LookupByKey v key = Some id <-> LookupByLocal v id = Some key) /\
  (forall id p s, session_local v id = Some (p, s) ->
     vs_localID s = id /\ 0 < id < nextLocal v /\
     Z.of_nat (length (vs_input s)) <= MaxInputQueueDepth (wireLimits v) /\
     Z.of_nat (length (vs_opInput s)) <= MaxOpQueueDepth (wireLimits v) /\
     Z.of_nat (length (replicationReceipts (vs_corr s))) <= 256 /\
     Z.of_nat (size (pendingReplication (vs_corr s))) <= 256).
Proof.
  intros [Hv _ _ _ _]%vruns_ok. split.
  - intros key id. unfold LookupByKey, LookupByLocal, LookupRouteByLocal. split.
    + intros ([p s] & Es & ->)%fmap_Some. apply session_key_Some in Es as [Ek Es].
      destruct (vk_byKey _ Hv _ _ Ek) as (x & Hx & <- & Hl). rewrite Es in Hx. injection Hx as <-. simpl.
      by rewrite (proj2 (session_local_Some v _ p s) (conj Hl Es)).
    + intros (? & ([p s] & Es & ->)%fmap_Some & ->)%fmap_Some. apply session_local_Some in Es as [El Es].
      destruct (vk_byLocal _ Hv _ _ El) as (x & Hx & <- & Hk). rewrite Es in Hx. injection Hx as <-. simpl.
      by rewrite (proj2 (session_key_Some v _ p s) (conj Hk Es)).
  - intros id p s Es. pose proof (session_ok _ _ _ _ Hv Es) as [Hc ? ?].
    apply session_local_Some in Es as [El Es]. destruct (vk_byLocal _ Hv _ _ El) as (x & Hx & <- & Hk).
    rewrite Es in Hx. injection Hx as <-. destruct (vk_heap _ Hv _ _ Es) as (_ & ? & _).
    split; [done|]. split; [done|]. split; [done|]. split; [done|].
    split; [apply Hc|exact (pending_bound _ _ Hc)].
Qed.

(** A receipt commits the frame it answers and no other.  Whenever a receipt is
    accepted, a frame with its token was sent earlier on the same connection, under
    the epoch the receipt carries, with the writer scope, stream epoch and sequence
    the receipt is recorded with; and no receipt of that token is ever accepted
    again - whatever is lost, repeated, reordered, evicted or forged in between. *)
Theorem receipts_match_sends (hn : option string) (v : VirtualConnManager)
  (new old : list VEvent) (t id e : Z) (pr : pendingReplicationReceipt) :
  vruns (NewVirtualConnManager hn) (new ++ Recorded t id e pr :: old) v ->
  Sent t id e (pr_scope pr) (pr_streamEpoch pr) (pr_seq pr) ∈ old /\
  forall id' e' pr', Recorded t id' e' pr' ∉ new ++ old.
Proof.
  intros [_ Hj _ _ _]%vruns_ok. pose proof (justified_suffix _ _ Hj) as (H1 & H2 & _).
  split; [done|]. intros id' e' pr' [H|H]%elem_of_app; [|by eapply H2].
  apply list_elem_of_split in H as (n1 & n2 & ->). rewrite <- app_assoc in Hj.
  apply justified_suffix in Hj as (_ & H & _). apply (H id e pr). apply elem_of_app. right. by left.
Qed.

(** A session's input is a bounded first-in first-out queue.  Whatever happens to
    the other sessions, the frames drained for a session followed by those still
    queued are exactly the frames admitted, in order, each once; and a frame is
    admitted exactly when it is not too large, there is room, and its epoch is
    current - or, for a frame forwarded by the host that lost the player, at most one
    generation old. *)
Theorem input_fifo (v v' : VirtualConnManager) (id : Z) (p : nat) (s : virtualSession)
  (ops : list VOp) (admitted drained : list bytes) :
  vcm_ok v -> runs_below_wrap v ops -> session_local v id = Some (p, s) ->
  (forall key, OpDrop key ∈ ops -> key <> vs_key s) ->
  run_inputs v id ops = (v', admitted, drained) ->
  drained ++ input_queue v' id = vs_input s ++ admitted.
Proof.
  revert v s admitted drained. induction ops as [|op ops IH]; intros v s a d Hv Hw Es Hd Hr; simpl in Hr.
  - simplify_eq. unfold input_queue. rewrite Es. by rewrite app_nil_r.
  - destruct (run_inputs (vexec v op) id ops) as [[w a'] d'] eqn:E. simplify_eq. destruct Hw as [Hw1 Hw2].
    destruct (vexec_input v p s id op) as (s' & Es' & Ek & Hq); [done|done|done| |].
    { intros key ->. apply Hd. by left. }
    apply (IH (vexec v op) s') in E; [|by apply vexec_ok|done|done|].
    + by rewrite <- app_assoc, E, app_assoc, Hq, app_assoc.
    + intros key H. rewrite Ek. apply Hd. by right.
Qed.

(** ** Witnesses *)

Definition gw1 : SessionKey := mkSessionKey "g" 7.

(** A session is registered, sends two frames and gets a receipt for the second. *)
Definition vcm_ops : list VOp :=
  [OpRegister gw1 "ann" 1 "cell_0_0"; OpBegin 1 9 0 100 [1]; OpBegin 1 9 0 101 [2];
   OpReceipt 1 1 2 (queuedSend DeliveryOrdered)]%string.

Definition vcm0 : VirtualConnManager := NewVirtualConnManager (Some "h"%string).

Lemma runs_fold ops : forall v0 tr v, vruns v0 tr v -> runs_below_wrap v ops ->
  vruns v0 (fold_left (fun '(v, tr) op => (vexec v op, vevent v op ++ tr)) ops (v, tr)).2
    (fold_left (fun '(v, tr) op => (vexec v op, vevent v op ++ tr)) ops (v, tr)).1.
Proof.
  induction ops as [|op ops IH]; intros v0 tr v H Hb; [done|]. simpl in *. destruct Hb as [Hb1 Hb2].
  apply IH; [by apply vruns_step|done].
Qed.

Lemma vcm_run : vruns vcm0
  [Recorded 2 1 1 (mkPending 9 0 101); Sent 2 1 1 9 0 101; Sent 1 1 1 9 0 100]
  (fold_left vexec vcm_ops vcm0).
Proof.
  pose proof (runs_fold vcm_ops vcm0 [] vcm0 (vruns_nil _)) as H. 
  assert (Hb : runs_below_wrap vcm0 vcm_ops) by (vm_compute; repeat split).
  specialize (H Hb). exact H.
Qed.

Lemma sessions_well_formed_witness :
  let v := fold_left vexec vcm_ops vcm0 in
  LookupByKey v gw1 = Some 1 /\ LookupByLocal v 1 = Some gw1.
Proof.
  pose proof (sessions_well_formed _ _ _ vcm_run) as [H _]. split; [reflexivity|].
  apply H. reflexivity.
Defined.

Lemma receipts_match_sends_witness : Sent 2 1 1 9 0 101 ∈ [Sent 2 1 1 9 0 101; Sent 1 1 1 9 0 100].
Proof. exact (proj1 (receipts_match_sends _ _ [] _ _ _ _ _ vcm_run)). Defined.

Definition vcm5 : VirtualConnManager := (RegisterSession vcm0 gw1 "ann" 5 "cell_0_0").1.

(** The second frame is from an older epoch; the third was forwarded by the host the
    player came from. *)
Definition input_ops : list VOp :=
  [OpInject 1 [1] 5 0; OpInject 1 [2] 4 0; OpForward 1 [3] 4 0; OpDrainInput 1; OpInject 1 [4] 6 0].

Lemma input_fifo_witness :
  let r := run_inputs vcm5 1 input_ops in
  r.2 = [[1]; [3]] /\ [[1]; [3]] ++ input_queue r.1.1 1 = [] ++ [[1]; [3]; [4]].
Proof.
  split; [vm_compute; reflexivity|].
  apply (input_fifo vcm5 _ 1 0%nat (mkVSession gw1 1 "ann" 5 "cell_0_0" [] [] no_corr) input_ops).
  - apply RegisterSession_ok; [apply (vruns_ok (Some "h"%string) []), vruns_nil|vm_compute; reflexivity].
  - vm_compute. repeat split.
  - reflexivity.
  - intros key H. repeat (apply elem_of_cons in H as [[=]|H]). by apply elem_of_nil in H.
  - vm_compute. reflexivity.
Defined.
