(* ===== verification/Gateway.v ===== *)
(** * The gateway (pkg/universe/gateway.go, spawn_resolver.go, mesh_gateway_client.go)

    A gateway terminates client connections, holds who each of them is, and proxies
    their traffic to the host that owns the player's cell.  This is the standalone
    gateway: its own process, with a control stream to the coordinator and streams to
    the hosts ([coord] is nil, [hostNetwork] and [controlClient] are not).  What it
    sends is appended to [gout]; whether a send succeeds, the outcome of the client
    transport and the order of a map iteration are arguments.  Frames of client
    operations are decoded with the code's own framing; what the registered handler
    answers is the game's, and an argument. *)

From S2P Require Import Prelude Float32 CellId UdpTransport SessionRoutes ControlPlane VirtualConn.

(** ** Operation frames (typed_op_frame.go) *)

Definition EncodeTypedOpFrame (typeID requestID : Z) (body : bytes) : bytes :=
  [ChannelOperation] ++ le_bytes 4 typeID ++ le_bytes 8 requestID
    ++ le_bytes 4 (u32 (Z.of_nat (length body))) ++ body.

Definition typedOpHeaderLen : nat := 16.

(** [None] is an error: a truncated header, or a declared length past the payload. *)
Definition DecodeTypedOpFrame (payload : bytes) : option (Z * Z * bytes) :=
  if (length payload <? typedOpHeaderLen)%nat then None
  else
    let typeID := le_val (slice 0 4 payload) in
    let requestID := le_val (slice 4 12 payload) in
    let bodyLen := le_val (slice 12 16 payload) in
    if Z.of_nat (length payload - typedOpHeaderLen) <? bodyLen then None
    else Some (typeID, requestID, slice typedOpHeaderLen (typedOpHeaderLen + Z.to_nat bodyLen) payload).

(** ** State *)

Record Location := mkLocation { loc_X : f32; loc_Y : f32 }.

Record connAuthState := mkAuth {
  as_authenticated : bool;
  as_userID : Z;
  as_username : string;
  as_sessionToken : string;
  as_expiresAtMs : Z;
  as_authedAt : Z
}.

Record localSession := mkLocalSession {
  ls_connID : Z;
  ls_userID : Z;
  ls_username : string;
  ls_token : string;
  ls_hostID : string;
  ls_cellID : string;
  ls_epoch : Z;
  ls_spawnLoc : Location;
  ls_isReconnect : bool
}.

Record PlayerAssignment := mkAssignment {
  pa_ConnID : Z;
  pa_GatewayID : string;
  pa_UserID : string;
  pa_Username : string;
  pa_SessionToken : string;
  pa_ToCellID : string;
  pa_Epoch : Z;
  pa_StreamGeneration : Z;
  pa_SpawnLocation : Location;
  pa_IsReconnect : bool
}.

Inductive MeshFrame :=
| FrameClientInput (gateway : string) (conn epoch : Z) (data : bytes) (channel : Z)
| FramePlayerAssignment (a : PlayerAssignment)
| FrameClientDisconnect (gateway : string) (conn : Z) (reason : string)
| FrameClientFrame (f : ClientFrame)
| FrameReplicationReceipt (sourceHost gateway : string) (conn epoch token disposition delivery : Z).

Inductive SessionEvent :=
| SessionEnterEvent (conn : Z) (userID username gateway : string)
| SessionLeaveEvent (conn : Z) (userID gateway : string).

Inductive GatewayOut :=
| ToCoord (m : HostMessage)
| ToHost (host : string) (f : MeshFrame)
| ToClient (conn : Z) (data : bytes)
| RemoveConn (conn : Z)
| Publish (e : SessionEvent).

Record Gateway := mkGateway {
  gw_id : string;
  gsessions : gmap Z localSession;
  authStates : gmap Z connAuthState;
  topoCells : gmap string string;
  baseCellSize : f32;
  gout : list GatewayOut
}.

Definition upd_gw (g : Gateway) (s : gmap Z localSession) (a : gmap Z connAuthState) : Gateway :=
  mkGateway (gw_id g) s a (topoCells g) (baseCellSize g) (gout g).

Definition put (g : Gateway) (o : GatewayOut) : Gateway :=
  mkGateway (gw_id g) (gsessions g) (authStates g) (topoCells g) (baseCellSize g) (gout g ++ [o]).

(** What the gateway's surroundings answer: whether a message to the coordinator or a
    frame to a host is accepted, the order of the ranges over the topology snapshot
    and the session map, the clock. *)
Record GEnv := mkGEnv {
  g_now : Z;
  coord_up : bool;
  host_up : string -> MeshFrame -> bool;
  torder : list string;
  sorder : list Z
}.

Definition to_coord (env : GEnv) (g : Gateway) (m : HostMessage) : Gateway :=
  if coord_up env then put g (ToCoord m) else g.

Definition to_host (env : GEnv) (g : Gateway) (host : string) (f : MeshFrame) : Gateway * bool :=
  if host_up env host f then (put g (ToHost host f), true) else (g, false).

(** ** The topology snapshot *)

Definition cachedHostForCell (g : Gateway) (cellID : string) : string :=
  let h := default ""%string (topoCells g !! cellID) in
  if String.eqb h "" then "local" else h.

(** ['<= && <'] over the snapshot, in the order of the range. *)
Definition covers (base : f32) (x y : f32) (cellID : string) : bool :=
  match ParseCellID (str cellID) with
  | None => false
  | Some cell =>
      let '(minX, minY, maxX, maxY) := WorldBounds cell base in
      f32_le minX x && f32_lt x maxX && f32_le minY y && f32_lt y maxY
  end.

Definition cellAtPosition (env : GEnv) (g : Gateway) (x y : f32) : string :=
  match list_find (fun cell => is_Some (topoCells g !! cell) /\ covers (baseCellSize g) x y cell = true)
          (torder env) with
  | Some (_, cell) => cell
  | None => ""
  end.

Definition gwApplyPeerList (g : Gateway) (cells : list (string * string)) : Gateway :=
  mkGateway (gw_id g) (gsessions g) (authStates g)
    (fold_left (fun m kv => <[kv.1 := kv.2]> m) cells ∅) (baseCellSize g) (gout g).

(** ** Authentication and sessions *)

Definition isAuthenticated (g : Gateway) (conn : Z) : bool :=
  match authStates g !! conn with Some a => as_authenticated a | None => false end.

Definition authStateOf (g : Gateway) (conn : Z) : option connAuthState := authStates g !! conn.

Definition clearAuthState (g : Gateway) (conn : Z) : Gateway :=
  upd_gw g (gsessions g) (delete conn (authStates g)).

Definition lookupSession (g : Gateway) (conn : Z) : option localSession := gsessions g !! conn.

Definition snapshotSessions (env : GEnv) (g : Gateway) : list localSession :=
  omap (fun conn => gsessions g !! conn) (sorder env).

Definition removeSession (g : Gateway) (conn : Z) : Gateway :=
  upd_gw g (delete conn (gsessions g)) (authStates g).

Definition kickConn (g : Gateway) (conn : Z) : Gateway :=
  put (removeSession (clearAuthState g conn) conn) (RemoveConn conn).

Definition onAuthLogout (g : Gateway) (conn : Z) : Gateway :=
  put (clearAuthState g conn) (RemoveConn conn).

(** An identity on the wire: the nil UUID is 0, sent as the empty string. *)
Section Identity.
Context (uuid_string : Z -> string).

Definition wire_uid (uid : Z) : string := if uid =? 0 then ""%string else uuid_string uid.

Definition announceSession (env : GEnv) (g : Gateway) (s : localSession) : Gateway :=
  to_coord env g
    (HMSessionAnnounce (gw_id g) (ls_connID s) (ls_username s) (ls_hostID s) (ls_cellID s)
       (wire_uid (ls_userID s))).

(** The remote path; [false] is an error. *)
Definition dispatchPlayerAssignment (env : GEnv) (g : Gateway) (s : localSession) : Gateway * bool :=
  let frame := FramePlayerAssignment
    (mkAssignment (ls_connID s) (gw_id g) (uuid_string (ls_userID s)) (ls_username s) (ls_token s)
       (ls_cellID s) (ls_epoch s) (u32 (ls_epoch s)) (ls_spawnLoc s) (ls_isReconnect s)) in
  let '(g, ok) := to_host env g (ls_hostID s) frame in
  if ok then (g, true) else (removeSession g (ls_connID s), false).

(** What [resolveSpawn] returns; the engine default when the request fails. *)
Record spawnResolution := mkResolution {
  sr_Location : Location;
  sr_IsReconnect : bool;
  sr_TargetHostID : string;
  sr_TargetCellID : string;
  sr_Rejected : bool
}.

Definition defaultSpawnLocation (base : f32) : Location :=
  let half := f32_div base (f32_of_int 2) in mkLocation half half.

Definition default_resolution (g : Gateway) : spawnResolution :=
  mkResolution (defaultSpawnLocation (baseCellSize g)) false "" "" false.

Definition dispatchPostAuthAssignment (env : GEnv) (g : Gateway) (conn uid : Z)
  (username token : string) (res : spawnResolution) : Gateway :=
  if sr_Rejected res then kickConn g conn
  else
    let loc := sr_Location res in
    let reconnect := sr_IsReconnect res && negb (String.eqb (sr_TargetCellID res) "") in
    let cellID := if reconnect then sr_TargetCellID res
                  else cellAtPosition env g (loc_X loc) (loc_Y loc) in
    if String.eqb cellID "" then g
    else
      let hostID := if reconnect then sr_TargetHostID res else ""%string in
      let hostID := if String.eqb hostID "" then cachedHostForCell g cellID else hostID in
      if String.eqb hostID "" || String.eqb hostID "local" then g
      else
        let sess := mkLocalSession conn uid username token hostID cellID 1 loc reconnect in
        let g := upd_gw g (<[conn := sess]> (gsessions g)) (authStates g) in
        let g := announceSession env g sess in
        let '(g, ok) := dispatchPlayerAssignment env g sess in
        if ok then put g (Publish (SessionEnterEvent conn (uuid_string uid) username (gw_id g))) else g.

(** The first half of [onAuthSuccess]: [None] refuses to rebind the connection to
    another user. *)
Definition bindAuth (env : GEnv) (g : Gateway) (conn uid : Z) (username token : string) (expiresAtMs : Z)
  : option (Gateway * string) :=
  let prev := authStates g !! conn in
  if match prev with Some p => as_authenticated p && negb (as_userID p =? uid) | None => false end then None
  else
    let token := if String.eqb token ""
                 then match prev with Some p => as_sessionToken p | None => ""%string end else token in
    Some (upd_gw g (gsessions g)
            (<[conn := mkAuth true uid username token expiresAtMs (g_now env)]> (authStates g)), token).

(** The two halves without interruption.  Between them the spawn request is out, up to two
    seconds with no lock held, and anything may happen: [GatewaySession.gstep] runs the
    halves as two steps.  [resolve] is the answer the request gets. *)
Definition onAuthSuccess (env : GEnv) (g : Gateway) (conn uid : Z) (username token : string)
  (expiresAtMs : Z) (resolve : Gateway -> spawnResolution) : Gateway :=
  match bindAuth env g conn uid username token expiresAtMs with
  | None => g
  | Some (g, token) => dispatchPostAuthAssignment env g conn uid username token (resolve g)
  end.

(** [cookie] is what the request carries, [resolver] the auth service's validation,
    [anonymous] the development escape hatch with the fresh id it draws. *)
Definition onWSUpgrade (env : GEnv) (g : Gateway) (conn : Z)
  (resolver : option (string -> option (Z * string * Z))) (anonymous : option Z) (cookie : string)
  (resolve : Gateway -> spawnResolution) : Gateway :=
  match resolver with
  | None =>
      match anonymous with
      | Some fresh => onAuthSuccess env g conn fresh (of_runes (str "anon-" ++ fmt_d conn)) "" 0 resolve
      | None => g
      end
  | Some check =>
      if String.eqb cookie "" then g
      else match check cookie with
           | None => g
           | Some (uid, username, exp) => onAuthSuccess env g conn uid username cookie exp resolve
           end
  end.

(** The disconnect of a connection: the coordinator learns of it by an announcement
    without a host. *)
Definition handleDisconnect (env : GEnv) (g : Gateway) (conn : Z) : Gateway :=
  let sess := gsessions g !! conn in
  let g := clearAuthState (removeSession g conn) conn in
  match sess with
  | None => g
  | Some s =>
      let g := put g (Publish (SessionLeaveEvent conn (wire_uid (ls_userID s)) (gw_id g))) in
      let g := (to_host env g (ls_hostID s)
                  (FrameClientDisconnect (gw_id g) conn "client disconnected")).1 in
      to_coord env g (HMSessionAnnounce (gw_id g) conn (ls_username s) "" "" "")
  end.

(** [serverConfig] is the frame the registered encoder builds, if any. *)
Definition handleEvent (env : GEnv) (g : Gateway) (conn : Z) (connected : bool)
  (serverConfig : option bytes) : Gateway :=
  if connected
  then match serverConfig with Some f => put g (ToClient conn f) | None => g end
  else handleDisconnect env g conn.

Definition reannounceSessions (env : GEnv) (g : Gateway) : Gateway :=
  fold_left (announceSession env) (snapshotSessions env g) g.
End Identity.

(** ** Routing *)

Definition OnUpstreamSwitch (g : Gateway) (conn : Z) (newHost newCell : string) (newEpoch : Z) : Gateway :=
  match gsessions g !! conn with
  | None => g
  | Some s =>
      let cell := if String.eqb newCell "" then ls_cellID s else newCell in
      upd_gw g (<[conn := mkLocalSession (ls_connID s) (ls_userID s) (ls_username s) (ls_token s)
                            newHost cell newEpoch (ls_spawnLoc s) (ls_isReconnect s)]> (gsessions g))
        (authStates g)
  end.

Definition replicationReceiptHost (g : Gateway) (conn : Z) (gatewayID : string) (epoch : Z)
  (sourceHostID : string) : option string :=
  if (epoch =? 0) || String.eqb gatewayID "" || negb (String.eqb gatewayID (gw_id g))
     || String.eqb sourceHostID "" then None
  else
    match gsessions g !! conn with
    | None => None
    | Some s =>
        if negb (ls_epoch s =? epoch) || String.eqb (ls_hostID s) ""
           || negb (String.eqb (ls_hostID s) sourceHostID) then None
        else Some (ls_hostID s)
    end.

Definition forward (env : GEnv) (g : Gateway) (s : localSession) (conn : Z) (raw : bytes) (channel : Z)
  : Gateway :=
  (to_host env g (ls_hostID s) (FrameClientInput (gw_id g) conn (ls_epoch s) raw channel)).1.

Definition forwardChannel (env : GEnv) (g : Gateway) (s : localSession) (conn : Z) (msgs : list bytes)
  (channel : Z) : Gateway :=
  fold_left (fun g raw => forward env g s conn raw channel) msgs g.

Definition forwardOpFrame (env : GEnv) (g : Gateway) (s : localSession) (conn : Z) (raw : bytes) : Gateway :=
  forward env g s conn raw ChannelOperation.

Inductive RouteKind := RouteGatewayLocal | RoutePlayerCell.

#[export] Instance RouteKind_eq_dec : EqDecision RouteKind.
Proof. solve_decision. Defined.

(** [lookup] is the operation registry; [respond] is the dispatch of a local operation,
    with its effect on the gateway (the auth service's events are handled inline) and
    its answer, none when the handler answers nothing or panics (the panic is
    contained); [unroutable] the error body of the registered encoder. *)
Section Pump.
Context (lookup : Z -> option RouteKind)
        (respond : Gateway -> Z -> option localSession -> bytes -> Gateway * option bytes)
        (unroutable : option (Z * bytes)).

Definition encodeTypedOpUnroutable (raw : bytes) : option bytes :=
  match DecodeTypedOpFrame raw with
  | None => None
  | Some (_, requestID, _) =>
      match unroutable with
      | None => None
      | Some (errType, body) => Some (EncodeTypedOpFrame errType requestID body)
      end
  end.

Definition to_client (g : Gateway) (conn : Z) (resp : option bytes) : Gateway :=
  match resp with Some f => put g (ToClient conn f) | None => g end.

Definition processOpFrame (env : GEnv) (g : Gateway) (conn : Z) (sess : option localSession) (raw : bytes)
  : Gateway :=
  match DecodeTypedOpFrame raw with
  | None => g
  | Some (typeID, _, _) =>
      if bool_decide (lookup typeID = Some RouteGatewayLocal)
      then let '(g, resp) := respond g conn sess raw in to_client g conn resp
      else match sess with
           | None => to_client g conn (encodeTypedOpUnroutable raw)
           | Some s => forwardOpFrame env g s conn raw
           end
  end.

(** One round of [runSessionPump]: the session is looked up once. *)
Definition pump (env : GEnv) (g : Gateway) (conn : Z) (events ops : list bytes) : Gateway :=
  let sess := lookupSession g conn in
  let g := match sess with Some s => forwardChannel env g s conn events ChannelEvent | None => g end in
  fold_left (fun g raw => processOpFrame env g conn sess raw) ops g.
End Pump.

(** ** The control stream (mesh_gateway_client.go) *)

(** Messages of an older coordinator are dropped; epoch 0 is unversioned. *)
Definition epoch_gate (highest epoch : Z) : option Z :=
  if 0 <? epoch
  then if epoch <? highest then None else Some (if highest <? epoch then epoch else highest)
  else Some highest.

Definition dispatchCoordMsg (g : Gateway) (m : CoordMsg) : Gateway :=
  match m with
  | MsgPeerList pl => gwApplyPeerList g (pl_Cells pl)
  | MsgUpstreamSwitch _ conn host cell epoch => OnUpstreamSwitch g conn host cell epoch
  | _ => g
  end.

(** The spawn requests in flight; the slot of an answered request holds the answer
    until the waiting goroutine takes it. *)
Record spawnOrchestrator := mkSpawnOrch { so_nextID : Z; so_inflight : gset Z; so_answer : gmap Z spawnResolution }.

Definition spawnAlloc (o : spawnOrchestrator) : spawnOrchestrator * Z :=
  let id := u64 (so_nextID o + 1) in
  (mkSpawnOrch id ({[id]} ∪ so_inflight o) (so_answer o), id).

Definition spawnOnResponse (o : spawnOrchestrator) (id : Z) (r : spawnResolution) : spawnOrchestrator :=
  if bool_decide (id ∈ so_inflight o)
  then mkSpawnOrch (so_nextID o) (so_inflight o ∖ {[id]}) (<[id := r]> (so_answer o))
  else o.

Definition spawnRemove (o : spawnOrchestrator) (id : Z) : spawnOrchestrator :=
  mkSpawnOrch (so_nextID o) (so_inflight o ∖ {[id]}) (so_answer o).

(** What the caller of [resolveSpawn] gets: the answer, or the default after a failed
    send or a timeout. *)
Definition resolveSpawn (o : spawnOrchestrator) (g : Gateway) (id : Z) (sent_ok : bool) : spawnResolution :=
  if sent_ok then default (default_resolution g) (so_answer o !! id) else default_resolution g.
