(* ===== verification/MeshRouting.v ===== *)
(** * Frames between hosts and gateways (pkg/universe/host_network.go,
      replication_receipt.go, mesh_control_client.go)

    [routeInboundFrame] for the frames of client traffic, on a host (which has
    virtual connections) and on a gateway (which has sessions), and the host's side
    of the coordinator's [SessionRegister].  The sender is the identity the stream
    presented.  What the client transport answers, which cells the host has and
    whether an inbox has room are arguments. *)

From S2P Require Import Prelude UdpTransport SessionRoutes ControlPlane VirtualConn Gateway.

Definition bindFrameIdentity (want claimed : string) : bool :=
  negb (String.eqb want "") && String.eqb claimed want.

(** ** Receipts *)

Definition disposition_code (d : SendDisposition) : Z :=
  match d with
  | SendFailed => 0 | SendQueued => 1 | SendBackpressure => 2
  | SendClosed => 3 | SendNoRoute => 4 | SendIndeterminate => 5
  end.

Definition disposition_of (z : Z) : option SendDisposition :=
  match z with
  | 0 => Some SendFailed | 1 => Some SendQueued | 2 => Some SendBackpressure
  | 3 => Some SendClosed | 4 => Some SendNoRoute | 5 => Some SendIndeterminate
  | _ => None
  end.

Definition delivery_of (z : Z) : option DeliveryClass :=
  match z with
  | 0 => Some DeliveryBestEffort | 1 => Some DeliveryOrdered | 2 => Some DeliveryReliableOrdered
  | _ => None
  end.

(** The wire enums are uint32; the Go enums they are cast to are uint8. *)
Definition receiptResult (disposition delivery : Z) : option SendResult :=
  match disposition_of (u8 disposition), delivery_of (u8 delivery) with
  | Some d, Some c => Some (mkSendResult d c)
  | _, _ => None
  end.

Definition newReplicationReceiptFrame (sourceHostID gatewayID : string) (conn epoch token : Z)
  (r : SendResult) : MeshFrame :=
  FrameReplicationReceipt sourceHostID gatewayID conn epoch token
    (disposition_code (Disposition r)) (delivery_rank (Delivery r)).

(** ** A host *)

Inductive CellMsg :=
| MsgPlayerDisconnected (cell : string) (conn : Z) (reason : string)
| MsgPlayerAssignment (cell : string) (a : PlayerAssignment).

(** [has_cell] is [CellByID], [inbox_room] whether the send to the cell's inbox is
    taken. *)
Record HEnv := mkHEnv { has_cell : string -> bool; inbox_room : string -> bool }.

Definition to_cell (env : HEnv) (cell : string) (m : CellMsg) : list CellMsg :=
  if has_cell env cell && inbox_room env cell then [m] else [].

Definition with_conn (a : PlayerAssignment) (conn epoch : Z) : PlayerAssignment :=
  mkAssignment conn "" (pa_UserID a) (pa_Username a) (pa_SessionToken a) (pa_ToCellID a) epoch
    (pa_StreamGeneration a) (pa_SpawnLocation a) (pa_IsReconnect a).

(** [destCell] is the frame's destination cell. *)
Definition hostRouteFrame (env : HEnv) (hostID : string) (v : VirtualConnManager) (senderID destCell : string)
  (f : MeshFrame) : VirtualConnManager * list CellMsg :=
  match f with
  | FrameReplicationReceipt sourceHost gateway conn epoch token disposition delivery =>
      if negb (String.eqb sourceHost hostID) then (v, [])
      else
        match receiptResult disposition delivery with
        | None => (v, [])
        | Some r =>
            match LookupByKey v (mkSessionKey gateway conn) with
            | None => (v, [])
            | Some localID => ((recordReplicationReceipt v localID epoch token r).1, [])
            end
        end
  | FrameClientInput gateway conn epoch data channel =>
      if negb (bindFrameIdentity senderID gateway) then (v, [])
      else
        match LookupByKey v (mkSessionKey gateway conn) with
        | None => (v, [])
        | Some localID =>
            if epoch =? 0 then (v, [])
            else (InjectChannelInputWithEpoch v localID data epoch (u8 channel), [])
        end
  | FrameClientFrame _ => (v, [])
  | FrameClientDisconnect gateway conn reason =>
      if negb (bindFrameIdentity senderID gateway) then (v, [])
      else
        match DropSession v (mkSessionKey gateway conn) with
        | (v, None) => (v, [])
        | (v, Some (localID, cellID)) =>
            (v, if String.eqb cellID "" then []
                else to_cell env cellID (MsgPlayerDisconnected cellID localID reason))
        end
  | FramePlayerAssignment a =>
      if String.eqb (pa_GatewayID a) ""
      then (v, to_cell env destCell (MsgPlayerAssignment destCell a))
      else if negb (bindFrameIdentity senderID (pa_GatewayID a)) then (v, [])
      else
        let epoch := if pa_Epoch a =? 0 then 1 else pa_Epoch a in
        let '(v, localID) := RegisterSession v (mkSessionKey (pa_GatewayID a) (pa_ConnID a))
                               (pa_Username a) epoch (pa_ToCellID a) in
        (v, to_cell env destCell (MsgPlayerAssignment destCell (with_conn a localID epoch)))
  end.

(** The coordinator's message; it carries no username. *)
Definition onSessionRegister (v : VirtualConnManager) (m : CoordMsg) : VirtualConnManager :=
  match m with
  | MsgSessionRegister gateway conn epoch cell =>
      (RegisterSession v (mkSessionKey gateway conn) "" epoch cell).1
  | _ => v
  end.

(** ** A gateway *)

(** [sendResult] is what the client transport answers; a pressured or closed route is
    removed.  The second route lookup sees the same sessions unless a switch came in
    between: [g2] is the gateway at that point. *)
Definition deliverClientFrame (g : Gateway) (f : ClientFrame) (sendResult : SendResult) : Gateway :=
  let g := if Queued sendResult then put g (ToClient (cf_ConnID f) (cf_Data f)) else g in
  if bool_decide (Disposition sendResult = SendBackpressure) || bool_decide (Disposition sendResult = SendClosed)
  then put g (RemoveConn (cf_ConnID f)) else g.

Definition tracked (f : ClientFrame) : bool := negb (cf_ReceiptToken f =? 0).

Definition admitClientFrame (g : Gateway) (f : ClientFrame) : bool :=
  if tracked f
  then negb (String.eqb (cf_SourceHostID f) "")
       && bool_decide (is_Some (replicationReceiptHost g (cf_ConnID f) (cf_GatewayID f) (cf_Epoch f)
                                  (cf_SourceHostID f)))
  else bindFrameIdentity (gw_id g) (cf_GatewayID f)
       && negb (cf_Epoch f =? 0)
       && match lookupSession g (cf_ConnID f) with
          | None => false
          | Some s => negb (cf_Epoch f <? ls_epoch s)
          end.

Definition answerReceipt (env : GEnv) (g : Gateway) (f : ClientFrame) (sendResult : SendResult) : Gateway :=
  if tracked f && Queued sendResult
  then match replicationReceiptHost g (cf_ConnID f) (cf_GatewayID f) (cf_Epoch f) (cf_SourceHostID f) with
       | None => g
       | Some hostID =>
           (to_host env g hostID
              (newReplicationReceiptFrame (cf_SourceHostID f) (cf_GatewayID f) (cf_ConnID f)
                 (cf_Epoch f) (cf_ReceiptToken f) sendResult)).1
       end
  else g.

(** [between] is what other goroutines do between the enqueue and the second lookup. *)
Definition gatewayRouteFrame (env : GEnv) (between : Gateway -> Gateway) (g : Gateway) (f : MeshFrame)
  (sendResult : SendResult) : Gateway :=
  match f with
  | FrameClientFrame cf =>
      if admitClientFrame g cf
      then answerReceipt env (between (deliverClientFrame g cf sendResult)) cf sendResult
      else g
  | _ => g
  end.
