(* ===== verification/ReceiptFlow.v ===== *)
(** * Replication receipts end to end (host_network.go, replication_receipt.go,
      virtual_conn_manager.go, gateway.go)

    Hosts send tracked replication frames to a gateway; the gateway admits a frame
    only from the host it regards as the session's authority, hands it to the client
    transport and answers with a receipt; the host correlates the receipt.  The
    network keeps everything ever sent and delivers any of it at any time, so it may
    lose, delay, repeat and reorder; the gateway's sessions change arbitrarily under
    it; a host may do anything else a virtual connection manager does. *)

From S2P Require Import Prelude Float32 UdpTransport SessionRoutes ControlPlane VirtualConn.
From S2P Require Import VirtualConnSafety Gateway MeshRouting.

(** ** The system *)

(** What a writer asked to send: who, under which token, to which connection. *)
Record SentRec := mkSent {
  sn_host : string;
  sn_token : Z;
  sn_key : SessionKey;
  sn_epoch : Z;
  sn_pr : pendingReplicationReceipt;
  sn_data : bytes
}.

Record System := mkSystem {
  sy_hosts : gmap string VirtualConnManager;
  sy_gw : Gateway;
  sy_frames : list ClientFrame;
  sy_receipts : list MeshFrame;
  sy_sent : list SentRec;
  sy_delivered : list ClientFrame;
  sy_committed : list (SentRec * SendResult)
}.

Definition set_host (y : System) (h : string) (v : VirtualConnManager) : System :=
  mkSystem (<[h := v]> (sy_hosts y)) (sy_gw y) (sy_frames y) (sy_receipts y) (sy_sent y)
    (sy_delivered y) (sy_committed y).

Definition receipts_of (l : list GatewayOut) : list MeshFrame :=
  omap (fun o => match o with
                 | ToHost _ (FrameReplicationReceipt _ _ _ _ _ _ _ as f) => Some f
                 | _ => None
                 end) l.

(** What the gateway sends out in [g'] beyond [g]. *)
Definition emitted (g g' : Gateway) : list GatewayOut := drop (length (gout g)) (gout g').

Definition host_send (y : System) (h : string) (id scope se seq : Z) (data : bytes) (err : option PeerError)
  : option System :=
  v ← sy_hosts y !! h;
  match beginReplication v id scope se seq data with
  | (v', inl _) => Some (set_host y h v')
  | (v', inr (p, token, frame)) =>
      let rec := mkSent h token (mkSessionKey (cf_GatewayID frame) (cf_ConnID frame)) (cf_Epoch frame)
                   (mkPending scope se seq) data in
      Some (mkSystem (<[h := v']> (sy_hosts y)) (sy_gw y)
              (match err with None => frame :: sy_frames y | Some _ => sy_frames y end)
              (sy_receipts y) (rec :: sy_sent y) (sy_delivered y) (sy_committed y))
  end.

Definition gateway_deliver (env : GEnv) (between : Gateway -> Gateway) (y : System) (f : ClientFrame)
  (r : SendResult) : System :=
  let g := sy_gw y in
  let g' := gatewayRouteFrame env between g (FrameClientFrame f) r in
  mkSystem (sy_hosts y) g' (sy_frames y) (receipts_of (emitted g g') ++ sy_receipts y) (sy_sent y)
    (if admitClientFrame g f && Queued r then f :: sy_delivered y else sy_delivered y)
    (sy_committed y).

(** The receipt reaches a host; a commit is logged with what the host recorded. *)
Definition host_receipt (env : HEnv) (y : System) (h : string) (sender dest : string) (f : MeshFrame)
  : option System :=
  v ← sy_hosts y !! h;
  match f with
  | FrameReplicationReceipt src gw conn epoch token d c =>
      let v' := (hostRouteFrame env h v sender dest f).1 in
      let logged :=
        match receiptResult d c, session_key v (mkSessionKey gw conn) with
        | Some r, Some (_, s) =>
            if String.eqb src h && (recordReplicationReceipt v (vs_localID s) epoch token r).2
            then match pendingReplication (vs_corr s) !! token with
                 | Some pr => [(mkSent h token (vs_key s) epoch pr [], r)]
                 | None => []
                 end
            else []
        | _, _ => []
        end in
      Some (mkSystem (<[h := v']> (sy_hosts y)) (sy_gw y) (sy_frames y) (sy_receipts y) (sy_sent y)
              (sy_delivered y) (logged ++ sy_committed y))
  | _ => None
  end.

(** Anything a gateway does between other steps, receipts apart. *)
Definition other_gateway (g g' : Gateway) : Prop :=
  gw_id g' = gw_id g /\ exists l, gout g' = gout g ++ l /\ receipts_of l = [].

Inductive system_step : System -> System -> Prop :=
| y_send y y' h v id scope se seq data err :
    sy_hosts y !! h = Some v -> nextReplicationReceipt v + 1 < 2 ^ 64 ->
    host_send y h id scope se seq data err = Some y' -> system_step y y'
| y_host y h v op : sy_hosts y !! h = Some v -> below_wrap v op ->
    match op with OpBegin _ _ _ _ _ | OpReceipt _ _ _ _ => False | _ => True end ->
    system_step y (set_host y h (vexec v op))
| y_deliver y env between f r : f ∈ sy_frames y -> (forall g, other_gateway g (between g)) ->
    system_step y (gateway_deliver env between y f r)
| y_gateway y g' : other_gateway (sy_gw y) g' ->
    system_step y (mkSystem (sy_hosts y) g' (sy_frames y) (sy_receipts y) (sy_sent y)
                     (sy_delivered y) (sy_committed y))
| y_receipt y y' env h sender dest f : f ∈ sy_receipts y ->
    host_receipt env y h sender dest f = Some y' -> system_step y y'.

Definition system_init (hosts : gmap string VirtualConnManager) (g : Gateway) : System :=
  mkSystem hosts g [] [] [] [] [].

(** ** The invariant *)

Definition matches (n : SentRec) (f : ClientFrame) : Prop :=
  cf_SourceHostID f = sn_host n /\ cf_ReceiptToken f = sn_token n /\
  mkSessionKey (cf_GatewayID f) (cf_ConnID f) = sn_key n /\ cf_Epoch f = sn_epoch n /\ cf_Data f = sn_data n.

Record sys_ok (y : System) : Prop := {
  ys_vcm : forall h v, sy_hosts y !! h = Some v -> vcm_ok v /\ hnHost v = Some h;
  ys_young : forall n v, n ∈ sy_sent y -> sy_hosts y !! sn_host n = Some v -> 0 < sn_token n <= nextReplicationReceipt v;
  ys_known : forall n, n ∈ sy_sent y -> is_Some (sy_hosts y !! sn_host n);
  ys_unique : forall n m, n ∈ sy_sent y -> m ∈ sy_sent y -> sn_host n = sn_host m -> sn_token n = sn_token m -> n = m;
  ys_frames : forall f, f ∈ sy_frames y -> exists n, n ∈ sy_sent y /\ matches n f;
  ys_delivered : forall f, f ∈ sy_delivered y -> exists n, n ∈ sy_sent y /\ matches n f;
  ys_receipts : forall src gw conn epoch token d c,
    FrameReplicationReceipt src gw conn epoch token d c ∈ sy_receipts y ->
    d = 1 /\ exists f, f ∈ sy_delivered y /\ cf_SourceHostID f = src /\ cf_ReceiptToken f = token /\
      cf_GatewayID f = gw /\ cf_ConnID f = conn /\ cf_Epoch f = epoch;
  ys_pend : forall h v p t id e pr s, sy_hosts y !! h = Some v -> pend v p t id e pr -> heap v !! p = Some s ->
    exists n, n ∈ sy_sent y /\ sn_host n = h /\ sn_token n = t /\ sn_key n = vs_key s /\ sn_epoch n = e /\ sn_pr n = pr;
  ys_committed : forall k r, (k, r) ∈ sy_committed y -> Disposition r = SendQueued /\
    exists n f, n ∈ sy_sent y /\ f ∈ sy_delivered y /\ matches n f /\
      sn_host n = sn_host k /\ sn_token n = sn_token k /\ sn_key n = sn_key k /\
      sn_epoch n = sn_epoch k /\ sn_pr n = sn_pr k
}.

(** ** Lemmas *)

Lemma vexec_key v op p s : vcm_ok v -> heap v !! p = Some s ->
  exists s', heap (vexec v op) !! p = Some s' /\ vs_key s' = vs_key s.
Proof.
  intros Hv Hp.
  assert (Hu : forall q s0 s1, heap v !! q = Some s0 -> vs_key s1 = vs_key s0 ->
    exists s', heap (upd_session v q s1) !! p = Some s' /\ vs_key s' = vs_key s).
  { intros q s0 s1 Hq Ek. simpl. destruct (decide (q = p)) as [->|Hne].
    - exists s1. rewrite lookup_insert_eq. split; [done|congruence].
    - exists s. by rewrite lookup_insert_ne. }
  assert (Hloc : forall id q s0, session_local v id = Some (q, s0) -> heap v !! q = Some s0)
    by (intros id q s0 [_ ?]%session_local_Some; done).
  assert (Ha : forall id d ch, exists s', heap (appendChannel v id d ch) !! p = Some s' /\ vs_key s' = vs_key s).
  { intros id d ch. unfold appendChannel. destruct (session_local v id) as [[q s0]|] eqn:E; [|by exists s].
    destruct (_ <? _); [by exists s|]. destruct (enqueue _ _ _ _) as [s1|] eqn:En.
    - apply (Hu _ s0); [by eapply Hloc|]. unfold enqueue in En. by destruct (_ =? _), (_ <=? _); simplify_eq.
    - destruct (_ =? _); by exists s. }
  destruct op; simpl; try done.
  - unfold RegisterSession. destruct (session_key v key) as [[q s0]|] eqn:E.
    + apply session_key_Some in E as [_ E]. apply (Hu _ s0); [done|]. by destruct (_ <? _).
    + exists s. simpl. destruct (vk_heap _ Hv _ _ Hp) as (? & _). by rewrite lookup_insert_ne by lia.
  - unfold DropSession. destruct (session_key v key) as [[q s0]|]; by exists s.
  - unfold beginReplication. destruct (scope =? 0); [by exists s|].
    destruct (session_local v id) as [[q s0]|] eqn:E; [|by exists s]. destruct (hnHost v) as [h|]; [|by exists s].
    destruct (String.eqb h ""); [by exists s|]. simpl. apply Hloc in E.
    destruct (Hu q s0 (with_corr s0 (trackReplication (vs_corr s0) (u64 (nextReplicationReceipt v + 1)) scope streamEpoch seq)) E eq_refl)
      as (s' & H & ?). by exists s'.
  - unfold discardAt. destruct (heap v !! p0) as [s0|] eqn:E; [by apply (Hu _ s0)|by exists s].
  - unfold recordReplicationReceipt. destruct (session_local v id) as [[q s0]|] eqn:E; [|by exists s].
    destruct (negb _); [by exists s|]. destruct (_ !! token); [|by exists s]. apply (Hu _ s0); [by eapply Hloc|done].
  - unfold DrainReplicationReceipts. destruct (scope =? 0); [by exists s|].
    destruct (session_local v id) as [[q s0]|] eqn:E; [|by exists s].
    destruct (filter _ _); [by exists s|]. apply (Hu _ s0); [by eapply Hloc|done].
  - unfold InjectChannelInputWithEpoch. destruct (0 <? epoch); [|done].
    destruct (session_local v id) as [[q s0]|]; [|by exists s]. destruct (_ <? _); [by exists s|done].
  - unfold InjectForwardedInputWithEpoch. destruct (session_local v id) as [[q s0]|]; [|by exists s].
    destruct (_ && _); [by exists s|apply Ha].
  - unfold DrainInput. destruct (session_local v id) as [[q s0]|] eqn:E; [|by exists s].
    destruct (drain_queue _ _). apply (Hu _ s0); [by eapply Hloc|done].
  - unfold DrainOpInput. destruct (session_local v id) as [[q s0]|] eqn:E; [|by exists s].
    destruct (drain_queue _ _). apply (Hu _ s0); [by eapply Hloc|done].
Qed.

Lemma vexec_host v op : hnHost (vexec v op) = hnHost v.
Proof.
  assert (Ha : forall id d ch, hnHost (appendChannel v id d ch) = hnHost v).
  { intros. unfold appendChannel. destruct (session_local v id) as [[q s0]|]; [|done].
    destruct (_ <? _); [done|]. destruct (enqueue _ _ _ _); [done|]. by destruct (_ =? _). }
  destruct op; simpl; try apply Ha.
  - unfold RegisterSession. by destruct (session_key v key) as [[q s0]|].
  - unfold DropSession. by destruct (session_key v key) as [[q s0]|].
  - unfold beginReplication. destruct (scope =? 0); [done|]. destruct (session_local v id) as [[q s0]|]; [|done].
    destruct (hnHost v) as [h|] eqn:E; [|done]. by destruct (String.eqb h "").
  - unfold discardAt. by destruct (heap v !! p).
  - unfold recordReplicationReceipt. destruct (session_local v id) as [[q s0]|]; [|done].
    destruct (negb _); [done|]. by destruct (_ !! token).
  - unfold DrainReplicationReceipts. destruct (scope =? 0); [done|].
    destruct (session_local v id) as [[q s0]|]; [|done]. by destruct (filter _ _).
  - unfold InjectChannelInputWithEpoch. destruct (0 <? epoch); [|apply Ha].
    destruct (session_local v id) as [[q s0]|]; [|done]. destruct (_ <? _); [done|apply Ha].
  - unfold InjectForwardedInputWithEpoch. destruct (session_local v id) as [[q s0]|]; [|done].
    destruct (_ && _); [done|apply Ha].
  - unfold DrainInput. destruct (session_local v id) as [[q s0]|]; [|done]. by destruct (drain_queue _ _).
  - unfold DrainOpInput. destruct (session_local v id) as [[q s0]|]; [|done]. by destruct (drain_queue _ _).
Qed.

(** A host step that allocates no token keeps the invariant. *)
Lemma set_host_ok y h v op : sys_ok y -> sy_hosts y !! h = Some v -> below_wrap v op ->
  match op with OpBegin _ _ _ _ _ => False | _ => True end -> sys_ok (set_host y h (vexec v op)).
Proof.
  intros [K1 K2 K2' K3 K4 K5 K6 K7 K8] Hh Hw Hop. destruct (K1 _ _ Hh) as [Hv Eh]. split; simpl; try done.
  - intros h' v' [(<- & <-)|(_ & H)]%lookup_insert_Some; [|by apply K1].
    split; [by apply vexec_ok|by rewrite vexec_host].
  - intros n v' Hn [(E & <-)|(_ & H)]%lookup_insert_Some; [|by apply K2].
    rewrite nextRR_other by done. apply (K2 n v); [done|by rewrite <- E].
  - intros n Hn. apply lookup_insert_is_Some. destruct (decide (h = sn_host n)); auto.
  - intros h' v' p t id e pr s [(<- & <-)|(_ & H)]%lookup_insert_Some Hp Hs; [|by eapply K7].
    apply pend_shrinks in Hp; [|done|done]. pose proof Hp as (s0 & Hs0 & _).
    destruct (vexec_key v op p s0 Hv Hs0) as (s' & Hs' & Ek). simplify_eq. rewrite Ek. by eapply K7.
Qed.

Lemma receipts_of_app l1 l2 : receipts_of (l1 ++ l2) = receipts_of l1 ++ receipts_of l2.
Proof. apply omap_app. Qed.

Lemma deliver_out g f r : exists l, gout (deliverClientFrame g f r) = gout g ++ l /\ receipts_of l = [] /\
  gw_id (deliverClientFrame g f r) = gw_id g.
Proof.
  unfold deliverClientFrame. destruct (Queued r), (bool_decide _ || bool_decide _); simpl.
  - exists [ToClient (cf_ConnID f) (cf_Data f); RemoveConn (cf_ConnID f)]. by rewrite <- app_assoc.
  - by exists [ToClient (cf_ConnID f) (cf_Data f)].
  - by exists [RemoveConn (cf_ConnID f)].
  - exists []. by rewrite app_nil_r.
Qed.

(** The receipts a delivery emits answer that frame, queued. *)
Lemma deliver_receipts env between g f r x : (forall g, other_gateway g (between g)) ->
  x ∈ receipts_of (emitted g (gatewayRouteFrame env between g (FrameClientFrame f) r)) ->
  admitClientFrame g f = true /\ Queued r = true /\
  exists c, x = FrameReplicationReceipt (cf_SourceHostID f) (cf_GatewayID f) (cf_ConnID f) (cf_Epoch f)
                  (cf_ReceiptToken f) 1 c.
Proof.
  intros Hb. simpl. destruct (admitClientFrame g f) eqn:Ea; [|unfold emitted; rewrite drop_all; by intros ?%elem_of_nil].
  destruct (deliver_out g f r) as (l1 & E1 & R1 & _). destruct (Hb (deliverClientFrame g f r)) as (_ & l2 & E2 & R2).
  unfold answerReceipt.
  assert (Hnone : receipts_of (emitted g (between (deliverClientFrame g f r))) = []).
  { unfold emitted. rewrite E2, E1, <- app_assoc, drop_app_length, receipts_of_app, R1, R2. done. }
  destruct (tracked f && Queued r) eqn:Et; [|rewrite Hnone; by intros ?%elem_of_nil].
  apply andb_prop in Et as [_ Eq].
  destruct (replicationReceiptHost _ _ _ _ _) as [h|]; [|rewrite Hnone; by intros ?%elem_of_nil].
  unfold to_host. destruct (host_up env h _); simpl; [|rewrite Hnone; by intros ?%elem_of_nil].
  unfold emitted. simpl. rewrite E2, E1, <- !app_assoc, drop_app_length, !receipts_of_app, R1, R2. simpl.
  intros ->%list_elem_of_singleton. split; [done|]. split; [done|]. unfold newReplicationReceiptFrame.
  apply bool_decide_eq_true in Eq. rewrite Eq. simpl. eauto.
Qed.

Lemma host_send_ok y y' h v id scope se seq data err : sys_ok y -> sy_hosts y !! h = Some v ->
  nextReplicationReceipt v + 1 < 2 ^ 64 -> host_send y h id scope se seq data err = Some y' -> sys_ok y'.
Proof.
  intros Hok Hh Hw. destruct Hok as [K1 K2 K2' K3 K4 K5 K6 K7 K8]. destruct (K1 _ _ Hh) as [Hv Eh].
  unfold host_send. rewrite Hh. simpl.
  pose proof (beginReplication_ok v id scope se seq data Hv Hw) as Hv'.
  pose proof (vexec_host v (OpBegin id scope se seq data)) as Eh'. simpl in Eh'.
  pose proof (fun p s => vexec_key v (OpBegin id scope se seq data) p s Hv) as Hkey. simpl in Hkey.
  assert (Hpb := fun q t i e pr => pend_begin v id scope se seq data q t i e pr Hv Hw).
  simpl in Hpb. revert Hv' Eh' Hkey Hpb. unfold beginReplication.
  assert (Hsame : sys_ok (set_host y h v)).
  { split; simpl; rewrite ?insert_id by done; done. }
  destruct (scope =? 0); [intros; simplify_eq; done|].
  destruct (session_local v id) as [[p s]|] eqn:E; [|intros; simplify_eq; done].
  rewrite Eh. destruct (String.eqb h "") eqn:Eh0; [intros; simplify_eq; done|]. cbn [fst snd].
  apply session_local_Some in E as [El E].
  rewrite (u64_id (nextReplicationReceipt v + 1)) by (pose proof (vk_token _ Hv); unfold in_u64; lia).
  set (v' := mkVCM _ _ _ _ _ _ _ _ _ _ _). intros Hv' Eh' Hkey Hpb. simpl.
  set (n := mkSent _ _ _ _ _ _). intros [= <-].
  assert (Hfresh : forall m, m ∈ sy_sent y -> sn_host m = h -> sn_token m <> nextReplicationReceipt v + 1).
  { intros m Hm E1 E2. destruct (K2 m v Hm) as [_ ?]; [by rewrite E1|]. lia. }
  assert (Hmono : forall m, m ∈ sy_sent y -> m ∈ n :: sy_sent y) by (intros; by right).
  split; simpl.
  - intros h' w [(<- & <-)|(_ & H)]%lookup_insert_Some; [by split|by apply K1].
  - intros m w [->|Hm]%elem_of_cons [(E1 & <-)|(Hne & H)]%lookup_insert_Some; simpl in *.
    + pose proof (vk_token _ Hv). lia.
    + done.
    + destruct (K2 m v Hm) as [? ?]; [by rewrite <- E1|]. lia.
    + by apply K2.
  - intros m [->|Hm]%elem_of_cons; simpl; [rewrite lookup_insert_eq; eauto|].
    apply lookup_insert_is_Some. destruct (decide (h = sn_host m)); auto.
  - intros m1 m2 [->|H1]%elem_of_cons [->|H2]%elem_of_cons Ehost Etok; [done|..].
    + by destruct (Hfresh m2).
    + by destruct (Hfresh m1).
    + by apply K3.
  - intros f Hf. assert (f ∈ sy_frames y \/ f = trackedClientFrame h (sk_GatewayID (vs_key s)) (sk_ConnID (vs_key s))
       (vs_epoch s) (nextReplicationReceipt v + 1) data) as [H| ->].
    { destruct err; [by left|]. apply elem_of_cons in Hf as [->|?]; [by right|by left]. }
    + destruct (K4 _ H) as (m & ? & ?). exists m. split; [by right|done].
    + exists n. split; [by left|]. done.
  - intros f Hf. destruct (K5 _ Hf) as (m & ? & ?). exists m. split; [by right|done].
  - exact K6.
  - intros h' w q t i e pr x [(<- & <-)|(_ & H)]%lookup_insert_Some Hp Hx.
    + destruct (Hpb _ _ _ _ _ Hp) as [Hold|[Hev ->]].
      * pose proof Hold as (s0 & Hs0 & _). destruct (Hkey _ _ Hs0) as (s' & Hs' & Ek). rewrite Hx in Hs'.
        injection Hs' as <-. rewrite Ek. destruct (K7 _ _ _ _ _ _ _ _ Hh Hold Hs0) as (m & ? & ?).
        exists m. split; [by right|done].
      * injection Hev as <- <- <-. exists n. split; [by left|]. destruct Hp as (x' & Hx' & Hid & _ & Hpt).
        rewrite Hx in Hx'. injection Hx' as <-.
        assert (q = p) as ->.
        { destruct (vk_byLocal _ Hv' id p) as (z & Hz & Ez & _); [done|].
          eapply (vk_inj _ Hv'); [exact Hx|exact Hz|congruence]. }
        simpl in Hx. rewrite lookup_insert_eq in Hx. injection Hx as <-.
        repeat split; try done. simpl. by destruct (vs_key s).
    + destruct (K7 _ _ _ _ _ _ _ _ H Hp Hx) as (m & ? & ?). exists m. split; [by right|done].
  - intros k r Hk. destruct (K8 _ _ Hk) as (? & m & f & ? & ? & ?). split; [done|]. exists m, f. split; [by right|done].
Qed.

Lemma deliver_ok y env between f r : sys_ok y -> f ∈ sy_frames y -> (forall g, other_gateway g (between g)) ->
  sys_ok (gateway_deliver env between y f r).
Proof.
  intros [K1 K2 K2' K3 K4 K5 K6 K7 K8] Hf Hb.
  assert (Hmono : forall x, x ∈ sy_delivered y ->
    x ∈ (if admitClientFrame (sy_gw y) f && Queued r then f :: sy_delivered y else sy_delivered y)).
  { intros x Hx. destruct (_ && _); [by right|done]. }
  split; cbn [gateway_deliver sy_hosts sy_sent sy_frames sy_delivered sy_receipts sy_committed]; try done.
  - intros x Hx. destruct (_ && _); [|by apply K5]. apply elem_of_cons in Hx as [->|Hx]; [by apply K4|by apply K5].
  - intros src gw conn epoch token d c [H|H]%elem_of_app.
    + apply deliver_receipts in H as (Ha & Hq & c' & [= -> -> -> -> -> -> _]); [|done].
      split; [done|]. exists f. rewrite Ha, Hq. split; [by left|done].
    + destruct (K6 _ _ _ _ _ _ _ H) as (-> & x & Hx & ?). split; [done|]. exists x. auto.
  - intros k q Hk. destruct (K8 _ _ Hk) as (? & n & x & ? & Hx & ?). split; [done|]. exists n, x. auto.
Qed.

Lemma receipt_result_queued d c r : d = 1 -> receiptResult d c = Some r -> Disposition r = SendQueued.
Proof.
  intros ->. unfold receiptResult. change (disposition_of (u8 1)) with (Some SendQueued).
  destruct (delivery_of (u8 c)); intros; by simplify_eq.
Qed.

Lemma receipt_ok y y' env h sender dest f : sys_ok y -> f ∈ sy_receipts y ->
  host_receipt env y h sender dest f = Some y' -> sys_ok y'.
Proof.
  intros Hok Hf. unfold host_receipt. destruct (sy_hosts y !! h) as [v|] eqn:Eh; [|done]. simpl.
  destruct f as [| | | |src gw conn epoch token d c]; [done..|].
  pose proof Hok as [K1 K2 K2' K3 K4 K5 K6 K7 K8]. destruct (K1 _ _ Eh) as [Hv _].
  destruct (K6 _ _ _ _ _ _ _ Hf) as (Hd & x & Hx & <- & <- & <- & <- & <-). intros [= <-].
  assert (Hkeep : forall w, (w = v \/ exists id r, w = vexec v (OpReceipt id (cf_Epoch x) (cf_ReceiptToken x) r)) ->
    sys_ok (set_host y h w)).
  { intros w [->|(id & r & ->)]; [|by apply set_host_ok].
    split; simpl; rewrite ?insert_id by done; done. }
  match goal with |- sys_ok (mkSystem (<[h := ?w]> _) _ _ _ _ _ (?l ++ _)) =>
    assert (Hw : sys_ok (set_host y h w)); [apply Hkeep|
    assert (Hl : forall k q, (k, q) ∈ l -> Disposition q = SendQueued /\
      exists n f, n ∈ sy_sent y /\ f ∈ sy_delivered y /\ matches n f /\
        sn_host n = sn_host k /\ sn_token n = sn_token k /\ sn_key n = sn_key k /\
        sn_epoch n = sn_epoch k /\ sn_pr n = sn_pr k)]
  end.
  - simpl. destruct (String.eqb _ h); [simpl|by left]. destruct (receiptResult d c) as [r|]; [|by left].
    destruct (LookupByKey v _) as [id|]; [|by left]. right. by exists id, r.
  - intros k q Hk. destruct (receiptResult d c) as [r|] eqn:Er; [|by apply elem_of_nil in Hk].
    destruct (session_key v _) as [[p s]|] eqn:Es; [|by apply elem_of_nil in Hk].
    destruct (String.eqb_spec (cf_SourceHostID x) h) as [Esrc|]; [|by apply elem_of_nil in Hk]. simpl in Hk.
    destruct (recordReplicationReceipt v (vs_localID s) (cf_Epoch x) (cf_ReceiptToken x) r).2 eqn:Erec;
      [|by apply elem_of_nil in Hk].
    destruct (pendingReplication (vs_corr s) !! cf_ReceiptToken x) as [pr|] eqn:Ep; [|by apply elem_of_nil in Hk].
    apply list_elem_of_singleton in Hk. injection Hk as -> ->.
    split; [by eapply receipt_result_queued|].
    apply session_key_Some in Es as [Ekey Es]. destruct (vk_byKey _ Hv _ _ Ekey) as (s' & Hs' & Ek & El).
    rewrite Es in Hs'. injection Hs' as <-.
    assert (Hep : vs_epoch s = cf_Epoch x).
    { unfold recordReplicationReceipt in Erec. rewrite (proj2 (session_local_Some v _ p s) (conj El Es)) in Erec.
      destruct (Z.eqb_spec (vs_epoch s) (cf_Epoch x)); [done|by simpl in Erec]. }
    destruct (K7 h v p (cf_ReceiptToken x) (vs_localID s) (vs_epoch s) pr s Eh) as
      (n & Hn & En1 & En2 & En3 & En4 & En5); [by exists s|done|].
    destruct (K5 x Hx) as (m & Hm & Hmx). pose proof Hmx as (M1 & M2 & M3 & M4 & M5).
    assert (m = n) as -> by (apply K3; [done|done|congruence|congruence]).
    exists n, x. simpl. split; [done|]. split; [done|]. split; [done|]. rewrite En4, Hep. auto.
  - destruct Hw as [W1 W2 W2' W3 W4 W5 W6 W7 W8]. split; try done.
    intros k q [H|H]%elem_of_app; [by apply Hl|by apply K8].
Qed.

Lemma system_step_ok y y' : system_step y y' -> sys_ok y -> sys_ok y'.
Proof.
  intros [y1 y2 h v id scope se seq data err Hh Hw Hs|y1 h v op Hh Hw Hop|y1 env between f r Hf Hb|y1 g' Hg
         |y1 y2 env h sender dest f Hf Hr] Hok.
  - by eapply host_send_ok.
  - apply set_host_ok; [done..|]. by destruct op.
  - by apply deliver_ok.
  - by destruct Hok.
  - by eapply receipt_ok.
Qed.

(** ** Theorem *)

(** C9: a receipt means what it says.  Between honest processes, over a network that
    loses, delays, repeats and reorders, and whatever happens to routes and sessions
    meanwhile: when a host commits a receipt for a writer's frame, the gateway had
    put exactly that frame - the bytes sent under that scope, stream epoch and
    sequence - into the transport of the client the writer addressed, and had
    admitted it under the very epoch it was sent with.  And the host commits success
    only. *)
Theorem receipt_means_enqueued (hosts : gmap string VirtualConnManager) (g : Gateway) (y : System)
  (k : SentRec) (r : SendResult) :
  (forall h v, hosts !! h = Some v -> v = NewVirtualConnManager (Some h)) ->
  rtc system_step (system_init hosts g) y -> (k, r) ∈ sy_committed y ->
  Disposition r = SendQueued /\
  exists n f, n ∈ sy_sent y /\ f ∈ sy_delivered y /\ matches n f /\
    sn_host n = sn_host k /\ sn_token n = sn_token k /\ sn_key n = sn_key k /\
    sn_epoch n = sn_epoch k /\ sn_pr n = sn_pr k.
Proof.
  intros Hnew Hr Hk. assert (Hok : sys_ok y); [|by apply (ys_committed _ Hok)].
  remember (system_init hosts g) as y0 eqn:E0.
  assert (H0 : sys_ok y0).
  { subst y0. split; simpl.
    - intros h v H. rewrite (Hnew _ _ H). split; [|done]. apply (vruns_ok (Some h) []), vruns_nil.
    - by intros n v ?%elem_of_nil.
    - by intros n ?%elem_of_nil.
    - by intros n m ?%elem_of_nil.
    - by intros f ?%elem_of_nil.
    - by intros f ?%elem_of_nil.
    - by intros src gw conn epoch token d c ?%elem_of_nil.
    - intros h v p t id e pr s H (x & Hx & _). rewrite (Hnew _ _ H) in Hx. simpl in Hx. by rewrite lookup_empty in Hx.
    - by intros k' r' ?%elem_of_nil. }
  clear E0. induction Hr as [y|y1 y2 y3 Hs _ IH]; [done|]. apply IH; [done|]. by eapply system_step_ok.
Qed.

(** ** Witness *)

Definition renv : GEnv := mkGEnv 0 true (fun _ _ => true) [] [].
Definition rcell : HEnv := mkHEnv (fun _ => true) (fun _ => true).

(** Client 7 of gateway "g" plays on host "h" under epoch 1. *)
Definition gw_one : Gateway :=
  mkGateway "g" {[7 := mkLocalSession 7 1 "ann" "" "h" "cell_0_0" 1 (mkLocation (S754_zero false) (S754_zero false)) false]}
    ∅ ∅ (S754_zero false) [].

Definition hosts_one : gmap string VirtualConnManager := {["h"%string := vcm0]}.

Definition sys1 : System := set_host (system_init hosts_one gw_one) "h" (vexec vcm0 (OpRegister gw1 "ann" 1 "cell_0_0")).
Definition sys2 : System := default sys1 (host_send sys1 "h" 1 9 0 100 [5; 6] None).
Definition frame_one : ClientFrame := trackedClientFrame "h" "g" 7 1 1 [5; 6].
Definition sys3 : System := gateway_deliver renv (fun g => g) sys2 frame_one (queuedSend DeliveryReliableOrdered).
Definition receipt_one : MeshFrame :=
  newReplicationReceiptFrame "h" "g" 7 1 1 (queuedSend DeliveryReliableOrdered).
Definition sys4 : System := default sys3 (host_receipt rcell sys3 "h" "g" "" receipt_one).

Lemma receipt_means_enqueued_witness :
  sy_committed sys4 = [(mkSent "h" 1 gw1 1 (mkPending 9 0 100) [], queuedSend DeliveryReliableOrdered)] /\
  exists n f, n ∈ sy_sent sys4 /\ f ∈ sy_delivered sys4 /\ matches n f /\ sn_pr n = mkPending 9 0 100.
Proof.
  split; [vm_compute; reflexivity|].
  assert (Hrun : rtc system_step (system_init hosts_one gw_one) sys4).
  { apply (rtc_l _ _ sys1).
    { apply (y_host (system_init hosts_one gw_one) "h" vcm0); [reflexivity|vm_compute; reflexivity|done]. }
    apply (rtc_l _ _ sys2).
    { eapply (y_send _ _ "h" _ 1 9 0 100 [5; 6] None); [reflexivity|vm_compute; reflexivity|reflexivity]. }
    apply (rtc_l _ _ sys3).
    { apply y_deliver; [by left|]. intros g. split; [done|]. exists []. by rewrite app_nil_r. }
    apply (rtc_l _ _ sys4); [|apply rtc_refl].
    apply (y_receipt _ _ rcell "h" "g" "" receipt_one); [by left|reflexivity]. }
  assert (Hc : (mkSent "h" 1 gw1 1 (mkPending 9 0 100) [], queuedSend DeliveryReliableOrdered) ∈ sy_committed sys4)
    by (vm_compute; by left).
  destruct (receipt_means_enqueued hosts_one gw_one sys4 _ _ ltac:(intros h v; unfold hosts_one; intros [<- <-]%lookup_singleton_Some; done) Hrun Hc)
    as (_ & n & f & Hn & Hf & Hm & _ & _ & _ & _ & E).
  by exists n, f.
Defined.
