(* ===== verification/GatewaySession.v ===== *)
(** * Sessions across gateway, coordinator and host

    The three places that know where a client's player is - the gateway's session,
    the coordinator's route, the host's virtual connection - composed: what a
    migration makes of the traffic in both directions, who a connection may be, and
    the runs in which the three disagree for good. *)

From S2P Require Import Prelude Float32 CellId UdpTransport SessionRoutes ControlPlane.
From S2P Require Import ControlFence ControlAssign ControlSession VirtualConn.
From S2P Require Import VirtualConnSafety Gateway MeshRouting.

(** ** Operation frames *)

(** The frame of an operation, channel byte stripped by the transport, decodes to what
    was encoded; the declared length is never read past the payload. *)
Theorem typed_op_roundtrip (typeID requestID : Z) (body rest : bytes) :
  in_u32 typeID -> in_u64 requestID -> Z.of_nat (length body) < 2 ^ 32 ->
  DecodeTypedOpFrame (tail (EncodeTypedOpFrame typeID requestID body) ++ rest) = Some (typeID, requestID, body).
Proof.
  intros Ht Hr Hb. unfold EncodeTypedOpFrame, DecodeTypedOpFrame, typedOpHeaderLen. cbn [app tail].
  rewrite u32_id by (unfold in_u32; lia). rewrite <- !app_assoc.
  set (L := le_bytes 4 (Z.of_nat (length body))).
  assert (H4 : length (le_bytes 4 typeID) = 4%nat) by apply length_le_bytes.
  assert (H8 : length (le_bytes 8 requestID) = 8%nat) by apply length_le_bytes.
  assert (HL : length L = 4%nat) by apply length_le_bytes.
  destruct (Nat.ltb_spec (length (le_bytes 4 typeID ++ le_bytes 8 requestID ++ L ++ body ++ rest)) 16) as [H|_].
  { rewrite !length_app in H. lia. }
  assert (E1 : slice 0 4 (le_bytes 4 typeID ++ le_bytes 8 requestID ++ L ++ body ++ rest) = le_bytes 4 typeID).
  { unfold slice. rewrite drop_0, Nat.sub_0_r, take_app_le, take_ge by lia. done. }
  assert (E2 : slice 4 12 (le_bytes 4 typeID ++ le_bytes 8 requestID ++ L ++ body ++ rest) = le_bytes 8 requestID).
  { unfold slice. rewrite drop_app_length' by lia. rewrite take_app_le, take_ge by lia. done. }
  assert (E3 : slice 12 16 (le_bytes 4 typeID ++ le_bytes 8 requestID ++ L ++ body ++ rest) = L).
  { unfold slice. rewrite app_assoc, drop_app_length' by (rewrite length_app; lia).
    rewrite take_app_le, take_ge by lia. done. }
  rewrite E1, E2, E3. unfold L. rewrite !le_val_bytes.
  change (256 ^ Z.of_nat 4) with (2 ^ 32). change (256 ^ Z.of_nat 8) with (2 ^ 64).
  rewrite !Z.mod_small by (unfold in_u32, in_u64 in *; lia).
  rewrite Nat2Z.id. fold L. destruct (Z.ltb_spec
    (Z.of_nat (length (le_bytes 4 typeID ++ le_bytes 8 requestID ++ L ++ body ++ rest) - 16)) (Z.of_nat (length body)))
    as [H|_].
  { rewrite !length_app in H. lia. }
  f_equal. f_equal. unfold slice. rewrite !app_assoc, <- (app_assoc _ body rest).
  rewrite drop_app_length' by (rewrite !length_app; lia).
  rewrite take_app_le by lia. rewrite take_ge by lia. done.
Qed.

(** ** Migration of the traffic *)

Lemma register_current v key username e cell : vcm_ok v -> nextLocal v + 1 < 2 ^ 32 ->
  (forall p s, session_key v key = Some (p, s) -> vs_epoch s <= e) ->
  let v' := (RegisterSession v key username e cell).1 in
  exists id p s, LookupByKey v' key = Some id /\ session_local v' id = Some (p, s) /\
    vs_epoch s = e /\ vs_key s = key /\ hnHost v' = hnHost v.
Proof.
  intros Hv Hw He v'. pose proof (RegisterSession_ok v key username e cell Hv Hw) as Hv'. fold v' in Hv'.
  assert (exists p s, session_key v' key = Some (p, s) /\ vs_epoch s = e /\ hnHost v' = hnHost v) as (p & s & Es & Ee & Eh).
  { unfold v', RegisterSession. destruct (session_key v key) as [[p s]|] eqn:E.
    - specialize (He _ _ eq_refl). apply session_key_Some in E as [Ek Es].
      exists p, (with_owner (if vs_epoch s <? e then with_epoch s e no_corr else s) cell).
      rewrite session_key_Some. simpl. rewrite lookup_insert_eq. split; [done|]. split; [|done].
      destruct (Z.ltb_spec (vs_epoch s) e); simpl; [done|lia].
    - eexists _, _. rewrite session_key_Some. simpl. by rewrite !lookup_insert_eq. }
  exists (vs_localID s), p, s. unfold LookupByKey. rewrite Es. apply session_key_Some in Es as [Ek Es].
  destruct (vk_byKey _ Hv' _ _ Ek) as (x & Hx & <- & Hl). rewrite Es in Hx. injection Hx as <-.
  rewrite session_local_Some. done.
Qed.

(** The traffic of connection [conn] after a switch to [dest] under epoch [e]: what
    the client sends reaches the session's queues on [dest], what [dest] sends
    reaches the client, and nothing sent under an older epoch does. *)
Record switched (g : Gateway) (v : VirtualConnManager) (dest : string) (conn e : Z) : Prop := {
  sw_session : exists s id, lookupSession g conn = Some s /\ LookupByKey v (mkSessionKey (gw_id g) conn) = Some id /\
    (forall genv henv data ch, (ch = ChannelEvent \/ ch = ChannelOperation) ->
       host_up genv dest (FrameClientInput (gw_id g) conn e data ch) = true ->
       exists f, gout (forward genv g s conn data ch) = gout g ++ [ToHost dest f] /\
         hostRouteFrame henv dest v (gw_id g) "" f = (appendChannel v id data ch, [])) /\
    (forall data f, (forwardToGateway v id data None).2 = Some f -> admitClientFrame g f = true);
  sw_fenced : forall f, cf_ConnID f = conn -> cf_Epoch f < e -> admitClientFrame g f = false
}.

(** C15: a migration takes the client's traffic along, both ways.  When the coordinator
    knows the session's route under an epoch that can still grow, the new host and the
    gateway (not embedded, with the client's session) are reachable, and the new host has
    no session of the client under a later epoch: once the coordinator's two messages have
    arrived, the client's input reaches the session's queue on the new host and the new
    host's frames reach the client, while every frame sent under an earlier epoch - by any
    host, tracked or not - is dropped at the gateway.  It speaks of the state right after
    the two messages: a message of an earlier migration that arrives after them undoes it
    ([late_switch_wins]), as does a re-announcement of the session, which starts again at
    epoch 1 ([reannounce_mutes_client]). *)
Theorem migration_switches_traffic (cfg : Config) (env : Env) (c : Coord) (g : Gateway)
  (v : VirtualConnManager) (conn : Z) (dest cell : string) (r : SessionRoute) (s : localSession) :
  let key := mkSessionKey (gw_id g) conn in
  embeddedGateway cfg <> Some (gw_id g) -> reachable env c dest ->
  (exists p, gatewayStreams c !! gw_id g = Some p /\ net env p = true) ->
  routes c !! key = Some r -> 0 <= sr_Epoch r -> sr_Epoch r + 1 < 2 ^ 64 ->
  gsessions g !! conn = Some s -> gw_id g <> ""%string -> dest <> ""%string ->
  vcm_ok v -> hnHost v = Some dest -> nextLocal v + 1 < 2 ^ 32 ->
  (forall p x, session_key v key = Some (p, x) -> vs_epoch x <= sr_Epoch r + 1) ->
  exists p q m1 m2,
    outbox (notifyPlayerMigrated cfg env c (gw_id g) conn dest cell) = outbox c ++ [OSend p m1; OSend q m2] /\
    switched (dispatchCoordMsg g m2) (onSessionRegister v m1) dest conn (sr_Epoch r + 1).
Proof.
  intros key Hemb Hd Hq Hr H0 Hw Hs Hg Hdne Hv Hh Hl He.
  pose proof (migration_effect cfg env c (gw_id g) dest cell conn Hemb Hd Hq) as Hm. fold key in Hm.
  rewrite Hr in Hm. destruct Hm as (_ & _ & p & q & Eo).
  rewrite u64_id in Eo by (unfold in_u64; lia). set (e := sr_Epoch r + 1) in *.
  exists p, q, (MsgSessionRegister (gw_id g) conn e cell), (MsgUpstreamSwitch (gw_id g) conn dest cell e).
  split; [exact Eo|]. clear Eo.
  destruct (register_current v key "" e cell Hv Hl He) as (id & pt & x & Ek & El & Ee & Exk & Eh).
  cbn [dispatchCoordMsg onSessionRegister]. fold key. set (v' := (RegisterSession v key "" e cell).1) in *.
  unfold OnUpstreamSwitch. rewrite Hs. set (s' := mkLocalSession _ _ _ _ dest _ e _ _).
  assert (Hls : gsessions (upd_gw g (<[conn:=s']> (gsessions g)) (authStates g)) !! conn = Some s')
    by apply lookup_insert_eq.
  split.
  - exists s', id. split; [exact Hls|]. split; [exact Ek|]. split.
    + intros genv henv data ch Hch Hup. unfold forward, to_host. cbn [ls_hostID ls_epoch s' gw_id upd_gw].
      cbn [gw_id upd_gw] in Hup. rewrite Hup. eexists. split; [reflexivity|]. cbn [hostRouteFrame].
      unfold bindFrameIdentity. rewrite String.eqb_refl. destruct (String.eqb_spec (gw_id g) ""); [done|]. simpl.
      fold key. rewrite Ek. destruct (Z.eqb_spec e 0); [lia|]. unfold InjectChannelInputWithEpoch.
      assert (u8 ch = ch) as -> by (by destruct Hch as [-> | ->]).
      destruct (Z.ltb_spec 0 e); [|lia]. rewrite El, Ee, Z.ltb_irrefl. done.
    + intros data f. unfold forwardToGateway. rewrite El, Eh, Hh. intros [= <-].
      unfold admitClientFrame, tracked, lookupSession. rewrite Exk, Ee. cbn [cf_ReceiptToken cf_GatewayID cf_Epoch cf_ConnID key sk_GatewayID sk_ConnID Z.eqb negb].
      rewrite Hls. cbn [ls_epoch s']. rewrite Z.ltb_irrefl. unfold bindFrameIdentity. cbn [gw_id upd_gw].
      rewrite String.eqb_refl. destruct (String.eqb_spec (gw_id g) ""); [done|]. by destruct (Z.eqb_spec e 0); [lia|].
  - intros f Hc Hlt. unfold admitClientFrame, replicationReceiptHost, lookupSession. rewrite Hc, Hls.
    cbn [ls_epoch s']. destruct (tracked f).
    + destruct (Z.eqb_spec e (cf_Epoch f)); [lia|]. cbn [negb orb].
      destruct (_ || _); by rewrite andb_false_r.
    + destruct (Z.ltb_spec (cf_Epoch f) e); [|lia]. by rewrite andb_false_r.
Qed.

(** ** Identity *)

(** What the gateway sends out in [g'] beyond [g]. *)
Definition out_since (g g' : Gateway) : list GatewayOut := drop (length (gout g)) (gout g').

Section IdentityMachine.
Context (uuid_string : Z -> string).

(** A login between its two halves: bound, its spawn request out. *)
Record Login := mkLogin { lg_conn : Z; lg_user : Z; lg_name : string; lg_token : string }.

(** The gateway with its logins in progress; [left] holds the connections that have logged
    out, been kicked or disconnected.  The transport never hands out a number twice. *)
Record GwRun := mkGwRun { gr_gw : Gateway; pending : list Login; left : gset Z }.

(** The gateway's operations.  A login is two steps with anything between them, and may
    begin, or end, for a connection that has left.  The other operations release their
    locks between a change of one table and the next: what one of them does so far, when
    another goroutine runs in between, is [gs_clear] (the authentication dropped, the
    session not yet or no longer there), [gs_forget] (the session dropped), [gs_insert]
    (the session of a login entered, not announced) and [gs_send]. *)
Inductive gstep : GwRun -> GwRun -> Prop :=
| gs_login env g pend lf conn uid username token exp :
    gstep (mkGwRun g pend lf)
      (match bindAuth env g conn uid username token exp with
       | Some (g', token) => mkGwRun g' (pend ++ [mkLogin conn uid username token]) lf
       | None => mkGwRun g pend lf
       end)
| gs_assign env g p1 p2 l lf res :
    gstep (mkGwRun g (p1 ++ l :: p2) lf)
      (mkGwRun (dispatchPostAuthAssignment uuid_string env g (lg_conn l) (lg_user l) (lg_name l) (lg_token l) res)
         (p1 ++ p2) (if sr_Rejected res then {[lg_conn l]} ∪ lf else lf))
| gs_insert g p1 p2 l lf s : ls_connID s = lg_conn l -> ls_userID s = lg_user l ->
    gstep (mkGwRun g (p1 ++ l :: p2) lf)
      (mkGwRun (upd_gw g (<[lg_conn l := s]> (gsessions g)) (authStates g)) (p1 ++ p2) lf)
| gs_logout g pend lf conn : gstep (mkGwRun g pend lf) (mkGwRun (onAuthLogout g conn) pend ({[conn]} ∪ lf))
| gs_clear g pend lf conn : gstep (mkGwRun g pend lf) (mkGwRun (clearAuthState g conn) pend ({[conn]} ∪ lf))
| gs_forget g pend lf conn : gstep (mkGwRun g pend lf) (mkGwRun (removeSession g conn) pend lf)
| gs_disconnect env g pend lf conn :
    gstep (mkGwRun g pend lf) (mkGwRun (handleDisconnect uuid_string env g conn) pend ({[conn]} ∪ lf))
| gs_send g pend lf o : gstep (mkGwRun g pend lf) (mkGwRun (put g o) pend lf)
| gs_control g pend lf m : gstep (mkGwRun g pend lf) (mkGwRun (dispatchCoordMsg g m) pend lf)
| gs_events env g pend lf conn s events : gsessions g !! conn = Some s ->
    gstep (mkGwRun g pend lf) (mkGwRun (forwardChannel env g s conn events ChannelEvent) pend lf)
| gs_frame env g pend lf f r : gstep (mkGwRun g pend lf) (mkGwRun (gatewayRouteFrame env (fun g => g) g f r) pend lf)
| gs_reannounce env g pend lf : gstep (mkGwRun g pend lf) (mkGwRun (reannounceSessions uuid_string env g) pend lf).

(** The connection is authenticated as the user. *)
Definition owned_by (g : Gateway) (conn uid : Z) : Prop :=
  exists a, authStates g !! conn = Some a /\ as_userID a = uid.

Record identity_ok (x : GwRun) : Prop := {
  io_conn : forall conn s, gsessions (gr_gw x) !! conn = Some s -> ls_connID s = conn;
  io_auth : forall conn a, authStates (gr_gw x) !! conn = Some a -> as_authenticated a = true;
  io_user : forall conn s, gsessions (gr_gw x) !! conn = Some s -> conn ∉ left x -> owned_by (gr_gw x) conn (ls_userID s);
  io_pending : forall l, l ∈ pending x -> lg_conn l ∉ left x -> owned_by (gr_gw x) (lg_conn l) (lg_user l)
}.

(** Steps that only send. *)
Definition same_tables (g g' : Gateway) : Prop :=
  gsessions g' = gsessions g /\ authStates g' = authStates g.

(** No step turns an authenticated connection over. *)
Definition auth_kept (g g' : Gateway) : Prop :=
  forall c a a', authStates g !! c = Some a -> authStates g' !! c = Some a' -> as_userID a = as_userID a'.

(** A step keeps identity: the invariant, and who the authenticated connections are. *)
Definition keeps (x y : GwRun) : Prop := identity_ok x -> identity_ok y /\ auth_kept (gr_gw x) (gr_gw y).

Lemma auth_kept_sub g g' : (forall c a, authStates g' !! c = Some a -> authStates g !! c = Some a) -> auth_kept g g'.
Proof. intros H c a a' Ha Ha'%H. congruence. Qed.

(** Sessions and authentications only dropped, the latter with the connection leaving. *)
Lemma keeps_sub g g' pend pend' lf lf' :
  (forall c s, gsessions g' !! c = Some s -> gsessions g !! c = Some s) ->
  (forall c a, authStates g' !! c = Some a -> authStates g !! c = Some a) ->
  (forall c a, authStates g !! c = Some a -> c ∉ lf' -> authStates g' !! c = Some a) ->
  lf ⊆ lf' -> (forall l, l ∈ pend' -> l ∈ pend) -> keeps (mkGwRun g pend lf) (mkGwRun g' pend' lf').
Proof.
  intros Hs Ha Hb Hl Hp [K1 K2 K3 K4]. split; [|by apply auth_kept_sub]. simpl in *.
  assert (Hown : forall c u, c ∉ lf' -> owned_by g c u -> owned_by g' c u).
  { intros c u Hn (a & Ea & E). exists a. split; [by apply Hb|done]. }
  split; simpl.
  - intros c s H%Hs. by apply K1.
  - intros c a H%Ha. by eapply K2.
  - intros c s H%Hs Hn. apply Hown; [done|]. apply K3; [done|set_solver].
  - intros l H Hn. apply Hown; [done|]. apply K4; [by apply Hp|set_solver].
Qed.

Lemma keeps_same g g' pend lf : same_tables g g' -> keeps (mkGwRun g pend lf) (mkGwRun g' pend lf).
Proof. intros [E1 E2]. apply keeps_sub; rewrite ?E1, ?E2; done. Qed.

Lemma keeps_trans x y z : keeps x y -> keeps y z ->
  (forall c a, authStates (gr_gw z) !! c = Some a -> authStates (gr_gw y) !! c = Some a) -> keeps x z.
Proof.
  intros H1 H2 Hs Hx. destruct (H1 Hx) as [Hy K1]. destruct (H2 Hy) as [Hz K2]. split; [done|].
  intros c a a' Ha Ha'. apply (K1 c a a' Ha). by apply Hs.
Qed.

(** What is sent afterwards changes nothing. *)
Lemma keeps_then x g g' pend lf : same_tables g g' -> keeps x (mkGwRun g pend lf) -> keeps x (mkGwRun g' pend lf).
Proof. intros E H. eapply keeps_trans; [exact H|by apply keeps_same|]. simpl. by rewrite (proj2 E). Qed.

Lemma keeps_put x g pend lf o : keeps x (mkGwRun g pend lf) -> keeps x (mkGwRun (put g o) pend lf).
Proof. apply keeps_then. by split. Qed.

Lemma to_host_tables env g h f : same_tables g (to_host env g h f).1.
Proof. unfold to_host. by destruct (host_up env h f). Qed.

Lemma to_coord_tables env g m : same_tables g (to_coord env g m).
Proof. unfold to_coord. by destruct (coord_up env). Qed.

Lemma same_tables_trans g1 g2 g3 : same_tables g1 g2 -> same_tables g2 g3 -> same_tables g1 g3.
Proof. intros [E1 E2] [F1 F2]. split; congruence. Qed.

Lemma forward_tables env s conn ch : forall events g, same_tables g (forwardChannel env g s conn events ch).
Proof.
  induction events as [|d events IH]; intros g; [done|]. unfold forwardChannel in *. simpl.
  eapply same_tables_trans; [apply to_host_tables|apply IH].
Qed.

Lemma announce_tables env l : forall g, same_tables g (fold_left (announceSession uuid_string env) l g).
Proof.
  induction l as [|s l IH]; intros g; [done|]. simpl.
  eapply same_tables_trans; [apply to_coord_tables|apply IH].
Qed.

Lemma route_tables env g f r : same_tables g (gatewayRouteFrame env (fun g => g) g f r).
Proof.
  destruct f as [| | |f|]; try done. simpl. destruct (admitClientFrame g f); [|done].
  assert (H : same_tables g (deliverClientFrame g f r)).
  { unfold deliverClientFrame. by destruct (Queued r), (_ || _). }
  unfold answerReceipt. destruct (_ && _); [|done]. destruct (replicationReceiptHost _ _ _ _ _); [|done].
  unfold to_host. by destruct (host_up env _ _).
Qed.

Lemma bind_keeps env g pend lf conn uid username token exp g' token' :
  bindAuth env g conn uid username token exp = Some (g', token') ->
  keeps (mkGwRun g pend lf) (mkGwRun g' (pend ++ [mkLogin conn uid username token']) lf).
Proof.
  unfold bindAuth. destruct (match authStates g !! conn with
            | Some p => as_authenticated p && negb (as_userID p =? uid) | None => false end) eqn:Eb; [done|].
  intros [= <- <-] [K1 K2 K3 K4]. simpl in *. set (a0 := mkAuth _ _ _ _ _ _).
  assert (Hprev : forall p, authStates g !! conn = Some p -> as_userID p = uid).
  { intros p Hp. rewrite Hp, (K2 _ _ Hp) in Eb. simpl in Eb. destruct (Z.eqb_spec (as_userID p) uid); [done|]. done. }
  assert (Hown : forall c u, owned_by g c u -> owned_by (upd_gw g (gsessions g) (<[conn:=a0]> (authStates g))) c u).
  { intros c u (a & Ea & <-). unfold owned_by. simpl. destruct (decide (conn = c)) as [<-|Hne].
    - rewrite lookup_insert_eq. exists a0. split; [done|]. by rewrite (Hprev a Ea).
    - rewrite lookup_insert_ne by done. eauto. }
  split; [split; simpl|].
  - exact K1.
  - intros c a [(<- & <-)|(_ & H)]%lookup_insert_Some; [done|by eapply K2].
  - intros c s Hs Hn. apply Hown. by apply K3.
  - intros l [Hl| ->%list_elem_of_singleton]%elem_of_app Hn; [apply Hown; by apply K4|].
    exists a0. simpl. by rewrite lookup_insert_eq.
  - intros c a a' Ha. simpl. intros [(<- & <-)|(_ & H)]%lookup_insert_Some; [by apply Hprev|congruence].
Qed.

Lemma insert_keeps g p1 p2 l lf s : ls_connID s = lg_conn l -> ls_userID s = lg_user l ->
  keeps (mkGwRun g (p1 ++ l :: p2) lf) (mkGwRun (upd_gw g (<[lg_conn l := s]> (gsessions g)) (authStates g)) (p1 ++ p2) lf).
Proof.
  intros Ec Eu [K1 K2 K3 K4]. split; [|by apply auth_kept_sub]. split; simpl in *.
  - intros c x [(<- & <-)|(_ & H)]%lookup_insert_Some; [done|by apply K1].
  - exact K2.
  - intros c x [(<- & <-)|(_ & H)]%lookup_insert_Some Hn; [|by apply K3]. rewrite Eu. apply (K4 l); [set_solver|done].
  - intros x Hx Hn. apply (K4 x); [set_solver|done].
Qed.

Lemma clear_keeps g pend lf conn : keeps (mkGwRun g pend lf) (mkGwRun (clearAuthState g conn) pend ({[conn]} ∪ lf)).
Proof.
  apply keeps_sub; simpl; [done|by intros c a [_ ?]%lookup_delete_Some| |set_solver|done].
  intros c a H Hn. rewrite lookup_delete_ne by set_solver. done.
Qed.

Lemma forget_keeps g pend lf conn : keeps (mkGwRun g pend lf) (mkGwRun (removeSession g conn) pend lf).
Proof. apply keeps_sub; simpl; [by intros c s [_ ?]%lookup_delete_Some|done..]. Qed.

Lemma keeps_fewer g p1 p2 l lf : keeps (mkGwRun g (p1 ++ l :: p2) lf) (mkGwRun g (p1 ++ p2) lf).
Proof. apply keeps_sub; [done..|set_solver]. Qed.

(** The composite operations are runs of their parts. *)
Lemma keeps_clear x g pend lf conn : keeps x (mkGwRun g pend lf) ->
  keeps x (mkGwRun (clearAuthState g conn) pend ({[conn]} ∪ lf)).
Proof. intros H. eapply keeps_trans; [exact H|apply clear_keeps|]. simpl. by intros c a [_ ?]%lookup_delete_Some. Qed.

Lemma keeps_forget x g pend lf conn : keeps x (mkGwRun g pend lf) -> keeps x (mkGwRun (removeSession g conn) pend lf).
Proof. intros H. eapply keeps_trans; [exact H|apply forget_keeps|done]. Qed.

Lemma assign_keeps env g p1 p2 l lf res :
  keeps (mkGwRun g (p1 ++ l :: p2) lf)
    (mkGwRun (dispatchPostAuthAssignment uuid_string env g (lg_conn l) (lg_user l) (lg_name l) (lg_token l) res)
       (p1 ++ p2) (if sr_Rejected res then {[lg_conn l]} ∪ lf else lf)).
Proof.
  unfold dispatchPostAuthAssignment. destruct (sr_Rejected res).
  { unfold kickConn. apply keeps_put, keeps_forget, keeps_clear, keeps_fewer. }
  match goal with |- context [if String.eqb ?c "" then g else _] => destruct (String.eqb c ""); [apply keeps_fewer|] end.
  match goal with |- context [if ?b then g else _] => destruct b; [apply keeps_fewer|] end.
  set (s := mkLocalSession _ _ _ _ _ _ _ _ _). set (g1 := upd_gw g _ _).
  assert (H1 : keeps (mkGwRun g (p1 ++ l :: p2) lf) (mkGwRun (announceSession uuid_string env g1 s) (p1 ++ p2) lf)).
  { eapply keeps_then; [apply to_coord_tables|]. by apply insert_keeps. }
  set (g2 := announceSession uuid_string env g1 s) in *. unfold dispatchPlayerAssignment, to_host.
  destruct (host_up env _ _); cbn [fst snd].
  - by do 2 apply keeps_put.
  - by apply keeps_forget.
Qed.

Lemma disconnect_keeps env g pend lf conn :
  keeps (mkGwRun g pend lf) (mkGwRun (handleDisconnect uuid_string env g conn) pend ({[conn]} ∪ lf)).
Proof.
  unfold handleDisconnect. set (g0 := clearAuthState (removeSession g conn) conn).
  assert (H0 : keeps (mkGwRun g pend lf) (mkGwRun g0 pend ({[conn]} ∪ lf))).
  { apply keeps_clear, forget_keeps. }
  destruct (gsessions g !! conn) as [s|]; [|done].
  eapply keeps_then; [|exact H0]. eapply same_tables_trans; [|apply to_coord_tables].
  eapply same_tables_trans; [|apply to_host_tables]. by split.
Qed.

Lemma switch_keeps g pend lf conn host cell e :
  keeps (mkGwRun g pend lf) (mkGwRun (OnUpstreamSwitch g conn host cell e) pend lf).
Proof.
  unfold OnUpstreamSwitch. destruct (gsessions g !! conn) as [s|] eqn:Es; [|by apply keeps_same].
  intros [K1 K2 K3 K4]. split; [|by apply auth_kept_sub]. split; simpl in *; [|done| |done].
  - intros k x' [(<- & <-)|(_ & H)]%lookup_insert_Some; [exact (K1 _ _ Es)|by apply K1].
  - intros k x' [(<- & <-)|(_ & H)]%lookup_insert_Some Hn; [exact (K3 _ _ Es Hn)|by apply K3].
Qed.

Lemma gstep_keeps x y : gstep x y -> keeps x y.
Proof.
  intros [env g pend lf conn uid username token exp| | | | | | | |g pend lf m|env g pend lf conn s events _| |].
  - destruct (bindAuth env g conn uid username token exp) as [[g' tok]|] eqn:E; [by eapply bind_keeps|by apply keeps_same].
  - apply assign_keeps.
  - by apply insert_keeps.
  - unfold onAuthLogout. apply keeps_put, clear_keeps.
  - apply clear_keeps.
  - apply forget_keeps.
  - apply disconnect_keeps.
  - by apply keeps_same.
  - destruct m; simpl; try (by apply keeps_same). apply switch_keeps.
  - apply keeps_same, forward_tables.
  - apply keeps_same, route_tables.
  - apply keeps_same, announce_tables.
Qed.

Definition fresh_run (id : string) (base : f32) : GwRun := mkGwRun (mkGateway id ∅ ∅ ∅ base [] ) [] ∅.

(** C29: one connection, one identity.  Logins - each two steps with anything between them,
    even the end of the connection -, logouts, disconnects, switches and frames run in any
    order.  Then the player of a connection that has not logged out, been kicked or
    disconnected is the user the connection is authenticated as.  And no operation ever
    turns an authenticated connection over to another user.  Nothing is said of a connection
    that has left: a login that was out when it left still enters a session for it
    ([late_login_leaves_ghost]). *)
Theorem one_connection_one_identity (id : string) (base : f32) (x y : GwRun) :
  rtc gstep (fresh_run id base) x -> gstep x y ->
  (forall conn s, gsessions (gr_gw x) !! conn = Some s -> conn ∉ left x ->
     exists a, authStates (gr_gw x) !! conn = Some a /\ as_authenticated a = true /\ as_userID a = ls_userID s) /\
  (forall conn a a', authStates (gr_gw x) !! conn = Some a -> authStates (gr_gw y) !! conn = Some a' ->
     as_userID a = as_userID a').
Proof.
  intros Hr Hs.
  assert (Hok : identity_ok x).
  { assert (H0 : identity_ok (fresh_run id base)).
    { split; simpl; intros *; rewrite ?lookup_empty; try done. by intros ?%elem_of_nil. }
    clear Hs. induction Hr as [|x1 x2 x3 Hs _ IH]; [done|]. apply IH. by apply (gstep_keeps x1 x2). }
  split; [|by apply (gstep_keeps _ _ Hs)].
  intros conn s H Hn. destruct (io_user _ Hok _ _ H Hn) as (a & Ea & E).
  exists a. split; [done|]. split; [by eapply io_auth|done].
Qed.
End IdentityMachine.

(** ** A small cluster *)

Definition up_env : GEnv := mkGEnv 0 true (fun _ _ => true) ["cell_0_0"; "cell_1_0"]%string [3].

(** Every frame to a host is refused: its stream is down. *)
Definition hosts_down : GEnv := mkGEnv 0 true (fun _ _ => false) ["cell_0_0"; "cell_1_0"]%string [3].

Definition uuid7 (uid : Z) : string := if uid =? 7 then "u-7" else if uid =? 8 then "u-8" else "".
Definition parse7 (s : string) : option Z :=
  if String.eqb s "u-7" then Some 7 else if String.eqb s "u-8" then Some 8 else None.

(** Gateway "g" knows that host "a" runs both cells. *)
Definition gw_new : Gateway :=
  mkGateway "g" ∅ ∅ (list_to_map [("cell_0_0", "a"); ("cell_1_0", "a")]%string) (f32_of_int 500) [].

Definition coord_gw : Coord := (handleGatewayRegister cfg0 cluster_env coord_cluster "g" "ws" "addr" 7).1.

(** The coordinator handles what the gateway sent it. *)
Definition absorb (c : Coord) (outs : list GatewayOut) : Coord :=
  fold_left (fun c o => match o with
                        | ToCoord m => handleGatewayMessage parse7 cluster_env c "g" m
                        | _ => c
                        end) outs c.

(** The answer of the coordinator to a spawn request: a place in cell (0, 0). *)
Definition resolution (c : Coord) (uid : Z) : spawnResolution :=
  let '(t, rejected) := applyResolveSpawnReconnect cluster_env c uid in
  mkResolution (mkLocation (f32_of_int 100) (f32_of_int 100))
    (match t with Some _ => true | None => false end)
    (match t with Some (h, _) => h | None => "" end)
    (match t with Some (_, cell) => cell | None => "" end) rejected.

Definition login (env : GEnv) (g : Gateway) (c : Coord) (conn uid : Z) (name token : string) : Gateway :=
  onAuthSuccess uuid7 env g conn uid name token 0 (fun _ => resolution c uid).

Definition sent_to_coord (l : list GatewayOut) : list HostMessage :=
  omap (fun o => match o with ToCoord m => Some m | _ => None end) l.

(** ** Witnesses *)

Definition frame_v : VirtualConnManager := NewVirtualConnManager (Some "b"%string).

Lemma migration_switches_traffic_witness :
  let g := login up_env gw_new coord_gw 3 7 "alice" "tok" in
  let c := absorb coord_gw (gout g) in
  exists p q m1 m2,
    outbox (notifyPlayerMigrated cfg0 cluster_env c "g" 3 "b" "cell_1_0") = outbox c ++ [OSend p m1; OSend q m2] /\
    switched (dispatchCoordMsg g m2) (onSessionRegister frame_v m1) "b" 3 2.
Proof.
  intros g c.
  destruct (gsessions g !! 3) as [s|] eqn:Es; [|vm_compute in Es; discriminate].
  destruct (routes c !! mkSessionKey "g" 3) as [r|] eqn:Er; [|vm_compute in Er; discriminate].
  assert (Ee : sr_Epoch r = 1) by (vm_compute in Er; injection Er as <-; reflexivity).
  pose proof (migration_switches_traffic cfg0 cluster_env c g frame_v 3 "b" "cell_1_0" r s) as H.
  rewrite Ee in H. apply H.
  - vm_compute. discriminate.
  - exists 2%nat. split; vm_compute; reflexivity.
  - exists 3%nat. split; vm_compute; reflexivity.
  - exact Er.
  - lia.
  - lia.
  - exact Es.
  - vm_compute. discriminate.
  - discriminate.
  - apply (vruns_ok (Some "b"%string) []), vruns_nil.
  - reflexivity.
  - vm_compute. reflexivity.
  - intros p x. vm_compute. discriminate.
Defined.

(** The player of connection 3 is in, and a login as somebody else is refused. *)
Lemma one_connection_one_identity_witness :
  let x := mkGwRun (login up_env gw_new coord_gw 3 7 "alice" "tok") [] ∅ in
  bindAuth up_env (gr_gw x) 3 8 "bob" "tok" 0 = None /\
  (exists s, gsessions (gr_gw x) !! 3 = Some s /\ ls_userID s = 7) /\
  forall conn s, gsessions (gr_gw x) !! conn = Some s -> conn ∉ left x ->
    exists a, authStates (gr_gw x) !! conn = Some a /\ as_authenticated a = true /\ as_userID a = ls_userID s.
Proof.
  intros x. split; [vm_compute; reflexivity|]. split; [eexists; split; vm_compute; reflexivity|].
  eapply (one_connection_one_identity uuid7 "g" (f32_of_int 500) x x).
  - eapply rtc_l; [apply (gs_control uuid7 _ _ _ (MsgPeerList (mkPeerList [] [("cell_0_0", "a"); ("cell_1_0", "a")]%string [] [] ∅)))|].
    eapply rtc_l; [apply (gs_login uuid7 up_env _ _ _ 3 7 "alice" "tok" 0)|].
    eapply rtc_l; [|apply rtc_refl].
    apply (gs_assign uuid7 up_env _ [] [] (mkLogin 3 7 "alice" "tok") ∅ (resolution coord_gw 7)).
  - apply (gs_login uuid7 up_env (gr_gw x) [] ∅ 3 8 "bob" "tok" 0).
Defined.

(** ** Runs in which the three disagree *)

(** A client that disconnects while its login waits for the spawn answer: the disconnect
    finds no session, the login then enters and announces one, and nothing ever takes it
    back.  The connection is not authenticated, the coordinator counts the user as playing
    and rejects the next login. *)
Theorem late_login_leaves_ghost :
  exists g1 tok, bindAuth up_env gw_new 3 7 "alice" "tok" 0 = Some (g1, tok) /\
  let g2 := handleDisconnect uuid7 up_env g1 3 in
  let g3 := dispatchPostAuthAssignment uuid7 up_env g2 3 7 "alice" tok (resolution coord_gw 7) in
  let c3 := absorb coord_gw (gout g3) in
  let g4 := login up_env g3 c3 4 7 "alice" "tok" in
  (exists s, lookupSession g3 3 = Some s /\ ls_userID s = 7) /\ isAuthenticated g3 3 = false /\
  IsUserSessionActive c3 7 = true /\ lookupSession g4 4 = None /\ RemoveConn 4 ∈ out_since g3 g4.
Proof.
  eexists _, _. split; [vm_compute; reflexivity|]. vm_compute. split; [by eexists|]. do 3 (split; [done|]).
  apply list_elem_of_here.
Qed.

(** The session is announced before the assignment is sent.  When the assignment
    fails, the gateway forgets the session and its later disconnect says nothing: the
    coordinator counts the user as playing and rejects every login. *)
Theorem failed_assignment_locks_user_out :
  let g1 := login hosts_down gw_new coord_gw 3 7 "alice" "tok" in
  let c1 := absorb coord_gw (gout g1) in
  let g2 := handleDisconnect uuid7 up_env g1 3 in
  let g3 := login up_env g2 c1 4 7 "alice" "tok" in
  lookupSession g1 3 = None /\ sent_to_coord (out_since g1 g2) = [] /\
  IsUserSessionActive c1 7 = true /\
  lookupSession g3 4 = None /\ RemoveConn 4 ∈ out_since g2 g3.
Proof.
  vm_compute. split; [done|]. split; [done|]. split; [done|]. split; [done|]. apply list_elem_of_here.
Qed.

(** A client that validates its token on a connection that already plays is taken for
    a duplicate of itself: the gateway drops the connection and its session, and since
    the session is gone before the disconnect, the coordinator is never told. *)
Theorem revalidation_kicks_itself :
  let g1 := login up_env gw_new coord_gw 3 7 "alice" "tok" in
  let c1 := absorb coord_gw (gout g1) in
  let g2 := login up_env g1 c1 3 7 "alice" "" in
  let g3 := handleDisconnect uuid7 up_env g2 3 in
  is_Some (lookupSession g1 3) /\ lookupSession g2 3 = None /\ RemoveConn 3 ∈ out_since g1 g2 /\
  sent_to_coord (out_since g2 g3) = [] /\ IsUserSessionActive (absorb c1 (out_since g1 g3)) 7 = true.
Proof.
  vm_compute. split; [by eexists|]. split; [done|]. split; [apply list_elem_of_here|]. done.
Qed.

(** Logging out and in as somebody else in one batch of operations: the first user's
    session is overwritten, and the disconnect reports the second only. *)
Theorem logout_login_leaves_first_user_online :
  let g1 := login up_env gw_new coord_gw 3 7 "alice" "tok" in
  let c1 := absorb coord_gw (gout g1) in
  let g2 := login up_env (onAuthLogout g1 3) c1 3 8 "bob" "tok2" in
  let g3 := handleDisconnect uuid7 up_env g2 3 in
  let c3 := absorb c1 (out_since g1 g3) in
  is_Some (lookupSession g2 3) /\ lookupSession g3 3 = None /\
  IsUserSessionActive c3 7 = true /\ IsUserSessionActive c3 8 = false.
Proof. vm_compute. split; [by eexists|]. done. Qed.

(** The host's view of a session it has hosted under epoch [e]. *)
Definition vcm_epoch (host : string) (e : Z) : VirtualConnManager :=
  (RegisterSession (NewVirtualConnManager (Some host)) (mkSessionKey "g" 3) "alice" e "cell_1_0").1.

(** A gateway whose control stream was interrupted announces its sessions again, and
    the announcement carries no epoch: the route starts over at 1.  The next move of
    a session that had reached epoch 3 hands out epoch 2 - the host keeps 3, the
    gateway takes 2, and everything the client sends from then on is dropped. *)
Theorem reannounce_mutes_client :
  let g1 := login up_env gw_new coord_gw 3 7 "alice" "tok" in
  let g2 := OnUpstreamSwitch g1 3 "b" "cell_1_0" 3 in
  let c2 := absorb (absorb coord_gw (gout g1)) (out_since g2 (reannounceSessions uuid7 up_env g2)) in
  let moved := notifyPlayerMigrated cfg0 cluster_env c2 "g" 3 "b" "cell_0_0" in
  drop (length (outbox c2)) (outbox moved)
    = [OSend 2 (MsgSessionRegister "g" 3 2 "cell_0_0"); OSend 3 (MsgUpstreamSwitch "g" 3 "b" "cell_0_0" 2)] /\
  let v := onSessionRegister (vcm_epoch "b" 3) (MsgSessionRegister "g" 3 2 "cell_0_0") in
  let g3 := dispatchCoordMsg g2 (MsgUpstreamSwitch "g" 3 "b" "cell_0_0" 2) in
  exists s, lookupSession g3 3 = Some s /\
    forall henv data, hostRouteFrame henv "b" v "g" "" (FrameClientInput "g" 3 (ls_epoch s) data 0) = (v, []).
Proof.
  cbv zeta. split; [vm_compute; reflexivity|]. eexists. split; [vm_compute; reflexivity|].
  intros henv data. reflexivity.
Qed.

(** A host is never told that a player has left it for another host, so it keeps the
    session with its epoch.  When the gateway restarts under its name and numbers its
    connections from the start again, a new player gets that session: the username of
    the old one, and an epoch above the gateway's, so that the new player's input is
    dropped. *)
Theorem stale_session_shadows_new_player :
  let v := vcm_epoch "a" 3 in
  let g := login up_env gw_new coord_gw 3 8 "bob" "tok" in
  exists a s, ToHost "a" (FramePlayerAssignment a) ∈ gout g /\ lookupSession g 3 = Some s /\
  let v' := (hostRouteFrame (mkHEnv (fun _ => true) (fun _ => true)) "a" v "g" "cell_0_0" (FramePlayerAssignment a)).1 in
  (exists p x, session_local v' 1 = Some (p, x) /\ vs_username x = "alice"%string /\ vs_epoch x = 3) /\
  forall henv data, hostRouteFrame henv "a" v' "g" "" (FrameClientInput "g" 3 (ls_epoch s) data 0) = (v', []).
Proof.
  cbv zeta. eexists _, _. split; [vm_compute; right; left|]. split; [vm_compute; reflexivity|].
  split; [eexists _, _; split; [vm_compute; reflexivity|by vm_compute]|]. intros henv data. reflexivity.
Qed.

(** The coordinator takes a new epoch under the table's lock but sends the switch
    after releasing it, and the gateway obeys the switch that arrives last: when two
    moves of one session are sent in the opposite order the gateway goes back to the
    host the player has left, under an epoch the new host rejects. *)
Theorem late_switch_wins :
  let g := login up_env gw_new coord_gw 3 7 "alice" "tok" in
  let g' := dispatchCoordMsg (dispatchCoordMsg g (MsgUpstreamSwitch "g" 3 "b" "cell_1_0" 3))
              (MsgUpstreamSwitch "g" 3 "a" "cell_0_0" 2) in
  exists s, lookupSession g' 3 = Some s /\ ls_hostID s = "a"%string /\ ls_epoch s = 2 /\
    forall henv data,
      hostRouteFrame henv "b" (vcm_epoch "b" 3) "g" "" (FrameClientInput "g" 3 (ls_epoch s) data 0) = (vcm_epoch "b" 3, []).
Proof.
  cbv zeta. eexists. split; [vm_compute; reflexivity|]. split; [reflexivity|]. split; [reflexivity|].
  intros henv data. reflexivity.
Qed.

(** The enums of a receipt are narrowed to a byte before they are checked, so a value
    out of range passes for one in range. *)
Theorem receipt_enum_truncated : receiptResult 257 258 = Some (mkSendResult SendQueued DeliveryReliableOrdered).
Proof. reflexivity. Qed.
