(* ===== verification/PlayerManager.v ===== *)
(** * Player sessions of a cell (pkg/engine/player_manager.go, player_session.go)

    A cell keeps its sessions in three maps that hold the same session objects, so the
    sessions live in a store and the maps hold pointers; a removed session stays in the
    store, where a caller that kept the pointer still sees it.  The lifecycle is a table
    of transitions.  Guards, actions and callbacks belong to the game and to the cell
    that registers them: they are named by numbers, and the class [Callbacks] says what
    running one does to the cell's world and to the manager. *)

From S2P Require Import Prelude.

(** ** Data *)

Definition StatePending : Z := 0.
Definition StateActive : Z := 1.
Definition StateTransferring : Z := 2.
Definition StateDisconnected : Z := 3.
Definition StateBuiltinEnd : Z := 4.

Record PlayerSession := mkSession {
  ID : Z;
  ConnID : Z;
  StreamGeneration : Z;
  ReplicationSuspended : bool;
  UserID : bytes;
  Username : string;
  State : Z;
  SEntity : option Z;
  PriorState : Z;
  DisconnectTime : Z;
  DebugFlags : Z;
  isTransfer : bool
}.

(** A callback is the name of a function of the game. *)
Record StateTransition := mkTransition { Guard : option Z; Action : option Z }.
Record StateCallbacks := mkCallbacks { OnEnter : option Z; OnExit : option Z }.

(** What the coordinator is told. *)
Inductive SessionEvent :=
| SessionActive (username : string)
| SessionDisconnected (username : string)
| SessionRemoved (username : string).

Record PlayerManager := mkPM {
  heap : gmap nat PlayerSession;
  nextPtr : nat;
  sessions : gmap Z nat;
  byConnID : gmap Z nat;
  byUsername : gmap string nat;
  states : gmap Z string;
  stateCallbacks : gmap Z StateCallbacks;
  transitions : gmap (Z * Z) StateTransition;
  gracePeriod : Z;
  nextSessionID : Z;
  nextState : Z;
  events : list SessionEvent
}.

Definition builtinStateNames : gmap Z string :=
  list_to_map [(StatePending, "pending"); (StateActive, "active");
               (StateTransferring, "transferring"); (StateDisconnected, "disconnected")]%string.

Definition defaultTransitions : gmap (Z * Z) StateTransition :=
  list_to_map ((fun k => (k, mkTransition None None)) <$>
    [(StatePending, StateActive); (StateActive, StateTransferring);
     (StateActive, StateDisconnected); (StateTransferring, StateDisconnected);
     (StateTransferring, StateActive); (StateDisconnected, StateActive)]).

Definition NewPlayerManager : PlayerManager :=
  mkPM ∅ 0 ∅ ∅ ∅ builtinStateNames ∅ defaultTransitions 0 0 StateBuiltinEnd [].

(** Functional updates. *)
Definition upd_maps (pm : PlayerManager) (s c : gmap Z nat) (u : gmap string nat) : PlayerManager :=
  mkPM (heap pm) (nextPtr pm) s c u (states pm) (stateCallbacks pm) (transitions pm)
    (gracePeriod pm) (nextSessionID pm) (nextState pm) (events pm).
Definition upd_sess (pm : PlayerManager) (p : nat) (f : PlayerSession -> PlayerSession) : PlayerManager :=
  mkPM (alter f p (heap pm)) (nextPtr pm) (sessions pm) (byConnID pm) (byUsername pm) (states pm)
    (stateCallbacks pm) (transitions pm) (gracePeriod pm) (nextSessionID pm) (nextState pm) (events pm).
Definition emit (pm : PlayerManager) (e : SessionEvent) : PlayerManager :=
  mkPM (heap pm) (nextPtr pm) (sessions pm) (byConnID pm) (byUsername pm) (states pm)
    (stateCallbacks pm) (transitions pm) (gracePeriod pm) (nextSessionID pm) (nextState pm)
    (events pm ++ [e]).
Definition upd_tables (pm : PlayerManager) (st : gmap Z string) (cb : gmap Z StateCallbacks)
  (tr : gmap (Z * Z) StateTransition) (grace next : Z) : PlayerManager :=
  mkPM (heap pm) (nextPtr pm) (sessions pm) (byConnID pm) (byUsername pm) st cb tr grace
    (nextSessionID pm) next (events pm).

Definition with_State (to : Z) (s : PlayerSession) : PlayerSession :=
  mkSession (ID s) (ConnID s) (StreamGeneration s) (ReplicationSuspended s) (UserID s) (Username s)
    to (SEntity s) (PriorState s) (DisconnectTime s) (DebugFlags s) (isTransfer s).
Definition with_ConnID (c : Z) (s : PlayerSession) : PlayerSession :=
  mkSession (ID s) c (StreamGeneration s) (ReplicationSuspended s) (UserID s) (Username s)
    (State s) (SEntity s) (PriorState s) (DisconnectTime s) (DebugFlags s) (isTransfer s).
Definition with_Username (u : string) (s : PlayerSession) : PlayerSession :=
  mkSession (ID s) (ConnID s) (StreamGeneration s) (ReplicationSuspended s) (UserID s) u
    (State s) (SEntity s) (PriorState s) (DisconnectTime s) (DebugFlags s) (isTransfer s).
Definition with_Entity (e : option Z) (s : PlayerSession) : PlayerSession :=
  mkSession (ID s) (ConnID s) (StreamGeneration s) (ReplicationSuspended s) (UserID s) (Username s)
    (State s) e (PriorState s) (DisconnectTime s) (DebugFlags s) (isTransfer s).
Definition with_isTransfer (b : bool) (s : PlayerSession) : PlayerSession :=
  mkSession (ID s) (ConnID s) (StreamGeneration s) (ReplicationSuspended s) (UserID s) (Username s)
    (State s) (SEntity s) (PriorState s) (DisconnectTime s) (DebugFlags s) b.
Definition with_disconnect (prior now : Z) (s : PlayerSession) : PlayerSession :=
  mkSession (ID s) (ConnID s) (StreamGeneration s) (ReplicationSuspended s) (UserID s) (Username s)
    (State s) (SEntity s) prior now (DebugFlags s) (isTransfer s).
Definition with_stream (g : Z) (suspended : bool) (s : PlayerSession) : PlayerSession :=
  mkSession (ID s) (ConnID s) g suspended (UserID s) (Username s)
    (State s) (SEntity s) (PriorState s) (DisconnectTime s) (DebugFlags s) (isTransfer s).
Definition with_UserID (u : bytes) (s : PlayerSession) : PlayerSession :=
  mkSession (ID s) (ConnID s) (StreamGeneration s) (ReplicationSuspended s) u (Username s)
    (State s) (SEntity s) (PriorState s) (DisconnectTime s) (DebugFlags s) (isTransfer s).
Definition with_DebugFlags (d : Z) (s : PlayerSession) : PlayerSession :=
  mkSession (ID s) (ConnID s) (StreamGeneration s) (ReplicationSuspended s) (UserID s) (Username s)
    (State s) (SEntity s) (PriorState s) (DisconnectTime s) d (isTransfer s).

Definition uuidNil : bytes := replicate 16 0.

(** ** The tables *)

Definition state_named (pm : PlayerManager) (name : string) : option Z :=
  fst <$> list_find (fun kv => kv.2 = name) (map_to_list (states pm)) ≫= fun r => Some r.2.

(** Two states never share a name (below), so the order in which the code ranges over
    the table does not matter. *)
Definition RegisterState (pm : PlayerManager) (name : string) : PlayerManager * Z :=
  match state_named pm name with
  | Some state => (pm, state)
  | None =>
      let state := nextState pm in
      (upd_tables pm (<[state := name]> (states pm)) (stateCallbacks pm) (transitions pm)
         (gracePeriod pm) (u8 (state + 1)), state)
  end.

(** [None] is the printed [unknown(state)]. *)
Definition StateName (pm : PlayerManager) (state : Z) : option string := states pm !! state.

Definition OnState (pm : PlayerManager) (state : Z) (cbs : StateCallbacks) : PlayerManager :=
  upd_tables pm (states pm) (<[state := cbs]> (stateCallbacks pm)) (transitions pm)
    (gracePeriod pm) (nextState pm).

Definition AddTransition (pm : PlayerManager) (from to : Z) (t : StateTransition) : PlayerManager :=
  upd_tables pm (states pm) (stateCallbacks pm) (<[(from, to) := t]> (transitions pm))
    (gracePeriod pm) (nextState pm).

Definition SetGracePeriod (pm : PlayerManager) (d : Z) : PlayerManager :=
  upd_tables pm (states pm) (stateCallbacks pm) (transitions pm) d (nextState pm).

(** ** Look-ups *)

Definition ByConnID (pm : PlayerManager) (connID : Z) : option nat := byConnID pm !! connID.
Definition ByUsername (pm : PlayerManager) (username : string) : option nat := byUsername pm !! username.
Definition BySessionID (pm : PlayerManager) (id : Z) : option nat := sessions pm !! id.

Definition InState (order : list Z) (pm : PlayerManager) (state : Z) : list nat :=
  omap (fun id => p ← sessions pm !! id; s ← heap pm !! p; if State s =? state then Some p else None) order.

Definition Count (order : list Z) (pm : PlayerManager) (state : Z) : nat := length (InState order pm state).

(** [ForEachConnected]: the sessions its callback gets, [order] the connections. *)
Definition Connected (order : list Z) (pm : PlayerManager) : list nat :=
  omap (fun c => p ← byConnID pm !! c; s ← heap pm !! p;
                 if State s =? StatePending then None else Some p) order.

Definition ConnectedCount (pm : PlayerManager) : nat := size (byConnID pm).

Definition AllSessions (order : list Z) (pm : PlayerManager) : list nat :=
  omap (fun id => sessions pm !! id) order.

(** ** Creating and removing *)

Definition createSession (pm : PlayerManager) (connID : Z) : PlayerManager * nat :=
  let id := u64 (nextSessionID pm + 1) in
  let p := nextPtr pm in
  let s := mkSession id connID 1 false uuidNil "" StatePending None StatePending 0 0 false in
  (mkPM (<[p := s]> (heap pm)) (S p) (<[id := p]> (sessions pm))
     (if connID =? 0 then byConnID pm else <[connID := p]> (byConnID pm))
     (byUsername pm) (states pm) (stateCallbacks pm) (transitions pm) (gracePeriod pm) id
     (nextState pm) (events pm), p).

(** [RemoveTransferred]: the three deletions, without any callback. *)
Definition RemoveTransferred (pm : PlayerManager) (p : nat) : PlayerManager :=
  match heap pm !! p with
  | None => pm
  | Some s =>
      upd_maps pm (delete (ID s) (sessions pm))
        (if ConnID s =? 0 then byConnID pm else delete (ConnID s) (byConnID pm))
        (if String.eqb (Username s) "" then byUsername pm else delete (Username s) (byUsername pm))
  end.

(** The session of [connID], created if there is none. *)
Definition sessionFor (pm : PlayerManager) (connID : Z) : PlayerManager * nat :=
  match byConnID pm !! connID with Some p => (pm, p) | None => createSession pm connID end.

Definition name_session (pm : PlayerManager) (p : nat) (username : string) : PlayerManager :=
  let pm := upd_sess pm p (with_Username username) in
  upd_maps pm (sessions pm) (byConnID pm) (<[username := p]> (byUsername pm)).

Definition RegisterSessionTransfer (pm : PlayerManager) (connID : Z) (username stateName : string)
  : PlayerManager :=
  let '(pm, p) := sessionFor pm connID in
  let pm := name_session pm p username in
  let state := default StateActive (state_named pm stateName) in
  let pm := upd_sess pm p (with_State state) in
  if String.eqb username "" then pm else emit pm (SessionActive username).

Definition RegisterTransferSession (pm : PlayerManager) (connID : Z) (username : string) : PlayerManager :=
  let '(pm, p) := sessionFor pm connID in
  name_session (upd_sess pm p (with_isTransfer true)) p username.

Definition RegisterPlayer (pm : PlayerManager) (connID : Z) (username : string) : PlayerManager :=
  let '(pm, p) := sessionFor pm connID in name_session pm p username.

(** ** The lifecycle *)

(** What running a registered function does to the cell's world and to the manager. *)
Class Callbacks (W : Type) := {
  run_guard : Z -> W -> PlayerManager -> nat -> bool;
  run_action : Z -> W -> PlayerManager -> nat -> W * PlayerManager
}.

Inductive TransitionError := ErrInvalidTransition | ErrTransitionGuardFailed | ErrSessionNil.

Section Lifecycle.
Context {W : Type} `{!Callbacks W}.

Definition run_opt (f : option Z) (w : W) (pm : PlayerManager) (p : nat) : W * PlayerManager :=
  match f with Some a => run_action a w pm p | None => (w, pm) end.

Definition run_exit (w : W) (pm : PlayerManager) (p : nat) : W * PlayerManager :=
  match heap pm !! p with
  | Some s => run_opt (stateCallbacks pm !! State s ≫= OnExit) w pm p
  | None => (w, pm)
  end.

Definition notify (pm : PlayerManager) (p : nat) (to : Z) : PlayerManager :=
  match heap pm !! p with
  | Some s =>
      if String.eqb (Username s) "" then pm
      else if to =? StateActive then emit pm (SessionActive (Username s))
      else if to =? StateDisconnected then emit pm (SessionDisconnected (Username s))
      else pm
  | None => pm
  end.

(** Guard, action, exit, state, enter. *)
Definition Transition (w : W) (pm : PlayerManager) (p : nat) (to : Z)
  : W * PlayerManager * option TransitionError :=
  match heap pm !! p with
  | None => (w, pm, Some ErrSessionNil)
  | Some s =>
      match transitions pm !! (State s, to) with
      | None => (w, pm, Some ErrInvalidTransition)
      | Some t =>
          if match Guard t with Some g => negb (run_guard g w pm p) | None => false end
          then (w, pm, Some ErrTransitionGuardFailed)
          else
            let '(w, pm) := run_opt (Action t) w pm p in
            let '(w, pm) := run_exit w pm p in
            let pm := upd_sess pm p (with_State to) in
            let '(w, pm) := run_opt (stateCallbacks pm !! to ≫= OnEnter) w pm p in
            (w, notify pm p to, None)
      end
  end.

Definition Remove (w : W) (pm : PlayerManager) (p : nat) : W * PlayerManager :=
  let '(w, pm) := run_exit w pm p in
  let pm := match heap pm !! p with
            | Some s => if String.eqb (Username s) "" then pm else emit pm (SessionRemoved (Username s))
            | None => pm
            end in
  (w, RemoveTransferred pm p).

(** The caller has set the new connection. *)
Definition ReconnectSession (w : W) (pm : PlayerManager) (p : nat) : W * PlayerManager :=
  match heap pm !! p with
  | None => (w, pm)
  | Some s =>
      let pm := upd_maps pm (sessions pm) (<[ConnID s := p]> (byConnID pm)) (byUsername pm) in
      match Transition w pm p (PriorState s) with
      | (w, pm, None) => (w, pm)
      | (w, pm, Some _) => Remove w pm p
      end
  end.

Definition onConnect (pm : PlayerManager) (connID : Z) : PlayerManager := (createSession pm connID).1.

Definition onDisconnect (now : Z) (w : W) (pm : PlayerManager) (connID : Z) : W * PlayerManager :=
  match byConnID pm !! connID with
  | None => (w, pm)
  | Some p =>
      match heap pm !! p with
      | None => (w, pm)
      | Some s =>
          if State s =? StatePending then Remove w pm p
          else
            let pm := upd_sess pm p (with_disconnect (State s) now) in
            match Transition w pm p StateDisconnected with
            | (w, pm, Some _) => Remove w pm p
            | (w, pm, None) =>
                if 0 <? gracePeriod pm
                then let pm := upd_sess pm p (with_ConnID 0) in
                     (w, upd_maps pm (sessions pm) (delete connID (byConnID pm)) (byUsername pm))
                else Remove w pm p
            end
      end
  end.

Definition expired (now : Z) (pm : PlayerManager) (p : nat) : bool :=
  match heap pm !! p with
  | Some s => (State s =? StateDisconnected) && (gracePeriod pm <? now - DisconnectTime s)
  | None => false
  end.

Definition expireGracePeriods (order : list Z) (now : Z) (w : W) (pm : PlayerManager) : W * PlayerManager :=
  if gracePeriod pm <=? 0 then (w, pm)
  else fold_left (fun acc p => Remove acc.1 acc.2 p)
         (filter (fun p => expired now pm p = true) (AllSessions order pm)) (w, pm).

(** [alive] is the ECS's answer for an entity handle. *)
Definition processPending (alive : W -> Z -> bool) (acc : W * PlayerManager) (p : nat) : W * PlayerManager :=
  let '(w, pm) := acc in
  match heap pm !! p with
  | None => (w, pm)
  | Some s =>
      if negb (bool_decide (is_Some (sessions pm !! ID s))) then (w, pm)
      else if isTransfer s then
        match SEntity s with
        | Some e =>
            if alive w e then
              let pm := upd_sess (upd_sess pm p (with_isTransfer false)) p (with_State StateActive) in
              (w, if String.eqb (Username s) "" then pm else emit pm (SessionActive (Username s)))
            else (w, pm)
        | None => (w, pm)
        end
      else if String.eqb (Username s) "" then (w, pm)
      else
        let pm := upd_maps pm (sessions pm) (byConnID pm) (<[Username s := p]> (byUsername pm)) in
        match Transition w pm p StateActive with
        | (w, pm, None) => (w, pm)
        | (w, pm, Some _) => Remove w pm p
        end
  end.

Definition processPendingSessions (alive : W -> Z -> bool) (order : list Z) (w : W) (pm : PlayerManager)
  : W * PlayerManager :=
  fold_left (processPending alive) (InState order pm StatePending) (w, pm).

End Lifecycle.

(** ** What callbacks may do

    The framework's own callbacks set fields of the session they are given (its entity,
    its debug flags); they leave the maps, the tables and every session's identity,
    connection, name and state alone. *)

Record same_core (s s' : PlayerSession) : Prop := mkSameCore {
  sc_ID : ID s' = ID s;
  sc_ConnID : ConnID s' = ConnID s;
  sc_Username : Username s' = Username s;
  sc_State : State s' = State s;
  sc_Prior : PriorState s' = PriorState s
}.

Record frame (pm pm' : PlayerManager) : Prop := mkFrame {
  fr_sessions : sessions pm' = sessions pm;
  fr_conn : byConnID pm' = byConnID pm;
  fr_user : byUsername pm' = byUsername pm;
  fr_ptr : nextPtr pm' = nextPtr pm;
  fr_id : nextSessionID pm' = nextSessionID pm;
  fr_grace : gracePeriod pm' = gracePeriod pm;
  fr_trans : transitions pm' = transitions pm;
  fr_states : states pm' = states pm;
  fr_heap : forall p, option_Forall2 same_core (heap pm !! p) (heap pm' !! p)
}.

Class LawfulCallbacks (W : Type) `{!Callbacks W} :=
  run_action_frame a w pm p : frame pm (run_action a w pm p).2.

#[export] Instance same_core_refl : Reflexive same_core.
Proof. by intros s. Qed.
#[export] Instance same_core_trans : Transitive same_core.
Proof. intros a b c [] []. split; congruence. Qed.

#[export] Instance frame_refl : Reflexive frame.
Proof. by split. Qed.
#[export] Instance frame_trans : Transitive frame.
Proof.
  intros a b c [? ? ? ? ? ? ? ? H1] [? ? ? ? ? ? ? ? H2]. split; try congruence.
  intros p. specialize (H1 p). specialize (H2 p).
  destruct H1; inversion_clear H2; constructor; by etrans.
Qed.

(** ** The invariant *)

(** What every moment satisfies; [D] are the names a connection has dropped by registering
    under another. *)
Record pm_core (D : gset string) (pm : PlayerManager) : Prop := mkPmCore {
  po_sess : forall id p, sessions pm !! id = Some p -> id <= nextSessionID pm /\
    exists s, heap pm !! p = Some s /\ ID s = id;
  po_conn : forall c p, byConnID pm !! c = Some p -> c <> 0 /\
    exists s, heap pm !! p = Some s /\ ConnID s = c /\ sessions pm !! ID s = Some p;
  po_user : forall u p, byUsername pm !! u = Some p -> u ∉ D -> u <> ""%string ->
    exists s, heap pm !! p = Some s /\ Username s = u /\ sessions pm !! ID s = Some p;
  po_next : forall p s, heap pm !! p = Some s -> (p < nextPtr pm)%nat;
  po_ids : 0 <= nextSessionID pm
}.

Arguments po_sess {_} _ _ _ _ _.
Arguments po_conn {_} _ _ _ _ _.
Arguments po_user {_} _ _ _ _ _ _ _.
Arguments po_next {_} _ _ _ _ _.
Arguments po_ids {_} _ _.

(** A session in its grace period has no connection, save possibly [except]. *)
Definition grace_ok (except : option nat) (pm : PlayerManager) : Prop :=
  forall id p s, sessions pm !! id = Some p -> Some p <> except -> heap pm !! p = Some s ->
    State s = StateDisconnected -> ConnID s = 0 /\ PriorState s <> StateDisconnected.

Definition pm_ok (D : gset string) (pm : PlayerManager) : Prop := pm_core D pm /\ grace_ok None pm.

Section Invariant.
Context {D : gset string}.

Lemma frame_lookup pm pm' p s' :
  frame pm pm' -> heap pm' !! p = Some s' -> exists s, heap pm !! p = Some s /\ same_core s s'.
Proof. intros F Hp. pose proof (fr_heap _ _ F p) as H. rewrite Hp in H. inversion H; subst; eauto. Qed.

Lemma frame_lookup_r pm pm' p s :
  frame pm pm' -> heap pm !! p = Some s -> exists s', heap pm' !! p = Some s' /\ same_core s s'.
Proof. intros F Hp. pose proof (fr_heap _ _ F p) as H. rewrite Hp in H. inversion H; subst; eauto. Qed.

Lemma pm_core_frame pm pm' : frame pm pm' -> pm_core D pm -> pm_core D pm'.
Proof.
  intros F [Hs Hc Hu Hn Hi0]. split.
  - intros id p H. rewrite (fr_sessions _ _ F) in H. destruct (Hs _ _ H) as [Hid [s [Hp Hi]]].
    rewrite (fr_id _ _ F). split; [done|].
    destruct (frame_lookup_r _ _ _ _ F Hp) as [s' [? []]]. exists s'. split; congruence.
  - intros c p H. rewrite (fr_conn _ _ F) in H. destruct (Hc _ _ H) as [Hz [s [Hp [Hi Hss]]]].
    split; [done|]. destruct (frame_lookup_r _ _ _ _ F Hp) as [s' [? []]]. exists s'.
    rewrite (fr_sessions _ _ F). repeat split; congruence.
  - intros u p H HD Hz. rewrite (fr_user _ _ F) in H. destruct (Hu _ _ H HD Hz) as [s [Hp [Hi Hss]]].
    destruct (frame_lookup_r _ _ _ _ F Hp) as [s' [? []]]. exists s'.
    rewrite (fr_sessions _ _ F). repeat split; congruence.
  - intros p s H. rewrite (fr_ptr _ _ F). destruct (frame_lookup _ _ _ _ F H) as [? [? _]]. eauto.
  - by rewrite (fr_id _ _ F).
Qed.

Lemma grace_ok_frame x pm pm' : frame pm pm' -> grace_ok x pm -> grace_ok x pm'.
Proof.
  intros F G id p s' Hs Hx Hp Hst. rewrite (fr_sessions _ _ F) in Hs.
  destruct (frame_lookup _ _ _ _ F Hp) as [s [Hq []]].
  destruct (G id p s) as [? ?]; eauto; [congruence|]. split; congruence.
Qed.

(** Changing fields of one session outside its identity. *)
Lemma upd_sess_lookup pm p f q : heap (upd_sess pm p f) !! q =
  if decide (q = p) then f <$> heap pm !! q else heap pm !! q.
Proof.
  simpl. case_decide; [subst; by rewrite lookup_alter_eq|by rewrite lookup_alter_ne by congruence].
Qed.

Definition keeps_core (f : PlayerSession -> PlayerSession) : Prop := forall s, same_core s (f s).

Lemma upd_sess_frame pm p f : keeps_core f -> frame pm (upd_sess pm p f).
Proof.
  intros Hf. split; try done. intros q. rewrite upd_sess_lookup.
  case_decide; destruct (heap pm !! q); simpl; constructor; (apply Hf || done).
Qed.

Lemma emit_frame pm e : frame pm (emit pm e).
Proof. by split. Qed.

Lemma pm_core_State pm p st : pm_core D pm -> pm_core D (upd_sess pm p (with_State st)).
Proof.
  intros [Hs Hc Hu Hn Hi0]. split.
  - intros id q H. destruct (Hs _ _ H) as [Hid [s [Hq Hi]]]. split; [done|].
    rewrite upd_sess_lookup. case_decide; rewrite Hq; simpl; eauto.
  - intros c q H. destruct (Hc _ _ H) as [Hz [s [Hq [Hi Hss]]]]. split; [done|].
    rewrite upd_sess_lookup. case_decide; rewrite Hq; simpl; eauto.
  - intros u q H HD Hz. destruct (Hu _ _ H HD Hz) as [s [Hq [Hi Hss]]].
    rewrite upd_sess_lookup. case_decide; rewrite Hq; simpl; eauto.
  - intros q s. rewrite upd_sess_lookup. case_decide; [|apply Hn].
    intros [s0 [? ?]]%fmap_Some. eauto.
  - done.
Qed.

Lemma grace_ok_State pm p st :
  grace_ok (Some p) pm -> st <> StateDisconnected -> grace_ok None (upd_sess pm p (with_State st)).
Proof.
  intros G Hst id q s Hq _. rewrite upd_sess_lookup. case_decide as Hd.
  - intros [s0 [? ->]]%fmap_Some. simpl. congruence.
  - intros Hp. eapply G; eauto. congruence.
Qed.

Lemma grace_ok_weaken x pm : grace_ok None pm -> grace_ok x pm.
Proof. intros G id p s ? _. by eapply G. Qed.

(** ** Removing *)

Lemma RemoveTransferred_heap pm p : heap (RemoveTransferred pm p) = heap pm.
Proof. unfold RemoveTransferred. by destruct (heap pm !! p). Qed.

Lemma RemoveTransferred_sessions pm p s id q :
  heap pm !! p = Some s ->
  sessions (RemoveTransferred pm p) !! id = Some q <-> id <> ID s /\ sessions pm !! id = Some q.
Proof. unfold RemoveTransferred. intros ->. simpl. rewrite lookup_delete_Some. naive_solver. Qed.

Lemma pm_core_RemoveTransferred pm p s :
  pm_core D pm -> heap pm !! p = Some s -> sessions pm !! ID s = Some p -> pm_core D (RemoveTransferred pm p).
Proof.
  intros [Hs Hc Hu Hn Hi0] Hp Hreg. split.
  - intros id q [? Hq]%(RemoveTransferred_sessions _ _ _ _ _ Hp).
    unfold RemoveTransferred. rewrite Hp. simpl. by apply Hs.
  - intros c q. rewrite RemoveTransferred_heap. intros H.
    assert (byConnID pm !! c = Some q /\ (c = ConnID s -> ConnID s = 0)) as [Hb Hne].
    { unfold RemoveTransferred in H. rewrite Hp in H. simpl in H.
      destruct (Z.eqb_spec (ConnID s) 0); [done|]. apply lookup_delete_Some in H. naive_solver. }
    destruct (Hc _ _ Hb) as [Hz [t [Hq [Hi Hss]]]]. split; [done|]. exists t. do 2 (split; [done|]).
    apply (RemoveTransferred_sessions _ _ _ _ _ Hp). split; [|done].
    intros E. rewrite E, Hreg in Hss. simplify_eq. naive_solver.
  - intros u q. rewrite RemoveTransferred_heap. intros H HD Hz.
    assert (byUsername pm !! u = Some q /\ (u = Username s -> Username s = ""%string)) as [Hb Hne].
    { unfold RemoveTransferred in H. rewrite Hp in H. simpl in H.
      destruct (String.eqb_spec (Username s) ""); [done|]. apply lookup_delete_Some in H. naive_solver. }
    destruct (Hu _ _ Hb HD Hz) as [t [Hq [Hi Hss]]]. exists t. do 2 (split; [done|]).
    apply (RemoveTransferred_sessions _ _ _ _ _ Hp). split; [|done].
    intros E. rewrite E, Hreg in Hss. simplify_eq. naive_solver.
  - intros q t. rewrite RemoveTransferred_heap. unfold RemoveTransferred. rewrite Hp. simpl. apply Hn.
  - unfold RemoveTransferred. by rewrite Hp.
Qed.

Lemma grace_ok_RemoveTransferred pm p s :
  heap pm !! p = Some s -> pm_core D pm -> sessions pm !! ID s = Some p ->
  grace_ok (Some p) pm -> grace_ok None (RemoveTransferred pm p).
Proof.
  intros Hp C Hreg G id q t Hq _ Hh. rewrite RemoveTransferred_heap in Hh.
  apply (RemoveTransferred_sessions _ _ _ _ _ Hp) in Hq as [Hne Hq].
  apply (G id q); [done| |done]. intros [= ->].
  destruct (po_sess _ C _ _ Hq) as [_ [? [? ?]]]. simplify_eq.
Qed.

(** A session the maps hold. *)
Definition registered (pm : PlayerManager) (p : nat) (s : PlayerSession) : Prop :=
  heap pm !! p = Some s /\ sessions pm !! ID s = Some p.

Lemma registered_frame pm pm' p s :
  frame pm pm' -> registered pm p s -> exists s', registered pm' p s' /\ same_core s s'.
Proof.
  intros F [Hp Hs]. destruct (frame_lookup_r _ _ _ _ F Hp) as [s' [Hp' Hc]].
  exists s'. split; [split; [done|]|done]. by rewrite (fr_sessions _ _ F), (sc_ID _ _ Hc).
Qed.

Lemma conn_registered pm c p : pm_core D pm -> byConnID pm !! c = Some p ->
  exists s, registered pm p s /\ ConnID s = c /\ c <> 0.
Proof. intros C H. destruct (po_conn _ C _ _ H) as [? [s [? [? ?]]]]. by exists s. Qed.

(** ** Creating *)

Lemma createSession_ok pm c pm' p :
  pm_ok D pm -> nextSessionID pm < 2 ^ 64 - 1 -> createSession pm c = (pm', p) ->
  pm_ok D pm' /\ exists s, registered pm' p s /\ Username s = ""%string /\ State s = StatePending.
Proof.
  intros [C G] Hroom [= <- <-]. destruct C as [Hs Hc Hu Hn Hi0].
  assert (u64 (nextSessionID pm + 1) = nextSessionID pm + 1) as Eid by (apply u64_id; unfold_int; lia).
  rewrite Eid.
  assert (forall id q, sessions pm !! id = Some q -> id <> nextSessionID pm + 1 /\ q <> nextPtr pm) as Hold.
  { intros id q Hq. destruct (Hs _ _ Hq) as [? [s [Hh _]]]. apply Hn in Hh. lia. }
  assert (forall q t, heap pm !! q = Some t -> q <> nextPtr pm) as Hptr.
  { intros q t Hh. apply Hn in Hh. lia. }
  split; [split; [split|]|]; simpl.
  - intros id q [[<- <-]|[Hne Hq]]%lookup_insert_Some; [split; [lia|]; rewrite lookup_insert_eq; eauto|].
    destruct (Hs _ _ Hq) as [? [s [Hh ?]]]. split; [lia|]. exists s.
    rewrite lookup_insert_ne by naive_solver. eauto.
  - intros d q Hd.
    assert ((d = c /\ c <> 0 /\ q = nextPtr pm) \/ byConnID pm !! d = Some q) as [[-> [Hz ->]]|Hq].
    { destruct (Z.eqb_spec c 0); [by right|]. apply lookup_insert_Some in Hd. naive_solver. }
    + split; [done|]. rewrite !lookup_insert_eq. eexists. split; [done|]. by rewrite lookup_insert_eq.
    + destruct (Hc _ _ Hq) as [? [s [Hh [? Hss]]]]. split; [done|]. exists s.
      destruct (Hold _ _ Hss) as [? ?]. by rewrite !lookup_insert_ne by congruence.
  - intros u q Hq HD Hz. destruct (Hu _ _ Hq HD Hz) as [s [Hh [? Hss]]]. exists s.
    destruct (Hold _ _ Hss) as [? ?]. by rewrite !lookup_insert_ne by congruence.
  - intros q s [[<- <-]|[_ Hh]]%lookup_insert_Some; [lia|]. apply Hn in Hh. lia.
  - lia.
  - intros id q s Hq _ Hh. simpl in Hq, Hh.
    apply lookup_insert_Some in Hh as [[<- <-]|[Hne Hh]]; [done|].
    apply lookup_insert_Some in Hq as [[<- <-]|[_ Hq]]; [done|]. eapply G; eauto.
  - exists (mkSession (nextSessionID pm + 1) c 1 false uuidNil "" StatePending None StatePending 0 0 false).
    split; [|done]. split; simpl; [by rewrite lookup_insert_eq|by rewrite lookup_insert_eq].
Qed.

Lemma sessionFor_ok pm c pm' p :
  pm_ok D pm -> nextSessionID pm < 2 ^ 64 - 1 -> sessionFor pm c = (pm', p) ->
  pm_ok D pm' /\ exists s, registered pm' p s /\
    (Username s = ""%string \/ byConnID pm !! c = Some p /\ heap pm !! p = Some s).
Proof.
  unfold sessionFor. intros [C G] Hroom. destruct (byConnID pm !! c) as [q|] eqn:E.
  - intros [= <- <-]. split; [by split|].
    destruct (conn_registered _ _ _ C E) as [s [[? ?] ?]]. exists s. split; [by split|]. by right.
  - intros H. destruct (createSession_ok _ _ _ _ (conj C G) Hroom H) as [? [s [? [? ?]]]].
    split; [done|]. exists s. split; [done|]. by left.
Qed.

(** Naming: the name is the session's from now on, the one it had before is dropped. *)
Definition renamed (E : gset string) (s : PlayerSession) (u : string) : gset string :=
  (if String.eqb (Username s) u || String.eqb (Username s) "" then E else {[Username s]} ∪ E) ∖ {[u]}.

Lemma name_session_ok pm p s u :
  pm_ok D pm -> registered pm p s ->
  pm_ok (renamed D s u) (name_session pm p u) /\ registered (name_session pm p u) p (with_Username u s).
Proof.
  intros [[Hs Hc Hu Hn Hi0] G] [Hp Hreg].
  assert (forall q t, heap pm !! q = Some t -> exists t', heap (name_session pm p u) !! q = Some t' /\
    ID t' = ID t /\ ConnID t' = ConnID t /\ State t' = State t /\ PriorState t' = PriorState t /\
    (q <> p -> t' = t)) as Hh.
  { intros q t Hq. unfold name_session. change (heap (upd_maps ?x _ _ _)) with (heap x).
    rewrite upd_sess_lookup. case_decide as Hd; rewrite Hq; simpl; eexists; split; try done. }
  assert (heap (name_session pm p u) !! p = Some (with_Username u s)) as Hpn.
  { unfold name_session. change (heap (upd_maps ?x _ _ _)) with (heap x).
    rewrite upd_sess_lookup, decide_True by done. by rewrite Hp. }
  split; [split; [split|]|].
  - intros id q Hq. destruct (Hs _ _ Hq) as [? [t [Ht ?]]]. split; [done|].
    destruct (Hh _ _ Ht) as [t' [? [? ?]]]. exists t'. split; congruence.
  - intros c q Hq. destruct (Hc _ _ Hq) as [? [t [Ht [? ?]]]]. split; [done|].
    destruct (Hh _ _ Ht) as [t' [? [Eid [? ?]]]]. exists t'. rewrite Eid. repeat split; try done; congruence.
  - intros v q Hq HD Hz. change (<[u := p]> (byUsername pm) !! v = Some q) in Hq.
    apply lookup_insert_Some in Hq as [[<- <-]|[Hv Hq]].
    { exists (with_Username u s). by split. }
    assert (v ∉ D /\ (v = Username s -> Username s = u)) as [HvD Hvs].
    { unfold renamed in HD. destruct (String.eqb_spec (Username s) u); [set_solver|].
      destruct (String.eqb_spec (Username s) ""); [split; [set_solver|congruence]|set_solver]. }
    destruct (Hu _ _ Hq HvD Hz) as [t [Ht [Hn' Hss]]].
    destruct (decide (q = p)) as [->|Hqp]; [simplify_eq; naive_solver|].
    destruct (Hh _ _ Ht) as [t' [Ht' [? [? [? [? Heq]]]]]]. rewrite (Heq Hqp) in Ht'. eauto.
  - intros q t Ht. unfold name_session in Ht. change (heap (upd_maps ?x _ _ _)) with (heap x) in Ht.
    rewrite upd_sess_lookup in Ht. simpl. case_decide; [|by apply (Hn q t)].
    apply fmap_Some in Ht as [? [? _]]. eauto.
  - done.
  - intros id q t Hq _ Ht. simpl in Hq.
    destruct (heap pm !! q) as [t0|] eqn:E0.
    + destruct (Hh _ _ E0) as [t' [Ht' [? [? [? [? _]]]]]]. simplify_eq. intros.
      destruct (G id q t0) as [? ?]; [done|done|done|congruence|]. split; congruence.
    + unfold name_session in Ht. change (heap (upd_maps ?x _ _ _)) with (heap x) in Ht.
      rewrite upd_sess_lookup, E0 in Ht. by case_decide.
  - by split.
Qed.

End Invariant.

(** ** The lifecycle keeps the invariant *)

Section LifecycleInv.
Context {D : gset string} {W : Type} `{!Callbacks W} `{!LawfulCallbacks W}.

Lemma run_opt_frame f (w : W) pm p : frame pm (run_opt f w pm p).2.
Proof. destruct f; simpl; [apply run_action_frame|done]. Qed.

Lemma run_exit_frame (w : W) pm p : frame pm (run_exit w pm p).2.
Proof. unfold run_exit. destruct (heap pm !! p); [apply run_opt_frame|done]. Qed.

Lemma notify_frame pm p to : frame pm (notify pm p to).
Proof.
  unfold notify. destruct (heap pm !! p) as [s|]; [|done].
  repeat case_match; done || apply emit_frame.
Qed.

(** A refused transition changes nothing; a successful one sets the state, between two
    stretches of callbacks. *)
Lemma Transition_cases (w : W) pm p to :
  match Transition w pm p to with
  | (_, pm', Some _) => pm' = pm
  | (_, pm', None) => exists pm1, frame pm pm1 /\ frame (upd_sess pm1 p (with_State to)) pm'
  end.
Proof.
  unfold Transition. destruct (heap pm !! p) as [s|]; [|done].
  destruct (transitions pm !! _) as [t|]; [|done].
  destruct (match Guard t with Some g => negb (run_guard g w pm p) | None => false end); [done|].
  destruct (run_opt (Action t) w pm p) as [w1 pm1] eqn:E1.
  destruct (run_exit w1 pm1 p) as [w2 pm2] eqn:E2.
  destruct (run_opt _ w2 (upd_sess pm2 p (with_State to)) p) as [w3 pm3] eqn:E3.
  exists pm2. split.
  - pose proof (run_opt_frame (Action t) w pm p) as F1. rewrite E1 in F1.
    pose proof (run_exit_frame w1 pm1 p) as F2. rewrite E2 in F2. by etrans.
  - etrans; [|apply notify_frame]. pose proof (run_opt_frame (stateCallbacks (upd_sess pm2 p (with_State to)) !! to ≫= OnEnter)
      w2 (upd_sess pm2 p (with_State to)) p) as F3. by rewrite E3 in F3.
Qed.

Lemma Transition_core (w w' : W) pm pm' p to err :
  pm_core D pm -> Transition w pm p to = (w', pm', err) -> pm_core D pm'.
Proof.
  intros C H. pose proof (Transition_cases w pm p to) as T. rewrite H in T.
  destruct err; [by subst|]. destruct T as [pm1 [F1 F2]].
  eapply pm_core_frame; [done|]. apply pm_core_State. by eapply pm_core_frame.
Qed.

Lemma Transition_registered (w w' : W) pm pm' p q s to err :
  registered pm q s -> Transition w pm p to = (w', pm', err) ->
  exists s', registered pm' q s' /\ ID s' = ID s /\ ConnID s' = ConnID s /\ Username s' = Username s /\
    PriorState s' = PriorState s /\
    State s' = match err with None => if decide (q = p) then to else State s | Some _ => State s end.
Proof.
  intros R H. pose proof (Transition_cases w pm p to) as T. rewrite H in T.
  destruct err; [subst; by exists s|]. destruct T as [pm1 [F1 F2]].
  destruct (registered_frame _ _ _ _ F1 R) as [s1 [[Hs1 Hr1] []]].
  assert (registered (upd_sess pm1 p (with_State to)) q (if decide (q = p) then with_State to s1 else s1))
    as R2.
  { split.
    - rewrite upd_sess_lookup. case_decide; by rewrite Hs1.
    - by case_decide. }
  destruct (registered_frame _ _ _ _ F2 R2) as [s2 [R3 []]]. exists s2. split; [done|].
  case_decide; simpl in *; repeat split; congruence.
Qed.

Lemma Transition_grace (w w' : W) pm pm' p to err x :
  grace_ok x pm -> (x = None \/ x = Some p) -> to <> StateDisconnected ->
  Transition w pm p to = (w', pm', err) ->
  grace_ok (match err with None => None | Some _ => x end) pm'.
Proof.
  intros G Hx Hto H. pose proof (Transition_cases w pm p to) as T. rewrite H in T.
  destruct err; [by subst|]. destruct T as [pm1 [F1 F2]].
  eapply grace_ok_frame; [done|]. apply grace_ok_State; [|done].
  eapply grace_ok_frame; [done|]. destruct Hx as [->| ->]; [by apply grace_ok_weaken|done].
Qed.

Lemma Remove_ok x (w w' : W) pm pm' p s :
  pm_core D pm -> registered pm p s -> grace_ok x pm -> (x = None \/ x = Some p) ->
  Remove w pm p = (w', pm') -> pm_ok D pm'.
Proof.
  intros C R G Hx. unfold Remove. destruct (run_exit w pm p) as [w1 pm1] eqn:E1.
  pose proof (run_exit_frame w pm p) as F1. rewrite E1 in F1. simpl in F1.
  set (pm2 := match heap pm1 !! p with Some s => _ | None => _ end).
  assert (frame pm1 pm2) as F2.
  { unfold pm2. destruct (heap pm1 !! p); [case_match; [done|apply emit_frame]|done]. }
  assert (frame pm pm2) as F by by etrans. intros [= _ <-].
  destruct (registered_frame _ _ _ _ F R) as [s2 [[Hp Hr] _]].
  assert (pm_core D pm2) as C2 by by eapply pm_core_frame.
  split; [by eapply pm_core_RemoveTransferred|].
  eapply grace_ok_RemoveTransferred; [done..|]. eapply grace_ok_frame; [done|].
  destruct Hx as [->| ->]; [by apply grace_ok_weaken|done].
Qed.

(** A session gets a new connection, as [onDisconnect] (none) and a reconnection do. *)
Lemma pm_core_reconnect pm p s c f :
  pm_core D pm -> registered pm p s -> ConnID s = 0 -> c <> 0 ->
  (forall t, ID (f t) = ID t /\ ConnID (f t) = c /\ Username (f t) = Username t) ->
  pm_core D (upd_maps (upd_sess pm p f) (sessions pm) (<[c := p]> (byConnID pm)) (byUsername pm)).
Proof.
  intros [Hs Hc Hu Hn Hi0] [Hp Hr] Hz Hne Hf.
  assert (forall q t, heap pm !! q = Some t -> heap (upd_sess pm p f) !! q = Some (if decide (q = p) then f t else t)) as Hh.
  { intros q t Hq. rewrite upd_sess_lookup. case_decide; by rewrite Hq. }
  destruct (Hf s) as [Hf1 [Hf2 Hf3]]. split.
  - intros id q Hq. destruct (Hs _ _ Hq) as [? [t [Ht ?]]]. split; [done|].
    eexists. split; [by apply Hh|]. destruct (Hf t) as [? _]. case_decide; congruence.
  - intros d q Hq. change (<[c := p]> (byConnID pm) !! d = Some q) in Hq.
    apply lookup_insert_Some in Hq as [[<- <-]|[Hd Hq]].
    + split; [done|]. eexists. split; [by apply Hh|]. rewrite decide_True by done. simpl. by rewrite Hf1.
    + destruct (Hc _ _ Hq) as [? [t [Ht [? ?]]]]. split; [done|]. eexists. split; [by apply Hh|].
      rewrite decide_False; [done|]. intros ->. congruence.
  - intros u q Hq HD He. destruct (Hu _ _ Hq HD He) as [t [Ht [? ?]]].
    eexists. split; [by apply Hh|]. destruct (Hf t) as [E1 [_ E3]]. simpl.
    case_decide; [rewrite E1, E3|]; done.
  - intros q t. change (heap (upd_maps ?x _ _ _)) with (heap x). rewrite upd_sess_lookup.
    case_decide; [|apply Hn]. intros [? [? _]]%fmap_Some. by eapply Hn.
  - done.
Qed.

Lemma ReconnectSession_ok (w w' : W) pm pm' p s c f :
  pm_ok D pm -> registered pm p s -> State s = StateDisconnected -> c <> 0 ->
  (forall t, ID (f t) = ID t /\ ConnID (f t) = c /\ Username (f t) = Username t /\
             State (f t) = State t /\ PriorState (f t) = PriorState t) ->
  ReconnectSession w (upd_sess pm p f) p = (w', pm') -> pm_ok D pm'.
Proof.
  intros [C G] [Hp Hr] Hst Hc Hf. destruct (Hf s) as [Hf1 [Hf2 [Hf3 [Hf4 Hf5]]]].
  destruct (G _ _ _ Hr ltac:(done) Hp Hst) as [Hz Hprior].
  unfold ReconnectSession. rewrite upd_sess_lookup, decide_True by done. rewrite Hp. simpl.
  rewrite Hf2, Hf5. set (pm1 := upd_maps _ _ _ _).
  assert (pm_core D pm1) as C1.
  { apply (pm_core_reconnect pm p s c f C); [by split|done|done|]. intros t. destruct (Hf t) as [? [? [? _]]]. done. }
  assert (registered pm1 p (f s)) as R1.
  { split; [|by rewrite Hf1]. unfold pm1. change (heap (upd_maps ?x _ _ _)) with (heap x).
    rewrite upd_sess_lookup, decide_True by done. by rewrite Hp. }
  assert (grace_ok (Some p) pm1) as G1.
  { intros id q t Hq Hx Hh. unfold pm1 in Hh. change (heap (upd_maps ?x _ _ _)) with (heap x) in Hh.
    rewrite upd_sess_lookup, decide_False in Hh by congruence. by eapply G. }
  destruct (Transition w pm1 p (PriorState s)) as [[w2 pm2] err] eqn:ET.
  pose proof (Transition_core _ _ _ _ _ _ _ C1 ET) as C2.
  destruct (Transition_registered _ _ _ _ _ _ _ _ _ R1 ET) as [s2 [R2 _]].
  pose proof (Transition_grace _ _ _ _ _ _ _ _ G1 (or_intror eq_refl) Hprior ET) as G2.
  destruct err.
  - intros HR. by eapply Remove_ok; [..|exact HR]; eauto.
  - intros [= _ <-]. by split.
Qed.
End LifecycleInv.
