(* ===== verification/PlayerLifecycle.v ===== *)
(** * The life of a player session

    What [PlayerManager] keeps true whatever order its operations come in, when sessions
    in their grace period go, and two runs in which a session is lost. *)

From S2P Require Import Prelude PlayerManager.

(** ** Operations one by one *)

Section Operations.
Context {D : gset string} {W : Type} `{!Callbacks W} `{!LawfulCallbacks W}.

Lemma pm_core_upd pm p f :
  pm_core D pm -> (forall t, ID (f t) = ID t /\ ConnID (f t) = ConnID t /\ Username (f t) = Username t) ->
  pm_core D (upd_sess pm p f).
Proof.
  intros [Hs Hc Hu Hn Hi0] Hf.
  assert (forall q t, heap pm !! q = Some t -> exists t', heap (upd_sess pm p f) !! q = Some t' /\
    ID t' = ID t /\ ConnID t' = ConnID t /\ Username t' = Username t) as Hh.
  { intros q t Hq. rewrite upd_sess_lookup. destruct (Hf t) as [? [? ?]]. case_decide; rewrite Hq; simpl; eauto. }
  split.
  - intros id q H. destruct (Hs _ _ H) as [Hid [s [Hq Hi]]]. split; [done|].
    destruct (Hh _ _ Hq) as [t [? [? _]]]. exists t. split; congruence.
  - intros c q H. destruct (Hc _ _ H) as [Hz [s [Hq [Hi Hss]]]]. split; [done|].
    destruct (Hh _ _ Hq) as [t [? [E [? _]]]]. exists t. rewrite E. simpl in *. repeat split; congruence.
  - intros u q H HD Hz. destruct (Hu _ _ H HD Hz) as [s [Hq [Hi Hss]]].
    destruct (Hh _ _ Hq) as [t [? [E [_ ?]]]]. exists t. rewrite E. simpl in *. repeat split; congruence.
  - intros q s. rewrite upd_sess_lookup. case_decide; [|apply Hn].
    intros [s0 [? ?]]%fmap_Some. eauto.
  - done.
Qed.

Lemma Transition_others (w w' : W) pm pm' p to err :
  grace_ok (Some p) pm -> Transition w pm p to = (w', pm', err) -> grace_ok (Some p) pm'.
Proof.
  intros G H. pose proof (Transition_cases w pm p to) as T. rewrite H in T.
  destruct err; [by subst|]. destruct T as [pm1 [F1 F2]]. eapply grace_ok_frame; [done|].
  intros id q s Hq Hx. rewrite upd_sess_lookup, decide_False by congruence.
  by apply (grace_ok_frame _ _ _ F1 G id).
Qed.

Lemma onDisconnect_ok now (w w' : W) pm pm' c :
  pm_ok D pm -> onDisconnect now w pm c = (w', pm') -> pm_ok D pm'.
Proof.
  intros [C G]. unfold onDisconnect. destruct (byConnID pm !! c) as [p|] eqn:Ec; [|by intros [= _ <-]].
  destruct (conn_registered _ _ _ C Ec) as [s [R [Hcs Hc0]]]. destruct R as [Hp Hr]. rewrite Hp.
  destruct (Z.eqb_spec (State s) StatePending).
  { intros HR. eapply Remove_ok; [done|split; done|done|by left|done]. }
  assert (State s <> StateDisconnected) as Hst.
  { intros E. destruct (G _ _ _ Hr ltac:(done) Hp E). congruence. }
  set (pm1 := upd_sess pm p (with_disconnect (State s) now)).
  assert (pm_core D pm1) as C1 by by apply pm_core_upd.
  assert (registered pm1 p (with_disconnect (State s) now s)) as R1.
  { split; [|done]. unfold pm1. rewrite upd_sess_lookup, decide_True by done. by rewrite Hp. }
  assert (grace_ok (Some p) pm1) as G1.
  { intros id q t Hq Hx. unfold pm1. rewrite upd_sess_lookup, decide_False by congruence. by apply (G id). }
  destruct (Transition w pm1 p StateDisconnected) as [[w2 pm2] err] eqn:ET.
  pose proof (Transition_core _ _ _ _ _ _ _ C1 ET) as C2.
  pose proof (Transition_others _ _ _ _ _ _ _ G1 ET) as G2.
  destruct (Transition_registered _ _ _ _ _ _ _ _ _ R1 ET) as [s2 [R2 [HID [Hconn [_ [Hprior _]]]]]].
  destruct err; [intros HR; eapply Remove_ok; [done|done|done|by right|done]|].
  destruct (0 <? gracePeriod pm2); [|intros HR; eapply Remove_ok; [done|done|done|by right|done]].
  intros [= _ <-]. simpl in Hconn. destruct R2 as [Hp2 Hr2]. destruct C2 as [Hs2 Hc2 Hu2 Hn2 Hi2].
  split; [split|].
  - intros id q H. destruct (Hs2 _ _ H) as [? [t [Hq ?]]]. split; [done|].
    change (heap (upd_maps ?x _ _ _)) with (heap x). rewrite upd_sess_lookup.
    case_decide; rewrite Hq; simpl; eauto.
  - intros d q H. change (delete c (byConnID pm2) !! d = Some q) in H.
    apply lookup_delete_Some in H as [Hd H]. destruct (Hc2 _ _ H) as [? [t [Hq [? ?]]]]. split; [done|].
    exists t. change (heap (upd_maps ?x _ _ _)) with (heap x). rewrite upd_sess_lookup, decide_False; [done|].
    intros ->. congruence.
  - intros u q H HD Hz. destruct (Hu2 _ _ H HD Hz) as [t [Hq [? ?]]].
    change (heap (upd_maps ?x _ _ _)) with (heap x). rewrite upd_sess_lookup.
    case_decide; rewrite Hq; simpl; eauto.
  - intros q t. change (heap (upd_maps ?x _ _ _)) with (heap x). rewrite upd_sess_lookup.
    case_decide; [|apply Hn2]. intros [? [? _]]%fmap_Some. by eapply Hn2.
  - done.
  - intros id q t Hq _. change (heap (upd_maps ?x _ _ _)) with (heap x). rewrite upd_sess_lookup. case_decide.
    + subst q. rewrite Hp2. intros [= <-]. simpl. intros _. split; [done|]. simpl in Hprior. congruence.
    + apply (G2 id); [done|congruence].
Qed.

(** What [Remove] leaves of the others. *)
Lemma Remove_others (w w' : W) pm pm' p s q t :
  registered pm p s -> registered pm q t -> ID t <> ID s -> Remove w pm p = (w', pm') ->
  exists t', registered pm' q t' /\ same_core t t'.
Proof.
  intros R Q Hne. unfold Remove. destruct (run_exit w pm p) as [w1 pm1] eqn:E1.
  pose proof (run_exit_frame w pm p) as F1. rewrite E1 in F1. simpl in F1.
  set (pm2 := match heap pm1 !! p with Some s => _ | None => _ end).
  assert (frame pm1 pm2) as F2.
  { unfold pm2. destruct (heap pm1 !! p); [case_match; [done|apply emit_frame]|done]. }
  assert (frame pm pm2) as F by by etrans. intros [= _ <-].
  destruct (registered_frame _ _ _ _ F R) as [s2 [[Hp Hr] Hc]].
  destruct (registered_frame _ _ _ _ F Q) as [t2 [[Hq Hrq] Hcq]].
  exists t2. split; [|done]. split; [by rewrite RemoveTransferred_heap|].
  apply (RemoveTransferred_sessions _ _ _ _ _ Hp). split; [|done].
  rewrite (sc_ID _ _ Hc), (sc_ID _ _ Hcq). done.
Qed.

Lemma Remove_sessions (w w' : W) pm pm' p s id :
  registered pm p s -> Remove w pm p = (w', pm') ->
  sessions pm' !! id = (if decide (id = ID s) then None else sessions pm !! id) /\
  gracePeriod pm' = gracePeriod pm.
Proof.
  intros R. unfold Remove. destruct (run_exit w pm p) as [w1 pm1] eqn:E1.
  pose proof (run_exit_frame w pm p) as F1. rewrite E1 in F1. simpl in F1.
  set (pm2 := match heap pm1 !! p with Some s => _ | None => _ end).
  assert (frame pm1 pm2) as F2.
  { unfold pm2. destruct (heap pm1 !! p); [case_match; [done|apply emit_frame]|done]. }
  assert (frame pm pm2) as F by by etrans. intros [= _ <-].
  destruct (registered_frame _ _ _ _ F R) as [s2 [[Hp Hr] Hc]].
  unfold RemoveTransferred. rewrite Hp. simpl. split; [|apply F].
  rewrite (fr_sessions _ _ F), (sc_ID _ _ Hc). case_decide; [subst; apply lookup_delete_eq|].
  by rewrite lookup_delete_ne by congruence.
Qed.

(** A run of removals over distinct sessions. *)
Lemma remove_all ps (w w' : W) pm pm' :
  pm_ok D pm -> NoDup ps -> (forall p, p ∈ ps -> exists s, registered pm p s) ->
  fold_left (fun acc p => Remove acc.1 acc.2 p) ps (w, pm) = (w', pm') ->
  pm_ok D pm' /\ gracePeriod pm' = gracePeriod pm /\
  (forall id, sessions pm' !! id =
     match sessions pm !! id with
     | Some q => if decide (q ∈ ps) then None else Some q
     | None => None
     end) /\
  (forall q t, registered pm q t -> q ∉ ps -> exists t', registered pm' q t' /\ same_core t t').
Proof.
  revert w pm. induction ps as [|p ps IH]; intros w pm OK ND Hreg; simpl.
  { intros [= _ <-]. split; [done|]. split; [done|]. split; [|intros q t Q _; by exists t].
    intros id. by destruct (sessions pm !! id). }
  destruct (Remove w pm p) as [w1 pm1] eqn:ER. intros HF.
  apply NoDup_cons in ND as [Hnin ND].
  destruct (Hreg p ltac:(left)) as [s R].
  assert (forall q t, registered pm q t -> q <> p -> ID t <> ID s) as Hids.
  { intros q t [_ Hq] Hne E. destruct R as [_ Hr]. congruence. }
  assert (pm_ok D pm1) as OK1 by (destruct OK as [C G]; by eapply (Remove_ok None); [..|by left|]).
  destruct (IH w1 pm1) as [OK2 [Hg [Hss Hrest]]]; [done|done| |done|].
  { intros q Hq. destruct (Hreg q ltac:(by right)) as [t Q].
    assert (q <> p) by (intros ->; done).
    destruct (Remove_others _ _ _ _ _ _ _ _ R Q ltac:(by eapply Hids) ER) as [t' [? _]]. eauto. }
  assert (forall id, sessions pm1 !! id = (if decide (id = ID s) then None else sessions pm !! id) /\
    gracePeriod pm1 = gracePeriod pm) as HR by (intros; by eapply Remove_sessions).
  split; [done|]. split; [rewrite Hg; apply (HR 0)|]. split.
  - intros id. rewrite Hss. destruct (HR id) as [-> _]. case_decide as Hid.
    + subst id. destruct R as [_ ->]. rewrite decide_True; [done|left].
    + destruct (sessions pm !! id) as [q|] eqn:Eq; [|done].
      assert (q <> p).
      { intros ->. destruct OK as [C _]. destruct (po_sess _ C _ _ Eq) as [_ [s' [Hs' <-]]].
        destruct R. simplify_eq. }
      destruct (decide (q ∈ ps)); [rewrite decide_True; [done|by right]|].
      rewrite decide_False; [done|]. by intros [|]%elem_of_cons.
  - intros q t Q Hq. apply not_elem_of_cons in Hq as [Hne Hq].
    destruct (Remove_others _ _ _ _ _ _ _ _ R Q ltac:(by eapply Hids) ER) as [t1 [Q1 S1]].
    destruct (Hrest _ _ Q1 Hq) as [t2 [Q2 S2]]. exists t2. split; [done|]. by etrans.
Qed.

Lemma AllSessions_elem order pm p :
  p ∈ AllSessions order pm <-> exists id, id ∈ order /\ sessions pm !! id = Some p.
Proof. unfold AllSessions. apply list_elem_of_omap. Qed.

Lemma AllSessions_NoDup order pm : pm_core D pm -> NoDup order -> NoDup (AllSessions order pm).
Proof.
  intros C. induction 1 as [|id order Hid ND IH]; simpl; [constructor|].
  destruct (sessions pm !! id) as [p|] eqn:E; [|done]. constructor; [|done].
  intros [id' [Hin E']]%AllSessions_elem.
  destruct (po_sess _ C _ _ E) as [_ [s [Hs <-]]]. destruct (po_sess _ C _ _ E') as [_ [s' [Hs' <-]]].
  simplify_eq. done.
Qed.

(** ** The per-tick passes *)

(** No session appears, none changes its identity. *)
Definition shrinks (pm pm' : PlayerManager) : Prop :=
  (forall id q, sessions pm' !! id = Some q -> sessions pm !! id = Some q) /\
  (forall p s, heap pm !! p = Some s -> exists s', heap pm' !! p = Some s' /\ ID s' = ID s).

Lemma shrinks_trans a b c : shrinks a b -> shrinks b c -> shrinks a c.
Proof.
  intros [S1 H1] [S2 H2]. split; [eauto|]. intros p s Hs.
  destruct (H1 _ _ Hs) as [s1 [Hs1 E1]]. destruct (H2 _ _ Hs1) as [s2 [Hs2 E2]]. exists s2. split; congruence.
Qed.

Lemma shrinks_frame pm pm' : frame pm pm' -> shrinks pm pm'.
Proof.
  intros F. split; [intros id q; by rewrite (fr_sessions _ _ F)|]. intros p s Hs.
  destruct (frame_lookup_r _ _ _ _ F Hs) as [s' [? []]]. eauto.
Qed.

Lemma shrinks_upd pm p f : (forall t, ID (f t) = ID t) -> shrinks pm (upd_sess pm p f).
Proof.
  intros Hf. split; [done|]. intros q s Hs. rewrite upd_sess_lookup. case_decide; rewrite Hs; simpl; eauto.
Qed.

Lemma shrinks_Transition (w w' : W) pm pm' p to err :
  Transition w pm p to = (w', pm', err) -> shrinks pm pm'.
Proof.
  intros H. pose proof (Transition_cases w pm p to) as T. rewrite H in T.
  destruct err; [subst; by apply shrinks_frame|]. destruct T as [pm1 [F1 F2]].
  eapply shrinks_trans; [by apply shrinks_frame|].
  eapply shrinks_trans; [by apply (shrinks_upd _ p (with_State to))|by apply shrinks_frame].
Qed.

Lemma shrinks_Remove (w w' : W) pm pm' p : Remove w pm p = (w', pm') -> shrinks pm pm'.
Proof.
  unfold Remove. destruct (run_exit w pm p) as [w1 pm1] eqn:E1.
  pose proof (run_exit_frame w pm p) as F1. rewrite E1 in F1. simpl in F1.
  set (pm2 := match heap pm1 !! p with Some s => _ | None => _ end).
  assert (frame pm1 pm2) as F2.
  { unfold pm2. destruct (heap pm1 !! p); [case_match; [done|apply emit_frame]|done]. }
  intros [= _ <-]. eapply shrinks_trans; [apply shrinks_frame; by etrans|].
  split; [|intros q s Hs; exists s; by rewrite RemoveTransferred_heap].
  intros id q. unfold RemoveTransferred. destruct (heap pm2 !! p); [|done]. simpl.
  by intros [_ ?]%lookup_delete_Some.
Qed.

(** A pointer the pass collected is still registered, or its session is gone. *)
Definition held (pm : PlayerManager) (p : nat) : Prop :=
  exists s, heap pm !! p = Some s /\ forall q, sessions pm !! ID s = Some q -> q = p.

Lemma held_shrinks pm pm' p : shrinks pm pm' -> held pm p -> held pm' p.
Proof.
  intros [Hs Hh] [s [Hp Hq]]. destruct (Hh _ _ Hp) as [s' [Hp' E]]. exists s'. split; [done|].
  intros q H. apply Hq. rewrite <- E. by apply Hs.
Qed.

Lemma processPending_ok alive (w w' : W) pm pm' p :
  pm_ok D pm -> held pm p -> processPending alive (w, pm) p = (w', pm') -> pm_ok D pm' /\ shrinks pm pm'.
Proof.
  intros OK [s [Hp Hq]]. unfold processPending. rewrite Hp.
  assert (shrinks pm pm) as S0 by by apply shrinks_frame.
  case_bool_decide as Hreg; simpl; [|by intros [= _ <-]].
  destruct Hreg as [q Hreg]. pose proof (Hq _ Hreg). subst q.
  assert (registered pm p s) as R by done. destruct OK as [C G].
  destruct (isTransfer s).
  - destruct (SEntity s) as [e|]; [|by intros [= _ <-]].
    destruct (alive w e); [|by intros [= _ <-]].
    set (pm1 := upd_sess _ _ _). assert (pm_ok D pm1 /\ shrinks pm pm1) as [[C1 G1] S1].
    { split; [split|].
      - apply pm_core_upd; [by apply pm_core_upd|done].
      - apply grace_ok_State; [|done]. apply grace_ok_weaken. by eapply grace_ok_frame; [apply upd_sess_frame|].
      - eapply shrinks_trans; by apply shrinks_upd. }
    case_match; intros [= _ <-]; [done|]. split; [split|].
    + by eapply pm_core_frame; [apply emit_frame|].
    + by eapply grace_ok_frame; [apply emit_frame|].
    + eapply shrinks_trans; [done|]. apply shrinks_frame, emit_frame.
  - destruct (String.eqb_spec (Username s) ""); [by intros [= _ <-]|].
    set (pm1 := upd_maps _ _ _ _).
    assert (pm_core D pm1) as C1.
    { destruct C as [Hs Hc Hu Hn Hi0]. split; [done|done| |done|done].
      intros u q H. simpl in H. apply lookup_insert_Some in H as [[<- <-]|[? H]]; [by eauto|by apply Hu]. }
    assert (registered pm1 p s) as R1 by done.
    destruct (Transition w pm1 p StateActive) as [[w2 pm2] err] eqn:ET.
    pose proof (Transition_core _ _ _ _ _ _ _ C1 ET) as C2.
    destruct (Transition_registered _ _ _ _ _ _ _ _ _ R1 ET) as [s2 [R2 _]].
    assert (StateActive <> StateDisconnected) as Hne by done.
    pose proof (Transition_grace w w2 pm1 pm2 p StateActive err None G (or_introl eq_refl) Hne ET) as G2.
    pose proof (shrinks_Transition _ _ _ _ _ _ _ ET) as S2.
    destruct err; intros HR; [|injection HR as <- <-; by split].
    split; [by eapply (Remove_ok None); [..|by left|]|].
    eapply shrinks_trans; [exact S2|by eapply shrinks_Remove].
Qed.

Lemma processPendingSessions_ok alive order (w w' : W) pm pm' :
  pm_ok D pm -> processPendingSessions alive order w pm = (w', pm') -> pm_ok D pm'.
Proof.
  intros OK. unfold processPendingSessions.
  assert (forall p, p ∈ InState order pm StatePending -> held pm p) as Hheld.
  { intros p Hp. unfold InState in Hp. apply list_elem_of_omap in Hp as [id [_ H]].
    destruct (sessions pm !! id) as [q|] eqn:E; [|done]. simpl in H.
    destruct OK as [C _]. destruct (po_sess _ C _ _ E) as [_ [s [Hs Hid]]]. rewrite Hs in H. simpl in H.
    destruct (State s =? StatePending); [|done]. injection H as <-. exists s. split; [done|]. intros. congruence. }
  set (ps := InState order pm StatePending) in *. clearbody ps. revert w pm OK Hheld.
  induction ps as [|p ps IH]; intros w pm OK Hheld; [by intros [= _ <-]|].
  cbn [fold_left]. destruct (processPending alive (w, pm) p) as [w1 pm1] eqn:E1.
  destruct (processPending_ok _ _ _ _ _ _ OK (Hheld p ltac:(left)) E1) as [OK1 S1].
  apply IH; [done|]. intros q Hq. eapply held_shrinks; [done|]. apply Hheld. by right.
Qed.

Lemma expireGracePeriods_spec order now (w w' : W) pm pm' :
  pm_ok D pm -> NoDup order -> (forall id, is_Some (sessions pm !! id) -> id ∈ order) -> 0 < gracePeriod pm ->
  expireGracePeriods order now w pm = (w', pm') ->
  pm_ok D pm' /\
  (forall id, sessions pm' !! id =
     match sessions pm !! id with
     | Some q => if expired now pm q then None else Some q
     | None => None
     end) /\
  (forall q t, registered pm q t -> expired now pm q = false -> exists t', registered pm' q t' /\ same_core t t').
Proof.
  intros OK ND Hall Hg. unfold expireGracePeriods. rewrite (proj2 (Z.leb_gt _ _)) by lia. intros HF.
  set (ps := filter _ _) in HF.
  assert (forall p, p ∈ ps <-> exists id, sessions pm !! id = Some p /\ expired now pm p = true) as Hps.
  { intros p. unfold ps. rewrite list_elem_of_filter, AllSessions_elem. split.
    - intros [? [id [? ?]]]. eauto.
    - intros [id [? ?]]. split; [done|]. exists id. split; [|done]. apply Hall. eauto. }
  destruct (remove_all ps w w' pm pm') as [OK' [_ [Hss Hrest]]]; [done| | |done|].
  { apply NoDup_filter. destruct OK. by apply AllSessions_NoDup. }
  { intros p [id [Hid _]]%Hps. destruct OK as [C _]. destruct (po_sess _ C _ _ Hid) as [_ [s [? <-]]].
    exists s. by split. }
  split; [done|]. split.
  - intros id. rewrite Hss. destruct (sessions pm !! id) as [q|] eqn:E; [|done].
    destruct (expired now pm q) eqn:Ex; [rewrite decide_True; [done|]|rewrite decide_False; [done|]].
    + apply Hps. eauto.
    + rewrite Hps. intros [? [_ ?]]. congruence.
  - intros q t Q Hx. apply Hrest; [done|]. rewrite Hps. intros [? [_ ?]]. congruence.
Qed.

End Operations.

(** ** Every order of operations *)

(** The names dropped so far, when connection [c] is registered under [u]: the name its
    session had, if another, is dropped, and [u] is not any more. *)
Definition dropped_by (D : gset string) (pm : PlayerManager) (c : Z) (u : string) : gset string :=
  match ByConnID pm c ≫= fun p => heap pm !! p with
  | Some s => renamed D s u
  | None => D ∖ {[u]}
  end.

(** Session ids do not wrap around. *)
Definition has_room (pm : PlayerManager) : Prop := nextSessionID pm < 2 ^ 64 - 1.

(** The fields the assignment handler writes before a reconnection. *)
Definition assigned (c gen : Z) (uid : bytes) (s : PlayerSession) : PlayerSession :=
  with_UserID uid (with_stream gen (ReplicationSuspended s)
    (with_disconnect (PriorState s) 0 (with_ConnID c s))).

(** The operations, with the set of dropped names.  Registrations take any connection and
    any name.  A reconnection finds by name a session that is still registered.  The
    framework itself leaves for [StateDisconnected] in [onDisconnect] only, and transfers
    only sessions that have a connection, so that none arrives disconnected. *)
Inductive pm_step {W : Type} `{!Callbacks W} : W * PlayerManager * gset string -> W * PlayerManager * gset string -> Prop :=
| step_connect w pm D c : has_room pm -> pm_step (w, pm, D) (w, onConnect pm c, D)
| step_register w pm D c u : has_room pm -> pm_step (w, pm, D) (w, RegisterPlayer pm c u, dropped_by D pm c u)
| step_register_transfer w pm D c u :
    has_room pm -> pm_step (w, pm, D) (w, RegisterTransferSession pm c u, dropped_by D pm c u)
| step_session_transfer w pm D c u name :
    has_room pm -> state_named pm name <> Some StateDisconnected ->
    pm_step (w, pm, D) (w, RegisterSessionTransfer pm c u name, dropped_by D pm c u)
| step_reconnect w pm D u p s c gen uid :
    ByUsername pm u = Some p -> registered pm p s -> State s = StateDisconnected -> c <> 0 ->
    pm_step (w, pm, D) (ReconnectSession w (upd_sess pm p (assigned c gen uid)) p, D)
| step_transition w pm D p s to :
    registered pm p s -> to <> StateDisconnected -> pm_step (w, pm, D) ((Transition w pm p to).1, D)
| step_disconnect now w pm D c : pm_step (w, pm, D) (onDisconnect now w pm c, D)
| step_remove w pm D p s : registered pm p s -> pm_step (w, pm, D) (Remove w pm p, D)
| step_remove_transferred w pm D p s : registered pm p s -> pm_step (w, pm, D) (w, RemoveTransferred pm p, D)
| step_expire order now w pm D : NoDup order -> pm_step (w, pm, D) (expireGracePeriods order now w pm, D)
| step_pending alive order w pm D : pm_step (w, pm, D) (processPendingSessions alive order w pm, D)
| step_fields w pm D p f : keeps_core f -> pm_step (w, pm, D) (w, upd_sess pm p f, D)
| step_grace w pm D d : pm_step (w, pm, D) (w, SetGracePeriod pm d, D)
| step_state w pm D name : pm_step (w, pm, D) (w, (RegisterState pm name).1, D)
| step_table w pm D from to t : pm_step (w, pm, D) (w, AddTransition pm from to t, D)
| step_callbacks w pm D st cbs : pm_step (w, pm, D) (w, OnState pm st cbs, D).

Section Reachable.
Context {W : Type} `{!Callbacks W} `{!LawfulCallbacks W}.

Lemma NewPlayerManager_ok : pm_ok ∅ NewPlayerManager.
Proof. repeat split; simpl; done. Qed.

(** [f] is what the registration sets besides the name. *)
Lemma register_ok D pm c u f : (f = (fun s => s) \/ f = with_isTransfer true) ->
  pm_ok D pm -> has_room pm ->
  let '(pm', p) := sessionFor pm c in
  pm_ok (dropped_by D pm c u) (name_session (upd_sess pm' p f) p u) /\
  exists s, registered (name_session (upd_sess pm' p f) p u) p s.
Proof.
  intros Hf OK Hroom. destruct (sessionFor pm c) as [pm1 p] eqn:E.
  destruct (sessionFor_ok _ _ _ _ OK Hroom E) as [[C1 G1] [s [[Hp Hr] Hname]]].
  assert (Hk : keeps_core f) by (destruct Hf; subst; by split).
  assert (OK1 : pm_ok D (upd_sess pm1 p f)).
  { split; [by eapply pm_core_frame; [apply upd_sess_frame|]|by eapply grace_ok_frame; [apply upd_sess_frame|]]. }
  assert (R1 : registered (upd_sess pm1 p f) p (f s)).
  { split; [rewrite upd_sess_lookup, decide_True by done; by rewrite Hp|]. by rewrite (sc_ID _ _ (Hk s)). }
  destruct (name_session_ok _ p (f s) u OK1 R1) as [OK2 R2]. split; [|by eauto].
  enough (dropped_by D pm c u = renamed D (f s) u) as -> by done.
  unfold dropped_by, ByConnID, renamed. rewrite (sc_Username _ _ (Hk s)). destruct Hname as [Hname|[Hc Hp']].
  - rewrite Hname, orb_true_r. unfold sessionFor in E. destruct (byConnID pm !! c) as [q|]; simpl; [|done].
    injection E as <- <-. rewrite Hp. by rewrite Hname, orb_true_r.
  - by rewrite Hc; simpl; rewrite Hp'.
Qed.

Lemma fields_ok D pm p f : keeps_core f -> pm_ok D pm -> pm_ok D (upd_sess pm p f).
Proof.
  intros Hf [C G]. split; [by eapply pm_core_frame; [apply upd_sess_frame|]|].
  by eapply grace_ok_frame; [apply upd_sess_frame|].
Qed.

Lemma upd_sess_id pm p : upd_sess pm p (fun s => s) = pm.
Proof. unfold upd_sess. destruct pm. simpl. f_equal. by rewrite alter_id. Qed.

Lemma session_transfer_ok D pm c u name : pm_ok D pm -> has_room pm -> state_named pm name <> Some StateDisconnected ->
  pm_ok (dropped_by D pm c u) (RegisterSessionTransfer pm c u name).
Proof.
  intros OK Hroom Hn. pose proof (register_ok D pm c u _ (or_introl eq_refl) OK Hroom) as HR.
  unfold RegisterSessionTransfer. destruct (sessionFor pm c) as [pm1 p] eqn:E. rewrite upd_sess_id in HR.
  destruct HR as [[C1 G1] _].
  set (st := default StateActive _). assert (st <> StateDisconnected) as Hst.
  { unfold st. assert (state_named (name_session pm1 p u) name = state_named pm name) as ->.
    { unfold sessionFor in E. destruct (byConnID pm !! c); by injection E as <- <-. }
    by destruct (state_named pm name); simpl; [congruence|]. }
  assert (pm_ok (dropped_by D pm c u) (upd_sess (name_session pm1 p u) p (with_State st))) as [C2 G2].
  { split; [by apply pm_core_State|]. apply grace_ok_State; [|done]. by apply grace_ok_weaken. }
  case_match; [done|]. split; [by eapply pm_core_frame; [apply emit_frame|]|].
  by eapply grace_ok_frame; [apply emit_frame|].
Qed.

Lemma pm_step_ok (x y : W * PlayerManager * gset string) : pm_step x y -> pm_ok x.2 x.1.2 -> pm_ok y.2 y.1.2.
Proof.
  destruct 1; simpl; intros OK.
  - destruct (createSession pm c) as [pm' p] eqn:E. unfold onConnect. rewrite E.
    by destruct (createSession_ok _ _ _ _ OK H E).
  - pose proof (register_ok D pm c u _ (or_introl eq_refl) OK H) as HR. unfold RegisterPlayer.
    destruct (sessionFor pm c). rewrite upd_sess_id in HR. by destruct HR.
  - pose proof (register_ok D pm c u _ (or_intror eq_refl) OK H) as HR. unfold RegisterTransferSession.
    destruct (sessionFor pm c). by destruct HR.
  - by apply session_transfer_ok.
  - destruct (ReconnectSession w _ p) as [w' pm'] eqn:E. simpl.
    by eapply (ReconnectSession_ok _ _ _ _ _ s c); [done..| |exact E].
  - destruct (Transition w pm p to) as [[w' pm'] err] eqn:E. destruct OK as [C G].
    split; [by eapply Transition_core|].
    pose proof (Transition_grace _ _ _ _ _ _ _ None G (or_introl eq_refl) H0 E). by destruct err.
  - destruct (onDisconnect now w pm c) as [w' pm'] eqn:E. by eapply onDisconnect_ok.
  - destruct (Remove w pm p) as [w' pm'] eqn:E. destruct OK as [C G]. by eapply (Remove_ok None); [..|by left|].
  - destruct OK as [C G]. destruct H as [Hp Hr]. split; [by eapply pm_core_RemoveTransferred|].
    eapply grace_ok_RemoveTransferred; [done..|]. by apply grace_ok_weaken.
  - destruct (expireGracePeriods order now w pm) as [w' pm'] eqn:E. simpl.
    unfold expireGracePeriods in E. case_match; [by injection E as <- <-|].
    eapply remove_all; [exact OK| | |exact E].
    + apply NoDup_filter. by apply (AllSessions_NoDup (D := D)); [apply OK|].
    + intros p [_ [id [_ Hid]]%AllSessions_elem]%list_elem_of_filter.
      destruct (po_sess _ (proj1 OK) _ _ Hid) as [_ [s [? <-]]]. exists s. by split.
  - destruct (processPendingSessions alive order w pm) as [w' pm'] eqn:E. by eapply processPendingSessions_ok.
  - by apply fields_ok.
  - destruct OK as [[] G]. by split.
  - unfold RegisterState. destruct OK as [[] G]. by destruct (state_named pm name).
  - destruct OK as [[] G]. by split.
  - destruct OK as [[] G]. by split.
Qed.

Lemma pm_reach_ok (x y : W * PlayerManager * gset string) : rtc pm_step x y -> pm_ok x.2 x.1.2 -> pm_ok y.2 y.1.2.
Proof. induction 1; eauto using pm_step_ok. Qed.

(** C30: From a new manager, whatever operations run and in whatever order, the indices
    stay consistent: a session found by connection is registered under its id and has that
    connection, ids are not reused, and a session in its grace period has no connection
    and a state to come back to.  A session found by name is registered and has that name,
    unless the name is one of [D], which a connection dropped by registering under another
    name ([renamed_session_keeps_old_name]).  Of a reconnection it is assumed that the
    session the name finds is still registered, which that index guarantees for every
    other name; for a dropped one it need not be ([dropped_name_revives_session]). *)
Theorem sessions_indexed (w0 w : W) (pm : PlayerManager) (D : gset string) :
  rtc pm_step (w0, NewPlayerManager, ∅) (w, pm, D) -> pm_ok D pm.
Proof. intros H. apply (pm_reach_ok _ _ H), NewPlayerManager_ok. Qed.

(** The pass at the end of a tick removes exactly the sessions disconnected for
    longer than the grace period: every other registered session is still registered
    under its id, with its connection, name and state, and the indices stay consistent. *)
Theorem grace_period_exact D order now (w w' : W) pm pm' :
  pm_ok D pm -> NoDup order -> (forall id, is_Some (sessions pm !! id) -> id ∈ order) ->
  expireGracePeriods order now w pm = (w', pm') ->
  pm_ok D pm' /\
  forall id p s, sessions pm !! id = Some p -> heap pm !! p = Some s ->
    (0 < gracePeriod pm /\ State s = StateDisconnected /\ gracePeriod pm < now - DisconnectTime s ->
     sessions pm' !! id = None) /\
    (~ (0 < gracePeriod pm /\ State s = StateDisconnected /\ gracePeriod pm < now - DisconnectTime s) ->
     exists s', registered pm' p s' /\ same_core s s').
Proof.
  intros OK ND Hall HE. destruct (Z.le_gt_cases (gracePeriod pm) 0) as [Hg|Hg].
  { unfold expireGracePeriods in HE. rewrite (proj2 (Z.leb_le _ _)) in HE by done.
    injection HE as _ <-. split; [done|]. intros id p s Hid Hp. split; [lia|]. intros _.
    destruct (po_sess _ (proj1 OK) _ _ Hid) as [_ [? [? <-]]]. simplify_eq. by exists s. }
  destruct (expireGracePeriods_spec _ _ _ _ _ _ OK ND Hall Hg HE) as [OK' [Hs Hr]].
  split; [done|]. intros id p s Hid Hp.
  assert (expired now pm p = bool_decide (State s = StateDisconnected /\ gracePeriod pm < now - DisconnectTime s)) as Hx.
  { unfold expired. rewrite Hp. apply eq_true_iff_eq. rewrite andb_true_iff, bool_decide_eq_true, Z.eqb_eq, Z.ltb_lt. done. }
  split.
  - intros [_ Hc]. rewrite Hs, Hid, Hx. by rewrite bool_decide_true.
  - intros Hc. destruct (po_sess _ (proj1 OK) _ _ Hid) as [_ [? [? <-]]]. simplify_eq.
    apply Hr; [done|]. rewrite Hx. apply bool_decide_false. tauto.
Qed.
End Reachable.

(** ** Concrete runs *)

(** A cell whose game registers no callback. *)
#[export] Instance no_callbacks : Callbacks unit :=
  { run_guard _ _ _ _ := true; run_action _ w pm _ := (w, pm) }.
#[export] Instance no_callbacks_lawful : LawfulCallbacks unit.
Proof. by intros a w pm p. Qed.

Definition run_joined : PlayerManager :=
  (processPendingSessions (fun _ _ => true) [1] tt
     (RegisterPlayer (SetGracePeriod NewPlayerManager 10) 7 "ada")).2.

(** Disconnected at time 0. *)
Definition run_left : PlayerManager := (onDisconnect 0 tt run_joined 7).2.

Lemma pair_tt {A} (x : unit * A) : x = (tt, x.2).
Proof. by destruct x as [[] ?]. Qed.

Lemma run_left_reached : rtc pm_step (tt, NewPlayerManager, ∅) (tt, run_left, ∅).
Proof.
  eapply rtc_l; [apply (step_grace tt NewPlayerManager ∅ 10)|].
  eapply rtc_l; [by apply (step_register tt (SetGracePeriod NewPlayerManager 10) ∅ 7 "ada")|].
  eapply rtc_l; [apply (step_pending (fun _ _ => true) [1] tt (RegisterPlayer (SetGracePeriod NewPlayerManager 10) 7 "ada"))|].
  rewrite (pair_tt (processPendingSessions _ _ _ _)). change (processPendingSessions _ _ _ _).2 with run_joined.
  eapply rtc_l; [apply (step_disconnect 0 tt run_joined)|].
  rewrite (pair_tt (onDisconnect _ _ _ _)). apply rtc_refl.
Qed.

(** Connection 7 registers again under another name. *)
Definition run_renamed : PlayerManager := RegisterPlayer run_joined 7 "bob".

Lemma run_renamed_reached : rtc pm_step (tt, NewPlayerManager, ∅) (tt, run_renamed, {["ada"%string]}).
Proof.
  eapply rtc_l; [apply (step_grace tt NewPlayerManager ∅ 10)|].
  eapply rtc_l; [by apply (step_register tt (SetGracePeriod NewPlayerManager 10) ∅ 7 "ada")|].
  eapply rtc_l; [apply (step_pending (fun _ _ => true) [1] tt (RegisterPlayer (SetGracePeriod NewPlayerManager 10) 7 "ada"))|].
  rewrite (pair_tt (processPendingSessions _ _ _ _)). change (processPendingSessions _ _ _ _).2 with run_joined.
  eapply rtc_l; [by apply (step_register tt run_joined _ 7 "bob")|].
  assert (dropped_by (dropped_by ∅ (SetGracePeriod NewPlayerManager 10) 7 "ada") run_joined 7 "bob" = {["ada"%string]}) as ->.
  { apply set_eq. vm_compute. done. }
  apply rtc_refl.
Qed.

Lemma sessions_indexed_witness :
  pm_ok ∅ run_left /\ ByUsername run_left "ada" = Some 0%nat /\ ByConnID run_left 7 = None /\
  pm_ok {["ada"%string]} run_renamed /\ ByUsername run_renamed "bob" = Some 0%nat.
Proof.
  split; [exact (sessions_indexed tt tt run_left ∅ run_left_reached)|]. split; [by vm_compute|].
  split; [by vm_compute|]. split; [exact (sessions_indexed tt tt run_renamed _ run_renamed_reached)|by vm_compute].
Defined.

Lemma run_left_ok : pm_ok ∅ run_left.
Proof. apply (pm_reach_ok _ _ run_left_reached), NewPlayerManager_ok. Qed.

Lemma grace_period_exact_witness :
  sessions run_left !! 1 = Some 0%nat /\
  sessions (expireGracePeriods [1] 11 tt run_left).2 !! 1 = None /\
  is_Some (sessions (expireGracePeriods [1] 10 tt run_left).2 !! 1).
Proof.
  assert (pm_ok ∅ run_left) as OK by exact run_left_ok.
  assert (NoDup [1]) as ND by (apply NoDup_singleton).
  assert (forall id, is_Some (sessions run_left !! id) -> id ∈ [1]) as Hall.
  { intros id [p H]. vm_compute in H. destruct id as [|[]|]; try discriminate. left. }
  assert (exists s, heap run_left !! 0%nat = Some s /\ State s = 3 /\ DisconnectTime s = 0) as [s [Hs [Hst Hdt]]].
  { eexists. split; [by vm_compute|done]. }
  assert (sessions run_left !! 1 = Some 0%nat) as H1 by by vm_compute.
  split; [done|]. split.
  - destruct (grace_period_exact ∅ [1] 11 tt _ run_left _ OK ND Hall (surjective_pairing _)) as [_ H].
    apply (H 1 0%nat s H1 Hs). rewrite Hst, Hdt. by vm_compute.
  - destruct (grace_period_exact ∅ [1] 10 tt _ run_left _ OK ND Hall (surjective_pairing _)) as [_ H].
    destruct (proj2 (H 1 0%nat s H1 Hs)) as [s' [[? Hr] Hc]].
    { rewrite Hst, Hdt. vm_compute. intros [_ [_ ?]]. discriminate. }
    exists 0%nat. rewrite <- Hr. f_equal. rewrite (sc_ID _ _ Hc). vm_compute in Hs. by injection Hs as <-.
Defined.

(** A player comes back under a new connection without the reconnect flag, as after a
    coordinator that lost its index: a second session takes the name. *)
Definition run_twin : PlayerManager :=
  (processPendingSessions (fun _ _ => true) [1; 2] tt (RegisterPlayer run_left 8 "ada")).2.

(** Then the first session's grace period ends: the name is deleted from the index
    although the second session is active, and the coordinator is told that the player
    has gone. *)
Theorem expired_twin_hides_player :
  let pm := (expireGracePeriods [1; 2] 20 tt run_twin).2 in
  ByUsername run_twin "ada" = Some 1%nat /\
  sessions pm !! 2 = Some 1%nat /\
  ((fun s => (Username s, State s, ConnID s)) <$> heap pm !! 1%nat) = Some ("ada"%string, StateActive, 8) /\
  ByUsername pm "ada" = None /\ last (events pm) = Some (SessionRemoved "ada").
Proof. by vm_compute. Qed.

(** A player whose cell is being transferred disconnects: the state to come back to is
    the transfer's.  When the transfer is abandoned and the player reconnects, the table
    has no transition back, and the session is removed. *)
Definition run_transferring : PlayerManager := (Transition tt run_joined 0 StateTransferring).1.2.
Definition run_left_in_transfer : PlayerManager := (onDisconnect 0 tt run_transferring 7).2.

Theorem reconnect_during_transfer_loses_session :
  let pm := (ReconnectSession tt (upd_sess run_left_in_transfer 0 (assigned 8 2 uuidNil)) 0).2 in
  ByUsername run_left_in_transfer "ada" = Some 0%nat /\
  (State <$> heap run_left_in_transfer !! 0%nat) = Some StateDisconnected /\
  sessions pm = ∅ /\ ByConnID pm 8 = None.
Proof. by vm_compute. Qed.

(** A login as another user on a connection that has a session: the session takes the new
    name, but the entry of the old one stays and points at it; nothing removes that entry,
    not even the removal of the session. *)
Theorem renamed_session_keeps_old_name :
  let gone := (expireGracePeriods [1] 11 tt (onDisconnect 0 tt run_renamed 7).2).2 in
  ByUsername run_renamed "ada" = Some 0%nat /\
  (Username <$> heap run_renamed !! 0%nat) = Some "bob"%string /\
  sessions gone = ∅ /\ ByUsername gone "ada" = Some 0%nat.
Proof. by vm_compute. Qed.

(** Then the first user reconnects: the entry finds the removed session, still in its
    disconnected state, and the assignment makes it active and gives it the connection.
    The player is in play in a session that is in no table of sessions, so that no pass
    over them sees it. *)
Theorem dropped_name_revives_session :
  let gone := (expireGracePeriods [1] 11 tt (onDisconnect 0 tt run_renamed 7).2).2 in
  let pm := (ReconnectSession tt (upd_sess gone 0 (assigned 8 2 uuidNil)) 0).2 in
  ByConnID pm 8 = Some 0%nat /\
  ((fun s => (Username s, State s)) <$> heap pm !! 0%nat) = Some ("bob"%string, StateActive) /\
  sessions pm = ∅.
Proof. by vm_compute. Qed.
