(* ===== verification/HostCell.v ===== *)
(** * A cell on its host (pkg/universe/stage.go, cell.go, pkg/engine/engine.go)

    Handoff.v models the identity of a cell's entities.  Here the same cell has the rest
    a transfer moves: the component values of its entities, its player sessions, and the
    host's virtual connections, through which a player's connection is renamed when the
    player changes host.  One function is one job on the cell's game loop. *)

From S2P Require Import Prelude Float32 CellId NetId SessionRoutes ControlPlane.
From S2P Require Import VirtualConn PlayerManager Transfer Handoff.

(** ** State *)

(** The component values of an entity, as the frame that carries them: its network id,
    epoch and player fields are read elsewhere, its connection is the PlayerConn
    component (0 without one), its component list what the registered scanners return. *)
Record Comp := mkComp { cp_frame : TransferFrame; cp_ghost : bool; cp_dormant : bool }.

Record World := mkWorld {
  w_cell : Cell;
  w_comps : gmap Entity Comp;
  toRemove : list (Entity * bool);
  RemovedNetIDs : list Z
}.

(** [hc_stopped] is set by [Shutdown]; [transferDeactivatedViewers] holds session pointers. *)
Record HostCell := mkHostCell {
  hc_id : CellID;
  hc_world : World;
  hc_players : PlayerManager;
  transferDeactivatedViewers : list nat;
  hc_stopped : bool
}.

Definition hc_stage (c : HostCell) : Stage := stage (w_cell (hc_world c)).

Definition set_wcell (w : World) (c : Cell) : World := mkWorld c (w_comps w) (toRemove w) (RemovedNetIDs w).
Definition set_wstage (w : World) (st : Stage) : World := set_wcell w (set_stage (w_cell w) st).
Definition set_comps (w : World) (m : gmap Entity Comp) : World :=
  mkWorld (w_cell w) m (toRemove w) (RemovedNetIDs w).
Definition with_world (c : HostCell) (w : World) : HostCell :=
  mkHostCell (hc_id c) w (hc_players c) (transferDeactivatedViewers c) (hc_stopped c).
Definition with_players (c : HostCell) (pm : PlayerManager) : HostCell :=
  mkHostCell (hc_id c) (hc_world c) pm (transferDeactivatedViewers c) (hc_stopped c).
Definition with_viewers (c : HostCell) (l : list nat) : HostCell :=
  mkHostCell (hc_id c) (hc_world c) (hc_players c) l (hc_stopped c).
Definition with_hstage (c : HostCell) (st : Stage) : HostCell := with_world c (set_wstage (hc_world c) st).

Definition SetDrainingForMerge (v : bool) (c : HostCell) : HostCell :=
  let st := hc_stage c in
  with_hstage c (mkStage (cellID st) (netIDIdx st) (world st) (nextEntity st) (replicaNetIDs st)
    (borderLastSeen st) (highestSeenEpoch st) (handoffAccepted st) (crossingQueue st) v
    (strictNetIDIndex st)).

(** Ranging over the ECS or a Go map visits each entry once, in an order of its own. *)
Class Iteration := {
  visit : gmap Entity Ent -> list Entity;
  visit_NoDup w : NoDup (visit w);
  visit_spec w e : e ∈ visit w <-> is_Some (w !! e);
  sessions_order : gmap Z nat -> list Z;
  sessions_order_NoDup m : NoDup (sessions_order m);
  sessions_order_spec m id : id ∈ sessions_order m <-> is_Some (m !! id);
  keyed {A} : gmap string A -> list (string * A);
  keyed_spec {A} (m : gmap string A) : keyed m ≡ₚ map_to_list m;
  numbered {A} : gmap Z A -> list (Z * A);
  numbered_spec {A} (m : gmap Z A) : numbered m ≡ₚ map_to_list m
}.

(** A replicated component type.  [Add] and [Apply] decode a component's bytes onto an
    entity: given what a scan of the component reads before (nothing when the entity lacks
    it), the decoder refuses the bytes or leaves the component as a scan reads it after. *)
Definition Reader : Type := option bytes -> bytes -> option (option bytes).

Record ComponentReplicator := mkReplicator {
  cr_ID : Z;
  SkipOnTransfer : bool;
  cr_Add : option Reader;
  cr_Apply : option Reader
}.

(** What the game registers: its lifecycle functions; the component types of its
    replication registry, in registration order; per entity kind the components the kind
    must have, with the scan of their zero value; [onTransferReceived], which is given the
    new entity's values and the frame, and sets the entity's values; and the motion a
    promoted entity takes over from the border replica it replaces. *)
Class Game := {
  game_guard : Z -> World -> PlayerManager -> nat -> bool;
  game_action : Z -> World -> PlayerManager -> nat -> World * PlayerManager;
  replRegistry : list ComponentReplicator;
  kind_components : Z -> list (Z * bytes);
  onTransferReceived : TransferFrame -> TransferFrame -> TransferFrame;
  destale : Comp -> TransferFrame -> TransferFrame
}.

(** Names and identities on the wire. *)
Definition uuid_of (b : bytes) : Z := le_val b.
Definition name_of (b : bytes) : string := of_runes b.

(** Zero values of an entity nothing was written for. *)
Definition no_frame : TransferFrame :=
  mkFrame 0 0 0 0 0 [] 0 [] Transfer.uuidNil 0 0 0 0 0 0 (mkRotation 0 0 0 0)
    (mkCollider 0 0 0 0 0 0) 0 0 0 [].
Definition comp_of (w : World) (e : Entity) : Comp := default (mkComp no_frame false false) (w_comps w !! e).

(** ** Removal (pkg/engine/engine.go) *)

Definition ghost (w : World) (e : Entity) : bool := cp_ghost (comp_of w e).
Definition dormant (w : World) (e : Entity) : bool := cp_dormant (comp_of w e).
Definition is_replica (w : World) (e : Entity) : bool :=
  match world (stage (w_cell w)) !! e with
  | Some row => bool_decide (is_Some (e_replica row))
  | None => false
  end.
Definition alive (w : World) (e : Entity) : bool := bool_decide (is_Some (world (stage (w_cell w)) !! e)).

Definition RemoveEntityNowWithPolicy (w : World) (e : Entity) (authoritative : bool) : World * bool :=
  match world (stage (w_cell w)) !! e with
  | None => (w, false)
  | Some row =>
      (mkWorld (set_stage (w_cell w) (RemoveEntityNow (stage (w_cell w)) e)) (w_comps w) (toRemove w)
         (if authoritative then RemovedNetIDs w ++ [net_ID (e_net row)] else RemovedNetIDs w), true)
  end.

(** A second request can only make the removal authoritative. *)
Definition MarkForRemoval (w : World) (e : Entity) (authoritative : bool) : World :=
  mkWorld (w_cell w) (w_comps w)
    (if bool_decide (e ∈ (toRemove w).*1)
     then (if authoritative then map (fun r => if r.1 =? e then (e, true) else r) (toRemove w) else toRemove w)
     else toRemove w ++ [(e, authoritative)])
    (RemovedNetIDs w).

Definition FlushRemovals (w : World) : World :=
  let w := fold_left (fun w r => (RemoveEntityNowWithPolicy w r.1 r.2).1) (toRemove w) w in
  mkWorld (w_cell w) (w_comps w) [] (RemovedNetIDs w).

(** ** Lifecycle callbacks of a cell (coordinator.go) *)

(** [defaultPlayerLeaveCleanup], the action every new cell has on the transitions from
    active to transferring and to disconnected. *)
Definition defaultPlayerLeaveCleanup (w : World) (pm : PlayerManager) (p : nat) : World * PlayerManager :=
  match PlayerManager.heap pm !! p with
  | None => (w, pm)
  | Some s =>
      match SEntity s with
      | None => (w, pm)
      | Some e =>
          if negb (alive w e) then (w, pm)
          else if ghost w e then (w, pm)
          else
            (if is_replica w e then w else MarkForRemoval w e true,
             upd_sess pm p (with_Entity None))
      end
  end.

Definition leaveCleanup : Z := 0.

#[export] Instance cell_callbacks `{!Game} : Callbacks World := {
  run_guard a w pm p := game_guard a w pm p;
  run_action a w pm p := if a =? leaveCleanup then defaultPlayerLeaveCleanup w pm p else game_action a w pm p
}.

(** The transitions [createNode] installs. *)
Definition with_leave_actions (pm : PlayerManager) : PlayerManager :=
  let t := mkTransition None (Some leaveCleanup) in
  AddTransition (AddTransition pm StateActive StateTransferring t) StateActive StateDisconnected t.

(** ** Reading an entity (stage.go) *)

(** The session fields of a player's frame; without a session they are zero. *)
Definition session_fields (pm : PlayerManager) (conn : Z) : bytes * Z * Z * bytes :=
  match ByConnID pm conn ≫= fun p => PlayerManager.heap pm !! p with
  | Some s => (str (PlayerManager.Username s), PlayerManager.StreamGeneration s,
               PlayerManager.DebugFlags s, PlayerManager.UserID s)
  | None => ([], 0, 0, Transfer.uuidNil)
  end.

Definition session_key_fields (vcm : option VirtualConnManager) (conn : Z) : bytes * Z :=
  match vcm ≫= fun v => LookupByLocal v conn with
  | Some key => (str (sk_GatewayID key), sk_ConnID key)
  | None => ([], 0)
  end.

Definition SerializeEntityCore (vcm : option VirtualConnManager) (c : HostCell) (e : Entity)
  : TransferFrame :=
  let id := match world (hc_stage c) !! e with Some row => e_net row | None => mkNet 0 0 end in
  let f := cp_frame (comp_of (hc_world c) e) in
  let conn := Transfer.ConnID f in
  let '(user, gen, flags, uid) :=
    if conn =? 0 then ([], 0, 0, Transfer.uuidNil) else session_fields (hc_players c) conn in
  let '(gw, gwConn) := if conn =? 0 then ([], 0) else session_key_fields vcm conn in
  mkFrame (net_ID id) (net_Epoch id) gen (EntityType f) conn gw gwConn user uid
    (PosX f) (PosY f) (PosZ f) (VelX f) (VelY f) (VelZ f) (FRotation f) (FCollider f)
    (CellX f) (CellY f) flags (Components f).

Definition SerializeEntity (vcm : option VirtualConnManager) (c : HostCell) (e : Entity)
  : result MarshalError bytes := MarshalTransferFrame (SerializeEntityCore vcm c e).

(** ** Creating an entity from a frame *)

Definition frame_with (f : TransferFrame) (epoch gen conn : Z) : TransferFrame :=
  mkFrame (NetworkID f) epoch gen (EntityType f) conn (GatewayID f) (GatewayConnID f)
    (Transfer.Username f) (Transfer.UserID f) (PosX f) (PosY f) (PosZ f) (VelX f) (VelY f) (VelZ f)
    (FRotation f) (FCollider f) (CellX f) (CellY f) (Transfer.DebugFlags f) (Components f).

Definition with_conn (f : TransferFrame) (conn : Z) : TransferFrame :=
  frame_with f (Epoch f) (Transfer.StreamGeneration f) conn.

(** The connection as this host numbers it. *)
Definition remap_conn (vcm : option VirtualConnManager) (cell : string) (f : TransferFrame)
  : option VirtualConnManager * Z :=
  match vcm with
  | Some v =>
      if negb (Transfer.ConnID f =? 0) && negb (GatewayConnID f =? 0)
      then let '(v, local) := RegisterSession v (mkSessionKey (name_of (GatewayID f)) (GatewayConnID f))
                                (name_of (Transfer.Username f)) 1 cell in
           (Some v, local)
      else (vcm, Transfer.ConnID f)
  | None => (None, Transfer.ConnID f)
  end.

(** The session of the connection, if there is one already, gets the entity. *)
Definition attach_session (pm : PlayerManager) (f : TransferFrame) (e : Entity) : PlayerManager :=
  if Transfer.ConnID f =? 0 then pm
  else match ByConnID pm (Transfer.ConnID f) with
       | None => pm
       | Some p =>
           upd_sess pm p (fun s =>
             with_UserID (Transfer.UserID f) (with_DebugFlags (Transfer.DebugFlags f)
               (with_stream (Transfer.StreamGeneration f) (ReplicationSuspended s) (with_Entity (Some e) s))))
       end.

(** *** The components of a received entity *)

Section Receive.
Context `{!Game}.

(** [ReplicationRegistry.Get]. *)
Definition replicator (id : Z) : option ComponentReplicator :=
  snd <$> list_find (fun r => cr_ID r = id) replRegistry.

(** One component of the frame: an unregistered one and one the frame carries in fields of
    its own are passed over, one the decoder refuses is dropped, and the walk goes on. *)
Definition apply_component (m : gmap Z bytes) (cs : ComponentSlice) : gmap Z bytes :=
  match replicator (ID cs) with
  | None => m
  | Some rep =>
      if SkipOnTransfer rep then m
      else match (match cr_Add rep with Some add => Some add | None => cr_Apply rep end) with
           | None => m
           | Some read => match read (m !! ID cs) (Data cs) with
                          | None => m
                          | Some v => partial_alter (fun _ => v) (ID cs) m
                          end
           end
  end.

(** A component of the kind that the entity lacks is added, zero. *)
Definition ensure_component (m : gmap Z bytes) (k : Z * bytes) : gmap Z bytes :=
  match m !! k.1 with Some _ => m | None => <[k.1 := k.2]> m end.

Definition EnsureEntityKindComponents (kind : Z) (m : gmap Z bytes) : gmap Z bytes :=
  fold_left ensure_component (kind_components kind) m.

(** What the registered scanners return of an entity that has these components. *)
Definition scan_components (m : gmap Z bytes) : list ComponentSlice :=
  omap (fun rep => if SkipOnTransfer rep then None else mkComponent (cr_ID rep) <$> m !! cr_ID rep) replRegistry.

Definition with_components (f : TransferFrame) (l : list ComponentSlice) : TransferFrame :=
  mkFrame (NetworkID f) (Epoch f) (Transfer.StreamGeneration f) (EntityType f) (Transfer.ConnID f) (GatewayID f)
    (GatewayConnID f) (Transfer.Username f) (Transfer.UserID f) (PosX f) (PosY f) (PosZ f) (VelX f) (VelY f) (VelZ f)
    (FRotation f) (FCollider f) (CellX f) (CellY f) (Transfer.DebugFlags f) l.

Definition components_of (f : TransferFrame) : gmap Z bytes :=
  EnsureEntityKindComponents (EntityType f) (fold_left apply_component (Components f) ∅).

(** The values of the entity spawned from [f]. *)
Definition received (f : TransferFrame) : TransferFrame :=
  onTransferReceived (with_components f (scan_components (components_of f))) f.

(** [SpawnFromTransferCore] with a Live presence, on top of its identity-bearing part. *)
Definition spawnFromTransfer (vcm : option VirtualConnManager) (c : HostCell) (data : bytes)
  : option VirtualConnManager * HostCell * result SpawnError (Entity * TransferFrame) :=
  match UnmarshalTransferFrame data with
  | Done f0 _ =>
      let '(vcm, conn) := remap_conn vcm (cellID (hc_stage c)) f0 in
      let f := with_conn f0 conn in
      let e := nextEntity (hc_stage c) in
      let '(st, res) := SpawnFromTransferCore (hc_stage c) data PresenceLive in
      let w := set_comps (set_wstage (hc_world c) st) (<[e := mkComp (received f) false false]> (w_comps (hc_world c))) in
      let c := with_players (with_world c w) (attach_session (hc_players c) f e) in
      (vcm, c, match res with Ok _ => Ok (e, f) | Err x => Err x end)
  | Fail _ | Panic => (vcm, c, Err ErrDecode)
  end.
End Receive.

(** A seed for the destination's view: [producedAtMs] is the clock at that point. *)
Definition replica_accepted (st : Stage) (netID epoch : Z) : bool :=
  negb (match replica_row st netID with
        | Some (_, row) => stale epoch (net_Epoch (e_net row)) | None => false end)
  && negb (match highestSeenEpoch st !! netID with Some prev => stale epoch prev | None => false end)
  && negb (bool_decide (presence (netIDIdx st) netID = PresenceLive)).

(** The values of a replica: an existing one takes over motion and radius, a new one gets
    them and nothing else but its kind's components, zero; it has no connection. *)
Definition seed_values `{!Game} (root : CellID) (old : option TransferFrame) (f : TransferFrame) : TransferFrame :=
  match old with
  | Some o =>
      mkFrame (NetworkID o) (Epoch o) (Transfer.StreamGeneration o) (EntityType o) (Transfer.ConnID o) (GatewayID o)
        (GatewayConnID o) (Transfer.Username o) (Transfer.UserID o) (PosX f) (PosY f) (PosZ f) (VelX f) (VelY f) (VelZ f)
        (FRotation f) (let k := FCollider o in
                       mkCollider (Radius (FCollider f)) (Width k) (Height k) (Transfer.Depth k) (Layer k) (Shape k))
        (CellX o) (CellY o) (Transfer.DebugFlags o) (Components o)
  | None =>
      mkFrame (NetworkID f) (Epoch f) 0 (EntityType f) 0 [] 0 [] Transfer.uuidNil (PosX f) (PosY f) (PosZ f)
        (VelX f) (VelY f) (VelZ f) (FRotation f) (mkCollider (Radius (FCollider f)) 0 0 0 0 0) (X root) (Y root) 0
        (scan_components (EnsureEntityKindComponents (EntityType f) ∅))
  end.

Definition upsertBorderReplicaFromTransfer `{!Game} (producedAtMs : Z) (c : HostCell) (f : TransferFrame)
  (sourceCellID : string) : HostCell :=
  let st := hc_stage c in
  let st' := upsertBorderReplica st (NetworkID f) (Epoch f) sourceCellID producedAtMs in
  let comps := w_comps (hc_world c) in
  let comps := match replicaNetIDs st' !! NetworkID f with
               | Some e => if replica_accepted st (NetworkID f) (Epoch f)
                           then <[e := let old := fst <$> replica_row st (NetworkID f) in
                                  let k := comp_of (hc_world c) e in
                                  mkComp (seed_values (root_of (hc_id c)) ((fun _ => cp_frame k) <$> old) f)
                                    (cp_ghost k && bool_decide (is_Some old)) (cp_dormant k && bool_decide (is_Some old))]> comps
                           else comps
               | None => comps
               end in
  with_world c (set_comps (set_wstage (hc_world c) st') comps).

(** ** Promotes (cell.go) *)

Section Cell.
Context `{!Iteration} `{!Game}.

Definition commit_promote (acc : option VirtualConnManager * HostCell) (p : pendingPromote)
  : option VirtualConnManager * HostCell :=
  let '(vcm, c) := acc in
  match pp_transferBlob p with
  | [] => acc
  | _ =>
      let st := hc_stage c in
      let '(tip, c) :=
        match netIDIdx st !! pp_netID p with
        | Some (mkSlot e PresenceReplica) =>
            (Some (comp_of (hc_world c) e), with_hstage c (RemoveReplicaByNetID st (pp_netID p)))
        | _ => (None, c)
        end in
      match spawnFromTransfer vcm c (pp_transferBlob p) with
      | (vcm, c, Err _) => (vcm, c)
      | (vcm, c, Ok (e, f)) =>
          let c := with_hstage c (set_epoch (hc_stage c) e (pp_epoch p)) in
          (vcm, match tip with
                | Some tip => with_world c (set_comps (hc_world c)
                                (<[e := mkComp (with_conn (destale tip (cp_frame (comp_of (hc_world c) e))) (Transfer.ConnID f)) false false]>
                                   (w_comps (hc_world c))))
                | None => c
                end)
      end
  end.

Definition set_promotes (c : HostCell) (m : gmap Z (list pendingPromote)) : HostCell :=
  let k := w_cell (hc_world c) in
  with_world c (set_wcell (hc_world c) (mkCell (stage k) (driver k) m)).

Definition drain_promotes (now : Z) (vcm : option VirtualConnManager) (c : HostCell)
  : option VirtualConnManager * HostCell :=
  let queued := pendingPromotes (w_cell (hc_world c)) in
  let due := filter (fun e => e.1 <= now) queued in
  let '(vcm, c) := fold_left commit_promote (concat (map_to_list due).*2) (vcm, c) in
  (vcm, set_promotes c (filter (fun e => ~ e.1 <= now) queued)).

(** ** Viewers of a cell in transfer *)

Definition suspend (s : PlayerSession) : PlayerSession :=
  with_stream (PlayerManager.StreamGeneration s) true s.

Definition to_suspend (pm : PlayerManager) (p : nat) : bool :=
  match PlayerManager.heap pm !! p with
  | Some s => negb (PlayerManager.ConnID s =? 0) && negb (State s =? StatePending)
              && negb (ReplicationSuspended s)
  | None => false
  end.

Definition transition_from (from to : Z) (acc : World * PlayerManager) (p : nat) : World * PlayerManager :=
  match PlayerManager.heap acc.2 !! p with
  | Some s => if State s =? from then (Transition acc.1 acc.2 p to).1 else acc
  | None => acc
  end.

Definition DeactivateTransferViewers (c : HostCell) : HostCell :=
  let pm := hc_players c in
  let moved := filter (fun p => to_suspend pm p = true)
                 (AllSessions (sessions_order (PlayerManager.sessions pm)) pm) in
  let pm := fold_left (fun pm p => upd_sess pm p suspend) moved pm in
  let '(w, pm) := fold_left (transition_from StateActive StateTransferring) moved (hc_world c, pm) in
  with_viewers (with_players (with_world c w) pm) (transferDeactivatedViewers c ++ moved).

Definition resume (s : PlayerSession) : PlayerSession :=
  with_stream (u32 (PlayerManager.StreamGeneration s + 2)) false s.

Definition reactivate (acc : World * PlayerManager) (p : nat) : World * PlayerManager :=
  transition_from StateTransferring StateActive (acc.1, upd_sess acc.2 p resume) p.

Definition ReactivateTransferViewers (c : HostCell) : HostCell :=
  let '(w, pm) := fold_left reactivate (transferDeactivatedViewers c) (hc_world c, hc_players c) in
  with_viewers (with_players (with_world c w) pm) [].

(** The end of a tick. *)
Definition flush_tick (c : HostCell) : HostCell := with_world c (FlushRemovals (hc_world c)).

(** ** Walking a cell's entities *)

Definition rows (c : HostCell) : list Entity := visit (world (hc_stage c)).

(** The commit-path filter: neither ghosts nor replicas. *)
Definition authoritative (c : HostCell) (e : Entity) : bool :=
  negb (ghost (hc_world c) e) && negb (is_replica (hc_world c) e).

Definition live_rows (c : HostCell) : list Entity := filter (fun e => authoritative c e = true) (rows c).

Fixpoint serialize_each (vcm : option VirtualConnManager) (c : HostCell) (es : list Entity)
  : result MarshalError (list bytes) :=
  match es with
  | [] => Ok []
  | e :: es =>
      let! data := SerializeEntity vcm c e in
      let! rest := serialize_each vcm c es in
      Ok (data :: rest)
  end.

Definition serializeAllEntities (vcm : option VirtualConnManager) (c : HostCell)
  : result MarshalError (list bytes) := serialize_each vcm c (live_rows c).

Definition pos_of (w : World) (e : Entity) : f32 * f32 :=
  let f := cp_frame (comp_of w e) in (f32_of_bits (PosX f), f32_of_bits (PosY f)).

(** [0] or [1] in each direction: which side of the middle. *)
Definition side (half x : f32) : Z := if f32_le half x then 1 else 0.

Definition quadrant_of (base : f32) (c : HostCell) (e : Entity) : Z :=
  let half := f32_div (Size (hc_id c) base) (f32_of_int 2) in
  let '(x, y) := pos_of (hc_world c) e in
  Z.lor (side half x) (Z.shiftl (side half y) 1).

(** [None] is the invalid quadrant. *)
Definition serializeQuadrantEntities (base : f32) (vcm : option VirtualConnManager) (c : HostCell) (q : Z)
  : option (result MarshalError (list bytes)) :=
  if (q <? 0) || (3 <? q) then None
  else Some (serialize_each vcm c (filter (fun e => quadrant_of base c e = q) (live_rows c))).

(** Border context: [include] answers with the cell an entity is attributed to.  The cap
    counts what has been taken; 0 is no cap. *)
Fixpoint collect_context (vcm : option VirtualConnManager) (c : HostCell) (maxCount : Z)
  (include : Entity -> option string) (taken : Z) (es : list Entity)
  : result MarshalError (list (bytes * string)) :=
  match es with
  | [] => Ok []
  | e :: es =>
      match include e with
      | None => collect_context vcm c maxCount include taken es
      | Some source =>
          if (0 <? maxCount) && (maxCount <=? taken) then Ok []
          else
            let! data := SerializeEntity vcm c e in
            let! rest := collect_context vcm c maxCount include (taken + 1) es in
            Ok ((data, source) :: rest)
      end
  end.

Definition collectBorderContextFor (vcm : option VirtualConnManager) (c : HostCell) (maxCount : Z)
  (include : Entity -> option string) : result MarshalError (list (bytes * string)) :=
  collect_context vcm c maxCount include 0
    (filter (fun e => ghost (hc_world c) e = false /\ dormant (hc_world c) e = false) (rows c)).

End Cell.
