(* ===== verification/TransferExec.v ===== *)
(** * The host side of a cell transfer (pkg/universe/cell_transfer_executor.go)

    A host ships the state of a cell ([Execute]), builds or fills the destination
    ([Receive]), and undoes or keeps what it did when the coordinator says so ([Abort],
    [Commit]).  The state is the process's: its cells in a store, reached through the
    hosts' maps and through the executors' rollback records, its virtual connections and
    its session index.  A job on a cell's game loop is one step; [x_loop] says whether
    the loop got to it before the deadline.  JSON is the class [SessionCodec]. *)

From S2P Require Import Prelude Float32 CellId NetId SessionRoutes ControlPlane CellTransfer.
From S2P Require Import VirtualConn PlayerManager Transfer Handoff HostCell.

(** ** Records on the wire *)

Definition packRecords (records : list bytes) : bytes :=
  match records with
  | [] => []
  | _ => be_bytes 4 (Z.of_nat (length records)) ++
         concat (map (fun r => be_bytes 4 (Z.of_nat (length r)) ++ r) records)
  end.

Inductive UnpackError := ErrShortHeader | ErrCount | ErrTruncatedLength | ErrTruncatedData.

Fixpoint unpack_loop (count : nat) (buf : bytes) : result UnpackError (list bytes) :=
  match count with
  | O => Ok []
  | S count =>
      if (length buf <? 4)%nat then Err ErrTruncatedLength
      else
        let n := be_val (take 4 buf) in
        let rest := drop 4 buf in
        if Z.of_nat (length rest) <? n then Err ErrTruncatedData
        else
          let! recs := unpack_loop count (drop (Z.to_nat n) rest) in
          Ok (take (Z.to_nat n) rest :: recs)
  end.

Definition unpackRecords (buf : bytes) : result UnpackError (list bytes) :=
  match buf with
  | [] => Ok []
  | _ =>
      if (length buf <? 4)%nat then Err ErrShortHeader
      else
        let count := be_val (take 4 buf) in
        if Z.of_nat ((length buf - 4) / 4) <? count then Err ErrCount
        else unpack_loop (Z.to_nat count) (drop 4 buf)
  end.

(** A session without an entity (message.go). *)
Record SessionTransfer := mkSessionTransfer {
  st_ConnID : Z;
  st_GatewayID : string;
  st_GatewayConnID : Z;
  st_SessionEpoch : Z;
  st_UserID : bytes;
  st_Username : string;
  st_StreamGeneration : Z;
  st_StateTag : string
}.

(** [encoding/json] on it; it reads back what it wrote when the names are ASCII (it
    replaces invalid UTF-8). *)
Definition ascii_name (s : string) : Prop := Forall (fun r => r < 128) (str s).

Class SessionCodec := {
  marshal_session_transfer : SessionTransfer -> option bytes;
  unmarshal_session_transfer : bytes -> option SessionTransfer;
  session_codec_law st b :
    ascii_name (st_GatewayID st) -> ascii_name (st_Username st) -> ascii_name (st_StateTag st) ->
    marshal_session_transfer st = Some b -> unmarshal_session_transfer b = Some st
}.

Record CellTransferMsg := mkTransfer {
  ct_RequestID : Z;
  ct_Kind : CellTransferKind;
  ct_SrcCellID : string;
  ct_DestCellID : string;
  ct_DestHostID : string;
  ct_Quadrant : Z;
  ct_Entities : bytes;
  ct_Sessions : bytes;
  ct_Context : list (bytes * string)
}.

(** ** State *)

Record pendingReceive := mkReceive { pv_cellID : CellID; pv_cell : nat }.

Record mergeImportedSession := mkImported { im_session : nat; im_vcmKey : SessionKey; im_dropVCM : bool }.

Record cellTransferExecutor := mkExecutor {
  pending : gmap Z (gmap string pendingReceive);
  mergeSources : gmap Z (gmap string nat);
  mergeSurvivors : gmap Z nat;
  mergeNativeLive : gmap Z (gset Z);
  mergeImportedLive : gmap Z (gmap Z Entity);
  mergeImportedSessions : gmap Z (gmap Z mergeImportedSession);
  transferSrcCells : gmap Z (gmap string nat)
}.

Definition newCellTransferExecutor : cellTransferExecutor := mkExecutor ∅ ∅ ∅ ∅ ∅ ∅ ∅.

Definition upd_imports (x : cellTransferExecutor) (n : gmap Z (gset Z)) (l : gmap Z (gmap Z Entity))
  (s : gmap Z (gmap Z mergeImportedSession)) : cellTransferExecutor :=
  mkExecutor (pending x) (mergeSources x) (mergeSurvivors x) n l s (transferSrcCells x).
Definition upd_sources (x : cellTransferExecutor) (m s : gmap Z (gmap string nat)) : cellTransferExecutor :=
  mkExecutor (pending x) m (mergeSurvivors x) (mergeNativeLive x) (mergeImportedLive x)
    (mergeImportedSessions x) s.
Definition upd_survivors (x : cellTransferExecutor) (m : gmap Z nat) : cellTransferExecutor :=
  mkExecutor (pending x) (mergeSources x) m (mergeNativeLive x) (mergeImportedLive x)
    (mergeImportedSessions x) (transferSrcCells x).
Definition upd_pending (x : cellTransferExecutor) (m : gmap Z (gmap string pendingReceive)) : cellTransferExecutor :=
  mkExecutor m (mergeSources x) (mergeSurvivors x) (mergeNativeLive x) (mergeImportedLive x)
    (mergeImportedSessions x) (transferSrcCells x).

(** [m[req][key] = v], creating the inner map. *)
Definition insert2 {K A} `{Countable K} (req : Z) (key : K) (v : A) (m : gmap Z (gmap K A)) : gmap Z (gmap K A) :=
  <[req := <[key := v]> (default ∅ (m !! req))]> m.

(** Deleting [m[req][key]], and [m[req]] when nothing is left in it. *)
Definition delete2 {K A} `{Countable K} (req : Z) (key : K) (m : gmap Z (gmap K A)) : gmap Z (gmap K A) :=
  match m !! req with
  | None => m
  | Some inner =>
      let inner := delete key inner in
      if bool_decide (inner = ∅) then delete req m else <[req := inner]> m
  end.

Inductive Out :=
| OutTransfer (destHost destCell : string) (m : CellTransferMsg)
| OutReady (requestID : Z) (destCell host : string) (ok : bool) (adoptedUsers : list string)
| OutCommand (cmd : cellTransferCommand)
| OutAbort (host : string) (requestID : Z)
| OutCommit (host : string) (requestID : Z).

Record Process := mkProcess {
  pr_store : gmap nat HostCell;
  pr_next : nat;
  pr_hosts : gmap string (gmap CellID nat);
  pr_execs : gmap string cellTransferExecutor;
  pr_Cells : gmap string nat;
  pr_CellOwner : gmap CellID string;
  pr_vcm : option VirtualConnManager;
  pr_coord : Coord;
  pr_out : list Out
}.

Definition upd_store (p : Process) (s : gmap nat HostCell) : Process :=
  mkProcess s (pr_next p) (pr_hosts p) (pr_execs p) (pr_Cells p) (pr_CellOwner p) (pr_vcm p)
    (pr_coord p) (pr_out p).
Definition upd_exec (p : Process) (host : string) (f : cellTransferExecutor -> cellTransferExecutor) : Process :=
  mkProcess (pr_store p) (pr_next p) (pr_hosts p) (alter f host (pr_execs p)) (pr_Cells p)
    (pr_CellOwner p) (pr_vcm p) (pr_coord p) (pr_out p).
Definition upd_shared (p : Process) (v : option VirtualConnManager) (c : Coord) : Process :=
  mkProcess (pr_store p) (pr_next p) (pr_hosts p) (pr_execs p) (pr_Cells p) (pr_CellOwner p) v c (pr_out p).
Definition emit_out (p : Process) (o : Out) : Process :=
  mkProcess (pr_store p) (pr_next p) (pr_hosts p) (pr_execs p) (pr_Cells p) (pr_CellOwner p) (pr_vcm p)
    (pr_coord p) (pr_out p ++ [o]).

Definition exec_of (p : Process) (host : string) : cellTransferExecutor :=
  default newCellTransferExecutor (pr_execs p !! host).
Definition upd_cell (p : Process) (k : nat) (f : HostCell -> HostCell) : Process :=
  upd_store p (alter f k (pr_store p)).

(** [Host.CellByID] goes through the map's key, not the cell's own identity. *)
Definition CellByID (p : Process) (host cellKey : string) : option nat :=
  match ParseCellID (str cellKey) with
  | None => None
  | Some id => pr_hosts p !! host ≫= fun m => m !! id
  end.

(** [Cell.MeshID]. *)
Definition mesh_of (p : Process) (k : nat) : string :=
  match pr_store p !! k with Some c => cellID (hc_stage c) | None => "" end.

(** Configuration of the border context; [None] is no dynamic partitioning. *)
Record CtxConfig := mkCtx { IncludeBorderContext : bool; BorderContextRadius : f32; BorderContextMaxCount : Z }.

(** What the rest of the process answers: the cluster clock, whether the loop of a cell
    takes a job in time, whether a reliable send succeeds, what [createNode] builds. *)
Record ExecEnv := mkExecEnv {
  x_tick : Z;
  x_clockMs : Z;
  x_base : f32;
  x_aoi : f32;
  x_ctx : option CtxConfig;
  x_loop : nat -> bool;
  x_send : string -> bool;
  x_env : Env;
  x_new : CellID -> HostCell
}.

Inductive ExecError :=
| ErrSrcMissing | ErrKind | ErrQuadrant | ErrMarshal (e : MarshalError) | ErrNoSessionKey
| ErrEncodeSession | ErrParseDest | ErrLoop | ErrShip | ErrMergeTarget | ErrUnpack | ErrUnmarshal
| ErrReplace | ErrSpawn (e : SpawnError) | ErrIncompleteKey | ErrNoVCM | ErrDecodeSession.

Section Executor.
Context `{!Iteration} `{!Game} `{!SessionCodec}.

(** ** Shipping a cell *)

Definition state_tag (pm : PlayerManager) (state : Z) : string :=
  match StateName pm state with
  | Some n => n
  | None => of_runes (str "unknown(" ++ fmt_d state ++ str ")")
  end.

Definition entityless (c : HostCell) (s : PlayerSession) : bool :=
  negb (PlayerManager.ConnID s =? 0) && negb (State s =? StatePending)
  && negb (State s =? StateTransferring)
  && negb (match SEntity s with Some e => alive (hc_world c) e | None => false end).

Definition session_transfer (vcm : option VirtualConnManager) (c : HostCell) (s : PlayerSession)
  : result ExecError SessionTransfer :=
  let st gw conn epoch :=
    mkSessionTransfer (PlayerManager.ConnID s) gw conn epoch (PlayerManager.UserID s)
      (PlayerManager.Username s) (u32 (PlayerManager.StreamGeneration s + 1))
      (state_tag (hc_players c) (State s)) in
  match vcm with
  | None => Ok (st "" 0 0)%string
  | Some v =>
      match LookupRouteByLocal v (PlayerManager.ConnID s) with
      | None => Err ErrNoSessionKey
      | Some (key, epoch) => Ok (st (sk_GatewayID key) (sk_ConnID key) epoch)
      end
  end.

Fixpoint serialize_sessions (vcm : option VirtualConnManager) (c : HostCell) (ps : list nat)
  : result ExecError (list bytes) :=
  match ps with
  | [] => Ok []
  | p :: ps =>
      match PlayerManager.heap (hc_players c) !! p with
      | None => serialize_sessions vcm c ps
      | Some s =>
          if entityless c s then
            let! st := session_transfer vcm c s in
            match marshal_session_transfer st with
            | None => Err ErrEncodeSession
            | Some raw => let! rest := serialize_sessions vcm c ps in Ok (raw :: rest)
            end
          else serialize_sessions vcm c ps
      end
  end.

Definition serializeEntitylessSessions (vcm : option VirtualConnManager) (c : HostCell)
  : result ExecError (list bytes) :=
  serialize_sessions vcm c
    (AllSessions (sessions_order (PlayerManager.sessions (hc_players c))) (hc_players c)).

(** [float32(math.Sqrt(float64(x)))]. *)
Definition f32_sqrt (x : f32) : f32 :=
  match SFsqrt 53 1024 x with
  | S754_finite s m e => binary_normalize 24 128 (if s then Zneg m else Zpos m) e s
  | r => r
  end.

Definition pointRectDist (px py minX minY maxX maxY : f32) : f32 :=
  let away p lo hi := if f32_lt p lo then f32_sub lo p
                      else if f32_lt hi p then f32_sub p hi else f32_zero in
  let dx := away px minX maxX in
  let dy := away py minY maxY in
  let is_zero x := f32_le x f32_zero && f32_le f32_zero x in
  if is_zero dx && is_zero dy then f32_zero
  else f32_sqrt (f32_add (f32_mul dx dx) (f32_mul dy dy)).

Definition replica_source (c : HostCell) (e : Entity) : option string :=
  match world (hc_stage c) !! e with Some row => SourceCellID <$> e_replica row | None => None end.

(** The predicate of a split: what the child's viewers can see beyond its own
    entities, attributed to the sibling or to the replica's source. *)
Definition split_include (env : ExecEnv) (c : HostCell) (aoiR : f32) (q : Z) (e : Entity) : option string :=
  let half := f32_div (Size (hc_id c) (x_base env)) (f32_of_int 2) in
  let '(px, py) := pos_of (hc_world c) e in
  let minX := f32_mul (f32_of_int (Z.land q 1)) half in
  let minY := f32_mul (f32_of_int (Z.land (Z.shiftr q 1) 1)) half in
  if f32_lt aoiR (pointRectDist px py minX minY (f32_add minX half) (f32_add minY half)) then None
  else
    match replica_source c e with
    | Some src => Some src
    | None =>
        let eq := quadrant_of (x_base env) c e in
        if eq =? q then None
        else key_of <$> nth_error (Children (hc_id c)) (Z.to_nat eq)
    end.

Definition collectTransferContext (env : ExecEnv) (vcm : option VirtualConnManager) (c : HostCell)
  (cmd : cellTransferCommand) : result MarshalError (list (bytes * string)) :=
  match x_ctx env with
  | Some cfg => if IncludeBorderContext cfg
                then collectBorderContextFor vcm c (BorderContextMaxCount cfg)
                       (match cc_Kind cmd with
                        | CellTransferSplit =>
                            split_include env c (if f32_lt f32_zero (BorderContextRadius cfg)
                                                 then BorderContextRadius cfg else x_aoi env) (cc_Quadrant cmd)
                        | _ => replica_source c
                        end)
                else Ok []
  | None => collectBorderContextFor vcm c 0
              (match cc_Kind cmd with
               | CellTransferSplit => split_include env c (x_aoi env) (cc_Quadrant cmd)
               | _ => replica_source c
               end)
  end.

Definition flushDuePromotesForCommit (env : ExecEnv) (kind : CellTransferKind)
  (vcm : option VirtualConnManager) (c : HostCell) : option VirtualConnManager * HostCell :=
  drain_promotes (if decide (kind = CellTransferMerge) then 2 ^ 64 - 1 else x_tick env) vcm c.

Definition lift {A} (r : result MarshalError A) : result ExecError A :=
  match r with Ok a => Ok a | Err e => Err (ErrMarshal e) end.

Definition serialize_entities (env : ExecEnv) (vcm : option VirtualConnManager) (c : HostCell)
  (cmd : cellTransferCommand) : result ExecError (list bytes) :=
  match cc_Kind cmd with
  | CellTransferSplit =>
      match serializeQuadrantEntities (x_base env) vcm c (cc_Quadrant cmd) with
      | Some r => lift r
      | None => Err ErrQuadrant
      end
  | CellTransferMerge | CellTransferMigrate => lift (serializeAllEntities vcm c)
  | CellTransferUnspecified => Err ErrKind
  end.

Definition serialize_payload (env : ExecEnv) (vcm : option VirtualConnManager) (c : HostCell)
  (cmd : cellTransferCommand) : result ExecError (list bytes * list bytes * list (bytes * string)) :=
  let! ents := serialize_entities env vcm c cmd in
  let! sess := (if bool_decide (cc_Kind cmd <> CellTransferSplit) || (cc_Quadrant cmd =? 0)
                then serializeEntitylessSessions vcm c else Ok []) in
  let! ctx := lift (collectTransferContext env vcm c cmd) in
  Ok (ents, sess, ctx).

(** The job [Execute] runs on the source cell's loop. *)
Definition serialize_on_loop (env : ExecEnv) (cmd : cellTransferCommand)
  (vcm : option VirtualConnManager) (c : HostCell)
  : option VirtualConnManager * HostCell * result ExecError (list bytes * list bytes * list (bytes * string)) :=
  let c := if decide (cc_Kind cmd = CellTransferMerge) then SetDrainingForMerge true c else c in
  let '(vcm, c) := flushDuePromotesForCommit env (cc_Kind cmd) vcm c in
  match serialize_payload env vcm c cmd with
  | Err e => (vcm, c, Err e)
  | Ok payload => (vcm, DeactivateTransferViewers c, Ok payload)
  end.

(** ** Filling a destination *)

(** What a populate job touches. *)
Record Pop := mkPop {
  p_cell : HostCell; p_vcm : option VirtualConnManager; p_coord : Coord; p_exec : cellTransferExecutor
}.

Definition pop_cell (p : Pop) (c : HostCell) : Pop := mkPop c (p_vcm p) (p_coord p) (p_exec p).
Definition pop_vcm (p : Pop) (v : option VirtualConnManager) : Pop := mkPop (p_cell p) v (p_coord p) (p_exec p).
Definition pop_exec (p : Pop) (x : cellTransferExecutor) : Pop := mkPop (p_cell p) (p_vcm p) (p_coord p) x.
Definition pop_players (p : Pop) (pm : PlayerManager) : Pop := pop_cell p (with_players (p_cell p) pm).

Definition pop_mesh (p : Pop) : string := cellID (hc_stage (p_cell p)).

Definition touch (env : ExecEnv) (p : Pop) (uid : bytes) (user gw : string) (gwConn : Z) (host : option string) : Pop :=
  let host := default (HostForCellID (x_env env) (p_coord p) (pop_mesh p)) host in
  mkPop (p_cell p) (p_vcm p)
    (touchActiveUser (p_coord p) (uuid_of uid) user gw gwConn host (pop_mesh p)) (p_exec p).

(** [mergeSessionImportState]: the session already there, the key, and whether the key
    is new to this host. *)
Definition mergeSessionImportState (p : Pop) (sourceConnID : Z) (gatewayID : string) (gatewayConnID : Z)
  : option nat * SessionKey * bool :=
  match p_vcm p with
  | Some v =>
      if negb (String.eqb gatewayID "") && negb (gatewayConnID =? 0) then
        let key := mkSessionKey gatewayID gatewayConnID in
        match LookupByKey v key with
        | Some local => (ByConnID (hc_players (p_cell p)) local, key, false)
        | None => (ByConnID (hc_players (p_cell p)) sourceConnID, key, true)
        end
      else (ByConnID (hc_players (p_cell p)) sourceConnID, mkSessionKey "" 0, false)
  | None => (ByConnID (hc_players (p_cell p)) sourceConnID, mkSessionKey "" 0, false)
  end.

Definition mergeTransferFrameIsNewer (c : HostCell) (current : Entity) (incoming : TransferFrame) : bool :=
  match world (hc_stage c) !! current with
  | None => true
  | Some row =>
      let currentEpoch := net_Epoch (e_net row) in
      let incomingEpoch := u32 (Epoch incoming + 1) in
      if negb (incomingEpoch =? currentEpoch) then serialUint32After incomingEpoch currentEpoch
      else if Transfer.ConnID incoming =? 0 then false
      else
        let pm := hc_players c in
        match ByConnID pm (Transfer.ConnID (cp_frame (comp_of (hc_world c) current)))
                ≫= fun p => PlayerManager.heap pm !! p with
        | None => true
        | Some s => serialUint32After (u32 (Transfer.StreamGeneration incoming + 1))
                      (PlayerManager.StreamGeneration s)
        end
  end.

(** [None] is an entity that is no longer alive. *)
Definition removeMergeDonorLive (c : HostCell) (e : Entity) : option HostCell :=
  if alive (hc_world c) e then
    let pm := hc_players c in
    let conn := Transfer.ConnID (cp_frame (comp_of (hc_world c) e)) in
    let pm := if conn =? 0 then pm
              else match ByConnID pm conn with
                   | Some p => match PlayerManager.heap pm !! p with
                               | Some s => if decide (SEntity s = Some e) then RemoveTransferred pm p else pm
                               | None => pm
                               end
                   | None => pm
                   end in
    Some (with_world (with_players c pm) (RemoveEntityNowWithPolicy (hc_world c) e false).1)
  else None.

Definition mergeImportedEntity (x : cellTransferExecutor) (req netID : Z) (e : Entity) : bool :=
  match mergeImportedLive x !! req ≫= fun m => m !! netID with
  | Some imported => imported =? e
  | None => false
  end.

Definition recordMergeImportedEntity (x : cellTransferExecutor) (req netID : Z) (e : Entity) : cellTransferExecutor :=
  upd_imports x (mergeNativeLive x) (insert2 req netID e (mergeImportedLive x)) (mergeImportedSessions x).

Definition recordMergeImportedSession (x : cellTransferExecutor) (req id : Z) (i : mergeImportedSession)
  : cellTransferExecutor :=
  upd_imports x (mergeNativeLive x) (mergeImportedLive x) (insert2 req id i (mergeImportedSessions x)).

(** The network ids of the authoritative entities, with the entity the query visits
    last for each. *)
Definition existing_live (c : HostCell) : gmap Z Entity :=
  fold_left (fun m e => match world (hc_stage c) !! e with
                        | Some row => <[net_ID (e_net row) := e]> m
                        | None => m
                        end) (live_rows c) ∅.

Definition captureMergeNativeLive (x : cellTransferExecutor) (req : Z) (c : HostCell) : cellTransferExecutor :=
  if decide (is_Some (mergeNativeLive x !! req)) then x
  else upd_imports x (<[req := dom (existing_live c)]> (mergeNativeLive x)) (mergeImportedLive x)
         (mergeImportedSessions x).

(** [spawnCellTransferLive]: a new authority, one epoch on. *)
Definition advanced (f : TransferFrame) : TransferFrame :=
  frame_with f (u32 (Epoch f + 1))
    (if Transfer.ConnID f =? 0 then Transfer.StreamGeneration f else u32 (Transfer.StreamGeneration f + 1))
    (Transfer.ConnID f).

Definition spawnCellTransferLive (p : Pop) (f : TransferFrame) : Pop * result ExecError (Entity * TransferFrame) :=
  match MarshalTransferFrame (advanced f) with
  | Err e => (p, Err (ErrMarshal e))
  | Ok blob =>
      match spawnFromTransfer (p_vcm p) (p_cell p) blob with
      | (v, c, Ok r) => (mkPop c v (p_coord p) (p_exec p), Ok r)
      | (v, c, Err e) => (mkPop c v (p_coord p) (p_exec p), Err (ErrSpawn e))
      end
  end.

(** The fields populate writes into the session it has just registered. *)
Definition wire_session (pm : PlayerManager) (conn : Z) (f : PlayerSession -> PlayerSession) : PlayerManager :=
  match ByConnID pm conn with Some p => upd_sess pm p f | None => pm end.

Definition imported_fields (e : Entity) (f : TransferFrame) (s : PlayerSession) : PlayerSession :=
  with_UserID (Transfer.UserID f) (with_DebugFlags (Transfer.DebugFlags f)
    (with_stream (Transfer.StreamGeneration f) (ReplicationSuspended s) (with_Entity (Some e) s))).

Definition record_session (merge : bool) (req : Z) (prior : option nat) (key : SessionKey) (drop : bool)
  (conn : Z) (p : Pop) : Pop :=
  let pm := hc_players (p_cell p) in
  match ByConnID pm conn with
  | Some ptr =>
      match PlayerManager.heap pm !! ptr, prior with
      | Some s, None => if merge then pop_exec p (recordMergeImportedSession (p_exec p) req
                                       (PlayerManager.ID s) (mkImported ptr key drop)) else p
      | _, _ => p
      end
  | None => p
  end.

(** The entity is there already: its session is wired to it all the same. *)
Definition retain_existing (env : ExecEnv) (p : Pop) (f : TransferFrame) (ent : Entity) : Pop * list string :=
  let user := name_of (Transfer.Username f) in
  if (Transfer.ConnID f =? 0) || String.eqb user "" then (p, [])
  else if negb (LookupNetID (hc_stage (p_cell p)) (NetworkID f)).2 then (p, [])
  else
    let '(v, local) :=
      match p_vcm p with
      | Some v =>
          if GatewayConnID f =? 0 then (p_vcm p, Transfer.ConnID f)
          else let '(v, local) := RegisterSession v (mkSessionKey (name_of (GatewayID f)) (GatewayConnID f))
                                    user 1 (pop_mesh p) in (Some v, local)
      | None => (None, Transfer.ConnID f)
      end in
    let p := pop_vcm p v in
    let pm := RegisterSessionTransfer (hc_players (p_cell p)) local user "active" in
    let pm := wire_session pm local (fun s =>
                with_UserID (Transfer.UserID f) (with_DebugFlags (Transfer.DebugFlags f) (with_Entity (Some ent) s))) in
    (touch env (pop_players p pm) (Transfer.UserID f) user (name_of (GatewayID f)) (GatewayConnID f) None, [user]).

(** A new entity for the frame, and its session. *)
Definition import_entity (env : ExecEnv) (merge : bool) (req : Z) (p : Pop) (f : TransferFrame)
  (prior : option nat * SessionKey * bool) (existing : gmap Z Entity)
  : Pop * result ExecError (gmap Z Entity * list string) :=
  let p := pop_cell p (with_hstage (p_cell p) (RemoveReplicaByNetID (hc_stage (p_cell p)) (NetworkID f))) in
  match spawnCellTransferLive p f with
  | (p, Err e) => (p, Err e)
  | (p, Ok (e, sf)) =>
      let existing := <[NetworkID f := e]> existing in
      let p := if merge then pop_exec p (recordMergeImportedEntity (p_exec p) req (NetworkID f) e) else p in
      let user := name_of (Transfer.Username sf) in
      if (Transfer.ConnID sf =? 0) || String.eqb user "" then (p, Ok (existing, []))
      else
        let pm := RegisterSessionTransfer (hc_players (p_cell p)) (Transfer.ConnID sf) user "active" in
        let pm := wire_session pm (Transfer.ConnID sf) (imported_fields e sf) in
        let p := pop_players p pm in
        let '(ps, key, drop) := prior in
        let p := record_session merge req ps key drop (Transfer.ConnID sf) p in
        (touch env p (Transfer.UserID sf) user (name_of (GatewayID sf)) (GatewayConnID sf) None,
         Ok (existing, [user]))
  end.

Definition populate_entity (env : ExecEnv) (merge : bool) (req : Z) (p : Pop) (existing : gmap Z Entity)
  (blob : bytes) : Pop * result ExecError (gmap Z Entity * list string) :=
  match UnmarshalTransferFrame blob with
  | Fail _ | Panic => (p, Err ErrUnmarshal)
  | Done f _ =>
      let prior := if merge && negb (Transfer.ConnID f =? 0)
                   then mergeSessionImportState p (Transfer.ConnID f) (name_of (GatewayID f)) (GatewayConnID f)
                   else (None, mkSessionKey "" 0, false) in
      match existing !! NetworkID f with
      | None => import_entity env merge req p f prior existing
      | Some ent =>
          let native := bool_decide (NetworkID f ∈ default ∅ (mergeNativeLive (p_exec p) !! req)) in
          if merge && negb native && mergeImportedEntity (p_exec p) req (NetworkID f) ent
             && mergeTransferFrameIsNewer (p_cell p) ent f
          then match removeMergeDonorLive (p_cell p) ent with
               | None => (p, Err ErrReplace)
               | Some c => import_entity env merge req (pop_cell p c) f prior (delete (NetworkID f) existing)
               end
          else let '(p, users) := retain_existing env p f ent in (p, Ok (existing, users))
      end
  end.

Fixpoint populate_entities (env : ExecEnv) (merge : bool) (req : Z) (p : Pop) (existing : gmap Z Entity)
  (blobs : list bytes) : Pop * result ExecError (gmap Z Entity * list string) :=
  match blobs with
  | [] => (p, Ok (existing, []))
  | b :: blobs =>
      match populate_entity env merge req p existing b with
      | (p, Err e) => (p, Err e)
      | (p, Ok (existing, users)) =>
          match populate_entities env merge req p existing blobs with
          | (p, Err e) => (p, Err e)
          | (p, Ok (existing, more)) => (p, Ok (existing, users ++ more))
          end
      end
  end.

(** The connection of a session on this host: a keyed session never falls back to the
    source's number. *)
Definition destinationConnIDForSessionTransfer (p : Pop) (st : SessionTransfer) : Pop * result ExecError Z :=
  let hasGateway := negb (String.eqb (st_GatewayID st) "") in
  let hasConn := negb (st_GatewayConnID st =? 0) in
  if negb hasGateway && negb hasConn then (p, Ok (st_ConnID st))
  else if negb hasGateway || negb hasConn then (p, Err ErrIncompleteKey)
  else
    match p_vcm p with
    | None => (p, Err ErrNoVCM)
    | Some v =>
        let '(v, local) := RegisterSession v (mkSessionKey (st_GatewayID st) (st_GatewayConnID st))
                             (st_Username st) (st_SessionEpoch st) (pop_mesh p) in
        (pop_vcm p (Some v), Ok local)
    end.

Definition populate_session (env : ExecEnv) (merge : bool) (req : Z) (destHost : string) (p : Pop) (blob : bytes)
  : Pop * result ExecError (list string) :=
  match unmarshal_session_transfer blob with
  | None => (p, Err ErrDecodeSession)
  | Some st =>
      if st_ConnID st =? 0 then (p, Ok [])
      else
        let '(prior, key, drop) :=
          mergeSessionImportState p (st_ConnID st) (st_GatewayID st) (st_GatewayConnID st) in
        match destinationConnIDForSessionTransfer p st with
        | (p, Err e) => (p, Err e)
        | (p, Ok local) =>
            let pm := RegisterSessionTransfer (hc_players (p_cell p)) local (st_Username st) (st_StateTag st) in
            let pm := wire_session pm local (fun s =>
                        with_UserID (st_UserID st)
                          (with_stream (st_StreamGeneration st) (ReplicationSuspended s) s)) in
            let p := record_session merge req prior key drop local (pop_players p pm) in
            (touch env p (st_UserID st) (st_Username st) (st_GatewayID st) (st_GatewayConnID st) (Some destHost),
             Ok (if String.eqb (st_Username st) "" then [] else [st_Username st]))
        end
  end.

Fixpoint populate_sessions (env : ExecEnv) (merge : bool) (req : Z) (destHost : string) (p : Pop)
  (blobs : list bytes) : Pop * result ExecError (list string) :=
  match blobs with
  | [] => (p, Ok [])
  | b :: blobs =>
      match populate_session env merge req destHost p b with
      | (p, Err e) => (p, Err e)
      | (p, Ok users) =>
          match populate_sessions env merge req destHost p blobs with
          | (p, Err e) => (p, Err e)
          | (p, Ok more) => (p, Ok (users ++ more))
          end
      end
  end.

(** A context entry that does not decode is skipped, and none shadows an authority. *)
Definition populate_context (env : ExecEnv) (existing : gmap Z Entity) (c : HostCell) (entry : bytes * string)
  : HostCell :=
  match UnmarshalTransferFrame entry.1 with
  | Done f _ =>
      if decide (is_Some (existing !! NetworkID f)) then c
      else upsertBorderReplicaFromTransfer (x_clockMs env) c f entry.2
  | Fail _ | Panic => c
  end.

Definition populateCell (env : ExecEnv) (hostID : string) (m : CellTransferMsg) (p : Pop)
  : Pop * result ExecError (list string) :=
  match unpackRecords (ct_Entities m) with
  | Err _ => (p, Err ErrUnpack)
  | Ok blobs =>
      let merge := bool_decide (ct_Kind m = CellTransferMerge) in
      let destHost := if String.eqb (ct_DestHostID m) "" then hostID else ct_DestHostID m in
      match populate_entities env merge (ct_RequestID m) p (existing_live (p_cell p)) blobs with
      | (p, Err e) => (p, Err e)
      | (p, Ok (existing, users)) =>
          match unpackRecords (ct_Sessions m) with
          | Err _ => (p, Err ErrUnpack)
          | Ok sblobs =>
              match populate_sessions env merge (ct_RequestID m) destHost p sblobs with
              | (p, Err e) => (p, Err e)
              | (p, Ok more) =>
                  (pop_cell p (fold_left (populate_context env existing) (ct_Context m) (p_cell p)),
                   Ok (users ++ more))
              end
          end
      end
  end.

End Executor.
