(* ===== verification/TransferHost.v ===== *)
(** * A host's part in a cell transfer (pkg/universe/cell_transfer_executor.go)

    The operations of a host on its process, on top of the jobs of TransferExec.v:
    [Execute] on the source, [Receive] on the destination, and [Abort] or [Commit] on
    both when the coordinator has decided; [renameCellOnNode] gives the survivor of a
    merge its parent's identity, [drainDonorResidualsToSurvivor] rescues what reached a
    donor late.  Reports to the coordinator are put out; its answers come back as
    further operations. *)

From S2P Require Import Prelude Float32 CellId NetId SessionRoutes ControlPlane CellTransfer.
From S2P Require Import VirtualConn PlayerManager Transfer Handoff HostCell TransferExec.

Section Host.
Context `{!Iteration} `{!Game} `{!SessionCodec}.

(** ** Jobs on a cell's loop *)

(** A stopped loop refuses, a busy one may miss the deadline; the job then never runs. *)
Definition on_loop (env : ExecEnv) (p : Process) (k : nat) : option HostCell :=
  match pr_store p !! k with
  | Some c => if x_loop env k && negb (hc_stopped c) then Some c else None
  | None => None
  end.

Definition put_cell (p : Process) (k : nat) (c : HostCell) : Process :=
  upd_store p (<[k := c]> (pr_store p)).

(** Running a populate job: the cell, the virtual connections, the session index and
    the executor of the host are what it may change. *)
Definition put_pop (p : Process) (host : string) (k : nat) (r : Pop) : Process :=
  let p := upd_exec (put_cell p k (p_cell r)) host (fun _ => p_exec r) in
  upd_shared p (p_vcm r) (p_coord r).

Definition start_pop (p : Process) (host : string) (c : HostCell) : Pop :=
  mkPop c (pr_vcm p) (pr_coord p) (exec_of p host).

Definition reportReady (p : Process) (host : string) (m : CellTransferMsg) (ok : bool) (users : list string)
  : Process := emit_out p (OutReady (ct_RequestID m) (ct_DestCellID m) host ok users).

(** ** Undoing *)

(** Every suspended viewer is pointed back here before it resumes. *)
Definition restore_viewer (host mesh : string) (pm : PlayerManager)
  (acc : option VirtualConnManager * Coord) (ptr : nat) : option VirtualConnManager * Coord :=
  match PlayerManager.heap pm !! ptr with
  | None => acc
  | Some s =>
      let '(vcm, gw, gwConn) :=
        match acc.1 ≫= fun v => (pair v) <$> LookupRouteByLocal v (PlayerManager.ConnID s) with
        | Some (v, (key, epoch)) =>
            (Some (RegisterSession v key (PlayerManager.Username s) epoch mesh).1, sk_GatewayID key, sk_ConnID key)
        | None => (acc.1, ""%string, 0)
        end in
      (vcm, touchActiveUser acc.2 (uuid_of (PlayerManager.UserID s)) (PlayerManager.Username s) gw gwConn host mesh)
  end.

Definition reactivateSourceViewers (env : ExecEnv) (host : string) (p : Process) (k : nat) : Process :=
  match on_loop env p k with
  | None => p
  | Some c =>
      let '(vcm, coord) := fold_left (restore_viewer host (cellID (hc_stage c)) (hc_players c))
                             (transferDeactivatedViewers c) (pr_vcm p, pr_coord p) in
      upd_shared (put_cell p k (ReactivateTransferViewers c)) vcm coord
  end.

Definition stop_cell (c : HostCell) : HostCell :=
  mkHostCell (hc_id c) (hc_world c) (hc_players c) (transferDeactivatedViewers c) true.

Definition teardown_one (host : string) (p : Process) (entry : string * pendingReceive) : Process :=
  let '(key, pr) := entry in
  let p := upd_cell p (pv_cell pr) stop_cell in
  mkProcess (pr_store p) (pr_next p) (alter (delete (pv_cellID pr)) host (pr_hosts p)) (pr_execs p)
    (delete key (pr_Cells p)) (delete (pv_cellID pr) (pr_CellOwner p)) (pr_vcm p) (pr_coord p) (pr_out p).

Definition teardownPending (host : string) (req : Z) (p : Process) : Process :=
  match pending (exec_of p host) !! req with
  | None => p
  | Some m =>
      fold_left (teardown_one host) (keyed m)
        (upd_exec p host (fun x => upd_pending x (delete req (pending x))))
  end.

(** The second component is false after an error, which stops the rollback where it is. *)
Definition rollback_live (acc : HostCell * bool) (entry : Z * Entity) : HostCell * bool :=
  if acc.2 then
    match LookupNetID (hc_stage acc.1) entry.1 with
    | (Some current, PresenceLive, true) =>
        if current =? entry.2
        then match removeMergeDonorLive acc.1 entry.2 with
             | Some c => (c, true)
             | None => (acc.1, false)
             end
        else acc
    | _ => acc
    end
  else acc.

Definition rollback_session (acc : HostCell * option VirtualConnManager) (entry : Z * mergeImportedSession)
  : HostCell * option VirtualConnManager :=
  let '(c, vcm) := acc in
  let im := entry.2 in
  match PlayerManager.heap (hc_players c) !! im_session im with
  | None => acc
  | Some s =>
      let current := ByConnID (hc_players c) (PlayerManager.ConnID s) in
      let ours := bool_decide (current = Some (im_session im)) in
      let c := if ours then with_players c (RemoveTransferred (hc_players c) (im_session im)) else c in
      let gone := ours || bool_decide (current = None) in
      let vcm := match vcm with
                 | Some v => if im_dropVCM im && gone
                                && bool_decide (LookupByKey v (im_vcmKey im) = Some (PlayerManager.ConnID s))
                             then Some (DropSession v (im_vcmKey im)).1 else Some v
                 | None => None
                 end in
      (c, vcm)
  end.

Definition rollback_job (live : list (Z * Entity)) (sess : list (Z * mergeImportedSession))
  (c : HostCell) (vcm : option VirtualConnManager) : HostCell * option VirtualConnManager :=
  let '(c, ok) := fold_left rollback_live live (c, true) in
  if ok then
    let '(c, vcm) := fold_left rollback_session sess (c, vcm) in
    (SetDrainingForMerge false c, vcm)
  else (c, vcm).

Definition rollbackMergeImports (env : ExecEnv) (p : Process) (survivor : nat)
  (live : gmap Z Entity) (sess : gmap Z mergeImportedSession) : Process :=
  match on_loop env p survivor with
  | None => p
  | Some c =>
      let '(c, vcm) := rollback_job (numbered live) (numbered sess) c (pr_vcm p) in
      upd_shared (put_cell p survivor c) vcm (pr_coord p)
  end.

(** Everything the executor remembers of a request, but its pending cells. *)
Definition forget_request (req : Z) (x : cellTransferExecutor) : cellTransferExecutor :=
  mkExecutor (pending x) (delete req (mergeSources x)) (delete req (mergeSurvivors x))
    (delete req (mergeNativeLive x)) (delete req (mergeImportedLive x))
    (delete req (mergeImportedSessions x)) (delete req (transferSrcCells x)).

Definition Abort (env : ExecEnv) (host : string) (req : Z) (p : Process) : Process :=
  let x := exec_of p host in
  let sources := keyed (default ∅ (mergeSources x !! req)) in
  let suspended := keyed (default ∅ (transferSrcCells x !! req)) in
  let p := upd_exec p host (forget_request req) in
  let p := fold_left (fun p e => upd_cell p e.2 (SetDrainingForMerge false)) sources p in
  let p := match mergeSurvivors x !! req with
           | Some k => rollbackMergeImports env p k (default ∅ (mergeImportedLive x !! req))
                         (default ∅ (mergeImportedSessions x !! req))
           | None => p
           end in
  let p := fold_left (fun p e => reactivateSourceViewers env host p e.2) suspended p in
  teardownPending host req p.

Definition Commit (host : string) (req : Z) (p : Process) : Process :=
  upd_exec p host (fun x => upd_pending (forget_request req x) (delete req (pending x))).

(** ** The destination *)

(** The survivor's armed demotes to the siblings about to go. *)
Definition cancelStaleDemotesOnSurvivor (survivorKey : string) (c : HostCell) : HostCell :=
  match ParseCellID (str survivorKey) ≫= Siblings with
  | None => c
  | Some sibs =>
      let doomed : gset string := list_to_set (filter (fun k => k <> survivorKey) (map key_of sibs)) in
      let k := w_cell (hc_world c) in
      with_world c (set_wcell (hc_world c) (set_driver k (CancelPendingDemotesTo (driver k) doomed).1))
  end.

Definition merge_job (env : ExecEnv) (host : string) (m : CellTransferMsg) (r : Pop)
  : Pop * result ExecError (list string) :=
  let c := SetDrainingForMerge true (cancelStaleDemotesOnSurvivor (ct_DestCellID m) (p_cell r)) in
  let r := pop_exec (pop_cell r c) (captureMergeNativeLive (p_exec r) (ct_RequestID m) c) in
  populateCell env host m r.

(** A job that failed or did not run: the error, after what it changed. *)
Definition run_pop (env : ExecEnv) (host : string) (k : nat)
  (job : Pop -> Pop * result ExecError (list string)) (p : Process) : Process * result ExecError (list string) :=
  match on_loop env p k with
  | None => (p, Err ErrLoop)
  | Some c => let '(r, res) := job (start_pop p host c) in (put_pop p host k r, res)
  end.

Definition receive_merge (env : ExecEnv) (host : string) (m : CellTransferMsg) (p : Process)
  : Process * option ExecError :=
  match CellByID p host (ct_DestCellID m) with
  | None => (reportReady p host m false [], Some ErrMergeTarget)
  | Some k =>
      let p := upd_exec p host (fun x => upd_survivors x (<[ct_RequestID m := k]> (mergeSurvivors x))) in
      match run_pop env host k (merge_job env host m) p with
      | (p, Err e) => (reportReady p host m false [], Some e)
      | (p, Ok _) => (reportReady p host m true [], None)
      end
  end.

(** [createNode] and [AddCell]: the new cell's loop runs. *)
Definition add_node (env : ExecEnv) (host : string) (id : CellID) (p : Process) : Process * nat :=
  let k := pr_next p in
  (mkProcess (<[k := x_new env id]> (pr_store p)) (S k) (alter <[id := k]> host (pr_hosts p)) (pr_execs p)
     (<[key_of id := k]> (pr_Cells p)) (<[id := key_of id]> (pr_CellOwner p)) (pr_vcm p) (pr_coord p)
     (pr_out p), k).

Definition receive_new (env : ExecEnv) (host : string) (m : CellTransferMsg) (id : CellID) (p : Process)
  : Process * option ExecError :=
  let '(p, k) := add_node env host id p in
  let p := upd_exec p host (fun x => upd_pending x
             (insert2 (ct_RequestID m) (ct_DestCellID m) (mkReceive id k) (pending x))) in
  match run_pop env host k (populateCell env host m) p with
  | (p, Err e) => (reportReady (teardownPending host (ct_RequestID m) p) host m false [], Some e)
  | (p, Ok users) => (reportReady p host m true users, None)
  end.

Definition Receive (env : ExecEnv) (host : string) (m : CellTransferMsg) (p : Process)
  : Process * option ExecError :=
  match ParseCellID (str (ct_DestCellID m)) with
  | None => (reportReady p host m false [], Some ErrParseDest)
  | Some id =>
      if decide (ct_Kind m = CellTransferMerge) then receive_merge env host m p
      else match CellByID p host (ct_DestCellID m) with
           | Some _ => (reportReady p host m true [], None)
           | None => receive_new env host m id p
           end
  end.

(** ** The source *)

Definition register_source (req : Z) (mesh : string) (k : nat) (merge : bool) (x : cellTransferExecutor)
  : cellTransferExecutor :=
  upd_sources x (if merge then insert2 req mesh k (mergeSources x) else mergeSources x)
    (insert2 req mesh k (transferSrcCells x)).

Definition unregister_source (req : Z) (mesh : string) (x : cellTransferExecutor) : cellTransferExecutor :=
  upd_sources x (delete2 req mesh (mergeSources x)) (delete2 req mesh (transferSrcCells x)).

(** [localHostExecutor]. *)
Definition local_host (p : Process) (host : string) : bool :=
  negb (String.eqb host "") && bool_decide (is_Some (pr_execs p !! host)).

Definition shipToDestination (env : ExecEnv) (destHost destCell : string) (m : CellTransferMsg) (p : Process)
  : Process * option ExecError :=
  if local_host p destHost then Receive env destHost m p
  else if x_send env destHost then (emit_out p (OutTransfer destHost destCell m), None)
  else (p, Some ErrShip).

Definition run_serialize (env : ExecEnv) (cmd : cellTransferCommand) (k : nat) (p : Process)
  : Process * result ExecError (list bytes * list bytes * list (bytes * string)) :=
  match on_loop env p k with
  | None => (p, Err ErrLoop)
  | Some c =>
      let '(vcm, c, res) := serialize_on_loop env cmd (pr_vcm p) c in
      (upd_shared (put_cell p k c) vcm (pr_coord p), res)
  end.

Definition transfer_of (cmd : cellTransferCommand) (ents sess : list bytes) (ctx : list (bytes * string))
  : CellTransferMsg :=
  mkTransfer (cc_RequestID cmd) (cc_Kind cmd) (cc_SrcCellID cmd) (cc_DestCellID cmd) (cc_DestHostID cmd)
    (cc_Quadrant cmd) (packRecords ents) (packRecords sess) ctx.

Definition Execute (env : ExecEnv) (host : string) (cmd : cellTransferCommand) (p : Process)
  : Process * option ExecError :=
  let merge := bool_decide (cc_Kind cmd = CellTransferMerge) in
  let thaw p k := if merge then upd_cell p k (SetDrainingForMerge false) else p in
  match CellByID p host (cc_SrcCellID cmd) with
  | None => (p, Some ErrSrcMissing)
  | Some k =>
      match run_serialize env cmd k p with
      | (p, Err e) => (thaw p k, Some e)
      | (p, Ok (ents, sess, ctx)) =>
          match ParseCellID (str (cc_DestCellID cmd)) with
          | None => (p, Some ErrParseDest)
          | Some _ =>
              let mesh := mesh_of p k in
              let p := upd_exec p host (register_source (cc_RequestID cmd) mesh k merge) in
              match shipToDestination env (cc_DestHostID cmd) (cc_DestCellID cmd)
                      (transfer_of cmd ents sess ctx) p with
              | (p, None) => (p, None)
              | (p, Some e) =>
                  let p := upd_exec (thaw p k) host (unregister_source (cc_RequestID cmd) (mesh_of p k)) in
                  (reactivateSourceViewers env host p k, Some e)
              end
          end
      end
  end.

(** ** After a merge has committed *)

Definition rename_stage (to : string) (st : Stage) : Stage :=
  mkStage to (netIDIdx st) (world st) (nextEntity st) (replicaNetIDs st) (borderLastSeen st)
    (highestSeenEpoch st) (handoffAccepted st) (crossingQueue st) (drainingForMerge st)
    (strictNetIDIndex st).

(** [Stage.UpdateCellBounds]: positions are relative to the root cell, so they move
    only with it. *)
Definition shift_by (dx dy : f32) (rx ry : Z) (k : Comp) : Comp :=
  let f := cp_frame k in
  mkComp (mkFrame (NetworkID f) (Epoch f) (Transfer.StreamGeneration f) (EntityType f) (Transfer.ConnID f)
            (GatewayID f) (GatewayConnID f) (Transfer.Username f) (Transfer.UserID f)
            (f32_to_bits (f32_add (f32_of_bits (PosX f)) dx)) (f32_to_bits (f32_add (f32_of_bits (PosY f)) dy))
            (PosZ f) (VelX f) (VelY f) (VelZ f) (FRotation f) (FCollider f) rx ry
            (Transfer.DebugFlags f) (Components f)) (cp_ghost k) (cp_dormant k).

Definition UpdateCellBounds (base : f32) (to : string) (id : CellID) (c : HostCell) : HostCell :=
  let oldRoot := root_of (hc_id c) in
  let newRoot := root_of id in
  let c' := with_hstage (mkHostCell id (hc_world c) (hc_players c) (transferDeactivatedViewers c) (hc_stopped c))
              (rename_stage to (hc_stage c)) in
  if decide (oldRoot = newRoot) then c'
  else
    let dx := f32_mul (f32_of_int (i32 (X oldRoot - X newRoot))) base in
    let dy := f32_mul (f32_of_int (i32 (Y oldRoot - Y newRoot))) base in
    let zero x := f32_le x f32_zero && f32_le f32_zero x in
    if zero dx && zero dy then c'
    else with_world c' (set_comps (hc_world c')
           (fold_left (fun m e => alter (shift_by dx dy (X newRoot) (Y newRoot)) e m) (live_rows c)
              (w_comps (hc_world c')))).

Inductive RenameError := ErrUnknownCell | ErrParseTo | ErrRenameLoop.

Definition renameCellOnNode (env : ExecEnv) (localHost from to : string) (p : Process)
  : Process * option RenameError :=
  match CellByID p localHost from with
  | None => (p, Some ErrUnknownCell)
  | Some k =>
      match ParseCellID (str to), pr_store p !! k with
      | None, _ => (p, Some ErrParseTo)
      | _, None => (p, Some ErrUnknownCell)
      | Some id, Some c =>
          let p := mkProcess (pr_store p) (pr_next p)
                     (alter (fun m => <[id := k]> (delete (hc_id c) m)) localHost (pr_hosts p)) (pr_execs p)
                     (<[to := k]> (delete from (pr_Cells p)))
                     (<[id := to]> (delete (hc_id c) (pr_CellOwner p))) (pr_vcm p) (pr_coord p) (pr_out p) in
          match on_loop env p k with
          | None => (p, Some ErrRenameLoop)
          | Some c => (put_cell p k (SetDrainingForMerge false (UpdateCellBounds (x_base env) to id c)), None)
          end
      end
  end.

Definition all_netids (c : HostCell) : gset Z :=
  list_to_set (omap (fun e => (fun row => net_ID (e_net row)) <$> world (hc_stage c) !! e) (rows c)).

Fixpoint rescue (r : Pop) (existing : gset Z) (blobs : list bytes) : Pop :=
  match blobs with
  | [] => r
  | b :: blobs =>
      match UnmarshalTransferFrame b with
      | Fail _ | Panic => r
      | Done f _ =>
          if decide (NetworkID f ∈ existing) then rescue r existing blobs
          else match spawnCellTransferLive r f with
               | (r, Err _) => r
               | (r, Ok _) => rescue r ({[NetworkID f]} ∪ existing) blobs
               end
      end
  end.

Definition drain_donor (env : ExecEnv) (survivor : nat) (p : Process) (d : nat) : Process :=
  match on_loop env p d with
  | None => p
  | Some c =>
      let '(vcm, c) := flushDuePromotesForCommit env CellTransferMerge (pr_vcm p) c in
      let p := upd_shared (put_cell p d c) vcm (pr_coord p) in
      match serializeAllEntities (pr_vcm p) c with
      | Err _ | Ok [] => p
      | Ok data =>
          match on_loop env p survivor with
          | None => p
          | Some s =>
              let r := rescue (mkPop s (pr_vcm p) (pr_coord p) newCellTransferExecutor) (all_netids s) data in
              upd_shared (put_cell p survivor (p_cell r)) (p_vcm r) (p_coord r)
          end
      end
  end.

Definition drainDonorResidualsToSurvivor (env : ExecEnv) (donors : list nat) (survivor : nat) (p : Process)
  : Process := fold_left (drain_donor env survivor) donors p.

(** ** Dispatch *)

Definition Dispatch (env : ExecEnv) (cmd : cellTransferCommand) (p : Process) : Process * option ExecError :=
  if local_host p (cc_SrcHostID cmd) then Execute env (cc_SrcHostID cmd) cmd p
  else if x_send env (cc_SrcHostID cmd) then (emit_out p (OutCommand cmd), None)
  else (p, Some ErrShip).

Definition DispatchAbort (env : ExecEnv) (req : Z) (host : string) (p : Process) : Process * option ExecError :=
  if local_host p host then (Abort env host req p, None)
  else if x_send env host then (emit_out p (OutAbort host req), None)
  else (p, Some ErrShip).

Definition DispatchCommit (env : ExecEnv) (req : Z) (host : string) (p : Process) : Process * option ExecError :=
  if local_host p host then (Commit host req p, None)
  else if x_send env host then (emit_out p (OutCommit host req), None)
  else (p, Some ErrShip).
End Host.
