(* ===== verification/TransferAuthority.v ===== *)
(** * Authority across the jobs of a transfer

    What the jobs of TransferExec.v do to who is authoritative in a cell: the entity
    that holds each network id, and the rows that are nobody's replica.  Replica traffic
    changes neither; a spawn installs exactly one holder; removing a holder empties its
    slot.  The records a payload travels in read back as they were packed. *)

From S2P Require Import Prelude Float32 CellId NetId SessionRoutes ControlPlane CellTransfer.
From S2P Require Import VirtualConn PlayerManager Transfer Handoff HostCell TransferExec.

(** ** Records *)

Definition records_fit (rs : list bytes) : Prop :=
  Z.of_nat (length rs) < 2 ^ 32 /\ Forall (fun r : bytes => Z.of_nat (length r) < 2 ^ 32) rs.

Lemma be_u32 z : in_u32 z -> be_val (be_bytes 4 z) = z.
Proof. intros. rewrite be_val_bytes. apply Z.mod_small. done. Qed.

Definition record (r : bytes) : bytes := be_bytes 4 (Z.of_nat (length r)) ++ r.

Lemma record_app r tail : record r ++ tail = be_bytes 4 (Z.of_nat (length r)) ++ r ++ tail.
Proof. unfold record. by rewrite <- app_assoc. Qed.

Lemma take_be {A} (l r : list A) n : length l = n -> take n (l ++ r) = l.
Proof. intros <-. apply take_app_length. Qed.

Lemma drop_be {A} (l r : list A) n : length l = n -> drop n (l ++ r) = r.
Proof. intros <-. apply drop_app_length. Qed.

Lemma unpack_loop_records rs tail : Forall (fun r : bytes => Z.of_nat (length r) < 2 ^ 32) rs ->
  unpack_loop (length rs) (concat (map record rs) ++ tail) = Ok rs.
Proof.
  induction rs as [|r rs IH]; intros H; [done|]. apply Forall_cons in H as [Hr Hrs].
  cbn [length unpack_loop map concat]. rewrite <- app_assoc, record_app, length_app, length_be_bytes.
  destruct (Nat.ltb_spec (4 + length (r ++ concat (map record rs) ++ tail)) 4); [lia|].
  rewrite take_be, drop_be by apply length_be_bytes.
  rewrite be_u32 by (unfold in_u32; lia). rewrite length_app.
  destruct (Z.ltb_spec (Z.of_nat (length r + length (concat (map record rs) ++ tail))) (Z.of_nat (length r))); [lia|].
  rewrite Nat2Z.id, take_app_length, drop_app_length, IH by done. done.
Qed.

Lemma length_records rs : (4 * length rs <= length (concat (map record rs)))%nat.
Proof.
  induction rs as [|r rs IH]; [done|]. cbn [map concat length]. rewrite length_app. unfold record at 1.
  rewrite length_app, length_be_bytes. lia.
Qed.

(** What [packRecords] writes, [unpackRecords] reads back, record for record, as long
    as the count and the lengths fit their 32-bit prefixes. *)
Theorem records_roundtrip rs : records_fit rs -> unpackRecords (packRecords rs) = Ok rs.
Proof.
  intros [Hn Hl]. destruct rs as [|r rs]; [done|]. unfold packRecords. fold record.
  set (rest := concat _). unfold unpackRecords.
  assert (Hlen : length (be_bytes 4 (Z.of_nat (length (r :: rs))) ++ rest) = (4 + length rest)%nat)
    by (by rewrite length_app, length_be_bytes).
  destruct (be_bytes 4 _ ++ rest) as [|b bs] eqn:E; [simpl in Hlen; lia|]. rewrite <- E in *.
  rewrite Hlen. destruct (Nat.ltb_spec (4 + length rest) 4); [lia|].
  rewrite take_be, drop_be, be_u32 by (unfold in_u32; lia || apply length_be_bytes).
  pose proof (length_records (r :: rs)) as H4. fold rest in H4.
  destruct (Z.ltb_spec (Z.of_nat ((4 + length rest - 4) / 4)) (Z.of_nat (length (r :: rs)))) as [Hlt|_].
  - apply Nat2Z.inj_lt in Hlt. pose proof (Nat.div_le_lower_bound (4 + length rest - 4) 4 (length (r :: rs))). lia.
  - rewrite Nat2Z.id. unfold rest. rewrite <- (app_nil_r (concat _)). by apply unpack_loop_records.
Qed.

Lemma records_roundtrip_witness :
  records_fit [[1; 2; 3]; []; [7]] /\ unpackRecords (packRecords [[1; 2; 3]; []; [7]]) = Ok [[1; 2; 3]; []; [7]].
Proof.
  assert (records_fit [[1; 2; 3]; []; [7]]) as H by (split; [reflexivity|repeat constructor]).
  split; [exact H|apply (records_roundtrip _ H)].
Defined.

(** ** Who holds an id *)

Definition holder (st : Stage) (n : Z) : option Entity :=
  match netIDIdx st !! n with Some (mkSlot e PresenceLive) => Some e | _ => None end.

Definition auth_row (st : Stage) (e : Entity) (row : Ent) : Prop :=
  world st !! e = Some row /\ e_replica row = None.

Lemma holder_slot st n e : holder st n = Some e <-> netIDIdx st !! n = Some (mkSlot e PresenceLive).
Proof. unfold holder. split; [|by intros ->]. destruct (netIDIdx st !! n) as [[? []]|]; naive_solver. Qed.

Lemma holder_row st n e : stage_ok st -> holder st n = Some e ->
  exists row, auth_row st e row /\ net_ID (e_net row) = n.
Proof.
  intros Hok H%holder_slot. destruct (so_idx st Hok _ _ _ H) as (row & ? & ? & ?). by exists row.
Qed.

Lemma holder_inj st n m e : stage_ok st -> holder st n = Some e -> holder st m = Some e -> n = m.
Proof.
  intros Hok (r & [Hr _] & <-)%holder_row (r' & [Hr' _] & <-)%holder_row; try done. congruence.
Qed.

(** Replica traffic: same holders, same authoritative rows, handles not reused. *)
Record same_authority (st st' : Stage) : Prop := mkSameAuthority {
  sa_holder n : holder st' n = holder st n;
  sa_rows e row : auth_row st' e row <-> auth_row st e row;
  sa_next : nextEntity st <= nextEntity st';
  sa_strict : strictNetIDIndex st' = strictNetIDIndex st;
  sa_cell : cellID st' = cellID st
}.

#[export] Instance same_authority_preorder : PreOrder same_authority.
Proof.
  split; [done|]. intros a b c [] []. constructor; try congruence; [|lia].
  intros e row. by rewrite sa_rows1.
Qed.

Lemma same_authority_fields st st' :
  netIDIdx st' = netIDIdx st -> world st' = world st -> nextEntity st' = nextEntity st ->
  strictNetIDIndex st' = strictNetIDIndex st -> cellID st' = cellID st -> same_authority st st'.
Proof.
  intros Hi Hw Hn Hs Hc. constructor; unfold holder, auth_row; rewrite ?Hi, ?Hw, ?Hn; done.
Qed.

Lemma remove_strict st e row : world st !! e = Some row ->
  strictNetIDIndex (RemoveEntityNow st e) = strictNetIDIndex st /\ cellID (RemoveEntityNow st e) = cellID st.
Proof.
  intros Hr. unfold RemoveEntityNow, cleanupEntityRemoval. rewrite Hr.
  destruct (e_replica row); [case_bool_decide|]; done.
Qed.

(** Removing a row that holds nothing. *)
Lemma remove_replica_authority st e row : stage_ok st -> world st !! e = Some row ->
  e_replica row <> None -> same_authority st (RemoveEntityNow st e).
Proof.
  intros Hok Hr Hrep. destruct (remove_fields st e row Hr) as (Hi & Hw & Hn & _).
  destruct (remove_strict st e row Hr) as [Hs Hc].
  assert (Hno : forall n, holder st n <> Some e).
  { intros n (r & [Hr' Ha] & _)%holder_row; [|done]. assert (r = row) as -> by congruence. done. }
  constructor; try done; [| |lia].
  - intros n. destruct (holder (RemoveEntityNow st e) n) as [e'|] eqn:E.
    + apply holder_slot in E. rewrite Hi in E. apply exit_some in E as [E _]. symmetry. by apply holder_slot.
    + destruct (holder st n) as [e'|] eqn:E'; [|done]. exfalso.
      enough (holder (RemoveEntityNow st e) n = Some e') by congruence.
      apply holder_slot. rewrite Hi. apply exit_keep; [by apply holder_slot|]. simpl. intros _ ->. by eapply Hno.
  - intros e' row'. unfold auth_row. rewrite Hw, lookup_delete_Some.
    split; [by intros [[_ ?] ?]|]. intros [H1 H2]. split_and!; try done. intros <-. congruence.
Qed.

Lemma remove_by_id_authority st m : stage_ok st ->
  same_authority st (RemoveReplicaByNetID st m) /\ stage_ok (RemoveReplicaByNetID st m) /\
  (netIDIdx (RemoveReplicaByNetID st m) !! m = None \/ is_Some (holder st m)).
Proof.
  intros Hok. destruct (removeReplica_spec st m Hok) as (Hev & _ & _ & Hnr).
  pose proof (ev_ok _ _ Hev Hok) as Hok'.
  assert (Hsa : same_authority st (RemoveReplicaByNetID st m)).
  { unfold RemoveReplicaByNetID. destruct (replicaNetIDs st !! m) as [e|] eqn:Er.
    - pose proof (so_rep st Hok _ _ Er) as Hi. destruct (so_idx st Hok _ _ _ Hi) as (row & Hrow & _ & _ & rep & Hrep & _).
      rewrite Hrow. etrans; [eapply remove_replica_authority; [done..|congruence]|by apply same_authority_fields].
    - destruct (netIDIdx st !! m) as [[e []]|] eqn:Ei; try by apply same_authority_fields.
      destruct (so_idx st Hok _ _ _ Ei) as (_ & _ & _ & ? & _). congruence. }
  split_and!; [done..|]. destruct (netIDIdx (RemoveReplicaByNetID st m) !! m) as [[e []]|] eqn:Ei.
  - by destruct (so_idx _ Hok' _ _ _ Ei) as (_ & _ & _ & ?).
  - right. rewrite <- (sa_holder _ _ Hsa). apply holder_slot in Ei. by rewrite Ei.
  - by destruct (Hnr e).
  - by left.
Qed.

(** A spawn installs its row under the next handle. *)
Definition spawned (st : Stage) (f : TransferFrame) : Stage :=
  let e := nextEntity st in
  let st1 := (new_entity st (mkEnt (mkNet (NetworkID f) (Epoch f)) None)).1 in
  if NetworkID f =? 0 then st1 else set_idx st1 (<[NetworkID f := mkSlot e PresenceLive]> (netIDIdx st)).

Lemma spawn_installs st data f r :
  UnmarshalTransferFrame data = Done f r -> netIDIdx st !! NetworkID f = None ->
  SpawnFromTransferCore st data PresenceLive = (spawned st f, Ok (nextEntity st)).
Proof.
  intros Hd Hi. unfold SpawnFromTransferCore, spawned. rewrite Hd. unfold new_entity. cbn [fst].
  destruct (NetworkID f =? 0); [done|]. unfold Enter. cbn [netIDIdx set_next set_world]. by rewrite Hi.
Qed.

Lemma spawned_fields st f :
  netIDIdx (spawned st f) = (if NetworkID f =? 0 then netIDIdx st
                             else <[NetworkID f := mkSlot (nextEntity st) PresenceLive]> (netIDIdx st)) /\
  world (spawned st f) = <[nextEntity st := mkEnt (mkNet (NetworkID f) (Epoch f)) None]> (world st) /\
  nextEntity (spawned st f) = nextEntity st + 1 /\ strictNetIDIndex (spawned st f) = strictNetIDIndex st /\
  replicaNetIDs (spawned st f) = replicaNetIDs st /\ cellID (spawned st f) = cellID st.
Proof. unfold spawned. by destruct (NetworkID f =? 0). Qed.

Lemma spawned_ok st f : stage_ok st -> netIDIdx st !! NetworkID f = None -> stage_ok (spawned st f).
Proof.
  intros [H1 H2 H3] Hi. destruct (spawned_fields st f) as (Hx & Hw & Hn & _ & Hr & _).
  constructor; rewrite ?Hw, ?Hn, ?Hr.
  - intros n e p. rewrite Hx. intros Hl.
    assert (Hold : netIDIdx st !! n = Some (mkSlot e p) -> exists row,
      <[nextEntity st := mkEnt (mkNet (NetworkID f) (Epoch f)) None]> (world st) !! e = Some row /\
      net_ID (e_net row) = n /\ match p with
      | PresenceNone => False | PresenceLive => e_replica row = None
      | PresenceReplica => replicaNetIDs st !! n = Some e /\ exists rep, e_replica row = Some rep /\ SourceNetID rep = n
      end).
    { intros Hl'. destruct (H1 _ _ _ Hl') as (row & Hr' & ?). exists row.
      rewrite lookup_insert_ne; [done|]. apply H3 in Hr'. lia. }
    destruct (NetworkID f =? 0); [by apply Hold|].
    apply lookup_insert_Some in Hl as [[<- [= <- <-]]|[_ Hl]]; [|by apply Hold].
    eexists. rewrite lookup_insert_eq. by split_and!.
  - intros n e Hl. pose proof (H2 _ _ Hl). rewrite Hx. destruct (NetworkID f =? 0); [done|].
    rewrite lookup_insert_ne; [done|]. congruence.
  - intros e row [[<- _]|[_ Hl]]%lookup_insert_Some; [lia|]. apply H3 in Hl. lia.
Qed.

Lemma spawned_holder st f n : netIDIdx st !! NetworkID f = None ->
  holder (spawned st f) n =
  if bool_decide (n = NetworkID f /\ n <> 0) then Some (nextEntity st) else holder st n.
Proof.
  intros Hi. destruct (spawned_fields st f) as (Hx & _). unfold holder. rewrite Hx.
  destruct (Z.eqb_spec (NetworkID f) 0) as [Hz|Hz].
  - case_bool_decide as Hb; [|done]. naive_solver congruence.
  - case_bool_decide as Hb.
    + destruct Hb as [-> _]. by rewrite lookup_insert_eq.
    + rewrite lookup_insert_ne; [done|]. naive_solver congruence.
Qed.

(** Removing a holder. *)
Lemma remove_holder st n e : stage_ok st -> holder st n = Some e ->
  stage_ok (RemoveEntityNow st e) /\
  (forall k, holder (RemoveEntityNow st e) k = if bool_decide (k = n) then None else holder st k) /\
  nextEntity (RemoveEntityNow st e) = nextEntity st /\
  netIDIdx (RemoveEntityNow st e) !! n = None.
Proof.
  intros Hok Hh. destruct (holder_row st n e Hok Hh) as (row & [Hr Ha] & Hid). apply holder_slot in Hh.
  destruct (remove_fields st e row Hr) as (Hi & Hw & Hn & _).
  assert (Hdel : netIDIdx (RemoveEntityNow st e) = delete n (netIDIdx st)).
  { rewrite Hi, Hid. unfold ExitEntity. rewrite Hh. simpl. by rewrite decide_True. }
  split_and!; [by eapply remove_ok| |done|].
  - intros k. unfold holder. rewrite Hdel. case_bool_decide as Hb.
    + subst. by rewrite lookup_delete_eq.
    + by rewrite lookup_delete_ne by done.
  - by rewrite Hdel, lookup_delete_eq.
Qed.

(** Removing any row empties the slot it holds, if it holds one. *)
Lemma remove_any st e row : stage_ok st -> world st !! e = Some row ->
  stage_ok (RemoveEntityNow st e) /\
  (forall k, holder (RemoveEntityNow st e) k = if bool_decide (holder st k = Some e) then None else holder st k).
Proof.
  intros Hok Hr. split; [by eapply remove_ok|]. intros k.
  destruct (remove_fields st e row Hr) as (Hi & _). case_bool_decide as Hb.
  - destruct (remove_holder _ _ _ Hok Hb) as (_ & Hk & _). by rewrite Hk, bool_decide_eq_true_2.
  - destruct (holder st k) as [e'|] eqn:E.
    + apply holder_slot. rewrite Hi. apply exit_keep; [by apply holder_slot|]. simpl. congruence.
    + destruct (holder (RemoveEntityNow st e) k) as [e'|] eqn:E'; [|done].
      apply holder_slot in E'. rewrite Hi in E'. apply exit_some in E' as [E' _].
      apply holder_slot in E'. congruence.
Qed.

(** A border replica written in a cell. *)
Lemma upsert_authority st n epoch src ms : stage_ok st ->
  same_authority st (upsertBorderReplica st n epoch src ms).
Proof.
  intros Hok. unfold upsertBorderReplica.
  match goal with |- context [if ?b then st else _] => destruct b; [done|] end.
  match goal with |- context [if ?b then st else _] => destruct b; [done|] end.
  set (st1 := set_highest st _). assert (He1 : same_authority st st1) by (by apply same_authority_fields).
  assert (Hok1 : stage_ok st1) by (destruct Hok as [H1 H2 H3]; by constructor). cbv zeta.
  destruct (decide _) as [|Hnl]; [done|]. etrans; [exact He1|]. clear He1.
  destruct (replica_row st1 n) as [[e row]|] eqn:Er.
  - destruct (replica_row_some _ _ _ _ Hok1 Er) as [Hw [rep Hrep]]. unfold refreshReplica. rewrite Hrep.
    constructor; try done. intros e' row'. unfold auth_row. simpl.
    rewrite lookup_insert_Some. split.
    + intros [[[<- <-]|[_ ?]] Hnone]; [done|done].
    + intros [H1 H2]. split; [|done]. right. split; [|done]. intros <-. simpl in *. congruence.
  - pose proof (replica_row_none _ _ Hok1 Er Hnl) as Hi.
    unfold createReplica, new_entity, Enter. cbn [netIDIdx set_replicas set_next set_world].
    rewrite Hi. cbn [Action]. rewrite decide_False by done. constructor; try done; cbn [nextEntity set_idx set_replicas set_next]; [| |lia].
    + intros k. unfold holder. cbn [netIDIdx set_idx]. destruct (decide (k = n)) as [->|].
      * by rewrite lookup_insert_eq, Hi.
      * by rewrite lookup_insert_ne.
    + intros e' row'. unfold auth_row. cbn [world set_idx set_replicas set_next set_world].
      rewrite lookup_insert_Some. split.
      * by intros [[[<- <-]|[_ ?]] Hnone].
      * intros [H1 H2]. split; [|done]. right. split; [|done]. intros <-. apply (so_next st1 Hok1) in H1. lia.
Qed.

(** ** Importing one entity *)

Lemma advanced_ok f : frame_ok f -> frame_ok (advanced f).
Proof.
  intros ((? & ? & ? & ? & ? & ? & ? & ? & ?) & Hb & Hc). unfold advanced, frame_with.
  split; [|split; [exact Hb|exact Hc]]. unfold session_ok. simpl. split_and!; try done; try apply u32_range.
  case_match; [done|apply u32_range].
Qed.

(** The frame a spawn keeps: the advanced frame, under this host's connection number. *)
Definition landed (f : TransferFrame) (conn : Z) : TransferFrame := with_conn (advanced f) conn.

Section Importing.
Context `{!Iteration} `{!Game} `{!SessionCodec}.

Lemma spawn_live p f :
  frame_ok f -> netIDIdx (hc_stage (p_cell p)) !! NetworkID f = None ->
  exists v c' conn,
    spawnCellTransferLive p f =
      (mkPop c' v (p_coord p) (p_exec p), Ok (nextEntity (hc_stage (p_cell p)), landed f conn)) /\
    hc_stage c' = spawned (hc_stage (p_cell p)) (advanced f) /\
    w_comps (hc_world c') = <[nextEntity (hc_stage (p_cell p)) := mkComp (received (landed f conn)) false false]>
                              (w_comps (hc_world (p_cell p))).
Proof.
  intros Hf Hi. pose proof (transfer_roundtrip (advanced f) (advanced_ok f Hf)) as (buf & Hm & _ & Hu).
  specialize (Hu []). rewrite app_nil_r in Hu. unfold spawnCellTransferLive. rewrite Hm.
  unfold spawnFromTransfer. rewrite Hu.
  destruct (remap_conn _ _ _) as [v conn]. rewrite (spawn_installs _ _ _ _ Hu Hi).
  do 3 eexists. split; [reflexivity|]. done.
Qed.

(** What a populate job leaves alone beside the players and the routing: everything but
    the stage, the components and the imports of the request. *)
Record imported (merge : bool) (req : Z) (p p' : Pop) (n : Z) (e : Entity) (sf : TransferFrame) : Prop := mkImportedEff {
  im_stage : hc_stage (p_cell p') =
    spawned (RemoveReplicaByNetID (hc_stage (p_cell p)) n) sf;
  im_comps : w_comps (hc_world (p_cell p')) = <[e := mkComp (received sf) false false]> (w_comps (hc_world (p_cell p)));
  im_live : mergeImportedLive (p_exec p') =
    if merge then insert2 req n e (mergeImportedLive (p_exec p)) else mergeImportedLive (p_exec p);
  im_native : mergeNativeLive (p_exec p') = mergeNativeLive (p_exec p)
}.

Lemma record_session_frame merge req prior key drop conn p :
  p_cell (record_session merge req prior key drop conn p) = p_cell p /\
  mergeImportedLive (p_exec (record_session merge req prior key drop conn p)) = mergeImportedLive (p_exec p) /\
  mergeNativeLive (p_exec (record_session merge req prior key drop conn p)) = mergeNativeLive (p_exec p).
Proof.
  unfold record_session. destruct (ByConnID _ _) as [ptr|]; [|done].
  destruct (PlayerManager.heap _ !! ptr), prior, merge; done.
Qed.

Lemma spawned_conn st f conn : spawned st (with_conn f conn) = spawned st f.
Proof. done. Qed.

Lemma import_effect env merge req p f prior existing :
  stage_ok (hc_stage (p_cell p)) -> frame_ok f -> holder (hc_stage (p_cell p)) (NetworkID f) = None ->
  exists p' users conn,
    let e := nextEntity (RemoveReplicaByNetID (hc_stage (p_cell p)) (NetworkID f)) in
    import_entity env merge req p f prior existing = (p', Ok (<[NetworkID f := e]> existing, users)) /\
    imported merge req p p' (NetworkID f) e (landed f conn).
Proof.
  intros Hok Hf Hh. destruct (remove_by_id_authority (hc_stage (p_cell p)) (NetworkID f) Hok) as (_ & _ & Hi).
  rewrite Hh in Hi. destruct Hi as [Hi|[? ?]]; [|done].
  set (p0 := pop_cell p (with_hstage (p_cell p) (RemoveReplicaByNetID (hc_stage (p_cell p)) (NetworkID f)))).
  destruct (spawn_live p0 f Hf Hi) as (v & c' & conn & Hs & Hst & Hc).
  unfold import_entity. fold p0. rewrite Hs.
  set (p1 := if merge then _ else _).
  assert (Hp1 : p_cell p1 = c' /\ mergeNativeLive (p_exec p1) = mergeNativeLive (p_exec p) /\
    mergeImportedLive (p_exec p1) = if merge then insert2 req (NetworkID f)
      (nextEntity (hc_stage (p_cell p0))) (mergeImportedLive (p_exec p)) else mergeImportedLive (p_exec p))
    by (subst p1; by destruct merge).
  destruct Hp1 as (Hp1 & Hn & Hl). destruct (_ || _).
  { exists p1, [], conn. split; [reflexivity|]. constructor; rewrite ?Hp1; assumption. }
  destruct prior as [[ps key] drop]. eexists _, _, conn. split; [reflexivity|].
  match goal with |- context [record_session ?m ?r ?ps ?k ?d ?c ?p] =>
    destruct (record_session_frame m r ps k d c p) as (E1 & E2 & E3) end.
  constructor; unfold touch; cbn [p_cell p_exec]; rewrite ?E1, ?E2, ?E3; unfold pop_players, pop_cell;
    cbn [p_cell p_exec]; rewrite ?Hp1; assumption.
Qed.

(** An entity that is there already only has its session wired. *)
Lemma retain_effect env p f ent :
  let p' := (retain_existing env p f ent).1 in
  hc_world (p_cell p') = hc_world (p_cell p) /\ hc_id (p_cell p') = hc_id (p_cell p) /\ p_exec p' = p_exec p.
Proof.
  unfold retain_existing. destruct (_ || _); [done|]. destruct (negb _); [done|].
  destruct (p_vcm p) as [v|]; [|done]. destruct (GatewayConnID f =? 0); [done|].
  destruct (RegisterSession _ _ _ _ _); done.
Qed.

(** Sessions move players and routing only. *)
Lemma populate_session_effect env merge req host p b :
  let p' := (populate_session env merge req host p b).1 in
  hc_world (p_cell p') = hc_world (p_cell p) /\
  mergeImportedLive (p_exec p') = mergeImportedLive (p_exec p) /\
  mergeNativeLive (p_exec p') = mergeNativeLive (p_exec p).
Proof.
  unfold populate_session. destruct (unmarshal_session_transfer b) as [s|]; [|done].
  destruct (st_ConnID s =? 0); [done|]. destruct (mergeSessionImportState _ _ _ _) as [[prior key] drop].
  assert (Hd : p_cell (destinationConnIDForSessionTransfer p s).1 = p_cell p /\
    p_exec (destinationConnIDForSessionTransfer p s).1 = p_exec p).
  { unfold destinationConnIDForSessionTransfer. destruct (_ && _); [done|]. destruct (_ || _); [done|].
    destruct (p_vcm p); [|done]. by destruct (RegisterSession _ _ _ _ _). }
  destruct (destinationConnIDForSessionTransfer p s) as [p1 [local|err]]; simpl in Hd; destruct Hd as [Hc Hx];
    [|cbv zeta; cbn [fst]; by rewrite Hc, Hx].
  cbv zeta. cbn [fst]. match goal with |- context [record_session ?m ?r ?ps ?k ?d ?c ?p] =>
    destruct (record_session_frame m r ps k d c p) as (E1 & E2 & E3) end.
  unfold touch. cbn [p_cell p_exec]. rewrite E1, E2, E3. unfold pop_players, pop_cell. cbn [p_cell p_exec].
  simpl. by rewrite Hc, Hx.
Qed.

Lemma populate_sessions_effect env merge req host bs : forall p,
  let p' := (populate_sessions env merge req host p bs).1 in
  hc_world (p_cell p') = hc_world (p_cell p) /\
  mergeImportedLive (p_exec p') = mergeImportedLive (p_exec p) /\
  mergeNativeLive (p_exec p') = mergeNativeLive (p_exec p).
Proof.
  induction bs as [|b bs IH]; intros p; [done|]. cbn [populate_sessions].
  pose proof (populate_session_effect env merge req host p b) as (E1 & E2 & E3).
  destruct (populate_session env merge req host p b) as [p1 [u|]]; cbn [fst] in *; [|done].
  specialize (IH p1) as (F1 & F2 & F3).
  destruct (populate_sessions env merge req host p1 bs) as [p2 [m|]]; cbv zeta in *; cbn [fst] in *;
    split_and!; etrans; eassumption.
Qed.

(** Border context only adds replicas. *)
Definition no_ghosts (c : HostCell) : Prop := forall e, ghost (hc_world c) e = false.

Record seeded (c c' : HostCell) : Prop := mkSeeded {
  sd_ok : stage_ok (hc_stage c) -> stage_ok (hc_stage c');
  sd_auth : stage_ok (hc_stage c) -> same_authority (hc_stage c) (hc_stage c');
  sd_comp e row : stage_ok (hc_stage c) -> auth_row (hc_stage c) e row ->
    comp_of (hc_world c') e = comp_of (hc_world c) e;
  sd_ghosts : no_ghosts c -> no_ghosts c'
}.

#[export] Instance seeded_preorder : PreOrder seeded.
Proof.
  split; [done|]. intros a b c [] []. constructor; [auto| |intros e row Hok Ha|auto].
  - intros Hok. etrans; auto.
  - rewrite (sd_comp1 e row); [eauto..|]. by apply (sa_rows _ _ (sd_auth0 Hok)).
Qed.

Lemma comp_of_insert w e k e' st :
  comp_of (set_comps (set_wstage w st) (<[e := k]> (w_comps w))) e' =
  if decide (e' = e) then k else comp_of w e'.
Proof.
  unfold comp_of. simpl. destruct (decide (e' = e)) as [->|].
  - by rewrite lookup_insert_eq.
  - by rewrite lookup_insert_ne by done.
Qed.

Lemma populate_context_effect env existing c entry : seeded c (populate_context env existing c entry).
Proof.
  unfold populate_context. destruct (UnmarshalTransferFrame entry.1) as [f r|x|]; [|done..].
  destruct (decide _); [done|]. unfold upsertBorderReplicaFromTransfer.
  set (st' := upsertBorderReplica _ _ _ _ _).
  assert (Hok' : stage_ok (hc_stage c) -> stage_ok st').
  { intros Hok. by apply (proj1 (upsert_spec (hc_stage c) (NetworkID f) (Epoch f) entry.2 (x_clockMs env) Hok)). }
  assert (Hsa : stage_ok (hc_stage c) -> same_authority (hc_stage c) st') by apply upsert_authority.
  constructor; [exact Hok'|exact Hsa| |].
  - intros e row Hok Ha. cbn [hc_world with_world].
    destruct (replicaNetIDs st' !! NetworkID f) as [e0|] eqn:E0; [|done].
    destruct (replica_accepted _ _ _); [|done]. rewrite comp_of_insert. destruct (decide (e = e0)) as [->|]; [|done].
    apply (sa_rows _ _ (Hsa Hok)) in Ha as [Hr Hn]. apply (so_rep _ (Hok' Hok)) in E0.
    destruct (so_idx _ (Hok' Hok) _ _ _ E0) as (r' & Hr' & _ & _ & rep & Hrep & _). congruence.
  - intros Hg e. unfold ghost. cbn [hc_world with_world].
    destruct (replicaNetIDs st' !! NetworkID f) as [e0|]; [|apply Hg].
    destruct (replica_accepted _ _ _); [|apply Hg]. rewrite comp_of_insert. destruct (decide _); [|apply Hg].
    specialize (Hg e0). unfold ghost in Hg. cbn [cp_ghost]. by rewrite Hg.
Qed.

Lemma populate_contexts_effect env existing l : forall c, seeded c (fold_left (populate_context env existing) l c).
Proof.
  induction l as [|x l IH]; intros c; [done|]. simpl. etrans; [apply populate_context_effect|apply IH].
Qed.
End Importing.
