(* ===== verification/TransferDemo.v ===== *)
(** * A small world for the transfers

    Concrete parameters for the theorems on cell transfers: a codec for the sessions
    that travel without an entity, maps iterated in the order of their keys, a game that
    registers nothing, and a process with one host. *)

From S2P Require Import Prelude Float32 CellId NetId SessionRoutes HostRegistry GatewayRegistry Services.
From S2P Require Import ControlPlane ControlFence CellTransfer VirtualConn PlayerManager Transfer Handoff HostCell.
From S2P Require Import TransferExec TransferHost TransferAuthority.

(** ** Parameters *)

Definition session_tuple (s : SessionTransfer) : Z * string * Z * Z * bytes * string * Z * string :=
  (st_ConnID s, st_GatewayID s, st_GatewayConnID s, st_SessionEpoch s, st_UserID s, st_Username s,
   st_StreamGeneration s, st_StateTag s).
Definition tuple_session (t : Z * string * Z * Z * bytes * string * Z * string) : SessionTransfer :=
  let '(a, b, c, d, e, f, g, h) := t in mkSessionTransfer a b c d e f g h.

Definition read_session (b : bytes) : option SessionTransfer :=
  match b with [Zpos p] => tuple_session <$> decode p | _ => None end.

#[export] Program Instance number_codec : SessionCodec := {
  marshal_session_transfer s := Some [Zpos (encode (session_tuple s))];
  unmarshal_session_transfer := read_session
}.
Next Obligation. intros [] b _ _ _ [= <-]. unfold read_session. by rewrite decode_encode. Qed.

#[export] Program Instance key_order : Iteration := {
  visit w := (map_to_list w).*1;
  sessions_order m := (map_to_list m).*1;
  keyed A m := map_to_list m;
  numbered A m := map_to_list m
}.
Next Obligation. intros w. apply NoDup_fst_map_to_list. Qed.
Next Obligation.
  intros w e. rewrite list_elem_of_fmap. split.
  - intros ([k v] & -> & H%elem_of_map_to_list). by exists v.
  - intros [v H]. exists (e, v). split; [done|]. by apply elem_of_map_to_list.
Qed.
Next Obligation. intros m. apply NoDup_fst_map_to_list. Qed.
Next Obligation.
  intros m e. rewrite list_elem_of_fmap. split.
  - intros ([k v] & -> & H%elem_of_map_to_list). by exists v.
  - intros [v H]. exists (e, v). split; [done|]. by apply elem_of_map_to_list.
Qed.
Next Obligation. done. Qed.
Next Obligation. done. Qed.

#[export] Instance quiet_game : Game := {
  game_guard _ _ _ _ := true;
  game_action _ w pm _ := (w, pm);
  replRegistry := [];
  kind_components _ := [];
  onTransferReceived v _ := v;
  destale _ f := f
}.

(** ** A process *)

Definition cell_with (id : CellID) (idx : gmap Z (netIDSlot Entity)) (rows : gmap Entity Ent)
  (comps : gmap Entity Comp) (next : Entity) (pm : PlayerManager) : HostCell :=
  mkHostCell id (mkWorld (mkCell (mkStage (key_of id) idx rows next ∅ ∅ ∅ ∅ [] false true) NewHandoffDriver ∅)
                   comps [] []) pm [] false.

Definition empty_cell (id : CellID) : HostCell :=
  cell_with id ∅ ∅ ∅ 1 (with_leave_actions NewPlayerManager).

Definition demo_exec_env : ExecEnv :=
  mkExecEnv 100 5000 (f32_of_int 500) (f32_of_int 100) None (fun _ => true) (fun _ => true) (env_at 0) empty_cell.

(** One host with one cell, under key 0. *)
Definition process_of (c : HostCell) : Process :=
  mkProcess {[0%nat := c]} 1 {["h"%string := {[hc_id c := 0%nat]}]} {["h"%string := newCellTransferExecutor]}
    {[key_of (hc_id c) := 0%nat]} {[hc_id c := key_of (hc_id c)]} None coord0 [].

(** An entity at a position, without a player. *)
Definition frame_at (id : Z) (x y : f32) : TransferFrame :=
  mkFrame id 3 0 1 0 [] 0 [] (replicate 16 0) (f32_to_bits x) (f32_to_bits y) 0 0 0 0
    (mkRotation 0 0 0 1065353216) (mkCollider 1 2 3 4 1 2) 0 0 0 [].

(** Checking bytes by evaluation. *)
Lemma bytes_checked l : forallb (fun b => (0 <=? b) && (b <? 256)) l = true -> Forall is_byte l.
Proof.
  intros H. apply Forall_forall. intros b Hb. rewrite forallb_forall in H.
  specialize (H b (proj1 (list_elem_of_In _ _) Hb)). unfold is_byte. lia.
Qed.

Definition record_of (f : TransferFrame) : bytes :=
  match MarshalTransferFrame f with Ok b => b | Err _ => [] end.

Lemma records_checked rs :
  (Z.of_nat (length rs) <? 2 ^ 32) && forallb (fun r : bytes => Z.of_nat (length r) <? 2 ^ 32) rs = true ->
  records_fit rs.
Proof.
  intros [H1 H2]%andb_prop. split; [lia|]. apply Forall_forall. intros r Hr. rewrite forallb_forall in H2.
  specialize (H2 r (proj1 (list_elem_of_In _ _) Hr)). lia.
Qed.
