(* ===== verification/TransferRollback.v ===== *)
(** * An aborted merge leaves the survivor as it was

    The donors of a merge are populated into a cell that is alive before and after: if
    the merge is rolled back, whatever the donors brought must go, and nothing else.
    The entities recorded as imported are exactly the holders the survivor did not have
    before the first donor; removing them restores its holders. *)

From S2P Require Import Prelude Float32 CellId NetId SessionRoutes ControlPlane CellTransfer.
From S2P Require Import VirtualConn PlayerManager Transfer Handoff HostCell TransferExec.
From S2P Require Import TransferHost TransferAuthority TransferDemo.

Section Rollback.
Context `{!Iteration} `{!Game} `{!SessionCodec}.

(** ** What is there already *)

Lemma existing_fold c es : forall (m : gmap Z Entity) n,
  is_Some (m !! n) \/ (exists e row, e ∈ es /\ world (hc_stage c) !! e = Some row /\ net_ID (e_net row) = n) ->
  is_Some (fold_left (fun m e => match world (hc_stage c) !! e with
                                 | Some row => <[net_ID (e_net row) := e]> m
                                 | None => m
                                 end) es m !! n).
Proof.
  induction es as [|e es IH]; intros m n [Hm|(e' & row & He & Hr & Hn)]; cbn [fold_left].
  - done.
  - by apply elem_of_nil in He.
  - apply IH. left. destruct (world (hc_stage c) !! e) as [row|]; [|done].
    destruct (decide (net_ID (e_net row) = n)) as [->|]; [by rewrite lookup_insert_eq|].
    by rewrite lookup_insert_ne.
  - apply elem_of_cons in He as [->|He].
    + apply IH. left. rewrite Hr, Hn, lookup_insert_eq. done.
    + apply IH. right. by exists e', row.
Qed.

Lemma live_rows_auth c e : no_ghosts c -> (e ∈ live_rows c <-> exists row, auth_row (hc_stage c) e row).
Proof.
  intros Hg. unfold live_rows, rows. rewrite list_elem_of_filter, visit_spec. unfold authoritative.
  rewrite (Hg e). unfold is_replica, auth_row. change (stage (w_cell (hc_world c))) with (hc_stage c).
  destruct (world (hc_stage c) !! e) as [row|].
  - destruct (e_replica row) eqn:E; simpl; split.
    + by intros [? _].
    + intros (? & [= <-] & ?). congruence.
    + intros _. by exists row.
    + intros _. by split.
  - split; [by intros [_ []]|by intros (? & ? & _)].
Qed.

Lemma existing_live_dom c n e : stage_ok (hc_stage c) -> no_ghosts c ->
  holder (hc_stage c) n = Some e -> is_Some (existing_live c !! n).
Proof.
  intros Hok Hg Hh. destruct (holder_row _ _ _ Hok Hh) as (row & Ha & Hid).
  apply existing_fold. right. exists e, row. split_and!; [|apply Ha|done].
  apply live_rows_auth; [done|]. by exists row.
Qed.

(** ** The invariant of the donors' jobs *)

Section Donors.
Context (h0 : Z -> option Entity).

Record undoable (c : HostCell) (imports : gmap Z Entity) (existing : gmap Z Entity) : Prop := mkUndoable {
  ud_ok : stage_ok (hc_stage c);
  ud_ghosts : no_ghosts c;
  ud_dom n e : holder (hc_stage c) n = Some e -> is_Some (existing !! n);
  ud_keep n e : h0 n = Some e -> holder (hc_stage c) n = Some e;
  ud_src n e : holder (hc_stage c) n = Some e -> h0 n = Some e \/ imports !! n = Some e;
  ud_imp n e : imports !! n = Some e -> h0 n = None /\ forall k, h0 k <> Some e
}.

Lemma undoable_world c c' imports existing : hc_world c' = hc_world c ->
  undoable c imports existing -> undoable c' imports existing.
Proof. intros E []. constructor; unfold no_ghosts, hc_stage in *; rewrite ?E; done. Qed.

Definition imports_of (x : cellTransferExecutor) (req : Z) : gmap Z Entity := default ∅ (mergeImportedLive x !! req).

Lemma imports_insert req n e m : default ∅ (insert2 req n e m !! req) = <[n := e]> (default ∅ (m !! req)) :> gmap Z Entity.
Proof. unfold insert2. by rewrite lookup_insert_eq. Qed.

Lemma undoable_import req p p' n e sf existing :
  undoable (p_cell p) (imports_of (p_exec p) req) existing ->
  holder (hc_stage (p_cell p)) n = None -> NetworkID sf = n ->
  e = nextEntity (RemoveReplicaByNetID (hc_stage (p_cell p)) n) ->
  imported true req p p' n e sf ->
  undoable (p_cell p') (imports_of (p_exec p') req) (<[n := e]> existing).
Proof.
  intros [Hok Hg Hdom Hkeep Hsrc Himp] Hh Hn He [Hst Hco Hli _].
  destruct (remove_by_id_authority (hc_stage (p_cell p)) n Hok) as (Hsa & Hok1 & Hi).
  rewrite Hh in Hi. destruct Hi as [Hi|[? ?]]; [|done].
  assert (Hhol : forall k, holder (hc_stage (p_cell p')) k =
    if bool_decide (k = n /\ k <> 0) then Some e else holder (hc_stage (p_cell p)) k).
  { intros k. rewrite Hst, spawned_holder, Hn, <- He by (by rewrite Hn). case_bool_decide; [done|].
    apply (sa_holder _ _ Hsa). }
  assert (H0n : h0 n = None).
  { destruct (h0 n) as [e0|] eqn:E0; [|done]. apply Hkeep in E0. congruence. }
  unfold imports_of. rewrite Hli, imports_insert. constructor.
  - rewrite Hst. apply spawned_ok; [done|]. by rewrite Hn.
  - intros k. unfold ghost, comp_of. rewrite Hco. destruct (decide (k = e)) as [->|].
    + by rewrite lookup_insert_eq.
    + rewrite lookup_insert_ne by done. apply Hg.
  - intros k e'. rewrite Hhol. case_bool_decide as Hb.
    + destruct Hb as [-> _]. by rewrite lookup_insert_eq.
    + intros Hk%Hdom. rewrite lookup_insert_is_Some'. by right.
  - intros k e' Hk. rewrite Hhol, bool_decide_eq_false_2; [by apply Hkeep|]. intros [-> _]. congruence.
  - intros k e'. rewrite Hhol. case_bool_decide as Hb.
    + destruct Hb as [-> _]. intros [= <-]. right. by rewrite lookup_insert_eq.
    + intros Hk. destruct (decide (k = n)) as [->|]; [congruence|].
      apply Hsrc in Hk as [?|?]; [by left|right]. by rewrite lookup_insert_ne.
  - intros k e' [[<- <-]|[_ Hk]]%lookup_insert_Some; [|by eapply Himp]. split; [done|].
    intros k Hk. apply Hkeep in Hk as (row & [Hr _] & _)%holder_row; [|done].
    apply (so_next _ Hok) in Hr. pose proof (sa_next _ _ Hsa). lia.
Qed.

(** Replacing an earlier donor's copy first removes it. *)
Lemma remove_donor_spec c e row : world (hc_stage c) !! e = Some row ->
  exists c', removeMergeDonorLive c e = Some c' /\ hc_stage c' = RemoveEntityNow (hc_stage c) e /\
    w_comps (hc_world c') = w_comps (hc_world c).
Proof.
  intros Hr. unfold removeMergeDonorLive, alive, RemoveEntityNowWithPolicy.
  change (stage (w_cell (hc_world c))) with (hc_stage c).
  rewrite Hr, bool_decide_eq_true_2 by done. eexists. split; [reflexivity|]. by destruct c as [? [[]]].
Qed.

Lemma undoable_remove c c' imports existing n e row :
  undoable c imports existing -> imports !! n = Some e -> world (hc_stage c) !! e = Some row ->
  hc_stage c' = RemoveEntityNow (hc_stage c) e -> w_comps (hc_world c') = w_comps (hc_world c) ->
  undoable c' imports (delete n existing) /\ holder (hc_stage c') n = None.
Proof.
  intros [Hok Hg Hdom Hkeep Hsrc Himp] Hi Hr Hst Hco.
  destruct (remove_any _ _ _ Hok Hr) as (Hok' & Hhol).
  assert (Hn : holder (hc_stage c) n = Some e \/ holder (hc_stage c) n = None).
  { destruct (holder (hc_stage c) n) as [e'|] eqn:E; [left|by right].
    destruct (Hsrc _ _ E) as [F|F]; [|congruence]. apply Himp in Hi as [? _]. congruence. }
  assert (Hgone : holder (hc_stage c') n = None).
  { rewrite Hst, Hhol. case_bool_decide; [done|]. by destruct Hn. }
  split; [constructor|done].
  - by rewrite Hst.
  - intros k. unfold ghost, comp_of. rewrite Hco. apply Hg.
  - intros k e' Hk. destruct (decide (k = n)) as [->|]; [congruence|]. rewrite lookup_delete_ne by done.
    rewrite Hst, Hhol in Hk. case_bool_decide; [done|]. by eapply Hdom.
  - intros k e' Hk. rewrite Hst, Hhol. rewrite bool_decide_eq_false_2; [by apply Hkeep|].
    intros Hke. apply Hkeep in Hk as Hk'. destruct (Himp _ _ Hi) as [_ F]. apply (F k). congruence.
  - intros k e'. rewrite Hst, Hhol. case_bool_decide; [done|]. apply Hsrc.
  - done.
Qed.

(** Deciding by [ud_dom] who is already there: a frame whose id is not in [existing]
    finds the slot empty. *)
Lemma undoable_absent c imports existing n : undoable c imports existing ->
  existing !! n = None -> holder (hc_stage c) n = None.
Proof.
  intros U Hn. destruct (holder (hc_stage c) n) eqn:E; [|done].
  apply (ud_dom _ _ _ U) in E as [? ?]. congruence.
Qed.


(** One frame, the frames of a donor, a donor's whole job. *)
Definition undoable_pop (req : Z) (p : Pop) (existing : gmap Z Entity) : Prop :=
  undoable (p_cell p) (imports_of (p_exec p) req) existing.

Definition still_undoable {A} (req : Z) (r : Pop * result ExecError (gmap Z Entity * A)) : Prop :=
  match r with
  | (p, Ok (existing, _)) => undoable_pop req p existing
  | (p, Err _) => exists existing, undoable_pop req p existing
  end.

Lemma import_undoable env req p f prior existing :
  frame_ok f -> undoable_pop req p existing -> holder (hc_stage (p_cell p)) (NetworkID f) = None ->
  still_undoable req (import_entity env true req p f prior existing).
Proof.
  intros Hf U Hh.
  destruct (import_effect env true req p f prior existing (ud_ok _ _ _ U) Hf Hh) as (p1 & users & conn & -> & Him).
  eapply (undoable_import req p p1 _ _ (landed f conn)); [exact U|exact Hh|reflexivity|reflexivity|exact Him].
Qed.

Lemma populate_entity_undoable env req p existing b : Forall is_byte b -> undoable_pop req p existing ->
  still_undoable req (populate_entity env true req p existing b).
Proof.
  intros Hb U. unfold populate_entity. destruct (unmarshal_safe b Hb) as [Hp Hf].
  destruct (UnmarshalTransferFrame b) as [f r|x|] eqn:E; [|by exists existing|done]. specialize (Hf f r eq_refl).
  generalize (if true && negb (Transfer.ConnID f =? 0)
              then mergeSessionImportState p (Transfer.ConnID f) (name_of (GatewayID f)) (GatewayConnID f)
              else (None, mkSessionKey "" 0, false)).
  intros prior. destruct (existing !! NetworkID f) as [ent|] eqn:Ex.
  - destruct (_ && _ && _ && _) eqn:Ec.
    + apply andb_prop in Ec as [Ec _]. apply andb_prop in Ec as [_ Ec]. unfold mergeImportedEntity in Ec.
      assert (Hi : imports_of (p_exec p) req !! NetworkID f = Some ent).
      { unfold imports_of. destruct (mergeImportedLive (p_exec p) !! req) as [m|]; [|done]. simpl in *.
        destruct (m !! NetworkID f); [|done]. by apply Z.eqb_eq in Ec as ->. }
      destruct (world (hc_stage (p_cell p)) !! ent) as [row|] eqn:Er.
      * destruct (remove_donor_spec _ _ _ Er) as (c' & -> & Hst & Hco).
        destruct (undoable_remove _ c' _ _ _ _ _ U Hi Er Hst Hco) as [U' Hh].
        by apply import_undoable.
      * unfold removeMergeDonorLive, alive. change (stage (w_cell (hc_world (p_cell p)))) with (hc_stage (p_cell p)).
        rewrite Er. by exists existing.
    + pose proof (retain_effect env p f ent) as (Hw & _ & Hx).
      destruct (retain_existing env p f ent) as [p' users]. cbn [fst] in Hw, Hx. simpl.
      unfold undoable_pop. rewrite Hx. by eapply undoable_world.
  - apply import_undoable; [done..|]. by eapply undoable_absent.
Qed.

Lemma populate_entities_undoable env req bs : forall p existing, Forall (Forall is_byte) bs ->
  undoable_pop req p existing -> still_undoable req (populate_entities env true req p existing bs).
Proof.
  induction bs as [|b bs IH]; intros p existing Hbs U; [done|]. apply Forall_cons in Hbs as [Hb Hbs].
  cbn [populate_entities]. pose proof (populate_entity_undoable env req p existing b Hb U) as U1.
  destruct (populate_entity env true req p existing b) as [p1 [[ex1 u1]|e1]]; [|exact U1].
  specialize (IH p1 ex1 Hbs U1).
  by destruct (populate_entities env true req p1 ex1 bs) as [p2 [[ex2 u2]|e2]].
Qed.

Lemma unpack_bytes buf rs : Forall is_byte buf -> unpackRecords buf = Ok rs -> Forall (Forall is_byte) rs.
Proof.
  intros Hb. unfold unpackRecords. destruct buf as [|x xs]; [by intros [= <-]|].
  revert Hb. generalize (x :: xs). clear x xs. intros buf Hb.
  destruct (_ <? 4)%nat; [done|]. destruct (_ <? _); [done|].
  assert (Hd : Forall is_byte (drop 4 buf)) by (by apply Forall_drop). clear Hb.
  generalize (Z.to_nat (be_val (take 4 buf))). intros n. revert rs Hd. generalize (drop 4 buf). clear buf.
  induction n as [|n IH]; intros buf rs Hb; cbn [unpack_loop]; [by intros [= <-]|].
  destruct (_ <? 4)%nat; [done|]. destruct (_ <? _); [done|]. unfold rbind.
  destruct (unpack_loop n _) as [rest|] eqn:E; [|done]. intros [= <-].
  apply Forall_cons. split; [by apply Forall_take, Forall_drop|].
  eapply IH; [|exact E]. by apply Forall_drop, Forall_drop.
Qed.

Lemma undoable_seeded c c' imports existing : seeded c c' -> undoable c imports existing -> undoable c' imports existing.
Proof.
  intros [Hok Hsa _ Hg] [Uok Ug Ud Uk Us Ui]. specialize (Hsa Uok).
  constructor; try (intros n e; rewrite (sa_holder _ _ Hsa)); eauto.
Qed.

Lemma existing_undoable c imports existing : undoable c imports existing -> undoable c imports (existing_live c).
Proof. intros [? ? ? ? ? ?]. constructor; auto. intros n e. by apply existing_live_dom. Qed.

Lemma freeze_undoable m c imports existing : undoable c imports existing ->
  undoable (SetDrainingForMerge true (cancelStaleDemotesOnSurvivor m c)) imports existing.
Proof.
  intros [Hok Hg Ud Uk Us Ui].
  assert (Hst : exists d, hc_stage (SetDrainingForMerge true (cancelStaleDemotesOnSurvivor m c)) =
    mkStage (cellID (hc_stage c)) (netIDIdx (hc_stage c)) (world (hc_stage c)) (nextEntity (hc_stage c))
      (replicaNetIDs (hc_stage c)) (borderLastSeen (hc_stage c)) (highestSeenEpoch (hc_stage c))
      (handoffAccepted (hc_stage c)) (crossingQueue (hc_stage c)) d (strictNetIDIndex (hc_stage c)) /\
    w_comps (hc_world (SetDrainingForMerge true (cancelStaleDemotesOnSurvivor m c))) = w_comps (hc_world c)).
  { exists true. unfold cancelStaleDemotesOnSurvivor. by destruct (ParseCellID (str m) ≫= Siblings). }
  destruct Hst as (d & Hst & Hco). destruct Hok as [Si Sr Sn].
  constructor; rewrite ?Hst; try done. intros e. unfold ghost, comp_of. rewrite Hco. apply Hg.
Qed.

(** A merge message of the request, as bytes off the wire. *)
Definition merge_msg (req : Z) (m : CellTransferMsg) : Prop :=
  ct_Kind m = CellTransferMerge /\ ct_RequestID m = req /\ Forall is_byte (ct_Entities m).

Lemma merge_job_undoable env host req m p existing : merge_msg req m -> undoable_pop req p existing ->
  exists existing', undoable_pop req (merge_job env host m p).1 existing'.
Proof.
  intros (Hk & Hr & Hb) U. unfold merge_job. set (c1 := SetDrainingForMerge true _).
  assert (U1 : undoable c1 (imports_of (p_exec p) req) existing) by (by apply freeze_undoable).
  set (p1 := pop_exec _ _).
  assert (U2 : undoable_pop req p1 (existing_live (p_cell p1))).
  { unfold undoable_pop, imports_of, p1. cbn [p_exec p_cell pop_exec pop_cell].
    replace (mergeImportedLive (captureMergeNativeLive (p_exec p) (ct_RequestID m) c1))
      with (mergeImportedLive (p_exec p)) by (unfold captureMergeNativeLive; by destruct (decide _)).
    by eapply existing_undoable. }
  unfold populateCell. rewrite Hk, bool_decide_eq_true_2, Hr by done.
  destruct (unpackRecords (ct_Entities m)) as [bs|] eqn:Eb; [|by eexists].
  pose proof (populate_entities_undoable env req bs p1 (existing_live (p_cell p1)) (unpack_bytes _ _ Hb Eb) U2) as U3.
  destruct (populate_entities _ _ _ _ _ _) as [p2 [[ex users]|err]]; [|destruct U3 as [? U3]; by eexists].
  destruct (unpackRecords (ct_Sessions m)) as [sbs|]; [|by eexists].
  pose proof (populate_sessions_effect env true req (if String.eqb (ct_DestHostID m) "" then host else ct_DestHostID m) sbs p2)
    as (Hw & Hl & _).
  destruct (populate_sessions _ _ _ _ _ _) as [p3 [more|err]]; cbv zeta in Hw, Hl; cbn [fst] in Hw, Hl |- *.
  - exists ex. unfold undoable_pop, imports_of. cbn [p_cell p_exec pop_cell]. rewrite Hl.
    eapply undoable_seeded; [apply populate_contexts_effect|]. by eapply undoable_world.
  - exists ex. unfold undoable_pop, imports_of. rewrite Hl. by eapply undoable_world.
Qed.

(** ** Taking the imports back *)

Lemma rollback_one c imports existing n e : undoable c imports existing -> imports !! n = Some e ->
  exists c' existing', rollback_live (c, true) (n, e) = (c', true) /\ undoable c' imports existing' /\
    forall k k', holder (hc_stage c') k = Some k' -> holder (hc_stage c) k = Some k' /\ (k, k') <> (n, e).
Proof.
  intros U Hi. unfold rollback_live, LookupNetID, Lookup. cbn [fst snd].
  assert (Hno : holder (hc_stage c) n <> Some e -> exists c' existing', (c, true) = (c', true) /\
    undoable c' imports existing' /\
    forall k k', holder (hc_stage c') k = Some k' -> holder (hc_stage c) k = Some k' /\ (k, k') <> (n, e)).
  { intros Hne. exists c, existing. split_and!; [done..|]. intros k k' Hk. split; [done|]. by intros [= -> ->]. }
  destruct (netIDIdx (hc_stage c) !! n) as [[e' []]|] eqn:E; cbn [slot_entity slot_presence];
    try (apply Hno; unfold holder; by rewrite E).
  apply holder_slot in E. destruct (Z.eqb_spec e' e) as [->|Hne]; [|apply Hno; congruence].
  destruct (holder_row _ _ _ (ud_ok _ _ _ U) E) as (row & [Hr _] & _).
  destruct (remove_donor_spec _ _ _ Hr) as (c' & -> & Hst & Hco).
  destruct (undoable_remove _ c' _ _ _ _ _ U Hi Hr Hst Hco) as [U' Hgone].
  exists c', (delete n existing). split_and!; [done..|]. intros k k' Hk. split; [|intros [= -> ->]; congruence].
  destruct (remove_any _ _ _ (ud_ok _ _ _ U) Hr) as (_ & Hh). rewrite Hst, Hh in Hk. by case_bool_decide.
Qed.

Lemma rollback_live_all l imports : Forall (fun x => imports !! x.1 = Some x.2) l -> forall c existing,
  undoable c imports existing ->
  exists c' existing', fold_left rollback_live l (c, true) = (c', true) /\ undoable c' imports existing' /\
    forall k k', holder (hc_stage c') k = Some k' -> holder (hc_stage c) k = Some k' /\ (k, k') ∉ l.
Proof.
  induction 1 as [|[n e] l Hx _ IH]; intros c existing U.
  { exists c, existing. split_and!; [done..|]. intros k k' Hk. split; [done|]. apply not_elem_of_nil. }
  destruct (rollback_one c imports existing n e U Hx) as (c1 & ex1 & Hc1 & U1 & H1').
  destruct (IH c1 ex1 U1) as (c2 & ex2 & Hc2 & U2 & H2'). exists c2, ex2. cbn [fold_left]. rewrite Hc1.
  split_and!; [done..|]. intros k k' Hk. destruct (H2' k k' Hk) as [Hk1 Hn2]. destruct (H1' k k' Hk1) as [Hk0 Hn1].
  split; [done|]. by rewrite not_elem_of_cons.
Qed.

Lemma rollback_session_stage x acc : hc_world (rollback_session acc x).1 = hc_world acc.1.
Proof.
  destruct acc as [c vcm]. unfold rollback_session. cbn [fst].
  destruct (PlayerManager.heap (hc_players c) !! im_session x.2); [|done].
  by destruct (bool_decide _).
Qed.

Lemma rollback_sessions_stage sess : forall acc, hc_world (fold_left rollback_session sess acc).1 = hc_world acc.1.
Proof.
  induction sess as [|x sess IH]; intros acc; [done|]. cbn [fold_left]. rewrite IH. apply rollback_session_stage.
Qed.

Lemma rollback_restores c imports existing sess vcm : undoable c imports existing ->
  let r := rollback_job (numbered imports) sess c vcm in
  (forall n, holder (hc_stage r.1) n = h0 n) /\ drainingForMerge (hc_stage r.1) = false.
Proof.
  intros U. unfold rollback_job.
  assert (Hall : Forall (fun x => imports !! x.1 = Some x.2) (numbered imports)).
  { apply Forall_forall. intros [n e] He. rewrite numbered_spec in He. by apply elem_of_map_to_list in He. }
  destruct (rollback_live_all _ _ Hall c existing U) as (c' & ex' & -> & U' & Hin).
  pose proof (rollback_sessions_stage sess (c', vcm)) as Hw.
  destruct (fold_left rollback_session sess (c', vcm)) as [c2 vcm2]. cbn [fst] in Hw |- *. split; [|done].
  intros n. transitivity (holder (hc_stage c') n); [change (holder (hc_stage c2) n = holder (hc_stage c') n); unfold hc_stage; by rewrite Hw|].
  destruct (holder (hc_stage c') n) as [e|] eqn:E.
  - destruct (Hin n e E) as [_ Hne]. apply (ud_src _ _ _ U') in E as [E|E]; [done|].
    exfalso. apply Hne. rewrite numbered_spec. by apply elem_of_map_to_list.
  - destruct (h0 n) as [e|] eqn:E0; [|done]. apply (ud_keep _ _ _ U') in E0. congruence.
Qed.
End Donors.

(** ** What the jobs leave alone *)

(** The executor's own records of a request, and whether the cell still runs. *)
Record job_frame (p p' : Pop) : Prop := mkJobFrame {
  jf_pending : pending (p_exec p') = pending (p_exec p);
  jf_sources : mergeSources (p_exec p') = mergeSources (p_exec p);
  jf_survivors : mergeSurvivors (p_exec p') = mergeSurvivors (p_exec p);
  jf_cells : transferSrcCells (p_exec p') = transferSrcCells (p_exec p);
  jf_stopped : hc_stopped (p_cell p') = hc_stopped (p_cell p)
}.

#[local] Instance job_frame_preorder : PreOrder job_frame.
Proof. split; [done|]. intros a b c [] []. constructor; congruence. Qed.

Lemma retain_frame env p f ent : job_frame p (retain_existing env p f ent).1.
Proof.
  unfold retain_existing. destruct (_ || _); [done|]. destruct (negb _); [done|].
  destruct (p_vcm p) as [v|]; [|done]. destruct (GatewayConnID f =? 0); [done|].
  by destruct (RegisterSession _ _ _ _ _).
Qed.

Lemma record_session_job merge req prior key drop conn p :
  job_frame p (record_session merge req prior key drop conn p).
Proof.
  unfold record_session. destruct (ByConnID _ _) as [ptr|]; [|done].
  by destruct (PlayerManager.heap _ !! ptr), prior, merge.
Qed.

Lemma spawn_frame p f : job_frame p (spawnCellTransferLive p f).1.
Proof.
  unfold spawnCellTransferLive. destruct (MarshalTransferFrame _) as [b|]; [|done].
  unfold spawnFromTransfer. destruct (UnmarshalTransferFrame b) as [f0 r|x|]; [|done..].
  destruct (remap_conn _ _ _) as [v conn]. by destruct (SpawnFromTransferCore _ _ _) as [st [e|x]].
Qed.

Lemma import_frame env merge req p f prior existing :
  job_frame p (import_entity env merge req p f prior existing).1.
Proof.
  unfold import_entity. set (p0 := pop_cell p _).
  assert (H0' : job_frame p p0) by done. etrans; [exact H0'|]. pose proof (spawn_frame p0 f) as Hs.
  destruct (spawnCellTransferLive p0 f) as [p1 [[e sf]|x]]; [|exact Hs]. etrans; [exact Hs|].
  cbn [fst]. set (p2 := if merge then _ else _). assert (H2' : job_frame p1 p2) by (subst p2; by destruct merge).
  destruct (_ || _); [exact H2'|]. destruct prior as [[ps key] drop]. etrans; [exact H2'|]. cbn [fst].
  match goal with |- context [record_session ?m ?r ?ps ?k ?d ?c ?p] =>
    pose proof (record_session_job m r ps k d c p) as [E1 E2 E3 E4 E5] end.
  by constructor; unfold touch; cbn [p_cell p_exec]; rewrite ?E1, ?E2, ?E3, ?E4, ?E5.
Qed.

Lemma populate_entity_frame env merge req p existing b :
  job_frame p (populate_entity env merge req p existing b).1.
Proof.
  unfold populate_entity. destruct (UnmarshalTransferFrame b) as [f r|x|]; [|done..].
  match goal with |- context [import_entity _ _ _ _ _ ?x _] => generalize x end. intros prior.
  destruct (existing !! NetworkID f) as [ent|]; [|apply import_frame].
  destruct (_ && _ && _ && _).
  - destruct (removeMergeDonorLive (p_cell p) ent) as [c|] eqn:E; [|done].
    etrans; [|apply import_frame]. constructor; try done. cbn [p_cell pop_cell].
    unfold removeMergeDonorLive in E. destruct (alive _ _); [|done]. by injection E as <-.
  - pose proof (retain_frame env p f ent) as Hf. by destruct (retain_existing env p f ent).
Qed.

Lemma populate_entities_frame env merge req bs : forall p existing,
  job_frame p (populate_entities env merge req p existing bs).1.
Proof.
  induction bs as [|b bs IH]; intros p existing; [done|]. cbn [populate_entities].
  pose proof (populate_entity_frame env merge req p existing b) as E1.
  destruct (populate_entity env merge req p existing b) as [p1 [[ex1 u1]|e1]]; [|done].
  specialize (IH p1 ex1). destruct (populate_entities env merge req p1 ex1 bs) as [p2 [[ex2 u2]|e2]];
    (etrans; [exact E1|exact IH]).
Qed.

Lemma populate_session_frame env merge req host p b : job_frame p (populate_session env merge req host p b).1.
Proof.
  unfold populate_session. destruct (unmarshal_session_transfer b) as [s|]; [|done].
  destruct (st_ConnID s =? 0); [done|]. destruct (mergeSessionImportState _ _ _ _) as [[prior key] drop].
  assert (Hd : job_frame p (destinationConnIDForSessionTransfer p s).1).
  { unfold destinationConnIDForSessionTransfer. destruct (_ && _); [done|]. destruct (_ || _); [done|].
    destruct (p_vcm p); [|done]. by destruct (RegisterSession _ _ _ _ _). }
  destruct (destinationConnIDForSessionTransfer p s) as [p1 [local|err]]; cbn [fst] in Hd |- *; [|done].
  etrans; [exact Hd|].
  match goal with |- context [record_session ?m ?r ?ps ?k ?d ?c ?p] =>
    pose proof (record_session_job m r ps k d c p) as [E1 E2 E3 E4 E5] end.
  by constructor; unfold touch; cbn [p_cell p_exec]; rewrite ?E1, ?E2, ?E3, ?E4, ?E5.
Qed.

Lemma populate_sessions_frame env merge req host bs : forall p,
  job_frame p (populate_sessions env merge req host p bs).1.
Proof.
  induction bs as [|b bs IH]; intros p; [done|]. cbn [populate_sessions].
  pose proof (populate_session_frame env merge req host p b) as E1.
  destruct (populate_session env merge req host p b) as [p1 [u|]]; [|done].
  specialize (IH p1). destruct (populate_sessions env merge req host p1 bs) as [p2 [m|]];
    (etrans; [exact E1|exact IH]).
Qed.

Lemma contexts_stopped env existing l : forall c,
  hc_stopped (fold_left (populate_context env existing) l c) = hc_stopped c.
Proof.
  induction l as [|x l IH]; intros c; [done|]. cbn [fold_left]. rewrite IH. unfold populate_context.
  destruct (UnmarshalTransferFrame x.1) as [f r|e|]; [|done..]. by destruct (decide _).
Qed.

Lemma populateCell_frame env host m p : job_frame p (populateCell env host m p).1.
Proof.
  unfold populateCell. destruct (unpackRecords (ct_Entities m)) as [bs|]; [|done].
  pose proof (populate_entities_frame env (bool_decide (ct_Kind m = CellTransferMerge)) (ct_RequestID m) bs p
    (existing_live (p_cell p))) as F1.
  destruct (populate_entities _ _ _ _ _ _) as [p1 [[ex us]|]]; [|done]. cbn [fst] in F1.
  destruct (unpackRecords (ct_Sessions m)) as [sbs|]; [|done].
  pose proof (populate_sessions_frame env (bool_decide (ct_Kind m = CellTransferMerge)) (ct_RequestID m)
    (if String.eqb (ct_DestHostID m) "" then host else ct_DestHostID m) sbs p1) as F2.
  destruct (populate_sessions _ _ _ _ _ _) as [p2 [more|]]; cbn [fst] in F2 |- *; (etrans; [exact F1|]); [|done].
  etrans; [exact F2|]. constructor; try done. apply contexts_stopped.
Qed.

Lemma merge_job_frame env host m p : job_frame p (merge_job env host m p).1.
Proof.
  unfold merge_job. etrans; [|apply populateCell_frame].
  assert (Hs : forall c, hc_stopped (cancelStaleDemotesOnSurvivor (ct_DestCellID m) c) = hc_stopped c)
    by (intros c; unfold cancelStaleDemotesOnSurvivor; by destruct (ParseCellID _ ≫= Siblings)).
  constructor; cbn [p_exec p_cell pop_exec pop_cell];
    try (unfold captureMergeNativeLive; by destruct (decide _)). apply Hs.
Qed.

(** ** A survivor through its donors and the abort *)

Definition donors (env : ExecEnv) (host : string) (ms : list CellTransferMsg) (p : Process) : Process :=
  fold_left (fun p m => (Receive env host m p).1) ms p.

(** Nothing is recorded of the request on the host. *)
Definition fresh_request (req : Z) (x : cellTransferExecutor) : Prop :=
  pending x !! req = None /\ mergeSources x !! req = None /\ mergeSurvivors x !! req = None /\
  mergeNativeLive x !! req = None /\ mergeImportedLive x !! req = None /\
  mergeImportedSessions x !! req = None /\ transferSrcCells x !! req = None.

Definition donors_for (req : Z) (host : string) (k : nat) (p : Process) (ms : list CellTransferMsg) : Prop :=
  Forall (fun m => merge_msg req m /\ CellByID p host (ct_DestCellID m) = Some k) ms.

Section Survivor.
Context (env : ExecEnv) (host : string) (req : Z) (k : nat) (h0 : Z -> option Entity).

Record merging (hosts : gmap string (gmap CellID nat)) (p : Process) : Prop := mkMerging {
  mg_hosts : pr_hosts p = hosts;
  mg_cell : exists c x existing, pr_store p !! k = Some c /\ hc_stopped c = false /\
    pr_execs p !! host = Some x /\ undoable h0 c (imports_of x req) existing /\
    pending x !! req = None /\ mergeSources x !! req = None /\ transferSrcCells x !! req = None
}.

Hypothesis Hloop : x_loop env k = true.

Lemma receive_merging hosts p m : merge_msg req m -> CellByID p host (ct_DestCellID m) = Some k ->
  merging hosts p -> merging hosts (Receive env host m p).1 /\
  exists x, pr_execs (Receive env host m p).1 !! host = Some x /\ mergeSurvivors x !! req = Some k.
Proof.
  intros Hm Hk [Hh (c & x & ex & Hc & Hs & Hx & U & Hp & Hso & Hsc)]. unfold Receive.
  assert (Hid : exists id, ParseCellID (str (ct_DestCellID m)) = Some id).
  { unfold CellByID in Hk. destruct (ParseCellID _) as [id|]; [by exists id|done]. }
  destruct Hid as [id ->]. rewrite decide_True by apply Hm. unfold receive_merge. rewrite Hk.
  destruct Hm as (Hkind & Hreq & Hb). rewrite Hreq.
  set (x1 := upd_survivors x (<[req := k]> (mergeSurvivors x))).
  set (p1 := upd_exec p host _).
  assert (Hx1 : pr_execs p1 !! host = Some x1).
  { unfold p1. simpl. by rewrite lookup_alter_eq, Hx. }
  unfold run_pop, on_loop. change (pr_store p1) with (pr_store p). rewrite Hc, Hloop, Hs. cbn [andb negb].
  assert (Hst : start_pop p1 host c = mkPop c (pr_vcm p1) (pr_coord p1) x1).
  { unfold start_pop, exec_of. by rewrite Hx1. }
  rewrite Hst. set (r0 := mkPop _ _ _ _).
  destruct (merge_job_undoable h0 env host req m r0 ex) as [ex' U']; [by split_and!|exact U|].
  pose proof (merge_job_frame env host m r0) as [J1 J2 J3 J4 J5].
  destruct (merge_job env host m r0) as [r res]. cbn [fst] in U', J1, J2, J3, J4, J5.
  set (p2 := put_pop p1 host k r).
  assert (Hx2 : pr_execs p2 !! host = Some (p_exec r)).
  { unfold p2, put_pop, upd_shared, upd_exec, put_cell, upd_store. cbn [pr_execs].
    by rewrite lookup_alter_eq, Hx1. }
  assert (Hsurv : mergeSurvivors (p_exec r) !! req = Some k).
  { rewrite J3. unfold r0, x1. simpl. apply lookup_insert_eq. }
  assert (Hc2 : pr_store p2 !! k = Some (p_cell r)).
  { unfold p2, put_pop, upd_shared, upd_exec, put_cell, upd_store. cbn [pr_store]. apply lookup_insert_eq. }
  assert (M : merging hosts p2).
  { constructor; [exact Hh|]. exists (p_cell r), (p_exec r), ex'.
    rewrite J1, J2, J4, J5. by split_and!. }
  destruct res as [us|err]; cbn [fst]; (split; [by destruct M|by exists (p_exec r)]).
Qed.

Lemma CellByID_hosts p p' cell : pr_hosts p' = pr_hosts p -> CellByID p' host cell = CellByID p host cell.
Proof. unfold CellByID. by intros ->. Qed.

Lemma donors_merging p ms : merging (pr_hosts p) p -> donors_for req host k p ms -> ms <> [] ->
  merging (pr_hosts p) (donors env host ms p) /\
  exists x, pr_execs (donors env host ms p) !! host = Some x /\ mergeSurvivors x !! req = Some k.
Proof.
  intros M Hms. destruct ms as [|m ms]; [done|]. intros _. remember (pr_hosts p) as hosts eqn:Eh.
  assert (Hk : forall cell, CellByID p host cell = CellByID p host cell) by done.
  assert (Hgen : forall q cell, pr_hosts q = hosts -> CellByID q host cell = CellByID p host cell).
  { intros q cell Hq. apply CellByID_hosts. by rewrite Hq. }
  revert M Hms. generalize p at 1 3 4 as q. revert m.
  induction ms as [|m' ms IH]; intros m q M Hms; apply Forall_cons in Hms as [[Hm Hc] Hms];
    destruct (receive_merging hosts q m Hm (eq_trans (Hgen q _ (mg_hosts _ _ M)) Hc) M) as [M' Hx'].
  - by split.
  - unfold donors. cbn [fold_left]. by apply (IH m' (Receive env host m q).1).
Qed.

Lemma abort_restores hosts p x : merging hosts p -> pr_execs p !! host = Some x -> mergeSurvivors x !! req = Some k ->
  exists c, pr_store (Abort env host req p) !! k = Some c /\ (forall n, holder (hc_stage c) n = h0 n) /\
    drainingForMerge (hc_stage c) = false /\
    exists y, pr_execs (Abort env host req p) !! host = Some y /\ fresh_request req y.
Proof.
  intros [_ (c & x' & ex & Hc & Hs & Hx' & U & Hp & Hso & Hsc)] Hx Hsv.
  assert (x' = x) as -> by congruence. unfold Abort.
  replace (exec_of p host) with x by (unfold exec_of; by rewrite Hx). cbv zeta.
  rewrite Hso, Hsc, Hsv. cbn [default].
  assert (Hempty : forall A, keyed (∅ : gmap string A) = []).
  { intros A. apply Permutation_nil_r. rewrite keyed_spec. by rewrite map_to_list_empty. }
  rewrite !Hempty. cbn [fold_left].
  unfold rollbackMergeImports, on_loop. change (pr_store (upd_exec p host (forget_request req))) with (pr_store p).
  rewrite Hc, Hloop, Hs. cbn [andb negb].
  pose proof (rollback_restores h0 c (imports_of x req) ex (numbered (default ∅ (mergeImportedSessions x !! req)))
    (pr_vcm (upd_exec p host (forget_request req))) U) as [Hh Hd].
  unfold imports_of in Hh, Hd. destruct (rollback_job _ _ c _) as [c' vcm']. cbn [fst] in Hh, Hd.
  set (p2 := upd_shared _ _ _).
  assert (Hx2 : pr_execs p2 !! host = Some (forget_request req x)).
  { unfold p2, put_cell, upd_store, upd_shared, upd_exec. cbn [pr_execs]. by rewrite lookup_alter_eq, Hx. }
  unfold teardownPending, exec_of. rewrite Hx2. cbn [default from_option id forget_request pending]. rewrite Hp.
  exists c'. split_and!; [|done|done|].
  - unfold p2, put_cell, upd_store, upd_shared, upd_exec. cbn [pr_store]. apply lookup_insert_eq.
  - exists (forget_request req x). split; [exact Hx2|]. unfold fresh_request, forget_request. simpl.
    rewrite Hp. by rewrite !lookup_delete_eq.
Qed.
End Survivor.

(** C6: However many donors were populated into a survivor, completely or until an error,
    and whatever bytes they sent, the abort of the merge gives the survivor exactly the
    authority it had: the same entity holds each network id, handles included.  Its
    handoffs are no longer frozen and the host remembers nothing of the request. *)
Theorem aborted_merge_restores_survivor env host req k ms p c x :
  pr_store p !! k = Some c -> hc_stopped c = false -> x_loop env k = true ->
  stage_ok (hc_stage c) -> no_ghosts c ->
  pr_execs p !! host = Some x -> fresh_request req x ->
  donors_for req host k p ms -> ms <> [] ->
  let p' := Abort env host req (donors env host ms p) in
  exists c', pr_store p' !! k = Some c' /\
    (forall n, holder (hc_stage c') n = holder (hc_stage c) n) /\
    drainingForMerge (hc_stage c') = false /\
    exists y, pr_execs p' !! host = Some y /\ fresh_request req y.
Proof.
  intros Hc Hs Hl Hok Hg Hx (Hp & Hso & Hsv & Hn & Hli & Hse & Hsc) Hms Hne.
  assert (M : merging host req k (holder (hc_stage c)) (pr_hosts p) p).
  { constructor; [done|]. exists c, x, (existing_live c). split_and!; try done.
    unfold imports_of. rewrite Hli. constructor; try done; [|by left].
    intros n e. by apply existing_live_dom. }
  destruct (donors_merging env host req k (holder (hc_stage c)) Hl p ms M Hms Hne) as [M' (y & Hy & Hsy)].
  by eapply abort_restores.
Qed.
End Rollback.

(** ** A survivor with an entity of its own, and a donor that brings another *)

Definition survivor_id : CellID := mkCellID 0 0 1.
Definition survivor : HostCell :=
  cell_with survivor_id {[4 := mkSlot 1 PresenceLive]} {[1 := mkEnt (mkNet 4 3) None]} ∅ 2 NewPlayerManager.
Definition donor_msg : CellTransferMsg :=
  mkTransfer 9 CellTransferMerge "d1_1_0" (key_of survivor_id) "h" 0
    (packRecords [record_of (frame_at 7 f32_zero f32_zero); record_of (frame_at 4 f32_zero f32_zero)]) [] [].

Lemma survivor_ok : stage_ok (hc_stage survivor).
Proof.
  constructor; simpl.
  - intros n e p [<- [= <- <-]]%lookup_singleton_Some. eexists. by rewrite lookup_singleton_eq.
  - intros n e. by rewrite lookup_empty.
  - intros e row [<- _]%lookup_singleton_Some. lia.
Qed.

Lemma aborted_merge_restores_survivor_witness :
  let p' := Abort demo_exec_env "h" 9 (donors demo_exec_env "h" [donor_msg] (process_of survivor)) in
  exists c', pr_store p' !! 0%nat = Some c' /\
    (forall n, holder (hc_stage c') n = holder (hc_stage survivor) n) /\
    drainingForMerge (hc_stage c') = false /\
    exists y, pr_execs p' !! "h"%string = Some y /\ fresh_request 9 y.
Proof.
  apply (aborted_merge_restores_survivor demo_exec_env "h" 9 0 [donor_msg] (process_of survivor) survivor
           newCellTransferExecutor).
  - reflexivity.
  - reflexivity.
  - reflexivity.
  - exact survivor_ok.
  - intros e. reflexivity.
  - reflexivity.
  - unfold fresh_request. simpl. rewrite !lookup_empty. auto 10.
  - apply Forall_singleton. split; [split; [reflexivity|split; [reflexivity|]]|vm_compute; reflexivity].
    apply bytes_checked. vm_compute. reflexivity.
  - discriminate.
Defined.

(** The donor's entity is there in between. *)
Example donor_arrives :
  (fun c => (holder (hc_stage c) 7, holder (hc_stage c) 4)) <$>
    pr_store (donors demo_exec_env "h" [donor_msg] (process_of survivor)) !! 0%nat
  = Some (Some 2, Some 1).
Proof. vm_compute. reflexivity. Qed.
