(* ===== verification/TransferSplit.v ===== *)
(** * The four payloads of a split partition the cell

    A split ships one payload per quadrant, each serialized by a job of its own on the
    source's loop.  Between two such jobs the cell's viewers are suspended, which runs
    lifecycle functions; as long as no tick ends in between, every job still reads the
    entities the first one saw, so every entity is in exactly one payload, whatever the
    order of the jobs. *)

From S2P Require Import Prelude Float32 CellId NetId SessionRoutes ControlPlane CellTransfer.
From S2P Require Import VirtualConn PlayerManager Transfer Handoff HostCell TransferExec.
From S2P Require Import TransferHost TransferAuthority TransferDemo.

(** ** What serialization reads *)

Record same_fields (s s' : PlayerSession) : Prop := mkSameFields {
  sf_user : PlayerManager.Username s' = PlayerManager.Username s;
  sf_gen : PlayerManager.StreamGeneration s' = PlayerManager.StreamGeneration s;
  sf_flags : PlayerManager.DebugFlags s' = PlayerManager.DebugFlags s;
  sf_uid : PlayerManager.UserID s' = PlayerManager.UserID s
}.

Definition same_readable (pm pm' : PlayerManager) : Prop :=
  byConnID pm' = byConnID pm /\ forall p, option_Forall2 same_fields (PlayerManager.heap pm !! p) (PlayerManager.heap pm' !! p).

#[export] Instance same_fields_preorder : PreOrder same_fields.
Proof. split; [done|]. intros a b c [] []. constructor; congruence. Qed.

#[export] Instance same_readable_preorder : PreOrder same_readable.
Proof.
  split; [done|]. intros a b c [? H1] [? H2]. split; [congruence|]. intros p.
  specialize (H1 p). specialize (H2 p). destruct H1; inversion_clear H2; constructor; by etrans.
Qed.

Lemma same_readable_upd pm p f : (forall s, same_fields s (f s)) -> same_readable pm (upd_sess pm p f).
Proof.
  intros Hf. split; [done|]. intros q. rewrite upd_sess_lookup. case_decide; [subst|done].
  destruct (PlayerManager.heap pm !! p); constructor. apply Hf.
Qed.

Lemma session_fields_readable pm pm' conn : same_readable pm pm' -> session_fields pm' conn = session_fields pm conn.
Proof.
  intros [Hc Hh]. unfold session_fields, ByConnID. rewrite Hc. destruct (byConnID pm !! conn) as [p|]; [|done].
  simpl. destruct (Hh p) as [s s' []|]; [|done]. by rewrite sf_user0, sf_gen0, sf_flags0, sf_uid0.
Qed.

(** The world and the sessions as serialization sees them. *)
Definition unread (x y : World * PlayerManager) : Prop :=
  w_cell y.1 = w_cell x.1 /\ w_comps y.1 = w_comps x.1 /\ same_readable x.2 y.2.

#[export] Instance unread_preorder : PreOrder unread.
Proof. split; [done|]. intros a b c (? & ? & ?) (? & ? & ?). split_and!; [congruence..|by etrans]. Qed.

(** A game whose lifecycle functions leave entities and accounts alone. *)
Class CalmGame `{!Game} := calm_action a w pm p : unread (w, pm) (game_action a w pm p).

Section Split.
Context `{!Iteration} `{!Game} `{!CalmGame} `{!SessionCodec}.

Lemma unread_pm w pm pm' : same_readable pm pm' -> unread (w, pm) (w, pm').
Proof. by intros. Qed.

Lemma leave_unread w pm p : unread (w, pm) (defaultPlayerLeaveCleanup w pm p).
Proof.
  unfold defaultPlayerLeaveCleanup. destruct (PlayerManager.heap pm !! p) as [s|]; [|done].
  destruct (SEntity s) as [e|]; [|done]. destruct (negb _); [done|]. destruct (ghost w e); [done|].
  split_and!; try (by destruct (is_replica w e)). by apply same_readable_upd.
Qed.

Lemma run_opt_unread f w pm p : unread (w, pm) (run_opt f w pm p).
Proof.
  destruct f as [a|]; [|done]. simpl. destruct (a =? leaveCleanup); [apply leave_unread|apply calm_action].
Qed.

Lemma run_exit_unread w pm p : unread (w, pm) (run_exit w pm p).
Proof. unfold run_exit. destruct (PlayerManager.heap pm !! p); [apply run_opt_unread|done]. Qed.

Lemma notify_readable pm p to : same_readable pm (notify pm p to).
Proof. unfold notify. by repeat case_match. Qed.

Lemma transition_unread w pm p to : unread (w, pm) (Transition w pm p to).1.
Proof.
  unfold Transition. destruct (PlayerManager.heap pm !! p) as [s|]; [|done].
  destruct (transitions pm !! _) as [t|]; [|done].
  destruct (match Guard t with Some g => _ | None => _ end); [done|].
  pose proof (run_opt_unread (Action t) w pm p) as F1. destruct (run_opt (Action t) w pm p) as [w1 pm1].
  pose proof (run_exit_unread w1 pm1 p) as F2. destruct (run_exit w1 pm1 p) as [w2 pm2].
  pose proof (run_opt_unread (stateCallbacks (upd_sess pm2 p (with_State to)) !! to ≫= OnEnter) w2
    (upd_sess pm2 p (with_State to)) p) as F3.
  destruct (run_opt _ w2 (upd_sess pm2 p (with_State to)) p) as [w3 pm3]. cbn [fst].
  etrans; [exact F1|]. etrans; [exact F2|]. etrans; [by apply unread_pm, (same_readable_upd pm2 p (with_State to))|].
  etrans; [exact F3|]. apply unread_pm, notify_readable.
Qed.

Lemma transition_from_unread from to x p : unread x (transition_from from to x p).
Proof.
  unfold transition_from. destruct (PlayerManager.heap x.2 !! p) as [s|]; [|done].
  destruct (State s =? from); [|done]. destruct x. apply transition_unread.
Qed.

Lemma fold_unread {A} (f : World * PlayerManager -> A -> World * PlayerManager) l :
  (forall x a, unread x (f x a)) -> forall x, unread x (fold_left f l x).
Proof. intros Hf. induction l as [|a l IH]; intros x; [done|]. simpl. etrans; [apply Hf|apply IH]. Qed.

Lemma suspend_readable l : forall pm, same_readable pm (fold_left (fun pm p => upd_sess pm p suspend) l pm).
Proof.
  induction l as [|p l IH]; intros pm; [done|]. simpl. etrans; [|apply IH]. by apply same_readable_upd.
Qed.

(** Two cells serialization cannot tell apart. *)
Definition alike (c c' : HostCell) : Prop :=
  hc_id c' = hc_id c /\ unread (hc_world c, hc_players c) (hc_world c', hc_players c').

#[local] Instance alike_preorder : PreOrder alike.
Proof. split; [done|]. intros a b c [? ?] [? ?]. split; [congruence|by etrans]. Qed.

Lemma deactivate_alike c : alike c (DeactivateTransferViewers c).
Proof.
  unfold DeactivateTransferViewers. set (moved := filter _ _).
  pose proof (suspend_readable moved (hc_players c)) as F1.
  pose proof (fold_unread (transition_from StateActive StateTransferring) moved
    (transition_from_unread StateActive StateTransferring)
    (hc_world c, fold_left (fun pm p => upd_sess pm p suspend) moved (hc_players c))) as F2.
  destruct (fold_left (transition_from _ _) moved _) as [w pm]. split; [done|].
  etrans; [apply unread_pm, F1|exact F2].
Qed.

Section Alike.
Context (c c' : HostCell) (Hc : alike c c').

Lemma alike_stage : hc_stage c' = hc_stage c.
Proof. destruct Hc as (_ & E & _). unfold hc_stage. cbn [fst] in E. by rewrite E. Qed.

Lemma alike_comp e : comp_of (hc_world c') e = comp_of (hc_world c) e.
Proof. destruct Hc as (_ & _ & E & _). unfold comp_of. cbn [fst] in E. by rewrite E. Qed.

Lemma alike_rows : live_rows c' = live_rows c.
Proof.
  unfold live_rows, rows. rewrite alike_stage. apply list_filter_iff. intros e.
  unfold authoritative, ghost, is_replica. rewrite alike_comp.
  destruct Hc as (_ & E & _). cbn [fst] in E. by rewrite E.
Qed.

Lemma alike_serialize vcm e : SerializeEntity vcm c' e = SerializeEntity vcm c e.
Proof.
  unfold SerializeEntity, SerializeEntityCore. rewrite alike_stage, alike_comp.
  rewrite (session_fields_readable (hc_players c) (hc_players c')) by apply Hc. done.
Qed.

Lemma alike_each vcm es : serialize_each vcm c' es = serialize_each vcm c es.
Proof. induction es as [|e es IH]; [done|]. cbn [serialize_each]. by rewrite alike_serialize, IH. Qed.

Lemma alike_quadrant base e : quadrant_of base c' e = quadrant_of base c e.
Proof.
  unfold quadrant_of, pos_of. rewrite alike_comp. by destruct Hc as (-> & _).
Qed.

Lemma alike_payload base vcm q :
  serializeQuadrantEntities base vcm c' q = serializeQuadrantEntities base vcm c q.
Proof.
  unfold serializeQuadrantEntities. destruct (_ || _); [done|]. rewrite alike_each, alike_rows. do 2 f_equal.
  apply list_filter_iff. intros e. by rewrite alike_quadrant.
Qed.
End Alike.

(** ** The jobs of one split *)

Definition with_quadrant (cmd : cellTransferCommand) (q : Z) : cellTransferCommand :=
  mkCommand (cc_RequestID cmd) (cc_Kind cmd) (cc_SrcCellID cmd) (cc_DestCellID cmd) (cc_SrcHostID cmd)
    (cc_DestHostID cmd) q.

(** The entity payloads of jobs that run within one tick. *)
Fixpoint split_jobs (env : ExecEnv) (cmd : cellTransferCommand) (qs : list Z) (vcm : option VirtualConnManager)
  (c : HostCell) : result ExecError (list (list bytes)) :=
  match qs with
  | [] => Ok []
  | q :: qs =>
      match serialize_on_loop env (with_quadrant cmd q) vcm c with
      | (vcm, c, Ok (ents, _, _)) => let! rest := split_jobs env cmd qs vcm c in Ok (ents :: rest)
      | (_, _, Err e) => Err e
      end
  end.

(** No promote is due. *)
Definition settled (tick : Z) (c : HostCell) : Prop :=
  filter (fun e : Z * list pendingPromote => e.1 <= tick) (pendingPromotes (w_cell (hc_world c))) = ∅.

Lemma drain_settled tick vcm c : settled tick c -> drain_promotes tick vcm c = (vcm, c).
Proof.
  intros Hs. unfold drain_promotes. unfold settled in Hs. rewrite Hs, map_to_list_empty. cbn [concat fmap list_fmap fold_left].
  f_equal. unfold set_promotes.
  rewrite map_filter_id.
  - by destruct c as [? [[]] ? ?].
  - intros i x Hi Hle. apply map_empty_filter_1 in Hs. by apply (Hs i x Hi).
Qed.

Lemma drain_settles tick vcm c vcm' c' : drain_promotes tick vcm c = (vcm', c') -> settled tick c'.
Proof.
  unfold drain_promotes. destruct (fold_left _ _ _) as [v d]. intros [= <- <-].
  unfold settled. simpl. apply map_empty_filter_2. by intros i x [_ ?]%map_lookup_filter_Some.
Qed.

Lemma settled_alike tick c c' : alike c c' -> settled tick c -> settled tick c'.
Proof. unfold settled. intros (_ & E & _) Hs. cbn [fst] in E. by rewrite E. Qed.

Lemma split_job env cmd q vcm c vcm' c' ents sess ctx :
  cc_Kind cmd = CellTransferSplit -> settled (x_tick env) c ->
  serialize_on_loop env (with_quadrant cmd q) vcm c = (vcm', c', Ok (ents, sess, ctx)) ->
  vcm' = vcm /\ alike c c' /\ serializeQuadrantEntities (x_base env) vcm c q = Some (Ok ents).
Proof.
  intros Hk Hs. unfold serialize_on_loop, flushDuePromotesForCommit.
  cbn [cc_Kind with_quadrant]. rewrite !Hk.
  rewrite !decide_False by done. rewrite (drain_settled _ _ _ Hs).
  unfold serialize_payload, serialize_entities. cbn [cc_Kind cc_Quadrant with_quadrant]. rewrite Hk.
  destruct (serializeQuadrantEntities _ _ _ _) as [[es|e]|]; cbn [rbind lift]; [|done..].
  match goal with |- context [rbind ?x _] => destruct x as [ss|]; cbn [rbind]; [|done] end.
  match goal with |- context [rbind ?x _] => destruct x as [cs|]; cbn [rbind]; [|done] end.
  intros [= <- <- <- <- <-].
  split_and!; [done|apply deactivate_alike|done].
Qed.

Lemma split_jobs_spec env cmd vcm c0 qs : cc_Kind cmd = CellTransferSplit -> forall c payloads,
  settled (x_tick env) c -> alike c0 c -> split_jobs env cmd qs vcm c = Ok payloads ->
  Forall2 (fun q ents => serializeQuadrantEntities (x_base env) vcm c0 q = Some (Ok ents)) qs payloads.
Proof.
  intros Hk. induction qs as [|q qs IH]; intros c payloads Hs Ha; cbn [split_jobs]; [intros [= <-]; constructor|].
  destruct (serialize_on_loop env (with_quadrant cmd q) vcm c) as [[vcm' c'] [[[ents sess] ctx]|e]] eqn:E; [|done].
  destruct (split_job _ _ _ _ _ _ _ _ _ _ Hk Hs E) as (-> & Ha' & Hq). unfold rbind.
  destruct (split_jobs env cmd qs vcm c') as [rest|] eqn:E'; [|done]. intros [= <-]. constructor.
  - by rewrite <- (alike_payload c0 c Ha).
  - eapply IH; [by eapply settled_alike|by etrans|exact E'].
Qed.

(** ** Partition *)

Lemma quadrant_range base c e : quadrant_of base c e ∈ [0; 1; 2; 3].
Proof.
  unfold quadrant_of. destruct (pos_of _ _) as [x y]. unfold side. repeat case_match; set_solver.
Qed.

Lemma insert_part {A} (f : A -> Z) e es qs : NoDup qs -> f e ∈ qs ->
  concat (map (fun q => filter (fun x => f x = q) (e :: es)) qs) ≡ₚ
  e :: concat (map (fun q => filter (fun x => f x = q) es) qs).
Proof.
  induction 1 as [|q qs Hq Hnd IH]; [by intros ?%elem_of_nil|]. intros He. cbn [map concat].
  rewrite filter_cons. destruct (decide (f e = q)) as [E|E].
  - simpl. constructor. f_equiv.
    assert (Hsame : forall l, f e ∉ l -> map (fun q => filter (fun x => f x = q) (e :: es)) l =
      map (fun q => filter (fun x => f x = q) es) l); [|by rewrite Hsame by (by rewrite E)].
    intros l Hl. apply map_ext_in. intros q' Hq'%list_elem_of_In. apply filter_cons_False. congruence.
  - apply elem_of_cons in He as [?|He]; [done|]. rewrite (IH He). by rewrite Permutation_middle.
Qed.

Lemma parts_cover {A} (f : A -> Z) qs es : NoDup qs -> (forall e, f e ∈ qs) ->
  concat (map (fun q => filter (fun x => f x = q) es) qs) ≡ₚ es.
Proof.
  intros Hnd Hf. induction es as [|e es IH].
  - clear. induction qs; done.
  - rewrite insert_part by done. by rewrite IH.
Qed.

(** The record of one entity. *)
Definition blob (vcm : option VirtualConnManager) (c : HostCell) (e : Entity) : bytes :=
  match SerializeEntity vcm c e with Ok b => b | Err _ => [] end.

Lemma serialize_each_map vcm c es bs : serialize_each vcm c es = Ok bs ->
  bs = map (blob vcm c) es /\ Forall (fun e => SerializeEntity vcm c e = Ok (blob vcm c e)) es.
Proof.
  revert bs. induction es as [|e es IH]; intros bs; cbn [serialize_each]; [by intros [= <-]|].
  assert (Hb : forall b, SerializeEntity vcm c e = Ok b -> blob vcm c e = b) by (unfold blob; by intros b ->).
  unfold rbind. destruct (SerializeEntity vcm c e) as [b|] eqn:E; [|done].
  destruct (serialize_each vcm c es) as [rest|]; [|done]. intros [= <-].
  destruct (IH rest eq_refl) as [-> Hall]. cbn [map]. rewrite (Hb b eq_refl). split; [done|].
  constructor; [by rewrite E, (Hb b eq_refl)|done].
Qed.

Lemma serialize_each_all vcm c es : Forall (fun e => SerializeEntity vcm c e = Ok (blob vcm c e)) es ->
  serialize_each vcm c es = Ok (map (blob vcm c) es).
Proof.
  induction 1 as [|e es He _ IH]; [done|]. cbn [serialize_each map]. by rewrite He, IH.
Qed.

Lemma quadrant_payload base vcm c q ents : serializeQuadrantEntities base vcm c q = Some (Ok ents) ->
  let es := filter (fun e => quadrant_of base c e = q) (live_rows c) in
  ents = map (blob vcm c) es /\ Forall (fun e => SerializeEntity vcm c e = Ok (blob vcm c e)) es.
Proof.
  unfold serializeQuadrantEntities. destruct (_ || _); [done|]. intros [= Hok]. by apply serialize_each_map.
Qed.


(** C19: The jobs of a split, run within one tick in any order over the four quadrants,
    ship every entity of the cell exactly once: each payload is its quadrant's, and
    together they are the records of the whole cell. *)
Theorem split_partitions_entities env cmd qs vcm c payloads :
  cc_Kind cmd = CellTransferSplit -> qs ≡ₚ [0; 1; 2; 3] ->
  split_jobs env cmd qs vcm c = Ok payloads ->
  let '(vcm0, c0) := flushDuePromotesForCommit env CellTransferSplit vcm c in
  Forall2 (fun q ents => serializeQuadrantEntities (x_base env) vcm0 c0 q = Some (Ok ents)) qs payloads /\
  exists all, serializeAllEntities vcm0 c0 = Ok all /\ concat payloads ≡ₚ all.
Proof.
  intros Hk Hqs Hj. destruct (flushDuePromotesForCommit env CellTransferSplit vcm c) as [vcm0 c0] eqn:E.
  assert (Hs : settled (x_tick env) c0) by (eapply drain_settles; exact E).
  assert (Hj0 : split_jobs env cmd qs vcm0 c0 = Ok payloads).
  { destruct qs as [|q qs]; [by apply Permutation_nil_cons in Hqs|]. rewrite <- Hj. cbn [split_jobs].
    unfold serialize_on_loop, flushDuePromotesForCommit in *. cbn [cc_Kind with_quadrant] in *. rewrite !Hk in *.
    rewrite !decide_False in * by done. by rewrite E, (drain_settled _ _ _ Hs). }
  assert (HF : Forall2 (fun q ents => serializeQuadrantEntities (x_base env) vcm0 c0 q = Some (Ok ents)) qs payloads)
    by (by eapply split_jobs_spec).
  split; [exact HF|].
  set (part := fun q => filter (fun e => quadrant_of (x_base env) c0 e = q) (live_rows c0)).
  assert (Hcover : concat (map part qs) ≡ₚ live_rows c0).
  { apply parts_cover; [|intros e; rewrite Hqs; apply quadrant_range].
    rewrite Hqs. repeat constructor; set_solver. }
  assert (Hp : concat payloads = map (blob vcm0 c0) (concat (map part qs)) /\
    Forall (fun e => SerializeEntity vcm0 c0 e = Ok (blob vcm0 c0 e)) (concat (map part qs))).
  { clear Hj Hj0 Hqs Hcover. induction HF as [|q ents qs ps Hq _ IH]; [by split|].
    destruct (quadrant_payload _ _ _ _ _ Hq) as [-> Hall]. destruct IH as [IH1 IH2].
    cbn [map concat]. rewrite IH1, map_app. split; [done|]. by apply Forall_app. }
  destruct Hp as [-> Hall]. exists (map (blob vcm0 c0) (live_rows c0)). split.
  - apply serialize_each_all. by rewrite <- Hcover.
  - by apply Permutation_map.
Qed.
End Split.

(** ** A cell with three entities, one of them a player's *)

#[export] Instance quiet_calm : CalmGame.
Proof. intros a w pm p. done. Qed.

Definition source_id : CellID := mkCellID 0 0 0.

(** The player's frame as the cell holds it. *)
Definition player_frame : TransferFrame :=
  with_conn (frame_at 13 (f32_of_int 300) (f32_of_int 300)) 7.

Definition source_players : PlayerManager :=
  wire_session (RegisterSessionTransfer (with_leave_actions NewPlayerManager) 7 "bob" "active") 7 (with_Entity (Some 3)).

Definition source : HostCell :=
  cell_with source_id
    (list_to_map [(11, mkSlot 1 PresenceLive); (12, mkSlot 2 PresenceLive); (13, mkSlot 3 PresenceLive)])
    (list_to_map [(1, mkEnt (mkNet 11 3) None); (2, mkEnt (mkNet 12 3) None); (3, mkEnt (mkNet 13 3) None)])
    (list_to_map [(1, mkComp (frame_at 11 (f32_of_int 10) (f32_of_int 10)) false false);
                  (2, mkComp (frame_at 12 (f32_of_int 300) (f32_of_int 10)) false false);
                  (3, mkComp player_frame false false)])
    4 source_players.

Definition split_cmd : cellTransferCommand := mkCommand 9 CellTransferSplit (key_of source_id) "" "h" "h" 0.

(** The network ids a payload carries. *)
Definition ids_of (blobs : list bytes) : list Z :=
  omap (fun b => match UnmarshalTransferFrame b with Done f _ => Some (NetworkID f) | _ => None end) blobs.

Definition source_payloads : list (list bytes) :=
  match split_jobs demo_exec_env split_cmd [3; 0; 2; 1] None source with Ok l => l | Err _ => [] end.

Lemma quadrants_permuted : [3; 0; 2; 1] ≡ₚ [0; 1; 2; 3].
Proof.
  etrans; [|apply (Permutation_app_comm [3] [0; 1; 2])]. simpl. do 2 constructor. apply perm_swap.
Qed.

Lemma split_partitions_entities_witness :
  split_jobs demo_exec_env split_cmd [3; 0; 2; 1] None source = Ok source_payloads /\
  map ids_of source_payloads = [[13]; [11]; []; [12]] /\
  let '(vcm0, c0) := flushDuePromotesForCommit demo_exec_env CellTransferSplit None source in
  Forall2 (fun q ents => serializeQuadrantEntities (x_base demo_exec_env) vcm0 c0 q = Some (Ok ents))
    [3; 0; 2; 1] source_payloads /\
  exists all, serializeAllEntities vcm0 c0 = Ok all /\ concat source_payloads ≡ₚ all.
Proof.
  assert (E : split_jobs demo_exec_env split_cmd [3; 0; 2; 1] None source = Ok source_payloads)
    by (vm_compute; reflexivity).
  split; [exact E|]. split; [vm_compute; reflexivity|].
  apply (split_partitions_entities demo_exec_env split_cmd [3; 0; 2; 1] None source source_payloads
           eq_refl quadrants_permuted E).
Defined.

Definition quadrant_ids (c : HostCell) (q : Z) : option (list Z) :=
  match serializeQuadrantEntities (f32_of_int 500) None c q with
  | Some (Ok l) => Some (ids_of l)
  | _ => None
  end.

(** Suspending the viewers runs the default leave action, which marks an active player's
    entity for removal.  When the tick ends between two jobs of a split, the player is in
    no payload. *)
Theorem split_across_ticks_loses_player :
  let c1 := (serialize_on_loop demo_exec_env (with_quadrant split_cmd 0) None source).1.2 in
  quadrant_ids c1 3 = Some [13] /\ quadrant_ids (flush_tick c1) 3 = Some [].
Proof. split; vm_compute; reflexivity. Qed.

(** The same removal outlives a rollback: the session resumes without its entity. *)
Theorem abort_destroys_player :
  let c1 := (serialize_on_loop demo_exec_env
               (mkCommand 9 CellTransferMigrate (key_of source_id) "0_1" "h" "b" 0) None source).1.2 in
  let c2 := ReactivateTransferViewers (flush_tick c1) in
  holder (hc_stage source) 13 = Some 3 /\ holder (hc_stage c2) 13 = None /\
  ((fun s => (State s, SEntity s)) <$> (PlayerManager.heap (hc_players c2) !! 0%nat)) = Some (StateActive, None).
Proof. cbv zeta. split; [vm_compute; reflexivity|]. split; vm_compute; reflexivity. Qed.

(** An active player without an entity, say between two lives. *)
Definition waiting : HostCell :=
  cell_with source_id ∅ ∅ ∅ 1 (RegisterSessionTransfer (with_leave_actions NewPlayerManager) 8 "eve" "active").

(** The sessions a job ships, and the cell after it. *)
Definition sessions_shipped (q : Z) (c : HostCell) : option nat * HostCell :=
  match serialize_on_loop demo_exec_env (with_quadrant split_cmd q) None c with
  | (_, c, Ok (_, sess, _)) => (Some (length sess), c)
  | (_, c, Err _) => (None, c)
  end.

(** Entity-less sessions travel with quadrant 0, but the job of any other quadrant that
    runs first moves an active one out of the states that travel: it is in no payload.
    The jobs are dispatched concurrently, so their order is not fixed. *)
Theorem split_order_drops_active_session :
  (sessions_shipped 0 waiting).1 = Some 1%nat /\
  (sessions_shipped 1 waiting).1 = Some 0%nat /\
  (sessions_shipped 0 (sessions_shipped 1 waiting).2).1 = Some 0%nat.
Proof. split; [vm_compute; reflexivity|]. split; vm_compute; reflexivity. Qed.
