(* ===== verification/TransferConserve.v ===== *)
(** * A transferred cell arrives whole

    From the source's rows through the frame codec, the record packing, their inverses
    and the spawns of the destination: every entity the source was authoritative for is
    held at the destination, once, with its components, one epoch on; nothing else is. *)

From S2P Require Import Prelude Float32 CellId NetId SessionRoutes ControlPlane CellTransfer.
From S2P Require Import VirtualConn PlayerManager Transfer Handoff HostCell TransferExec.
From S2P Require Import TransferHost TransferAuthority TransferDemo TransferRollback TransferSplit.

(** ** The components of an entity on the way

    Each component fares by itself: what arrives of it depends on the bytes the frame has
    under its id, on its decoder and on the kind, and on no other component. *)
Section Components.
Context `{!Game}.

(** The decoder of a component the registry takes from a frame; any other refuses. *)
Definition accept (id : Z) : Reader :=
  match replicator id with
  | Some rep =>
      if SkipOnTransfer rep then fun _ _ => None
      else match cr_Add rep with
           | Some add => add
           | None => match cr_Apply rep with Some apply => apply | None => fun _ _ => None end
           end
  | None => fun _ _ => None
  end.

(** The component read from the frame's bytes, a refused body leaving it as it was. *)
Definition read_all (id : Z) (l : list ComponentSlice) (v : option bytes) : option bytes :=
  fold_left (fun v cs => default v (accept id v (Data cs))) (filter (fun cs => ID cs = id) l) v.

Fixpoint zero_fill (id : Z) (kinds : list (Z * bytes)) : option bytes :=
  match kinds with
  | [] => None
  | k :: kinds => if k.1 =? id then Some k.2 else zero_fill id kinds
  end.

(** What the entity spawned from a frame has under [id]. *)
Definition component_after (f : TransferFrame) (id : Z) : option bytes :=
  match read_all id (Components f) None with
  | Some v => Some v
  | None => zero_fill id (kind_components (EntityType f))
  end.

Lemma apply_component_lookup m cs id :
  apply_component m cs !! id = if decide (ID cs = id) then default (m !! id) (accept id (m !! id) (Data cs)) else m !! id.
Proof.
  unfold apply_component, accept. destruct (decide (ID cs = id)) as [<-|Hne].
  - destruct (replicator (ID cs)) as [rep|]; [|done]. destruct (SkipOnTransfer rep); [done|].
    destruct (cr_Add rep) as [add|]; [|destruct (cr_Apply rep) as [add|]; [|done]];
      (destruct (add _ _) as [v|]; [by rewrite lookup_partial_alter_eq|done]).
  - destruct (replicator _) as [rep|]; [|done]. destruct (SkipOnTransfer rep); [done|].
    destruct (cr_Add rep) as [add|]; [|destruct (cr_Apply rep) as [add|]; [|done]];
      (destruct (add _ _) as [v|]; [by rewrite lookup_partial_alter_ne|done]).
Qed.

Lemma apply_components_lookup l m id :
  fold_left apply_component l m !! id = read_all id l (m !! id).
Proof.
  unfold read_all. revert m. induction l as [|cs l IH]; intros m; [done|]. cbn [fold_left].
  rewrite IH, apply_component_lookup, filter_cons. by destruct (decide (ID cs = id)).
Qed.

Lemma ensure_lookup ks m id :
  fold_left ensure_component ks m !! id = match m !! id with Some v => Some v | None => zero_fill id ks end.
Proof.
  revert m. induction ks as [|k ks IH]; intros m; cbn [fold_left zero_fill]; [by destruct (m !! id)|].
  rewrite IH. unfold ensure_component. destruct (Z.eqb_spec k.1 id) as [<-|Hne].
  - destruct (m !! k.1) as [v|] eqn:E; [by rewrite E|]. by rewrite lookup_insert_eq.
  - destruct (m !! k.1) as [v|] eqn:E; [done|]. by rewrite lookup_insert_ne.
Qed.

Lemma components_of_lookup f id : components_of f !! id = component_after f id.
Proof.
  unfold components_of, EnsureEntityKindComponents, component_after.
  by rewrite ensure_lookup, apply_components_lookup, lookup_empty.
Qed.

(** The frame was scanned from an entity every carried component of which its decoder reads
    back, and which has those of its kind. *)
Definition whole (f : TransferFrame) : Prop :=
  NoDup (map cr_ID replRegistry) /\
  exists m, Components f = scan_components m /\
    forall rep, rep ∈ replRegistry -> SkipOnTransfer rep = false ->
      (forall v, m !! cr_ID rep = Some v -> accept (cr_ID rep) None v = Some (Some v)) /\
      (is_Some (zero_fill (cr_ID rep) (kind_components (EntityType f))) -> is_Some (m !! cr_ID rep)).

(** A component the registry takes and the entity has is in the scan, once. *)
Lemma scan_filter (m : gmap Z bytes) rs id : NoDup (map cr_ID rs) ->
  filter (fun cs => ID cs = id)
    (omap (fun rep => if SkipOnTransfer rep then None else mkComponent (cr_ID rep) <$> m !! cr_ID rep) rs)
  = match list_find (fun r => cr_ID r = id) rs with
    | Some (_, rep) => if SkipOnTransfer rep then [] else match m !! id with Some v => [mkComponent id v] | None => [] end
    | None => []
    end.
Proof.
  assert (forall rs, (forall r, r ∈ rs -> cr_ID r <> id) ->
    filter (fun cs => ID cs = id)
      (omap (fun rep => if SkipOnTransfer rep then None else mkComponent (cr_ID rep) <$> m !! cr_ID rep) rs) = []) as Hnone.
  { clear. intros rs Hrs. induction rs as [|r rs IH]; [done|]. cbn [omap list_omap].
    destruct (SkipOnTransfer r); [apply IH; intros; apply Hrs; by right|].
    destruct (m !! cr_ID r); cbn [fmap option_fmap option_map]; [rewrite filter_cons_False by (simpl; apply Hrs; by left)|];
      apply IH; intros; apply Hrs; by right. }
  induction rs as [|r rs IH]; intros Hnd; [done|]. cbn [map] in Hnd. apply NoDup_cons in Hnd as [Hni Hnd].
  cbn [omap list_omap list_find]. destruct (decide (cr_ID r = id)) as [<-|Hne].
  - destruct (SkipOnTransfer r).
    + apply Hnone. intros r' Hr' E. apply Hni. rewrite <- E. by apply list_elem_of_fmap_2.
    + destruct (m !! cr_ID r); cbn [fmap option_fmap option_map]; [rewrite filter_cons_True by done; f_equal|];
        apply Hnone; intros r' Hr' E; apply Hni; rewrite <- E; by apply list_elem_of_fmap_2.
  - specialize (IH Hnd).
    transitivity (filter (fun cs => ID cs = id)
      (omap (fun rep => if SkipOnTransfer rep then None else mkComponent (cr_ID rep) <$> m !! cr_ID rep) rs)).
    { destruct (SkipOnTransfer r); [done|]. destruct (m !! cr_ID r); [|done].
      cbn [fmap option_fmap option_map]. by rewrite filter_cons_False. }
    rewrite IH. by destruct (list_find _ rs) as [[i rep]|].
Qed.

Lemma whole_scanned f values : whole f -> (forall id, values !! id = component_after f id) ->
  scan_components values = Components f.
Proof.
  intros (Hnd & m & Hm & Hrep) Hv. rewrite Hm.
  assert (forall rep, rep ∈ replRegistry -> SkipOnTransfer rep = false -> values !! cr_ID rep = m !! cr_ID rep) as Heq.
  { intros rep Hin Hskip. rewrite Hv. unfold component_after, read_all. rewrite Hm. unfold scan_components.
    rewrite scan_filter by done.
    assert (snd <$> list_find (fun r => cr_ID r = cr_ID rep) replRegistry = Some rep) as Hf.
    { clear -Hnd Hin. induction replRegistry as [|r rs IH]; [by apply elem_of_nil in Hin|].
      cbn [map] in Hnd. apply NoDup_cons in Hnd as [Hni Hnd]. cbn [list_find].
      apply elem_of_cons in Hin as [->|Hin]; [by rewrite decide_True|]. rewrite decide_False.
      - specialize (IH Hnd Hin). by destruct (list_find _ rs) as [[? ?]|].
      - intros E. apply Hni. rewrite E. by apply list_elem_of_fmap_2. }
    destruct (list_find _ replRegistry) as [[i r]|] eqn:El; [|done]. injection Hf as ->. rewrite Hskip.
    destruct (m !! cr_ID rep) as [v|] eqn:E; cbn [fold_left].
    - cbn [Data]. by rewrite (proj1 (Hrep rep Hin Hskip) _ E).
    - destruct (zero_fill _ _) as [v|] eqn:Ez; [|done].
      destruct (proj2 (Hrep rep Hin Hskip)) as [? ?]; [by rewrite Ez|congruence]. }
  clear -Heq. unfold scan_components. revert Heq. generalize replRegistry. intros rs. induction rs as [|r rs IH]; intros Heq; [done|].
  cbn [omap list_omap]. destruct (SkipOnTransfer r) eqn:E.
  - apply IH. intros rep Hr. apply Heq. by right.
  - rewrite Heq by (by left || done). rewrite IH; [done|]. intros rep Hr. apply Heq. by right.
Qed.
End Components.

Section Conserve.
Context `{!Iteration} `{!Game} `{!SessionCodec}.

(** ** The source *)

(** Every authoritative row holds its own, non-zero id, and the index is consistent. *)
Record well_indexed (c : HostCell) : Prop := mkWellIndexed {
  wi_ok : stage_ok (hc_stage c);
  wi_ghosts : no_ghosts c;
  wi_rows e row : auth_row (hc_stage c) e row ->
    net_ID (e_net row) <> 0 /\ holder (hc_stage c) (net_ID (e_net row)) = Some e
}.

(** The component values are in the ranges of their Go types. *)
Definition in_range (vcm : option VirtualConnManager) (c : HostCell) : Prop :=
  forall e row, auth_row (hc_stage c) e row -> frame_ok (SerializeEntityCore vcm c e).

Section Source.
Context (vcm : option VirtualConnManager) (c : HostCell) (Hwi : well_indexed c) (Hr : in_range vcm c).

Lemma live_row e : e ∈ live_rows c <-> exists row, auth_row (hc_stage c) e row.
Proof. apply live_rows_auth, Hwi. Qed.

Lemma core_id e row : auth_row (hc_stage c) e row ->
  NetworkID (SerializeEntityCore vcm c e) = net_ID (e_net row) /\
  Epoch (SerializeEntityCore vcm c e) = net_Epoch (e_net row).
Proof.
  intros [Hrow _]. unfold SerializeEntityCore. rewrite Hrow.
  repeat case_match; by simplify_eq.
Qed.

Lemma blob_ok e : e ∈ live_rows c ->
  SerializeEntity vcm c e = Ok (blob vcm c e) /\
  UnmarshalTransferFrame (blob vcm c e) = Done (SerializeEntityCore vcm c e) [] /\
  frame_ok (SerializeEntityCore vcm c e).
Proof.
  intros [row Ha]%live_row. pose proof (Hr e row Ha) as Hf.
  destruct (transfer_roundtrip _ Hf) as (buf & Hm & _ & Hu). specialize (Hu []). rewrite app_nil_r in Hu.
  unfold blob, SerializeEntity. rewrite Hm. done.
Qed.

Lemma serialize_all : serializeAllEntities vcm c = Ok (map (blob vcm c) (live_rows c)).
Proof.
  apply serialize_each_all. apply Forall_forall. intros e He. by apply blob_ok.
Qed.

Lemma live_rows_NoDup : NoDup (live_rows c).
Proof. apply NoDup_filter, visit_NoDup. Qed.

(** The ids of distinct entities differ. *)
Lemma core_id_inj e e' : e ∈ live_rows c -> e' ∈ live_rows c ->
  NetworkID (SerializeEntityCore vcm c e) = NetworkID (SerializeEntityCore vcm c e') -> e = e'.
Proof.
  intros [r Ha]%live_row [r' Ha']%live_row. destruct (core_id _ _ Ha) as [-> _]. destruct (core_id _ _ Ha') as [-> _].
  intros E. destruct (wi_rows _ Hwi _ _ Ha) as [_ H1']. destruct (wi_rows _ Hwi _ _ Ha') as [_ H2'].
  rewrite E in H1'. congruence.
Qed.
End Source.

(** ** The destination *)

(** A cell nobody is in yet. *)
Definition vacant (c : HostCell) : Prop :=
  stage_ok (hc_stage c) /\ no_ghosts c /\ forall e row, ~ auth_row (hc_stage c) e row.

Section Arrivals.
Context (vcm : option VirtualConnManager) (c : HostCell) (Hwi : well_indexed c) (Hr : in_range vcm c).
Let core (e : Entity) : TransferFrame := SerializeEntityCore vcm c e.

(** Entity [e] of the source was spawned under handle [e']. *)
Definition arrives (d : HostCell) (e e' : Entity) : Prop :=
  holder (hc_stage d) (NetworkID (core e)) = Some e' /\
  (exists conn, comp_of (hc_world d) e' = mkComp (received (landed (core e) conn)) false false) /\
  (net_Epoch ∘ e_net) <$> world (hc_stage d) !! e' = Some (u32 (Epoch (core e) + 1)).

(** The destination after the entities of [es]. *)
Record adopted (es : list Entity) (d : HostCell) (existing : gmap Z Entity) : Prop := mkAdopted {
  ad_wi : well_indexed d;
  ad_in e : e ∈ es -> exists e', arrives d e e';
  ad_out e row : auth_row (hc_stage d) e row -> exists x, x ∈ es /\ NetworkID (core x) = net_ID (e_net row);
  ad_ex n : is_Some (existing !! n) -> exists x, x ∈ es /\ NetworkID (core x) = n
}.

Lemma adopted_world es d d' existing : hc_world d' = hc_world d -> adopted es d existing -> adopted es d' existing.
Proof.
  intros E [[] Hin Hout Hex]. constructor; try done; unfold arrives, no_ghosts, hc_stage in *.
  - constructor; unfold no_ghosts, hc_stage in *; rewrite ?E; done.
  - intros e He. rewrite E. by apply Hin.
  - rewrite E. apply Hout.
Qed.

Lemma comp_insert_ne w w' e k e' : w_comps w' = <[e := k]> (w_comps w) -> e' <> e ->
  comp_of w' e' = comp_of w e'.
Proof. intros E Hne. unfold comp_of. rewrite E. by rewrite lookup_insert_ne. Qed.

Lemma adopted_import merge req es p p' e conn existing :
  let n := NetworkID (core e) in
  let k := nextEntity (RemoveReplicaByNetID (hc_stage (p_cell p)) n) in
  adopted es (p_cell p) existing -> holder (hc_stage (p_cell p)) n = None -> n <> 0 ->
  imported merge req p p' n k (landed (core e) conn) ->
  adopted (es ++ [e]) (p_cell p') (<[n := k]> existing).
Proof.
  intros n k [[Hok Hg Hrows] Hin Hout Hex] Hh Hn0 [Hst Hco _ _].
  destruct (remove_by_id_authority (hc_stage (p_cell p)) n Hok) as (Hsa & Hok1 & Hi).
  rewrite Hh in Hi. destruct Hi as [Hi|[? ?]]; [|done].
  set (st1 := RemoveReplicaByNetID (hc_stage (p_cell p)) n) in *.
  assert (Hhol : forall m, holder (hc_stage (p_cell p')) m = if bool_decide (m = n) then Some k else holder (hc_stage (p_cell p)) m).
  { intros m. rewrite Hst, spawned_holder by done. change (NetworkID (landed (core e) conn)) with n.
    rewrite (sa_holder _ _ Hsa). fold k. repeat case_bool_decide; naive_solver. }
  assert (Hw : world (hc_stage (p_cell p')) = <[k := mkEnt (mkNet n (u32 (Epoch (core e) + 1))) None]> (world st1)).
  { rewrite Hst. by destruct (spawned_fields st1 (landed (core e) conn)) as (_ & -> & _). }
  assert (Hold : forall e' row, auth_row (hc_stage (p_cell p')) e' row ->
    e' = k /\ row = mkEnt (mkNet n (u32 (Epoch (core e) + 1))) None \/ e' <> k /\ auth_row (hc_stage (p_cell p)) e' row).
  { intros e' row [Hr' Hnr]. rewrite Hw in Hr'. apply lookup_insert_Some in Hr' as [[<- <-]|[Hne Hr']]; [by left|right].
    split; [done|]. by apply (sa_rows _ _ Hsa). }
  assert (Hfresh : forall m e', holder (hc_stage (p_cell p)) m = Some e' -> e' <> k /\ exists row, auth_row st1 e' row).
  { intros m e' (row & Ha & _)%holder_row; [|done]. apply (sa_rows _ _ Hsa) in Ha. split; [|by exists row].
    destruct Ha as [Ha _]. apply (so_next _ Hok1) in Ha. unfold k. lia. }
  constructor.
  - constructor.
    + rewrite Hst. by apply spawned_ok.
    + intros e'. unfold ghost, comp_of. rewrite Hco. destruct (decide (e' = k)) as [->|].
      * by rewrite lookup_insert_eq.
      * rewrite lookup_insert_ne by done. apply Hg.
    + intros e' row [[-> ->]|[Hne Ha]]%Hold; cbn [net_ID e_net].
      * split; [done|]. by rewrite Hhol, bool_decide_eq_true_2.
      * destruct (Hrows _ _ Ha) as [Hz He']. split; [done|]. rewrite Hhol.
        rewrite bool_decide_eq_false_2; [done|]. intros E. rewrite E in He'. congruence.
  - intros x [Hx| ->%list_elem_of_singleton]%elem_of_app.
    + destruct (Hin x Hx) as (e' & Hhx & [cn Hcx] & Hex'). destruct (Hfresh _ _ Hhx) as [Hne [row [Hrow _]]].
      exists e'. split_and!.
      * rewrite Hhol, bool_decide_eq_false_2; [done|]. intros E. rewrite E in Hhx. congruence.
      * exists cn. rewrite <- Hcx. by eapply comp_insert_ne.
      * rewrite Hw, lookup_insert_ne by done.
        destruct (holder_row _ _ _ Hok Hhx) as (row0 & Ha0 & _). pose proof Ha0 as [Hr0 _].
        apply (sa_rows _ _ Hsa) in Ha0 as [-> _]. by rewrite Hr0 in Hex'.
    + exists k. split_and!.
      * by rewrite Hhol, bool_decide_eq_true_2.
      * exists conn. unfold comp_of. by rewrite Hco, lookup_insert_eq.
      * by rewrite Hw, lookup_insert_eq.
  - intros e' row [[-> ->]|[_ Ha]]%Hold.
    + exists e. split; [apply elem_of_app; right; by apply list_elem_of_singleton|done].
    + destruct (Hout _ _ Ha) as (x & Hx & E). exists x. split; [apply elem_of_app; by left|done].
  - intros m. destruct (decide (m = n)) as [->|].
    + intros _. exists e. split; [apply elem_of_app; right; by apply list_elem_of_singleton|done].
    + rewrite lookup_insert_ne by done. intros (x & Hx & E)%Hex. exists x. split; [apply elem_of_app; by left|done].
Qed.

Lemma adopted_absent es d existing e : adopted es d existing -> e ∈ live_rows c -> Forall (fun x => x ∈ live_rows c) es ->
  e ∉ es -> existing !! NetworkID (core e) = None /\ holder (hc_stage d) (NetworkID (core e)) = None.
Proof.
  intros [Hw _ Hout Hex] He Hes Hne.
  assert (Hno : forall x, x ∈ es -> NetworkID (core x) <> NetworkID (core e)).
  { intros x Hx E. apply Hne. rewrite Forall_forall in Hes.
    by rewrite <- (core_id_inj vcm c Hwi x e (Hes x Hx) He E). }
  split.
  - destruct (existing !! _) eqn:E; [|done]. destruct (Hex (NetworkID (core e))) as (x & Hx & Ex); [by rewrite E|].
    by destruct (Hno x Hx).
  - destruct (holder (hc_stage d) _) as [e'|] eqn:E; [|done].
    apply holder_row in E as (row & Ha & Hid); [|apply Hw]. destruct (Hout _ _ Ha) as (x & Hx & Ex).
    destruct (Hno x Hx). congruence.
Qed.

Lemma adopt_all env merge req es : forall es0 p existing,
  adopted es0 (p_cell p) existing -> NoDup (es0 ++ es) -> Forall (fun x => x ∈ live_rows c) (es0 ++ es) ->
  exists p' existing' users,
    populate_entities env merge req p existing (map (blob vcm c) es) = (p', Ok (existing', users)) /\
    adopted (es0 ++ es) (p_cell p') existing'.
Proof.
  induction es as [|e es IH]; intros es0 p existing Ha Hnd Hall; cbn [map populate_entities].
  { exists p, existing, []. by rewrite app_nil_r. }
  assert (He : e ∈ live_rows c) by (rewrite Forall_forall in Hall; apply Hall, elem_of_app; right; by left).
  assert (Hne : e ∉ es0) by (apply NoDup_app in Hnd as (_ & Hd & _); intros ?; eapply Hd; [done|by left]).
  destruct (adopted_absent es0 _ _ e Ha He) as [Hex Hh]; [by apply Forall_app in Hall as [? _]|done|].
  destruct (blob_ok vcm c Hwi Hr e He) as (_ & Hu & Hf).
  unfold populate_entity. rewrite Hu. fold (core e). rewrite Hex.
  match goal with |- context [import_entity _ _ _ _ _ ?x _] => generalize x end. intros prior.
  destruct (import_effect env merge req p (core e) prior existing (wi_ok _ (ad_wi _ _ _ Ha)) Hf Hh)
    as (p1 & users & conn & -> & Him).
  assert (Hn0 : NetworkID (core e) <> 0).
  { destruct (proj1 (live_row c Hwi e) He) as [row Hrow]. unfold core.
    destruct (core_id vcm c e row Hrow) as [-> _]. by apply (wi_rows _ Hwi _ _ Hrow). }
  pose proof (adopted_import merge req es0 p p1 e conn existing Ha Hh Hn0 Him) as Ha1.
  destruct (IH (es0 ++ [e]) p1 _ Ha1) as (p2 & ex2 & us2 & -> & Ha2); [by rewrite <- app_assoc..|].
  exists p2, ex2, (users ++ us2). split; [done|]. by rewrite <- app_assoc in Ha2.
Qed.

Lemma adopted_vacant d : vacant d -> adopted [] d ∅.
Proof.
  intros (Hok & Hg & Hno). constructor; [constructor; [done..|]| | |].
  - intros e row Ha. by destruct (Hno e row).
  - intros e He. by apply elem_of_nil in He.
  - intros e row Ha. by destruct (Hno e row).
  - intros n [? Hn]. by rewrite lookup_empty in Hn.
Qed.

Lemma vacant_existing d : vacant d -> existing_live d = ∅.
Proof.
  intros (_ & Hg & Hno). unfold existing_live.
  assert (live_rows d = []) as ->; [|done].
  destruct (live_rows d) as [|e es] eqn:E; [done|].
  destruct (proj1 (live_rows_auth d e Hg)) as [row Ha]; [rewrite E; by left|]. by destruct (Hno e row).
Qed.

Lemma adopted_seeded es d d' existing : seeded d d' -> adopted es d existing -> adopted es d' existing.
Proof.
  intros [Sok Sa Sc Sg] [[Wok Wg Wr] Hin Hout Hex]. specialize (Sa Wok). constructor; [constructor| | |done].
  - auto.
  - auto.
  - intros e row Ha. rewrite (sa_holder _ _ Sa). apply Wr. by apply (sa_rows _ _ Sa).
  - intros e He. destruct (Hin e He) as (e' & Hh & [cn Hc] & Hep). exists e'.
    destruct (holder_row _ _ _ Wok Hh) as (row & Ha & _). split_and!.
    + by rewrite (sa_holder _ _ Sa).
    + exists cn. by rewrite (Sc e' row Wok Ha).
    + pose proof Ha as [Hr0 _]. apply (sa_rows _ _ Sa) in Ha as [-> _]. by rewrite Hr0 in Hep.
  - intros e row Ha. apply Hout with e. by apply (sa_rows _ _ Sa).
Qed.

Lemma populate_adopts env host m p : vacant (p_cell p) ->
  records_fit (map (blob vcm c) (live_rows c)) ->
  ct_Entities m = packRecords (map (blob vcm c) (live_rows c)) ->
  exists existing, adopted (live_rows c) (p_cell (populateCell env host m p).1) existing.
Proof.
  intros Hv Hfit Hm. unfold populateCell. rewrite Hm, records_roundtrip, (vacant_existing _ Hv) by done.
  destruct (adopt_all env (bool_decide (ct_Kind m = CellTransferMerge)) (ct_RequestID m) (live_rows c) [] p ∅)
    as (p1 & ex & users & -> & Ha).
  - by apply adopted_vacant.
  - apply live_rows_NoDup.
  - by apply Forall_forall.
  - exists ex. destruct (unpackRecords (ct_Sessions m)) as [sbs|]; [|done].
    pose proof (populate_sessions_effect env (bool_decide (ct_Kind m = CellTransferMerge)) (ct_RequestID m)
      (if String.eqb (ct_DestHostID m) "" then host else ct_DestHostID m) sbs p1) as (Hw & _).
    destruct (populate_sessions _ _ _ _ _ _) as [p2 [more|]]; cbv zeta in Hw; cbn [fst] in Hw |- *.
    + eapply adopted_seeded; [apply populate_contexts_effect|]. by eapply adopted_world.
    + by eapply adopted_world.
Qed.

(** Entity [e] of the source is entity [e'] of the destination: under the same id, one
    epoch on, with the values the frame carried.  Of the components of the registry it has
    what the decoders made of the frame's bytes, and the kind's zero where they made
    nothing; when they read all of them back, it has the very components it had.  Then the
    game's hook has run. *)
Definition arrived (d : HostCell) (e e' : Entity) : Prop :=
  holder (hc_stage d) (NetworkID (core e)) = Some e' /\
  (net_Epoch ∘ e_net) <$> world (hc_stage d) !! e' = Some (u32 (Epoch (core e) + 1)) /\
  exists conn values, let f := landed (core e) conn in
    comp_of (hc_world d) e' = mkComp (onTransferReceived (with_components f (scan_components values)) f) false false /\
    (forall id, values !! id = component_after (core e) id) /\
    (whole (core e) -> with_components f (scan_components values) = f).

Lemma arrives_arrived d e e' : arrives d e e' -> arrived d e e'.
Proof.
  intros (Hh & [conn Hc] & He). split; [done|]. split; [done|]. exists conn, (components_of (landed (core e) conn)).
  assert (forall id, components_of (landed (core e) conn) !! id = component_after (core e) id) as Hv
    by (intros id; exact (components_of_lookup (landed (core e) conn) id)).
  split; [exact Hc|]. split; [exact Hv|]. intros Hw. by rewrite (whole_scanned _ _ Hw Hv).
Qed.
End Arrivals.
End Conserve.

(** C10: A migrated cell arrives whole: the payload [Execute] serializes on the source,
    packed, shipped and populated into a vacant cell of another host, gives that cell
    exactly the ids the source held, one epoch on, with an index every row of which holds
    its id.  Each entity has the values its frame carried, and of its registered components
    what the destination's decoders make of their bytes: a component the registry does not
    know or the decoder refuses is lost (or the zero of its kind), and costs neither
    the entity nor any other component; an entity all of whose components are read back has
    the very components it had.  The game's receive hook then runs on it.  Sessions
    that cannot be placed make the reply negative; they cost no entity. *)
Theorem migration_conserves_entities `{!Iteration} `{!Game} `{!SessionCodec}
    env env' host cmd vcm c vcm0 c0 vcm1 c1 ents sess ctx p :
  cc_Kind cmd = CellTransferMigrate ->
  flushDuePromotesForCommit env CellTransferMigrate vcm c = (vcm0, c0) ->
  well_indexed c0 -> in_range vcm0 c0 ->
  serialize_on_loop env cmd vcm c = (vcm1, c1, Ok (ents, sess, ctx)) ->
  records_fit ents -> vacant (p_cell p) ->
  let d := p_cell (populateCell env' host (transfer_of cmd ents sess ctx) p).1 in
  well_indexed d /\
  (forall n, is_Some (holder (hc_stage d) n) <-> is_Some (holder (hc_stage c0) n)) /\
  (forall n e, holder (hc_stage c0) n = Some e -> exists e', arrived vcm0 c0 d e e').
Proof.
  intros Hk Hfl Hwi Hr Hs Hfit Hv. unfold serialize_on_loop in Hs. rewrite Hk in Hs.
  rewrite decide_False, Hfl in Hs by done.
  assert (ents = map (blob vcm0 c0) (live_rows c0)) as ->.
  { unfold serialize_payload, serialize_entities in Hs. rewrite Hk, serialize_all in Hs by done. simpl in Hs.
    destruct (serializeEntitylessSessions vcm0 c0) as [ss|]; simpl in Hs; [|done].
    destruct (lift _) as [cs|]; simpl in Hs; [|done]. congruence. }
  destruct (populate_adopts vcm0 c0 Hwi Hr env' host
    (transfer_of cmd (map (blob vcm0 c0) (live_rows c0)) sess ctx) p Hv Hfit eq_refl) as [ex Ha].
  set (d := p_cell (populateCell _ _ _ _).1) in *. split; [apply Ha|].
  assert (Hin : forall n e, holder (hc_stage c0) n = Some e -> exists e', arrives vcm0 c0 d e e' /\
    holder (hc_stage d) n = Some e').
  { intros n e Hh. destruct (holder_row _ _ _ (wi_ok _ Hwi) Hh) as (row & Hrow & Hid).
    destruct (ad_in _ _ _ _ _ Ha e) as (e' & He'); [apply live_row; [done|by exists row]|].
    exists e'. split; [done|]. destruct He' as [He' _]. destruct (core_id vcm0 c0 e row Hrow) as [E _].
    by rewrite E, Hid in He'. }
  split.
  - intros n. split.
    + intros [e' (row & Hrow & Hid)%holder_row]; [|apply Ha].
      destruct (ad_out _ _ _ _ _ Ha _ _ Hrow) as (x & Hx & Ex). apply (live_row c0 Hwi) in Hx as [r0 Hr0].
      destruct (core_id vcm0 c0 x r0 Hr0) as [E _]. destruct (wi_rows _ Hwi _ _ Hr0) as [_ Hh].
      exists x. congruence.
    + intros [e He]. destruct (Hin n e He) as (e' & _ & ?). by exists e'.
  - intros n e He. destruct (Hin n e He) as (e' & ? & _). exists e'. by apply arrives_arrived.
Qed.

(** ** The three entities of the demonstration cell

    The first has two components; the destination refuses the bytes of component 1, which
    its kind must have, and reads component 2; component 3 the frame carries elsewhere. *)

#[local] Instance picky_game : Game := {
  game_guard _ _ _ _ := true;
  game_action _ w pm _ := (w, pm);
  replRegistry := [mkReplicator 1 false (Some (fun _ _ => None)) None;
                   mkReplicator 2 false (Some (fun _ b => Some (Some b))) None;
                   mkReplicator 3 true (Some (fun _ b => Some (Some b))) None];
  kind_components kind := if kind =? 1 then [(1, [0])] else [];
  onTransferReceived v _ := v;
  destale _ f := f
}.

Definition laden_frame : TransferFrame :=
  with_components (frame_at 11 (f32_of_int 10) (f32_of_int 10)) [mkComponent 1 [9]; mkComponent 2 [7; 8]].

Definition laden : HostCell :=
  with_world source (set_comps (hc_world source)
    (<[1 := mkComp laden_frame false false]> (w_comps (hc_world source)))).

Lemma laden_rows e row : world (hc_stage laden) !! e = Some row ->
  (e = 1 /\ row = mkEnt (mkNet 11 3) None) \/ (e = 2 /\ row = mkEnt (mkNet 12 3) None) \/
  (e = 3 /\ row = mkEnt (mkNet 13 3) None).
Proof. simpl. rewrite !lookup_insert_Some, lookup_empty. naive_solver. Qed.

Lemma laden_well_indexed : well_indexed laden.
Proof.
  constructor; [constructor| |].
  - intros n e p. simpl. rewrite !lookup_insert_Some, lookup_empty.
    intros [[<- [= <- <-]]|[_ [[<- [= <- <-]]|[_ [[<- [= <- <-]]|[_ ?]]]]]]; [eexists; split; [reflexivity|done]..|done].
  - intros n e. simpl. by rewrite lookup_empty.
  - intros e row H%laden_rows. simpl. destruct H as [[-> _]|[[-> _]|[-> _]]]; lia.
  - intros e. unfold ghost, comp_of. destruct (w_comps (hc_world laden) !! e) as [k|] eqn:E; [|done].
    simpl in E. rewrite !lookup_insert_Some, lookup_empty in E. simpl. naive_solver.
  - intros e row [H%laden_rows _]. destruct H as [[-> ->]|[[-> ->]|[-> ->]]]; by vm_compute.
Qed.

Definition demo_frame (id gen conn : Z) (user : bytes) (x y : Z) : TransferFrame :=
  mkFrame id 3 gen 1 conn [] 0 user (replicate 16 0) x y 0 0 0 0
    (mkRotation 0 0 0 1065353216) (mkCollider 1 2 3 4 1 2) 0 0 0 [].

(** Checking a frame by evaluation. *)
Definition range32 (z : Z) : bool := (0 <=? z) && (z <? 2 ^ 32).

Lemma demo_frame_ok id gen conn user x y :
  range32 id && range32 gen && range32 conn && range32 x && range32 y && (length user <=? 255)%nat = true ->
  frame_ok (demo_frame id gen conn user x y).
Proof.
  unfold range32. intros H. unfold frame_ok, session_ok, body_ok, rotation_ok, collider_ok, ShapeCount, demo_frame.
  unfold_int. cbn [NetworkID Epoch Transfer.StreamGeneration EntityType Transfer.ConnID GatewayID GatewayConnID
    Transfer.Username Transfer.UserID PosX PosY PosZ VelX VelY VelZ FRotation FCollider CellX CellY
    Transfer.DebugFlags Components RotX RotY RotZ RotW Radius Width Height Transfer.Depth Layer Shape length].
  pose proof H as [_ Hu%Nat.leb_le]%andb_prop. split_and!; try done; lia.
Qed.

Lemma with_components_ok f l : frame_ok f -> Z.of_nat (length l) <= 65535 -> Forall component_ok l ->
  frame_ok (with_components f l).
Proof. intros (H1 & H2 & _ & _) Hn Hl. split; [exact H1|]. split; [exact H2|]. by split. Qed.

Lemma laden_in_range : in_range None laden.
Proof.
  intros e row [H%laden_rows _].
  assert (E : SerializeEntityCore None laden 1 = with_components (demo_frame 11 0 0 [] (f32_to_bits (f32_of_int 10)) (f32_to_bits (f32_of_int 10)))
      [mkComponent 1 [9]; mkComponent 2 [7; 8]] /\
    SerializeEntityCore None laden 2 = demo_frame 12 0 0 [] (f32_to_bits (f32_of_int 300)) (f32_to_bits (f32_of_int 10)) /\
    SerializeEntityCore None laden 3 = demo_frame 13 1 7 (str "bob") (f32_to_bits (f32_of_int 300)) (f32_to_bits (f32_of_int 300)))
    by (split; [|split]; vm_compute; reflexivity).
  destruct E as (E1 & E2 & E3).
  destruct H as [[-> _]|[[-> _]|[-> _]]]; [rewrite E1|rewrite E2|rewrite E3].
  - apply with_components_ok; [apply demo_frame_ok; vm_compute; reflexivity|done|].
    repeat constructor; (done || vm_compute; intuition congruence).
  - apply demo_frame_ok; vm_compute; reflexivity.
  - apply demo_frame_ok; vm_compute; reflexivity.
Qed.

Definition migrate_cmd : cellTransferCommand :=
  mkCommand 9 CellTransferMigrate (key_of source_id) (key_of source_id) "h" "b" 0.
Definition shipped : list bytes :=
  match (serialize_on_loop demo_exec_env migrate_cmd None laden).2 with Ok (ents, _, _) => ents | Err _ => [] end.
Definition destination : Pop :=
  mkPop (empty_cell source_id) None (pr_coord (process_of laden)) newCellTransferExecutor.

Lemma destination_vacant : vacant (p_cell destination).
Proof.
  split_and!.
  - constructor; simpl; intros *; by rewrite lookup_empty.
  - intros e. done.
  - intros e row [H _]. simpl in H. by rewrite lookup_empty in H.
Qed.

Lemma migration_conserves_entities_witness :
  ids_of shipped = [13; 12; 11] /\
  let d := p_cell (populateCell demo_exec_env "b" (transfer_of migrate_cmd shipped [] []) destination).1 in
  well_indexed d /\
  (forall n, is_Some (holder (hc_stage d) n) <-> is_Some (holder (hc_stage laden) n)) /\
  (forall n e, holder (hc_stage laden) n = Some e -> exists e', arrived None laden d e e') /\
  (fun e => Components (cp_frame (comp_of (hc_world d) e))) <$> holder (hc_stage d) 11
    = Some [mkComponent 1 [0]; mkComponent 2 [7; 8]].
Proof.
  split; [vm_compute; reflexivity|].
  intros d. match goal with |- ?A /\ ?B /\ ?C /\ ?D => cut (A /\ B /\ C); [|] end.
  { intros (H1 & H2 & H3). do 3 (split; [assumption|]). vm_compute. reflexivity. }
  apply (migration_conserves_entities demo_exec_env demo_exec_env "b" migrate_cmd None laden None laden None
           (serialize_on_loop demo_exec_env migrate_cmd None laden).1.2 shipped [] [] destination).
  - reflexivity.
  - vm_compute. reflexivity.
  - exact laden_well_indexed.
  - exact laden_in_range.
  - vm_compute. reflexivity.
  - apply records_checked. vm_compute. reflexivity.
  - exact destination_vacant.
Defined.
