(* ===== verification/LoopQueue.v ===== *)
(** * Jobs on a cell's game loop (pkg/engine/run_on_loop.go, loop.go, tick_schedule.go)

    Everything that touches a cell from outside its goroutine goes through its job queue.
    A queued job may be run by the loop, failed by the stopping loop, or taken back by
    the caller that queued it when its context expires or the loop is gone; the three
    race, and a compare-and-swap on the job decides.  Callers and loop are goroutines
    with a program counter: one function is what happens between two points where
    another goroutine may come in, and a [select] is a choice among its ready branches.
    A call is known by its index; it creates at most one job, known by the same index.

    Calls with a nil function, and engines built without a queue, return at once and are
    left out. *)

From S2P Require Import Prelude.

(** ** Jobs and the queue *)

Inductive FnOutcome := FnNil | FnError (e : Z) | FnPanicked.

Inductive LoopErr := ErrLoopStopped | ErrLoopQueueFull | ErrContext | FnReturned (o : FnOutcome) | Queued.

(** [j_err] means something once [j_done]. *)
Record loopJob := mkJob { j_claimed : bool; j_done : bool; j_err : LoopErr }.

Definition newJob : loopJob := mkJob false false Queued.

(** The gate of the current run is [q_gate]; gates of earlier runs are closed. *)
Record loopQueue := mkQueue { q_ch : list nat; q_cap : nat; q_gate : nat; q_closed : bool }.

Definition newLoopQueue (buf : nat) : loopQueue := mkQueue [] buf 0 false.

Definition gateClosed (q : loopQueue) (g : nat) : bool :=
  (g <? q_gate q)%nat || ((g =? q_gate q)%nat && q_closed q).

Definition start (q : loopQueue) : loopQueue :=
  if q_closed q then mkQueue (q_ch q) (q_cap q) (S (q_gate q)) false else q.

(** The first half of [stop]; the second is the drain below. *)
Definition closeGate (q : loopQueue) : loopQueue := mkQueue (q_ch q) (q_cap q) (q_gate q) true.

Definition set_ch (q : loopQueue) (l : list nat) : loopQueue := mkQueue l (q_cap q) (q_gate q) (q_closed q).

(** ** Goroutines *)

Inductive Mode := RunOnLoop | SubmitLoopJob.

Inductive CallPc :=
| PcStart
| PcGate (gate : nat)                 (* the gate has been read *)
| PcSend (gate : nat)                 (* the job has been created *)
| PcRecheck (gate : nat)              (* the job is in the channel *)
| PcReclaim (gate : nat)              (* the gate closed meanwhile: take it back *)
| PcWait (gate : nat)
| PcGiveUp (e : LoopErr)              (* about to abandon the job *)
| PcAwait                             (* too late: the job has an owner *)
| PcReturned (e : LoopErr).

Record Call := mkCall { c_mode : Mode; c_onLoop : bool; c_expired : bool; c_pc : CallPc }.

(** The loop's goroutine; a drain carries its deadline. *)
Inductive LoopPc :=
| LoopOff
| LoopIdle                            (* the rest of the tick, and the wait for the next *)
| LoopDrain (deadline : Z)
| LoopTaken (deadline : Z) (j : nat)  (* received, not claimed *)
| LoopRunning (deadline : Z) (j : nat)
| LoopStopping
| LoopStopTaken (j : nat).

Inductive LoopEvent := EvSend (j : nat) | EvStart (j : nat) | EvEnd (j : nat) (o : FnOutcome)
                     | EvInline (j : nat) (o : FnOutcome).

Record Loop := mkLoop {
  lq : loopQueue;
  jobs : gmap nat loopJob;
  calls : list Call;
  lpc : LoopPc;
  trace : list LoopEvent }.

Definition boot (buf : nat) : Loop := mkLoop (newLoopQueue buf) ∅ [] LoopOff [].

Definition goto (i : nat) (pc : CallPc) (s : Loop) : Loop :=
  mkLoop (lq s) (jobs s) (alter (fun c => mkCall (c_mode c) (c_onLoop c) (c_expired c) pc) i (calls s)) (lpc s) (trace s).
Definition goloop (pc : LoopPc) (s : Loop) : Loop := mkLoop (lq s) (jobs s) (calls s) pc (trace s).
Definition put_queue (q : loopQueue) (s : Loop) : Loop := mkLoop q (jobs s) (calls s) (lpc s) (trace s).
Definition put_job (i : nat) (j : loopJob) (s : Loop) : Loop :=
  mkLoop (lq s) (<[i := j]> (jobs s)) (calls s) (lpc s) (trace s).
Definition record (e : LoopEvent) (s : Loop) : Loop := mkLoop (lq s) (jobs s) (calls s) (lpc s) (trace s ++ [e]).

(** The compare-and-swap: whether it won, and the state after. *)
Definition claim (i : nat) (s : Loop) : bool * Loop :=
  match jobs s !! i with
  | Some j => if j_claimed j then (false, s) else (true, put_job i (mkJob true (j_done j) (j_err j)) s)
  | None => (false, s)
  end.

Definition settle (i : nat) (e : LoopErr) (s : Loop) : Loop := put_job i (mkJob true true e) s.

(** ** The callers *)

(** The branch a [select] takes, or the one way on.  A panic of a function that runs
    inline is the loop's own: the call never returns. *)
Inductive Branch := BrNext | BrInline (o : FnOutcome) | BrGate | BrSend | BrCtx | BrDone | BrDefault.

Definition when (b : bool) (s : Loop) : option Loop := if b then Some s else None.

Definition full (q : loopQueue) : bool := (q_cap q <=? length (q_ch q))%nat.

Definition doneErr (s : Loop) (i : nat) : option LoopErr :=
  match jobs s !! i with Some j => if j_done j then Some (j_err j) else None | None => None end.

Definition await (s : Loop) (i : nat) : option Loop := (fun e => goto i (PcReturned e) s) <$> doneErr s i.

Definition callStep (s : Loop) (i : nat) (c : Call) (b : Branch) : option Loop :=
  let shut g := gateClosed (lq s) g in
  match c_pc c, b with
  | PcStart, BrInline o =>
      when (c_onLoop c && (match o with FnPanicked => false | _ => true end)) (goto i (PcReturned (match c_mode c with RunOnLoop => FnReturned o | SubmitLoopJob => Queued end))
                           (record (EvInline i o) s))
  | PcStart, BrNext => when (negb (c_onLoop c)) (goto i (PcGate (q_gate (lq s))) s)
  | PcGate g, BrGate => when (shut g) (goto i (PcReturned ErrLoopStopped) s)
  | PcGate g, BrDefault => when (negb (shut g)) (goto i (PcSend g) (put_job i newJob s))
  | PcSend g, BrSend =>
      when (negb (full (lq s)))
        (goto i (PcRecheck g) (record (EvSend i) (put_queue (set_ch (lq s) (q_ch (lq s) ++ [i])) s)))
  | PcSend g, BrGate =>
      match c_mode c with RunOnLoop => when (shut g) (goto i (PcReturned ErrLoopStopped) s) | _ => None end
  | PcSend g, BrCtx =>
      match c_mode c with RunOnLoop => when (c_expired c) (goto i (PcReturned ErrContext) s) | _ => None end
  | PcSend g, BrDefault =>
      match c_mode c with SubmitLoopJob => when (full (lq s)) (goto i (PcReturned ErrLoopQueueFull) s) | _ => None end
  | PcRecheck g, BrGate => when (shut g) (goto i (PcReclaim g) s)
  | PcRecheck g, BrDefault =>
      when (negb (shut g)) (goto i (match c_mode c with RunOnLoop => PcWait g | SubmitLoopJob => PcReturned Queued end) s)
  | PcReclaim g, BrNext =>
      let '(won, s') := claim i s in
      Some (goto i (if won then PcReturned ErrLoopStopped
                    else match c_mode c with RunOnLoop => PcWait g | SubmitLoopJob => PcReturned Queued end) s')
  | PcWait g, BrDone => await s i
  | PcWait g, BrGate => when (shut g) (goto i (PcGiveUp ErrLoopStopped) s)
  | PcWait g, BrCtx => when (c_expired c) (goto i (PcGiveUp ErrContext) s)
  | PcGiveUp e, BrNext =>
      let '(won, s') := claim i s in Some (goto i (if won then PcReturned e else PcAwait) s')
  | PcAwait, BrDone => await s i
  | _, _ => None
  end.

Definition call_step (s : Loop) (i : nat) (b : Branch) : option Loop :=
  match calls s !! i with Some c => callStep s i c b | None => None end.

(** ** The loop *)

Inductive LoopMove :=
| MvRun                            (* [GameLoop.Run] *)
| MvDrain (now : Z)                (* [processAdminCmds] begins *)
| MvTake | MvEmpty
| MvClaim (now : Z)
| MvFinish (o : FnOutcome) (now : Z)
| MvCancel                         (* the loop's own context is done: [stop] *)
| MvStopTake | MvStopClaim | MvStopEmpty.

Section Moves.
Variable budget : Z.

(** After a job, or after skipping one: on with the drain unless its time is up. *)
Definition after (deadline now : Z) : LoopPc := if deadline <? now then LoopIdle else LoopDrain deadline.

Definition recv (s : Loop) (k : nat -> LoopPc) : option Loop :=
  match q_ch (lq s) with
  | [] => None
  | j :: rest => Some (goloop (k j) (put_queue (set_ch (lq s) rest) s))
  end.

Definition loop_step (s : Loop) (m : LoopMove) : option Loop :=
  match lpc s, m with
  | LoopOff, MvRun => Some (goloop LoopIdle (put_queue (start (lq s)) s))
  | LoopIdle, MvDrain now => Some (goloop (LoopDrain (now + budget)) s)
  | LoopDrain d, MvTake => recv s (LoopTaken d)
  | LoopDrain d, MvEmpty => match q_ch (lq s) with [] => Some (goloop LoopIdle s) | _ => None end
  | LoopTaken d j, MvClaim now =>
      let '(won, s') := claim j s in
      Some (if won then goloop (LoopRunning d j) (record (EvStart j) s') else goloop (after d now) s')
  | LoopRunning d j, MvFinish o now =>
      Some (goloop (after d now) (settle j (FnReturned o) (record (EvEnd j o) s)))
  | LoopIdle, MvCancel => Some (goloop LoopStopping (put_queue (closeGate (lq s)) s))
  | LoopStopping, MvStopTake => recv s LoopStopTaken
  | LoopStopTaken j, MvStopClaim =>
      let '(won, s') := claim j s in
      Some (goloop LoopStopping (if won then settle j ErrLoopStopped s' else s'))
  | LoopStopping, MvStopEmpty => match q_ch (lq s) with [] => Some (goloop LoopOff s) | _ => None end
  | _, _ => None
  end.
End Moves.

(** ** Interleavings *)

Definition arrive (m : Mode) (onLoop : bool) (s : Loop) : Loop :=
  mkLoop (lq s) (jobs s) (calls s ++ [mkCall m onLoop false PcStart]) (lpc s) (trace s).

Definition expire (i : nat) (s : Loop) : Loop :=
  mkLoop (lq s) (jobs s) (alter (fun c => mkCall (c_mode c) (c_onLoop c) true (c_pc c)) i (calls s)) (lpc s) (trace s).

Inductive loop_move (budget : Z) (s : Loop) : Loop -> Prop :=
| move_arrive m onLoop : loop_move budget s (arrive m onLoop s)
| move_expire i : loop_move budget s (expire i s)
| move_call i b s' : call_step s i b = Some s' -> loop_move budget s s'
| move_loop m s' : loop_step budget s m = Some s' -> loop_move budget s s'.
