(* ===== verification/LoopQueueSafety.v ===== *)
(** * What the job queue promises its callers

    One call's life in every interleaving: whether its job is queued, running, settled or
    abandoned is read off the job and the trace, and the answer its caller got agrees
    with it.  Then the order of the jobs, and that no caller is left waiting by a loop
    that has gone. *)

From S2P Require Import Prelude LoopQueue.

(** ** Reading the trace *)

Definition about (i : nat) (e : LoopEvent) : bool :=
  match e with EvSend j | EvStart j | EvEnd j _ | EvInline j _ => (i =? j)%nat end.

Definition history (i : nat) (s : Loop) : list LoopEvent := filter (fun e => about i e) (trace s).

Definition sends (l : list LoopEvent) : list nat := omap (fun e => match e with EvSend j => Some j | _ => None end) l.
Definition starts (l : list LoopEvent) : list nat := omap (fun e => match e with EvStart j => Some j | _ => None end) l.

Definition held (pc : LoopPc) : list nat :=
  match pc with LoopTaken _ j | LoopStopTaken j => [j] | _ => [] end.
Definition queued (s : Loop) : list nat := held (lpc s) ++ q_ch (lq s).
Definition running (s : Loop) (i : nat) : bool :=
  match lpc s with LoopRunning _ j => (i =? j)%nat | _ => false end.

(** ** The life of a call *)

Inductive Fate := Fresh | Inlined (o : FnOutcome) | Created | Pending | InLoop | Ran (o : FnOutcome) | Failed
                | Abandoned (e : LoopErr).

(** Where the caller may be while its job has an owner other than itself, or none yet. *)
Definition sent_pc (m : Mode) (pc : CallPc) : Prop :=
  match pc with
  | PcRecheck _ | PcReclaim _ => True
  | PcWait _ => m = RunOnLoop
  | PcGiveUp e => m = RunOnLoop /\ (e = ErrLoopStopped \/ e = ErrContext)
  | PcReturned Queued => m = SubmitLoopJob
  | _ => False
  end.

Definition owned_pc (m : Mode) (pc : CallPc) : Prop := sent_pc m pc \/ (m = RunOnLoop /\ pc = PcAwait).

Definition gave_up (e : LoopErr) : Prop := e = ErrLoopStopped \/ e = ErrContext \/ e = ErrLoopQueueFull.

Definition fate_ok (s : Loop) (i : nat) (m : Mode) (pc : CallPc) (f : Fate) : Prop :=
  match f with
  | Fresh => jobs s !! i = None /\ history i s = [] /\ i ∉ queued s /\ running s i = false
             /\ (pc = PcStart \/ (exists g, pc = PcGate g) \/ pc = PcReturned ErrLoopStopped)
  | Inlined o => jobs s !! i = None /\ history i s = [EvInline i o] /\ i ∉ queued s /\ running s i = false
             /\ pc = PcReturned (match m with RunOnLoop => FnReturned o | SubmitLoopJob => Queued end)
  | Created => jobs s !! i = Some newJob /\ history i s = [] /\ i ∉ queued s /\ running s i = false
             /\ ((exists g, pc = PcSend g) \/ exists e, pc = PcReturned e /\ gave_up e)
  | Pending => jobs s !! i = Some newJob /\ history i s = [EvSend i] /\ running s i = false /\ sent_pc m pc
  | InLoop => jobs s !! i = Some (mkJob true false Queued) /\ history i s = [EvSend i; EvStart i] /\ i ∉ queued s
             /\ running s i = true /\ owned_pc m pc
  | Ran o => jobs s !! i = Some (mkJob true true (FnReturned o)) /\ history i s = [EvSend i; EvStart i; EvEnd i o]
             /\ i ∉ queued s /\ running s i = false
             /\ (owned_pc m pc \/ m = RunOnLoop /\ pc = PcReturned (FnReturned o))
  | Failed => jobs s !! i = Some (mkJob true true ErrLoopStopped) /\ history i s = [EvSend i]
             /\ i ∉ queued s /\ running s i = false
             /\ (owned_pc m pc \/ m = RunOnLoop /\ pc = PcReturned ErrLoopStopped)
  | Abandoned e => jobs s !! i = Some (mkJob true false Queued) /\ history i s = [EvSend i] /\ running s i = false
             /\ pc = PcReturned e /\ gave_up e
  end.

Record loop_ok (s : Loop) : Prop := {
  lo_nodup : NoDup (queued s);
  lo_range : forall i, i ∈ queued s \/ running s i = true \/ is_Some (jobs s !! i) \/ history i s <> [] ->
             (i < length (calls s))%nat;
  lo_calls : forall i c, calls s !! i = Some c -> exists f, fate_ok s i (c_mode c) (c_pc c) f }.

(** A call keeps its fate when nothing it depends on has changed. *)
Lemma fate_frame s s' i m pc f :
  jobs s' !! i = jobs s !! i -> history i s' = history i s -> (i ∈ queued s' -> i ∈ queued s) ->
  running s' i = running s i -> fate_ok s i m pc f -> fate_ok s' i m pc f.
Proof. intros E1 E2 E3 E4. destruct f; simpl; rewrite E1, E2, E4; tauto. Qed.

Lemma history_snoc i s e s' : trace s' = trace s ++ [e] ->
  history i s' = history i s ++ (if about i e then [e] else []).
Proof.
  intros E. unfold history. rewrite E, filter_app. f_equal. cbn [filter list_filter].
  case_decide as Hd; destruct (about i e); done.
Qed.

Inductive loop_reach (budget : Z) (buf : nat) : Loop -> Prop :=
| reach_boot : loop_reach budget buf (boot buf)
| reach_move s s' : loop_reach budget buf s -> loop_move budget s s' -> loop_reach budget buf s'.

(** A move touches the job and the trace of one call; [changes i] is that call. *)
Lemma loop_ok_upd s s' i :
  loop_ok s -> NoDup (queued s') ->
  length (calls s') = length (calls s) ->
  (forall k, k <> i -> jobs s' !! k = jobs s !! k /\ history k s' = history k s /\
             (k ∈ queued s' -> k ∈ queued s) /\ running s' k = running s k /\
             (forall c, calls s' !! k = Some c -> exists c0, calls s !! k = Some c0 /\ c_mode c = c_mode c0 /\ c_pc c = c_pc c0)) ->
  (i < length (calls s))%nat ->
  (forall c, calls s' !! i = Some c -> exists f, fate_ok s' i (c_mode c) (c_pc c) f) ->
  loop_ok s'.
Proof.
  intros [Hn Hr Hc] Hn' Hlen Hother Hi Hmine. split; [done|..].
  - intros k Hk. rewrite Hlen. destruct (decide (k = i)) as [->|Hne]; [done|].
    destruct (Hother k Hne) as (E1 & E2 & E3 & E4 & _). apply Hr. rewrite <- E1, <- E2, <- E4. tauto.
  - intros k c Hk. destruct (decide (k = i)) as [->|Hne]; [by apply Hmine|].
    destruct (Hother k Hne) as (E1 & E2 & E3 & E4 & E5). destruct (E5 c Hk) as (c0 & Hc0 & -> & ->).
    destruct (Hc k c0 Hc0) as [f Hf]. exists f. by apply (fate_frame s).
Qed.

Definition same_but (i : nat) (s s1 : Loop) : Prop :=
  calls s1 = calls s /\ forall k, k <> i -> jobs s1 !! k = jobs s !! k /\ history k s1 = history k s /\
    (k ∈ queued s1 -> k ∈ queued s) /\ running s1 k = running s k.

Lemma same_but_refl i s : same_but i s s.
Proof. done. Qed.

Lemma goto_ok s s1 i c pc :
  loop_ok s -> calls s !! i = Some c -> same_but i s s1 -> NoDup (queued s1) ->
  (exists f, fate_ok s1 i (c_mode c) pc f) -> loop_ok (goto i pc s1).
Proof.
  intros Hok Hc [Ecalls Hsame] Hn Hmine. apply (loop_ok_upd s _ i); [done|exact Hn|..].
  - simpl. by rewrite length_alter, Ecalls.
  - intros k Hne. destruct (Hsame k Hne) as (E1 & E2 & E3 & E4). repeat split; try done. simpl. intros c' Hk.
    rewrite list_lookup_alter_ne, Ecalls in Hk by done. eauto.
  - by eapply lookup_lt_Some.
  - intros c' Hk. simpl in Hk. rewrite list_lookup_alter_eq, Ecalls, Hc in Hk. injection Hk as <-. exact Hmine.
Qed.

(** A job changes hands: the caller's position stays. *)
Lemma owned_settle_ok s s1 i c :
  loop_ok s -> calls s !! i = Some c -> same_but i s s1 -> NoDup (queued s1) ->
  (exists f, fate_ok s1 i (c_mode c) (c_pc c) f) -> loop_ok s1.
Proof.
  intros Hok Hc [Ecalls Hsame] Hn Hmine. apply (loop_ok_upd s _ i); [done|exact Hn|by rewrite Ecalls|..].
  - intros k Hne. destruct (Hsame k Hne) as (E1 & E2 & E3 & E4). rewrite Ecalls. repeat split; eauto.
  - by eapply lookup_lt_Some.
  - intros c' Hk. rewrite Ecalls, Hc in Hk. by injection Hk as <-.
Qed.

Lemma loop_ok_frame s s' :
  loop_ok s -> calls s' = calls s -> jobs s' = jobs s -> trace s' = trace s -> NoDup (queued s') ->
  (forall k, k ∈ queued s' -> k ∈ queued s) -> (forall k, running s' k = running s k) -> loop_ok s'.
Proof.
  intros [Hn Hr Hc] Ec Ej Et Hn' Hq Hrun.
  assert (Eh : forall k, history k s' = history k s) by (intros k; unfold history; by rewrite Et).
  split; [done|..].
  - intros k Hk. rewrite Ec. apply Hr. rewrite <- Ej, <- Eh, <- Hrun. destruct Hk as [?|?]; auto.
  - intros k c. rewrite Ec. intros Hk. destruct (Hc k c Hk) as [f Hf]. exists f.
    apply (fate_frame s); auto. by rewrite Ej.
Qed.

(** The fates a call's position leaves open. *)
Ltac fate_cases f Hf :=
  destruct f; simpl in Hf; unfold owned_pc, sent_pc in Hf; decompose [and or ex] Hf; simplify_eq/=; try done.

Lemma fate_of s i : loop_ok s -> (i < length (calls s))%nat ->
  exists c, calls s !! i = Some c /\ exists f, fate_ok s i (c_mode c) (c_pc c) f.
Proof.
  intros [_ _ Hc] Hi. apply lookup_lt_is_Some in Hi as [c Hi]. eauto.
Qed.

(** ** Moves of the loop *)

Lemma recv_ok s k s' : loop_ok s -> held (lpc s) = [] -> (forall i, running s i = false) ->
  (forall j, held (k j) = [j]) -> (forall j i, running (goloop (k j) s) i = false) ->
  recv s k = Some s' -> loop_ok s'.
Proof.
  intros Hok Hh Hrun Hk Hrun' E. unfold recv in E. destruct (q_ch (lq s)) as [|j rest] eqn:Ech; [done|].
  injection E as <-. assert (Eq : queued (goloop (k j) (put_queue (set_ch (lq s) rest) s)) = queued s).
  { unfold queued. simpl. by rewrite Hk, Hh, Ech. }
  apply (loop_ok_frame s); try done; rewrite ?Eq; [apply Hok|done|].
  intros i. rewrite Hrun. apply (Hrun' j i).
Qed.

Lemma requeue_ok s q pc : loop_ok s -> q_ch q = q_ch (lq s) -> held pc = [] ->
  (forall i, running (goloop pc s) i = running s i) -> loop_ok (goloop pc (put_queue q s)).
Proof.
  intros Hok Hq Hh Hrun. apply (loop_ok_frame s); try done.
  - unfold queued. simpl. rewrite Hh, Hq. apply (NoDup_app (held (lpc s))), Hok.
  - unfold queued. simpl. rewrite Hh, Hq. set_solver.
Qed.

Lemma goloop_ok s pc : loop_ok s -> held pc = [] -> (forall i, running (goloop pc s) i = running s i) ->
  loop_ok (goloop pc s).
Proof. intros Hok Hh Hrun. exact (requeue_ok s (lq s) pc Hok eq_refl Hh Hrun). Qed.

Lemma pending_claimed s j : loop_ok s -> j ∈ queued s -> running s j = false ->
  exists c, calls s !! j = Some c /\
    ((exists e, fate_ok s j (c_mode c) (c_pc c) (Abandoned e) /\ claim j s = (false, s)) \/
     (fate_ok s j (c_mode c) (c_pc c) Pending /\ claim j s = (true, put_job j (mkJob true false Queued) s))).
Proof.
  intros Hok Hj Hrun. destruct (fate_of s j Hok) as (c & Hc & [f Hf]); [apply Hok; auto|].
  exists c. split; [done|]. unfold claim. destruct f; simpl in Hf; decompose [and] Hf; try done.
  - right. split; [done|]. by simplify_option_eq.
  - left. eexists. split; [exact Hf|]. by simplify_option_eq.
Qed.

(** The loop lets go of the job it holds. *)
Lemma drop_held s j pc : held (lpc s) = [j] -> held pc = [] -> loop_ok s ->
  NoDup (q_ch (lq s)) /\ j ∉ q_ch (lq s) /\ queued (goloop pc s) = q_ch (lq s) /\ j ∈ queued s
  /\ forall k, k ∈ q_ch (lq s) -> k ∈ queued s.
Proof.
  intros Hh Hp Hok. pose proof (lo_nodup _ Hok) as Hn. unfold queued in *. rewrite Hh in *. simpl in *.
  rewrite Hp. apply NoDup_cons in Hn as [??]. set_solver.
Qed.

Lemma running_held s j : held (lpc s) = [j] -> forall i, running s i = false.
Proof. unfold running. by destruct (lpc s). Qed.

Lemma put_job_ne s i j k : k <> i -> jobs (put_job i j s) !! k = jobs s !! k.
Proof. intros Hne. simpl. by rewrite lookup_insert_ne. Qed.

Lemma about_refl i : about i (EvStart i) = true /\ about i (EvSend i) = true /\ forall o, about i (EvEnd i o) = true /\ about i (EvInline i o) = true.
Proof. simpl. rewrite Nat.eqb_refl. auto. Qed.

Lemma about_ne i k : k <> i -> (k =? i)%nat = false.
Proof. apply Nat.eqb_neq. Qed.

Lemma claim_run_ok s d j s' pc :
  loop_ok s -> lpc s = LoopTaken d j -> held pc = [] -> (forall i, running (goloop pc s) i = false) ->
  s' = (let '(won, s1) := claim j s in
        if won then goloop (LoopRunning d j) (record (EvStart j) s1) else goloop pc s1) -> loop_ok s'.
Proof.
  intros Hok El Hp Hrun' ->. assert (Hh : held (lpc s) = [j]) by by rewrite El.
  destruct (drop_held s j pc Hh Hp Hok) as (Hn & Hnin & Eq & Hin & Hsub).
  destruct (pending_claimed s j Hok Hin (running_held s j Hh j)) as (c & Hc & [(e & Hf & ->)|(Hf & ->)]).
  - apply (owned_settle_ok s _ j c); [done..| | |].
    + split; [done|]. intros k Hne. repeat split; rewrite ?Eq; auto. by rewrite (running_held s j Hh), Hrun'.
    + by rewrite Eq.
    + exists (Abandoned e). revert Hf. simpl. rewrite Hrun'. unfold history. simpl. tauto.
  - apply (owned_settle_ok s _ j c); [done..| | |].
    + split; [done|]. intros k Hne. repeat split.
      * exact (put_job_ne s j _ k Hne).
      * rewrite (history_snoc k s (EvStart j)) by done. cbn [about]. by rewrite about_ne, app_nil_r.
      * exact (Hsub k).
      * rewrite (running_held s j Hh). unfold running. simpl. by apply about_ne.
    + exact Hn.
    + exists InLoop. destruct Hf as (E1 & E2 & E3 & E4). simpl. rewrite lookup_insert_eq.
      rewrite (history_snoc j s (EvStart j)), E2 by done. cbn [about]. unfold running. simpl. rewrite Nat.eqb_refl.
      repeat split; [exact Hnin|by left].
Qed.

Lemma finish_ok s d j o pc :
  loop_ok s -> lpc s = LoopRunning d j -> held pc = [] -> (forall i, running (goloop pc s) i = false) ->
  loop_ok (goloop pc (settle j (FnReturned o) (record (EvEnd j o) s))).
Proof.
  intros Hok El Hp Hrun'. assert (Hrun : running s j = true) by (unfold running; rewrite El; apply Nat.eqb_refl).
  assert (Eq : queued s = q_ch (lq s)) by (unfold queued; by rewrite El).
  destruct (fate_of s j Hok) as (c & Hc & [f Hf]); [apply Hok; auto|].
  apply (owned_settle_ok s _ j c); [done..| | |].
  - split; [done|]. intros k Hne. repeat split.
    + exact (put_job_ne s j _ k Hne).
    + rewrite (history_snoc k s (EvEnd j o)) by done. cbn [about]. by rewrite about_ne, app_nil_r.
    + rewrite Eq. unfold queued. simpl. by rewrite Hp.
    + unfold running at 2. rewrite El, about_ne by done. apply Hrun'.
  - unfold queued. simpl. rewrite Hp. simpl. rewrite <- Eq. apply Hok.
  - exists (Ran o). destruct f; simpl in Hf; try (destruct_and?; congruence).
    destruct Hf as (E1 & E2 & E3 & E4 & E5). simpl. rewrite lookup_insert_eq.
    rewrite (history_snoc j s (EvEnd j o)), E2 by done. cbn [about]. rewrite Nat.eqb_refl.
    unfold queued in *. simpl. rewrite Hp, El in *. repeat split; try done; [apply Hrun'|by left].
Qed.

Lemma claim_stop_ok s j s' :
  loop_ok s -> lpc s = LoopStopTaken j ->
  s' = (let '(won, s1) := claim j s in goloop LoopStopping (if won then settle j ErrLoopStopped s1 else s1)) -> loop_ok s'.
Proof.
  intros Hok El ->. assert (Hh : held (lpc s) = [j]) by by rewrite El.
  destruct (drop_held s j LoopStopping Hh eq_refl Hok) as (Hn & Hnin & Eq & Hin & Hsub).
  destruct (pending_claimed s j Hok Hin (running_held s j Hh j)) as (c & Hc & [(e & Hf & ->)|(Hf & ->)]).
  - apply (owned_settle_ok s _ j c); [done..| |by rewrite Eq|].
    + split; [done|]. intros k Hne. repeat split; rewrite ?Eq; auto. by rewrite (running_held s j Hh).
    + exists (Abandoned e). revert Hf. simpl. unfold history. simpl. tauto.
  - apply (owned_settle_ok s _ j c); [done..| |exact Hn|].
    + split; [done|]. intros k Hne. repeat split; [|exact (Hsub k)|by rewrite (running_held s j Hh)].
      simpl. by rewrite !lookup_insert_ne by done.
    + exists Failed. destruct Hf as (E1 & E2 & E3 & E4). simpl. rewrite lookup_insert_eq.
      repeat split; [exact E2|exact Hnin|left; by left].
Qed.

Lemma after_held d now : held (after d now) = [] /\ forall s i, running (goloop (after d now) s) i = false.
Proof. unfold after. by destruct (d <? now). Qed.

Lemma loop_step_ok budget s m s' : loop_ok s -> loop_step budget s m = Some s' -> loop_ok s'.
Proof.
  intros Hok E. unfold loop_step in E. destruct (lpc s) as [| |d|d j|d j| |j] eqn:El; destruct m; try done.
  - injection E as <-. apply requeue_ok; [done|by unfold start; case_match|done|]. intros i. unfold running. by rewrite El.
  - injection E as <-. apply goloop_ok; [done..|]. intros i. unfold running. by rewrite El.
  - injection E as <-. apply requeue_ok; [done..|]. intros i. unfold running. by rewrite El.
  - eapply recv_ok in E; eauto; [by rewrite El|unfold running; by rewrite El].
  - case_match; [|done]. injection E as <-. apply goloop_ok; [done..|]. intros i. unfold running. by rewrite El.
  - destruct (after_held d now) as [Ha Hb]. eapply (claim_run_ok s d j _ (after d now)); eauto.
    destruct (claim j s) as [[] s1]; by injection E as <-.
  - injection E as <-. destruct (after_held d now) as [Ha Hb]. by apply (finish_ok s d).
  - eapply recv_ok in E; eauto; [by rewrite El|unfold running; by rewrite El].
  - case_match; [|done]. injection E as <-. apply goloop_ok; [done..|]. intros i. unfold running. by rewrite El.
  - eapply claim_stop_ok; [done..|]. destruct (claim j s) as [[] s1]; by injection E as <-.
Qed.

(** ** Moves of a caller *)

Lemma goto_same s i c pc :
  loop_ok s -> calls s !! i = Some c -> (exists f, fate_ok s i (c_mode c) pc f) -> loop_ok (goto i pc s).
Proof. intros Hok Hc Hf. apply (goto_ok s s i c); [done..|apply Hok|done]. Qed.

(** Until it has sent its job a caller is the only one to know it. *)
Lemma put_fresh_same i j s : same_but i s (put_job i j s).
Proof. split; [done|]. intros k Hne. repeat split; [exact (put_job_ne s i j k Hne)|done]. Qed.

Lemma record_same i e s : (forall k, k <> i -> about k e = false) -> same_but i s (record e s).
Proof.
  intros He. split; [done|]. intros k Hne. repeat split; [|done].
  rewrite (history_snoc k s e) by done. by rewrite He, app_nil_r.
Qed.

Lemma inline_ok s i c o : loop_ok s -> calls s !! i = Some c -> c_pc c = PcStart ->
  loop_ok (goto i (PcReturned (match c_mode c with RunOnLoop => FnReturned o | SubmitLoopJob => Queued end))
             (record (EvInline i o) s)).
Proof.
  intros Hok Hc Hpc. destruct (lo_calls _ Hok i c Hc) as [f Hf]. rewrite Hpc in Hf.
  apply (goto_ok s _ i c); [done..|apply record_same; intros k; apply about_ne|apply Hok|].
  fate_cases f Hf. exists (Inlined o). simpl.
  rewrite (history_snoc i s (EvInline i o)) by done. cbn [about]. rewrite Nat.eqb_refl.
  match goal with E : history i s = [] |- _ => rewrite E end. done.
Qed.

Lemma create_ok s i c g : loop_ok s -> calls s !! i = Some c -> c_pc c = PcGate g ->
  loop_ok (goto i (PcSend g) (put_job i newJob s)).
Proof.
  intros Hok Hc Hpc. destruct (lo_calls _ Hok i c Hc) as [f Hf]. rewrite Hpc in Hf.
  apply (goto_ok s _ i c); [done..|apply put_fresh_same|apply Hok|].
  fate_cases f Hf. exists Created. simpl. rewrite lookup_insert_eq.
  repeat split; try done. left. by eexists.
Qed.

Lemma send_ok s i c g : loop_ok s -> calls s !! i = Some c -> c_pc c = PcSend g ->
  loop_ok (goto i (PcRecheck g) (record (EvSend i) (put_queue (set_ch (lq s) (q_ch (lq s) ++ [i])) s))).
Proof.
  intros Hok Hc Hpc. destruct (lo_calls _ Hok i c Hc) as [f Hf]. rewrite Hpc in Hf.
  fate_cases f Hf.
  match goal with E : i ∉ queued s |- _ => rename E into Hnin end.
  apply (goto_ok s _ i c); [done..| | |].
  - split; [done|]. intros k Hne. repeat split.
    + rewrite (history_snoc k s (EvSend i)) by done. cbn [about]. by rewrite about_ne, app_nil_r.
    + unfold queued. simpl. rewrite assoc_L by apply _. rewrite elem_of_app. intros [?|?%list_elem_of_singleton]; done.
  - unfold queued in *. simpl. rewrite assoc_L by apply _. apply NoDup_app. split; [apply Hok|].
    split; [|apply NoDup_singleton]. intros k Hk ->%list_elem_of_singleton. contradiction.
  - exists Pending. simpl. rewrite (history_snoc i s (EvSend i)) by done. cbn [about]. rewrite Nat.eqb_refl.
    match goal with E : history i s = [] |- _ => rewrite E end. done.
Qed.

Lemma reclaim_ok s i c won s1 pc :
  loop_ok s -> calls s !! i = Some c -> claim i s = (won, s1) ->
  (forall f, fate_ok s i (c_mode c) (c_pc c) f ->
     match f with
     | Pending => exists e, pc = PcReturned e /\ gave_up e
     | InLoop | Ran _ | Failed => fate_ok s i (c_mode c) pc f
     | _ => False
     end) -> loop_ok (goto i pc s1).
Proof.
  intros Hok Hc Hcl Hpc. destruct (lo_calls _ Hok i c Hc) as [f Hf]. specialize (Hpc f Hf). unfold claim in Hcl.
  destruct f; try done; pose proof Hf as Hf'; simpl in Hf'; destruct Hf' as (E1 & E2 & E3); rewrite E1 in Hcl;
    injection Hcl as <- <-; try (apply (goto_same s i c); eauto; fail).
  destruct Hpc as (e & -> & He). apply (goto_ok s _ i c); [done..|apply put_fresh_same|apply Hok|].
  exists (Abandoned e). simpl. rewrite lookup_insert_eq. by destruct E3.
Qed.

Lemma await_ok s i c s' : loop_ok s -> calls s !! i = Some c ->
  (exists g, c_pc c = PcWait g) \/ c_pc c = PcAwait -> await s i = Some s' -> loop_ok s'.
Proof.
  intros Hok Hc Hpc E. unfold await, doneErr in E. destruct (lo_calls _ Hok i c Hc) as [f Hf].
  destruct (jobs s !! i) as [j|] eqn:Ej; [|done]. destruct (j_done j) eqn:Ed; [|done]. injection E as <-.
  apply (goto_same s i c); [done..|]. exists f.
  assert (Hm : c_mode c = RunOnLoop).
  { destruct f; simpl in Hf; decompose [and] Hf; destruct Hpc as [[g Hpc]|Hpc]; rewrite Hpc in *;
      unfold owned_pc, sent_pc in *; naive_solver. }
  destruct f; simpl in Hf |- *; decompose [and] Hf; simplify_eq/=; eauto 10.
  all: destruct Hpc as [[g Hpc]|Hpc]; rewrite Hpc in *; naive_solver.
Qed.

(** The caller moves on and its job keeps its fate. *)
Ltac stay f Hf :=
  eapply goto_same; [eassumption|eassumption|]; exists f; fate_cases f Hf; simpl; unfold owned_pc, sent_pc, gave_up;
  repeat split; eauto 10; naive_solver.

Lemma call_step_ok s i b s' : loop_ok s -> call_step s i b = Some s' -> loop_ok s'.
Proof.
  intros Hok E. unfold call_step in E. destruct (calls s !! i) as [c|] eqn:Hc; [|done].
  destruct (lo_calls _ Hok i c Hc) as [f Hf]. unfold callStep, when in E.
  destruct (c_pc c) eqn:Hpc, b; try done; try (eapply await_ok in E; eauto; fail).
  - case_match; [|done]. injection E as <-. stay f Hf.
  - case_match; [|done]. injection E as <-. by apply inline_ok.
  - case_match; [|done]. injection E as <-. stay f Hf.
  - case_match; [|done]. injection E as <-. by eapply create_ok.
  - case_match eqn:Em; [|done]. case_match; [|done]. injection E as <-. stay f Hf.
  - case_match; [|done]. injection E as <-. by eapply send_ok.
  - case_match eqn:Em; [|done]. case_match; [|done]. injection E as <-. stay f Hf.
  - case_match eqn:Em; [done|]. case_match; [|done]. injection E as <-. stay f Hf.
  - case_match; [|done]. injection E as <-. stay f Hf.
  - case_match; [|done]. injection E as <-. destruct (c_mode c) eqn:Em; stay f Hf.
  - destruct (claim i s) as [won s1] eqn:Ecl. injection E as <-. eapply reclaim_ok; [done..|].
    clear f Hf. intros f Hf. rewrite Hpc in Hf. unfold claim in Ecl.
    destruct f; simpl in Hf |- *; unfold owned_pc, sent_pc, gave_up in *; destruct_and?; simplify_option_eq;
      destruct (c_mode c); naive_solver.
  - case_match; [|done]. injection E as <-. stay f Hf.
  - case_match; [|done]. injection E as <-. stay f Hf.
  - destruct (claim i s) as [won s1] eqn:Ecl. injection E as <-. eapply reclaim_ok; [done..|].
    clear f Hf. intros f Hf. rewrite Hpc in Hf. unfold claim in Ecl.
    destruct f; simpl in Hf |- *; unfold owned_pc, sent_pc, gave_up in *; destruct_and?; simplify_option_eq; naive_solver.
Qed.

Lemma arrive_ok s m onLoop : loop_ok s -> loop_ok (arrive m onLoop s).
Proof.
  intros [Hn Hr Hc]. split; [exact Hn|..].
  - intros i Hi. simpl. rewrite length_app. enough (i < length (calls s))%nat by lia. exact (Hr i Hi).
  - intros i c Hi. simpl in Hi. apply lookup_app_Some in Hi as [Hi|[Hlen Hi]]; [exact (Hc i c Hi)|].
    apply list_lookup_singleton_Some in Hi as [Hi <-].
    assert (Hout : ~ (i < length (calls s))%nat) by lia. exists Fresh. simpl.
    assert (Hno : i ∉ queued s /\ running s i <> true /\ ~ is_Some (jobs s !! i) /\ ~ history i s <> []).
    { repeat split; intros ?; apply Hout, Hr; tauto. }
    destruct Hno as (H1 & H2 & H3 & H4). repeat split; [by apply eq_None_not_Some| |exact H1| |by left].
    + change (history i s = []). destruct (history i s); [done|]. by destruct H4.
    + change (running s i = false). by apply not_true_is_false.
Qed.

Lemma expire_ok s i : loop_ok s -> loop_ok (expire i s).
Proof.
  intros [Hn Hr Hc]. split; [exact Hn| |].
  - intros k Hk. simpl. rewrite length_alter. exact (Hr k Hk).
  - intros k c Hk. simpl in Hk. destruct (decide (k = i)) as [->|Hne].
    + rewrite list_lookup_alter_eq in Hk. destruct (calls s !! i) as [c0|] eqn:Hc0; [|done]. injection Hk as <-. exact (Hc i c0 Hc0).
    + rewrite list_lookup_alter_ne in Hk by done. exact (Hc k c Hk).
Qed.

Lemma boot_ok buf : loop_ok (boot buf).
Proof. split; [constructor| |done]. intros i [?%elem_of_nil|[?|[[? ?]|?]]]; done. Qed.

Lemma loop_reach_ok budget buf s : loop_reach budget buf s -> loop_ok s.
Proof.
  induction 1 as [|s s' _ IH Hm]; [apply boot_ok|].
  destruct Hm; eauto using arrive_ok, expire_ok, call_step_ok, loop_step_ok.
Qed.

(** ** What happens to one caller *)

(** Another goroutine's move leaves a caller where it is. *)
Lemma call_kept budget s s' k c : loop_move budget s s' -> calls s !! k = Some c ->
  exists c', calls s' !! k = Some c' /\ c_mode c' = c_mode c /\ (c_expired c = true -> c_expired c' = true)
    /\ (c_pc c' = c_pc c \/ exists b, call_step s k b = Some s').
Proof.
  assert (Hgoto : forall i pc s1, calls s1 = calls s -> calls s !! k = Some c -> i <> k ->
    exists c', calls (goto i pc s1) !! k = Some c' /\ c_mode c' = c_mode c /\ c_expired c' = c_expired c /\ c_pc c' = c_pc c).
  { intros i pc s1 E Hk Hne. exists c. simpl. by rewrite list_lookup_alter_ne, E. }
  assert (Hclaim : forall j won s1, claim j s = (won, s1) -> calls s1 = calls s).
  { unfold claim. intros j won s1. repeat case_match; naive_solver. }
  intros Hm Hk. destruct Hm as [m onLoop|i|i b s' E|m s' E].
  - exists c. simpl. rewrite lookup_app_l by (by eapply lookup_lt_Some). auto.
  - destruct (decide (i = k)) as [->|Hne]; simpl; [rewrite list_lookup_alter_eq, Hk|rewrite list_lookup_alter_ne, Hk by done];
      eexists; (split; [done|]); simpl; auto.
  - unfold call_step in E. destruct (calls s !! i) as [d|] eqn:Hi; [|done]. destruct (decide (i = k)) as [->|Hne].
    + rewrite Hk in Hi. injection Hi as <-.
      assert (exists pc s1, s' = goto k pc s1 /\ calls s1 = calls s) as (pc & s1 & -> & Es1).
      { unfold callStep, when, await in E. repeat case_match; simplify_option_eq; eauto. }
      eexists. simpl. rewrite list_lookup_alter_eq, Es1, Hk. split; [reflexivity|]. simpl. repeat split; [done|].
      right. exists b. unfold call_step. by rewrite Hk.
    + assert (exists pc s1, s' = goto i pc s1 /\ calls s1 = calls s) as (pc & s1 & -> & Es1).
      { unfold callStep, when, await in E. repeat case_match; simplify_option_eq; eauto. }
      destruct (Hgoto i pc s1 Es1 Hk Hne) as (c' & E1 & E2 & E3 & E4). exists c'. rewrite E3. auto.
  - assert (calls s' = calls s) as ->; [|eauto 6].
    unfold loop_step, recv in E. repeat case_match; simplify_eq; eauto.
    all: simpl; by eauto.
Qed.

Lemma returned_kept budget s s' k c e : rtc (loop_move budget) s s' -> calls s !! k = Some c -> c_pc c = PcReturned e ->
  exists c', calls s' !! k = Some c' /\ c_mode c' = c_mode c /\ c_pc c' = PcReturned e.
Proof.
  intros Hm. revert c. induction Hm as [s|s s1 s' Hm _ IH]; intros c Hk Hpc; [eauto|].
  destruct (call_kept budget s s1 k c Hm Hk) as (c1 & Hk1 & Em & _ & [Epc|[b E]]).
  - destruct (IH c1 Hk1) as (c' & ? & ? & ?); [congruence|]. exists c'. split; [done|]. split; [congruence|done].
  - unfold call_step in E. rewrite Hk in E. unfold callStep in E. rewrite Hpc in E. by destruct b.
Qed.

Lemma reach_rtc budget buf s s' : loop_reach budget buf s -> rtc (loop_move budget) s s' -> loop_reach budget buf s'.
Proof. intros Hr. induction 1; eauto using reach_move. Qed.

(** The moments of a call that its answer speaks of, in every later state: with an error
    of the queue its function has not run and never will, with the function's own
    outcome it ran exactly once and that was its outcome, and a [SubmitLoopJob] that
    was told "queued" has its function run at most once. *)
Definition answer_true (m : Mode) (e : LoopErr) (i : nat) (h : list LoopEvent) : Prop :=
  match e with
  | ErrLoopStopped | ErrLoopQueueFull | ErrContext => h = [] \/ h = [EvSend i]
  | FnReturned o => m = RunOnLoop /\ (h = [EvSend i; EvStart i; EvEnd i o] \/ h = [EvInline i o])
  | Queued => m = SubmitLoopJob /\
      exists o, h `prefix_of` [EvSend i; EvStart i; EvEnd i o] \/ h = [EvInline i o]
  end.

(** C12: a caller of the job queue is told the truth.  Whatever the interleaving of
    callers, expiring contexts, ticks, stops and restarts of the loop: when [RunOnLoop]
    or [SubmitLoopJob] has returned an error of the queue, the function has not run and
    never will; when [RunOnLoop] has returned the function's outcome, it ran exactly
    once and to the end. *)
Theorem run_on_loop_truthful budget buf s s' i c e :
  loop_reach budget buf s -> rtc (loop_move budget) s s' -> calls s !! i = Some c -> c_pc c = PcReturned e ->
  answer_true (c_mode c) e i (history i s').
Proof.
  intros Hr Hs Hi Hpc. destruct (returned_kept budget s s' i c e Hs Hi Hpc) as (c' & Hi' & Em & Hpc').
  destruct (lo_calls _ (loop_reach_ok budget buf s' (reach_rtc _ _ _ _ Hr Hs)) i c' Hi') as [f Hf].
  rewrite Em, Hpc' in Hf. unfold answer_true.
  destruct f; simpl in Hf; unfold owned_pc, sent_pc, gave_up in Hf; destruct_and?; match goal with E : history _ _ = _ |- _ => rewrite E end.
  all: destruct e, (c_mode c); try naive_solver.
  all: split; [done|]; exists FnNil; left; by eexists.
Qed.

(** ** Order *)

Record in_order (buf : nat) (s : Loop) : Prop := {
  io_split : exists passed, sends (trace s) = passed ++ queued s /\ sublist (starts (trace s)) passed;
  io_cap : q_cap (lq s) = buf;
  io_room : (length (q_ch (lq s)) <= buf)%nat }.

Lemma sends_snoc l e : sends (l ++ [e]) = sends l ++ (match e with EvSend j => [j] | _ => [] end).
Proof. unfold sends. rewrite omap_app. by destruct e. Qed.
Lemma starts_snoc l e : starts (l ++ [e]) = starts l ++ (match e with EvStart j => [j] | _ => [] end).
Proof. unfold starts. rewrite omap_app. by destruct e. Qed.

(** Moves that leave the trace and the queue alone, or only add to the trace an event
    that is neither a send nor a start. *)
Lemma in_order_frame buf s s' :
  in_order buf s -> sends (trace s') = sends (trace s) -> starts (trace s') = starts (trace s) ->
  queued s' = queued s -> q_cap (lq s') = q_cap (lq s) -> (length (q_ch (lq s')) <= length (q_ch (lq s)))%nat ->
  in_order buf s'.
Proof. intros [H1 H2 H3] E1 E2 E3 E4 E5. split; rewrite ?E1, ?E2, ?E3, ?E4; [done|done|lia]. Qed.

Lemma claim_frame i s won s1 : claim i s = (won, s1) ->
  calls s1 = calls s /\ trace s1 = trace s /\ lq s1 = lq s /\ lpc s1 = lpc s.
Proof. unfold claim. repeat case_match; naive_solver. Qed.

Lemma in_order_call buf s i b s' : in_order buf s -> call_step s i b = Some s' -> in_order buf s'.
Proof.
  intros Ho E. unfold call_step in E. destruct (calls s !! i) as [c|]; [|done]. unfold callStep, when, await in E.
  destruct (c_pc c), b; try done; try (destruct (claim i s) as [won s1] eqn:Ecl;
    apply claim_frame in Ecl as (_ & E1 & E2 & E3); injection E as <-;
    apply (in_order_frame buf s); try done; unfold queued; simpl; by rewrite ?E1, ?E2, ?E3);
    repeat case_match; simplify_option_eq;
    try (apply (in_order_frame buf s); simpl; rewrite ?sends_snoc, ?starts_snoc, ?app_nil_r; done).
  match goal with H : _ = true |- _ => apply negb_true_iff, Nat.leb_gt in H; rename H into Hroom end.
  destruct Ho as [(passed & Hs & Hsub) Hcap Hlen]. split; simpl.
  - exists passed. rewrite sends_snoc, starts_snoc, app_nil_r, Hs. unfold queued. simpl. by rewrite !app_assoc.
  - done.
  - rewrite length_app. simpl. lia.
Qed.

Lemma in_order_pass buf s s' j rest :
  in_order buf s -> queued s = j :: rest -> queued s' = rest -> lq s' = lq s -> sends (trace s') = sends (trace s) ->
  starts (trace s') = starts (trace s) \/ starts (trace s') = starts (trace s) ++ [j] -> in_order buf s'.
Proof.
  intros [(passed & Hs & Hsub) Hcap Hlen] Eq Eq' Elq Es Est. split; rewrite ?Elq; [|done|done].
  exists (passed ++ [j]). rewrite Es, Hs, Eq, Eq', <- app_assoc. split; [done|].
  destruct Est as [->| ->]; [by apply sublist_inserts_r|by apply sublist_app].
Qed.

Lemma in_order_loop budget buf s m s' : in_order buf s -> loop_step budget s m = Some s' -> in_order buf s'.
Proof.
  intros Ho E. unfold loop_step, recv in E.
  destruct (lpc s) as [| |d|d j|d j| |j] eqn:El, m; try done;
    try (destruct (claim j s) as [won s1] eqn:Ecl; apply claim_frame in Ecl as (_ & E1 & E2 & E3); injection E as <-);
    repeat case_match; simplify_eq;
    try (apply (in_order_frame buf s); unfold queued; simpl; rewrite ?El, ?sends_snoc, ?starts_snoc, ?app_nil_r;
         try match goal with Eq : q_ch _ = _ |- _ => rewrite ?Eq end; try done; simpl; try lia; unfold start; case_match; done).
  all: try destruct (after_held d now) as [Ha _].
  - apply (in_order_pass buf s _ j (q_ch (lq s))); unfold queued; simpl; rewrite ?El, ?E1, ?E2; try done.
    + by rewrite sends_snoc, app_nil_r.
    + right. by rewrite starts_snoc.
  - apply (in_order_pass buf s _ j (q_ch (lq s))); unfold queued; simpl; rewrite ?El, ?Ha, ?E1, ?E2; auto.
  - apply (in_order_frame buf s); unfold queued; simpl; rewrite ?El, ?Ha, ?sends_snoc, ?starts_snoc, ?app_nil_r; done.
  - apply (in_order_pass buf s _ j (q_ch (lq s))); unfold queued; simpl; rewrite ?El, ?E1, ?E2; auto.
  - apply (in_order_pass buf s _ j (q_ch (lq s))); unfold queued; simpl; rewrite ?El, ?E1, ?E2; auto.
Qed.

Lemma loop_reach_in_order budget buf s : loop_reach budget buf s -> in_order buf s.
Proof.
  induction 1 as [|s s' _ IH Hm].
  - split; [exists []; by split|done|simpl; lia].
  - destruct Hm; [..|eauto using in_order_call|eauto using in_order_loop]; by apply (in_order_frame buf s).
Qed.

Lemma sends_about i l : sends (filter (fun e => about i e) l) = filter (fun j => j = i) (sends l).
Proof.
  induction l as [|e l IH]; [done|]. rewrite filter_cons.
  assert (Ec : forall l', sends (e :: l') = (match e with EvSend j => [j] | _ => [] end) ++ sends l') by by destruct e.
  rewrite Ec, filter_app, <- IH. case_decide as Hd; rewrite ?Ec.
  - destruct e as [j|?|?|?]; try done. apply Is_true_true, Nat.eqb_eq in Hd as ->. by rewrite filter_cons_True.
  - destruct e as [j|?|?|?]; try done. rewrite filter_cons_False; [done|]. intros ->. apply Hd, Is_true_true, Nat.eqb_refl.
Qed.

(** A job is sent once. *)
Lemma sends_once budget buf s : loop_reach budget buf s -> NoDup (sends (trace s)).
Proof.
  intros Hr. pose proof (loop_reach_ok budget buf s Hr) as Hok. clear Hr.
  assert (Hone : forall i, (length (filter (fun j => j = i) (sends (trace s))) <= 1)%nat).
  { intros i. pose proof (sends_about i (trace s)) as E. fold (history i s) in E. rewrite <- E. clear E.
    destruct (calls s !! i) as [c|] eqn:Hi.
    - destruct (lo_calls _ Hok i c Hi) as [f Hf]. destruct f; simpl in Hf; destruct_and?;
        match goal with Eh : history _ _ = _ |- _ => rewrite Eh end; simpl; lia.
    - apply lookup_ge_None in Hi. destruct (history i s) eqn:Eh; [simpl; lia|].
      pose proof (lo_range _ Hok i) as Hrg. rewrite Eh in Hrg. enough (i < length (calls s))%nat by lia. apply Hrg. naive_solver. }
  induction (sends (trace s)) as [|j l IH]; [constructor|]. constructor.
  - intros Hin. specialize (Hone j). rewrite filter_cons_True in Hone by done. cbn [length] in Hone.
    assert (j ∈ filter (fun j' => j' = j) l) as Hf by by apply list_elem_of_filter.
    rewrite (nil_length_inv (filter (fun j' => j' = j) l)) in Hf by lia. by apply elem_of_nil in Hf.
  - apply IH. intros i. specialize (Hone i). rewrite filter_cons in Hone. case_decide; cbn [length] in Hone; lia.
Qed.

(** The loop runs the jobs it runs in the order in which they were queued, each at
    most once, and the channel never holds more than its capacity. *)
Theorem jobs_run_in_order budget buf s :
  loop_reach budget buf s ->
  sublist (starts (trace s)) (sends (trace s)) /\ NoDup (starts (trace s)) /\ (length (q_ch (lq s)) <= buf)%nat.
Proof.
  intros Hr. destruct (loop_reach_in_order budget buf s Hr) as [(passed & Hs & Hsub) _ Hlen].
  assert (Hord : sublist (starts (trace s)) (sends (trace s))) by (rewrite Hs; by apply sublist_inserts_r).
  split; [done|]. split; [|done]. eapply sublist_NoDup; [by eapply sends_once|done].
Qed.

(** ** Nobody waits for a loop that has gone *)

(** What a caller can no longer be held up by: its gate has closed, its context has
    expired, it never blocks, or it is past the point where it could. *)
Definition released (s : Loop) (c : Call) : bool :=
  match c_pc c with
  | PcGate g | PcSend g | PcRecheck g | PcReclaim g | PcWait g => gateClosed (lq s) g
  | PcStart => false
  | PcGiveUp _ | PcAwait | PcReturned _ => true
  end || match c_mode c with RunOnLoop => c_expired c | SubmitLoopJob => true end.

(** The steps a caller has left, at most. *)
Definition remaining (pc : CallPc) : nat :=
  match pc with
  | PcStart => 8 | PcGate _ => 7 | PcSend _ => 6 | PcRecheck _ => 5 | PcReclaim _ => 4 | PcWait _ => 3
  | PcGiveUp _ => 2 | PcAwait => 1 | PcReturned _ => 0
  end.

Lemma call_advances s i c b s' : calls s !! i = Some c -> call_step s i b = Some s' ->
  exists c', calls s' !! i = Some c' /\ (remaining (c_pc c') < remaining (c_pc c))%nat
    /\ (released s c = true -> released s' c' = true)
    /\ q_gate (lq s') = q_gate (lq s) /\ q_closed (lq s') = q_closed (lq s).
Proof.
  intros Hi E. unfold call_step in E. rewrite Hi in E. unfold callStep, when, await in E. unfold released.
  destruct (c_pc c) eqn:Hpc, b; try done;
    try (destruct (claim i s) as [won s1] eqn:Ecl; apply claim_frame in Ecl as (E1 & _ & E2 & _); injection E as <-);
    repeat case_match; simplify_option_eq; eexists; simpl; rewrite list_lookup_alter_eq, ?E1, ?E2, Hi;
    (split; [reflexivity|]); simpl; rewrite ?E2; (split; [lia|]); repeat split; try done;
    repeat match goal with Em : c_mode c = _ |- _ => rewrite Em end; try done; intros Hx; rewrite ?Hx, ?orb_true_r; try done;
    by match goal with Hg : gateClosed _ _ = true |- _ => rewrite Hg end.
Qed.

(** A closed gate stays closed, whatever happens. *)
Lemma gate_stays budget s s' g : loop_move budget s s' -> gateClosed (lq s) g = true -> gateClosed (lq s') g = true.
Proof.
  intros Hm Hg.
  assert (Hq : q_gate (lq s') = q_gate (lq s) /\ (q_closed (lq s) = true -> q_closed (lq s') = true)
               \/ q_gate (lq s') = S (q_gate (lq s))).
  { destruct Hm as [m onLoop|i|i b s' E|m s' E]; [by left|by left| |].
    - destruct (calls s !! i) as [c|] eqn:Hi; [|unfold call_step in E; by rewrite Hi in E].
      destruct (call_advances s i c b s' Hi E) as (_ & _ & _ & _ & Eg & Ec). left. by rewrite Ec.
    - unfold loop_step, recv in E. destruct (lpc s), m; try done;
        try (destruct (claim _ s) as [won s1] eqn:Ecl; apply claim_frame in Ecl as (_ & _ & E2 & _); injection E as <-);
        repeat case_match; simplify_eq; simpl; rewrite ?E2; auto.
      unfold start. destruct (q_closed (lq s)) eqn:Eclosed; simpl; naive_solver. }
  revert Hg. unfold gateClosed. rewrite !orb_true_iff, !andb_true_iff, !Nat.ltb_lt, !Nat.eqb_eq.
  destruct Hq as [[-> Hc]| ->]; [tauto|]. intros [?|[-> _]]; left; lia.
Qed.

Lemma released_enabled s i c :
  loop_ok s -> calls s !! i = Some c -> (forall e, c_pc c <> PcReturned e) -> released s c = true -> running s i = false ->
  exists b, is_Some (call_step s i b).
Proof.
  intros Hok Hi Hnr Hrel Hrun. destruct (lo_calls _ Hok i c Hi) as [f Hf].
  unfold call_step. rewrite Hi. unfold callStep, when. unfold released in Hrel. destruct (c_pc c) eqn:Hpc.
  - destruct (c_onLoop c); [exists (BrInline FnNil)|exists BrNext]; by eexists.
  - destruct (gateClosed (lq s) gate); [exists BrGate|exists BrDefault]; by eexists.
  - destruct (gateClosed (lq s) gate), (c_mode c), (full (lq s)); simpl in Hrel;
      first [exists BrGate; by eexists|exists BrSend; by eexists|exists BrDefault; by eexists
            |exists BrCtx; rewrite Hrel; by eexists].
  - destruct (gateClosed (lq s) gate); [exists BrGate|exists BrDefault]; by eexists.
  - exists BrNext. destruct (claim i s). by eexists.
  - destruct (gateClosed (lq s) gate); [exists BrGate; by eexists|].
    destruct (c_mode c) eqn:Em; [exists BrCtx; simpl in Hrel; rewrite Hrel; by eexists|]. fate_cases f Hf.
  - exists BrNext. destruct (claim i s). by eexists.
  - exists BrDone. unfold await, doneErr. fate_cases f Hf; try congruence;
      match goal with E : jobs s !! i = _ |- _ => rewrite E end; by eexists.
  - by destruct (Hnr e).
Qed.

Lemma released_stays budget s s' i c : loop_move budget s s' -> calls s !! i = Some c -> released s c = true ->
  exists c', calls s' !! i = Some c' /\ released s' c' = true
    /\ (c_pc c' = c_pc c \/ (remaining (c_pc c') < remaining (c_pc c))%nat).
Proof.
  intros Hm Hi Hrel. destruct (call_kept budget s s' i c Hm Hi) as (c' & Hi' & Em & Hexp & Hpc).
  destruct Hpc as [Epc|[b E]].
  - exists c'. split; [done|]. split; [|by left]. revert Hrel. unfold released. rewrite Epc, Em.
    rewrite !orb_true_iff. intros [Hg|Hx]; [left|right; destruct (c_mode c); auto].
    destruct (c_pc c); eauto using gate_stays.
  - destruct (call_advances s i c b s' Hi E) as (c1 & Hi1 & Hlt & Hkeep & _). exists c1. auto.
Qed.

(** C26: nobody is left waiting for a loop that has gone.  A caller whose run of the loop
    has stopped or whose context has expired - and every [SubmitLoopJob] - always has a
    step to take, unless the loop is running its function at that moment; no step of
    anyone else sets it back, and eight of its own bring its answer. *)
Theorem released_calls_return budget buf s i c :
  loop_reach budget buf s -> calls s !! i = Some c -> (forall e, c_pc c <> PcReturned e) -> released s c = true ->
  (running s i = false -> exists b s', call_step s i b = Some s')
  /\ (forall s', loop_move budget s s' -> exists c', calls s' !! i = Some c' /\ released s' c' = true
       /\ (c_pc c' = c_pc c \/ (remaining (c_pc c') < remaining (c_pc c))%nat))
  /\ (forall b s', call_step s i b = Some s' -> exists c', calls s' !! i = Some c'
       /\ (remaining (c_pc c') < remaining (c_pc c))%nat)
  /\ (remaining (c_pc c) <= 8)%nat.
Proof.
  intros Hr Hi Hnr Hrel. split; [|split; [|split]].
  - intros Hrun. destruct (released_enabled s i c (loop_reach_ok _ _ _ Hr) Hi Hnr Hrel Hrun) as (b & s' & E). eauto.
  - intros s' Hm. exact (released_stays budget s s' i c Hm Hi Hrel).
  - intros b s' E. destruct (call_advances s i c b s' Hi E) as (c' & Hi' & Hlt & _). eauto.
  - destruct (c_pc c); simpl; lia.
Qed.

(** ** Runs *)

Inductive Act := AArrive (m : Mode) (onLoop : bool) | AExpire (i : nat) | ACall (i : nat) (b : Branch) | ALoop (m : LoopMove).

Definition act (budget : Z) (s : Loop) (a : Act) : option Loop :=
  match a with
  | AArrive m onLoop => Some (arrive m onLoop s)
  | AExpire i => Some (expire i s)
  | ACall i b => call_step s i b
  | ALoop m => loop_step budget s m
  end.

Definition exec (budget : Z) (l : list Act) (s : Loop) : Loop :=
  fold_left (fun s a => default s (act budget s a)) l s.

Lemma exec_rtc budget l s : rtc (loop_move budget) s (exec budget l s).
Proof.
  revert s. induction l as [|a l IH]; intros s; [done|]. simpl. destruct (act budget s a) as [s1|] eqn:E; [|apply IH].
  eapply rtc_l; [|apply IH]. destruct a; simpl in *; simplify_eq; [constructor..|econstructor 3|econstructor 4]; exact E.
Qed.

Lemma exec_reach budget buf l : loop_reach budget buf (exec budget l (boot buf)).
Proof. eapply reach_rtc; [constructor|apply exec_rtc]. Qed.

(** The context of call 0 expires between the loop's receive and its claim. *)
Definition abandoned_run : list Act :=
  [ALoop MvRun; AArrive RunOnLoop false; ACall 0 BrNext; ACall 0 BrDefault; ACall 0 BrSend; ACall 0 BrDefault;
   ALoop (MvDrain 0); ALoop MvTake; AExpire 0; ACall 0 BrCtx; ACall 0 BrNext].

Lemma run_on_loop_truthful_witness :
  let s := exec 8 abandoned_run (boot 64) in
  let s' := exec 8 [ALoop (MvClaim 1); ALoop MvEmpty; ALoop MvCancel] s in
  (c_pc <$> calls s !! 0%nat) = Some (PcReturned ErrContext) /\ lpc s = LoopTaken 8 0 /\
  (history 0 s' = [] \/ history 0 s' = [EvSend 0]).
Proof.
  intros s s'. split; [reflexivity|]. split; [reflexivity|].
  exact (run_on_loop_truthful 8 64 s s' 0 (mkCall RunOnLoop false true (PcReturned ErrContext)) ErrContext
           (exec_reach 8 64 abandoned_run) (exec_rtc 8 _ s) eq_refl eq_refl).
Defined.

(** Two jobs on one drain, of two callers. *)
Definition two_jobs : list Act :=
  [ALoop MvRun; AArrive RunOnLoop false; AArrive SubmitLoopJob false; ACall 1 BrNext; ACall 1 BrDefault; ACall 1 BrSend;
   ACall 0 BrNext; ACall 0 BrDefault; ACall 0 BrSend; ALoop (MvDrain 0); ALoop MvTake; ALoop (MvClaim 1);
   ALoop (MvFinish FnNil 2); ALoop MvTake; ALoop (MvClaim 3)].

Lemma jobs_run_in_order_witness :
  let s := exec 8 two_jobs (boot 64) in
  starts (trace s) = [1; 0]%nat /\ sublist (starts (trace s)) (sends (trace s)) /\ NoDup (starts (trace s))
  /\ (length (q_ch (lq s)) <= 64)%nat.
Proof. intros s. split; [reflexivity|]. apply (jobs_run_in_order 8 64 s), exec_reach. Defined.

(** The loop stops while call 0 waits and before its job is taken. *)
Definition stopped_run : list Act :=
  [ALoop MvRun; AArrive RunOnLoop false; ACall 0 BrNext; ACall 0 BrDefault; ACall 0 BrSend; ACall 0 BrDefault; ALoop MvCancel].

Lemma released_calls_return_witness :
  let s := exec 8 stopped_run (boot 64) in
  (c_pc <$> calls s !! 0%nat) = Some (PcWait 0) /\ exists b s', call_step s 0 b = Some s'.
Proof.
  intros s. split; [reflexivity|].
  apply (released_calls_return 8 64 s 0 (mkCall RunOnLoop false false (PcWait 0)) (exec_reach 8 64 _) eq_refl);
    [discriminate|reflexivity|reflexivity].
Defined.

(** ** A job that was queued and is not *)

Lemma settled_kept budget s s' i e : loop_ok s -> loop_move budget s s' ->
  jobs s !! i = Some (mkJob true true e) -> jobs s' !! i = Some (mkJob true true e).
Proof.
  intros Hok Hm Hj.
  assert (Hcl : forall j won s1, claim j s = (won, s1) -> jobs s1 !! i = jobs s !! i /\ (won = true -> i <> j)).
  { unfold claim. intros j won s1 E. repeat case_match; simplify_eq; try done. simpl. destruct (decide (i = j)) as [->|Hne].
    - rewrite Hj in *. by simplify_eq.
    - by rewrite lookup_insert_ne. }
  destruct Hm as [m onLoop|k|k b s' E|m s' E]; [done..| |].
  - unfold call_step in E. destruct (calls s !! k) as [c|] eqn:Hk; [|done]. unfold callStep, when, await in E.
    destruct (c_pc c) eqn:Hpc, b; try done;
      try (destruct (claim k s) as [won s1] eqn:Ecl; apply Hcl in Ecl as [Ej _]; injection E as <-; simpl; by rewrite Ej);
      repeat case_match; simplify_option_eq; try done.
    simpl. rewrite lookup_insert_ne; [done|]. intros ->. destruct (lo_calls _ Hok i c Hk) as [f Hf]. rewrite Hpc in Hf.
    fate_cases f Hf.
  - unfold loop_step, recv in E. destruct (lpc s) as [| |d|d j|d j| |j] eqn:El, m; try done;
      try (destruct (claim j s) as [won s1] eqn:Ecl; apply Hcl in Ecl as [Ej Hne]; injection E as <-);
      repeat case_match; simplify_eq; simpl; rewrite ?Ej; try done;
      try (rewrite lookup_insert_ne by auto; by rewrite ?Ej).
    2: rewrite lookup_insert_ne by naive_solver; congruence.
    rewrite lookup_insert_ne; [done|]. intros ->. destruct (fate_of s i Hok) as (c & _ & [f Hf]);
      [apply Hok; right; left; unfold running; rewrite El; apply Nat.eqb_refl|].
    destruct f; simpl in Hf; unfold running in Hf; rewrite El, Nat.eqb_refl in Hf; destruct_and?; congruence.
Qed.

(** Between the send of [SubmitLoopJob] and its second look at the gate the stopping
    loop may have taken the job and failed it; the claim is then lost to the loop, and
    the answer is "queued". *)
Definition submit_race : list Act :=
  [ALoop MvRun; AArrive SubmitLoopJob false; ACall 0 BrNext; ACall 0 BrDefault; ACall 0 BrSend; ALoop MvCancel;
   ALoop MvStopTake; ALoop MvStopClaim; ALoop MvStopEmpty; ACall 0 BrGate; ACall 0 BrNext].

(** A job reported as queued on a loop that has stopped, and that never runs. *)
Lemma submit_reports_failed_job :
  let s := exec 8 submit_race (boot 64) in
  (c_pc <$> calls s !! 0%nat) = Some (PcReturned Queued) /\ lpc s = LoopOff /\ q_closed (lq s) = true
  /\ jobs s !! 0%nat = Some (mkJob true true ErrLoopStopped)
  /\ forall s', rtc (loop_move 8) s s' -> history 0 s' = [EvSend 0].
Proof.
  intros s. do 4 (split; [reflexivity|]). intros s' Hs.
  assert (Hj : jobs s !! 0%nat = Some (mkJob true true ErrLoopStopped)) by reflexivity.
  assert (Hr : loop_reach 8 64 s) by apply exec_reach. clearbody s.
  assert (Hj' : jobs s' !! 0%nat = Some (mkJob true true ErrLoopStopped)).
  { induction Hs as [s|s s1 s' Hm _ IH]; [done|]. apply IH; [|by eapply reach_move].
    eapply settled_kept; eauto using loop_reach_ok. }
  pose proof (loop_reach_ok 8 64 s' (reach_rtc _ _ _ _ Hr Hs)) as Hok.
  destruct (fate_of s' 0 Hok) as (c & _ & [f Hf]); [apply Hok; rewrite Hj'; eauto|].
  unfold fate_ok, newJob in Hf. destruct f; destruct_and?; congruence.
Qed.
