(* ===== verification/GameLoop.v ===== *)
(** * The fixed-timestep loop of a cell (pkg/engine/loop.go, tick_schedule.go, engine.go,
    pkg/universe/cluster_clock.go)

    What a tick rate is turned into, the cluster-wide grid of ticks, the batches in which
    removed entities are announced to clients, and the list of systems a running loop may
    gain, lose or swap.  The job queue is LoopQueue.v. *)

From S2P Require Import Prelude Float32.

(** ** The schedule of a tick rate *)

Definition defaultTickPeriodMs : Z := 50.
Definition maxTickRate : Z := 1000.
(** Durations are nanoseconds. *)
Definition Millisecond : Z := 1000000.
Definition maxDrainBudget : Z := 8 * Millisecond.

Record tickSchedule := mkSchedule {
  Rate : Z; PeriodMs : Z; Period : Z; Dt : f32; Exact : bool; Clamped : bool; DrainBudget : Z; SlowJobThreshold : Z }.

(** Go's division of integers truncates; here both operands are positive. *)
Definition newTickSchedule (tickRate : Z) : tickSchedule :=
  let '(period, exact, clamped) :=
    if tickRate <=? 0 then (defaultTickPeriodMs, false, true)
    else if maxTickRate <? tickRate then (1, false, true)
    else let p := u64 (i64 (2000 + tickRate) / i64 (2 * tickRate)) in
         (if p <? 1 then 1 else p, 1000 mod tickRate =? 0, false) in
  let d := i64 (period * Millisecond) in
  let budget := d / 4 in
  let budget := if maxDrainBudget <? budget then maxDrainBudget else budget in
  let budget := if budget <? Millisecond then Millisecond else budget in
  mkSchedule tickRate period d (f32_div (f32_of_int period) (f32_of_int 1000)) exact clamped budget (budget / 2).

Definition TickIntervalMs (tickRate : Z) : Z := PeriodMs (newTickSchedule tickRate).

Lemma schedule_period r : 0 < r <= maxTickRate -> PeriodMs (newTickSchedule r) = (2000 + r) / (2 * r).
Proof.
  unfold maxTickRate. intros Hr. unfold newTickSchedule, PeriodMs, maxTickRate.
  destruct (Z.leb_spec r 0); [lia|]. destruct (Z.ltb_spec 1000 r); [lia|].
  assert (E1 : i64 (2000 + r) = 2000 + r) by (unfold i64; rewrite Z.mod_small; lia).
  assert (E2 : i64 (2 * r) = 2 * r) by (unfold i64; rewrite Z.mod_small; lia). rewrite E1, E2.
  assert (Hq : 1 <= (2000 + r) / (2 * r) <= 2000).
  { split; [apply Z.div_le_lower_bound; lia|apply Z.div_le_upper_bound; nia]. }
  unfold u64. rewrite Z.mod_small by lia. destruct (Z.ltb_spec ((2000 + r) / (2 * r)) 1); lia.
Qed.

Lemma schedule_clamped r : Clamped (newTickSchedule r) = (r <=? 0) || (maxTickRate <? r).
Proof. unfold newTickSchedule. destruct (r <=? 0), (maxTickRate <? r); done. Qed.

Lemma schedule_period_range r : 1 <= PeriodMs (newTickSchedule r) <= 1000.
Proof.
  destruct (Z.leb_spec r 0) as [Hr|Hr]; [|destruct (Z.ltb_spec maxTickRate r) as [Hm|Hm]].
  - unfold newTickSchedule. destruct (Z.leb_spec r 0); [done|lia].
  - unfold newTickSchedule. destruct (Z.leb_spec r 0); [lia|]. destruct (Z.ltb_spec maxTickRate r); [done|lia].
  - rewrite schedule_period by lia. unfold maxTickRate in Hm.
    split; [apply Z.div_le_lower_bound; lia|apply Z.lt_succ_r, Z.div_lt_upper_bound; nia].
Qed.

(** Every tick rate has a usable schedule.  The period is between 1 and 1000
    milliseconds; for a rate in range no whole number of milliseconds is nearer to
    1000/rate, and the schedule is marked exact when it is reached; the allowance of
    the job queue is between 1 and 8 milliseconds and never exceeds the period. *)
Theorem schedule_nearest r :
  let s := newTickSchedule r in
  1 <= PeriodMs s <= 1000 /\ Period s = PeriodMs s * Millisecond
  /\ (Clamped s = false -> (forall p, Z.abs (1000 - PeriodMs s * r) <= Z.abs (1000 - p * r))
                           /\ (Exact s = true <-> PeriodMs s * r = 1000))
  /\ Millisecond <= DrainBudget s <= maxDrainBudget /\ DrainBudget s <= Period s.
Proof.
  intros s. pose proof (schedule_period_range r) as Hp. fold s in Hp.
  assert (Hper : Period s = PeriodMs s * Millisecond).
  { assert (E : Period s = i64 (PeriodMs s * Millisecond)).
    { unfold s, newTickSchedule. by destruct (r <=? 0), (maxTickRate <? r). }
    rewrite E. unfold i64, Millisecond. rewrite Z.mod_small; lia. }
  assert (Hbud : DrainBudget s = Z.max Millisecond (Z.min maxDrainBudget (Period s / 4))).
  { unfold s, newTickSchedule. destruct (if r <=? 0 then _ else _) as [[period exact] clamped]. cbn [DrainBudget Period].
    repeat case_match; lia. }
  split; [done|]. split; [done|]. split.
  - rewrite (schedule_clamped r : Clamped s = _), orb_false_iff, Z.leb_gt, Z.ltb_ge. intros Hr.
    pose proof (schedule_period r) as E. specialize (E ltac:(lia)). fold s in E.
    pose proof (Z.div_mod (2000 + r) (2 * r) ltac:(lia)) as Hdm.
    pose proof (Z.mod_pos_bound (2000 + r) (2 * r) ltac:(lia)) as Hmod. rewrite <- E in Hdm.
    assert (Hnear : 2 * Z.abs (1000 - PeriodMs s * r) <= r) by nia.
    split.
    + intros p. destruct (Z.eq_dec p (PeriodMs s)) as [->|Hne]; [lia|]. nia.
    + assert (Ex : Exact s = (1000 mod r =? 0)).
      { unfold s, newTickSchedule. destruct (Z.leb_spec r 0); [lia|]. by destruct (Z.ltb_spec maxTickRate r); [lia|]. }
      rewrite Ex, Z.eqb_eq. split; [|intros <-; apply Z.mod_mul; lia].
      intros Hd%Z.mod_divide; [|lia]. destruct Hd as [k Hk].
      assert (Ek : PeriodMs s = k); [|by rewrite Ek]. rewrite Hk in Hnear.
      destruct (Z.lt_trichotomy k (PeriodMs s)) as [?|[?|?]]; [|done|]; exfalso; nia.
  - rewrite Hbud, Hper. unfold maxDrainBudget, Millisecond.
    assert (PeriodMs s * 1000000 / 4 <= PeriodMs s * 1000000) by (apply Z.div_le_upper_bound; lia). lia.
Qed.

(** ** The grid of ticks

    [now] is [ClusterClock.Now], a [uint64] of milliseconds. *)

Definition ClusterTick (now tickIntervalMs : Z) : Z := if tickIntervalMs =? 0 then 0 else now / tickIntervalMs.
Definition TickTime (now tickIntervalMs : Z) : Z := u64 (ClusterTick now tickIntervalMs * tickIntervalMs).

(** With the period of any tick rate, the stamp of a sample is the last multiple of
    the period at or before the clock: two cells that read the clock within the same
    tick window stamp alike, and the stamps of consecutive windows are one period
    apart. *)
Theorem tick_grid now r : 0 <= now < 2 ^ 64 ->
  let p := TickIntervalMs r in
  0 <= now - TickTime now p < p /\ TickTime now p mod p = 0
  /\ (now + p < 2 ^ 64 -> TickTime (now + p) p = TickTime now p + p)
  /\ (forall now', 0 <= now' < 2 ^ 64 -> ClusterTick now' p = ClusterTick now p -> TickTime now' p = TickTime now p).
Proof.
  intros Hn p. pose proof (schedule_period_range r) as Hp. fold (TickIntervalMs r) in Hp. fold p in Hp. clearbody p.
  assert (Ht : forall n, 0 <= n < 2 ^ 64 -> TickTime n p = n / p * p).
  { intros n Hr. unfold TickTime, ClusterTick. destruct (Z.eqb_spec p 0); [lia|]. unfold u64.
    rewrite Z.mod_small; [reflexivity|]. pose proof (Z.mul_div_le n p ltac:(lia)).
    pose proof (Z.mul_nonneg_nonneg (n / p) p (Z.div_pos n p ltac:(lia) ltac:(lia)) ltac:(lia)). lia. }
  rewrite Ht by done. split; [|split; [|split]].
  - pose proof (Z.div_mod now p ltac:(lia)). pose proof (Z.mod_pos_bound now p). lia.
  - apply Z.mod_mul. lia.
  - intros Hw. rewrite Ht by lia. replace (now + p) with (now + 1 * p) by lia. rewrite Z.div_add by lia. lia.
  - intros now' Hr. rewrite Ht by done. unfold ClusterTick. destruct (Z.eqb_spec p 0); [lia|]. by intros ->.
Qed.

Lemma tick_grid_witness : 0 <= 1234567 < 2 ^ 64 /\ TickTime 1234567 (TickIntervalMs 20) mod TickIntervalMs 20 = 0.
Proof. split; [done|]. exact (proj1 (proj2 (tick_grid 1234567 20 ltac:(lia)))). Defined.

(** ** Announcing removals

    The batch a consumer samples is frozen until the next tick begins; removals that come
    later wait in the next batch. *)

Record Removals := mkRemovals { RemovedNetIDs : list Z; nextRemovedNetIDs : list Z; removalsSampled : bool }.

Definition no_removals : Removals := mkRemovals [] [] false.

Definition BeginRemovalTick (e : Removals) : Removals :=
  if removalsSampled e then mkRemovals (nextRemovedNetIDs e) [] false
  else mkRemovals (RemovedNetIDs e) (nextRemovedNetIDs e) false.

Definition SampleRemovedNetIDs (e : Removals) : Removals * list Z :=
  (mkRemovals (RemovedNetIDs e) (nextRemovedNetIDs e) true, RemovedNetIDs e).

Definition publishRemovedNetID (e : Removals) (netID : Z) : Removals :=
  if removalsSampled e then mkRemovals (RemovedNetIDs e) (nextRemovedNetIDs e ++ [netID]) true
  else mkRemovals (RemovedNetIDs e ++ [netID]) (nextRemovedNetIDs e) false.

(** What happens within a tick, in any order: removals and samples. *)
Inductive TickOp := Removed (netID : Z) | Sampled.

Definition tick_op (acc : Removals * list (list Z)) (o : TickOp) : Removals * list (list Z) :=
  match o with
  | Removed n => (publishRemovedNetID acc.1 n, acc.2)
  | Sampled => let '(e, l) := SampleRemovedNetIDs acc.1 in (e, acc.2 ++ [l])
  end.

(** One tick: the state after it, and the batch each sample saw. *)
Definition tick_ops (e : Removals) (ops : list TickOp) : Removals * list (list Z) :=
  fold_left tick_op ops (BeginRemovalTick e, []).

Definition removed_in (ops : list TickOp) : list Z := omap (fun o => match o with Removed n => Some n | Sampled => None end) ops.

(** Ticks in a row: the state, and the batch of each tick that was sampled. *)
Fixpoint ticks (e : Removals) (l : list (list TickOp)) : Removals * list (list Z) :=
  match l with
  | [] => (e, [])
  | ops :: l => let '(e, seen) := tick_ops e ops in let '(e, batches) := ticks e l in
                (e, match head seen with Some b => b :: batches | None => batches end)
  end.

(** What no consumer has seen yet. *)
Definition unannounced (e : Removals) : list Z :=
  if removalsSampled e then nextRemovedNetIDs e else RemovedNetIDs e ++ nextRemovedNetIDs e.

Definition removals_ok (e : Removals) : Prop := removalsSampled e = false -> nextRemovedNetIDs e = [].

Lemma tick_op_spec ops : forall e seen, removals_ok e ->
  let '(e', seen') := fold_left tick_op ops (e, seen) in
  removals_ok e' /\
  (removalsSampled e = true -> exists n, seen' = seen ++ repeat (RemovedNetIDs e) n /\ removalsSampled e' = true
     /\ nextRemovedNetIDs e' = nextRemovedNetIDs e ++ removed_in ops) /\
  (removalsSampled e = false -> (seen' = seen /\ unannounced e' = unannounced e ++ removed_in ops) \/
     exists b n, seen' = seen ++ repeat b (S n) /\ b ++ unannounced e' = unannounced e ++ removed_in ops).
Proof.
  induction ops as [|o ops IH]; intros e seen Hok; cbn [fold_left].
  - split; [done|]. split; [intros Hs; exists 0%nat; by rewrite !app_nil_r|]. intros _. left. by rewrite app_nil_r.
  - destruct o as [n|]; cbn [tick_op].
    + specialize (IH (publishRemovedNetID e n) seen). destruct (fold_left tick_op ops _) as [e' seen'].
      destruct IH as (Hok' & H1 & H2); [unfold removals_ok, publishRemovedNetID in *; by destruct (removalsSampled e)|].
      split; [done|]. unfold publishRemovedNetID in H1, H2. destruct (removalsSampled e) eqn:Es; simpl in H1, H2; split; try done.
      * intros _. destruct (H1 eq_refl) as (k & -> & ? & ->). exists k. rewrite <- app_assoc. done.
      * intros _. assert (Ep : unannounced (mkRemovals (RemovedNetIDs e ++ [n]) (nextRemovedNetIDs e) false) = unannounced e ++ [n]).
        { unfold unannounced. rewrite Es. simpl. by rewrite (Hok Es), !app_nil_r. }
        rewrite Ep, <- app_assoc in H2. destruct (H2 eq_refl) as [?|(b & k & ? & ?)]; [by left|right; by exists b, k].
    + specialize (IH (mkRemovals (RemovedNetIDs e) (nextRemovedNetIDs e) true) (seen ++ [RemovedNetIDs e])).
      cbn [SampleRemovedNetIDs fst snd]. destruct (fold_left tick_op ops _) as [e' seen']. destruct IH as (Hok' & H1 & _); [done|].
      destruct (H1 eq_refl) as (k & -> & Hs' & Hn). simpl in Hn. split; [done|]. split.
      * intros Hs. exists (S k). by rewrite <- app_assoc.
      * intros Hs. right. exists (RemovedNetIDs e), k. rewrite <- app_assoc. split; [done|].
        unfold unannounced. rewrite Hs', Hs, Hn, (Hok Hs), app_nil_r. done.
Qed.

Lemma tick_ops_spec e ops : removals_ok e ->
  let '(e', seen) := tick_ops e ops in
  removals_ok e' /\ (forall b, b ∈ seen -> Some b = head seen)
  /\ default [] (head seen) ++ unannounced e' = unannounced e ++ removed_in ops.
Proof.
  intros Hok. unfold tick_ops. pose proof (tick_op_spec ops (BeginRemovalTick e) []) as H.
  destruct (fold_left _ _ _) as [e' seen]. assert (Hb : removals_ok (BeginRemovalTick e)).
  { unfold removals_ok, BeginRemovalTick in *. by destruct (removalsSampled e); simpl; auto. }
  assert (Hu : unannounced (BeginRemovalTick e) = unannounced e /\ removalsSampled (BeginRemovalTick e) = false).
  { unfold unannounced, BeginRemovalTick. destruct (removalsSampled e); simpl; by rewrite ?app_nil_r. }
  destruct Hu as [Hu Hs]. destruct (H Hb) as (Hok' & _ & Hcase). split; [done|].
  destruct (Hcase Hs) as [[-> E]|(b & n & -> & E)]; rewrite Hu in E; split; try done.
  - intros b ?%elem_of_nil. done.
  - intros c Hc. simpl in Hc |- *. apply elem_of_cons in Hc as [->|Hc]; [done|].
    apply list_elem_of_In, repeat_spec in Hc. by subst.
Qed.

(** No removal is lost, announced twice or out of order.  Over any number of ticks,
    with removals and samples in any order within each, the batches sampled and what is
    still unannounced are exactly the removals, in their order; and the consumers that
    sample in one tick all see the same batch. *)
Theorem removals_announced_once e l : removals_ok e ->
  let '(e', batches) := ticks e l in
  removals_ok e' /\ concat batches ++ unannounced e' = unannounced e ++ concat (map removed_in l)
  /\ forall pre ops, pre ++ [ops] `prefix_of` l ->
       forall b b', b ∈ (tick_ops (ticks e pre).1 ops).2 -> b' ∈ (tick_ops (ticks e pre).1 ops).2 -> b = b'.
Proof.
  revert e. induction l as [|ops l IH]; intros e Hok; cbn [ticks].
  - split; [done|]. split; [by rewrite app_nil_r|]. intros pre ops [k Hk]. by destruct pre.
  - pose proof (tick_ops_spec e ops Hok) as Ht. destruct (tick_ops e ops) as [e1 seen] eqn:Et.
    destruct Ht as (Hok1 & Hsame & Hcons). specialize (IH e1 Hok1). destruct (ticks e1 l) as [e' batches].
    destruct IH as (Hok' & Hall & Hpre). split; [done|]. split.
    + cbn [map concat]. rewrite app_assoc, <- Hcons, <- app_assoc, <- Hall. destruct (head seen); simpl; by rewrite ?app_assoc.
    + intros pre ops' [k Hk]. destruct pre as [|x pre]; simpl in Hk; injection Hk as <- Hk.
      * cbn [ticks fst]. rewrite Et. cbn [snd]. intros b b' Hb%Hsame Hb'%Hsame. congruence.
      * cbn [ticks]. rewrite Et. destruct (ticks e1 pre) as [e2 bs] eqn:E2. cbn [fst].
        intros b b'. specialize (Hpre pre ops'). rewrite E2 in Hpre. apply Hpre. by exists k.
Qed.

Lemma removals_announced_once_witness :
  removals_ok no_removals /\
  let '(e', batches) := ticks no_removals [[Removed 5; Sampled; Removed 6]; [Removed 7]; [Sampled; Removed 8; Sampled]] in
  concat batches ++ unannounced e' = [5; 6; 7; 8].
Proof.
  split; [done|].
  exact (proj1 (proj2 (removals_announced_once no_removals
    [[Removed 5; Sampled; Removed 6]; [Removed 7]; [Sampled; Removed 8; Sampled]] (fun _ => eq_refl)))).
Defined.

(** ** Systems of a running loop

    Three slices that the loop walks by one index. *)

Section Systems.
Context {S : Type}.

Record GameLoop := mkGameLoop { systems : list S; systemNames : list string; sysTimings : list Z }.

(** The index of the first [name], where Go's range loop stops. *)
Fixpoint nameIndex (name : string) (l : list string) : option nat :=
  match l with
  | [] => None
  | n :: l => if String.eqb n name then Some 0%nat else Datatypes.S <$> nameIndex name l
  end.

Definition NewGameLoop (sys : list S) (names : list string) : GameLoop :=
  mkGameLoop sys names (replicate (length sys) 0).

Definition AddSystemLive (name : string) (s : S) (gl : GameLoop) : GameLoop :=
  mkGameLoop (systems gl ++ [s]) (systemNames gl ++ [name]) (replicate (length (systems gl ++ [s])) 0).

(** [append(l[:i], l[i+1:]...)]; [None] is the panic of an index out of range. *)
Definition cut {A} (i : nat) (l : list A) : option (list A) :=
  if (i <? length l)%nat then Some (take i l ++ drop (i + 1) l) else None.

Definition RemoveSystemLive (name : string) (gl : GameLoop) : option (GameLoop * bool) :=
  match nameIndex name (systemNames gl) with
  | None => Some (gl, false)
  | Some i =>
      match cut i (systems gl), cut i (systemNames gl) with
      | Some sys, Some names => Some (mkGameLoop sys names (replicate (length sys) 0), true)
      | _, _ => None
      end
  end.

Definition SystemByName (name : string) (gl : GameLoop) : option S :=
  match nameIndex name (systemNames gl) with Some i => systems gl !! i | None => None end.

Definition ReplaceSystemLive (name : string) (s : S) (gl : GameLoop) : GameLoop * bool :=
  match nameIndex name (systemNames gl) with
  | None => (gl, false)
  | Some i => (mkGameLoop (<[i := s]> (systems gl)) (systemNames gl) (sysTimings gl), true)
  end.

(** The same, on one list of named systems. *)
Definition named (gl : GameLoop) : list (string * S) := zip (systemNames gl) (systems gl).

Fixpoint drop_named (name : string) (l : list (string * S)) : list (string * S) :=
  match l with [] => [] | x :: l => if String.eqb x.1 name then l else x :: drop_named name l end.
Fixpoint swap_named (name : string) (s : S) (l : list (string * S)) : list (string * S) :=
  match l with [] => [] | x :: l => if String.eqb x.1 name then (name, s) :: l else x :: swap_named name s l end.
Fixpoint find_named (name : string) (l : list (string * S)) : option S :=
  match l with [] => None | x :: l => if String.eqb x.1 name then Some x.2 else find_named name l end.

Record parallel (gl : GameLoop) : Prop := {
  par_names : length (systemNames gl) = length (systems gl);
  par_timings : length (sysTimings gl) = length (systems gl) }.

Lemma nameIndex_find name names (sys : list S) : length names = length sys ->
  match nameIndex name names with
  | Some i => (i < length sys)%nat /\ names !! i = Some name /\ find_named name (zip names sys) = sys !! i
              /\ drop_named name (zip names sys) = zip (take i names ++ drop (i + 1) names) (take i sys ++ drop (i + 1) sys)
              /\ forall s, swap_named name s (zip names sys) = zip names (<[i := s]> sys)
  | None => find_named name (zip names sys) = None /\ drop_named name (zip names sys) = zip names sys
            /\ forall s, swap_named name s (zip names sys) = zip names sys
  end.
Proof.
  revert sys. induction names as [|n names IH]; intros [|x sys] Hl; try done. simpl in Hl. injection Hl as Hl.
  simpl. destruct (String.eqb_spec n name) as [->|Hne].
  - simpl. rewrite !drop_0. repeat split; lia.
  - specialize (IH sys Hl). destruct (nameIndex name names) as [i|]; simpl.
    + destruct IH as (H1 & H2 & H3 & H4 & H5). repeat split; [lia|done|done|by rewrite H4|intros s; by rewrite H5].
    + destruct IH as (H1 & H2 & H3). repeat split; [done|by rewrite H2|intros s; by rewrite H3].
Qed.

(** The systems of a running loop behave as one list of named systems.  The three
    slices stay parallel, so the loop never walks off the end of one; adding appends,
    removing and replacing act on the first system of the name and keep the order of the
    rest, removing never panics, and a lookup finds the first of its name. *)
Theorem live_systems_refine gl name s : parallel gl ->
  (parallel (AddSystemLive name s gl) /\ named (AddSystemLive name s gl) = named gl ++ [(name, s)])
  /\ (exists gl' b, RemoveSystemLive name gl = Some (gl', b) /\ parallel gl' /\ named gl' = drop_named name (named gl)
        /\ b = bool_decide (is_Some (find_named name (named gl))))
  /\ (parallel (ReplaceSystemLive name s gl).1 /\ named (ReplaceSystemLive name s gl).1 = swap_named name s (named gl)
        /\ (ReplaceSystemLive name s gl).2 = bool_decide (is_Some (find_named name (named gl))))
  /\ SystemByName name gl = find_named name (named gl).
Proof.
  intros [Hn Ht]. pose proof (nameIndex_find name (systemNames gl) (systems gl) Hn) as Hf.
  split; [|split; [|split]].
  - split; [split; simpl; rewrite ?length_replicate, ?length_app; simpl; lia|]. unfold named. simpl.
    by rewrite zip_with_app.
  - unfold RemoveSystemLive, cut. destruct (nameIndex name (systemNames gl)) as [i|] eqn:Ei.
    + destruct Hf as (Hi & _ & Hfind & Hdrop & _). rewrite Hn. destruct (Nat.ltb_spec i (length (systems gl))); [|lia].
      eexists _, _. split; [reflexivity|]. split; [split; simpl; rewrite ?length_replicate, ?length_app, ?length_take, ?length_drop; lia|].
      split; [done|]. unfold named. rewrite Hfind. symmetry. apply bool_decide_eq_true, lookup_lt_is_Some, Hi.
    + destruct Hf as (Hfind & Hdrop & _). eexists _, _. split; [reflexivity|]. split; [done|]. unfold named.
      rewrite Hfind, Hdrop. done.
  - unfold ReplaceSystemLive. destruct (nameIndex name (systemNames gl)) as [i|] eqn:Ei.
    + destruct Hf as (Hi & _ & Hfind & _ & Hswap). unfold named. simpl. rewrite Hswap, Hfind.
      split; [split; simpl; rewrite length_insert; done|]. split; [done|]. symmetry. apply bool_decide_eq_true, lookup_lt_is_Some, Hi.
    + destruct Hf as (Hfind & _ & Hswap). unfold named. rewrite Hswap, Hfind. done.
  - unfold SystemByName, named. destruct (nameIndex name (systemNames gl)) as [i|]; [by destruct Hf as (_ & _ & -> & _)|].
    by destruct Hf as (-> & _).
Qed.
End Systems.
Arguments GameLoop : clear implicits.

Lemma live_systems_refine_witness :
  let gl := NewGameLoop [10; 20; 30] ["physics"; "lifetime"; "physics"]%string in
  parallel gl /\ SystemByName "physics" (ReplaceSystemLive "physics" 11 gl).1 = Some 11
  /\ (exists gl' b, RemoveSystemLive "physics" gl = Some (gl', b) /\ named gl' = [("lifetime"%string, 20); ("physics"%string, 30)]).
Proof.
  intros gl. assert (H : parallel gl) by by split. split; [done|]. split; [reflexivity|].
  destruct (live_systems_refine gl "physics" 0 H) as (_ & (gl' & b & E & _ & En & _) & _). exists gl', b. by split.
Defined.
