(* ===== verification/Rebalance.v ===== *)
(** * When the coordinator moves a cell to another host (pkg/universe/rebalance.go)

    The loop looks at the load of the hosts every few seconds and migrates one cell off a
    host that has been overloaded for long enough.  The clock, the load samples and the
    answer of [BeginMigrate] are arguments; so are the orders in which the maps are
    walked, and the theorems hold for each of them. *)

From S2P Require Import Prelude Float32 CellId Topology CellTransfer GameLoop.


(** The settings of [PartitionConfig] the loop reads; durations are nanoseconds. *)
Record RebalanceConfig := mkRebalanceConfig {
  AutoRebalance : bool;
  RebalanceLoadThreshold : f64;
  RebalanceSustainTime : Z;
  RebalanceMinDelta : f64;
  RebalanceCooldown : Z;
  RebalanceMaxConcurrent : Z }.

(** What the loop reads of a [metrics.LoadSnapshot]. *)
Record LoadSnapshot := mkLoadSnapshot { CompositeLoad : f64; Real : Z; Replica : Z; Ghost : Z }.

Record cellLoadRow := mkRow { rowCellID : CellID; CellKey : string; rowLoad : f64; Entities : Z }.

Record hostLoad := mkHostLoad { HostID : string; Load : f64; CellCount : Z; Cells : list cellLoadRow }.

Record rebalanceLoop := mkLoop {
  firstOverload : gmap string Z;
  lastMigration : option Z;       (* [None] is the zero time *)
  inflight : Z;
  migrationsFired : Z }.

Definition newRebalanceLoop : rebalanceLoop := mkLoop ∅ None 0 0.

(** ** Helpers *)

Definition zeroCell : CellID := mkCellID 0 0 0.

Definition cell_row (snapshots : gmap string LoadSnapshot) (cellKey : string) : cellLoadRow :=
  let id := default zeroCell (ParseCellID (str cellKey)) in
  match snapshots !! cellKey with
  | Some snap => mkRow id cellKey (CompositeLoad snap) (i64 (i64 (Real snap + Replica snap) + Ghost snap))
  | None => mkRow id cellKey (S754_zero false) 0
  end.

Definition add_cell (snapshots : gmap string LoadSnapshot) (out : gmap string hostLoad) (kv : string * string)
  : gmap string hostLoad :=
  let '(cellKey, hostID) := kv in
  let hl := default (mkHostLoad hostID (S754_zero false) 0 []) (out !! hostID) in
  let load := match snapshots !! cellKey with Some snap => f64_add (Load hl) (CompositeLoad snap) | None => Load hl end in
  <[hostID := mkHostLoad (HostID hl) load (CellCount hl + 1) (Cells hl ++ [cell_row snapshots cellKey])]> out.

(** [owners] is the cell-to-host map in the order of the range. *)
Definition aggregateByHost (snapshots : gmap string LoadSnapshot) (owners : list (string * string)) : gmap string hostLoad :=
  fold_left (add_cell snapshots) owners ∅.

(** Whether [c] takes the place of [best]. *)
Definition heavier (c best : cellLoadRow) : bool :=
  if f64_lt (rowLoad best) (rowLoad c) then true
  else if f64_lt (rowLoad c) (rowLoad best) then false
  else if Entities best <? Entities c then true
  else if Entities c <? Entities best then false
  else String.ltb (CellKey c) (CellKey best).

Definition pickHeaviestCell (cells : list cellLoadRow) : option cellLoadRow :=
  match cells with
  | [] => None
  | c :: rest => Some (fold_left (fun best c => if heavier c best then c else best) rest c)
  end.

Definition consider (src : hostLoad) (srcID : string) (minDelta : f64) (best : string * f64) (e : string * hostLoad)
  : string * f64 :=
  let '(id, hl) := e in
  if String.eqb id srcID then best
  else
    let delta := f64_sub (Load src) (Load hl) in
    if f64_lt delta minDelta then best
    else if f64_lt best.2 delta then (id, delta)
    else if f64_eq delta best.2 && String.ltb id best.1 then (id, best.2)
    else best.

Definition minusOne : f64 := f64_of_int (-1).

(** [order] is the hosts in the order of the range. *)
Definition pickTargetHost (hosts : gmap string hostLoad) (order : list (string * hostLoad)) (srcID : string) (minDelta : f64)
  : string * f64 :=
  match hosts !! srcID with
  | None => (""%string, S754_zero false)
  | Some src =>
      let best := fold_left (consider src srcID minDelta) order (""%string, minusOne) in
      if String.eqb best.1 "" then (""%string, S754_zero false) else best
  end.

(** ** One pass *)

(** Hosts that are gone or no longer overloaded are forgotten, those newly overloaded are
    noted with the time. *)
Definition track (threshold : f64) (now : Z) (hosts : gmap string hostLoad) (first : gmap string Z) : gmap string Z :=
  map_imap (fun id hl => if f64_le threshold (Load hl) then Some (default now (first !! id)) else None) hosts.

Definition sustained_le (hosts : gmap string hostLoad) (a b : string) : Prop :=
  match hosts !! a, hosts !! b with
  | Some x, Some y => if f64_eq (Load x) (Load y) then String.leb a b = true else f64_lt (Load y) (Load x) = true
  | _, _ => True
  end.
#[export] Instance sustained_le_dec hosts : RelDecision (sustained_le hosts).
Proof. intros a b. unfold sustained_le. repeat case_match; apply _. Defined.

(** [sort.Slice] followed by the first element. *)
Definition mostOverloaded (hosts : gmap string hostLoad) (l : list string) : option string :=
  head (merge_sort (sustained_le hosts) l).

Record Pass := mkPass {
  gateNow : Z; now : Z;                       (* the two readings of the clock *)
  snapshots : gmap string LoadSnapshot;
  owners : list (string * string);
  hostOrder : list (string * hostLoad);
  accepted : bool }.                          (* what [BeginMigrate] answers *)

(** What the pass asked of the migrator. *)
Record Migration := mkMigration { mg_cell : CellID; mg_key : string; mg_src : string; mg_target : string }.

Definition maxConcurrent (cfg : RebalanceConfig) : Z :=
  if RebalanceMaxConcurrent cfg <=? 0 then 1 else RebalanceMaxConcurrent cfg.

Definition gate (cfg : RebalanceConfig) (rl : rebalanceLoop) (t : Z) : bool :=
  AutoRebalance cfg && negb (maxConcurrent cfg <=? inflight rl)
  && negb (match lastMigration rl with Some last => t - last <? RebalanceCooldown cfg | None => false end).

Definition set_first (rl : rebalanceLoop) (first : gmap string Z) : rebalanceLoop :=
  mkLoop first (lastMigration rl) (inflight rl) (migrationsFired rl).

Definition sustainedHosts (cfg : RebalanceConfig) (t : Z) (first : gmap string Z) : list string :=
  (filter (fun e => RebalanceSustainTime cfg <= t - e.2) (map_to_list first)).*1.

(** The move the pass decides on, if any. *)
Definition choose (cfg : RebalanceConfig) (p : Pass) (hosts : gmap string hostLoad) (first : gmap string Z)
  : option Migration :=
  match mostOverloaded hosts (sustainedHosts cfg (now p) first) with
  | None => None
  | Some id =>
      match hosts !! id with
      | None => None
      | Some src =>
          match pickHeaviestCell (Cells src) with
          | None => None
          | Some donor =>
              let target := (pickTargetHost hosts (hostOrder p) (HostID src) (RebalanceMinDelta cfg)).1 in
              if String.eqb target "" then None
              else Some (mkMigration (rowCellID donor) (CellKey donor) (HostID src) target)
          end
      end
  end.

Definition evaluate (cfg : RebalanceConfig) (rl : rebalanceLoop) (p : Pass) : rebalanceLoop * option Migration :=
  if negb (gate cfg rl (gateNow p)) then (rl, None)
  else if bool_decide (snapshots p = ∅) || bool_decide (owners p = []) then (rl, None)
  else
    let hosts := aggregateByHost (snapshots p) (owners p) in
    if (size hosts <? 2)%nat then (rl, None)
    else
      let first := track (RebalanceLoadThreshold cfg) (now p) hosts (firstOverload rl) in
      let rl := set_first rl first in
      match choose cfg p hosts first with
      | None => (rl, None)
      | Some m =>
          if accepted p
          then (mkLoop first (Some (now p)) (inflight rl + 1) (migrationsFired rl + 1), Some m)
          else (rl, Some m)
      end.

(** The side goroutine of a migration that has settled. *)
Definition watchRequest (rl : rebalanceLoop) : rebalanceLoop :=
  mkLoop (firstOverload rl) (lastMigration rl) (if 0 <? inflight rl then inflight rl - 1 else inflight rl) (migrationsFired rl).
