(* ===== verification/RebalanceSafety.v ===== *)
(** * What the rebalance loop promises

    A migration is asked for only when everything that is meant to hold it back is
    satisfied; the cell and the target are the best ones, whatever order the maps are
    walked in.  Two runs show what the guards do not prevent. *)

From S2P Require Import Prelude Float32 CellId Topology CellTransfer GameLoop Rebalance.

(** ** Orders *)

Lemma ascii_compare_lt a b : Ascii.compare a b = Lt <-> (Ascii.N_of_ascii a < Ascii.N_of_ascii b)%N.
Proof. apply N.compare_lt_iff. Qed.

Lemma ascii_compare_refl a : Ascii.compare a a = Eq.
Proof. apply N.compare_refl. Qed.

Lemma string_compare_refl a : String.compare a a = Eq.
Proof. induction a as [|x a IH]; [done|]. simpl. by rewrite ascii_compare_refl. Qed.

Lemma string_lt_irrefl a : String.ltb a a = false.
Proof. unfold String.ltb. by rewrite string_compare_refl. Qed.

Lemma string_lt_total a b : a <> b -> String.ltb a b = negb (String.ltb b a).
Proof.
  intros Hne. unfold String.ltb. rewrite (String.compare_antisym b a).
  destruct (String.compare a b) eqn:E; try done. by apply String.compare_eq_iff in E.
Qed.

Lemma string_lt_trans a b c : String.ltb a b = true -> String.ltb b c = true -> String.ltb a c = true.
Proof.
  unfold String.ltb. revert b c. induction a as [|x a IH]; intros [|y b] [|z c]; simpl; try done.
  destruct (Ascii.compare x y) eqn:E1, (Ascii.compare y z) eqn:E2; try done;
    try (apply Ascii.compare_eq_iff in E1 as ->); try (apply Ascii.compare_eq_iff in E2 as ->); rewrite ?E1, ?E2; try done.
  - rewrite ascii_compare_refl. apply IH.
  - apply ascii_compare_lt in E1. apply ascii_compare_lt in E2.
    by rewrite (proj2 (ascii_compare_lt x z)) by (by etrans).
Qed.

Lemma f64_lt_key x y : is_nan x = false -> is_nan y = false -> f64_lt x y = true <-> key_lt (fkey x) (fkey y).
Proof. apply SFltb_key. Qed.

Lemma f64_lt_nan_r x y : is_nan y = true -> f64_lt x y = false.
Proof. destruct x as [[]|[]| |[] m e], y as [[]|[]| |[] m' e']; try done. Qed.

Lemma f64_eq_key x y : is_nan x = false -> is_nan y = false -> f64_eq x y = true <-> fkey x = fkey y.
Proof.
  unfold f64_eq, SFeqb.
  destruct x as [[]|[]| |[] m e], y as [[]|[]| |[] m' e']; simpl; try done; intros _ _;
    try (split; [done|intros ?; by simplify_eq]);
    change (Pos.compare_cont Eq m m') with (Pos.compare m m');
    destruct (Z.compare_spec e e'); simpl; try (destruct (Pos.compare_spec m m')); simpl;
    split; intros ?; simplify_eq; try done; lia.
Qed.

(** ** The best of a list *)

Section Best.
Context {A : Type} `{EqDecision A} (better : A -> A -> bool) (ok : A -> Prop).
Hypothesis better_trans : forall x y z, ok x -> ok y -> ok z -> better x y = true -> better y z = true -> better x z = true.
Hypothesis better_total : forall x y, ok x -> ok y -> x <> y -> better x y = true \/ better y x = true.

Definition best (a : A) (l : list A) : A := fold_left (fun b c => if better c b then c else b) l a.

Lemma best_spec l : forall a, Forall ok (a :: l) ->
  best a l ∈ a :: l /\ Forall (fun x => x = best a l \/ better (best a l) x = true) (a :: l).
Proof.
  induction l as [|c l IH]; intros a Hok; unfold best in *; cbn [fold_left].
  - split; [by left|]. constructor; [by left|done].
  - apply Forall_cons in Hok as [Ha [Hc Hl]%Forall_cons].
    assert (Hkeep : forall w loser, (w = a /\ loser = c \/ w = c /\ loser = a) -> (loser = w \/ better w loser = true) ->
      let r := fold_left (fun b c => if better c b then c else b) l w in
      r ∈ a :: c :: l /\ Forall (fun x => x = r \/ better r x = true) (a :: c :: l)).
    { intros w loser Hw Hlose r. destruct (IH w) as [Hin Hall]; [constructor; [by destruct Hw as [[-> _]|[-> _]]|done]|]. fold r in Hin, Hall.
      assert (Hokr : ok r) by (apply elem_of_cons in Hin as [->|Hin]; [by destruct Hw as [[-> _]|[-> _]]|by eapply Forall_forall]).
      pose proof Hall as [Hw' Hl']%Forall_cons.
      assert (Hlr : loser = r \/ better r loser = true).
      { destruct Hw' as [<-|Hr]; [done|]. destruct Hlose as [->|Hlose]; [by right|]. right.
        apply (better_trans r w loser); try done; by destruct Hw as [[-> ->]|[-> ->]]. }
      split; [destruct Hw as [[-> _]|[-> _]]; apply elem_of_cons in Hin as [->|]; set_solver|].
      destruct Hw as [[-> ->]|[-> ->]]; repeat apply Forall_cons_2; done. }
    destruct (better c a) eqn:E.
    + apply (Hkeep c a); [by right|by right].
    + apply (Hkeep a c); [by left|]. destruct (better a c) eqn:E2; [by right|]. left.
      destruct (decide (c = a)) as [|Hne]; [done|]. destruct (better_total c a) as [?|?]; congruence || done.
Qed.
End Best.

(** ** The cell that goes *)

#[export] Instance spec_float_eq_dec : EqDecision spec_float.
Proof. solve_decision. Defined.
#[export] Instance cellLoadRow_eq_dec : EqDecision cellLoadRow.
Proof. solve_decision. Defined.

Definition row_ok (r : cellLoadRow) : Prop := is_nan (rowLoad r) = false.

Lemma key_lt_total a b : key_lt a b \/ key_lt b a \/ a = b.
Proof.
  destruct a as [[a1 a2] a3], b as [[b1 b2] b3]. unfold key_lt. simpl.
  destruct (Z.lt_trichotomy a1 b1) as [?|[->|?]]; [lia| |lia].
  destruct (Z.lt_trichotomy a2 b2) as [?|[->|?]]; [lia| |lia].
  destruct (Z.lt_trichotomy a3 b3) as [?|[->|?]]; [lia|auto|lia].
Qed.

(** What [heavier] compares, as one lexicographic order. *)
Lemma heavier_spec x y : row_ok x -> row_ok y -> heavier x y = true <->
  key_lt (fkey (rowLoad y)) (fkey (rowLoad x)) \/
  fkey (rowLoad x) = fkey (rowLoad y) /\
    (Entities y < Entities x \/ Entities x = Entities y /\ String.ltb (CellKey x) (CellKey y) = true).
Proof.
  intros Hx Hy. unfold heavier.
  destruct (f64_lt (rowLoad y) (rowLoad x)) eqn:E1.
  { apply f64_lt_key in E1; [|done..]. split; [by left|done]. }
  destruct (f64_lt (rowLoad x) (rowLoad y)) eqn:E2.
  { apply f64_lt_key in E2; [|done..]. split; [done|]. unfold key_lt in *. intros [?|[E _]]; [lia|]. rewrite E in E2. lia. }
  assert (Ek : fkey (rowLoad x) = fkey (rowLoad y)).
  { destruct (key_lt_total (fkey (rowLoad x)) (fkey (rowLoad y))) as [Hk|[Hk|Hk]]; [| |done];
      apply f64_lt_key in Hk; try done; congruence. }
  assert (Hirr : ~ key_lt (fkey (rowLoad y)) (fkey (rowLoad x))) by (rewrite Ek; unfold key_lt; lia).
  destruct (Z.ltb_spec (Entities y) (Entities x)); [split; [by right; auto|done]|].
  destruct (Z.ltb_spec (Entities x) (Entities y)); [split; [done|]; intros [?|[_ [?|[? _]]]]; [done|lia..]|].
  split; [intros Hk; right; split; [done|]; right; split; [lia|done]|]. intros [?|[_ [?|[_ ?]]]]; [done|lia|done].
Qed.

Lemma heavier_trans x y z : row_ok x -> row_ok y -> row_ok z -> heavier x y = true -> heavier y z = true -> heavier x z = true.
Proof.
  intros Hx Hy Hz. rewrite !heavier_spec by done. unfold key_lt.
  intros [H1|[E1 H1]] [H2|[E2 H2]]; rewrite ?E1, <- ?E2 in *; [left; lia|by left|left; lia|].
  right. split; [done|]. destruct H1 as [?|[? H1]], H2 as [?|[? H2]]; [left; lia..|].
  right. split; [lia|]. by eapply string_lt_trans.
Qed.

Lemma heavier_total x y : row_ok x -> row_ok y -> CellKey x <> CellKey y -> heavier x y = true \/ heavier y x = true.
Proof.
  intros Hx Hy Hk. rewrite !heavier_spec by done.
  destruct (key_lt_total (fkey (rowLoad x)) (fkey (rowLoad y))) as [?|[?|Ek]]; [by right; left|by left; left|].
  destruct (Z.lt_trichotomy (Entities x) (Entities y)) as [?|[Ee|?]]; [by right; right; auto| |by left; right; auto].
  pose proof (string_lt_total (CellKey x) (CellKey y) Hk) as Ht.
  destruct (String.ltb (CellKey y) (CellKey x)) eqn:E; [right|left]; right; split; auto.
Qed.

Lemma heavier_asym x y : row_ok x -> row_ok y -> heavier x y = true -> heavier y x = true -> False.
Proof.
  intros Hx Hy H1 H2. pose proof (heavier_trans x y x Hx Hy Hx H1 H2) as H. apply heavier_spec in H; [|done..].
  unfold key_lt in H. rewrite string_lt_irrefl in H. destruct H as [?|[_ [?|[_ ?]]]]; [lia|lia|done].
Qed.

(** The cell that leaves an overloaded host is its heaviest, ties broken by entities
    and then by name, in whatever order the host's cells are listed. *)
Theorem heaviest_cell_exact l r : Forall row_ok l -> NoDup (CellKey <$> l) ->
  pickHeaviestCell l = Some r <-> r ∈ l /\ Forall (fun x => x = r \/ heavier r x = true) l.
Proof.
  intros Hok Hnd. destruct l as [|a l]; [split; [done|intros [?%elem_of_nil _]; done]|].
  assert (Htot : forall x y, row_ok x /\ x ∈ a :: l -> row_ok y /\ y ∈ a :: l -> x <> y -> heavier x y = true \/ heavier y x = true).
  { intros x y [Hx Hxi] [Hy Hyi] Hne. apply heavier_total; [done..|]. intros Ek. apply Hne.
    apply list_elem_of_lookup in Hxi as [i Hi]. apply list_elem_of_lookup in Hyi as [j Hj].
    assert (i = j) as ->; [|congruence]. eapply (NoDup_lookup (CellKey <$> (a :: l))); [done|rewrite list_lookup_fmap, Hi; done|].
    rewrite list_lookup_fmap, Hj. simpl. by rewrite Ek. }
  assert (Hall : Forall (fun x => row_ok x /\ x ∈ a :: l) (a :: l)).
  { apply Forall_forall. intros x Hx. split; [by eapply Forall_forall|done]. }
  destruct (best_spec heavier (fun x => row_ok x /\ x ∈ a :: l)
    (fun x y z Hx Hy Hz => heavier_trans x y z (proj1 Hx) (proj1 Hy) (proj1 Hz)) Htot l a Hall) as [Hin Hbest].
  change (pickHeaviestCell (a :: l)) with (Some (best heavier a l)). set (b := best heavier a l) in *. split.
  - intros [= <-]. by split.
  - intros [Hr Hrb]. f_equal. rewrite Forall_forall in Hbest, Hrb, Hok.
    destruct (Hbest r Hr) as [->|H1]; [done|]. destruct (Hrb b Hin) as [->|H2]; [done|].
    destruct (heavier_asym b r); auto.
Qed.

Lemma heaviest_cell_exact_witness :
  let r k w := mkRow zeroCell k (f64_of_int w) 3 in
  let l := [r "b"%string 2; r "a"%string 2; r "c"%string 1] in
  Forall row_ok l /\ NoDup (CellKey <$> l) /\ pickHeaviestCell l = Some (r "a"%string 2) /\ r "a"%string 2 ∈ l.
Proof.
  intros r l. assert (H1 : Forall row_ok l) by (repeat constructor).
  assert (H2 : NoDup (CellKey <$> l)) by (apply (bool_decide_unpack _); vm_compute; done).
  assert (E : pickHeaviestCell l = Some (r "a"%string 2)) by (vm_compute; reflexivity).
  split; [done|]. split; [done|]. split; [done|]. exact (proj1 (proj1 (heaviest_cell_exact l _ H1 H2) E)).
Defined.

(** ** Hosts *)

(** A host the loop knows has a cell, and each of its rows is a cell it owns. *)
Definition host_ok (owners : list (string * string)) (id : string) (hl : hostLoad) : Prop :=
  HostID hl = id /\ Cells hl <> [] /\ Forall (fun r => (CellKey r, id) ∈ owners) (Cells hl).

Lemma aggregate_ok snaps owners id hl :
  aggregateByHost snaps owners !! id = Some hl -> host_ok owners id hl.
Proof.
  unfold aggregateByHost.
  assert (H : forall l out, (forall id hl, out !! id = Some hl -> host_ok owners id hl) -> l ⊆ owners ->
    fold_left (add_cell snaps) l out !! id = Some hl -> host_ok owners id hl).
  { induction l as [|[k h] l IH]; intros out Hout Hsub; [apply Hout|]. apply IH; [|set_solver]. clear IH hl id.
    intros id hl. unfold add_cell. destruct (decide (id = h)) as [->|Hne].
    - rewrite lookup_insert_eq. intros [= <-]. destruct (out !! h) as [hl|] eqn:E; simpl.
      + destruct (Hout h hl E) as (H1 & H2 & H3). split; [done|]. split; [by destruct (Cells hl)|].
        apply Forall_app. split; [done|]. repeat constructor. unfold cell_row. case_match; simpl; set_solver.
      + split; [done|]. split; [done|]. repeat constructor. unfold cell_row. case_match; simpl; set_solver.
    - rewrite lookup_insert_ne by done. apply Hout. }
  apply H; [|done]. intros ? ? ?. by rewrite lookup_empty in *.
Qed.

(** ** The host that takes it *)

Definition delta (src hl : hostLoad) : f64 := f64_sub (Load src) (Load hl).

Definition qualifies (src : hostLoad) (srcID : string) (minDelta : f64) (id : string) (hl : hostLoad) : Prop :=
  id <> srcID /\ f64_lt (delta src hl) minDelta = false.

(** The running best is a host already seen that qualifies and is not beaten, or none
    qualifies so far. *)
Definition target_inv (src : hostLoad) (srcID : string) (minDelta : f64) (seen : list (string * hostLoad)) (b : string * f64)
  : Prop :=
  (b = (""%string, minusOne) /\ forall id hl, (id, hl) ∈ seen -> ~ qualifies src srcID minDelta id hl)
  \/ exists hl, (b.1, hl) ∈ seen /\ qualifies src srcID minDelta b.1 hl /\ fkey b.2 = fkey (delta src hl)
       /\ is_nan b.2 = false
       /\ forall id hl', (id, hl') ∈ seen -> qualifies src srcID minDelta id hl' -> f64_lt (delta src hl) (delta src hl') = false.

Lemma consider_inv src srcID minDelta seen b id hl :
  is_nan minDelta = false -> f64_lt minusOne minDelta = true -> is_nan (delta src hl) = false ->
  (forall id hl, (id, hl) ∈ seen -> is_nan (delta src hl) = false) ->
  target_inv src srcID minDelta seen b -> target_inv src srcID minDelta (seen ++ [(id, hl)]) (consider src srcID minDelta b (id, hl)).
Proof.
  intros Hm Hneg Hd Hseen Hinv. unfold consider. fold (delta src hl).
  assert (Hskip : ~ qualifies src srcID minDelta id hl -> target_inv src srcID minDelta (seen ++ [(id, hl)]) b).
  { intros Hq. destruct Hinv as [[-> Hno]|(h & H1 & H2 & H3 & H4 & H5)]; [left; split; [done|]|right; exists h].
    - intros i h [?|[= -> ->]%list_elem_of_singleton]%elem_of_app; eauto.
    - split; [set_solver|]. do 3 (split; [done|]). intros i h' [?|[= -> ->]%list_elem_of_singleton]%elem_of_app; eauto. done. }
  destruct (String.eqb_spec id srcID) as [->|Hne]; [apply Hskip; by intros []|].
  destruct (f64_lt (delta src hl) minDelta) eqn:El; [apply Hskip; intros [_ Hq]; congruence|].
  assert (Hq : qualifies src srcID minDelta id hl) by by split.
  destruct (f64_lt b.2 (delta src hl)) eqn:Eb.
  - right. exists hl. simpl. split; [set_solver|]. do 3 (split; [done|]).
    intros i h' [Hin|[= -> ->]%list_elem_of_singleton]%elem_of_app Hq'.
    + destruct Hinv as [[-> Hno]|(h & H1 & H2 & H3 & H4 & H5)]; [by destruct (Hno i h' Hin)|].
      apply not_true_is_false. intros Hlt%f64_lt_key; [|done|by eapply Hseen].
      apply f64_lt_key in Eb; [|done..]. rewrite H3 in Eb. specialize (H5 i h' Hin Hq').
      apply not_true_iff_false in H5. apply H5, f64_lt_key; [by eapply Hseen..|]. unfold key_lt in *. lia.
    + apply not_true_is_false. intros Hlt%f64_lt_key; [|done..]. unfold key_lt in Hlt. lia.
  - destruct Hinv as [[-> Hno]|(h & H1 & H2 & H3 & H4 & H5)].
    { exfalso. simpl in Eb. apply not_true_iff_false in El, Eb. rewrite f64_lt_key in El, Eb, Hneg by done.
      destruct (key_lt_total (fkey (delta src hl)) (fkey minDelta)) as [?|[?|E]]; unfold key_lt in *;
        rewrite ?E in *; lia. }
    assert (Hbeat : f64_lt (delta src h) (delta src hl) = false).
    { apply not_true_is_false. rewrite f64_lt_key by eauto. apply not_true_iff_false in Eb. rewrite f64_lt_key in Eb by done.
      by rewrite <- H3. }
    destruct (f64_eq (delta src hl) b.2 && String.ltb id b.1) eqn:Ee.
    + apply andb_true_iff in Ee as [Ee _]. apply f64_eq_key in Ee; [|done..]. right. exists hl. simpl.
      split; [set_solver|]. do 3 (split; [done|]). intros i h' [Hin|[= -> ->]%list_elem_of_singleton]%elem_of_app Hq'.
      * specialize (H5 i h' Hin Hq'). apply not_true_iff_false in H5. apply not_true_is_false. intros Hlt. apply H5.
        rewrite f64_lt_key in Hlt |- * by eauto. by rewrite <- H3, <- Ee.
      * apply not_true_is_false. intros Hlt%f64_lt_key; [|done..]. unfold key_lt in Hlt. lia.
    + right. exists h. split; [set_solver|]. do 3 (split; [done|]).
      intros i h' [?|[= -> ->]%list_elem_of_singleton]%elem_of_app Hq'; eauto.
Qed.

Lemma f64_sub_not_nan x y : is_fin x = true -> is_fin y = true -> is_nan (f64_sub x y) = false.
Proof.
  destruct x as [s|s| |s m e], y as [s'|s'| |s' m' e']; try done; intros _ _; simpl.
  - by destruct s, s'.
  - apply normalize_not_nan.
Qed.

Definition finite_loads (hosts : gmap string hostLoad) : Prop := forall id hl, hosts !! id = Some hl -> is_fin (Load hl) = true.

Lemma target_spec hosts order srcID src minDelta t :
  order ≡ₚ map_to_list hosts -> hosts !! srcID = Some src -> finite_loads hosts ->
  is_nan minDelta = false -> f64_lt minusOne minDelta = true ->
  (pickTargetHost hosts order srcID minDelta).1 = t -> t <> ""%string ->
  exists dst, hosts !! t = Some dst /\ qualifies src srcID minDelta t dst
    /\ forall id hl, hosts !! id = Some hl -> qualifies src srcID minDelta id hl -> f64_lt (delta src dst) (delta src hl) = false.
Proof.
  intros Hord Hsrc Hfin Hm Hneg. unfold pickTargetHost. rewrite Hsrc.
  assert (Hin : forall id hl, (id, hl) ∈ order <-> hosts !! id = Some hl) by (intros; rewrite Hord; apply elem_of_map_to_list).
  assert (Hnan : forall id hl, (id, hl) ∈ order -> is_nan (delta src hl) = false).
  { intros id hl Hi%Hin. apply f64_sub_not_nan; eauto. }
  assert (Hinv : target_inv src srcID minDelta order (fold_left (consider src srcID minDelta) order (""%string, minusOne))).
  { enough (H : forall l seen b, seen ++ l = order -> target_inv src srcID minDelta seen b ->
      target_inv src srcID minDelta order (fold_left (consider src srcID minDelta) l b)).
    { apply (H order []); [done|]. left. split; [done|]. by intros ? ? ?%elem_of_nil. }
    induction l as [|[id hl] l IH]; intros seen b Es Hb; cbn [fold_left]; [by rewrite app_nil_r in Es; subst|].
    apply (IH (seen ++ [(id, hl)])); [by rewrite <- app_assoc|].
    apply consider_inv; try done; [apply (Hnan id)|intros i h Hi; apply (Hnan i)]; rewrite <- Es; set_solver. }
  destruct (fold_left _ _ _) as [t' d]. cbn [fst]. destruct (String.eqb_spec t' "") as [->|Hne]; cbn [fst]; [by intros <- []|].
  intros <- _. destruct Hinv as [[[= -> _] _]|(dst & H1 & H2 & _ & _ & H5)]; [done|]. simpl in *.
  exists dst. split; [by apply Hin|]. split; [done|]. intros id hl Hi. apply H5. by apply Hin.
Qed.

(** ** A run of the loop *)

Inductive LoopEv := EvPass (p : Pass) | EvSettled.

(** Ghost: the samples that updated the tracking, with their time, and the accepted
    migrations, latest last. *)
Record RunState := mkRun { rs_loop : rebalanceLoop; rs_samples : list (Z * gmap string hostLoad); rs_fired : list (Z * Migration) }.

(** Whether a pass gets to look at the loads: one that a gate stops (disabled, a migration
    in flight, the cooldown) or that has nothing to compare leaves the tracking as it was,
    whatever the loads are then. *)
Definition sampled (cfg : RebalanceConfig) (rl : rebalanceLoop) (p : Pass) : bool :=
  gate cfg rl (gateNow p) && negb (bool_decide (snapshots p = ∅)) && negb (bool_decide (owners p = []))
  && negb (size (aggregateByHost (snapshots p) (owners p)) <? 2)%nat.

Definition run_ev (cfg : RebalanceConfig) (s : RunState) (e : LoopEv) : RunState :=
  match e with
  | EvPass p =>
      let '(rl, m) := evaluate cfg (rs_loop s) p in
      mkRun rl (if sampled cfg (rs_loop s) p then rs_samples s ++ [(now p, aggregateByHost (snapshots p) (owners p))] else rs_samples s)
        (match m with Some m => if accepted p then rs_fired s ++ [(now p, m)] else rs_fired s | None => rs_fired s end)
  | EvSettled => mkRun (watchRequest (rs_loop s)) (rs_samples s) (rs_fired s)
  end.

Definition run (cfg : RebalanceConfig) (l : list LoopEv) : RunState := fold_left (run_ev cfg) l (mkRun newRebalanceLoop [] []).

Definition overloaded (cfg : RebalanceConfig) (id : string) (sample : Z * gmap string hostLoad) : Prop :=
  exists hl, sample.2 !! id = Some hl /\ f64_le (RebalanceLoadThreshold cfg) (Load hl) = true.

(** Overloaded in every sample from the one taken at [t] on. *)
Definition overloaded_since (cfg : RebalanceConfig) (id : string) (t : Z) (samples : list (Z * gmap string hostLoad)) : Prop :=
  exists before h after, samples = before ++ (t, h) :: after /\ Forall (overloaded cfg id) ((t, h) :: after).

Definition run_ok (cfg : RebalanceConfig) (s : RunState) : Prop :=
  (forall id t, firstOverload (rs_loop s) !! id = Some t -> overloaded_since cfg id t (rs_samples s))
  /\ lastMigration (rs_loop s) = fst <$> last (rs_fired s).

Lemma evaluate_sampled cfg rl p :
  let hosts := aggregateByHost (snapshots p) (owners p) in
  let first := track (RebalanceLoadThreshold cfg) (now p) hosts (firstOverload rl) in
  evaluate cfg rl p =
    if sampled cfg rl p then
      match choose cfg p hosts first with
      | None => (set_first rl first, None)
      | Some m => if accepted p then (mkLoop first (Some (now p)) (inflight rl + 1) (migrationsFired rl + 1), Some m)
                  else (set_first rl first, Some m)
      end
    else (rl, None).
Proof.
  unfold evaluate, sampled. destruct (gate cfg rl (gateNow p)); [|done]. simpl.
  destruct (bool_decide (snapshots p = ∅)); [done|]. destruct (bool_decide (owners p = [])); [done|].
  by destruct (size _ <? 2)%nat.
Qed.

Lemma track_since cfg p first samples :
  (forall id t, first !! id = Some t -> overloaded_since cfg id t samples) ->
  let hosts := aggregateByHost (snapshots p) (owners p) in
  forall id t, track (RebalanceLoadThreshold cfg) (now p) hosts first !! id = Some t ->
    overloaded_since cfg id t (samples ++ [(now p, hosts)]) /\ overloaded cfg id (now p, hosts).
Proof.
  intros Hfirst hosts id t. unfold track. rewrite map_lookup_imap. destruct (hosts !! id) as [hl|] eqn:Eh; [|done]. simpl.
  destruct (f64_le (RebalanceLoadThreshold cfg) (Load hl)) eqn:El; [|done]. intros [= <-].
  assert (Hnow : overloaded cfg id (now p, hosts)) by (exists hl; done). split; [|done].
  destruct (first !! id) as [t|] eqn:Ef; simpl.
  - destruct (Hfirst id t Ef) as (b & h & a & -> & Hall). exists b, h, (a ++ [(now p, hosts)]).
    split; [by rewrite <- app_assoc|]. rewrite app_comm_cons. apply Forall_app. split; [done|by apply Forall_singleton].
  - exists samples, hosts, []. split; [done|by apply Forall_singleton].
Qed.

Lemma run_ev_ok cfg s e : run_ok cfg s -> run_ok cfg (run_ev cfg s e).
Proof.
  intros [Hf Hl]. destruct e as [p|]; [|done]. unfold run_ev. rewrite evaluate_sampled. cbv zeta.
  destruct (sampled cfg (rs_loop s) p); [|done].
  pose proof (track_since cfg p _ _ Hf) as Ht. cbv zeta in Ht. destruct (choose _ _ _ _) as [m|].
  - destruct (accepted p); split; simpl; try (intros id t Hi; by apply Ht); [|done]. by rewrite last_snoc.
  - split; simpl; [intros id t Hi; by apply Ht|done].
Qed.

Lemma run_run_ok cfg l : run_ok cfg (run cfg l).
Proof.
  unfold run. assert (H : forall s, run_ok cfg s -> run_ok cfg (fold_left (run_ev cfg) l s)).
  { induction l as [|e l IH]; intros s Hs; [done|]. apply IH, run_ev_ok, Hs. }
  apply H. split; [|done]. intros id t. simpl. by rewrite lookup_empty.
Qed.

Lemma most_overloaded_in hosts l id : mostOverloaded hosts l = Some id -> id ∈ l.
Proof.
  unfold mostOverloaded. intros H%head_Some_elem_of. by rewrite (merge_sort_Permutation (sustained_le hosts) l) in H.
Qed.

(** C35: a migration is asked for only when nothing that should hold it back does.  The
    loop is enabled, has a free slot, and its last migration is at least the cooldown
    ago; the source host was overloaded in every sample of at least the sustain time,
    where a pass the gates stop takes no sample ([skipped_dip_unseen] shows a host that was
    idle in such a pass); the cell is one of its own, and the heaviest; the target is another host whose load
    is lower by the margin, and no other host's is lower still. *)
Theorem migration_justified cfg l p rl m :
  let s := run cfg l in
  let hosts := aggregateByHost (snapshots p) (owners p) in
  evaluate cfg (rs_loop s) p = (rl, Some m) ->
  hostOrder p ≡ₚ map_to_list hosts -> finite_loads hosts ->
  is_nan (RebalanceMinDelta cfg) = false -> f64_lt minusOne (RebalanceMinDelta cfg) = true ->
  AutoRebalance cfg = true /\ inflight (rs_loop s) < maxConcurrent cfg
  /\ (forall t m', last (rs_fired s) = Some (t, m') -> RebalanceCooldown cfg <= gateNow p - t)
  /\ (exists t, overloaded_since cfg (mg_src m) t (rs_samples s ++ [(now p, hosts)]) /\ RebalanceSustainTime cfg <= now p - t)
  /\ exists src dst donor, hosts !! mg_src m = Some src /\ hosts !! mg_target m = Some dst
       /\ pickHeaviestCell (Cells src) = Some donor /\ mg_key m = CellKey donor /\ mg_cell m = rowCellID donor
       /\ qualifies src (mg_src m) (RebalanceMinDelta cfg) (mg_target m) dst
       /\ forall id hl, hosts !! id = Some hl -> qualifies src (mg_src m) (RebalanceMinDelta cfg) id hl ->
            f64_lt (delta src dst) (delta src hl) = false.
Proof.
  intros s hosts E Hord Hfin Hm Hneg. destruct (run_run_ok cfg l) as [Hf Hl]. fold s in Hf, Hl.
  rewrite evaluate_sampled in E. cbv zeta in E. fold hosts in E. destruct (sampled cfg (rs_loop s) p) eqn:Es; [|done].
  pose proof (track_since cfg p _ _ Hf) as Ht. cbv zeta in Ht. fold hosts in Ht.
  set (first := track _ _ hosts _) in *. destruct (choose cfg p hosts first) as [m'|] eqn:Ec; [|done].
  assert (m' = m) as -> by (destruct (accepted p); by simplify_eq). clear E.
  unfold sampled, gate in Es. rewrite !andb_true_iff, !negb_true_iff, Z.leb_gt in Es. destruct Es as [[[[[Ha Hi] Hc] _] _] _].
  split; [done|]. split; [done|]. split.
  { intros t m'' Hlast. rewrite Hl, Hlast in Hc. by apply Z.ltb_ge in Hc. }
  unfold choose in Ec. destruct (mostOverloaded hosts _) as [id|] eqn:Eo; [|done].
  apply most_overloaded_in, list_elem_of_fmap in Eo as ([id' t] & -> & [Hsus Hin%elem_of_map_to_list]%list_elem_of_filter).
  simpl in Ec, Hsus. destruct (hosts !! id') as [src|] eqn:Esrc; [|done].
  destruct (aggregate_ok _ _ _ _ Esrc) as (Eid & _ & _). rewrite Eid in Ec.
  destruct (pickHeaviestCell (Cells src)) as [donor|] eqn:Ed; [|done].
  destruct (String.eqb_spec (pickTargetHost hosts (hostOrder p) id' (RebalanceMinDelta cfg)).1 "") as [|Hne]; [done|].
  injection Ec as <-. simpl. split; [exists t; split; [by apply Ht|done]|].
  destruct (target_spec hosts (hostOrder p) id' src (RebalanceMinDelta cfg) _ Hord Esrc Hfin Hm Hneg eq_refl Hne)
    as (dst & H1 & H2 & H3). exists src, dst, donor. done.
Qed.

(** ** Runs *)

Definition sec : Z := 1000000000.

(** The defaults of [DefaultPartitionConfig], switched on. *)
Definition defaultConfig : RebalanceConfig :=
  mkRebalanceConfig true (f64_div (f64_of_int 85) (f64_of_int 100)) (60 * sec) (f64_div (f64_of_int 20) (f64_of_int 100))
    (30 * sec) 1.

Definition pass_at (t : Z) (loads : list (string * Z)) (own : list (string * string)) : Pass :=
  let snaps := list_to_map (map (fun e => (e.1, mkLoadSnapshot (f64_of_int e.2) 1 0 0)) loads) in
  mkPass t t snaps own (map_to_list (aggregateByHost snaps own)) true.

Definition two_loads : list (string * Z) := [("cell_0_0", 1); ("cell_1_0", 0)]%string.
Definition own_a : list (string * string) := [("cell_0_0", "a"); ("cell_1_0", "b")]%string.
Definition own_b : list (string * string) := [("cell_0_0", "b"); ("cell_1_0", "b")]%string.

Definition fin_loads (hosts : gmap string hostLoad) : bool := forallb (fun e => is_fin (Load e.2)) (map_to_list hosts).

Lemma fin_loads_ok hosts : fin_loads hosts = true -> finite_loads hosts.
Proof.
  intros H id hl Hi%elem_of_map_to_list. unfold fin_loads in H. rewrite forallb_forall in H.
  exact (H (id, hl) (proj1 (list_elem_of_In _ _) Hi)).
Qed.

Lemma migration_justified_witness :
  let s := run defaultConfig [EvPass (pass_at 0 two_loads own_a); EvPass (pass_at (30 * sec) two_loads own_a)] in
  let p := pass_at (60 * sec) two_loads own_a in
  let m := mkMigration zeroCell "cell_0_0" "a" "b" in
  (evaluate defaultConfig (rs_loop s) p).2 = Some m /\ AutoRebalance defaultConfig = true
  /\ exists t, overloaded_since defaultConfig "a" t (rs_samples s ++ [(60 * sec, aggregateByHost (snapshots p) (owners p))]) /\ 60 * sec <= 60 * sec - t.
Proof.
  intros s p m. assert (E : (evaluate defaultConfig (rs_loop s) p).2 = Some m) by (vm_compute; reflexivity).
  split; [exact E|]. destruct (evaluate defaultConfig (rs_loop s) p) as [rl om] eqn:Ee. simpl in E. subst om.
  destruct (migration_justified defaultConfig [EvPass (pass_at 0 two_loads own_a); EvPass (pass_at (30 * sec) two_loads own_a)]
    p rl m Ee (Permutation_refl _)) as (Ha & _ & _ & Ht & _).
  - apply fin_loads_ok. vm_compute. reflexivity.
  - vm_compute. reflexivity.
  - vm_compute. reflexivity.
  - by split.
Defined.

(** Host b is overloaded at 0 s and at 60 s, when a cell of host a is moved; in the cooldown
    that follows it is idle, and no pass looks.  At 90 s it counts as overloaded for 90 s. *)
Definition three_loads (b : Z) : list (string * Z) := [("cell_0_0", 1); ("cell_1_0", b); ("cell_2_0", 0)]%string.
Definition own_abc : list (string * string) := [("cell_0_0", "a"); ("cell_1_0", "b"); ("cell_2_0", "c")]%string.
Definition own_cbc : list (string * string) := [("cell_0_0", "c"); ("cell_1_0", "b"); ("cell_2_0", "a")]%string.

Lemma skipped_dip_unseen :
  let dip := pass_at (70 * sec) (three_loads 0) own_cbc in
  let s := run defaultConfig [EvPass (pass_at 0 (three_loads 1) own_abc); EvPass (pass_at (60 * sec) (three_loads 1) own_abc);
                              EvSettled; EvPass dip; EvPass (pass_at (90 * sec) (three_loads 2) own_cbc)] in
  (Load <$> aggregateByHost (snapshots dip) (owners dip) !! "b"%string) = Some (f64_of_int 0) /\
  map (fun e => (mg_key e.2, mg_src e.2, mg_target e.2)) (rs_fired s) = [("cell_0_0", "a", "c"); ("cell_1_0", "b", "a")]%string.
Proof. vm_compute. split; reflexivity. Qed.

(** The margin does not stop a cell from going back and forth: a host overloaded by one
    cell alone gives it away, the next host is then overloaded by it in turn. *)
Lemma heavy_cell_ping_pongs :
  let there := [EvPass (pass_at 0 two_loads own_a); EvPass (pass_at (60 * sec) two_loads own_a); EvSettled] in
  let own_c := [("cell_0_0", "b"); ("cell_1_0", "a")]%string in
  let back := [EvPass (pass_at (90 * sec) two_loads own_c); EvPass (pass_at (150 * sec) two_loads own_c)] in
  (rs_fired (run defaultConfig (there ++ back))).*2 =
    [mkMigration zeroCell "cell_0_0" "a" "b"; mkMigration zeroCell "cell_0_0" "b" "a"].
Proof. vm_compute. reflexivity. Qed.

(** A host without cells does not exist for the loop: however long host b is overloaded,
    an idle host that could take a cell is never asked. *)
Lemma idle_host_never_target :
  (forall snaps owners t, t ∉ owners.*2 -> aggregateByHost snaps owners !! t = None)
  /\ forall k, rs_fired (run defaultConfig (map (fun i => EvPass (pass_at (Z.of_nat i * 60 * sec) [("cell_0_0", 9); ("cell_1_0", 9)]%string own_b)) (seq 0 k))) = [].
Proof.
  assert (Hnone : forall snaps owners t, t ∉ owners.*2 -> aggregateByHost snaps owners !! t = None).
  { intros snaps owners t Ht. destruct (aggregateByHost snaps owners !! t) as [hl|] eqn:E; [|done].
    apply aggregate_ok in E as (_ & Hne & Hall). destruct (Cells hl) as [|r l]; [done|].
    apply Forall_cons in Hall as [Hr _]. destruct Ht. apply list_elem_of_fmap. by exists (CellKey r, t). }
  split; [done|]. intros k.
  assert (Hp : forall t rl, sampled defaultConfig rl (pass_at t [("cell_0_0", 9); ("cell_1_0", 9)]%string own_b) = false).
  { intros t rl. unfold sampled. rewrite !andb_false_iff, !negb_false_iff. right. apply Nat.ltb_lt.
    change (size (aggregateByHost (list_to_map [("cell_0_0", mkLoadSnapshot (f64_of_int 9) 1 0 0);
      ("cell_1_0", mkLoadSnapshot (f64_of_int 9) 1 0 0)]%string) own_b) < 2)%nat. vm_compute. lia. }
  unfold run. assert (H : forall l s, rs_fired s = [] ->
    rs_fired (fold_left (run_ev defaultConfig) (map (fun i => EvPass (pass_at (Z.of_nat i * 60 * sec) [("cell_0_0", 9); ("cell_1_0", 9)]%string own_b)) l) s) = []).
  { induction l as [|i l IH]; intros s Hs; [done|]. cbn [map fold_left]. apply IH. unfold run_ev.
    rewrite evaluate_sampled. cbv zeta. by rewrite Hp. }
  by apply H.
Qed.
