(* ===== verification/Partition.v ===== *)
(** * When the coordinator splits and merges cells (pkg/universe/partition.go,
    partition_monitor.go)

    [SplitCell] and [MergeCell] check a request before the orchestrator of CellTransfer.v
    takes it; the monitor asks for them when a cell has been busy, or four siblings idle,
    for long enough.  One pass of the monitor visits the cells in the order of a map
    range; what it reads at each cell (load, cooldowns) and the answers it gets are
    arguments. *)

From S2P Require Import Prelude Float32 CellId Topology ControlPlane CellTransfer.

Record PartitionConfig := mkPartitionConfig {
  MinCellSize : f32;
  SplitThreshold : f64;
  MergeThreshold : f64;
  SplitSustain : Z;
  MergeSustain : Z;
  Cooldown : Z;
  EvalInterval : Z;
  AutoSplitEnabled : bool;
  AutoMergeEnabled : bool }.

(** ** Cooldowns *)

Definition partitionState : Type := gmap CellID Z.

Definition onCooldown (ps : partitionState) (now : Z) (cell : CellID) : bool :=
  match ps !! cell with Some until => now <? until | None => false end.
Definition setCooldown (ps : partitionState) (now : Z) (cell : CellID) (d : Z) : partitionState := <[cell := now + d]> ps.
Definition clearCooldown (ps : partitionState) (cell : CellID) : partitionState := delete cell ps.

(** ** Requests *)

Inductive PartitionError := ErrCellUnknown | ErrTooSmall | ErrOnCooldown | ErrDepthZero | ErrSiblingUnknown
                          | ErrBegin (e : BeginError).

Definition lift_begin {A} (r : result BeginError A) : result PartitionError A :=
  match r with Ok x => Ok x | Err e => Err (ErrBegin e) end.

(** [pc] is [DynamicPartitioning], [ps] is [partState]; both may be nil. *)
Definition minCellSize (cfg : Config) (pc : option PartitionConfig) : f32 :=
  let quarter := f32_div (CellSize cfg) (f32_of_int 4) in
  match pc with
  | Some pc => if f32_lt f32_zero (MinCellSize pc) then MinCellSize pc else quarter
  | None => quarter
  end.

Definition cooling (ps : option partitionState) (now : Z) (cell : CellID) : bool :=
  match ps with Some ps => onCooldown ps now cell | None => false end.

Definition SplitCell (cfg : Config) (pc : option PartitionConfig) (ps : option partitionState) (env : Env) (c : Coord)
  (o : cellTransferOrchestrator) (t : Z) (cell : CellID) (bypassCooldown : bool)
  : result PartitionError (cellTransferOrchestrator * CellTransferRequest) :=
  if String.eqb (HostForCellID env c (CellTransfer.key_of cell)) "" then Err ErrCellUnknown
  else if f32_lt (f32_div (Size cell (CellSize cfg)) (f32_of_int 2)) (minCellSize cfg pc) then Err ErrTooSmall
  else if negb bypassCooldown && cooling ps t cell then Err ErrOnCooldown
  else lift_begin (BeginSplit env c o cell).

Definition MergeCell (ps : option partitionState) (env : Env) (c : Coord) (o : cellTransferOrchestrator) (t : Z)
  (cell : CellID) (bypassCooldown : bool) : result PartitionError (cellTransferOrchestrator * CellTransferRequest) :=
  match Parent cell, Siblings cell with
  | Some parent, Some siblings =>
      if existsb (fun s => String.eqb (HostForCellID env c (CellTransfer.key_of s)) "") siblings then Err ErrSiblingUnknown
      else if negb bypassCooldown && existsb (cooling ps t) siblings then Err ErrOnCooldown
      else lift_begin (BeginMerge env c o parent)
  | _, _ => Err ErrDepthZero
  end.

(** ** The monitor *)

Record partitionMonitor := mkMonitor {
  smoothedLoad : gmap CellID f64;
  sustainedAbove : gmap CellID Z;
  sustainedBelow : gmap CellID Z }.

Definition newPartitionMonitor : partitionMonitor := mkMonitor ∅ ∅ ∅.

(** What the monitor meets at one cell: the load metric of its node, the cooldowns it
    reads, and whether [SplitCell] and [MergeCell] succeed if they are asked. *)
Record Visit := mkVisit { vi_cell : CellID; vi_load : f64; vi_cooling : CellID -> bool; vi_split : bool; vi_merge : bool }.

Inductive Request := AskSplit (cell : CellID) | AskMerge (cell : CellID).

Section Monitor.
Context (base : f32) (cfg : PartitionConfig).

Definition alpha : f64 :=
  let a := f64_div (f64_of_int (EvalInterval cfg)) (f64_of_int 30000000000) in
  if f64_lt (f64_of_int 1) a then f64_of_int 1 else a.

(** On platforms that fuse a product into a sum the rounding may differ. *)
Definition ewmaSmooth (pm : partitionMonitor) (cell : CellID) (rawLoad : f64) : partitionMonitor * f64 :=
  let s := match smoothedLoad pm !! cell with
           | None => rawLoad
           | Some prev => f64_add (f64_mul prev (f64_sub (f64_of_int 1) alpha)) (f64_mul rawLoad alpha)
           end in
  (mkMonitor (<[cell := s]> (smoothedLoad pm)) (sustainedAbove pm) (sustainedBelow pm), s).

Definition above (pm : partitionMonitor) (cell : CellID) : Z := default 0 (sustainedAbove pm !! cell).
Definition below (pm : partitionMonitor) (cell : CellID) : Z := default 0 (sustainedBelow pm !! cell).
Definition set_above (cell : CellID) (d : Z) (pm : partitionMonitor) : partitionMonitor :=
  mkMonitor (smoothedLoad pm) (<[cell := d]> (sustainedAbove pm)) (sustainedBelow pm).
Definition set_below (cell : CellID) (d : Z) (pm : partitionMonitor) : partitionMonitor :=
  mkMonitor (smoothedLoad pm) (sustainedAbove pm) (<[cell := d]> (sustainedBelow pm)).
Definition forget (cell : CellID) (pm : partitionMonitor) : partitionMonitor :=
  mkMonitor (delete cell (smoothedLoad pm)) (delete cell (sustainedAbove pm)) (delete cell (sustainedBelow pm)).

Definition canSplit (cell : CellID) : bool := f32_le (MinCellSize cfg) (f32_div (Size cell base) (f32_of_int 2)).

Definition hot (cell : CellID) (smoothed : f64) : bool :=
  AutoSplitEnabled cfg && f64_lt (SplitThreshold cfg) smoothed && canSplit cell.
Definition cold (cell : CellID) (smoothed : f64) : bool :=
  AutoMergeEnabled cfg && (0 <? Depth cell) && f64_lt smoothed (MergeThreshold cfg).

(** Monitor, requests made, and whether the cell is done with ([continue]). *)
Definition split_check (v : Visit) (smoothed : f64) (pm : partitionMonitor) : partitionMonitor * list Request * bool :=
  let cell := vi_cell v in
  if hot cell smoothed then
    let pm := set_above cell (i64 (above pm cell + EvalInterval cfg)) pm in
    if SplitSustain cfg <=? above pm cell then
      if vi_split v then (forget cell pm, [AskSplit cell], true) else (pm, [AskSplit cell], false)
    else (pm, [], false)
  else (set_above cell 0 pm, [], false).

Definition allBelow (v : Visit) (pm : partitionMonitor) (siblings : list CellID) : bool :=
  forallb (fun s => negb (vi_cooling v s) && (MergeSustain cfg <=? below pm s)) siblings.

Definition merge_check (v : Visit) (smoothed : f64) (pm : partitionMonitor) : partitionMonitor * list Request :=
  let cell := vi_cell v in
  if cold cell smoothed then
    let pm := set_below cell (i64 (below pm cell + EvalInterval cfg)) pm in
    let siblings := default [] (Siblings cell) in
    if allBelow v pm siblings then
      if vi_merge v then (fold_left (fun pm s => forget s pm) siblings pm, [AskMerge cell]) else (pm, [AskMerge cell])
    else (pm, [])
  else (set_below cell 0 pm, []).

Definition visit (pm : partitionMonitor) (v : Visit) : partitionMonitor * list Request :=
  let cell := vi_cell v in
  let '(pm, smoothed) := ewmaSmooth pm cell (vi_load v) in
  if vi_cooling v cell then (set_below cell 0 (set_above cell 0 pm), [])
  else
    let '(pm, asked, done) := split_check v smoothed pm in
    if done then (pm, asked)
    else let '(pm, more) := merge_check v smoothed pm in (pm, asked ++ more).

Definition keep_owned (owned : gset CellID) (pm : partitionMonitor) : partitionMonitor :=
  fold_left (fun pm cell => if decide (cell ∈ owned) then pm else forget cell pm) (elements (dom (smoothedLoad pm))) pm.

(** [owned] is [CellOwner] when the pass ends. *)
Definition evaluate (pm : partitionMonitor) (visits : list Visit) (owned : gset CellID) : partitionMonitor * list Request :=
  let '(pm, asked) := fold_left (fun acc v => let '(pm, asked) := visit acc.1 v in (pm, acc.2 ++ asked)) visits (pm, []) in
  (keep_owned owned pm, asked).
End Monitor.
