(* ===== verification/PartitionSafety.v ===== *)
(** * When the monitor asks

    The monitor's accumulated durations are the lengths of the current streaks of a
    cell's history times the interval, so its requests can be stated on the history of
    what it saw. *)

From S2P Require Import Prelude Float32 CellId Topology ControlPlane CellTransfer Partition.

(** What the monitor saw of a cell, latest first; [Forgotten] is where it dropped its
    tracking. *)
Inductive Probe := Looked (cooling : bool) (smoothed : f64) | Forgotten.

(** The looks, from the latest back, that were off cooldown and satisfied [P]. *)
Fixpoint streak (P : f64 -> bool) (l : list Probe) : nat :=
  match l with
  | Looked false s :: l => if P s then S (streak P l) else 0
  | _ => 0
  end.

Definition Hist : Type := CellID -> list Probe.
Definition push (p : Probe) (cells : list CellID) (h : Hist) : Hist :=
  fun c => if decide (c ∈ cells) then p :: h c else h c.

Inductive MonEv := EvVisit (v : Visit) | EvPassEnd (owned : gset CellID).

Section Monitor.
Context (base : f32) (cfg : PartitionConfig).

Definition forgotten (v : Visit) (asked : list Request) : list CellID :=
  flat_map (fun r => match r with
                     | AskSplit c => if vi_split v then [c] else []
                     | AskMerge c => if vi_merge v then default [] (Siblings c) else []
                     end) asked.

(** Monitor, history and the requests of the latest event. *)
Record MonRun := mkMonRun { mr_pm : partitionMonitor; mr_hist : Hist; mr_asked : list Request }.

Definition looked (v : Visit) (r : MonRun) : Hist :=
  push (Looked (vi_cooling v (vi_cell v)) (ewmaSmooth cfg (mr_pm r) (vi_cell v) (vi_load v)).2) [vi_cell v] (mr_hist r).

Definition mon_step (r : MonRun) (e : MonEv) : MonRun :=
  match e with
  | EvVisit v =>
      let '(pm, asked) := visit base cfg (mr_pm r) v in
      mkMonRun pm (push Forgotten (forgotten v asked) (looked v r)) asked
  | EvPassEnd owned =>
      mkMonRun (keep_owned owned (mr_pm r)) (fun c => if decide (c ∈ owned) then mr_hist r c else Forgotten :: mr_hist r c) []
  end.

Definition mon_init : MonRun := mkMonRun newPartitionMonitor (fun _ => []) [].
Definition mon_run (l : list MonEv) : MonRun := fold_left mon_step l mon_init.

(** [evaluate] is the visits of a pass and its end. *)
Lemma evaluate_run r visits owned :
  let r' := fold_left mon_step (map EvVisit visits ++ [EvPassEnd owned]) r in
  (evaluate base cfg (mr_pm r) visits owned).1 = mr_pm r'.
Proof.
  unfold evaluate. rewrite fold_left_app. cbn [fold_left]. unfold mon_step at 1. cbn [mr_pm].
  enough (H : forall r0 asked, mr_pm (fold_left mon_step (map EvVisit visits) r0) =
    (fold_left (fun acc v => let '(pm, asked) := visit base cfg acc.1 v in (pm, acc.2 ++ asked)) visits (mr_pm r0, asked)).1).
  { specialize (H r []). destruct (fold_left _ visits (mr_pm r, [])) as [pm asked]. simpl in *. by rewrite <- H. }
  induction visits as [|v visits IH]; intros r0 asked; [done|]. cbn [map fold_left]. unfold mon_step at 2.
  cbn [fst snd]. destruct (visit base cfg (mr_pm r0) v) as [pm more]. rewrite (IH (mkMonRun pm (push Forgotten (forgotten v more) (looked v r0)) more) (asked ++ more)). done.
Qed.

Definition tick : Z := EvalInterval cfg.

(** Off the cells of [L], the tracking is the streaks of the history. *)
Record agrees (L : list CellID) (pm : partitionMonitor) (h : Hist) : Prop := {
  ag_above : forall c, c ∉ L -> above pm c = tick * Z.of_nat (streak (hot base cfg c) (h c));
  ag_below : forall c, c ∉ L -> below pm c = tick * Z.of_nat (streak (cold cfg c) (h c));
  ag_known : forall c, c ∉ L -> smoothedLoad pm !! c = None -> above pm c = 0 /\ below pm c = 0 }.

(** The longest history. *)
Definition bounded (n : nat) (h : Hist) : Prop := forall c, (length (h c) <= n)%nat.

Lemma streak_length P l : (streak P l <= length l)%nat.
Proof. induction l as [|[[] s|] l IH]; simpl; try lia. destruct (P s); lia. Qed.

(** Tracking of one cell as [visit] leaves it. *)
Lemma above_set c d pm c' : above (set_above c d pm) c' = if decide (c' = c) then d else above pm c'.
Proof. unfold above, set_above. simpl. case_decide; subst; [by rewrite lookup_insert_eq|by rewrite lookup_insert_ne]. Qed.
Lemma below_set c d pm c' : below (set_below c d pm) c' = if decide (c' = c) then d else below pm c'.
Proof. unfold below, set_below. simpl. case_decide; subst; [by rewrite lookup_insert_eq|by rewrite lookup_insert_ne]. Qed.
Lemma above_forget c pm c' : above (forget c pm) c' = if decide (c' = c) then 0 else above pm c'.
Proof. unfold above, forget. simpl. case_decide; subst; [by rewrite lookup_delete_eq|by rewrite lookup_delete_ne]. Qed.
Lemma below_forget c pm c' : below (forget c pm) c' = if decide (c' = c) then 0 else below pm c'.
Proof. unfold below, forget. simpl. case_decide; subst; [by rewrite lookup_delete_eq|by rewrite lookup_delete_ne]. Qed.

Lemma forget_all l : forall pm c,
  above (fold_left (fun pm s => forget s pm) l pm) c = (if decide (c ∈ l) then 0 else above pm c)
  /\ below (fold_left (fun pm s => forget s pm) l pm) c = (if decide (c ∈ l) then 0 else below pm c)
  /\ smoothedLoad (fold_left (fun pm s => forget s pm) l pm) !! c = (if decide (c ∈ l) then None else smoothedLoad pm !! c).
Proof.
  induction l as [|x l IH]; intros pm c; cbn [fold_left].
  - by rewrite !decide_False by apply not_elem_of_nil.
  - destruct (IH (forget x pm) c) as (-> & -> & ->). rewrite above_forget, below_forget. simpl.
    destruct (decide (c ∈ l)) as [Hin|Hin].
    + by rewrite !decide_True by by right.
    + destruct (decide (c = x)) as [->|Hne].
      * by rewrite lookup_delete_eq, !decide_True by by left.
      * rewrite lookup_delete_ne by done. by rewrite !decide_False by by (rewrite elem_of_cons; intros [?|?]).
Qed.

Lemma streak_look P s l cool : streak P (Looked cool s :: l) = (if negb cool && P s then S (streak P l) else 0)%nat.
Proof. by destruct cool. Qed.

Lemma push_eq p cells h c : push p cells h c = if decide (c ∈ cells) then p :: h c else h c.
Proof. done. Qed.

(** One more interval on a streak, without wrap-around. *)
Lemma one_more n k : 0 < tick -> (k <= n)%nat -> tick * (Z.of_nat n + 1) < 2 ^ 63 ->
  i64 (tick * Z.of_nat k + tick) = tick * Z.of_nat (S k).
Proof. intros Hi Hk Hb. unfold i64. rewrite Z.mod_small; nia. Qed.

Lemma forget_agrees L pm h : agrees L pm h ->
  agrees [] (fold_left (fun pm s => forget s pm) L pm) (push Forgotten L h).
Proof.
  intros [H1 H2 H3].
  assert (H : forall c, c ∉ L -> above (fold_left (fun pm s => forget s pm) L pm) c = above pm c
    /\ below (fold_left (fun pm s => forget s pm) L pm) c = below pm c
    /\ smoothedLoad (fold_left (fun pm s => forget s pm) L pm) !! c = smoothedLoad pm !! c).
  { intros c Hc. destruct (forget_all L pm c) as (-> & -> & ->). by rewrite !decide_False. }
  assert (H0 : forall c, c ∈ L -> above (fold_left (fun pm s => forget s pm) L pm) c = 0
    /\ below (fold_left (fun pm s => forget s pm) L pm) c = 0).
  { intros c Hc. destruct (forget_all L pm c) as (-> & -> & _). by rewrite !decide_True. }
  split; intros c _; rewrite ?push_eq; (destruct (decide (c ∈ L)) as [Hc|Hc];
    [destruct (H0 c Hc) as [E1 E2]; rewrite ?E1, ?E2; simpl; auto; lia
    |destruct (H c Hc) as (E1 & E2 & E3); rewrite ?E1, ?E2, ?E3; auto]).
Qed.

Section Visit.
Context (v : Visit) (r : MonRun) (n : nat).
Hypothesis Htick : 0 < tick.
Hypothesis Hok : agrees [] (mr_pm r) (mr_hist r).
Hypothesis Hlen : bounded n (mr_hist r).
Hypothesis Hbound : tick * (Z.of_nat n + 1) < 2 ^ 63.

Abbreviation cell := (vi_cell v).
Abbreviation seen := (looked v r).
Let s := (ewmaSmooth cfg (mr_pm r) cell (vi_load v)).2.
Let pm1 := (ewmaSmooth cfg (mr_pm r) cell (vi_load v)).1.

Lemma seen_ne c : c ∉ [cell] -> seen c = mr_hist r c.
Proof. intros Hne. unfold looked. by rewrite push_eq, decide_False. Qed.

Lemma seen_cell : seen cell = Looked (vi_cooling v cell) s :: mr_hist r cell.
Proof. unfold looked. by rewrite push_eq, decide_True by by left. Qed.

Lemma looked_agrees : agrees [cell] pm1 seen.
Proof.
  destruct Hok as [H1 H2 H3]. split; intros c Hc; rewrite ?seen_ne by done.
  - apply H1, not_elem_of_nil.
  - apply H2, not_elem_of_nil.
  - unfold pm1, ewmaSmooth. simpl. rewrite lookup_insert_ne by (intros <-; apply Hc; by left). apply H3, not_elem_of_nil.
Qed.

Lemma look_more P k : (streak P (mr_hist r cell) <= n)%nat -> k = tick * Z.of_nat (streak P (mr_hist r cell)) ->
  vi_cooling v cell = false -> P s = true -> i64 (k + tick) = tick * Z.of_nat (streak P (seen cell)).
Proof. intros Hs -> Hc HP. rewrite (one_more n), seen_cell, streak_look, Hc, HP by done. done. Qed.

Lemma look_none P : vi_cooling v cell = true \/ P s = false -> 0 = tick * Z.of_nat (streak P (seen cell)).
Proof. rewrite seen_cell, streak_look. intros [->| ->]; rewrite ?andb_false_r; simpl; lia. Qed.

Lemma streak_short P : (streak P (mr_hist r cell) <= n)%nat.
Proof. etrans; [apply streak_length|apply Hlen]. Qed.

(** Both durations of the visited cell, once they have been set. *)
Definition a' : Z := tick * Z.of_nat (streak (hot base cfg cell) (seen cell)).
Definition b' : Z := tick * Z.of_nat (streak (cold cfg cell) (seen cell)).

Lemma set_agrees pm : agrees [cell] pm seen -> smoothedLoad pm !! cell <> None ->
  above pm cell = a' -> below pm cell = b' -> agrees [] pm seen.
Proof.
  intros [H1 H2 H3] Hs Ha Hb. split; intros c _; (destruct (decide (c = cell)) as [->|Hne];
    [|assert (c ∉ [cell]) by (by intros ?%list_elem_of_singleton); auto]); done.
Qed.

Lemma set_above_agrees L d pm h : cell ∈ L -> agrees L pm h -> agrees L (set_above cell d pm) h.
Proof.
  intros Hin [H1 H2 H3]. split; intros c Hc; rewrite ?above_set; try (rewrite decide_False by (by intros ->)); auto.
  change (below (set_above cell d pm) c) with (below pm c). auto.
Qed.
Lemma set_below_agrees L d pm h : cell ∈ L -> agrees L pm h -> agrees L (set_below cell d pm) h.
Proof.
  intros Hin [H1 H2 H3]. split; intros c Hc; rewrite ?below_set; try (rewrite decide_False by (by intros ->)); auto.
  all: change (above (set_below cell d pm) c) with (above pm c); auto.
Qed.

Lemma pm1_known : smoothedLoad pm1 !! cell <> None.
Proof. unfold pm1, ewmaSmooth. simpl. by rewrite lookup_insert_eq. Qed.

(** The split check: what it asks, and the tracking it leaves. *)
Lemma split_spec : vi_cooling v cell = false ->
  let '(pm, asked, done) := split_check base cfg v s pm1 in
  asked = (if (0 <? streak (hot base cfg cell) (seen cell))%nat && (SplitSustain cfg <=? a') then [AskSplit cell] else [])
  /\ done = bool_decide (asked <> []) && vi_split v
  /\ (done = true -> agrees [] pm (push Forgotten [cell] seen))
  /\ (done = false -> agrees [cell] pm seen /\ above pm cell = a' /\ below pm cell = below (mr_pm r) cell /\ smoothedLoad pm !! cell <> None).
Proof.
  intros Hc. unfold split_check. destruct (hot base cfg cell s) eqn:Eh.
  - assert (Ea : i64 (above pm1 cell + EvalInterval cfg) = a').
    { apply (look_more (hot base cfg cell)); try done; [apply streak_short|]. apply (ag_above _ _ _ Hok), not_elem_of_nil. }
    rewrite Ea, above_set, decide_True by done.
    assert (Est : (0 <? streak (hot base cfg cell) (seen cell))%nat = true) by (rewrite seen_cell, streak_look, Hc, Eh; done).
    rewrite Est. cbn [andb].
    assert (Hag : agrees [cell] (set_above cell a' pm1) seen) by (apply set_above_agrees; [by left|apply looked_agrees]).
    pose proof pm1_known as Hk.
    destruct (SplitSustain cfg <=? a'); [destruct (vi_split v)|]; (split; [done|]; split; [done|]); split; try done.
    + intros _. exact (forget_agrees [cell] _ _ Hag).
    + intros _. rewrite above_set, decide_True by done. done.
    + intros _. rewrite above_set, decide_True by done. done.
  - assert (Est : streak (hot base cfg cell) (seen cell) = 0%nat) by (rewrite seen_cell, streak_look, Eh, andb_false_r; done).
    unfold a'. rewrite Est. split; [done|]. split; [done|]. split; [done|]. intros _.
    split; [apply set_above_agrees; [by left|apply looked_agrees]|]. rewrite above_set, decide_True by done.
    split; [simpl; lia|]. split; [done|apply pm1_known].
Qed.

(** Whether the cell, with a history that ends in this look, is due to be split. *)
Definition split_due : bool :=
  (0 <? streak (hot base cfg cell) (seen cell))%nat && (SplitSustain cfg <=? a').

Definition merge_due : bool :=
  (0 <? streak (cold cfg cell) (seen cell))%nat
  && forallb (fun c => negb (vi_cooling v c) && (MergeSustain cfg <=? tick * Z.of_nat (streak (cold cfg c) (seen c))))
       (default [] (Siblings cell)).

Lemma merge_spec pm : vi_cooling v cell = false ->
  agrees [cell] pm seen -> above pm cell = a' -> below pm cell = below (mr_pm r) cell -> smoothedLoad pm !! cell <> None ->
  let '(pm', more) := merge_check cfg v s pm in
  more = (if merge_due then [AskMerge cell] else [])
  /\ agrees [] pm' (push Forgotten (forgotten v more) seen).
Proof.
  intros Hc Hag Ha Hb Hk. unfold merge_check. destruct (cold cfg cell s) eqn:Eh.
  - assert (Eb : i64 (below pm cell + EvalInterval cfg) = b').
    { apply (look_more (cold cfg cell)); try done; [apply streak_short|]. rewrite Hb. apply (ag_below _ _ _ Hok), not_elem_of_nil. }
    rewrite Eb. set (pm2 := set_below cell b' pm).
    assert (Hag2 : agrees [] pm2 seen).
    { apply set_agrees; [apply set_below_agrees; [by left|done]|done|done|]. unfold pm2. by rewrite below_set, decide_True. }
    assert (Est : (0 <? streak (cold cfg cell) (seen cell))%nat = true) by (rewrite seen_cell, streak_look, Hc, Eh; done).
    assert (Eall : allBelow cfg v pm2 (default [] (Siblings cell)) = merge_due).
    { unfold merge_due. rewrite Est. cbn [andb]. unfold allBelow. induction (default [] (Siblings cell)) as [|x l IH]; [done|].
      cbn [forallb]. rewrite IH. by rewrite (ag_below _ _ _ Hag2) by apply not_elem_of_nil. }
    rewrite Eall. destruct merge_due; [|split; [done|exact Hag2]].
    destruct (vi_merge v) eqn:Em; split; try done; unfold forgotten; cbn [flat_map]; rewrite Em, ?app_nil_r; [|exact Hag2].
    apply forget_agrees. destruct Hag2 as [G1 G2 G3]. split; intros c _; [apply G1|apply G2|apply G3]; apply not_elem_of_nil.
  - assert (Est : streak (cold cfg cell) (seen cell) = 0%nat) by (rewrite seen_cell, streak_look, Eh, andb_false_r; done).
    unfold merge_due. rewrite Est. split; [done|].
    apply (set_agrees (set_below cell 0 pm)); [apply set_below_agrees; [by left|done]|done|done|].
    rewrite below_set, decide_True by done. unfold b'. rewrite Est. lia.
Qed.
(** What a visit asks for. *)
Definition due : list Request :=
  if vi_cooling v cell then []
  else (if split_due then [AskSplit cell] else [])
       ++ (if split_due && vi_split v then [] else if merge_due then [AskMerge cell] else []).

Lemma visit_spec :
  (visit base cfg (mr_pm r) v).2 = due
  /\ agrees [] (mr_pm (mon_step r (EvVisit v))) (mr_hist (mon_step r (EvVisit v))).
Proof.
  unfold mon_step, visit, due. change (ewmaSmooth cfg (mr_pm r) cell (vi_load v)) with (pm1, s).
  destruct (vi_cooling v cell) eqn:Hc.
  - split; [done|]. cbn [mr_pm mr_hist forgotten flat_map].
    assert (Hag : agrees [] (set_below cell 0 (set_above cell 0 pm1)) seen).
    { apply set_agrees; [do 2 (apply set_below_agrees || apply set_above_agrees; [by left|]); apply looked_agrees|apply pm1_known| |].
      - change (above (set_below cell 0 (set_above cell 0 pm1)) cell) with (above (set_above cell 0 pm1) cell).
        rewrite above_set, decide_True by done. apply look_none. by left.
      - rewrite below_set, decide_True by done. apply look_none. by left. }
    destruct Hag as [G1 G2 G3]. by split; intros c _; [apply G1|apply G2|apply G3]; apply not_elem_of_nil.
  - pose proof (split_spec Hc) as Hs. destruct (split_check base cfg v s pm1) as [[pm asked] done].
    destruct Hs as (-> & -> & Hdone & Hgo). fold split_due in *. fold split_due.
    assert (Ed : bool_decide ((if split_due then [AskSplit cell] else []) <> []) = split_due) by (by destruct split_due).
    rewrite Ed in *. destruct (split_due && vi_split v) eqn:Esv.
    + rewrite app_nil_r. split; [done|]. cbn [mr_pm mr_hist]. apply andb_true_iff in Esv as [E1 E2]. rewrite E1.
      unfold forgotten. cbn [flat_map]. rewrite E2. by apply Hdone.
    + destruct (Hgo eq_refl) as (Hag & Ha & Hb & Hk). pose proof (merge_spec pm Hc Hag Ha Hb Hk) as Hm.
      destruct (merge_check cfg v s pm) as [pm' more]. destruct Hm as [-> Hag']. split; [done|]. cbn [mr_pm mr_hist].
      replace (forgotten v ((if split_due then [AskSplit cell] else []) ++ (if merge_due then [AskMerge cell] else [])))
        with (forgotten v (if merge_due then [AskMerge cell] else [])); [done|].
      unfold forgotten. rewrite flat_map_app. destruct split_due; [|done]. simpl in Esv |- *. by rewrite Esv.
Qed.
End Visit.

Lemma keep_owned_spec owned pm c :
  let pm' := keep_owned owned pm in
  (c ∈ owned -> above pm' c = above pm c /\ below pm' c = below pm c /\ smoothedLoad pm' !! c = smoothedLoad pm !! c)
  /\ (c ∉ owned -> (smoothedLoad pm !! c = None -> above pm c = 0 /\ below pm c = 0) ->
       above pm' c = 0 /\ below pm' c = 0 /\ smoothedLoad pm' !! c = None).
Proof.
  unfold keep_owned. cbv zeta.
  assert (H : forall l pm0, fold_left (fun pm cell => if decide (cell ∈ owned) then pm else forget cell pm) l pm0
    = fold_left (fun pm s => forget s pm) (filter (fun cell => cell ∉ owned) l) pm0).
  { induction l as [|x l IH]; intros pm0; [done|]. cbn [fold_left]. rewrite filter_cons.
    destruct (decide (x ∈ owned)) as [Hx|Hx]; destruct (decide (x ∉ owned)); try done; cbn [fold_left]; apply IH. }
  rewrite H. destruct (forget_all (filter (fun cell => cell ∉ owned) (elements (dom (smoothedLoad pm)))) pm c) as (-> & -> & ->).
  assert (Hf : c ∈ filter (fun cell => cell ∉ owned) (elements (dom (smoothedLoad pm)))
               <-> c ∉ owned /\ is_Some (smoothedLoad pm !! c)).
  { by rewrite list_elem_of_filter, elem_of_elements, elem_of_dom. }
  destruct (decide (c ∈ filter _ _)) as [Hin|Hin]; rewrite Hf in Hin.
  - split; [tauto|done].
  - split; [done|]. intros Hc Hk. destruct (smoothedLoad pm !! c) as [x|]; [destruct Hin; split; [done|by eexists]|].
    by destruct (Hk eq_refl) as [-> ->].
Qed.

Lemma push_length p cells h c : (length (push p cells h c) <= S (length (h c)))%nat.
Proof. rewrite push_eq. case_decide; simpl; lia. Qed.

Lemma mon_run_ok l : 0 < tick -> tick * (2 * Z.of_nat (length l) + 1) < 2 ^ 63 ->
  agrees [] (mr_pm (mon_run l)) (mr_hist (mon_run l)) /\ bounded (2 * length l) (mr_hist (mon_run l)).
Proof.
  intros Ht. induction l as [|e l IH] using rev_ind; intros Hb.
  - split; [split|]; simpl; intros c **; unfold above, below; simpl; rewrite ?lookup_empty; simpl; lia.
  - rewrite length_app in *. simpl in Hb. destruct IH as [Hag Hlen]; [nia|]. unfold mon_run in *. rewrite fold_left_app. simpl.
    set (r := fold_left mon_step l mon_init) in *. destruct e as [v|owned].
    + split; [apply (visit_spec v r (2 * length l)); [done..|nia]|].
      intros c. unfold mon_step. destruct (visit base cfg (mr_pm r) v) as [pm asked]. cbn [mr_hist].
      etrans; [apply push_length|]. unfold looked. pose proof (push_length (Looked (vi_cooling v (vi_cell v))
        (ewmaSmooth cfg (mr_pm r) (vi_cell v) (vi_load v)).2) [vi_cell v] (mr_hist r) c). specialize (Hlen c). simpl in *. lia.
    + split.
      * destruct Hag as [G1 G2 G3]. assert (G3' := fun c => G3 c (not_elem_of_nil c)). split; intros c _; simpl;
          destruct (keep_owned_spec owned (mr_pm r) c) as [Hin Hout]; (destruct (decide (c ∈ owned)) as [Hc|Hc];
            [destruct (Hin Hc) as (E1 & E2 & E3); rewrite ?E1, ?E2, ?E3; (apply G1 || apply G2 || apply G3); apply not_elem_of_nil
            |destruct (Hout Hc (G3' c)) as (E1 & E2 & E3); rewrite ?E1, ?E2, ?E3; simpl; auto; lia]).
      * intros c. simpl. specialize (Hlen c). case_decide; simpl; lia.
Qed.

(** The monitor asks for a split or a merge exactly when the streak is long enough.
    After any number of visits and passes, visiting a cell asks to split it if and only
    if it is off cooldown, may be split, and was above the threshold at every visit of
    an unbroken run of the sustain time; it asks to merge it, unless it has just been
    split, if and only if it is below the other threshold now and all four siblings are
    off cooldown and have been below it for the sustain time. *)
Theorem monitor_asks_when_due l v :
  0 < tick -> tick * (2 * Z.of_nat (length l) + 1) < 2 ^ 63 ->
  (visit base cfg (mr_pm (mon_run l)) v).2 = due v (mon_run l).
Proof.
  intros Ht Hb. destruct (mon_run_ok l Ht Hb) as [Hag Hlen].
  apply (visit_spec v (mon_run l) (2 * length l)); [done..|nia].
Qed.
End Monitor.

(** ** A busy cell *)

Definition defaultPartitionConfig : PartitionConfig :=
  mkPartitionConfig (f32_of_int 250) (f64_div (f64_of_int 75) (f64_of_int 100)) (f64_div (f64_of_int 20) (f64_of_int 100))
    30000000000 60000000000 60000000000 5000000000 true true.

Definition busy (cell : CellID) : Visit := mkVisit cell (f64_of_int 1) (fun _ => false) false false.

Lemma monitor_asks_when_due_witness :
  let l := repeat (EvVisit (busy (mkCellID 0 0 0))) 5 in
  0 < tick defaultPartitionConfig /\ tick defaultPartitionConfig * (2 * Z.of_nat (length l) + 1) < 2 ^ 63
  /\ (visit (f32_of_int 1000) defaultPartitionConfig
        (mr_pm (mon_run (f32_of_int 1000) defaultPartitionConfig l)) (busy (mkCellID 0 0 0))).2 = [AskSplit (mkCellID 0 0 0)].
Proof.
  intros l. split; [reflexivity|]. split; [reflexivity|].
  rewrite (monitor_asks_when_due (f32_of_int 1000) defaultPartitionConfig l (busy (mkCellID 0 0 0)) eq_refl eq_refl).
  vm_compute. reflexivity.
Defined.
