(* ===== verification/UdpHandshake.v ===== *)
(** * The stateless handshake of the UDP listener (pkg/net/udp_cookie.go, udp_keys.go)

    A client proves that it receives at its address by echoing a cookie, a MAC over the
    address, both salts and a coarse time slot, which the server recomputes instead of
    remembering; and it names a key that was issued to it over HTTPS, which the registry
    resolves to an identity.  HMAC-SHA256 is written out over the SHA-256 of
    [Rendezvous].  Randomness (the key, its id) is an argument, [None] its error; times
    are nanoseconds. *)

From S2P Require Import Prelude UdpProto UdpCrypto UdpTransport Rendezvous.

(** ** The handshake cookie *)

Definition HandshakeCookieSize : nat := 16.
Definition defaultCookieSlot : Z := 15 * 1000000000.

(** HMAC (RFC 2104) with a key no longer than a block. *)
Definition hmac_sha256 (key msg : bytes) : bytes :=
  let k := key ++ replicate (64 - length key) 0 in
  Sha256.sum (map (Z.lxor 0x5c) k ++ Sha256.sum (map (Z.lxor 0x36) k ++ msg)).

Record HandshakeCookieSigner := mkSigner { secret : bytes; slot : Z }.

Definition NewHandshakeCookieSigner (random : option bytes) : option HandshakeCookieSigner :=
  match random with
  | None => None
  | Some r => Some (mkSigner r defaultCookieSlot)
  end.

Definition slotOf (s : HandshakeCookieSigner) (now : Z) : Z := Z.quot now (slot s).

(** The 42 bytes the MAC covers. *)
Definition cookie_input (ap : AddrPort) (clientSalt serverSalt slot : Z) : bytes :=
  ap_as16 ap ++ be_bytes 2 (ap_port ap) ++ be_bytes 8 clientSalt
    ++ be_bytes 8 serverSalt ++ be_bytes 8 (u64 slot).

Definition mac (s : HandshakeCookieSigner) (buf : bytes) : bytes :=
  take HandshakeCookieSize (hmac_sha256 (secret s) buf).

Definition compute (s : HandshakeCookieSigner) (ap : AddrPort)
    (clientSalt serverSalt slot : Z) : bytes :=
  mac s (cookie_input ap clientSalt serverSalt slot).

Definition Mint (s : HandshakeCookieSigner) (ap : AddrPort) (clientSalt serverSalt now : Z)
  : bytes :=
  compute s ap clientSalt serverSalt (slotOf s now).

Definition Verify (s : HandshakeCookieSigner) (cookie : bytes) (ap : AddrPort)
    (clientSalt serverSalt now : Z) : bool :=
  if negb (length cookie =? HandshakeCookieSize)%nat then false
  else
    let slot := slotOf s now in
    if decide (cookie = compute s ap clientSalt serverSalt slot) then true
    else bool_decide (cookie = compute s ap clientSalt serverSalt (slot - 1)).

Example hmac_rfc4231_case1 :
  be_val (hmac_sha256 (replicate 20 0x0b) (string_bytes "Hi There"))
  = 0xb0344c61d8db38535ca8afceaf0bf12b881dc200c9833da726e9376c2e32cff7.
Proof. vm_compute. reflexivity. Qed.

(** ** The key registry *)

Definition DefaultUDPKeyTTL : Z := 5 * 60 * 1000000000.
Definition DefaultMaxUDPKeys : Z := 4096.
Definition udpKeySweepThreshold : Z := 64.

Record UDPKeyEntry := mkKeyEntry {
  Key : bytes;
  UserID : string;
  Username : string;
  ExpiresAt : Z
}.

Inductive KeyError := ErrUDPKeyRegistryFull | ErrUDPKeyUnknown | ErrRand.

Record UDPKeyRegistry := mkRegistry {
  entries : gmap Z UDPKeyEntry;
  kmax : Z;
  ttl : Z;
  sinceSweep : Z;
  issued : Z;
  claimed : Z;
  rejected : Z
}.

Definition NewUDPKeyRegistry (max ttl : Z) : UDPKeyRegistry :=
  mkRegistry ∅ (if max <=? 0 then DefaultMaxUDPKeys else max)
    (if ttl <=? 0 then DefaultUDPKeyTTL else ttl) 0 0 0 0.

Definition with_entries (r : UDPKeyRegistry) (m : gmap Z UDPKeyEntry) : UDPKeyRegistry :=
  mkRegistry m (kmax r) (ttl r) (sinceSweep r) (issued r) (claimed r) (rejected r).

(** [now.Before(e.ExpiresAt)] *)
Definition unexpired (now : Z) (e : Z * UDPKeyEntry) : Prop := now < ExpiresAt e.2.

#[export] Instance unexpired_dec now e : Decision (unexpired now e).
Proof. unfold unexpired. apply _. Defined.

Definition sweepLocked (r : UDPKeyRegistry) (now : Z) : UDPKeyRegistry :=
  with_entries r (filter (unexpired now) (entries r)).

(** The count of issues since the last sweep, and the sweep it or the cap triggers. *)
Definition sweep_due (r : UDPKeyRegistry) (now : Z) : UDPKeyRegistry :=
  let n := sinceSweep r + 1 in
  let r := mkRegistry (entries r) (kmax r) (ttl r) n (issued r) (claimed r) (rejected r) in
  if (udpKeySweepThreshold <=? n) || (kmax r <=? Z.of_nat (size (entries r)))
  then
    let r := sweepLocked r now in
    mkRegistry (entries r) (kmax r) (ttl r) 0 (issued r) (claimed r) (rejected r)
  else r.

Definition Issue (r : UDPKeyRegistry) (rnd_key rnd_id : option bytes)
    (userID username : string) (now : Z)
  : UDPKeyRegistry * result KeyError (Z * UDPKeyEntry) :=
  match rnd_key, rnd_id with
  | Some key, Some idBuf =>
      let id := be_val idBuf in
      let id := if id =? 0 then 1 else id in
      let entry := mkKeyEntry key userID username (now + ttl r) in
      let r := sweep_due r now in
      if kmax r <=? Z.of_nat (size (entries r)) then
        (mkRegistry (entries r) (kmax r) (ttl r) (sinceSweep r) (issued r) (claimed r)
           (u64 (rejected r + 1)), Err ErrUDPKeyRegistryFull)
      else
        (mkRegistry (<[id := entry]> (entries r)) (kmax r) (ttl r) (sinceSweep r)
           (u64 (issued r + 1)) (claimed r) (rejected r), Ok (id, entry))
  | _, _ => (r, Err ErrRand)
  end.

Definition Lookup (r : UDPKeyRegistry) (id now : Z)
  : UDPKeyRegistry * result KeyError UDPKeyEntry :=
  match entries r !! id with
  | None => (r, Err ErrUDPKeyUnknown)
  | Some e =>
      if negb (now <? ExpiresAt e) then
        (with_entries r (delete id (entries r)), Err ErrUDPKeyUnknown)
      else
        (mkRegistry (entries r) (kmax r) (ttl r) (sinceSweep r) (issued r)
           (u64 (claimed r + 1)) (rejected r), Ok e)
  end.

Definition Revoke (r : UDPKeyRegistry) (id : Z) : UDPKeyRegistry :=
  with_entries r (delete id (entries r)).

Definition Len (r : UDPKeyRegistry) : Z := Z.of_nat (size (entries r)).
Definition KeyStats (r : UDPKeyRegistry) : Z * Z * Z := (issued r, claimed r, rejected r).

(** * Properties *)

(** ** Cookies *)

Record addr_ok (ap : AddrPort) : Prop := {
  ao_len : length (ap_as16 ap) = 16%nat;
  ao_port : in_u16 (ap_port ap)
}.

Lemma length_round s kw : length s = 8%nat -> length (Sha256.round s kw) = 8%nat.
Proof. intros. do 8 (destruct s as [|? s]; [done|]). by destruct s. Qed.

Lemma length_rounds l : forall s, length s = 8%nat -> length (fold_left Sha256.round l s) = 8%nat.
Proof. induction l; intros s Hs; [done|]. apply IHl. by apply length_round. Qed.

Lemma length_sha_blocks n : forall s m, length s = 8%nat -> length (Sha256.blocks n s m) = 8%nat.
Proof.
  induction n as [|n IH]; intros s m Hs; [done|]. apply IH. unfold Sha256.block.
  rewrite length_zip_with, length_rounds, Hs by done. done.
Qed.

Lemma length_sha m : length (Sha256.sum m) = 32%nat.
Proof.
  unfold Sha256.sum.
  pose proof (length_sha_blocks (length (Sha256.pad m) / 64) Sha256.H0 (Sha256.pad m) eq_refl) as H.
  cbv zeta. remember (Sha256.blocks _ _ _) as l. clear Heql.
  do 8 (destruct l as [|? l]; [done|]). destruct l; [|done]. reflexivity.
Qed.

Lemma length_mac s buf : length (mac s buf) = HandshakeCookieSize.
Proof. unfold mac, hmac_sha256. rewrite length_take, length_sha. done. Qed.

(** What [Verify] accepts: the MAC of the tuple in the current or previous slot. *)
Lemma Verify_true s cookie ap cs ss now :
  Verify s cookie ap cs ss now = true <->
  cookie = compute s ap cs ss (slotOf s now) \/ cookie = compute s ap cs ss (slotOf s now - 1).
Proof.
  unfold Verify. split.
  - case_match; [done|]. case_decide; [by left|]. intros H1%bool_decide_eq_true. by right.
  - intros H. assert (length cookie = HandshakeCookieSize) as ->
      by (destruct H as [-> | ->]; apply length_mac).
    simpl. case_decide; [done|]. apply bool_decide_eq_true_2. by destruct H.
Qed.

(** The encoding is of fixed width, so it determines the tuple. *)
Lemma cookie_input_inj a1 c1 s1 n1 a2 c2 s2 n2 :
  addr_ok a1 -> addr_ok a2 -> in_u64 c1 -> in_u64 c2 -> in_u64 s1 -> in_u64 s2 ->
  in_i64 n1 -> in_i64 n2 ->
  cookie_input a1 c1 s1 n1 = cookie_input a2 c2 s2 n2 ->
  ap_as16 a1 = ap_as16 a2 /\ ap_port a1 = ap_port a2 /\ c1 = c2 /\ s1 = s2 /\ n1 = n2.
Proof.
  intros [L1 P1] [L2 P2] Hc1 Hc2 Hs1 Hs2 Hn1 Hn2 H. unfold cookie_input in H.
  assert (forall n x y l1 l2, be_bytes n x ++ l1 = be_bytes n y ++ l2 ->
            x mod 256 ^ Z.of_nat n = y mod 256 ^ Z.of_nat n /\ l1 = l2) as He.
  { intros n x y l1 l2 E. apply app_inj_1 in E as [E ?]; [|by rewrite !length_be_bytes].
    split; [|done]. by rewrite <- !be_val_bytes, E. }
  apply app_inj_1 in H as [-> H]; [|congruence].
  apply He in H as [Hp H]. apply He in H as [Hc H]. apply He in H as [Hs H].
  rewrite <- (app_nil_r (be_bytes 8 (u64 n1))), <- (app_nil_r (be_bytes 8 (u64 n2))) in H.
  apply He in H as [Hn _].
  change (256 ^ Z.of_nat 2) with (2 ^ 16) in *. change (256 ^ Z.of_nat 8) with (2 ^ 64) in *.
  rewrite !Z.mod_small in Hp, Hc, Hs by done.
  rewrite !Z.mod_small in Hn by apply u64_range.
  split_and!; [done..|]. clear -Hn Hn1 Hn2. go_int.
Qed.

Lemma slotOf_bounds s now : 0 < slot s -> 0 <= now ->
  slot s * slotOf s now <= now < slot s * (slotOf s now + 1) /\ 0 <= slotOf s now <= now.
Proof.
  intros Hs Hn. unfold slotOf. rewrite Z.quot_div_nonneg by done.
  pose proof (Z.div_mod now (slot s)). pose proof (Z.mod_pos_bound now (slot s) Hs).
  assert (0 <= now / slot s) by (apply Z.div_pos; lia). nia.
Qed.

Lemma Mint_soon s ap c sv t1 t2 : 0 < slot s -> 0 <= t1 -> 0 <= t2 - t1 <= slot s ->
  Verify s (Mint s ap c sv t1) ap c sv t2 = true.
Proof.
  intros Hs H1 Hd. apply Verify_true. unfold Mint.
  pose proof (slotOf_bounds s t1 Hs H1) as B1.
  pose proof (slotOf_bounds s t2 Hs ltac:(lia)) as B2.
  assert (slotOf s t1 = slotOf s t2 \/ slotOf s t1 = slotOf s t2 - 1) as [-> | ->] by nia;
    [by left|by right].
Qed.

(** A handshake cookie binds the tuple it was minted for, and expires.  A cookie
    minted at [t1] verifies for the same address and salts at every time up to one slot
    later (15 s by default).  If it verifies for a tuple at [t2], then either it is the
    tuple it was minted for (an IPv4 address and its IPv4-mapped spelling being one
    address) and less than two slots passed, or the truncated HMAC maps two different
    inputs to one value, which are exhibited. *)
Theorem cookie_binds_tuple (s : HandshakeCookieSigner) (a1 a2 : AddrPort)
    (c1 s1 c2 s2 t1 t2 : Z)
    (Hslot : 0 < slot s)
    (Ha : addr_ok a1 /\ addr_ok a2) (Hc : in_u64 c1 /\ in_u64 c2)
    (Hs : in_u64 s1 /\ in_u64 s2) (Ht : 0 <= t1 < 2 ^ 63 /\ 0 <= t2 < 2 ^ 63) :
  (0 <= t2 - t1 <= slot s -> Verify s (Mint s a1 c1 s1 t1) a1 c1 s1 t2 = true) /\
  (Verify s (Mint s a1 c1 s1 t1) a2 c2 s2 t2 = true ->
     (ap_as16 a1 = ap_as16 a2 /\ ap_port a1 = ap_port a2 /\ c1 = c2 /\ s1 = s2 /\
      - slot s < t2 - t1 < 2 * slot s)
     \/ exists n, n ∈ [slotOf s t2; slotOf s t2 - 1] /\
           let b1 := cookie_input a1 c1 s1 (slotOf s t1) in
           let b2 := cookie_input a2 c2 s2 n in
           b1 <> b2 /\ mac s b1 = mac s b2).
Proof.
  destruct Ha, Hc, Hs, Ht as [Ht1 Ht2].
  pose proof (slotOf_bounds s t1 Hslot (proj1 Ht1)) as B1.
  pose proof (slotOf_bounds s t2 Hslot (proj1 Ht2)) as B2. split.
  - intros Hd. apply Mint_soon; [done|lia|done].
  - intros HV. apply Verify_true in HV.
    assert (exists n, n ∈ [slotOf s t2; slotOf s t2 - 1] /\
              Mint s a1 c1 s1 t1 = compute s a2 c2 s2 n) as (n & Hn & E).
    { destruct HV as [E|E]; [exists (slotOf s t2)|exists (slotOf s t2 - 1)];
        (split; [set_solver|done]). }
    destruct (decide (cookie_input a1 c1 s1 (slotOf s t1) = cookie_input a2 c2 s2 n)) as [Eb|Hne].
    + left. apply cookie_input_inj in Eb as (?&?&?&?&En); [|done..| |].
      * split_and!; [done..| |]; apply list_elem_of_In in Hn; simpl in Hn; nia.
      * unfold in_i64. lia.
      * unfold in_i64. apply list_elem_of_In in Hn; simpl in Hn. lia.
    + right. exists n. split; [done|]. split; [done|]. exact E.
Qed.

(** ** The registry

    The specification: the keys that are live now, with no sweeping and no counters. *)

Definition live (m : gmap Z UDPKeyEntry) (now : Z) : gmap Z UDPKeyEntry :=
  filter (unexpired now) m.

Inductive key_op :=
| OpIssue (rnd_key rnd_id : option bytes) (userID username : string)
| OpLookup (id : Z)
| OpRevoke (id : Z).

Inductive key_out :=
| OutIssued (id : Z) (e : UDPKeyEntry)
| OutFound (e : UDPKeyEntry)
| OutDone
| OutError (e : KeyError).

Definition impl_step (r : UDPKeyRegistry) (now : Z) (op : key_op) : UDPKeyRegistry * key_out :=
  match op with
  | OpIssue k i u n =>
      match Issue r k i u n now with
      | (r, Ok (id, e)) => (r, OutIssued id e)
      | (r, Err e) => (r, OutError e)
      end
  | OpLookup id =>
      match Lookup r id now with
      | (r, Ok e) => (r, OutFound e)
      | (r, Err e) => (r, OutError e)
      end
  | OpRevoke id => (Revoke r id, OutDone)
  end.

Definition spec_step (max ttl : Z) (m : gmap Z UDPKeyEntry) (now : Z) (op : key_op)
  : gmap Z UDPKeyEntry * key_out :=
  let m := live m now in
  match op with
  | OpIssue (Some k) (Some i) u n =>
      let id := if be_val i =? 0 then 1 else be_val i in
      let e := mkKeyEntry k u n (now + ttl) in
      if max <=? Z.of_nat (size m) then (m, OutError ErrUDPKeyRegistryFull)
      else (<[id := e]> m, OutIssued id e)
  | OpIssue _ _ _ _ => (m, OutError ErrRand)
  | OpLookup id =>
      match m !! id with
      | Some e => (m, OutFound e)
      | None => (m, OutError ErrUDPKeyUnknown)
      end
  | OpRevoke id => (delete id m, OutDone)
  end.

(** A run: operations with the times they are called at. *)
Fixpoint impl_run (r : UDPKeyRegistry) (l : list (Z * key_op)) : UDPKeyRegistry * list key_out :=
  match l with
  | [] => (r, [])
  | (now, op) :: l =>
      let '(r, o) := impl_step r now op in
      let '(r, os) := impl_run r l in (r, o :: os)
  end.

Fixpoint spec_run (max ttl : Z) (m : gmap Z UDPKeyEntry) (l : list (Z * key_op))
  : gmap Z UDPKeyEntry * list key_out :=
  match l with
  | [] => (m, [])
  | (now, op) :: l =>
      let '(m, o) := spec_step max ttl m now op in
      let '(m, os) := spec_run max ttl m l in (m, o :: os)
  end.

(** The simulation: the two tables have the same live keys from [now] on. *)
Record key_sim (mx tl now : Z) (r : UDPKeyRegistry) (m : gmap Z UDPKeyEntry) : Prop := {
  ks_max : kmax r = mx;
  ks_ttl : ttl r = tl;
  ks_live : forall t, now <= t -> live (entries r) t = live m t;
  ks_size : Z.of_nat (size (entries r)) <= mx
}.

Lemma live_live m t t' : t <= t' -> live (live m t) t' = live m t'.
Proof.
  intros Ht. apply map_eq. intros i. apply option_eq. intros e. unfold live, unexpired.
  rewrite !map_lookup_filter_Some. simpl. split; [tauto|]. intros [? ?]. split_and!; [done|lia|done].
Qed.

Lemma live_insert m id e t : t < ExpiresAt e -> live (<[id := e]> m) t = <[id := e]> (live m t).
Proof. intros. apply map_filter_insert_True. exact H. Qed.

Lemma live_insert_expired m id e t : ~ t < ExpiresAt e -> live (<[id := e]> m) t = delete id (live m t).
Proof. intros. unfold live. rewrite map_filter_insert_False by exact H. apply map_filter_delete. Qed.

Lemma live_delete m id t : live (delete id m) t = delete id (live m t).
Proof. apply map_filter_delete. Qed.

Lemma live_size m t : (size (live m t) <= size m)%nat.
Proof. apply map_subseteq_size, map_filter_subseteq. Qed.

Lemma sim_lookup mx tl now r m id : key_sim mx tl now r m ->
  live m now !! id = e' ← entries r !! id; if decide (now < ExpiresAt e') then Some e' else None.
Proof.
  intros []. rewrite <- ks_live0 by lia. unfold live, unexpired.
  rewrite map_lookup_filter. destruct (entries r !! id); [|done]. simpl.
  by case_guard; case_decide.
Qed.

Lemma sweep_due_sim mx tl now r m : key_sim mx tl now r m ->
  let r' := sweep_due r now in
  key_sim mx tl now r' m /\
  (mx <=? Z.of_nat (size (entries r'))) = (mx <=? Z.of_nat (size (live m now))).
Proof.
  intros [Hm Ht Hl Hs]. unfold sweep_due. cbn zeta.
  pose proof (live_size (entries r) now) as Hsz.
  case_match eqn:E; simpl in *; (split; [constructor; simpl; try done|]).
  - intros t Ht'. rewrite <- Hl by done. by apply live_live.
  - unfold live in Hsz. lia.
  - fold (live (entries r) now). by rewrite Hl by lia.
  - apply orb_false_iff in E as [_ E]. rewrite Hm in E. rewrite E. symmetry.
    apply Z.leb_gt in E. apply Z.leb_gt. rewrite <- Hl by lia. lia.
Qed.

Lemma sim_relive mx tl now r m : key_sim mx tl now r m -> key_sim mx tl now r (live m now).
Proof. intros []. constructor; try done. intros. rewrite live_live by done. by apply ks_live0. Qed.

(** One operation: the same answer, and the tables stay related. *)
Lemma key_step_sim mx tl now r m op : 0 < mx -> 0 < tl -> key_sim mx tl now r m ->
  let '(r', o) := impl_step r now op in
  let '(m', o') := spec_step mx tl m now op in
  o = o' /\ key_sim mx tl now r' m'.
Proof.
  intros Hmx Htl Hsim. destruct op as [[k|] [i|] u n|id|id]; simpl;
    try (split; [done|by apply sim_relive]).
  - pose proof (sweep_due_sim _ _ _ _ _ Hsim) as Hd. cbv zeta in Hd. destruct Hd as [Hs' Hb].
    destruct Hs' as [Hm Ht Hl Hs]. rewrite Hm, Hb.
    assert (ttl r = tl) as -> by apply (ks_ttl _ _ _ _ _ Hsim).
    destruct (mx <=? Z.of_nat (size (live m now))) eqn:E; (split; [done|]); constructor; simpl; try done.
    + intros. rewrite live_live by done. by apply Hl.
    + intros t Ht'. destruct (decide (t < now + tl)).
      * rewrite !live_insert by done. by rewrite Hl, live_live.
      * rewrite !live_insert_expired by done. by rewrite Hl, live_live.
    + rewrite map_size_insert. case_match; simpl; lia.
  - unfold Lookup. rewrite (sim_lookup _ _ _ _ _ _ Hsim).
    destruct (entries r !! id) as [e|] eqn:E; simpl; [|split; [done|by apply sim_relive]].
    case_decide as Hd.
    + rewrite (proj2 (Z.ltb_lt _ _) Hd). simpl. split; [done|].
      apply sim_relive. by destruct Hsim; constructor.
    + rewrite (proj2 (Z.ltb_ge _ _)) by lia. simpl. split; [done|].
      apply sim_relive. destruct Hsim; constructor; simpl; try done.
      * intros t Ht'. rewrite live_delete, <- ks_live0 by done. apply delete_id.
        unfold live, unexpired. rewrite map_lookup_filter, E. simpl. case_guard; [|done].
        simpl in *. lia.
      * rewrite map_size_delete. case_match; simpl; lia.
  - split; [done|]. apply sim_relive in Hsim. destruct Hsim; constructor; simpl; try done.
    + intros. rewrite !live_delete. by rewrite ks_live0.
    + rewrite map_size_delete. case_match; simpl; lia.
Qed.

Lemma key_sim_later mx tl now now' r m : now <= now' -> key_sim mx tl now r m -> key_sim mx tl now' r m.
Proof. intros ? []. constructor; try done. intros. apply ks_live0. lia. Qed.

Lemma key_run_sim mx tl l : forall now r m, 0 < mx -> 0 < tl ->
  Sorted Z.le (now :: l.*1) -> key_sim mx tl now r m ->
  (impl_run r l).2 = (spec_run mx tl m l).2 /\
  Z.of_nat (size (entries (impl_run r l).1)) <= mx.
Proof.
  induction l as [|[t op] l IH]; intros now r m Hmx Htl Hl Hs; simpl.
  { by destruct Hs. }
  apply Sorted_inv in Hl as [Hl Hd]. inversion Hd as [|? ? Hle]; subst. simpl in Hle.
  apply (key_sim_later _ _ _ t) in Hs; [|done].
  pose proof (key_step_sim mx tl t r m op Hmx Htl Hs) as H.
  destruct (impl_step r t op) as [r' o], (spec_step mx tl m t op) as [m' o'].
  destruct H as [-> H]. destruct (IH t r' m' Hmx Htl Hl H) as [IH1 IH2].
  destruct (impl_run r' l), (spec_run mx tl m' l). simpl in *. by subst.
Qed.

(** C38: the key registry answers like a table that forgets each key the instant it
    expires.  Sweeping happens only at the cap or every 64th issue, expired keys stay in
    the table meanwhile and lookups delete some of them; yet over any sequence of issues,
    lookups and revocations at non-decreasing times every answer, the refusals of a full
    registry included, is that of the specification, in which the only entries are the
    keys issued, not revoked and not yet expired; and the table never exceeds its cap. *)
Theorem registry_refines (mx tl now : Z) (l : list (Z * key_op))
    (Hl : Sorted Z.le (now :: l.*1)) :
  let r := NewUDPKeyRegistry mx tl in
  (impl_run r l).2 = (spec_run (kmax r) (ttl r) ∅ l).2 /\
  Len (impl_run r l).1 <= kmax r.
Proof.
  intros r.
  assert (0 < kmax r /\ 0 < ttl r) as [? ?].
  { unfold r, NewUDPKeyRegistry, DefaultMaxUDPKeys, DefaultUDPKeyTTL. simpl.
    destruct (Z.leb_spec mx 0), (Z.leb_spec tl 0); lia. }
  apply (key_run_sim _ _ l now); [done..|]. constructor; [done..|].
  unfold r. simpl. rewrite map_size_empty. unfold r in *. simpl in *. lia.
Qed.

(** ** Witnesses *)

Definition toy_signer : HandshakeCookieSigner := mkSigner (replicate 32 7) defaultCookieSlot.
Definition toy_addr (port : Z) : AddrPort := mkAddr true (replicate 16 1) port.

Lemma cookie_binds_tuple_witness :
  Verify toy_signer (Mint toy_signer (toy_addr 9000) 5 6 1000) (toy_addr 9000) 5 6
    (1000 + 15 * 1000000000) = true /\
  Verify toy_signer (Mint toy_signer (toy_addr 9000) 5 6 1000) (toy_addr 9001) 5 6 1000 = false /\
  Verify toy_signer (Mint toy_signer (toy_addr 9000) 5 6 1000) (toy_addr 9000) 5 6
    (30 * 1000000000) = false.
Proof.
  split; [|vm_compute; by split].
  apply (cookie_binds_tuple toy_signer (toy_addr 9000) (toy_addr 9000) 5 6 5 6 1000
           (1000 + 15 * 1000000000)); repeat split; by vm_compute.
Defined.

Definition sample_key_ops : list (Z * key_op) :=
  [(10, OpIssue (Some [1]) (Some [0; 5]) "u1" "ann"); (11, OpLookup 5);
   (20, OpIssue (Some [2]) (Some [0; 6]) "u2" "bob");
   (110, OpIssue (Some [3]) (Some [0; 0]) "u3" "eve"); (110, OpLookup 5); (111, OpRevoke 1);
   (112, OpLookup 1)]%string.

Lemma registry_refines_witness :
  (impl_run (NewUDPKeyRegistry 1 100) sample_key_ops).2
    = [OutIssued 5 (mkKeyEntry [1] "u1" "ann" 110); OutFound (mkKeyEntry [1] "u1" "ann" 110);
       OutError ErrUDPKeyRegistryFull; OutIssued 1 (mkKeyEntry [3] "u3" "eve" 210);
       OutError ErrUDPKeyUnknown; OutDone; OutError ErrUDPKeyUnknown]%string.
Proof.
  refine (eq_trans (proj1 (registry_refines 1 100 0 sample_key_ops _)) _);
    [|vm_compute; reflexivity].
  repeat constructor; vm_compute; congruence.
Defined.
