(* ===== verification/UdpServer.v ===== *)
(** * The UDP listener and the connection manager (pkg/net/udp_server.go, server.go)

    One socket serves every session: the reader goroutine dispatches each datagram by its
    type, established sessions are found by token and must come from the address they are
    bound to, and a session comes into existence only in [promoteConfirmed].  A transport
    is a pointer into a store, because the session maps, the connection manager and the
    ticker goroutine share it.  Creating a session is two steps, as the code releases its
    lock in between and may block on the event channel: [promote_begin] registers the
    transport with the connection manager, [promote_publish] enters it in the session
    maps; ticks and closes of other goroutines may fall between them, packets may not
    (there is one reader).  An event that finds the channel full delays its sender only;
    the model appends it.  The remote address is kept as the value its string is made
    from. *)

From S2P Require Import Prelude UdpProto UdpCrypto UdpTransport UdpHandshake.

#[export] Instance AddrPort_countable : Countable AddrPort.
Proof.
  apply (inj_countable' (fun a => (ap_is4 a, ap_as16 a, ap_port a))
           (fun '(x, y, z) => mkAddr x y z)).
  by intros [].
Defined.

Definition defaultMaxUDPConnections : Z := 1024.

Record PlayerEvent := mkEvent { ConnID : Z; Connected : bool; Disconnect : bool }.

(** A promotion between its two steps: what the reader goroutine holds. *)
Record promotion := mkPromotion {
  pr_ptr : nat;
  pr_conn : Z;
  pr_token : Z;
  pr_addr : AddrPort;
  pr_entry : UDPKeyEntry;
  pr_announce : bool
}.

(** [ConnManager], its transports as pointers.  [removing] is not a field of the code: it
    is the transports held by the calls of [Remove] that have taken the entry out and not
    yet closed the transport. *)
Record ConnManager := mkConnMgr {
  conns : gmap Z nat;
  remoteAddrs : gmap Z AddrPort;
  nextID : Z;
  events : list PlayerEvent;
  removing : gset nat
}.

Record UDPServer := mkServer {
  store : gmap nat UDPTransport;
  nextPtr : nat;
  byToken : gmap Z nat;
  byAddr : gmap AddrPort nat;
  connIDs : gmap nat Z;
  connMgr : ConnManager;
  cookies : HandshakeCookieSigner;
  keys : option UDPKeyRegistry;
  onAuthenticated : bool;
  maxConnections : Z;
  srvLimits : WireLimits;
  sourceMismatchDrops : Z;
  capacityDrops : Z;
  handshakeRejectDrops : Z;
  promoting : option promotion;
  (** the calls of [onAuthenticated], and the handshake datagrams written *)
  announced : list (Z * string * string);
  outbox : list (AddrPort * bytes)
}.

Definition NewConnManager : ConnManager := mkConnMgr ∅ ∅ 0 [] ∅.

Definition NewUDPServer (signer : HandshakeCookieSigner) : UDPServer :=
  mkServer ∅ 0 ∅ ∅ ∅ NewConnManager signer None false defaultMaxUDPConnections
    DefaultWireLimits 0 0 0 None [] [].

(** Field updates. *)
Definition set_store (s : UDPServer) (v : gmap nat UDPTransport) : UDPServer :=
  mkServer v (nextPtr s) (byToken s) (byAddr s) (connIDs s) (connMgr s) (cookies s) (keys s)
    (onAuthenticated s) (maxConnections s) (srvLimits s) (sourceMismatchDrops s)
    (capacityDrops s) (handshakeRejectDrops s) (promoting s) (announced s) (outbox s).
Definition set_maps (s : UDPServer) (tk : gmap Z nat) (ad : gmap AddrPort nat) (ids : gmap nat Z)
  : UDPServer :=
  mkServer (store s) (nextPtr s) tk ad ids (connMgr s) (cookies s) (keys s)
    (onAuthenticated s) (maxConnections s) (srvLimits s) (sourceMismatchDrops s)
    (capacityDrops s) (handshakeRejectDrops s) (promoting s) (announced s) (outbox s).
Definition set_connMgr (s : UDPServer) (v : ConnManager) : UDPServer :=
  mkServer (store s) (nextPtr s) (byToken s) (byAddr s) (connIDs s) v (cookies s) (keys s)
    (onAuthenticated s) (maxConnections s) (srvLimits s) (sourceMismatchDrops s)
    (capacityDrops s) (handshakeRejectDrops s) (promoting s) (announced s) (outbox s).
Definition set_keys (s : UDPServer) (v : option UDPKeyRegistry) : UDPServer :=
  mkServer (store s) (nextPtr s) (byToken s) (byAddr s) (connIDs s) (connMgr s) (cookies s) v
    (onAuthenticated s) (maxConnections s) (srvLimits s) (sourceMismatchDrops s)
    (capacityDrops s) (handshakeRejectDrops s) (promoting s) (announced s) (outbox s).
Definition set_config (s : UDPServer) (auth : bool) (max : Z) (l : WireLimits) : UDPServer :=
  mkServer (store s) (nextPtr s) (byToken s) (byAddr s) (connIDs s) (connMgr s) (cookies s)
    (keys s) auth max l (sourceMismatchDrops s)
    (capacityDrops s) (handshakeRejectDrops s) (promoting s) (announced s) (outbox s).
Definition set_counts (s : UDPServer) (mismatch capacity reject : Z) : UDPServer :=
  mkServer (store s) (nextPtr s) (byToken s) (byAddr s) (connIDs s) (connMgr s) (cookies s)
    (keys s) (onAuthenticated s) (maxConnections s) (srvLimits s) mismatch capacity reject
    (promoting s) (announced s) (outbox s).
Definition set_promoting (s : UDPServer) (st : gmap nat UDPTransport) (next : nat)
    (p : option promotion) : UDPServer :=
  mkServer st next (byToken s) (byAddr s) (connIDs s) (connMgr s) (cookies s)
    (keys s) (onAuthenticated s) (maxConnections s) (srvLimits s) (sourceMismatchDrops s)
    (capacityDrops s) (handshakeRejectDrops s) p (announced s) (outbox s).
Definition announce (s : UDPServer) (id : Z) (userID username : string) : UDPServer :=
  mkServer (store s) (nextPtr s) (byToken s) (byAddr s) (connIDs s) (connMgr s) (cookies s)
    (keys s) (onAuthenticated s) (maxConnections s) (srvLimits s) (sourceMismatchDrops s)
    (capacityDrops s) (handshakeRejectDrops s) (promoting s)
    (announced s ++ [(id, userID, username)]) (outbox s).
Definition write_to (s : UDPServer) (ap : AddrPort) (pkt : bytes) : UDPServer :=
  mkServer (store s) (nextPtr s) (byToken s) (byAddr s) (connIDs s) (connMgr s) (cookies s)
    (keys s) (onAuthenticated s) (maxConnections s) (srvLimits s) (sourceMismatchDrops s)
    (capacityDrops s) (handshakeRejectDrops s) (promoting s) (announced s)
    (outbox s ++ [(ap, pkt)]).

(** ** The connection manager *)

Definition registerTransport (cm : ConnManager) (connID : Z) (t : nat) (remoteAddr : AddrPort)
  : ConnManager :=
  mkConnMgr (<[connID := t]> (conns cm)) (<[connID := remoteAddr]> (remoteAddrs cm)) (nextID cm)
    (events cm ++ [mkEvent connID true false]) (removing cm).

Definition AddTransport (cm : ConnManager) (t : nat) (remoteAddr : AddrPort)
  : ConnManager * Z :=
  let connID := u32 (nextID cm + 1) in
  let cm := mkConnMgr (conns cm) (remoteAddrs cm) connID (events cm) (removing cm) in
  (registerTransport cm connID t remoteAddr, connID).

Definition Unregister (cm : ConnManager) (id : Z) : ConnManager :=
  mkConnMgr (delete id (conns cm)) (delete id (remoteAddrs cm)) (nextID cm)
    (events cm ++ [mkEvent id false true]) (removing cm).

Definition Get (cm : ConnManager) (id : Z) : option nat := conns cm !! id.
Definition ConnectionCount (cm : ConnManager) : Z := Z.of_nat (size (conns cm)).

(** ** Settings *)

Definition SetMaxConnections (s : UDPServer) (n : Z) : UDPServer :=
  if 0 <? n then set_config s (onAuthenticated s) n (srvLimits s) else s.
Definition SetWireLimits (s : UDPServer) (l : WireLimits) : UDPServer :=
  set_config s (onAuthenticated s) (maxConnections s) (Normalized l).
Definition SetKeyRegistry (s : UDPServer) (r : UDPKeyRegistry) : UDPServer :=
  set_keys s (Some r).
Definition SetOnAuthenticated (s : UDPServer) (installed : bool) : UDPServer :=
  set_config s installed (maxConnections s) (srvLimits s).

Inductive DropCounter := SourceMismatch | Capacity | HandshakeReject.

(** [noteDrop], without its throttled log line. *)
Definition noteDrop (s : UDPServer) (c : DropCounter) : UDPServer :=
  match c with
  | SourceMismatch => set_counts s (u64 (sourceMismatchDrops s + 1)) (capacityDrops s)
                        (handshakeRejectDrops s)
  | Capacity => set_counts s (sourceMismatchDrops s) (u64 (capacityDrops s + 1))
                  (handshakeRejectDrops s)
  | HandshakeReject => set_counts s (sourceMismatchDrops s) (capacityDrops s)
                         (u64 (handshakeRejectDrops s + 1))
  end.

Section Server.
Context (hkdf_key : bytes -> bytes -> string -> nat -> option bytes).
Context (aead_seal : bytes -> bytes -> bytes -> bytes -> bytes).
Context (aead_open : bytes -> bytes -> bytes -> bytes -> option bytes).
Context (net_write : bytes -> WriteOutcome).

(** Runs an operation of the transport [p] points to. *)
Definition on_transport (s : UDPServer) (p : nat) (f : UDPTransport -> UDPTransport) : UDPServer :=
  set_store s (alter f p (store s)).

(** ** Finding and forgetting sessions *)

(** [routeFor]: the session of the token, if the packet came from its address. *)
Definition routeFor (s : UDPServer) (tok : Z) (ap : AddrPort) : UDPServer * option nat :=
  match byToken s !! tok with
  | None => (s, None)
  | Some p =>
      match store s !! p with
      | None => (s, None)
      | Some t => if decide (addr t = ap) then (s, Some p)
                  else (noteDrop s SourceMismatch, None)
      end
  end.

(** Deletes the entry of a key if it is [p]'s. *)
Definition delete_if {K} `{Countable K} (k : K) (p : nat) (m : gmap K nat) : gmap K nat :=
  if decide (m !! k = Some p) then delete k m else m.

Definition forgetTransport (s : UDPServer) (p : nat) : UDPServer * option Z :=
  match store s !! p with
  | None => (s, None)
  | Some t =>
      (set_maps s (delete_if (token t) p (byToken s)) (delete_if (addr t) p (byAddr s))
         (delete p (connIDs s)), connIDs s !! p)
  end.

(** [UDPTransport.Close], the session maps included. *)
Definition closeTransport (s : UDPServer) (p : nat) : UDPServer :=
  match store s !! p with
  | None => s
  | Some t =>
      if closed t then s
      else
        let '(s, _) := forgetTransport s p in
        on_transport s p (Close aead_seal net_write)
  end.

Definition unregister_if (s : UDPServer) (id : option Z) : UDPServer :=
  match id with
  | Some id => set_connMgr s (Unregister (connMgr s) id)
  | None => s
  end.

Definition removeTransport (s : UDPServer) (p : nat) : UDPServer :=
  let '(s, connID) := forgetTransport s p in
  let s := closeTransport s p in
  unregister_if s connID.

(** [ConnManager.Remove] is two steps: the entry is taken out under the lock, and the
    transport it named, if there is one, is closed once the lock is released. *)
Definition removeEntry (s : UDPServer) (id : Z) : UDPServer :=
  let cm := connMgr s in
  set_connMgr s (mkConnMgr (delete id (conns cm)) (delete id (remoteAddrs cm)) (nextID cm) (events cm)
    (match conns cm !! id with Some p => {[p]} ∪ removing cm | None => removing cm end)).

Definition removeClose (s : UDPServer) (p : nat) : UDPServer :=
  let cm := connMgr s in
  closeTransport (set_connMgr s (mkConnMgr (conns cm) (remoteAddrs cm) (nextID cm) (events cm)
                                   (removing cm ∖ {[p]}))) p.

(** The two without interruption. *)
Definition Remove (s : UDPServer) (id : Z) : UDPServer :=
  match conns (connMgr s) !! id with
  | Some p => removeClose (removeEntry s id) p
  | None => removeEntry s id
  end.

(** ** The handshake *)

Definition promote_begin (s : UDPServer) (mono : Z) (tok : Z) (ap : AddrPort) (cs ss : Z)
    (sess : Session) (entry : UDPKeyEntry) : UDPServer :=
  match byToken s !! tok with
  | Some _ => s
  | None =>
      if maxConnections s <=? Z.of_nat (size (byToken s)) then noteDrop s Capacity
      else
        let p := nextPtr s in
        let t := newUDPTransport ap tok cs ss (srvLimits s) sess mono in
        let '(cm, connID) := AddTransport (connMgr s) p ap in
        set_connMgr
          (set_promoting s (<[p := t]> (store s)) (S p)
             (Some (mkPromotion p connID tok ap entry (onAuthenticated s)))) cm
  end.

Definition promote_publish (s : UDPServer) : UDPServer :=
  match promoting s with
  | None => s
  | Some pr =>
      let s := set_maps s (<[pr_token pr := pr_ptr pr]> (byToken s))
                 (<[pr_addr pr := pr_ptr pr]> (byAddr s))
                 (<[pr_ptr pr := pr_conn pr]> (connIDs s)) in
      let s := set_promoting s (store s) (nextPtr s) None in
      if pr_announce pr then announce s (pr_conn pr) (UserID (pr_entry pr)) (Username (pr_entry pr))
      else s
  end.

(** [salt] is the eight random bytes, [None] the error of the generator. *)
Definition handleConnReq (s : UDPServer) (data : bytes) (ap : AddrPort) (wall : Z)
    (salt : option bytes) : UDPServer :=
  match DecodeConnReq data with
  | Err _ => s
  | Ok cs =>
      match byAddr s !! ap ≫= fun p => store s !! p with
      | Some t =>
          let cookie := Mint (cookies s) ap (clientSalt t) (serverSalt t) wall in
          write_to s ap (EncodeConnAccept (clientSalt t) (serverSalt t) cookie)
      | None =>
          match salt with
          | None => s
          | Some saltBuf =>
              let ss := le_val saltBuf in
              let cookie := Mint (cookies s) ap cs ss wall in
              write_to s ap (EncodeConnAccept cs ss cookie)
          end
      end
  end.

Definition handleConnConfirm (s : UDPServer) (data : bytes) (ap : AddrPort) (wall mono : Z)
  : UDPServer :=
  match DecodeConnConfirm data with
  | Err _ => s
  | Ok (keyID, cs, ss, cookie) =>
      if negb (Verify (cookies s) cookie ap cs ss wall) then noteDrop s HandshakeReject
      else
        match keys s with
        | None => noteDrop s HandshakeReject
        | Some r =>
            let '(r, e) := Lookup r keyID wall in
            let s := set_keys s (Some r) in
            match e with
            | Err _ => noteDrop s HandshakeReject
            | Ok entry =>
                match NewSession hkdf_key (Key entry) RoleServer (SessionSalt cs ss) with
                | Err _ => noteDrop s HandshakeReject
                | Ok sess => promote_begin s mono (MakeToken cs ss) ap cs ss sess entry
                end
            end
        end
  end.

(** ** Established sessions *)

Definition handleDisconnectPacket (s : UDPServer) (tok counter : Z) (aad sealed : bytes)
    (ap : AddrPort) : UDPServer :=
  match routeFor s tok ap with
  | (s, None) => s
  | (s, Some p) =>
      match store s !! p with
      | None => s
      | Some t =>
          let '(c, r) := Open aead_open (crypto t) [] counter sealed aad in
          let s := on_transport s p (fun t => set_crypto t c) in
          match r with
          | Err _ => on_transport s p (fun t => noteInboundDrop t DropAuth)
          | Ok _ => removeTransport s p
          end
      end
  end.

Definition deliver (s : UDPServer) (tok : Z) (ap : AddrPort) (f : UDPTransport -> UDPTransport)
  : UDPServer :=
  match routeFor s tok ap with
  | (s, Some p) => on_transport s p f
  | (s, None) => s
  end.

(** [dispatch]; [Run] skips empty datagrams. *)
Definition dispatch (s : UDPServer) (data : bytes) (ap : AddrPort) (wall mono : Z)
    (salt : option bytes) : UDPServer :=
  match data with
  | [] => s
  | pktType :: _ =>
      if pktType =? TypeConnReq then handleConnReq s data ap wall salt
      else if pktType =? TypeConnConfirm then handleConnConfirm s data ap wall mono
      else if pktType =? TypeUnreliable then
        match DecodeUnreliable data with
        | Err _ => s
        | Ok (tok, counter, aad, sealed) =>
            deliver s tok ap (fun t => handleUnreliable aead_open t mono counter aad sealed)
        end
      else if pktType =? TypeReliable then
        match DecodeReliable data with
        | Err _ => s
        | Ok (tok, seq, counter, aad, sealed) =>
            deliver s tok ap (fun t => handleReliable aead_open t mono seq counter aad sealed)
        end
      else if pktType =? TypeACK then
        match DecodeACK data with
        | Err _ => s
        | Ok (tok, counter, aad, sealed) =>
            deliver s tok ap (fun t => handleACK aead_open t mono counter aad sealed)
        end
      else if pktType =? TypeDisconnect then
        match DecodeDisconnect data with
        | Err _ => s
        | Ok (tok, counter, aad, sealed) => handleDisconnectPacket s tok counter aad sealed ap
        end
      else s
  end.

(** One round of a transport's [tickLoop], which [Close] stops. *)
Definition tickTransport (s : UDPServer) (p : nat) (mono : Z) : UDPServer :=
  match store s !! p with
  | None => s
  | Some t =>
      if closed t then s
      else
        let '(t', alive) := maintenanceTick aead_seal net_write t mono in
        let s := set_store s (<[p := t']> (store s)) in
        if alive then s
        else
          let '(s, connID) := forgetTransport s p in
          unregister_if s connID
  end.

(** ** Sending and receiving by connection id *)

Definition send_with (s : UDPServer) (connID : Z)
    (f : UDPTransport -> UDPTransport * SendResult) : UDPServer * SendResult :=
  match conns (connMgr s) !! connID ≫= fun p => (p,.) <$> store s !! p with
  | Some (p, t) => let '(t, r) := f t in (set_store s (<[p := t]> (store s)), r)
  | None => (s, sent SendNoRoute)
  end.

Definition Send (s : UDPServer) (now connID : Z) (data : bytes) : UDPServer * SendResult :=
  send_with s connID (fun t => SendUnreliable aead_seal net_write t now data).

Definition SendReliable (s : UDPServer) (now connID : Z) (data : bytes) : UDPServer * SendResult :=
  send_with s connID (fun t => UdpTransport.SendReliable aead_seal net_write t now data).

Definition drain_with (s : UDPServer) (connID : Z)
    (f : UDPTransport -> UDPTransport * list bytes) : UDPServer * list bytes :=
  match conns (connMgr s) !! connID ≫= fun p => (p,.) <$> store s !! p with
  | Some (p, t) => let '(t, r) := f t in (set_store s (<[p := t]> (store s)), r)
  | None => (s, [])
  end.

Definition DrainInput (s : UDPServer) (connID : Z) : UDPServer * list bytes :=
  drain_with s connID UdpTransport.DrainInput.
Definition DrainOpInput (s : UDPServer) (connID : Z) : UDPServer * list bytes :=
  drain_with s connID UdpTransport.DrainOpInput.
Definition InjectInput (s : UDPServer) (connID : Z) (data : bytes) : UDPServer :=
  match conns (connMgr s) !! connID with
  | Some p => on_transport s p (fun t => UdpTransport.InjectInput t data)
  | None => s
  end.

(** ** Runs

    The steps the goroutines of the process take.  [step] is [None] where the step is not
    enabled: the reader handles no packet while it is inside a promotion, and a removal
    closes only a transport it has taken out. *)

Inductive input :=
| Packet (data : bytes) (ap : AddrPort) (wall mono : Z) (salt : option bytes)
| Publish
| Tick (p : nat) (mono : Z)
| RemoveConn (id : Z)
| CloseRemoved (p : nat)
| IssueKey (rnd_key rnd_id : option bytes) (userID username : string) (now : Z)
| RevokeKey (id : Z)
| SetMax (n : Z)
| SetLimits (l : WireLimits)
| SetKeys (r : UDPKeyRegistry)
| SetAuth (installed : bool)
| SendTo (reliable : bool) (now connID : Z) (data : bytes)
| Drain (op : bool) (connID : Z)
| Inject (connID : Z) (data : bytes).

Definition with_keys (s : UDPServer) (f : UDPKeyRegistry -> UDPKeyRegistry) : UDPServer :=
  set_keys s (f <$> keys s).

Definition step (s : UDPServer) (i : input) : option UDPServer :=
  match i with
  | Packet data ap wall mono salt =>
      match promoting s with
      | Some _ => None
      | None => Some (dispatch s data ap wall mono salt)
      end
  | Publish => match promoting s with Some _ => Some (promote_publish s) | None => None end
  | Tick p mono => Some (tickTransport s p mono)
  | RemoveConn id => Some (removeEntry s id)
  | CloseRemoved p => if decide (p ∈ removing (connMgr s)) then Some (removeClose s p) else None
  | IssueKey k i u n now => Some (with_keys s (fun r => (Issue r k i u n now).1))
  | RevokeKey id => Some (with_keys s (fun r => Revoke r id))
  | SetMax n => Some (SetMaxConnections s n)
  | SetLimits l => Some (SetWireLimits s l)
  | SetKeys r => Some (SetKeyRegistry s r)
  | SetAuth b => Some (SetOnAuthenticated s b)
  | SendTo true now id data => Some (SendReliable s now id data).1
  | SendTo false now id data => Some (Send s now id data).1
  | Drain false id => Some (DrainInput s id).1
  | Drain true id => Some (DrainOpInput s id).1
  | Inject id data => Some (InjectInput s id data)
  end.

Fixpoint run (s : UDPServer) (l : list input) : option UDPServer :=
  match l with
  | [] => Some s
  | i :: l => step s i ≫= fun s => run s l
  end.
End Server.
