(* ===== verification/UdpSessions.v ===== *)
(** * Sessions of the UDP listener, from handshake to traffic

    When a session comes into existence ([confirm_admits_exactly],
    [session_provenance]), that a client which follows the protocol gets one and is heard
    ([handshake_completes]), and two runs in which the listener does not do what its
    comments promise. *)

From S2P Require Import Prelude UdpProto UdpCrypto UdpTransport UdpHandshake UdpServer UdpServerSafety.

(** ** The two steps of a promotion *)

(** What the begin of a promotion leaves behind. *)
Definition promoted (s : UDPServer) (mono : Z) (ap : AddrPort) (cs ss : Z) (sess : Session)
    (entry : UDPKeyEntry) (s' : UDPServer) : Prop :=
  promoting s' = Some (mkPromotion (nextPtr s) (u32 (nextID (connMgr s) + 1)) (MakeToken cs ss)
                         ap entry (onAuthenticated s)) /\
  store s' = <[nextPtr s := newUDPTransport ap (MakeToken cs ss) cs ss (srvLimits s) sess mono]>
               (store s) /\
  byToken s' = byToken s /\ byAddr s' = byAddr s /\ connIDs s' = connIDs s /\
  conns (connMgr s') = <[u32 (nextID (connMgr s) + 1) := nextPtr s]> (conns (connMgr s)) /\
  announced s' = announced s.

Lemma promote_begin_promoted s mono ap cs ss sess entry r :
  byToken s !! MakeToken cs ss = None -> Z.of_nat (size (byToken s)) < maxConnections s ->
  promoted s mono ap cs ss sess entry
    (promote_begin (set_keys s r) mono (MakeToken cs ss) ap cs ss sess entry).
Proof.
  intros Ht Hm. unfold promote_begin. simpl. rewrite Ht, (proj2 (Z.leb_gt _ _)) by done.
  unfold AddTransport, promoted. done.
Qed.

Lemma handleConnConfirm_silent hkdf_key s data ap wall mono :
  outbox (handleConnConfirm hkdf_key s data ap wall mono) = outbox s.
Proof.
  unfold handleConnConfirm, promote_begin, AddTransport.
  repeat (case_match; simplify_eq/=; try done).
Qed.

Lemma admits_unique hkdf_key s data ap wall e1 cs1 ss1 sess1 e2 cs2 ss2 sess2 :
  admits hkdf_key s data ap wall e1 cs1 ss1 sess1 ->
  admits hkdf_key s data ap wall e2 cs2 ss2 sess2 ->
  e1 = e2 /\ cs1 = cs2 /\ ss1 = ss2 /\ sess1 = sess2.
Proof.
  intros H1 H2. destruct H2 as [(kid & ck & Hd & _ & r & Hk & He) _ Hs _ _].
  destruct (admits_inv hkdf_key s data ap wall kid cs2 ss2 ck r e2 Hd Hk He _ _ _ _ H1)
    as (-> & -> & ->).
  destruct H1 as [_ _ Hs' _ _]. split_and!; congruence.
Qed.

(** When a session is created, and what else a confirmation can do.  A ConnConfirm
    starts a session exactly when its cookie verifies for the address it came from, the
    key it names is live, the session keys derive, its token is free and the cap leaves
    room; the session is then a fresh transport bound to that address and token, with the
    limits in force, under the next connection id and for that key's identity, not yet in
    the session maps.  Otherwise no table changes, and in neither case is anything sent. *)
Theorem confirm_admits_exactly (hkdf_key : bytes -> bytes -> string -> nat -> option bytes)
    (s : UDPServer) (data : bytes) (ap : AddrPort) (wall mono : Z)
    (Hidle : promoting s = None) :
  let s' := handleConnConfirm hkdf_key s data ap wall mono in
  (promoting s' <> None <->
     exists entry cs ss sess, admits hkdf_key s data ap wall entry cs ss sess) /\
  (forall entry cs ss sess, admits hkdf_key s data ap wall entry cs ss sess ->
     promoted s mono ap cs ss sess entry s') /\
  ((forall entry cs ss sess, ~ admits hkdf_key s data ap wall entry cs ss sess) ->
     srv_core s' = srv_core s /\ store s' = store s) /\
  outbox s' = outbox s.
Proof.
  intros s'. split_and!; [| | |apply handleConnConfirm_silent];
    destruct (confirm_cases hkdf_key s data ap wall mono)
      as [(e & cs & ss & sess & r & Ha & E)|(Hc & Hst & Hno)]; try fold s' in E.
  - assert (promoted s mono ap cs ss sess e s') as (Hp & _).
    { rewrite E. by apply promote_begin_promoted; destruct Ha. }
    rewrite Hp. split; [by eauto 10|done].
  - apply core_fields in Hc as (_ & Hp & _). fold s' in Hp. rewrite Hp, Hidle.
    split; [done|]. intros (e & cs & ss & sess & Ha). by destruct (Hno e cs ss sess).
  - intros e2 cs2 ss2 sess2 Ha2.
    destruct (admits_unique _ _ _ _ _ _ _ _ _ _ _ _ _ Ha Ha2) as (<- & <- & <- & <-).
    rewrite E. by apply promote_begin_promoted; destruct Ha.
  - intros e2 cs2 ss2 sess2 Ha2. by destruct (Hno e2 cs2 ss2 sess2).
  - intros Hno. by destruct (Hno e cs ss sess).
  - done.
Qed.

(** ** Provenance *)

Section Provenance.
Context (hkdf_key : bytes -> bytes -> string -> nat -> option bytes).
Context (aead_seal : bytes -> bytes -> bytes -> bytes -> bytes).
Context (aead_open : bytes -> bytes -> bytes -> bytes -> option bytes).
Context (net_write : bytes -> WriteOutcome).
Context (s0 : UDPServer).

Abbreviation run_from := (run hkdf_key aead_seal aead_open net_write s0).

(** The run [l] has a confirmation that was admitted for the key entry [e]: in the state it
    arrived in, its cookie verified for the address it came from, the key it named was [e]
    and unexpired, and the session keys derived ([admits]). *)
Definition vouched (l : list input) (e : UDPKeyEntry) : Prop :=
  exists l1 l2 data ap wall mono salt s1 cs ss sess,
    l = l1 ++ Packet data ap wall mono salt :: l2 /\ run_from l1 = Some s1 /\
    admits hkdf_key s1 data ap wall e cs ss sess.

Lemma run_app l1 l2 : run_from (l1 ++ l2) = run_from l1 ≫= fun s => run hkdf_key aead_seal aead_open net_write s l2.
Proof.
  generalize s0. induction l1 as [|i l1 IH]; intros s; [done|]. simpl.
  destruct (step hkdf_key aead_seal aead_open net_write s i) as [s'|]; [|done]. simpl. apply IH.
Qed.

Lemma vouched_snoc l i e : vouched l e -> vouched (l ++ [i]) e.
Proof.
  intros (l1 & l2 & data & ap & wall & mono & salt & s1 & cs & ss & sess & -> & H1 & H2).
  exists l1, (l2 ++ [i]), data, ap, wall, mono, salt, s1, cs, ss, sess.
  by rewrite <- app_assoc.
Qed.

(** A step keeps the promotion and the announcements, admits a confirmation, or
    publishes. *)
Lemma step_vouches s i s' :
  step hkdf_key aead_seal aead_open net_write s i = Some s' ->
  (promoting s' = promoting s /\ announced s' = announced s)
  \/ (announced s' = announced s /\
      exists data ap wall mono salt cs ss sess pr, i = Packet data ap wall mono salt /\
        promoting s' = Some pr /\ admits hkdf_key s data ap wall (pr_entry pr) cs ss sess)
  \/ exists pr, promoting s = Some pr /\ s' = promote_publish s.
Proof.
  intros Hst.
  assert (exists m, caps m i) as [m Hm] by (destruct i; (by exists 0) || (eexists; simpl; reflexivity)).
  destruct (step_cases hkdf_key aead_seal aead_open net_write m s i s' Hm Hst)
    as [H|s1 p Hs1 H|id ->|p Hin ->|data ap wall mono salt e cs ss sess r -> Hpr Ha ->|Hpr ->|n _ ->].
  - left. by apply core_fields in H as (_ & -> & _ & -> & _).
  - left. apply core_fields in H as (_ & -> & _ & -> & _).
    apply core_fields in Hs1 as (_ & <- & _ & <- & _).
    by destruct (removeTransport_fields aead_seal net_write s1 p) as (_ & -> & _ & -> & _).
  - by left.
  - left. by destruct (removeClose_fields aead_seal net_write s p) as (_ & -> & _ & -> & _).
  - right. left. destruct (promote_begin_promoted s mono ap cs ss sess e r)
      as (H1 & _ & _ & _ & _ & _ & H2); [apply Ha..|]. split; [done|].
    eexists data, ap, wall, mono, salt, cs, ss, sess, _. by split_and!.
  - right. right. destruct (promoting s) as [pr|]; [by exists pr|done].
  - left. unfold SetMaxConnections. by case_match.
Qed.

Lemma run_vouched l : forall s, promoting s0 = None -> announced s0 = [] -> run_from l = Some s ->
  (forall pr, promoting s = Some pr -> vouched l (pr_entry pr)) /\
  (forall id u n, (id, u, n) ∈ announced s ->
     exists e, vouched l e /\ UserID e = u /\ Username e = n).
Proof.
  induction l as [|i l IH] using rev_ind; intros s Hp Ha Hrun.
  { injection Hrun as <-. rewrite Hp, Ha. split; [done|]. intros ? ? ? H. by apply not_elem_of_nil in H. }
  rewrite run_app in Hrun. apply bind_Some in Hrun as (s1 & H1 & H2).
  simpl in H2. apply bind_Some in H2 as (s2 & H2 & [= ->]).
  destruct (IH s1 Hp Ha H1) as [IHp IHa].
  assert (forall id u n, (id, u, n) ∈ announced s1 ->
            exists e, vouched (l ++ [i]) e /\ UserID e = u /\ Username e = n) as IHa'.
  { intros id u n Hin. destruct (IHa id u n Hin) as (e & He & ?). exists e.
    split; [by apply vouched_snoc|done]. }
  destruct (step_vouches s1 i s H2)
    as [[-> ->]|[(-> & data & ap & wall & mono & salt & cs & ss & sess & pr & -> & Hpr & Had)|(pr & Hpr & ->)]].
  - split; [|done]. intros pr Hpr. by apply vouched_snoc, IHp.
  - split; [|done]. intros pr' Hpr'. assert (pr' = pr) as -> by congruence.
    by exists l, [], data, ap, wall, mono, salt, s1, cs, ss, sess.
  - unfold promote_publish. rewrite Hpr. split; [by destruct (pr_announce pr)|].
    intros id u n Hin. destruct (pr_announce pr); [|by apply (IHa' id)].
    simpl in Hin. apply elem_of_app in Hin as [Hin|[= -> -> ->]%list_elem_of_singleton];
      [by apply (IHa' id)|]. exists (pr_entry pr). split; [by apply vouched_snoc, IHp|done].
Qed.
End Provenance.

(** C36: an identity is announced only for a verified handshake.  In every run of the
    listener, each identity it announces to the gateway is that of a key which was in the
    registry, unexpired, when a confirmation naming it arrived whose cookie verified for
    the very address it came from and whose session keys derive from that key: no other
    input, in any interleaving, puts a player behind a connection. *)
Theorem session_provenance
    (hkdf_key : bytes -> bytes -> string -> nat -> option bytes)
    (aead_seal : bytes -> bytes -> bytes -> bytes -> bytes)
    (aead_open : bytes -> bytes -> bytes -> bytes -> option bytes)
    (net_write : bytes -> WriteOutcome) (signer : HandshakeCookieSigner)
    (l : list input) (s : UDPServer) (id : Z) (userID username : string)
    (Hrun : run hkdf_key aead_seal aead_open net_write (NewUDPServer signer) l = Some s)
    (Hin : (id, userID, username) ∈ announced s) :
  exists e, vouched hkdf_key aead_seal aead_open net_write (NewUDPServer signer) l e /\
    UserID e = userID /\ Username e = username.
Proof.
  exact (proj2 (run_vouched hkdf_key aead_seal aead_open net_write (NewUDPServer signer) l s
    eq_refl eq_refl Hrun) id userID username Hin).
Qed.

(** ** A client that follows the protocol *)

Lemma DecodeConnReq_enc cs : in_u64 cs -> DecodeConnReq (EncodeConnReq cs) = Ok cs.
Proof. intros. unfold DecodeConnReq, EncodeConnReq. unfold_sizes; go_decode. Qed.

Lemma DecodeConnAccept_enc cs ss ck : in_u64 cs -> in_u64 ss -> length ck = CookieSize ->
  DecodeConnAccept (EncodeConnAccept cs ss ck) = Ok (cs, ss, ck).
Proof.
  intros. unfold DecodeConnAccept, EncodeConnAccept.
  rewrite (copy_into_full CookieSize ck) by done. unfold_sizes; go_decode.
Qed.

Lemma DecodeConnConfirm_enc kid cs ss ck : in_u64 kid -> in_u64 cs -> in_u64 ss ->
  length ck = CookieSize ->
  DecodeConnConfirm (EncodeConnConfirm kid cs ss ck) = Ok (kid, cs, ss, ck).
Proof.
  intros. unfold DecodeConnConfirm, EncodeConnConfirm.
  rewrite (copy_into_full CookieSize ck) by done. unfold_sizes; go_decode.
Qed.

Lemma DecodeUnreliable_enc tok ctr sealed : in_u32 tok -> in_u64 ctr -> (TagSize <= length sealed)%nat ->
  DecodeUnreliable (EncodeUnreliableHeader tok ctr ++ sealed)
  = Ok (tok, ctr, EncodeUnreliableHeader tok ctr, sealed).
Proof.
  intros. unfold DecodeUnreliable.
  rewrite !take_app_length', !drop_app_length' by apply (length_headers tok 0 ctr).
  unfold EncodeUnreliableHeader. rewrite <- !app_assoc. unfold_sizes; go_decode.
Qed.

Lemma MakeToken_range cs ss : in_u32 (MakeToken cs ss).
Proof.
  unfold MakeToken. set (x := Z.lxor cs ss).
  pose proof (u32_range x). pose proof (u32_range (Z.shiftr x 32)). unfold in_u32 in *.
  split; [by apply Z.lxor_nonneg; lia|].
  destruct (Z.eq_dec (Z.lxor (u32 x) (u32 (Z.shiftr x 32))) 0) as [->|Hne]; [done|].
  assert (0 <= Z.lxor (u32 x) (u32 (Z.shiftr x 32))) by (by apply Z.lxor_nonneg; lia).
  apply Z.log2_lt_pow2; [lia|].
  eapply Z.le_lt_trans; [by apply Z.log2_lxor; lia|].
  apply Z.max_lub_lt; (destruct (Z.eq_dec (u32 x) 0) as [E|]; destruct (Z.eq_dec (u32 (Z.shiftr x 32)) 0) as [E'|];
    rewrite ?E, ?E'; try done; apply Z.log2_lt_pow2; lia).
Qed.

Lemma Normalized_pos l : 0 < MaxFrameBytes (Normalized l) /\ 0 < MaxInputQueueDepth (Normalized l).
Proof.
  unfold Normalized, or_default. simpl.
  destruct (Z.leb_spec (MaxFrameBytes l) 0), (Z.leb_spec (MaxInputQueueDepth l) 0); lia.
Qed.

(** The first packet of a client on a fresh session: it opens, and its body is queued. *)
Lemma fresh_session_hears hkdf_key aead_seal aead_open master cs ss c sv ap tok l mono now hdr sealed body c'
    (aead_correct : forall k n p a, aead_open k n (aead_seal k n p a) a = Some p) :
  NewSession hkdf_key master RoleClient (SessionSalt cs ss) = Ok c ->
  NewSession hkdf_key master RoleServer (SessionSalt cs ss) = Ok sv ->
  Z.of_nat (length body) < MaxFrameBytes (Normalized l) ->
  SealWithHeader aead_seal c (ChannelEvent :: body) (EncodeUnreliableHeader tok) = (c', Ok (hdr, sealed)) ->
  hdr = EncodeUnreliableHeader tok 1 /\
  inbound (queues (handleUnreliable aead_open (newUDPTransport ap tok cs ss l sv mono) now 1 hdr sealed))
  = [body].
Proof.
  intros Hc Hs Hb Hseal.
  destruct (peers_share_keys _ _ _ _ _ Hc Hs) as [Hk _].
  assert (sendCtr c = 0 /\ win sv = mkWindow 0 0) as [Hz Hw].
  { split; [clear Hs|clear Hc]; revert Hc || revert Hs; unfold NewSession, rbind, newAEAD;
      repeat case_match; try done; by intros [= <-]. }
  revert Hseal. unfold SealWithHeader. rewrite Hz. change (maxCounter <? u64 (0 + 1)) with false.
  intros [= _ <- <-]. split; [done|].
  unfold handleUnreliable, openInbound, newUDPTransport, Open. simpl crypto.
  rewrite Hw. simpl. rewrite Hk, aead_correct. simpl.
  destruct (Normalized_pos l) as [Hf Hq]. unfold routePayload, lim. cbn [limits].
  rewrite (proj2 (Z.leb_gt _ _)) by done. cbn [limits note_received set_crypto].
  rewrite (proj2 (Z.ltb_ge _ _)) by (simpl length; lia). simpl.
  unfold appendInbound. cbn [queues inbound length]. by rewrite (proj2 (Z.leb_gt _ _)).
Qed.

(** What the listener answers to a first request. *)
Lemma request_answered hkdf_key aead_seal aead_open net_write s ap cs wall mono salt :
  in_u64 cs -> byAddr s !! ap = None ->
  dispatch hkdf_key aead_seal aead_open net_write s (EncodeConnReq cs) ap wall mono (Some salt)
  = write_to s ap (EncodeConnAccept cs (le_val salt) (Mint (cookies s) ap cs (le_val salt) wall)).
Proof.
  intros Hcs Hap. unfold dispatch.
  change (EncodeConnReq cs) with (TypeConnReq :: drop 1 (EncodeConnReq cs)) at 1. simpl.
  unfold handleConnReq. by rewrite DecodeConnReq_enc, Hap.
Qed.

(** The listener's side of a handshake, as one state after the other. *)
Definition after_handshake (hkdf_key : bytes -> bytes -> string -> nat -> option bytes)
    (aead_seal : bytes -> bytes -> bytes -> bytes -> bytes)
    (aead_open : bytes -> bytes -> bytes -> bytes -> option bytes)
    (net_write : bytes -> WriteOutcome) (s : UDPServer) (ap : AddrPort) (kid cs : Z)
    (salt : bytes) (t1 t2 m1 m2 : Z) : option UDPServer :=
  run hkdf_key aead_seal aead_open net_write s
    [Packet (EncodeConnReq cs) ap t1 m1 (Some salt);
     Packet (EncodeConnConfirm kid cs (le_val salt) (Mint (cookies s) ap cs (le_val salt) t1))
       ap t2 m2 None;
     Publish].

Lemma sessions_derive hkdf_key master salt
    (hkdf_total : forall k sa l, exists key, hkdf_key k sa l KeySize = Some key /\ length key = KeySize) :
  exists sv c, NewSession hkdf_key master RoleServer salt = Ok sv /\
    NewSession hkdf_key master RoleClient salt = Ok c.
Proof.
  unfold NewSession, deriveKey, rbind, newAEAD.
  destruct (hkdf_total master salt labelC2S) as (k1 & -> & E1).
  destruct (hkdf_total master salt labelS2C) as (k2 & -> & E2). simpl.
  rewrite E1, E2. simpl. eauto.
Qed.

Lemma confirm_dispatched hkdf_key aead_seal aead_open net_write s kid cs ss ck ap wall mono salt :
  dispatch hkdf_key aead_seal aead_open net_write s (EncodeConnConfirm kid cs ss ck) ap wall mono salt
  = handleConnConfirm hkdf_key s (EncodeConnConfirm kid cs ss ck) ap wall mono.
Proof. done. Qed.

Lemma unreliable_delivered hkdf_key aead_seal aead_open net_write s tok ctr sealed ap wall mono salt :
  in_u32 tok -> in_u64 ctr -> (TagSize <= length sealed)%nat ->
  dispatch hkdf_key aead_seal aead_open net_write s (EncodeUnreliableHeader tok ctr ++ sealed)
    ap wall mono salt
  = deliver s tok ap
      (fun t => handleUnreliable aead_open t mono ctr (EncodeUnreliableHeader tok ctr) sealed).
Proof.
  intros Ht Hc Hl. unfold dispatch.
  change (EncodeUnreliableHeader tok ctr ++ sealed)
    with (TypeUnreliable :: (drop 1 (EncodeUnreliableHeader tok ctr) ++ sealed)) at 1.
  simpl (TypeUnreliable =? _). cbv iota.
  by rewrite DecodeUnreliable_enc.
Qed.

(** The confirmation and the publication, from a state that admits it. *)
Lemma admitted_published hkdf_key s data ap wall mono e cs ss sv :
  promoting s = None -> onAuthenticated s = true -> admits hkdf_key s data ap wall e cs ss sv ->
  let s2 := handleConnConfirm hkdf_key s data ap wall mono in
  let s3 := promote_publish s2 in
  let id := u32 (nextID (connMgr s) + 1) in
  promoting s2 <> None /\ outbox s3 = outbox s /\
  byToken s3 !! MakeToken cs ss = Some (nextPtr s) /\ byAddr s3 !! ap = Some (nextPtr s) /\
  Get (connMgr s3) id = Some (nextPtr s) /\
  announced s3 = announced s ++ [(id, UserID e, Username e)] /\
  store s3 !! nextPtr s = Some (newUDPTransport ap (MakeToken cs ss) cs ss (srvLimits s) sv mono).
Proof.
  intros Hp Hauth Ha s2 s3 id.
  destruct (confirm_cases hkdf_key s data ap wall mono) as [(e' & cs' & ss' & sv' & r & Ha' & E)|(_ & _ & Hno)];
    [|by destruct (Hno e cs ss sv)].
  destruct (admits_unique _ _ _ _ _ _ _ _ _ _ _ _ _ Ha Ha') as (<- & <- & <- & <-).
  fold s2 in E. assert (promoted s mono ap cs ss sv e s2) as (H1 & H2 & H3 & H4 & H5 & H6 & H7).
  { rewrite E. by apply promote_begin_promoted; destruct Ha. }
  pose proof (handleConnConfirm_silent hkdf_key s data ap wall mono) as Ho. fold s2 in Ho.
  unfold s3, promote_publish, Get. rewrite H1. simpl. rewrite Hauth. simpl.
  rewrite H2, H6, H7, !lookup_insert_eq. by rewrite Ho.
Qed.

(** C11: a client that follows the protocol gets its session and is heard.  On an idle
    listener with room, take a client at an address without a session that asks with salt
    [cs], and confirms with a live key and the cookie it was sent, at most one slot later.
    The accept it receives decodes to its salts and that cookie; the confirmation creates a
    session bound to its address and token, reachable by its connection id, and announces
    the key's identity; and the first packet the client seals with the same key, whatever
    event it carries within the size limit, is opened and queued as input. *)
Theorem handshake_completes
    (hkdf_key : bytes -> bytes -> string -> nat -> option bytes)
    (aead_seal : bytes -> bytes -> bytes -> bytes -> bytes)
    (aead_open : bytes -> bytes -> bytes -> bytes -> option bytes)
    (net_write : bytes -> WriteOutcome)
    (s : UDPServer) (ap : AddrPort) (kid cs : Z) (salt : bytes) (t1 t2 t3 m1 m2 m3 : Z)
    (r : UDPKeyRegistry) (e : UDPKeyEntry) (body : bytes)
    (hkdf_total : forall k sa l, exists key, hkdf_key k sa l KeySize = Some key /\ length key = KeySize)
    (aead_correct : forall k n p a, aead_open k n (aead_seal k n p a) a = Some p)
    (aead_overhead : forall k n p a, length (aead_seal k n p a) = (length p + TagSize)%nat)
    (Hidle : promoting s = None) (Hauth : onAuthenticated s = true)
    (Hnew : byAddr s !! ap = None /\ byToken s !! MakeToken cs (le_val salt) = None)
    (Hroom : Z.of_nat (size (byToken s)) < maxConnections s)
    (Hkey : keys s = Some r /\ entries r !! kid = Some e /\ t2 < ExpiresAt e)
    (Hids : in_u64 kid /\ in_u64 cs /\ in_u64 (le_val salt))
    (Hslot : 0 < slot (cookies s)) (Ht : 0 <= t1 <= t2) (Hsoon : t2 - t1 <= slot (cookies s))
    (Hbody : Z.of_nat (length body) < MaxFrameBytes (Normalized (srvLimits s))) :
  let tok := MakeToken cs (le_val salt) in
  let id := u32 (nextID (connMgr s) + 1) in
  let cookie := Mint (cookies s) ap cs (le_val salt) t1 in
  exists s' p c,
    DecodeConnAccept (EncodeConnAccept cs (le_val salt) cookie) = Ok (cs, le_val salt, cookie) /\
    after_handshake hkdf_key aead_seal aead_open net_write s ap kid cs salt t1 t2 m1 m2 = Some s' /\
    outbox s' = outbox s ++ [(ap, EncodeConnAccept cs (le_val salt) cookie)] /\
    byToken s' !! tok = Some p /\ byAddr s' !! ap = Some p /\ Get (connMgr s') id = Some p /\
    announced s' = announced s ++ [(id, UserID e, Username e)] /\
    NewSession hkdf_key (Key e) RoleClient (SessionSalt cs (le_val salt)) = Ok c /\
    forall c' hdr sealed,
      SealWithHeader aead_seal c (ChannelEvent :: body) (EncodeUnreliableHeader tok)
        = (c', Ok (hdr, sealed)) ->
      exists t, store (dispatch hkdf_key aead_seal aead_open net_write s' (hdr ++ sealed) ap t3 m3 None) !! p
                = Some t /\ inbound (queues t) = [body].
Proof.
  destruct Hnew as [Hap Htok], Hkey as (Hk & He & Hlive), Hids as (Hkid & Hcs & Hss).
  set (ss := le_val salt) in *. intros tok id cookie.
  assert (length cookie = CookieSize) as Hck by apply length_mac.
  destruct (sessions_derive hkdf_key (Key e) (SessionSalt cs ss) hkdf_total) as (sv & c & Hsv & Hc).
  set (s1 := write_to s ap (EncodeConnAccept cs ss cookie)).
  set (data := EncodeConnConfirm kid cs ss cookie).
  assert (admits hkdf_key s1 data ap t2 e cs ss sv) as Had.
  { constructor; try done. exists kid, cookie. unfold data. rewrite DecodeConnConfirm_enc by done.
    split_and!; [done|apply Mint_soon; [done|lia|lia]|]. by exists r. }
  destruct (admitted_published hkdf_key s1 data ap t2 m2 e cs ss sv Hidle Hauth Had)
    as (Hp2 & Ho & Htk & Had' & Hg & Hann & Hst).
  set (s2 := handleConnConfirm hkdf_key s1 data ap t2 m2) in *.
  exists (promote_publish s2), (nextPtr s), c. split_and!; [by apply DecodeConnAccept_enc| |done..|].
  - unfold after_handshake. cbn [run step]. rewrite Hidle, request_answered by done.
    fold ss cookie s1. cbn [mbind option_bind]. change (promoting s1) with (promoting s).
    rewrite Hidle. cbn [mbind option_bind]. rewrite confirm_dispatched. fold data s2.
    by destruct (promoting s2).
  - intros c' hdr sealed Hseal.
    assert (TagSize <= length sealed)%nat as Hlen.
    { revert Hseal. unfold SealWithHeader. case_match; [done|]. intros [= _ _ <-].
      rewrite aead_overhead. lia. }
    destruct (fresh_session_hears hkdf_key aead_seal aead_open (Key e) cs ss c sv ap tok
                (srvLimits s) m2 m3 hdr sealed body c' aead_correct Hc Hsv) as [-> Hin]; try done.
    eexists. split; [|exact Hin].
    rewrite unreliable_delivered by (done || apply MakeToken_range).
    unfold deliver, routeFor. fold tok in Htk, Hst. rewrite Htk. change (nextPtr s1) with (nextPtr s) in Hst.
    change (nextPtr s1) with (nextPtr s). rewrite Hst. rewrite decide_True by done.
    unfold on_transport. cbn [store set_store]. rewrite lookup_alter_eq, Hst. done.
Qed.

(** ** Concrete runs

    A derivation that keeps the two directions apart and an AEAD whose tag is part of the
    key and of the nonce. *)

Definition toy_hkdf (k sa : bytes) (l : string) (n : nat) : option bytes :=
  Some (copy_into n ((if decide (l = labelC2S) then 1 else 2) :: sa ++ k)).
Definition toy_aead_seal (k n p a : bytes) : bytes := p ++ copy_into 8 k ++ copy_into 8 (drop 4 n).
Definition toy_aead_open (k n c a : bytes) : option bytes :=
  let tag := copy_into 8 k ++ copy_into 8 (drop 4 n) in
  if decide (drop (length c - 16) c = tag) then Some (take (length c - 16) c) else None.

Lemma toy_aead_length k n p a : length (toy_aead_seal k n p a) = (length p + TagSize)%nat.
Proof. unfold toy_aead_seal. rewrite !length_app, !length_copy_into. done. Qed.

Lemma toy_aead_correct k n p a : toy_aead_open k n (toy_aead_seal k n p a) a = Some p.
Proof.
  unfold toy_aead_open. rewrite toy_aead_length. unfold toy_aead_seal, TagSize.
  rewrite Nat.add_sub, drop_app_length, take_app_length. by rewrite decide_True.
Qed.

Lemma toy_hkdf_total k sa l : exists key, toy_hkdf k sa l KeySize = Some key /\ length key = KeySize.
Proof. eexists. split; [done|]. apply length_copy_into. Qed.

Definition toy_key : bytes := replicate 32 3.
Definition toy_registry : UDPKeyRegistry :=
  (Issue (NewUDPKeyRegistry 0 0) (Some toy_key) (Some (be_bytes 8 5)) "u1" "ann" 0).1.
Definition toy_server : UDPServer :=
  SetKeyRegistry (SetOnAuthenticated (NewUDPServer toy_signer) true) toy_registry.
Definition toy_salt (n : Z) : bytes := le_bytes 8 n.
Definition toy_run : UDPServer -> list input -> option UDPServer :=
  run toy_hkdf toy_aead_seal toy_aead_open all_ok.

(** The packets of a handshake from [ap] with salts [cs] and [ss], minted at time 0. *)
Definition ask (ap : AddrPort) (cs ss : Z) : input :=
  Packet (EncodeConnReq cs) ap 0 0 (Some (toy_salt ss)).
Definition confirm (ap : AddrPort) (cs ss wall mono : Z) : input :=
  Packet (EncodeConnConfirm 5 cs ss (Mint toy_signer ap cs ss 0)) ap wall mono None.

(** What a client of this handshake seals, its packets in order. *)
Definition client_session (cs ss : Z) : Session :=
  match NewSession toy_hkdf toy_key RoleClient (SessionSalt cs ss) with
  | Ok c => c
  | Err _ => toy_session
  end.
Definition client_event (cs ss : Z) (body : bytes) : bytes :=
  match SealWithHeader toy_aead_seal (client_session cs ss) (ChannelEvent :: body)
          (EncodeUnreliableHeader (MakeToken cs ss)) with
  | (_, Ok (hdr, sealed)) => hdr ++ sealed
  | _ => []
  end.
Definition client_disconnect (cs ss : Z) : bytes :=
  match SealWithHeader toy_aead_seal (with_sendCtr (client_session cs ss) 1) []
          (EncodeDisconnectHeader (MakeToken cs ss)) with
  | (_, Ok (hdr, sealed)) => hdr ++ sealed
  | _ => []
  end.

(** A session, its end, and its confirmation and first packet heard again ten seconds
    later. *)
Definition replay_inputs : list input :=
  [ask (toy_addr 9000) 77 99; confirm (toy_addr 9000) 77 99 1000 1000; Publish;
   Packet (client_event 77 99 [42]) (toy_addr 9000) 2000 2000 None; SendTo false 2500 1 [10];
   Packet (client_disconnect 77 99) (toy_addr 9000) 3000 3000 None;
   confirm (toy_addr 9000) 77 99 10000000000 10000000000; Publish;
   Packet (client_event 77 99 [42]) (toy_addr 9000) 10000000000 10000000000 None;
   SendTo false 10000000000 2 [20]].

(** What holds of a run's final state and of its transports [p] and [q]. *)
Definition ends_with (l : list input) (p q : nat) (P : UDPServer -> UDPTransport -> UDPTransport -> Prop)
  : Prop :=
  match toy_run toy_server l with
  | Some s =>
      match store s !! p, store s !! q with
      | Some t1, Some t2 => P s t1 t2
      | _, _ => False
      end
  | None => False
  end.

(** A confirmation heard again recreates its session: the identity is announced a second
    time, the first session's packet is accepted again, and the two sessions seal
    different texts under the same key and the same nonce. *)
Lemma replayed_confirm_reuses_nonces :
  let hdr := EncodeUnreliableHeader (MakeToken 77 99) 1 in
  ends_with replay_inputs 0 1 (fun s t1 t2 =>
    announced s = [(1, "u1", "ann"); (2, "u1", "ann")]%string /\
    inbound (queues t1) = [[42]] /\ inbound (queues t2) = [[42]] /\
    sendKey (crypto t1) = sendKey (crypto t2) /\
    head (wire t1) = Some (hdr ++ toy_aead_seal (sendKey (crypto t1)) (nonceFor 1) [10] hdr) /\
    head (wire t2) = Some (hdr ++ toy_aead_seal (sendKey (crypto t2)) (nonceFor 1) [20] hdr)).
Proof. vm_compute. by split_and!. Qed.

(** A session that times out while [AddTransport] is blocked on the event channel (more
    than [connectionTimeout], or closed by an operator) is published closed. *)
Definition leak_inputs : list input :=
  [SetMax 1; ask (toy_addr 9000) 77 99; confirm (toy_addr 9000) 77 99 1000 1000;
   Tick 0 10000002000; Publish].

Lemma closed_while_promoted_leaks :
  ends_with leak_inputs 0 0 (fun s t _ =>
    closed t = true /\ size (byToken s) = 1%nat /\ maxConnections s = 1 /\
    (** nothing in the process reclaims the slot: neither the ticker nor a removal *)
    (forall mono, tickTransport toy_aead_seal all_ok s 0 mono = s) /\
    byToken (Remove toy_aead_seal all_ok s 1) = byToken s /\
    (** and the next client, from another address, is refused *)
    match toy_run s [ask (toy_addr 9001) 78 100; confirm (toy_addr 9001) 78 100 11000000000 11000000000] with
    | Some s' => promoting s' = None /\ capacityDrops s' = 1
    | None => False
    end).
Proof. vm_compute. by split_and!. Qed.

(** ** Witnesses *)

Definition sample_run : list input :=
  [ask (toy_addr 9000) 77 99; confirm (toy_addr 9000) 77 99 1000 1000; Publish;
   Packet (client_event 77 99 [42]) (toy_addr 9000) 2000 2000 None].
Definition full_run : list input := SetKeys toy_registry :: SetAuth true :: sample_run.

Lemma full_run_ends : is_Some (run toy_hkdf toy_aead_seal toy_aead_open all_ok
  (NewUDPServer toy_signer) full_run).
Proof. vm_compute. eexists. reflexivity. Qed.

(** The session is being removed: its entry is out, its transport not yet closed. *)
Definition half_removed : list input := full_run ++ [RemoveConn 1].

Lemma session_tables_consistent_witness :
  match run toy_hkdf toy_aead_seal toy_aead_open all_ok (NewUDPServer toy_signer) half_removed with
  | Some s => connIDs s !! 0%nat = Some 1 /\ Get (connMgr s) 1 = None /\
      exists s', step toy_hkdf toy_aead_seal toy_aead_open all_ok s (CloseRemoved 0) = Some s' /\
        closed <$> store s' !! 0%nat = Some true /\ connIDs s' !! 0%nat = None
  | None => False
  end.
Proof.
  destruct (run toy_hkdf toy_aead_seal toy_aead_open all_ok (NewUDPServer toy_signer) half_removed) as [s|] eqn:E;
    [|vm_compute in E; discriminate].
  pose proof (session_tables_consistent toy_hkdf toy_aead_seal toy_aead_open all_ok toy_signer 1024
           half_removed s ltac:(vm_compute; congruence) ltac:(repeat constructor) ltac:(vm_compute; reflexivity) E)
    as (_ & _ & _ & H & _).
  assert (match run toy_hkdf toy_aead_seal toy_aead_open all_ok (NewUDPServer toy_signer) half_removed with
          | Some s => connIDs s !! 0%nat = Some 1 /\ Get (connMgr s) 1 = None /\ closed <$> store s !! 0%nat = Some false
          | None => False end) as C by (vm_compute; by split_and!).
  rewrite E in C. destruct C as (C1 & C2 & C3). split; [exact C1|]. split; [exact C2|].
  destruct (store s !! 0%nat) as [t|] eqn:Et; [|discriminate C3].
  destruct (H 0%nat 1 t C1 Et) as [C|C]; [by injection C3|congruence|exact C].
Defined.

(** The listener with the session of [sample_run], and that session. *)
Definition served : UDPServer := default (NewUDPServer toy_signer) (toy_run toy_server sample_run).

Lemma served_session : exists t, store served !! 0%nat = Some t /\ addr t = toy_addr 9000.
Proof. vm_compute. eexists. split; reflexivity. Qed.

Lemma served_ok : srv_ok served.
Proof.
  assert (toy_run toy_server sample_run = Some served) as E by (vm_compute; reflexivity).
  apply (run_ok _ _ _ _ 1024 sample_run toy_server served) in E; [apply E|repeat constructor| | | |].
  - apply (srv_ok_core (NewUDPServer toy_signer)); [reflexivity|apply NewUDPServer_ok].
  - constructor; vm_compute; congruence.
  - vm_compute. congruence.
  - vm_compute. reflexivity.
Qed.

Lemma packet_moves_bound_session_witness :
  exists t, store served !! 0%nat = Some t /\
    ~ store (dispatch toy_hkdf toy_aead_seal toy_aead_open all_ok served (client_event 77 99 [43])
               (toy_addr 9001) 5000 5000 None) !! 0%nat <> Some t.
Proof.
  destruct served_session as (t & Ht & Ha). exists t. split; [exact Ht|].
  intros E.
  apply (proj1 (packet_moves_bound_session toy_hkdf toy_aead_seal toy_aead_open all_ok served
           (client_event 77 99 [43]) (toy_addr 9001) 5000 5000 None 0 t served_ok Ht)) in E.
  destruct E as [E _]. rewrite Ha in E. discriminate E.
Defined.

(** The listener after the request of [sample_run]: its confirmation is the second input. *)
Definition asked : UDPServer := default toy_server (toy_run toy_server [ask (toy_addr 9000) 77 99]).
Definition confirmation : bytes := EncodeConnConfirm 5 77 99 (Mint toy_signer (toy_addr 9000) 77 99 0).

Lemma confirm_admits_exactly_witness :
  promoting (handleConnConfirm toy_hkdf asked confirmation (toy_addr 9000) 1000 1000) <> None /\
  ~ exists e cs ss sess, admits toy_hkdf asked confirmation (toy_addr 9001) 1000 e cs ss sess.
Proof.
  split; [vm_compute; discriminate|]. intros H.
  assert (promoting asked = None) as Hp by (vm_compute; reflexivity).
  apply (proj1 (confirm_admits_exactly toy_hkdf asked confirmation (toy_addr 9001) 1000 1000 Hp)) in H.
  apply H. vm_compute. reflexivity.
Defined.

Lemma session_provenance_witness :
  exists e, vouched toy_hkdf toy_aead_seal toy_aead_open all_ok (NewUDPServer toy_signer) full_run e /\
    UserID e = "u1"%string.
Proof.
  assert (match run toy_hkdf toy_aead_seal toy_aead_open all_ok (NewUDPServer toy_signer) full_run with
          | Some s => head (announced s) = Some (1, "u1", "ann")%string | None => False end) as H
    by (vm_compute; reflexivity).
  destruct full_run_ends as [s E]. rewrite E in H.
  assert ((1, "u1", "ann")%string ∈ announced s) as Hin
    by (destruct (announced s); [discriminate H|injection H as ->; left]).
  destruct (session_provenance toy_hkdf toy_aead_seal toy_aead_open all_ok toy_signer full_run s
              1 "u1" "ann" E Hin) as (e & Hv & Hu & _).
  exists e. split; [exact Hv|exact Hu].
Defined.

Lemma handshake_completes_witness :
  exists s', after_handshake toy_hkdf toy_aead_seal toy_aead_open all_ok toy_server (toy_addr 9000) 5 77
      (toy_salt 99) 0 1000 0 1000 = Some s' /\
    announced s' = [(1, "u1", "ann")]%string.
Proof.
  destruct (handshake_completes toy_hkdf toy_aead_seal toy_aead_open all_ok toy_server (toy_addr 9000)
              5 77 (toy_salt 99) 0 1000 2000 0 1000 2000 toy_registry
              (mkKeyEntry toy_key "u1" "ann" DefaultUDPKeyTTL) [42] toy_hkdf_total toy_aead_correct
              toy_aead_length)
    as (s' & p & c & _ & Hrun & _ & _ & _ & _ & Ha & _);
    try (vm_compute; repeat split; congruence).
  exists s'. split; [exact Hrun|exact Ha].
Defined.
