(* ===== verification/MeshFrame.v ===== *)
(** * The mesh frame codec (pkg/universe/mesh_frame_codec.go, message.go, action.go)

    A message between cells is a [CellMessage]: a type, the sending cell, and a pointer per
    kind of payload, of which the type names the one that is meant.  To cross hosts it is
    converted to the protobuf [MeshFrame], a oneof, and back.  The generated protobuf
    structs are records here; their marshalling is the library's.  UUIDs are the 16 bytes
    of github.com/google/uuid, whose [String] and [Parse] are parameters.  A nil and an
    empty byte slice are one value, except inside the [any] of a session's data, where they
    are different values of the interface. *)

From S2P Require Import Prelude Float32 NetId Transfer Handoff.

(** ** Messages *)

Definition MsgSpawnTransfer : Z := 5.
Definition MsgCrossCellAction : Z := 6.
Definition MsgPlayerAssignment : Z := 8.
Definition MsgSessionTransfer : Z := 12.
Definition MsgBorderFrame : Z := 100.
Definition MsgHandoff : Z := 101.
Definition MsgHandoffAccepted : Z := 102.
Definition MsgForwardInput : Z := 103.
Definition MsgPlayerDisconnected : Z := 107.

Definition ActionHandoffAccepted : Z := 101.

(** [coords.Location]; its comparison is the floats'. *)
Record Location := mkLocation { X : f32; Y : f32; Facing : f32; Tag : string }.
Definition zeroLocation : Location := mkLocation f32_zero f32_zero f32_zero "".
Definition f32_is_zero (x : f32) : bool := match x with S754_zero _ => true | _ => false end.
Definition IsZero (l : Location) : bool :=
  f32_is_zero (X l) && f32_is_zero (Y l) && f32_is_zero (Facing l) && bool_decide (Tag l = "").

Record SpawnTransfer := mkSpawn {
  sp_ConnID : Z; sp_Username : string; sp_StreamGeneration : Z; sp_SpawnLocation : Location
}.

Record PlayerAssignment := mkPlayerAssignment {
  pa_ConnID : Z; pa_UserID : bytes; pa_Username : string; pa_SessionToken : string;
  pa_IsReconnect : bool; pa_StreamGeneration : Z; pa_SpawnLocation : Location
}.

(** A value of type [any]: nil, a byte slice, or something else. *)
Inductive anyval := AnyNil | AnyBytes (b : bytes) | AnyOther.

Record SessionTransfer := mkSession {
  st_ConnID : Z; st_GatewayID : string; st_GatewayConnID : Z; st_SessionEpoch : Z;
  st_UserID : bytes; st_Username : string; st_StreamGeneration : Z; st_StateTag : string;
  st_Data : anyval
}.

Record ForwardInputPayload := mkForwardInput {
  fi_GatewayID : string; fi_ConnID : Z; fi_SessionEpoch : Z; fi_InputBlob : bytes
}.

Record CrossCellAction := mkAction {
  ac_Type : Z; ac_TargetNetID : Z; ac_SourceNetID : Z; ac_SourceCellID : string; ac_Payload : bytes
}.

Record DisconnectPayload := mkDisconnect { dc_ConnID : Z; dc_Reason : string }.

Record CellMessage := mkMessage {
  Type_ : Z;
  FromCellID : string;
  Spawn : option SpawnTransfer;
  Assignment : option PlayerAssignment;
  Action : option CrossCellAction;
  Sessions : list SessionTransfer;
  BorderFrame : bytes;
  Handoff_ : option HandoffPayload;
  HandoffAck : option HandoffAckPayload;
  ForwardInput : option ForwardInputPayload;
  Disconnect_ : option DisconnectPayload
}.

(** ** Frames (meshpb) *)

Record pbLocation := mkPbLocation { pl_X : f32; pl_Y : f32; pl_Facing : f32; pl_Tag : string }.
Record pbBorderFrame := mkPbBorderFrame { pb_FromCellId : string; pb_Data : bytes }.
Record pbHandoff := mkPbHandoff {
  ph_FromCellId : string; ph_NetId : Z; ph_Epoch : Z; ph_CommitTick : Z; ph_TransferBlob : bytes;
  ph_ConnId : Z
}.
Record pbForwardInput := mkPbForwardInput {
  pf_FromCellId : string; pf_ConnId : Z; pf_InputBlob : bytes; pf_GatewayId : string;
  pf_SessionEpoch : Z
}.
Record pbCrossAction := mkPbCrossAction {
  px_FromCellId : string; px_ActionType : Z; px_TargetNetId : Z; px_SourceNetId : Z;
  px_SourceCellId : string; px_Payload : bytes
}.
Record pbPlayerAssignment := mkPbPlayerAssignment {
  pp_FromCellId : string; pp_ConnId : Z; pp_UserId : string; pp_Username : string;
  pp_SessionToken : string; pp_IsReconnect : bool; pp_StreamGeneration : Z;
  pp_SpawnLocation : option pbLocation
}.
Record pbSessionTransfer := mkPbSessionTransfer {
  ps_FromCellId : string; ps_ConnId : Z; ps_GatewayId : string; ps_GatewayConnId : Z;
  ps_SessionEpoch : Z; ps_Username : string; ps_StateTag : string; ps_Data : bytes;
  ps_UserId : string; ps_StreamGeneration : Z
}.
Record pbSpawnTransfer := mkPbSpawnTransfer {
  pt_FromCellId : string; pt_ConnId : Z; pt_Username : string;
  pt_SpawnLocation : option pbLocation; pt_StreamGeneration : Z
}.

(** The oneof; each variant holds a pointer that may be nil.  [FOther] is the variants
    [routeInboundFrame] handles itself. *)
Inductive FrameMsg :=
| FBorderFrame (p : option pbBorderFrame)
| FHandoff (p : option pbHandoff)
| FForwardInput (p : option pbForwardInput)
| FCrossAction (p : option pbCrossAction)
| FPlayerAssignment (p : option pbPlayerAssignment)
| FSessionTransfer (p : option pbSessionTransfer)
| FSpawnTransfer (p : option pbSpawnTransfer)
| FServiceEvent
| FOther.

Record MeshFrame := mkFrame { DestCellId : string; Msg : option FrameMsg }.

Inductive CodecError :=
| ErrPayloadNil | ErrSessionCount (n : nat) | ErrDataType | ErrUnsupportedType
| ErrFrameNil | ErrNoPayload | ErrMalformedAck | ErrServiceEventInline | ErrUnknownVariant.

Definition locationToProto (loc : Location) : option pbLocation :=
  if IsZero loc then None else Some (mkPbLocation (X loc) (Y loc) (Facing loc) (Tag loc)).

Definition protoToLocation (pb : option pbLocation) : Location :=
  match pb with
  | None => zeroLocation
  | Some l => mkLocation (pl_X l) (pl_Y l) (pl_Facing l) (pl_Tag l)
  end.

Definition encodeAnyToBytes (v : anyval) : result CodecError bytes :=
  match v with
  | AnyNil => Ok []
  | AnyBytes b => Ok b
  | AnyOther => Err ErrDataType
  end.

Section Codec.
Context (uuid_String : bytes -> string) (uuid_Parse : string -> option bytes).

(** The pointer a case of [encodeCellMessage] needs, and the frame made from it. *)
Definition with_payload {A} (p : option A) (k : A -> FrameMsg) : result CodecError FrameMsg :=
  match p with Some a => Ok (k a) | None => Err ErrPayloadNil end.

Definition encodeSession (from : string) (s : SessionTransfer) : result CodecError FrameMsg :=
  let! data := encodeAnyToBytes (st_Data s) in
  Ok (FSessionTransfer (Some (mkPbSessionTransfer from (st_ConnID s) (st_GatewayID s)
        (st_GatewayConnID s) (st_SessionEpoch s) (st_Username s) (st_StateTag s) data
        (uuid_String (st_UserID s)) (st_StreamGeneration s)))).

Definition encodePayload (msg : CellMessage) : result CodecError FrameMsg :=
  let from := FromCellID msg in
  if Type_ msg =? MsgBorderFrame then
    Ok (FBorderFrame (Some (mkPbBorderFrame from (BorderFrame msg))))
  else if Type_ msg =? MsgHandoff then
    with_payload (Handoff_ msg) (fun p => FHandoff (Some (mkPbHandoff from (hp_NetID p) (hp_Epoch p)
      (hp_CommitTick p) (hp_TransferBlob p) (hp_ConnID p))))
  else if Type_ msg =? MsgHandoffAccepted then
    with_payload (HandoffAck msg) (fun a => FCrossAction (Some (mkPbCrossAction from
      ActionHandoffAccepted (ha_NetID a) 0 from (encodeHandoffAck a))))
  else if Type_ msg =? MsgForwardInput then
    with_payload (ForwardInput msg) (fun p => FForwardInput (Some (mkPbForwardInput from (fi_ConnID p)
      (fi_InputBlob p) (fi_GatewayID p) (fi_SessionEpoch p))))
  else if Type_ msg =? MsgCrossCellAction then
    with_payload (Action msg) (fun a => FCrossAction (Some (mkPbCrossAction from (ac_Type a)
      (ac_TargetNetID a) (ac_SourceNetID a) (ac_SourceCellID a) (ac_Payload a))))
  else if Type_ msg =? MsgPlayerAssignment then
    with_payload (Assignment msg) (fun a => FPlayerAssignment (Some (mkPbPlayerAssignment from
      (pa_ConnID a) (uuid_String (pa_UserID a)) (pa_Username a) (pa_SessionToken a)
      (pa_IsReconnect a) (pa_StreamGeneration a) (locationToProto (pa_SpawnLocation a)))))
  else if Type_ msg =? MsgSessionTransfer then
    match Sessions msg with
    | [] => Err (ErrSessionCount 0)
    | [s] => encodeSession from s
    | l => Err (ErrSessionCount (length l))
    end
  else if Type_ msg =? MsgSpawnTransfer then
    with_payload (Spawn msg) (fun s => FSpawnTransfer (Some (mkPbSpawnTransfer from (sp_ConnID s)
      (sp_Username s) (locationToProto (sp_SpawnLocation s)) (sp_StreamGeneration s))))
  else Err ErrUnsupportedType.

Definition encodeCellMessage (msg : CellMessage) (destCellID : string) : result CodecError MeshFrame :=
  let! m := encodePayload msg in Ok (mkFrame destCellID (Some m)).

(** An absent or unparsable id is the zero UUID. *)
Definition parseUser (s : string) : bytes :=
  if bool_decide (s = "") then replicate 16 0 else default (replicate 16 0) (uuid_Parse s).

Definition decodeCrossAction (ca : pbCrossAction) : result CodecError CellMessage :=
  let from := px_FromCellId ca in
  if px_ActionType ca =? ActionHandoffAccepted then
    match decodeHandoffAck (px_TargetNetId ca) (px_Payload ca) with
    | None => Err ErrMalformedAck
    | Some ack => Ok (mkMessage MsgHandoffAccepted from None None None [] [] None (Some ack) None None)
    end
  else
    Ok (mkMessage MsgCrossCellAction from None None
          (Some (mkAction (u16 (px_ActionType ca)) (px_TargetNetId ca) (px_SourceNetId ca)
                   (px_SourceCellId ca) (px_Payload ca))) [] [] None None None None).

Definition decodeMeshFrame (frame : option MeshFrame) : result CodecError CellMessage :=
  match frame with
  | None => Err ErrFrameNil
  | Some frame =>
      match Msg frame with
      | None => Err ErrNoPayload
      | Some (FBorderFrame None) | Some (FHandoff None) | Some (FForwardInput None)
      | Some (FCrossAction None) | Some (FPlayerAssignment None) | Some (FSessionTransfer None)
      | Some (FSpawnTransfer None) => Err ErrPayloadNil
      | Some (FBorderFrame (Some p)) =>
          Ok (mkMessage MsgBorderFrame (pb_FromCellId p) None None None [] (pb_Data p) None None None None)
      | Some (FHandoff (Some h)) =>
          Ok (mkMessage MsgHandoff (ph_FromCellId h) None None None [] []
                (Some (mkHandoff (ph_NetId h) (ph_Epoch h) (ph_CommitTick h) (ph_TransferBlob h)
                         (ph_ConnId h))) None None None)
      | Some (FForwardInput (Some fi)) =>
          Ok (mkMessage MsgForwardInput (pf_FromCellId fi) None None None [] [] None None
                (Some (mkForwardInput (pf_GatewayId fi) (pf_ConnId fi) (pf_SessionEpoch fi)
                         (pf_InputBlob fi))) None)
      | Some (FCrossAction (Some ca)) => decodeCrossAction ca
      | Some (FPlayerAssignment (Some pa)) =>
          Ok (mkMessage MsgPlayerAssignment (pp_FromCellId pa) None
                (Some (mkPlayerAssignment (pp_ConnId pa) (parseUser (pp_UserId pa)) (pp_Username pa)
                         (pp_SessionToken pa) (pp_IsReconnect pa) (pp_StreamGeneration pa)
                         (protoToLocation (pp_SpawnLocation pa)))) None [] [] None None None None)
      | Some (FSessionTransfer (Some st)) =>
          Ok (mkMessage MsgSessionTransfer (ps_FromCellId st) None None None
                [mkSession (ps_ConnId st) (ps_GatewayId st) (ps_GatewayConnId st) (ps_SessionEpoch st)
                   (parseUser (ps_UserId st)) (ps_Username st) (ps_StreamGeneration st)
                   (ps_StateTag st) (AnyBytes (ps_Data st))] [] None None None None)
      | Some (FSpawnTransfer (Some sp)) =>
          Ok (mkMessage MsgSpawnTransfer (pt_FromCellId sp)
                (Some (mkSpawn (pt_ConnId sp) (pt_Username sp) (pt_StreamGeneration sp)
                         (protoToLocation (pt_SpawnLocation sp)))) None None [] [] None None None None)
      | Some FServiceEvent => Err ErrServiceEventInline
      | Some FOther => Err ErrUnknownVariant
      end
  end.
End Codec.

(** * Properties *)

(** What of a message the wire can carry: the payload its type names, with a location that
    compares equal to zero made the zero location, and nil data made an empty slice. *)
Definition canon_location (l : Location) : Location := if IsZero l then zeroLocation else l.
Definition canon_any (v : anyval) : anyval := match v with AnyNil => AnyBytes [] | _ => v end.
Definition canon_session (s : SessionTransfer) : SessionTransfer :=
  mkSession (st_ConnID s) (st_GatewayID s) (st_GatewayConnID s) (st_SessionEpoch s) (st_UserID s)
    (st_Username s) (st_StreamGeneration s) (st_StateTag s) (canon_any (st_Data s)).
Definition canon_spawn (s : SpawnTransfer) : SpawnTransfer :=
  mkSpawn (sp_ConnID s) (sp_Username s) (sp_StreamGeneration s) (canon_location (sp_SpawnLocation s)).
Definition canon_assignment (a : PlayerAssignment) : PlayerAssignment :=
  mkPlayerAssignment (pa_ConnID a) (pa_UserID a) (pa_Username a) (pa_SessionToken a)
    (pa_IsReconnect a) (pa_StreamGeneration a) (canon_location (pa_SpawnLocation a)).

Definition only {A} (b : bool) (x : option A) : option A := if b then x else None.

Definition on_wire (m : CellMessage) : CellMessage :=
  let isa t := Type_ m =? t in
  mkMessage (Type_ m) (FromCellID m)
    (only (isa MsgSpawnTransfer) (canon_spawn <$> Spawn m))
    (only (isa MsgPlayerAssignment) (canon_assignment <$> Assignment m))
    (only (isa MsgCrossCellAction) (Action m))
    (if isa MsgSessionTransfer then canon_session <$> Sessions m else [])
    (if isa MsgBorderFrame then BorderFrame m else [])
    (only (isa MsgHandoff) (Handoff_ m))
    (only (isa MsgHandoffAccepted) (HandoffAck m))
    (only (isa MsgForwardInput) (ForwardInput m))
    None.

(** The payload a type needs. *)
Definition has_payload (m : CellMessage) : Prop :=
  Type_ m = MsgBorderFrame \/
  (Type_ m = MsgHandoff /\ is_Some (Handoff_ m)) \/
  (Type_ m = MsgHandoffAccepted /\ is_Some (HandoffAck m)) \/
  (Type_ m = MsgForwardInput /\ is_Some (ForwardInput m)) \/
  (Type_ m = MsgCrossCellAction /\ is_Some (Action m)) \/
  (Type_ m = MsgPlayerAssignment /\ is_Some (Assignment m)) \/
  (Type_ m = MsgSessionTransfer /\ exists s, Sessions m = [s]) \/
  (Type_ m = MsgSpawnTransfer /\ is_Some (Spawn m)).

(** No payload but the one of its type. *)
Definition no_other_payload (m : CellMessage) : Prop :=
  (Spawn m <> None -> Type_ m = MsgSpawnTransfer) /\
  (Assignment m <> None -> Type_ m = MsgPlayerAssignment) /\
  (Action m <> None -> Type_ m = MsgCrossCellAction) /\
  (Sessions m <> [] -> Type_ m = MsgSessionTransfer) /\
  (BorderFrame m <> [] -> Type_ m = MsgBorderFrame) /\
  (Handoff_ m <> None -> Type_ m = MsgHandoff) /\
  (HandoffAck m <> None -> Type_ m = MsgHandoffAccepted) /\
  (ForwardInput m <> None -> Type_ m = MsgForwardInput) /\
  Disconnect_ m = None.

Definition uuid_ok (u : bytes) : Prop := length u = 16%nat /\ Forall is_byte u.

(** The ranges of the Go types, and no action under the code reserved for the carrier. *)
Record message_ok (m : CellMessage) : Prop := {
  mo_ack : forall a, HandoffAck m = Some a -> in_u32 (ha_Epoch a) /\ in_u64 (ha_CommitTick a);
  mo_action : forall a, Action m = Some a -> in_u16 (ac_Type a) /\ ac_Type a <> ActionHandoffAccepted;
  mo_user : forall a, Assignment m = Some a -> uuid_ok (pa_UserID a);
  mo_users : Forall (fun s => uuid_ok (st_UserID s)) (Sessions m)
}.

Section Roundtrip.
Context (uuid_String : bytes -> string) (uuid_Parse : string -> option bytes).

Lemma location_roundtrip l : protoToLocation (locationToProto l) = canon_location l.
Proof. unfold locationToProto, canon_location. destruct (IsZero l); [done|by destruct l]. Qed.

Lemma parseUser_String u (uuid_law : forall u, uuid_ok u -> uuid_Parse (uuid_String u) = Some u)
    (uuid_shown : forall u, uuid_String u <> "") :
  uuid_ok u -> parseUser uuid_Parse (uuid_String u) = u.
Proof. intros H. unfold parseUser. by rewrite bool_decide_false, uuid_law. Qed.

Lemma ack_roundtrip a : in_u32 (ha_Epoch a) -> in_u64 (ha_CommitTick a) ->
  decodeHandoffAck (ha_NetID a) (encodeHandoffAck a) = Some a.
Proof.
  intros He Hc. unfold decodeHandoffAck, encodeHandoffAck.
  autorewrite with go_len. simpl negb. cbn iota. go_slices.
  rewrite le_u32, le_u64 by done. by destruct a.
Qed.

(** The eight cases of the encoder. *)
Lemma encodePayload_cases m f : encodePayload uuid_String m = Ok f ->
  (Type_ m = MsgBorderFrame /\ f = FBorderFrame (Some (mkPbBorderFrame (FromCellID m) (BorderFrame m)))) \/
  (Type_ m = MsgHandoff /\ exists p, Handoff_ m = Some p /\
     f = FHandoff (Some (mkPbHandoff (FromCellID m) (hp_NetID p) (hp_Epoch p) (hp_CommitTick p)
                           (hp_TransferBlob p) (hp_ConnID p)))) \/
  (Type_ m = MsgHandoffAccepted /\ exists a, HandoffAck m = Some a /\
     f = FCrossAction (Some (mkPbCrossAction (FromCellID m) ActionHandoffAccepted (ha_NetID a) 0
                               (FromCellID m) (encodeHandoffAck a)))) \/
  (Type_ m = MsgForwardInput /\ exists p, ForwardInput m = Some p /\
     f = FForwardInput (Some (mkPbForwardInput (FromCellID m) (fi_ConnID p) (fi_InputBlob p)
                                (fi_GatewayID p) (fi_SessionEpoch p)))) \/
  (Type_ m = MsgCrossCellAction /\ exists a, Action m = Some a /\
     f = FCrossAction (Some (mkPbCrossAction (FromCellID m) (ac_Type a) (ac_TargetNetID a)
                               (ac_SourceNetID a) (ac_SourceCellID a) (ac_Payload a)))) \/
  (Type_ m = MsgPlayerAssignment /\ exists a, Assignment m = Some a /\
     f = FPlayerAssignment (Some (mkPbPlayerAssignment (FromCellID m) (pa_ConnID a)
           (uuid_String (pa_UserID a)) (pa_Username a) (pa_SessionToken a) (pa_IsReconnect a)
           (pa_StreamGeneration a) (locationToProto (pa_SpawnLocation a))))) \/
  (Type_ m = MsgSessionTransfer /\ exists s, Sessions m = [s] /\ encodeSession uuid_String (FromCellID m) s = Ok f) \/
  (Type_ m = MsgSpawnTransfer /\ exists s, Spawn m = Some s /\
     f = FSpawnTransfer (Some (mkPbSpawnTransfer (FromCellID m) (sp_ConnID s) (sp_Username s)
           (locationToProto (sp_SpawnLocation s)) (sp_StreamGeneration s)))).
Proof.
  unfold encodePayload, with_payload. intros H.
  destruct (Z.eqb_spec (Type_ m) MsgBorderFrame); [left; by simplify_eq|right].
  destruct (Z.eqb_spec (Type_ m) MsgHandoff); [left; case_match; naive_solver|right].
  destruct (Z.eqb_spec (Type_ m) MsgHandoffAccepted); [left; case_match; naive_solver|right].
  destruct (Z.eqb_spec (Type_ m) MsgForwardInput); [left; case_match; naive_solver|right].
  destruct (Z.eqb_spec (Type_ m) MsgCrossCellAction); [left; case_match; naive_solver|right].
  destruct (Z.eqb_spec (Type_ m) MsgPlayerAssignment); [left; case_match; naive_solver|right].
  destruct (Z.eqb_spec (Type_ m) MsgSessionTransfer).
  { left. destruct (Sessions m) as [|s [|? ?]]; try done. eauto. }
  right. destruct (Z.eqb_spec (Type_ m) MsgSpawnTransfer); [|done]. case_match; naive_solver.
Qed.

Lemma encode_defined m :
  (exists f, encodePayload uuid_String m = Ok f) <->
  has_payload m /\ (Type_ m = MsgSessionTransfer -> Forall (fun s => st_Data s <> AnyOther) (Sessions m)).
Proof.
  split.
  - intros [f Hf]. apply encodePayload_cases in Hf. unfold has_payload.
    destruct Hf as [[Ht _]|[[Ht (a & Ha & _)]|[[Ht (a & Ha & _)]|[[Ht (a & Ha & _)]|[[Ht (a & Ha & _)]
      |[[Ht (a & Ha & _)]|[[Ht (a & Ha & He)]|[Ht (a & Ha & _)]]]]]]]]; rewrite Ht;
      (split; [|try done]).
    8:{ intros _. rewrite Ha. constructor; [|constructor]. intros E. unfold encodeSession in He.
        by rewrite E in He. }
    all: rewrite ?Ha; naive_solver.
  - intros [Hp Hd]. unfold encodePayload, with_payload.
    destruct Hp as [Ht|[[Ht [a Ha]]|[[Ht [a Ha]]|[[Ht [a Ha]]|[[Ht [a Ha]]|[[Ht [a Ha]]|[[Ht [a Ha]]|[Ht [a Ha]]]]]]]]];
      rewrite Ht; simpl; rewrite ?Ha; eauto.
    specialize (Hd Ht). rewrite Ha in Hd. rewrite Forall_singleton in Hd.
    unfold encodeSession. destruct (st_Data a); [by eexists..|done].
Qed.

Lemma decode_encoded (uuid_law : forall u, uuid_ok u -> uuid_Parse (uuid_String u) = Some u)
    (uuid_shown : forall u, uuid_String u <> "") m f dest :
  message_ok m -> encodePayload uuid_String m = Ok f ->
  decodeMeshFrame uuid_Parse (Some (mkFrame dest (Some f))) = Ok (on_wire m).
Proof.
  intros [Hack Hact Hu Hus] Hf. apply encodePayload_cases in Hf.
  destruct Hf as [[Ht ->]|[[Ht (a & Ha & ->)]|[[Ht (a & Ha & ->)]|[[Ht (a & Ha & ->)]|[[Ht (a & Ha & ->)]
      |[[Ht (a & Ha & ->)]|[[Ht (a & Ha & He)]|[Ht (a & Ha & ->)]]]]]]]]; unfold on_wire; rewrite Ht; cbn -[decodeCrossAction];
    rewrite ?Ha; cbn -[decodeCrossAction].
  - done.
  - by destruct a.
  - unfold decodeCrossAction. cbn -[decodeHandoffAck encodeHandoffAck].
    destruct (Hack a Ha). by rewrite ack_roundtrip.
  - by destruct a.
  - unfold decodeCrossAction. cbn -[u16 Z.eqb]. destruct (Hact a Ha) as [Hr Hne].
    rewrite (proj2 (Z.eqb_neq _ _)), u16_id by done. by destruct a.
  - unfold canon_assignment. rewrite location_roundtrip, parseUser_String by auto. done.
  - unfold encodeSession, rbind in He. rewrite Ha in Hus. rewrite Forall_singleton in Hus.
    destruct (encodeAnyToBytes (st_Data a)) as [b|e] eqn:Eb; [|done]. injection He as <-. simpl.
    rewrite parseUser_String by auto. unfold canon_session.
    replace (canon_any (st_Data a)) with (AnyBytes b); [done|].
    revert Eb. destruct (st_Data a); simpl; congruence.
  - unfold canon_spawn. by rewrite location_roundtrip.
Qed.
End Roundtrip.

(** C34: what crosses hosts arrives.  Encoding a message succeeds exactly when it has the
    payload its type names (one session, for a session transfer) and its session data is
    nil or bytes; decoding the frame then gives back the type, the sender and that payload
    whole, up to the sign of a zero location and to nil data arriving as an empty slice,
    and nothing else; provided its user ids are UUIDs and no game action uses the code
    reserved for the handoff acknowledgement. *)
Theorem mesh_frame_roundtrip (uuid_String : bytes -> string) (uuid_Parse : string -> option bytes)
    (uuid_law : forall u, uuid_ok u -> uuid_Parse (uuid_String u) = Some u)
    (uuid_shown : forall u, uuid_String u <> "")
    (m : CellMessage) (dest : string) (Hok : message_ok m) :
  ((exists f, encodeCellMessage uuid_String m dest = Ok f) <->
     has_payload m /\ (Type_ m = MsgSessionTransfer -> Forall (fun s => st_Data s <> AnyOther) (Sessions m))) /\
  (forall f, encodeCellMessage uuid_String m dest = Ok f ->
     DestCellId f = dest /\ decodeMeshFrame uuid_Parse (Some f) = Ok (on_wire m)).
Proof.
  assert (forall f, encodeCellMessage uuid_String m dest = Ok f <->
            exists fm, encodePayload uuid_String m = Ok fm /\ f = mkFrame dest (Some fm)) as Henc.
  { intros f. unfold encodeCellMessage, rbind. destruct (encodePayload uuid_String m); [|naive_solver].
    split; [intros [= <-]; eauto|]. by intros (fm & [= <-] & ->). }
  split.
  - rewrite <- (encode_defined uuid_String). split.
    + intros [f (fm & H & _)%Henc]. eauto.
    + intros [fm H]. exists (mkFrame dest (Some fm)). apply Henc. eauto.
  - intros f (fm & H & ->)%Henc. split; [done|]. by apply (decode_encoded uuid_String).
Qed.

(** A cell never sees a message without its payload.  Whatever frame a peer sends, a
    message it decodes to has the payload that its type promises the handlers, one session
    for a session transfer, and no payload of another type; a missing frame, an empty
    oneof, a nil variant and a malformed acknowledgement are errors. *)
Theorem decoded_well_typed (uuid_Parse : string -> option bytes) (frame : option MeshFrame)
    (m : CellMessage) (Hd : decodeMeshFrame uuid_Parse frame = Ok m) :
  has_payload m /\ no_other_payload m.
Proof.
  unfold decodeMeshFrame in Hd. destruct frame as [[dest [f|]]|]; [|done..]. simpl in Hd.
  unfold has_payload, no_other_payload.
  destruct f as [[p|]|[p|]|[p|]|[p|]|[p|]|[p|]|[p|]| |]; try done; simpl in Hd;
    [| | |unfold decodeCrossAction in Hd; destruct (_ =? _); [destruct (decodeHandoffAck _ _); [|done]|]| | |];
    injection Hd as <-; simpl; naive_solver.
Qed.

(** A game action under the reserved code is taken for a handoff acknowledgement: the
    encoder does not refuse it, and the destination acts on its payload. *)
Lemma reserved_action_hijacked (uuid_String : bytes -> string) (uuid_Parse : string -> option bytes) :
  let m := mkMessage MsgCrossCellAction "a" None None
             (Some (mkAction ActionHandoffAccepted 7 9 "a" (le_bytes 4 3 ++ le_bytes 8 500)))
             [] [] None None None None in
  exists f m', encodeCellMessage uuid_String m "b" = Ok f /\
    decodeMeshFrame uuid_Parse (Some f) = Ok m' /\
    Type_ m' = MsgHandoffAccepted /\ HandoffAck m' = Some (mkAck 7 3 500) /\ Action m' = None.
Proof. intros m. eexists _, _. split; [reflexivity|]. split; [reflexivity|]. by split_and!. Qed.

(** The interception compares 32 bits and the action type keeps 16: a frame with type
    65536 + 101 reaches the stage as an action of the reserved type. *)
Lemma reserved_action_surfaces (uuid_Parse : string -> option bytes) :
  exists m, decodeMeshFrame uuid_Parse
      (Some (mkFrame "b" (Some (FCrossAction (Some (mkPbCrossAction "a" (65536 + 101) 7 9 "a" [])))))) = Ok m /\
    ac_Type <$> Action m = Some ActionHandoffAccepted.
Proof. eexists. split; by vm_compute. Qed.

(** ** Witnesses *)

Definition toy_String (u : bytes) : string :=
  String.String (Ascii.ascii_of_N 35) (String.string_of_list_ascii (map (fun b => Ascii.ascii_of_N (Z.to_N b)) u)).
Definition toy_Parse (s : string) : option bytes :=
  match s with
  | String.String _ s => Some (map (fun a => Z.of_N (Ascii.N_of_ascii a)) (String.list_ascii_of_string s))
  | _ => None
  end.

Lemma toy_uuid_law u : uuid_ok u -> toy_Parse (toy_String u) = Some u.
Proof.
  intros [_ H]. unfold toy_Parse, toy_String. rewrite String.list_ascii_of_string_of_list_ascii.
  f_equal. rewrite map_map. induction H as [|b u Hb _ IH]; simpl; [done|].
  unfold is_byte in Hb. rewrite Ascii.N_ascii_embedding by lia. rewrite IH. f_equal. lia.
Qed.

Definition sample_message : CellMessage :=
  mkMessage MsgPlayerAssignment "cell-1" None
    (Some (mkPlayerAssignment 7 (replicate 16 3) "ann" "tok" false 2 zeroLocation)) None [] [] None
    None None None.

Lemma mesh_frame_roundtrip_witness :
  exists f, encodeCellMessage toy_String sample_message "cell-2" = Ok f /\
    decodeMeshFrame toy_Parse (Some f) = Ok (on_wire sample_message) /\
    on_wire sample_message = sample_message.
Proof.
  assert (message_ok sample_message) as Hok.
  { constructor; simpl; intros; simplify_eq; [|constructor].
    split; [reflexivity|repeat constructor; vm_compute; congruence]. }
  assert (forall u, toy_String u <> "") as Hshown by done.
  destruct (mesh_frame_roundtrip toy_String toy_Parse toy_uuid_law Hshown sample_message "cell-2" Hok)
    as [_ H].
  eexists. split; [reflexivity|]. split; [|reflexivity]. apply H. reflexivity.
Defined.

Lemma decoded_well_typed_witness :
  has_payload (mkMessage MsgHandoff "a" None None None [] [] (Some (mkHandoff 1 2 3 [] 0)) None None None).
Proof.
  apply (proj1 (decoded_well_typed toy_Parse
    (Some (mkFrame "b" (Some (FHandoff (Some (mkPbHandoff "a" 1 2 3 [] 0)))))) _ eq_refl)).
Defined.
