(* ===== verification/Commands.v ===== *)
(** * The command system (pkg/cmdsys)

    Operator commands: grants and capability checks (rbac.go, grants.go), the line parser
    (parser.go, with the field schemas of schema.go) and the dispatcher (dispatcher.go).
    A text is the list of its code points.  Field names are Go identifiers, taken to be
    ASCII, so that folding case is folding ASCII letters and the two letters outside it
    that fold to them.  [strconv.ParseFloat] is a parameter, as are what the dispatcher
    calls: the handlers, the transport, the route resolver and the reflection that fills
    an argument struct. *)

From S2P Require Import Prelude.

Abbreviation text := (list Z).

Definition txt (s : string) : text :=
  map (fun a => Z.of_N (Ascii.N_of_ascii a)) (String.list_ascii_of_string s).

(** [len] of a string is its UTF-8 length. *)
Definition rune_len (r : Z) : Z :=
  if r <? 0x80 then 1 else if r <? 0x800 then 2 else if r <? 0x10000 then 3 else 4.
Definition byte_len (t : text) : Z := foldr (fun r n => rune_len r + n) 0 t.

Definition HasPrefix (t p : text) : bool := bool_decide (take (length p) t = p).
Definition HasSuffix (t p : text) : bool :=
  (length p <=? length t)%nat && bool_decide (drop (length t - length p) t = p).

(** [strings.Cut(t, c)]: what precedes and follows the first [c]. *)
Fixpoint cut_at (c : Z) (t : text) : text * text * bool :=
  match t with
  | [] => ([], [], false)
  | x :: t =>
      if x =? c then ([], t, true)
      else let '(a, b, ok) := cut_at c t in (x :: a, b, ok)
  end.

(** ** Grants (rbac.go, grants.go) *)

Record Grant := mkGrant { Pattern : text; Allow : bool }.
(** [SourceOther] is a number without a name. *)
Inductive CallerSource :=
| SourceConsole | SourceMeshControl | SourceTest | SourceAdminHTTP | SourceOther (n : Z).
Record Caller := mkCaller { CallerID : text; Source : CallerSource; Grants : list Grant }.

Definition matchScore (pattern c : text) : Z :=
  if bool_decide (pattern = txt "*.*") then 0
  else if bool_decide (pattern = c) then 1000000
  else if HasSuffix pattern (txt ".*") then
    let after := take (length pattern - 2) pattern in
    if HasPrefix c (after ++ txt ".") then byte_len after else -1
  else -1.

Definition check_grant (c : text) (best : Z * bool) (g : Grant) : Z * bool :=
  let '(bestScore, bestAllow) := best in
  let score := matchScore (Pattern g) c in
  if score <? 0 then best
  else if bestScore <? score then (score, Allow g)
  else if score =? bestScore then (bestScore, if negb (Allow g) then false else bestAllow)
  else best.

Definition check_grants (c : text) (gs : list Grant) : Z * bool := fold_left (check_grant c) gs (-1, false).

Definition Check_ (caller : Caller) (c : text) : bool :=
  let '(bestScore, bestAllow) := check_grants c (Grants caller) in
  (0 <=? bestScore) && bestAllow.

Inductive CmdError :=
| ErrNoDeadline | ErrUnknownVerb | ErrRBACDenied | ErrNotYetWired | ErrRefuseGlobalWildcard
| ErrEmptyGrant | ErrUnterminated | ErrFlagNoValue (key : text) | ErrMissingField (name : text)
| ErrUnknownFlag | ErrField (name : text) (why : Z) | ErrOther (code : Z).

(** [unicode.IsSpace] and [strings.TrimSpace]. *)
Definition IsSpace (r : Z) : bool :=
  (9 <=? r) && (r <=? 13) || (r =? 32) || (r =? 0x85) || (r =? 0xA0) || (r =? 0x1680)
  || (0x2000 <=? r) && (r <=? 0x200A) || (r =? 0x2028) || (r =? 0x2029) || (r =? 0x202F)
  || (r =? 0x205F) || (r =? 0x3000).
Fixpoint trim_left (t : text) : text :=
  match t with
  | [] => []
  | r :: rest => if IsSpace r then trim_left rest else t
  end.
Definition TrimSpace (t : text) : text := rev (trim_left (rev (trim_left t))).

Definition Parse (line : text) : result CmdError Grant :=
  let line := TrimSpace line in
  match line with
  | [] => Err ErrEmptyGrant
  | ch :: rest =>
      let '(allow, line) :=
        if ch =? 45 then (false, rest) else if ch =? 43 then (true, rest) else (true, line) in
      if bool_decide (line = txt "*.*") then Err ErrRefuseGlobalWildcard
      else Ok (mkGrant line allow)
  end.

Definition NewOperatorIdentity (id : text) : Caller :=
  mkCaller id SourceConsole [mkGrant (txt "*.*") true].

(** ** The parser (parser.go) *)

(** The loop of [tokenize], on the runes that remain. *)
Fixpoint tokenize_loop (l : text) (inQuote : bool) (cur : text) (tokens : list text)
  : result CmdError (list text) :=
  match l with
  | [] =>
      if inQuote then Err ErrUnterminated
      else Ok (match cur with [] => tokens | _ => tokens ++ [cur] end)
  | ch :: l =>
      if inQuote then
        if ch =? 92 then
          match l with
          | next :: l' =>
              let cur := if next =? 34 then cur ++ [34]
                         else if next =? 92 then cur ++ [92] else cur ++ [92; next] in
              tokenize_loop l' true cur tokens
          | [] => tokenize_loop l true (cur ++ [ch]) tokens
          end
        else if ch =? 34 then tokenize_loop l false cur tokens
        else tokenize_loop l true (cur ++ [ch]) tokens
      else if ch =? 34 then tokenize_loop l true cur tokens
      else if (ch =? 32) || (ch =? 9) then
        tokenize_loop l false [] (match cur with [] => tokens | _ => tokens ++ [cur] end)
      else tokenize_loop l false (cur ++ [ch]) tokens
  end.

Definition tokenize (raw : text) : result CmdError (list text) := tokenize_loop raw false [] [].

(** [Kind] is the constructor for the kinds the parser binds, [KOther] for the rest. *)
Inductive Kind := KString | KInt | KInt32 | KInt64 | KUint32 | KUint64 | KFloat32 | KFloat64 | KBool | KOther.
#[export] Instance Kind_eq_dec : EqDecision Kind.
Proof. solve_decision. Defined.

Record FieldSchema := mkField {
  Name : text; FKind : Kind; Required : bool; NamedOnly : bool; Default : text;
  Enum : list text; Rest : bool
}.

Definition lower_rune (r : Z) : Z := if (65 <=? r) && (r <=? 90) then r + 32 else r.
Definition ToLower (t : text) : text := map lower_rune t.
(** [strings.EqualFold] against an ASCII name: the Kelvin sign folds to k, the long s to s. *)
Definition fold_rune (r : Z) : Z :=
  if r =? 0x212A then 107 else if r =? 0x17F then 115 else lower_rune r.
Definition EqualFold (s t : text) : bool := bool_decide (map fold_rune s = map fold_rune t).

Inductive value := VString (t : text) | VInt (z : Z) | VFloat (bits : Z) | VBool (b : bool).

(** *** strconv, base 10 *)

Definition digit (r : Z) : option Z := if (48 <=? r) && (r <=? 57) then Some (r - 48) else None.
Fixpoint digits_val (acc : Z) (t : text) : option Z :=
  match t with
  | [] => Some acc
  | r :: t => match digit r with Some d => digits_val (acc * 10 + d) t | None => None end
  end.
Definition ParseUint (t : text) (bits : Z) : option Z :=
  match t with
  | [] => None
  | _ => n ← digits_val 0 t; if n <? 2 ^ bits then Some n else None
  end.
Definition ParseInt (t : text) (bits : Z) : option Z :=
  let '(neg, digits) :=
    match t with
    | r :: rest => if r =? 45 then (true, rest) else if r =? 43 then (false, rest) else (false, t)
    | [] => (false, [])
    end in
  match digits with
  | [] => None
  | _ =>
      n ← digits_val 0 digits;
      if neg then if n <=? 2 ^ (bits - 1) then Some (- n) else None
      else if n <? 2 ^ (bits - 1) then Some n else None
  end.
Definition ParseBool (t : text) : option bool :=
  if bool_decide (t ∈ map txt ["1"; "t"; "T"; "TRUE"; "true"; "True"]%string) then Some true
  else if bool_decide (t ∈ map txt ["0"; "f"; "F"; "FALSE"; "false"; "False"]%string) then Some false
  else None.

Section Binder.
(** [ParseFloat t bits]: the bits of the nearest float, [None] on an error. *)
Context (ParseFloat : text -> Z -> option Z).

(** The errors of a field: 0 a value outside its enum, 1 a malformed value, 2 a kind the
    parser does not bind. *)
Definition or_field {A} (f : FieldSchema) (k : A -> value) (o : option A) : result CmdError value :=
  match o with Some a => Ok (k a) | None => Err (ErrField (Name f) 1) end.

Definition convertField (raw : text) (f : FieldSchema) : result CmdError value :=
  match Enum f with
  | _ :: _ => if bool_decide (raw ∈ Enum f) then Ok (VString raw) else Err (ErrField (Name f) 0)
  | [] =>
      match FKind f with
      | KString => Ok (VString raw)
      | KInt | KInt64 => or_field f VInt (ParseInt raw 64)
      | KInt32 => or_field f VInt (ParseInt raw 32)
      | KUint32 => or_field f VInt (ParseUint raw 32)
      | KUint64 => or_field f VInt (ParseUint raw 64)
      | KFloat32 => or_field f VFloat (ParseFloat raw 32)
      | KFloat64 => or_field f VFloat (ParseFloat raw 64)
      | KBool => or_field f VBool (ParseBool raw)
      | KOther => Err (ErrField (Name f) 2)
      end
  end.

(** Whether a bare [--key] means true: the first field of that name is a bool. *)
Fixpoint boolField (fields : list FieldSchema) (key : text) : bool :=
  match fields with
  | [] => false
  | f :: fields =>
      if bool_decide (Name f = key) || EqualFold (Name f) key then bool_decide (FKind f = KBool)
      else boolField fields key
  end.

Fixpoint collect (fields : list FieldSchema) (tokens : list text) (named : gmap text text)
    (positional : list text) : result CmdError (gmap text text * list text) :=
  match tokens with
  | [] => Ok (named, positional)
  | tok :: tokens =>
      if HasPrefix tok (txt "--") then
        let '(key, val, cut) := cut_at 61 (drop 2 tok) in
        if cut then collect fields tokens (<[key := val]> named) positional
        else if boolField fields key then collect fields tokens (<[key := txt "true"]> named) positional
        else
          match tokens with
          | [] => Err (ErrFlagNoValue key)
          | val :: tokens => collect fields tokens (<[key := val]> named) positional
          end
      else collect fields tokens named (positional ++ [tok])
  end.

Fixpoint join_spaces (ts : list text) : text :=
  match ts with
  | [] => []
  | [t] => t
  | t :: ts => t ++ 32 :: join_spaces ts
  end.

(** Where a field's text comes from: a flag by its name or its lower-case name, the
    positionals that are left, its default. *)
Definition take_field (f : FieldSchema) (named : gmap text text) (positional : list text)
  : option text * gmap text text * list text :=
  let '(raw, named, positional) :=
    match named !! Name f with
    | Some v => (Some v, delete (Name f) named, positional)
    | None =>
        match named !! ToLower (Name f) with
        | Some v => (Some v, delete (ToLower (Name f)) named, positional)
        | None =>
            match positional with
            | p :: ps =>
                if NamedOnly f then (None, named, positional)
                else if Rest f then (Some (join_spaces positional), named, [])
                else (Some p, named, ps)
            | [] => (None, named, positional)
            end
        end
    end in
  match raw, Default f with
  | None, _ :: _ => (Some (Default f), named, positional)
  | _, _ => (raw, named, positional)
  end.

Fixpoint bind_fields (fields : list FieldSchema) (named : gmap text text) (positional : list text)
    (out : gmap text value) : result CmdError (gmap text value * gmap text text) :=
  match fields with
  | [] => Ok (out, named)
  | f :: fields =>
      match take_field f named positional with
      | (None, named, positional) =>
          if Required f then Err (ErrMissingField (Name f)) else bind_fields fields named positional out
      | (Some raw, named, positional) =>
          match convertField raw f with
          | Err e => Err e
          | Ok v => bind_fields fields named positional (<[Name f := v]> out)
          end
      end
  end.

Definition Bind (raw : text) (fields : list FieldSchema) : result CmdError (gmap text value) :=
  let! tokens := tokenize raw in
  match collect fields tokens ∅ [] with
  | Err e => Err e
  | Ok (named, positional) =>
      match bind_fields fields named positional ∅ with
      | Err e => Err e
      | Ok (out, rest) => if decide (rest = ∅) then Ok out else Err ErrUnknownFlag
      end
  end.
End Binder.

(** * Properties *)

(** ** Capability checks *)

Lemma matchScore_neg p c : matchScore p c < 0 -> matchScore p c = -1.
Proof.
  assert (forall t, 0 <= byte_len t) as Hl.
  { intros t. induction t as [|r t IH]; simpl; [done|]. unfold rune_len. repeat case_match; lia. }
  specialize (Hl (take (length p - 2) p)). unfold matchScore. simpl in *. repeat case_match; lia.
Qed.

(** What the loop of [Check_] has computed after the grants [gs]. *)
Definition best_of (c : text) (gs : list Grant) (best : Z * bool) : Prop :=
  (best.1 = -1 /\ best.2 = false /\ Forall (fun g => matchScore (Pattern g) c < 0) gs) \/
  (0 <= best.1 /\ Exists (fun g => matchScore (Pattern g) c = best.1) gs /\
   Forall (fun g => matchScore (Pattern g) c <= best.1) gs /\
   (best.2 = true <-> Forall (fun g => matchScore (Pattern g) c = best.1 -> Allow g = true) gs)).

Lemma check_grant_best c gs best g :
  best_of c gs best -> best_of c (gs ++ [g]) (check_grant c best g).
Proof.
  unfold best_of, check_grant. destruct best as [s a]. simpl. intros H.
  setoid_rewrite Forall_app. setoid_rewrite Exists_app. setoid_rewrite Forall_singleton.
  setoid_rewrite Exists_cons. setoid_rewrite Exists_nil.
  destruct (Z.ltb_spec (matchScore (Pattern g) c) 0) as [Hn|Hn].
  { destruct H as [(-> & -> & H)|(Hs & He & Hle & Ha)]; simpl; [naive_solver|]. right.
    split_and!; auto with lia. rewrite Ha. intuition lia. }
  destruct (Z.ltb_spec s (matchScore (Pattern g) c)) as [Hlt|Hge].
  { right. simpl. split_and!; auto with lia.
    - destruct H as [(-> & -> & H)|(Hs & He & Hle & Ha)]; eapply Forall_impl; eauto; simpl; lia.
    - split; [|naive_solver]. intros Hg. split; [|auto].
      destruct H as [(-> & -> & H)|(Hs & He & Hle & Ha)]; eapply Forall_impl; eauto; simpl; lia. }
  destruct H as [(-> & -> & H)|(Hs & He & Hle & Ha)]; [lia|]. right.
  destruct (Z.eqb_spec (matchScore (Pattern g) c) s) as [<-|Hne]; simpl.
  - split_and!; auto with lia. destruct (Allow g); simpl; [rewrite Ha; naive_solver|naive_solver].
  - split_and!; auto with lia. rewrite Ha. naive_solver.
Qed.

Lemma check_grants_best c gs : best_of c gs (check_grants c gs).
Proof.
  unfold check_grants. induction gs as [|g gs IH] using rev_ind; [left; split_and!; by simpl|].
  rewrite fold_left_app. by apply check_grant_best.
Qed.

Lemma Check_best caller c :
  Check_ caller c = true <-> exists g, g ∈ Grants caller /\ 0 <= matchScore (Pattern g) c /\
    forall h, h ∈ Grants caller -> matchScore (Pattern h) c <= matchScore (Pattern g) c /\
      (matchScore (Pattern h) c = matchScore (Pattern g) c -> Allow h = true).
Proof.
  unfold Check_. pose proof (check_grants_best c (Grants caller)) as H.
  destruct (check_grants c (Grants caller)) as [s a]. unfold best_of in H. simpl in H.
  rewrite andb_true_iff, Z.leb_le.
  destruct H as [(-> & -> & H)|(Hs & He & Hle & Ha)]; rewrite ?Forall_forall, ?Exists_exists in *.
  - split; [lia|]. intros (g & Hg & Hp & _). specialize (H g Hg). lia.
  - destruct He as (g & Hg & Es). split.
    + intros [_ Hat]. exists g. rewrite Es. split_and!; auto. rewrite Ha in Hat. naive_solver.
    + intros (g' & Hg' & Hp & Hb). split; [done|]. rewrite Ha. intros h Hh Eh.
      pose proof (proj1 (Hb g Hg)). pose proof (Hle g' Hg'). apply (Hb h Hh). lia.
Qed.

(** Who may run a command.  A caller has a capability exactly when some grant of theirs
    matches it and every grant that matches it best allows it, whatever the order of the
    grants; so without a matching grant the answer is no, and a grant that names the
    capability and denies it is final (as long as no pattern has a million bytes). *)
Theorem capability_check_exact (caller : Caller) (c : text) :
  (Check_ caller c = true <-> exists g, g ∈ Grants caller /\ 0 <= matchScore (Pattern g) c /\
     forall h, h ∈ Grants caller -> matchScore (Pattern h) c <= matchScore (Pattern g) c /\
       (matchScore (Pattern h) c = matchScore (Pattern g) c -> Allow h = true)) /\
  (forall src id gs, Grants caller ≡ₚ gs -> Check_ (mkCaller id src gs) c = Check_ caller c) /\
  (forall d, d ∈ Grants caller -> Pattern d = c -> c <> txt "*.*" -> Allow d = false ->
     Forall (fun g => byte_len (take (length (Pattern g) - 2) (Pattern g)) < 1000000) (Grants caller) ->
     Check_ caller c = false).
Proof.
  split; [apply Check_best|]. split.
  - intros src id gs Hp. apply eq_true_iff_eq. rewrite !Check_best. simpl. setoid_rewrite Hp. done.
  - intros d Hd Hc Hw Hf Hlen. apply not_true_is_false. intros (g & Hg & Hs & Hb)%Check_best.
    destruct (Hb d Hd) as [Hle Heq].
    assert (matchScore (Pattern d) c = 1000000) as Es.
    { unfold matchScore. rewrite Hc, bool_decide_false by done. by rewrite bool_decide_true. }
    rewrite Forall_forall in Hlen. specialize (Hlen g Hg).
    assert (matchScore (Pattern g) c <= 1000000) as Hg'.
    { unfold matchScore. simpl in *. repeat case_match; lia. }
    rewrite Es in *. assert (matchScore (Pattern g) c = 1000000) as Eg by lia.
    rewrite Heq in Hf; [done|lia].
Qed.

Lemma HasPrefix_spec t p : HasPrefix t p = true <-> exists r, t = p ++ r.
Proof.
  unfold HasPrefix. rewrite bool_decide_eq_true. split.
  - intros <-. exists (drop (length p) t). by rewrite take_drop.
  - intros [r ->]. apply take_app_length.
Qed.

Lemma HasSuffix_spec t p : HasSuffix t p = true -> t = take (length t - length p) t ++ p.
Proof.
  unfold HasSuffix. rewrite andb_true_iff, bool_decide_eq_true. intros [_ H].
  rewrite <- (take_drop (length t - length p) t) at 1. by rewrite H.
Qed.

Lemma matchScore_scoped p c : 0 <= matchScore p c ->
  p = txt "*.*" \/ p = c \/ exists ns r, p = ns ++ txt ".*" /\ c = ns ++ txt "." ++ r.
Proof.
  unfold matchScore. case_bool_decide as H1; [by left|]. case_bool_decide as H2; [right; by left|].
  destruct (HasSuffix p (txt ".*")) eqn:Hs; [|lia]. cbv zeta. apply HasSuffix_spec in Hs.
  change (length (txt ".*")) with 2%nat in Hs.
  destruct (HasPrefix c _) eqn:Hp; [|lia]. intros _. right. right.
  apply HasPrefix_spec in Hp as [r Hr]. exists (take (length p - 2) p), r.
  by rewrite app_assoc.
Qed.

Lemma Parse_pattern line g : Parse line = Ok g -> Pattern g <> txt "*.*".
Proof.
  unfold Parse. destruct (TrimSpace line) as [|ch rest]; [done|].
  set (p := if ch =? 45 then _ else _). clearbody p. destruct p as [allow l].
  case_bool_decide; [done|]. by intros [= <-].
Qed.

(** No line of a grant file gives away everything.  Whoever holds only grants that
    were parsed has no capability but those some grant names, or whose namespace some
    grant names; the global wildcard is the operator's, who has them all. *)
Theorem parsed_grants_scoped (caller : Caller)
    (Hparsed : Forall (fun g => exists line, Parse line = Ok g) (Grants caller)) (c : text) :
  (Check_ caller c = true ->
     exists g, g ∈ Grants caller /\ Allow g = true /\
       (Pattern g = c \/ exists ns r, Pattern g = ns ++ txt ".*" /\ c = ns ++ txt "." ++ r)) /\
  (forall id, Check_ (NewOperatorIdentity id) c = true).
Proof.
  split; [|done]. intros (g & Hg & Hs & Hb)%Check_best. exists g. split; [done|].
  rewrite Forall_forall in Hparsed. destruct (Hparsed g Hg) as [line Hl].
  split; [by apply (Hb g Hg)|]. apply Parse_pattern in Hl.
  destruct (matchScore_scoped _ _ Hs) as [?|[?|?]]; auto. done.
Qed.

(** ** The tokenizer *)

(** An argument as an operator would quote it. *)
Definition escape (t : text) : text := t ≫= fun r => if (r =? 34) || (r =? 92) then [92; r] else [r].
Definition quote (t : text) : text := 34 :: escape t ++ [34].

Lemma tokenize_escape t rest cur toks :
  tokenize_loop (escape t ++ rest) true cur toks = tokenize_loop rest true (cur ++ t) toks.
Proof.
  revert cur. induction t as [|r t IH]; intros cur; [by rewrite app_nil_r|].
  unfold escape in *. rewrite bind_cons, <- app_assoc.
  destruct (Z.eqb_spec r 34) as [->|H34]; [|destruct (Z.eqb_spec r 92) as [->|H92]];
    simpl orb; cbn iota; cbn [app tokenize_loop].
  - simpl. rewrite IH, <- app_assoc. done.
  - simpl. rewrite IH, <- app_assoc. done.
  - rewrite (proj2 (Z.eqb_neq r 92)), (proj2 (Z.eqb_neq r 34)) by done.
    rewrite IH, <- app_assoc. done.
Qed.

Lemma tokenize_quote t rest cur toks :
  tokenize_loop (quote t ++ rest) false cur toks = tokenize_loop rest false (cur ++ t) toks.
Proof.
  unfold quote. cbn [app tokenize_loop]. rewrite Z.eqb_refl, <- app_assoc, tokenize_escape. done.
Qed.

Lemma tokenize_line ts toks :
  tokenize_loop (join_spaces (quote <$> ts)) false [] toks = Ok (toks ++ filter (fun t => t <> []) ts).
Proof.
  revert toks. induction ts as [|t ts IH]; intros toks; [by rewrite app_nil_r|].
  destruct ts as [|t' ts]; rewrite !fmap_cons; cbn [join_spaces].
  - rewrite fmap_nil. cbn [join_spaces]. rewrite <- (app_nil_r (quote t)), tokenize_quote. simpl.
    rewrite filter_cons. destruct t; simpl; [by rewrite app_nil_r|done].
  - rewrite tokenize_quote. cbn [app tokenize_loop Z.eqb Pos.eqb orb].
    etransitivity; [apply IH|]. rewrite (filter_cons _ t). f_equal. destruct t; simpl; [done|by rewrite <- app_assoc].
Qed.

(** Quoting is exact.  Whatever the arguments hold (spaces, tabs, quotes, backslashes,
    dashes), the line of their quoted forms is split into just those arguments, in order;
    except that an empty argument, quoted or not, is dropped. *)
Theorem tokenize_quoted (ts : list text) :
  tokenize (join_spaces (quote <$> ts)) = Ok (filter (fun t => t <> []) ts).
Proof. apply tokenize_line. Qed.

(** ** The binder *)

Section BinderFacts.
Context (ParseFloat : text -> Z -> option Z).
Notation convertField := (convertField ParseFloat).
Notation bind_fields := (bind_fields ParseFloat).
Notation Bind := (Bind ParseFloat).

(** The flag [--key=value], and the line that gives the flags [kvs]. *)
Definition flag (kv : text * text) : text := txt "--" ++ kv.1 ++ 61 :: kv.2.
Definition flag_line (kvs : list (text * text)) : text := join_spaces (quote <$> (flag <$> kvs)).

(** What field [f] gets from the flags alone: nothing, the text of its value, or an error. *)
Definition arg_of (f : FieldSchema) (flags : gmap text text) : option text :=
  match flags !! Name f with
  | Some v => Some v
  | None => match Default f with [] => None | d => Some d end
  end.
Definition field_result (f : FieldSchema) (flags : gmap text text) : result CmdError (option value) :=
  match arg_of f flags with
  | None => if Required f then Err (ErrMissingField (Name f)) else Ok None
  | Some raw => match convertField raw f with Ok v => Ok (Some v) | Err e => Err e end
  end.

Lemma cut_at_app key val : 61 ∉ key -> cut_at 61 (key ++ 61 :: val) = (key, val, true).
Proof.
  induction key as [|r key IH]; intros H; [done|]. apply not_elem_of_cons in H as [Hr H].
  cbn [app cut_at]. rewrite (proj2 (Z.eqb_neq r 61)) by congruence. by rewrite IH.
Qed.

Lemma collect_flags fields kvs named :
  NoDup kvs.*1 -> Forall (fun kv => 61 ∉ kv.1) kvs ->
  collect fields (flag <$> kvs) named [] = Ok ((list_to_map kvs : gmap text text) ∪ named, []).
Proof.
  revert named. induction kvs as [|[k v] kvs IH]; intros named Hn Hk.
  { simpl. by rewrite (left_id_L ∅ (∪)). }
  rewrite fmap_cons, NoDup_cons in Hn. destruct Hn as [Hfresh Hn]. apply Forall_cons in Hk as [Hk Hks]. simpl in Hk.
  rewrite fmap_cons. unfold flag at 1. cbn [fst snd].
  change (txt "--") with [45; 45]. cbn [app collect].
  change (HasPrefix (45 :: 45 :: k ++ 61 :: v) (txt "--")) with true. cbn iota. cbn [drop].
  rewrite drop_0, cut_at_app, IH by done. simpl.
  by rewrite <- insert_union_l, insert_union_r by (by apply not_elem_of_list_to_map).
Qed.

Lemma ToLower_idem t : ToLower (ToLower t) = ToLower t.
Proof.
  unfold ToLower. rewrite map_map. apply map_ext. intros r. unfold lower_rune.
  destruct ((65 <=? r) && (r <=? 90)) eqn:E; [|by rewrite E].
  apply andb_prop in E as [?%Z.leb_le ?%Z.leb_le].
  rewrite (proj2 (Z.leb_gt (r + 32) 90)) by lia. by rewrite andb_false_r.
Qed.

(** Names that differ in more than their case. *)
Definition names_ok (fields : list FieldSchema) : Prop := NoDup (ToLower ∘ Name <$> fields).

Lemma names_ok_head f fields g : names_ok (f :: fields) -> g ∈ fields -> Name g <> Name f /\ Name g <> ToLower (Name f).
Proof.
  unfold names_ok. rewrite fmap_cons, NoDup_cons, list_elem_of_fmap. intros [Hf _] Hg.
  split; intros E; apply Hf; exists g; (split; [|done]); simpl; rewrite E; [done|by rewrite ToLower_idem].
Qed.

(** With no positionals left, a field takes its flag or its default. *)
Lemma take_named f fields named :
  names_ok (f :: fields) -> (forall k, is_Some (named !! k) -> k ∈ Name <$> f :: fields) ->
  take_field f named [] = (arg_of f named, delete (Name f) named, []).
Proof.
  intros Hn Hd. unfold take_field, arg_of.
  destruct (named !! Name f) as [v|] eqn:Ev; [by destruct (Default f)|].
  rewrite (delete_id named (Name f)) by done.
  destruct (named !! ToLower (Name f)) as [v|] eqn:El.
  - exfalso. pose proof (Hd (ToLower (Name f)) (mk_is_Some _ _ El)) as Hin.
    rewrite fmap_cons in Hin. apply elem_of_cons in Hin as [E|Hin]; [congruence|].
    apply list_elem_of_fmap in Hin as (g & E & Hg).
    destruct (names_ok_head _ _ _ Hn Hg) as [_ Hne]. by symmetry in E.
  - by destruct (Default f).
Qed.

Lemma field_result_delete f g named : Name g <> Name f ->
  field_result g (delete (Name f) named) = field_result g named.
Proof. intros H. unfold field_result, arg_of. by rewrite lookup_delete_ne by done. Qed.

Lemma bind_fields_cons f fields named out :
  names_ok (f :: fields) -> (forall k, is_Some (named !! k) -> k ∈ Name <$> f :: fields) ->
  bind_fields (f :: fields) named [] out =
    match field_result f named with
    | Err e => Err e
    | Ok None => bind_fields fields (delete (Name f) named) [] out
    | Ok (Some v) => bind_fields fields (delete (Name f) named) [] (<[Name f := v]> out)
    end.
Proof.
  intros Hn Hd. cbn [Commands.bind_fields]. rewrite (take_named f fields) by done. unfold field_result.
  destruct (arg_of f named) as [raw|]; [by destruct (convertField raw f)|by destruct (Required f)].
Qed.

Lemma dom_delete_head (named : gmap text text) f fields :
  (forall k, is_Some (named !! k) -> k ∈ Name <$> f :: fields) ->
  forall k, is_Some (delete (Name f) named !! k) -> k ∈ Name <$> fields.
Proof.
  intros Hd k [v Hv]. apply lookup_delete_Some in Hv as [Hne Hv].
  pose proof (Hd k (mk_is_Some _ _ Hv)) as Hin.
  rewrite fmap_cons in Hin. apply elem_of_cons in Hin as [E|Hin]; [congruence|done].
Qed.

Lemma bind_fields_ok fields named out :
  names_ok fields -> (forall k, is_Some (named !! k) -> k ∈ Name <$> fields) ->
  (forall f, f ∈ fields -> out !! Name f = None) ->
  (forall f, f ∈ fields -> exists v, field_result f named = Ok v) ->
  exists out', bind_fields fields named [] out = Ok (out', ∅) /\
    (forall f, f ∈ fields -> field_result f named = Ok (out' !! Name f)) /\
    (forall k, k ∉ Name <$> fields -> out' !! k = out !! k).
Proof.
  revert named out. induction fields as [|f fields IH]; intros named out Hn Hd Ho Hr.
  { exists out. split_and!; [|set_solver|done]. simpl. do 2 f_equal. apply map_empty. intros k.
    destruct (named !! k) eqn:E; [|done]. pose proof (Hd k (mk_is_Some _ _ E)) as Hk. by apply elem_of_nil in Hk. }
  rewrite bind_fields_cons by done. destruct (Hr f) as [v Ev]; [set_solver|].
  pose proof (fun g => names_ok_head f fields g Hn) as Hne.
  set (out1 := match v with Some w => <[Name f := w]> out | None => out end).
  destruct (IH (delete (Name f) named) out1) as (out' & Hb & Hf & Ho').
  - by apply NoDup_cons in Hn as [_ ?].
  - by apply dom_delete_head.
  - intros g Hg. destruct (Hne g Hg). unfold out1.
    destruct v; rewrite ?lookup_insert_ne by congruence; apply Ho; set_solver.
  - intros g Hg. rewrite field_result_delete by (by apply Hne). apply Hr. set_solver.
  - exists out'. rewrite Ev. split; [unfold out1 in Hb; destruct v; exact Hb|]. split.
    + intros g [->|Hg]%elem_of_cons.
      * rewrite Ev, Ho'.
        -- unfold out1. destruct v; [by rewrite lookup_insert_eq|]. rewrite Ho; [done|set_solver].
        -- intros (g & E & Hg)%list_elem_of_fmap. by destruct (Hne g Hg).
      * rewrite <- Hf by done. by rewrite field_result_delete by (by apply Hne).
    + intros k Hk. rewrite fmap_cons, not_elem_of_cons in Hk. destruct Hk as [Hk1 Hk2].
      rewrite Ho' by done. unfold out1. destruct v; [|done]. by rewrite lookup_insert_ne by congruence.
Qed.

Lemma bind_fields_err pre f post named out e :
  names_ok (pre ++ f :: post) -> (forall k, is_Some (named !! k) -> k ∈ Name <$> pre ++ f :: post) ->
  (forall g, g ∈ pre -> exists v, field_result g named = Ok v) -> field_result f named = Err e ->
  bind_fields (pre ++ f :: post) named [] out = Err e.
Proof.
  revert named out. induction pre as [|g pre IH]; intros named out Hn Hd Hr He; cbn [app] in *;
    rewrite bind_fields_cons by done.
  { by rewrite He. }
  pose proof (fun h => names_ok_head g (pre ++ f :: post) h Hn) as Hne.
  destruct (Hr g) as [v ->]; [set_solver|].
  assert (forall out, bind_fields (pre ++ f :: post) (delete (Name g) named) [] out = Err e) as H.
  { intros out1. apply IH.
    - by apply NoDup_cons in Hn as [_ ?].
    - by apply dom_delete_head.
    - intros h Hh. rewrite field_result_delete; [apply Hr; set_solver|apply Hne; set_solver].
    - rewrite field_result_delete; [done|apply Hne; set_solver]. }
  by destruct v.
Qed.

Lemma Bind_flags fields kvs :
  NoDup kvs.*1 -> Forall (fun kv => 61 ∉ kv.1) kvs ->
  Bind (flag_line kvs) fields =
    match bind_fields fields (list_to_map kvs) [] ∅ with
    | Err e => Err e
    | Ok (out, rest) => if decide (rest = ∅) then Ok out else Err ErrUnknownFlag
    end.
Proof.
  intros Hn Hk. unfold Commands.Bind, flag_line, tokenize. rewrite tokenize_line.
  replace (filter (fun t => t <> []) (flag <$> kvs)) with (flag <$> kvs).
  - simpl. by rewrite collect_flags, (right_id_L ∅ (∪)) by done.
  - clear. induction kvs as [|kv kvs IH]; [done|]. rewrite fmap_cons, filter_cons_True by done. by f_equal.
Qed.
End BinderFacts.

(** Named arguments bind exactly.  Whatever texts the flags carry and whatever their
    order, a line of quoted [--Field=value] flags for distinct fields of the command gives
    every field the conversion of its own flag, or of its default, or nothing; and the
    error is that of the first field, in declaration order, whose value is missing though
    required, not of the enum, malformed, or of a kind that text cannot give. *)
Theorem named_args_exact (ParseFloat : text -> Z -> option Z) (fields : list FieldSchema)
    (kvs : list (text * text)) (Hfields : names_ok fields) (Hkeys : NoDup kvs.*1)
    (Hnames : forall k, k ∈ kvs.*1 -> k ∈ Name <$> fields) (Heq : Forall (fun kv => 61 ∉ kv.1) kvs) :
  let given := list_to_map kvs in
  ((forall f, f ∈ fields -> exists v, field_result ParseFloat f given = Ok v) ->
     exists out, Bind ParseFloat (flag_line kvs) fields = Ok out /\
       (forall f, f ∈ fields -> field_result ParseFloat f given = Ok (out !! Name f)) /\
       (forall k, k ∉ Name <$> fields -> out !! k = None)) /\
  (forall pre f post e, fields = pre ++ f :: post ->
     (forall g, g ∈ pre -> exists v, field_result ParseFloat g given = Ok v) ->
     field_result ParseFloat f given = Err e ->
     Bind ParseFloat (flag_line kvs) fields = Err e).
Proof.
  intros given. rewrite Bind_flags by done. fold given.
  assert (forall k, is_Some (given !! k) -> k ∈ Name <$> fields) as Hd.
  { intros k [v Hv]. apply Hnames. apply elem_of_list_to_map_2 in Hv. by apply (list_elem_of_fmap_2 fst) in Hv. }
  split.
  - intros Hr. destruct (bind_fields_ok ParseFloat fields given ∅) as (out & -> & Hf & Ho); auto.
    exists out. by rewrite decide_True by done.
  - intros pre f post e -> Hr He. by rewrite (bind_fields_err ParseFloat pre f post given ∅ e).
Qed.

(** ** Every line *)

Definition value_ok (f : FieldSchema) (v : value) : Prop :=
  match Enum f with
  | _ :: _ => exists t, v = VString t /\ t ∈ Enum f
  | [] =>
      match FKind f, v with
      | KString, VString _ | KBool, VBool _ | KFloat32, VFloat _ | KFloat64, VFloat _ => True
      | (KInt | KInt64), VInt z => - 2 ^ 63 <= z < 2 ^ 63
      | KInt32, VInt z => - 2 ^ 31 <= z < 2 ^ 31
      | KUint32, VInt z => in_u32 z
      | KUint64, VInt z => in_u64 z
      | _, _ => False
      end
  end.

Lemma digits_val_pos acc t n : 0 <= acc -> digits_val acc t = Some n -> 0 <= n.
Proof.
  revert acc. induction t as [|r t IH]; intros acc Ha; simpl; [congruence|].
  unfold digit. destruct (_ && _) eqn:E; [|done]. apply andb_prop in E as [?%Z.leb_le _].
  apply IH. lia.
Qed.

Lemma ParseUint_range t bits z : ParseUint t bits = Some z -> 0 <= z < 2 ^ bits.
Proof.
  unfold ParseUint. destruct t as [|r t]; [done|]. destruct (digits_val 0 (r :: t)) as [n|] eqn:E; [|done].
  simpl. destruct (Z.ltb_spec n (2 ^ bits)); intros; simplify_eq.
  split; [by eapply digits_val_pos|done].
Qed.

Lemma ParseInt_range t bits z : 1 <= bits -> ParseInt t bits = Some z -> - 2 ^ (bits - 1) <= z < 2 ^ (bits - 1).
Proof.
  intros Hbits. unfold ParseInt. set (p := match t with [] => _ | _ => _ end). destruct p as [neg [|r ds]]; [done|].
  destruct (digits_val 0 (r :: ds)) as [n|] eqn:E; [|done]. apply digits_val_pos in E; [|done]. simpl.
  assert (0 < 2 ^ (bits - 1)) by (apply Z.pow_pos_nonneg; lia). destruct neg;
    [destruct (Z.leb_spec n (2 ^ (bits - 1)))|destruct (Z.ltb_spec n (2 ^ (bits - 1)))];
    intros; simplify_eq; lia.
Qed.

Lemma convertField_ok ParseFloat raw f v : convertField ParseFloat raw f = Ok v -> value_ok f v.
Proof.
  unfold convertField, value_ok, or_field, in_u32, in_u64. destruct (Enum f) as [|t ts].
  - destruct (FKind f); try case_match; intros; simplify_eq; try done;
      by ((apply ParseInt_range in H; [|done]) || apply ParseUint_range in H).
  - case_bool_decide; [|done]. intros [= <-]. eauto.
Qed.

Lemma take_field_fresh f named positional : exists raw named' positional',
  take_field f named positional = (raw, named', positional').
Proof. destruct (take_field f named positional) as [[raw n] ps]. by eexists _, _, _. Qed.

Lemma bind_fields_typed ParseFloat all fields named positional out out' rest :
  bind_fields ParseFloat fields named positional out = Ok (out', rest) -> fields ⊆ all ->
  (forall k v, out !! k = Some v -> exists f, f ∈ all /\ Name f = k /\ value_ok f v) ->
  (forall k v, out' !! k = Some v -> exists f, f ∈ all /\ Name f = k /\ value_ok f v) /\
  (forall k, is_Some (out !! k) -> is_Some (out' !! k)) /\
  (forall f, f ∈ fields -> Required f = true -> is_Some (out' !! Name f)).
Proof.
  revert named positional out. induction fields as [|f fields IH]; intros named positional out Hb Hin Ho.
  { injection Hb as <- <-. split_and!; [done|done|set_solver]. }
  cbn [bind_fields] in Hb. destruct (take_field_fresh f named positional) as (raw & named' & ps & E).
  rewrite E in Hb. clear E. destruct raw as [raw|].
  - destruct (convertField ParseFloat raw f) as [v|] eqn:Ev; [|done]. apply convertField_ok in Ev.
    apply IH in Hb as (H1 & H2 & H3); [|set_solver|].
    + split_and!; [done| |].
      * intros k Hk. apply H2. rewrite lookup_insert. by case_decide.
      * intros g [->|Hg]%elem_of_cons Hr; [|auto]. apply H2. by rewrite lookup_insert_eq.
    + intros k w. rewrite lookup_insert_Some. intros [[<- <-]|[_ Hw]]; [|by apply Ho].
      exists f. split_and!; [set_solver|done|done].
  - destruct (Required f) eqn:Er; [done|]. apply IH in Hb as (H1 & H2 & H3); [|set_solver|done].
    split_and!; [done|done|]. intros g [->|Hg]%elem_of_cons Hr; [congruence|auto].
Qed.

(** C37: A handler never sees an argument of the wrong shape.  Whatever line is typed, if
    it binds at all, every value belongs to a field of the command and has the field's
    kind, in the range of its width, or is one of its enum, and no required field is
    missing. *)
Theorem bound_args_typed (ParseFloat : text -> Z -> option Z) (raw : text)
    (fields : list FieldSchema) (out : gmap text value) (Hb : Bind ParseFloat raw fields = Ok out) :
  (forall k v, out !! k = Some v -> exists f, f ∈ fields /\ Name f = k /\ value_ok f v) /\
  (forall f, f ∈ fields -> Required f = true -> is_Some (out !! Name f)).
Proof.
  unfold Bind, rbind in Hb. destruct (tokenize raw) as [tokens|]; [|done].
  destruct (collect fields tokens ∅ []) as [[named ps]|]; [|done].
  destruct (bind_fields ParseFloat fields named ps ∅) as [[out' rest]|] eqn:E; [|done].
  destruct (decide (rest = ∅)); [|done]. injection Hb as <-.
  apply (bind_fields_typed _ fields) in E as (H1 & _ & H3); [done|done|].
  intros k v. by rewrite lookup_empty.
Qed.

(** ** What the parser lets through *)

Definition demo_fields : list FieldSchema :=
  [mkField (txt "Username") KString true false [] [] false;
   mkField (txt "Reason") KString false false [] [] false;
   mkField (txt "Hours") KInt32 false true (txt "24") [] false;
   mkField (txt "Force") KBool false true [] [] false].

(** An empty reason is no reason: the flag takes the next token as its value, and the
    hours that were asked for are lost. *)
Lemma empty_argument_shifts :
  Bind (fun _ _ => None) (join_spaces [txt "bob"; txt "--Reason"; [34; 34]; txt "--Hours=1"]) demo_fields
  = Ok (list_to_map [(txt "Username", VString (txt "bob")); (txt "Reason", VString (txt "--Hours=1"));
                     (txt "Hours", VInt 24)]).
Proof. vm_compute. reflexivity. Qed.

(** Tokens beyond the last field are ignored, though an unknown flag is an error. *)
Lemma surplus_positionals_ignored :
  Bind (fun _ _ => None) (txt "bob spam now please") demo_fields =
  Bind (fun _ _ => None) (txt "bob spam") demo_fields /\
  Bind (fun _ _ => None) (txt "bob spam --now=1") demo_fields = Err ErrUnknownFlag.
Proof. split; vm_compute; reflexivity. Qed.

(** [--FORCE] is recognised as a flag of a bool field, and then refused as unknown. *)
Lemma upper_case_flag_refused :
  boolField demo_fields (txt "FORCE") = true /\
  Bind (fun _ _ => None) (txt "bob --FORCE") demo_fields = Err ErrUnknownFlag.
Proof. split; vm_compute; reflexivity. Qed.

(** ** Witnesses *)

Definition moderator : Caller :=
  mkCaller (txt "mod") SourceConsole [mkGrant (txt "chat.*") true; mkGrant (txt "chat.wipe") false].

Lemma capability_check_exact_witness :
  Check_ moderator (txt "chat.mute") = true /\ Check_ moderator (txt "chat.wipe") = false /\
  Check_ moderator (txt "cell.split") = false.
Proof.
  split; [vm_compute; reflexivity|]. split; [|vm_compute; reflexivity].
  apply (proj2 (proj2 (capability_check_exact moderator (txt "chat.wipe"))) (mkGrant (txt "chat.wipe") false)).
  - right. left.
  - reflexivity.
  - vm_compute. discriminate.
  - reflexivity.
  - repeat constructor.
Defined.

Lemma parsed_grants_scoped_witness :
  exists g, g ∈ Grants moderator /\ Allow g = true /\
    (Pattern g = txt "chat.mute" \/ exists ns r, Pattern g = ns ++ txt ".*" /\ txt "chat.mute" = ns ++ txt "." ++ r).
Proof.
  apply (parsed_grants_scoped moderator).
  - constructor; [exists (txt " +chat.*"); vm_compute; reflexivity|].
    constructor; [exists (txt "-chat.wipe"); vm_compute; reflexivity|constructor].
  - vm_compute. reflexivity.
Defined.

Definition demo_args : list (text * text) :=
  [(txt "Hours", txt "3"); (txt "Username", txt "x --Force"); (txt "Reason", txt "a=b")].

Lemma named_args_exact_witness :
  exists out, Bind (fun _ _ => None) (flag_line demo_args) demo_fields = Ok out /\
    out !! txt "Username" = Some (VString (txt "x --Force")) /\ out !! txt "Hours" = Some (VInt 3).
Proof.
  destruct (named_args_exact (fun _ _ => None) demo_fields demo_args) as [H _].
  - apply (bool_decide_unpack _). vm_compute. exact I.
  - apply (bool_decide_unpack _). vm_compute. exact I.
  - intros k Hk. vm_compute in Hk. simpl. set_solver.
  - repeat constructor; apply (bool_decide_unpack _); vm_compute; exact I.
  - destruct H as (out & Hb & Hf & _).
    + intros f Hf. repeat (apply elem_of_cons in Hf as [->|Hf]; [by eexists; vm_compute|]). by apply elem_of_nil in Hf.
    + exists out. split; [exact Hb|].
      pose proof (Hf (mkField (txt "Username") KString true false [] [] false) ltac:(left)) as HU.
      split; [by injection HU|].
      assert (mkField (txt "Hours") KInt32 false true (txt "24") [] false ∈ demo_fields) as Hin by (right; right; left).
      apply Hf in Hin. by injection Hin.
Defined.

Lemma bound_args_typed_witness :
  exists f, f ∈ demo_fields /\ Name f = txt "Hours" /\ value_ok f (VInt (-3)).
Proof.
  destruct (bound_args_typed (fun _ _ => None) (txt "bob --hours -3") demo_fields
    (list_to_map [(txt "Username", VString (txt "bob")); (txt "Hours", VInt (-3))])) as [H _].
  - vm_compute. reflexivity.
  - apply H. vm_compute. reflexivity.
Defined.
