(* ===== verification/CommandDispatch.v ===== *)
(** * The command dispatcher (pkg/cmdsys/dispatcher.go, coerce.go, registry.go, audit.go)

    [Invoke] finds a command, checks the caller's capability, turns the arguments into the
    command's type, resolves the targets and runs the handler here or sends the command to
    each of them, between a start and a done record of the audit.  [InvokeLocal] and
    [InvokeAsPeer] are the two entry points on the receiving side.

    What the dispatcher calls is a parameter: the handlers and the transport act on a world
    [W] that they alone change, the JSON library and the reflection over argument structs
    are functions.  An argument struct is a value of type [A], a handler's result one of
    type [R].  The clock, the trace ids and the duration of a call are left out of the
    audit records. *)

From S2P Require Import Prelude Commands.

Inductive RouteKind :=
| RouteLocal | RouteCoordinator | RouteAllHosts | RoutePlayerOwner | RouteEntityOwner
| RouteAllGateways | RouteSpecificHost | RouteSpecificCell | RoutePlayerHomeOrOwner | RouteService.
#[export] Instance RouteKind_eq_dec : EqDecision RouteKind.
Proof. solve_decision. Defined.

(** An [error]: one of the package's own, or any other with its message. *)
Inductive Error := ErrCmd (e : CmdError) | ErrMsg (m : text).

Record Target := mkTarget { t_Kind : RouteKind; t_ID : text }.

Inductive Phase := PhaseStart | PhaseDone.
Inductive ErrCode :=
| CodeNone | CodeParse | CodeRBAC | CodeUnknownVerb | CodeNotYetWired | CodeHandler.

Record AuditRecord := mkAudit {
  au_Phase : Phase; au_TraceID : text; au_Verb : text; au_CallerID : text; au_Source : CallerSource;
  au_PeerID : text; au_ArgsJSON : bytes; au_OK : bool; au_Error : ErrCode; au_Detail : text;
  au_Targets : list text
}.

Record RemoteRequest := mkRequest {
  rq_RequestID : Z; rq_Verb : text; rq_ArgsJSON : bytes; rq_Caller : Caller;
  rq_DeadlineUnixNanos : Z; rq_TraceID : text; rq_SchemaVersion : Z
}.
Record RemoteResponse := mkResponse {
  rs_RequestID : Z; rs_OK : bool; rs_ResultJSON : bytes; rs_Error : text; rs_TargetID : text;
  rs_SchemaVersion : Z
}.

(** What [Invoke] sees of a request to another process: [Send] fails, or the context ends
    first, or a response (possibly nil) comes. *)
Inductive SendOutcome :=
| SendFailed (e : Error)
| ContextDone (e : Error)
| Responded (r : option RemoteResponse).

Section Dispatcher.
Context {W A R : Type}.

(** A handler is given the caller, the trace id and the arguments ([None] for a command
    without any). *)
Definition HandlerFunc : Type := W -> Caller -> text -> option A -> W * (result Error R).

(** [Args] is the prototype's field schema, [ResultType] whether there is a prototype of
    the result. *)
Record Command := mkCommand {
  Verb : text; Capability : text; Route : RouteKind; Args : option (list FieldSchema);
  ResultType : bool; Handler : HandlerFunc; ArgsSchemaHash : Z; ResultSchemaHash : Z; Service : text
}.

(** What is passed as the arguments: a line, JSON, a struct, or nil. *)
Inductive rawargs := RawText (t : text) | RawJSON (b : bytes) | RawValue (a : A) | RawNil.

(** The result of one target: a value, the help text, or an error. *)
Inductive anyresult := ResNone | ResValue (r : R) | ResHelp (verb : text).
Record TargetResult := mkTargetResult { tr_TargetID : text; tr_OK : bool; tr_Result : anyresult; tr_Error : text }.
Record Result := mkResult { r_Verb : text; r_Caller : Caller; r_TraceID : text; r_PerTarget : list TargetResult }.
Definition noResult : Result := mkResult [] (mkCaller [] SourceConsole []) [] [].

(** Go and its libraries: [ParseFloat], the JSON codec, the struct that [ApplyMap] fills,
    and whether a struct has a command's type. *)
Record Lib := mkLib {
  ParseFloat : text -> Z -> option Z;
  marshalRaw : rawargs -> bytes;
  marshalArgs : option A -> result Error bytes;
  unmarshalArgs : text -> bytes -> result Error A;
  applyMap : text -> gmap text value -> result Error A;
  sameType : text -> A -> bool;
  marshalResult : R -> result Error bytes;
  unmarshalResult : text -> bytes -> option R;
  errText : Error -> text
}.

(** The dispatcher's collaborators. *)
Record Dispatcher := mkDispatcher {
  registry : gmap text Command;
  grants : gmap text (list Grant);
  Resolve : RouteKind -> text -> option A -> text -> result Error (list Target);
  Send : W -> Target -> RemoteRequest -> W * SendOutcome
}.

Record State := mkState { world : W; audit : list AuditRecord }.
Definition emit (s : State) (r : AuditRecord) : State := mkState (world s) (audit s ++ [r]).
Definition set_world (s : State) (w : W) : State := mkState w (audit s).

(** [Register]. *)
Definition Register (r : gmap text Command) (cmd : Command) : option (gmap text Command) :=
  match r !! Verb cmd with
  | Some _ => None
  | None => Some (<[Verb cmd := cmd]> r)
  end.

Context (lib : Lib).

(** [coerceArgs]; [None] is the panic of [reflect.ValueOf(nil).Type()]. *)
Definition coerceArgs (cmd : Command) (raw : rawargs) : option (result Error (option A)) :=
  match Args cmd with
  | None => Some (Ok None)
  | Some schema =>
      let wrap (r : result Error A) := match r with Ok a => Ok (Some a) | Err e => Err e end in
      match raw with
      | RawText t =>
          Some (match Bind (ParseFloat lib) t schema with
                | Err e => Err (ErrCmd e)
                | Ok m => wrap (applyMap lib (Verb cmd) m)
                end)
      | RawJSON b => Some (wrap (unmarshalArgs lib (Verb cmd) b))
      | RawValue a =>
          Some (if sameType lib (Verb cmd) a then Ok (Some a) else Err (ErrCmd (ErrOther 0)))
      | RawNil => None
      end
  end.

Definition IsHelpToken (tok : text) : bool :=
  bool_decide (tok = txt "--help") || bool_decide (tok = txt "-h") || bool_decide (tok = txt "?").

(** Whether the interception of help applies to the arguments. *)
Definition asks_help (raw : rawargs) : bool :=
  match raw with
  | RawText t => match tokenize t with Ok tokens => existsb IsHelpToken tokens | Err _ => false end
  | _ => false
  end.

(** The caller with the grants stored for it. *)
Definition merged (d : Dispatcher) (caller : Caller) : Caller :=
  match grants d !! CallerID caller with
  | Some ((_ :: _) as stored) => mkCaller (CallerID caller) (Source caller) (Grants caller ++ stored)
  | _ => caller
  end.

(** One round of the loop over the targets: the world, the outcome of the target and the
    error it had. *)
Definition run_target (d : Dispatcher) (cmd : Command) (caller : Caller) (verb trace : text)
    (deadline : Z) (argsVal : option A) (w : W) (target : Target)
  : W * TargetResult * option Error :=
  let fail w e m := (w, mkTargetResult (t_ID target) false ResNone m, Some e) in
  let done w r := (w, mkTargetResult (t_ID target) true r [], None) in
  if bool_decide (t_Kind target = RouteLocal) then
    let '(w, res) := Handler cmd w caller trace argsVal in
    match res with
    | Err e => fail w e (errText lib e)
    | Ok r => done w (ResValue r)
    end
  else
    match marshalArgs lib argsVal with
    | Err e => fail w e (txt "marshal_error: " ++ errText lib e)
    | Ok argsJSON =>
        let req := mkRequest 0 verb argsJSON caller deadline trace (ArgsSchemaHash cmd) in
        let '(w, out) := Send d w target req in
        match out with
        | SendFailed e | ContextDone e => fail w e (errText lib e)
        | Responded None => fail w (ErrCmd ErrNotYetWired) (errText lib (ErrCmd ErrNotYetWired))
        | Responded (Some resp) =>
            if rs_OK resp then
              done w (if ResultType cmd && negb (bool_decide (rs_ResultJSON resp = [])) then
                        match unmarshalResult lib verb (rs_ResultJSON resp) with
                        | Some r => ResValue r
                        | None => ResNone
                        end
                      else ResNone)
            else fail w (ErrMsg (rs_Error resp)) (rs_Error resp)
        end
    end.

Fixpoint run_targets (d : Dispatcher) (cmd : Command) (caller : Caller) (verb trace : text)
    (deadline : Z) (argsVal : option A) (targets : list Target) (w : W) (firstErr : option Error)
  : W * list TargetResult * option Error :=
  match targets with
  | [] => (w, [], firstErr)
  | target :: targets =>
      let '(w, tr, err) := run_target d cmd caller verb trace deadline argsVal w target in
      let firstErr := match firstErr with Some e => Some e | None => err end in
      let '(w, trs, firstErr) := run_targets d cmd caller verb trace deadline argsVal targets w firstErr in
      (w, tr :: trs, firstErr)
  end.

(** A call returns a result and an error, or panics. *)
Inductive outcome := Returned (r : Result) (e : option Error) | Panicked.

(** [Invoke]; the context carries its deadline, if any. *)
Definition Invoke (d : Dispatcher) (deadline : option Z) (trace : text) (caller : Caller)
    (verb : text) (raw : rawargs) (s : State) : State * outcome :=
  match deadline with
  | None => (s, Returned noResult (Some (ErrCmd ErrNoDeadline)))
  | Some deadline =>
      let caller := merged d caller in
      let s := emit s (mkAudit PhaseStart trace verb (CallerID caller) (Source caller) []
                         (marshalRaw lib raw) false CodeNone [] []) in
      let emitDone s ok code detail targets :=
        emit s (mkAudit PhaseDone trace verb (CallerID caller) (Source caller) [] [] ok code detail targets) in
      match registry d !! verb with
      | None =>
          (emitDone s false CodeUnknownVerb [] [], Returned noResult (Some (ErrCmd ErrUnknownVerb)))
      | Some cmd =>
          if negb (Check_ caller (Capability cmd)) then
            (emitDone s false CodeRBAC [] [], Returned noResult (Some (ErrCmd ErrRBACDenied)))
          else if asks_help raw then
            (emitDone s true CodeNone [] [txt "local"],
             Returned (mkResult verb caller trace [mkTargetResult (txt "local") true (ResHelp verb) []]) None)
          else
            match coerceArgs cmd raw with
            | None => (s, Panicked)
            | Some (Err e) => (emitDone s false CodeParse (errText lib e) [], Returned noResult (Some e))
            | Some (Ok argsVal) =>
                match Resolve d (Route cmd) verb argsVal (Service cmd) with
                | Err e => (emitDone s false CodeNotYetWired (errText lib e) [], Returned noResult (Some e))
                | Ok targets =>
                    let '(w, perTarget, firstErr) :=
                      run_targets d cmd caller verb trace deadline argsVal targets (world s) None in
                    let s := set_world s w in
                    let s := match firstErr with
                             | None => emitDone s true CodeNone [] (t_ID <$> targets)
                             | Some e => emitDone s false CodeHandler (errText lib e) (t_ID <$> targets)
                             end in
                    (s, Returned (mkResult verb caller trace perTarget) firstErr)
                end
            end
      end
  end.

(** The margin [InvokeInternal] leaves the outer handler, in nanoseconds. *)
Definition internal_deadline (now : Z) (deadline : option Z) : option Z :=
  match deadline with
  | Some t => if 200000000 <? t - now then Some (t - 200000000) else Some t
  | None => None
  end.

Definition InvokeInternal (d : Dispatcher) (now : Z) (deadline : option Z) (trace : text)
    (parent : option Caller) (verb : text) (raw : rawargs) (s : State) : State * outcome :=
  match parent with
  | None => (s, Returned noResult (Some (ErrCmd (ErrOther 1))))
  | Some caller => Invoke d (internal_deadline now deadline) trace caller verb raw s
  end.

(** The handler and the marshalling that [InvokeLocal] and [InvokeAsPeer] share: the bytes
    of the result or the error. *)
Definition run_here (cmd : Command) (caller : Caller) (trace : text) (argsVal : option A) (w : W)
  : W * (result Error bytes) :=
  let '(w, res) := Handler cmd w caller trace argsVal in
  (w, match res with Ok r => marshalResult lib r | Err e => Err e end).

(** [None] never occurs here: the arguments are JSON. *)
Definition coerce_json (cmd : Command) (argsJSON : bytes) : result Error (option A) :=
  default (Err (ErrCmd (ErrOther 2))) (coerceArgs cmd (RawJSON argsJSON)).

Definition InvokeLocal (d : Dispatcher) (trace : text) (caller : Caller) (verb : text)
    (argsJSON : bytes) (w : W) : W * (result Error bytes) * Z :=
  match registry d !! verb with
  | None => (w, Err (ErrCmd ErrUnknownVerb), 0)
  | Some cmd =>
      if negb (Check_ caller (Capability cmd)) then (w, Err (ErrCmd ErrRBACDenied), 0)
      else
        match coerce_json cmd argsJSON with
        | Err e => (w, Err e, 0)
        | Ok argsVal =>
            let '(w, res) := run_here cmd caller trace argsVal w in (w, res, ResultSchemaHash cmd)
        end
  end.

Definition InvokeAsPeer (d : Dispatcher) (trace : text) (caller : Caller) (peerID verb : text)
    (argsJSON : bytes) (s : State) : State * (result Error bytes) * Z :=
  let record ph args ok code detail :=
    mkAudit ph trace verb (CallerID caller) (Source caller) peerID args ok code detail [] in
  let s := emit s (record PhaseStart argsJSON false CodeNone []) in
  let emitDone s ok code detail := emit s (record PhaseDone [] ok code detail) in
  match registry d !! verb with
  | None => (emitDone s false CodeUnknownVerb verb, Err (ErrCmd ErrUnknownVerb), 0)
  | Some cmd =>
      match coerce_json cmd argsJSON with
      | Err e => (emitDone s false CodeParse (errText lib e), Err e, 0)
      | Ok argsVal =>
          let '(w, res) := run_here cmd caller trace argsVal (world s) in
          let s := set_world s w in
          (match res with
           | Err e => emitDone s false CodeHandler (errText lib e)
           | Ok _ => emitDone s true CodeNone []
           end, res, ResultSchemaHash cmd)
      end
  end.

(** The method [ArgsSchemaHash]. *)
Definition argsSchemaHash (d : Dispatcher) (verb : text) : Z :=
  match registry d !! verb with Some cmd => ArgsSchemaHash cmd | None => 0 end.
End Dispatcher.
Arguments rawargs : clear implicits.
Arguments Command : clear implicits.
Arguments Dispatcher : clear implicits.
Arguments Lib : clear implicits.
Arguments State : clear implicits.

(** * Properties *)

Section Facts.
Context {W A R : Type} (lib : Lib A R) (d : Dispatcher W A R).

Lemma merged_id caller : CallerID (merged d caller) = CallerID caller /\ Source (merged d caller) = Source caller.
Proof. unfold merged. destruct (grants d !! CallerID caller) as [[|]|]; done. Qed.

(** The error of a call is the first of its targets'. *)
Definition error_of (trs : list (@TargetResult R)) (e : option Error) : Prop :=
  match e with
  | None => Forall (fun tr => tr_OK tr = true /\ tr_Error tr = []) trs
  | Some e => exists pre tr post, trs = pre ++ tr :: post /\ Forall (fun tr => tr_OK tr = true) pre /\
      tr_OK tr = false /\ tr_Result tr = ResNone /\
      (tr_Error tr = errText lib e \/ tr_Error tr = txt "marshal_error: " ++ errText lib e \/
       ErrMsg (tr_Error tr) = e)
  end.

Lemma run_target_shape cmd caller verb trace deadline a w t :
  let '(w', tr, e) := run_target lib d cmd caller verb trace deadline a w t in
  tr_TargetID tr = t_ID t /\
  match e with
  | None => tr_OK tr = true /\ tr_Error tr = []
  | Some e => tr_OK tr = false /\ tr_Result tr = ResNone /\
      (tr_Error tr = errText lib e \/ tr_Error tr = txt "marshal_error: " ++ errText lib e \/
       ErrMsg (tr_Error tr) = e)
  end.
Proof.
  unfold run_target. case_bool_decide.
  - destruct (Handler cmd w caller trace a) as [w' [r|e]]; simpl; auto.
  - destruct (marshalArgs lib a) as [js|e]; [|cbn -[txt]; auto 10].
    destruct (Send d w t _) as [w' [e|e|[resp|]]]; cbn -[txt]; auto 10.
    destruct (rs_OK resp); cbn -[txt]; auto 10.
Qed.

Lemma run_targets_shape cmd caller verb trace deadline a targets w first :
  let '(w', trs, e) := run_targets lib d cmd caller verb trace deadline a targets w first in
  tr_TargetID <$> trs = t_ID <$> targets /\
  match first with Some e0 => e = Some e0 | None => error_of trs e end.
Proof.
  revert w first. induction targets as [|t targets IH]; intros w first.
  { simpl. split; [done|]. destruct first; [done|constructor]. }
  cbn [run_targets]. pose proof (run_target_shape cmd caller verb trace deadline a w t) as Ht.
  destruct (run_target _ _ _ _ _ _ _ _ _ _) as [[w1 tr] err]. destruct Ht as [Hid Ht].
  set (first' := match first with Some e => Some e | None => err end).
  specialize (IH w1 first'). destruct (run_targets _ _ _ _ _ _ _ _ _ _ _) as [[w2 trs] e].
  destruct IH as [Hids He]. split; [by rewrite !fmap_cons, Hid, Hids|].
  unfold first' in He. destruct first as [e0|]; [done|]. destruct err as [e0|].
  - subst e. simpl. exists [], tr, trs. destruct Ht as (? & ? & ?). by split_and!.
  - destruct e as [e|]; simpl in *; [|by constructor].
    destruct He as (pre & tr' & post & -> & Hpre & Htr). exists (tr :: pre), tr', post.
    split; [done|]. split; [constructor; [apply Ht|done]|done].
Qed.

(** A record of the call's audit trail. *)
Definition record_of (caller : Caller) (trace verb : text) (r : AuditRecord) : Prop :=
  au_TraceID r = trace /\ au_Verb r = verb /\ au_CallerID r = CallerID caller /\
  au_Source r = Source caller /\ au_PeerID r = [].

(** The trail of a call against its outcome. *)
Ltac account Hid Hsrc :=
  eexists _, _, _, _, _; split; [by rewrite <- app_assoc|];
  unfold record_of; simpl; rewrite Hid, Hsrc;
  split_and!; auto; try (split; congruence); try (intros; simplify_eq; congruence).

(** Arguments the command can be given: not nil, unless it takes none. *)
Definition args_given (verb : text) (raw : rawargs A) : Prop :=
  raw = RawNil -> forall cmd, registry d !! verb = Some cmd -> Args cmd = None.

(** C25: every command is accounted for.  A call with a deadline, and with arguments unless
    its command takes none ([nil_args_panic] is what happens otherwise), leaves exactly two audit
    records, a start with the arguments as they came and a done, both in the name of the
    caller; the done record says OK exactly when the call returns no error and names the
    targets whose results are returned, in the order they were resolved, one for each;
    without an error every target succeeded, and the error of a call that reached its
    targets is that of the first that failed, the others having been tried all the same.
    Without a deadline nothing happens at all. *)
Theorem invoke_accounted (deadline : option Z) (trace : text) (caller : Caller) (verb : text)
    (raw : rawargs A) (s : State W) (Hraw : args_given verb raw) :
  match deadline with
  | None => Invoke lib d deadline trace caller verb raw s = (s, Returned noResult (Some (ErrCmd ErrNoDeadline)))
  | Some _ => exists w start done r e,
      Invoke lib d deadline trace caller verb raw s = (mkState w (audit s ++ [start; done]), Returned r e) /\
      record_of caller trace verb start /\ record_of caller trace verb done /\
      au_Phase start = PhaseStart /\ au_ArgsJSON start = marshalRaw lib raw /\
      au_Phase done = PhaseDone /\ (au_OK done = true <-> e = None) /\ (au_Error done = CodeNone <-> e = None) /\
      au_Targets done = tr_TargetID <$> r_PerTarget r /\
      (r_PerTarget r = [] \/ error_of (r_PerTarget r) e) /\
      (forall cmd a targets, registry d !! verb = Some cmd -> Check_ (merged d caller) (Capability cmd) = true ->
         asks_help raw = false -> coerceArgs lib cmd raw = Some (Ok a) ->
         Resolve d (Route cmd) verb a (Service cmd) = Ok targets ->
         tr_TargetID <$> r_PerTarget r = t_ID <$> targets)
  end.
Proof.
  unfold Invoke. destruct deadline as [dl|]; [|done]. destruct (merged_id caller) as [Hid Hsrc].
  unfold emit, set_world. cbn [world audit].
  destruct (registry d !! verb) as [cmd|] eqn:Ec.
  2:{ account Hid Hsrc. }
  destruct (Check_ (merged d caller) (Capability cmd)) eqn:Eck; simpl negb; cbn iota.
  2:{ account Hid Hsrc. }
  destruct (asks_help raw) eqn:Eh.
  { account Hid Hsrc. }
  destruct (coerceArgs lib cmd raw) as [[a|e]|] eqn:Ea.
  3:{ exfalso. unfold coerceArgs in Ea. destruct (Args cmd) eqn:EA; [|done]. destruct raw; try done.
      specialize (Hraw eq_refl cmd Ec). congruence. }
  2:{ account Hid Hsrc. }
  destruct (Resolve d (Route cmd) verb a (Service cmd)) as [targets|e] eqn:Er.
  2:{ account Hid Hsrc. }
  pose proof (run_targets_shape cmd (merged d caller) verb trace dl a targets (world s) None) as Hr.
  cbn [world] in *. destruct (run_targets _ _ _ _ _ _ _ _ _ _ _) as [[w trs] e]. destruct Hr as [Hids He].
  destruct e as [e|]; account Hid Hsrc.
Qed.

Lemma nested_authority caller c :
  Check_ (merged d (merged d caller)) c = Check_ (merged d caller) c.
Proof.
  apply eq_true_iff_eq. rewrite !Check_best.
  assert (forall g, g ∈ Grants (merged d (merged d caller)) <-> g ∈ Grants (merged d caller)) as H.
  { intros g. unfold merged. destruct (grants d !! CallerID caller) as [[|g0 gs]|] eqn:E; simpl; rewrite ?E; try done.
    simpl. rewrite !elem_of_app. tauto. }
  by setoid_rewrite H.
Qed.

(** C22: an unauthorised call learns nothing and does nothing.  Without the capability, with
    the caller's own grants and those stored for it, the world is untouched, the answer is
    the same refusal whatever the arguments are, well-formed or not, and only the audit
    sees them; conversely a call that changes the world, returns a result or trips over
    its arguments was authorised for a registered command.  A command that a handler issues
    in its turn has exactly its caller's authority. *)
Theorem unauthorised_learns_nothing (trace : text) (caller : Caller) (verb : text) (s : State W) :
  (forall cmd deadline, registry d !! verb = Some cmd -> Check_ (merged d caller) (Capability cmd) = false ->
     exists start done, forall raw,
       Invoke lib d (Some deadline) trace caller verb raw s =
         (mkState (world s) (audit s ++ [start (marshalRaw lib raw); done]),
          Returned noResult (Some (ErrCmd ErrRBACDenied)))) /\
  (forall deadline raw s' out, Invoke lib d deadline trace caller verb raw s = (s', out) ->
     world s' <> world s \/ out = Panicked \/ (exists r e, out = Returned r e /\ r <> noResult) ->
     exists cmd, registry d !! verb = Some cmd /\ Check_ (merged d caller) (Capability cmd) = true) /\
  (forall now deadline raw nested s', InvokeInternal lib d now deadline trace (Some (merged d caller)) nested raw s = s' ->
     forall cmd, registry d !! nested = Some cmd -> Check_ (merged d caller) (Capability cmd) = false ->
     world s'.1 = world s /\ exists e, s'.2 = Returned noResult (Some e)).
Proof.
  split_and!.
  - intros cmd dl Ec Ek. 
    exists (fun args => mkAudit PhaseStart trace verb (CallerID caller) (Source caller) [] args false CodeNone [] []).
    destruct (merged_id caller) as [Hid Hsrc]. eexists. intros raw. unfold Invoke. rewrite Ec, Ek. simpl.
    unfold emit. simpl. by rewrite <- app_assoc, Hid, Hsrc.
  - intros dl raw s' out. unfold Invoke. destruct dl as [dl|]; [|intros [= <- <-]; naive_solver].
    destruct (registry d !! verb) as [cmd|]; [|intros [= <- <-]; naive_solver].
    destruct (Check_ (merged d caller) (Capability cmd)) eqn:Ek; [eauto|]. intros [= <- <-]. naive_solver.
  - intros now dl raw nested s' <- cmd Ec Ek. unfold InvokeInternal, Invoke.
    destruct (internal_deadline now dl); [|simpl; eauto]. rewrite Ec, nested_authority, Ek. simpl. eauto.
Qed.
End Facts.

(** ** Witnesses *)

(** A counter with one command, three targets, of which the second host is down. *)
Definition demo_lib : Lib Z Z := mkLib
  (fun _ _ => None) (fun _ => [])
  (fun a => Ok match a with Some z => [z] | None => [] end)
  (fun _ b => match b with [z] => Ok z | _ => Err (ErrMsg (txt "bad json")) end)
  (fun _ m => match m !! txt "N" with Some (VInt z) => Ok z | _ => Err (ErrMsg (txt "bad args")) end)
  (fun _ _ => true) (fun r => Ok [r]) (fun _ b => head b)
  (fun e => match e with ErrMsg m => m | ErrCmd _ => txt "refused" end).

Definition demo_add : Command Z Z Z := mkCommand (txt "counter.add") (txt "counter.add") RouteAllHosts
  (Some [mkField (txt "N") KInt32 true false [] [] false]) true
  (fun w _ _ a => (w + default 0 a, Ok (w + default 0 a))) 11 12 [].

Definition demo_dispatcher : Dispatcher Z Z Z := mkDispatcher
  {[txt "counter.add" := demo_add]} {[txt "ops" := [mkGrant (txt "counter.*") true]]}
  (fun _ _ _ _ => Ok [mkTarget RouteLocal (txt "local"); mkTarget RouteAllHosts (txt "h1");
                      mkTarget RouteAllHosts (txt "h2")])
  (fun w t _ => if bool_decide (t_ID t = txt "h2") then (w, SendFailed (ErrMsg (txt "host down")))
                else (w, Responded (Some (mkResponse 1 true [42] [] (t_ID t) 12)))).

Definition demo_caller (id : string) : Caller := mkCaller (txt id) SourceAdminHTTP [].

Lemma invoke_accounted_witness :
  exists start done r e,
    Invoke demo_lib demo_dispatcher (Some 100) (txt "t1") (demo_caller "ops") (txt "counter.add") (RawText (txt "5"))
      (mkState 10 []) = (mkState 15 [start; done], Returned r e) /\
    au_OK start = false /\ au_Phase done = PhaseDone /\ length (r_PerTarget r) = 3%nat.
Proof.
  destruct (invoke_accounted demo_lib demo_dispatcher (Some 100) (txt "t1") (demo_caller "ops") (txt "counter.add")
    (RawText (txt "5")) (mkState 10 [])) as (w & start & done & r & e & E & _ & _ & Hs & _ & Hd & _ & _ & _ & _ & Hids).
  { discriminate. }
  exists start, done, r, e.
  assert (w = 15) as -> by (apply (f_equal (fun x => world x.1)) in E; symmetry; exact E).
  split; [exact E|]. split; [|split; [exact Hd|]].
  - apply (f_equal (fun x => au_OK <$> head (audit x.1))) in E. vm_compute in E. by injection E as ->.
  - rewrite <- (length_fmap tr_TargetID), (Hids demo_add (Some 5) _ eq_refl eq_refl eq_refl eq_refl eq_refl).
    reflexivity.
Defined.

Lemma unauthorised_learns_nothing_witness :
  exists start done, forall raw,
    Invoke demo_lib demo_dispatcher (Some 100) (txt "t1") (demo_caller "guest") (txt "counter.add") raw (mkState 10 []) =
      (mkState 10 [start (marshalRaw demo_lib raw); done], Returned noResult (Some (ErrCmd ErrRBACDenied))).
Proof.
  destruct (unauthorised_learns_nothing demo_lib demo_dispatcher (txt "t1") (demo_caller "guest") (txt "counter.add")
    (mkState 10 [])) as [H _].
  destruct (H demo_add 100 eq_refl eq_refl) as (start & done & Hr). exists start, done. exact Hr.
Defined.

(** Nil arguments for a command that takes some: the call panics after its start record
    and never writes a done record. *)
Lemma nil_args_panic :
  match Invoke demo_lib demo_dispatcher (Some 100) (txt "t1") (demo_caller "ops") (txt "counter.add") RawNil (mkState 10 []) with
  | (s, Panicked) => au_Phase <$> audit s = [PhaseStart]
  | _ => False
  end.
Proof. reflexivity. Qed.
