(* ===== verification/CommandWire.v ===== *)
(** * Commands between processes (pkg/universe/cmdsys_transport.go)

    The transport behind the dispatcher: the coordinator's table of the requests it has
    sent and their answers, as steps of the goroutines that share it; the request and the
    caller on the wire; and what the receiving host does with a request.  The control
    stream is an outbox; whether a send on it succeeds is an argument of the step. *)

From S2P Require Import Prelude Commands CommandDispatch.

(** ** On the wire (meshpb) *)

Record pbCaller := mkPbCaller { pc_Id : text; pc_Source : Z }.
Record CommandRequest := mkCommandRequest {
  cr_RequestId : Z; cr_Verb : text; cr_ArgsJson : bytes; cr_Caller : option pbCaller;
  cr_DeadlineUnixNanos : Z; cr_TraceId : text; cr_SchemaVersion : Z
}.
(** [CommandResponse] has the fields of a [RemoteResponse]. *)
Abbreviation CommandResponse := RemoteResponse.
Inductive CoordMessage :=
| MsgCommandRequest (r : CommandRequest)
| MsgCommandCancel (requestID : Z) (deadline_exceeded : bool).

Definition source_code (s : CallerSource) : Z :=
  match s with
  | SourceConsole => 0 | SourceMeshControl => 1 | SourceTest => 2 | SourceAdminHTTP => 3
  | SourceOther n => n
  end.
(** The conversion to [CallerSource], a [uint8]. *)
Definition code_source (n : Z) : CallerSource :=
  let n := u8 n in
  if n =? 0 then SourceConsole else if n =? 1 then SourceMeshControl
  else if n =? 2 then SourceTest else if n =? 3 then SourceAdminHTTP else SourceOther n.

Definition callerToProto (c : Caller) : pbCaller := mkPbCaller (CallerID c) (source_code (Source c)).
Definition callerFromProto (pb : option pbCaller) : Caller :=
  match pb with
  | None => mkCaller [] SourceConsole []
  | Some pb => mkCaller (pc_Id pb) (code_source (pc_Source pb)) []
  end.

Definition commandRequestToProto (req : RemoteRequest) : CommandRequest :=
  mkCommandRequest (rq_RequestID req) (rq_Verb req) (rq_ArgsJSON req) (Some (callerToProto (rq_Caller req)))
    (rq_DeadlineUnixNanos req) (rq_TraceID req) (rq_SchemaVersion req).

Definition timeFromUnixNanos (now nanos : Z) : Z :=
  if nanos <=? 0 then now + 30000000000 else nanos.
Definition maxRemoteCommandDeadline : Z := 60000000000.
Definition clampRemoteDeadline (now unixNanos : Z) : Z :=
  let t := timeFromUnixNanos now unixNanos in
  let max := now + maxRemoteCommandDeadline in
  if max <? t then max else t.

(** ** The sender's table *)

(** Where the goroutine of a [Send] is: before the send on the stream, watching the
    context, or finished; or the send failed. *)
Inductive SendPc := Sending | Watching | Finished | Failed.

(** A request: its target and message, the goroutine, whether the caller's context is done
    (and by its deadline), whether [cancel] has been called, and the response channel with
    what the caller has already taken from it. *)
Record Request := mkReq {
  q_target : text; q_msg : CommandRequest; q_pc : SendPc; q_expired : option bool;
  q_cancelled : bool; q_chan : list (option RemoteResponse); q_taken : list (option RemoteResponse)
}.

Record commandOrchestrator := mkOrch {
  nextID : Z;
  inflight : gset Z;
  requests : gmap Z Request;
  carried : list (Z * option RemoteResponse);
  outbox : list (text * CoordMessage)
}.

Definition newCommandOrchestrator : commandOrchestrator := mkOrch 0 ∅ ∅ [] [].

Definition set_requests (o : commandOrchestrator) (r : gmap Z Request) : commandOrchestrator :=
  mkOrch (nextID o) (inflight o) r (carried o) (outbox o).
Definition set_inflight (o : commandOrchestrator) (s : gset Z) : commandOrchestrator :=
  mkOrch (nextID o) s (requests o) (carried o) (outbox o).
Definition send_msg (o : commandOrchestrator) (target : text) (m : CoordMessage) : commandOrchestrator :=
  mkOrch (nextID o) (inflight o) (requests o) (carried o) (outbox o ++ [(target, m)]).
Definition set_pc (q : Request) (pc : SendPc) : Request :=
  mkReq (q_target q) (q_msg q) pc (q_expired q) (q_cancelled q) (q_chan q) (q_taken q).
Definition cancel (q : Request) : Request :=
  mkReq (q_target q) (q_msg q) (q_pc q) (q_expired q) true (q_chan q) (q_taken q).

(** [alloc]: the id is drawn and the entry made before anything is sent. *)
Definition alloc (o : commandOrchestrator) (target : text) (req : RemoteRequest) : commandOrchestrator :=
  let id := u64 (nextID o + 1) in
  let msg := commandRequestToProto
    (mkRequest id (rq_Verb req) (rq_ArgsJSON req) (rq_Caller req) (rq_DeadlineUnixNanos req)
       (rq_TraceID req) (rq_SchemaVersion req)) in
  mkOrch id ({[id]} ∪ inflight o) (<[id := mkReq target msg Sending None false [] []]> (requests o))
    (carried o) (outbox o).

(** [remove]. *)
Definition remove (o : commandOrchestrator) (id : Z) : commandOrchestrator * bool :=
  if decide (id ∈ inflight o) then (set_inflight o (inflight o ∖ {[id]}), true) else (o, false).

(** The send on the control stream, and the return of [Send] when it fails. *)
Definition finish_send (o : commandOrchestrator) (id : Z) (ok : bool) : commandOrchestrator :=
  match requests o !! id with
  | Some q =>
      match q_pc q with
      | Sending =>
          if ok then
            set_requests (send_msg o (q_target q) (MsgCommandRequest (q_msg q)))
              (<[id := set_pc q Watching]> (requests o))
          else
            set_requests (fst (remove o id)) (<[id := cancel (set_pc q Failed)]> (requests o))
      | _ => o
      end
  | None => o
  end.

(** A message on its way to the channel of a request that has been taken from the table. *)
Definition carry (o : commandOrchestrator) (id : Z) (r : option RemoteResponse) : commandOrchestrator :=
  mkOrch (nextID o) (inflight o) (requests o) (carried o ++ [(id, r)]) (outbox o).

(** The critical section of [OnResponse] and of [OnCancel]. *)
Definition OnResponse (o : commandOrchestrator) (resp : CommandResponse) : commandOrchestrator :=
  let '(o, ok) := remove o (rs_RequestID resp) in
  if ok then carry o (rs_RequestID resp) (Some resp) else o.
Definition OnCancel (o : commandOrchestrator) (requestID : Z) : commandOrchestrator :=
  let '(o, ok) := remove o requestID in if ok then carry o requestID None else o.

(** What follows it: [cancel], and a send on the channel that does not block; the channel
    holds one. *)
Definition deliver (o : commandOrchestrator) (n : nat) : commandOrchestrator :=
  match carried o !! n with
  | Some (id, r) =>
      let put q := match q_chan q with
                   | [] => mkReq (q_target q) (q_msg q) (q_pc q) (q_expired q) true [r] (q_taken q)
                   | _ => cancel q
                   end in
      mkOrch (nextID o) (inflight o) (alter put id (requests o)) (delete n (carried o)) (outbox o)
  | None => o
  end.

(** The caller's context is done, by its deadline or not; with it its child. *)
Definition expire (o : commandOrchestrator) (id : Z) (deadline : bool) : commandOrchestrator :=
  set_requests o (alter (fun q => match q_expired q with
    | None => mkReq (q_target q) (q_msg q) (q_pc q) (Some deadline) true (q_chan q) (q_taken q)
    | Some _ => q end) id (requests o)).

(** The goroutine that watches the context.  Taking the entry out of the table, telling the
    host and putting the timeout answer into the caller's channel are one step here: once
    the entry is out, no other goroutine reaches the request or its channel, so nothing can
    come between them but steps of other requests. *)
Definition watch (o : commandOrchestrator) (id : Z) : commandOrchestrator :=
  match requests o !! id with
  | Some q =>
      match q_pc q with
      | Watching =>
          if q_cancelled q then
            let o := set_requests o (<[id := cancel (set_pc q Finished)]> (requests o)) in
            let '(o, ok) := remove o id in
            if ok then
              carry (send_msg o (q_target q)
                       (MsgCommandCancel id (bool_decide (q_expired q = Some true)))) id None
            else o
          else o
      | _ => o
      end
  | None => o
  end.

(** The caller takes the message of its channel. *)
Definition take (o : commandOrchestrator) (id : Z) : commandOrchestrator :=
  set_requests o (alter (fun q => mkReq (q_target q) (q_msg q) (q_pc q) (q_expired q) (q_cancelled q)
    [] (q_taken q ++ q_chan q)) id (requests o)).

Inductive event :=
| EvAlloc (target : text) (req : RemoteRequest)
| EvSend (id : Z) (ok : bool)
| EvResponse (resp : CommandResponse)
| EvCancel (requestID : Z)
| EvDeliver (n : nat)
| EvExpire (id : Z) (deadline : bool)
| EvWatch (id : Z)
| EvTake (id : Z).

Definition step (o : commandOrchestrator) (e : event) : commandOrchestrator :=
  match e with
  | EvAlloc target req => alloc o target req
  | EvSend id ok => finish_send o id ok
  | EvResponse resp => OnResponse o resp
  | EvCancel id => OnCancel o id
  | EvDeliver n => deliver o n
  | EvExpire id deadline => expire o id deadline
  | EvWatch id => watch o id
  | EvTake id => take o id
  end.
Definition run (o : commandOrchestrator) (es : list event) : commandOrchestrator := fold_left step es o.

(** ** The receiver *)

Section Receiver.
Context {W A R : Type} (lib : Lib A R) (d : Dispatcher W A R).

Definition buildCommandResponse (requestID : Z) (targetID : text) (res : result Error bytes)
    (schemaVer : Z) : CommandResponse :=
  match res with
  | Err e => mkResponse requestID false [] (errText lib e) targetID schemaVer
  | Ok js => mkResponse requestID true js [] targetID schemaVer
  end.

(** [trace] is the id [InvokeAsPeer] draws. *)
Definition executeCommandRequest (trace hostID peerID : text) (req : CommandRequest) (s : State W)
  : State W * CommandResponse :=
  let localHash := argsSchemaHash d (cr_Verb req) in
  if negb (cr_SchemaVersion req =? 0) && negb (localHash =? 0) && negb (localHash =? cr_SchemaVersion req) then
    (s, mkResponse (cr_RequestId req) false [] (txt "schema_version") hostID 0)
  else
    let caller := mkCaller (CallerID (callerFromProto (cr_Caller req))) SourceMeshControl
                    (Grants (callerFromProto (cr_Caller req))) in
    let '(s, res, schemaVer) := InvokeAsPeer lib d trace caller peerID (cr_Verb req) (cr_ArgsJson req) s in
    (s, buildCommandResponse (cr_RequestId req) hostID res schemaVer).

(** The response of [sendLocal], for a target in the same process. *)
Definition sendLocal (trace : text) (req : RemoteRequest) (w : W) : W * RemoteResponse :=
  let '(w, res, schemaVer) := InvokeLocal lib d trace (rq_Caller req) (rq_Verb req) (rq_ArgsJSON req) w in
  (w, match res with
      | Err e => mkResponse (rq_RequestID req) false [] (errText lib e) [] schemaVer
      | Ok js => mkResponse (rq_RequestID req) true js [] [] schemaVer
      end).
End Receiver.

(** * Properties *)

(** ** Every request is answered once *)

(** Whatever has been put, or is about to be put, on the channel of request [id]. *)
Definition messages (o : commandOrchestrator) (id : Z) : list (option RemoteResponse) :=
  match requests o !! id with Some q => q_taken q ++ q_chan q | None => [] end
  ++ (filter (fun c => c.1 = id) (carried o)).*2.

Definition answers (es : list event) (id : Z) (m : option RemoteResponse) : Prop :=
  match m with Some r => rs_RequestID r = id /\ EvResponse r ∈ es | None => True end.

Record Inv (es : list event) (o : commandOrchestrator) : Prop := {
  inv_next : 0 <= nextID o <= Z.of_nat (length es);
  inv_ids : forall id q, requests o !! id = Some q -> 1 <= id <= nextID o;
  inv_carried : forall id r, (id, r) ∈ carried o -> is_Some (requests o !! id);
  inv_flight : forall id, id ∈ inflight o -> messages o id = [] /\
    exists q, requests o !! id = Some q /\ (q_pc q = Sending \/ q_pc q = Watching);
  inv_settled : forall id q, requests o !! id = Some q -> id ∉ inflight o ->
    (q_pc q = Failed /\ messages o id = []) \/ exists m, messages o id = [m] /\ answers es id m;
  inv_expired : forall id q, requests o !! id = Some q -> q_expired q <> None -> q_cancelled q = true;
  inv_outbox : forall t id b, (t, MsgCommandCancel id b) ∈ outbox o -> id ∉ inflight o /\
    exists q, requests o !! id = Some q /\ t = q_target q /\ messages o id = [None]
}.

Lemma answers_mono es es' id m : es ⊆ es' -> answers es id m -> answers es' id m.
Proof. destruct m; [|done]. intros H [? ?]. split; [done|]. by apply H. Qed.

Lemma answers_snoc es e id m : answers es id m -> answers (es ++ [e]) id m.
Proof. apply answers_mono. set_solver. Qed.

(** A step that keeps the table, the messages and the identity of the requests. *)
Definition same_request (settled : Prop) (q q' : Request) : Prop :=
  q_target q' = q_target q /\
  (q_pc q' = q_pc q \/ (q_pc q = Sending /\ q_pc q' = Watching) \/
   (settled /\ q_pc q = Watching /\ q_pc q' = Finished)) /\
  (q_expired q' <> None -> q_expired q <> None \/ q_cancelled q' = true) /\
  (q_cancelled q = true -> q_cancelled q' = true).

Lemma inv_same es es' o o' :
  Inv es o -> es ⊆ es' -> (length es <= length es')%nat -> nextID o' = nextID o -> inflight o' = inflight o -> carried o' ⊆ carried o ->
  (forall id, option_relation (same_request (id ∉ inflight o)) (fun _ => False) (fun _ => False) (requests o !! id) (requests o' !! id)) ->
  (forall id, messages o' id = messages o id) ->
  (forall t id b, (t, MsgCommandCancel id b) ∈ outbox o' -> (t, MsgCommandCancel id b) ∈ outbox o) ->
  Inv es' o'.
Proof.
  intros [I1 I2 I3 I4 I5 I6 I7] Hes Hlen En Ei Ec Er Em Eo.
  assert (forall id q', requests o' !! id = Some q' -> exists q, requests o !! id = Some q /\ same_request (id ∉ inflight o) q q') as Hb.
  { intros id q' Hq. specialize (Er id). rewrite Hq in Er. destruct (requests o !! id) as [q|]; [eauto|done]. }
  assert (forall id q, requests o !! id = Some q -> exists q', requests o' !! id = Some q' /\ same_request (id ∉ inflight o) q q') as Hf.
  { intros id q Hq. specialize (Er id). rewrite Hq in Er. destruct (requests o' !! id) as [q'|]; [eauto|done]. }
  constructor; rewrite ?En, ?Ei.
  - lia.
  - intros id q' (q & Hq & _)%Hb. eauto.
  - intros id r Hr. apply Ec, I3 in Hr as [q Hq]. apply Hf in Hq as (q' & Hq' & _). eauto.
  - intros id Hid. rewrite Em. destruct (I4 id Hid) as [Hm (q & Hq & Hpc)]. split; [done|].
    apply Hf in Hq as (q' & Hq' & _ & Hs & _). exists q'. split; [done|].
    destruct Hs as [->|[[_ ->]|[? _]]]; auto. done.
  - intros id q' Hq' Hn. rewrite Em. apply Hb in Hq' as (q & Hq & _ & Hs & _).
    destruct (I5 id q Hq Hn) as [[Hp Hm]|(m & Hm & Ha)]; [left|right].
    + split; [|done]. destruct Hs as [->|[[? ?]|(_ & ? & ?)]]; [done|congruence..].
    + exists m. split; [done|]. by apply (answers_mono es).
  - intros id q' Hq' He. apply Hb in Hq' as (q & Hq & _ & _ & Hx & Hc).
    destruct (Hx He) as [?|?]; [|done]. eauto.
  - intros t id b (Hn & q & Hq & -> & Hm)%Eo%I7. split; [done|]. rewrite Em.
    apply Hf in Hq as (q' & Hq' & Et & _). exists q'. by rewrite Et.
Qed.

Lemma messages_unfold o id q : requests o !! id = Some q ->
  messages o id = q_taken q ++ q_chan q ++ (filter (fun c => c.1 = id) (carried o)).*2.
Proof. intros H. unfold messages. by rewrite H, app_assoc. Qed.

Lemma same_request_refl P q : same_request P q q.
Proof. unfold same_request. split_and!; auto. Qed.

(** Changing one request, and neither the table nor what is carried. *)
Lemma inv_update es es' o id q q' out :
  Inv es o -> es ⊆ es' -> (length es <= length es')%nat ->
  requests o !! id = Some q -> same_request (id ∉ inflight o) q q' -> q_taken q' ++ q_chan q' = q_taken q ++ q_chan q ->
  (forall t id b, (t, MsgCommandCancel id b) ∈ out -> (t, MsgCommandCancel id b) ∈ outbox o) ->
  Inv es' (mkOrch (nextID o) (inflight o) (<[id := q']> (requests o)) (carried o) out).
Proof.
  intros I Hes Hlen Hq Hs Hm Ho. apply (inv_same es es' o); auto; simpl.
  - intros i. rewrite lookup_insert. case_decide as E; [|destruct (requests o !! i); [apply same_request_refl|done]].
    subst i. by rewrite Hq.
  - intros i. unfold messages. simpl. rewrite lookup_insert. case_decide as E; [|done].
    subst i. by rewrite Hq, Hm.
Qed.

Lemma inv_keep es e o : Inv es o -> Inv (es ++ [e]) o.
Proof.
  intros I. apply (inv_same es _ o); auto; [set_solver|rewrite length_app; lia|]. intros i.
  destruct (requests o !! i); [apply same_request_refl|done].
Qed.

(** Taking an entry out of the table and carrying a message to its channel. *)
Lemma messages_carry o s out id r i :
  messages (mkOrch (nextID o) s (requests o) (carried o ++ [(id, r)]) out) i =
  messages o i ++ if decide (i = id) then [r] else [].
Proof.
  unfold messages. simpl. rewrite filter_app, fmap_app, app_assoc. f_equal.
  rewrite filter_cons, filter_nil. simpl. repeat case_decide; by subst.
Qed.

Lemma inv_carry es e o id r out :
  Inv es o -> id ∈ inflight o -> answers (es ++ [e]) id r ->
  (forall t i b, (t, MsgCommandCancel i b) ∈ out -> (t, MsgCommandCancel i b) ∈ outbox o \/
     (i = id /\ r = None /\ exists q, requests o !! id = Some q /\ t = q_target q)) ->
  Inv (es ++ [e]) (mkOrch (nextID o) (inflight o ∖ {[id]}) (requests o) (carried o ++ [(id, r)]) out).
Proof.
  intros [I1 I2 I3 I4 I5 I6 I7] Hid Ha Ho. destruct (I4 id Hid) as [Hm (q & Hq & Hpc)].
  constructor; simpl.
  - rewrite length_app. simpl. lia.
  - done.
  - intros i r' [Hr|[= -> ->]%list_elem_of_singleton]%elem_of_app; eauto.
  - intros i [Hi Hne]%elem_of_difference. rewrite messages_carry, decide_False by set_solver.
    rewrite app_nil_r. auto.
  - intros i q' Hq' Hn. rewrite messages_carry. case_decide as E.
    + subst i. right. exists r. by rewrite Hm.
    + rewrite app_nil_r. destruct (I5 i q' Hq') as [?|(m & ? & ?)]; [set_solver|by left|right].
      exists m. split; [done|]. by apply answers_snoc.
  - done.
  - intros t i b Hi. rewrite messages_carry. destruct (Ho t i b Hi) as [(Hn & q' & ? & ? & ?)%I7|(-> & -> & q' & ? & ?)].
    + split; [set_solver|]. exists q'. rewrite decide_False by (intros ->; done). rewrite app_nil_r. done.
    + split; [set_solver|]. exists q'. rewrite decide_True, Hm by done. done.
Qed.

Lemma inv_alloc es o target req :
  Inv es o -> Z.of_nat (length es) + 1 < 2 ^ 64 -> Inv (es ++ [EvAlloc target req]) (alloc o target req).
Proof.
  intros [I1 I2 I3 I4 I5 I6 I7] Hlen. unfold alloc.
  assert (u64 (nextID o + 1) = nextID o + 1) as -> by (apply u64_id; unfold in_u64; lia).
  set (n := nextID o + 1). assert (requests o !! n = None) as Hn.
  { destruct (requests o !! n) as [q|] eqn:E; [|done]. apply I2 in E. lia. }
  assert (n ∉ inflight o) as Hf by (intros (_ & q & Hq & _)%I4; congruence).
  set (q0 := mkReq _ _ _ _ _ _ _).
  set (o' := mkOrch _ _ _ _ _).
  assert (messages o' n = []) as Hm.
  { rewrite (messages_unfold o' n q0) by (apply lookup_insert_eq). simpl.
    replace (filter (fun c => c.1 = n) (carried o)) with (@nil (Z * option RemoteResponse)); [done|].
    symmetry. apply elem_of_nil_inv. intros [i r] [Hi Hr]%list_elem_of_filter. simpl in *.
    apply I3 in Hr as [q ?]. congruence. }
  assert (forall i, i <> n -> messages o' i = messages o i) as Ho.
  { intros i Hi. unfold messages. simpl. by rewrite lookup_insert_ne by done. }
  constructor; simpl.
  - rewrite length_app. simpl. lia.
  - intros i q. rewrite lookup_insert_Some. intros [[<- _]|[_ ?%I2]]; lia.
  - intros i r Hr%I3. rewrite lookup_insert. by case_decide.
  - intros i [->%elem_of_singleton|Hi]%elem_of_union.
    + split; [done|]. exists q0. rewrite lookup_insert_eq. auto.
    + assert (i <> n) by (intros ->; done). rewrite Ho, lookup_insert_ne by done. auto.
  - intros i q Hq Hi. apply not_elem_of_union in Hi as [Hi1 Hi2]. assert (i <> n) by set_solver.
    rewrite Ho by done. rewrite lookup_insert_ne in Hq by done.
    destruct (I5 i q Hq Hi2) as [?|(m & ? & ?)]; [by left|right]. exists m. split; [done|]. by apply answers_snoc.
  - intros i q. rewrite lookup_insert_Some. intros [[<- <-]|[_ ?]]; [done|eauto].
  - intros t i b (Hi & q & Hq & ? & ?)%I7. assert (i <> n) by (intros ->; congruence).
    split; [set_solver|]. exists q. rewrite lookup_insert_ne, Ho by done. done.
Qed.

Lemma inv_fail es e o id q :
  Inv es o -> requests o !! id = Some q -> q_pc q = Sending ->
  Inv (es ++ [e]) (set_requests (fst (remove o id)) (<[id := cancel (set_pc q Failed)]> (requests o))).
Proof.
  intros [I1 I2 I3 I4 I5 I6 I7] Hq Hpc. set (o' := set_requests _ _).
  assert (inflight o' = inflight o ∖ {[id]}) as Hin.
  { unfold o', remove. case_decide; simpl; [done|set_solver]. }
  assert (carried o' = carried o /\ nextID o' = nextID o /\ outbox o' = outbox o) as (Hc & Hx & Hob)
    by (unfold o', remove; by case_decide).
  assert (requests o' = <[id := cancel (set_pc q Failed)]> (requests o)) as Hr by done.
  assert (forall i, messages o' i = messages o i) as Hm.
  { intros i. unfold messages. rewrite Hr, Hc, lookup_insert. case_decide as E; [|done]. subst. by rewrite Hq. }
  constructor; rewrite ?Hin, ?Hc, ?Hx, ?Hob, ?Hr.
  - rewrite length_app. simpl. lia.
  - intros i q'. rewrite lookup_insert_Some. intros [[<- _]|[_ ?]]; eauto.
  - intros i r Hir%I3. rewrite lookup_insert. by case_decide.
  - intros i [Hi Hne]%elem_of_difference. rewrite Hm, lookup_insert_ne by set_solver. auto.
  - intros i q'. rewrite Hm, lookup_insert_Some. intros [[<- <-]|[Hne Hq']] Hi.
    + destruct (decide (id ∈ inflight o)) as [Hid|Hid]; [left; split; [done|by apply I4]|].
      destruct (I5 id q Hq Hid) as [[? ?]|(m & ? & ?)]; [congruence|right]. exists m. split; [done|]. by apply answers_snoc.
    + destruct (I5 i q' Hq') as [?|(m & ? & ?)]; [set_solver|by left|right]. exists m. split; [done|]. by apply answers_snoc.
  - intros i q'. rewrite lookup_insert_Some. intros [[<- <-]|[_ ?]]; [done|eauto].
  - intros t i b (Hi & q' & Hq' & ? & ?)%I7. split; [set_solver|]. rewrite Hm, lookup_insert.
    case_decide as E; [|by exists q']. subst i. exists (cancel (set_pc q Failed)). simpl. split_and!; congruence.
Qed.

Lemma filter_delete {X} (P : X -> Prop) `{forall x, Decision (P x)} (l : list X) n x :
  l !! n = Some x -> filter P l ≡ₚ filter P [x] ++ filter P (delete n l).
Proof.
  intros Hl. rewrite <- filter_app. by rewrite (delete_Permutation l n x) at 1. Qed.

(** A carried message finds its channel empty: it is the only one there ever is. *)
Lemma carried_only es o n id r :
  Inv es o -> carried o !! n = Some (id, r) ->
  exists q, requests o !! id = Some q /\ q_taken q = [] /\ q_chan q = [] /\
    (filter (fun c => c.1 = id) (delete n (carried o))).*2 = [].
Proof.
  intros [I1 I2 I3 I4 I5 I6 I7] Hn.
  destruct (I3 id r (list_elem_of_lookup_2 _ _ _ Hn)) as [q Hq]. exists q. split; [done|].
  assert (length (messages o id) <= 1)%nat as Hlen.
  { destruct (decide (id ∈ inflight o)) as [H|H]; [apply I4 in H as [-> _]; simpl; lia|].
    destruct (I5 id q Hq H) as [[_ ->]|(m & -> & _)]; simpl; lia. }
  rewrite (messages_unfold o id q Hq), !length_app, length_fmap in Hlen.
  rewrite (filter_delete (fun c => c.1 = id) _ n (id, r) Hn) in Hlen.
  rewrite length_app, filter_cons_True in Hlen by done. simpl in Hlen.
  split_and!; apply nil_length_inv; rewrite ?length_fmap; lia.
Qed.

Lemma filter_delete_other {X} (P : X -> Prop) `{forall x, Decision (P x)} (l : list X) n x :
  l !! n = Some x -> ~ P x -> filter P (delete n l) = filter P l.
Proof.
  intros Hl Hx. revert n Hl. induction l as [|y l IH]; intros [|n] Hl; simplify_eq/=.
  - by rewrite filter_cons_False.
  - rewrite !filter_cons. by rewrite (IH n Hl).
Qed.

Lemma inv_deliver es e o n : Inv es o -> Inv (es ++ [e]) (deliver o n).
Proof.
  intros I. unfold deliver. destruct (carried o !! n) as [[id r]|] eqn:En; [|by apply inv_keep].
  destruct (carried_only _ _ _ _ _ I En) as (q & Hq & Ht & Hc & Hf).
  set (o' := mkOrch _ _ _ _ _).
  assert (requests o' = <[id := mkReq (q_target q) (q_msg q) (q_pc q) (q_expired q) true [r] (q_taken q)]> (requests o)) as Hr.
  { apply map_eq. intros i. unfold o'. simpl. rewrite lookup_alter, lookup_insert.
    case_decide; [subst; by rewrite Hq; simpl; rewrite Hc|done]. }
  apply (inv_same es _ o o'); auto; [set_solver|rewrite length_app; lia|..].
  - intros x Hx. unfold o' in Hx. simpl in Hx. rewrite (delete_Permutation _ _ _ En). by right.
  - intros i. rewrite Hr, lookup_insert. case_decide as E; [|destruct (requests o !! i); [apply same_request_refl|done]].
    subst i. rewrite Hq. constructor; [done|]. simpl. auto.
  - intros i. unfold messages. rewrite Hr, lookup_insert. simpl. case_decide as E.
    + subst i. rewrite Hq, Hf, Ht, Hc. simpl.
      pose proof (filter_delete (fun c => c.1 = id) _ n (id, r) En) as Hp.
      apply fmap_nil_inv in Hf. rewrite Hf, filter_cons_True, filter_nil in Hp by done.
      symmetry in Hp. apply Permutation_singleton_l in Hp. by rewrite <- Hp.
    + by rewrite (filter_delete_other _ _ n (id, r)).
Qed.

Lemma alter_Some {X} (f : X -> X) (m : gmap Z X) i x : m !! i = Some x -> alter f i m = <[i := f x]> m.
Proof.
  intros H. apply map_eq. intros j. rewrite lookup_alter, lookup_insert. case_decide; [|done].
  subst. by rewrite H.
Qed.

Lemma inv_step es o e :
  Inv es o -> Z.of_nat (length es) + 1 < 2 ^ 64 -> Inv (es ++ [e]) (step o e).
Proof.
  intros I Hlen. destruct e as [target req|id ok|resp|id|n|id dl|id|id]; simpl.
  - by apply inv_alloc.
  - unfold finish_send. destruct (requests o !! id) as [q|] eqn:Hq; [|by apply inv_keep].
    destruct (q_pc q) eqn:Hpc; try by apply inv_keep. destruct ok; [|by apply inv_fail].
    apply (inv_update es _ o id q); auto; [set_solver|rewrite length_app; lia|..].
    + unfold same_request. simpl. rewrite Hpc. auto 10.
    + intros t i b. simpl. rewrite elem_of_app, list_elem_of_singleton. intros [?|?]; [done|congruence].
  - unfold OnResponse, remove. case_decide as Hid; [|by apply inv_keep].
    apply (inv_carry es _ o _ _ (outbox o)); auto. simpl. split; [done|]. apply elem_of_app. right. left.
  - unfold OnCancel, remove. case_decide as Hid; [|by apply inv_keep]. by apply (inv_carry es _ o _ _ (outbox o)); auto.
  - by apply inv_deliver.
  - destruct (requests o !! id) as [q|] eqn:Hq.
    + unfold expire. rewrite (alter_Some _ _ _ _ Hq). apply (inv_update es _ o id q); auto; [set_solver|rewrite length_app; lia|..].
      * unfold same_request. destruct (q_expired q); simpl; auto 10.
      * by destruct (q_expired q).
    + unfold expire. rewrite alter_id by naive_solver. destruct o. by apply inv_keep.
  - unfold watch. destruct (requests o !! id) as [q|] eqn:Hq; [|by apply inv_keep].
    destruct (q_pc q) eqn:Hpc; try by apply inv_keep. destruct (q_cancelled q) eqn:Hc; [|by apply inv_keep].
    set (q' := cancel (set_pc q Finished)).
    assert (forall P : Prop, P -> same_request P q q') as Hs.
    { intros P HP. unfold same_request, q'. simpl. auto 10. }
    unfold remove. simpl. case_decide as Hid.
    + assert (Inv (es ++ [EvWatch id]) (mkOrch (nextID o) (inflight o ∖ {[id]}) (requests o) (carried o ++ [(id, None)])
        (outbox o ++ [(q_target q, MsgCommandCancel id (bool_decide (q_expired q = Some true)))]))) as I'.
      { apply inv_carry; auto; [done|]. intros t i b. rewrite elem_of_app, list_elem_of_singleton.
        intros [?|[= -> -> _]]; [by left|right; eauto]. }
      apply (inv_update _ _ _ id q q' _ I'); auto. apply Hs. simpl. set_solver.
    + apply (inv_update es _ o id q); auto; [set_solver|rewrite length_app; lia|..].
  - destruct (requests o !! id) as [q|] eqn:Hq.
    + unfold take. rewrite (alter_Some _ _ _ _ Hq). apply (inv_update es _ o id q); auto; [set_solver|rewrite length_app; lia|..].
      * unfold same_request. simpl. auto 10.
      * simpl. by rewrite app_nil_r.
    + unfold take. rewrite alter_id by naive_solver. destruct o. by apply inv_keep.
Qed.

Lemma run_inv es : Z.of_nat (length es) < 2 ^ 64 -> Inv es (run newCommandOrchestrator es).
Proof.
  induction es as [|e es IH] using rev_ind; intros Hlen.
  - constructor; simpl; try lia; try set_solver; intros ? ?; by rewrite lookup_empty.
  - rewrite length_app in Hlen. simpl in Hlen. unfold run. rewrite fold_left_app. simpl.
    apply inv_step; [apply IH; lia|lia].
Qed.

(** A carried message arrives. *)
Lemma deliver_arrives es o n id r :
  Inv es o -> carried o !! n = Some (id, r) ->
  exists q, requests (deliver o n) !! id = Some q /\ q_taken q = [] /\ q_chan q = [r].
Proof.
  intros I Hn. destruct (carried_only _ _ _ _ _ I Hn) as (q & Hq & Ht & Hc & _).
  unfold deliver. rewrite Hn. simpl. rewrite (alter_Some _ _ _ _ Hq), lookup_insert_eq, Hc. eauto.
Qed.

Lemma one_message es o id q : Inv es o -> requests o !! id = Some q ->
  messages o id = [] \/ exists m, messages o id = [m] /\ answers es id m.
Proof.
  intros I Hq. destruct (decide (id ∈ inflight o)) as [H|H]; [left; by apply (inv_flight _ _ I)|].
  destruct (inv_settled _ _ I id q Hq H) as [[_ ?]|?]; auto.
Qed.

Lemma carried_elem o id m :
  (filter (fun c => c.1 = id) (carried o)).*2 = [m] -> exists n, carried o !! n = Some (id, m).
Proof.
  intros Hm. apply list_elem_of_lookup_1.
  assert (m ∈ (filter (fun c => c.1 = id) (carried o)).*2) as H by (rewrite Hm; left).
  apply list_elem_of_fmap in H as ([i r] & -> & [Hi Hr]%list_elem_of_filter). simpl in *. by subst i.
Qed.

Lemma watch_carries es o id q :
  Inv es o -> id ∈ inflight o -> requests o !! id = Some q -> q_pc q = Watching -> q_expired q <> None ->
  carried (watch o id) !! length (carried o) = Some (id, None).
Proof.
  intros I Hid Hq Hw He. unfold watch. rewrite Hq, Hw, (inv_expired _ _ I id q Hq He). unfold remove. simpl.
  rewrite decide_True by done. simpl. by rewrite lookup_app_r, Nat.sub_diag.
Qed.

Lemma expired_answered es o id q :
  Inv es o -> Z.of_nat (length es) + 1 < 2 ^ 64 -> requests o !! id = Some q ->
  q_pc q = Watching \/ q_pc q = Finished -> q_expired q <> None ->
  exists es' q' m, (length es' <= 2)%nat /\ (forall e, e ∈ es' -> e = EvWatch id \/ exists n, e = EvDeliver n) /\
    requests (run o es') !! id = Some q' /\ q_taken q' ++ q_chan q' = [m].
Proof.
  intros I Hlen Hq Hpc He. destruct (decide (id ∈ inflight o)) as [Hid|Hid].
  - assert (q_pc q = Watching) as Hw.
    { destruct (inv_flight _ _ I id Hid) as [_ (q' & Hq' & Hp)]. rewrite Hq in Hq'. injection Hq' as <-.
      destruct Hpc as [|E]; [done|]. rewrite E in Hp. by destruct Hp. }
    assert (Inv (es ++ [EvWatch id]) (watch o id)) as I1 by (by apply (inv_step _ _ (EvWatch id) I)).
    destruct (deliver_arrives _ _ _ _ _ I1 (watch_carries _ _ _ _ I Hid Hq Hw He)) as (q' & Hq' & Ht & Hc).
    exists [EvWatch id; EvDeliver (length (carried o))], q', None.
    split_and!; [simpl; lia|intros e; set_solver|exact Hq'|by rewrite Ht, Hc].
  - destruct (inv_settled _ _ I id q Hq Hid) as [[Hf _]|(m & E & _)]; [destruct Hpc; congruence|].
    rewrite (messages_unfold o id q Hq), app_assoc in E.
    destruct (q_taken q ++ q_chan q) as [|m' l] eqn:El.
    + destruct (carried_elem _ _ _ E) as [n Hn].
      destruct (deliver_arrives _ _ _ _ _ I Hn) as (q' & Hq' & Ht & Hc). exists [EvDeliver n], q', m.
      split_and!; [simpl; lia|intros e; set_solver|exact Hq'|by rewrite Ht, Hc].
    + exists [], q, m'. injection E as _ Hnil. apply app_nil in Hnil as [-> _].
      split_and!; [simpl; lia|intros e; set_solver|done|done].
Qed.

(** C33: every command that is sent is answered once.  In every interleaving of sends,
    responses, cancellations, deadlines and the goroutines between them: the channel of a
    request gets at most one message, which is a response to that request or nil; the
    message is never dropped because the channel is full; a cancellation goes to the
    request's own target, and then no response is delivered any more; and once the request
    is out and its context is done, one or two steps of the transport's own goroutines
    bring the caller its message if it has none, so the caller does not wait for ever. *)
Theorem answered_once (es : list event) (id : Z) (q : Request)
    (Hlen : Z.of_nat (length es) + 2 < 2 ^ 64)
    (Hq : requests (run newCommandOrchestrator es) !! id = Some q) :
  let o := run newCommandOrchestrator es in
  (length (q_taken q ++ q_chan q) <= 1)%nat /\
  (forall r, Some r ∈ q_taken q ++ q_chan q -> rs_RequestID r = id /\ EvResponse r ∈ es) /\
  (forall n r, carried o !! n = Some (id, r) -> exists q', requests (deliver o n) !! id = Some q' /\ q_chan q' = [r]) /\
  (forall t b, (t, MsgCommandCancel id b) ∈ outbox o -> t = q_target q /\ messages o id = [None]) /\
  (q_pc q = Watching \/ q_pc q = Finished -> q_expired q <> None ->
     exists es' q' m, (length es' <= 2)%nat /\ (forall e, e ∈ es' -> e = EvWatch id \/ exists n, e = EvDeliver n) /\
       requests (run o es') !! id = Some q' /\ q_taken q' ++ q_chan q' = [m]).
Proof.
  intros o. fold o in Hq. assert (Inv es o) as I by (apply run_inv; lia).
  pose proof (messages_unfold o id q Hq) as Hm. rewrite app_assoc in Hm.
  pose proof (one_message es o id q I Hq) as Hone.
  split_and!.
  - assert (length (messages o id) <= 1)%nat as Hl by (destruct Hone as [->|(m & -> & _)]; simpl; lia).
    rewrite Hm, length_app in Hl. lia.
  - intros r Hr. destruct (q_taken q ++ q_chan q) as [|m' l]; [by apply elem_of_nil in Hr|].
    destruct Hone as [E|(m & E & Ha)]; rewrite E in Hm; [done|]. injection Hm as -> Hnil.
    symmetry in Hnil. apply app_nil in Hnil as [-> _]. by apply list_elem_of_singleton in Hr as <-.
  - intros n r Hn. destruct (deliver_arrives _ _ _ _ _ I Hn) as (q' & ? & ? & ?). eauto.
  - intros t b (_ & q' & Hq' & -> & HN)%(inv_outbox _ _ I). split; [|done]. rewrite Hq in Hq'. by injection Hq' as <-.
  - intros Hpc He. apply (expired_answered es o id q); auto. lia.
Qed.

(** ** The receiving host *)

Section ReceiverFacts.
Context {W A R : Type} (lib : Lib A R) (d : Dispatcher W A R).

(** The command's handler does for this caller what it does for the same id come over the
    mesh, which brings neither source nor grants. *)
Definition source_blind (cmd : Command W A R) (c : Caller) : Prop := forall w t t' a,
  Handler cmd w c t a = Handler cmd w (mkCaller (CallerID c) SourceMeshControl []) t' a.

Lemma wire_caller_powerless pb c : Check_ (callerFromProto pb) c = false.
Proof. by destruct pb. Qed.

Lemma run_here_blind cmd c t t' a w : source_blind cmd c ->
  run_here lib cmd c t a w = run_here lib cmd (mkCaller (CallerID c) SourceMeshControl []) t' a w.
Proof. intros H. unfold run_here. by rewrite (H w t t' a). Qed.

Ltac both_records :=
  intros ? [->|[->|?%elem_of_nil]%elem_of_cons]%elem_of_cons; [by split_and!|by split_and!|done].

(** What a peer may ask for.  A request from the control stream is answered under its
    own id and this host's name; the caller on the wire has no authority of its own,
    whatever it says; a request of another schema version is refused and leaves no trace;
    any other leaves a start and a done record naming the caller, the mesh as its source
    and the authenticated peer, the done record agreeing with the answer, and changes the
    world only through the handler of a registered command whose arguments were decoded. *)
Theorem peer_request_handled (trace hostID peerID : text) (req : CommandRequest) (s : State W) :
  let '(s', resp) := executeCommandRequest lib d trace hostID peerID req s in
  let verb := cr_Verb req in
  let id := CallerID (callerFromProto (cr_Caller req)) in
  rs_RequestID resp = cr_RequestId req /\ rs_TargetID resp = hostID /\
  (forall c, Check_ (callerFromProto (cr_Caller req)) c = false) /\
  ((exists cmd, registry d !! verb = Some cmd /\ ArgsSchemaHash cmd <> 0 /\ cr_SchemaVersion req <> 0 /\
      ArgsSchemaHash cmd <> cr_SchemaVersion req /\ s' = s /\ rs_OK resp = false) \/
   exists start done, audit s' = audit s ++ [start; done] /\
     (forall r, r ∈ [start; done] -> au_CallerID r = id /\ au_Source r = SourceMeshControl /\
        au_PeerID r = peerID /\ au_Verb r = verb) /\
     au_Phase start = PhaseStart /\ au_Phase done = PhaseDone /\ au_OK done = rs_OK resp /\
     (world s' = world s \/ exists cmd a, registry d !! verb = Some cmd /\
        coerce_json lib cmd (cr_ArgsJson req) = Ok a /\
        world s' = fst (Handler cmd (world s) (mkCaller id SourceMeshControl []) trace a))).
Proof.
  unfold executeCommandRequest, argsSchemaHash.
  assert (Grants (callerFromProto (cr_Caller req)) = []) as HG by (by destruct (cr_Caller req)).
  rewrite HG. set (caller := mkCaller _ _ _).
  set (stale := negb _ && negb _ && negb _). destruct stale eqn:Eg; unfold stale in Eg.
  { simpl. split_and!; auto using wire_caller_powerless. left.
    destruct (registry d !! cr_Verb req) as [cmd|]; [|by rewrite andb_false_r in Eg].
    exists cmd. rewrite !andb_true_iff, !negb_true_iff, !Z.eqb_neq in Eg. naive_solver. }
  unfold InvokeAsPeer, emit, set_world. cbn [world audit].
  destruct (registry d !! cr_Verb req) as [cmd|] eqn:Ec.
  2:{ simpl. split_and!; auto using wire_caller_powerless. right. eexists _, _. rewrite <- app_assoc.
      split; [reflexivity|]. split; [by both_records|]. by auto 6. }
  destruct (coerce_json lib cmd (cr_ArgsJson req)) as [a|e] eqn:Ea.
  2:{ simpl. split_and!; auto using wire_caller_powerless. right. eexists _, _. rewrite <- app_assoc.
      split; [reflexivity|]. split; [by both_records|]. by auto 6. }
  unfold run_here. destruct (Handler cmd (world s) caller trace a) as [w res] eqn:Eh.
  set (out := match res with Ok r => _ | Err e => _ end).
  destruct out as [js|e]; simpl; (split_and!; auto using wire_caller_powerless); right; eexists _, _;
    rewrite <- app_assoc; (split; [reflexivity|]); (split; [by both_records|]);
    (split_and!; auto); right; exists cmd, a; by rewrite Eh.
Qed.

(** C31: where a target runs does not matter to a handler that looks at nothing of the
    caller but its id.  For an authorised caller, a request that carries the hash of the
    command's schema, and such a handler, a colocated target ([sendLocal]) and a remote host
    with the same commands ([executeCommandRequest] on the request as it crosses the wire)
    make the same change to the world and give the same answer: success or failure, result,
    error text and schema version.  A handler that looks at the source or the grants of its
    caller is answered differently: [source_reader_differs]. *)
Theorem colocated_matches_remote (trace trace' hostID peerID : text)
    (req : RemoteRequest) (cmd : Command W A R) (s : State W)
    (Hcmd : registry d !! rq_Verb req = Some cmd)
    (Hblind : source_blind cmd (rq_Caller req))
    (Hauth : Check_ (rq_Caller req) (Capability cmd) = true)
    (Hver : rq_SchemaVersion req = ArgsSchemaHash cmd) :
  let '(w, here) := sendLocal lib d trace req (world s) in
  let '(s', there) := executeCommandRequest lib d trace' hostID peerID (commandRequestToProto req) s in
  world s' = w /\ rs_RequestID there = rs_RequestID here /\ rs_OK there = rs_OK here /\
  rs_ResultJSON there = rs_ResultJSON here /\ rs_Error there = rs_Error here /\
  rs_SchemaVersion there = rs_SchemaVersion here.
Proof.
  unfold sendLocal, InvokeLocal, executeCommandRequest, argsSchemaHash, InvokeAsPeer.
  cbn [commandRequestToProto cr_Verb cr_SchemaVersion cr_ArgsJson cr_Caller cr_RequestId].
  rewrite Hcmd, Hauth, Hver, Z.eqb_refl, andb_false_r. simpl negb. cbn iota.
  destruct (coerce_json lib cmd (rq_ArgsJSON req)) as [a|e]; [|by simpl].
  unfold emit, set_world. cbn [world audit].
  rewrite (run_here_blind cmd (rq_Caller req) trace trace' a (world s) Hblind).
  change (CallerID (callerFromProto (Some (callerToProto (rq_Caller req))))) with (CallerID (rq_Caller req)).
  change (Grants (callerFromProto (Some (callerToProto (rq_Caller req))))) with (@nil Grant).
  destruct (run_here lib cmd _ trace' a (world s)) as [w [js|e]]; simpl; by split_and!.
Qed.
End ReceiverFacts.

(** ** Witnesses *)

Definition demo_request (id : Z) : RemoteRequest :=
  mkRequest id (txt "counter.add") [5] (mkCaller (txt "root") SourceConsole [mkGrant (txt "*.*") true]) 100 (txt "t1") 11.

(** A request whose deadline passes before its host answers; the answer comes too late. *)
Definition late_answer : list event :=
  [EvAlloc (txt "h1") (demo_request 0); EvSend 1 true; EvExpire 1 true; EvWatch 1;
   EvResponse (mkResponse 1 true [15] [] (txt "h1") 12)].

Lemma answered_once_witness :
  exists es' q' m, (length es' <= 2)%nat /\
    requests (run (run newCommandOrchestrator late_answer) es') !! 1 = Some q' /\ q_taken q' ++ q_chan q' = [m].
Proof.
  destruct (answered_once late_answer 1
    (mkReq (txt "h1") (commandRequestToProto (demo_request 1)) Finished (Some true) true [] [])) as (_ & _ & _ & _ & H).
  - vm_compute. reflexivity.
  - reflexivity.
  - destruct H as (es' & q' & m & ? & _ & ? & ?); [by right|done|]. exists es', q', m. by split_and!.
Defined.

Lemma demo_blind c : source_blind demo_add c.
Proof. by intros w t t' a. Qed.

(** A handler in the manner of the chat service's console commands: a caller without a user
    id is trusted when its source is the console, and refused otherwise. *)
Definition demo_mute : Command Z Z Z := mkCommand (txt "chat.mute") (txt "chat.mute") RouteAllHosts
  (Some [mkField (txt "N") KInt32 true false [] [] false]) true
  (fun w c _ a => match Source c with
                  | SourceConsole => (w + default 0 a, Ok (w + default 0 a))
                  | _ => (w, Err (ErrMsg (txt "invalid operator user_id")))
                  end) 11 12 [].

Definition chat_dispatcher : Dispatcher Z Z Z := mkDispatcher
  {[txt "chat.mute" := demo_mute]} ∅ (Resolve demo_dispatcher) (Send demo_dispatcher).

Definition mute_request : RemoteRequest :=
  mkRequest 1 (txt "chat.mute") [5] (mkCaller (txt "console") SourceConsole [mkGrant (txt "*.*") true]) 100 (txt "t1") 11.

Lemma source_reader_differs :
  let here := sendLocal demo_lib chat_dispatcher (txt "t1") mute_request 10 in
  let there := executeCommandRequest demo_lib chat_dispatcher (txt "t2") (txt "h1") (txt "coordinator")
                 (commandRequestToProto mute_request) (mkState 10 []) in
  here.1 = 15 /\ rs_OK here.2 = true /\ world there.1 = 10 /\ rs_OK there.2 = false.
Proof. vm_compute. by split_and!. Qed.

Lemma colocated_matches_remote_witness :
  (executeCommandRequest demo_lib demo_dispatcher (txt "t2") (txt "h1") (txt "coordinator")
     (commandRequestToProto (demo_request 1)) (mkState 10 [])).2 = mkResponse 1 true [15] [] (txt "h1") 12 /\
  world (executeCommandRequest demo_lib demo_dispatcher (txt "t2") (txt "h1") (txt "coordinator")
     (commandRequestToProto (demo_request 1)) (mkState 10 [])).1 = (sendLocal demo_lib demo_dispatcher (txt "t1") (demo_request 1) 10).1.
Proof.
  split; [reflexivity|].
  apply (colocated_matches_remote demo_lib demo_dispatcher (txt "t1") (txt "t2") (txt "h1") (txt "coordinator")
    (demo_request 1) demo_add (mkState 10 []) eq_refl (demo_blind _) eq_refl eq_refl).
Defined.

(** ** What cancellation does not do *)

(** The coordinator gives up on a request and tells the host; the host looks the id up in
    the table of the requests it has itself sent, where it is unknown, so the handler that
    is running on it is not told. *)
Lemma cancel_stops_nothing :
  let coord := run newCommandOrchestrator (List.firstn 4 late_answer) in
  In (txt "h1", MsgCommandCancel 1 true) (outbox coord) /\
  forall host, inflight host = ∅ -> OnCancel host 1 = host.
Proof.
  split; [vm_compute; auto|]. intros host H. unfold OnCancel, remove. rewrite H, decide_False by set_solver. done.
Qed.

(** Ids are counted from 1 in every process: if the host has a request of its own out, the
    cancellation of the coordinator's hits that one. *)
Lemma cancel_hits_another :
  let host := run newCommandOrchestrator [EvAlloc (txt "h9") (demo_request 0); EvSend 1 true] in
  carried (OnCancel host 1) = [(1, None)].
Proof. reflexivity. Qed.
