(* ===== verification/CommandRoute.v ===== *)
(** * Where a command goes (pkg/universe/cmdsys_resolver.go, db_host_picker.go)

    The coordinator's route resolver: from the kind of route, the arguments and the tables
    of [ControlPlane] to the targets of [CommandDispatch].  The reflection that reads a
    field of an argument struct by its name is a parameter; a text becomes a string of
    the tables rune by rune. *)

From S2P Require Import Prelude CellId NetId HostRegistry GatewayRegistry Services SessionRoutes ControlPlane Commands CommandDispatch.

(** A field of a struct: a string, an integer of any width, or something else. *)
Inductive fieldval := FString (s : string) | FInteger (z : Z) | FOther.

Inductive RouteError := ErrRouteMissingField | ErrRouteNoOwner | ErrNoService (kind : string) | ErrRouteNotWired.

Section Resolver.
Context {A : Type} (field : A -> string -> option fieldval).

Definition extractStringField (args : option A) (name : string) : string :=
  match args with
  | Some a => match field a name with Some (FString s) => s | _ => "" end
  | None => ""
  end%string.

Definition extractUint32Field (args : option A) (name : string) : Z :=
  match args with
  | Some a => match field a name with Some (FInteger z) => u32 z | _ => 0 end
  | None => 0
  end.

(** What the resolver reads of the process: the coordinator's tables, the registry of
    hosts (absent outside a coordinator) and of gateways, the id indexes of the cells of
    its own hosts in the order of the walk, and the index of services. *)
Record Process := mkProcess {
  coord : Coord;
  env : Env;
  hasHostRegistry : bool;
  hasGatewayRegistry : bool;
  hasServices : bool;
  localHosts : list (string * list (gmap Z (netIDSlot unit)));
  serviceRouting : option RoutingIndex
}.

Definition LiveHostIDs (p : Process) : list string :=
  if hasHostRegistry p then map HostRegistry.ID (cellBearingHosts (horder (env p)) (hosts (coord p)))
  else map fst (localHosts p).

Definition LiveGatewayIDs (p : Process) : list string :=
  if hasGatewayRegistry p then map GatewayRegistry.ID (LiveGateways (gorder (env p)) (gateways (coord p))) else [].

Definition HostForCellID (p : Process) (cellID : string) : string :=
  default ""%string (OwnerOf (env p) (coord p) cellID).

(** Whether a host's cell holds the entity as its own. *)
Definition holds_live (netID : Z) (h : string * list (gmap Z (netIDSlot unit))) : bool :=
  existsb (fun idx => match Lookup idx netID with (_, PresenceLive, ok) => ok | _ => false end) (snd h).

Definition EntityHostForNetID (p : Process) (netID : Z) : string :=
  match List.find (holds_live netID) (localHosts p) with Some h => fst h | None => ""%string end.

Definition db_candidate (h : RemoteHost) : bool :=
  HasPlayerDB h && (bool_decide (HostRegistry.State h = RemoteHostLive) || bool_decide (HostRegistry.State h = RemoteHostRegistered)).

Definition PickDBHost (p : Process) : string :=
  if hasHostRegistry p then
    match sort_strings (map HostRegistry.ID (List.filter db_candidate (LiveHosts (horder (env p)) (hosts (coord p))))) with
    | [] => ""
    | id :: _ => id
    end
  else "".

Definition HostForServiceKind (p : Process) (name : string) : string :=
  match (if hasServices p then InstancesOfKind (services (coord p)) name else []) with
  | inst :: _ => HostID inst
  | [] =>
      match serviceRouting p with
      | Some idx => match default [] (ri_instances idx !! name) with r :: _ => ir_HostID r | [] => "" end
      | None => ""
      end
  end%string.

(** The canonical key of a cell id as an operator writes it. *)
Definition cell_key (cellID : string) : string :=
  match ParseCellID (str cellID) with Some c => of_runes (MeshID c) | None => cellID end.

Definition localTarget : Target := mkTarget RouteLocal (txt "local").
Definition one (k : RouteKind) (hostID : string) : result RouteError (list Target) :=
  if bool_decide (hostID = ""%string) then Err ErrRouteNoOwner else Ok [mkTarget k (txt hostID)].

Definition Resolve (p : Process) (route : RouteKind) (args : option A) (service : string)
  : result RouteError (list Target) :=
  match route with
  | RouteLocal | RouteCoordinator => Ok [localTarget]
  | RouteAllHosts =>
      match LiveHostIDs p with
      | [] => Ok [localTarget]
      | ids => Ok (map (fun id => mkTarget RouteAllHosts (txt id)) ids)
      end
  | RouteAllGateways =>
      match LiveGatewayIDs p with
      | [] => Err ErrRouteNoOwner
      | ids => Ok (map (fun id => mkTarget RouteAllGateways (txt id)) ids)
      end
  | RoutePlayerOwner =>
      let username := extractStringField args "Username" in
      if bool_decide (username = ""%string) then Err ErrRouteMissingField
      else one RoutePlayerOwner (ActiveUserHost (coord p) username)
  | RouteEntityOwner => one RouteEntityOwner (EntityHostForNetID p (extractUint32Field args "NetID"))
  | RouteSpecificHost =>
      let hostID := extractStringField args "HostID" in
      if bool_decide (hostID = ""%string) then Err ErrRouteMissingField
      else Ok [mkTarget RouteSpecificHost (txt hostID)]
  | RoutePlayerHomeOrOwner =>
      let username := extractStringField args "Username" in
      if bool_decide (username = ""%string) then Err ErrRouteMissingField
      else
        let owner := ActiveUserHost (coord p) username in
        if bool_decide (owner = ""%string) then one RoutePlayerHomeOrOwner (PickDBHost p)
        else Ok [mkTarget RoutePlayerHomeOrOwner (txt owner)]
  | RouteSpecificCell =>
      let cellID := extractStringField args "CellID" in
      if bool_decide (cellID = ""%string) then Err ErrRouteMissingField
      else one RouteSpecificCell (HostForCellID p (cell_key cellID))
  | RouteService =>
      if bool_decide (service = ""%string) then Err ErrRouteMissingField
      else
        let hostID := HostForServiceKind p service in
        if bool_decide (hostID = ""%string) then Err (ErrNoService service)
        else Ok [mkTarget RouteSpecificHost (txt hostID)]
  end.
End Resolver.

(** * Properties *)

(** ** The order of names *)

#[local] Instance str_le_total : Total str_le.
Proof. intros a b. apply String.leb_total. Qed.

#[local] Instance str_le_trans : Transitive str_le.
Proof.
  unfold str_le, String.leb. intros a. induction a as [|x a IH]; intros [|y b] [|z c]; simpl; try done.
  unfold Ascii.compare.
  destruct (N.compare_spec (Ascii.N_of_ascii x) (Ascii.N_of_ascii y)) as [Exy|Lxy|Gxy]; [..|done];
    destruct (N.compare_spec (Ascii.N_of_ascii y) (Ascii.N_of_ascii z)) as [Eyz|Lyz|Gyz]; try done; intros H1 H2.
  - rewrite Exy, Eyz, N.compare_refl. by apply (IH b c).
  - rewrite Exy, (proj2 (N.compare_lt_iff _ _)) by done. done.
  - rewrite <- Eyz, (proj2 (N.compare_lt_iff _ _)) by done. done.
  - rewrite (proj2 (N.compare_lt_iff _ _)) by (by etransitivity). done.
Qed.

Lemma sort_strings_head l x l' : sort_strings l = x :: l' -> x ∈ l /\ forall y, y ∈ l -> str_le x y.
Proof.
  intros E. pose proof (merge_sort_Permutation str_le l) as Hp. fold (sort_strings l) in Hp. rewrite E in Hp.
  pose proof (StronglySorted_merge_sort str_le l) as Hs. fold (sort_strings l) in Hs. rewrite E in Hs.
  apply StronglySorted_inv in Hs as [_ Hall]. rewrite Forall_forall in Hall.
  split; [rewrite <- Hp; left|]. intros y. rewrite <- Hp. intros [->|Hy]%elem_of_cons; [|by apply Hall].
  by destruct (str_le_total x x).
Qed.

Lemma str_of_runes r : Forall (fun z => 0 <= z < 256) r -> str (of_runes r) = r.
Proof.
  intros H. unfold str, of_runes. rewrite String.list_ascii_of_string_of_list_ascii, map_map.
  induction H as [|z r Hz _ IH]; [done|]. simpl. rewrite IH, Ascii.N_ascii_embedding by lia.
  f_equal. lia.
Qed.

Lemma byte_runes_fmt n : Forall (fun z => 0 <= z < 256) (fmt_d n).
Proof.
  assert (forall f k, Forall (fun z => 0 <= z < 256) (digits f k)) as H.
  { intros f. induction f as [|f IH]; intros k; simpl; [constructor|].
    apply Forall_app. split; [by case_match|]. pose proof (Z.mod_pos_bound k 10). repeat constructor; lia. }
  unfold fmt_d. case_match; [constructor; [lia|apply H]|apply H].
Qed.

Lemma byte_runes_str t : Forall (fun z => 0 <= z < 256) (str t).
Proof.
  unfold str. apply Forall_forall. intros z [a [-> _]]%list_elem_of_fmap.
  pose proof (Ascii.N_ascii_bounded a). lia.
Qed.

Lemma byte_runes_cell c : Forall (fun z => 0 <= z < 256) (MeshID c) /\ Forall (fun z => 0 <= z < 256) (String_ c).
Proof. unfold MeshID, String_. split; case_match; repeat (apply Forall_app; split); auto using byte_runes_fmt, byte_runes_str. Qed.

Lemma cell_key_spellings c : valid_cell c ->
  cell_key (of_runes (MeshID c)) = of_runes (MeshID c) /\ cell_key (of_runes (String_ c)) = of_runes (MeshID c).
Proof.
  intros Hv. destruct (byte_runes_cell c) as [Hm Hs]. destruct (cell_id_roundtrip c Hv) as [Em Es].
  unfold cell_key. rewrite !str_of_runes by done. by rewrite Em, Es.
Qed.

Lemma elem_LiveHosts r order h : order_of r order -> h ∈ LiveHosts order r <-> exists k, r !! k = Some h.
Proof.
  intros [_ Ho]. unfold LiveHosts. rewrite list_elem_of_omap. split; [intros (k & _ & Hk); eauto|].
  intros [k Hk]. exists k. split; [apply Ho; eauto|done].
Qed.

Lemma PickDBHost_least p : order_of (hosts (coord p)) (horder (env p)) -> hasHostRegistry p = true ->
  (PickDBHost p = ""%string /\ forall k h, hosts (coord p) !! k = Some h -> db_candidate h = false) \/
  (exists k h, hosts (coord p) !! k = Some h /\ db_candidate h = true /\ PickDBHost p = HostRegistry.ID h) /\
  (forall k h, hosts (coord p) !! k = Some h -> db_candidate h = true -> str_le (PickDBHost p) (HostRegistry.ID h)).
Proof.
  intros Ho Hr. unfold PickDBHost. rewrite Hr.
  set (l := List.filter db_candidate (LiveHosts (horder (env p)) (hosts (coord p)))).
  assert (forall h, h ∈ l <-> (exists k, hosts (coord p) !! k = Some h) /\ db_candidate h = true) as Hl.
  { intros h. unfold l. rewrite list_elem_of_In, filter_In, <- list_elem_of_In, elem_LiveHosts by done. done. }
  destruct (sort_strings (map HostRegistry.ID l)) as [|x l'] eqn:E.
  - left. split; [done|]. intros k h Hk. apply not_true_is_false. intros Hc.
    pose proof (merge_sort_Permutation str_le (map HostRegistry.ID l)) as Hp. fold (sort_strings (map HostRegistry.ID l)) in Hp.
    rewrite E in Hp. apply Permutation_nil, map_eq_nil in Hp.
    assert (h ∈ l) as Hin by (apply Hl; eauto). rewrite Hp in Hin. by apply elem_of_nil in Hin.
  - right. apply sort_strings_head in E as [Hx Hmin]. split.
    + apply list_elem_of_fmap in Hx as (h & -> & [[k Hk] Hc]%Hl). eauto.
    + intros k h Hk Hc. apply Hmin. apply list_elem_of_fmap. exists h. split; [done|]. apply Hl. eauto.
Qed.

(** A command goes where it says.  A fan-out to the hosts reaches exactly the
    registered hosts that run cells, once the coordinator has any; a command about a player
    who is not online goes to the least host with a player database, whatever the order in
    which the registry is walked; a command about a cell goes to the cell's owner, in
    whichever of the two spellings the cell is written; and every route but the two
    fan-outs has exactly one target, with a name. *)
Theorem route_targets_exact {A} (field : A -> string -> option fieldval) (p : Process) (args : option A)
    (service : string) (Horder : order_of (hosts (coord p)) (horder (env p))) (Hreg : hasHostRegistry p = true) :
  (forall ts, Resolve field p RouteAllHosts args service = Ok ts ->
     (ts = [localTarget] /\ forall k h, hosts (coord p) !! k = Some h -> ServiceOnly h = true) \/
     (forall t, t ∈ ts <-> exists k h, hosts (coord p) !! k = Some h /\ ServiceOnly h = false /\
        t = mkTarget RouteAllHosts (txt (HostRegistry.ID h)))) /\
  ((PickDBHost p = ""%string /\ forall k h, hosts (coord p) !! k = Some h -> db_candidate h = false) \/
   (exists k h, hosts (coord p) !! k = Some h /\ db_candidate h = true /\ PickDBHost p = HostRegistry.ID h) /\
   (forall k h, hosts (coord p) !! k = Some h -> db_candidate h = true -> str_le (PickDBHost p) (HostRegistry.ID h))) /\
  (forall c written, valid_cell c -> written = of_runes (MeshID c) \/ written = of_runes (String_ c) ->
     extractStringField field args "CellID" = written -> written <> ""%string ->
     Resolve field p RouteSpecificCell args service = one RouteSpecificCell (HostForCellID p (of_runes (MeshID c)))) /\
  (forall route ts, route <> RouteAllHosts -> route <> RouteAllGateways -> Resolve field p route args service = Ok ts ->
     exists t, ts = [t] /\ t_ID t <> []).
Proof.
  split_and!.
  - intros ts. simpl. unfold LiveHostIDs. rewrite Hreg.
    set (l := cellBearingHosts (horder (env p)) (hosts (coord p))).
    assert (forall h, h ∈ l <-> (exists k, hosts (coord p) !! k = Some h) /\ ServiceOnly h = false) as Hl.
    { intros h. unfold l, cellBearingHosts. rewrite list_elem_of_filter, elem_LiveHosts by done. tauto. }
    destruct l as [|h0 l]; simpl; intros [= <-].
    + left. split; [done|]. intros k h Hk. destruct (ServiceOnly h) eqn:Es; [done|].
      assert (h ∈ []) as []%elem_of_nil by (apply Hl; eauto).
    + right. intros t. change (mkTarget RouteAllHosts (txt (HostRegistry.ID h0)) :: _)
        with (map (fun id => mkTarget RouteAllHosts (txt id)) (map HostRegistry.ID (h0 :: l))).
      rewrite map_map, list_elem_of_fmap. setoid_rewrite Hl. naive_solver.
  - by apply PickDBHost_least.
  - intros c w Hv Hw Hf Hne. simpl. rewrite Hf, bool_decide_false by done. f_equal. f_equal.
    destruct (cell_key_spellings c Hv). by destruct Hw as [->| ->].
  - assert (forall k h ts, one k h = Ok ts -> exists t, ts = [t] /\ t_ID t <> []) as Hone.
    { intros k h ts. unfold one. case_bool_decide; [done|]. intros [= <-]. eexists. split; [done|]. by destruct h. }
    assert (forall k h, h <> ""%string -> exists t, [mkTarget k (txt h)] = [t] /\ t_ID t <> []) as Hsome.
    { intros k h Hh. eexists. split; [done|]. by destruct h. }
    intros route ts H1 H2. destruct route; simpl; try done; repeat case_bool_decide; try done; eauto;
      intros [= <-]; eauto; by eexists.
Qed.

(** ** Witness *)

(** Two hosts, of which the second has the player database and the first owns a cell, and
    a service host. *)
Definition demo_hosts : gmap string RemoteHost :=
  (<["h1" := mkRemoteHost "h1" "" 0 0 RemoteHostLive {["cell_0_1"]} false false false]>
  (<["h2" := mkRemoteHost "h2" "" 0 0 RemoteHostRegistered ∅ false true false]>
  (<["svc" := mkRemoteHost "svc" "" 0 0 RemoteHostLive ∅ false true true]> ∅)))%string.
Definition demo_process : Process := mkProcess
  (mkCoord demo_hosts ∅ ∅ ∅ ∅ 0 NewCoordRegistry ∅ newSessionRoutes ∅ ∅ ∅ ∅ ∅ (NewNetIDAllocator 1 100) 0 false false 0 [])
  (mkEnv 0 (fun _ => true) ["svc"; "h2"; "h1"]%string (fun _ => ["h1"; "h2"; "svc"]%string) [] [] [] [] (fun s => elements s))
  true true true [] None.

Lemma route_targets_exact_witness :
  let field (a : unit) (n : string) := Some (FString "0_1") in
  PickDBHost demo_process = "h2"%string /\
  Resolve field demo_process RouteSpecificCell (Some tt) "" = Ok [mkTarget RouteSpecificCell (txt "h1")].
Proof.
  intros field. split; [reflexivity|].
  assert (order_of demo_hosts ["svc"; "h2"; "h1"]%string) as Ho.
  { split; [apply (bool_decide_unpack _); vm_compute; exact I|]. intros k. unfold demo_hosts.
    rewrite !lookup_insert_is_Some', lookup_empty, is_Some_alt. set_solver. }
  destruct (route_targets_exact field demo_process (Some tt) "" Ho eq_refl) as (_ & _ & H & _).
  rewrite (H (mkCellID 0 1 0) "0_1"%string).
  - reflexivity.
  - unfold valid_cell, in_i32, in_u8. simpl. lia.
  - right. reflexivity.
  - reflexivity.
  - discriminate.
Defined.
