(* ===== verification/FloatOrder.v ===== *)
(** * Addition and order of floating-point numbers

    Facts about the Standard Library's executable floats that [Float32] computes with, at
    any precision: rounding to nearest is monotone, so adding a number that is not negative
    never makes a number smaller; and the finite numbers can be ranked by integers. *)

From S2P Require Import Prelude Float32.

Section FloatOrder.
Context (prec emax : Z) (Hprec : 1 < prec) (Hemax : prec < emax).

Local Notation emin := (SpecFloat.emin prec emax).
Local Notation fexp := (SpecFloat.fexp prec emax).

(** ** Digits *)

Lemma digits2_bounds m : 2 ^ (Z.pos (digits2_pos m) - 1) <= Z.pos m < 2 ^ Z.pos (digits2_pos m).
Proof.
  induction m as [m IH|m IH|]; simpl digits2_pos; rewrite ?Pos2Z.inj_succ; [..|done].
  all: replace (Z.succ (Z.pos (digits2_pos m)) - 1) with (Z.succ (Z.pos (digits2_pos m) - 1)) by lia;
    rewrite !Z.pow_succ_r by lia; lia.
Qed.

Lemma digits2_unique m d : 0 < d -> 2 ^ (d - 1) <= Z.pos m < 2 ^ d -> Z.pos (digits2_pos m) = d.
Proof.
  intros Hd Hm. pose proof (digits2_bounds m) as Hb.
  assert (~ Z.pos (digits2_pos m) < d).
  { intros H. assert (2 ^ Z.pos (digits2_pos m) <= 2 ^ (d - 1)) by (apply Z.pow_le_mono_r; lia). lia. }
  assert (~ d < Z.pos (digits2_pos m)).
  { intros H'. assert (2 ^ d <= 2 ^ (Z.pos (digits2_pos m) - 1)) by (apply Z.pow_le_mono_r; lia). lia. }
  lia.
Qed.

(** ** Values, in units of the least positive number *)

Definition v (m e : Z) : Z := m * 2 ^ (e - emin).

Lemma v_shift m e k : 0 <= k -> emin <= e -> v m (e + k) = v (m * 2 ^ k) e.
Proof.
  intros. unfold v. replace (e + k - emin) with (k + (e - emin)) by lia.
  rewrite Z.pow_add_r by lia. lia.
Qed.

Lemma v_mono m m' e : emin <= e -> m <= m' <-> v m e <= v m' e.
Proof. intros. unfold v. assert (0 < 2 ^ (e - emin)) by (apply Z.pow_pos_nonneg; lia). nia. Qed.

(** The canonical pairs: a full mantissa, or the least exponent. *)
Definition canonical (m e : Z) : Prop :=
  0 < m < 2 ^ prec /\ emin <= e /\ (e = emin \/ 2 ^ (prec - 1) <= m).

Lemma canonical_mantissa_spec m e : canonical_mantissa prec emax m e = true <-> canonical (Z.pos m) e.
Proof.
  unfold canonical_mantissa, canonical, SpecFloat.fexp. rewrite Z.eqb_eq.
  pose proof (digits2_bounds m) as Hb. set (d := Z.pos (digits2_pos m)) in *. split.
  - intros H. assert (d <= prec) by lia. split_and!; [lia| |lia|].
    + assert (2 ^ d <= 2 ^ prec) by (apply Z.pow_le_mono_r; lia). lia.
    + destruct (decide (e = emin)) as [|Hne]; [by left|right]. assert (d = prec) as <- by lia. lia.
  - intros ([_ Hm] & He & Hc). destruct Hc as [->|Hc].
    + assert (~ prec < d).
      { intros H. assert (2 ^ prec <= 2 ^ (d - 1)) by (apply Z.pow_le_mono_r; lia). lia. }
      lia.
    + assert (d = prec) by (apply digits2_unique; lia). lia.
Qed.

(** Canonical pairs are ordered by exponent, then mantissa, as their values. *)
Lemma canonical_order m1 e1 m2 e2 : canonical m1 e1 -> canonical m2 e2 ->
  v m1 e1 <= v m2 e2 <-> e1 < e2 \/ (e1 = e2 /\ m1 <= m2).
Proof.
  intros (H1 & E1 & C1) (H2 & E2 & C2).
  assert (forall m e m' e', canonical m e -> canonical m' e' -> e < e' -> v m e < v m' e') as Hlt.
  { intros m e m' e' ([_ Hm] & He & _) (Hm' & He' & [->|Hc']) Hlt; [lia|].
    apply Z.lt_le_trans with (v (2 ^ prec) e).
    - unfold v. apply Z.mul_lt_mono_pos_r; [apply Z.pow_pos_nonneg; lia|done].
    - replace e' with (e + (e' - e)) by lia. rewrite v_shift by lia. apply v_mono; [done|].
      replace prec with (prec - 1 + 1) at 1 by lia. rewrite Z.pow_add_r by lia.
      assert (2 ^ 1 <= 2 ^ (e' - e)) by (apply Z.pow_le_mono_r; lia).
      assert (0 < 2 ^ (prec - 1)) by (apply Z.pow_pos_nonneg; lia). nia. }
  destruct (Z.lt_trichotomy e1 e2) as [H|[->|H]].
  - split; [by left|]. intros _. apply Z.lt_le_incl, Hlt; by unfold canonical.
  - rewrite <- v_mono by done. lia.
  - split; [|lia]. intros Hv. assert (v m2 e2 < v m1 e1) by (by apply Hlt; unfold canonical). lia.
Qed.

(** ** Rounding *)

(** What the shift record holds of [m] after [j] one-bit shifts. *)
Definition shifted (m j : Z) (r : shr_record) : Prop :=
  shr_m r = m / 2 ^ j /\ (shr_r r || shr_s r = true -> m mod 2 ^ j <> 0).

Lemma shr_1_shifted m j r : 0 <= m -> 0 <= j -> shifted m j r -> shifted m (j + 1) (shr_1 r).
Proof.
  intros Hm Hj [Eq Er]. unfold shifted.
  assert (0 < 2 ^ j) as Hp by (apply Z.pow_pos_nonneg; lia).
  assert (0 <= shr_m r) as Hq by (rewrite Eq; apply Z.div_pos; lia).
  assert (m / 2 ^ (j + 1) = shr_m r / 2) as ->.
  { rewrite Eq, Z.pow_add_r, Z.div_div by lia. done. }
  assert (m mod 2 ^ (j + 1) = m mod 2 ^ j + 2 ^ j * (shr_m r mod 2)) as ->.
  { rewrite Z.pow_add_r, Z.rem_mul_r by lia. by rewrite Eq. }
  pose proof (Z.mod_pos_bound m (2 ^ j) Hp).
  destruct r as [[|[q|q|]|q] r s]; simpl in *; try lia.
  - split; [done|]. intros Hs. rewrite Z.mul_0_r, Z.add_0_r. by apply Er.
  - split; [apply (Z.div_unique _ _ _ 1); lia|]. intros _.
    replace (Z.pos q~1 mod 2) with 1 by (apply (Z.mod_unique _ _ (Z.pos q)); lia). lia.
  - split; [apply (Z.div_unique _ _ _ 0); lia|]. intros Hs.
    replace (Z.pos q~0 mod 2) with 0 by (apply (Z.mod_unique _ _ (Z.pos q)); lia).
    rewrite Z.mul_0_r, Z.add_0_r. by apply Er.
  - split; [done|]. intros _. change (1 mod 2) with 1. lia.
Qed.

Lemma iter_shifted m p : forall j r, 0 <= m -> 0 <= j -> shifted m j r ->
  shifted m (j + Z.pos p) (iter_pos shr_1 p r).
Proof.
  induction p as [p IH|p IH|]; intros j r Hm Hj H; cbn [iter_pos].
  - replace (j + Z.pos p~1) with (j + 1 + Z.pos p + Z.pos p) by lia.
    apply IH; [done|lia|]. apply IH; [done|lia|]. by apply shr_1_shifted.
  - replace (j + Z.pos p~0) with (j + Z.pos p + Z.pos p) by lia. apply IH; [done|lia|]. by apply IH.
  - by apply shr_1_shifted.
Qed.

(** Rounding a mantissa that was shifted by [k]. *)
Lemma round_shifted m k : 0 <= m -> 0 < k ->
  let r := iter_pos shr_1 (Z.to_pos k) (Build_shr_record m false false) in
  let m1 := round_nearest_even (shr_m r) (loc_of_shr_record r) in
  m1 = m / 2 ^ k \/ (m1 = m / 2 ^ k + 1 /\ m mod 2 ^ k <> 0).
Proof.
  intros Hm Hk r. assert (shifted m k r) as [Eq Er].
  { replace k with (0 + Z.pos (Z.to_pos k)) by lia. apply iter_shifted; [done|done|].
    split; [simpl; by rewrite Z.div_1_r|done]. }
  destruct r as [q [] []]; simpl in *; subst q; auto.
  destruct (Z.even _); auto.
Qed.

Lemma shr_fexp_id m e : 0 <= m -> fexp (Zdigits2 m + e) <= e ->
  shr_fexp prec emax m e loc_Exact = (Build_shr_record m false false, e).
Proof. intros Hm H. unfold shr_fexp, shr. simpl. by destruct (fexp _ - e) eqn:E; [|lia|]. Qed.

Lemma shr_fexp_pos m e k : 0 < k -> fexp (Zdigits2 m + e) = e + k ->
  shr_fexp prec emax m e loc_Exact = (iter_pos shr_1 (Z.to_pos k) (Build_shr_record m false false), e + k).
Proof.
  intros Hk H. unfold shr_fexp, shr. rewrite H. replace (e + k - e) with k by lia. simpl.
  by destruct k.
Qed.

(** A float that is not negative, in canonical form or infinite. *)
Definition good (x : spec_float) : Prop :=
  match x with
  | S754_zero s | S754_infinity s => s = false
  | S754_finite s m e => s = false /\ canonical (Z.pos m) e /\ e <= emax - prec
  | S754_nan => False
  end.

(** [x] is the value [m * 2 ^ e], or the infinity it overflows to. *)
Definition is_value (x : spec_float) (m e : Z) : Prop :=
  x = S754_infinity false \/ exists p f, x = S754_finite false p f /\ v (Z.pos p) f = v m e.

(** The end of [binary_round_aux], on a mantissa of at most [prec] bits, or the next. *)
Lemma round_finish m e : emin <= e -> 0 < m <= 2 ^ prec -> (e = emin \/ 2 ^ (prec - 1) <= m) ->
  let '(r, e2) := shr_fexp prec emax m e loc_Exact in
  exists p, shr_m r = Z.pos p /\ canonical (Z.pos p) e2 /\ v (Z.pos p) e2 = v m e.
Proof.
  intros He [Hm Hle] Hc. destruct m as [|m|]; [lia| |lia].
  destruct (decide (Z.pos m = 2 ^ prec)) as [E|Hne].
  - assert (Zdigits2 (Z.pos m) = prec + 1) as Ed.
    { simpl. apply digits2_unique; [lia|]. rewrite E, Z.add_simpl_r. split; [lia|apply Z.pow_lt_mono_r; lia]. }
    rewrite (shr_fexp_pos (Z.pos m) e 1); [|lia|rewrite Ed; unfold SpecFloat.fexp; lia].
    change (iter_pos shr_1 (Z.to_pos 1) ?r) with (shr_1 r).
    assert (Z.pos m = 2 * 2 ^ (prec - 1)) as E2.
    { rewrite E. replace prec with (1 + (prec - 1)) at 1 by lia. by rewrite Z.pow_add_r by lia. }
    assert (0 < 2 ^ (prec - 1)) as Hp by (apply Z.pow_pos_nonneg; lia).
    assert (2 ^ (prec - 1) < 2 ^ prec) by (apply Z.pow_lt_mono_r; lia).
    destruct m as [m|m|]; [lia| |lia]. exists m. simpl. assert (Z.pos m = 2 ^ (prec - 1)) as Em by lia.
    split; [done|]. split; [rewrite Em; unfold canonical; split_and!; lia|].
    rewrite v_shift by lia. f_equal. lia.
  - assert (canonical (Z.pos m) e) as Hcan by (unfold canonical; split_and!; lia || done).
    rewrite shr_fexp_id; [|lia|].
    + exists m. simpl. split; [done|]. by split.
    + apply canonical_mantissa_spec in Hcan. unfold canonical_mantissa in Hcan. apply Z.eqb_eq in Hcan. simpl. lia.
Qed.

(** A canonical pair that is a nearest one to [m * 2 ^ e]: on the same side of every other. *)
Definition rounds_to (m e p f : Z) : Prop :=
  canonical p f /\
  forall mc ec, canonical mc ec ->
    (v mc ec <= v m e -> v mc ec <= v p f) /\ (v m e <= v mc ec -> v p f <= v mc ec).

Lemma rounds_to_value m e p f : canonical p f -> v p f = v m e -> rounds_to m e p f.
Proof. intros Hc Hv. split; [done|]. rewrite Hv. done. Qed.

(** A quotient of full length, or the next: no canonical pair is between it and [m]. *)
Lemma quotient_between m e k mc ec m1 : emin <= e -> 0 < k -> canonical mc ec -> 0 <= m ->
  2 ^ (prec - 1) <= m / 2 ^ k -> m1 = m / 2 ^ k \/ (m1 = m / 2 ^ k + 1 /\ m mod 2 ^ k <> 0) ->
  (v mc ec <= v m e -> v mc ec <= v m1 (e + k)) /\ (v m e <= v mc ec -> v m1 (e + k) <= v mc ec).
Proof.
  intros He Hk ([Hmc Hmc'] & Hec & _) Hm Hq Hm1.
  assert (0 < 2 ^ k) as Hp by (apply Z.pow_pos_nonneg; lia).
  pose proof (Z.div_mod m (2 ^ k) ltac:(lia)) as Hdm. pose proof (Z.mod_pos_bound m (2 ^ k) Hp) as Hmod.
  destruct (Z.lt_ge_cases ec (e + k)) as [Hlt|Hge].
  - assert (v mc ec < v (m / 2 ^ k) (e + k)) as Hsmall.
    { apply Z.lt_le_trans with (v (2 ^ prec) ec).
      - unfold v. apply Z.mul_lt_mono_pos_r; [apply Z.pow_pos_nonneg; lia|done].
      - replace (e + k) with (ec + (e + k - ec)) by lia. rewrite v_shift by lia. apply v_mono; [done|].
        replace prec with (prec - 1 + 1) at 1 by lia. rewrite Z.pow_add_r by lia.
        assert (2 ^ 1 <= 2 ^ (e + k - ec)) by (apply Z.pow_le_mono_r; lia). 
        assert (0 < 2 ^ (prec - 1)) by (apply Z.pow_pos_nonneg; lia). nia. }
    assert (v (m / 2 ^ k) (e + k) <= v m e) by (rewrite v_shift by lia; apply v_mono; lia).
    assert (v (m / 2 ^ k) (e + k) <= v m1 (e + k)) by (apply v_mono; lia). lia.
  - replace ec with (e + k + (ec - (e + k))) by lia. rewrite (v_shift mc) by lia.
    set (c := mc * 2 ^ (ec - (e + k))). rewrite !(v_shift _ e k), <- !v_mono by lia.
    split; intros H; apply Z.mul_le_mono_nonneg_r; try lia.
    + assert (c < m / 2 ^ k + 1) by (apply (Z.mul_lt_mono_pos_r (2 ^ k)); lia). lia.
    + destruct Hm1 as [->|[-> Hr]]; [apply (Z.mul_le_mono_pos_r _ _ (2 ^ k)); lia|].
      assert (m / 2 ^ k < c) by (apply (Z.mul_lt_mono_pos_r (2 ^ k)); lia). lia.
Qed.

Lemma binary_round_aux_spec m e : 0 < m -> emin <= e -> e <= fexp (Zdigits2 m + e) ->
  exists p f, rounds_to m e (Z.pos p) f /\
    binary_round_aux prec emax false m e loc_Exact =
      if f <=? emax - prec then S754_finite false p f else S754_infinity false.
Proof.
  intros Hm He Hf. unfold binary_round_aux.
  destruct m as [|m|]; [lia| |lia]. pose proof (digits2_bounds m) as Hd. simpl in Hf. set (d := Z.pos (digits2_pos m)) in *.
  destruct (Z.eq_dec (fexp (d + e)) e) as [E|E].
  - assert (canonical (Z.pos m) e) as Hc by (apply canonical_mantissa_spec, Z.eqb_eq, E).
    rewrite (shr_fexp_id (Z.pos m) e); [|lia|unfold Zdigits2; fold d; lia]. cbn [shr_m loc_of_shr_record round_nearest_even].
    destruct Hc as (Hc1 & Hc2 & Hc3). pose proof (round_finish (Z.pos m) e He) as Hfin.
    destruct (shr_fexp _ _ _ _ _) as [r e2]. destruct Hfin as (p & -> & Hcan & Hv); [lia|done|].
    exists p, e2. split; [by apply rounds_to_value|done].
  - set (k := fexp (d + e) - e). assert (0 < k) as Hk by lia.
    assert (k = d - prec) as Ek by (unfold k, SpecFloat.fexp in *; lia).
    rewrite (shr_fexp_pos (Z.pos m) e k); [|done|unfold Zdigits2; fold d; lia].
    pose proof (round_shifted (Z.pos m) k (Pos2Z.is_nonneg m) Hk) as Hr. cbv zeta in Hr.
    set (m1 := round_nearest_even _ _) in *.
    assert (2 ^ (prec - 1) <= Z.pos m / 2 ^ k < 2 ^ prec) as [Hq1 Hq2].
    { assert (0 < 2 ^ k) by (apply Z.pow_pos_nonneg; lia). split.
      - apply Z.div_le_lower_bound; [done|]. rewrite <- Z.pow_add_r by lia. replace (k + (prec - 1)) with (d - 1) by lia. lia.
      - apply Z.div_lt_upper_bound; [done|]. rewrite <- Z.pow_add_r by lia. replace (k + prec) with d by lia. lia. }
    assert (0 < 2 ^ (prec - 1)) by (apply Z.pow_pos_nonneg; lia).
    pose proof (round_finish m1 (e + k)) as Hfin.
    destruct (shr_fexp _ _ m1 _ _) as [r e2]. destruct Hfin as (p & -> & Hcan & Hv); [lia|lia|lia|].
    exists p, e2. split; [|done]. split; [done|]. intros mc ec Hc. rewrite Hv.
    apply quotient_between; auto with lia.
Qed.

Lemma binary_round_spec m e : emin <= e ->
  exists p f, rounds_to (Z.pos m) e (Z.pos p) f /\
    binary_round prec emax false m e = if f <=? emax - prec then S754_finite false p f else S754_infinity false.
Proof.
  intros He. unfold binary_round, shl_align. set (d := Z.pos (digits2_pos m)).
  destruct (fexp (d + e) - e) as [|k|k] eqn:Ek;
    try (apply binary_round_aux_spec; [lia|done|simpl; fold d; lia]).
  assert (Z.pos (Pos.iter xO m k) = Z.pos m * 2 ^ Z.pos k) as Em.
  { change (Pos.iter xO m k) with (shift_pos k m). rewrite shift_pos_correct. lia. }
  rewrite Em. set (m' := Z.pos m * 2 ^ Z.pos k) in *. set (e' := fexp (d + e)) in *.
  assert (e = e' + Z.pos k) as Ee by lia.
  assert (emin <= e') as He' by (unfold e', SpecFloat.fexp; lia).
  assert (Zdigits2 m' = d + Z.pos k) as Ed.
  { rewrite <- Em. simpl. apply digits2_unique; [lia|]. rewrite Em. unfold m'.
    pose proof (digits2_bounds m) as Hd. fold d in Hd. split.
    - replace (d + Z.pos k - 1) with (d - 1 + Z.pos k) by lia. rewrite Z.pow_add_r by lia. nia.
    - rewrite Z.pow_add_r by lia. assert (0 < 2 ^ Z.pos k) by (apply Z.pow_pos_nonneg; lia). nia. }
  destruct (binary_round_aux_spec m' e') as (p & f & [Hc Hr] & ->); [lia|done| |].
  - rewrite Ed. replace (d + Z.pos k + e') with (d + e) by lia. unfold e'. lia.
  - exists p, f. split; [|done]. split; [done|]. intros mc ec Hmc. rewrite Ee, v_shift by lia. by apply Hr.
Qed.

(** ** Values of good floats; [None] is the infinity *)

Definition val (x : spec_float) : option Z :=
  match x with
  | S754_finite _ m e => Some (v (Z.pos m) e)
  | S754_infinity _ => None
  | _ => Some 0
  end.
Definition vle (a b : option Z) : Prop :=
  match a, b with _, None => True | None, Some _ => False | Some a, Some b => a <= b end.
Definition vadd (a b : option Z) : option Z :=
  match a, b with Some a, Some b => Some (a + b) | _, _ => None end.

Lemma v_pos m e : emin <= e -> 0 < v (Z.pos m) e.
Proof. intros. unfold v. assert (0 < 2 ^ (e - emin)) by (apply Z.pow_pos_nonneg; lia). nia. Qed.

Lemma good_lt x y : good x -> good y -> SFltb x y = true <-> ~ vle (val y) (val x).
Proof.
  destruct x as [s|s| |s m e], y as [s'|s'| |s' m' e']; simpl; try (intros; contradiction).
  - intros -> ->. unfold SFltb. simpl. lia.
  - intros -> ->. unfold SFltb. simpl. split; intros; (done || tauto).
  - intros -> (-> & (_ & H & _) & _). unfold SFltb. simpl. pose proof (v_pos m' e' H). split; [lia|done].
  - intros -> ->. unfold SFltb. simpl. split; intros; (done || tauto).
  - intros -> ->. unfold SFltb. simpl. split; intros; (done || tauto).
  - intros -> (-> & _). unfold SFltb. simpl. split; intros; (done || tauto).
  - intros (-> & (_ & H & _) & _) ->. unfold SFltb. simpl. pose proof (v_pos m e H). split; [done|lia].
  - intros (-> & _) ->. unfold SFltb. simpl. split; intros; (done || tauto).
  - intros (-> & Hc & _) (-> & Hc' & _). unfold SFltb. simpl. rewrite (canonical_order _ _ _ _ Hc' Hc).
    change (Pos.compare_cont Eq m m') with (Pos.compare m m').
    destruct (Z.compare_spec e e'); [|split; [lia|done]|split; [done|lia]].
    destruct (Pos.compare_spec m m'); split; try done; lia.
Qed.

(** The sum of two good floats is good, and nearest: on the same side of every good float
    as the exact sum. *)
Lemma finite_add mx ex my ey :
  emin <= ex -> emin <= ey ->
  exists m, v (Z.pos m) (Z.min ex ey) = v (Z.pos mx) ex + v (Z.pos my) ey /\
    SFadd prec emax (S754_finite false mx ex) (S754_finite false my ey) = binary_round prec emax false m (Z.min ex ey).
Proof.
  intros Hx Hy. simpl. set (ez := Z.min ex ey).
  assert (forall mm ee, ez <= ee -> emin <= ez -> v (Z.pos (fst (shl_align mm ee ez))) ez = v (Z.pos mm) ee) as Hal.
  { intros mm ee Hle Hz. unfold shl_align. destruct (ez - ee) as [|k|k] eqn:Ek; [by replace ez with ee by lia|lia|].
    cbn [fst]. change (Pos.iter xO mm k) with (shift_pos k mm). rewrite shift_pos_correct.
    replace ee with (ez + Z.pos k) by lia. rewrite v_shift by lia. f_equal. lia. }
  eexists. split; [|reflexivity]. rewrite Pos2Z.inj_add. rewrite <- (Hal mx ex), <- (Hal my ey) by lia.
  unfold v. lia.
Qed.

Theorem add_nearest x y : good x -> good y ->
  good (SFadd prec emax x y) /\
  forall z, good z ->
    (vle (val z) (vadd (val x) (val y)) -> vle (val z) (val (SFadd prec emax x y))) /\
    (vle (vadd (val x) (val y)) (val z) -> vle (val (SFadd prec emax x y)) (val z)).
Proof.
  destruct x as [s|s| |s m e], y as [s'|s'| |s' m' e']; try (simpl; intros; contradiction).
  - simpl. intros -> ->. done.
  - simpl. intros -> ->. done.
  - simpl. intros -> H. split; [done|]. intros z Hz. by rewrite Z.add_0_l.
  - simpl. intros -> ->. done.
  - simpl. intros -> ->. done.
  - simpl. intros -> _. done.
  - simpl. intros H ->. split; [done|]. intros z Hz. by rewrite Z.add_0_r.
  - simpl. intros H ->. done.
  - intros (-> & Hc & _) (-> & Hc' & _).
    destruct (finite_add m e m' e') as (ms & Hv & ->); [apply Hc|apply Hc'|].
    destruct (binary_round_spec ms (Z.min e e')) as (p & f & [Hpf Hr] & ->).
    { destruct Hc as (_ & ? & _), Hc' as (_ & ? & _). lia. }
    rewrite Hv in Hr. simpl vadd.
    destruct (Z.leb_spec f (emax - prec)) as [Hf|Hf]; (split; [by simpl|]); intros z Hz.
    + destruct z as [t|t| |t mz ez]; simpl in *; [|split; intros; (done || tauto)|contradiction|].
      * pose proof (v_pos p f (proj1 (proj2 Hpf))). pose proof (v_pos m e (proj1 (proj2 Hc))).
        pose proof (v_pos m' e' (proj1 (proj2 Hc'))). lia.
      * destruct Hz as (_ & Hz & _). by apply Hr.
    + destruct z as [t|t| |t mz ez]; simpl in *; [|split; intros; (done || tauto)|contradiction|].
      * pose proof (v_pos m e (proj1 (proj2 Hc))). pose proof (v_pos m' e' (proj1 (proj2 Hc'))). lia.
      * split; [done|]. intros Hle. destruct Hz as (_ & Hz & Hez).
        apply (proj2 (Hr _ _ Hz)), (canonical_order _ _ _ _ Hpf Hz) in Hle. lia.
Qed.

Corollary add_grows x y : good x -> good y -> SFltb (SFadd prec emax x y) x = false.
Proof.
  intros Hx Hy. destruct (add_nearest x y Hx Hy) as [Hg Hn]. apply not_true_is_false. rewrite (good_lt _ _ Hg Hx).
  intros H. apply H, (proj1 (Hn x Hx)). assert (match val y with Some b => 0 <= b | None => True end) as H0.
  { destruct y as [| | |t my ey]; simpl in *; try done. destruct Hy as (_ & (_ & He & _) & _). pose proof (v_pos my ey He). lia. }
  destruct (val x), (val y); simpl; try done. lia.
Qed.

(** Ranks: integers that order the good floats, below a bound. *)
Definition rank (x : spec_float) : Z :=
  match val x with Some z => z | None => 2 ^ (emax - emin) end.

Lemma rank_nonneg x : good x -> 0 <= rank x.
Proof.
  unfold rank. destruct x as [s|s| |s m e]; simpl; try done.
  - intros _. apply Z.pow_nonneg. lia.
  - intros (_ & (_ & He & _) & _). pose proof (v_pos m e He). lia.
Qed.

Lemma rank_lt x y : good x -> good y -> SFltb x y = true -> rank x < rank y.
Proof.
  intros Hx Hy H. rewrite (good_lt x y Hx Hy) in H. unfold rank.
  destruct (val x) as [a|] eqn:Ea, (val y) as [b|] eqn:Eb; simpl in *; [lia| |tauto|tauto].
  destruct x as [s|s| |s m e]; simplify_eq/=; [|contradiction|].
  - apply Z.pow_pos_nonneg; [lia|]. unfold SpecFloat.emin. lia.
  - destruct Hx as (_ & ([_ Hm] & He & _) & Hle). unfold v.
    apply Z.lt_le_trans with (2 ^ prec * 2 ^ (e - emin)).
    + apply Z.mul_lt_mono_pos_r; [apply Z.pow_pos_nonneg; lia|done].
    + rewrite <- Z.pow_add_r by lia. apply Z.pow_le_mono_r; lia.
Qed.
End FloatOrder.

(** ** Binary32 *)

Definition good32 : f32 -> Prop := good 24 128.
