(* ===== verification/Pathfinding.v ===== *)
(** * Path finding (pkg/pathfinding)

    The walkability grid (navgrid.go), A* over it (astar.go) with the binary heap of the
    Standard Library's container/heap that it drives, and the smoothing of a path by line
    of sight (smooth.go).  Arrays are lists; an index out of range is a panic.  The loops
    that have no counter, the search and the walk back along the parents, take a fuel.
    A product is rounded before it is added to, as on amd64. *)

From S2P Require Import Prelude Float32 FloatOrder.

Record Vec2 := mkVec2 { vX : f32; vY : f32 }.

Record NavGrid := mkGrid { Origin : Vec2; CellSize : f32; Width : Z; Height : Z; walkable : list bool }.

Definition NewNavGrid (origin : Vec2) (cellSize : f32) (width height : Z) : NavGrid :=
  mkGrid origin cellSize width height (replicate (Z.to_nat (width * height)) true).

Definition f32_half : f32 := S754_finite false (2 ^ 23) (-24).
(** [float32(math.Sqrt2)]. *)
Definition f32_sqrt2 : f32 := S754_finite false 11863283 (-23).
Definition f32_one : f32 := S754_finite false (2 ^ 23) (-23).

Definition CellToWorld (g : NavGrid) (c : Z * Z) : Vec2 :=
  let at_ o z := f32_add o (f32_mul (f32_add (f32_of_int z) f32_half) (CellSize g)) in
  mkVec2 (at_ (vX (Origin g)) c.1) (at_ (vY (Origin g)) c.2).

(** [int(x)]: towards zero; what does not fit gives the least [int], as on amd64. *)
Definition f32_to_int (x : f32) : Z :=
  match x with
  | S754_zero _ => 0
  | S754_finite s m e =>
      let a := if 0 <=? e then Z.pos m * 2 ^ e else Z.pos m / 2 ^ (- e) in
      let z := if s then - a else a in
      if (- 2 ^ 63 <=? z) && (z <? 2 ^ 63) then z else - 2 ^ 63
  | _ => - 2 ^ 63
  end.

Definition WorldToCell (g : NavGrid) (p : Vec2) : Z * Z * bool :=
  let dx := f32_sub (vX p) (vX (Origin g)) in
  let dy := f32_sub (vY p) (vY (Origin g)) in
  if f32_lt dx f32_zero || f32_lt dy f32_zero then (0, 0, false)
  else
    let cx := f32_to_int (f32_div dx (CellSize g)) in
    let cy := f32_to_int (f32_div dy (CellSize g)) in
    if (Width g <=? cx) || (Height g <=? cy) then (0, 0, false) else (cx, cy, true).

Definition outside (g : NavGrid) (c : Z * Z) : bool :=
  (c.1 <? 0) || (c.2 <? 0) || (Width g <=? c.1) || (Height g <=? c.2).
Definition index (g : NavGrid) (c : Z * Z) : Z := c.2 * Width g + c.1.

(** Reading and writing an array; [None] is the panic. *)
Definition get {A} (l : list A) (i : Z) : option A := if i <? 0 then None else l !! Z.to_nat i.
Definition set {A} (l : list A) (i : Z) (x : A) : option (list A) :=
  match get l i with Some _ => Some (<[Z.to_nat i := x]> l) | None => None end.

Definition Walkable (g : NavGrid) (c : Z * Z) : option bool :=
  if outside g c then Some false else get (walkable g) (index g c).

Definition Block (g : NavGrid) (c : Z * Z) : option NavGrid :=
  if outside g c then Some g
  else
    match set (walkable g) (index g c) false with
    | Some w => Some (mkGrid (Origin g) (CellSize g) (Width g) (Height g) w)
    | None => None
    end.

(** ** The heap (container/heap over openHeap) *)

Record openItem := mkItem { it : Z * Z; f : f32 }.

Definition Less (h : list openItem) (i j : nat) : bool :=
  match h !! i, h !! j with Some a, Some b => f32_lt (f a) (f b) | _, _ => false end.
Definition Swap (h : list openItem) (i j : nat) : list openItem :=
  match h !! i, h !! j with Some a, Some b => <[i := b]> (<[j := a]> h) | _, _ => h end.

(** [heap.up] and [heap.down]; the fuel is the index, and the length. *)
Fixpoint up (fuel : nat) (h : list openItem) (j : nat) : list openItem :=
  match fuel with
  | O => h
  | S fuel =>
      let i := ((j - 1) / 2)%nat in
      if (i =? j)%nat || negb (Less h j i) then h else up fuel (Swap h i j) i
  end.
Fixpoint down (fuel : nat) (h : list openItem) (i n : nat) : list openItem :=
  match fuel with
  | O => h
  | S fuel =>
      let j1 := (2 * i + 1)%nat in
      if (n <=? j1)%nat then h
      else
        let j2 := (j1 + 1)%nat in
        let j := if (j2 <? n)%nat && Less h j2 j1 then j2 else j1 in
        if negb (Less h j i) then h else down fuel (Swap h i j) j n
  end.

Definition Push (h : list openItem) (x : openItem) : list openItem := up (S (length h)) (h ++ [x]) (length h).
(** [heap.Pop]; the slice's own [Pop] takes the last element. *)
Definition Pop (h : list openItem) : option (openItem * list openItem) :=
  let n := (length h - 1)%nat in
  let h := down (length h) (Swap h 0 n) 0 n in
  match h !! n with Some x => Some (x, firstn n h) | None => None end.

(** ** A* *)

Definition octile (a b : Z * Z) : f32 :=
  let dx := Z.abs (a.1 - b.1) in
  let dy := Z.abs (a.2 - b.2) in
  if dy <? dx then f32_add (f32_of_int (dx - dy)) (f32_mul f32_sqrt2 (f32_of_int dy))
  else f32_add (f32_of_int (dy - dx)) (f32_mul f32_sqrt2 (f32_of_int dx)).

Definition cardinal : list (Z * Z) := [(1, 0); (-1, 0); (0, 1); (0, -1)].
Definition diag : list (Z * Z) := [(1, 1); (-1, 1); (1, -1); (-1, -1)].
Definition shift (c d : Z * Z) : Z * Z := (c.1 + d.1, c.2 + d.2).

Record Search := mkSearch {
  cameFromX : list Z; cameFromY : list Z; gScore : list f32; open : list openItem
}.

(** Reaching [n] from [cur] at cost [w]. *)
Definition relax (g : NavGrid) (goal cur n : Z * Z) (w : f32) (s : Search) : option Search :=
  c ← get (gScore s) (index g cur);
  o ← get (gScore s) (index g n);
  let tentative := f32_add c w in
  if f32_lt tentative o then
    gs ← set (gScore s) (index g n) tentative;
    xs ← set (cameFromX s) (index g n) cur.1;
    ys ← set (cameFromY s) (index g n) cur.2;
    Some (mkSearch xs ys gs (Push (open s) (mkItem n (f32_add tentative (octile n goal)))))
  else Some s.

(** One direction of the two loops over the neighbours. *)
Definition try_cardinal (g : NavGrid) (goal cur d : Z * Z) (s : Search) : option Search :=
  ok ← Walkable g (shift cur d);
  if negb ok then Some s else relax g goal cur (shift cur d) f32_one s.

Definition try_diag (g : NavGrid) (goal cur d : Z * Z) (s : Search) : option Search :=
  ok ← Walkable g (shift cur d);
  if negb ok then Some s
  else
    a ← Walkable g (cur.1 + d.1, cur.2);
    b ← (if (a : bool) then Walkable g (cur.1, cur.2 + d.2) else Some false);
    if negb b then Some s else relax g goal cur (shift cur d) f32_sqrt2 s.

Fixpoint each (step : Z * Z -> Search -> option Search) (ds : list (Z * Z)) (s : Search) : option Search :=
  match ds with
  | [] => Some s
  | d :: ds => s ← step d s; each step ds s
  end.

Definition expand (g : NavGrid) (goal cur : Z * Z) (s : Search) : option Search :=
  s ← each (try_cardinal g goal cur) cardinal s;
  each (try_diag g goal cur) diag s.

Inductive outcome :=
| Path (points : list Vec2)
| NoPath
| Panicked
| OutOfFuel.

(** The walk back from the goal: the points in reverse. *)
Fixpoint walk_back (fuel : nat) (g : NavGrid) (s : Search) (start c : Z * Z) (rev_ : list Vec2) : outcome :=
  match fuel with
  | O => OutOfFuel
  | S fuel =>
      if decide (c = start) then Path (rev (rev_ ++ [CellToWorld g start]))
      else
        match get (cameFromX s) (index g c), get (cameFromY s) (index g c) with
        | Some x, Some y =>
            if x =? -1 then NoPath else walk_back fuel g s start (x, y) (rev_ ++ [CellToWorld g c])
        | _, _ => Panicked
        end
  end.
Definition reconstruct (fuel : nat) (g : NavGrid) (s : Search) (goal start : Z * Z) : outcome :=
  walk_back fuel g s start goal [].

Fixpoint search (fuel : nat) (g : NavGrid) (start goal : Z * Z) (s : Search) : outcome :=
  match fuel with
  | O => OutOfFuel
  | S fuel' =>
      match open s with
      | [] => NoPath
      | _ =>
          match Pop (open s) with
          | None => Panicked
          | Some (cur, rest) =>
              let s := mkSearch (cameFromX s) (cameFromY s) (gScore s) rest in
              if decide (it cur = goal) then reconstruct fuel' g s goal start
              else
                match expand g goal (it cur) s with
                | None => Panicked
                | Some s => search fuel' g start goal s
                end
          end
      end
  end.

Definition init_search (g : NavGrid) (start goal : Z * Z) : option Search :=
  let n := Z.to_nat (Width g * Height g) in
  gs ← set (replicate n (S754_infinity false)) (index g start) f32_zero;
  Some (mkSearch (replicate n (-1)) (replicate n 0) gs (Push [] (mkItem start (octile start goal)))).

Definition AStar (fuel : nat) (g : NavGrid) (start goal : Vec2) : outcome :=
  let '(sx, sy, ok) := WorldToCell g start in
  match (if ok then Walkable g (sx, sy) else Some false) with
  | None => Panicked
  | Some false => NoPath
  | Some true =>
      let '(gx, gy, ok) := WorldToCell g goal in
      match (if ok then Walkable g (gx, gy) else Some false) with
      | None => Panicked
      | Some false => NoPath
      | Some true =>
          if decide ((sx, sy) = (gx, gy)) then Path [CellToWorld g (sx, sy)]
          else
            match init_search g (sx, sy) (gx, gy) with
            | None => Panicked
            | Some s => search fuel g (sx, sy) (gx, gy) s
            end
      end
  end.

(** ** Smoothing (smooth.go) *)

Section Smooth.
Context {P : Type} (Clear : P -> P -> bool).

(** The farthest point after [i] in sight of it, by the loop that counts [j] down. *)
Fixpoint farthest (l : list P) (i : nat) (a : P) (j : nat) : nat :=
  match j with
  | O => S i
  | S j' =>
      if (j <=? i)%nat then S i
      else match l !! j with
           | Some b => if Clear a b then j else farthest l i a j'
           | None => S i
           end
  end.

Fixpoint smooth_from (fuel : nat) (l : list P) (i : nat) : list P :=
  match fuel with
  | O => []
  | S fuel =>
      if (length l - 1 <=? i)%nat then []
      else
        match l !! i with
        | Some a =>
            let far := farthest l i a (length l - 1) in
            match l !! far with
            | Some b => b :: smooth_from fuel l far
            | None => []
            end
        | None => []
        end
  end.

Definition SmoothLOS (l : list P) : list P :=
  if (length l <=? 2)%nat then l
  else match l with a :: _ => a :: smooth_from (length l) l 0 | [] => [] end.
End Smooth.
