(* ===== verification/PathfindingSafety.v ===== *)
(** * A* finds a path exactly when there is one

    The search of [Pathfinding] terminates, the path it returns is a walk over the grid
    that starts and ends where it should, moves one cell at a time and cuts no corner, and
    when it returns none there is none.  The proof is about the code's own binary32
    arithmetic: the only facts used of it are those of [FloatOrder], that adding a cost
    never makes a score smaller and that a score can only get smaller finitely often. *)

From S2P Require Import Prelude Float32 FloatOrder Pathfinding.

(** ** The heap holds what was pushed *)

Lemma insert_perm {A} (l : list A) i a b : l !! i = Some a -> a :: <[i := b]> l ≡ₚ b :: l.
Proof.
  revert i. induction l as [|x l IH]; intros [|i] H; simplify_eq/=; [by apply Permutation_swap|].
  rewrite Permutation_swap, (IH i H). apply Permutation_swap.
Qed.

Lemma Swap_perm h i j : Swap h i j ≡ₚ h.
Proof.
  unfold Swap. destruct (h !! i) as [a|] eqn:Ei, (h !! j) as [b|] eqn:Ej; try done.
  destruct (decide (i = j)) as [<-|Hne].
  - rewrite list_insert_insert_eq. simplify_eq. by rewrite list_insert_id.
  - apply (Permutation_cons_inv (a := a)). rewrite (insert_perm _ i a b) by (by rewrite list_lookup_insert_ne).
    by rewrite insert_perm.
Qed.

Lemma up_perm fuel h j : up fuel h j ≡ₚ h.
Proof. revert h j. induction fuel as [|fuel IH]; intros h j; simpl; [done|]. case_match; [done|]. by rewrite IH, Swap_perm. Qed.

Lemma down_perm fuel h i n : down fuel h i n ≡ₚ h.
Proof.
  revert h i. induction fuel as [|fuel IH]; intros h i; simpl; [done|].
  destruct (_ <=? _)%nat; [done|]. destruct (negb _); [done|]. by rewrite IH, Swap_perm.
Qed.

Lemma Push_perm h x : Push h x ≡ₚ x :: h.
Proof. unfold Push. rewrite up_perm. by rewrite Permutation_app_comm. Qed.

Lemma Pop_perm h : h <> [] -> exists x rest, Pop h = Some (x, rest) /\ h ≡ₚ x :: rest.
Proof.
  intros Hne. unfold Pop. set (n := (length h - 1)%nat). set (h' := down _ _ _ _).
  assert (h' ≡ₚ h) as Hp by (unfold h'; by rewrite down_perm, Swap_perm).
  assert (length h' = S n) as Hlen by (rewrite (Permutation_length Hp); unfold n; destruct h; simpl in *; [done|lia]).
  destruct (lookup_lt_is_Some_2 h' n) as [x Hx]; [lia|]. rewrite Hx. exists x, (firstn n h'). split; [done|].
  rewrite <- Hp, <- (take_drop_middle h' n x Hx) at 1. rewrite drop_ge by lia.
  by rewrite Permutation_app_comm.
Qed.

(** ** Scores *)

Definition sv (x : f32) : option Z := val 24 128 x.

(** The score no path exceeds. *)
Definition score_top : f32 := S754_finite false (2 ^ 23) 2.

Definition fin_score (x : f32) : Prop := good32 x /\ vle (val 24 128 x) (val 24 128 score_top).

Ltac good_literal :=
  split; [reflexivity|]; split; [|vm_compute; discriminate];
  split; [split; vm_compute; reflexivity|]; split; [vm_compute; discriminate|];
  right; vm_compute; discriminate.

Lemma good_one : good32 f32_one.
Proof. good_literal. Qed.
Lemma good_sqrt2 : good32 f32_sqrt2.
Proof. good_literal. Qed.
Lemma good_top : good32 score_top.
Proof. good_literal. Qed.
Lemma good_zero : good32 f32_zero.
Proof. done. Qed.
Lemma good_inf : good32 (S754_infinity false).
Proof. done. Qed.

Lemma lt_false x y : good32 x -> good32 y -> f32_lt x y = false <-> vle (sv y) (sv x).
Proof.
  intros Hx Hy. rewrite <- not_true_iff_false. unfold f32_lt. rewrite (good_lt 24 128) by done.
  unfold sv. destruct (val 24 128 x), (val 24 128 y); simpl; lia || tauto.
Qed.

Lemma vle_trans a b c : vle a b -> vle b c -> vle a c.
Proof. destruct a, b, c; simpl; try done; lia. Qed.
Lemma vle_total a b : vle a b \/ vle b a.
Proof. destruct a, b; simpl; auto. lia. Qed.
Lemma vle_refl a : vle a a.
Proof. destruct a; simpl; [lia|done]. Qed.

Lemma add_good x w : good32 x -> good32 w -> good32 (f32_add x w) /\ vle (sv x) (sv (f32_add x w)).
Proof.
  intros Hx Hw. split; [by apply add_nearest|]. apply lt_false; [by apply add_nearest|done|].
  by apply add_grows.
Qed.

Lemma near_top x w : good32 x -> vle (sv x) (sv score_top) -> w = f32_one \/ w = f32_sqrt2 ->
  x = score_top \/ vle (vadd (sv x) (sv w)) (sv score_top).
Proof.
  intros Hx Hle Hw. destruct x as [s|s| |s m e]; [|done|done|].
  { right. by destruct Hw as [-> | ->]; vm_compute. }
  destruct Hx as (-> & Hc & _). destruct good_top as (_ & HcT & _).
  assert (canonical 24 128 (2 ^ 24 - 1) 1) as Hc' by (split; [split; vm_compute; reflexivity|]; split; [vm_compute; discriminate|right; vm_compute; discriminate]).
  pose proof (canonical_order 24 128 ltac:(done) _ _ _ _ Hc Hc') as Ho.
  pose proof (canonical_order 24 128 ltac:(done) _ _ _ _ Hc HcT) as HoT.
  destruct (Z_le_gt_dec (v 24 128 (Z.pos m) e) (v 24 128 (2 ^ 24 - 1) 1)) as [Hs|Hs].
  - right. assert (vle (vadd (Some (v 24 128 (2 ^ 24 - 1) 1)) (sv w)) (sv score_top)) as H
      by (by destruct Hw as [-> | ->]; vm_compute).
    destruct Hw as [-> | ->]; simpl in *; lia.
  - left. apply HoT in Hle. destruct Hc as ([_ Hm] & _ & Hfull).
    assert (e = 2 /\ Z.pos m = 2 ^ 23) as [-> Em]; [|unfold score_top; by injection Em as ->].
    change (SpecFloat.emin 24 128) with (-149) in Hfull. change (2 ^ (24 - 1)) with (2 ^ 23) in Hfull. lia.
Qed.

(** A score stays below [2 ^ 25], where a cost is lost in the rounding. *)
Lemma add_saturates x w : fin_score x -> w = f32_one \/ w = f32_sqrt2 -> fin_score (f32_add x w).
Proof.
  intros [Hx Hle] Hw. assert (good32 w) as Hgw by (destruct Hw as [-> | ->]; [apply good_one|apply good_sqrt2]).
  destruct (add_nearest 24 128 ltac:(done) ltac:(done) x w Hx Hgw) as [Hg Hn]. split; [done|].
  destruct (near_top x w Hx Hle Hw) as [->|Hs]; [by destruct Hw as [-> | ->]; vm_compute|].
  by apply (Hn score_top good_top).
Qed.

(** ** Cells and arrays *)

Record grid_ok (g : NavGrid) : Prop := {
  go_width : 0 <= Width g; go_height : 0 <= Height g;
  go_len : Z.of_nat (length (walkable g)) = Width g * Height g
}.

Section Grid.
Context (g : NavGrid) (Hg : grid_ok g).

Definition sized {A} (l : list A) : Prop := Z.of_nat (length l) = Width g * Height g.
Definition inside (c : Z * Z) : Prop := outside g c = false.
Definition walk (c : Z * Z) : Prop := Walkable g c = Some true.

Lemma inside_bounds c : inside c <-> 0 <= c.1 < Width g /\ 0 <= c.2 < Height g.
Proof. unfold inside, outside. destruct c as [x y]. simpl. lia. Qed.

Lemma index_bounds c : inside c -> 0 <= index g c < Width g * Height g.
Proof. rewrite inside_bounds. unfold index. destruct c as [x y]. simpl. nia. Qed.

Lemma index_inj c c' : inside c -> inside c' -> index g c = index g c' -> c = c'.
Proof.
  rewrite !inside_bounds. unfold index. destruct c as [x y], c' as [x' y']. simpl. intros H H' E.
  assert (y = y') as -> by nia. f_equal. lia.
Qed.

Lemma get_inside {A} (l : list A) c : sized l -> inside c -> exists x, get l (index g c) = Some x.
Proof.
  intros Hl Hc. pose proof (index_bounds c Hc). unfold get. destruct (Z.ltb_spec (index g c) 0); [lia|].
  apply lookup_lt_is_Some_2. unfold sized in Hl. lia.
Qed.

Lemma set_inside {A} (l : list A) c x : sized l -> inside c ->
  exists l', set l (index g c) x = Some l' /\ sized l' /\
    forall c', inside c' -> get l' (index g c') = if decide (c' = c) then Some x else get l (index g c').
Proof.
  intros Hl Hc. unfold set. destruct (get_inside l c Hl Hc) as [y Hy]. rewrite Hy. eexists. split; [done|].
  split; [unfold sized; by rewrite length_insert|]. intros c' Hc'. unfold get.
  pose proof (index_bounds c Hc). pose proof (index_bounds c' Hc').
  destruct (Z.ltb_spec (index g c') 0); [lia|]. case_decide as E.
  - subst. apply list_lookup_insert_eq. unfold sized in Hl. lia.
  - apply list_lookup_insert_ne. intros E'. apply E, index_inj; [done|done|lia].
Qed.

Lemma walk_inside c : walk c -> inside c.
Proof. unfold walk, Walkable, inside. by destruct (outside g c). Qed.

Lemma Walkable_defined c : exists b, Walkable g c = Some b.
Proof.
  unfold Walkable. destruct (outside g c) eqn:E; [eauto|]. apply get_inside; [apply Hg|done].
Qed.

(** A legal move: to a walkable neighbour, diagonally only if both cells beside are. *)
Definition dirs : list (Z * Z * f32) := ((fun d => (d, f32_one)) <$> cardinal) ++ ((fun d => (d, f32_sqrt2)) <$> diag).

Definition move_by (c d : Z * Z) (w : f32) : Prop :=
  walk (shift c d) /\ (w = f32_sqrt2 -> walk (c.1 + d.1, c.2) /\ walk (c.1, c.2 + d.2)).
Definition move (c n : Z * Z) (w : f32) : Prop :=
  exists d, (d, w) ∈ dirs /\ n = shift c d /\ move_by c d w.

Lemma dirs_cost d w : (d, w) ∈ dirs -> w = f32_one \/ w = f32_sqrt2.
Proof.
  unfold dirs. rewrite elem_of_app, !list_elem_of_fmap. intros [(? & [= -> ->] & _)|(? & [= -> ->] & _)]; auto.
Qed.

Lemma dirs_moves d w : (d, w) ∈ dirs -> d <> (0, 0).
Proof.
  unfold dirs. rewrite elem_of_app, !list_elem_of_fmap.
  intros [(? & [= -> ->] & H)|(? & [= -> ->] & H)] ->; unfold cardinal, diag in H;
    repeat (apply elem_of_cons in H as [H|H]; [done|]); by apply elem_of_nil in H.
Qed.

Lemma move_ne c n w : move c n w -> n <> c.
Proof.
  intros (d & Hd & -> & _) E. apply (dirs_moves d w Hd). destruct c as [x y], d as [a b].
  unfold shift in E. simpl in E. injection E as E1 E2. f_equal; lia.
Qed.

Lemma move_walk c n w : move c n w -> walk n.
Proof. intros (d & _ & -> & H & _). done. Qed.
Lemma move_good c n w : move c n w -> good32 w.
Proof. intros (d & [-> | ->]%dirs_cost & _); [apply good_one|apply good_sqrt2]. Qed.

(** ** The invariant of the search *)

Context (start goal : Z * Z) (Hstart : walk start) (Hgoal : walk goal).

Definition score (s : Search) (c : Z * Z) : option f32 := get (gScore s) (index g c).
Definition parent (s : Search) (n p : Z * Z) : Prop :=
  get (cameFromX s) (index g n) = Some p.1 /\ get (cameFromY s) (index g n) = Some p.2.
Definition reached (s : Search) (c : Z * Z) (x : f32) : Prop := score s c = Some x /\ fin_score x.
Definition is_inf (x : f32) : Prop := x = S754_infinity false.

(** The parents lead back to the start. *)
Inductive chain (s : Search) : Z * Z -> Prop :=
| chain_start : chain s start
| chain_step n p w : n <> start -> parent s n p -> move p n w -> walk p -> chain s p -> chain s n.

Record Inv (s : Search) : Prop := {
  in_x : sized (cameFromX s); in_y : sized (cameFromY s); in_g : sized (gScore s);
  in_score : forall c x, inside c -> score s c = Some x -> is_inf x \/ fin_score x;
  in_start : score s start = Some f32_zero;
  in_parent : forall n x, inside n -> reached s n x -> n <> start ->
    exists p w y, parent s n p /\ move p n w /\ walk p /\ reached s p y /\ vle (sv y) (sv x);
  in_open : forall i, i ∈ open s -> walk (it i) /\ exists x, reached s (it i) x;
  in_chain : forall n x, inside n -> reached s n x -> chain s n;
  in_goal : forall x, reached s goal x -> goal ∈ it <$> open s
}.

Lemma fin_not_inf x : fin_score x -> ~ is_inf x.
Proof. intros [_ H] ->. done. Qed.

Lemma score_good s c x : Inv s -> inside c -> score s c = Some x -> good32 x.
Proof. intros I Hc Hx. by destruct (in_score s I c x Hc Hx) as [->|[? _]]. Qed.

Lemma parent_unique s n p q : parent s n p -> parent s n q -> p = q.
Proof. destruct p, q. intros [H1 H2] [H3 H4]. simpl in *. congruence. Qed.

Lemma reached_unique s c x y : reached s c x -> reached s c y -> x = y.
Proof. intros [H _] [H' _]. congruence. Qed.

(** Reaching [n] from [cur] at a lower score leaves the parents of the cells that [cur]
    was reached through alone. *)
Lemma chain_below s s' n cur o y :
  Inv s -> inside n -> (forall c p, inside c -> c <> n -> parent s c p -> parent s' c p) ->
  score s n = Some o -> reached s cur y -> ~ vle (sv o) (sv y) ->
  forall c x, chain s c -> inside c -> reached s c x -> vle (sv x) (sv y) -> chain s' c.
Proof.
  intros I Hn Hp Ho Hcur Hlt c x Hc. revert x. induction Hc as [|c p w Hne Hpar Hmv Hwp Hc IH]; intros x Hin Hx Hle.
  { apply chain_start. }
  assert (c <> n) as Hcn.
  { intros ->. destruct Hx as [Hx _]. rewrite Ho in Hx. injection Hx as ->. done. }
  destruct (in_parent s I c x Hin Hx Hne) as (p' & w' & yp & Hpar' & Hmv' & Hwp' & Hyp & Hge).
  assert (p' = p) as -> by (eapply parent_unique; eauto).
  apply (chain_step s' c p w); auto. apply (IH yp); auto using walk_inside.
  eapply vle_trans; [exact Hge|done].
Qed.

Lemma chain_kept s s' n cur o y w :
  Inv s -> inside n -> n <> start -> (forall c p, inside c -> c <> n -> parent s c p -> parent s' c p) ->
  parent s' n cur -> move cur n w -> walk cur ->
  score s n = Some o -> reached s cur y -> ~ vle (sv o) (sv y) ->
  chain s' n /\ forall c, chain s c -> inside c -> chain s' c.
Proof.
  intros I Hn Hns Hp Hpar Hmv Hwc Ho Hcur Hlt.
  assert (chain s' n) as Hcn.
  { apply (chain_step s' n cur w); auto.
    apply (chain_below s s' n cur o y I Hn Hp Ho Hcur Hlt cur y); auto using walk_inside, vle_refl.
    eapply in_chain; eauto using walk_inside. }
  split; [done|]. intros c Hc. induction Hc as [|c p w' Hne Hpar' Hmv' Hwp Hc IH]; intros Hin; [apply chain_start|].
  destruct (decide (c = n)) as [->|Hcne]; [done|]. apply (chain_step s' c p w'); auto using walk_inside.
Qed.

(** ** The frontier *)

(** The moves out of [cur] that are still to be tried. *)
Definition pending (todo : list (Z * Z * f32)) (cur n : Z * Z) (w : f32) : Prop :=
  exists d, (d, w) ∈ todo /\ n = shift cur d.

(** Every move out of a reached cell has been tried, unless the cell waits in the heap or
    it is the one being expanded and the move is still to be tried. *)
Definition frontier (cur : Z * Z) (todo : list (Z * Z * f32)) (s : Search) : Prop :=
  forall c n w y x, inside c -> move c n w -> reached s c y -> score s n = Some x ->
    (c = cur /\ pending todo cur n w) \/ c ∈ it <$> open s \/ vle (sv x) (sv (f32_add y w)).

(** The scores that are left, and what is in the heap: what a step makes less of. *)
Fixpoint total (l : list f32) : Z :=
  match l with [] => 0 | x :: l => rank 24 128 x + total l end.
Definition measure (s : Search) : Z := 2 * total (gScore s) + Z.of_nat (length (open s)).

Lemma total_insert (l : list f32) i (a b : f32) : l !! i = Some a -> total (<[i := b]> l) = total l - rank 24 128 a + rank 24 128 b.
Proof.
  revert i. induction l as [|x l IH]; intros [|i] H; simplify_eq/=; [lia|]. rewrite (IH i H). lia.
Qed.

Lemma total_set (l : list f32) i (x : f32) l' (a : f32) : get l i = Some a -> set l i x = Some l' -> total l' = total l - rank 24 128 a + rank 24 128 x.
Proof.
  unfold set. intros Ha. rewrite Ha. intros [= <-]. unfold get in Ha.
  destruct (i <? 0); [done|]. by apply total_insert.
Qed.

(** What trying a move [(d, w)] must do. *)
Definition stepped (cur : Z * Z) (todo : list (Z * Z * f32)) (y : f32) (s s' : Search) : Prop :=
  Inv s' /\ reached s' cur y /\ frontier cur todo s' /\ measure s' <= measure s.

Lemma frontier_drop cur d w todo s :
  (forall n, n = shift cur d -> ~ move cur n w) -> frontier cur ((d, w) :: todo) s -> frontier cur todo s.
Proof.
  intros Hno Hf c n w' y x Hin Hm Hy Hx. destruct (Hf c n w' y x Hin Hm Hy Hx) as [(-> & d' & Hd & ->)|?]; [|by right].
  apply elem_of_cons in Hd as [[= -> ->]|Hd]; [by destruct (Hno _ eq_refl)|]. left. split; [done|]. by exists d'.
Qed.

Lemma frontier_done cur d w todo s y x :
  reached s cur y -> score s (shift cur d) = Some x -> vle (sv x) (sv (f32_add y w)) ->
  frontier cur ((d, w) :: todo) s -> frontier cur todo s.
Proof.
  intros Hy Hx Hle Hf c n w' y' x' Hin Hm Hy' Hx'.
  destruct (Hf c n w' y' x' Hin Hm Hy' Hx') as [(-> & d' & Hd & ->)|?]; [|by right].
  apply elem_of_cons in Hd as [[= -> ->]|Hd]; [|left; split; [done|by exists d']].
  right. right. assert (y' = y) as -> by (eapply reached_unique; eauto). by simplify_eq.
Qed.

Lemma zero_least x : good32 x -> vle (sv f32_zero) (sv x).
Proof.
  destruct x as [s|s| |s m e]; simpl; try done. intros (_ & (_ & He & _) & _).
  pose proof (v_pos 24 128 ltac:(done) m e He). unfold sv. simpl. lia.
Qed.

(** The update of a neighbour: its score and parent, and its place in the heap. *)
Record updated (cur n : Z * Z) (t : f32) (s s' : Search) : Prop := {
  up_sized : sized (cameFromX s') /\ sized (cameFromY s') /\ sized (gScore s');
  up_score : forall c, inside c -> score s' c = if decide (c = n) then Some t else score s c;
  up_parent : parent s' n cur /\ forall c p, inside c -> c <> n -> parent s' c p <-> parent s c p;
  up_open : it <$> open s' ≡ₚ n :: (it <$> open s);
  up_measure : forall o, score s n = Some o -> measure s' = measure s + 2 * (rank 24 128 t - rank 24 128 o) + 1
}.

Lemma relax_updates cur n w y o s :
  Inv s -> inside n -> score s cur = Some y -> score s n = Some o -> f32_lt (f32_add y w) o = true ->
  exists s', relax g goal cur n w s = Some s' /\ updated cur n (f32_add y w) s s'.
Proof.
  intros I Hn Hy Ho Hlt. unfold relax. unfold score in Hy, Ho. rewrite Hy, Ho. simpl. rewrite Hlt.
  destruct (set_inside (gScore s) n (f32_add y w) (in_g s I) Hn) as (gs & Egs & Hgs & Hgs').
  destruct (set_inside (cameFromX s) n cur.1 (in_x s I) Hn) as (xs & Exs & Hxs & Hxs').
  destruct (set_inside (cameFromY s) n cur.2 (in_y s I) Hn) as (ys & Eys & Hys & Hys').
  rewrite Egs. simpl. rewrite Exs. simpl. rewrite Eys. simpl. eexists. split; [reflexivity|].
  constructor; simpl.
  - done.
  - intros c Hc. unfold score. simpl. by apply Hgs'.
  - unfold parent. simpl. split; [by rewrite Hxs', Hys', !decide_True by done|].
    intros c p Hc Hne. by rewrite Hxs', Hys', !decide_False by done.
  - by rewrite Push_perm.
  - intros o' Ho'. unfold score in Ho'. unfold measure. simpl.
    rewrite (total_set _ _ _ _ o' Ho' Egs), (Permutation_length (Push_perm _ _)). simpl. lia.
Qed.

Lemma updated_inv cur n w o y s s' :
  Inv s -> inside n -> walk cur -> move cur n w -> reached s cur y -> score s n = Some o ->
  vle (sv y) (sv (f32_add y w)) -> fin_score (f32_add y w) -> ~ vle (sv o) (sv (f32_add y w)) -> good32 o ->
  updated cur n (f32_add y w) s s' -> Inv s' /\ n <> start /\ n <> cur.
Proof.
  intros I Hn Hwc Hmv Hy Ho Hgrow Ht Hlt Hgo [(S1 & S2 & S3) Hsc [Hpn Hpar] Hop _]. set (t := f32_add y w) in *.
  pose proof (move_ne _ _ _ Hmv) as Hnc. assert (inside cur) as Hc by (by apply walk_inside).
  assert (inside start) as Hs by (by apply walk_inside).
  assert (n <> start) as Hns.
  { intros E. rewrite E in Ho. rewrite (in_start s I) in Ho. injection Ho as <-. apply Hlt, zero_least, Ht. }
  assert (forall c x, inside c -> c <> n -> reached s' c x <-> reached s c x) as Hold.
  { intros c x Hin Hne. unfold reached. by rewrite Hsc, decide_False by done. }
  assert (reached s' n t) as Hnew by (split; [by rewrite Hsc, decide_True by done|done]).
  assert (forall x, reached s' n x -> x = t) as Hnt by (intros x Hx; by eapply reached_unique).
  assert (~ vle (sv o) (sv y)) as Hlt' by (intros Hle; apply Hlt; by eapply vle_trans).
  destruct (chain_kept s s' n cur o y w I Hn Hns) as [Hcn Hck]; auto.
  { intros c p Hin Hne. by apply Hpar. }
  split; [|done]. constructor; auto.
  - intros c x Hin Hx. rewrite Hsc in Hx by done. case_decide; [right; by simplify_eq|by eapply in_score].
  - rewrite Hsc by done. rewrite decide_False by done. apply (in_start s I).
  - intros m x Hm Hx Hms. destruct (decide (m = n)) as [->|Hmn].
    + apply Hnt in Hx as ->. exists cur, w, y. split_and!; auto. by apply Hold.
    + apply Hold in Hx; [|done|done]. destruct (in_parent s I m x Hm Hx Hms) as (p & w' & yp & Hp & Hmv' & Hwp & Hyp & Hle).
      destruct (decide (p = n)) as [->|Hpn'].
      * exists n, w', t. split_and!; [by apply Hpar|done|done|done|].
        destruct Hyp as [Hyp _]. rewrite Ho in Hyp. injection Hyp as ->.
        eapply vle_trans; [|exact Hle]. by destruct (vle_total (sv t) (sv yp)).
      * exists p, w', yp. split_and!; [by apply Hpar|done|done|by apply Hold; [apply walk_inside|..]|done].
  - intros i Hi. assert (it i ∈ it <$> open s') as Hi' by (by apply list_elem_of_fmap_2).
    rewrite Hop in Hi'. apply elem_of_cons in Hi' as [->|Hi'].
    + split; [by eapply move_walk|by exists t].
    + apply list_elem_of_fmap in Hi' as (j & Ej & Hj). rewrite Ej. destruct (in_open s I j Hj) as [Hwj [x Hx]].
      split; [done|]. destruct (decide (it j = n)) as [->|Hne]; [by exists t|].
      exists x. by apply Hold; [apply walk_inside|..].
  - intros m x Hm Hx. destruct (decide (m = n)) as [->|Hmn]; [done|]. apply Hck; [|done].
    apply (in_chain s I m x); [done|]. by apply Hold.
  - intros x Hx. rewrite Hop. destruct (decide (goal = n)) as [->|Hgn]; [left|right].
    apply (in_goal s I x). by apply Hold; [apply walk_inside|..].
Qed.

Lemma updated_frontier cur d w todo o y s s' :
  inside (shift cur d) -> inside cur -> shift cur d <> cur -> reached s cur y -> score s (shift cur d) = Some o ->
  ~ vle (sv o) (sv (f32_add y w)) -> updated cur (shift cur d) (f32_add y w) s s' ->
  frontier cur ((d, w) :: todo) s -> frontier cur todo s'.
Proof.
  intros Hn Hc Hnc Hy Ho Hlt [_ Hsc _ Hop _] Hf c n' w' y' x' Hin Hm Hy' Hx'. set (n := shift cur d) in *.
  destruct (decide (c = n)) as [->|Hcn]; [right; left; rewrite Hop; left|].
  assert (reached s c y') as Hyc by (unfold reached in *; by rewrite Hsc, decide_False in Hy').
  assert (inside n') as Hn' by (eapply walk_inside, move_walk; eauto).
  rewrite Hsc in Hx' by done. destruct (decide (n' = n)) as [->|Hne].
  - injection Hx' as <-. destruct (Hf c n w' y' o Hin Hm Hyc Ho) as [(-> & d' & Hd & En)|[Hopen|Hle]].
    + apply elem_of_cons in Hd as [[= -> ->]|Hd]; [|left; split; [done|by exists d']].
      right. right. assert (y' = y) as -> by (by apply (reached_unique s cur)). apply vle_refl.
    + right. left. rewrite Hop. by right.
    + right. right. eapply vle_trans; [|exact Hle]. by destruct (vle_total (sv (f32_add y w)) (sv o)).
  - destruct (Hf c n' w' y' x' Hin Hm Hyc Hx') as [(-> & d' & Hd & En)|[Hopen|Hle]]; [|right; left; rewrite Hop; by right|by right; right].
    apply elem_of_cons in Hd as [[= -> ->]|Hd]; [by destruct Hne|]. left. split; [done|by exists d'].
Qed.

Lemma relax_spec cur d w todo y s :
  Inv s -> walk cur -> move cur (shift cur d) w -> reached s cur y -> frontier cur ((d, w) :: todo) s ->
  exists s', relax g goal cur (shift cur d) w s = Some s' /\ stepped cur todo y s s'.
Proof.
  intros I Hwc Hmv Hy Hf. pose proof (walk_inside _ (move_walk _ _ _ Hmv)) as Hn. set (n := shift cur d) in *.
  destruct (get_inside (gScore s) n (in_g s I) Hn) as [o Ho].
  pose proof (score_good s n o I Hn Ho) as Hgo. pose proof (move_good _ _ _ Hmv) as Hgw.
  assert (fin_score (f32_add y w)) as Ht.
  { apply add_saturates; [apply Hy|]. destruct Hmv as (? & Hd & _). by eapply dirs_cost. }
  destruct (add_good y w (proj1 (proj2 Hy)) Hgw) as [_ Hgrow].
  destruct (f32_lt (f32_add y w) o) eqn:Elt.
  - destruct (relax_updates cur n w y o s I Hn (proj1 Hy) Ho Elt) as (s' & E & U). exists s'. split; [done|].
    assert (~ vle (sv o) (sv (f32_add y w))) as Hlt.
    { rewrite <- lt_false by (done || apply Ht). by rewrite Elt. }
    destruct (updated_inv cur n w o y s s') as (I' & Hns & Hnc); auto.
    split; [done|]. split_and!.
    + unfold reached. rewrite (up_score _ _ _ _ _ U), decide_False by (auto using walk_inside). done.
    + eapply updated_frontier; eauto using walk_inside.
    + rewrite (up_measure _ _ _ _ _ U o Ho).
      pose proof (rank_lt 24 128 ltac:(done) ltac:(done) (f32_add y w) o (proj1 Ht) Hgo Elt). lia.
  - exists s. unfold relax. unfold score in Ho. rewrite (proj1 Hy : get _ _ = _), Ho. simpl. rewrite Elt. split; [done|].
    split; [done|]. split; [done|]. split; [|lia]. eapply frontier_done; eauto. by apply lt_false; [apply Ht|..].
Qed.

Lemma stepped_drop cur d w todo y s :
  Inv s -> reached s cur y -> frontier cur ((d, w) :: todo) s -> ~ move_by cur d w -> (d, w) ∈ dirs ->
  stepped cur todo y s s.
Proof.
  intros I Hy Hf Hno Hd. split; [done|]. split; [done|]. split; [|lia]. eapply frontier_drop; [|exact Hf].
  intros n -> (d' & _ & E & Hmv). apply Hno. destruct cur as [a b], d as [d1 d2], d' as [e1 e2].
  unfold shift in E. simpl in E. injection E as E1 E2. by replace d1 with e1 by lia; replace d2 with e2 by lia.
Qed.

Lemma try_cardinal_spec cur d todo y s :
  (d, f32_one) ∈ dirs -> Inv s -> walk cur -> reached s cur y -> frontier cur ((d, f32_one) :: todo) s ->
  exists s', try_cardinal g goal cur d s = Some s' /\ stepped cur todo y s s'.
Proof.
  intros Hd I Hwc Hy Hf. unfold try_cardinal. destruct (Walkable_defined (shift cur d)) as [[] Hb]; rewrite Hb; simpl.
  - apply relax_spec; auto. exists d. split; [done|]. split; [done|]. by split.
  - exists s. split; [done|]. eapply stepped_drop; eauto. intros [Hw _]. unfold walk in Hw. congruence.
Qed.

Lemma try_diag_spec cur d todo y s :
  (d, f32_sqrt2) ∈ dirs -> Inv s -> walk cur -> reached s cur y -> frontier cur ((d, f32_sqrt2) :: todo) s ->
  exists s', try_diag g goal cur d s = Some s' /\ stepped cur todo y s s'.
Proof.
  intros Hd I Hwc Hy Hf. unfold try_diag.
  assert (~ move_by cur d f32_sqrt2 -> exists s', Some s = Some s' /\ stepped cur todo y s s') as Hdrop.
  { intros Hno. exists s. split; [done|]. by eapply stepped_drop. }
  destruct (Walkable_defined (shift cur d)) as [[] Hb]; rewrite Hb; simpl; [|apply Hdrop; intros [Hw _]; unfold walk in Hw; congruence].
  destruct (Walkable_defined (cur.1 + d.1, cur.2)) as [[] Ha]; rewrite Ha; simpl;
    [|apply Hdrop; intros [_ Hw]; destruct (Hw eq_refl) as [Hw' _]; unfold walk in Hw'; congruence].
  destruct (Walkable_defined (cur.1, cur.2 + d.2)) as [[] Hc]; rewrite Hc; simpl;
    [|apply Hdrop; intros [_ Hw]; destruct (Hw eq_refl) as [_ Hw']; unfold walk in Hw'; congruence].
  apply relax_spec; auto. exists d. by split.
Qed.

Lemma each_spec step w cur todo y ds s :
  (forall d todo s, (d, w) ∈ dirs -> Inv s -> reached s cur y -> frontier cur ((d, w) :: todo) s ->
     exists s', step d s = Some s' /\ stepped cur todo y s s') ->
  (forall d, d ∈ ds -> (d, w) ∈ dirs) ->
  Inv s -> reached s cur y -> frontier cur (((fun d => (d, w)) <$> ds) ++ todo) s ->
  exists s', each step ds s = Some s' /\ stepped cur todo y s s'.
Proof.
  intros Hstep. revert s. induction ds as [|d ds IH]; intros s Hds I Hy Hf; simpl in *.
  { exists s. split; [done|]. split_and!; [done|done|done|]. lia. }
  destruct (Hstep d _ s (Hds d (list_elem_of_here _ _)) I Hy Hf) as (s1 & E & I1 & Hy1 & Hf1 & Hm1). rewrite E. simpl.
  destruct (IH s1) as (s2 & E2 & I2 & Hy2 & Hf2 & Hm2); auto.
  { intros d' Hd'. apply Hds. by right. }
  exists s2. split; [done|]. split_and!; auto. lia.
Qed.

Lemma expand_spec cur y s :
  Inv s -> walk cur -> reached s cur y -> frontier cur dirs s ->
  exists s', expand g goal cur s = Some s' /\ stepped cur [] y s s'.
Proof.
  intros I Hwc Hy Hf. unfold expand.
  destruct (each_spec (try_cardinal g goal cur) f32_one cur ((fun d => (d, f32_sqrt2)) <$> diag) y cardinal s)
    as (s1 & E1 & I1 & Hy1 & Hf1 & Hm1); auto.
  { intros. by apply try_cardinal_spec. }
  { intros d Hd. apply elem_of_app. left. by apply (list_elem_of_fmap_2 (fun d => (d, f32_one))). }
  rewrite E1. simpl.
  destruct (each_spec (try_diag g goal cur) f32_sqrt2 cur [] y diag s1) as (s2 & E2 & I2 & Hy2 & Hf2 & Hm2); auto.
  { intros. by apply try_diag_spec. }
  { intros d Hd. apply elem_of_app. right. by apply (list_elem_of_fmap_2 (fun d => (d, f32_sqrt2))). }
  exists s2. split; [done|]. split_and!; auto. lia.
Qed.

(** ** Taking the cell off the heap *)

Definition popped (s : Search) (rest : list openItem) : Search :=
  mkSearch (cameFromX s) (cameFromY s) (gScore s) rest.

Lemma chain_popped s rest n : chain s n -> chain (popped s rest) n.
Proof. induction 1; [apply chain_start|]. by eapply chain_step. Qed.

Lemma frontier_any c c' s : frontier c [] s -> frontier c' [] s.
Proof.
  intros Hf a n w y x Hin Hm Hy Hx. destruct (Hf a n w y x Hin Hm Hy Hx) as [(_ & ? & Hd & _)|?]; [|by right].
  by apply elem_of_nil in Hd.
Qed.

Lemma pop_spec s cur rest :
  Inv s -> (forall c, frontier c [] s) -> open s ≡ₚ cur :: rest -> it cur <> goal ->
  Inv (popped s rest) /\ walk (it cur) /\ (exists y, reached s (it cur) y) /\
  frontier (it cur) dirs (popped s rest) /\ measure (popped s rest) < measure s.
Proof.
  intros I Hf Hp Hne. destruct (in_open s I cur) as [Hw Hy]; [rewrite Hp; by left|].
  split; [|split; [done|split; [done|split]]].
  - destruct I. constructor; auto.
    + intros i Hi. apply in_open0. rewrite Hp. by right.
    + intros n x Hn Hx. by apply chain_popped, (in_chain0 n x).
    + intros x Hx. specialize (in_goal0 x Hx). rewrite Hp in in_goal0. simpl in *.
      apply elem_of_cons in in_goal0 as [E|?]; [by destruct Hne|done].
  - intros c n w y x Hin Hm Hc Hx. destruct (Hf c c n w y x Hin Hm Hc Hx) as [(_ & ? & Hd & _)|[Ho|Hle]]; [by apply elem_of_nil in Hd| |by right; right].
    rewrite Hp in Ho. simpl in Ho. apply elem_of_cons in Ho as [->|Ho]; [|by right; left].
    left. split; [done|]. destruct Hm as (d & Hd & -> & _). by exists d.
  - unfold measure. rewrite Hp. simpl. lia.
Qed.

(** ** The path *)

(** One legal move, at either cost. *)
Definition step (a b : Z * Z) : Prop := exists w, move a b w.

(** A walk over the grid: legal moves between walkable cells. *)
Definition route (from to : Z * Z) (l : list (Z * Z)) : Prop :=
  head l = Some from /\ last l = Some to /\ Forall walk l /\
  forall i a b, l !! i = Some a -> l !! S i = Some b -> step a b.

Lemma route_snoc a p n l : route a p l -> walk n -> step p n -> route a n (l ++ [n]).
Proof.
  intros (Hh & Hl & Hw & Hs) Hn Hst. split; [by destruct l|]. split; [apply last_snoc|].
  split; [apply Forall_app; by split; [|constructor]|].
  intros i x y Hx Hy. destruct (decide (S i < length l)%nat) as [Hlt|Hge].
  - rewrite lookup_app_l in Hx, Hy by lia. by eapply Hs.
  - assert (i < length l)%nat as Hi by (apply lookup_lt_Some in Hy; rewrite length_app in Hy; simpl in Hy; lia).
    rewrite lookup_app_l in Hx by lia. rewrite lookup_app_r in Hy by lia.
    replace (S i - length l)%nat with 0%nat in Hy by lia. simplify_eq/=.
    rewrite last_lookup in Hl. replace (pred (length l)) with i in Hl by lia. by simplify_eq.
Qed.

Lemma route_self a : walk a -> route a a [a].
Proof. intros Ha. split; [done|]. split; [done|]. split; [by constructor|]. by intros [|i] x y. Qed.

Lemma walk_back_spec s n : chain s n -> walk n ->
  exists l k, route start n l /\ forall fuel rev_, (k <= fuel)%nat ->
    walk_back fuel g s start n rev_ = Path ((CellToWorld g <$> l) ++ rev rev_).
Proof.
  intros Hc. induction Hc as [|n p w Hne [Hx Hy] Hmv Hwp Hc IH]; intros Hn.
  - exists [start], 1%nat. split; [by apply route_self|]. intros [|fuel] rev_ Hk; [lia|]. simpl.
    by rewrite decide_True, rev_app_distr.
  - destruct (IH Hwp) as (l & k & Hl & Hk). exists (l ++ [n]), (S k).
    split; [apply (route_snoc _ p); [done|done|by exists w]|].
    intros [|fuel] rev_ Hf; [lia|]. simpl. rewrite decide_False by done. rewrite Hx, Hy.
    pose proof (proj1 (inside_bounds p) (walk_inside p Hwp)) as [Hb _].
    destruct (Z.eqb_spec p.1 (-1)); [lia|]. rewrite <- surjective_pairing, Hk by lia.
    by rewrite rev_app_distr, fmap_app, <- app_assoc.
Qed.

(** ** Termination and the answer *)

Lemma index_surj i : 0 <= i < Width g * Height g -> exists c, inside c /\ index g c = i.
Proof.
  intros Hi. exists (i mod Width g, i / Width g). rewrite inside_bounds. unfold index. simpl.
  destruct Hg as [Hw Hh _]. assert (0 < Width g) by nia.
  pose proof (Z.mod_pos_bound i (Width g)). pose proof (Z.div_mod i (Width g)). split; [|lia]. split; [lia|]. split; [apply Z.div_pos; lia|]. apply Z.div_lt_upper_bound; lia.
Qed.

Lemma measure_nonneg s : Inv s -> 0 <= measure s.
Proof.
  intros I. unfold measure. assert (Forall (fun x => good32 x) (gScore s)) as H.
  - apply Forall_lookup. intros i x Hi. pose proof (lookup_lt_Some _ _ _ Hi) as Hlt.
    pose proof (in_g s I) as Hsz. unfold sized in Hsz.
    destruct (index_surj (Z.of_nat i)) as (c & Hc & Ei); [lia|]. apply (score_good s c x I Hc).
    unfold score, get. rewrite Ei. destruct (Z.ltb_spec (Z.of_nat i) 0); [lia|]. by rewrite Nat2Z.id.
  - assert (0 <= total (gScore s)); [|lia]. induction H as [|x l Hx H IH]; simpl; [lia|].
    pose proof (rank_nonneg 24 128 ltac:(done) x Hx). lia.
Qed.

Lemma exhausted s c : Inv s -> (forall c, frontier c [] s) -> open s = [] -> rtc step start c -> exists x, reached s c x.
Proof.
  intros I Hf Ho Hr. apply rtc_ind_r with (z := c) (P := fun c => exists x, reached s c x) in Hr; [done| |].
  { exists f32_zero. split; [apply (in_start s I)|]. by split. }
  clear c Hr. intros c n Hr [w Hmv] [y Hy].
  assert (walk c) as Hwc.
  { apply rtc_inv_r in Hr as [<-|(? & _ & ? & Hm)]; [done|]. by eapply move_walk. }
  pose proof (walk_inside _ (move_walk _ _ _ Hmv)) as Hn.
  destruct (get_inside (gScore s) n (in_g s I) Hn) as [x Hx]. exists x. split; [done|].
  destruct (Hf c c n w y x (walk_inside _ Hwc) Hmv Hy Hx) as [(_ & ? & Hd & _)|[Hin|Hle]].
  - by apply elem_of_nil in Hd.
  - rewrite Ho in Hin. by apply elem_of_nil in Hin.
  - destruct (in_score s I n x Hn Hx) as [->|?]; [|done].
    assert (fin_score (f32_add y w)) as [_ Ht].
    { apply add_saturates; [apply Hy|]. destruct Hmv as (? & Hd & _). by eapply dirs_cost. }
    unfold sv in Hle. simpl in Hle. by destruct (val 24 128 (f32_add y w)).
Qed.

(** What the search may answer. *)
Definition answers (r : outcome) : Prop :=
  match r with
  | Path pts => exists l, route start goal l /\ pts = CellToWorld g <$> l
  | NoPath => ~ rtc step start goal
  | _ => False
  end.

Lemma search_answers s : Inv s -> (forall c, frontier c [] s) ->
  exists r n, answers r /\ forall fuel, (n <= fuel)%nat -> search fuel g start goal s = r.
Proof.
  intros I. pose proof (measure_nonneg s I) as Hpos. remember (Z.to_nat (measure s)) as m eqn:Em.
  revert s I Hpos Em. induction m as [m IH] using lt_wf_ind. intros s I Hpos Em Hf.
  destruct (open s) as [|i0 o] eqn:Eo.
  - exists NoPath, 1%nat. split.
    + intros Hr. destruct (exhausted s goal I Hf Eo Hr) as [x Hx]. pose proof (in_goal s I x Hx) as Hin.
      rewrite Eo in Hin. by apply elem_of_nil in Hin.
    + intros [|fuel] H; [lia|]. simpl. by rewrite Eo.
  - destruct (Pop_perm (open s)) as (cur & rest & Ep & Hp); [by rewrite Eo|].
    destruct (decide (it cur = goal)) as [Eg|Hne].
    + destruct (in_open s I cur) as [Hw [x Hx]]; [rewrite Hp; by left|]. rewrite Eg in Hx.
      destruct (walk_back_spec (popped s rest) goal) as (l & k & Hl & Hk); [|done|].
      { apply (chain_popped s rest), (in_chain s I goal x (walk_inside _ Hgoal) Hx). }
      exists (Path (CellToWorld g <$> l)), (S k). split; [by exists l|].
      intros [|fuel] H; [lia|]. simpl. rewrite Eo, <- Eo, Ep. rewrite decide_True by done.
      unfold reconstruct. fold (popped s rest). rewrite Hk by lia. by rewrite app_nil_r.
    + destruct (pop_spec s cur rest I Hf Hp Hne) as (I1 & Hw & [y Hy] & Hf1 & Hm1).
      destruct (expand_spec (it cur) y (popped s rest) I1 Hw Hy Hf1) as (s2 & E2 & I2 & _ & Hf2 & Hm2).
      pose proof (measure_nonneg s2 I2) as Hpos2.
      destruct (IH (Z.to_nat (measure s2)) ltac:(lia) s2 I2 Hpos2 eq_refl) as (r & n & Hr & Hn).
      { intros c. by apply (frontier_any (it cur)). }
      exists r, (S n). split; [done|]. intros [|fuel] H; [lia|]. simpl. rewrite Eo, <- Eo, Ep.
      rewrite decide_False by done. fold (popped s rest). rewrite E2. apply Hn. lia.
Qed.

(** ** The start of the search *)

Lemma sized_replicate {A} (x : A) : sized (replicate (Z.to_nat (Width g * Height g)) x).
Proof. destruct Hg. unfold sized. rewrite length_replicate. nia. Qed.

Lemma get_replicate {A} (x y : A) n i : get (replicate n x) i = Some y -> y = x.
Proof. unfold get. destruct (i <? 0); [done|]. by intros [-> _]%lookup_replicate. Qed.

Lemma init_spec : start <> goal ->
  exists s, init_search g start goal = Some s /\ Inv s /\ forall c, frontier c [] s.
Proof.
  intros Hne. unfold init_search. set (n := Z.to_nat _). pose proof (walk_inside _ Hstart) as Hs.
  destruct (set_inside (replicate n (S754_infinity false)) start f32_zero (sized_replicate _) Hs) as (gs & E & Hz & Hget).
  rewrite E. simpl. eexists. split; [reflexivity|].
  set (s := mkSearch _ _ _ _).
  assert (forall c x, inside c -> score s c = Some x -> (c = start /\ x = f32_zero) \/ is_inf x) as Hsc.
  { intros c x Hc Hx. unfold score, s in Hx. simpl in Hx. rewrite Hget in Hx by done.
    case_decide; [left; by simplify_eq|right; by eapply get_replicate]. }
  assert (score s start = Some f32_zero) as Hss.
  { unfold score, s. simpl. by rewrite Hget, decide_True by done. }
  assert (forall c x, inside c -> reached s c x -> c = start /\ x = f32_zero) as Hr.
  { intros c x Hc [Hx Hfin]. destruct (Hsc c x Hc Hx) as [?|Hinf]; [done|]. by destruct (fin_not_inf x). }
  split.
  - constructor; [apply sized_replicate|apply sized_replicate|exact Hz| |exact Hss| | | |].
    + intros c x Hc Hx. destruct (Hsc c x Hc Hx) as [[_ ->]|?]; [right; by split|by left].
    + intros c x Hc Hx Hns. by destruct (Hr c x Hc Hx).
    + intros i [->|Hi]%elem_of_cons; [|by apply elem_of_nil in Hi]. split; [done|]. exists f32_zero. by split.
    + intros c x Hc Hx. destruct (Hr c x Hc Hx) as [-> _]. apply chain_start.
    + intros x Hx. by destruct (Hr goal x (walk_inside _ Hgoal) Hx).
  - intros c c' m w y x Hin Hm Hy Hx. right. left. destruct (Hr c' y Hin Hy) as [-> _]. by left.
Qed.
End Grid.

(** ** The answer of [AStar] *)

(** The cell a point lies in, if it is walkable. *)
Definition standing (g : NavGrid) (p : Vec2) (c : Z * Z) : Prop := WorldToCell g p = (c, true) /\ walk g c.

(** What an answer says of the world. *)
Definition answer_ok (g : NavGrid) (a b : Vec2) (r : outcome) : Prop :=
  match r with
  | Path pts => exists s e l, standing g a s /\ standing g b e /\ route g s e l /\ pts = CellToWorld g <$> l
  | NoPath => forall s e, standing g a s -> standing g b e -> ~ rtc (step g) s e
  | Panicked | OutOfFuel => False
  end.

Lemma stands g p : grid_ok g ->
  (exists c, WorldToCell g p = (c, true) /\ walk g c) \/
  ((forall c, ~ standing g p c) /\ (let '(c, ok) := WorldToCell g p in if ok then Walkable g c else Some false) = Some false).
Proof.
  intros Hg. unfold standing. destruct (WorldToCell g p) as [c []] eqn:E; [|by right; split; [intros ? [? _]|]].
  destruct (Walkable_defined g Hg c) as [[] Hb]; [left; by exists c|right].
  split; [|done]. intros c' [[= <-] Hw]. unfold walk in Hw. congruence.
Qed.

Lemma AStar_answers (g : NavGrid) (a b : Vec2) : grid_ok g ->
  exists r n, answer_ok g a b r /\ forall fuel, (n <= fuel)%nat -> AStar fuel g a b = r.
Proof.
  intros Hg. unfold AStar. destruct (stands g a Hg) as [([sx sy] & Ea & Hs)|[Hno Ea]]; cycle 1.
  { exists NoPath, 0%nat. split; [by intros s e Hs; destruct (Hno s)|]. intros fuel _.
    destruct (WorldToCell g a) as [[x y] ok]. by rewrite Ea. }
  rewrite Ea. unfold walk in Hs. rewrite Hs. destruct (stands g b Hg) as [([ex ey] & Eb & He)|[Hno Eb]]; cycle 1.
  { exists NoPath, 0%nat. split; [by intros s e _ He; destruct (Hno e)|]. intros fuel _.
    destruct (WorldToCell g b) as [[x y] ok]. by rewrite Eb. }
  rewrite Eb. unfold walk in He. rewrite He. case_decide as Heq.
  { exists (Path [CellToWorld g (sx, sy)]), 0%nat. split; [|done]. exists (sx, sy), (ex, ey), [(sx, sy)].
    split_and!; [by split|by split| |done]. rewrite <- Heq. by apply route_self. }
  destruct (init_spec g Hg (sx, sy) (ex, ey) Hs He Heq) as (s & -> & I & Hf).
  destruct (search_answers g Hg (sx, sy) (ex, ey) Hs He s I Hf) as (r & n & Hr & Hn). exists r, n. split; [|done].
  destruct r as [pts| | |]; simpl in *; [| |done|done].
  - destruct Hr as (l & Hl & ->). exists (sx, sy), (ex, ey), l. split_and!; [by split|by split|done|done].
  - intros s' e' [Es _] [Ee _]. rewrite Ea in Es. rewrite Eb in Ee. by simplify_eq.
Qed.

(** Building a grid: a cell that is blocked, and no other, stops being walkable. *)
Lemma NewNavGrid_ok o c w h : 0 <= w -> 0 <= h -> grid_ok (NewNavGrid o c w h).
Proof. intros Hw Hh. constructor; simpl; [done|done|]. rewrite length_replicate. nia. Qed.

Lemma NewNavGrid_walk o c w h d : 0 <= w -> 0 <= h -> walk (NewNavGrid o c w h) d <-> inside (NewNavGrid o c w h) d.
Proof.
  intros Hw Hh. pose proof (NewNavGrid_ok o c w h Hw Hh) as Hg. split; [apply walk_inside|]. intros Hd.
  unfold walk, Walkable. rewrite Hd. destruct (get_inside _ (walkable (NewNavGrid o c w h)) d (go_len _ Hg) Hd) as [b Hb].
  rewrite Hb. by apply get_replicate in Hb as ->.
Qed.

Lemma Block_spec g c : grid_ok g ->
  exists g', Block g c = Some g' /\ grid_ok g' /\ forall d, walk g' d <-> walk g d /\ d <> c.
Proof.
  intros Hg. unfold Block. destruct (outside g c) eqn:Eo.
  { exists g. split; [done|]. split; [done|]. intros d. split; [|by intros [? _]]. intros Hd. split; [done|].
    intros ->. apply walk_inside in Hd. unfold inside in Hd. congruence. }
  destruct (set_inside g (walkable g) c false (go_len g Hg) Eo) as (w & E & Hw & Hget). rewrite E.
  eexists. split; [done|]. split; [by destruct Hg; constructor|]. intros d. unfold walk, Walkable.
  change (outside (mkGrid _ _ _ _ w) d) with (outside g d). destruct (outside g d) eqn:Ed; [by split; [|intros [? _]]|].
  change (index (mkGrid _ _ _ _ w) d) with (index g d). simpl. rewrite Hget by done.
  case_decide; [split; [done|by intros [_ ?]]|by split; [|intros [? _]]].
Qed.

(** More fuel does not change an answer. *)
Lemma walk_back_mono fuel g s start c acc k : walk_back fuel g s start c acc <> OutOfFuel ->
  walk_back (fuel + k) g s start c acc = walk_back fuel g s start c acc.
Proof.
  revert c acc. induction fuel as [|fuel IH]; intros c acc H; simpl in *; [done|].
  repeat case_match; auto.
Qed.

Lemma search_mono fuel g start goal s k : search fuel g start goal s <> OutOfFuel ->
  search (fuel + k) g start goal s = search fuel g start goal s.
Proof.
  revert s. induction fuel as [|fuel IH]; intros s H; simpl in *; [done|].
  destruct (open s); [done|]. destruct (Pop _) as [[cur rest]|]; [|done].
  case_decide; [by apply walk_back_mono|]. destruct (expand _ _ _ _); [|done]. by apply IH.
Qed.

Lemma AStar_mono fuel g a b k : AStar fuel g a b <> OutOfFuel -> AStar (fuel + k) g a b = AStar fuel g a b.
Proof.
  unfold AStar. intros H. repeat case_match; try done. by apply search_mono.
Qed.

Lemma AStar_answer_ok fuel g a b : grid_ok g -> AStar fuel g a b <> OutOfFuel -> answer_ok g a b (AStar fuel g a b).
Proof.
  intros Hg Hf. destruct (AStar_answers g a b Hg) as (r & n & Hr & Hn).
  rewrite <- (AStar_mono fuel g a b n Hf), Hn by lia. done.
Qed.

(** C16: A* is total and complete.  On any well-formed grid, with enough fuel, [AStar]
    comes to an answer, and the answer is right: it never panics; a path it returns is the
    centres of a walk that starts in the cell of the start, ends in the cell of the goal,
    moves to one of the eight neighbours at a time, stays on walkable cells and cuts no
    corner; and when it returns none, one of the ends is not in a walkable cell or no such
    walk exists at all. *)
Theorem astar_correct (g : NavGrid) (a b : Vec2) : grid_ok g ->
  (exists n, forall fuel, (n <= fuel)%nat -> AStar fuel g a b <> OutOfFuel) /\
  forall fuel, AStar fuel g a b <> OutOfFuel -> answer_ok g a b (AStar fuel g a b).
Proof.
  intros Hg. split; [|intros fuel; by apply AStar_answer_ok].
  destruct (AStar_answers g a b Hg) as (r & n & Hr & Hn). exists n. intros fuel Hf. rewrite Hn by done. by intros ->.
Qed.

(** A wall of two cells in a grid of three by three: the walk goes around it. *)
Definition demo_grid : NavGrid :=
  let g := NewNavGrid (mkVec2 f32_zero f32_zero) f32_one 3 3 in
  default g (g ← Block g (1, 0); Block g (1, 1)).
Definition demo_at (x y : Z) : Vec2 := CellToWorld demo_grid (x, y).

Lemma demo_ok : grid_ok demo_grid.
Proof. constructor; vm_compute; congruence. Qed.

Lemma astar_correct_witness :
  AStar 50 demo_grid (demo_at 0 0) (demo_at 2 0) =
    Path (CellToWorld demo_grid <$> [(0, 0); (0, 1); (0, 2); (1, 2); (2, 2); (2, 1); (2, 0)]) /\
  answer_ok demo_grid (demo_at 0 0) (demo_at 2 0) (AStar 50 demo_grid (demo_at 0 0) (demo_at 2 0)).
Proof.
  split; [vm_compute; reflexivity|].
  refine (proj2 (astar_correct demo_grid (demo_at 0 0) (demo_at 2 0) demo_ok) 50%nat _).
  vm_compute. discriminate.
Defined.

(** ** Smoothing *)

Section Smoothed.
Context {P : Type} (Clear : P -> P -> bool).

(** What is left of [l] from its [i]-th point on: each point is followed by the last point
    in sight of it, or by its own successor when none is, up to the last point of [l]. *)
Inductive hops (l : list P) : nat -> list P -> Prop :=
| hops_end i a : l !! i = Some a -> S i = length l -> hops l i [a]
| hops_next i j a b r : l !! i = Some a -> (i < j)%nat -> l !! j = Some b ->
    Clear a b = true \/ j = S i ->
    (forall k c, (j < k)%nat -> l !! k = Some c -> Clear a c = false) ->
    hops l j (b :: r) -> hops l i (a :: b :: r).

Lemma farthest_spec l i a j : (i < j < length l)%nat ->
  (forall k c, (j < k)%nat -> l !! k = Some c -> Clear a c = false) ->
  exists b, l !! farthest Clear l i a j = Some b /\ (i < farthest Clear l i a j)%nat /\
    (Clear a b = true \/ farthest Clear l i a j = S i) /\
    forall k c, (farthest Clear l i a j < k)%nat -> l !! k = Some c -> Clear a c = false.
Proof.
  induction j as [|j IH]; intros Hj Hk; [lia|]. cbn [farthest].
  destruct (Nat.leb_spec (S j) i); [lia|]. destruct (lookup_lt_is_Some_2 l (S j)) as [b Hb]; [lia|]. rewrite Hb.
  destruct (Clear a b) eqn:Eb; [exists b; rewrite Hb, Eb; auto|].
  assert (forall k c, (j < k)%nat -> l !! k = Some c -> Clear a c = false) as Hk'.
  { intros k c Hjk Hc. destruct (decide (k = S j)) as [->|]; [by simplify_eq|]. apply (Hk k); [lia|done]. }
  destruct (decide (i < j)%nat) as [Hij|Hij]; [apply IH; [lia|done]|].
  assert (i = j) as -> by lia. assert (farthest Clear l j a j = S j) as ->.
  { destruct j; [done|]. cbn [farthest]. by rewrite Nat.leb_refl. }
  exists b. split_and!; [done|lia|by right|]. intros k c Hc. apply Hk'. lia.
Qed.

Lemma smooth_from_spec l fuel i a : l !! i = Some a -> (length l - i <= fuel)%nat ->
  hops l i (a :: smooth_from Clear fuel l i).
Proof.
  revert i a. induction fuel as [|fuel IH]; intros i a Ha Hf; [apply lookup_lt_Some in Ha; lia|].
  cbn [smooth_from]. pose proof (lookup_lt_Some _ _ _ Ha). destruct (Nat.leb_spec (length l - 1) i).
  - apply hops_end; [done|lia].
  - rewrite Ha. destruct (farthest_spec l i a (length l - 1)) as (b & Hb & Hlt & Hc & Hk); [lia| |].
    { intros k c Hk Hc. apply lookup_lt_Some in Hc. lia. }
    rewrite Hb. eapply hops_next; eauto. apply IH; [done|lia].
Qed.

Lemma smooth_hops l : l <> [] -> hops l 0 (SmoothLOS Clear l).
Proof.
  intros Hl. unfold SmoothLOS. destruct l as [|a l]; [done|]. destruct (Nat.leb_spec (length (a :: l)) 2) as [Hlen|Hlen].
  - destruct l as [|b [|c l]]; simpl in Hlen; [by apply hops_end| |lia].
    apply (hops_next _ 0 1); auto; [|by apply hops_end]. intros k c Hk Hc. apply lookup_lt_Some in Hc. simpl in Hc. lia.
  - apply smooth_from_spec; [done|lia].
Qed.

Lemma hops_head l i r : hops l i r -> head r = l !! i.
Proof. by destruct 1. Qed.

Lemma hops_last l i r : hops l i r -> last r = last l.
Proof.
  induction 1 as [i a Ha Hi|i j a b r Ha Hij Hb Hc Hk Hh IH]; [|exact IH].
  rewrite (last_lookup l). replace (pred (length l)) with i by lia. by rewrite Ha.
Qed.

(** Every leg is in sight or a leg of [l]. *)
Lemma hops_legs l i r : hops l i r -> forall k a b, r !! k = Some a -> r !! S k = Some b ->
  Clear a b = true \/ exists m, l !! m = Some a /\ l !! S m = Some b.
Proof.
  induction 1 as [i a Ha Hi|i j a b r Ha Hij Hb Hc Hk Hh IH]; intros [|k] x y Hx Hy; simplify_eq/=; [|by eapply IH].
  destruct Hc as [? | ->]; [by left|right; by exists i].
Qed.
End Smoothed.

(** The way an agent walks, A* smoothed by line of sight.  The points kept are the
    greedy choice among those of the path, each the last one in sight of the one before;
    they start at the centre of the start's cell and end at the centre of the goal's; and
    every leg is either in sight or one legal move between neighbouring cells. *)
Theorem smoothed_path (Clear : Vec2 -> Vec2 -> bool) (g : NavGrid) (a b : Vec2) (fuel : nat) (pts : list Vec2) :
  grid_ok g -> AStar fuel g a b = Path pts ->
  hops Clear pts 0 (SmoothLOS Clear pts) /\
  exists s e, standing g a s /\ standing g b e /\
    head (SmoothLOS Clear pts) = Some (CellToWorld g s) /\ last (SmoothLOS Clear pts) = Some (CellToWorld g e) /\
    forall k p q, SmoothLOS Clear pts !! k = Some p -> SmoothLOS Clear pts !! S k = Some q ->
      Clear p q = true \/ exists c d, step g c d /\ p = CellToWorld g c /\ q = CellToWorld g d.
Proof.
  intros Hg E. pose proof (AStar_answer_ok fuel g a b Hg) as H. rewrite E in H.
  destruct H as (s & e & l & Hs & He & (Hh & Hl & _ & Hst) & Ep); [done|].
  assert (hops Clear pts 0 (SmoothLOS Clear pts)) as Hhop by (apply smooth_hops; subst; by destruct l).
  split; [done|]. exists s, e. split_and!; [done|done| | |].
  - rewrite (hops_head _ _ _ _ Hhop), Ep. destruct l; [done|]. by injection Hh as ->.
  - rewrite (hops_last _ _ _ _ Hhop), Ep, fmap_last, Hl. done.
  - intros k p q Hp Hq. destruct (hops_legs _ _ _ _ Hhop k p q Hp Hq) as [?|(m & Hm & Hm')]; [by left|right].
    rewrite Ep, list_lookup_fmap, fmap_Some in Hm, Hm'.
    destruct Hm as (c & Hc & ->), Hm' as (d & Hd & ->). exists c, d. split; [by eapply Hst|done].
Qed.

(** Nothing in sight keeps every point, everything in sight leaves the two ends. *)
Lemma smoothed_path_witness :
  let see (p q : Vec2) := bool_decide (f32_lt (vX p) (vX q)) in
  let pts := CellToWorld demo_grid <$> [(0, 0); (0, 1); (0, 2); (1, 2); (2, 2); (2, 1); (2, 0)] in
  SmoothLOS see pts = CellToWorld demo_grid <$> [(0, 0); (2, 0)] /\ hops see pts 0 (SmoothLOS see pts).
Proof.
  intros see pts. split; [vm_compute; reflexivity|].
  refine (proj1 (smoothed_path see demo_grid (demo_at 0 0) (demo_at 2 0) 50 pts demo_ok _)). vm_compute. reflexivity.
Defined.
