(* ===== verification/Quantize.v ===== *)
(** * Snapshots on the wire (pkg/quantize)

    The field-by-field delta of two snapshots (delta.go) and the frame that carries full
    and delta entries to a client (wireformat.go).  A panic is [None]; a slice is bounded
    by its length.  The theorems are in [QuantizeCodec]. *)

From S2P Require Import Prelude.

(** [l[a : a+n]]. *)
Definition sub (l : bytes) (a n : Z) : option bytes :=
  if (0 <=? a) && (0 <=? n) && (a + n <=? Z.of_nat (length l))
  then Some (slice (Z.to_nat a) (Z.to_nat (a + n)) l) else None.

(** ** DeltaEncoder (delta.go) *)

Record DeltaEncoder := mkDelta {
  fieldOffsets : list Z;
  fieldSizes : list Z;
  fixedSize : Z;
  fieldCount : Z;
  bitmaskSize : Z;
  hasVarTail : bool
}.

Fixpoint offsets_from (offset : Z) (sizes : list Z) : list Z :=
  match sizes with [] => [] | s :: sizes => offset :: offsets_from (offset + s) sizes end.

Definition sum_sizes (sizes : list Z) : Z := foldl Z.add 0 sizes.

Definition NewDeltaEncoder (sizes : list Z) : DeltaEncoder :=
  let tail := bool_decide (last sizes = Some (-1)) in
  let fixed := if tail then take (length sizes - 1) sizes else sizes in
  let count := Z.of_nat (length fixed) + (if tail then 1 else 0) in
  mkDelta (offsets_from 0 fixed) fixed (sum_sizes fixed) count ((count + 7) / 8) tail.

(** [l[k] |= 1 << b] and [l[k] & (1 << b) != 0]. *)
Definition set_bit (l : bytes) (k : Z) (b : Z) : option bytes :=
  x ← l !! Z.to_nat k; Some (<[Z.to_nat k := Z.lor x (Z.shiftl 1 b)]> l).
Definition bit_set (l : bytes) (i : Z) : option bool :=
  x ← l !! Z.to_nat (i / 8); Some (negb (Z.land x (Z.shiftl 1 (i mod 8)) =? 0)).

Definition fields (d : DeltaEncoder) : list (Z * Z) := zip (fieldOffsets d) (fieldSizes d).

Fixpoint encode_fields (start i : Z) (fs : list (Z * Z)) (prev curr out : bytes) (anyChanged : bool)
  : option (bytes * bool) :=
  match fs with
  | [] => Some (out, anyChanged)
  | (off, sz) :: fs =>
      p ← sub prev off sz;
      c ← sub curr off sz;
      if decide (p = c) then encode_fields start (i + 1) fs prev curr out anyChanged
      else
        out ← set_bit out (start + i / 8) (i mod 8);
        encode_fields start (i + 1) fs prev curr (out ++ c) true
  end.

Definition readVarTail (d : DeltaEncoder) (snap : bytes) : bytes * Z :=
  let fixed := Z.to_nat (fixedSize d) in
  if (length snap <? fixed + 2)%nat then ([], 0)
  else
    let length_ := be_val (slice fixed (fixed + 2) snap) in
    let start := (fixed + 2)%nat in
    let end_ := (start + Z.to_nat length_)%nat in
    if (length snap <? end_)%nat then (drop start snap, u16 (Z.of_nat (length snap - start)))
    else (slice start end_ snap, length_).

(** The inner option is the nil slice: nothing has changed. *)
Definition Encode (d : DeltaEncoder) (prev curr out : bytes) : option (option bytes) :=
  let start := Z.of_nat (length out) in
  let out := out ++ replicate (Z.to_nat (bitmaskSize d)) 0 in
  '(out, anyChanged) ← encode_fields start 0 (fields d) prev curr out false;
  '(out, anyChanged) ←
    (if hasVarTail d then
       let tailIdx := Z.of_nat (length (fieldOffsets d)) in
       let '(prevTail, _) := readVarTail d prev in
       let '(currTail, currLen) := readVarTail d curr in
       if decide (prevTail = currTail) then Some (out, anyChanged)
       else
         out ← set_bit out (start + tailIdx / 8) (tailIdx mod 8);
         Some (out ++ be_bytes 2 currLen ++ currTail, true)
     else Some (out, anyChanged));
  Some (if (anyChanged : bool) then Some out else None).

(** [copy(base[off:off+sz], src)] of a source of that length. *)
Definition put (base : bytes) (off : Z) (src : bytes) : option bytes :=
  _ ← sub base off (Z.of_nat (length src));
  Some (take (Z.to_nat off) base ++ src ++ drop (Z.to_nat off + length src) base).

Fixpoint decode_fields (i : Z) (fs : list (Z * Z)) (base delta : bytes) (pos : Z) : option (bytes * Z) :=
  match fs with
  | [] => Some (base, pos)
  | (off, sz) :: fs =>
      changed ← bit_set delta i;
      if (changed : bool) then
        v ← sub delta pos sz;
        base ← put base off v;
        decode_fields (i + 1) fs base delta (pos + sz)
      else decode_fields (i + 1) fs base delta pos
  end.

Definition Decode (d : DeltaEncoder) (base delta : bytes) : option bytes :=
  '(base, pos) ← decode_fields 0 (fields d) base delta (bitmaskSize d);
  if hasVarTail d then
    changed ← bit_set delta (Z.of_nat (length (fieldOffsets d)));
    if (changed : bool) then
      lenb ← sub delta pos 2;
      let newLen := be_val lenb in
      tail ← sub delta (pos + 2) newLen;
      fixed ← sub base 0 (fixedSize d);
      Some (fixed ++ be_bytes 2 newLen ++ tail)
    else Some base
  else Some base.

(** ** The frame (wireformat.go) *)

Definition FrameFlagFreshSnapshot : Z := 1.
Definition FrameFlagInputAck : Z := 2.

Record FrameHeader := mkHeader {
  Tick : Z; Seq : Z; Flags : Z;
  FullCount : Z; DeltaCount : Z; RemovedCount : Z; ExitedCount : Z
}.

Record FullEntry := mkFull {
  fu_NetID : Z; fu_Epoch : Z; fu_EntityType : Z; fu_ProducedAtMs : Z;
  fu_Snapshot : bytes; fu_InitialData : bytes
}.

Record DeltaEntry := mkDeltaEntry {
  de_NetID : Z; de_Epoch : Z; de_EntityType : Z; de_ProducedAtMs : Z; de_Data : bytes
}.

(** A [uint16] length and the bytes it counts. *)
Definition counted (b : bytes) : bytes := be_bytes 2 (u16 (Z.of_nat (length b))) ++ b.

Definition encode_full (f : FullEntry) : bytes :=
  be_bytes 4 (fu_NetID f) ++ be_bytes 4 (fu_Epoch f) ++ [fu_EntityType f] ++ be_bytes 8 (fu_ProducedAtMs f) ++
  counted (fu_Snapshot f) ++
  (if (0 <? length (fu_InitialData f))%nat then counted (fu_InitialData f) else be_bytes 2 0).

Definition encode_delta (d : DeltaEntry) : bytes :=
  be_bytes 4 (de_NetID d) ++ be_bytes 4 (de_Epoch d) ++ [de_EntityType d] ++ be_bytes 8 (de_ProducedAtMs d) ++
  counted (de_Data d).

Definition count16 {A} (l : list A) : bytes := be_bytes 2 (u16 (Z.of_nat (length l))).

(** [FrameEncoder.Encode]: the buffer is reset first, so the result is a function of the
    arguments; [inputAck] is the optional last argument. *)
Definition EncodeFrame (tick seq flags : Z) (full : list FullEntry) (deltas : list DeltaEntry)
  (removed exited : list Z) (inputAck : option Z) : bytes :=
  let flags :=
    if inputAck then Z.lor flags FrameFlagInputAck else Z.ldiff flags FrameFlagInputAck in
  be_bytes 4 tick ++ be_bytes 4 seq ++ be_bytes 4 flags ++
  count16 full ++ count16 deltas ++ count16 removed ++ count16 exited ++
  concat (map encode_full full) ++ concat (map encode_delta deltas) ++
  concat (map (be_bytes 4) removed) ++ concat (map (be_bytes 4) exited) ++
  match inputAck with Some a => be_bytes 4 a | None => [] end.

(** [FrameDecoder]: the data that is left after the cursor. *)
Definition reader (A : Type) : Type := bytes -> option (A * bytes).

Definition readBytes (n : Z) : reader bytes := fun d =>
  if Z.of_nat (length d) <? n then None else Some (take (Z.to_nat n) d, drop (Z.to_nat n) d).
Definition readUint (n : nat) : reader Z := fun d =>
  '(b, d) ← readBytes (Z.of_nat n) d; Some (be_val b, d).

Definition Header : reader FrameHeader := fun d =>
  '(tick, d) ← readUint 4 d; '(seq, d) ← readUint 4 d; '(flags, d) ← readUint 4 d;
  '(fc, d) ← readUint 2 d; '(dc, d) ← readUint 2 d; '(rc, d) ← readUint 2 d; '(ec, d) ← readUint 2 d;
  Some (mkHeader tick seq flags fc dc rc ec, d).

Definition NextFull : reader FullEntry := fun d =>
  '(netID, d) ← readUint 4 d; '(epoch, d) ← readUint 4 d; '(ty, d) ← readUint 1 d; '(at_, d) ← readUint 8 d;
  '(snapLen, d) ← readUint 2 d; '(snapshot, d) ← readBytes snapLen d;
  '(initLen, d) ← readUint 2 d;
  '(init, d) ← (if 0 <? initLen then readBytes initLen d else Some ([], d));
  Some (mkFull netID epoch ty at_ snapshot init, d).

Definition NextDelta : reader DeltaEntry := fun d =>
  '(netID, d) ← readUint 4 d; '(epoch, d) ← readUint 4 d; '(ty, d) ← readUint 1 d; '(at_, d) ← readUint 8 d;
  '(deltaLen, d) ← readUint 2 d; '(data, d) ← readBytes deltaLen d;
  Some (mkDeltaEntry netID epoch ty at_ data, d).

Definition NextUint32 : reader Z := readUint 4.

Definition NextInputAck (flags : Z) (d : bytes) : option (Z * bytes) :=
  if (Z.land flags FrameFlagInputAck =? 0) || (length d <? 4)%nat then None else readUint 4 d.
