(* ===== verification/QuantizeCodec.v ===== *)
(** * The codecs of [Quantize] are exact

    Applying the delta of two snapshots to the first gives the second, and a frame is read
    back as it was written. *)

From S2P Require Import Prelude Quantize.

(** ** The bits of a mask *)

Definition bit (l : bytes) (i : Z) : bool :=
  match l !! Z.to_nat (i / 8) with Some x => Z.testbit x (i mod 8) | None => false end.

Lemma land_bit x b : 0 <= b -> negb (Z.land x (Z.shiftl 1 b) =? 0) = Z.testbit x b.
Proof.
  intros Hb. rewrite Z.shiftl_1_l. destruct (Z.testbit x b) eqn:E.
  - apply negb_true_iff, Z.eqb_neq. intros H. apply (f_equal (fun z => Z.testbit z b)) in H.
    rewrite Z.land_spec, Z.pow2_bits_true, Z.bits_0, E in H by done. done.
  - apply negb_false_iff, Z.eqb_eq, Z.bits_inj'. intros n Hn. rewrite Z.land_spec, Z.bits_0.
    destruct (decide (n = b)) as [->|]; [by rewrite E|]. rewrite Z.pow2_bits_false by done. apply andb_false_r.
Qed.

Lemma byte_of i n : 0 <= i < 8 * n -> 0 <= i / 8 < n /\ 0 <= i mod 8 < 8.
Proof. intros Hi. split; [split; [apply Z.div_pos; lia|apply Z.div_lt_upper_bound; lia]|apply Z.mod_pos_bound; lia]. Qed.

Lemma bit_set_spec l r i : 0 <= i < 8 * Z.of_nat (length l) -> bit_set (l ++ r) i = Some (bit l i).
Proof.
  intros Hi. destruct (byte_of i _ Hi) as [Hk Hm]. unfold bit_set, bit.
  rewrite lookup_app_l by lia. destruct (lookup_lt_is_Some_2 l (Z.to_nat (i / 8))) as [x ->]; [lia|].
  simpl. by rewrite land_bit by lia.
Qed.

(** Setting a bit of the mask that stands between [pre] and [pay]. *)
Lemma set_bit_spec pre mask pay i : 0 <= i < 8 * Z.of_nat (length mask) ->
  exists mask', set_bit (pre ++ mask ++ pay) (Z.of_nat (length pre) + i / 8) (i mod 8) = Some (pre ++ mask' ++ pay) /\
    length mask' = length mask /\
    forall j, 0 <= j < 8 * Z.of_nat (length mask) -> bit mask' j = bit mask j || (i =? j).
Proof.
  intros Hi. destruct (byte_of i _ Hi) as [Hk Hm]. unfold set_bit.
  rewrite Z2Nat.inj_add, Nat2Z.id by lia. rewrite lookup_app_r by lia.
  replace (length pre + Z.to_nat (i / 8) - length pre)%nat with (Z.to_nat (i / 8)) by lia.
  rewrite lookup_app_l by lia. destruct (lookup_lt_is_Some_2 mask (Z.to_nat (i / 8))) as [x Hx]; [lia|].
  rewrite Hx. cbn [option_bind mbind]. rewrite insert_app_r, insert_app_l by lia. eexists. split; [reflexivity|]. split; [by rewrite length_insert|]. intros j Hj.
  destruct (byte_of j _ Hj) as [Hkj Hmj]. unfold bit. pose proof (Z.div_mod i 8). pose proof (Z.div_mod j 8).
  destruct (decide (i / 8 = j / 8)) as [E|E].
  - rewrite <- E, Hx, list_lookup_insert_eq by lia. rewrite Z.lor_spec, Z.shiftl_1_l. f_equal.
    destruct (Z.eqb_spec i j) as [->|Hne]; [apply Z.pow2_bits_true; lia|]. apply Z.pow2_bits_false. lia.
  - rewrite list_lookup_insert_ne by lia. destruct (Z.eqb_spec i j); [by subst|]. by rewrite orb_false_r.
Qed.

(** ** The fields *)

Lemma sub_spec l a n : 0 <= a -> 0 <= n -> a + n <= Z.of_nat (length l) ->
  sub l a n = Some (slice (Z.to_nat a) (Z.to_nat (a + n)) l).
Proof.
  intros. unfold sub. destruct (Z.leb_spec 0 a), (Z.leb_spec 0 n), (Z.leb_spec (a + n) (Z.of_nat (length l))); simpl; try done; lia.
Qed.

Lemma length_slice {A} a b (l : list A) : (a <= b <= length l)%nat -> length (slice a b l) = (b - a)%nat.
Proof. intros H. unfold slice. rewrite length_take, length_drop. lia. Qed.

Lemma sub_middle l1 l2 r l a n : l = l1 ++ l2 ++ r -> a = Z.of_nat (length l1) -> n = Z.of_nat (length l2) -> sub l a n = Some l2.
Proof.
  intros -> -> ->. rewrite sub_spec by (rewrite ?length_app; lia). f_equal.
  rewrite slice_app_skip by lia. replace (_ - _)%nat with 0%nat by lia. apply slice_app_here. lia.
Qed.

Lemma sum_sizes_cons s ns : sum_sizes (s :: ns) = s + sum_sizes ns.
Proof.
  assert (forall l a, foldl Z.add a l = a + foldl Z.add 0 l) as H.
  { induction l as [|x l IH]; intros a; cbn [foldl]; [lia|]. rewrite (IH (a + x)), (IH (0 + x)). lia. }
  unfold sum_sizes. cbn [foldl]. rewrite H. lia.
Qed.

Lemma sum_sizes_nonneg ns : Forall (Z.le 0) ns -> 0 <= sum_sizes ns.
Proof. induction 1 as [|s ns Hs H IH]; [done|]. rewrite sum_sizes_cons. lia. Qed.

Definition cut (l : bytes) (o s : Z) : bytes := slice (Z.to_nat o) (Z.to_nat (o + s)) l.
Definition differs (prev curr : bytes) (o s : Z) : bool := bool_decide (cut prev o s <> cut curr o s).

(** The fields that changed, from the offset [o] on: one flag for each, and their bytes. *)
Fixpoint flags (prev curr : bytes) (o : Z) (ns : list Z) : list bool :=
  match ns with [] => [] | s :: ns => differs prev curr o s :: flags prev curr (o + s) ns end.
Fixpoint payload (prev curr : bytes) (o : Z) (ns : list Z) : bytes :=
  match ns with
  | [] => []
  | s :: ns => (if differs prev curr o s then cut curr o s else []) ++ payload prev curr (o + s) ns
  end.

Definition flag_at (fl : list bool) (j : Z) : bool :=
  if j <? 0 then false else default false (fl !! Z.to_nat j).

Lemma flag_at_cons b fl j : flag_at (b :: fl) j = if j =? 0 then b else flag_at fl (j - 1).
Proof.
  unfold flag_at. destruct (Z.eqb_spec j 0) as [->|]; [done|]. destruct (Z.ltb_spec j 0), (Z.ltb_spec (j - 1) 0); [done|lia|lia|].
  by replace (Z.to_nat j) with (S (Z.to_nat (j - 1))) by lia.
Qed.

Section Fields.
Context (prev curr : bytes).

Lemma encode_fields_spec ns : forall pre mask pay i o any,
  Forall (Z.le 0) ns -> 0 <= o -> 0 <= i -> i + Z.of_nat (length ns) <= 8 * Z.of_nat (length mask) ->
  o + sum_sizes ns <= Z.of_nat (length prev) -> o + sum_sizes ns <= Z.of_nat (length curr) ->
  exists mask', encode_fields (Z.of_nat (length pre)) i (zip (offsets_from o ns) ns) prev curr (pre ++ mask ++ pay) any
      = Some (pre ++ mask' ++ pay ++ payload prev curr o ns, any || existsb id (flags prev curr o ns)) /\
    length mask' = length mask /\
    forall j, 0 <= j < 8 * Z.of_nat (length mask) -> bit mask' j = bit mask j || flag_at (flags prev curr o ns) (j - i).
Proof.
  induction ns as [|s ns IH]; intros pre mask pay i o any Hns Ho Hi Hbits Hp Hc.
  { exists mask. simpl. rewrite app_nil_r, orb_false_r. split; [done|]. split; [done|]. intros j Hj.
    unfold flag_at. destruct (_ <? _); [|rewrite lookup_nil]; simpl; by rewrite orb_false_r. }
  apply Forall_cons in Hns as [Hs Hns]. rewrite sum_sizes_cons in Hp, Hc. pose proof (sum_sizes_nonneg ns Hns).
  cbn [offsets_from zip zip_with encode_fields flags payload existsb length] in *.
  rewrite !sub_spec by lia. cbn [option_bind mbind]. fold (cut prev o s) (cut curr o s).
  destruct (decide (cut prev o s = cut curr o s)) as [E|E].
  - destruct (IH pre mask pay (i + 1) (o + s) any) as (mask' & Hr & Hl & Hb); [done|lia..|].
    assert (differs prev curr o s = false) as -> by (unfold differs; by apply bool_decide_eq_false_2; auto).
    exists mask'. split; [exact Hr|]. split; [done|]. intros j Hj. rewrite Hb, flag_at_cons by done.
    replace (j - (i + 1)) with (j - i - 1) by lia. destruct (Z.eqb_spec (j - i) 0) as [E0|]; [|done]. by rewrite E0.
  - destruct (set_bit_spec pre mask pay i) as (m1 & Hm1 & Hl1 & Hb1); [lia|]. rewrite Hm1. cbn [option_bind mbind].
    assert (differs prev curr o s = true) as -> by (unfold differs; by apply bool_decide_eq_true_2).
    rewrite <- !app_assoc.
    destruct (IH pre m1 (pay ++ cut curr o s) (i + 1) (o + s) true) as (mask' & Hr & Hl & Hb); [done|lia..|].
    rewrite <- !app_assoc in Hr. exists mask'. split; [rewrite Hr; simpl; by rewrite orb_true_r|].
    split; [lia|]. intros j Hj. rewrite Hb, Hb1, flag_at_cons by lia. rewrite <- orb_assoc. f_equal.
    replace (j - (i + 1)) with (j - i - 1) by lia.
    destruct (Z.eqb_spec i j), (Z.eqb_spec (j - i) 0); try lia; done.
Qed.

Lemma put_spec o s : 0 <= o -> 0 <= s -> o + s <= Z.of_nat (length prev) -> o + s <= Z.of_nat (length curr) ->
  put (take (Z.to_nat o) curr ++ drop (Z.to_nat o) prev) o (cut curr o s)
  = Some (take (Z.to_nat (o + s)) curr ++ drop (Z.to_nat (o + s)) prev).
Proof.
  intros Ho Hs Hp Hc. unfold put, cut. rewrite length_slice, sub_spec by (try rewrite length_app, length_take, length_drop; lia).
  cbn [option_bind mbind]. f_equal.
  rewrite take_app_le, take_take, drop_app_ge by (rewrite length_take; lia). rewrite length_take, drop_drop.
  rewrite Nat.min_l, Nat.min_l by lia. rewrite app_assoc. f_equal; [|f_equal; lia].
  pose proof (slice_join 0 (Z.to_nat o) (Z.to_nat (o + s)) curr ltac:(lia)) as E. unfold slice in *.
  by rewrite drop_0, !Nat.sub_0_r in E.
Qed.

Lemma step_equal o s : 0 <= o -> 0 <= s -> cut prev o s = cut curr o s ->
  take (Z.to_nat o) curr ++ drop (Z.to_nat o) prev = take (Z.to_nat (o + s)) curr ++ drop (Z.to_nat (o + s)) prev.
Proof.
  intros Ho Hs E. rewrite <- (take_drop (Z.to_nat s) (drop (Z.to_nat o) prev)), drop_drop, app_assoc.
  replace (Z.to_nat o + Z.to_nat s)%nat with (Z.to_nat (o + s)) by lia. f_equal.
  unfold cut, slice in E. replace (Z.to_nat (o + s) - Z.to_nat o)%nat with (Z.to_nat s) in E by lia. rewrite E.
  pose proof (slice_join 0 (Z.to_nat o) (Z.to_nat (o + s)) curr ltac:(lia)) as J. unfold slice in J.
  rewrite drop_0, !Nat.sub_0_r in J. by replace (Z.to_nat (o + s) - Z.to_nat o)%nat with (Z.to_nat s) in J by lia.
Qed.

Lemma decode_fields_spec ns : forall mask done_ rest i o,
  Forall (Z.le 0) ns -> 0 <= o -> 0 <= i -> i + Z.of_nat (length ns) <= 8 * Z.of_nat (length mask) ->
  o + sum_sizes ns <= Z.of_nat (length prev) -> o + sum_sizes ns <= Z.of_nat (length curr) ->
  (forall j, i <= j < i + Z.of_nat (length ns) -> bit mask j = flag_at (flags prev curr o ns) (j - i)) ->
  decode_fields i (zip (offsets_from o ns) ns) (take (Z.to_nat o) curr ++ drop (Z.to_nat o) prev)
    (mask ++ done_ ++ payload prev curr o ns ++ rest) (Z.of_nat (length mask + length done_))
  = Some (take (Z.to_nat (o + sum_sizes ns)) curr ++ drop (Z.to_nat (o + sum_sizes ns)) prev,
          Z.of_nat (length mask + length done_ + length (payload prev curr o ns))).
Proof.
  induction ns as [|s ns IH]; intros mask done_ rest i o Hns Ho Hi Hbits Hp Hc Hm.
  { change (sum_sizes []) with 0. by rewrite Z.add_0_r, Nat.add_0_r. }
  apply Forall_cons in Hns as [Hs Hns]. rewrite sum_sizes_cons in *. pose proof (sum_sizes_nonneg ns Hns).
  cbn [offsets_from zip zip_with decode_fields flags payload length] in *. rewrite bit_set_spec by lia. cbn [option_bind mbind].
  rewrite (Hm i), Z.sub_diag by lia. cbn [flag_at]. unfold flag_at at 1. cbn [Z.ltb Z.compare lookup].
  assert (forall j, i + 1 <= j < i + 1 + Z.of_nat (length ns) -> bit mask j = flag_at (flags prev curr (o + s) ns) (j - (i + 1))) as Hm'.
  { intros j Hj. rewrite Hm, flag_at_cons by lia. destruct (Z.eqb_spec (j - i) 0); [lia|]. by replace (j - i - 1) with (j - (i + 1)) by lia. }
  change (default false ((differs prev curr o s :: flags prev curr (o + s) ns) !! Z.to_nat 0)) with (differs prev curr o s).
  destruct (differs prev curr o s) eqn:Ed.
  - assert (length (cut curr o s) = Z.to_nat s) as Hlc by (unfold cut; rewrite length_slice; lia).
    rewrite (sub_middle (mask ++ done_) (cut curr o s) (payload prev curr (o + s) ns ++ rest))
      by (rewrite ?length_app, <- ?app_assoc; done || lia). cbn [option_bind mbind].
    rewrite put_spec by lia. cbn [option_bind mbind].
    specialize (IH mask (done_ ++ cut curr o s) rest (i + 1) (o + s) Hns ltac:(lia) ltac:(lia) ltac:(lia) ltac:(lia) ltac:(lia) Hm').
    rewrite !length_app, Hlc, <- !app_assoc in IH. rewrite length_app, Hlc, <- app_assoc, Z.add_assoc.
    replace (Z.of_nat (length mask + length done_) + s) with (Z.of_nat (length mask + (length done_ + Z.to_nat s))) by lia.
    rewrite IH. do 2 f_equal. lia.
  - apply bool_decide_eq_false, dec_stable in Ed. rewrite (step_equal o s) by done. cbn [app].
    rewrite (IH mask done_ rest (i + 1) (o + s)) by (done || lia). by rewrite Z.add_assoc.
Qed.
End Fields.

Lemma flags_none prev curr ns : forall o, Forall (Z.le 0) ns -> 0 <= o -> existsb id (flags prev curr o ns) = false ->
  take (Z.to_nat o) curr ++ drop (Z.to_nat o) prev
  = take (Z.to_nat (o + sum_sizes ns)) curr ++ drop (Z.to_nat (o + sum_sizes ns)) prev.
Proof.
  induction ns as [|s ns IH]; intros o Hns Ho E; [change (sum_sizes []) with 0; by rewrite Z.add_0_r|].
  apply Forall_cons in Hns as [Hs Hns]. simpl in E. apply orb_false_iff in E as [Ed E].
  apply bool_decide_eq_false, dec_stable in Ed. rewrite (step_equal prev curr o s Ho Hs Ed), sum_sizes_cons, Z.add_assoc.
  apply IH; [done|lia|done].
Qed.

Lemma flags_same l ns : forall o, existsb id (flags l l o ns) = false.
Proof.
  induction ns as [|s ns IH]; intros o; [done|]. simpl. rewrite IH, orb_false_r.
  apply bool_decide_eq_false. by intros [].
Qed.

Lemma length_flags prev curr ns : forall o, length (flags prev curr o ns) = length ns.
Proof. induction ns as [|s ns IH]; intros o; simpl; auto. Qed.

Lemma length_offsets ns : forall o, length (offsets_from o ns) = length ns.
Proof. induction ns as [|s ns IH]; intros o; simpl; auto. Qed.

(** ** Deltas *)

(** Every field has a size (only a last -1 may be negative). *)
Definition layout_ok (d : DeltaEncoder) (sizes : list Z) : Prop := d = NewDeltaEncoder sizes /\ Forall (Z.le 0) (fieldSizes d).

(** The fixed fields, and the tail behind its length where the layout has one. *)
Definition snapshot_ok (d : DeltaEncoder) (s : bytes) : Prop :=
  if hasVarTail d then
    exists fixed tail, s = fixed ++ be_bytes 2 (Z.of_nat (length tail)) ++ tail /\
      Z.of_nat (length fixed) = fixedSize d /\ Z.of_nat (length tail) < 2 ^ 16
  else Z.of_nat (length s) = fixedSize d.

Lemma be_u16_len {A} (l : list A) : Z.of_nat (length l) < 2 ^ 16 -> be_val (be_bytes 2 (Z.of_nat (length l))) = Z.of_nat (length l).
Proof. intros H. rewrite be_val_bytes. apply Z.mod_small. change (256 ^ Z.of_nat 2) with (2 ^ 16). lia. Qed.

Lemma readVarTail_spec d fixed tail : Z.of_nat (length fixed) = fixedSize d -> Z.of_nat (length tail) < 2 ^ 16 ->
  readVarTail d (fixed ++ be_bytes 2 (Z.of_nat (length tail)) ++ tail) = (tail, Z.of_nat (length tail)).
Proof.
  intros Hf Ht. unfold readVarTail. rewrite <- Hf, Nat2Z.id.
  destruct (Nat.ltb_spec (length (fixed ++ be_bytes 2 (Z.of_nat (length tail)) ++ tail)) (length fixed + 2)) as [Hlt|_].
  { rewrite !length_app, length_be_bytes in Hlt. lia. }
  assert (slice (length fixed) (length fixed + 2) (fixed ++ be_bytes 2 (Z.of_nat (length tail)) ++ tail) = be_bytes 2 (Z.of_nat (length tail))) as ->.
  { rewrite slice_app_skip by lia. replace (_ - length fixed)%nat with 0%nat by lia.
    replace (_ + 2 - length fixed)%nat with 2%nat by lia. apply slice_app_here, length_be_bytes. }
  rewrite be_u16_len, Nat2Z.id by done.
  destruct (Nat.ltb_spec (length (fixed ++ be_bytes 2 (Z.of_nat (length tail)) ++ tail)) (length fixed + 2 + length tail)) as [Hlt|_].
  { rewrite !length_app, length_be_bytes in Hlt. lia. }
  f_equal. rewrite app_assoc, slice_app_skip by (rewrite length_app, length_be_bytes; lia).
  rewrite length_app, length_be_bytes. replace (_ - _)%nat with 0%nat by lia. apply slice_all. lia.
Qed.

Lemma snapshot_long d s : snapshot_ok d s -> fixedSize d <= Z.of_nat (length s).
Proof.
  unfold snapshot_ok. destruct (hasVarTail d); [|lia]. intros (f & t & -> & Hf & _). rewrite length_app. lia.
Qed.

Section Delta.
Context (d : DeltaEncoder) (sizes : list Z) (Hd : layout_ok d sizes).
Let ns := fieldSizes d.

Lemma layout_facts : Forall (Z.le 0) ns /\ fieldOffsets d = offsets_from 0 ns /\ fixedSize d = sum_sizes ns /\
  Z.of_nat (length ns) + (if hasVarTail d then 1 else 0) <= 8 * bitmaskSize d /\ 0 <= bitmaskSize d.
Proof.
  destruct Hd as [E Hns]. split; [done|]. subst ns. rewrite E. unfold NewDeltaEncoder. simpl. split; [done|]. split; [done|].
  set (n := Z.of_nat _ + _). assert (0 <= n) by (unfold n; case_match; lia).
  pose proof (Z.div_mod (n + 7) 8). pose proof (Z.mod_pos_bound (n + 7) 8). lia.
Qed.

Lemma zeros_bit n j : bit (replicate n 0) j = false.
Proof. unfold bit. destruct (_ !! _) as [x|] eqn:E; [|done]. apply lookup_replicate in E as [-> _]. apply Z.bits_0. Qed.

(** The delta of two snapshots: its mask, the changed fields and the tail if it changed. *)
Definition tail_of (s : bytes) : bytes := (readVarTail d s).1.
Definition tail_changed (prev curr : bytes) : bool := hasVarTail d && bool_decide (tail_of prev <> tail_of curr).

Lemma Encode_spec prev curr : snapshot_ok d prev -> snapshot_ok d curr ->
  exists mask, Z.of_nat (length mask) = bitmaskSize d /\
    (forall j, 0 <= j < Z.of_nat (length ns) -> bit mask j = flag_at (flags prev curr 0 ns) j) /\
    (hasVarTail d = true -> bit mask (Z.of_nat (length ns)) = tail_changed prev curr) /\
    Encode d prev curr [] = Some (if existsb id (flags prev curr 0 ns) || tail_changed prev curr then
      Some (mask ++ payload prev curr 0 ns ++
        (if tail_changed prev curr then be_bytes 2 (Z.of_nat (length (tail_of curr))) ++ tail_of curr else [])) else None).
Proof.
  intros Hp Hc. destruct layout_facts as (Hns & Eo & Ef & Hb & Hb0).
  pose proof (snapshot_long d prev Hp) as Lp. pose proof (snapshot_long d curr Hc) as Lc.
  unfold Encode. cbn [app length Z.of_nat]. set (zeros := replicate (Z.to_nat (bitmaskSize d)) 0).
  assert (Z.of_nat (length zeros) = bitmaskSize d) as Lz by (unfold zeros; rewrite length_replicate; lia).
  destruct (encode_fields_spec prev curr ns [] zeros [] 0 0 false) as (m1 & E1 & L1 & B1); [done|destruct (hasVarTail d); lia..|].
  simpl in E1. rewrite app_nil_r in E1. unfold fields. rewrite Eo. fold ns. rewrite E1. cbn [option_bind mbind].
  assert (forall j, 0 <= j < 8 * bitmaskSize d -> bit m1 j = flag_at (flags prev curr 0 ns) j) as B1'.
  { intros j Hj. rewrite B1 by lia. unfold zeros. rewrite zeros_bit. simpl. by rewrite Z.sub_0_r. }
  assert (flag_at (flags prev curr 0 ns) (Z.of_nat (length ns)) = false) as Hend.
  { unfold flag_at. destruct (_ <? _); [done|]. rewrite Nat2Z.id, lookup_ge_None_2; [done|].
    by rewrite length_flags. }
  unfold tail_changed, tail_of in *. unfold snapshot_ok in Hp, Hc. destruct (hasVarTail d) eqn:Ev; simpl.
  - rewrite length_offsets. destruct Hp as (fp & tp & -> & Hfp & Htp), Hc as (fc & tc & -> & Hfc & Htc).
    rewrite !readVarTail_spec in * by done. simpl in *. case_decide as Et.
    + exists m1. split; [lia|]. split; [intros j Hj; apply B1'; lia|]. rewrite bool_decide_eq_false_2 by (intros H; by apply H).
      split; [intros _; rewrite B1', Hend by lia; done|]. simpl. by rewrite orb_false_r, app_nil_r.
    + destruct (set_bit_spec [] m1 (payload (fp ++ be_bytes 2 (Z.of_nat (length tp)) ++ tp) (fc ++ be_bytes 2 (Z.of_nat (length tc)) ++ tc) 0 ns) (Z.of_nat (length ns)))
        as (m2 & E2 & L2 & B2); [lia|].
      simpl in E2. rewrite E2. simpl. exists m2. split; [lia|]. rewrite bool_decide_eq_true_2 by done.
      split; [|split].
      * intros j Hj. rewrite B2, B1' by lia. destruct (Z.eqb_spec (Z.of_nat (length ns)) j); [lia|]. by rewrite orb_false_r.
      * intros _. rewrite B2, Z.eqb_refl by lia. apply orb_true_r.
      * rewrite orb_true_r. by rewrite <- app_assoc.
  - exists m1. split; [lia|]. split; [intros j Hj; apply B1'; lia|]. split; [done|]. simpl. by rewrite orb_false_r, app_nil_r.
Qed.

(** What is left of [prev] when the fixed fields of [curr] are in place. *)
Definition patched (prev curr : bytes) : bytes :=
  take (Z.to_nat (fixedSize d)) curr ++ drop (Z.to_nat (fixedSize d)) prev.

Lemma patched_same prev curr : snapshot_ok d prev -> snapshot_ok d curr -> tail_changed prev curr = false ->
  patched prev curr = curr.
Proof.
  unfold snapshot_ok, tail_changed, tail_of, patched. destruct (hasVarTail d); cbn [andb].
  - intros (fp & tp & -> & Hfp & Htp) (fc & tc & -> & Hfc & Htc). rewrite !readVarTail_spec by done. cbn [fst].
    intros E. apply bool_decide_eq_false, dec_stable in E as ->.
    by rewrite take_app_length', drop_app_length' by lia.
  - intros Hp Hc _. rewrite firstn_all2, drop_ge by lia. apply app_nil_r.
Qed.

Lemma patched_tail prev curr : snapshot_ok d prev -> snapshot_ok d curr -> tail_changed prev curr = true ->
  hasVarTail d = true /\ Z.of_nat (length (tail_of curr)) < 2 ^ 16 /\
  exists fixed, sub (patched prev curr) 0 (fixedSize d) = Some fixed /\
    curr = fixed ++ be_bytes 2 (Z.of_nat (length (tail_of curr))) ++ tail_of curr.
Proof.
  unfold snapshot_ok, tail_changed, tail_of, patched. destruct (hasVarTail d); [|done].
  intros (fp & tp & -> & Hfp & Htp) (fc & tc & -> & Hfc & Htc) _. split; [done|].
  rewrite (readVarTail_spec d fc tc) by done. cbn [fst]. split; [done|]. exists fc. split; [|done].
  apply (sub_middle [] fc (drop (Z.to_nat (fixedSize d)) (fp ++ be_bytes 2 (Z.of_nat (length tp)) ++ tp))); [|done|lia].
  by rewrite take_app_length' by lia.
Qed.

Lemma Decode_spec prev curr mask tail : snapshot_ok d prev -> snapshot_ok d curr ->
  Z.of_nat (length mask) = bitmaskSize d ->
  (forall j, 0 <= j < Z.of_nat (length ns) -> bit mask j = flag_at (flags prev curr 0 ns) j) ->
  (hasVarTail d = true -> bit mask (Z.of_nat (length ns)) = tail_changed prev curr) ->
  tail = (if tail_changed prev curr then be_bytes 2 (Z.of_nat (length (tail_of curr))) ++ tail_of curr else []) ->
  Decode d prev (mask ++ payload prev curr 0 ns ++ tail) = Some curr.
Proof.
  intros Hp Hc Lm Hbits Htail ->. destruct layout_facts as (Hns & Eo & Ef & Hb & Hb0).
  pose proof (snapshot_long d prev Hp) as Lp. pose proof (snapshot_long d curr Hc) as Lc.
  set (tail := if tail_changed prev curr then _ else _).
  pose proof (decode_fields_spec prev curr ns mask [] tail 0 0 Hns ltac:(lia) ltac:(lia) ltac:(destruct (hasVarTail d); lia) ltac:(lia) ltac:(lia)) as E.
  rewrite !Z.add_0_l, <- Ef in E. fold (patched prev curr) in E. change (Z.to_nat 0) with 0%nat in E.
  rewrite take_0, drop_0 in E. cbn [app length] in E. rewrite Nat.add_0_r, Lm in E. unfold Decode, fields. rewrite Eo. fold ns.
  rewrite E by (intros j Hj; rewrite Z.sub_0_r; apply Hbits; lia). cbn [option_bind mbind].
  destruct (hasVarTail d) eqn:Ev; [|by rewrite patched_same by (done || (unfold tail_changed; by rewrite Ev))].
  rewrite length_offsets, bit_set_spec, Htail by (done || lia). cbn [option_bind mbind].
  subst tail. clear E Htail. destruct (tail_changed prev curr) eqn:Et; [|by rewrite patched_same].
  destruct (patched_tail prev curr Hp Hc Et) as (_ & Lt & fixed & Efix & Ecurr).
  set (delta := mask ++ payload prev curr 0 ns ++ be_bytes 2 _ ++ _).
  rewrite (sub_middle (mask ++ payload prev curr 0 ns) (be_bytes 2 (Z.of_nat (length (tail_of curr)))) (tail_of curr) delta)
    by (rewrite ?length_app, ?length_be_bytes, <- ?app_assoc; done || lia).
  cbn [option_bind mbind]. rewrite be_u16_len by done.
  rewrite (sub_middle (mask ++ payload prev curr 0 ns ++ be_bytes 2 (Z.of_nat (length (tail_of curr)))) (tail_of curr) [] delta)
    by (unfold delta; rewrite ?length_app, ?length_be_bytes, <- ?app_assoc, ?app_nil_r; done || lia).
  cbn [option_bind mbind]. rewrite Efix. cbn [option_bind mbind]. by rewrite <- Ecurr.
Qed.

Lemma delta_correct prev curr : snapshot_ok d prev -> snapshot_ok d curr ->
  match Encode d prev curr [] with
  | Some None => prev = curr
  | Some (Some delta) => prev <> curr /\ Decode d prev delta = Some curr
  | None => False
  end.
Proof.
  intros Hp Hc. destruct (Encode_spec prev curr Hp Hc) as (mask & Lm & Hbits & Htail & ->).
  destruct layout_facts as (Hns & Eo & Ef & Hb & Hb0).
  destruct (existsb id _ || tail_changed prev curr) eqn:Eany.
  - split; [|by apply Decode_spec]. intros <-. rewrite flags_same in Eany. unfold tail_changed in Eany.
    rewrite bool_decide_eq_false_2, andb_false_r in Eany by (intros H; by apply H). done.
  - apply orb_false_iff in Eany as [Efl Et]. rewrite <- (patched_same prev curr Hp Hc Et).
    pose proof (flags_none prev curr ns 0 Hns ltac:(lia) Efl) as E. rewrite Z.add_0_l, <- Ef in E. simpl in E.
    by rewrite drop_0 in E.
Qed.
End Delta.

(** C24: A delta says exactly what changed.  For two snapshots of a layout, [Encode] gives
    no delta only when they are equal, and otherwise a delta that turns the first into the
    second. *)
Theorem delta_exact (d : DeltaEncoder) (sizes : list Z) (prev curr : bytes) :
  layout_ok d sizes -> snapshot_ok d prev -> snapshot_ok d curr ->
  match Encode d prev curr [] with
  | Some None => prev = curr
  | Some (Some delta) => prev <> curr /\ Decode d prev delta = Some curr
  | None => False
  end.
Proof. intros Hd. exact (delta_correct d sizes Hd prev curr). Qed.

(** Ten fields, so that the mask has two bytes, and a tail that shrinks. *)
Lemma delta_exact_witness :
  let d := NewDeltaEncoder [1; 1; 2; 1; 1; 1; 1; 1; 1; 4; -1] in
  let prev := [0; 1; 2; 3; 4; 5; 6; 7; 8; 9; 10; 11; 12; 13] ++ [0; 3] ++ [21; 22; 23] in
  let curr := [0; 7; 2; 9; 4; 5; 6; 7; 8; 9; 10; 11; 12; 99] ++ [0; 1] ++ [21] in
  Encode d prev curr [] = Some (Some ([6; 6] ++ [7] ++ [2; 9] ++ [10; 11; 12; 99] ++ [0; 1; 21])) /\
  (prev <> curr /\ Decode d prev ([6; 6] ++ [7] ++ [2; 9] ++ [10; 11; 12; 99] ++ [0; 1; 21]) = Some curr).
Proof.
  intros d prev curr. split; [reflexivity|].
  refine (delta_exact d [1; 1; 2; 1; 1; 1; 1; 1; 1; 4; -1] prev curr _ _ _).
  - split; [done|]. vm_compute. repeat constructor; discriminate.
  - exists (take 14 prev), [21; 22; 23]. done.
  - exists (take 14 curr), [21]. done.
Defined.

(** ** Frames *)

(** A counted loop of a client over a decoder. *)
Fixpoint read_n {A} (rd : reader A) (n : nat) : reader (list A) := fun d =>
  match n with
  | O => Some ([], d)
  | S n => '(x, d) ← rd d; '(l, d) ← read_n rd n d; Some (x :: l, d)
  end.

(** A client that reads a whole frame in the order its counts announce. *)
Definition ReadFrame (d : bytes) : option (FrameHeader * list FullEntry * list DeltaEntry * list Z * list Z * option Z) :=
  '(h, d) ← Header d;
  '(full, d) ← read_n NextFull (Z.to_nat (FullCount h)) d;
  '(deltas, d) ← read_n NextDelta (Z.to_nat (DeltaCount h)) d;
  '(removed, d) ← read_n NextUint32 (Z.to_nat (RemovedCount h)) d;
  '(exited, d) ← read_n NextUint32 (Z.to_nat (ExitedCount h)) d;
  Some (h, full, deltas, removed, exited, fst <$> NextInputAck (Flags h) d).

Definition short {A} (l : list A) : Prop := Z.of_nat (length l) < 2 ^ 16.
Definition full_fits (f : FullEntry) : Prop :=
  in_u32 (fu_NetID f) /\ in_u32 (fu_Epoch f) /\ in_u8 (fu_EntityType f) /\ in_u64 (fu_ProducedAtMs f) /\
  short (fu_Snapshot f) /\ short (fu_InitialData f).
Definition delta_fits (d : DeltaEntry) : Prop :=
  in_u32 (de_NetID d) /\ in_u32 (de_Epoch d) /\ in_u8 (de_EntityType d) /\ in_u64 (de_ProducedAtMs d) /\ short (de_Data d).

Lemma readBytes_app n (b r : bytes) : Z.of_nat (length b) = n -> readBytes n (b ++ r) = Some (b, r).
Proof.
  intros <-. unfold readBytes. rewrite length_app, Nat2Z.id, take_app_length, drop_app_length.
  by destruct (Z.ltb_spec (Z.of_nat (length b + length r)) (Z.of_nat (length b))); [lia|].
Qed.

Lemma readUint_app n z r : 0 <= z < 256 ^ Z.of_nat n -> readUint n (be_bytes n z ++ r) = Some (z, r).
Proof.
  intros Hz. unfold readUint. rewrite readBytes_app by (by rewrite length_be_bytes). simpl.
  by rewrite be_val_bytes, Z.mod_small.
Qed.

Lemma readUint_byte z r : in_u8 z -> readUint 1 (z :: r) = Some (z, r).
Proof.
  intros Hz. unfold in_u8 in Hz. rewrite <- (readUint_app 1 z r) by done. unfold be_bytes. simpl. by rewrite Z.mod_small.
Qed.

Lemma u16_short {A} (l : list A) : short l -> u16 (Z.of_nat (length l)) = Z.of_nat (length l).
Proof. intros H. apply u16_id. unfold short in H. unfold in_u16. lia. Qed.

Lemma read_counted b r : short b -> ('(n, d) ← readUint 2 (counted b ++ r); readBytes n d) = Some (b, r).
Proof.
  intros Hb. unfold counted. rewrite u16_short, <- app_assoc by done.
  rewrite readUint_app by (unfold short in Hb; change (256 ^ Z.of_nat 2) with (2 ^ 16); lia). simpl.
  by rewrite readBytes_app.
Qed.

Ltac read_field := first
  [ rewrite readUint_app by (first [done | unfold short, in_u32, in_u64 in *; change (256 ^ Z.of_nat 2) with (2 ^ 16); lia])
  | rewrite readUint_byte by done
  | rewrite readBytes_app by done ]; cbn [option_bind mbind].

Lemma NextFull_encode f r : full_fits f -> NextFull (encode_full f ++ r) = Some (f, r).
Proof.
  intros (H1 & H2 & H3 & H4 & H5 & H6). unfold NextFull, encode_full, counted. rewrite !u16_short by done.
  rewrite <- !app_assoc. do 2 read_field. cbn [app]. do 4 read_field.
  destruct (Nat.ltb_spec 0 (length (fu_InitialData f))) as [Hl|Hl].
  - rewrite <- app_assoc. read_field. destruct (Z.ltb_spec 0 (Z.of_nat (length (fu_InitialData f)))); [|lia].
    read_field. by destruct f.
  - rewrite readUint_app by done. cbn [option_bind mbind Z.ltb Z.compare]. destruct f as [? ? ? ? ? init]. simpl in Hl.
    by destruct init; [|simpl in Hl; lia].
Qed.

Lemma NextDelta_encode e r : delta_fits e -> NextDelta (encode_delta e ++ r) = Some (e, r).
Proof.
  intros (H1 & H2 & H3 & H4 & H5). unfold NextDelta, encode_delta, counted. rewrite !u16_short by done.
  rewrite <- !app_assoc. do 2 read_field. cbn [app]. do 4 read_field. by destruct e.
Qed.

Lemma read_n_encode {A} (rd : reader A) (enc : A -> bytes) (fits : A -> Prop) l r :
  (forall x r, fits x -> rd (enc x ++ r) = Some (x, r)) -> Forall fits l ->
  read_n rd (length l) (concat (map enc l) ++ r) = Some (l, r).
Proof.
  intros Hrd. induction 1 as [|x l Hx Hl IH]; [done|]. simpl. rewrite <- app_assoc, Hrd by done. simpl.
  rewrite IH. done.
Qed.

(** What the header says of a frame. *)
Definition header_of (tick seq flags : Z) (full : list FullEntry) (deltas : list DeltaEntry) (removed exited : list Z)
  (inputAck : option Z) : FrameHeader :=
  mkHeader tick seq (if inputAck then Z.lor flags FrameFlagInputAck else Z.ldiff flags FrameFlagInputAck)
    (Z.of_nat (length full)) (Z.of_nat (length deltas)) (Z.of_nat (length removed)) (Z.of_nat (length exited)).

Definition frame_fits (tick seq flags : Z) (full : list FullEntry) (deltas : list DeltaEntry) (removed exited : list Z)
  (inputAck : option Z) : Prop :=
  in_u32 tick /\ in_u32 seq /\ in_u32 flags /\ Forall full_fits full /\ Forall delta_fits deltas /\
  Forall in_u32 removed /\ Forall in_u32 exited /\ short full /\ short deltas /\ short removed /\ short exited /\
  match inputAck with Some a => in_u32 a | None => True end.

Lemma lor_u32 a b : in_u32 a -> in_u32 b -> in_u32 (Z.lor a b).
Proof.
  intros Ha Hb. rewrite <- (u32_id a), <- (u32_id b) by done. unfold u32.
  rewrite <- !Z.land_ones, <- Z.land_lor_distr_l, Z.land_ones by lia. apply u32_range.
Qed.

Lemma ldiff_u32 a b : in_u32 a -> in_u32 (Z.ldiff a b).
Proof.
  intros Ha. rewrite <- (u32_id a) by done. unfold u32. rewrite <- Z.land_ones by lia.
  rewrite Z.ldiff_land, <- Z.land_assoc, (Z.land_comm (Z.ones 32)), Z.land_assoc, Z.land_ones by lia. apply u32_range.
Qed.

Lemma ack_flag_set flags : Z.land (Z.lor flags FrameFlagInputAck) FrameFlagInputAck <> 0.
Proof.
  intros H. apply (f_equal (fun z => Z.testbit z 1)) in H. rewrite Z.land_spec, Z.lor_spec in H.
  change (Z.testbit FrameFlagInputAck 1) with true in H. by rewrite orb_true_r in H.
Qed.

Lemma ReadFrame_encode tick seq flags full deltas removed exited inputAck :
  frame_fits tick seq flags full deltas removed exited inputAck ->
  ReadFrame (EncodeFrame tick seq flags full deltas removed exited inputAck)
  = Some (header_of tick seq flags full deltas removed exited inputAck, full, deltas, removed, exited, inputAck).
Proof.
  intros (H1 & H2 & H3 & H4 & H5 & H6 & H7 & L1 & L2 & L3 & L4 & Ha). unfold ReadFrame, EncodeFrame, Header, count16, header_of.
  rewrite !u16_short by done.
  set (fl := if inputAck then _ else _).
  assert (in_u32 fl) as Hfl by (unfold fl; destruct inputAck; [by apply lor_u32|by apply ldiff_u32]).
  do 7 read_field. cbn [FullCount DeltaCount RemovedCount ExitedCount Flags]. rewrite !Nat2Z.id.
  rewrite (read_n_encode NextFull encode_full full_fits) by (done || apply NextFull_encode). cbn [option_bind mbind].
  rewrite (read_n_encode NextDelta encode_delta delta_fits) by (done || apply NextDelta_encode). cbn [option_bind mbind].
  rewrite (read_n_encode NextUint32 (be_bytes 4) in_u32) by (done || (intros; by apply readUint_app)). cbn [option_bind mbind].
  rewrite (read_n_encode NextUint32 (be_bytes 4) in_u32) by (done || (intros; by apply readUint_app)). cbn [option_bind mbind].
  do 2 f_equal. unfold NextInputAck, fl. destruct inputAck as [a|].
  - destruct (Z.eqb_spec (Z.land (Z.lor flags FrameFlagInputAck) FrameFlagInputAck) 0) as [E|_]; [by apply ack_flag_set in E|].
    rewrite length_be_bytes. cbn [orb Nat.ltb Nat.leb]. rewrite <- (app_nil_r (be_bytes 4 a)). by rewrite readUint_app.
  - by destruct (_ =? 0).
Qed.

(** A client reads the frame that was sent.  Whatever a frame carries, as long as each
    number, each length and each count fits its field, reading it as its header announces
    gives back the header, every full and delta entry, the removed and exited ids and the
    input acknowledgement, and a frame without one is never taken for one that has it. *)
Theorem frame_roundtrip (tick seq flags : Z) (full : list FullEntry) (deltas : list DeltaEntry)
  (removed exited : list Z) (inputAck : option Z) :
  frame_fits tick seq flags full deltas removed exited inputAck ->
  ReadFrame (EncodeFrame tick seq flags full deltas removed exited inputAck)
  = Some (header_of tick seq flags full deltas removed exited inputAck, full, deltas, removed, exited, inputAck).
Proof. apply ReadFrame_encode. Qed.

Lemma frame_roundtrip_witness :
  let full := [mkFull 7 1 2 99 [1; 2; 3] [4]; mkFull 8 1 2 99 [5] []] in
  let deltas := [mkDeltaEntry 9 1 2 99 [1; 0]] in
  ReadFrame (EncodeFrame 5 6 3 full deltas [10] [11; 12] (Some 77))
  = Some (mkHeader 5 6 3 2 1 1 2, full, deltas, [10], [11; 12], Some 77).
Proof.
  intros full deltas. refine (frame_roundtrip 5 6 3 full deltas [10] [11; 12] (Some 77) _).
  unfold frame_fits, full_fits, delta_fits, short. unfold_int. repeat constructor; simpl; lia.
Defined.

(** The counts and lengths are truncated to 16 bits without a check: a snapshot of 65536
    bytes is announced as empty, and what follows is read at the wrong place. *)
Lemma long_snapshot_misread :
  let full := [mkFull 7 1 2 99 (replicate (2 ^ 16) 0) []] in
  (fun '(_, full, _, _, _, _) => length (fu_Snapshot <$> full) :: (length <$> (fu_Snapshot <$> full))) <$>
    ReadFrame (EncodeFrame 5 6 0 full [] [] [] None) = Some [1; 0]%nat.
Proof. vm_compute. reflexivity. Qed.
