(* ===== verification/ClientReplication.v ===== *)
(** * Client replication (pkg/system/replication.go)

    What each viewer is sent every tick: the transaction that stages a frame's state
    ([replicationStateTxn]), the state of a connection with its sole attempt in flight
    ([connState], [pendingReplicationAttempt]), and [ReplicationSystem] with its tick.

    The ECS world, the spatial query, the game's replicators and callbacks and the frame
    writer are not this code: a tick takes what they answer as the record [Env].  A Go map
    that is ranged over is visited in the order [order] of the environment.  A panic (a
    snapshot longer than its buffer, a slice out of range) is [None]. *)

From S2P Require Import Prelude Float32 UdpTransport Replication Quantize.

(** ** Core types *)

Record ViewerInfo := mkViewer { ConnID : Z; Entity : Z; vX : f32; vY : f32; vZ : f32; vStreamEpoch : Z }.

(** The fields of [spatial.Entry] this code reads. *)
Record Entry := mkEntry { e_Entity : Z; eX : f32; eY : f32; eZ : f32 }.

Record FullPayload := mkFullPayload {
  fp_NetID : Z; fp_Epoch : Z; fp_Type : Z; fp_ProducedAtMs : Z; fp_Snapshot : bytes; fp_InitialData : bytes
}.
Record DeltaPayload := mkDeltaPayload {
  dp_NetID : Z; dp_Epoch : Z; dp_Type : Z; dp_ProducedAtMs : Z; dp_Data : bytes
}.

Record ReplicationFrame := mkFrame {
  fr_Tick : Z; fr_Seq : Z; fr_StreamEpoch : Z; fr_Flags : Z;
  fr_InputAck : option Z;
  fr_Viewer : ViewerInfo;
  fr_Full : list FullPayload; fr_Deltas : list DeltaPayload;
  fr_Entered : list Z; fr_Exited : list Z; fr_Removed : list Z
}.

(** The body [BinaryFrameWriter.WriteFrame] (frame_writer.go) encodes. *)
Definition full_entry (p : FullPayload) : FullEntry :=
  mkFull (fp_NetID p) (fp_Epoch p) (fp_Type p) (fp_ProducedAtMs p) (fp_Snapshot p) (fp_InitialData p).
Definition delta_entry (p : DeltaPayload) : DeltaEntry :=
  mkDeltaEntry (dp_NetID p) (dp_Epoch p) (dp_Type p) (dp_ProducedAtMs p) (dp_Data p).
Definition encode_body (f : ReplicationFrame) : bytes :=
  EncodeFrame (fr_Tick f) (fr_Seq f) (fr_Flags f) (map full_entry (fr_Full f)) (map delta_entry (fr_Deltas f))
    (fr_Removed f) (fr_Exited f) (fr_InputAck f).

Record ReplicationTier := mkTier { t_Radius : f32; t_UpdateDivisor : Z; t_BaseWeight : f32 }.

Definition f32_one : f32 := S754_finite false (2 ^ 23) (-23).
Definition zero_tier : ReplicationTier := mkTier f32_zero 0 f32_zero.

(** [float32(math.Sqrt(float64(x)))]. *)
Definition f32_sqrt (x : f32) : f32 :=
  let widen x := match x with
    | S754_finite s m e => binary_normalize 53 1024 (if s then Z.neg m else Z.pos m) e s | y => y end in
  let narrow x := match x with
    | S754_finite s m e => binary_normalize 24 128 (if s then Z.neg m else Z.pos m) e s | y => y end in
  narrow (SFsqrt 53 1024 (widen x)).

Section System.
(** The game's components, which only its replicators read. *)
Context {G : Type}.

(** What the code asks the ECS. *)
Record World := mkWorld {
  Alive : Z -> bool;
  networkID : Z -> option (Z * Z);
  entityKind : Z -> option Z;
  dormant : Z -> bool;
  replica : Z -> option Z;
  components : G
}.

(** [EntityReplicator], with its optional interfaces; a hash is what the hasher sums. *)
Record EntityReplicator := mkReplicator {
  Hash : World -> ViewerInfo -> Entry -> Z;
  Snapshot : World -> ViewerInfo -> Entry -> bytes;
  SnapshotLayout : list Z;
  InitialData : World -> ViewerInfo -> Entry -> bytes;
  HasInitial : bool;
  InitialHash_ : World -> ViewerInfo -> Entry -> Z;
  IsRelevantTo : option (World -> ViewerInfo -> Entry -> bool);
  NetPriority : option (World -> ViewerInfo -> Entry -> f32);
  TierOf : option ReplicationTier
}.

Record ReplicationConfig := mkConfig {
  Replicators : gmap Z EntityReplicator;
  AoIRadius : f32;
  FullRefreshInterval : Z;
  DormancyThreshold : Z;
  cfg_AckMode : AckMode;
  AckModeFor : option (Z -> AckMode);
  SentHistoryDepth : Z;
  PendingReceiptTimeoutTicks : Z;
  PendingAckTimeoutTicks : Z;
  SnapshotBufSize : Z;
  BlinkDetectorTicks : Z;
  OnBlinkDetected : bool;
  TracksReceipts : bool
}.

(** ** The transaction *)

Record staged := mkStaged {
  st_netID : Z;
  st_baseline : EntityBaseline; st_baselineReady : bool; st_baselineDirty : bool;
  st_priority : EntityPriorityState; st_priorityReady : bool; st_priorityDirty : bool;
  st_lastHash : Z; st_lastHashDirty : bool;
  st_promoteSnapshot : bytes; st_promoteReady : bool;
  st_drop : bool
}.

Definition new_staged (netID : Z) : staged :=
  mkStaged netID (fresh_baseline 0) false false zero_priority false false 0 false [] false false.

(** The overlay; the store it overlays is an argument where the code follows its pointer. *)
Record replicationStateTxn := mkTxn { ringDepth : Z; entities : list staged }.

Definition begin (ringDepth : Z) : replicationStateTxn := mkTxn ringDepth [].

Definition existingEntity (tx : replicationStateTxn) (netID : Z) : option staged :=
  list_find (fun e => st_netID e = netID) (entities tx) ≫= fun p => Some p.2.

(** [f(tx.entity(netID))]: the entity is appended when it is not there. *)
Fixpoint on_staged (netID : Z) (f : staged -> staged) (l : list staged) : list staged :=
  match l with
  | [] => [f (new_staged netID)]
  | e :: l => if st_netID e =? netID then f e :: l else e :: on_staged netID f l
  end.
Definition on_entity (tx : replicationStateTxn) (netID : Z) (f : staged -> staged) : replicationStateTxn :=
  mkTxn (ringDepth tx) (on_staged netID f (entities tx)).

(** [tx.baseline(netID)] and what the caller does to the baseline it points to. *)
Definition tx_baseline (store : BaselineStore) (netID : Z) (f : EntityBaseline -> EntityBaseline)
  (tx : replicationStateTxn) : replicationStateTxn :=
  on_entity tx netID (fun s =>
    let b := if st_baselineReady s then st_baseline s else default (st_baseline s) (Baseline store netID) in
    mkStaged (st_netID s) (f b) true true (st_priority s) (st_priorityReady s) (st_priorityDirty s)
      (st_lastHash s) (st_lastHashDirty s) (st_promoteSnapshot s) (st_promoteReady s) (st_drop s)).

Definition pushSent (store : BaselineStore) (netID : Z) (snapshot : bytes) (tx : replicationStateTxn)
  : replicationStateTxn :=
  let tx := tx_baseline store netID id tx in
  on_entity tx netID (fun s =>
    mkStaged (st_netID s) (st_baseline s) (st_baselineReady s) (st_baselineDirty s)
      (st_priority s) (st_priorityReady s) (st_priorityDirty s)
      (st_lastHash s) (st_lastHashDirty s) snapshot true (st_drop s)).

Definition tx_priority (store : BaselineStore) (netID : Z) (f : EntityPriorityState -> EntityPriorityState)
  (tx : replicationStateTxn) : replicationStateTxn :=
  on_entity tx netID (fun s =>
    let p := if st_priorityReady s then st_priority s else default (st_priority s) (ExistingPriority store netID) in
    mkStaged (st_netID s) (st_baseline s) (st_baselineReady s) (st_baselineDirty s)
      (f p) true true (st_lastHash s) (st_lastHashDirty s) (st_promoteSnapshot s) (st_promoteReady s) (st_drop s)).

Definition setLastHash (netID hash : Z) (tx : replicationStateTxn) : replicationStateTxn :=
  on_entity tx netID (fun s =>
    mkStaged (st_netID s) (st_baseline s) (st_baselineReady s) (st_baselineDirty s)
      (st_priority s) (st_priorityReady s) (st_priorityDirty s) hash true
      (st_promoteSnapshot s) (st_promoteReady s) (st_drop s)).

Definition tx_drop (netID : Z) (tx : replicationStateTxn) : replicationStateTxn :=
  on_entity tx netID (fun s =>
    mkStaged (st_netID s) (st_baseline s) (st_baselineReady s) (st_baselineDirty s)
      (st_priority s) (st_priorityReady s) (st_priorityDirty s) (st_lastHash s) (st_lastHashDirty s)
      (st_promoteSnapshot s) (st_promoteReady s) true).

Definition retainSent (seq : Z) (tx : replicationStateTxn) (store : BaselineStore) : BaselineStore :=
  foldl (fun store s =>
    if negb (st_promoteReady s) || st_drop s then store
    else
      let '(store, b) := GetOrCreateBaseline store (st_netID s) (ringDepth tx) in
      SetBaseline store (st_netID s) (PushSent b seq (st_promoteSnapshot s)))
    store (entities tx).

(** [*store.Priority(netID) = p]. *)
Definition set_priority (store : BaselineStore) (netID : Z) (p : EntityPriorityState) : BaselineStore :=
  mkStore (mode store) (baselines store) (lastHash store) (<[netID := p]> (priorities store)).

(** The end of both commits. *)
Definition commit_rest (s : staged) (store : BaselineStore) : BaselineStore :=
  let store := if st_lastHashDirty s then SetLastHash store (st_netID s) (st_lastHash s) else store in
  if st_priorityDirty s then set_priority store (st_netID s) (st_priority s) else store.

Definition commit (tx : replicationStateTxn) (store : BaselineStore) : BaselineStore :=
  foldl (fun store s =>
    if st_drop s then DropBaseline store (st_netID s)
    else
      commit_rest s (if st_baselineDirty s then SetBaseline store (st_netID s) (st_baseline s) else store))
    store (entities tx).

(** [bl] with the live ring and snapshot of [live], and the promoted snapshot. *)
Definition promoted (live bl : EntityBaseline) (s : staged) : EntityBaseline :=
  mkBaseline (AuthorityEpoch bl) (HasAuthorityEpoch bl) (FullTailFramesRemaining bl)
    (if st_promoteReady s then Some (st_promoteSnapshot s) else Acked live)
    (Ring live) (RingHead live) (RingLen live) (InitialHash bl) (HasInitialHash bl).

Definition map_baselines (f : EntityBaseline -> EntityBaseline) (store : BaselineStore) : BaselineStore :=
  mkStore (mode store) (f <$> baselines store) (lastHash store) (priorities store).

Definition commitExplicit (seq : Z) (tx : replicationStateTxn) (store : BaselineStore) : BaselineStore :=
  map_baselines (fun b => PruneSentThrough b seq)
    (foldl (fun store s =>
      if st_drop s then DropBaseline store (st_netID s)
      else
        commit_rest s
          (if st_baselineDirty s then
             let '(store, live) := GetOrCreateBaseline store (st_netID s) (ringDepth tx) in
             SetBaseline store (st_netID s) (promoted live (st_baseline s) s)
           else store))
      store (entities tx)).

Definition tx_hasLastHash (store : BaselineStore) (tx : replicationStateTxn) (netID : Z) : bool :=
  match existingEntity tx netID with
  | Some s => if st_lastHashDirty s then true else HasLastHash store netID
  | None => HasLastHash store netID
  end.
Definition tx_lastHash (store : BaselineStore) (tx : replicationStateTxn) (netID : Z) : Z :=
  match existingEntity tx netID with
  | Some s => if st_lastHashDirty s then st_lastHash s else LastHash store netID
  | None => LastHash store netID
  end.

(** ** The state of a connection *)

Record stagedBlinkDetection := mkBlink { bk_netID : Z; bk_ticksSinceRemove : Z }.

Record pendingReplicationAttempt := mkPending {
  pn_streamEpoch : Z; pn_seq : Z; pn_sentTick : Z;
  pn_txn : replicationStateTxn;
  pn_visible : gset Z;
  pn_selfNetID : Z;
  pn_recentRemovals : gmap Z Z;
  pn_blinks : list stagedBlinkDetection;
  pn_removed : list Z; pn_exited : list Z;
  pn_clearPendingRemoved : list Z;
  pn_awaitReceipt : bool
}.

(** The transactions that are kept for their memory between frames are left out: [begin]
    empties one before it is used. *)
Record connState := mkConn {
  cs_mode : AckMode;
  cs_store : BaselineStore;
  pending : option pendingReplicationAttempt;
  ackedSeq : Z; nextSeq : Z;
  streamEpoch : Z; hasStreamEpoch : bool; hasExplicitGeneration : bool;
  forceFresh : bool;
  selfNetID : Z;
  recentRemovals : gmap Z Z;
  pendingRemoved : gset Z
}.

Definition newConnState (m : AckMode) : connState :=
  mkConn m (NewBaselineStore m) None 0 0 0 false false false 0 ∅ ∅.

(** [stagePendingAttempt]; the visible ids are ranged over. *)
Definition stagePendingAttempt (order : list Z -> list Z) (tx : replicationStateTxn) (streamEpoch_ seq sentTick : Z)
  (visible : gset Z) (selfNetID_ : Z) (recent : gmap Z Z) (blinks : list stagedBlinkDetection)
  (exited removed : list Z) (awaitReceipt : bool) (c : connState) : connState :=
  let p := mkPending streamEpoch_ seq sentTick tx visible selfNetID_ recent blinks removed exited
    (filter (fun n => n ∈ pendingRemoved c) (order (elements visible)) ++ removed) awaitReceipt in
  mkConn (cs_mode c) (cs_store c) (Some p) (ackedSeq c) (nextSeq c) (streamEpoch c) (hasStreamEpoch c)
    (hasExplicitGeneration c) (forceFresh c) (selfNetID c) (recentRemovals c) (pendingRemoved c).

(** ** ReplicationSystem *)

Record System := mkSystem {
  cfg : ReplicationConfig;
  lastVisible : gmap Z (gset Z);
  connections : gmap Z connState;
  deltaEncoders : gmap Z DeltaEncoder;
  tierConfigs : gmap Z ReplicationTier;
  maxTierRadius : f32
}.

Definition or_zero (v d : Z) : Z := if v =? 0 then d else v.

Definition tier_config (rep : EntityReplicator) : ReplicationTier :=
  match TierOf rep with
  | Some t =>
      mkTier (t_Radius t) (or_zero (t_UpdateDivisor t) 1)
        (match t_BaseWeight t with S754_zero _ => f32_one | w => w end)
  | None => mkTier f32_zero 1 f32_one
  end.

(** The registry is ranged over, which the greatest radius does not depend on. *)
Definition NewReplicationSystem (c : ReplicationConfig) : System :=
  let c := mkConfig (Replicators c) (AoIRadius c) (FullRefreshInterval c) (DormancyThreshold c) (cfg_AckMode c)
    (AckModeFor c) (or_zero (SentHistoryDepth c) 4) (or_zero (PendingReceiptTimeoutTicks c) 3)
    (or_zero (PendingAckTimeoutTicks c) 10) (or_zero (SnapshotBufSize c) 256) (BlinkDetectorTicks c)
    (OnBlinkDetected c) (TracksReceipts c) in
  let tiers := tier_config <$> Replicators c in
  let radii := map (fun p => t_Radius p.2) (filter (fun p => is_Some (Replicators c !! p.1 ≫= TierOf)) (map_to_list tiers)) in
  mkSystem c ∅ ∅ ((fun r => NewDeltaEncoder (SnapshotLayout r)) <$> Replicators c) tiers
    (foldl (fun m r => if f32_lt m r then r else m) f32_zero radii).

(** What a tick is told by the rest of the process. *)
Record Env := mkEnv {
  tick : Z;
  world : World;
  ActiveViewers : list ViewerInfo;
  ViewerExists : option (Z -> bool);
  RemovedIDs : option (list Z);
  GetAoIRadius : option f32;
  QueryRadius : ViewerInfo -> f32 -> list Entry;
  StreamGeneration : option (ViewerInfo -> option Z);
  ProcessedInputSeq : option (ViewerInfo -> option Z);
  TickTime : Z -> Z;
  WriteFrame : ReplicationFrame -> SendResult;
  DrainFrameReceipts : Z -> list (Z * Z * SendResult);
  order : list Z -> list Z
}.

(** What a tick does to the rest of the process, in order. *)
Inductive event :=
| Written (frame : ReplicationFrame) (result : SendResult)
| BlinkDetected (connID netID ticksSinceRemove : Z)
| BeforeSend (viewer : ViewerInfo) (visible : gset Z)
| AfterSend (viewer : ViewerInfo) (visible : gset Z).

Definition aoiRadius (s : System) (env : Env) : f32 := default (AoIRadius (cfg s)) (GetAoIRadius env).

Definition queryRadius (s : System) (env : Env) : f32 :=
  let r := aoiRadius s env in if f32_lt r (maxTierRadius s) then maxTierRadius s else r.

(** The stamp of an entity: a replica keeps its producer's. *)
Definition producedAtMs (env : Env) (entity : Z) : Z := default (TickTime env entity) (replica (world env) entity).

Definition set_connections (s : System) (m : gmap Z connState) : System :=
  mkSystem (cfg s) (lastVisible s) m (deltaEncoders s) (tierConfigs s) (maxTierRadius s).
Definition set_lastVisible (s : System) (m : gmap Z (gset Z)) : System :=
  mkSystem (cfg s) m (connections s) (deltaEncoders s) (tierConfigs s) (maxTierRadius s).
Definition set_conn (s : System) (connID : Z) (c : connState) : System :=
  set_connections s (<[connID := c]> (connections s)).

Definition LastVisible (s : System) (connID : Z) : System * option (gset Z) :=
  (set_connections (set_lastVisible s (delete connID (lastVisible s))) (delete connID (connections s)), lastVisible s !! connID).

Definition IsVisible (s : System) (connID netID : Z) : bool :=
  match lastVisible s !! connID with Some vis => bool_decide (netID ∈ vis) | None => false end.

Definition remove_all (l : list Z) (X : gset Z) : gset Z := X ∖ list_to_set l.

Definition commitPendingAttempt (connID : Z) (explicit : bool) (s : System) (c : connState)
  : System * list event :=
  match pending c with
  | None => (s, [])
  | Some p =>
      let store := if explicit then commitExplicit (pn_seq p) (pn_txn p) (cs_store c) else commit (pn_txn p) (cs_store c) in
      let c := mkConn (cs_mode c) store None (if explicit then pn_seq p else ackedSeq c) (nextSeq c)
        (streamEpoch c) (hasStreamEpoch c) (hasExplicitGeneration c) false (pn_selfNetID p)
        (if 0 <? BlinkDetectorTicks (cfg s) then pn_recentRemovals p else recentRemovals c)
        (remove_all (pn_exited p) (remove_all (pn_clearPendingRemoved p) (pendingRemoved c))) in
      (set_lastVisible (set_conn s connID c) (<[connID := pn_visible p]> (lastVisible s)),
       map (fun b => BlinkDetected connID (bk_netID b) (bk_ticksSinceRemove b)) (pn_blinks p))
  end.

Definition explicit_mode (c : connState) : bool := match cs_mode c with AckExplicit => true | AckReliable => false end.

Definition AckSequence (connID seq : Z) (s : System) : System * list event :=
  match connections s !! connID with
  | None => (s, [])
  | Some c =>
      match pending c with
      | Some p =>
          if negb (explicit_mode c) || hasExplicitGeneration c || pn_awaitReceipt p || negb (pn_seq p =? seq) then (s, [])
          else commitPendingAttempt connID true s c
      | None => (s, [])
      end
  end.

Definition AckFrame (connID epoch seq : Z) (s : System) : System * list event :=
  match connections s !! connID with
  | None => (s, [])
  | Some c =>
      match pending c with
      | Some p =>
          if negb (explicit_mode c) || pn_awaitReceipt p || negb (pn_streamEpoch p =? epoch) || negb (pn_seq p =? seq)
          then (s, [])
          else commitPendingAttempt connID true s c
      | None => (s, [])
      end
  end.

Definition discardPendingAttempt (c : connState) : connState :=
  match pending c with
  | None => c
  | Some p =>
      mkConn (cs_mode c) (map_baselines ClearSent (cs_store c)) None (ackedSeq c) (nextSeq c) (streamEpoch c)
        (hasStreamEpoch c) (hasExplicitGeneration c) true (selfNetID c) (recentRemovals c)
        (pendingRemoved c ∪ list_to_set (pn_removed p))
  end.

(** One connection's receipts.  A receipt from a datagram path makes the connection an
    explicit one and ends the loop. *)
Fixpoint drain_loop (connID : Z) (receipts : list (Z * Z * SendResult)) (s : System) (c : connState)
  : System * list event :=
  match receipts with
  | [] => (set_conn s connID c, [])
  | (epoch, seq, result) :: receipts =>
      match pending c with
      | None => drain_loop connID receipts s c
      | Some p =>
          if negb (epoch =? pn_streamEpoch p) || negb (seq =? pn_seq p) then drain_loop connID receipts s c
          else if negb (pn_awaitReceipt p) then
            drain_loop connID receipts s (if negb (Queued result) then discardPendingAttempt c else c)
          else if Queued result && (delivery_rank (Delivery result) <? delivery_rank DeliveryReliableOrdered)
                  && negb (explicit_mode c) then
            let n := newConnState AckExplicit in
            let fresh := mkConn AckExplicit (cs_store n) None 0 (nextSeq c) (streamEpoch c) (hasStreamEpoch c)
              (hasExplicitGeneration c) true (selfNetID c) ∅ ∅ in
            (set_lastVisible (set_conn s connID fresh) (delete connID (lastVisible s)), [])
          else if Supports result DeliveryReliableOrdered then
            let '(s, evs) := commitPendingAttempt connID false s c in
            match connections s !! connID with
            | Some c => let '(s, evs') := drain_loop connID receipts s c in (s, evs ++ evs')
            | None => (s, evs)
            end
          else drain_loop connID receipts s (discardPendingAttempt c)
      end
  end.

Definition drainFrameReceipts (env : Env) (connID : Z) (s : System) : System * list event :=
  match connections s !! connID with
  | Some c => if TracksReceipts (cfg s) then drain_loop connID (DrainFrameReceipts env connID) s c else (s, [])
  | None => (s, [])
  end.

Definition pendingTimedOut (s : System) (c : connState) (tick_ : Z) : bool :=
  match pending c with
  | None => false
  | Some p =>
      let timeout := if pn_awaitReceipt p then PendingReceiptTimeoutTicks (cfg s) else PendingAckTimeoutTicks (cfg s) in
      or_zero timeout 1 <=? u32 (tick_ - pn_sentTick p)
  end.

Definition ringDepthFor (s : System) (m : AckMode) : Z :=
  match m with AckReliable => 0 | AckExplicit => SentHistoryDepth (cfg s) end.

Definition ackModeFor (s : System) (connID : Z) : AckMode :=
  match AckModeFor (cfg s) with Some f => f connID | None => cfg_AckMode (cfg s) end.

Definition getConn (s : System) (connID : Z) : System * connState :=
  match connections s !! connID with
  | Some c => (s, c)
  | None => let c := newConnState (ackModeFor s connID) in (set_conn s connID c, c)
  end.

Definition streamGenerationAfter (candidate current : Z) : bool :=
  negb (candidate =? current) && (u32 (candidate - current) <? 2 ^ 31).

(** [c] adopts the generation. *)
Definition with_generation (c : connState) (generation : Z) : connState :=
  mkConn (cs_mode c) (cs_store c) (pending c) (ackedSeq c) (nextSeq c) generation true true (forceFresh c)
    (selfNetID c) (recentRemovals c) (pendingRemoved c).

Definition reset_stream (s : System) (connID generation : Z) (c : connState) : System * connState :=
  let c := with_generation (newConnState (cs_mode c)) generation in
  (set_lastVisible (set_conn s connID c) (delete connID (lastVisible s)), c).

Definition resolveStreamGeneration (env : Env) (s : System) (viewer : ViewerInfo) (c : connState)
  : System * connState * bool :=
  match StreamGeneration env ≫= fun f => f viewer with
  | None => (s, c, false)
  | Some generation =>
      if negb (hasExplicitGeneration c) then
        if negb (nextSeq c =? 0) && negb (streamEpoch c =? generation) then
          (reset_stream s (ConnID viewer) generation c, true)
        else
          let c := with_generation c generation in (set_conn s (ConnID viewer) c, c, true)
      else if generation =? streamEpoch c then (s, c, true)
      else if negb (streamGenerationAfter generation (streamEpoch c)) then (s, c, true)
      else (reset_stream s (ConnID viewer) generation c, true)
  end.

(** ** A frame for one viewer *)

(** What the loop over the entities in range has built so far. *)
Record Build := mkBuild {
  b_tx : replicationStateTxn;
  b_full : list FullPayload; b_deltas : list DeltaPayload;
  b_visible : gset Z; b_entered : list Z;
  b_recent : gmap Z Z; b_blinks : list stagedBlinkDetection
}.

Definition set_tx (b : Build) (f : replicationStateTxn -> replicationStateTxn) : Build :=
  mkBuild (f (b_tx b)) (b_full b) (b_deltas b) (b_visible b) (b_entered b) (b_recent b) (b_blinks b).
Definition add_full (b : Build) (p : FullPayload) : Build :=
  mkBuild (b_tx b) (b_full b ++ [p]) (b_deltas b) (b_visible b) (b_entered b) (b_recent b) (b_blinks b).
Definition add_delta (b : Build) (p : DeltaPayload) : Build :=
  mkBuild (b_tx b) (b_full b) (b_deltas b ++ [p]) (b_visible b) (b_entered b) (b_recent b) (b_blinks b).

(** A loop whose body may panic. *)
Fixpoint fold_opt {A B} (f : A -> B -> option A) (l : list B) (a : A) : option A :=
  match l with
  | [] => Some a
  | x :: l => a ← f a x; fold_opt f l a
  end.

Section Viewer.
Context (s : System) (env : Env) (viewer : ViewerInfo) (c : connState) (isKeyframe forceFresh_ : bool).

Definition dist2 (entry : Entry) : f32 :=
  let dx := f32_sub (eX entry) (vX viewer) in
  let dy := f32_sub (eY entry) (vY viewer) in
  let dz := f32_sub (eZ entry) (vZ viewer) in
  f32_add (f32_add (f32_mul dx dx) (f32_mul dy dy)) (f32_mul dz dz).

Definition entry_tier (entityType : Z) : ReplicationTier := default zero_tier (tierConfigs s !! entityType).

Definition tierRadius (entityType : Z) : f32 :=
  match t_Radius (entry_tier entityType) with S754_zero _ => aoiRadius s env | r => r end.

(** The guards that decide whether an entity in the query is shown at all. *)
Definition shown (visible : gset Z) (entry : Entry) : option (Z * Z * Z * EntityReplicator) :=
  if negb (Alive (world env) (e_Entity entry)) then None
  else match networkID (world env) (e_Entity entry) with
  | None => None
  | Some (netID, epoch) =>
      if dormant (world env) (e_Entity entry) && negb (e_Entity entry =? Entity viewer) then None
      else if bool_decide (netID ∈ visible) then None
      else
        let entityType := default 0 (entityKind (world env) (e_Entity entry)) in
        match Replicators (cfg s) !! entityType with
        | None => None
        | Some rep =>
            if match IsRelevantTo rep with Some f => negb (f (world env) viewer entry) | None => false end then None
            else
              let r := tierRadius entityType in
              if f32_lt (f32_mul r r) (dist2 entry) then None else Some (netID, epoch, entityType, rep)
        end
  end.

Definition wasVisible (netID : Z) : bool :=
  match lastVisible s !! ConnID viewer with Some prev => bool_decide (netID ∈ prev) | None => false end.

Definition epochChanged (netID epoch : Z) : bool :=
  match Baseline (cs_store c) netID with
  | Some b => negb (HasAuthorityEpoch b) || negb (AuthorityEpoch b =? epoch)
  | None => false
  end.

Definition needsFull (netID epoch : Z) : bool :=
  forceFresh_ || negb (wasVisible netID) || bool_decide (netID ∈ pendingRemoved c) || epochChanged netID epoch.

(** The entity is marked visible and, when it was not, entered. *)
Definition mark (netID : Z) (b : Build) : Build :=
  let visible := {[netID]} ∪ b_visible b in
  if wasVisible netID then
    mkBuild (b_tx b) (b_full b) (b_deltas b) visible (b_entered b) (b_recent b) (b_blinks b)
  else
    let entered := b_entered b ++ [netID] in
    let '(recent, blinks) :=
      if 0 <? BlinkDetectorTicks (cfg s) then
        match b_recent b !! netID with
        | Some removedTick =>
            let delta := u64 (tick env - removedTick) in
            (delete netID (b_recent b),
             if (delta <=? BlinkDetectorTicks (cfg s)) && OnBlinkDetected (cfg s)
             then b_blinks b ++ [mkBlink netID delta] else b_blinks b)
        | None => (b_recent b, b_blinks b)
        end
      else (b_recent b, b_blinks b) in
    mkBuild (b_tx b) (b_full b) (b_deltas b) visible entered recent blinks.

Definition initialChanged (rep : EntityReplicator) (netID initHash : Z) : bool :=
  HasInitial rep &&
  match Baseline (cs_store c) netID with
  | Some b => negb (HasInitialHash b) || negb (InitialHash b =? initHash)
  | None => true
  end.

Definition asleep (netID : Z) : bool :=
  (0 <? DormancyThreshold (cfg s)) &&
  match ExistingPriority (cs_store c) netID with
  | Some p => DormancyThreshold (cfg s) <=? UnchangedTicks p
  | None => false
  end.

Definition priority_gain (entityType : Z) (rep : EntityReplicator) (entry : Entry) : f32 :=
  let dist := f32_sqrt (dist2 entry) in
  let distFactor := f32_sub f32_one (f32_div dist (tierRadius entityType)) in
  let distFactor := if f32_lt distFactor f32_zero then f32_zero else distFactor in
  let base := f32_mul (t_BaseWeight (entry_tier entityType)) distFactor in
  match NetPriority rep with Some f => f32_mul base (f (world env) viewer entry) | None => base end.

(** The baseline of the entity's authority epoch, its initial fields as sent, and the
    snapshot: at once in reliable mode, as an attempt otherwise. *)
Definition stage_snapshot (netID epoch : Z) (initHash : option Z) (snap : bytes) (tx : replicationStateTxn)
  : replicationStateTxn :=
  let tx := tx_baseline (cs_store c) netID (fun bl =>
    mkBaseline epoch true (FullTailFramesRemaining bl)
      (match cs_mode c with AckReliable => Some snap | AckExplicit => Acked bl end)
      (Ring bl) (RingHead bl) (RingLen bl)
      (default (InitialHash bl) initHash) (match initHash with Some _ => true | None => HasInitialHash bl end)) tx in
  match cs_mode c with AckReliable => tx | AckExplicit => pushSent (cs_store c) netID snap tx end.

(** The body of the loop over the entities in range. *)
Definition visit (b : Build) (entry : Entry) : option Build :=
  match shown (b_visible b) entry with
  | None => Some b
  | Some (netID, epoch, entityType, rep) =>
      let b := mark netID b in
      let full := needsFull netID epoch in
      let initHash := InitialHash_ rep (world env) viewer entry in
      let initialChanged := initialChanged rep netID initHash in
      if negb full && negb initialChanged && asleep netID then Some b
      else
        let hash := Hash rep (world env) viewer entry in
        if negb full && negb isKeyframe && negb initialChanged && HasLastHash (cs_store c) netID
           && (LastHash (cs_store c) netID =? hash) then
          Some (set_tx b (tx_priority (cs_store c) netID (fun p =>
            mkPriority (Accumulator p) (LastSentTick p) (u32 (UnchangedTicks p + 1)))))
        else
          let b := set_tx b (tx_priority (cs_store c) netID (fun p => mkPriority (Accumulator p) (LastSentTick p) 0)) in
          let divisor := t_UpdateDivisor (entry_tier entityType) in
          if negb full && negb initialChanged && (1 <? divisor) && negb (tick env mod divisor =? 0) then
            Some (set_tx b (tx_priority (cs_store c) netID (fun p =>
              mkPriority (f32_add (Accumulator p) (priority_gain entityType rep entry)) (LastSentTick p) (UnchangedTicks p))))
          else
            let b := set_tx b (fun tx =>
              tx_priority (cs_store c) netID (fun p => mkPriority f32_zero (tick env) (UnchangedTicks p))
                (setLastHash netID hash tx)) in
            let curr := Snapshot rep (world env) viewer entry in
            if SnapshotBufSize (cfg s) <? Z.of_nat (length curr) then None
            else
              let acked := Baseline (cs_store c) netID ≫= Acked in
              let stamp := producedAtMs env (e_Entity entry) in
              match acked, full || initialChanged with
              | Some base, false =>
                  if isKeyframe then
                    Some (set_tx (add_full b (mkFullPayload netID epoch entityType stamp curr []))
                            (stage_snapshot netID epoch None curr))
                  else
                    match deltaEncoders s !! entityType with
                    | None => Some b
                    | Some enc =>
                        delta ← Encode enc base curr [];
                        match delta with
                        | None => Some b
                        | Some data =>
                            Some (set_tx (add_delta b (mkDeltaPayload netID epoch entityType stamp data))
                                    (stage_snapshot netID epoch None curr))
                        end
                    end
              | _, _ =>
                  Some (set_tx (add_full b (mkFullPayload netID epoch entityType stamp curr
                                              (InitialData rep (world env) viewer entry)))
                          (stage_snapshot netID epoch (if HasInitial rep then Some initHash else None) curr))
              end
  end.
End Viewer.

(** The entities that left: destroyed ones, and those that are only out of range. *)
Definition departures (s : System) (env : Env) (viewer : ViewerInfo) (c : connState) (removedSet visible : gset Z)
  (self : Z) : list Z * list Z :=
  match lastVisible s !! ConnID viewer with
  | None => ([], [])
  | Some prev =>
      let gone := filter (fun n => n ∉ visible) (order env (elements prev)) in
      let dead n := n ∈ removedSet \/ n ∈ pendingRemoved c in
      (filter (fun n => ~ dead n /\ n <> self) gone, filter dead gone)
  end.

(** Removals are remembered for the blink detector, and old ones forgotten. *)
Definition remember_removals (s : System) (env : Env) (removed : list Z) (recent : gmap Z Z) : gmap Z Z :=
  let window := BlinkDetectorTicks (cfg s) in
  if negb (0 <? window) then recent
  else
    let recent := foldl (fun m n => <[n := tick env]> m) recent removed in
    if window <=? tick env then filter (fun p => ~ p.2 < tick env - window) recent else recent.

Definition frame_flags (fresh : bool) : Z := if fresh then FrameFlagFreshSnapshot else 0.

(** The viewer's own entity, and the legacy scope of its stream. *)
Definition self_and_epoch (env : Env) (viewer : ViewerInfo) (c : connState) (explicitGeneration hadPriorState : bool)
  : connState * Z * bool :=
  match networkID (world env) (Entity viewer) with
  | None => (c, selfNetID c, false)
  | Some (id, epoch) =>
      if negb explicitGeneration && negb (hasStreamEpoch c) then
        (mkConn (cs_mode c) (cs_store c) (pending c) (ackedSeq c) (nextSeq c) epoch true (hasExplicitGeneration c)
           (forceFresh c) (selfNetID c) (recentRemovals c) (pendingRemoved c), id, hadPriorState)
      else (c, id, false)
  end.

Definition set_pendingRemoved (c : connState) (X : gset Z) : connState :=
  mkConn (cs_mode c) (cs_store c) (pending c) (ackedSeq c) (nextSeq c) (streamEpoch c) (hasStreamEpoch c)
    (hasExplicitGeneration c) (forceFresh c) (selfNetID c) (recentRemovals c) X.
Definition set_forceFresh (c : connState) (b : bool) : connState :=
  mkConn (cs_mode c) (cs_store c) (pending c) (ackedSeq c) (nextSeq c) (streamEpoch c) (hasStreamEpoch c)
    (hasExplicitGeneration c) b (selfNetID c) (recentRemovals c) (pendingRemoved c).
Definition set_nextSeq (c : connState) (n : Z) : connState :=
  mkConn (cs_mode c) (cs_store c) (pending c) (ackedSeq c) n (streamEpoch c) (hasStreamEpoch c)
    (hasExplicitGeneration c) (forceFresh c) (selfNetID c) (recentRemovals c) (pendingRemoved c).
Definition set_store (c : connState) (st : BaselineStore) : connState :=
  mkConn (cs_mode c) st (pending c) (ackedSeq c) (nextSeq c) (streamEpoch c) (hasStreamEpoch c)
    (hasExplicitGeneration c) (forceFresh c) (selfNetID c) (recentRemovals c) (pendingRemoved c).

Definition set_streamEpoch (v : ViewerInfo) (epoch : Z) : ViewerInfo :=
  mkViewer (ConnID v) (Entity v) (vX v) (vY v) (vZ v) epoch.

(** What becomes of the frame, by the writer's answer. *)
Definition settle (s : System) (env : Env) (connID : Z) (c : connState) (b : Build) (seq self : Z)
  (exited removed : list Z) (recent : gmap Z Z) (result : SendResult) : System * list event :=
  if negb (explicit_mode c) && Supports result DeliveryReliableOrdered then
    let c := mkConn (cs_mode c) (commit (b_tx b) (cs_store c)) (pending c) (ackedSeq c) (nextSeq c) (streamEpoch c)
      (hasStreamEpoch c) (hasExplicitGeneration c) false self
      (if 0 <? BlinkDetectorTicks (cfg s) then recent else recentRemovals c)
      (remove_all removed (pendingRemoved c ∖ b_visible b)) in
    (set_lastVisible (set_conn s connID c) (<[connID := b_visible b]> (lastVisible s)),
     map (fun k => BlinkDetected connID (bk_netID k) (bk_ticksSinceRemove k)) (b_blinks b))
  else if Queued result && (explicit_mode c || (Supports result DeliveryOrdered && TracksReceipts (cfg s))) then
    let c := if explicit_mode c then set_store c (retainSent seq (b_tx b) (cs_store c)) else c in
    let c := set_pendingRemoved c (pendingRemoved c ∪ list_to_set removed) in
    let c := stagePendingAttempt (order env) (b_tx b) (streamEpoch c) seq (tick env) (b_visible b) self recent
      (b_blinks b) exited removed (negb (explicit_mode c)) c in
    (set_conn s connID c, [])
  else
    let c := set_pendingRemoved c (pendingRemoved c ∪ list_to_set removed) in
    let c := if Queued result || bool_decide (Disposition result = SendIndeterminate) then set_forceFresh c true else c in
    (set_conn s connID c, []).

(** A frame is built and sent. *)
Definition send_frame (s : System) (env : Env) (viewer : ViewerInfo) (c : connState) (explicitGeneration isKeyframe : bool)
  (removedSet : gset Z) : option (System * list event) :=
  let connID := ConnID viewer in
  let tx := begin (ringDepthFor s (cs_mode c)) in
  let hadPriorState := bool_decide (is_Some (lastVisible s !! connID)) && negb (forceFresh c) in
  let '(c, self, rescoped) := self_and_epoch env viewer c explicitGeneration hadPriorState in
  let force := forceFresh c || rescoped in
  let hadPriorState := hadPriorState && negb rescoped in
  let viewer := set_streamEpoch viewer (streamEpoch c) in
  let c := set_nextSeq c (u32 (nextSeq c + 1)) in
  let seq := nextSeq c in
  b ← fold_opt (visit s env viewer c isKeyframe force) (QueryRadius env viewer (queryRadius s env))
        (mkBuild tx [] [] ∅ [] (recentRemovals c) []);
  let '(exited, removed) := departures s env viewer c removedSet (b_visible b) self in
  let b := set_tx b (fun tx => foldl (fun tx n => tx_drop n tx) tx (exited ++ removed)) in
  let recent := remember_removals s env removed (b_recent b) in
  let frame := mkFrame (tick env) seq (streamEpoch c) (frame_flags (negb hadPriorState))
    (ProcessedInputSeq env ≫= fun f => f viewer) viewer (b_full b) (b_deltas b) (b_entered b) exited removed in
  let result := WriteFrame env frame in
  let '(s, evs) := settle s env connID c b seq self exited removed recent result in
  Some (s, [BeforeSend viewer (b_visible b); Written frame result] ++ evs ++ [AfterSend viewer (b_visible b)]).

(** The body of the loop over the viewers. *)
Definition serve (env : Env) (isKeyframe : bool) (removedSet : gset Z) (s : System) (viewer : ViewerInfo)
  : option (System * list event) :=
  let connID := ConnID viewer in
  let '(s, c) := getConn s connID in
  let '(s, c, explicitGeneration) := resolveStreamGeneration env s viewer c in
  let viewer := set_streamEpoch viewer (streamEpoch c) in
  let committed := default ∅ (lastVisible s !! connID) in
  match pending c with
  | None => send_frame s env viewer c explicitGeneration isKeyframe removedSet
  | Some p =>
      let c := set_pendingRemoved c
        (pendingRemoved c ∪ (removedSet ∩ (committed ∪ pn_visible p))) in
      if pendingTimedOut s c (tick env) then
        let c := discardPendingAttempt c in
        send_frame (set_conn s connID c) env viewer c explicitGeneration isKeyframe removedSet
      else
        Some (set_conn s connID c, [BeforeSend viewer committed; AfterSend viewer committed])
  end.

(** A viewer that is not among the active ones. *)
Definition reconcile (env : Env) (s : System) (connID : Z) : System :=
  if bool_decide (connID ∈ map ConnID (ActiveViewers env)) then s
  else
    match ViewerExists env, connections s !! connID with
    | Some f, Some c =>
        if f connID then set_conn s connID (set_forceFresh (discardPendingAttempt c) true)
        else (LastVisible s connID).1
    | _, _ => (LastVisible s connID).1
    end.

(** A loop that threads the system and collects what it does. *)
Fixpoint run {A} (f : System -> A -> option (System * list event)) (l : list A) (s : System)
  : option (System * list event) :=
  match l with
  | [] => Some (s, [])
  | x :: l =>
      '(s, evs) ← f s x;
      '(s, evs') ← run f l s;
      Some (s, evs ++ evs')
  end.

Definition connIDs (env : Env) (s : System) : list Z := order env (elements (dom (connections s))).

Definition Update (env : Env) (s : System) : option (System * list event) :=
  '(s, evs1) ← run (fun s connID => Some (drainFrameReceipts env connID s)) (connIDs env s) s;
  let interval := FullRefreshInterval (cfg s) in
  let isKeyframe := (0 <? interval) && (tick env mod interval =? 0) in
  let removedSet := list_to_set (default [] (RemovedIDs env)) in
  let s := foldl (reconcile env) s (connIDs env s) in
  '(s, evs2) ← run (serve env isKeyframe removedSet) (ActiveViewers env) s;
  Some (s, evs1 ++ evs2).
End System.
