(* ===== verification/ReplicationTxn.v ===== *)
(** * What a frame promises

    The lemmas on the transaction of [ClientReplication]: what committing it does to the
    acknowledged snapshots, and what one entity's visit stages. *)

From S2P Require Import Prelude Float32 UdpTransport Replication Quantize QuantizeCodec ClientReplication.

(** ** Looking up a staged entity *)

Definition staged_at (n : Z) (l : list staged) : option staged := list_find (fun e => st_netID e = n) l ≫= fun p => Some p.2.

Definition keeps_id (f : staged -> staged) : Prop := forall s, st_netID (f s) = st_netID s.

Definition ids (l : list staged) : list Z := st_netID <$> l.

Lemma staged_at_cons n e l : staged_at n (e :: l) = if decide (st_netID e = n) then Some e else staged_at n l.
Proof.
  unfold staged_at. simpl. case_decide; [done|]. by destruct (list_find _ l) as [[i x]|].
Qed.

Lemma staged_at_id n l s : staged_at n l = Some s -> st_netID s = n.
Proof.
  induction l as [|e l IH]; [done|]. rewrite staged_at_cons. case_decide; [by intros [= ->]|done].
Qed.

Lemma staged_at_None n l : staged_at n l = None <-> n ∉ ids l.
Proof.
  induction l as [|e l IH]; [split; [intros _; apply not_elem_of_nil|done]|]. rewrite staged_at_cons. simpl.
  rewrite not_elem_of_cons, <- IH. case_decide as E; [split; [done|intros [? _]; congruence]|].
  split; [intros H; split; [congruence|done]|by intros [_ ?]].
Qed.

Lemma staged_at_on_staged n f l m : keeps_id f ->
  staged_at m (on_staged n f l) = if decide (m = n) then Some (f (default (new_staged n) (staged_at n l))) else staged_at m l.
Proof.
  intros Hf. induction l as [|e l IH]; simpl.
  - rewrite staged_at_cons, Hf. simpl. by repeat case_decide.
  - destruct (Z.eqb_spec (st_netID e) n) as [E|E]; rewrite !staged_at_cons, ?Hf, ?IH;
      repeat case_decide; subst; simpl; try done; by rewrite ?decide_True by done.
Qed.

Lemma ids_on_staged n f l : keeps_id f -> NoDup (ids l) -> NoDup (ids (on_staged n f l)).
Proof.
  intros Hf. induction l as [|e l IH]; intros Hl; simpl; [rewrite Hf; apply NoDup_singleton|].
  apply NoDup_cons in Hl as [He Hl]. destruct (Z.eqb_spec (st_netID e) n) as [E|E]; simpl.
  - rewrite Hf. by apply NoDup_cons.
  - apply NoDup_cons. split; [|by apply IH]. apply staged_at_None. rewrite staged_at_on_staged by done.
    rewrite decide_False by done. by apply staged_at_None.
Qed.

(** ** The acknowledged snapshot of an entity *)

Definition acked_of (st : BaselineStore) (n : Z) : option bytes := Baseline st n ≫= Acked.

Lemma acked_with_ring b a r h n : Acked (with_ring b a r h n) = a.
Proof. done. Qed.
Lemma acked_PushSent b q d : Acked (PushSent b q d) = Acked b.
Proof. unfold PushSent. by destruct (_ =? _)%nat. Qed.
Lemma acked_ClearSent b : Acked (ClearSent b) = Acked b.
Proof. done. Qed.
Lemma acked_Prune b q : Acked (PruneSentThrough b q) = Acked b.
Proof. unfold PruneSentThrough. destruct (_ || _); [done|]. by destruct (prune_loop _ _ _ _ _). Qed.

Lemma acked_map_baselines f st n : (forall b, Acked (f b) = Acked b) -> acked_of (map_baselines f st) n = acked_of st n.
Proof.
  intros Hf. unfold acked_of, Baseline, map_baselines. simpl. rewrite lookup_fmap.
  destruct (baselines st !! n); simpl; [apply Hf|done].
Qed.

Lemma acked_SetBaseline st n b m : acked_of (SetBaseline st n b) m = if decide (m = n) then Acked b else acked_of st m.
Proof.
  unfold acked_of, Baseline, SetBaseline. simpl. case_decide as E; [subst; by rewrite lookup_insert_eq|by rewrite lookup_insert_ne].
Qed.

Lemma acked_DropBaseline st n m : acked_of (DropBaseline st n) m = if decide (m = n) then None else acked_of st m.
Proof.
  unfold acked_of, Baseline, DropBaseline. simpl. case_decide as E; [subst; by rewrite lookup_delete_eq|by rewrite lookup_delete_ne].
Qed.

Lemma acked_commit_rest s st n : acked_of (commit_rest s st) n = acked_of st n.
Proof. unfold commit_rest. by destruct (st_lastHashDirty s), (st_priorityDirty s). Qed.

Lemma GetOrCreate_spec st n d : exists st' b, GetOrCreateBaseline st n d = (st', b) /\
  (forall m, acked_of st' m = acked_of st m) /\ Acked b = acked_of st n.
Proof.
  unfold GetOrCreateBaseline, acked_of, Baseline. destruct (baselines st !! n) as [b|] eqn:E; eexists _, _; (split; [reflexivity|]).
  - done.
  - split; [|done]. intros m. simpl. destruct (decide (m = n)) as [->|Hne]; [by rewrite lookup_insert_eq, E|by rewrite lookup_insert_ne].
Qed.

Lemma acked_retainSent seq tx st n : acked_of (retainSent seq tx st) n = acked_of st n.
Proof.
  unfold retainSent. revert st. induction (entities tx) as [|s l IH]; intros st; [done|]. simpl. rewrite IH.
  destruct (negb (st_promoteReady s) || st_drop s); [done|].
  destruct (GetOrCreate_spec st (st_netID s) (ringDepth tx)) as (st' & b & -> & Hst & Hb).
  rewrite acked_SetBaseline, acked_PushSent, Hb. by case_decide as E; [rewrite E|].
Qed.

(** ** Committing *)

(** The snapshot an entity is left with when the staged entity is committed. *)
Definition staged_outcome (m : AckMode) (old : option bytes) (s : staged) : option bytes :=
  if st_drop s then None
  else if st_baselineDirty s then
    match m with
    | AckExplicit => if st_promoteReady s then Some (st_promoteSnapshot s) else old
    | AckReliable => Acked (st_baseline s)
    end
  else old.

Definition outcome (m : AckMode) (st : BaselineStore) (tx : replicationStateTxn) (n : Z) : option bytes :=
  match staged_at n (entities tx) with Some s => staged_outcome m (acked_of st n) s | None => acked_of st n end.

(** A loop over entities with different ids, each of which changes its own. *)
Lemma foldl_own (step : BaselineStore -> staged -> BaselineStore) (res : option bytes -> staged -> option bytes) l :
  (forall st s n, acked_of (step st s) n = if decide (n = st_netID s) then res (acked_of st n) s else acked_of st n) ->
  NoDup (ids l) -> forall st n,
  acked_of (foldl step st l) n = match staged_at n l with Some s => res (acked_of st n) s | None => acked_of st n end.
Proof.
  intros Hstep. induction l as [|e l IH]; intros Hl st n; [done|]. apply NoDup_cons in Hl as [He Hl].
  simpl. rewrite (IH Hl), staged_at_cons, Hstep. case_decide as E; case_decide as E'; try congruence.
  subst. by rewrite (proj2 (staged_at_None _ _) He).
Qed.

Lemma acked_commit tx st n : NoDup (ids (entities tx)) -> acked_of (commit tx st) n = outcome AckReliable st tx n.
Proof.
  intros Hl. unfold commit. rewrite (foldl_own _ (staged_outcome AckReliable)); [done| |done].
  intros st' s m. unfold staged_outcome. destruct (st_drop s); [by rewrite acked_DropBaseline|].
  rewrite acked_commit_rest. destruct (st_baselineDirty s); [by rewrite acked_SetBaseline|by case_decide].
Qed.

Lemma acked_commitExplicit seq tx st n : NoDup (ids (entities tx)) ->
  acked_of (commitExplicit seq tx st) n = outcome AckExplicit st tx n.
Proof.
  intros Hl. unfold commitExplicit. rewrite acked_map_baselines by (intros; apply acked_Prune).
  rewrite (foldl_own _ (staged_outcome AckExplicit)); [done| |done].
  intros st' s m. unfold staged_outcome. destruct (st_drop s); [by rewrite acked_DropBaseline|].
  rewrite acked_commit_rest. destruct (st_baselineDirty s); [|by case_decide].
  destruct (GetOrCreate_spec st' (st_netID s) (ringDepth tx)) as (st2 & b & -> & Hst & Hb).
  rewrite acked_SetBaseline, Hst. case_decide as E; [|done]. subst. unfold promoted. simpl. by destruct (st_promoteReady s).
Qed.
