(* ===== verification/FrameBuild.v ===== *)
(** * The frame of a viewer, entity by entity

    The invariant of the loop that builds a frame: every entity shown is told to the client
    in exactly one way, in full, as a delta of what the client has, or not at all because
    it is the same, and the transaction holds what the client will then have. *)

From S2P Require Import Prelude Float32 UdpTransport Replication Quantize QuantizeCodec ClientReplication ReplicationTxn.

(** ** Staging for one entity *)

(** The staged entity of [n] alone is changed, and not dropped. *)
Definition touches (n : Z) (tx tx' : replicationStateTxn) : Prop :=
  (forall m, m <> n -> staged_at m (entities tx') = staged_at m (entities tx)) /\
  (NoDup (ids (entities tx)) -> NoDup (ids (entities tx'))) /\
  ((forall s, staged_at n (entities tx) = Some s -> st_drop s = false) ->
   forall s, staged_at n (entities tx') = Some s -> st_drop s = false).

Lemma touches_refl n tx : touches n tx tx.
Proof. by split_and!. Qed.
Lemma touches_trans n tx1 tx2 tx3 : touches n tx1 tx2 -> touches n tx2 tx3 -> touches n tx1 tx3.
Proof.
  intros (A & B & C) (A' & B' & C'). split; [intros m Hm; by rewrite A', A|]. split; auto.
Qed.

Lemma touches_on_entity n f tx : keeps_id f -> (forall s, st_drop (f s) = st_drop s) -> touches n tx (on_entity tx n f).
Proof.
  intros Hf Hd. split; [|split].
  - intros m Hm. simpl. by rewrite staged_at_on_staged, decide_False by done.
  - by apply ids_on_staged.
  - intros H s. simpl. rewrite staged_at_on_staged, decide_True by done. intros [= <-]. rewrite Hd.
    destruct (staged_at n (entities tx)) as [s0|] eqn:E; [by apply H|done].
Qed.

(** Nothing that a commit looks at for the snapshot. *)
Definition quiet (f : staged -> staged) : Prop :=
  forall s, st_netID (f s) = st_netID s /\ st_drop (f s) = st_drop s /\ st_baselineDirty (f s) = st_baselineDirty s /\
    st_baseline (f s) = st_baseline s /\ st_promoteReady (f s) = st_promoteReady s /\ st_promoteSnapshot (f s) = st_promoteSnapshot s.

Lemma quiet_outcome f s md old : quiet f -> staged_outcome md old (f s) = staged_outcome md old s.
Proof. intros Hf. destruct (Hf s) as (_ & E1 & E2 & E3 & E4 & E5). unfold staged_outcome. by rewrite E1, E2, E3, E4, E5. Qed.

Lemma quiet_step md st n f tx : quiet f ->
  touches n tx (on_entity tx n f) /\ outcome md st (on_entity tx n f) n = outcome md st tx n.
Proof.
  intros Hf. assert (keeps_id f) as Hk by (intros s; apply Hf). split; [apply touches_on_entity; [done|intros s; apply Hf]|].
  unfold outcome. simpl. rewrite staged_at_on_staged, decide_True, quiet_outcome by done.
  by destruct (staged_at n (entities tx)).
Qed.

Lemma touches_outcome md st n m tx tx' : touches n tx tx' -> m <> n -> outcome md st tx' m = outcome md st tx m.
Proof. intros (A & _) Hm. unfold outcome. by rewrite A. Qed.

Lemma tx_priority_quiet md st n f tx :
  touches n tx (tx_priority st n f tx) /\ outcome md st (tx_priority st n f tx) n = outcome md st tx n.
Proof. apply quiet_step. intros s. by split_and!. Qed.

Lemma setLastHash_quiet md st n h tx :
  touches n tx (setLastHash n h tx) /\ outcome md st (setLastHash n h tx) n = outcome md st tx n.
Proof. apply quiet_step. intros s. by split_and!. Qed.

Lemma touches_tx_baseline st n f tx : touches n tx (tx_baseline st n f tx).
Proof. by apply touches_on_entity. Qed.

Lemma stage_snapshot_spec (c : connState) n epoch h snap tx :
  (forall s, staged_at n (entities tx) = Some s -> st_drop s = false) ->
  touches n tx (stage_snapshot c n epoch h snap tx) /\
  outcome (cs_mode c) (cs_store c) (stage_snapshot c n epoch h snap tx) n = Some snap.
Proof.
  intros Hd. assert (st_drop (default (new_staged n) (staged_at n (entities tx))) = false) as Hd0.
  { destruct (staged_at n (entities tx)) as [s|] eqn:E; [by apply Hd|done]. }
  unfold stage_snapshot. destruct (cs_mode c); (split; [|unfold outcome]).
  - apply touches_tx_baseline.
  - unfold tx_baseline, on_entity. simpl. rewrite staged_at_on_staged, decide_True by done.
    unfold staged_outcome. simpl. by rewrite Hd0.
  - unfold pushSent. eapply touches_trans; [apply touches_tx_baseline|].
    eapply touches_trans; [apply touches_tx_baseline|]. by apply touches_on_entity.
  - unfold pushSent, tx_baseline, on_entity. simpl. rewrite !staged_at_on_staged, !decide_True by done.
    unfold staged_outcome. simpl. by rewrite Hd0.
Qed.

(** ** One entity *)

Section Visit.
Context {G : Type} (s : System (G := G)) (env : Env (G := G)) (viewer : ViewerInfo) (c : connState) (isKeyframe force : bool).
(** The layout of every entity, which the client shares. *)
Context (codec : Z -> DeltaEncoder) (layout : Z -> list Z) (Hlayout : forall n, layout_ok (codec n) (layout n)).

(** Every entity shown has the layout of its id, and its snapshot fits the buffer. *)
Definition entry_ok (entry : Entry) : Prop :=
  forall visible n epoch ty rep, shown s env viewer visible entry = Some (n, epoch, ty, rep) ->
    deltaEncoders s !! ty = Some (codec n) /\ snapshot_ok (codec n) (Snapshot rep (world env) viewer entry) /\
    Z.of_nat (length (Snapshot rep (world env) viewer entry)) <= SnapshotBufSize (cfg s).

(** What the client was last told of an entity it can see. *)
Definition knows (n : Z) : Prop := exists base, acked_of (cs_store c) n = Some base /\ snapshot_ok (codec n) base.
Context (Hknows : force = false -> forall n, wasVisible s viewer n = true -> knows n).

Definition out (b : Build) (n : Z) : option bytes := outcome (cs_mode c) (cs_store c) (b_tx b) n.
Definition payload_ids (b : Build) : list Z := (fp_NetID <$> b_full b) ++ (dp_NetID <$> b_deltas b).

Inductive told (b : Build) (n : Z) : Prop :=
| told_full p : p ∈ b_full b -> fp_NetID p = n -> out b n = Some (fp_Snapshot p) ->
    snapshot_ok (codec n) (fp_Snapshot p) -> told b n
| told_delta p base snap : p ∈ b_deltas b -> dp_NetID p = n -> force = false -> wasVisible s viewer n = true ->
    deltaEncoders s !! dp_Type p = Some (codec n) ->
    acked_of (cs_store c) n = Some base -> snapshot_ok (codec n) base ->
    Encode (codec n) base snap [] = Some (Some (dp_Data p)) ->
    out b n = Some snap -> snapshot_ok (codec n) snap -> told b n
| told_kept : n ∉ payload_ids b -> force = false -> wasVisible s viewer n = true ->
    out b n = acked_of (cs_store c) n -> told b n.

Record built (b : Build) : Prop := {
  bd_ids : NoDup (ids (entities (b_tx b)));
  bd_payloads : NoDup (payload_ids b);
  bd_fresh : forall n, n ∉ b_visible b -> staged_at n (entities (b_tx b)) = None /\ n ∉ payload_ids b;
  bd_drop : forall n e, staged_at n (entities (b_tx b)) = Some e -> st_drop e = false;
  bd_told : forall n, n ∈ b_visible b -> told b n
}.

Lemma payload_ids_full b p : payload_ids (add_full b p) ≡ₚ fp_NetID p :: payload_ids b.
Proof.
  unfold payload_ids. simpl. rewrite fmap_app, <- app_assoc. simpl. by rewrite <- Permutation_middle.
Qed.
Lemma payload_ids_delta b p : payload_ids (add_delta b p) ≡ₚ dp_NetID p :: payload_ids b.
Proof. unfold payload_ids. simpl. rewrite fmap_app, app_assoc. symmetry. apply Permutation_cons_append. Qed.

(** The build after an entity: what it told of the others stands. *)
Definition extends (n : Z) (b b' : Build) : Prop :=
  touches n (b_tx b) (b_tx b') /\ b_visible b' = {[n]} ∪ b_visible b /\
  (b_full b' = b_full b /\ b_deltas b' = b_deltas b \/
   (exists p, fp_NetID p = n /\ b_full b' = b_full b ++ [p] /\ b_deltas b' = b_deltas b) \/
   (exists p, dp_NetID p = n /\ b_full b' = b_full b /\ b_deltas b' = b_deltas b ++ [p])).

Lemma extends_payloads n b b' m : extends n b b' -> (m ∈ payload_ids b -> m ∈ payload_ids b') /\
  (m ∈ payload_ids b' -> m = n \/ m ∈ payload_ids b) /\ (n ∉ payload_ids b -> NoDup (payload_ids b) -> NoDup (payload_ids b')).
Proof.
  intros (_ & _ & [(E1 & E2)|[(p & <- & E1 & E2)|(p & <- & E1 & E2)]]).
  - unfold payload_ids. rewrite E1, E2. auto.
  - assert (payload_ids b' ≡ₚ fp_NetID p :: payload_ids b) as -> by (rewrite <- payload_ids_full; unfold payload_ids; by rewrite E1, E2).
    split; [by right|]. split; [by intros []%elem_of_cons; auto|]. by constructor.
  - assert (payload_ids b' ≡ₚ dp_NetID p :: payload_ids b) as -> by (rewrite <- payload_ids_delta; unfold payload_ids; by rewrite E1, E2).
    split; [by right|]. split; [by intros []%elem_of_cons; auto|]. by constructor.
Qed.

Lemma extends_told n b b' m : extends n b b' -> m <> n -> told b m -> told b' m.
Proof.
  intros Hx Hm Ht. pose proof Hx as (Ht' & _ & Hp).
  assert (out b' m = out b m) as Eo by (by apply touches_outcome with n).
  assert ((forall p, p ∈ b_full b -> p ∈ b_full b') /\ (forall p, p ∈ b_deltas b -> p ∈ b_deltas b')) as [Hf Hd].
  { destruct Hp as [(-> & ->)|[(p & _ & -> & ->)|(p & _ & -> & ->)]]; split; intros q Hq; rewrite ?elem_of_app; auto. }
  destruct Ht as [p Hin Hid Ho Hok|p base snap Hin Hid Hfo Hv He Ha Hb Hen Ho Hok|Hno Hfo Hv Ho].
  - apply (told_full b' m p); auto. congruence.
  - apply (told_delta b' m p base snap); auto. congruence.
  - apply told_kept; auto; [|congruence]. intros [?|?]%(extends_payloads n b b' m Hx); [done|by apply Hno].
Qed.

Lemma extends_built n b b' : built b -> n ∉ b_visible b -> extends n b b' -> told b' n -> built b'.
Proof.
  intros [H1 H2 H3 H4 H5] Hn Hx Ht. pose proof Hx as (Htc & Ev & _). destruct (H3 n Hn) as [Hs Hp]. constructor.
  - by apply Htc.
  - by apply (extends_payloads n b b' n Hx).
  - intros m Hm. rewrite Ev in Hm. apply not_elem_of_union in Hm as [Hmn%not_elem_of_singleton Hm].
    destruct (H3 m Hm) as [Hsm Hpm]. split; [by rewrite (proj1 Htc m Hmn)|].
    by intros [?|?]%(extends_payloads n b b' m Hx).
  - intros m e He. destruct (decide (m = n)) as [->|Hmn]; [|rewrite (proj1 Htc m Hmn) in He; by eapply H4].
    eapply Htc; [|exact He]. by rewrite Hs.
  - intros m Hm. rewrite Ev, elem_of_union, elem_of_singleton in Hm. destruct (decide (m = n)) as [->|Hmn]; [done|].
    apply (extends_told n b b'); [done|done|]. apply H5. tauto.
Qed.

(** The three ways an entity is told. *)
Lemma built_kept n b b' : built b -> n ∉ b_visible b -> force = false -> wasVisible s viewer n = true ->
  touches n (b_tx b) (b_tx b') -> out b' n = out b n -> b_visible b' = {[n]} ∪ b_visible b ->
  b_full b' = b_full b -> b_deltas b' = b_deltas b -> built b'.
Proof.
  intros Hb Hn Hf Hv Ht Ho Ev Ef Ed. destruct (bd_fresh b Hb n Hn) as [Hs Hp].
  apply (extends_built n b b'); auto; [split; [done|]; split; [done|by left]|].
  apply told_kept; auto; [unfold payload_ids; by rewrite Ef, Ed|]. rewrite Ho. unfold out, outcome. by rewrite Hs.
Qed.

Lemma built_full n b b' p : built b -> n ∉ b_visible b -> touches n (b_tx b) (b_tx b') ->
  b_visible b' = {[n]} ∪ b_visible b -> b_full b' = b_full b ++ [p] -> b_deltas b' = b_deltas b ->
  fp_NetID p = n -> out b' n = Some (fp_Snapshot p) -> snapshot_ok (codec n) (fp_Snapshot p) -> built b'.
Proof.
  intros Hb Hn Ht Ev Ef Ed Hid Ho Hok. apply (extends_built n b b'); auto.
  - split; [done|]. split; [done|]. right. left. by exists p.
  - apply (told_full b' n p); auto. rewrite Ef. apply elem_of_app. right. by left.
Qed.

Lemma built_delta n b b' p base snap : built b -> n ∉ b_visible b -> touches n (b_tx b) (b_tx b') ->
  b_visible b' = {[n]} ∪ b_visible b -> b_full b' = b_full b -> b_deltas b' = b_deltas b ++ [p] ->
  dp_NetID p = n -> force = false -> wasVisible s viewer n = true -> deltaEncoders s !! dp_Type p = Some (codec n) ->
  acked_of (cs_store c) n = Some base -> snapshot_ok (codec n) base ->
  Encode (codec n) base snap [] = Some (Some (dp_Data p)) -> out b' n = Some snap -> snapshot_ok (codec n) snap -> built b'.
Proof.
  intros Hb Hn Ht Ev Ef Ed Hid Hf Hv He Ha Hba Hen Ho Hok. apply (extends_built n b b'); auto.
  - split; [done|]. split; [done|]. right. right. by exists p.
  - apply (told_delta b' n p base snap); auto. rewrite Ed. apply elem_of_app. right. by left.
Qed.

Lemma shown_new visible entry n epoch ty rep : shown s env viewer visible entry = Some (n, epoch, ty, rep) -> n ∉ visible.
Proof.
  unfold shown. intros H. repeat case_match; try done; simplify_eq; by match goal with E : bool_decide (_ ∈ _) = false |- _ => apply bool_decide_eq_false in E end.
Qed.

Lemma mark_shows n b : b_tx (mark s env viewer n b) = b_tx b /\ b_full (mark s env viewer n b) = b_full b /\
  b_deltas (mark s env viewer n b) = b_deltas b /\ b_visible (mark s env viewer n b) = {[n]} ∪ b_visible b.
Proof. unfold mark. by repeat case_match. Qed.

Lemma visit_built b entry : entry_ok entry -> built b ->
  exists b', visit s env viewer c isKeyframe force b entry = Some b' /\ built b'.
Proof.
  intros Hok Hb. unfold visit. destruct (shown s env viewer (b_visible b) entry) as [[[[n epoch] ty] rep]|] eqn:Es; [|by exists b].
  pose proof (shown_new _ _ _ _ _ _ Es) as Hn. destruct (Hok _ _ _ _ _ Es) as (He & Hsnap & Hlen).
  destruct (mark_shows n b) as (Et & Ef & Ed & Ev). set (b1 := mark s env viewer n b) in *.
  destruct (bd_fresh b Hb n Hn) as [Hs0 _].
  assert (forall e, staged_at n (entities (b_tx b)) = Some e -> st_drop e = false) as Hd by (by rewrite Hs0).
  set (full := needsFull s viewer c force n epoch). set (init := initialChanged c rep n _).
  assert (full = false -> force = false /\ wasVisible s viewer n = true) as Hfull.
  { unfold full, needsFull. by destruct force, (wasVisible s viewer n). }
  destruct (negb full && negb init && asleep s c n) eqn:E1.
  { exists b1. split; [done|]. destruct full; [done|]. destruct (Hfull eq_refl) as [F1 F2].
    apply (built_kept n b b1 Hb Hn F1 F2); [rewrite Et; apply touches_refl|unfold out; by rewrite Et|done..]. }
  clear E1. destruct (negb full && negb isKeyframe && negb init && _ && _) eqn:E2.
  { eexists. split; [reflexivity|]. destruct full; [done|]. destruct (Hfull eq_refl) as [F1 F2].
    apply (built_kept n b _ Hb Hn F1 F2); [| |exact Ev|exact Ef|exact Ed]; unfold out; simpl; rewrite Et;
      apply tx_priority_quiet with (md := cs_mode c). }
  clear E2. set (f0 := fun p => mkPriority (Accumulator p) (LastSentTick p) 0).
  destruct (negb full && negb init && _ && _) eqn:E3.
  { eexists. split; [reflexivity|]. destruct full; [done|]. destruct (Hfull eq_refl) as [F1 F2].
    destruct (tx_priority_quiet (cs_mode c) (cs_store c) n f0 (b_tx b)) as [T1 O1].
    match goal with |- built (set_tx _ (tx_priority _ _ ?g)) =>
      destruct (tx_priority_quiet (cs_mode c) (cs_store c) n g (tx_priority (cs_store c) n f0 (b_tx b))) as [T2 O2] end.
    apply (built_kept n b _ Hb Hn F1 F2); [| |exact Ev|exact Ef|exact Ed]; unfold out; simpl; rewrite Et;
      [by eapply touches_trans|by rewrite O2]. }
  clear E3. set (hash := Hash rep (world env) viewer entry). set (snap := Snapshot rep (world env) viewer entry) in *.
  match goal with |- context [tx_priority (cs_store c) n ?g (setLastHash n hash _)] => set (f1 := g) end.
  set (tx1 := tx_priority (cs_store c) n f0 (b_tx b)). set (tx2 := setLastHash n hash tx1).
  set (tx3 := tx_priority (cs_store c) n f1 tx2).
  assert (touches n (b_tx b) tx3 /\ outcome (cs_mode c) (cs_store c) tx3 n = outcome (cs_mode c) (cs_store c) (b_tx b) n) as [T3 O3].
  { destruct (tx_priority_quiet (cs_mode c) (cs_store c) n f0 (b_tx b)) as [TA OA].
    destruct (setLastHash_quiet (cs_mode c) (cs_store c) n hash tx1) as [TB OB].
    destruct (tx_priority_quiet (cs_mode c) (cs_store c) n f1 tx2) as [TC OC].
    split; [eapply touches_trans; [exact TA|]; by eapply touches_trans|]. unfold tx3. rewrite OC. unfold tx2. by rewrite OB. }
  destruct (Z.ltb_spec (SnapshotBufSize (cfg s)) (Z.of_nat (length snap))); [lia|].
  assert (forall e, staged_at n (entities tx3) = Some e -> st_drop e = false) as Hd3 by (by apply T3).
  assert (forall h, touches n (b_tx b) (stage_snapshot c n epoch h snap tx3)) as T4.
  { intros h. eapply touches_trans; [exact T3|]. by apply stage_snapshot_spec. }
  assert (forall h, outcome (cs_mode c) (cs_store c) (stage_snapshot c n epoch h snap tx3) n = Some snap) as O4.
  { intros h. by apply stage_snapshot_spec. }
  assert (forall b' p h, b_full b' = b_full b1 ++ [p] -> b_tx b' = stage_snapshot c n epoch h snap tx3 ->
    fp_NetID p = n -> fp_Snapshot p = snap -> b_visible b' = b_visible b1 -> b_deltas b' = b_deltas b1 -> built b') as Hbuilt.
  { intros b' p h Ebf Eb Hid Hsn Ebv Ebd. rewrite Ev in Ebv. rewrite Ef in Ebf. rewrite Ed in Ebd.
    apply (built_full n b b' p); auto; [by rewrite Eb|unfold out; by rewrite Eb, Hsn|by rewrite Hsn]. }
  change (Baseline (cs_store c) n ≫= Acked) with (acked_of (cs_store c) n).
  set (stamp := producedAtMs env (e_Entity entry)).
  destruct (acked_of (cs_store c) n) as [base|] eqn:Ea; [destruct (full || init) eqn:Efi|]; cbn [set_tx add_full add_delta];
    [eexists; split; [reflexivity|eapply Hbuilt; simpl; rewrite ?Et; reflexivity]| |eexists; split; [reflexivity|eapply Hbuilt; simpl; rewrite ?Et; reflexivity]].
  apply orb_false_iff in Efi as [-> _]. destruct (Hfull eq_refl) as [F1 F2].
  destruct isKeyframe; [eexists; split; [reflexivity|eapply Hbuilt; simpl; rewrite ?Et; reflexivity]|].
  destruct (Hknows F1 n F2) as (base' & Hba & Hbok). rewrite Ea in Hba. injection Hba as <-. rewrite He.
  pose proof (delta_correct (codec n) (layout n) (Hlayout n) base snap Hbok Hsnap) as Hdelta.
  destruct (Encode (codec n) base snap []) as [[data|]|] eqn:Een; [| |done]; cbn [mbind option_bind].
  - eexists. split; [reflexivity|].
    apply (built_delta n b _ (mkDeltaPayload n epoch ty stamp data) base snap); auto; simpl; rewrite ?Et; auto.
    + by rewrite Ed.
    + unfold out. simpl. by rewrite Et.
  - subst base. eexists. split; [reflexivity|]. apply (built_kept n b _ Hb Hn F1 F2); [| |exact Ev|exact Ef|exact Ed];
      unfold out; simpl; rewrite Et; [exact T3|exact O3].
Qed.

Lemma build_built depth recent entries : Forall entry_ok entries ->
  exists b, fold_opt (visit s env viewer c isKeyframe force) entries (mkBuild (begin depth) [] [] ∅ [] recent []) = Some b /\
    built b.
Proof.
  intros Hall. assert (built (mkBuild (begin depth) [] [] ∅ [] recent [])) as Hb.
  { constructor; simpl; [apply NoDup_nil_2|apply NoDup_nil_2|intros n _; split; [done|apply not_elem_of_nil]|done|intros n Hn; set_solver]. }
  revert Hb. generalize (mkBuild (begin depth) [] [] ∅ [] recent []). induction Hall as [|e l He Hall IH]; intros b Hb; [by exists b|].
  simpl. destruct (visit_built b e He Hb) as (b1 & -> & Hb1). simpl. by apply IH.
Qed.
End Visit.
