(* ===== verification/ReplicationClient.v ===== *)
(** * The client of a replication stream

    The decoder the code's own tests use as the reference of every generated client
    (refClient of lossy_link_test.go): a fence on the stream epoch and on the sequence, one
    snapshot per entity.  Applying a frame gives the client what the frame promises. *)

From S2P Require Import Prelude Float32 UdpTransport Replication Quantize QuantizeCodec ClientReplication ReplicationTxn FrameBuild.

Record Client := mkClient { k_epoch : option Z; k_seq : option Z; k_base : gmap Z bytes }.

(** ** Applying a frame *)

Section Client.
Context (encs : gmap Z DeltaEncoder).

Definition apply_full (m : gmap Z bytes) (e : FullEntry) : gmap Z bytes := <[fu_NetID e := fu_Snapshot e]> m.

(** A delta without a baseline, or of an unknown type, is dropped.  The decoder is the one
    of the entity's type, as in the generated clients; the test's client has a single type
    and so a single decoder. *)
Definition apply_delta (m : gmap Z bytes) (e : DeltaEntry) : option (gmap Z bytes) :=
  match m !! de_NetID e, encs !! de_EntityType e with
  | Some base, Some d => s ← Decode d base (de_Data e); Some (<[de_NetID e := s]> m)
  | _, _ => Some m
  end.

Definition apply_body (fresh : bool) (full : list FullEntry) (deltas : list DeltaEntry) (removed exited : list Z)
  (m : gmap Z bytes) : option (gmap Z bytes) :=
  let m := foldl apply_full (if fresh then ∅ else m) full in
  m ← fold_opt apply_delta deltas m;
  Some (foldl (fun m n => delete n m) (foldl (fun m n => delete n m) m removed) exited).

(** A datagram of the stream [epoch]; the answer says whether it was accepted, and so
    acknowledged. *)
Definition Deliver (epoch : Z) (raw : bytes) (k : Client) : option (Client * option Z) :=
  match (match k_epoch k with
         | Some e =>
             if epoch =? e then Some k
             else if streamGenerationAfter epoch e then Some (mkClient (Some epoch) None ∅) else None
         | None => Some (mkClient (Some epoch) (k_seq k) (k_base k))
         end) with
  | None => Some (k, None)
  | Some k =>
      '(h, _) ← Header raw;
      if match k_seq k with Some last => negb (streamGenerationAfter (Quantize.Seq h) last) | None => false end then Some (k, None)
      else
        '(_, full, deltas, removed, exited, _) ← ReadFrame raw;
        m ← apply_body (negb (Z.land (Flags h) FrameFlagFreshSnapshot =? 0)) full deltas removed exited (k_base k);
        Some (mkClient (k_epoch k) (Some (Quantize.Seq h)) m, Some (Quantize.Seq h))
  end.

Lemma fulls_spec l m : NoDup (fu_NetID <$> l) ->
  (forall e, e ∈ l -> foldl apply_full m l !! fu_NetID e = Some (fu_Snapshot e)) /\
  (forall n, n ∉ fu_NetID <$> l -> foldl apply_full m l !! n = m !! n).
Proof.
  revert m. induction l as [|e l IH]; intros m Hl; [split; [intros e He; by apply elem_of_nil in He|done]|].
  simpl in *. apply NoDup_cons in Hl as [He Hl]. destruct (IH (apply_full m e) Hl) as [H1 H2]. split.
  - intros e' [->|He']%elem_of_cons; [|by apply H1]. rewrite H2 by done. apply lookup_insert_eq.
  - intros n [Hn Hn']%not_elem_of_cons. rewrite H2 by done. by apply lookup_insert_ne.
Qed.

Lemma deltas_spec (snap : Z -> bytes) l m : NoDup (de_NetID <$> l) ->
  (forall e, e ∈ l -> exists base d, m !! de_NetID e = Some base /\ encs !! de_EntityType e = Some d /\
     Decode d base (de_Data e) = Some (snap (de_NetID e))) ->
  exists m', fold_opt apply_delta l m = Some m' /\
    (forall e, e ∈ l -> m' !! de_NetID e = Some (snap (de_NetID e))) /\
    (forall n, n ∉ de_NetID <$> l -> m' !! n = m !! n).
Proof.
  revert m. induction l as [|e l IH]; intros m Hl Hall.
  { exists m. split; [done|]. split; [intros e He; by apply elem_of_nil in He|done]. }
  simpl in *. apply NoDup_cons in Hl as [He Hl].
  destruct (Hall e (list_elem_of_here _ _)) as (base & d & E1 & E2 & E3).
  assert (apply_delta m e = Some (<[de_NetID e := snap (de_NetID e)]> m)) as -> by (unfold apply_delta; by rewrite E1, E2, E3).
  cbn [mbind option_bind].
  destruct (IH (<[de_NetID e := snap (de_NetID e)]> m) Hl) as (m' & Em & H1 & H2).
  { intros e' He'. destruct (Hall e' (list_elem_of_further _ _ _ He')) as (base' & d' & E1' & E2' & E3'). exists base', d'.
    split; [|done]. rewrite lookup_insert_ne; [done|]. intros Heq. apply He. rewrite Heq. by apply list_elem_of_fmap_2. }
  exists m'. split; [done|]. split.
  - intros e' [->|He']%elem_of_cons; [|by apply H1]. rewrite H2 by done. apply lookup_insert_eq.
  - intros n [Hn Hn']%not_elem_of_cons. rewrite H2 by done. by apply lookup_insert_ne.
Qed.

Lemma deletes_other l (m : gmap Z bytes) n : n ∉ l -> foldl (fun m n => delete n m) m l !! n = m !! n.
Proof.
  revert m. induction l as [|x l IH]; intros m Hn; [done|]. apply not_elem_of_cons in Hn as [Hx Hn]. simpl.
  rewrite IH by done. by apply lookup_delete_ne.
Qed.
End Client.

(** ** A frame keeps its promise *)

Section Promise.
Context {G : Type} (s : System (G := G)) (viewer : ViewerInfo) (c : connState) (force : bool) (codec : Z -> DeltaEncoder)
  (layout : Z -> list Z) (Hlayout : forall n, layout_ok (codec n) (layout n)).

(** The client has the acknowledged snapshot of every entity that is visible to it. *)
Definition agrees (m : gmap Z bytes) : Prop :=
  forall n, wasVisible s viewer n = true -> m !! n = acked_of (cs_store c) n.

Context (Hknows : force = false -> forall n, wasVisible s viewer n = true -> knows c codec n).

Lemma NoDup_fmap_eq {A B} (f : A -> B) l x y : NoDup (f <$> l) -> x ∈ l -> y ∈ l -> f x = f y -> x = y.
Proof.
  induction l as [|z l IH]; intros Hl Hx Hy E; [by apply elem_of_nil in Hx|]. apply NoDup_cons in Hl as [Hz Hl].
  apply elem_of_cons in Hx as [->|Hx]; apply elem_of_cons in Hy as [->|Hy]; [done| | |by apply IH].
  - destruct Hz. rewrite E. by apply list_elem_of_fmap_2.
  - destruct Hz. rewrite <- E. by apply list_elem_of_fmap_2.
Qed.

Lemma frame_applies b fresh removed exited m : built s viewer c force codec b ->
  (fresh = true -> forall n, force = true \/ wasVisible s viewer n = false) ->
  (fresh = false -> agrees m) ->
  (forall n, n ∈ removed \/ n ∈ exited -> n ∉ b_visible b) ->
  exists m', apply_body (deltaEncoders s) fresh (map full_entry (b_full b)) (map delta_entry (b_deltas b)) removed exited m = Some m' /\
    forall n, n ∈ b_visible b -> exists snap, out c b n = Some snap /\ m' !! n = Some snap /\ snapshot_ok (codec n) snap.
Proof.
  intros Hb Hfresh Hagree Hgone. unfold apply_body. set (m0 := if fresh then ∅ else m).
  pose proof (bd_payloads _ _ _ _ _ _ Hb) as Hnd. unfold payload_ids in Hnd. apply NoDup_app in Hnd as (Hnf & Hdisj & Hndd).
  assert (fu_NetID <$> map full_entry (b_full b) = fp_NetID <$> b_full b) as Eif by (rewrite <- list_fmap_compose; done).
  assert (de_NetID <$> map delta_entry (b_deltas b) = dp_NetID <$> b_deltas b) as Eid by (rewrite <- list_fmap_compose; done).
  assert (forall n, force = false -> wasVisible s viewer n = true -> m0 !! n = acked_of (cs_store c) n) as Hm0.
  { intros n Hf Hv. unfold m0. destruct fresh; [|by apply Hagree]. destruct (Hfresh eq_refl n); congruence. }
  destruct (fulls_spec (map full_entry (b_full b)) m0) as [F1 F2]; [by rewrite Eif|]. set (m1 := foldl apply_full m0 _) in *.
  assert (forall p, p ∈ b_deltas b -> exists base, m1 !! dp_NetID p = Some base /\ deltaEncoders s !! dp_Type p = Some (codec (dp_NetID p)) /\
    exists snap, Decode (codec (dp_NetID p)) base (dp_Data p) = Some snap /\ out c b (dp_NetID p) = Some snap /\
      snapshot_ok (codec (dp_NetID p)) snap) as Hdelta.
  { intros p Hp. assert (dp_NetID p ∈ payload_ids b) as Hin by (apply elem_of_app; right; by apply list_elem_of_fmap_2).
    assert (dp_NetID p ∉ fp_NetID <$> b_full b) as Hnof.
    { intros Hc. apply (Hdisj _ Hc). by apply list_elem_of_fmap_2. }
    destruct (decide (dp_NetID p ∈ b_visible b)) as [Hvis|Hvis]; [|by destruct (bd_fresh _ _ _ _ _ _ Hb _ Hvis)].
    destruct (bd_told _ _ _ _ _ _ Hb _ Hvis) as [q Hq Eq Ho Hok|q base snap Hq Eq Hf Hv Het Ha Hba Hen Ho Hok|Hno]; [| |done].
    - destruct Hnof. rewrite <- Eq. by apply list_elem_of_fmap_2.
    - assert (q = p) as -> by (by apply (NoDup_fmap_eq dp_NetID (b_deltas b))).
      exists base. split; [rewrite F2 by (by rewrite Eif); by rewrite Hm0|]. split; [done|]. exists snap.
      pose proof (delta_correct _ _ (Hlayout (dp_NetID p)) base snap Hba Hok) as Hd. rewrite Hen in Hd. by destruct Hd as [_ ->]. }
  destruct (deltas_spec (deltaEncoders s) (fun n => default [] (out c b n)) (map delta_entry (b_deltas b)) m1) as (m2 & E2 & D1 & D2); [by rewrite Eid| |].
  { intros e He. apply list_elem_of_fmap in He as (p & -> & Hp). destruct (Hdelta p Hp) as (base & E & Ht & snap & Ed & Eo & _).
    exists base, (codec (dp_NetID p)). split; [done|]. split; [done|]. simpl. by rewrite Eo. }
  rewrite E2. eexists. split; [reflexivity|]. intros n Hvis.
  rewrite !deletes_other by (intros Hc; by apply (Hgone n); auto).
  destruct (bd_told _ _ _ _ _ _ Hb _ Hvis) as [q Hq Eq Ho Hok|q base snap Hq Eq Hf Hv Het Ha Hba Hen Ho Hok|Hno Hf Hv Ho].
  - exists (fp_Snapshot q). split; [done|]. split; [|done]. subst n. rewrite D2.
    + apply (F1 (full_entry q)). by apply list_elem_of_fmap_2.
    + rewrite Eid. apply Hdisj. by apply list_elem_of_fmap_2.
  - exists snap. split; [done|]. split; [|done]. subst n. 
    rewrite (D1 (delta_entry q) (list_elem_of_fmap_2 delta_entry _ _ Hq) : m2 !! dp_NetID q = _). simpl. by rewrite Ho.
  - destruct (Hknows Hf n Hv) as (base & Ha & Hba). exists base. rewrite Ho. split; [done|]. split; [|done].
    unfold payload_ids in Hno. apply not_elem_of_app in Hno as [Hn1 Hn2].
    rewrite D2 by (by rewrite Eid). rewrite F2 by (by rewrite Eif). by rewrite Hm0.
Qed.
End Promise.
