(* ===== verification/ReplicationLink.v ===== *)
(** * A replication stream over a lossy link

    [ReplicationSystem] and one client joined by a network that may drop, delay, duplicate
    and reorder the frames and the acknowledgements: a frame or an acknowledgement that was
    sent may arrive at any time, any number of times, or never. *)

From S2P Require Import Prelude Float32 UdpTransport Replication Quantize QuantizeCodec ClientReplication ReplicationTxn FrameBuild ReplicationClient.

(** ** Delivering a frame *)

Definition frame_ok (f : ReplicationFrame) : Prop :=
  frame_fits (fr_Tick f) (fr_Seq f) (fr_Flags f) (map full_entry (fr_Full f)) (map delta_entry (fr_Deltas f))
    (fr_Removed f) (fr_Exited f) (fr_InputAck f).

Definition is_fresh (f : ReplicationFrame) : bool := negb (Z.land (fr_Flags f) FrameFlagFreshSnapshot =? 0).

Section Deliver.
Context (encs : gmap Z DeltaEncoder).

Definition applied (f : ReplicationFrame) (m : gmap Z bytes) : option (gmap Z bytes) :=
  apply_body encs (is_fresh f) (map full_entry (fr_Full f)) (map delta_entry (fr_Deltas f)) (fr_Removed f) (fr_Exited f) m.

(** The fence on the stream, and on the sequence. *)
Definition enter (epoch : Z) (k : Client) : option Client :=
  match k_epoch k with
  | Some e =>
      if epoch =? e then Some k
      else if streamGenerationAfter epoch e then Some (mkClient (Some epoch) None ∅) else None
  | None => Some (mkClient (Some epoch) (k_seq k) (k_base k))
  end.
Definition stale (seq : Z) (k : Client) : bool :=
  match k_seq k with Some last => negb (streamGenerationAfter seq last) | None => false end.

Lemma header_fresh flags (ack : option Z) : (Z.land (if ack then Z.lor flags FrameFlagInputAck else Z.ldiff flags FrameFlagInputAck) FrameFlagFreshSnapshot =? 0)
  = (Z.land flags FrameFlagFreshSnapshot =? 0).
Proof.
  f_equal. apply Z.bits_inj'. intros n Hn.
  assert (forall x, Z.testbit (Z.land x FrameFlagFreshSnapshot) n = if decide (n = 0) then Z.testbit x 0 else false) as H.
  { intros x. rewrite Z.land_spec. unfold FrameFlagFreshSnapshot. change 1 with (2 ^ 0) at 1. case_decide as E.
    - subst. rewrite Z.pow2_bits_true by done. apply andb_true_r.
    - rewrite Z.pow2_bits_false by done. apply andb_false_r. }
  rewrite !H. case_decide; [|done]. destruct ack; [rewrite Z.lor_spec; apply orb_false_r|rewrite Z.ldiff_spec; apply andb_true_r].
Qed.

Lemma Deliver_frame f k : frame_ok f ->
  Deliver encs (fr_StreamEpoch f) (encode_body f) k =
  match enter (fr_StreamEpoch f) k with
  | None => Some (k, None)
  | Some k =>
      if stale (fr_Seq f) k then Some (k, None)
      else m ← applied f (k_base k); Some (mkClient (k_epoch k) (Some (fr_Seq f)) m, Some (fr_Seq f))
  end.
Proof.
  intros Hok. pose proof (ReadFrame_encode _ _ _ _ _ _ _ _ Hok) as E. fold (encode_body f) in E.
  assert (exists d, Header (encode_body f) = Some (header_of (fr_Tick f) (fr_Seq f) (fr_Flags f) (map full_entry (fr_Full f))
    (map delta_entry (fr_Deltas f)) (fr_Removed f) (fr_Exited f) (fr_InputAck f), d)) as [d Hd].
  { unfold ReadFrame in E. destruct (Header (encode_body f)) as [[h d]|]; [|done]. exists d. cbn [mbind option_bind] in E.
    repeat (match goal with H : context [read_n ?a ?b ?c] |- _ => destruct (read_n a b c) as [[? ?]|]; [|done]; cbn [mbind option_bind] in H end).
    by injection E as -> _. }
  unfold Deliver, enter, stale. rewrite Hd, E. destruct (k_epoch k) as [e|]; [destruct (_ =? e); [|destruct (streamGenerationAfter _ e); [|done]]|];
    cbn [mbind option_bind k_seq k_epoch k_base header_of Quantize.Seq Flags]; rewrite ?header_fresh; reflexivity.
Qed.

(** Whatever arrives, the client stays in its stream or moves to the datagram's. *)
Lemma Deliver_epoch epoch raw k k' a : Deliver encs epoch raw k = Some (k', a) ->
  (k' = k /\ a = None) \/ (exists k1, enter epoch k = Some k1 /\ k_epoch k' = k_epoch k1).
Proof.
  unfold Deliver. fold (enter epoch k). destruct (enter epoch k) as [k1|]; [|intros [= <- <-]; by left].
  intros H. right. exists k1. split; [done|]. destruct (Header raw) as [[h d]|]; [|done]. cbn [mbind option_bind] in H.
  destruct (match k_seq k1 with Some _ => _ | None => _ end); [by injection H as <- _|].
  destruct (ReadFrame raw) as [[[[[[h' fu] de] re] ex] ac]|]; [|done]. cbn [mbind option_bind] in H.
  destruct (apply_body _ _ _ _ _ _ _); [|done]. by injection H as <- _.
Qed.

Lemma enter_epoch epoch k k1 : enter epoch k = Some k1 -> k_epoch k1 = Some epoch.
Proof.
  unfold enter. destruct (k_epoch k) as [e|] eqn:E; [|by intros [= <-]].
  destruct (Z.eqb_spec epoch e) as [->|]; [by intros [= <-]|]. destruct (streamGenerationAfter _ _); [by intros [= <-]|done].
Qed.
End Deliver.

(** ** What concerns one connection only *)

Section Frame.
Context {G : Type} (c0 : Z).
Abbreviation Sys := (System (G := G)).

Definition same_static (s s' : Sys) : Prop :=
  cfg s' = cfg s /\ deltaEncoders s' = deltaEncoders s /\ tierConfigs s' = tierConfigs s /\ maxTierRadius s' = maxTierRadius s.

Lemma same_static_trans s1 s2 s3 : same_static s1 s2 -> same_static s2 s3 -> same_static s1 s3.
Proof. intros (A1 & A2 & A3 & A4) (B1 & B2 & B3 & B4). split_and!; congruence. Qed.

(** Nothing changed for the connection [c0]. *)
Definition untouched (s s' : Sys) : Prop :=
  connections s' !! c0 = connections s !! c0 /\ lastVisible s' !! c0 = lastVisible s !! c0 /\ same_static s s'.

Lemma untouched_refl s : untouched s s.
Proof. by split_and!. Qed.
Lemma untouched_trans s1 s2 s3 : untouched s1 s2 -> untouched s2 s3 -> untouched s1 s3.
Proof. intros (A1 & A2 & A3) (B1 & B2 & B3). split_and!; [congruence|congruence|by apply same_static_trans with s2]. Qed.

Lemma set_conn_untouched s id c : id <> c0 -> untouched s (set_conn s id c).
Proof. intros H. split; [by apply lookup_insert_ne|]. by split_and!. Qed.
Lemma insert_visible_untouched s id c X : id <> c0 ->
  untouched s (set_lastVisible (set_conn s id c) (<[id := X]> (lastVisible s))).
Proof. intros H. split; [by apply lookup_insert_ne|]. split; [by apply lookup_insert_ne|]. by split_and!. Qed.
Lemma delete_visible_untouched s id c : id <> c0 ->
  untouched s (set_lastVisible (set_conn s id c) (delete id (lastVisible s))).
Proof. intros H. split; [by apply lookup_insert_ne|]. split; [by apply lookup_delete_ne|]. by split_and!. Qed.

Lemma commitPending_untouched id ex s c : id <> c0 -> untouched s (commitPendingAttempt id ex s c).1.
Proof.
  intros H. unfold commitPendingAttempt. destruct (pending c); [|apply untouched_refl]. simpl.
  by apply insert_visible_untouched.
Qed.

Lemma drain_loop_untouched id l s c : id <> c0 -> untouched s (drain_loop id l s c).1.
Proof.
  intros H. revert s c. induction l as [|[[e q] r] l IH]; intros s c; simpl; [by apply set_conn_untouched|].
  destruct (pending c) as [p|]; [|apply IH]. destruct (_ || _); [apply IH|]. destruct (negb _); [apply IH|].
  destruct (_ && _); [by apply delete_visible_untouched|].
  destruct (Supports _ _); [|apply IH]. pose proof (commitPending_untouched id false s c H) as Hc.
  destruct (commitPendingAttempt id false s c) as [s1 ev1]. simpl in Hc. destruct (connections s1 !! id); [|done].
  specialize (IH s1 c1). destruct (drain_loop id l s1 c1). simpl in *. by apply untouched_trans with s1.
Qed.

Lemma drain_untouched env id s : id <> c0 -> untouched s (drainFrameReceipts env id s).1.
Proof.
  intros H. unfold drainFrameReceipts. destruct (connections s !! id); [|apply untouched_refl].
  destruct (TracksReceipts _); [by apply drain_loop_untouched|apply untouched_refl].
Qed.

Lemma LastVisible_untouched id s : id <> c0 -> untouched s (LastVisible s id).1.
Proof.
  intros H. unfold LastVisible. simpl. split; [by apply lookup_delete_ne|]. split; [by apply lookup_delete_ne|]. by split_and!.
Qed.

Lemma reconcile_untouched env id s : id <> c0 -> untouched s (reconcile env s id).
Proof.
  intros H. unfold reconcile. case_bool_decide; [apply untouched_refl|].
  repeat case_match; by (apply set_conn_untouched || apply LastVisible_untouched).
Qed.

(** The frames for [c0] that may reach the network: an indeterminate result is ambiguous. *)
Definition leaves (e : event) : list ReplicationFrame :=
  match e with
  | Written f r =>
      if (ConnID (fr_Viewer f) =? c0) && (Queued r || bool_decide (Disposition r = SendIndeterminate)) then [f] else []
  | _ => []
  end.
Definition emitted (evs : list event) : list ReplicationFrame := concat (map leaves evs).

Lemma emitted_app a b : emitted (a ++ b) = emitted a ++ emitted b.
Proof. unfold emitted. by rewrite map_app, concat_app. Qed.

Lemma emitted_blinks id l : emitted (map (fun b => BlinkDetected id (bk_netID b) (bk_ticksSinceRemove b)) l) = [].
Proof. by induction l. Qed.

Lemma commitPending_emits id ex (s : Sys) c : emitted (commitPendingAttempt id ex s c).2 = [].
Proof. unfold commitPendingAttempt. destruct (pending c); [apply emitted_blinks|done]. Qed.

Lemma drain_loop_emits id l (s : Sys) c : emitted (drain_loop id l s c).2 = [].
Proof.
  revert s c. induction l as [|[[e q] r] l IH]; intros s c; simpl; [done|].
  destruct (pending c) as [p|]; [|apply IH]. destruct (_ || _); [apply IH|]. destruct (negb _); [apply IH|].
  destruct (_ && _); [done|]. destruct (Supports _ _); [|apply IH]. pose proof (commitPending_emits id false s c) as Hc.
  destruct (commitPendingAttempt id false s c) as [s1 ev1]. simpl in Hc. destruct (connections s1 !! id); [|done].
  specialize (IH s1 c1). destruct (drain_loop id l s1 c1). simpl in *. by rewrite emitted_app, Hc, IH.
Qed.

Lemma drain_emits env id (s : Sys) : emitted (drainFrameReceipts env id s).2 = [].
Proof.
  unfold drainFrameReceipts. destruct (connections s !! id); [|done]. destruct (TracksReceipts _); [apply drain_loop_emits|done].
Qed.

Lemma settle_untouched s env id c b q self ex re recent r : id <> c0 ->
  untouched s (settle s env id c b q self ex re recent r).1.
Proof.
  intros H. unfold settle. repeat case_match; simpl; try by apply set_conn_untouched.
  all: by apply insert_visible_untouched.
Qed.

Lemma settle_emits (s : Sys) env id c b q self ex re recent r : emitted (settle s env id c b q self ex re recent r).2 = [].
Proof. unfold settle. repeat case_match; simpl; try done; apply emitted_blinks. Qed.

Lemma getConn_untouched s id : id <> c0 -> untouched s (getConn s id).1.
Proof. intros H. unfold getConn. destruct (connections s !! id); [apply untouched_refl|by apply set_conn_untouched]. Qed.

Lemma reset_untouched s id gen c : id <> c0 -> untouched s (reset_stream s id gen c).1.
Proof. intros H. by apply delete_visible_untouched. Qed.

Lemma resolve_untouched env s v c : ConnID v <> c0 -> untouched s (resolveStreamGeneration env s v c).1.1.
Proof.
  intros H. unfold resolveStreamGeneration. repeat case_match; simpl; try apply untouched_refl; try by apply set_conn_untouched.
  all: by apply reset_untouched.
Qed.

Lemma send_untouched s env v c ex key rem s' evs : ConnID v <> c0 -> send_frame s env v c ex key rem = Some (s', evs) ->
  untouched s s' /\ emitted evs = [].
Proof.
  intros H. unfold send_frame. destruct (self_and_epoch _ _ _ _ _) as [[c1 self] resc].
  destruct (fold_opt _ _ _) as [b|]; [|done]. cbn [mbind option_bind]. destruct (departures _ _ _ _ _ _ _) as [ex' re'].
  match goal with |- context [settle ?a1 ?a2 ?a3 ?a4 ?a5 ?a6 ?a7 ?a8 ?a9 ?a10 ?a11] =>
    pose proof (settle_untouched a1 a2 a3 a4 a5 a6 a7 a8 a9 a10 a11 H) as Hu;
    pose proof (settle_emits a1 a2 a3 a4 a5 a6 a7 a8 a9 a10 a11) as He;
    destruct (settle a1 a2 a3 a4 a5 a6 a7 a8 a9 a10 a11) as [s1 ev1] end.
  intros [= <- <-]. simpl in *. split; [done|]. unfold emitted in *. simpl.
  destruct (Z.eqb_spec (ConnID v) c0); [done|]. simpl. rewrite map_app, concat_app, He. done.
Qed.

Lemma serve_untouched env key rem s v s' evs : ConnID v <> c0 -> serve env key rem s v = Some (s', evs) ->
  untouched s s' /\ emitted evs = [].
Proof.
  intros H. unfold serve. pose proof (getConn_untouched s (ConnID v) H) as H1. destruct (getConn s (ConnID v)) as [s1 c1].
  pose proof (resolve_untouched env s1 v c1 H) as H2. destruct (resolveStreamGeneration env s1 v c1) as [[s2 c2] ex]. simpl in *.
  pose proof (untouched_trans _ _ _ H1 H2) as H12.
  destruct (pending c2) as [p|].
  - destruct (pendingTimedOut _ _ _).
    + intros E. apply send_untouched in E as [Hu He]; [|done]. split; [|done].
      eapply untouched_trans; [exact H12|]. eapply untouched_trans; [by apply set_conn_untouched|exact Hu].
    + intros [= <- <-]. split; [|done]. eapply untouched_trans; [exact H12|by apply set_conn_untouched].
  - intros E. apply send_untouched in E as [Hu He]; [|done]. split; [|done]. by eapply untouched_trans.
Qed.
End Frame.
