(* ===== verification/ReplicationAgreement.v ===== *)
(** * The client and the server agree

    The invariant of one explicitly acknowledged stream over the lossy link of
    [ReplicationLink]: at most one frame is a delta of what the client has, and it is the
    first the client can accept; every other frame it can accept is self-contained. *)

From S2P Require Import Prelude Float32 UdpTransport Replication Quantize QuantizeCodec ClientReplication ReplicationTxn FrameBuild ReplicationClient ReplicationLink.

Section Agreement.
Context {G : Type} (S0 : System (G := G)) (c0 g : Z) (codec : Z -> DeltaEncoder) (layout : Z -> list Z).
Abbreviation Sys := (System (G := G)).

(** ** The link *)

Record Link := mkLink {
  ln_sys : Sys; ln_sent : list ReplicationFrame; ln_client : Client; ln_acks : list (Z * Z)
}.

(** What a tick may be told, for the connection [c0] of the session generation [g]: its
    viewer is active or known, its generation is [g], and what its entities write fits
    their layouts. *)
Record session_env (env : Env (G := G)) : Prop := {
  se_generation : forall v, v ∈ ActiveViewers env -> ConnID v = c0 -> StreamGeneration env ≫= (fun f => f v) = Some g;
  se_known : c0 ∉ ConnID <$> ActiveViewers env -> exists ex, ViewerExists env = Some ex /\ ex c0 = true;
  se_entries : forall s v r, same_static S0 s -> ConnID v = c0 -> Forall (entry_ok s env v codec) (QueryRadius env v r)
}.

(** The sequence numbers do not wrap. *)
Definition within (env : Env (G := G)) (s : Sys) : Prop :=
  forall c, connections s !! c0 = Some c -> nextSeq c + Z.of_nat (length (ActiveViewers env)) < 2 ^ 31.

Inductive link_step : Link -> Link -> Prop :=
| link_tick env s sent k acks s' evs : session_env env -> within env s -> Z.of_nat (length (ActiveViewers env)) < 2 ^ 31 ->
    Update env s = Some (s', evs) -> Forall frame_ok (emitted c0 evs) ->
    link_step (mkLink s sent k acks) (mkLink s' (sent ++ emitted c0 evs) k acks)
| link_arrive s sent k acks f k' a : f ∈ sent ->
    Deliver (deltaEncoders s) (fr_StreamEpoch f) (encode_body f) k = Some (k', a) ->
    link_step (mkLink s sent k acks) (mkLink s sent k' (acks ++ option_list ((fun q => (fr_StreamEpoch f, q)) <$> a)))
| link_ack s sent k acks e q s' evs : (e, q) ∈ acks -> AckFrame c0 e q s = (s', evs) ->
    link_step (mkLink s sent k acks) (mkLink s' sent k acks).

(** ** The invariant *)

Definition accepted (k : Client) (q : Z) : Prop :=
  exists j, k_epoch k = Some g /\ k_seq k = Some j /\ q <= j.

(** What a client that has accepted the frame in flight must have. *)
Definition owed (c : connState) (q : Z) (m : gmap Z bytes) : Prop :=
  forall p, pending c = Some p -> pn_seq p = q -> forall n, n ∈ pn_visible p ->
  exists snap, outcome AckExplicit (cs_store c) (pn_txn p) n = Some snap /\ m !! n = Some snap.

Definition keeps (encs : gmap Z DeltaEncoder) (c : connState) (f : ReplicationFrame) (m : gmap Z bytes) : Prop :=
  exists m', applied encs f m = Some m' /\ owed c (fr_Seq f) m'.

Record pending_ok (c : connState) (p : pendingReplicationAttempt) : Prop := {
  po_epoch : pn_streamEpoch p = g; po_receipt : pn_awaitReceipt p = false; po_seq : pn_seq p = nextSeq c;
  po_ids : NoDup (ids (entities (pn_txn p)));
  po_known : forall n, n ∈ pn_visible p -> exists snap,
    outcome AckExplicit (cs_store c) (pn_txn p) n = Some snap /\ snapshot_ok (codec n) snap
}.

Record ConnInv (encs : gmap Z DeltaEncoder) (V : option (gset Z)) (c : connState) (sent : list ReplicationFrame)
  (k : Client) (acks : list (Z * Z)) : Prop := {
  ci_mode : cs_mode c = AckExplicit; ci_epoch : streamEpoch c = g; ci_explicit : hasExplicitGeneration c = true;
  ci_seq : 0 <= nextSeq c < 2 ^ 31;
  ci_frames : forall f, f ∈ sent -> fr_StreamEpoch f = g -> frame_ok f /\ 1 <= fr_Seq f <= nextSeq c;
  ci_acks : forall q, (g, q) ∈ acks -> accepted k q;
  ci_client : k_epoch k = Some g -> exists j, k_seq k = Some j /\ 1 <= j <= nextSeq c;
  ci_start : k_epoch k = None -> k_seq k = None;
  ci_known : forall X, V = Some X -> forall n, n ∈ X -> knows c codec n;
  ci_pending : forall p, pending c = Some p -> pending_ok c p;
  ci_held : accepted k (nextSeq c) -> owed c (nextSeq c) (k_base k);
  ci_idle : pending c = None -> forceFresh c = false -> forall X, V = Some X ->
    k_epoch k = Some g /\ (forall n, n ∈ X -> k_base k !! n = acked_of (cs_store c) n) /\
    forall f, f ∈ sent -> fr_StreamEpoch f = g -> accepted k (fr_Seq f);
  ci_ready : forall f, f ∈ sent -> fr_StreamEpoch f = g ->
    accepted k (fr_Seq f) \/ (forall m, keeps encs c f m) \/
    (k_epoch k = Some g /\ keeps encs c f (k_base k) /\
     forall f', f' ∈ sent -> fr_StreamEpoch f' = g -> fr_Seq f' < fr_Seq f -> accepted k (fr_Seq f'))
}.

Record Inv (l : Link) : Prop := {
  iv_static : same_static S0 (ln_sys l);
  iv_old : forall f, f ∈ ln_sent l -> fr_StreamEpoch f <> g -> streamGenerationAfter (fr_StreamEpoch f) g = false;
  iv_none : connections (ln_sys l) !! c0 = None -> lastVisible (ln_sys l) !! c0 = None /\
    (forall f, f ∈ ln_sent l -> fr_StreamEpoch f <> g) /\ k_epoch (ln_client l) <> Some g /\ (forall q, (g, q) ∉ ln_acks l) /\
    (k_epoch (ln_client l) = None -> k_seq (ln_client l) = None);
  iv_conn : forall c, connections (ln_sys l) !! c0 = Some c ->
    ConnInv (deltaEncoders S0) (lastVisible (ln_sys l) !! c0) c (ln_sent l) (ln_client l) (ln_acks l)
}.

(** ** The client's steps *)

Lemma after_lt q j : 0 <= q < 2 ^ 31 -> 0 <= j < 2 ^ 31 -> streamGenerationAfter q j = (j <? q).
Proof.
  intros Hq Hj. unfold streamGenerationAfter, u32. destruct (Z.ltb_spec j q).
  - rewrite Z.mod_small by lia. destruct (Z.eqb_spec q j), (Z.ltb_spec (q - j) (2 ^ 31)); simpl; lia || done.
  - destruct (Z.eqb_spec q j); [done|]. simpl. apply Z.ltb_ge.
    rewrite <- (Z.mod_add (q - j) 1), Z.mul_1_l, Z.mod_small by lia. lia.
Qed.

Lemma accepted_mono k q q' : accepted k q -> q' <= q -> accepted k q'.
Proof. intros (j & H1 & H2 & H3) H. exists j. split_and!; [done|done|lia]. Qed.

(** The client accepts a frame of the stream. *)
Lemma accept_inv encs V c sent k acks f m : ConnInv encs V c sent k acks -> f ∈ sent -> fr_StreamEpoch f = g ->
  ~ accepted k (fr_Seq f) -> owed c (fr_Seq f) m ->
  ConnInv encs V c sent (mkClient (Some g) (Some (fr_Seq f)) m) (acks ++ [(g, fr_Seq f)]).
Proof.
  intros I Hf Eg Hnew Howed. destruct (ci_frames _ _ _ _ _ _ I f Hf Eg) as [_ Hseq].
  assert (forall q, q <= fr_Seq f -> accepted (mkClient (Some g) (Some (fr_Seq f)) m) q) as Hacc by (intros q Hq; by exists (fr_Seq f)).
  assert (forall q, accepted k q -> accepted (mkClient (Some g) (Some (fr_Seq f)) m) q) as Hold.
  { intros q Hq. apply Hacc. destruct (Z.le_gt_cases q (fr_Seq f)); [done|]. destruct Hnew. apply (accepted_mono k q); [done|lia]. }
  destruct I. constructor; auto.
  - intros q [Hq|Hq]%elem_of_app; [by apply Hold, ci_acks0|]. apply list_elem_of_singleton in Hq as [= ->]. by apply Hacc.
  - intros _. exists (fr_Seq f). by split.
  - done.
  - intros (j & _ & [= <-] & Hle). assert (nextSeq c = fr_Seq f) as E by lia. by rewrite E.
  - intros Hp Hff X HX. destruct (ci_idle0 Hp Hff X HX) as (_ & _ & Hall). by destruct Hnew; apply Hall.
  - intros f' Hf' Eg'. destruct (ci_ready0 f' Hf' Eg') as [Ha|[Ha|(Ek & Ha & Hfirst)]]; [left; by apply Hold|by right; left|].
    destruct (Z.le_gt_cases (fr_Seq f') (fr_Seq f)) as [Hle|Hgt]; [left; by apply Hacc|]. destruct Hnew. by apply Hfirst.
Qed.

(** A client outside the stream moves outside the stream. *)
Lemma outside_inv encs V c sent k k' acks e a : ConnInv encs V c sent k acks -> k_epoch k <> Some g -> k_epoch k' = Some e -> e <> g ->
  ConnInv encs V c sent k' (acks ++ option_list ((fun q => (e, q)) <$> a)).
Proof.
  intros I Hk Hk' He. assert (forall q, ~ accepted k q) as Hno by (intros q (j & ? & _); done).
  assert (forall q, ~ accepted k' q) as Hno' by (intros q (j & E & _); congruence).
  destruct I. constructor; auto.
  - intros q [Hq|Hq]%elem_of_app; [by destruct (Hno q (ci_acks0 q Hq))|]. destruct a; simpl in Hq.
    + apply list_elem_of_singleton in Hq as [= -> ->]. done.
    + by apply elem_of_nil in Hq.
  - congruence.
  - congruence.
  - by intros ?%Hno'.
  - intros Hp Hff X HX. by destruct (ci_idle0 Hp Hff X HX) as [? _].
  - intros f Hf Eg. destruct (ci_ready0 f Hf Eg) as [?%Hno|[?|[? _]]]; [done|by right; left|done].
Qed.

Lemma arrive_inv encs V c sent k acks f k' a : ConnInv encs V c sent k acks -> f ∈ sent ->
  (fr_StreamEpoch f <> g -> streamGenerationAfter (fr_StreamEpoch f) g = false) ->
  Deliver encs (fr_StreamEpoch f) (encode_body f) k = Some (k', a) ->
  ConnInv encs V c sent k' (acks ++ option_list ((fun q => (fr_StreamEpoch f, q)) <$> a)).
Proof.
  intros I Hf Hold HD.
  assert (forall k', Some (k, None) = Some (k', a) -> ConnInv encs V c sent k' (acks ++ option_list ((fun q => (fr_StreamEpoch f, q)) <$> a))) as Hsame.
  { intros k2 [= <- <-]. simpl. by rewrite app_nil_r. }
  destruct (decide (fr_StreamEpoch f = g)) as [Eg|Eg].
  - destruct (ci_frames _ _ _ _ _ _ I f Hf Eg) as [Hok Hseq]. rewrite Deliver_frame in HD by done. rewrite Eg in *.
    pose proof (ci_seq _ _ _ _ _ _ I) as Hn.
    assert (forall k1, k_epoch k1 = Some g -> ~ accepted k (fr_Seq f) -> keeps encs c f (k_base k1) ->
      (m ← applied encs f (k_base k1); Some (mkClient (k_epoch k1) (Some (fr_Seq f)) m, Some (fr_Seq f))) = Some (k', a) ->
      ConnInv encs V c sent k' (acks ++ option_list ((fun q => (g, q)) <$> a))) as Haccept.
    { intros k1 Ek1 Hnew (m & Em & Ho). rewrite Em, Ek1. intros [= <- <-]. by apply (accept_inv _ _ _ _ k). }
    destruct (decide (k_epoch k = Some g)) as [Ek|Ek].
    + unfold enter in HD. rewrite Ek, Z.eqb_refl in HD. destruct (ci_client _ _ _ _ _ _ I Ek) as (j & Ej & Hj).
      unfold stale in HD. rewrite Ej, after_lt in HD by lia. destruct (Z.ltb_spec j (fr_Seq f)) as [Hlt|]; [|by apply Hsame].
      assert (~ accepted k (fr_Seq f)) as Hnew by (intros (j' & _ & Ej' & Hle); rewrite Ej in Ej'; injection Ej' as <-; lia).
      apply (Haccept k); auto. destruct (ci_ready _ _ _ _ _ _ I f Hf Eg) as [?|[Ha|(_ & Ha & _)]]; [done|apply Ha|done].
    + assert (forall q, ~ accepted k q) as Hno by (intros q (j & ? & _); done).
      assert (forall m, keeps encs c f m) as Hall.
      { destruct (ci_ready _ _ _ _ _ _ I f Hf Eg) as [?%Hno|[?|[? _]]]; done. }
      unfold enter in HD. destruct (k_epoch k) as [e|] eqn:Ee.
      * destruct (Z.eqb_spec g e) as [->|]; [done|]. destruct (streamGenerationAfter g e); [|by apply Hsame].
        apply (Haccept (mkClient (Some g) None ∅)); auto.
      * rewrite (ci_start _ _ _ _ _ _ I Ee) in HD. apply (Haccept (mkClient (Some g) None (k_base k))); auto.
  - destruct (Deliver_epoch _ _ _ _ _ _ HD) as [[-> ->]|(k1 & E1 & Ek)]; [by apply Hsame|].
    rewrite (enter_epoch _ _ _ E1) in Ek. apply (outside_inv encs V c sent k); auto.
    intros Ekg. unfold enter in E1. rewrite Ekg in E1. destruct (Z.eqb_spec (fr_StreamEpoch f) g); [done|]. by rewrite Hold in E1.
Qed.

(** ** The server's steps *)

Lemma owed_idle c q m : pending c = None -> owed c q m.
Proof. intros E p Ep. congruence. Qed.

Lemma owed_other c q m : (forall p, pending c = Some p -> pn_seq p <> q) -> owed c q m.
Proof. intros H p Ep Eq. by destruct (H p Ep). Qed.

Lemma keeps_owed encs c c' f m : (forall m', owed c (fr_Seq f) m' -> owed c' (fr_Seq f) m') -> keeps encs c f m -> keeps encs c' f m.
Proof. intros H (m' & E & Ho). exists m'. split; [done|by apply H]. Qed.

Lemma knows_same c c' n : (forall n, acked_of (cs_store c') n = acked_of (cs_store c) n) -> knows c codec n -> knows c' codec n.
Proof. intros H (b & Hb & Hok). exists b. by rewrite H. Qed.

(** The connection is changed in nothing the stream depends on, or its attempt is given up. *)
Record calmed (c c' : connState) : Prop := {
  ca_mode : cs_mode c' = cs_mode c; ca_epoch : streamEpoch c' = streamEpoch c;
  ca_explicit : hasExplicitGeneration c' = hasExplicitGeneration c; ca_seq : nextSeq c' = nextSeq c;
  ca_acked : forall n, acked_of (cs_store c') n = acked_of (cs_store c) n;
  ca_pending : pending c' = pending c /\ forceFresh c' = forceFresh c \/ pending c' = None /\ forceFresh c' = true
}.

Lemma calmed_refl c : calmed c c.
Proof. constructor; auto. Qed.
Lemma calmed_trans c1 c2 c3 : calmed c1 c2 -> calmed c2 c3 -> calmed c1 c3.
Proof.
  intros [A1 A2 A3 A4 A5 A6] [B1 B2 B3 B4 B5 B6]. constructor; try congruence.
  - destruct A6 as [[]|[]], B6 as [[]|[]]; [left|right|right|right]; split; congruence.
Qed.

Lemma calmed_inv encs V c c' sent k acks : calmed c c' -> ConnInv encs V c sent k acks -> ConnInv encs V c' sent k acks.
Proof.
  intros [A1 A2 A3 A4 A5 A6] I.
  assert (forall q m, owed c q m -> owed c' q m) as Ho.
  { intros q m H p Ep Eq n Hn. destruct A6 as [[E _]|[E _]]; [|congruence]. rewrite E in Ep.
    destruct (H p Ep Eq n Hn) as (snap & Hs & Hm). exists snap. split; [|done]. rewrite <- Hs. unfold outcome. by rewrite A5. }
  assert (forall f m, keeps encs c f m -> keeps encs c' f m) as Hk by (intros f m; apply keeps_owed; auto).
  destruct I. constructor; rewrite ?A1, ?A2, ?A3, ?A4; auto.
  - intros X HX n Hn. apply (knows_same c); eauto.
  - intros p Ep. destruct A6 as [[E _]|[E _]]; [|congruence]. rewrite E in Ep. destruct (ci_pending0 p Ep).
    constructor; auto; [congruence|]. intros n Hn. destruct (po_known0 n Hn) as (snap & Hs & Hok). exists snap. split; [|done].
    rewrite <- Hs. unfold outcome. by rewrite A5.
  - intros Hp Hf X HX. destruct A6 as [[E1 E2]|[_ E]]; [|congruence]. rewrite E1 in Hp. rewrite E2 in Hf.
    destruct (ci_idle0 Hp Hf X HX) as (H1 & H2 & H3). split_and!; [done| |done]. intros n Hn. rewrite A5. by apply H2.
  - intros f Hf Eg. destruct (ci_ready0 f Hf Eg) as [?|[?|(H1 & H2 & H3)]]; [by left|right; left; auto|right; right; auto].
Qed.

Lemma acked_ClearAll st n : acked_of (map_baselines ClearSent st) n = acked_of st n.
Proof. by apply acked_map_baselines. Qed.

Lemma calmed_discard c : calmed c (discardPendingAttempt c).
Proof.
  unfold discardPendingAttempt. destruct (pending c) as [p|] eqn:E; [|apply calmed_refl].
  constructor; auto. apply acked_ClearAll.
Qed.

Lemma calmed_pendingRemoved c X : calmed c (set_pendingRemoved c X).
Proof. constructor; auto. Qed.

Lemma discard_idle c : pending (discardPendingAttempt c) = None.
Proof. unfold discardPendingAttempt. by destruct (pending c) eqn:E. Qed.

Lemma calmed_reset c : calmed c (set_forceFresh (discardPendingAttempt c) true).
Proof.
  eapply calmed_trans; [apply calmed_discard|]. constructor; auto. right. split; [apply discard_idle|done].
Qed.

(** Receipts give up the attempt in flight, or do nothing. *)
Lemma drain_calmed l (s : Sys) c : cs_mode c = AckExplicit -> (forall p, pending c = Some p -> pn_awaitReceipt p = false) ->
  exists c', drain_loop c0 l s c = (set_conn s c0 c', []) /\ calmed c c'.
Proof.
  intros Hm. revert c Hm. induction l as [|[[e q] r] l IH]; intros c Hm Hp; simpl; [exists c; split; [done|apply calmed_refl]|].
  destruct (pending c) as [p|] eqn:Ep; [|by apply IH; [|intros p'; rewrite Ep]].
  destruct (_ || _); [apply IH; [done|intros p'; rewrite Ep; apply Hp]|]. rewrite (Hp p eq_refl). simpl.
  destruct (negb (Queued r)); [|apply IH; [done|intros p'; rewrite Ep; apply Hp]].
  destruct (IH (discardPendingAttempt c)) as (c' & E & Hc); [by rewrite (ca_mode _ _ (calmed_discard c))|intros p'; by rewrite discard_idle|].
  exists c'. split; [done|]. exact (calmed_trans c _ c' (calmed_discard c) Hc).
Qed.

(** An acknowledgement commits the attempt in flight. *)
Lemma ack_inv encs V c sent k acks p : ConnInv encs V c sent k acks -> pending c = Some p -> (g, pn_seq p) ∈ acks ->
  forall c', cs_mode c' = cs_mode c -> streamEpoch c' = streamEpoch c -> hasExplicitGeneration c' = hasExplicitGeneration c ->
  nextSeq c' = nextSeq c -> pending c' = None -> cs_store c' = commitExplicit (pn_seq p) (pn_txn p) (cs_store c) ->
  ConnInv encs (Some (pn_visible p)) c' sent k acks.
Proof.
  intros I Ep Ha c' E1 E2 E3 E4 E5 E6. pose proof (ci_pending _ _ _ _ _ _ I p Ep) as Hp.
  assert (forall n, acked_of (cs_store c') n = outcome AckExplicit (cs_store c) (pn_txn p) n) as Hacked.
  { intros n. rewrite E6. apply acked_commitExplicit, Hp. }
  pose proof (ci_acks _ _ _ _ _ _ I _ Ha) as Hacc. rewrite (po_seq _ _ Hp) in Hacc.
  pose proof (ci_held _ _ _ _ _ _ I Hacc p Ep (po_seq _ _ Hp)) as Hheld.
  destruct Hacc as (j & Hk & Hj & Hle). destruct I. constructor; rewrite ?E1, ?E2, ?E3, ?E4; auto.
  - intros X [= <-] n Hn. destruct (po_known _ _ Hp n Hn) as (snap & Hs & Hok). exists snap. by rewrite Hacked.
  - intros p'. by rewrite E5.
  - intros _. by apply owed_idle.
  - intros _ _ X [= <-]. split_and!; [done| |].
    + intros n Hn. rewrite Hacked. destruct (Hheld n Hn) as (snap & -> & ->). done.
    + intros f Hf Eg. exists j. split_and!; [done|done|]. destruct (ci_frames0 f Hf Eg) as [_ ?]. lia.
  - intros f Hf Eg. left. exists j. split_and!; [done|done|]. destruct (ci_frames0 f Hf Eg) as [_ ?]. lia.
Qed.

(** A frame is sent, or could not be. *)
Lemma sent_inv encs V c sent k acks c' l : ConnInv encs V c sent k acks -> pending c = None ->
  cs_mode c' = cs_mode c -> streamEpoch c' = streamEpoch c -> hasExplicitGeneration c' = hasExplicitGeneration c ->
  nextSeq c' = nextSeq c + 1 -> nextSeq c + 1 < 2 ^ 31 -> (forall n, acked_of (cs_store c') n = acked_of (cs_store c) n) ->
  (forall p, pending c' = Some p -> pending_ok c' p) ->
  (pending c' = None -> forceFresh c' = false -> l = [] /\ forceFresh c = false) ->
  (forall f, f ∈ l -> frame_ok f /\ fr_Seq f = nextSeq c' /\ fr_StreamEpoch f = g /\
    ((forall m, keeps encs c' f m) \/
     (k_epoch k = Some g /\ keeps encs c' f (k_base k) /\ forall f', f' ∈ sent -> fr_StreamEpoch f' = g -> accepted k (fr_Seq f')))) ->
  ConnInv encs V c' (sent ++ l) k acks.
Proof.
  intros I Hp E1 E2 E3 E4 Hb Hacked Hpend Hidle Hl.
  assert (forall f m, f ∈ sent -> fr_StreamEpoch f = g -> keeps encs c f m -> keeps encs c' f m) as Hk.
  { intros f m Hf Eg. apply keeps_owed. intros m' _. apply owed_other. intros p Ep. rewrite (po_seq _ _ (Hpend p Ep)), E4.
    destruct (ci_frames _ _ _ _ _ _ I f Hf Eg). lia. }
  destruct I. constructor; rewrite ?E1, ?E2, ?E3, ?E4; auto.
  - lia.
  - intros f [Hf|Hf]%elem_of_app Eg; [destruct (ci_frames0 f Hf Eg); split; [done|lia]|].
    destruct (Hl f Hf) as (? & -> & _). split; [done|lia].
  - intros Ek. destruct (ci_client0 Ek) as (j & ? & ?). exists j. split; [done|lia].
  - intros X HX n Hn. apply (knows_same c); eauto.
  - intros (j & Ek & Ej & Hle). destruct (ci_client0 Ek) as (j' & Ej' & ?). rewrite Ej in Ej'. injection Ej' as <-. lia.
  - intros Hp' Hf' X HX. destruct (Hidle Hp' Hf') as [-> Hf]. destruct (ci_idle0 Hp Hf X HX) as (H1 & H2 & H3).
    rewrite app_nil_r. split_and!; [done| |done]. intros n Hn. rewrite Hacked. by apply H2.
  - intros f [Hf|Hf]%elem_of_app Eg.
    + destruct (ci_ready0 f Hf Eg) as [?|[?|(H1 & H2 & H3)]]; [by left|right; left; auto|]. right. right. split_and!; [done|auto|].
      intros f' [Hf'|Hf']%elem_of_app Eg' Hlt; [auto|]. destruct (Hl f' Hf') as (_ & E & _). destruct (ci_frames0 f Hf Eg). lia.
    + destruct (Hl f Hf) as (_ & Es & _ & [?|(H1 & H2 & H3)]); [by right; left|]. right. right. split_and!; [done|done|].
      intros f' [Hf'|Hf']%elem_of_app Eg' Hlt; [auto|]. destruct (Hl f' Hf') as (_ & E & _). lia.
Qed.
End Agreement.
