(* ===== verification/ReplicationServe.v ===== *)
(** * A tick keeps the agreement

    Sending a frame, serving a viewer, reconciling a connection and draining its receipts
    keep the invariant of [ReplicationAgreement]. *)

From S2P Require Import Prelude Float32 UdpTransport Replication Quantize QuantizeCodec ClientReplication ReplicationTxn FrameBuild ReplicationClient ReplicationLink ReplicationAgreement.

(** ** Entities that are dropped *)

Lemma drop_other md st x tx n : n <> x -> outcome md st (tx_drop x tx) n = outcome md st tx n.
Proof. intros Hn. unfold outcome, tx_drop. simpl. by rewrite staged_at_on_staged, decide_False by done. Qed.

Lemma drops_other md st l tx n : n ∉ l -> outcome md st (foldl (fun tx n => tx_drop n tx) tx l) n = outcome md st tx n.
Proof.
  revert tx. induction l as [|x l IH]; intros tx; [done|]. intros [Hx Hl]%not_elem_of_cons. simpl. rewrite IH by done. by apply drop_other.
Qed.

Lemma drops_ids l tx : NoDup (ids (entities tx)) -> NoDup (ids (entities (foldl (fun tx n => tx_drop n tx) tx l))).
Proof. revert tx. induction l as [|x l IH]; intros tx H; [done|]. simpl. apply IH. by apply ids_on_staged. Qed.

Section Serve.
Context {G : Type} (S0 : System (G := G)) (c0 g : Z) (codec : Z -> DeltaEncoder) (layout : Z -> list Z)
  (Hlayout : forall n, layout_ok (codec n) (layout n)).
Abbreviation Sys := (System (G := G)).
Abbreviation CI := (ConnInv g codec (deltaEncoders S0)).

Lemma departures_gone (s : Sys) env v c rem X self ex re n : departures s env v c rem X self = (ex, re) ->
  n ∈ ex \/ n ∈ re -> n ∉ X.
Proof.
  unfold departures. destruct (lastVisible s !! ConnID v); intros [= <- <-]; [|intros [?%elem_of_nil|?%elem_of_nil]; done].
  rewrite !list_elem_of_filter. tauto.
Qed.

Lemma acked_of_retain seq tx (c : connState) n : acked_of (cs_store (set_store c (retainSent seq tx (cs_store c)))) n = acked_of (cs_store c) n.
Proof. apply acked_retainSent. Qed.

(** What an explicitly acknowledged connection is left with. *)
Lemma settle_explicit (s : Sys) env c b q self ex re recent r : cs_mode c = AckExplicit ->
  exists c', settle s env c0 c b q self ex re recent r = (set_conn s c0 c', []) /\
    cs_mode c' = cs_mode c /\ streamEpoch c' = streamEpoch c /\ hasExplicitGeneration c' = hasExplicitGeneration c /\
    nextSeq c' = nextSeq c /\ (forall n, acked_of (cs_store c') n = acked_of (cs_store c) n) /\
    ((Queued r = true /\ exists p, pending c' = Some p /\ pn_streamEpoch p = streamEpoch c /\ pn_seq p = q /\ pn_txn p = b_tx b /\
        pn_visible p = b_visible b /\ pn_awaitReceipt p = false) \/
     (Queued r = false /\ pending c' = pending c /\ forceFresh c' = forceFresh c || bool_decide (Disposition r = SendIndeterminate))).
Proof.
  intros Hm. unfold settle. assert (explicit_mode c = true) as -> by (unfold explicit_mode; by rewrite Hm). simpl.
  destruct (Queued r); cbn [andb orb].
  - eexists. split; [reflexivity|]. split_and!; try done; [apply acked_retainSent|]. left. split; [done|]. eexists. split; [reflexivity|].
    split_and!; try done. simpl. unfold explicit_mode. simpl. by rewrite Hm.
  - eexists. split; [reflexivity|]. destruct (bool_decide _); simpl; split_and!; try done; right; split_and!; try done.
    + by rewrite orb_true_r.
    + by rewrite orb_false_r.
Qed.

Lemma frame_is_fresh b : negb (Z.land (frame_flags b) FrameFlagFreshSnapshot =? 0) = b.
Proof. by destruct b. Qed.

Lemma emitted_frame v X f r f' : ConnID (fr_Viewer f) = c0 ->
  f' ∈ emitted c0 ([BeforeSend v X; Written f r] ++ [] ++ [AfterSend v X]) ->
  f' = f /\ Queued r || bool_decide (Disposition r = SendIndeterminate) = true.
Proof.
  intros Hc. unfold emitted. simpl. rewrite Hc, Z.eqb_refl. simpl. destruct (_ || _); simpl; intros H; [|by apply elem_of_nil in H].
  by apply list_elem_of_singleton in H.
Qed.

(** Everything shown is known once the frame is committed. *)
Lemma built_known (s : Sys) v c force b n : built s v c force codec b -> n ∈ b_visible b ->
  (force = false -> forall n, wasVisible s v n = true -> knows c codec n) ->
  exists snap, out c b n = Some snap /\ snapshot_ok (codec n) snap.
Proof.
  intros Hb Hn Hk. destruct (bd_told _ _ _ _ _ _ Hb n Hn) as [p _ _ Ho Hok|p base snap _ _ _ _ _ _ _ _ Ho Hok|_ Hf Hv Ho].
  - by exists (fp_Snapshot p).
  - by exists snap.
  - destruct (Hk Hf n Hv) as (base & Ha & Hok). exists base. by rewrite Ho.
Qed.

(** A frame that was built for what the client has. *)
Lemma frame_keeps (s : Sys) v c c' force b f tx m : same_static S0 s -> built s v c force codec b ->
  (force = false -> forall n, wasVisible s v n = true -> knows c codec n) -> cs_mode c = AckExplicit ->
  (forall n, acked_of (cs_store c') n = acked_of (cs_store c) n) ->
  fr_Full f = b_full b -> fr_Deltas f = b_deltas b -> (forall n, n ∈ fr_Removed f \/ n ∈ fr_Exited f -> n ∉ b_visible b) ->
  (is_fresh f = true -> forall n, force = true \/ wasVisible s v n = false) -> (is_fresh f = false -> agrees s v c m) ->
  (forall n, n ∈ b_visible b -> outcome AckExplicit (cs_store c) tx n = outcome AckExplicit (cs_store c) (b_tx b) n) ->
  (forall p, pending c' = Some p -> pn_txn p = tx /\ pn_visible p = b_visible b) ->
  keeps (deltaEncoders S0) c' f m.
Proof.
  intros (_ & Henc & _) Hb Hk Hm Ha Ef Ed Hgone Hfresh Hagree Htx Hpend.
  destruct (frame_applies s v c force codec layout Hlayout Hk b (is_fresh f) (fr_Removed f) (fr_Exited f) m Hb Hfresh Hagree Hgone)
    as (m' & Em & Hm'). exists m'. split; [unfold applied; by rewrite Ef, Ed, <- Henc|].
  intros p Ep _ n. destruct (Hpend p Ep) as [-> ->]. intros Hn. destruct (Hm' n Hn) as (snap & Ho & Hs & _). exists snap. split; [|done].
  assert (outcome AckExplicit (cs_store c') tx n = outcome AckExplicit (cs_store c) tx n) as -> by (unfold outcome; by rewrite Ha).
  rewrite Htx by done. unfold out in Ho. by rewrite Hm in Ho.
Qed.

Lemma send_inv (s s' : Sys) env v c key rem evs sent k acks : same_static S0 s -> session_env S0 c0 g codec env -> ConnID v = c0 ->
  pending c = None -> nextSeq c + 1 < 2 ^ 31 -> CI (lastVisible s !! c0) c sent k acks ->
  send_frame s env v c true key rem = Some (s', evs) -> Forall frame_ok (emitted c0 evs) ->
  exists c', connections s' !! c0 = Some c' /\ nextSeq c' = nextSeq c + 1 /\ lastVisible s' = lastVisible s /\ same_static s s' /\
    CI (lastVisible s !! c0) c' (sent ++ emitted c0 evs) k acks /\ Forall (fun f => fr_StreamEpoch f = g) (emitted c0 evs).
Proof.
  intros Hs Henv Hv Hp Hb I. unfold send_frame.
  assert (exists self, self_and_epoch env v c true (bool_decide (is_Some (lastVisible s !! ConnID v)) && negb (forceFresh c)) = (c, self, false)) as [self ->].
  { unfold self_and_epoch. destruct (networkID _ _) as [[id ep]|]; eexists; reflexivity. }
  rewrite Hv, orb_false_r, andb_true_r.
  assert (u32 (nextSeq c + 1) = nextSeq c + 1) as Eu by (apply u32_id; pose proof (ci_seq _ _ _ _ _ _ _ _ I); unfold in_u32; lia).
  rewrite Eu. set (v1 := set_streamEpoch v (streamEpoch c)). set (c1 := set_nextSeq c (nextSeq c + 1)).
  assert (ConnID v1 = c0) as Hv1 by done.
  assert (forall n, wasVisible s v1 n = true -> exists X, lastVisible s !! c0 = Some X /\ n ∈ X) as Hwas.
  { intros n. unfold wasVisible. rewrite Hv1. destruct (lastVisible s !! c0) as [X|]; [|done]. intros H%bool_decide_eq_true. by exists X. }
  assert (forceFresh c = false -> forall n, wasVisible s v1 n = true -> knows c1 codec n) as Hknows.
  { intros _ n (X & EX & HX)%Hwas. by apply (ci_known _ _ _ _ _ _ _ _ I X EX). }
  destruct (build_built s env v1 c1 key (forceFresh c) codec layout Hlayout Hknows (ringDepthFor s (cs_mode c)) (recentRemovals c1)
    (QueryRadius env v1 (queryRadius s env)) (se_entries _ _ _ _ _ Henv s v1 _ Hs Hv1)) as (b & -> & Hbuilt).
  cbn [mbind option_bind]. destruct (departures s env v1 c1 rem (b_visible b) self) as [ex re] eqn:Ed.
  pose proof (fun n => departures_gone _ _ _ _ _ _ _ _ _ n Ed) as Hgone.
  set (had := bool_decide (is_Some (lastVisible s !! c0)) && negb (forceFresh c)).
  set (b1 := set_tx b _). set (r := WriteFrame env _). set (f := mkFrame _ _ _ _ _ _ _ _ _ _ _) in *.
  destruct (settle_explicit s env c1 b1 (nextSeq c + 1) self ex re (remember_removals s env re (b_recent b1)) r) as
    (c' & Eset & E1 & E2 & E3 & E4 & E5 & E6); [apply (ci_mode _ _ _ _ _ _ _ _ I)|].
  change (nextSeq c1) with (nextSeq c + 1) in *. rewrite Eset. intros [= <- <-] Hok.
  set (l := emitted c0 _) in *.
  assert (forall n, n ∈ b_visible b -> outcome AckExplicit (cs_store c1) (b_tx b1) n = outcome AckExplicit (cs_store c1) (b_tx b) n) as Htx.
  { intros n Hn. apply drops_other. intros [?|?]%elem_of_app; (eapply Hgone; [|exact Hn]); auto. }
  assert (forall m, (is_fresh f = true -> forall n, forceFresh c = true \/ wasVisible s v1 n = false) ->
    (is_fresh f = false -> agrees s v1 c1 m) -> keeps (deltaEncoders S0) c' f m) as Hkeeps.
  { intros m H1 H2. apply (frame_keeps s v1 c1 c' (forceFresh c) b f (b_tx b1) m); auto; [apply (ci_mode _ _ _ _ _ _ _ _ I)|intros n [?|?]; apply Hgone; auto|].
    intros p Ep. destruct E6 as [(_ & p' & Ep' & _ & _ & ? & ? & _)|(_ & Ep' & _)]; [|simpl in Ep'; congruence].
    rewrite Ep in Ep'. by injection Ep' as <-. }
  assert (is_fresh f = negb had) as Ehad by apply frame_is_fresh.
  exists c'. split; [apply lookup_insert_eq|]. do 3 (split; [done|]).
  assert (forall f', f' ∈ l -> f' = f /\ Queued r || bool_decide (Disposition r = SendIndeterminate) = true) as Hl.
  { intros f'. by apply emitted_frame. }
  split; [|apply Forall_forall; intros f' [-> _]%Hl; apply (ci_epoch _ _ _ _ _ _ _ _ I)].
  apply (sent_inv g codec _ _ c); auto.
  - intros p Ep. destruct E6 as [(_ & p' & Ep' & P1 & P2 & P3 & P4 & P5)|(_ & Ep' & _)]; [|simpl in Ep'; congruence].
    rewrite Ep in Ep'. injection Ep' as <-. constructor; [|done|congruence|rewrite P3; apply drops_ids, Hbuilt|].
    + rewrite P1. apply (ci_epoch _ _ _ _ _ _ _ _ I).
    + rewrite P3, P4. intros n Hn. destruct (built_known s v1 c1 (forceFresh c) b n Hbuilt Hn Hknows) as (snap & Ho & Hsn).
      exists snap. split; [|done]. rewrite <- Ho. unfold out. rewrite (ci_mode _ _ _ _ _ _ _ _ I : cs_mode c1 = _), <- (Htx n Hn).
      unfold outcome. by rewrite E5.
  - intros Hp' Hf'. destruct E6 as [(_ & p' & Ep' & _)|(Hq & _ & Ef)]; [congruence|]. rewrite Ef in Hf'.
    apply orb_false_iff in Hf' as [Hf1 Hf2]. split; [|done]. destruct l as [|f' l']; [done|].
    destruct (Hl f') as [_ H]; [by left|]. by rewrite Hq, Hf2 in H.
  - intros f' Hf'. pose proof (proj1 (Forall_forall _ _) Hok f' Hf') as Hfo. destruct (Hl f' Hf') as [-> _].
    split; [done|]. split; [done|]. split; [apply (ci_epoch _ _ _ _ _ _ _ _ I)|].
    destruct (forceFresh c) eqn:Eff; [left; intros m; apply Hkeeps; [by left|]; rewrite Ehad; unfold had; by rewrite andb_false_r|].
    destruct (lastVisible s !! c0) as [X|] eqn:EX.
    + destruct (ci_idle _ _ _ _ _ _ _ _ I Hp Eff X eq_refl) as (H1 & H2 & H3). right. split; [done|]. split; [|done].
      apply Hkeeps; [by rewrite Ehad|]. intros _ n (X' & [= <-] & Hn)%Hwas. by apply H2.
    + left. intros m. apply Hkeeps; [|by rewrite Ehad]. intros _ n. right. destruct (wasVisible s v1 n) eqn:Ew; [|done].
      by apply Hwas in Ew as (X' & ? & _).
Qed.
(** ** The whole server *)

Context (Hmode : ackModeFor S0 c0 = AckExplicit).
Abbreviation INV := (Inv S0 c0 g codec).

(** The connection has [n] sequence numbers left. *)
Definition budget (n : Z) (s : Sys) : Prop := forall c, connections s !! c0 = Some c -> nextSeq c + n < 2 ^ 31.

Lemma Inv_conn (s : Sys) c sent l k acks : same_static S0 s -> connections s !! c0 = Some c ->
  CI (lastVisible s !! c0) c (sent ++ l) k acks -> Forall (fun f => fr_StreamEpoch f = g) l ->
  (forall f, f ∈ sent -> fr_StreamEpoch f <> g -> streamGenerationAfter (fr_StreamEpoch f) g = false) ->
  INV (mkLink s (sent ++ l) k acks).
Proof.
  intros Hs Hc I Hl Hold. constructor; simpl; [done| |congruence|intros c' Hc'; rewrite Hc in Hc'; by injection Hc' as <-].
  intros f [Hf|Hf]%elem_of_app Hne; [by apply Hold|]. rewrite Forall_forall in Hl. by destruct Hne; apply Hl.
Qed.

Lemma Inv_untouched (s s' : Sys) sent k acks : untouched c0 s s' -> INV (mkLink s sent k acks) -> INV (mkLink s' sent k acks).
Proof.
  intros (E1 & E2 & E3) [I1 I2 I3 I4]. simpl in *. constructor; simpl; rewrite ?E1, ?E2; auto. by apply same_static_trans with s.
Qed.

Lemma budget_untouched n (s s' : Sys) : untouched c0 s s' -> budget n s -> budget n s'.
Proof. intros (E & _) H c Hc. apply H. by rewrite <- E. Qed.

(** A connection of the session starts afresh. *)
Lemma new_inv sent k acks : (forall f, f ∈ sent -> fr_StreamEpoch f <> g) -> k_epoch k <> Some g -> (forall q, (g, q) ∉ acks) ->
  (k_epoch k = None -> k_seq k = None) -> CI None (with_generation (newConnState AckExplicit) g) sent k acks.
Proof.
  intros Hf Hk Ha Hs. constructor; simpl; try done.
  - intros f Hin Eg. by destruct (Hf f Hin).
  - intros q Hq. by destruct (Ha q).
  - intros f Hin Eg. by destruct (Hf f Hin).
Qed.

Lemma conn_of_session env (s : Sys) v sent k acks : session_env S0 c0 g codec env -> v ∈ ActiveViewers env -> ConnID v = c0 ->
  INV (mkLink s sent k acks) ->
  exists s2 c2, (let '(s1, c1) := getConn s (ConnID v) in resolveStreamGeneration env s1 v c1) = (s2, c2, true) /\
    connections s2 !! c0 = Some c2 /\ lastVisible s2 = lastVisible s /\ same_static S0 s2 /\
    CI (lastVisible s !! c0) c2 sent k acks /\ forall n, 0 <= n < 2 ^ 31 -> budget n s -> nextSeq c2 + n < 2 ^ 31.
Proof.
  intros Henv Hin Hv [I1 I2 I3 I4]. simpl in *. unfold getConn, resolveStreamGeneration. rewrite Hv, (se_generation _ _ _ _ _ Henv v Hin Hv).
  destruct (connections s !! c0) as [c|] eqn:Ec.
  - specialize (I4 c eq_refl). exists s, c. rewrite (ci_explicit _ _ _ _ _ _ _ _ I4), (ci_epoch _ _ _ _ _ _ _ _ I4), Z.eqb_refl. simpl.
    split_and!; try done. intros n _ Hn. by apply Hn.
  - destruct (I3 eq_refl) as (EV & Hf & Hk & Ha & Hs).
    assert (ackModeFor s c0 = AckExplicit) as -> by (unfold ackModeFor; rewrite (proj1 I1); exact Hmode).
    eexists _, _. split; [reflexivity|]. split; [apply lookup_insert_eq|]. split; [done|]. split; [done|].
    split; [rewrite EV; by apply new_inv|]. intros n Hn _. simpl. lia.
Qed.

Lemma serve_inv env key rem (s s' : Sys) v evs sent k acks n : session_env S0 c0 g codec env -> v ∈ ActiveViewers env ->
  0 <= n -> n + 1 < 2 ^ 31 -> INV (mkLink s sent k acks) -> budget (n + 1) s -> serve env key rem s v = Some (s', evs) ->
  Forall frame_ok (emitted c0 evs) -> INV (mkLink s' (sent ++ emitted c0 evs) k acks) /\ budget n s'.
Proof.
  intros Henv Hin Hn Hn1 I Hbud Hserve Hok. destruct (decide (ConnID v = c0)) as [Hv|Hv].
  2:{ destruct (serve_untouched c0 env key rem s v s' evs Hv Hserve) as [Hu ->]. rewrite app_nil_r.
      split; [by apply (Inv_untouched s)|]. apply (budget_untouched n s); [done|]. intros c Hc. specialize (Hbud c Hc). lia. }
  destruct (conn_of_session env s v sent k acks Henv Hin Hv I) as (s2 & c2 & E & Hc2 & EV & Hst & I2 & Hb2).
  specialize (Hb2 (n + 1) ltac:(lia) Hbud). pose proof (iv_old _ _ _ _ _ I) as Hold. simpl in Hold.
  unfold serve in Hserve. destruct (getConn s (ConnID v)) as [s1 c1]. rewrite E in Hserve. rewrite <- EV in I2.
  assert (forall s3 c3, connections s3 !! c0 = Some c3 -> lastVisible s3 = lastVisible s2 -> same_static S0 s3 -> calmed c2 c3 -> pending c3 = None ->
    send_frame s3 env (set_streamEpoch v (streamEpoch c2)) c3 true key rem = Some (s', evs) ->
    INV (mkLink s' (sent ++ emitted c0 evs) k acks) /\ budget n s') as Hsend.
  { intros s3 c3 Hc3 EV3 Hst3 Hcalm Hp3 Hsf. pose proof (calmed_inv _ _ _ _ _ _ _ _ _ Hcalm I2) as I3. rewrite <- EV3 in I3.
    pose proof (ca_seq _ _ Hcalm) as Es.
    destruct (send_inv s3 s' env (set_streamEpoch v (streamEpoch c2)) c3 key rem evs sent k acks Hst3 Henv Hv Hp3 ltac:(lia) I3 Hsf Hok)
      as (c4 & Hc4 & Es4 & EV4 & Hst4 & I4 & Hg). rewrite <- EV4 in I4. split.
    - apply (Inv_conn s' c4); auto. by apply same_static_trans with s3.
    - intros c Hc. rewrite Hc4 in Hc. injection Hc as <-. lia. }
  destruct (pending c2) as [p|] eqn:Ep; [|by apply (Hsend s2 c2 Hc2 eq_refl Hst (calmed_refl c2))].
  rewrite Hv in Hserve. destruct (pendingTimedOut _ _ _).
  - apply (Hsend (set_conn s2 c0 (discardPendingAttempt (set_pendingRemoved c2 (pendingRemoved c2 ∪ rem ∩ (default ∅ (lastVisible s2 !! c0) ∪ pn_visible p)))))
      (discardPendingAttempt (set_pendingRemoved c2 (pendingRemoved c2 ∪ rem ∩ (default ∅ (lastVisible s2 !! c0) ∪ pn_visible p))))); auto.
    + apply lookup_insert_eq.
    + eapply calmed_trans; [apply calmed_pendingRemoved|apply calmed_discard].
    + apply discard_idle.
  - injection Hserve as <- <-. split.
    + apply (Inv_conn _ (set_pendingRemoved c2 (pendingRemoved c2 ∪ rem ∩ (default ∅ (lastVisible s2 !! c0) ∪ pn_visible p)))); auto.
      * apply lookup_insert_eq.
      * simpl. rewrite app_nil_r. apply (calmed_inv _ _ _ _ c2); [apply calmed_pendingRemoved|done].
    + intros c Hc. simpl in Hc. rewrite lookup_insert_eq in Hc. injection Hc as <-. simpl. lia.
Qed.

Lemma serve_all env key rem l : session_env S0 c0 g codec env -> (forall v, v ∈ l -> v ∈ ActiveViewers env) ->
  forall (s s' : Sys) evs sent k acks, Z.of_nat (length l) < 2 ^ 31 -> INV (mkLink s sent k acks) ->
  budget (Z.of_nat (length l)) s -> run (serve env key rem) l s = Some (s', evs) -> Forall frame_ok (emitted c0 evs) ->
  INV (mkLink s' (sent ++ emitted c0 evs) k acks).
Proof.
  intros Henv. induction l as [|v l IH]; intros Hl s s' evs sent k acks Hlen I Hb Hrun Hok.
  - injection Hrun as <- <-. by rewrite app_nil_r.
  - simpl in Hrun. destruct (serve env key rem s v) as [[s1 e1]|] eqn:E1; [|done]. cbn [mbind option_bind] in Hrun.
    destruct (run (serve env key rem) l s1) as [[s2 e2]|] eqn:E2; [|done]. injection Hrun as <- <-.
    rewrite emitted_app in *. apply Forall_app in Hok as [Hok1 Hok2].
    rewrite length_cons, Nat2Z.inj_succ in *. unfold Z.succ in *.
    destruct (serve_inv env key rem s s1 v e1 sent k acks (Z.of_nat (length l))) as [I1 Hb1]; auto; [apply Hl; by left|lia|].
    rewrite app_assoc. apply (IH (fun v Hv => Hl v (list_elem_of_further _ _ _ Hv)) s1); auto. lia.
Qed.

(** ** Before the viewers are served *)

Lemma Inv_calmed (s : Sys) c c' sent k acks : connections s !! c0 = Some c -> calmed c c' ->
  INV (mkLink s sent k acks) -> INV (mkLink (set_conn s c0 c') sent k acks).
Proof.
  intros Hc Hcalm [I1 I2 I3 I4]. simpl in *. constructor; simpl; [done|done|by rewrite lookup_insert_eq|].
  intros c2. rewrite lookup_insert_eq. intros [= <-]. by apply (calmed_inv _ _ _ _ c), I4.
Qed.

Lemma budget_calmed n (s : Sys) c c' : connections s !! c0 = Some c -> calmed c c' -> budget n s -> budget n (set_conn s c0 c').
Proof.
  intros Hc Hcalm Hb c2 Hc2. simpl in Hc2. rewrite lookup_insert_eq in Hc2. injection Hc2 as <-. rewrite (ca_seq _ _ Hcalm). by apply Hb.
Qed.

Lemma drain_inv env id (s : Sys) sent k acks n : INV (mkLink s sent k acks) -> budget n s ->
  INV (mkLink (drainFrameReceipts env id s).1 sent k acks) /\ budget n (drainFrameReceipts env id s).1.
Proof.
  intros I Hb. destruct (decide (id = c0)) as [->|Hid].
  2:{ pose proof (drain_untouched c0 env id s Hid). split; [by apply (Inv_untouched s)|by apply (budget_untouched n s)]. }
  unfold drainFrameReceipts. destruct (connections s !! c0) as [c|] eqn:Ec; [|done]. destruct (TracksReceipts _); [|done].
  pose proof (iv_conn _ _ _ _ _ I c Ec) as Ic. simpl in Ic.
  destruct (drain_calmed c0 (DrainFrameReceipts env c0) s c (ci_mode _ _ _ _ _ _ _ _ Ic)) as (c' & -> & Hcalm).
  { intros p Ep. apply (po_receipt _ _ _ _ (ci_pending _ _ _ _ _ _ _ _ Ic p Ep)). }
  split; [by apply (Inv_calmed s c)|by apply (budget_calmed n s c)].
Qed.

Lemma drain_all env l (s s' : Sys) evs sent k acks n : INV (mkLink s sent k acks) -> budget n s ->
  run (fun s connID => Some (drainFrameReceipts env connID s)) l s = Some (s', evs) ->
  INV (mkLink s' sent k acks) /\ budget n s' /\ emitted c0 evs = [].
Proof.
  revert s s' evs. induction l as [|id l IH]; intros s s' evs I Hb Hrun; [by injection Hrun as <- <-|].
  simpl in Hrun. destruct (drain_inv env id s sent k acks n I Hb) as [I1 Hb1]. pose proof (drain_emits c0 env id s) as He.
  destruct (drainFrameReceipts env id s) as [s1 e1]. simpl in *.
  destruct (run _ l s1) as [[s2 e2]|] eqn:E2; [|done]. injection Hrun as <- <-.
  destruct (IH s1 s2 e2 I1 Hb1 E2) as (I2 & Hb2 & He2). by rewrite emitted_app, He, He2.
Qed.

Lemma reconcile_inv env id (s : Sys) sent k acks n : session_env S0 c0 g codec env -> INV (mkLink s sent k acks) -> budget n s ->
  INV (mkLink (reconcile env s id) sent k acks) /\ budget n (reconcile env s id).
Proof.
  intros Henv I Hb. destruct (decide (id = c0)) as [->|Hid].
  2:{ pose proof (reconcile_untouched c0 env id s Hid). split; [by apply (Inv_untouched s)|by apply (budget_untouched n s)]. }
  unfold reconcile. case_bool_decide as Hin; [done|]. destruct (se_known _ _ _ _ _ Henv Hin) as (ex & -> & Hex).
  destruct (connections s !! c0) as [c|] eqn:Ec.
  - rewrite Hex. split; [apply (Inv_calmed s c)|apply (budget_calmed n s c)]; auto; apply calmed_reset.
  - unfold LastVisible. simpl. destruct I as [I1 I2 I3 I4]. simpl in *. split.
    + constructor; simpl; [done|done| |by rewrite lookup_delete_eq]. intros _. rewrite lookup_delete_eq. split; [done|]. by apply I3.
    + intros c Hc. simpl in Hc. by rewrite lookup_delete_eq in Hc.
Qed.
End Serve.
