(* ===== verification/ReplicationSession.v ===== *)
(** * Server and client agree over any link

    The invariant of [ReplicationAgreement] holds in every state the server, the client and
    a network that loses, delays, duplicates and reorders can reach, and what follows. *)

From S2P Require Import Prelude Float32 UdpTransport Replication Quantize QuantizeCodec ClientReplication ReplicationTxn FrameBuild ReplicationClient ReplicationLink ReplicationAgreement ReplicationServe.

Section Session.
Context {G : Type} (S0 : System (G := G)) (c0 g : Z) (codec : Z -> DeltaEncoder) (layout : Z -> list Z).
Abbreviation INV := (Inv S0 c0 g codec).

(** Where a session of the generation [g] starts: the server does not know the connection;
    the client, and what is still in the network, may be of older generations. *)
Record session_start (l : Link (G := G)) : Prop := {
  ss_layouts : forall n, layout_ok (codec n) (layout n);
  ss_mode : ackModeFor S0 c0 = AckExplicit;
  ss_sys : ln_sys l = S0; ss_conn : connections S0 !! c0 = None; ss_visible : lastVisible S0 !! c0 = None;
  ss_sent : forall f, f ∈ ln_sent l -> fr_StreamEpoch f <> g /\ streamGenerationAfter (fr_StreamEpoch f) g = false;
  ss_acks : forall q, (g, q) ∉ ln_acks l;
  ss_client : k_epoch (ln_client l) <> Some g; ss_seq : k_epoch (ln_client l) = None -> k_seq (ln_client l) = None
}.

Lemma start_inv l : session_start l -> INV l.
Proof.
  intros H. destruct H. constructor; rewrite ?ss_sys0.
  - by split_and!.
  - intros f Hf _. by apply ss_sent0.
  - intros _. split; [done|]. split; [intros f Hf; by apply ss_sent0|]. by split_and!.
  - intros c. by rewrite ss_conn0.
Qed.

Lemma tick_inv (s s' : System (G := G)) env sent k acks evs : (forall n, layout_ok (codec n) (layout n)) -> ackModeFor S0 c0 = AckExplicit ->
  session_env S0 c0 g codec env -> within c0 env s -> Z.of_nat (length (ActiveViewers env)) < 2 ^ 31 ->
  Update env s = Some (s', evs) -> Forall frame_ok (emitted c0 evs) -> INV (mkLink s sent k acks) ->
  INV (mkLink s' (sent ++ emitted c0 evs) k acks).
Proof.
  intros Hlay Hmode Henv Hw Hlen Hup Hok I. unfold Update in Hup.
  destruct (run _ (connIDs env s) s) as [[s1 e1]|] eqn:E1; [|done]. cbn [mbind option_bind] in Hup.
  destruct (drain_all S0 c0 g codec env _ s s1 e1 sent k acks _ I Hw E1) as (I1 & B1 & He1).
  set (s2 := foldl (reconcile env) s1 (connIDs env s1)) in *.
  assert (INV (mkLink s2 sent k acks) /\ budget c0 (Z.of_nat (length (ActiveViewers env))) s2) as [I2 B2].
  { unfold s2. generalize (connIDs env s1) as l. clear -Henv I1 B1. intros l. revert s1 I1 B1.
    induction l as [|id l IH]; intros s1 I1 B1; [done|]. simpl.
    apply IH; by apply (reconcile_inv S0 c0 g codec env id s1 sent k acks _ Henv I1 B1). }
  destruct (run (serve env _ _) (ActiveViewers env) s2) as [[s3 e3]|] eqn:E3; [|done]. injection Hup as <- <-.
  rewrite emitted_app, He1, app_nil_l in *. eapply (serve_all S0 c0 g codec layout Hlay Hmode env); eauto.
Qed.

Lemma arrival_inv (s : System (G := G)) sent k acks f k' a : f ∈ sent ->
  Deliver (deltaEncoders s) (fr_StreamEpoch f) (encode_body f) k = Some (k', a) -> INV (mkLink s sent k acks) ->
  INV (mkLink s sent k' (acks ++ option_list ((fun q => (fr_StreamEpoch f, q)) <$> a))).
Proof.
  intros Hf HD [I1 I2 I3 I4]. simpl in *. constructor; simpl; [done|done| |].
  - intros Hn. destruct (I3 Hn) as (H1 & H2 & H3 & H4 & H5). split; [done|]. split; [done|].
    assert (forall q, (g, q) ∉ acks ++ option_list ((fun q => (fr_StreamEpoch f, q)) <$> a)) as Hacks.
    { intros q [Hq|Hq]%elem_of_app; [by destruct (H4 q)|]. destruct a; simpl in Hq; [|by apply elem_of_nil in Hq].
      apply list_elem_of_singleton in Hq as [= E _]. by destruct (H2 f Hf). }
    destruct (Deliver_epoch _ _ _ _ _ _ HD) as [[-> _]|(k1 & E1 & Ek)]; [done|]. rewrite (enter_epoch _ _ _ E1) in Ek.
    rewrite Ek. split_and!; [intros [= E]; by destruct (H2 f Hf)|done|done].
  - intros c Hc. destruct I1 as (_ & Henc & _). rewrite Henc in HD. eapply arrive_inv; eauto.
Qed.

Lemma acknowledgement_inv (s s' : System (G := G)) sent k acks e q evs : (e, q) ∈ acks -> AckFrame c0 e q s = (s', evs) ->
  INV (mkLink s sent k acks) -> INV (mkLink s' sent k acks).
Proof.
  intros Hin HA I. unfold AckFrame in HA. destruct (connections s !! c0) as [c|] eqn:Ec; [|by injection HA as <- <-].
  destruct (pending c) as [p|] eqn:Ep; [|by injection HA as <- <-].
  destruct (_ || _ || _ || _) eqn:Eg; [by injection HA as <- <-|].
  apply orb_false_iff in Eg as [[[Hm Hr]%orb_false_iff He]%orb_false_iff Hq]. apply negb_false_iff, Z.eqb_eq in He, Hq.
  pose proof (iv_conn _ _ _ _ _ I c Ec) as Ic. simpl in Ic. pose proof (ci_pending _ _ _ _ _ _ _ _ Ic p Ep) as Hp.
  rewrite (po_epoch _ _ _ _ Hp) in He. subst e q. unfold commitPendingAttempt in HA. rewrite Ep in HA. injection HA as <- <-.
  destruct I as [I1 I2 I3 I4]. simpl in *. constructor; simpl; [done|done|by rewrite lookup_insert_eq|].
  intros c'. rewrite !lookup_insert_eq. intros [= <-]. by eapply ack_inv.
Qed.

Lemma link_inv l l' : (forall n, layout_ok (codec n) (layout n)) -> ackModeFor S0 c0 = AckExplicit ->
  link_step S0 c0 g codec l l' -> INV l -> INV l'.
Proof.
  intros Hlay Hmode [env s sent k acks s' evs Henv Hw Hlen Hup Hok|s sent k acks f k' a Hf HD|s sent k acks e q s' evs Hin HA] I.
  - by apply (tick_inv s s' env).
  - by apply (arrival_inv s sent k acks f).
  - by apply (acknowledgement_inv s s' sent k acks e q evs).
Qed.

Lemma reached_inv l0 l : session_start l0 -> rtc (link_step S0 c0 g codec) l0 l -> INV l.
Proof.
  intros Hs Hr. pose proof (start_inv _ Hs) as I. destruct Hs as [Hlay Hmode _ _ _ _ _ _ _].
  revert I. induction Hr as [|l0 l1 l2 H1 H2 IH]; intros I; [done|]. apply IH. by apply (link_inv l0).
Qed.

(** ** What follows *)

(** A frame of the stream can be applied whenever it arrives. *)
Lemma deliverable encs V c sent k acks f : ConnInv g codec encs V c sent k acks -> f ∈ sent -> fr_StreamEpoch f = g ->
  exists k' a, Deliver encs g (encode_body f) k = Some (k', a).
Proof.
  intros I Hf Eg. destruct (ci_frames _ _ _ _ _ _ _ _ I f Hf Eg) as [Hok Hseq].
  pose proof (Deliver_frame encs f k Hok) as E. rewrite Eg in E. rewrite E. clear E.
  destruct (enter g k) as [k1|] eqn:E1; [|by eexists _, _]. destruct (stale (fr_Seq f) k1) eqn:Es; [by eexists _, _|].
  assert (exists m, applied encs f (k_base k1) = Some m) as [m ->]; [|by eexists _, _].
  destruct (ci_ready _ _ _ _ _ _ _ _ I f Hf Eg) as [Ha|[Hall|(Ek & Hk & _)]].
  - destruct Ha as (j & Ek & Ej & Hle). unfold enter in E1. rewrite Ek, Z.eqb_refl in E1. injection E1 as <-.
    destruct (ci_client _ _ _ _ _ _ _ _ I Ek) as (j' & Ej' & Hj'). rewrite Ej in Ej'. injection Ej' as <-.
    pose proof (ci_seq _ _ _ _ _ _ _ _ I). unfold stale in Es. rewrite Ej, after_lt in Es by lia.
    apply negb_false_iff, Z.ltb_lt in Es. lia.
  - destruct (Hall (k_base k1)) as (m & Em & _). by exists m.
  - unfold enter in E1. rewrite Ek, Z.eqb_refl in E1. injection E1 as <-. destruct Hk as (m & Em & _). by exists m.
Qed.

(** C5: over a link that may lose, delay, duplicate and reorder frames and
    acknowledgements, in every reachable state of a session: when no attempt is in flight
    and no fresh frame is due, the client has exactly the snapshots the server holds as
    acknowledged for what is visible, so the next delta's baseline is the client's; a client
    that accepted the frame in flight already has what acknowledging it will record; and any
    frame of the stream, arriving in any order, is decoded without a panic. *)
Theorem lossy_link_agreement l0 l c : session_start l0 -> rtc (link_step S0 c0 g codec) l0 l ->
  connections (ln_sys l) !! c0 = Some c ->
  (pending c = None -> forceFresh c = false -> forall X, lastVisible (ln_sys l) !! c0 = Some X ->
    k_epoch (ln_client l) = Some g /\
    forall n, n ∈ X -> exists snap, acked_of (cs_store c) n = Some snap /\ k_base (ln_client l) !! n = Some snap) /\
  (forall p, pending c = Some p -> accepted g (ln_client l) (pn_seq p) -> forall n, n ∈ pn_visible p ->
    exists snap, acked_of (commitExplicit (pn_seq p) (pn_txn p) (cs_store c)) n = Some snap /\ k_base (ln_client l) !! n = Some snap) /\
  (forall f, f ∈ ln_sent l -> fr_StreamEpoch f = g ->
    exists k' a, Deliver (deltaEncoders S0) g (encode_body f) (ln_client l) = Some (k', a)).
Proof.
  intros Hs Hr Hc. pose proof (iv_conn _ _ _ _ _ (reached_inv _ _ Hs Hr) c Hc) as I. split; [|split].
  - intros Hp Hf X HX. destruct (ci_idle _ _ _ _ _ _ _ _ I Hp Hf X HX) as (Hk & Hb & _). split; [done|]. intros n Hn.
    destruct (ci_known _ _ _ _ _ _ _ _ I X HX n Hn) as (snap & Ha & _). exists snap. by rewrite Hb.
  - intros p Ep Ha n Hn. pose proof (ci_pending _ _ _ _ _ _ _ _ I p Ep) as Hp. rewrite (po_seq _ _ _ _ Hp) in Ha.
    destruct (ci_held _ _ _ _ _ _ _ _ I Ha p Ep (po_seq _ _ _ _ Hp) n Hn) as (snap & Ho & Hm). exists snap. split; [|done].
    by rewrite acked_commitExplicit by apply Hp.
  - intros f Hf Eg. by apply (deliverable _ _ _ _ _ _ _ I Hf).
Qed.
End Session.

(** ** A session *)

(** One entity of two bytes, the first of which is the game's; every frame is queued. *)
Definition ex_replicator : EntityReplicator (G := Z) :=
  mkReplicator (fun w _ _ => components w) (fun w _ _ => [components w; 7]) [1; 1] (fun _ _ _ => []) false (fun _ _ _ => 0) None None None.
Definition ex_system : System (G := Z) :=
  NewReplicationSystem (mkConfig {[0 := ex_replicator]} f32_one 0 0 AckExplicit None 0 0 0 0 0 false false).
Definition ex_viewer : ViewerInfo := mkViewer 1 20 f32_zero f32_zero f32_zero 0.
Definition ex_env (tick value : Z) : Env (G := Z) :=
  mkEnv tick (mkWorld (fun _ => true) (fun e => if e =? 10 then Some (1, 0) else None) (fun _ => None) (fun _ => false) (fun _ => None) value)
    [ex_viewer] None None None (fun _ _ => [mkEntry 10 f32_zero f32_zero f32_zero]) (Some (fun _ => Some 5)) None (fun _ => 0)
    (fun _ => queuedSend DeliveryBestEffort) (fun _ => []) id.
Definition ex_codec (n : Z) : DeltaEncoder := NewDeltaEncoder [1; 1].

Definition ex_tick (tick value : Z) (l : Link (G := Z)) : Link :=
  match Update (ex_env tick value) (ln_sys l) with
  | Some (s, evs) => mkLink s (ln_sent l ++ emitted 1 evs) (ln_client l) (ln_acks l)
  | None => l
  end.
Definition ex_arrive (i : nat) (l : Link (G := Z)) : Link :=
  match ln_sent l !! i with
  | Some f =>
      match Deliver (deltaEncoders (ln_sys l)) (fr_StreamEpoch f) (encode_body f) (ln_client l) with
      | Some (k, a) => mkLink (ln_sys l) (ln_sent l) k (ln_acks l ++ option_list ((fun q => (fr_StreamEpoch f, q)) <$> a))
      | None => l
      end
  | None => l
  end.
Definition ex_ack (i : nat) (l : Link (G := Z)) : Link :=
  match ln_acks l !! i with
  | Some (e, q) => mkLink (AckFrame 1 e q (ln_sys l)).1 (ln_sent l) (ln_client l) (ln_acks l)
  | None => l
  end.
Definition ex_start : Link := mkLink ex_system [] (mkClient None None ∅) [].

(** A snapshot, a frame that is lost, its timeout; a snapshot again, and a delta. *)
Definition ex_before : Link := ex_tick 12 2 (ex_tick 1 1 ex_start).
Definition ex_end : Link := ex_ack 1 (ex_arrive 2 (ex_tick 13 3 (ex_ack 0 (ex_arrive 1 ex_before)))).

Lemma ex_entries s tick value v : same_static ex_system s -> Forall (entry_ok s (ex_env tick value) v ex_codec) [mkEntry 10 f32_zero f32_zero f32_zero].
Proof.
  intros (Hcfg & Henc & _ & _). apply Forall_singleton. intros visible n epoch ty rep. unfold shown. rewrite Hcfg, Henc. simpl.
  case_bool_decide; [done|]. rewrite lookup_singleton_eq. simpl. case_match; [done|]. intros [= <- <- <- <-]. by vm_compute.
Qed.

Lemma ex_session tick value : session_env ex_system 1 5 ex_codec (ex_env tick value).
Proof.
  constructor; simpl.
  - done.
  - intros H. destruct H. by left.
  - intros s v r Hs _. by apply ex_entries.
Qed.

#[local] Instance frame_ok_dec f : Decision (frame_ok f).
Proof.
  unfold frame_ok, frame_fits, full_fits, delta_fits, short, in_u32. repeat apply and_dec; try apply _. destruct (fr_InputAck f); apply _.
Defined.

(** The side conditions of a tick. *)
Definition ex_allowed (tick value : Z) (l : Link (G := Z)) : bool :=
  match connections (ln_sys l) !! 1 with Some c => nextSeq c + 1 <? 2 ^ 31 | None => true end &&
  match Update (ex_env tick value) (ln_sys l) with
  | Some (_, evs) => forallb (fun f => bool_decide (frame_ok f)) (emitted 1 evs)
  | None => false
  end.

Lemma ex_tick_step tick value (l : Link) : ex_allowed tick value l = true -> link_step ex_system 1 5 ex_codec l (ex_tick tick value l).
Proof.
  unfold ex_allowed, ex_tick. intros [Hc He]%andb_true_iff. destruct (Update _ _) as [[s evs]|] eqn:E; [|done].
  destruct l as [s0 sent k acks]. simpl in *.
  apply (link_tick _ _ _ _ (ex_env tick value) s0 sent k acks s evs); [apply ex_session| |done|exact E|].
  - intros c Ec. rewrite Ec in Hc. by apply Z.ltb_lt in Hc.
  - apply Forall_forall. intros f Hf. rewrite forallb_forall in He. by apply (bool_decide_eq_true (frame_ok f)), He, list_elem_of_In.
Qed.

Lemma ex_arrive_step i (l : Link) : is_Some (f ← ln_sent l !! i; Deliver (deltaEncoders (ln_sys l)) (fr_StreamEpoch f) (encode_body f) (ln_client l)) ->
  link_step ex_system 1 5 ex_codec l (ex_arrive i l).
Proof.
  unfold ex_arrive. destruct l as [s sent k acks]. simpl. intros [[k' a] H]. destruct (sent !! i) as [f|] eqn:E; [|done]. simpl in H.
  rewrite H. apply link_arrive; [by eapply list_elem_of_lookup_2|done].
Qed.

Lemma ex_ack_step i (l : Link) : is_Some (ln_acks l !! i) -> link_step ex_system 1 5 ex_codec l (ex_ack i l).
Proof.
  unfold ex_ack. destruct l as [s sent k acks]. simpl. intros [[e q] E]. rewrite E.
  eapply (link_ack _ _ _ _ s sent k acks e q _ (AckFrame 1 e q s).2); [by eapply list_elem_of_lookup_2|]. by destruct (AckFrame 1 e q s).
Qed.

Lemma ex_run : rtc (link_step ex_system 1 5 ex_codec) ex_start ex_end.
Proof.
  eapply rtc_l; [by apply (ex_tick_step 1 1); vm_compute|].
  eapply rtc_l; [by apply (ex_tick_step 12 2); vm_compute|].
  eapply rtc_l; [apply (ex_arrive_step 1); vm_compute; by eexists|].
  eapply rtc_l; [apply (ex_ack_step 0); vm_compute; by eexists|].
  eapply rtc_l; [by apply (ex_tick_step 13 3); vm_compute|].
  eapply rtc_l; [apply (ex_arrive_step 2); vm_compute; by eexists|].
  eapply rtc_l; [apply (ex_ack_step 1); vm_compute; by eexists|].
  unfold ex_end, ex_before. apply rtc_refl.
Qed.

Lemma ex_started : session_start ex_system 1 5 ex_codec (fun _ => [1; 1]) ex_start.
Proof.
  constructor; try done.
  - intros n. split; [done|]. vm_compute. repeat constructor; discriminate.
  - intros f Hf. by apply elem_of_nil in Hf.
  - intros q Hq. by apply elem_of_nil in Hq.
Qed.

Lemma ex_idle c : connections (ln_sys ex_end) !! 1 = Some c -> pending c = None /\ forceFresh c = false.
Proof.
  assert ((fun c => (pending c, forceFresh c)) <$> connections (ln_sys ex_end) !! 1 = Some (None, false)) as E by (vm_compute; reflexivity).
  revert E. generalize (connections (ln_sys ex_end) !! 1) as o. intros o E ->. by injection E as -> ->.
Qed.

Lemma ex_known : is_Some (connections (ln_sys ex_end) !! 1) /\ lastVisible (ln_sys ex_end) !! 1 = Some {[1]}.
Proof. split; [vm_compute; by eexists|vm_compute; reflexivity]. Qed.

Lemma lossy_link_agreement_witness :
  rtc (link_step ex_system 1 5 ex_codec) ex_start ex_end /\ length (ln_sent ex_end) = 3%nat /\
  k_base (ln_client ex_end) !! 1 = Some [3; 7] /\
  exists c snap, connections (ln_sys ex_end) !! 1 = Some c /\ acked_of (cs_store c) 1 = Some snap /\
    k_base (ln_client ex_end) !! 1 = Some snap.
Proof.
  split; [exact ex_run|]. split; [reflexivity|]. split; [vm_compute; reflexivity|].
  destruct ex_known as [[c Ec] EV]. exists c. destruct (ex_idle c Ec) as [Hp Hf].
  destruct (lossy_link_agreement ex_system 1 5 ex_codec (fun _ => [1; 1]) ex_start ex_end c ex_started ex_run Ec) as (H & _).
  destruct (H Hp Hf {[1]} EV) as [_ Hin]. destruct (Hin 1) as (snap & H1 & H2); [apply elem_of_singleton; reflexivity|].
  exists snap. split; [exact Ec|]. split; [exact H1|exact H2].
Defined.
